(* ===== verification/_CoqProject ===== *)
-Q . S2P
Prelude.v
GoLib.v
GoText.v
GoFloat.v
GoAuth.v
CpeErr.v
Types.v
Node.v
Tree.v
TreeProps.v
Batch.v
Objects.v
ObjectsProps.v
Listing.v
Graft.v
TreeInv.v
EventTracker.v
Retry.v
Soap.v
Inform.v
Xml.v
Decoder.v
Handler.v
Cpe.v
SetParameterValues.v
Queries.v
Actions.v
SetParameterAttributes.v
Session.v
RunSession.v
SessionRunner.v
UspPaths.v
UspQueries.v
UspDiscovery.v
UspWrites.v
UspDelete.v
UspMessages.v
UspSubscriptions.v
UspAsync.v
UspRunner.v
Scheduler.v
Generators.v
Ticker.v
Stun.v
StunClient.v
HttpAuth.v
CrAuth.v
AuthProps.v
TreeFrame.v
Sha.v
SoftwareModules.v
ModulesFrame.v
ModulesProps.v
ModulesRoundtrip.v
ModulesGlue.v
ModulesInventory.v
Firmware.v
LinkFault.v
Schedules.v
SchedulesProps.v
DarkWindow.v
Fleet.v
FleetProps.v
Rows.v
RowsTree.v
RowsProps.v
Blocks.v
Loader.v
LoaderProps.v
Diagnostics.v
DiagnosticsProps.v
UspBulk.v
UspBulkProps.v
GoFlag.v
CpeConfig.v
CpeConfigProps.v
Mqtt.v
MqttProps.v
Startup.v
StartupProps.v
