(* ===== verification/Prelude.v ===== *)
(** * cpe-labs in Rocq

    cpe-labs simulates TR-069 (CWMP) customer-premises equipment: one process
    runs a fleet of CPEs, each with a parameter tree, a tracker of what it
    still owes its ACS, a session engine that speaks SOAP to the ACS, and a
    runner that serialises its sessions. A CPE may speak TR-369 (USP) instead:
    an agent answers its controller's messages from the same tree. This library
    models that core and proves it correct. All paths below are under [src/].

    ** The program and its model

    The data of a CPE is its parameter tree ([internal/paramtree]). A session
    ([internal/cwmp/session.go]) sends an Inform, then the RPCs the CPE owes,
    then serves the ACS's requests, each through a handler
    ([internal/cwmp/handlers]) that reads or writes the tree and the tracker.
    [RunSession] ([internal/cwmp/runsession.go]) surrounds a session with the
    tracker's bookkeeping, and the session runner ([cmd/cpe-sim/main.go])
    decides which goroutine runs one and when.

    - [Prelude]: results, the error monad, list lemmas, the [result] rewrite
      hints and [res_inv].
    - [GoLib], [GoText]: what the program uses of Go's [strings], [strconv],
      [sort], [utf8], [base64] and [time], on byte strings.
    - [CpeErr]: [internal/cpeerr/cpeerr.go]. A formatted error keeps its format
      and its arguments; [Error_text] renders it.
    - [Types]: [internal/paramtree/value.go] and [types.go].
    - [Node]: [internal/paramtree/node.go] and [path.go].
    - [Tree], [Batch], [Objects], [Listing], [Graft]: the operations of
      [internal/paramtree/paramtree.go], [observe.go] and [graft.go].
      [TreeProps], [ObjectsProps], [TreeInv]: what they promise.
    - [EventTracker], [Retry]: [internal/cwmp/eventtracker.go], [retry.go],
      [aftersession.go].
    - [Soap], [Inform]: what the CPE writes: [internal/cwmp/soap/encoder.go],
      [types.go], [internal/cwmp/inform], [internal/cwmp/transfer],
      [internal/cwmp/dustate].
    - [Xml], [Decoder]: what it reads: the token streams of [encoding/xml] and
      [internal/cwmp/soap/decoder.go].
    - [Handler], [SetParameterValues], [Queries], [Actions],
      [SetParameterAttributes]: [internal/cwmp/handler.go] and
      [internal/cwmp/handlers]. [Cpe]: the state of one CPE as
      [cmd/cpe-sim/main.go] wires it.
    - [Session], [RunSession], [SessionRunner]: [internal/cwmp/session.go],
      [runsession.go], and [sessionRunner] of [cmd/cpe-sim/main.go].
    - [UspPaths], [UspQueries], [UspDiscovery], [UspWrites], [UspDelete]: the
      handlers of [internal/usp/agent/operations.go] and [messages.go]: search
      paths, Get, GetInstances and GetSupportedDM, Set and Add, Delete.
    - [UspMessages], [UspSubscriptions], [UspAsync], [UspRunner]: what the agent
      says of its own accord ([messages.go], [subscriptions.go]), commands and
      their request rows ([async.go]), envelopes and dispatch ([runner.go],
      [internal/usp/codec/codec.go]).

    - [GoFloat]: 64-bit floats and their rounding, on the Standard Library's
      [SpecFloat].
    - [Scheduler]: periodic informs and one-shots,
      [internal/cwmp/scheduler/scheduler.go]. [Generators]: the value generators
      ([internal/generators]) and the validation of their profile block
      ([validateGenerator] of [internal/paramtree/profile.go]). [Ticker]: the
      generators' runners and the queue they share
      ([internal/generators/generators.go], [scheduler.go]). [Stun],
      [StunClient]: [internal/cwmp/stun/codec.go], [client.go].
    - [GoAuth]: base64, hexadecimal and case. [HttpAuth]: the client side of
      HTTP authentication, [internal/cwmp/transport/auth.go], [transport.go].
      [CrAuth]: the server side, [internal/cwmp/cr/auth.go], [listener.go].
      [AuthProps]: what the two promise, and that they understand each other.
    - [SoftwareModules]: deployment units, [internal/softwaremodules] and the
      types of [internal/paramtree/app.go]. [Sha]: hashes, and the UUIDs they are given.
      [ModulesGlue]: how CWMP and USP drive them,
      [cmd/cpe-sim/softwaremodules.go], [usp_softwaremodules.go]. [TreeFrame]:
      which tree operations leave which rows alone. [ModulesFrame],
      [ModulesProps], [ModulesRoundtrip], [ModulesInventory]: what an operation
      leaves behind.
    - [Firmware]: images, [internal/firmwareimage], and the USP firmware
      commands, [cmd/cpe-sim/usp_firmware.go]. [LinkFault]:
      [internal/paramtree/linkfault.go]. [Schedules]: transfers, the firmware
      sequence, reboots, factory resets and uplink faults as interleaved calls,
      [cmd/cpe-sim/main.go], [firmware.go], [linkfault.go]. [SchedulesProps],
      [DarkWindow]: what they promise.
    - [Fleet]: address pools, [internal/paramtree/fleet.go], and the
      placeholders and serial numbers of [cmd/cpe-sim/main.go]. [FleetProps]:
      what they promise.
    - The profile loader ([internal/paramtree/profile.go]): [Rows], from
      declarations to a tree; [Blocks], the bulk-data, diagnostics and
      software-modules blocks ([bulkdata.go], [diagnostic.go], [app.go]);
      [Loader], the merge of the files of a profile, files, directories and app
      manifests ([app.go]). The generator, firmware and link-fault blocks are in
      [Generators], [Firmware] and [LinkFault], the pools in [Fleet].
      [RowsTree], [RowsProps], [LoaderProps]: what a loaded profile is.
    - [Diagnostics]: triggered diagnostics, [internal/diagnostics], as
      interleaved calls and runs. [DiagnosticsProps]: what they promise.
    - [UspBulk]: bulk data over USP, [internal/usp/agent/bulkdata.go].
      [UspBulkProps]: what its reports hold and when they go out.
    - [GoFlag]: what the program uses of Go's [flag] package, with the prefixed
      integers and the booleans of [strconv]. [CpeConfig]: defaults, file,
      environment and command line, [internal/cpeconfig], the log options of
      [internal/cpelog] and the seeds of [internal/cperng]. [CpeConfigProps]:
      what a loaded configuration is.
    - [Mqtt]: topics, credentials and publishing of the USP transport and the
      uplink it can lose, [internal/usp/mtp/mqtt]. Its passwords need [Sha].
      [MqttProps]: what the two promise.
    - [Startup]: what [run], [buildFleet], [buildCPEStack] and [bootstrapAll] of
      [cmd/cpe-sim/main.go] decide, the session and handlers of a device, and the
      commands and identity of a USP agent ([usp.go]). [StartupProps]: the fleet,
      its endpoints and its ramp, and what a wired device does.

    ** How code becomes definitions

    An operation on an object behind a mutex is a function from the object to
    the object it leaves. A function that returns a value and an error returns
    a [result]. The tree's operations also return the changes they hand to
    observers. A handler is a function of the CPE's state and of the tokens of
    the request; it asks of the state only the interfaces [HasTree],
    [HasTracker], [HasAfterSession] and [HasRetry], which [Cpe.CPE]
    implements. A session is a computation in a state-and-error monad. The
    runner, where goroutines meet, is a step relation: one step for each
    critical section, and any interleaving.

    The transport, the XML lexer, protobuf, the clock, [%q] and the random source are
    not code under [src/], or only connect to it: they are parameters ([Env],
    [OnFailure]'s source), and theorems quantify over them. Theorems about what
    a decoder reads are about [xml] documents and the tokens they give.

    ** What is shown

    - The tree: each read and write refines a specification that sees a tree
      as a partial function from paths to values ([TreeProps]); batches are
      atomic and report every fault ([Batch]); objects are added and removed
      with their counters and the two undo each other ([ObjectsProps]);
      listings are complete and ordered ([Listing]); a graft is the union of
      two trees or nothing, and can be undone ([Graft]); every tree the
      operations reach, grafts and unmounts included, is well typed as long as
      what they are given is ([TreeInv]).
    - The tracker: each session announces exactly what is owed, once;
      BOOTSTRAP until acknowledged. The retry waits stay in their bands.
    - The handlers: for each, what it answers on every branch and what it
      leaves of the CPE, down to the request's elements.
    - The wire: escaping is reversible; an Inform built from a well-typed tree
      renders; the decoder reads every envelope of the grammar it accepts.
    - Sessions, over any transport, which a trace of the exchanges records: a
      session ends, and says nothing after an empty reply; every request of the
      ACS is answered in the next exchange; one that succeeds has said and
      served everything, one that fails has lost nothing.
    - USP: search paths stand for exactly the paths that match; every envelope
      is answered once or not at all; Get, GetInstances and GetSupportedDM
      report exactly what the tree has; Set, Add and Delete do exactly what
      they report, an Add that fails undoing itself; a change reaches exactly
      the subscriptions whose leaves ask for it; no command runs twice at once.
    - Timers: an enabled CPE never falls silent, whatever is written to its
      tree and in any interleaving; a phase is kept to the nanosecond; a
      cancelled one-shot does not run. A generator a profile may ask for keeps
      ticking within its leaf's type, and no generator loses its slot in the
      shared queue or has two.
    - STUN: a message is read back from its encoding; no connection request is
      replayed while one loop at a time has a request in hand; the tree holds
      the binding last found; retransmission is paced and ends.
    - Authentication: no digest is accepted twice; a transport that knows the
      credentials passes the listener's digests for as long as it likes;
      connection requests are throttled.
    - Software modules: a failed install leaves nothing behind; an uninstall
      undoes an install; the inventory follows the reports; each operation of a
      batch is reported once and no failure reads as a success; one USP
      operation is in flight at a time.
    - Deferred work: every accepted transfer is reported once unless it was
      called off; a dark CPE comes back unless its image was called off.
    - Fleets: when the capacity check passes, every instance has an address in
      every pool and none is given twice; start-up turns each value into what
      its pieces say.
    - Profiles: the tree of a loaded profile holds exactly what its rows
      declare, templates included, whatever the order of Go's maps, and is well
      typed when its values carry no placeholder; every path a block names is
      there, with the type and permission that block checks; two files cannot
      declare the same block.
    - Diagnostics: a trigger can be answered, the count before the state; one
      live run at a time.
    - Bulk data: a report holds exactly what its references cover; a tick
      reports the profiles that are due; a profile keeps its cadence.
    - Configuration: flags beat the environment, the environment the file, the
      file the defaults; nothing under the prefix is overlooked; what loads is
      valid.
    - MQTT: an answer goes to the topic its controller asked for; no socket is
      lost across an outage; a cut is silent.
    - Start-up: the fleet is complete and in order however its builders
      interleave, and building it ends; every device has an endpoint and tells
      the ACS of it; bootstraps are spread over the ramp; a device accepts the
      methods it advertises; a factory reset restores the template and re-arms
      BOOTSTRAP.
    - The runner: one session at a time; in every fair execution a deferred
      trigger, or one that outranks it, is run; what the one-slot latch keeps,
      and what it loses.

    Theorems of what the code does against its intent ([retry_without_events],
    [value_change_lost], [du_state_displaced], [two_retry_timers],
    [GPN_through_leaf], [Unmount_refuses_grafted_instance],
    [Walk_order_not_lexicographic], [failed_set_half_written],
    [nested_in_object_missed], [control_character_raw], [far_phase_missed],
    [huge_step_escapes], [huge_gauge_step_panics], [wide_gauge_never_ticks],
    [stale_settings], [keepalive_displaces_change],
    [wrong_answer_burns_count], [cancelled_update_names_dead_unit],
    [failed_update_keeps_failed_url], [duplicate_ignores_environment],
    [superseded_in_the_dark], [fetch_not_superseded], [two_reboots_pending],
    [outage_ended_by_image], [factory_reset_mutes], [factory_reset_unstamps],
    [first_subprefix_skipped], [ill_typed_instance], [added_row_ill_typed],
    [trailing_dot_template], [empty_table_hides_duplicates],
    [manifest_keeps_bulk_data], [unchecked_result_count],
    [superseded_run_completes], [rescan_ignored], [other_spelling_ignored],
    [ill_typed_never_completes], [changed_reference_ignored],
    [far_reference_is_due], [master_switch_unread], [no_retention_keeps],
    [skipped_row_stays], [first_config_read], [value_scanned], [octal_flag],
    [empty_counts_for_usp], [dial_survives_cut], [long_ramp_wraps],
    [wrapped_offset_unchecked], [factory_reset_unpublishes],
    [usp_reset_keeps_tree], [unknown_names_hide_faults],
    [other_spelling_registered], [duplicate_name_loses] and
    [overlapping_loops_replay]) are next to the ones that hold.

    ** Bounds and fuel

    Integers have their widths written out ([int32], [uint32], 64-bit [int],
    the [uint] retry count). Token loops take the length of their stream as
    fuel, which is enough since every turn consumes a token
    ([Xml.scan_fuel], [solve_shrinks]). The drain loop of a session takes the
    number of turns it may look at, [None] being a session still running:
    [Session.Run_ends] shows that more turns than the ACS has replies is
    enough. The search for a free instance number takes the number of used
    ones; the listing of nested instances takes the size of the tree, which
    bounds its depth. The step past the present of a bulk data profile takes the
    number of intervals to it ([turns_enough]).

    ** What is not modelled

    The sockets, TLS and cookies of the HTTP transport have no model; YAML, the
    file system, [time.ParseDuration] and [net] are parameters of [Loader] and
    [CpeConfig], and the Paho client and the broker are the moves of [Mqtt]. The
    fetch and the loading of an app manifest are parameters of
    [SoftwareModules], of which the second is [Loader.LoadAppManifest]. A range
    over a map literal takes the literal's order. Log lines and generated
    protobuf code have no model. [Startup] models what start-up computes and
    checks; that [run] then starts goroutines, waits for a signal and stops them
    in turn is not modelled. Cancellation by context ends a session with a
    transport error, which the transport parameter may return at any time. *)
From Stdlib Require Import ZArith Lia Ascii String.
From stdpp Require Export base option list gmap sets fin_maps strings sorting pretty.
From Hammer Require Export Tactics.
#[global] Open Scope string_scope.
#[global] Open Scope list_scope.

(** ** Results

    A Go function returning [(T, error)] is modelled as a [result E T]: the
    code under [src/] never reads the value of a call that returned a non-nil
    error. *)
Inductive result (E A : Type) : Type :=
| Ok (a : A)
| Err (e : E).
Arguments Ok {E A} a.
Arguments Err {E A} e.

#[export] Instance result_eq_dec {E A} `{!EqDecision E, !EqDecision A} :
  EqDecision (result E A).
Proof. solve_decision. Defined.

(** Comparing with a success needs no comparison of errors. *)
#[export] Instance result_ok_dec {E A} `{!EqDecision A} (r : result E A) (a : A) : Decision (r = Ok a).
Proof.
  refine (match r with Ok b => cast_if (decide (b = a)) | Err _ => right _ end); congruence.
Defined.

#[export] Instance result_ret {E} : MRet (result E) := λ A a, Ok a.
#[export] Instance result_bind {E} : MBind (result E) := λ A B f r,
  match r with Ok a => f a | Err e => Err e end.
#[export] Instance result_fmap {E} : FMap (result E) := λ A B f r,
  match r with Ok a => Ok (f a) | Err e => Err e end.

Definition is_ok {E A} (r : result E A) : bool :=
  match r with Ok _ => true | Err _ => false end.

Definition map_err {E F A} (f : E → F) (r : result E A) : result F A :=
  match r with Ok a => Ok a | Err e => Err (f e) end.

(** [if !b { return err }] *)
Definition guard_err {E} (b : bool) (e : E) : result E unit :=
  if b then Ok tt else Err e.

Definition from_option_err {E A} (e : E) (o : option A) : result E A :=
  match o with Some a => Ok a | None => Err e end.

Lemma result_bind_ok {E A B} (f : A → result E B) r b :
  (r ≫= f) = Ok b ↔ ∃ a, r = Ok a ∧ f a = Ok b.
Proof. destruct r; naive_solver. Qed.

Lemma result_bind_err {E A B} (f : A → result E B) r e :
  (r ≫= f) = Err e ↔ r = Err e ∨ ∃ a, r = Ok a ∧ f a = Err e.
Proof. destruct r; naive_solver. Qed.

Lemma guard_err_ok {E} b (e : E) u : guard_err b e = Ok u ↔ b = true.
Proof. destruct b, u; naive_solver. Qed.

Lemma guard_err_err {E} b (e e' : E) : guard_err b e = Err e' ↔ b = false ∧ e = e'.
Proof. destruct b; naive_solver. Qed.

Lemma map_err_ok {E F A} (f : E → F) (r : result E A) a :
  map_err f r = Ok a ↔ r = Ok a.
Proof. destruct r; naive_solver. Qed.

Lemma map_err_err {E F A} (f : E → F) (r : result E A) e :
  map_err f r = Err e ↔ ∃ e', r = Err e' ∧ e = f e'.
Proof. destruct r; naive_solver. Qed.

Lemma from_option_err_ok {E A} (e : E) (o : option A) a :
  from_option_err e o = Ok a ↔ o = Some a.
Proof. destruct o; naive_solver. Qed.

Lemma from_option_err_err {E A} (e e' : E) (o : option A) :
  from_option_err e o = Err e' ↔ o = None ∧ e' = e.
Proof. destruct o; naive_solver. Qed.

Create Rewrite HintDb result.
#[export] Hint Rewrite @result_bind_ok @result_bind_err @guard_err_ok
  @guard_err_err @map_err_ok @map_err_err @from_option_err_ok
  @from_option_err_err : result.

(** Takes a hypothesis that a monadic body returned [Ok] or [Err] apart into
    the equations of its steps. *)
Ltac res_inv H := autorewrite with result in H; destruct_and?; destruct_or?.

(** Case analysis on the scrutinee of the first [match] in the goal or a
    hypothesis, keeping the equation. *)
Ltac case_match_in H :=
  match type of H with
  | context [ match ?x with _ => _ end ] => destruct x eqn:?
  end; try discriminate H.
Ltac break_hyps :=
  repeat match goal with
  | H : ∃ _, _ |- _ => destruct H
  | H : _ ∧ _ |- _ => destruct H
  | H : _ ∨ _ |- _ => destruct H
  end.
Ltac res_break := repeat (progress (autorewrite with result in *; break_hyps)).
Ltac des_goal :=
  match goal with
  | |- context [ match ?x with _ => _ end ] => destruct x eqn:?
  end.

(** ** Lists *)

Lemma last_snoc_inv {A} (l : list A) : l ≠ [] → ∃ l' x, l = l' ++ [x].
Proof. destruct l using rev_ind; [done|]. eauto. Qed.

(** [segments[:len(segments)-1]] and [segments[len(segments)-1]] *)
Fixpoint split_last {A} (x : A) (l : list A) : list A * A :=
  match l with
  | [] => ([], x)
  | y :: l' => let '(init, z) := split_last y l' in (x :: init, z)
  end.

Lemma split_last_spec {A} (x : A) l init z :
  split_last x l = (init, z) → x :: l = init ++ [z].
Proof.
  revert x init z; induction l as [|y l IH]; intros x init z; simpl.
  - by intros [= <- <-].
  - destruct (split_last y l) as [i w] eqn:E; intros [= <- <-].
    by rewrite (IH _ _ _ E).
Qed.

Lemma split_last_snoc {A} (l : list A) x y l' :
  y :: l' = l ++ [x] → split_last y l' = (l, x).
Proof.
  revert y l'; induction l as [|z l IH]; intros y l' H; simpl in *.
  - by injection H as -> ->.
  - injection H as -> ->. destruct (l ++ [x]) as [|w r] eqn:E.
    + by destruct l.
    + simpl. by rewrite (IH w r).
Qed.

Lemma Forall_flat_map_iff {A B} (P : B → Prop) (f : A → list B) l :
  Forall P (flat_map f l) ↔ Forall (λ x, Forall P (f x)) l.
Proof.
  induction l as [|x l IH]; simpl; [by split; constructor|].
  by rewrite Forall_app, Forall_cons, IH.
Qed.

Lemma elem_of_flat_map {A B} (f : A → list B) l y :
  y ∈ flat_map f l ↔ ∃ x, x ∈ l ∧ y ∈ f x.
Proof.
  induction l as [|x l IH]; simpl.
  - split; [by intros ?%not_elem_of_nil|by intros (?&?%not_elem_of_nil&_)].
  - rewrite elem_of_app, IH. setoid_rewrite elem_of_cons. naive_solver.
Qed.

Lemma length_omap_le {A B} (f : A → option B) (l : list A) :
  (length (omap f l) ≤ length l)%nat.
Proof.
  induction l as [|x l IH]; [done|]. cbn. destruct (f x); cbn in *; lia.
Qed.

Lemma NoDup_flat_map {A B} (f : A → list B) l :
  NoDup l → (∀ x, x ∈ l → NoDup (f x)) →
  (∀ x y b, x ∈ l → y ∈ l → b ∈ f x → b ∈ f y → x = y) → NoDup (flat_map f l).
Proof.
  induction 1 as [|x l Hx HN IH]; intros Hf Hd; simpl; [constructor|].
  apply NoDup_app. split_and!.
  - apply Hf. left.
  - intros b Hb (y&Hy&Hby)%elem_of_flat_map. apply Hx.
    rewrite (Hd x y b) by (done || left || by right). done.
  - apply IH; [intros; apply Hf; by right|]. intros y z b Hy Hz. apply Hd; by right.
Qed.

Lemma filter_none {A} (P : A → Prop) `{!∀ x, Decision (P x)} l : Forall (λ x, ¬ P x) l → filter P l = [].
Proof. induction 1; [done|]. by rewrite filter_cons_False. Qed.
