(* ===== verification/GoLib.v ===== *)
(** * The parts of Go's [strings], [strconv] and [sort] the
    program uses, on byte strings.

    A Go [string] is a [string] here: a sequence of bytes. [int] is 64 bits
    wide; the parsers below write its range out. *)
From Stdlib Require Import ZArith Lia Ascii String.
From S2P Require Import Prelude.

(** ** Bytes and appending *)

#[global] Arguments String.append !_ _ / : simpl nomatch.
#[global] Arguments String.eqb : simpl never.

Definition byte_le (c d : ascii) : bool := (N_of_ascii c <=? N_of_ascii d)%N.
Definition in_range (lo hi c : ascii) : bool := byte_le lo c && byte_le c hi.
Definition is_digit (c : ascii) : bool := in_range "0" "9" c.

Lemma str_app_assoc (a b c : string) : (a +:+ b) +:+ c = a +:+ (b +:+ c).
Proof. induction a; simpl; congruence. Qed.
Lemma str_app_nil_r (a : string) : a +:+ "" = a.
Proof. induction a; simpl; congruence. Qed.
Lemma str_app_inj_l (a b c : string) : a +:+ b = a +:+ c → b = c.
Proof. induction a; simpl; [done|]. intros [=]; auto. Qed.
Lemma str_length_app (a b : string) :
  String.length (a +:+ b) = String.length a + String.length b.
Proof. induction a; simpl; congruence. Qed.
Lemma str_app_inj_r (a b c : string) : a +:+ c = b +:+ c → a = b.
Proof.
  revert b; induction a as [|x a IH]; intros [|y b] H; simpl in *; try done.
  - apply (f_equal String.length) in H. simpl in H. rewrite str_length_app in H. lia.
  - apply (f_equal String.length) in H. simpl in H. rewrite str_length_app in H. lia.
  - injection H as -> H. by rewrite (IH _ H).
Qed.

(** All bytes of a string. *)
Fixpoint str_forall (p : ascii → bool) (s : string) : bool :=
  match s with "" => true | String c s' => p c && str_forall p s' end.

Lemma str_forall_app p a b :
  str_forall p (a +:+ b) = str_forall p a && str_forall p b.
Proof. induction a; simpl; [done|]. by rewrite IHa, andb_assoc. Qed.

Lemma str_forall_impl (p q : ascii → bool) s :
  (∀ c, p c = true → q c = true) → str_forall p s = true → str_forall q s = true.
Proof. intros H; induction s; simpl; [done|]. rewrite !andb_true_iff. naive_solver. Qed.

(** ** Package strings *)
Module Strings.

Definition HasPrefix (s pre : string) : bool := String.prefix pre s.

Fixpoint TrimPrefix_go (s pre : string) : option string :=
  match pre, s with
  | "", _ => Some s
  | String c pre', String d s' => if Ascii.eqb c d then TrimPrefix_go s' pre' else None
  | _, _ => None
  end.
Definition TrimPrefix (s pre : string) : string := default s (TrimPrefix_go s pre).

Fixpoint HasSuffix (s suf : string) : bool :=
  String.eqb s suf ||
  match s with "" => false | String _ s' => HasSuffix s' suf end.

Fixpoint TrimSuffix (s suf : string) : string :=
  if String.eqb s suf then ""
  else match s with "" => "" | String c s' => String c (TrimSuffix s' suf) end.

(** [strings.Split] for a separator of one byte, the only one the program
    splits on. *)
Fixpoint Split (s : string) (sep : ascii) : list string :=
  match s with
  | "" => [""]
  | String c s' =>
      if Ascii.eqb c sep then "" :: Split s' sep
      else match Split s' sep with
           | h :: t => String c h :: t
           | [] => []
           end
  end.

Fixpoint Join (l : list string) (sep : string) : string :=
  match l with
  | [] => ""
  | [x] => x
  | x :: l' => x +:+ sep +:+ Join l' sep
  end.

Fixpoint Contains (s sub : string) : bool :=
  String.prefix sub s ||
  match s with "" => false | String _ s' => Contains s' sub end.

(** [strings.Cut] at the first occurrence of a one-byte separator. *)
Fixpoint Cut (s : string) (sep : ascii) : option (string * string) :=
  match s with
  | "" => None
  | String c s' =>
      if Ascii.eqb c sep then Some ("", s')
      else match Cut s' sep with
           | Some (a, b) => Some (String c a, b)
           | None => None
           end
  end.

Definition no_byte (sep : ascii) (s : string) : bool :=
  str_forall (λ c, negb (Ascii.eqb c sep)) s.

Lemma Split_cons s sep : ∃ h t, Split s sep = h :: t.
Proof.
  induction s as [|c s IH]; simpl; [eauto|].
  destruct (Ascii.eqb c sep); [eauto|]. destruct IH as (h&t&->); eauto.
Qed.

Lemma Split_nonempty s sep : Split s sep ≠ [].
Proof. destruct (Split_cons s sep) as (h&t&->). done. Qed.

Lemma Join_Split s sep : Join (Split s sep) (String sep "") = s.
Proof.
  induction s as [|c s IH]; simpl; [done|].
  destruct (Split_cons s sep) as (h&t&E). rewrite E in *.
  destruct (Ascii.eqb_spec c sep) as [->|]; rewrite <-IH; destruct t; done.
Qed.

Lemma Split_no_byte s sep : no_byte sep s = true → Split s sep = [s].
Proof.
  unfold no_byte; induction s as [|c s IH]; simpl; [done|].
  rewrite andb_true_iff, negb_true_iff. by intros [-> ->%IH].
Qed.

Lemma Split_app a s sep :
  no_byte sep a = true → Split (a +:+ String sep s) sep = a :: Split s sep.
Proof.
  unfold no_byte; induction a as [|c a IH]; simpl.
  - by rewrite Ascii.eqb_refl.
  - rewrite andb_true_iff, negb_true_iff. by intros [-> ->%IH].
Qed.

Lemma Split_Join l sep :
  l ≠ [] → Forall (λ s, no_byte sep s = true) l →
  Split (Join l (String sep "")) sep = l.
Proof.
  induction l as [|x [|y l] IH]; intros Hne HF; [done| |].
  - inv HF. by apply Split_no_byte.
  - inv HF. change (Split (x +:+ String sep (Join (y :: l) (String sep ""))) sep = x :: y :: l).
    rewrite Split_app by done. by rewrite IH.
Qed.

Lemma Split_segments_no_byte s sep : Forall (λ x, no_byte sep x = true) (Split s sep).
Proof.
  induction s as [|c s IH]; simpl; [by repeat constructor|].
  destruct (Ascii.eqb c sep) eqn:E; [by constructor|].
  destruct (Split_cons s sep) as (h&t&Es). rewrite Es in *. inv IH.
  constructor; [|done]. unfold no_byte in *. simpl. by rewrite E.
Qed.

Lemma TrimSuffix_no_suffix s suf : HasSuffix s suf = false → TrimSuffix s suf = s.
Proof.
  induction s as [|c s IH]; simpl; rewrite orb_false_iff; intros [-> H]; [done|].
  by rewrite IH.
Qed.

Lemma TrimSuffix_app s suf : TrimSuffix (s +:+ suf) suf = s.
Proof.
  induction s as [|c s IH]; simpl.
  - destruct suf; [reflexivity|]; simpl; by rewrite String.eqb_refl.
  - destruct (String.eqb_spec (String c (s +:+ suf)) suf) as [E|_]; [|by rewrite IH].
    apply (f_equal String.length) in E. simpl in E. rewrite str_length_app in E. lia.
Qed.

Lemma HasSuffix_iff s suf : HasSuffix s suf = true ↔ ∃ p, s = p +:+ suf.
Proof.
  split.
  - induction s as [|c s IH]; simpl; rewrite orb_true_iff.
    + intros [E%String.eqb_eq|?]; [|done]. exists "". done.
    + intros [E%String.eqb_eq|(p&->)%IH]; [by exists ""|by exists (String c p)].
  - intros [p ->]. induction p as [|c p IH]; simpl.
    + destruct suf; [reflexivity|]; simpl; by rewrite String.eqb_refl.
    + rewrite IH. apply orb_true_r.
Qed.

Lemma TrimSuffix_cases s suf :
  s = TrimSuffix s suf +:+ suf ∨ (TrimSuffix s suf = s ∧ HasSuffix s suf = false).
Proof.
  destruct (HasSuffix s suf) eqn:E.
  - left. apply HasSuffix_iff in E as [p ->]. by rewrite TrimSuffix_app.
  - right. by rewrite TrimSuffix_no_suffix.
Qed.

Lemma HasPrefix_iff s pre : HasPrefix s pre = true ↔ ∃ r, s = pre +:+ r.
Proof.
  unfold HasPrefix. revert s; induction pre as [|c pre IH]; intros s; simpl.
  - destruct s; split; eauto.
  - destruct s as [|d s]; [by split; [|intros [? ?]]|]. simpl.
    destruct (ascii_dec c d) as [->|Hn].
    + rewrite IH. split; intros [r H]; exists r; congruence.
    + split; [done|]. intros [r [=]]. congruence.
Qed.

Lemma Join_app l1 l2 sep :
  l1 ≠ [] → l2 ≠ [] → Join (l1 ++ l2) sep = Join l1 sep +:+ sep +:+ Join l2 sep.
Proof.
  intros H1 H2. induction l1 as [|x [|y l1] IH]; [done| |].
  - simpl. by destruct l2.
  - change ((x :: y :: l1) ++ l2) with (x :: ((y :: l1) ++ l2)).
    change (Join (x :: (y :: l1) ++ l2) sep) with (x +:+ sep +:+ Join ((y :: l1) ++ l2) sep).
    rewrite IH by done. change (Join (x :: y :: l1) sep) with (x +:+ sep +:+ Join (y :: l1) sep).
    by rewrite !str_app_assoc.
Qed.

(** *** Searching from the right, for a word, for any of some bytes *)

(** The parts around the last occurrence of a byte, [strings.LastIndex]. *)
Fixpoint CutLast (s : string) (sep : ascii) : option (string * string) :=
  match s with
  | "" => None
  | String c s' =>
      match CutLast s' sep with
      | Some (a, b) => Some (String c a, b)
      | None => if Ascii.eqb c sep then Some ("", s') else None
      end
  end.

(** The parts around the first occurrence of a word, [strings.Index]. *)
Fixpoint CutStr (s sub : string) : option (string * string) :=
  match TrimPrefix_go s sub with
  | Some rest => Some ("", rest)
  | None =>
      match s with
      | "" => None
      | String c s' => match CutStr s' sub with Some (a, b) => Some (String c a, b) | None => None end
      end
  end.

(** [strings.Split] for a separator of two bytes. *)
Fixpoint Split2 (s : string) (a b : ascii) : list string :=
  match s with
  | "" => [""]
  | String c s' =>
      let rest :=
        match s' with
        | String d s'' => if Ascii.eqb c a && Ascii.eqb d b then Some (Split2 s'' a b) else None
        | "" => None
        end in
      match rest with
      | Some l => "" :: l
      | None => match Split2 s' a b with h :: t => String c h :: t | [] => [] end
      end
  end.

Definition ContainsAny (s chars : string) : bool :=
  negb (str_forall (λ c, no_byte c chars) s).

Lemma CutLast_none s sep : CutLast s sep = None ↔ no_byte sep s = true.
Proof.
  induction s as [|c s IH]; cbn; [done|]. rewrite andb_true_iff, negb_true_iff. unfold no_byte in IH.
  destruct (CutLast s sep) as [[a b]|].
  - split; [done|]. intros [_ H]. by apply IH in H.
  - destruct (Ascii.eqb c sep); naive_solver.
Qed.

Lemma CutLast_some s sep a b :
  CutLast s sep = Some (a, b) ↔ s = a +:+ String sep b ∧ no_byte sep b = true.
Proof.
  revert a; induction s as [|c s IH]; intros a; cbn.
  { split; [done|]. intros [H _]. by destruct a. }
  destruct (CutLast s sep) as [[a' b']|] eqn:E.
  - split.
    + intros [= <- <-]. destruct (proj1 (IH a') eq_refl) as [-> ?]. done.
    + intros [H Hb]. destruct a as [|c' a]; cbn in H.
      * injection H as <- <-. exfalso. apply CutLast_none in Hb. congruence.
      * injection H as <- Hs. assert (Some (a', b') = Some (a, b)) as [= <- <-] by (by apply IH). done.
  - apply CutLast_none in E. destruct (Ascii.eqb_spec c sep) as [->|Hc].
    + split; [by intros [= <- <-]|]. intros [H Hb]. destruct a as [|c' a]; cbn in H.
      * by injection H as <-.
      * injection H as <- Hs. exfalso. assert (None = Some (a, b)) by (by apply IH). done.
    + split; [done|]. intros [H Hb]. destruct a as [|c' a]; cbn in H; [by injection H as ->|].
      injection H as <- Hs. assert (None = Some (a, b)) by (by apply IH). done.
Qed.

End Strings.

(** ** Package sort *)
Module Sort.

(** [sort.Strings]: byte-wise lexicographic order. *)
Definition Strings (l : list string) : list string := merge_sort stdpp.strings.String.le l.

#[local] Instance le_transitive : Transitive stdpp.strings.String.le.
Proof. destruct stdpp.strings.String.le_po as [[_ ?] _]. done. Qed.
#[local] Instance le_antisymm : AntiSymm (=) stdpp.strings.String.le.
Proof. destruct stdpp.strings.String.le_po as [_ ?]. done. Qed.

Lemma Strings_Permutation l : Strings l ≡ₚ l.
Proof. apply merge_sort_Permutation. Qed.
Lemma Strings_sorted l : StronglySorted stdpp.strings.String.le (Strings l).
Proof. apply StronglySorted_merge_sort; apply _. Qed.
Lemma elem_of_Strings l x : x ∈ Strings l ↔ x ∈ l.
Proof. by rewrite Strings_Permutation. Qed.
Lemma NoDup_Strings l : NoDup (Strings l) ↔ NoDup l.
Proof. by rewrite Strings_Permutation. Qed.
Lemma length_Strings l : length (Strings l) = length l.
Proof. by rewrite Strings_Permutation. Qed.
(** Sorting forgets the order the elements came in, so the map iteration
    order of Go does not show in a sorted result. *)
Lemma Strings_proper l1 l2 : l1 ≡ₚ l2 → Strings l1 = Strings l2.
Proof.
  intros H. apply (StronglySorted_unique stdpp.strings.String.le); [apply Strings_sorted..|].
  by rewrite !Strings_Permutation.
Qed.
#[export] Instance Strings_Permutation_proper : Proper ((≡ₚ) ==> (=)) Strings.
Proof. intros ???. by apply Strings_proper. Qed.
End Sort.

(** ** 64-bit arithmetic *)

Definition u64 (z : Z) : Z := z mod 2 ^ 64.
Definition i64 (z : Z) : Z := (z + 2 ^ 63) mod 2 ^ 64 - 2 ^ 63.
Lemma u64_small z : (0 ≤ z < 2 ^ 64)%Z → u64 z = z.
Proof. apply Z.mod_small. Qed.
Lemma i64_small z : (- 2 ^ 63 ≤ z < 2 ^ 63)%Z → i64 z = z.
Proof. intros H. unfold i64. rewrite Z.mod_small; lia. Qed.

(** ** Package strconv *)
Module Strconv.

Inductive NumError := ErrSyntax | ErrRange.
#[export] Instance NumError_eq_dec : EqDecision NumError.
Proof. solve_decision. Defined.

Definition Itoa (z : Z) : string := pretty z.

Definition digit (c : ascii) : Z := Z.of_N (N_of_ascii c) - 48.

Fixpoint ParseUint_loop (maxVal n : Z) (s : string) : result NumError Z :=
  match s with
  | "" => Ok n
  | String c s' =>
      if is_digit c then
        let n1 := (n * 10 + digit c)%Z in
        if (maxVal <? n1)%Z then Err ErrRange else ParseUint_loop maxVal n1 s'
      else Err ErrSyntax
  end.

(** [strconv.ParseUint(s, 10, bits)] *)
Definition ParseUint (s : string) (bits : Z) : result NumError Z :=
  match s with
  | "" => Err ErrSyntax
  | _ => ParseUint_loop (2 ^ bits - 1) 0 s
  end.

(** [strconv.ParseInt(s, 10, bits)]: one optional sign, then an unsigned
    number that fits the signed width. *)
Definition ParseInt_mag (neg : bool) (s : string) (bits : Z) : result NumError Z :=
  match ParseUint s bits with
  | Err ErrSyntax => Err ErrSyntax
  | Err ErrRange => Err ErrRange
  | Ok un =>
      let cutoff := (2 ^ (bits - 1))%Z in
      if negb neg && (cutoff <=? un)%Z then Err ErrRange
      else if neg && (cutoff <? un)%Z then Err ErrRange
      else Ok (if neg then (- un)%Z else un)
  end.
Definition ParseInt (s : string) (bits : Z) : result NumError Z :=
  match s with
  | "" => Err ErrSyntax
  | String c s' =>
      if Ascii.eqb c "+" then ParseInt_mag false s' bits
      else if Ascii.eqb c "-" then ParseInt_mag true s' bits
      else ParseInt_mag false s bits
  end.

(** [strconv.Atoi], the 64-bit [ParseInt]. *)
Definition Atoi (s : string) : result NumError Z := ParseInt s 64.

(** [n, _ := strconv.Atoi(s)]: 0 for what is not a number, the nearest 64-bit
    integer for one that does not fit. *)
Definition Atoi_value (s : string) : Z :=
  match Atoi s with
  | Ok z => z
  | Err ErrSyntax => 0
  | Err ErrRange => if Strings.HasPrefix s "-" then - 2 ^ 63 else 2 ^ 63 - 1
  end.

Lemma is_digit_char (n : N) : (n < 10)%N →
  is_digit (pretty_N_char n) = true ∧ digit (pretty_N_char n) = Z.of_N n.
Proof.
  intros H.
  assert (n = 0 ∨ n = 1 ∨ n = 2 ∨ n = 3 ∨ n = 4 ∨ n = 5 ∨ n = 6 ∨ n = 7 ∨ n = 8 ∨ n = 9)%N
    as Hn by lia.
  by destruct_or!; subst.
Qed.

Lemma ParseUint_loop_pretty max (x : N) s :
  (Z.of_N x ≤ max)%Z → (0 < x)%N →
  ParseUint_loop max 0 (pretty_N_go x s) = ParseUint_loop max (Z.of_N x) s.
Proof.
  revert s. induction (N.lt_wf_0 x) as [x _ IH]; intros s Hm Hx.
  rewrite pretty_N_go_step by done.
  destruct (is_digit_char (x `mod` 10)) as [Hd Hv]; [by apply N.mod_lt|].
  assert (Hdm : x = (10 * (x `div` 10) + x `mod` 10)%N) by by apply N.div_mod.
  assert (x `div` 10 < x)%N as Hlt by by apply N.div_lt.
  set (q := (x `div` 10)%N) in *. set (r := (x `mod` 10)%N) in *. clearbody q r.
  destruct (decide (q = 0)%N) as [Hz|Hz].
  - rewrite Hz, pretty_N_go_0. cbn [ParseUint_loop]. rewrite Hd, Hv.
    destruct (Z.ltb_spec max (0 * 10 + Z.of_N r)); [lia|].
    f_equal. lia.
  - rewrite IH; [|done|lia|lia].
    cbn [ParseUint_loop]. rewrite Hd, Hv.
    destruct (Z.ltb_spec max (Z.of_N q * 10 + Z.of_N r)); [lia|].
    f_equal. lia.
Qed.

Lemma pretty_N_go_ne x s : s ≠ "" → pretty_N_go x s ≠ "".
Proof.
  revert s. induction (N.lt_wf_0 x) as [x _ IH]; intros s ?.
  destruct (decide (x = 0)%N) as [->|]; [by rewrite pretty_N_go_0|].
  rewrite pretty_N_go_step by lia. apply IH; [apply N.div_lt; lia|done].
Qed.

Lemma pretty_N_ne (x : N) : pretty x ≠ "".
Proof.
  unfold pretty, pretty_N. destruct (decide _); [done|].
  rewrite pretty_N_go_step by lia. by apply pretty_N_go_ne.
Qed.

Lemma ParseUint_Itoa z bits :
  (0 ≤ z ≤ 2 ^ bits - 1)%Z → ParseUint (Itoa z) bits = Ok z.
Proof.
  intros [H0 H1]. unfold Itoa.
  assert (∃ x : N, z = Z.of_N x ∧ pretty z = pretty x) as (x&->&->).
  { exists (Z.to_N z). split; [lia|]. by destruct z. }
  unfold ParseUint. destruct (pretty x) as [|c s] eqn:E; [by apply pretty_N_ne in E|].
  rewrite <-E. unfold pretty, pretty_N in *. destruct (decide (x = 0)%N) as [->|Hx].
  - cbn [ParseUint_loop]. change (is_digit "0") with true. cbn iota.
    destruct (Z.ltb_spec (2 ^ bits - 1) (0 * 10 + digit "0")); [|done].
    change (digit "0") with 0%Z in *. lia.
  - rewrite ParseUint_loop_pretty by lia. done.
Qed.

Lemma pretty_N_go_all_digits x s :
  str_forall is_digit s = true → str_forall is_digit (pretty_N_go x s) = true.
Proof.
  revert s. induction (N.lt_wf_0 x) as [x _ IH]; intros s Hs.
  destruct (decide (x = 0)%N) as [->|]; [by rewrite pretty_N_go_0|].
  rewrite pretty_N_go_step by lia. apply IH; [apply N.div_lt; lia|].
  cbn [str_forall]. rewrite Hs, andb_true_r.
  apply is_digit_char. by apply N.mod_lt.
Qed.

Lemma Itoa_digits z : (0 ≤ z)%Z → str_forall is_digit (Itoa z) = true.
Proof.
  intros Hz. unfold Itoa. destruct z as [|p|p]; [done| |lia].
  unfold pretty, pretty_Z, pretty, pretty_positive, pretty, pretty_N.
  destruct (decide _); [done|]. by apply pretty_N_go_all_digits.
Qed.

Lemma Itoa_ne z : Itoa z ≠ "".
Proof.
  unfold Itoa. destruct z as [|p|p]; [done| |done].
  apply pretty_N_ne.
Qed.

Lemma Itoa_inj x y : Itoa x = Itoa y → x = y.
Proof. apply pretty_Z_inj. Qed.

Lemma is_digit_not_sign c : is_digit c = true → Ascii.eqb c "+" = false ∧ Ascii.eqb c "-" = false.
Proof.
  intros H. split; apply not_true_iff_false; intros E%Ascii.eqb_eq; by subst.
Qed.

Lemma ParseInt_Itoa z bits :
  (0 < bits)%Z → (0 ≤ z < 2 ^ (bits - 1))%Z → ParseInt (Itoa z) bits = Ok z.
Proof.
  intros Hb Hz. pose proof (Itoa_digits z ltac:(lia)) as Hd.
  assert (2 ^ bits = 2 * 2 ^ (bits - 1))%Z as Hp.
  { rewrite <-Z.pow_succ_r by lia. f_equal. lia. }
  unfold ParseInt. destruct (Itoa z) as [|c s] eqn:E; [by apply Itoa_ne in E|].
  cbn [str_forall] in Hd. apply andb_true_iff in Hd as [Hc _].
  destruct (is_digit_not_sign _ Hc) as [-> ->]. rewrite <-E.
  unfold ParseInt_mag. rewrite ParseUint_Itoa by lia.
  cbn [negb andb]. destruct (Z.leb_spec (2 ^ (bits - 1)) z); [lia|done].
Qed.

Lemma ParseInt_Itoa_neg z bits :
  (0 < bits)%Z → (- 2 ^ (bits - 1) ≤ z < 0)%Z → ParseInt (Itoa z) bits = Ok z.
Proof.
  intros Hb Hz. destruct z as [|p|p]; [lia|lia|].
  change (Itoa (Zneg p)) with (String "-" (Itoa (Zpos p))). cbn [ParseInt].
  change (Ascii.eqb "-" "+") with false. change (Ascii.eqb "-" "-") with true. cbn iota.
  assert (2 ^ bits = 2 * 2 ^ (bits - 1))%Z by (rewrite <-Z.pow_succ_r by lia; f_equal; lia).
  unfold ParseInt_mag. rewrite ParseUint_Itoa by lia. cbn [negb andb].
  destruct (Z.ltb_spec (2 ^ (bits - 1)) (Zpos p)); [lia|done].
Qed.

Lemma Atoi_Itoa z : (0 ≤ z < 2 ^ 63)%Z → Atoi (Itoa z) = Ok z.
Proof. intros. by apply (ParseInt_Itoa z 64). Qed.

Lemma ParseUint_loop_range max n s v :
  (0 ≤ n ≤ max)%Z → ParseUint_loop max n s = Ok v → (0 ≤ v ≤ max)%Z.
Proof.
  revert n; induction s as [|c s IH]; intros n Hn; cbn [ParseUint_loop].
  - by intros [= <-].
  - destruct (is_digit c) eqn:Hc; [|done].
    destruct (Z.ltb_spec max (n * 10 + digit c)); [done|]. apply IH.
    unfold is_digit, in_range, byte_le in Hc. apply andb_true_iff in Hc as [Hc _].
    apply N.leb_le in Hc. change (N_of_ascii "0") with 48%N in Hc. unfold digit in *. lia.
Qed.

Lemma ParseUint_range s bits v :
  (0 ≤ bits)%Z → ParseUint s bits = Ok v → (0 ≤ v < 2 ^ bits)%Z.
Proof.
  intros Hb. unfold ParseUint. destruct s as [|c s]; [done|]. intros H.
  pose proof (Z.pow_pos_nonneg 2 bits ltac:(lia) Hb).
  apply ParseUint_loop_range in H; lia.
Qed.

Lemma ParseUint_loop_wider m m' n s v : (m ≤ m')%Z → ParseUint_loop m n s = Ok v → ParseUint_loop m' n s = Ok v.
Proof.
  intros Hm. revert n; induction s as [|c s IH]; intros n; cbn [ParseUint_loop]; [done|].
  destruct (is_digit c); [|done]. destruct (Z.ltb_spec m (n * 10 + digit c)); [done|].
  destruct (Z.ltb_spec m' (n * 10 + digit c)); [lia|]. apply IH.
Qed.
Lemma ParseUint_wider s b b' v : (0 ≤ b ≤ b')%Z → ParseUint s b = Ok v → ParseUint s b' = Ok v.
Proof.
  intros Hb. unfold ParseUint. destruct s as [|c s]; [done|]. apply ParseUint_loop_wider.
  pose proof (Z.pow_le_mono_r 2 b b' ltac:(lia) ltac:(lia)). lia.
Qed.

Lemma ParseInt_range s bits v :
  (0 < bits)%Z → ParseInt s bits = Ok v → (- 2 ^ (bits - 1) ≤ v < 2 ^ (bits - 1))%Z.
Proof.
  intros Hb.
  assert (∀ neg s, ParseInt_mag neg s bits = Ok v →
    (- 2 ^ (bits - 1) ≤ v < 2 ^ (bits - 1))%Z) as Hmag.
  { intros neg s'. unfold ParseInt_mag.
    destruct (ParseUint s' bits) as [un|[]] eqn:E; [|done..].
    apply ParseUint_range in E; [|lia].
    destruct neg; cbn [negb andb].
    - destruct (Z.ltb_spec (2 ^ (bits - 1)) un); [done|]. intros [= <-]. lia.
    - destruct (Z.leb_spec (2 ^ (bits - 1)) un); [done|]. intros [= <-]. lia. }
  unfold ParseInt. destruct s as [|c s]; [done|].
  repeat case_match; eauto.
Qed.
End Strconv.
