(* ===== verification/GoText.v ===== *)
(** * The text formats of Go's standard library the value types rely on:
    [utf8.ValidString], [base64.StdEncoding.DecodeString] and
    [time.Parse(time.RFC3339Nano, _)]. *)
From Stdlib Require Import ZArith Lia Ascii String.
From S2P Require Import Prelude GoLib.

Definition byte_of (c : ascii) : N := N_of_ascii c.
Definition between (lo hi : N) (c : ascii) : bool :=
  (lo <=? byte_of c)%N && (byte_of c <=? hi)%N.

(** ** unicode/utf8 *)
Module Utf8.

Definition cont : ascii → bool := between 128 191.

(** The accept ranges of the second byte, by lead byte. *)
Definition second_of_3 (c d : ascii) : bool :=
  if (byte_of c =? 224)%N then between 160 191 d
  else if (byte_of c =? 237)%N then between 128 159 d
  else cont d.
Definition second_of_4 (c d : ascii) : bool :=
  if (byte_of c =? 240)%N then between 144 191 d
  else if (byte_of c =? 244)%N then between 128 143 d
  else cont d.

Fixpoint ValidString (s : string) : bool :=
  match s with
  | "" => true
  | String c s1 =>
      if between 0 127 c then ValidString s1
      else if between 194 223 c then
        match s1 with String d s2 => cont d && ValidString s2 | _ => false end
      else if between 224 239 c then
        match s1 with
        | String d (String e s3) => second_of_3 c d && cont e && ValidString s3
        | _ => false
        end
      else if between 240 244 c then
        match s1 with
        | String d (String e (String f s4)) =>
            second_of_4 c d && cont e && cont f && ValidString s4
        | _ => false
        end
      else false
  end.

Lemma ValidString_ascii s : str_forall (between 0 127) s = true → ValidString s = true.
Proof.
  induction s as [|c s IH]; simpl; [done|]. by intros [-> ?%IH]%andb_true_iff.
Qed.

Lemma digits_valid s : str_forall is_digit s = true → ValidString s = true.
Proof.
  intros H. apply ValidString_ascii. revert H. apply str_forall_impl.
  intros c. unfold is_digit, in_range, byte_le, between, byte_of.
  rewrite !andb_true_iff, !N.leb_le. change (N_of_ascii "9") with 57%N. lia.
Qed.
End Utf8.

(** ** encoding/base64, [StdEncoding] *)
Module Base64.

Definition is_b64 (c : ascii) : bool :=
  in_range "A" "Z" c || in_range "a" "z" c || is_digit c
  || Ascii.eqb c "+" || Ascii.eqb c "/".

(** The decoder skips carriage returns and line feeds anywhere. *)
Definition is_newline (c : ascii) : bool := (byte_of c =? 13)%N || (byte_of c =? 10)%N.
Fixpoint strip_newlines (s : string) : string :=
  match s with
  | "" => ""
  | String c s' => if is_newline c then strip_newlines s' else String c (strip_newlines s')
  end.

(** Quanta of four: only the last one may carry the padding. *)
Fixpoint quanta (s : string) : bool :=
  match s with
  | "" => true
  | String a (String b (String c (String d s'))) =>
      is_b64 a && is_b64 b &&
      (if Ascii.eqb c "=" then Ascii.eqb d "=" && String.eqb s' ""
       else is_b64 c &&
            (if Ascii.eqb d "=" then String.eqb s' "" else is_b64 d && quanta s'))
  | _ => false
  end.

Definition DecodeString_ok (s : string) : bool := quanta (strip_newlines s).
End Base64.

(** ** time *)
Module Time.

(** The fields [time.Parse] reads; [nsec] is what is left of the fraction
    after truncation to nine digits, [offset] is in seconds. *)
Record Fields := MkFields {
  year : Z; month : Z; day : Z; hour : Z; min : Z; sec : Z; nsec : Z; offset : Z
}.
#[export] Instance Fields_eq_dec : EqDecision Fields.
Proof. solve_decision. Defined.

Definition dval (c : ascii) : Z := Strconv.digit c.

Definition two (s : string) : option (Z * string) :=
  match s with
  | String a (String b s') =>
      if is_digit a && is_digit b then Some ((dval a * 10 + dval b)%Z, s') else None
  | _ => None
  end.

(** [getnum(value, false)]: one digit is enough for the hour. *)
Definition one_or_two (s : string) : option (Z * string) :=
  match s with
  | String a s' =>
      if is_digit a then
        match s' with
        | String b s'' => if is_digit b then Some ((dval a * 10 + dval b)%Z, s'') else Some (dval a, s')
        | "" => Some (dval a, "")
        end
      else None
  | "" => None
  end.

Definition four (s : string) : option (Z * string) :=
  '(a, s1) ← two s; '(b, s2) ← two s1; Some ((a * 100 + b)%Z, s2).

Definition lit (c : ascii) (s : string) : option string :=
  match s with String d s' => if Ascii.eqb c d then Some s' else None | "" => None end.

Definition check (b : bool) : option unit := if b then Some tt else None.

(** The digits of the fraction: the first nine count, the rest are read and
    dropped. *)
Fixpoint fraction (k : nat) (acc : Z) (s : string) : Z * string :=
  match s with
  | String c s' =>
      if is_digit c then
        match k with
        | O => fraction O acc s'
        | S k' => fraction k' (acc + dval c * 10 ^ Z.of_nat k')%Z s'
        end
      else (acc, s)
  | "" => (acc, "")
  end.

Definition opt_fraction (s : string) : Z * string :=
  match s with
  | String c (String d s') =>
      if (Ascii.eqb c "." || Ascii.eqb c ",") && is_digit d then fraction 9 0 (String d s')
      else (0%Z, s)
  | _ => (0%Z, s)
  end.

(** [Z07:00]; the zone hour may be 24 and the zone minute 60. *)
Definition zone (s : string) : option (Z * string) :=
  match s with
  | String c s1 =>
      if Ascii.eqb c "Z" then Some (0%Z, s1)
      else
        '(h, s2) ← two s1; s3 ← lit ":" s2; '(m, s4) ← two s3;
        _ ← check ((h <=? 24)%Z && (m <=? 60)%Z);
        let off := (h * 3600 + m * 60)%Z in
        if Ascii.eqb c "+" then Some (off, s4)
        else if Ascii.eqb c "-" then Some ((- off)%Z, s4)
        else None
  | "" => None
  end.

Definition is_leap (y : Z) : bool :=
  (y mod 4 =? 0)%Z && (negb (y mod 100 =? 0)%Z || (y mod 400 =? 0)%Z).
Definition days_in (m y : Z) : Z :=
  if (m =? 2)%Z then (if is_leap y then 29 else 28)
  else if (m =? 4)%Z || (m =? 6)%Z || (m =? 9)%Z || (m =? 11)%Z then 30 else 31.

Definition Parse_RFC3339Nano (s : string) : option Fields :=
  '(y, s) ← four s; s ← lit "-" s;
  '(mo, s) ← two s; _ ← check ((1 <=? mo)%Z && (mo <=? 12)%Z); s ← lit "-" s;
  '(d, s) ← two s; s ← lit "T" s;
  '(h, s) ← one_or_two s; _ ← check (h <? 24)%Z; s ← lit ":" s;
  '(mi, s) ← two s; _ ← check (mi <? 60)%Z; s ← lit ":" s;
  '(se, s) ← two s; _ ← check (se <? 60)%Z;
  let '(ns, s) := opt_fraction s in
  '(off, s) ← zone s;
  _ ← check (String.eqb s "");
  _ ← check ((1 <=? d)%Z && (d <=? days_in mo y)%Z);
  Some (MkFields y mo d h mi se ns off).

(** *** Formatting in UTC

    Days count from 1970-01-01 in the proleptic Gregorian calendar [time]
    uses. *)
Definition days_from_civil (y m d : Z) : Z :=
  let y := if (m <=? 2)%Z then (y - 1)%Z else y in
  let era := (y / 400)%Z in
  let yoe := (y - era * 400)%Z in
  let doy := ((153 * (if (2 <? m)%Z then m - 3 else m + 9) + 2) / 5 + d - 1)%Z in
  let doe := (yoe * 365 + yoe / 4 - yoe / 100 + doy)%Z in
  (era * 146097 + doe - 719468)%Z.

Definition civil_from_days (z : Z) : Z * Z * Z :=
  let z := (z + 719468)%Z in
  let era := (z / 146097)%Z in
  let doe := (z - era * 146097)%Z in
  let yoe := ((doe - doe / 1460 + doe / 36524 - doe / 146096) / 365)%Z in
  let doy := (doe - (365 * yoe + yoe / 4 - yoe / 100))%Z in
  let mp := ((5 * doy + 2) / 153)%Z in
  let d := (doy - (153 * mp + 2) / 5 + 1)%Z in
  let m := (if mp <? 10 then mp + 3 else mp - 9)%Z in
  let y := (yoe + era * 400)%Z in
  ((if m <=? 2 then y + 1 else y)%Z, m, d).

(** Seconds since the epoch. *)
Definition unix (f : Fields) : Z :=
  (days_from_civil (year f) (month f) (day f) * 86400
   + hour f * 3600 + min f * 60 + sec f - offset f)%Z.

Definition of_unix (secs ns : Z) : Fields :=
  let days := (secs / 86400)%Z in
  let rem := (secs mod 86400)%Z in
  let '(y, m, d) := civil_from_days days in
  MkFields y m d (rem / 3600)%Z (rem mod 3600 / 60)%Z (rem mod 60)%Z ns 0.

(** [appendInt(b, v, width)] *)
Fixpoint zeros (n : nat) : string := match n with O => "" | S n' => String "0" (zeros n') end.
Definition pad (width : nat) (v : Z) : string :=
  let s := Strconv.Itoa (Z.abs v) in
  let s := zeros (width - String.length s) +:+ s in
  if (v <? 0)%Z then ("-" +:+ s) else s.

(** The fraction of [.999999999]: nine digits less the trailing zeros. *)
Fixpoint trim_zeros (s : string) : string :=
  match s with
  | "" => ""
  | String c s' =>
      match trim_zeros s' with
      | "" => if Ascii.eqb c "0" then "" else String c ""
      | r => String c r
      end
  end.

Definition date_time (f : Fields) : string :=
  pad 4 (year f) +:+ ("-" +:+ (pad 2 (month f) +:+ ("-" +:+ (pad 2 (day f) +:+ ("T" +:+
  (pad 2 (hour f) +:+ (":" +:+ (pad 2 (min f) +:+ (":" +:+ pad 2 (sec f)))))))))).

(** [t.UTC().Format(time.RFC3339)] and [t.UTC().Format(time.RFC3339Nano)] *)
Definition Format_RFC3339 (secs : Z) : string := date_time (of_unix secs 0) +:+ "Z".
Definition Format_RFC3339Nano (secs ns : Z) : string :=
  let frac := trim_zeros (pad 9 ns) in
  date_time (of_unix secs ns) +:+ (if String.eqb frac "" then "Z" else ("." +:+ (frac +:+ "Z"))).

Example format_1 : Format_RFC3339 1709182984 = "2024-02-29T05:03:04Z".
Proof. reflexivity. Qed.
Example format_2 : Format_RFC3339Nano 0 250000000 = "1970-01-01T00:00:00.25Z".
Proof. reflexivity. Qed.

Example parse_1 : Parse_RFC3339Nano "2024-02-29T5:04:05.25+01:30"
  = Some (MkFields 2024 2 29 5 4 5 250000000 5400).
Proof. reflexivity. Qed.
Example parse_2 : Parse_RFC3339Nano "2023-02-29T05:04:05Z" = None.
Proof. reflexivity. Qed.
End Time.

(** ** strings.TrimSpace, bytes.TrimSpace: white space as Unicode defines it,
    in UTF-8. *)
Module Space.

Definition is_ascii_space (c : ascii) : bool :=
  let b := byte_of c in (b =? 32)%N || ((9 <=? b)%N && (b <=? 13)%N).
Definition two_bytes (c d : ascii) : bool :=
  (byte_of c =? 194)%N && ((byte_of d =? 133)%N || (byte_of d =? 160)%N).
Definition three_bytes (c d e : ascii) : bool :=
  let '(c, d, e) := (byte_of c, byte_of d, byte_of e) in
  ((c =? 225) && (d =? 154) && (e =? 128) ||
   (c =? 226) && (d =? 128) && (((128 <=? e) && (e <=? 138)) || (e =? 168) || (e =? 169) || (e =? 175)) ||
   (c =? 226) && (d =? 129) && (e =? 159) ||
   (c =? 227) && (d =? 128) && (e =? 128))%N.

(** Bytes of the white-space rune at the head, from the front and, in a
    reversed string, from the back; 0 when there is none. *)
Definition lead (s : string) : nat :=
  match s with
  | String c (String d (String e _)) =>
      if is_ascii_space c then 1 else if two_bytes c d then 2 else if three_bytes c d e then 3 else 0
  | String c (String d _) => if is_ascii_space c then 1 else if two_bytes c d then 2 else 0
  | String c _ => if is_ascii_space c then 1 else 0
  | "" => 0
  end.
Definition lead_rev (s : string) : nat :=
  match s with
  | String e (String d (String c _)) =>
      if is_ascii_space e then 1 else if two_bytes d e then 2 else if three_bytes c d e then 3 else 0
  | String d (String c _) => if is_ascii_space d then 1 else if two_bytes c d then 2 else 0
  | String c _ => if is_ascii_space c then 1 else 0
  | "" => 0
  end.

Fixpoint drop (n : nat) (s : string) : string :=
  match n, s with S n', String _ s' => drop n' s' | _, _ => s end.
Fixpoint trim (lead : string → nat) (fuel : nat) (s : string) : string :=
  match fuel, lead s with S fuel', S n => trim lead fuel' (drop (S n) s) | _, _ => s end.
Fixpoint rev_app (s acc : string) : string :=
  match s with "" => acc | String c s' => rev_app s' (String c acc) end.
Definition reverse (s : string) : string := rev_app s "".

Definition TrimLeft (s : string) : string := trim lead (String.length s) s.
Definition TrimRight (s : string) : string :=
  reverse (trim lead_rev (String.length s) (reverse s)).
Definition TrimSpace (s : string) : string := TrimRight (TrimLeft s).

(** Text of nothing but white space. *)
Inductive blank : string → Prop :=
| blank_nil : blank ""
| blank_1 c s : is_ascii_space c = true → blank s → blank (String c s)
| blank_2 c d s : two_bytes c d = true → blank s → blank (String c (String d s))
| blank_3 c d e s : three_bytes c d e = true → blank s → blank (String c (String d (String e s))).

Lemma high_not_space c : (128 <=? byte_of c)%N = true → is_ascii_space c = false.
Proof.
  unfold is_ascii_space. intros H%N.leb_le.
  apply orb_false_iff. split; [apply N.eqb_neq; lia|]. apply andb_false_iff. right. apply N.leb_gt. lia.
Qed.
Lemma two_high c d : two_bytes c d = true → byte_of c = 194%N.
Proof. unfold two_bytes. intros [H _]%andb_true_iff. by apply N.eqb_eq in H. Qed.
Lemma three_high c d e : three_bytes c d e = true → (225 ≤ byte_of c)%N.
Proof.
  unfold three_bytes. intros H. repeat (apply orb_true_iff in H as [H|H]);
    repeat (apply andb_true_iff in H as [H ?]); apply N.eqb_eq in H; lia.
Qed.

Lemma trim_blank fuel s : (String.length s ≤ fuel)%nat → trim lead fuel s = "" ↔ blank s.
Proof.
  revert s; induction fuel as [|fuel IH]; intros s Hf.
  { destruct s; [|simpl in Hf; lia]. split; [constructor|done]. }
  split.
  - destruct s as [|c [|d [|e s]]]; [constructor|..]; cbn [trim lead]; simpl in Hf.
    + destruct (is_ascii_space c) eqn:E1; [|done]. intros _. by repeat constructor.
    + destruct (is_ascii_space c) eqn:E1; [|destruct (two_bytes c d) eqn:E2; [|done]].
      * intros H%IH; [|simpl; lia]. by constructor.
      * intros _. by repeat constructor.
    + destruct (is_ascii_space c) eqn:E1; [|destruct (two_bytes c d) eqn:E2; [|destruct (three_bytes c d e) eqn:E3; [|done]]];
        (intros H%IH; [|simpl; lia]); by constructor.
  - destruct 1 as [|c s Hc Hs|c d s Hc Hs|c d e s Hc Hs]; [done|..]; cbn [trim]; simpl in Hf.
    + assert (lead (String c s) = 1) as ->.
      { destruct s as [|? [|? ?]]; cbn [lead]; by rewrite Hc. }
      apply IH; [simpl; lia|done].
    + assert (lead (String c (String d s)) = 2) as ->.
      { assert (is_ascii_space c = false) as Hn.
        { apply high_not_space, N.leb_le. rewrite (two_high _ _ Hc). lia. }
        destruct s; cbn [lead]; by rewrite Hn, Hc. }
      apply IH; [simpl; lia|done].
    + assert (lead (String c (String d (String e s))) = 3) as ->.
      { pose proof (three_high _ _ _ Hc). cbn [lead].
        rewrite high_not_space by (apply N.leb_le; lia).
        destruct (two_bytes c d) eqn:E2; [apply two_high in E2; lia|]. by rewrite Hc. }
      apply IH; [simpl; lia|done].
Qed.

Lemma reverse_nil s : reverse s = "" ↔ s = "".
Proof.
  split; [|by intros ->]. unfold reverse. assert (∀ s acc, rev_app s acc = "" → s = "" ∧ acc = "") as H.
  { clear s. intros s; induction s as [|c s IH]; intros acc; simpl; [done|]. by intros [_ ?]%IH. }
  by intros [? _]%H.
Qed.

Lemma rev_app_acc s acc : rev_app s acc = reverse s +:+ acc.
Proof.
  unfold reverse. revert acc; induction s as [|c s IH]; intros acc; [done|]. cbn [rev_app].
  rewrite IH, (IH (String c "")). by rewrite str_app_assoc.
Qed.

Lemma reverse_cons c s : reverse (String c s) = reverse s +:+ String c "".
Proof. apply (rev_app_acc s (String c "")). Qed.
Lemma reverse_reverse s : reverse (reverse s) = s.
Proof.
  unfold reverse. assert (∀ a b, rev_app (rev_app a b) "" = rev_app b a) as Hr; [|by rewrite Hr].
  intros a; induction a as [|c a IH]; intros b; [done|]. cbn [rev_app]. by rewrite IH.
Qed.

Lemma blank_app a b : blank a → blank b → blank (a +:+ b).
Proof.
  intros Ha Hb. induction Ha; [done|..]; [apply blank_1|apply blank_2|apply blank_3]; done.
Qed.

Lemma trim_rev_blank fuel r : trim lead_rev fuel r = "" → blank (reverse r).
Proof.
  revert r; induction fuel as [|fuel IH]; intros r; [cbn; intros ->; constructor|].
  destruct r as [|e [|d [|c r]]]; [constructor|..]; cbn [trim lead_rev].
  - destruct (is_ascii_space e) eqn:E1; [|done]. intros _. by repeat constructor.
  - destruct (is_ascii_space e) eqn:E1.
    + cbn [drop]. intros H%IH. rewrite reverse_cons. apply blank_app; [done|]. by repeat constructor.
    + destruct (two_bytes d e) eqn:E2; [|done]. intros _. by repeat constructor.
  - destruct (is_ascii_space e) eqn:E1; [|destruct (two_bytes d e) eqn:E2; [|destruct (three_bytes c d e) eqn:E3; [|done]]];
      cbn [drop]; intros H%IH.
    + rewrite reverse_cons. apply blank_app; [done|by repeat constructor].
    + rewrite (reverse_cons e), (reverse_cons d), str_app_assoc. apply blank_app; [done|by repeat constructor].
    + rewrite (reverse_cons e), (reverse_cons d), (reverse_cons c), !str_app_assoc.
      apply blank_app; [done|by repeat constructor].
Qed.

Lemma drop_length n s : (String.length (drop n s) ≤ String.length s)%nat.
Proof. revert s; induction n as [|n IH]; intros [|c s]; simpl; [lia..|]. specialize (IH s). lia. Qed.

Lemma trim_fixed fuel s :
  (String.length s ≤ fuel)%nat → trim lead fuel s = "" ∨ lead (trim lead fuel s) = 0%nat.
Proof.
  revert s; induction fuel as [|fuel IH]; intros s Hf; [destruct s; [by left|simpl in Hf; lia]|].
  cbn [trim]. destruct (lead s) as [|n] eqn:E; [by right|]. apply IH.
  destruct s as [|c s]; [simpl; lia|]. cbn [drop]. simpl in Hf. pose proof (drop_length n s). lia.
Qed.

(** Trimming leaves nothing exactly when there is nothing but white space. *)
Lemma TrimSpace_nil s : TrimSpace s = "" ↔ blank s.
Proof.
  unfold TrimSpace, TrimRight. rewrite reverse_nil. split.
  - intros H%trim_rev_blank. destruct (TrimLeft s) as [|c l] eqn:E.
    { by apply trim_blank in E. }
    exfalso. rewrite reverse_reverse in H. apply (trim_blank (String.length (String c l)) _ (le_n _)) in H.
    destruct (trim_fixed (String.length s) s (le_n _)) as [H0|H0]; fold (TrimLeft s) in H0; rewrite E in H0; [done|].
    cbn [String.length trim] in H. by rewrite H0 in H.
  - intros H. unfold TrimLeft. by rewrite (proj2 (trim_blank _ _ (le_n _)) H).
Qed.

End Space.
