(* ===== verification/GoFloat.v ===== *)
(** * What the program uses of Go's [float64]: conversions from and to
    [int64] and the product, as IEEE 754 binary64 ([SpecFloat]), with a bound on
    what rounding adds. *)
From Stdlib Require Import ZArith Lia SpecFloat.
From S2P Require Import Prelude.

(** [float64(n)] and its way back. A conversion of a float out of range gives
    the least integer, as on amd64. *)
Definition float64 (n : Z) : spec_float :=
  match n with
  | Z0 => S754_zero false
  | Zpos p => binary_round 53 1024 false p 0
  | Zneg p => binary_round 53 1024 true p 0
  end.
Definition float64_int64 (f : spec_float) : Z :=
  match f with
  | S754_finite s m e =>
      let v := if (0 <=? e)%Z then (Zpos m * 2 ^ e)%Z else (Zpos m / 2 ^ (- e))%Z in
      let v := if s then (- v)%Z else v in
      if (- 2 ^ 63 <=? v)%Z && (v <=? 2 ^ 63 - 1)%Z then v else (- 2 ^ 63)%Z
  | S754_zero _ => 0%Z
  | _ => (- 2 ^ 63)%Z
  end.

(** [uint64(f)], a conversion out of range giving [2^63], as on amd64. *)
Definition float64_uint64 (f : spec_float) : Z :=
  match f with
  | S754_finite false m e =>
      let v := if (0 <=? e)%Z then (Zpos m * 2 ^ e)%Z else (Zpos m / 2 ^ (- e))%Z in
      if (v <? 2 ^ 64)%Z then v else (2 ^ 63)%Z
  | S754_zero _ => 0%Z
  | _ => (2 ^ 63)%Z
  end.
Definition float_one : spec_float := S754_finite false 4503599627370496 (-52).

(** ** Shifting *)

Lemma shr_1_m r : (0 ≤ shr_m r)%Z → shr_m (shr_1 r) = (shr_m r / 2)%Z.
Proof.
  destruct r as [[|p|p] b s]; cbn [shr_m]; intros H; [done| |lia].
  destruct p as [p|p|]; cbn [shr_1 shr_m]; [|by rewrite Pos2Z.inj_xO, Z.mul_comm, Z.div_mul|done].
  rewrite Pos2Z.inj_xI. apply (Z.div_unique _ _ _ 1); lia.
Qed.

Lemma shr_iter_m p r : (0 ≤ shr_m r)%Z → shr_m (SpecFloat.iter_pos shr_1 p r) = (shr_m r / 2 ^ Zpos p)%Z.
Proof.
  revert r. induction p as [p IH|p IH|]; intros r H; cbn [SpecFloat.iter_pos].
  - assert (0 ≤ shr_m (shr_1 r))%Z by (rewrite shr_1_m by done; apply Z.div_pos; lia).
    rewrite IH; [|rewrite IH by done; apply Z.div_pos; lia]. rewrite IH, shr_1_m by done.
    rewrite !Z.div_div by lia. f_equal. replace (Z.pos p~1) with (1 + Z.pos p + Z.pos p)%Z by lia.
    rewrite !Z.pow_add_r by lia. lia.
  - rewrite IH; [|rewrite IH by done; apply Z.div_pos; lia]. rewrite IH by done.
    rewrite Z.div_div by lia. f_equal. replace (Z.pos p~0) with (Z.pos p + Z.pos p)%Z by lia.
    by rewrite Z.pow_add_r by lia.
  - by rewrite shr_1_m.
Qed.

Lemma shr_bound r e n :
  (0 ≤ shr_m r)%Z → let '(r', e') := shr r e n in
  e' = (e + Z.max 0 n)%Z ∧ (0 ≤ shr_m r')%Z ∧ (shr_m r' * 2 ^ Z.max 0 n ≤ shr_m r)%Z.
Proof.
  intros H. destruct n as [|p|p]; cbn [shr]; [rewrite Z.max_l, Z.pow_0_r by lia; lia| |rewrite Z.max_l, Z.pow_0_r by lia; lia].
  rewrite shr_iter_m, Z.max_r by lia. pose proof (Z.pow_pos_nonneg 2 (Zpos p) ltac:(lia) ltac:(lia)).
  split_and!; [done|apply Z.div_pos; lia|]. rewrite Z.mul_comm. apply Z.mul_div_le; lia.
Qed.

Lemma Zdigits2_low p : (2 ^ (Zdigits2 (Zpos p) - 1) ≤ Zpos p)%Z.
Proof.
  cbn [Zdigits2]. induction p as [p IH|p IH|]; cbn [digits2_pos]; [| |done];
    rewrite Pos2Z.inj_succ; replace (Z.succ (Z.pos (digits2_pos p)) - 1)%Z with (Z.succ (Z.pos (digits2_pos p) - 1)) by lia;
    rewrite Z.pow_succ_r by lia; lia.
Qed.

Lemma Zdigits2_high p : (Zpos p < 2 ^ Zdigits2 (Zpos p))%Z.
Proof.
  cbn [Zdigits2]. induction p as [p IH|p IH|]; cbn [digits2_pos]; [| |done]; rewrite Pos2Z.inj_succ, Z.pow_succ_r by lia; lia.
Qed.

(** Rounding at most doubles. *)
Lemma round_bound sx p ex s m e :
  (-1000 ≤ ex)%Z → binary_round_aux 53 1024 sx (Zpos p) ex loc_Exact = S754_finite s m e →
  (ex ≤ e)%Z ∧ (Zpos m * 2 ^ (e - ex) ≤ 2 * Zpos p)%Z ∧ s = sx.
Proof.
  intros Hex. unfold binary_round_aux, shr_fexp, fexp, emin.
  set (n := (Z.max (Zdigits2 (Z.pos p) + ex - 53) (3 - 1024 - 53) - ex)%Z).
  pose proof (shr_bound (shr_record_of_loc (Zpos p) loc_Exact) ex n ltac:(cbn; lia)) as H1.
  assert (Z.max 0 n = 0 → (shr (shr_record_of_loc (Zpos p) loc_Exact) ex n).1 = shr_record_of_loc (Zpos p) loc_Exact)%Z as Hz
    by (intros; destruct n; [done|lia|done]).
  destruct (shr _ ex n) as [r1 e1]. destruct H1 as (->&H1&Hm1). cbn [shr_record_of_loc shr_m] in Hm1.
  set (m1 := round_nearest_even (shr_m r1) (loc_of_shr_record r1)).
  assert (shr_m r1 ≤ m1 ≤ shr_m r1 + 1 ∧ (Z.max 0 n = 0 → m1 = Zpos p))%Z as [Hr Hr0].
  { split; [subst m1; unfold round_nearest_even; repeat case_match; lia|]. intros E. unfold m1; cbn in Hz. by rewrite Hz. }
  set (n2 := (Z.max (Zdigits2 m1 + (ex + Z.max 0 n) - 53) (3 - 1024 - 53) - (ex + Z.max 0 n))%Z).
  pose proof (shr_bound (shr_record_of_loc m1 loc_Exact) (ex + Z.max 0 n) n2 ltac:(cbn; lia)) as H2.
  destruct (shr _ _ n2) as [r2 e2]. destruct H2 as (->&H2&Hm2). cbn [shr_record_of_loc shr_m] in Hm2.
  destruct (shr_m r2) as [|q|q] eqn:Eq; [done| |done].
  destruct (_ <=? _)%Z; [|done]. intros [= <- <- <-]. split_and!; [lia| |done].
  replace (ex + Z.max 0 n + Z.max 0 n2 - ex)%Z with (Z.max 0 n2 + Z.max 0 n)%Z by lia.
  rewrite Z.pow_add_r by lia. rewrite Z.mul_assoc.
  assert (m1 * 2 ^ Z.max 0 n ≤ 2 * Z.pos p)%Z.
  { destruct (Z.eq_dec (Z.max 0 n) 0%Z) as [E|E]; [rewrite E, Hr0 by done; lia|].
    assert (n ≤ Zdigits2 (Zpos p) - 1)%Z by (unfold n in *; lia).
    pose proof (Zdigits2_low p). pose proof (Z.pow_le_mono_r 2 n (Zdigits2 (Zpos p) - 1) ltac:(lia) ltac:(lia)).
    replace (Z.max 0 n) with n in * by lia. nia. }
  pose proof (Z.pow_pos_nonneg 2 (Z.max 0 n) ltac:(lia) ltac:(lia)). nia.
Qed.

Lemma float64_bound p s m e :
  float64 (Zpos p) = S754_finite s m e → (-53 ≤ e)%Z ∧ (Zpos m * 2 ^ (e + 53) ≤ 2 * Zpos p * 2 ^ 53)%Z ∧ s = false.
Proof.
  cbn [float64]. unfold binary_round, shl_align, fexp, emin. intros E.
  set (x := Z.max (Z.pos (digits2_pos p) + 0 - 53) (3 - 1024 - 53)) in E.
  assert (-53 ≤ x)%Z as Hx by lia.
  destruct (x - 0)%Z as [|q|q] eqn:Ex.
  - apply round_bound in E as (He&Hm&->); [|lia]. split_and!; [lia| |done].
    replace (e + 53)%Z with (e - 0 + 53)%Z by lia. rewrite Z.pow_add_r by lia. nia.
  - apply round_bound in E as (He&Hm&->); [|lia]. split_and!; [lia| |done].
    replace (e + 53)%Z with (e - 0 + 53)%Z by lia. rewrite Z.pow_add_r by lia. nia.
  - assert (x = Zneg q) as Hq by lia. rewrite Hq in *. apply round_bound in E as (He&Hm&->); [|lia]. split_and!; [lia| |done].
    change (Pos.iter xO p q) with (Zpower.shift_pos q p) in Hm. rewrite Zpower.shift_pos_correct, Z.pow_pos_fold in Hm.
    replace (e + 53)%Z with (e - Zneg q + (53 - Zpos q))%Z by lia. rewrite Z.pow_add_r by lia.
    replace (2 ^ 53)%Z with (2 ^ Zpos q * 2 ^ (53 - Zpos q))%Z by (rewrite <-Z.pow_add_r by lia; f_equal; lia).
    pose proof (Z.pow_pos_nonneg 2 (53 - Zpos q) ltac:(lia) ltac:(lia)). nia.
Qed.

Lemma float64_int64_le s m e b : 
  (-2000 ≤ e)%Z → (0 ≤ b)%Z → (Zpos m * 2 ^ (e + 2000) ≤ b * 2 ^ 2000)%Z → (float64_int64 (S754_finite s m e) ≤ b)%Z.
Proof.
  intros He Hb H. cbn [float64_int64].
  assert ((if 0 <=? e then Z.pos m * 2 ^ e else Z.pos m / 2 ^ (- e)) ≤ b)%Z as Hv.
  { destruct (Z.leb_spec 0 e).
    - rewrite Z.pow_add_r in H by lia. pose proof (Z.pow_pos_nonneg 2 2000 ltac:(lia) ltac:(lia)). nia.
    - apply Z.div_le_upper_bound; [apply Z.pow_pos_nonneg; lia|].
      assert (2 ^ 2000 = 2 ^ (- e) * 2 ^ (e + 2000))%Z as E by (rewrite <-Z.pow_add_r by lia; f_equal; lia). rewrite E in H. clear E.
      pose proof (Z.pow_pos_nonneg 2 (e + 2000) ltac:(lia) ltac:(lia)). nia. }
  assert (0 ≤ (if 0 <=? e then Z.pos m * 2 ^ e else Z.pos m / 2 ^ (- e)))%Z.
  { destruct (Z.leb_spec 0 e); [|apply Z.div_pos; [lia|apply Z.pow_pos_nonneg; lia]].
    pose proof (Z.pow_nonneg 2 e). lia. }
  destruct (_ && _); [|lia]. destruct s; lia.
Qed.

(** ** Rounding does not pass an integer *)

Definition flagless (r : shr_record) : Prop := shr_r r = false ∧ shr_s r = false.
Lemma shr_iter_exact p r :
  (0 ≤ shr_m r)%Z → flagless r → (shr_m r mod 2 ^ Zpos p = 0)%Z → flagless (SpecFloat.iter_pos shr_1 p r).
Proof.
  assert (∀ r, (0 ≤ shr_m r)%Z → flagless r → (shr_m r mod 2 = 0)%Z → flagless (shr_1 r)) as H1.
  { intros [[|q|q] b c] Hm [Hr Hs] Hz; cbn in *; subst; [done| |lia]. destruct q as [q|q|]; [|done|done].
    rewrite Pos2Z.inj_xI, Z.add_comm, Z.mul_comm, Z.mod_add in Hz by lia. done. }
  assert (∀ m a b, (0 ≤ a)%Z → (0 ≤ b)%Z → (m mod 2 ^ (a + b) = 0)%Z → (m mod 2 ^ a = 0 ∧ (m / 2 ^ a) mod 2 ^ b = 0)%Z) as Hsplit.
  { intros m a b Ha Hb Hz. rewrite Z.pow_add_r in Hz by lia.
    pose proof (Z.pow_pos_nonneg 2 a ltac:(lia) Ha). pose proof (Z.pow_pos_nonneg 2 b ltac:(lia) Hb).
    apply Z.mod_divide in Hz as [k ->]; [|lia]. split.
    - rewrite (Z.mul_comm (2 ^ a)), Z.mul_assoc. apply Z.mod_mul. lia.
    - rewrite (Z.mul_comm (2 ^ a)), Z.mul_assoc, Z.div_mul by lia. apply Z.mod_mul. lia. }
  revert r. induction p as [p IH|p IH|]; intros r Hm Hf Hz; cbn [SpecFloat.iter_pos]; [| |by apply H1].
  - replace (Z.pos p~1) with (1 + (Z.pos p + Z.pos p))%Z in Hz by lia. apply Hsplit in Hz as [Hz1 Hz]; [|lia|lia].
    apply Hsplit in Hz as [Hz2 Hz3]; [|lia|lia]. change (2 ^ 1)%Z with 2%Z in *.
    assert (0 ≤ shr_m (shr_1 r))%Z by (rewrite shr_1_m by done; apply Z.div_pos; lia).
    apply IH; [rewrite shr_iter_m by done; apply Z.div_pos; lia|apply IH; [done|by apply H1|by rewrite shr_1_m]|].
    by rewrite shr_iter_m, shr_1_m by done.
  - replace (Z.pos p~0) with (Z.pos p + Z.pos p)%Z in Hz by lia. apply Hsplit in Hz as [Hz2 Hz3]; [|lia|lia].
    apply IH; [rewrite shr_iter_m by done; apply Z.div_pos; lia|by apply IH|]. by rewrite shr_iter_m.
Qed.

(** [f] is at least [0] and at most the integer [S]; [K] scales exponents. *)
Definition at_most (K S : Z) (f : spec_float) : Prop :=
  match f with
  | S754_zero _ => True
  | S754_finite _ m e => (Zpos m * 2 ^ (e + K) ≤ S * 2 ^ K ∧ - K ≤ e)%Z
  | _ => False
  end.
Lemma round_le K S p sx ex :
  (- K ≤ ex)%Z → (0 ≤ S < 2 ^ 53)%Z → (Zpos p * 2 ^ (ex + K) ≤ S * 2 ^ K)%Z → (0 ≤ K)%Z →
  at_most K S (binary_round_aux 53 1024 sx (Zpos p) ex loc_Exact).
Proof.
  intros HK HS Hle HK0. unfold binary_round_aux, shr_fexp, fexp, emin.
  set (n := (Z.max (Zdigits2 (Z.pos p) + ex - 53) (3 - 1024 - 53) - ex)%Z).
  pose proof (shr_bound (shr_record_of_loc (Zpos p) loc_Exact) ex n ltac:(cbn; lia)) as H1.
  assert (∀ r1, (shr (shr_record_of_loc (Zpos p) loc_Exact) ex n).1 = r1 →
    (round_nearest_even (shr_m r1) (loc_of_shr_record r1) * 2 ^ (ex + Z.max 0 n + K) ≤ S * 2 ^ K)%Z) as Hround.
  { intros r1 <-. destruct n as [|q|q] eqn:En.
    1,3: rewrite Z.max_l by lia; cbn [shr fst shr_record_of_loc shr_m loc_of_shr_record round_nearest_even];
      replace (ex + 0 + K)%Z with (ex + K)%Z by lia; exact Hle.
    rewrite Z.max_r by lia. cbn [shr fst]. rewrite shr_iter_m by (cbn; lia). cbn [shr_record_of_loc shr_m].
    assert (Zpos q = Zdigits2 (Zpos p) - 53 ∨ ex + Zpos q = -1074)%Z as Hq by lia.
    assert (ex + Zpos q ≤ 0)%Z as He1.
    { destruct Hq as [Hq|Hq]; [|lia]. pose proof (Zdigits2_low p) as Hlow. destruct (Z.le_gt_cases (ex + Zpos q) 0) as [|Hgt]; [done|]. exfalso.
      assert (2 ^ 53 * 2 ^ K ≤ Zpos p * 2 ^ (ex + K))%Z; [|pose proof (Z.pow_pos_nonneg 2 K ltac:(lia) HK0); nia].
      rewrite <-Z.pow_add_r by lia.
      transitivity (2 ^ (Zdigits2 (Z.pos p) - 1) * 2 ^ (ex + K))%Z.
      - rewrite <-Z.pow_add_r by lia. apply Z.pow_le_mono_r; lia.
      - apply Z.mul_le_mono_nonneg_r; [apply Z.pow_nonneg; lia|done]. }
    set (T := (S * 2 ^ (- (ex + Zpos q)))%Z).
    assert (S * 2 ^ K = T * 2 ^ (ex + Zpos q + K))%Z as HT.
    { subst T. rewrite <-Z.mul_assoc, <-Z.pow_add_r by lia. do 2 f_equal. lia. }
    rewrite HT in *. apply Z.mul_le_mono_nonneg_r; [apply Z.pow_nonneg; lia|].
    assert (Zpos p ≤ T * 2 ^ Zpos q)%Z as HpT.
    { replace (ex + Zpos q + K)%Z with (Zpos q + (ex + K))%Z in Hle by lia. rewrite (Z.pow_add_r 2 (Zpos q) (ex + K)) in Hle by lia.
      apply (Z.mul_le_mono_pos_r _ _ (2 ^ (ex + K))); [apply Z.pow_pos_nonneg; lia|]. by rewrite <-Z.mul_assoc. }
    pose proof (Z.pow_pos_nonneg 2 (Zpos q) ltac:(lia) ltac:(lia)) as Hpos.
    pose proof (Z.div_mod (Zpos p) (2 ^ Zpos q) ltac:(lia)) as Hdm.
    pose proof (Z.mod_pos_bound (Zpos p) (2 ^ Zpos q) Hpos) as Hb.
    destruct (Z.eq_dec (Zpos p mod 2 ^ Zpos q)%Z 0%Z) as [Hz|Hz].
    - destruct (shr_iter_exact q (shr_record_of_loc (Zpos p) loc_Exact) ltac:(cbn; lia) ltac:(done) Hz) as [Hr Hs].
      destruct (SpecFloat.iter_pos shr_1 q _) as [m1 r1 s1]. cbn in Hr, Hs. subst r1 s1. cbn [loc_of_shr_record round_nearest_even]. nia.
    - transitivity (Zpos p / 2 ^ Zpos q + 1)%Z; [unfold round_nearest_even; repeat case_match; lia|]. nia. }
  destruct (shr _ ex n) as [r1 e1]. destruct H1 as (->&H1&_). specialize (Hround r1 eq_refl).
  set (m1 := round_nearest_even _ _) in *.
  destruct (Z.le_gt_cases 0 m1) as [Hm1|Hm1].
  2:{ exfalso. subst m1. unfold round_nearest_even in Hm1. repeat case_match; lia. }
  set (n2 := (Z.max (Zdigits2 m1 + (ex + Z.max 0 n) - 53) (3 - 1024 - 53) - (ex + Z.max 0 n))%Z).
  pose proof (shr_bound (shr_record_of_loc m1 loc_Exact) (ex + Z.max 0 n) n2 ltac:(cbn; lia)) as H2.
  destruct (shr _ _ n2) as [r2 e2]. destruct H2 as (->&H2&Hm2). cbn [shr_record_of_loc shr_m] in Hm2.
  destruct (shr_m r2) as [|q|q] eqn:Eq; [done| |lia].
  assert (Zpos q * 2 ^ (ex + Z.max 0 n + Z.max 0 n2 + K) ≤ S * 2 ^ K)%Z as Hq.
  { replace (ex + Z.max 0 n + Z.max 0 n2 + K)%Z with (Z.max 0 n2 + (ex + Z.max 0 n + K))%Z by lia.
    rewrite Z.pow_add_r, Z.mul_assoc by lia.
    pose proof (Z.pow_nonneg 2 (ex + Z.max 0 n + K) ltac:(lia)). nia. }
  destruct (Z.leb_spec (ex + Z.max 0 n + Z.max 0 n2) (1024 - 53)) as [|Hbig]; cbn; [split; [done|lia]|].
  assert (2 ^ 53 * 2 ^ K ≤ 2 ^ (ex + Z.max 0 n + Z.max 0 n2 + K))%Z.
  { rewrite <-Z.pow_add_r by lia. apply Z.pow_le_mono_r; lia. }
  pose proof (Z.pow_pos_nonneg 2 K ltac:(lia) HK0). nia.
Qed.

Lemma float64_le p : (Zpos p < 2 ^ 53)%Z → at_most 53 (Zpos p) (float64 (Zpos p)).
Proof.
  intros Hp. cbn [float64]. unfold binary_round, shl_align, fexp, emin.
  set (x := Z.max (Z.pos (digits2_pos p) + 0 - 53) (3 - 1024 - 53)).
  assert (-53 ≤ x)%Z as Hx by lia.
  destruct (x - 0)%Z as [|q|q] eqn:Ex.
  1,2: apply round_le; [lia|lia| |lia]; by rewrite Z.add_0_l.
  assert (x = Zneg q) as -> by lia. apply round_le; [lia|lia| |lia].
  change (Pos.iter xO p q) with (Zpower.shift_pos q p). rewrite Zpower.shift_pos_correct, Z.pow_pos_fold.
  rewrite (Z.mul_comm (2 ^ Zpos q)), <-Z.mul_assoc, <-Z.pow_add_r by lia.
  by replace (Zpos q + (Zneg q + 53))%Z with 53%Z by lia.
Qed.

(** A valid float in [[0, 1]], as its comparisons with [0] and [1] say, or one
    they say nothing of. *)
Definition in_unit (f : spec_float) : bool := negb (SFltb f (S754_zero false)) && negb (SFltb float_one f).

Lemma in_unit_le m e : valid_binary 53 1024 (S754_finite false m e) = true → in_unit (S754_finite false m e) = true →
  (-1074 ≤ e ≤ 0 ∧ Zpos m * 2 ^ (e + 1074) ≤ 2 ^ 1074)%Z.
Proof.
  unfold in_unit, SFltb, valid_binary, bounded, canonical_mantissa, fexp, emin, float_one.
  intros [Hc%Z.eqb_eq Hb]%andb_prop [_ H]%andb_prop. rewrite Z.leb_le in Hb.
  cbn [SFcompare] in H.
  assert (Zpos m < 2 ^ 53)%Z as Hm.
  { pose proof (Zdigits2_high m). cbn [Zdigits2] in *. assert (Zpos (digits2_pos m) ≤ 53)%Z as Hd by lia.
    pose proof (Z.pow_le_mono_r 2 _ _ ltac:(lia) Hd). lia. }
  assert (e < -52 ∨ e = -52 ∧ Zpos m ≤ 2 ^ 52)%Z as Hcase.
  { destruct (Z.compare_spec (-52) e) as [E|E|E]; [|done|left; lia]. right. split; [done|].
    destruct (Z.le_gt_cases (Zpos m) (2 ^ 52)) as [|Hgt]; [done|exfalso].
    assert (Pos.compare 4503599627370496 m = Lt) as E' by (apply Pos.compare_lt_iff; lia).
    change (Pos.compare_cont Eq 4503599627370496 m) with (Pos.compare 4503599627370496 m) in H. rewrite E' in H. done. }
  split; [lia|]. destruct Hcase as [He|[-> He]].
  - transitivity (2 ^ 53 * 2 ^ (e + 1074))%Z; [apply Z.mul_le_mono_nonneg_r; [apply Z.pow_nonneg; lia|lia]|].
    rewrite <-Z.pow_add_r by lia. apply Z.pow_le_mono_r; lia.
  - transitivity (2 ^ 52 * 2 ^ (-52 + 1074))%Z; [apply Z.mul_le_mono_nonneg_r; [apply Z.pow_nonneg; lia|lia]|].
    rewrite <-Z.pow_add_r by lia. done.
Qed.

Lemma at_most_uint64 K S f : (0 ≤ K)%Z → (0 ≤ S < 2 ^ 53)%Z → at_most K S f →
  match f with S754_finite s _ _ => s = false | _ => True end → (0 ≤ float64_uint64 f ≤ S)%Z.
Proof.
  intros HK HS Hf Hs. destruct f as [s|s| |s m e]; cbn in Hf; try done; [cbn; lia|]. subst s. destruct Hf as [Hf He].
  cbn [float64_uint64].
  assert (0 ≤ (if 0 <=? e then Zpos m * 2 ^ e else Zpos m / 2 ^ (- e)) ≤ S)%Z as Hv.
  { destruct (Z.leb_spec 0 e).
    - rewrite Z.pow_add_r in Hf by lia. pose proof (Z.pow_pos_nonneg 2 K ltac:(lia) HK). pose proof (Z.pow_nonneg 2 e ltac:(lia)). nia.
    - pose proof (Z.pow_pos_nonneg 2 (- e) ltac:(lia) ltac:(lia)). split; [apply Z.div_pos; lia|].
      apply Z.div_le_upper_bound; [lia|].
      assert (2 ^ K = 2 ^ (- e) * 2 ^ (e + K))%Z as E by (rewrite <-Z.pow_add_r by lia; f_equal; lia). rewrite E in Hf.
      apply (Z.mul_le_mono_pos_r _ _ (2 ^ (e + K))); [apply Z.pow_pos_nonneg; lia|]. nia. }
  destruct (Z.ltb_spec (if 0 <=? e then Zpos m * 2 ^ e else Zpos m / 2 ^ (- e))%Z (2 ^ 64)); lia.
Qed.

Lemma round_sign sx p ex l :
  match binary_round_aux 53 1024 sx p ex l with S754_finite s _ _ => s = sx | _ => True end.
Proof.
  unfold binary_round_aux. destruct (shr_fexp _ _ p ex l) as [r1 e1]. destruct (shr_fexp _ _ _ e1 _) as [r2 e2].
  destruct (shr_m r2); try done. by destruct (_ <=? _)%Z.
Qed.

(** A fraction of an integer, rounded, is at most it. *)
Lemma fraction_le n j : (0 < n < 2 ^ 53)%Z → valid_binary 53 1024 j = true → in_unit j = true →
  SFltb (S754_zero false) j = true → (0 ≤ float64_uint64 (SFmul 53 1024 (float64 n) j) ≤ n)%Z.
Proof.
  intros Hn Hv Hu Hpos. destruct n as [|p|]; [lia| |lia].
  destruct j as [b|[]| |[] m e]; try done. destruct (in_unit_le m e Hv Hu) as [He Hm].
  pose proof (float64_le p ltac:(lia)) as Hf.
  destruct (float64 (Zpos p)) as [s|s| |s mx ex] eqn:Ef; [cbn; lia|done|done|].
  apply float64_bound in Ef as (_&_&->). destruct Hf as [Hf Hex]. cbn [SFmul].
  apply (at_most_uint64 1127); [lia|lia| |].
  - apply round_le; [lia|lia| |lia]. rewrite Pos2Z.inj_mul.
    replace (ex + e + 1127)%Z with ((ex + 53) + (e + 1074))%Z by lia. rewrite Z.pow_add_r by lia.
    change 1127%Z with (53 + 1074)%Z. rewrite (Z.pow_add_r 2 53 1074) by lia.
    transitivity ((Zpos mx * 2 ^ (ex + 53)) * (Zpos m * 2 ^ (e + 1074)))%Z; [lia|].
    transitivity ((Zpos p * 2 ^ 53) * 2 ^ 1074)%Z; [|lia].
    apply Z.mul_le_mono_nonneg; [|done| |done]; (apply Z.mul_nonneg_nonneg; [lia|apply Z.pow_nonneg; lia]).
  - apply round_sign.
Qed.
