(* ===== verification/GoAuth.v ===== *)
(** * The parts of Go's [strings], [strconv], [encoding/base64] and
    [encoding/hex] that HTTP authentication uses, on byte strings. *)
From Stdlib Require Import ZArith Lia Ascii String.
From S2P Require Import Prelude GoLib GoText.

(** ** Case and trimming

    Headers are ASCII: outside it the case maps are the identity here. *)
Definition lower_byte (c : ascii) : ascii := if in_range "A" "Z" c then ascii_of_N (N_of_ascii c + 32) else c.
Definition upper_byte (c : ascii) : ascii := if in_range "a" "z" c then ascii_of_N (N_of_ascii c - 32) else c.
Fixpoint ToLower (s : string) : string := match s with "" => "" | String c s' => String (lower_byte c) (ToLower s') end.
Fixpoint ToUpper (s : string) : string := match s with "" => "" | String c s' => String (upper_byte c) (ToUpper s') end.
(** [strings.EqualFold], where one side is ASCII without [k] and [s], whose
    foldings leave ASCII. *)
Definition EqualFold (s t : string) : bool := String.eqb (ToLower s) (ToLower t).

(** [strings.TrimLeft] of single-byte cutsets. *)
Fixpoint TrimLeftSet (p : ascii → bool) (s : string) : string :=
  match s with "" => "" | String c s' => if p c then TrimLeftSet p s' else s end.

Definition dquote : ascii := ascii_of_nat 34.
Definition quoted (s : string) : string := String dquote (s +:+ String dquote "").

(** Printable bytes but the space. *)
Definition graphic (c : ascii) : bool := in_range "!" "~" c.

Lemma Cut_app a s sep : Strings.no_byte sep a = true → Strings.Cut (a +:+ String sep s) sep = Some (a, s).
Proof.
  unfold Strings.no_byte. induction a as [|c a IH]; cbn; [by rewrite Ascii.eqb_refl|].
  rewrite andb_true_iff, negb_true_iff. by intros [-> ->%IH].
Qed.
Lemma Cut_none a sep : Strings.no_byte sep a = true → Strings.Cut a sep = None.
Proof.
  unfold Strings.no_byte. induction a as [|c a IH]; cbn; [done|].
  rewrite andb_true_iff, negb_true_iff. by intros [-> ->%IH].
Qed.

Lemma graphic_not_space c : graphic c = true → (33 ≤ byte_of c ≤ 126)%N.
Proof.
  unfold graphic, in_range, byte_le, byte_of. rewrite andb_true_iff, !N.leb_le.
  change (N_of_ascii "!") with 33%N. change (N_of_ascii "~") with 126%N. done.
Qed.

Lemma lead_graphic c s : graphic c = true → Space.lead (String c s) = O ∧ Space.lead_rev (String c s) = O.
Proof.
  intros Hg%graphic_not_space.
  assert (Space.is_ascii_space c = false) as E1.
  { unfold Space.is_ascii_space. destruct (N.eqb_spec (byte_of c) 32), (N.leb_spec 9 (byte_of c)), (N.leb_spec (byte_of c) 13); lia || done. }
  assert (∀ d, Space.two_bytes c d = false ∧ Space.two_bytes d c = false) as E2.
  { intros d. unfold Space.two_bytes. destruct (N.eqb_spec (byte_of c) 194), (N.eqb_spec (byte_of c) 133), (N.eqb_spec (byte_of c) 160); lia || (try done). }
  assert (∀ d e, Space.three_bytes c d e = false ∧ Space.three_bytes d e c = false) as E3.
  { intros d e. unfold Space.three_bytes.
    repeat match goal with |- context [(byte_of c =? ?n)%N] => destruct (N.eqb_spec (byte_of c) n); [lia|] end.
    destruct (N.leb_spec 128 (byte_of c)); [lia|]. split; [done|]. cbn. by rewrite !andb_false_r. }
  destruct s as [|d [|e s]]; cbn [Space.lead Space.lead_rev]; rewrite E1; [done| |].
  - by destruct (E2 d) as [-> ->].
  - destruct (E2 d) as [-> ->]. by destruct (E3 d e) as [-> _], (E3 e d) as [_ ->].
Qed.

Lemma str_forall_rev_app p s acc : str_forall p (Space.rev_app s acc) = str_forall p s && str_forall p acc.
Proof. revert acc. induction s as [|c s IH]; intros acc; cbn; [done|]. rewrite IH. cbn. destruct (p c), (str_forall p s); done. Qed.

(** Text that begins and ends with a printable byte is not trimmed. *)
Definition last_graphic (s : string) : bool := match Space.reverse s with String c _ => graphic c | "" => false end.
Lemma TrimSpace_id c s : graphic c = true → last_graphic (String c s) = true → Space.TrimSpace (String c s) = String c s.
Proof.
  intros Hc Hl. unfold Space.TrimSpace, Space.TrimRight, Space.TrimLeft.
  assert (∀ fuel, Space.trim Space.lead fuel (String c s) = String c s) as ->.
  { intros [|fuel]; [done|]. cbn [Space.trim]. by rewrite (proj1 (lead_graphic c s Hc)). }
  assert (∀ fuel, Space.trim Space.lead_rev fuel (Space.reverse (String c s)) = Space.reverse (String c s)) as ->.
  { intros [|fuel]; [done|]. cbn [Space.trim]. unfold last_graphic in Hl. destruct (Space.reverse (String c s)) as [|d r]; [done|].
    by rewrite (proj2 (lead_graphic d r Hl)). }
  apply Space.reverse_reverse.
Qed.
Lemma TrimSpace_cons c s : graphic c = true → last_graphic (String c s) = true → Space.TrimSpace (String " " (String c s)) = String c s.
Proof.
  intros Hc Hl. assert (∀ fuel, Space.trim Space.lead fuel (String c s) = String c s) as H.
  { intros [|fuel]; [done|]. cbn [Space.trim]. by rewrite (proj1 (lead_graphic c s Hc)). }
  assert (∀ fuel, Space.trim Space.lead (S fuel) (String " " (String c s)) = String c s) as Hsp.
  { intros fuel. cbn [Space.trim]. assert (Space.lead (String " " (String c s)) = 1%nat) as -> by by destruct s. apply H. }
  transitivity (Space.TrimSpace (String c s)); [|by apply TrimSpace_id]. unfold Space.TrimSpace, Space.TrimLeft. f_equal.
  change (String.length (String " " (String c s))) with (S (String.length (String c s))). by rewrite Hsp, H.
Qed.
Lemma last_graphic_app a c s : last_graphic (String c s) = true → last_graphic (a +:+ String c s) = true.
Proof.
  unfold last_graphic. induction a as [|d a IH]; [done|]. intros H. specialize (IH H). change (String d a +:+ String c s) with (String d (a +:+ String c s)). rewrite Space.reverse_cons.
  destruct (Space.reverse (a +:+ String c s)) as [|e r]; [done|exact IH].
Qed.
Lemma TrimSpace_graphic s : str_forall graphic s = true → Space.TrimSpace s = s.
Proof.
  intros H. destruct s as [|c s]; [done|]. cbn in H. pose proof H as Hs. apply andb_true_iff in H as [Hc _]. apply TrimSpace_id; [done|].
  unfold last_graphic. assert (str_forall graphic (Space.reverse (String c s)) = true) as Hr.
  { unfold Space.reverse. rewrite str_forall_rev_app. cbn. by rewrite Hs. }
  destruct (Space.reverse (String c s)) as [|d r] eqn:E; [apply (proj1 (Space.reverse_nil _)) in E; discriminate|]. cbn in Hr. by apply andb_true_iff in Hr as [-> _].
Qed.

(** ** Hexadecimal *)

Definition hex_digit (n : Z) : ascii := ascii_of_N (Z.to_N (if (n <? 10)%Z then n + 48 else n + 87)).
(** The [k] low digits, most significant first. *)
Fixpoint hex_digits (k : nat) (n : Z) : string :=
  match k with O => "" | S k => hex_digits k (n / 16) +:+ String (hex_digit (n mod 16)) "" end.
(** [fmt.Sprintf("%08x", n)] of a [uint32]. *)
Definition hex8 (n : Z) : string := hex_digits 8 n.

Definition hex_value (c : ascii) : option Z :=
  let b := Z.of_N (N_of_ascii c) in
  if is_digit c then Some (b - 48)%Z
  else if in_range "a" "f" c then Some (b - 87)%Z
  else if in_range "A" "F" c then Some (b - 55)%Z
  else None.
(** [strconv.ParseUint(s, 16, 32)]; an error is [None]. *)
Fixpoint ParseHex_loop (n : Z) (s : string) : option Z :=
  match s with
  | "" => Some n
  | String c s' =>
      d ← hex_value c;
      let n1 := (16 * n + d)%Z in
      if (2 ^ 32 - 1 <? n1)%Z then None else ParseHex_loop n1 s'
  end.
Definition ParseHex (s : string) : option Z := match s with "" => None | _ => ParseHex_loop 0 s end.

Lemma hex_value_digit n : (0 ≤ n < 16)%Z → hex_value (hex_digit n) = Some n ∧ graphic (hex_digit n) = true ∧ hex_digit n ≠ dquote.
Proof.
  intros H. assert (n ∈ seqZ 0 16) as Hin by (apply elem_of_seqZ; lia).
  assert (forallb (λ n, bool_decide (hex_value (hex_digit n) = Some n) && graphic (hex_digit n) && negb (Ascii.eqb (hex_digit n) dquote)) (seqZ 0 16) = true) as Hall
    by (vm_compute; reflexivity).
  rewrite forallb_forall in Hall. specialize (Hall n (proj1 (list_elem_of_In _ _) Hin)).
  rewrite !andb_true_iff, bool_decide_eq_true, negb_true_iff in Hall. destruct Hall as [[H1 H2] H3]. split_and!; [done..|].
  by apply Ascii.eqb_neq.
Qed.

Lemma ParseHex_loop_app n s c d :
  ParseHex_loop n s = Some d → ParseHex_loop n (s +:+ String c "") = (x ← hex_value c; if (2 ^ 32 - 1 <? 16 * d + x)%Z then None else Some (16 * d + x)%Z).
Proof.
  revert n. induction s as [|e s IH]; intros n; cbn.
  - intros [= <-]. destruct (hex_value c); cbn; [|done]. done.
  - destruct (hex_value e); cbn; [|done]. destruct (_ <? _)%Z; [done|]. apply IH.
Qed.
Lemma ParseHex_digits k n : (0 ≤ n < 16 ^ Z.of_nat k)%Z → (n < 2 ^ 32)%Z → ParseHex_loop 0 (hex_digits k n) = Some n.
Proof.
  revert n. induction k as [|k IH]; intros n Hn Hb; [cbn in *; f_equal; lia|].
  rewrite Nat2Z.inj_succ, Z.pow_succ_r in Hn by lia. pose proof (Z.div_mod n 16 ltac:(lia)) as Hd. pose proof (Z.mod_pos_bound n 16 ltac:(lia)) as Hm.
  cbn [hex_digits]. rewrite (ParseHex_loop_app _ _ _ (n / 16)).
  - destruct (hex_value_digit (n mod 16) Hm) as [-> _]. cbn. destruct (Z.ltb_spec (2 ^ 32 - 1) (16 * (n / 16) + n mod 16)); [lia|]. f_equal. lia.
  - apply IH; [split; [apply Z.div_pos; lia|apply Z.div_lt_upper_bound; lia]|lia].
Qed.
Lemma ParseHex_hex8 n : (0 ≤ n < 2 ^ 32)%Z → ParseHex (hex8 n) = Some n.
Proof.
  intros H. unfold ParseHex, hex8. destruct (hex_digits 8 n) as [|c s] eqn:E.
  - exfalso. apply (f_equal String.length) in E. cbn [hex_digits] in E. rewrite str_length_app in E. cbn in E. lia.
  - rewrite <-E. apply ParseHex_digits; lia.
Qed.
Lemma hex_digits_graphic k n : str_forall graphic (hex_digits k n) = true ∧ Strings.no_byte dquote (hex_digits k n) = true.
Proof.
  revert n. induction k as [|k IH]; intros n; [done|]. cbn [hex_digits]. unfold Strings.no_byte in *. rewrite !str_forall_app.
  destruct (IH (n / 16)%Z) as [-> ->]. destruct (hex_value_digit (n mod 16) ltac:(apply Z.mod_pos_bound; lia)) as (_&Hg&Hq).
  cbn. rewrite Hg. destruct (Ascii.eqb_spec (hex_digit (n mod 16)) dquote); done.
Qed.

(** ** base64.StdEncoding *)

Definition b64_char (n : Z) : ascii :=
  ascii_of_N (Z.to_N (if n <? 26 then n + 65 else if n <? 52 then n + 71 else if n <? 62 then n - 4 else if n =? 62 then 43 else 47)%Z).
Definition b64_value (c : ascii) : option Z :=
  let b := Z.of_N (N_of_ascii c) in
  if in_range "A" "Z" c then Some (b - 65)%Z
  else if in_range "a" "z" c then Some (b - 71)%Z
  else if is_digit c then Some (b + 4)%Z
  else if Ascii.eqb c "+" then Some 62%Z
  else if Ascii.eqb c "/" then Some 63%Z
  else None.
Definition byte_z (c : ascii) : Z := Z.of_N (N_of_ascii c).
Definition z_byte (n : Z) : ascii := ascii_of_N (Z.to_N n).

Fixpoint EncodeToString (s : string) : string :=
  match s with
  | "" => ""
  | String a "" =>
      let x := byte_z a in
      String (b64_char (x / 4)) (String (b64_char (x mod 4 * 16)) "==")
  | String a (String b "") =>
      let (x, y) := (byte_z a, byte_z b) in
      String (b64_char (x / 4)) (String (b64_char (x mod 4 * 16 + y / 16)) (String (b64_char (y mod 16 * 4)) "="))
  | String a (String b (String c s')) =>
      let '(x, y, z) := (byte_z a, byte_z b, byte_z c) in
      String (b64_char (x / 4)) (String (b64_char (x mod 4 * 16 + y / 16))
        (String (b64_char (y mod 16 * 4 + z / 64)) (String (b64_char (z mod 64)) (EncodeToString s'))))
  end.

(** Quanta of four sextets, the last of which may be padded. *)
Fixpoint decode_quanta (s : string) : option string :=
  match s with
  | "" => Some ""
  | String a (String b (String c (String d s'))) =>
      x ← b64_value a; y ← b64_value b;
      let b1 := z_byte (4 * x + y / 16) in
      if Ascii.eqb c "=" then if Ascii.eqb d "=" && String.eqb s' "" then Some (String b1 "") else None
      else
        z ← b64_value c;
        let b2 := z_byte (y mod 16 * 16 + z / 4) in
        if Ascii.eqb d "=" then if String.eqb s' "" then Some (String b1 (String b2 "")) else None
        else
          w ← b64_value d; r ← decode_quanta s';
          Some (String b1 (String b2 (String (z_byte (z mod 4 * 64 + w)) r)))
  | _ => None
  end.
Definition DecodeString (s : string) : option string := decode_quanta (Base64.strip_newlines s).

Lemma b64_value_char n : (0 ≤ n < 64)%Z → b64_value (b64_char n) = Some n ∧ graphic (b64_char n) = true ∧ b64_char n ≠ "="%char.
Proof.
  intros H. assert (n ∈ seqZ 0 64) as Hin by (apply elem_of_seqZ; lia).
  assert (forallb (λ n, bool_decide (b64_value (b64_char n) = Some n) && graphic (b64_char n) && negb (Ascii.eqb (b64_char n) "=")) (seqZ 0 64) = true) as Hall
    by (vm_compute; reflexivity).
  rewrite forallb_forall in Hall. specialize (Hall n (proj1 (list_elem_of_In _ _) Hin)).
  rewrite !andb_true_iff, bool_decide_eq_true, negb_true_iff in Hall. destruct Hall as [[H1 H2] H3]. split_and!; [done..|].
  by apply Ascii.eqb_neq.
Qed.
Lemma byte_z_range c : (0 ≤ byte_z c < 256)%Z.
Proof. unfold byte_z. pose proof (N_ascii_bounded c). lia. Qed.
Lemma z_byte_z c n : n = byte_z c → z_byte n = c.
Proof. intros ->. unfold z_byte, byte_z. by rewrite N2Z.id, ascii_N_embedding. Qed.

Lemma string_ind3 (P : string → Prop) : P "" → (∀ a, P (String a "")) → (∀ a b, P (String a (String b ""))) →
  (∀ a b c s, P s → P (String a (String b (String c s)))) → ∀ s, P s.
Proof.
  intros H0 H1 H2 H3. assert (∀ n s, (String.length s < n)%nat → P s) as H; [|intros s; apply (H (S (String.length s))); lia].
  intros n. induction n as [|n IH]; intros s Hn; [lia|]. destruct s as [|a [|b [|c s]]]; auto. apply H3, IH. cbn in Hn. lia.
Qed.

Lemma graphic_not_newline c : graphic c = true → Base64.is_newline c = false.
Proof. intros H%graphic_not_space. unfold Base64.is_newline. apply orb_false_iff. split; apply N.eqb_neq; lia. Qed.
Lemma strip_graphic s : str_forall graphic s = true → Base64.strip_newlines s = s.
Proof. induction s as [|c s IH]; cbn; [done|]. rewrite andb_true_iff. intros [Hc Hs]. by rewrite (graphic_not_newline c Hc), IH. Qed.

(** What [b64_value_char] says of each digit of the goal. *)
Ltac b64_facts :=
  repeat match goal with |- context [b64_char ?n] => lazymatch goal with
    | _ : b64_value (b64_char n) = _ |- _ => fail
    | _ => destruct (b64_value_char n ltac:(Z.to_euclidean_division_equations; lia)) as (?&?&?) end end.

Lemma Encode_graphic s : str_forall graphic (EncodeToString s) = true.
Proof.
  induction s as [|a|a b|a b c s IH] using string_ind3; [done|..]; cbn [EncodeToString str_forall];
    pose proof (byte_z_range a); try pose proof (byte_z_range b); try pose proof (byte_z_range c); b64_facts;
    repeat match goal with H : graphic _ = true |- _ => rewrite H; clear H end; done.
Qed.

(** Decoding undoes encoding. *)
Lemma Base64_Decode_Encode s : DecodeString (EncodeToString s) = Some s.
Proof.
  unfold DecodeString. rewrite strip_graphic by apply Encode_graphic.
  induction s as [|a|a b|a b c s IH] using string_ind3; [done|..]; cbn [EncodeToString decode_quanta];
    pose proof (byte_z_range a) as Ha; try pose proof (byte_z_range b) as Hb; try pose proof (byte_z_range c) as Hc; b64_facts;
    repeat match goal with H : b64_value _ = Some _ |- _ => rewrite H; clear H end; cbn [mbind option_bind];
    repeat match goal with H : b64_char _ ≠ _ |- _ => apply Ascii.eqb_neq in H; rewrite ?H; clear H end; cbn [andb].
  - change (Ascii.eqb "=" "=") with true. cbn. f_equal. f_equal. apply z_byte_z. Z.to_euclidean_division_equations; lia.
  - change (Ascii.eqb "=" "=") with true. cbn. f_equal. f_equal; [|f_equal]; apply z_byte_z; Z.to_euclidean_division_equations; lia.
  - rewrite IH. cbn. f_equal. f_equal; [|f_equal; [|f_equal]]; apply z_byte_z; Z.to_euclidean_division_equations; lia.
Qed.
