(* ===== verification/CpeErr.v ===== *)
(** * Package cpeerr: the typed error every package returns
    ([internal/cpeerr/cpeerr.go]).

    A Go [error] value is one of the shapes the program builds: a
    [*cpeerr.Error], or a [fmt.Errorf] error kept as its format string, its
    operands rendered with [%s]/[%q] and the operand of [%w], if it has one. *)
From Stdlib Require Import ZArith Lia Ascii String.
From S2P Require Import Prelude GoLib.

Inductive Kind := KindUnknown | KindInvalidArgument | KindNotFound | KindInternal.
#[export] Instance Kind_eq_dec : EqDecision Kind.
Proof. solve_decision. Defined.

Definition Kind_String (k : Kind) : string :=
  match k with
  | KindInvalidArgument => "invalid_argument"
  | KindNotFound => "not_found"
  | KindInternal => "internal"
  | KindUnknown => "unknown"
  end.

Inductive error :=
| Errorf (format : string) (args : list string) (wrapped : option error)
| Error (Op : string) (kind : Kind) (FaultCode : Z) (Err : option error).

(** [fmt.Errorf] without a [%w] verb. *)
Definition errorf (format : string) (args : list string) : error := Errorf format args None.

Definition Unwrap (e : error) : option error :=
  match e with Errorf _ _ w => w | Error _ _ _ w => w end.

Definition Wrap (op : string) (kind : Kind) (cause : option error) : error :=
  Error op kind 0 cause.

Definition WithFaultCode (e : error) (code : Z) : error :=
  match e with
  | Error op k _ err => Error op k code err
  | Errorf _ _ _ => e
  end.

(** [errors.As(err, &typed)]: the first [*Error] of the unwrap chain. *)
Fixpoint errors_As (e : error) : option (Kind * option error) :=
  match e with
  | Error _ k _ w => Some (k, w)
  | Errorf _ _ (Some w) => errors_As w
  | Errorf _ _ None => None
  end.

(** The loop of [Is] restarts [errors.As] on the cause of each typed error it
    finds; on a chain this is a single descent. *)
Fixpoint Is (e : error) (kind : Kind) : bool :=
  match e with
  | Error _ k _ w =>
      if decide (k = kind) then true
      else match w with Some w' => Is w' kind | None => false end
  | Errorf _ _ (Some w) => Is w kind
  | Errorf _ _ None => false
  end.

Definition Is_result {A} (r : result error A) (kind : Kind) : bool :=
  match r with Ok _ => false | Err e => Is e kind end.

(** [Is] is the loop of the source: find the first typed error, compare its
    kind, go on with its cause. *)
Lemma Is_unfold e kind :
  Is e kind = match errors_As e with
              | Some (k, w) => if decide (k = kind) then true
                               else match w with Some w' => Is w' kind | None => false end
              | None => false
              end.
Proof.
  revert e. fix IH 1. intros [f a [w|]|op k fc w]; [exact (IH w)|done|done].
Qed.

Lemma Is_Wrap op k cause kind :
  Is (Wrap op k cause) kind = bool_decide (k = kind) || match cause with Some c => Is c kind | None => false end.
Proof. simpl. destruct (decide (k = kind)) as [H|H]; [by rewrite bool_decide_true|by rewrite bool_decide_false]. Qed.

Lemma Is_Wrap_same op k cause : Is (Wrap op k cause) k = true.
Proof. rewrite Is_Wrap. by rewrite bool_decide_true. Qed.

Lemma Is_Wrap_errorf op k f a kind :
  Is (Wrap op k (Some (errorf f a))) kind = bool_decide (k = kind).
Proof. rewrite Is_Wrap. simpl. by rewrite orb_false_r. Qed.
#[export] Hint Rewrite Is_Wrap_same @Is_Wrap_errorf : result.

(** ** The text of an error

    [fmt.Sprintf] for the verbs the program's errors use; an operand is already
    text, [Quote] is [strconv.Quote]. *)
Section text.
Context (Quote : string → string).

Fixpoint Sprintf (format : string) (args : list string) (wrapped : string) : string :=
  match format with
  | "" => ""
  | String "%" (String "w" rest) => wrapped +:+ Sprintf rest args wrapped
  | String "%" (String "q" rest) =>
      match args with
      | a :: args' => Quote a +:+ Sprintf rest args' wrapped
      | [] => "%!q(MISSING)" +:+ Sprintf rest [] wrapped
      end
  | String "%" (String c rest) =>
      match args with
      | a :: args' => a +:+ Sprintf rest args' wrapped
      | [] => "%!" +:+ String c "(MISSING)" +:+ Sprintf rest [] wrapped
      end
  | String c rest => String c (Sprintf rest args wrapped)
  end.

Fixpoint Error_text (e : error) : string :=
  match e with
  | Errorf format args w =>
      Sprintf format args (match w with Some w' => Error_text w' | None => "" end)
  | Error op kind code w =>
      op +:+ ": " +:+ Kind_String kind +:+
      (if (code =? 0)%Z then "" else " [fault=" +:+ Strconv.Itoa code +:+ "]") +:+
      (match w with Some w' => ": " +:+ Error_text w' | None => "" end)
  end.
End text.
