(* ===== verification/Types.v ===== *)
(** * Parameter types and values ([internal/paramtree/value.go],
    [internal/paramtree/types.go]): the BBF primitive types, and the lexical
    check every write goes through. *)
From Stdlib Require Import ZArith Lia Ascii String.
From S2P Require Import Prelude GoLib GoText CpeErr.

(** ** value.go *)

(** [type Type string]: any string, six of them known. *)
Definition Type_ := string.
Definition TypeString : Type_ := "xsd:string".
Definition TypeInt : Type_ := "xsd:int".
Definition TypeUnsignedInt : Type_ := "xsd:unsignedInt".
Definition TypeBoolean : Type_ := "xsd:boolean".
Definition TypeDateTime : Type_ := "xsd:dateTime".
Definition TypeBase64 : Type_ := "xsd:base64".

Record Value := MkValue { vType : Type_; Raw : string; Writable : bool }.
#[export] Instance Value_eq_dec : EqDecision Value.
Proof. solve_decision. Defined.
#[export] Instance Value_inhabited : Inhabited Value := populate (MkValue "" "" false).

(** [AccessList = None] is Go's nil slice, which the wire renders as the BBF
    default, [Some []] the empty list. *)
Record Attributes := MkAttributes { Notification : Z; AccessList : option (list string) }.
#[export] Instance Attributes_eq_dec : EqDecision Attributes.
Proof. solve_decision. Defined.
Definition Attributes_zero : Attributes := MkAttributes 0 None.

(** ** types.go *)

Definition validateString (raw : string) : result error unit :=
  guard_err (Utf8.ValidString raw) (errorf "not valid UTF-8" []).

(** A [*strconv.NumError] of function [fn] on input [num]. *)
Definition num_error (fn num : string) (e : Strconv.NumError) : error :=
  Errorf "strconv.%s: parsing %q: %w" [fn; num]
    (Some (match e with
           | Strconv.ErrSyntax => errorf "invalid syntax" []
           | Strconv.ErrRange => errorf "value out of range" []
           end)).

Definition validateInt32 (raw : string) : result error unit :=
  _ ← map_err (num_error "ParseInt" raw) (Strconv.ParseInt raw 32); Ok tt.

Definition validateUint32 (raw : string) : result error unit :=
  _ ← map_err (num_error "ParseUint" raw) (Strconv.ParseUint raw 32); Ok tt.

Definition validateBoolean (raw : string) : result error unit :=
  guard_err (bool_decide (raw ∈ ["0"; "1"; "true"; "false"]))
    (errorf "want one of %q, %q, %q, %q" ["0"; "1"; "true"; "false"]).

Definition marshalBoolean (raw : string) : result error string :=
  if bool_decide (raw ∈ ["1"; "true"]) then Ok "true"
  else if bool_decide (raw ∈ ["0"; "false"]) then Ok "false"
  else Err (errorf "not a boolean lexical form" []).

(** The last six bytes, [raw[len(raw)-6:]]. *)
Fixpoint last_six (s : string) : option (ascii * ascii * ascii * ascii * ascii * ascii) :=
  match s with
  | String a (String b (String c (String d (String e (String f ""))))) => Some (a, b, c, d, e, f)
  | String _ s' => last_six s'
  | "" => None
  end.

Definition hasTimezone (raw : string) : bool :=
  if Strings.HasSuffix raw "Z" then true
  else match last_six raw with
       | None => false
       | Some (t0, t1, t2, t3, t4, t5) =>
           if (negb (Ascii.eqb t0 "+") && negb (Ascii.eqb t0 "-")) || negb (Ascii.eqb t3 ":")
           then false
           else is_digit t1 && is_digit t2 && is_digit t4 && is_digit t5
       end.

Definition validateDateTime (raw : string) : result error unit :=
  _ ← guard_err (hasTimezone raw) (errorf "missing time-zone designator (Z or ±HH:MM)" []);
  _ ← from_option_err (errorf "parsing time" []) (Time.Parse_RFC3339Nano raw);
  Ok tt.

Definition validateBase64 (raw : string) : result error unit :=
  guard_err (Base64.DecodeString_ok raw) (errorf "illegal base64 data" []).

Definition marshalIdentity (raw : string) : result error string := Ok raw.

Definition marshalDateTime (raw : string) : result error string :=
  _ ← guard_err (hasTimezone raw) (errorf "missing time-zone designator" []);
  t ← from_option_err (errorf "parsing time" []) (Time.Parse_RFC3339Nano raw);
  Ok (Time.Format_RFC3339Nano (Time.unix t) (Time.nsec t)).

(** The [marshal] column of [typeFns]. *)
Definition typeFns_marshal (typ : Type_) : option (string → result error string) :=
  if decide (typ = TypeString) then Some marshalIdentity
  else if decide (typ = TypeInt) then Some marshalIdentity
  else if decide (typ = TypeUnsignedInt) then Some marshalIdentity
  else if decide (typ = TypeBoolean) then Some marshalBoolean
  else if decide (typ = TypeDateTime) then Some marshalDateTime
  else if decide (typ = TypeBase64) then Some marshalIdentity
  else None.

Definition Marshal (typ : Type_) (raw : string) : result error string :=
  match typeFns_marshal typ with
  | None => Err (Wrap "paramtree.Marshal" KindInvalidArgument (Some (errorf "unknown type %q" [typ])))
  | Some marshal =>
      match marshal raw with
      | Err e => Err (Wrap "paramtree.Marshal" KindInvalidArgument
                        (Some (Errorf "cannot marshal %s value %q: %w" [typ; raw] (Some e))))
      | Ok canonical => Ok canonical
      end
  end.

(** The [validate] column of [typeFns]. *)
Definition typeFns_validate (typ : Type_) : option (string → result error unit) :=
  if decide (typ = TypeString) then Some validateString
  else if decide (typ = TypeInt) then Some validateInt32
  else if decide (typ = TypeUnsignedInt) then Some validateUint32
  else if decide (typ = TypeBoolean) then Some validateBoolean
  else if decide (typ = TypeDateTime) then Some validateDateTime
  else if decide (typ = TypeBase64) then Some validateBase64
  else None.

Definition Validate (typ : Type_) (raw : string) : result error unit :=
  match typeFns_validate typ with
  | None => Err (Wrap "paramtree.Validate" KindInvalidArgument (Some (errorf "unknown type %q" [typ])))
  | Some validate =>
      match validate raw with
      | Err e => Err (Wrap "paramtree.Validate" KindInvalidArgument
                        (Some (Errorf "invalid %s value %q: %w" [typ; raw] (Some e))))
      | Ok _ => Ok tt
      end
  end.

(** A raw value the type accepts. *)
Definition valid_raw (typ : Type_) (raw : string) : bool := is_ok (Validate typ raw).
Definition wf_value (v : Value) : Prop := valid_raw (vType v) (Raw v) = true.
#[export] Instance wf_value_dec v : Decision (wf_value v).
Proof. unfold wf_value. apply _. Defined.

Lemma Validate_ok typ raw u : Validate typ raw = Ok u ↔ valid_raw typ raw = true.
Proof. unfold valid_raw. destruct (Validate typ raw) as [[]|], u; naive_solver. Qed.

Lemma Validate_err_kind typ raw e :
  Validate typ raw = Err e → Is e KindInvalidArgument = true.
Proof.
  unfold Validate. destruct (typeFns_validate typ) as [f|]; [|by intros [= <-]].
  destruct (f raw); [done|]. by intros [= <-].
Qed.

Lemma valid_raw_unfold typ raw :
  valid_raw typ raw =
  match typeFns_validate typ with Some f => is_ok (f raw) | None => false end.
Proof.
  unfold valid_raw, Validate. destruct (typeFns_validate typ) as [f|]; [|done].
  by destruct (f raw).
Qed.

(** What each type accepts. *)
Lemma valid_int_range raw :
  valid_raw TypeInt raw = true ↔
  ∃ z, Strconv.ParseInt raw 32 = Ok z ∧ (- 2 ^ 31 ≤ z < 2 ^ 31)%Z.
Proof.
  rewrite valid_raw_unfold. simpl. unfold validateInt32.
  destruct (Strconv.ParseInt raw 32) as [z|e] eqn:E; simpl; [|naive_solver].
  apply (Strconv.ParseInt_range raw 32) in E as ?; [|lia]. naive_solver.
Qed.

Lemma valid_uint_range raw :
  valid_raw TypeUnsignedInt raw = true ↔
  ∃ z, Strconv.ParseUint raw 32 = Ok z ∧ (0 ≤ z < 2 ^ 32)%Z.
Proof.
  rewrite valid_raw_unfold. simpl. unfold validateUint32.
  destruct (Strconv.ParseUint raw 32) as [z|e] eqn:E; simpl; [|naive_solver].
  apply (Strconv.ParseUint_range raw 32) in E as ?; [|lia]. naive_solver.
Qed.

Lemma valid_boolean raw :
  valid_raw TypeBoolean raw = true ↔ raw ∈ ["0"; "1"; "true"; "false"].
Proof.
  rewrite valid_raw_unfold. simpl. unfold validateBoolean.
  by case_bool_decide; split.
Qed.

(** The types a count can be written under without breaking them. *)
Definition counter_type (typ : Type_) : bool :=
  bool_decide (typ ∈ [TypeString; TypeInt; TypeUnsignedInt]).

Lemma counter_valid typ z :
  counter_type typ = true → (0 ≤ z < 2 ^ 31)%Z → valid_raw typ (Strconv.Itoa z) = true.
Proof.
  unfold counter_type. rewrite bool_decide_eq_true. intros Ht Hz.
  rewrite !elem_of_cons in Ht. destruct Ht as [->|[->|[->|Ht]]].
  - rewrite valid_raw_unfold. simpl. unfold validateString.
    rewrite Utf8.digits_valid; [done|]. apply Strconv.Itoa_digits; lia.
  - apply valid_int_range. exists z. split; [|lia]. apply Strconv.ParseInt_Itoa; lia.
  - apply valid_uint_range. exists z. split; [|lia]. apply Strconv.ParseUint_Itoa; lia.
  - by apply not_elem_of_nil in Ht.
Qed.

(** A value the type accepts always has a wire form; and a wire form of a
    boolean is one of the two the schema prefers. *)
Lemma valid_marshals typ raw : valid_raw typ raw = true → ∃ c, Marshal typ raw = Ok c.
Proof.
  rewrite valid_raw_unfold. unfold typeFns_validate, Marshal, typeFns_marshal.
  repeat case_decide; subst; try done; try (by intros _; eexists).
  - intros HV. unfold validateBoolean, guard_err in HV. destruct (bool_decide _) eqn:Hb; [|done].
    apply bool_decide_eq_true in Hb. unfold marshalBoolean.
    repeat (apply elem_of_cons in Hb as [->|Hb]); [..|by apply not_elem_of_nil in Hb]; by eexists.
  - intros HV. unfold validateDateTime in HV. unfold marshalDateTime.
    destruct (hasTimezone raw); [|done]. simpl in *.
    destruct (Time.Parse_RFC3339Nano raw); [|done]. by eexists.
Qed.
