(* ===== verification/Node.v ===== *)
(** * Nodes of the parameter tree ([internal/paramtree/node.go]) and paths
    ([internal/paramtree/path.go]).

    A node owns the nodes beneath it (the package hands a node over when it is
    attached and copies templates before use), so a sub-tree is a value here.
    A nil children map and an empty one read alike; only leaves carry nil, and
    no operation writes the children of a leaf. *)
From Stdlib Require Import ZArith Lia Ascii String.
From S2P Require Import Prelude GoLib CpeErr Types.

(** ** node.go *)

Inductive Node := MkNode {
  children : gmap string Node;
  leaf : option Value;
  attrs : option Attributes;
  table : option Node
}.

Definition NewBranch : Node := MkNode ∅ None None None.
Definition NewLeaf (v : Value) : Node := MkNode ∅ (Some v) None None.
Definition NewTable (template : Node) : Node := MkNode ∅ None None (Some template).

Definition isLeaf (n : Node) : bool := match leaf n with Some _ => true | None => false end.

Definition set_children (ch : gmap string Node) (n : Node) : Node :=
  MkNode ch (leaf n) (attrs n) (table n).
Definition set_leaf (v : Value) (n : Node) : Node :=
  MkNode (children n) (Some v) (attrs n) (table n).
Definition set_attrs (a : Attributes) (n : Node) : Node :=
  MkNode (children n) (leaf n) (Some a) (table n).
Definition set_table (t : Node) (n : Node) : Node :=
  MkNode (children n) (leaf n) (attrs n) (Some t).

Definition Attach (n : Node) (segment : string) (child : Node) : result error Node :=
  if isLeaf n then
    Err (Wrap "paramtree.Node.Attach" KindInvalidArgument
           (Some (errorf "cannot attach %q under a leaf node" [segment])))
  else match children n !! segment with
       | Some _ => Err (Wrap "paramtree.Node.Attach" KindInvalidArgument
                          (Some (errorf "segment %q already attached" [segment])))
       | None => Ok (set_children (<[segment := child]> (children n)) n)
       end.

Fixpoint clone (n : Node) : Node :=
  match n with
  | MkNode ch lf at_ tb =>
      MkNode (clone <$> ch)
        lf
        (match at_ with
         | Some a => Some (MkAttributes (Notification a) (AccessList a))
         | None => None
         end)
        (match tb with Some t => Some (clone t) | None => None end)
  end.

Fixpoint node_size (n : Node) : nat :=
  match n with
  | MkNode ch _ _ tb =>
      S (map_fold (λ _ c acc, node_size c + acc) 0 ch
         + match tb with Some t => node_size t | None => 0 end)
  end.

Lemma node_size_child ch lf a tb k c :
  ch !! k = Some c → node_size c < node_size (MkNode ch lf a tb).
Proof.
  intros Hk. simpl. rewrite <-(insert_delete_id _ _ _ Hk).
  rewrite map_fold_insert_L; [lia|intros; lia|apply lookup_delete_eq].
Qed.

Lemma Node_ind' (P : Node → Prop) :
  (∀ ch lf a tb, map_Forall (λ _, P) ch → (∀ t, tb = Some t → P t) →
     P (MkNode ch lf a tb)) → ∀ n, P n.
Proof.
  intros H n. remember (node_size n) as s eqn:Hs. revert n Hs.
  induction (lt_wf s) as [s _ IH]; intros [ch lf a tb] ->. apply H.
  - intros k c Hk. eapply IH; [|done]. by eapply node_size_child.
  - intros t ->. eapply IH; [|done]. simpl. lia.
Qed.

(** A copy carries the same values, attributes and templates throughout. *)
Lemma clone_id n : clone n = n.
Proof.
  induction n as [ch lf a tb IHc IHt] using Node_ind'. simpl. f_equal.
  - apply map_eq; intros k. rewrite lookup_fmap.
    destruct (ch !! k) as [c|] eqn:E; simpl; [|done]. by rewrite (IHc k c E).
  - by destruct a as [[]|].
  - destruct tb as [t|]; [|done]. by rewrite IHt.
Qed.
#[export] Hint Rewrite clone_id : result.

(** ** path.go *)

Definition isSegmentChar (r : ascii) : bool :=
  in_range "a" "z" r || in_range "A" "Z" r || in_range "0" "9" r
  || Ascii.eqb r "_" || Ascii.eqb r "-".

(** The loop over the segments: the first bad one decides the error (the
    message's rune operand is left out). A rune outside ASCII is never a
    segment character and neither is any byte of its encoding, so the check
    reads bytes. *)
Fixpoint check_segments (path : string) (segments : list string) : result error unit :=
  match segments with
  | [] => Ok tt
  | s :: rest =>
      if String.eqb s "" then
        Err (Wrap "paramtree.parsePath" KindInvalidArgument
               (Some (errorf "empty segment in %q" [path])))
      else if str_forall isSegmentChar s then check_segments path rest
      else Err (Wrap "paramtree.parsePath" KindInvalidArgument
                  (Some (errorf "invalid character %q in segment %q" [s])))
  end.

Definition parsePath (path : string) : result error (list string) :=
  let path := Strings.TrimSuffix path "." in
  if String.eqb path "" then Ok []
  else
    let segments := Strings.Split path "." in
    _ ← check_segments path segments; Ok segments.

Definition joinPath (segments : list string) : string := Strings.Join segments ".".

Definition valid_segment (s : string) : bool :=
  negb (String.eqb s "") && str_forall isSegmentChar s.

Lemma check_segments_ok path segs u :
  check_segments path segs = Ok u ↔ Forall (λ s, valid_segment s = true) segs.
Proof.
  induction segs as [|s segs IH]; simpl.
  { destruct u; split; [by constructor|done]. }
  rewrite Forall_cons. unfold valid_segment.
  destruct (String.eqb s ""), (str_forall isSegmentChar s); simpl; naive_solver.
Qed.

Lemma check_segments_err path segs e :
  check_segments path segs = Err e → Is e KindInvalidArgument = true ∧ Is e KindNotFound = false.
Proof.
  induction segs as [|s segs IH]; simpl; [done|].
  destruct (String.eqb s ""); [by intros [= <-]|].
  destruct (str_forall isSegmentChar s); [done|]. by intros [= <-].
Qed.

(** A path that does not parse is an invalid argument, never "not found". *)
Lemma parsePath_err path e :
  parsePath path = Err e → Is e KindInvalidArgument = true ∧ Is e KindNotFound = false.
Proof.
  unfold parsePath. destruct (String.eqb _ ""); [done|].
  intros H. res_inv H; [by eapply check_segments_err|]. naive_solver.
Qed.

Lemma valid_segment_no_dot s : valid_segment s = true → Strings.no_byte "." s = true.
Proof.
  unfold valid_segment. rewrite andb_true_iff. intros [_ H]. revert H.
  apply str_forall_impl. intros c Hc. rewrite negb_true_iff, Ascii.eqb_neq.
  intros ->. by compute in Hc.
Qed.

Lemma parsePath_segments path segs :
  parsePath path = Ok segs → Forall (λ s, valid_segment s = true) segs.
Proof.
  unfold parsePath. destruct (String.eqb _ ""); [by intros [= <-]|].
  intros H. res_inv H. destruct H as (u&H&[= <-]). by apply check_segments_ok in H.
Qed.

Lemma joinPath_snoc p k : p ≠ [] → joinPath (p ++ [k]) = joinPath p +:+ "." +:+ k.
Proof. intros Hp. unfold joinPath. by rewrite Strings.Join_app. Qed.

Lemma joinPath_ne segs :
  segs ≠ [] → Forall (λ s, valid_segment s = true) segs → joinPath segs ≠ "".
Proof.
  destruct segs as [|s [|s' segs]]; [done|..]; intros _ H; inv H as [|?? Hs].
  - unfold joinPath. simpl. by intros ->.
  - change (s +:+ "." +:+ joinPath (s' :: segs) ≠ ""). by destruct s.
Qed.

(** What splitting on dots takes apart and puts together again. *)
Definition plain_segment (s : string) : Prop := s ≠ "" ∧ Strings.no_byte "." s = true.
Lemma valid_plain s : valid_segment s = true → plain_segment s.
Proof. intros H. split; [by intros ->|by apply valid_segment_no_dot]. Qed.

Lemma Split_joinPath segs : segs ≠ [] → Forall plain_segment segs → Strings.Split (joinPath segs) "." = segs.
Proof. intros Hne H. apply Strings.Split_Join; [done|]. eapply Forall_impl; [exact H|]. by intros s []. Qed.

Lemma plain_no_trailing_dot segs :
  Forall plain_segment segs → Strings.HasSuffix (joinPath segs) "." = false.
Proof.
  intros H. apply not_true_iff_false. intros (p&Hp)%Strings.HasSuffix_iff.
  destruct segs as [|s segs] using rev_ind; [by destruct p|]. clear IHsegs.
  assert (Strings.Split (joinPath (segs ++ [s])) "." = segs ++ [s]) as E1 by (apply Split_joinPath; [by destruct segs|done]).
  apply Forall_app in H as [_ Hx]. inv Hx as [|?? [Hv _] _].
  assert (∀ q, ∃ l, Strings.Split (q +:+ ".") "." = l ++ [""]) as E2.
  { induction q as [|c q [l IH]]; [by exists [""]|]. cbn.
    destruct (Ascii.eqb c "."); [exists ("" :: l); by rewrite IH|].
    rewrite IH. destruct l as [|x l]; [|by exists (String c x :: l)].
    exfalso. apply (f_equal (λ l, Strings.Join l ".")) in IH.
    rewrite (Strings.Join_Split (q +:+ ".") ".") in IH. by destruct q. }
  destruct (E2 p) as [l El]. rewrite Hp, El in E1.
  apply app_inj_tail in E1 as [_ <-]. done.
Qed.

Lemma joinPath_no_trailing_dot segs :
  Forall (λ s, valid_segment s = true) segs → Strings.HasSuffix (joinPath segs) "." = false.
Proof. intros H. apply plain_no_trailing_dot. eapply Forall_impl; [exact H|]. intros s. apply valid_plain. Qed.

(** Printing then parsing a list of valid segments gives it back; so does
    parsing with the trailing dot of a partial path. *)
Lemma parsePath_joinPath segs :
  Forall (λ s, valid_segment s = true) segs → parsePath (joinPath segs) = Ok segs.
Proof.
  intros H. unfold parsePath.
  rewrite (Strings.TrimSuffix_no_suffix _ _ (joinPath_no_trailing_dot _ H)).
  destruct segs as [|s segs]; [done|].
  destruct (String.eqb_spec (joinPath (s :: segs)) "") as [E|_].
  { by apply joinPath_ne in E. }
  unfold joinPath. rewrite Strings.Split_Join; [|done|].
  - apply result_bind_ok. exists tt. split; [|done]. by apply check_segments_ok.
  - eapply Forall_impl; [exact H|]. intros; by apply valid_segment_no_dot.
Qed.

Lemma parsePath_trailing_dot segs :
  Forall (λ s, valid_segment s = true) segs → parsePath (joinPath segs +:+ ".") = Ok segs.
Proof.
  intros H. etrans; [|by apply parsePath_joinPath]. unfold parsePath.
  rewrite Strings.TrimSuffix_app.
  by rewrite (Strings.TrimSuffix_no_suffix _ _ (joinPath_no_trailing_dot _ H)).
Qed.

(** Parsing then printing drops at most the one trailing dot. *)
Lemma joinPath_parsePath path segs :
  parsePath path = Ok segs → joinPath segs = Strings.TrimSuffix path ".".
Proof.
  unfold parsePath. destruct (String.eqb_spec (Strings.TrimSuffix path ".") "") as [->|_].
  { by intros [= <-]. }
  intros H. res_inv H. destruct H as (u&_&[= <-]). apply Strings.Join_Split.
Qed.

Lemma joinPath_inj l1 l2 :
  Forall (λ s, valid_segment s = true) l1 → Forall (λ s, valid_segment s = true) l2 →
  joinPath l1 = joinPath l2 → l1 = l2.
Proof.
  intros H1 H2 E. apply parsePath_joinPath in H1, H2. rewrite E in H1. congruence.
Qed.

Lemma Itoa_valid_segment z : (0 ≤ z)%Z → valid_segment (Strconv.Itoa z) = true.
Proof.
  intros Hz. unfold valid_segment. apply andb_true_iff. split.
  - apply negb_true_iff, String.eqb_neq, Strconv.Itoa_ne.
  - eapply str_forall_impl; [|by apply Strconv.Itoa_digits].
    intros c Hc. unfold isSegmentChar. unfold is_digit in Hc. rewrite Hc. by rewrite !orb_true_r.
Qed.
