(* ===== verification/Tree.v ===== *)
(** * The parameter tree ([internal/paramtree/paramtree.go],
    [internal/paramtree/observe.go]): lookup, the single-leaf reads and
    writes, attributes, mounting.

    An operation takes the tree and returns the tree it leaves, the changes it
    hands to the observers after the lock drops, and its result. *)
From Stdlib Require Import ZArith Lia Ascii String.
From S2P Require Import Prelude GoLib CpeErr Types Node.

(** ** observe.go *)

Inductive ChangeKind := ChangeValue | ChangeObjectCreated | ChangeObjectDeleted.
#[export] Instance ChangeKind_eq_dec : EqDecision ChangeKind.
Proof. solve_decision. Defined.

(** The zero [Value] of an object change is [MkValue "" "" false]. *)
Record Change := MkChange { cPath : string; Old : Value; New : Value; cKind : ChangeKind }.
#[export] Instance Change_eq_dec : EqDecision Change.
Proof. solve_decision. Defined.
Definition Value_zero : Value := MkValue "" "" false.

(** The registry holds the ids of the registered functions; a notification
    calls each of them with the change. *)
Record observers := MkObservers { next : nat; fns : gset nat }.

Record Tree := MkTree { root : Node; obs : observers }.

Definition New_ : Tree := MkTree NewBranch (MkObservers 0 ∅).

Definition set_root (t : Tree) (n : Node) : Tree := MkTree n (obs t).

(** [Observe] with a non-nil function; the id is what the returned [cancel]
    closes over. *)
Definition Observe (t : Tree) : Tree * nat :=
  let id := next (obs t) in
  (MkTree (root t) (MkObservers (S id) ({[id]} ∪ fns (obs t))), id).
Definition Observe_cancel (t : Tree) (id : nat) : Tree :=
  MkTree (root t) (MkObservers (next (obs t)) (fns (obs t) ∖ {[id]})).

Definition hasObservers (t : Tree) : bool := negb (bool_decide (fns (obs t) = ∅)).

(** The calls [notify] makes, one per registered function. *)
Definition notify (t : Tree) (c : Change) : list (nat * Change) :=
  (λ id, (id, c)) <$> elements (fns (obs t)).

Definition outcome (A : Type) : Type := Tree * list Change * result error A.

(** ** Lookup *)

Fixpoint lookup_go (segments done rest : list string) (n : Node) : result error Node :=
  match rest with
  | [] => Ok n
  | seg :: rest' =>
      if isLeaf n then
        Err (errorf "path %q traverses a leaf at %q" [joinPath segments; joinPath done])
      else match children n !! seg with
           | None => Err (errorf "path %q not found" [joinPath segments])
           | Some child => lookup_go segments (done ++ [seg]) rest' child
           end
  end.
Definition lookup (n : Node) (segments : list string) : result error Node :=
  lookup_go segments [] segments n.

(** The pointer [lookup] returns is written through; here, the node at the
    path is rebuilt in place. *)
Fixpoint alter_at (f : Node → Node) (segs : list string) (n : Node) : Node :=
  match segs with
  | [] => f n
  | s :: rest => set_children (alter (alter_at f rest) s (children n)) n
  end.

(** The node at a path, without the error text. *)
Fixpoint node_at (segs : list string) (n : Node) : option Node :=
  match segs with
  | [] => Some n
  | s :: rest => if isLeaf n then None else c ← children n !! s; node_at rest c
  end.

Definition leaf_at (segs : list string) (n : Node) : option Value := m ← node_at segs n; leaf m.

Lemma lookup_go_ok all dn rest n m :
  lookup_go all dn rest n = Ok m ↔ node_at rest n = Some m.
Proof.
  revert dn n; induction rest as [|s rest IH]; intros dn n; simpl; [naive_solver|].
  destruct (isLeaf n); [naive_solver|].
  destruct (children n !! s) as [c|]; simpl; [apply IH|naive_solver].
Qed.
Lemma lookup_ok n segs m : lookup n segs = Ok m ↔ node_at segs n = Some m.
Proof. apply lookup_go_ok. Qed.

Lemma lookup_err n segs : (∃ e, lookup n segs = Err e) ↔ node_at segs n = None.
Proof.
  destruct (lookup n segs) as [m|e] eqn:E.
  - apply lookup_ok in E. rewrite E. naive_solver.
  - split; [|eauto]. intros _. destruct (node_at segs n) as [m|] eqn:E2; [|done].
    apply lookup_ok in E2. congruence.
Qed.

Lemma lookup_err_plain n segs e kind : lookup n segs = Err e → Is e kind = false.
Proof.
  unfold lookup. generalize (@nil string). generalize segs at 1 as all.
  revert n; induction segs as [|s rest IH]; intros n all dn; simpl; [done|].
  destruct (isLeaf n); [by intros [= <-]|].
  destruct (children n !! s); [apply IH|by intros [= <-]].
Qed.

Lemma isLeaf_true n : isLeaf n = true ↔ ∃ v, leaf n = Some v.
Proof. unfold isLeaf. destruct (leaf n); naive_solver. Qed.
Lemma isLeaf_false n : isLeaf n = false ↔ leaf n = None.
Proof. unfold isLeaf. destruct (leaf n); naive_solver. Qed.

Lemma node_at_app p q n : node_at (p ++ q) n = m ← node_at p n; node_at q m.
Proof.
  revert n; induction p as [|s p IH]; intros n; simpl; [done|].
  destruct (isLeaf n); [done|]. destruct (children n !! s); simpl; [apply IH|done].
Qed.

Lemma node_at_alter_same f p n m :
  node_at p n = Some m → node_at p (alter_at f p n) = Some (f m).
Proof.
  revert n; induction p as [|s p IH]; intros n; simpl; [by intros [= ->]|].
  unfold isLeaf. simpl. destruct (leaf n); [done|].
  intros (c&Hc&Hp)%bind_Some. rewrite lookup_alter_eq, Hc. simpl. by apply IH.
Qed.

(** Paths neither of which is a prefix of the other do not interfere. *)
Lemma node_at_alter_disjoint f p q n :
  ¬ p `prefix_of` q → ¬ q `prefix_of` p → node_at q (alter_at f p n) = node_at q n.
Proof.
  revert q n; induction p as [|s p IH]; intros [|s' q] n Hp Hq.
  - by destruct Hp.
  - by destruct Hp; apply prefix_nil.
  - by destruct Hq; apply prefix_nil.
  - simpl. unfold isLeaf. simpl. destruct (leaf n); [done|].
    destruct (decide (s = s')) as [->|Hne].
    + rewrite lookup_alter_eq. destruct (children n !! s') as [c|] eqn:E; simpl; [|done].
      apply IH; intros ?; [apply Hp|apply Hq]; by apply prefix_cons.
    + by rewrite lookup_alter_ne.
Qed.

(** What a path sees after the node at a prefix of it was rewritten. *)
Lemma node_at_alter_below f p q n m :
  node_at p n = Some m → node_at (p ++ q) (alter_at f p n) = node_at q (f m).
Proof. intros H. rewrite node_at_app, (node_at_alter_same _ _ _ m) by done. done. Qed.

(** A rewrite that keeps the leaf-ness of the node keeps that of its
    ancestors' views. *)
Lemma node_at_alter_above f p q n m :
  node_at (p ++ q) n = Some m →
  ∃ c, node_at p n = Some c ∧ node_at p (alter_at f (p ++ q) n) = Some (alter_at f q c).
Proof.
  revert n; induction p as [|s p IH]; intros n; simpl; [eauto|].
  unfold isLeaf. simpl. destruct (leaf n); [done|].
  intros (c&Hc&Hp)%bind_Some. rewrite lookup_alter_eq, Hc. simpl. by apply IH.
Qed.

(** *** Updating a leaf leaves every other leaf alone *)

Lemma leaf_at_node p n v :
  leaf_at p n = Some v ↔ ∃ m, node_at p n = Some m ∧ leaf m = Some v.
Proof. unfold leaf_at. by rewrite bind_Some. Qed.

Lemma leaf_node_stops p q n m v :
  node_at p n = Some m → leaf m = Some v → q ≠ [] → node_at (p ++ q) n = None.
Proof.
  intros Hm Hv Hq. rewrite node_at_app, Hm. simpl.
  destruct q; [done|]. simpl. unfold isLeaf. by rewrite Hv.
Qed.

Lemma leaf_at_alter_leaf f p q n m v :
  node_at p n = Some m → leaf m = Some v → isLeaf (f m) = true → p ≠ q →
  leaf_at q (alter_at f p n) = leaf_at q n.
Proof.
  intros Hm Hv Hf Hne. unfold leaf_at.
  destruct (decide (p `prefix_of` q)) as [[r ->]|Hp].
  - assert (r ≠ []) by (intros ->; by rewrite app_nil_r in Hne).
    rewrite (leaf_node_stops _ _ _ _ _ Hm Hv) by done.
    apply isLeaf_true in Hf as [w Hw].
    by rewrite (leaf_node_stops _ _ _ (f m) w) by (try apply node_at_alter_same; done).
  - destruct (decide (q `prefix_of` p)) as [[r ->]|Hq].
    + destruct (node_at_alter_above f q r n m Hm) as (c&Hc&->). rewrite Hc. simpl.
      destruct r as [|s r]; [by rewrite app_nil_r in Hne|].
      simpl. rewrite node_at_app, Hc in Hm. simpl in Hm.
      unfold isLeaf in Hm. by destruct (leaf c).
    + by rewrite node_at_alter_disjoint.
Qed.

(** ** Operations on one leaf *)

(** The steps [Get], [Set], [SetSystem], [GetAttributes] and [SetAttributes]
    share: look the node up and require a leaf. *)
Definition resolve_leaf (op path : string) (segments : list string) (n : Node)
  : result error (Node * Value) :=
  match lookup n segments with
  | Err e => Err (Wrap op KindNotFound (Some e))
  | Ok m =>
      match leaf m with
      | None => Err (Wrap op KindNotFound
                       (Some (errorf "path %q is an interior node, not a leaf" [path])))
      | Some v => Ok (m, v)
      end
  end.

Definition Get (t : Tree) (path : string) : result error Value :=
  segments ← parsePath path;
  '(_, v) ← resolve_leaf "paramtree.Get" path segments (root t);
  Ok v.

Definition Set_ (t : Tree) (path : string) (v : Value) : outcome unit :=
  match parsePath path with
  | Err e => (t, [], Err e)
  | Ok segments =>
      match resolve_leaf "paramtree.Set" path segments (root t) with
      | Err e => (t, [], Err e)
      | Ok (n, old) =>
          if negb (Writable old) then
            (t, [], Err (Wrap "paramtree.Set" KindInvalidArgument
                           (Some (errorf "path %q is read-only" [path]))))
          else if negb (String.eqb (vType old) (vType v)) then
            (t, [], Err (Wrap "paramtree.Set" KindInvalidArgument
                           (Some (errorf "type mismatch at %q: have %s, got %s"
                                    [path; vType old; vType v]))))
          else
            match Validate (vType v) (Raw v) with
            | Err e => (t, [], Err e)
            | Ok _ =>
                let t' := set_root t (alter_at (set_leaf v) segments (root t)) in
                (t',
                 if hasObservers t && negb (String.eqb (Raw old) (Raw v))
                 then [MkChange path old v ChangeValue] else [],
                 Ok tt)
            end
      end
  end.

Definition with_raw (raw : string) (v : Value) : Value := MkValue (vType v) raw (Writable v).

Definition SetSystem (t : Tree) (path raw : string) : outcome unit :=
  match parsePath path with
  | Err e => (t, [], Err e)
  | Ok segments =>
      match resolve_leaf "paramtree.SetSystem" path segments (root t) with
      | Err e => (t, [], Err e)
      | Ok (n, old) =>
          match Validate (vType old) raw with
          | Err e => (t, [], Err e)
          | Ok _ =>
              let new := with_raw raw old in
              let t' := set_root t (alter_at (set_leaf new) segments (root t)) in
              (t',
               if hasObservers t && negb (String.eqb (Raw old) raw)
               then [MkChange path old new ChangeValue] else [],
               Ok tt)
          end
      end
  end.

(** [other = None] is the nil tree. *)
Definition Reset_ (t : Tree) (other : option Tree) : outcome unit :=
  match other with
  | None => (t, [], Err (Wrap "paramtree.Reset" KindInvalidArgument
                           (Some (errorf "other tree is nil" []))))
  | Some o => (set_root t (root o), [], Ok tt)
  end.

Definition Clone (t : Tree) : Tree := MkTree (clone (root t)) (MkObservers 0 ∅).

Definition GetAttributes (t : Tree) (path : string) : result error Attributes :=
  segments ← parsePath path;
  '(n, _) ← resolve_leaf "paramtree.GetAttributes" path segments (root t);
  Ok (match attrs n with
      | None => Attributes_zero
      | Some a => MkAttributes (Notification a) (AccessList a)
      end).

Definition SetAttributes (t : Tree) (path : string) (a : Attributes) : outcome unit :=
  match parsePath path with
  | Err e => (t, [], Err e)
  | Ok segments =>
      match resolve_leaf "paramtree.SetAttributes" path segments (root t) with
      | Err e => (t, [], Err e)
      | Ok _ =>
          let stored := MkAttributes (Notification a) (AccessList a) in
          (set_root t (alter_at (set_attrs stored) segments (root t)), [], Ok tt)
      end
  end.

(** ** Mount *)

(** The walk creates the missing branches as it goes; it returns the node it
    leaves behind together with its verdict. *)
Fixpoint mount_go (path : string) (segs : list string) (last : string) (n parent : Node)
  : Node * result error unit :=
  match segs with
  | [] =>
      if isLeaf parent then
        (parent, Err (Wrap "paramtree.Mount" KindInvalidArgument
                        (Some (errorf "path %q traverses a leaf" [path]))))
      else match children parent !! last with
           | Some _ => (parent, Err (Wrap "paramtree.Mount" KindInvalidArgument
                                       (Some (errorf "path %q already occupied" [path]))))
           | None => (set_children (<[last := n]> (children parent)) parent, Ok tt)
           end
  | seg :: segs' =>
      if isLeaf parent then
        (parent, Err (Wrap "paramtree.Mount" KindInvalidArgument
                        (Some (errorf "path %q traverses a leaf at %q" [path; seg]))))
      else
        let child := default NewBranch (children parent !! seg) in
        let '(child', r) := mount_go path segs' last n child in
        (set_children (<[seg := child']> (children parent)) parent, r)
  end.

Definition Mount (t : Tree) (path : string) (n : Node) : outcome unit :=
  match parsePath path with
  | Err e => (t, [], Err e)
  | Ok [] => (t, [], Err (Wrap "paramtree.Mount" KindInvalidArgument
                            (Some (errorf "cannot mount onto root" []))))
  | Ok (s :: rest) =>
      let '(init, last) := split_last s rest in
      let '(r', res) := mount_go path init last n (root t) in
      (set_root t r', [], res)
  end.

(** ** The type invariant *)

(** Every leaf's raw value is one its type accepts, leaves carry no children
    and no table, only leaves carry attributes, every segment is a valid
    one, and templates are themselves well formed. *)
Inductive wf_node : Node → Prop :=
| wf_Node ch lf a tb :
    (∀ k c, ch !! k = Some c → valid_segment k = true) →
    (∀ k c, ch !! k = Some c → wf_node c) →
    (∀ v, lf = Some v → wf_value v ∧ ch = ∅ ∧ tb = None) →
    (lf = None → a = None) →
    (∀ t, tb = Some t → wf_node t) →
    wf_node (MkNode ch lf a tb).

Definition wf_tree (t : Tree) : Prop := wf_node (root t).

Lemma wf_NewBranch : wf_node NewBranch.
Proof. by constructor. Qed.

Lemma wf_NewLeaf v : wf_value v → wf_node (NewLeaf v).
Proof. intros. constructor; naive_solver. Qed.

Lemma wf_NewTable n : wf_node n → wf_node (NewTable n).
Proof. intros. constructor; naive_solver. Qed.

Lemma wf_node_inv n : wf_node n →
  (∀ k c, children n !! k = Some c → valid_segment k = true ∧ wf_node c) ∧
  (∀ v, leaf n = Some v → wf_value v ∧ children n = ∅ ∧ table n = None) ∧
  (∀ t, table n = Some t → wf_node t).
Proof. intros []; naive_solver. Qed.

Lemma wf_node_at p n m : wf_node n → node_at p n = Some m → wf_node m.
Proof.
  revert n; induction p as [|s p IH]; intros n Hwf; simpl; [by intros [= <-]|].
  destruct (isLeaf n); [done|]. intros (c&Hc&Hm)%bind_Some.
  eapply IH; [|exact Hm]. by apply (wf_node_inv _ Hwf) in Hc as [_ ?].
Qed.

Lemma wf_set_children ch n :
  wf_node n → isLeaf n = false →
  (∀ k c, ch !! k = Some c → valid_segment k = true ∧ wf_node c) →
  wf_node (set_children ch n).
Proof.
  intros [ch0 lf a tb H1 H2 H3 H4 H5] Hl Hch. apply isLeaf_false in Hl; simpl in Hl; subst.
  constructor; naive_solver.
Qed.

Lemma wf_set_leaf v n :
  wf_node n → isLeaf n = true → wf_value v → wf_node (set_leaf v n).
Proof.
  intros [ch0 lf a tb H1 H2 H3 H4 H5] [w Hw]%isLeaf_true Hv; simpl in *.
  destruct (H3 w Hw) as (?&->&->). constructor; naive_solver.
Qed.

Lemma wf_set_attrs a n : wf_node n → isLeaf n = true → wf_node (set_attrs a n).
Proof.
  intros [ch0 lf a0 tb H1 H2 H3 H4 H5] [w Hw]%isLeaf_true; simpl in *.
  constructor; naive_solver.
Qed.

Lemma wf_set_table tb n : wf_node n → isLeaf n = false → wf_node tb → wf_node (set_table tb n).
Proof.
  intros [ch0 lf a0 tb0 H1 H2 H3 H4 H5] Hl ?; apply isLeaf_false in Hl; simpl in *.
  constructor; naive_solver.
Qed.

(** Rewriting one node by a function that keeps well-formedness there. *)
Lemma wf_alter_at f p n m :
  wf_node n → node_at p n = Some m → (wf_node m → wf_node (f m)) → wf_node (alter_at f p n).
Proof.
  revert n; induction p as [|s p IH]; intros n Hwf; simpl; [intros [= ->]; auto|].
  destruct (isLeaf n) eqn:Hl; [done|]. intros (c&Hc&Hm)%bind_Some Hf.
  pose proof (wf_node_inv _ Hwf) as (Hch&_&_).
  apply wf_set_children; [done..|]. intros k c' Hk.
  destruct (decide (s = k)) as [<-|Hne].
  - rewrite lookup_alter_eq, Hc in Hk. injection Hk as <-.
    destruct (Hch _ _ Hc). split; [done|]. by apply IH.
  - rewrite lookup_alter_ne in Hk by done. eauto.
Qed.
Create HintDb paramtree.
#[export] Hint Resolve wf_NewBranch wf_NewLeaf wf_NewTable wf_set_leaf wf_set_attrs wf_set_table : paramtree.

(** The invariant as a check that runs. *)
Fixpoint wf_nodeb (n : Node) : bool :=
  match n with
  | MkNode ch lf a tb =>
      forallb (λ '(k, b), valid_segment k && b) (map_to_list (wf_nodeb <$> ch)) &&
      match lf with
      | Some v => valid_raw (vType v) (Raw v) && Nat.eqb (size ch) 0 &&
                  match tb with Some _ => false | None => true end
      | None => match a with Some _ => false | None => true end
      end &&
      match tb with Some t => wf_nodeb t | None => true end
  end.

Lemma wf_nodeb_sound n : wf_nodeb n = true → wf_node n.
Proof.
  induction n as [ch lf a tb IHc IHt] using Node_ind'. simpl.
  rewrite !andb_true_iff. intros [[Hch Hlf] Htb].
  assert (∀ k c, ch !! k = Some c → valid_segment k = true ∧ wf_node c) as Hk.
  { intros k c Hc. rewrite forallb_forall in Hch.
    specialize (Hch (k, wf_nodeb c)). simpl in Hch. rewrite andb_true_iff in Hch.
    destruct Hch as [??].
    - apply list_elem_of_In, elem_of_map_to_list. by rewrite lookup_fmap, Hc.
    - split; [done|]. by eapply IHc. }
  constructor.
  - intros k c Hc. by destruct (Hk k c Hc).
  - intros k c Hc. by destruct (Hk k c Hc).
  - intros v ->. rewrite !andb_true_iff in Hlf. destruct Hlf as [[Hv Hs] Ht].
    apply Nat.eqb_eq, map_size_empty_inv in Hs. by destruct tb.
  - intros ->. by destruct a.
  - intros t ->. by apply IHt.
Qed.
