(* ===== verification/TreeProps.v ===== *)
(** * What the parameter tree promises, and that it keeps it.

    The specification sees a tree as a partial function from segment lists to
    leaf values; [Get], [Set] and [SetSystem] are then a lookup and two
    guarded updates. *)
From Stdlib Require Import ZArith Lia Ascii String.
From S2P Require Import Prelude GoLib CpeErr Types Node Tree.

(** ** The specification *)
Definition view (t : Tree) (p : list string) : option Value := leaf_at p (root t).

Definition spec_store := list string → option Value.
Definition spec_update (p : list string) (v : Value) (s : spec_store) : spec_store :=
  λ q, if decide (p = q) then Some v else s q.

Inductive set_fault := SfNotFound | SfReadOnly | SfTypeMismatch | SfInvalidValue.
#[export] Instance set_fault_eq_dec : EqDecision set_fault.
Proof. solve_decision. Defined.

Definition spec_set (s : spec_store) (p : list string) (v : Value) : result set_fault spec_store :=
  match s p with
  | None => Err SfNotFound
  | Some old =>
      if negb (Writable old) then Err SfReadOnly
      else if negb (String.eqb (vType old) (vType v)) then Err SfTypeMismatch
      else if negb (valid_raw (vType v) (Raw v)) then Err SfInvalidValue
      else Ok (spec_update p v s)
  end.

Definition spec_set_system (s : spec_store) (p : list string) (raw : string)
  : result set_fault spec_store :=
  match s p with
  | None => Err SfNotFound
  | Some old =>
      if negb (valid_raw (vType old) raw) then Err SfInvalidValue
      else Ok (spec_update p (with_raw raw old) s)
  end.

Definition fault_kind (f : set_fault) : Kind :=
  match f with SfNotFound => KindNotFound | _ => KindInvalidArgument end.

(** The error a failed operation reports is of the kind the fault asks for,
    and of no other kind. *)
Definition reports (f : set_fault) (e : error) : Prop :=
  ∀ k, Is e k = true ↔ k = fault_kind f.

(** ** Resolution *)

Lemma resolve_leaf_ok op path segs n m v :
  resolve_leaf op path segs n = Ok (m, v) ↔ node_at segs n = Some m ∧ leaf m = Some v.
Proof.
  unfold resolve_leaf. destruct (lookup n segs) as [m'|e] eqn:E.
  - apply lookup_ok in E. rewrite E. destruct (leaf m') eqn:El; naive_solver.
  - assert (node_at segs n = None) as -> by (apply lookup_err; eauto). naive_solver.
Qed.

Lemma resolve_leaf_err op path segs n e :
  resolve_leaf op path segs n = Err e → leaf_at segs n = None ∧ (∀ k, Is e k = true ↔ k = KindNotFound).
Proof.
  unfold resolve_leaf, leaf_at. destruct (lookup n segs) as [m'|e'] eqn:E.
  - apply lookup_ok in E. rewrite E. simpl. destruct (leaf m') eqn:El; [done|].
    intros [= <-]. split; [done|]. intros k. rewrite Is_Wrap_errorf, bool_decide_eq_true. naive_solver.
  - intros [= <-]. assert (node_at segs n = None) as -> by (apply lookup_err; eauto).
    split; [done|]. intros k. rewrite Is_Wrap, (lookup_err_plain _ _ _ k E), orb_false_r, bool_decide_eq_true.
    naive_solver.
Qed.

Lemma resolve_leaf_view op path segs n :
  match leaf_at segs n with
  | Some v => ∃ m, resolve_leaf op path segs n = Ok (m, v) ∧ node_at segs n = Some m ∧ leaf m = Some v
  | None => ∃ e, resolve_leaf op path segs n = Err e ∧ (∀ k, Is e k = true ↔ k = KindNotFound)
  end.
Proof.
  destruct (resolve_leaf op path segs n) as [[m v]|e] eqn:E.
  - apply resolve_leaf_ok in E as [Hm Hv]. unfold leaf_at. rewrite Hm. simpl. rewrite Hv. eauto.
  - apply resolve_leaf_err in E as [-> ?]. eauto.
Qed.

Lemma view_set_leaf t p m v w :
  node_at p (root t) = Some m → leaf m = Some v →
  ∀ q, view (set_root t (alter_at (set_leaf w) p (root t))) q = spec_update p w (view t) q.
Proof.
  intros Hm Hv q. unfold view, spec_update. simpl. case_decide as Hpq.
  - subst q. unfold leaf_at. by rewrite (node_at_alter_same _ _ _ m).
  - by rewrite (leaf_at_alter_leaf _ _ _ _ m v).
Qed.

Lemma Validate_err_spec typ raw e k :
  Validate typ raw = Err e → (Is e k = true ↔ k = KindInvalidArgument).
Proof.
  rewrite <-(bool_decide_eq_true (k = _)). unfold Validate.
  destruct (typeFns_validate typ) as [f|] eqn:E.
  2:{ intros [= <-]. rewrite Is_Wrap_errorf. rewrite !bool_decide_eq_true. naive_solver. }
  destruct (f raw) as [|e'] eqn:Ef; [done|]. intros [= <-].
  rewrite Is_Wrap, bool_decide_eq_true.
  assert (Is e' k = false) as He.
  { revert E Ef. unfold typeFns_validate.
    repeat case_decide; intros [= <-]; cbv beta delta [validateString validateInt32 validateUint32
      validateBoolean validateDateTime validateBase64]; intros HH; res_break; simplify_eq; try done.
    all: match goal with e : Strconv.NumError |- _ => by destruct e end. }
  simpl. rewrite He, orb_false_r, bool_decide_eq_true. naive_solver.
Qed.

(** *** Inversion: an operation fails and changes nothing, or rewrites one leaf *)

(** The change a write of [v] over [old] owes its observers. *)
Definition value_change (t : Tree) (path : string) (old v : Value) : list Change :=
  if hasObservers t && negb (String.eqb (Raw old) (Raw v)) then [MkChange path old v ChangeValue] else [].

Lemma Set_inv t path v :
  (∃ e, Set_ t path v = (t, [], Err e)) ∨
  ∃ p m old, parsePath path = Ok p ∧ node_at p (root t) = Some m ∧ leaf m = Some old ∧
    wf_value v ∧
    Set_ t path v = (set_root t (alter_at (set_leaf v) p (root t)), value_change t path old v, Ok tt).
Proof.
  unfold Set_. destruct (parsePath path) as [p|e]; [|eauto].
  destruct (resolve_leaf _ path p (root t)) as [[m old]|e] eqn:Hr; [|eauto].
  apply resolve_leaf_ok in Hr as [Hm Hv].
  destruct (negb (Writable old)); [eauto|]. destruct (negb _); [eauto|].
  destruct (Validate _ _) as [u|e] eqn:HV; [|eauto].
  apply Validate_ok in HV. right. by exists p, m, old.
Qed.

Lemma SetSystem_inv t path raw :
  (∃ e, SetSystem t path raw = (t, [], Err e)) ∨
  ∃ p m old, parsePath path = Ok p ∧ node_at p (root t) = Some m ∧ leaf m = Some old ∧
    wf_value (with_raw raw old) ∧
    SetSystem t path raw = (set_root t (alter_at (set_leaf (with_raw raw old)) p (root t)),
                            value_change t path old (with_raw raw old), Ok tt).
Proof.
  unfold SetSystem. destruct (parsePath path) as [p|e]; [|eauto].
  destruct (resolve_leaf _ path p (root t)) as [[m old]|e] eqn:Hr; [|eauto].
  apply resolve_leaf_ok in Hr as [Hm Hv].
  destruct (Validate _ _) as [u|e] eqn:HV; [|eauto].
  apply Validate_ok in HV. right. by exists p, m, old.
Qed.

Lemma SetAttributes_inv t path a :
  (∃ e, SetAttributes t path a = (t, [], Err e)) ∨
  ∃ p m old, parsePath path = Ok p ∧ node_at p (root t) = Some m ∧ leaf m = Some old ∧
    SetAttributes t path a = (set_root t (alter_at (set_attrs a) p (root t)), [], Ok tt).
Proof.
  unfold SetAttributes. destruct (parsePath path) as [p|e]; [|eauto].
  destruct (resolve_leaf _ path p (root t)) as [[m old]|e] eqn:Hr; [|eauto].
  apply resolve_leaf_ok in Hr as [Hm Hv]. right. exists p, m, old. by destruct a.
Qed.

(** A small tree the witnesses run on: one observer, a writable string, a
    read-only string and an integer under [Device]. *)
Definition ex_tree : Tree :=
  MkTree
    (MkNode
       {["Device" := MkNode (<["X" := NewLeaf (MkValue TypeInt "1" true)]>
                             {["Y" := NewLeaf (MkValue TypeString "y" false)]}) None None None;
         "S" := NewLeaf (MkValue TypeString "a" true)]} None None None)
    (MkObservers 1 {[0]}).

(** ** Functional behaviour *)

(** [Get] is the lookup of the specification: on a path that parses it
    returns the leaf there, or an error of kind NotFound and no other; a path
    that does not parse is an InvalidArgument. *)
Theorem Get_refines (t : Tree) (path : string) :
  match parsePath path with
  | Ok p =>
      match view t p with
      | Some v => Get t path = Ok v
      | None => ∃ e, Get t path = Err e ∧ reports SfNotFound e
      end
  | Err e => Get t path = Err e ∧ Is e KindInvalidArgument = true ∧ Is e KindNotFound = false
  end.
Proof.
  unfold Get. destruct (parsePath path) as [p|e] eqn:Hp; simpl.
  - pose proof (resolve_leaf_view "paramtree.Get" path p (root t)) as H.
    unfold view. destruct (leaf_at p (root t)).
    + destruct H as (m&->&_). done.
    + destruct H as (e&->&He). simpl. exists e. done.
  - split; [done|]. by eapply parsePath_err.
Qed.

(** [Set] implements the specification on every branch: it updates exactly
    the named leaf when the leaf exists, is writable, keeps its type and the
    new raw value is valid for it; otherwise it returns an error of the kind
    the fault asks for, no change, and the tree it was given. *)
Theorem Set_refines (t : Tree) (path : string) (v : Value) (p : list string)
  (Hp : parsePath path = Ok p) :
  match spec_set (view t) p v with
  | Ok s' => ∃ t' cs, Set_ t path v = (t', cs, Ok tt) ∧ obs t' = obs t ∧ (∀ q, view t' q = s' q)
  | Err f => ∃ e, Set_ t path v = (t, [], Err e) ∧ reports f e
  end.
Proof.
  unfold Set_, spec_set. rewrite Hp.
  pose proof (resolve_leaf_view "paramtree.Set" path p (root t)) as H.
  fold (view t p) in H. destruct (view t p) as [old|].
  2:{ destruct H as (e&->&He). by exists e. }
  destruct H as (m&->&Hm&Hv).
  destruct (negb (Writable old)); [|destruct (negb (String.eqb _ _))].
  1-2: eexists; split; [done|]; intros k; rewrite Is_Wrap_errorf, bool_decide_eq_true; naive_solver.
  destruct (Validate (vType v) (Raw v)) as [[]|e] eqn:Hval.
  - rewrite (proj1 (Validate_ok _ _ _) Hval). simpl. eexists _, _. split; [done|].
    split; [done|]. by eapply view_set_leaf.
  - assert (valid_raw (vType v) (Raw v) = false) as ->.
    { unfold valid_raw. by rewrite Hval. }
    simpl. exists e. split; [done|]. intros k. by eapply Validate_err_spec.
Qed.

Lemma Set_refines_witness :
  ∃ t' cs, Set_ ex_tree "Device.X" (MkValue TypeInt "7" true) = (t', cs, Ok tt)
           ∧ obs t' = obs ex_tree
           ∧ ∀ q, view t' q = spec_update ["Device"; "X"] (MkValue TypeInt "7" true) (view ex_tree) q.
Proof. exact (Set_refines ex_tree "Device.X" (MkValue TypeInt "7" true) ["Device"; "X"] eq_refl). Defined.

(** *** Reading, as the view and as a well-formed value *)

Lemma Get_view t path v : Get t path = Ok v ↔ ∃ p, parsePath path = Ok p ∧ view t p = Some v.
Proof.
  pose proof (Get_refines t path) as H. destruct (parsePath path) as [p|e] eqn:Hp.
  - destruct (view t p) as [w|] eqn:Hw.
    + rewrite H. split; [intros E; injection E as ->; by exists p|]. intros (p'&E&E'). injection E as <-. congruence.
    + destruct H as (e&->&_). split; [done|]. intros (p'&E&E'). injection E as <-. congruence.
  - split; [|by intros (p&?&_)]. unfold Get. by rewrite Hp.
Qed.

Lemma view_wf t segs v : wf_tree t → view t segs = Some v → wf_value v.
Proof.
  intros Hw Hv. apply leaf_at_node in Hv as (m&Hm&Hl).
  apply (wf_node_at _ _ _ Hw), wf_node_inv in Hm as (_&Hlf&_). by apply Hlf.
Qed.

Lemma Get_wf t path v : wf_tree t → Get t path = Ok v → wf_value v.
Proof.
  intros Hw H. unfold Get in H. apply result_bind_ok in H as (p&_&H).
  apply result_bind_ok in H as ([m v']&Hr&[= <-]). apply resolve_leaf_ok in Hr as [Hm Hl].
  apply (wf_node_at _ _ _ Hw), wf_node_inv in Hm as (_&Hlf&_). by apply Hlf.
Qed.

(** [SetSystem] ignores [Writable], keeps the leaf's type and writability,
    still validates the raw value, and updates exactly the named leaf. *)
Theorem SetSystem_refines (t : Tree) (path raw : string) (p : list string)
  (Hp : parsePath path = Ok p) :
  match spec_set_system (view t) p raw with
  | Ok s' => ∃ t' cs, SetSystem t path raw = (t', cs, Ok tt) ∧ obs t' = obs t ∧ (∀ q, view t' q = s' q)
  | Err f => ∃ e, SetSystem t path raw = (t, [], Err e) ∧ reports f e
  end.
Proof.
  unfold SetSystem, spec_set_system. rewrite Hp.
  pose proof (resolve_leaf_view "paramtree.SetSystem" path p (root t)) as H.
  fold (view t p) in H. destruct (view t p) as [old|].
  2:{ destruct H as (e&->&He). by exists e. }
  destruct H as (m&->&Hm&Hv).
  destruct (Validate (vType old) raw) as [[]|e] eqn:Hval.
  - rewrite (proj1 (Validate_ok _ _ _) Hval). simpl. eexists _, _. split; [done|].
    split; [done|]. by eapply view_set_leaf.
  - assert (valid_raw (vType old) raw = false) as ->.
    { unfold valid_raw. by rewrite Hval. }
    simpl. exists e. split; [done|]. intros k. by eapply Validate_err_spec.
Qed.

Lemma SetSystem_refines_witness :
  ∃ t' cs, SetSystem ex_tree "Device.Y" "b" = (t', cs, Ok tt) ∧ obs t' = obs ex_tree
           ∧ ∀ q, view t' q = spec_update ["Device"; "Y"] (MkValue TypeString "b" false) (view ex_tree) q.
Proof. exact (SetSystem_refines ex_tree "Device.Y" "b" ["Device"; "Y"] eq_refl). Defined.

(** A valid raw value is written to a leaf that exists, and to it alone. *)
Lemma SetSystem_writes t path raw v : Get t path = Ok v → valid_raw (vType v) raw = true →
  ∃ t' cs p, SetSystem t path raw = (t', cs, Ok tt) ∧ parsePath path = Ok p ∧
    ∀ q, view t' q = spec_update p (with_raw raw v) (view t) q.
Proof.
  intros (p&Hp&Hv)%Get_view Hr. pose proof (SetSystem_refines t path raw p Hp) as H.
  unfold spec_set_system in H. rewrite Hv, Hr in H. destruct H as (t'&cs&E&_&Hq). by exists t', cs, p.
Qed.

(** *** Notification *)

(** A successful [Set] notifies exactly when somebody listens and the raw
    value moved, and the change carries the value before and after. *)
Theorem Set_notifies (t t' : Tree) (path : string) (v : Value) (cs : list Change)
  (H : Set_ t path v = (t', cs, Ok tt)) :
  ∃ old, Get t path = Ok old ∧ Get t' path = Ok v ∧ cs = value_change t path old v.
Proof.
  destruct (Set_inv t path v) as [[e E]|(p&m&old&Hp&Hm&Hv&_&E)]; rewrite E in H; [done|].
  simplify_eq. exists old. unfold Get. rewrite Hp. simpl.
  rewrite (proj2 (resolve_leaf_ok _ _ _ _ m old)) by done.
  rewrite (proj2 (resolve_leaf_ok _ _ _ _ (set_leaf v m) v)) by (by rewrite (node_at_alter_same _ _ _ m)).
  done.
Qed.

Lemma Set_notifies_witness :
  ∃ old, let r := Set_ ex_tree "S" (MkValue TypeString "b" true) in
    Get ex_tree "S" = Ok old ∧ Get r.1.1 "S" = Ok (MkValue TypeString "b" true) ∧
    r.1.2 = value_change ex_tree "S" old (MkValue TypeString "b" true).
Proof.
  exact (Set_notifies ex_tree (Set_ ex_tree "S" (MkValue TypeString "b" true)).1.1 "S"
           (MkValue TypeString "b" true) (Set_ ex_tree "S" (MkValue TypeString "b" true)).1.2
           ltac:(vm_compute; reflexivity)).
Defined.

(** *** Attributes and values are independent *)

(** Rewriting a node without touching its leaf or children moves no value. *)
Lemma leaf_at_alter_keep f p n q :
  (∀ m, node_at p n = Some m → leaf (f m) = leaf m ∧ children (f m) = children m) →
  leaf_at q (alter_at f p n) = leaf_at q n.
Proof.
  unfold leaf_at. revert q n; induction p as [|s p IH]; intros q n H; simpl.
  - destruct (H n) as [Hl Hc]; [done|]. destruct q; simpl; [by rewrite Hl|].
    unfold isLeaf. by rewrite Hl, Hc.
  - destruct q as [|s' q]; simpl; [done|]. unfold isLeaf in *. simpl in *.
    destruct (leaf n) eqn:El; [done|]. destruct (decide (s = s')) as [<-|Hne].
    + rewrite lookup_alter_eq. destruct (children n !! s) as [c|] eqn:Ec; simpl; [|done].
      apply IH. intros m Hm. apply (H m). unfold isLeaf. by rewrite El.
    + by rewrite lookup_alter_ne.
Qed.

(** [SetAttributes] moves no value and emits no change; on success
    [GetAttributes] reads back what was stored, the nil access list
    included. *)
Theorem SetAttributes_correct (t t' : Tree) (path : string) (a : Attributes)
  (cs : list Change) (H : SetAttributes t path a = (t', cs, Ok tt)) :
  cs = [] ∧ (∀ q, view t' q = view t q) ∧ GetAttributes t' path = Ok a.
Proof.
  destruct (SetAttributes_inv t path a) as [[e E]|(p&m&old&Hp&Hm&Hv&E)]; rewrite E in H; [done|].
  simplify_eq. split; [done|]. split.
  - intros q. apply leaf_at_alter_keep. done.
  - unfold GetAttributes. rewrite Hp. simpl.
    rewrite (proj2 (resolve_leaf_ok _ _ _ _ (set_attrs _ m) old)) by (by rewrite (node_at_alter_same _ _ _ m)).
    by destruct a.
Qed.

Lemma SetAttributes_correct_witness :
  let r := SetAttributes ex_tree "S" (MkAttributes 2 (Some [])) in
  r.1.2 = [] ∧ (∀ q, view r.1.1 q = view ex_tree q) ∧
  GetAttributes r.1.1 "S" = Ok (MkAttributes 2 (Some [])).
Proof.
  exact (SetAttributes_correct ex_tree (SetAttributes ex_tree "S" (MkAttributes 2 (Some []))).1.1 "S"
           (MkAttributes 2 (Some [])) (SetAttributes ex_tree "S" (MkAttributes 2 (Some []))).1.2
           ltac:(vm_compute; reflexivity)).
Defined.

(** Attributes stored at a path, [None] where there is no leaf. *)
Definition attrs_view (t : Tree) (p : list string) : option (option Attributes) :=
  m ← node_at p (root t); v ← leaf m; Some (attrs m).

Lemma attrs_at_alter_other f p n m v q :
  node_at p n = Some m → leaf m = Some v → isLeaf (f m) = true → p ≠ q →
  (m' ← node_at q (alter_at f p n); _ ← leaf m'; Some (attrs m')) =
  (m' ← node_at q n; _ ← leaf m'; Some (attrs m')).
Proof.
  intros Hm Hv Hf Hne. destruct (decide (p `prefix_of` q)) as [[r ->]|Hp].
  - assert (r ≠ []) by (intros ->; by rewrite app_nil_r in Hne).
    apply isLeaf_true in Hf as [w Hw].
    rewrite (leaf_node_stops _ _ _ _ _ Hm Hv), (leaf_node_stops _ _ _ (f m) w); try done.
    by apply node_at_alter_same.
  - destruct (decide (q `prefix_of` p)) as [[r ->]|Hq]; [|by rewrite node_at_alter_disjoint].
    destruct (node_at_alter_above f q r n m Hm) as (c&Hc&->). rewrite Hc. simpl.
    destruct r as [|s r]; [by rewrite app_nil_r in Hne|]. simpl.
    rewrite node_at_app, Hc in Hm. simpl in Hm. unfold isLeaf in Hm. by destruct (leaf c).
Qed.

Lemma attrs_at_alter_leaf f p n m v q :
  node_at p n = Some m → leaf m = Some v → isLeaf (f m) = true → attrs (f m) = attrs m →
  (m' ← node_at q (alter_at f p n); _ ← leaf m'; Some (attrs m')) =
  (m' ← node_at q n; _ ← leaf m'; Some (attrs m')).
Proof.
  intros Hm Hv Hf Ha. destruct (decide (p = q)) as [<-|Hne]; [|by eapply attrs_at_alter_other].
  rewrite (node_at_alter_same _ _ _ m), Hm by done. simpl.
  apply isLeaf_true in Hf as [w Hw]. by rewrite Hv, Hw, Ha.
Qed.

(** Storing attributes at a leaf. *)
Lemma SetAttributes_leaf t path a p v :
  parsePath path = Ok p → view t p = Some v →
  ∃ t', SetAttributes t path a = (t', [], Ok tt) ∧ (∀ q, view t' q = view t q) ∧
    ∀ q, attrs_view t' q = if decide (p = q) then Some (Some a) else attrs_view t q.
Proof.
  intros Hp (m&Hm&Hv)%leaf_at_node. unfold SetAttributes. rewrite Hp.
  rewrite (proj2 (resolve_leaf_ok _ _ _ _ m v)) by done.
  eexists. split; [done|]. split; [intros q; by apply leaf_at_alter_keep|].
  intros q. destruct a as [nt al]. cbn [Notification AccessList]. unfold attrs_view. cbn [root set_root]. case_decide as Hq.
  - subst q. rewrite (node_at_alter_same _ _ _ m) by done. simpl. by rewrite Hv.
  - eapply attrs_at_alter_other; [done..| |done]. unfold isLeaf. simpl. by rewrite Hv.
Qed.

Lemma GetAttributes_view t path p oa :
  parsePath path = Ok p → attrs_view t p = Some oa →
  GetAttributes t path =
    Ok (match oa with None => Attributes_zero | Some a => MkAttributes (Notification a) (AccessList a) end).
Proof.
  intros Hp Ha. unfold GetAttributes, attrs_view in *. rewrite Hp. cbn [mbind result_bind].
  destruct (node_at p (root t)) as [m|] eqn:Hm; [|done]. simpl in Ha.
  destruct (leaf m) as [v|] eqn:Hv; [|done]. simpl in Ha. injection Ha as <-.
  by rewrite (proj2 (resolve_leaf_ok _ _ _ _ m v)).
Qed.

(** Writing values never touches attributes: whatever [Set] and
    [SetSystem] return, every leaf keeps the attributes it had. *)
Theorem writes_keep_attributes (t : Tree) (path raw : string) (v : Value) (q : list string) :
  attrs_view (Set_ t path v).1.1 q = attrs_view t q ∧
  attrs_view (SetSystem t path raw).1.1 q = attrs_view t q.
Proof.
  split; [destruct (Set_inv t path v) as [[e ->]|(p&m&old&_&Hm&Hv&_&->)]
         |destruct (SetSystem_inv t path raw) as [[e ->]|(p&m&old&_&Hm&Hv&_&->)]];
    try done; by eapply attrs_at_alter_leaf.
Qed.
