(* ===== verification/Batch.v ===== *)
(** * Batch writes ([internal/paramtree/paramtree.go], [SetBatch],
    [CheckBatch], [preflight]): the all-or-nothing write behind
    SetParameterValues. *)
From Stdlib Require Import ZArith Lia Ascii String.
From S2P Require Import Prelude GoLib CpeErr Types Node Tree TreeProps.

Record Setter := MkSetter { sPath : string; sValue : Value }.
#[export] Instance Setter_eq_dec : EqDecision Setter.
Proof. solve_decision. Defined.

Record BatchResult := MkBatchResult {
  brPath : string; OldValue : Value; NewValue : Value; Changed : bool
}.

Inductive SetBatchFailure :=
| FailureUnknown
| FailureNotFound
| FailureNotWritable
| FailureTypeMismatch
| FailureInvalidValue
| FailureDuplicatePath.
#[export] Instance SetBatchFailure_eq_dec : EqDecision SetBatchFailure.
Proof. solve_decision. Defined.

Record EntryFault := MkEntryFault { efPath : string; efCode : SetBatchFailure; efErr : error }.

Record SetBatchError := MkSetBatchError {
  sbPath : string; sbCode : SetBatchFailure; sbErr : error; All : list EntryFault
}.

Definition codeString (c : SetBatchFailure) : string :=
  match c with
  | FailureNotFound => "not found"
  | FailureNotWritable => "not writable"
  | FailureTypeMismatch => "type mismatch"
  | FailureInvalidValue => "invalid value"
  | FailureDuplicatePath => "duplicate path"
  | FailureUnknown => "unknown"
  end.

(** The node pointer of a pre-flighted entry is the path it was found at. *)
Record batchEntry := MkBatchEntry { beNode : list string; beOld : Value; beNew : Value }.

(** One round of the pre-flight loop: the paths seen so far and the entry's
    verdict. *)
Definition preflight_entry (n : Node) (seen : gset string) (s : Setter)
  : gset string * result EntryFault batchEntry :=
  let fault code e := Err (MkEntryFault (sPath s) code e) in
  match parsePath (sPath s) with
  | Err e => (seen, fault FailureNotFound e)
  | Ok segments =>
      let canonical := joinPath segments in
      if bool_decide (canonical ∈ seen) then
        (seen, fault FailureDuplicatePath (errorf "path %q appears twice in batch" [sPath s]))
      else
        let seen' := {[canonical]} ∪ seen in
        (seen',
         match lookup n segments with
         | Err e => fault FailureNotFound e
         | Ok m =>
             match leaf m with
             | None => fault FailureNotFound
                         (errorf "path %q is an interior node, not a leaf" [sPath s])
             | Some old =>
                 if negb (Writable old) then
                   fault FailureNotWritable (errorf "path %q is read-only" [sPath s])
                 else if negb (String.eqb (vType old) (vType (sValue s))) then
                   fault FailureTypeMismatch
                     (errorf "type mismatch at %q: have %s, got %s"
                        [sPath s; vType old; vType (sValue s)])
                 else
                   match Validate (vType (sValue s)) (Raw (sValue s)) with
                   | Err e => fault FailureInvalidValue e
                   | Ok _ => Ok (MkBatchEntry segments old (sValue s))
                   end
             end
         end)
  end.

(** The loop collects every fault and every resolved entry. *)
Fixpoint preflight_loop (n : Node) (seen : gset string) (setters : list Setter)
  : list EntryFault * list batchEntry :=
  match setters with
  | [] => ([], [])
  | s :: rest =>
      let '(seen', r) := preflight_entry n seen s in
      let '(faults, resolved) := preflight_loop n seen' rest in
      match r with
      | Err f => (f :: faults, resolved)
      | Ok e => (faults, e :: resolved)
      end
  end.

Definition preflight (n : Node) (setters : list Setter) : result SetBatchError (list batchEntry) :=
  match preflight_loop n ∅ setters with
  | (first :: rest, _) =>
      Err (MkSetBatchError (efPath first) (efCode first) (efErr first) (first :: rest))
  | ([], resolved) => Ok resolved
  end.

Definition apply_entry (n : Node) (r : batchEntry) : Node :=
  alter_at (set_leaf (beNew r)) (beNode r) n.

Definition batch_result (s : Setter) (r : batchEntry) : BatchResult :=
  MkBatchResult (sPath s) (beOld r) (beNew r) (negb (String.eqb (Raw (beOld r)) (Raw (beNew r)))).

(** [None] in the result is the nil slice of an empty batch. *)
Definition SetBatch (t : Tree) (setters : list Setter)
  : Tree * list Change * result SetBatchError (option (list BatchResult)) :=
  match setters with
  | [] => (t, [], Ok None)
  | _ =>
      match preflight (root t) setters with
      | Err e => (t, [], Err e)
      | Ok resolved =>
          (set_root t (foldl apply_entry (root t) resolved), [],
           Ok (Some (zip_with batch_result setters resolved)))
      end
  end.

Definition CheckBatch (t : Tree) (setters : list Setter) : result SetBatchError unit :=
  _ ← preflight (root t) setters; Ok tt.

(** ** Specification *)

(** What is wrong with an entry, given the entries before it: the first of
    the checks it fails. *)
Definition entry_fault (s : spec_store) (earlier : list (list string)) (e : Setter)
  : option SetBatchFailure :=
  match parsePath (sPath e) with
  | Err _ => Some FailureNotFound
  | Ok p =>
      if bool_decide (p ∈ earlier) then Some FailureDuplicatePath
      else match spec_set s p (sValue e) with
           | Ok _ => None
           | Err SfNotFound => Some FailureNotFound
           | Err SfReadOnly => Some FailureNotWritable
           | Err SfTypeMismatch => Some FailureTypeMismatch
           | Err SfInvalidValue => Some FailureInvalidValue
           end
  end.

Definition parsed (e : Setter) : list (list string) :=
  match parsePath (sPath e) with Ok p => [p] | Err _ => [] end.

Fixpoint batch_faults (s : spec_store) (earlier : list (list string)) (l : list Setter)
  : list (string * SetBatchFailure) :=
  match l with
  | [] => []
  | e :: rest =>
      let tail := batch_faults s (earlier ++ parsed e) rest in
      match entry_fault s earlier e with
      | Some code => (sPath e, code) :: tail
      | None => tail
      end
  end.

(** The specification of a batch that passes: the updates, in order. *)
Fixpoint batch_update (s : spec_store) (l : list Setter) : spec_store :=
  match l with
  | [] => s
  | e :: rest =>
      batch_update (match parsePath (sPath e) with
                    | Ok p => spec_update p (sValue e) s
                    | Err _ => s
                    end) rest
  end.

Definition fault_line (f : EntryFault) : string * SetBatchFailure := (efPath f, efCode f).

(** ** The loop against its specification *)

Definition seen_matches (seen : gset string) (earlier : list (list string)) : Prop :=
  Forall (λ p, Forall (λ s, valid_segment s = true) p) earlier ∧
  ∀ x, x ∈ seen ↔ ∃ p, p ∈ earlier ∧ x = joinPath p.

Lemma seen_matches_elem seen earlier path p :
  seen_matches seen earlier → parsePath path = Ok p → (joinPath p ∈ seen ↔ p ∈ earlier).
Proof.
  intros [Hv Hs] Hp%parsePath_segments. rewrite Hs. split; [|eauto].
  intros (q&Hq&E). rewrite Forall_forall in Hv.
  apply joinPath_inj in E as ->; auto.
Qed.

Lemma seen_matches_add seen earlier path p :
  seen_matches seen earlier → parsePath path = Ok p →
  seen_matches ({[joinPath p]} ∪ seen) (earlier ++ [p]).
Proof.
  intros [Hv Hs] Hp%parsePath_segments. split; [by apply Forall_app; split; [|constructor]|].
  intros x. rewrite elem_of_union, elem_of_singleton, Hs.
  setoid_rewrite elem_of_app. setoid_rewrite list_elem_of_singleton. naive_solver.
Qed.

Lemma seen_matches_dup seen earlier p :
  p ∈ earlier → seen_matches seen earlier → seen_matches seen (earlier ++ [p]).
Proof.
  intros Hp [Hv Hs]. split.
  - apply Forall_app; split; [done|]. constructor; [|done]. rewrite Forall_forall in Hv. auto.
  - intros x. rewrite Hs. setoid_rewrite elem_of_app. setoid_rewrite list_elem_of_singleton. naive_solver.
Qed.

Definition store_of (n : Node) : spec_store := λ p, leaf_at p n.

(** A resolved entry names a leaf of the tree the batch started from. *)
Definition resolves (n : Node) (e : Setter) (r : batchEntry) : Prop :=
  parsePath (sPath e) = Ok (beNode r) ∧ leaf_at (beNode r) n = Some (beOld r) ∧
  beNew r = sValue e ∧ wf_value (sValue e) ∧
  spec_set (store_of n) (beNode r) (sValue e) = Ok (spec_update (beNode r) (sValue e) (store_of n)).

Lemma lookup_leaf n p :
  match leaf_at p n with
  | Some v => ∃ m, lookup n p = Ok m ∧ leaf m = Some v
  | None => (∃ e, lookup n p = Err e) ∨ ∃ m, lookup n p = Ok m ∧ leaf m = None
  end.
Proof.
  unfold leaf_at. destruct (lookup n p) as [m|e] eqn:E.
  - apply lookup_ok in E. rewrite E. simpl. destruct (leaf m) eqn:El; eauto.
  - assert (node_at p n = None) as -> by (apply lookup_err; eauto). simpl. eauto.
Qed.

Lemma preflight_entry_spec n seen earlier e seen' r :
  seen_matches seen earlier → preflight_entry n seen e = (seen', r) →
  seen_matches seen' (earlier ++ parsed e) ∧
  match r with
  | Err f => efPath f = sPath e ∧ entry_fault (store_of n) earlier e = Some (efCode f)
  | Ok b => entry_fault (store_of n) earlier e = None ∧ resolves n e b
  end.
Proof.
  intros Hs. unfold preflight_entry, entry_fault, parsed, spec_set.
  destruct (parsePath (sPath e)) as [p|er] eqn:Hp; [|intros [= <- <-]; by rewrite app_nil_r].
  pose proof (seen_matches_elem _ _ _ _ Hs Hp) as Hin.
  rewrite (bool_decide_ext _ _ Hin). case_bool_decide as Hd.
  { intros [= <- <-]. split; [by apply seen_matches_dup|done]. }
  intros [= <- <-]. split; [by eapply seen_matches_add|].
  pose proof (lookup_leaf n p) as Hl. unfold resolves, spec_set, store_of.
  destruct (leaf_at p n) as [old|] eqn:Hold.
  2:{ destruct Hl as [[er ->]|(m&->&->)]; done. }
  destruct Hl as (m&->&->).
  destruct (negb (Writable old)) eqn:Hw; [done|].
  destruct (negb (String.eqb _ _)) eqn:Ht; [done|].
  destruct (Validate _ _) as [u|er] eqn:HV.
  - apply Validate_ok in HV. rewrite HV. simpl. split; [done|].
    unfold wf_value. by rewrite Hold, Hw, Ht, HV.
  - assert (valid_raw (vType (sValue e)) (Raw (sValue e)) = false) as ->.
    { unfold valid_raw. by rewrite HV. }
    done.
Qed.

Lemma preflight_loop_spec n seen earlier l faults resolved :
  seen_matches seen earlier → preflight_loop n seen l = (faults, resolved) →
  fault_line <$> faults = batch_faults (store_of n) earlier l ∧
  (faults = [] → Forall2 (resolves n) l resolved ∧
     NoDup (beNode <$> resolved) ∧ (∀ p, p ∈ beNode <$> resolved → p ∉ earlier)).
Proof.
  revert seen earlier faults resolved; induction l as [|e l IH]; intros seen earlier faults resolved Hs.
  { intros [= <- <-]. split; [done|]. intros _. split; [done|]. split; [constructor|].
    by intros p ?%not_elem_of_nil. }
  cbn [preflight_loop batch_faults].
  destruct (preflight_entry n seen e) as [seen' r] eqn:Er.
  destruct (preflight_loop n seen' l) as [fs rs] eqn:El.
  destruct (preflight_entry_spec _ _ _ _ _ _ Hs Er) as [Hs' Hr].
  destruct (IH _ _ _ _ Hs' El) as [Hf Hres]. destruct r as [b|f]; intros [= <- <-].
  - destruct Hr as [-> Hb]. split; [done|]. intros ->.
    destruct (Hres eq_refl) as (H2&HN&Hd). destruct Hb as (Hp&Hb).
    assert (parsed e = [beNode b]) as Hpe by (unfold parsed; by rewrite Hp).
    rewrite Hpe in Hd. split; [constructor; [by split|done]|]. simpl. split.
    + constructor; [|done]. intros Hin. apply (Hd _ Hin). set_solver.
    + intros p [->|Hin]%elem_of_cons; [|intros ?; apply (Hd p Hin); set_solver].
      intros Hin. assert (entry_fault (store_of n) earlier e = Some FailureDuplicatePath) as E.
      { unfold entry_fault. rewrite Hp. by rewrite bool_decide_true. }
      pose proof (preflight_entry_spec _ _ _ _ _ _ Hs Er) as [_ [E' _]]. congruence.
  - destruct Hr as [<- ->]. simpl. split; [by f_equal|done].
Qed.

Lemma seen_matches_empty : seen_matches ∅ [].
Proof. split; [constructor|]. set_solver. Qed.

(** The entry still names a leaf of the tree. *)
Definition names_leaf (n : Node) (r : batchEntry) : Prop := ∃ v, leaf_at (beNode r) n = Some v.

Lemma apply_entry_view n r :
  names_leaf n r →
  ∀ q, leaf_at q (apply_entry n r) = spec_update (beNode r) (beNew r) (store_of n) q.
Proof.
  intros (v&(m&Hm&Hv)%leaf_at_node) q.
  exact (view_set_leaf (MkTree n (MkObservers 0 ∅)) _ _ _ _ Hm Hv q).
Qed.

Lemma names_leaf_step n r r' :
  names_leaf n r → names_leaf n r' → names_leaf (apply_entry n r) r'.
Proof.
  intros Hr [w Hw]. unfold names_leaf. rewrite (apply_entry_view _ _ Hr).
  unfold spec_update, store_of. case_decide; eauto.
Qed.

Lemma resolves_names_leaf n l resolved :
  Forall2 (resolves n) l resolved → Forall (names_leaf n) resolved.
Proof.
  induction 1 as [|e r l rs (_&Hl&_) _ IH]; constructor; [|done]. by eexists.
Qed.

Lemma batch_update_ext l s s' q :
  (∀ q, s q = s' q) → batch_update s l q = batch_update s' l q.
Proof.
  revert s s'. induction l as [|e l IH]; intros s s' H; simpl; [done|].
  apply IH. intros q'. destruct (parsePath _); [|done]. unfold spec_update. by case_decide.
Qed.

(** Applying the entries of a passing batch performs its updates in order. *)
Lemma apply_entries_view n0 l resolved n :
  Forall2 (resolves n0) l resolved → Forall (names_leaf n) resolved →
  ∀ q, leaf_at q (foldl apply_entry n resolved) = batch_update (store_of n) l q.
Proof.
  intros HF. revert n. induction HF as [|e r l rs (Hp&_&Hnew&_) HF IH]; intros n Hex q; [done|].
  inv Hex as [|?? Hr Hrs]. simpl. rewrite Hp, IH.
  - apply batch_update_ext. intros q'. rewrite <-Hnew. by apply apply_entry_view.
  - eapply Forall_impl; [exact Hrs|]. intros. by apply names_leaf_step.
Qed.

Lemma preflight_cases n l :
  let fs := batch_faults (store_of n) [] l in
  (fs = [] ∧ ∃ resolved, preflight n l = Ok resolved ∧ Forall2 (resolves n) l resolved
      ∧ NoDup (beNode <$> resolved)) ∨
  (fs ≠ [] ∧ ∃ e, preflight n l = Err e ∧ fault_line <$> All e = fs ∧
      head fs = Some (sbPath e, sbCode e)).
Proof.
  intros fs. unfold preflight. destruct (preflight_loop n ∅ l) as [faults resolved] eqn:El.
  destruct (preflight_loop_spec _ _ _ _ _ _ seen_matches_empty El) as [Hf Hr].
  fold fs in Hf. rewrite <-Hf. destruct faults as [|f faults].
  - left. split; [done|]. destruct (Hr eq_refl) as (?&?&_). eauto.
  - right. split; [done|]. eexists. split; [done|]. done.
Qed.

Lemma SetBatch_cases t l :
  let fs := batch_faults (view t) [] l in
  (fs = [] ∧ ∃ rs, SetBatch t l = (set_root t (foldl apply_entry (root t) rs), [],
       Ok (match l with [] => None | _ => Some (zip_with batch_result l rs) end)) ∧
     CheckBatch t l = Ok tt ∧ Forall2 (resolves (root t)) l rs ∧ NoDup (beNode <$> rs)) ∨
  (fs ≠ [] ∧ ∃ e, SetBatch t l = (t, [], Err e) ∧ CheckBatch t l = Err e ∧ fault_line <$> All e = fs).
Proof.
  intros fs. unfold SetBatch, CheckBatch.
  destruct (preflight_cases (root t) l) as [(Hf&rs&E&HF&HN)|(Hf&e&E&HA&Hh)]; rewrite E.
  - left. split; [done|]. exists rs. destruct l as [|s l]; [|done].
    inv HF. split_and!; [|done..]. by destruct t.
  - right. split; [done|]. exists e. by destruct l.
Qed.

(** A batch leaves every attribute as it was. *)
Lemma apply_entries_attrs rs n q :
  Forall (names_leaf n) rs →
  attrs_view (MkTree (foldl apply_entry n rs) (MkObservers 0 ∅)) q = attrs_view (MkTree n (MkObservers 0 ∅)) q.
Proof.
  revert n; induction rs as [|r rs IH]; intros n HF; [done|]. inv HF as [|?? Hr Hrs]. cbn [foldl].
  rewrite IH by (eapply Forall_impl; [exact Hrs|]; intros; by apply names_leaf_step).
  destruct Hr as (v&(m&Hm&Hv)%leaf_at_node).
  exact (attrs_at_alter_leaf (set_leaf (beNew r)) _ _ _ _ q Hm Hv eq_refl eq_refl).
Qed.

(** ** Properties *)

(** C6. [SetBatch] is atomic and complete: if any entry is at fault the tree is
    left as it was and the error lists every entry at fault in input order,
    each with the code of the first check it fails, the summary path and code
    being those of the first; if none is, every update is applied in order. *)
Theorem SetBatch_refines (t : Tree) (l : list Setter) :
  let fs := batch_faults (view t) [] l in
  (fs ≠ [] → ∃ e, SetBatch t l = (t, [], Err e) ∧ fault_line <$> All e = fs ∧
                  head fs = Some (sbPath e, sbCode e)) ∧
  (fs = [] → ∃ t' res, SetBatch t l = (t', [], Ok res) ∧ obs t' = obs t ∧
                  (∀ q, view t' q = batch_update (view t) l q)).
Proof.
  intros fs. unfold SetBatch. destruct (preflight_cases (root t) l) as [(Hf&rs&E&HF&HN)|(Hf&e&E&HA&Hh)].
  - split; [by intros []|]. intros _. destruct l as [|s l].
    { exists t, None. done. }
    rewrite E. eexists _, _. split; [done|]. split; [done|]. intros q. unfold view. simpl.
    apply (apply_entries_view (root t) (s :: l)); [done|]. by eapply resolves_names_leaf.
  - split; [|done]. intros _. destruct l as [|s l]; [done|]. rewrite E. eauto.
Qed.

Lemma SetBatch_refines_witness :
  let l := [MkSetter "S" (MkValue TypeString "b" true); MkSetter "Device.Y" (MkValue TypeString "z" true);
            MkSetter "S." (MkValue TypeString "c" true); MkSetter "Device.X" (MkValue TypeInt "x" true)] in
  ∃ e, SetBatch ex_tree l = (ex_tree, [], Err e) ∧
       fault_line <$> All e = [("Device.Y", FailureNotWritable); ("S.", FailureDuplicatePath);
                               ("Device.X", FailureInvalidValue)] ∧
       Some ("Device.Y", FailureNotWritable) = Some (sbPath e, sbCode e).
Proof.
  exact (proj1 (SetBatch_refines ex_tree
    [MkSetter "S" (MkValue TypeString "b" true); MkSetter "Device.Y" (MkValue TypeString "z" true);
     MkSetter "S." (MkValue TypeString "c" true); MkSetter "Device.X" (MkValue TypeInt "x" true)])
    ltac:(vm_compute; discriminate)).
Defined.

(** [CheckBatch] says beforehand what [SetBatch] would do: the same error,
    or no error exactly when the batch would be applied. *)
Theorem CheckBatch_agrees (t : Tree) (l : list Setter) :
  match CheckBatch t l with
  | Err e => SetBatch t l = (t, [], Err e)
  | Ok _ => ∃ t' res, SetBatch t l = (t', [], Ok res)
  end.
Proof.
  unfold CheckBatch, SetBatch. destruct l as [|s l].
  { simpl. eauto. }
  destruct (preflight (root t) (s :: l)); simpl; eauto.
Qed.

(** The results, entry by entry. *)
Definition result_of (s : spec_store) (e : Setter) (r : BatchResult) : Prop :=
  brPath r = sPath e ∧ NewValue r = sValue e ∧
  (∃ p, parsePath (sPath e) = Ok p ∧ s p = Some (OldValue r)) ∧
  (Changed r = true ↔ Raw (OldValue r) ≠ Raw (NewValue r)).

(** The results of an applied batch are one per setter, in input order,
    each with the value the leaf had before the batch, the value written, and
    whether the raw value moved. *)
Theorem SetBatch_results (t t' : Tree) (l : list Setter) (cs : list Change) (res : list BatchResult)
  (H : SetBatch t l = (t', cs, Ok (Some res))) :
  Forall2 (result_of (view t)) l res.
Proof.
  unfold SetBatch in H. destruct l as [|s0 l0]; [done|]. set (l := s0 :: l0) in *.
  destruct (preflight_cases (root t) l) as [(Hf&rs&E&HF&HN)|(Hf&e&E&_)]; rewrite E in H; [|done].
  assert (res = zip_with batch_result l rs) as -> by (by injection H).
  clearbody l. clear E Hf HN H. induction HF as [|s r l' rs' Hr HF IH]; [by constructor|].
  simpl. constructor; [|exact IH]. destruct Hr as (Hp&Hold&Hnew&_).
  split_and!; simpl; [done|done|eauto|].
  by rewrite negb_true_iff, String.eqb_neq.
Qed.

Lemma SetBatch_results_witness :
  let l := [MkSetter "S" (MkValue TypeString "b" true); MkSetter "Device.X." (MkValue TypeInt "1" true)] in
  Forall2 (result_of (view ex_tree)) l
    [MkBatchResult "S" (MkValue TypeString "a" true) (MkValue TypeString "b" true) true;
     MkBatchResult "Device.X." (MkValue TypeInt "1" true) (MkValue TypeInt "1" true) false].
Proof.
  pose (l := [MkSetter "S" (MkValue TypeString "b" true); MkSetter "Device.X." (MkValue TypeInt "1" true)]).
  exact (SetBatch_results ex_tree (SetBatch ex_tree l).1.1 l (SetBatch ex_tree l).1.2
    [MkBatchResult "S" (MkValue TypeString "a" true) (MkValue TypeString "b" true) true;
     MkBatchResult "Device.X." (MkValue TypeInt "1" true) (MkValue TypeInt "1" true) false]
    ltac:(vm_compute; reflexivity)).
Defined.
