(* ===== verification/Objects.v ===== *)
(** * Multi-instance tables ([internal/paramtree/paramtree.go], [AddTable],
    [AddObject], [syncEntryCount], [DeleteObject]). *)
From Stdlib Require Import ZArith Lia Ascii String.
From S2P Require Import Prelude GoLib CpeErr Types Node Tree TreeProps.

(** ** AddTable *)

(** As in [Mount], the walk creates the missing branches. *)
Fixpoint addtable_go (path : string) (segs : list string) (template parent : Node)
  : Node * result error unit :=
  match segs with
  | [] =>
      if isLeaf parent then
        (parent, Err (Wrap "paramtree.AddTable" KindInvalidArgument
                        (Some (errorf "path %q is a leaf" [path]))))
      else match table parent with
           | Some _ => (parent, Err (Wrap "paramtree.AddTable" KindInvalidArgument
                                       (Some (errorf "path %q is already a table" [path]))))
           | None => (set_table template parent, Ok tt)
           end
  | seg :: segs' =>
      if isLeaf parent then
        (parent, Err (Wrap "paramtree.AddTable" KindInvalidArgument
                        (Some (errorf "path %q traverses a leaf" [path]))))
      else
        let child := default NewBranch (children parent !! seg) in
        let '(child', r) := addtable_go path segs' template child in
        (set_children (<[seg := child']> (children parent)) parent, r)
  end.

(** [template = None] is the nil node. *)
Definition AddTable (t : Tree) (parentPath : string) (template : option Node) : outcome unit :=
  match parsePath parentPath with
  | Err e => (t, [], Err e)
  | Ok [] => (t, [], Err (Wrap "paramtree.AddTable" KindInvalidArgument
                            (Some (errorf "cannot mark root as a table" []))))
  | Ok segments =>
      match template with
      | None => (t, [], Err (Wrap "paramtree.AddTable" KindInvalidArgument
                               (Some (errorf "template is nil" []))))
      | Some tmpl =>
          let '(r', res) := addtable_go parentPath segments tmpl (root t) in
          (set_root t r', [], res)
      end
  end.

(** ** Instance numbers *)

(** [if i, err := strconv.Atoi(k); err == nil && i > 0] *)
Definition instance_of (k : string) : option Z :=
  match Strconv.Atoi k with
  | Ok i => if (0 <? i)%Z then Some i else None
  | Err _ => None
  end.

Definition keys (m : gmap string Node) : list string := (map_to_list m).*1.

Definition used_instances (ch : gmap string Node) : gset Z :=
  list_to_set (omap instance_of (keys ch)).

(** [for { if _, taken := used[instance]; !taken { break }; instance++ }]: a
    set of [n] numbers cannot hold [n + 1] consecutive ones, so [n + 1] rounds
    are enough ([first_free_spec]). *)
Fixpoint first_free_go (fuel : nat) (used : gset Z) (instance : Z) : option Z :=
  match fuel with
  | O => None
  | S fuel' =>
      if bool_decide (instance ∈ used) then first_free_go fuel' used (instance + 1)%Z
      else Some instance
  end.
Definition first_free (used : gset Z) : option Z := first_free_go (S (size used)) used 1%Z.

Definition count_instances (ch : gmap string Node) : Z :=
  Z.of_nat (length (omap instance_of (keys ch))).

(** ** syncEntryCount *)

Definition counter_name (last : string) : string := last +:+ "NumberOfEntries".

(** [tbl] is the table node as it stands after the mutation. *)
Definition syncEntryCount (hasObs : bool) (r : Node) (tableSegs : list string) (tbl : Node)
  : Node * option Change :=
  match tableSegs with
  | [] => (r, None)
  | s :: rest =>
      let '(init, last) := split_last s rest in
      match lookup r init with
      | Err _ => (r, None)
      | Ok parent =>
          let name := counter_name last in
          match children parent !! name with
          | None => (r, None)
          | Some c =>
              match leaf c with
              | None => (r, None)
              | Some old =>
                  let raw := Strconv.Itoa (count_instances (children tbl)) in
                  if String.eqb (Raw old) raw then (r, None)
                  else
                    let new := with_raw raw old in
                    let r' := alter_at (set_leaf new) (init ++ [name]) r in
                    let path := joinPath init in
                    let path := if String.eqb path "" then "" else (path +:+ ".") in
                    (r', if hasObs then Some (MkChange (path +:+ name) old new ChangeValue)
                         else None)
              end
          end
      end
  end.

(** ** AddObject *)

(** The result is the instance number; the last case is the loop running out
    of rounds, which [first_free_spec] rules out. *)
Definition AddObject (t : Tree) (parentPath : string) : outcome Z :=
  match parsePath parentPath with
  | Err e => (t, [], Err e)
  | Ok segments =>
      match lookup (root t) segments with
      | Err e => (t, [], Err (Wrap "paramtree.AddObject" KindNotFound (Some e)))
      | Ok n =>
          match table n with
          | None => (t, [], Err (Wrap "paramtree.AddObject" KindInvalidArgument
                                   (Some (errorf "path %q is not a table" [parentPath]))))
          | Some template =>
              match first_free (used_instances (children n)) with
              | Some instance =>
                  let key := Strconv.Itoa instance in
                  let n' := set_children (<[key := clone template]> (children n)) n in
                  let r1 := alter_at (λ _, n') segments (root t) in
                  let '(r2, counter) := syncEntryCount (hasObservers t) r1 segments n' in
                  (set_root t r2,
                   (if hasObservers t
                    then [MkChange (Strings.TrimSuffix parentPath "." +:+ ("." +:+ (key +:+ ".")))
                            Value_zero Value_zero ChangeObjectCreated]
                    else []) ++ option_list counter,
                   Ok instance)
              | None => (t, [], Err (errorf "instance numbers exhausted" []))
              end
          end
      end
  end.

(** ** DeleteObject *)

Definition DeleteObject (t : Tree) (path : string) : outcome unit :=
  match parsePath path with
  | Err e => (t, [], Err e)
  | Ok [] => (t, [], Err (Wrap "paramtree.DeleteObject" KindInvalidArgument
                            (Some (errorf "cannot delete root" []))))
  | Ok (s :: rest) =>
      let '(parentSegs, last) := split_last s rest in
      match instance_of last with
      | None => (t, [], Err (Wrap "paramtree.DeleteObject" KindInvalidArgument
                   (Some (errorf "path %q does not name a table instance (last segment must be a positive integer)" [path]))))
      | Some _ =>
          match lookup (root t) parentSegs with
          | Err e => (t, [], Err (Wrap "paramtree.DeleteObject" KindNotFound (Some e)))
          | Ok parent =>
              match table parent with
              | None => (t, [], Err (Wrap "paramtree.DeleteObject" KindInvalidArgument
                           (Some (errorf "path %q does not name a table instance (parent is not a table)" [path]))))
              | Some _ =>
                  match children parent !! last with
                  | None => (t, [], Err (Wrap "paramtree.DeleteObject" KindNotFound
                               (Some (errorf "instance %s of %s not found" [last; joinPath parentSegs]))))
                  | Some _ =>
                      let parent' := set_children (delete last (children parent)) parent in
                      let r1 := alter_at (λ _, parent') parentSegs (root t) in
                      let '(r2, counter) := syncEntryCount (hasObservers t) r1 parentSegs parent' in
                      (set_root t r2,
                       (if hasObservers t
                        then [MkChange path Value_zero Value_zero ChangeObjectDeleted] else [])
                       ++ option_list counter,
                       Ok tt)
                  end
              end
          end
      end
  end.

(** ** The instance-number loop *)

Lemma first_free_go_spec fuel used i r :
  first_free_go fuel used i = Some r →
  (i ≤ r)%Z ∧ r ∉ used ∧ (∀ j, (i ≤ j < r)%Z → j ∈ used).
Proof.
  revert i; induction fuel as [|fuel IH]; intros i; simpl; [done|].
  case_bool_decide as Hi.
  - intros (?&?&H)%IH. split; [lia|]. split; [done|]. intros j ?.
    destruct (decide (j = i)) as [->|]; [done|]. apply H. lia.
  - intros [= <-]. split; [lia|]. split; [done|]. lia.
Qed.

Lemma first_free_go_total fuel used i :
  first_free_go fuel used i = None →
  ∀ j, (i ≤ j < i + Z.of_nat fuel)%Z → j ∈ used.
Proof.
  revert i; induction fuel as [|fuel IH]; intros i; simpl; [lia|].
  case_bool_decide as Hi; [|done]. intros H j Hj.
  destruct (decide (j = i)) as [->|]; [done|]. eapply IH; [done|]. lia.
Qed.

(** [n + 1] consecutive numbers do not fit in a set of [n]. *)
Lemma first_free_some used : ∃ r, first_free used = Some r.
Proof.
  unfold first_free. destruct (first_free_go (S (size used)) used 1) as [r|] eqn:E; [eauto|].
  exfalso. pose proof (first_free_go_total _ _ _ E) as H.
  assert (list_to_set (seqZ 1 (Z.of_nat (S (size used)))) ⊆ used) as Hsub.
  { intros j. rewrite elem_of_list_to_set, elem_of_seqZ. apply H. }
  apply subseteq_size in Hsub. rewrite size_list_to_set in Hsub by apply NoDup_seqZ.
  rewrite length_seqZ in Hsub. lia.
Qed.

Lemma first_free_le used : ∀ r, first_free used = Some r → (r ≤ Z.of_nat (size used) + 1)%Z.
Proof.
  intros r H. destruct (decide (r ≤ Z.of_nat (size used) + 1)%Z); [done|exfalso].
  apply first_free_go_spec in H as (_&_&H).
  assert (list_to_set (seqZ 1 (Z.of_nat (S (size used)))) ⊆ used) as Hsub.
  { intros j. rewrite elem_of_list_to_set, elem_of_seqZ. intros. apply H. lia. }
  apply subseteq_size in Hsub. rewrite size_list_to_set in Hsub by apply NoDup_seqZ.
  rewrite length_seqZ in Hsub. lia.
Qed.

Lemma first_free_spec used : ∃ r,
  first_free used = Some r ∧ (1 ≤ r ≤ Z.of_nat (size used) + 1)%Z ∧ r ∉ used ∧
  ∀ j, (1 ≤ j < r)%Z → j ∈ used.
Proof.
  destruct (first_free_some used) as [r Hr]. exists r.
  pose proof (first_free_le _ _ Hr). apply first_free_go_spec in Hr as ?. naive_solver.
Qed.

(** ** Instance keys *)

Lemma elem_of_keys (m : gmap string Node) k : k ∈ keys m ↔ is_Some (m !! k).
Proof.
  unfold keys. rewrite list_elem_of_fmap. split.
  - intros ([k' c]&->&H%elem_of_map_to_list). simpl. eauto.
  - intros [c H]. exists (k, c). split; [done|]. by apply elem_of_map_to_list.
Qed.

Lemma NoDup_keys (m : gmap string Node) : NoDup (keys m).
Proof. apply NoDup_fst_map_to_list. Qed.

Lemma length_keys (m : gmap string Node) : length (keys m) = size m.
Proof. unfold keys. rewrite length_fmap. apply length_map_to_list. Qed.

Lemma elem_of_used_instances ch i :
  i ∈ used_instances ch ↔ ∃ k, is_Some (ch !! k) ∧ instance_of k = Some i.
Proof.
  unfold used_instances. rewrite elem_of_list_to_set, list_elem_of_omap.
  setoid_rewrite elem_of_keys. done.
Qed.

Lemma size_list_to_set_le (l : list Z) : (size (list_to_set l : gset Z) ≤ length l)%nat.
Proof.
  induction l as [|x l IH]; cbn [list_to_set length]; [done|].
  rewrite size_union_alt, size_singleton.
  assert ((list_to_set l : gset Z) ∖ {[x]} ⊆ list_to_set l) as H by set_solver.
  apply subseteq_size in H. lia.
Qed.

Lemma size_used_instances ch : (size (used_instances ch) ≤ size ch)%nat.
Proof.
  unfold used_instances. rewrite size_list_to_set_le, <-length_keys. apply length_omap_le.
Qed.

Lemma instance_of_Itoa i : (0 < i < 2 ^ 63)%Z → instance_of (Strconv.Itoa i) = Some i.
Proof.
  intros Hi. unfold instance_of. rewrite Strconv.Atoi_Itoa by lia.
  by destruct (Z.ltb_spec 0 i); [|lia].
Qed.

Lemma instance_of_pos k i : instance_of k = Some i → (0 < i < 2 ^ 63)%Z.
Proof.
  unfold instance_of, Strconv.Atoi. destruct (Strconv.ParseInt k 64) as [j|] eqn:E; [|done].
  apply Strconv.ParseInt_range in E; [|lia]. destruct (Z.ltb_spec 0 j); [|done].
  intros [= <-]. lia.
Qed.

Lemma keys_insert (m : gmap string Node) k c :
  m !! k = None → keys (<[k := c]> m) ≡ₚ k :: keys m.
Proof. intros H. unfold keys. by rewrite map_to_list_insert. Qed.

Lemma keys_delete (m : gmap string Node) k c :
  m !! k = Some c → keys m ≡ₚ k :: keys (delete k m).
Proof.
  intros H. rewrite <-(insert_delete_id _ _ _ H) at 1.
  rewrite keys_insert; [done|apply lookup_delete_eq].
Qed.

#[export] Instance count_Permutation_proper :
  Proper ((≡ₚ) ==> (=)) (λ l : list string, length (omap instance_of l)).
Proof. intros l1 l2 H. by rewrite H. Qed.

Lemma length_omap_instance k l i :
  instance_of k = Some i →
  length (omap instance_of (k :: l)) = S (length (omap instance_of l)).
Proof. intros H. cbn. by rewrite H. Qed.

Lemma count_insert ch k c i :
  ch !! k = None → instance_of k = Some i →
  count_instances (<[k := c]> ch) = (count_instances ch + 1)%Z.
Proof.
  intros H Hi. unfold count_instances. rewrite (keys_insert _ _ _ H), (length_omap_instance _ _ _ Hi). lia.
Qed.

Lemma count_delete ch k c i :
  ch !! k = Some c → instance_of k = Some i →
  count_instances (delete k ch) = (count_instances ch - 1)%Z.
Proof.
  intros H Hi. unfold count_instances. rewrite (keys_delete _ _ _ H), (length_omap_instance _ _ _ Hi). lia.
Qed.

Lemma count_instances_bound ch : (0 ≤ count_instances ch ≤ Z.of_nat (size ch))%Z.
Proof.
  unfold count_instances. rewrite <-length_keys.
  pose proof (length_omap_le instance_of (keys ch)). lia.
Qed.

(** The number [AddObject] picks: the smallest unused positive one, which is
    the key of no child. *)
Lemma next_instance ch :
  (Z.of_nat (size ch) + 1 < 2 ^ 63)%Z →
  ∃ i, first_free (used_instances ch) = Some i ∧ (1 ≤ i < 2 ^ 63)%Z ∧
    ch !! Strconv.Itoa i = None ∧
    (∀ k c, ch !! k = Some c → instance_of k ≠ Some i) ∧
    (∀ j, (1 ≤ j < i)%Z → ∃ k, is_Some (ch !! k) ∧ instance_of k = Some j).
Proof.
  intros Hsz. destruct (first_free_spec (used_instances ch)) as (i&Hi&Hr&Hn&Hl).
  pose proof (size_used_instances ch). exists i.
  split; [done|]. split; [lia|].
  assert (∀ k c, ch !! k = Some c → instance_of k ≠ Some i) as Hno.
  { intros k c Hk E. apply Hn, elem_of_used_instances. eauto. }
  split; [|split; [done|]].
  - apply eq_None_not_Some. intros [c Hc]. apply (Hno _ _ Hc), instance_of_Itoa. lia.
  - intros j Hj. by apply elem_of_used_instances, Hl.
Qed.

(** ** Where the counter lives *)

Definition counter_path (p : list string) : option (list string) :=
  match p with
  | [] => None
  | s :: rest => let '(init, last) := split_last s rest in Some (init ++ [counter_name last])
  end.

Lemma counter_path_snoc init last : counter_path (init ++ [last]) = Some (init ++ [counter_name last]).
Proof.
  destruct (init ++ [last]) as [|s rest] eqn:E; [by destruct init|]. simpl.
  by rewrite (split_last_snoc init last s rest).
Qed.

Lemma counter_name_ne s : counter_name s ≠ s.
Proof.
  unfold counter_name. intros E. apply (f_equal String.length) in E.
  rewrite str_length_app in E. simpl in E. lia.
Qed.

(** The counter is a sibling: neither above nor below the table. *)
Lemma counter_path_disjoint p q c :
  counter_path p = Some c → ¬ c `prefix_of` (p ++ q) ∧ ¬ (p ++ q) `prefix_of` c.
Proof.
  destruct p as [|x p _] using rev_ind; [done|]. rewrite counter_path_snoc. intros [= <-].
  rewrite <-(assoc_L (++)). simpl. split.
  - intros H%prefix_app_inv. apply prefix_cons_inv_1 in H. by apply counter_name_ne in H.
  - intros H%prefix_app_inv. apply prefix_cons_inv_1 in H. by apply (counter_name_ne x).
Qed.

Lemma syncEntryCount_cases h r segs n tbl :
  Forall (λ s, valid_segment s = true) segs → node_at segs r = Some n →
  let raw := Strconv.Itoa (count_instances (children tbl)) in
  (syncEntryCount h r segs tbl = (r, None) ∧
   ∀ c old, counter_path segs = Some c → leaf_at c r = Some old → Raw old = raw) ∨
  ∃ c m old, counter_path segs = Some c ∧ node_at c r = Some m ∧ leaf m = Some old ∧ Raw old ≠ raw ∧
    syncEntryCount h r segs tbl =
      (alter_at (set_leaf (with_raw raw old)) c r,
       if h then Some (MkChange (joinPath c) old (with_raw raw old) ChangeValue) else None).
Proof.
  intros Hv Hn raw. destruct segs as [|x segs _] using rev_ind; [left; split; done|].
  rewrite counter_path_snoc. unfold syncEntryCount. fold raw.
  apply Forall_app in Hv as [Hv _]. rewrite node_at_app in Hn.
  apply bind_Some in Hn as (parent&Hp&Hx). simpl in Hx.
  destruct (segs ++ [x]) as [|s rest] eqn:E; [by destruct segs|].
  rewrite (split_last_snoc segs x s rest) by done. clear E s rest.
  rewrite (proj2 (lookup_ok _ _ _) Hp).
  destruct (isLeaf parent) eqn:Hlp; [done|]. clear Hx.
  assert (∀ m, node_at (segs ++ [counter_name x]) r = Some m ↔ children parent !! counter_name x = Some m) as Hnode.
  { intros m. rewrite node_at_app, Hp. simpl. rewrite Hlp.
    destruct (children parent !! counter_name x); simpl; done. }
  destruct (children parent !! counter_name x) as [c|] eqn:Ec.
  2:{ left. split; [done|]. intros ? old [= <-] (m&Hm&_)%leaf_at_node. by apply Hnode in Hm. }
  destruct (leaf c) as [old|] eqn:Elf.
  2:{ left. split; [done|]. intros ? old [= <-] (m&Hm&?)%leaf_at_node. apply Hnode in Hm. congruence. }
  destruct (String.eqb_spec (Raw old) raw) as [Heq|Hne].
  { left. split; [done|]. intros ? old' [= <-] (m&Hm&?)%leaf_at_node. apply Hnode in Hm. congruence. }
  right. exists (segs ++ [counter_name x]), c, old. split_and!; [done|by apply Hnode|done|done|].
  do 4 f_equal. unfold joinPath. destruct segs as [|s segs]; [done|].
  rewrite Strings.Join_app by done.
  destruct (String.eqb_spec (Strings.Join (s :: segs) ".") "") as [E|_]; [by apply joinPath_ne in E|].
  by rewrite !str_app_assoc.
Qed.
