(* ===== verification/ObjectsProps.v ===== *)
(** * Properties of mounting and of multi-instance tables. *)
From Stdlib Require Import ZArith Lia Ascii String.
From S2P Require Import Prelude GoLib CpeErr Types Node Tree TreeProps Objects.

(** ** Replacing one child of an interior node *)

(** What an operation on the children of a node asks of it: whether it is a
    leaf, and its table. *)
Definition kind_at (q : list string) (n : Node) : option (bool * option Node) :=
  (λ m, (isLeaf m, table m)) <$> node_at q n.

Section replace.
Context (r n : Node) (p : list string) (ch' : gmap string Node).
Context (Hn : node_at p r = Some n) (Hl : isLeaf n = false).
Let r1 : Node := alter_at (λ _, set_children ch' n) p r.

Lemma replace_at : node_at p r1 = Some (set_children ch' n).
Proof. unfold r1. by rewrite (node_at_alter_same _ _ _ n). Qed.

Lemma replace_below k q : node_at (p ++ k :: q) r1 = c ← ch' !! k; node_at q c.
Proof.
  unfold r1. rewrite (node_at_alter_below _ _ _ _ n) by done. simpl.
  unfold isLeaf in *. simpl. by destruct (leaf n).
Qed.

Lemma replace_below_leaf k q : leaf_at (p ++ k :: q) r1 = c ← ch' !! k; leaf_at q c.
Proof. unfold leaf_at. rewrite replace_below. by destruct (ch' !! k). Qed.

Lemma orig_below k q : node_at (p ++ k :: q) r = c ← children n !! k; node_at q c.
Proof. rewrite node_at_app, Hn. simpl. by rewrite Hl. Qed.

(** Outside the child that changed, every leaf is where it was. *)
Lemma replace_frame k0 q :
  (∀ k, k ≠ k0 → ch' !! k = children n !! k) →
  ¬ (p ++ [k0]) `prefix_of` q → leaf_at q r1 = leaf_at q r.
Proof.
  intros Hch Hq. destruct (decide (p `prefix_of` q)) as [[s ->]|Hp].
  - destruct s as [|k s].
    + rewrite app_nil_r. unfold leaf_at. rewrite replace_at, Hn. done.
    + rewrite replace_below_leaf. unfold leaf_at at 2. rewrite orig_below.
      rewrite Hch; [by destruct (children n !! k)|]. intros ->. apply Hq.
      exists s. by rewrite <-(assoc_L (++)).
  - destruct (decide (q `prefix_of` p)) as [[s ->]|Hqp].
    + unfold r1, leaf_at.
      destruct (node_at_alter_above (λ _, set_children ch' n) q s r n Hn) as (c&Hc&->).
      rewrite Hc. simpl. destruct s as [|x s]; [|done].
      by rewrite app_nil_r in Hp; destruct Hp.
    + unfold r1, leaf_at. by rewrite node_at_alter_disjoint.
Qed.

(** Nor does any other object change its nature or its table. *)
Lemma replace_kind k0 q :
  (∀ k, k ≠ k0 → ch' !! k = children n !! k) →
  ¬ (p ++ [k0]) `prefix_of` q → kind_at q r1 = kind_at q r.
Proof.
  intros Hch Hq. unfold kind_at. destruct (decide (p `prefix_of` q)) as [[[|k s] ->]|Hp].
  - rewrite app_nil_r, replace_at, Hn. done.
  - rewrite replace_below, orig_below, Hch; [done|]. intros ->. apply Hq.
    exists s. by rewrite <-(assoc_L (++)).
  - destruct (decide (q `prefix_of` p)) as [[s ->]|Hqp].
    + unfold r1.
      destruct (node_at_alter_above (λ _, set_children ch' n) q s r n Hn) as (c&Hc&->).
      rewrite Hc. destruct s as [|x s]; [by destruct Hp; rewrite app_nil_r|done].
    + unfold r1. by rewrite node_at_alter_disjoint.
Qed.

(** Off the branch of that child, not even a node changes. *)
Lemma replace_node k0 q :
  (∀ k, k ≠ k0 → ch' !! k = children n !! k) →
  ¬ (p ++ [k0]) `prefix_of` q → ¬ q `prefix_of` (p ++ [k0]) → node_at q r1 = node_at q r.
Proof.
  intros Hch Hq Hq'.
  assert (¬ q `prefix_of` p) as Hqp.
  { intros Hp. apply Hq'. etrans; [done|]. by exists [k0]. }
  destruct (decide (p `prefix_of` q)) as [[[|k s] ->]|Hp].
  - by rewrite app_nil_r in Hqp.
  - rewrite replace_below, orig_below, Hch; [done|]. intros ->. apply Hq.
    exists s. by rewrite <-(assoc_L (++)).
  - unfold r1. by rewrite node_at_alter_disjoint.
Qed.

Lemma replace_wf :
  wf_node r → (∀ k c, ch' !! k = Some c → valid_segment k = true ∧ wf_node c) → wf_node r1.
Proof.
  intros Hw Hch. eapply wf_alter_at; [done..|]. intros Hwn. by apply wf_set_children.
Qed.
End replace.

Lemma wf_table_not_leaf n t : wf_node n → table n = Some t → isLeaf n = false.
Proof.
  intros (_&Hl&_)%wf_node_inv Ht. apply isLeaf_false.
  destruct (leaf n) as [v|]; [|done]. destruct (Hl v eq_refl) as (_&_&?). congruence.
Qed.

(** ** The counter *)

(** [v] as it stands after the table was recounted to [count]: the counter of
    table [p] is rewritten, everything else keeps its value. *)
Definition recounted (p : list string) (count : Z) (s : spec_store) : spec_store := λ q,
  if decide (counter_path p = Some q) then with_raw (Strconv.Itoa count) <$> s q else s q.

Lemma sync_view h r segs n tbl r2 oc :
  Forall (λ s, valid_segment s = true) segs → node_at segs r = Some n →
  syncEntryCount h r segs tbl = (r2, oc) →
  ∀ q, leaf_at q r2 = recounted segs (count_instances (children tbl)) (λ q, leaf_at q r) q.
Proof.
  intros Hv Hn Hs q. unfold recounted.
  destruct (syncEntryCount_cases h r segs n tbl Hv Hn) as [[E H]|(c&m&old&Hc&Hm&Hl&Hne&E)];
    rewrite E in Hs; injection Hs as <- <-.
  - case_decide as Hq; [|done]. destruct (leaf_at q r) as [old|] eqn:Ho; [|done].
    simpl. specialize (H _ _ Hq Ho). destruct old. simpl in *. by subst.
  - case_decide as Hq.
    + assert (q = c) as -> by congruence. unfold leaf_at.
      rewrite (node_at_alter_same _ _ _ m), Hm by done. simpl. by rewrite Hl.
    + eapply leaf_at_alter_leaf; [done..|]. congruence.
Qed.

(** The table itself and all below it are out of the counter's way. *)
Lemma sync_table h r segs n tbl r2 oc q :
  Forall (λ s, valid_segment s = true) segs → node_at segs r = Some n →
  syncEntryCount h r segs tbl = (r2, oc) → node_at (segs ++ q) r2 = node_at (segs ++ q) r.
Proof.
  intros Hv Hn Hs.
  destruct (syncEntryCount_cases h r segs n tbl Hv Hn) as [[E H]|(c&m&old&Hc&Hm&Hl&Hne&E)];
    rewrite E in Hs; injection Hs as <- <-; [done|].
  destruct (counter_path_disjoint segs q c Hc). by apply node_at_alter_disjoint.
Qed.

(** The type of the counter leaf, when there is one, can hold a count. *)
Definition counter_ok (r : Node) (p : list string) : Prop :=
  ∀ c v, counter_path p = Some c → leaf_at c r = Some v → counter_type (vType v) = true.

Lemma sync_wf h r segs n tbl r2 oc :
  Forall (λ s, valid_segment s = true) segs → node_at segs r = Some n →
  syncEntryCount h r segs tbl = (r2, oc) → wf_node r → counter_ok r segs →
  (count_instances (children tbl) < 2 ^ 31)%Z → wf_node r2.
Proof.
  intros Hv Hn Hs Hw Hok Hc.
  destruct (syncEntryCount_cases h r segs n tbl Hv Hn) as [[E H]|(c&m&old&Hcp&Hm&Hl&Hne&E)];
    rewrite E in Hs; injection Hs as <- <-; [done|].
  eapply wf_alter_at; [done..|]. intros Hwm. apply wf_set_leaf; [done|apply isLeaf_true; eauto|].
  apply counter_valid; [|pose proof (count_instances_bound (children tbl)); lia].
  apply (Hok c old); [done|]. apply leaf_at_node. by exists m.
Qed.

(** The change a recount owes its observers. *)
Definition counter_change (t : Tree) (p : list string) (count : Z) : list Change :=
  match counter_path p with
  | None => []
  | Some c => match view t c with
              | None => []
              | Some old => value_change t (joinPath c) old (with_raw (Strconv.Itoa count) old)
              end
  end.

Lemma sync_change t segs n tbl r1 r2 oc :
  Forall (λ s, valid_segment s = true) segs → node_at segs r1 = Some n →
  syncEntryCount (hasObservers t) r1 segs tbl = (r2, oc) →
  (∀ c, counter_path segs = Some c → leaf_at c r1 = view t c) →
  option_list oc = counter_change t segs (count_instances (children tbl)).
Proof.
  intros Hv Hn Hs Hsame. unfold counter_change, value_change.
  destruct (syncEntryCount_cases (hasObservers t) r1 segs n tbl Hv Hn) as [[E H]|(c&m&old&Hcp&Hm&Hl&Hne&E)];
    rewrite E in Hs; injection Hs as <- <-.
  - destruct (counter_path segs) as [c|] eqn:Hcp; [|done]. rewrite <-(Hsame c) by done.
    destruct (leaf_at c r1) as [old|] eqn:Ho; [|done].
    rewrite (H c old), String.eqb_refl, andb_false_r by done. done.
  - rewrite Hcp, <-(Hsame c) by done. unfold leaf_at. rewrite Hm. simpl. rewrite Hl. simpl.
    rewrite (proj2 (String.eqb_neq _ _) Hne), andb_true_r. by destruct (hasObservers t).
Qed.

(** ** AddObject *)

Definition created_change (t : Tree) (path : string) (i : Z) : list Change :=
  if hasObservers t
  then [MkChange (Strings.TrimSuffix path "." +:+ ("." +:+ (Strconv.Itoa i +:+ ".")))
          Value_zero Value_zero ChangeObjectCreated]
  else [].

(** [i] is the smallest positive number no instance of [ch] carries. *)
Definition smallest_unused (ch : gmap string Node) (i : Z) : Prop :=
  (1 ≤ i)%Z ∧ (∀ k c, ch !! k = Some c → instance_of k ≠ Some i) ∧
  (∀ j, (1 ≤ j < i)%Z → ∃ k, is_Some (ch !! k) ∧ instance_of k = Some j).

Lemma AddObject_ok_form t path p n tmpl :
  wf_tree t → parsePath path = Ok p → node_at p (root t) = Some n → table n = Some tmpl →
  (Z.of_nat (size (children n)) + 1 < 2 ^ 63)%Z →
  ∃ i r2 oc,
    smallest_unused (children n) i ∧ (i < 2 ^ 63)%Z ∧ children n !! Strconv.Itoa i = None ∧
    let ch' := <[Strconv.Itoa i := tmpl]> (children n) in
    let n' := set_children ch' n in
    syncEntryCount (hasObservers t) (alter_at (λ _, n') p (root t)) p n' = (r2, oc) ∧
    AddObject t path = (set_root t r2, created_change t path i ++ option_list oc, Ok i).
Proof.
  intros Hw Hp Hn Ht Hsz. destruct (next_instance _ Hsz) as (i&Hf&Hi&Hno&Hinst&Hlow).
  exists i. unfold AddObject. rewrite Hp, (proj2 (lookup_ok _ _ _) Hn), Ht, Hf, clone_id. simpl.
  destruct (syncEntryCount _ _ _ _) as [r2 oc] eqn:E. exists r2, oc.
  split_and!; try done; unfold smallest_unused; naive_solver lia.
Qed.

Lemma AddObject_frame (t : Tree) (path : string) (p : list string) (n tmpl : Node)
  (Hw : wf_tree t) (Hp : parsePath path = Ok p) (Hn : node_at p (root t) = Some n)
  (Ht : table n = Some tmpl) (Hsz : (Z.of_nat (size (children n)) + 1 < 2 ^ 63)%Z) :
  let count := (count_instances (children n) + 1)%Z in
  ∃ i t', AddObject t path = (t', created_change t path i ++ counter_change t p count, Ok i) ∧
    smallest_unused (children n) i ∧
    node_at (p ++ [Strconv.Itoa i]) (root t) = None ∧
    node_at (p ++ [Strconv.Itoa i]) (root t') = Some tmpl ∧
    (∀ q, ¬ (p ++ [Strconv.Itoa i]) `prefix_of` q → view t' q = recounted p count (view t) q) ∧
    node_at p (root t') = Some (set_children (<[Strconv.Itoa i := tmpl]> (children n)) n).
Proof.
  destruct (AddObject_ok_form t path p n tmpl) as (i&r2&oc&Hsm&Hi&Hno&Hs&E); try done. simpl in *.
  pose proof (wf_table_not_leaf n tmpl (wf_node_at _ _ _ Hw Hn) Ht) as Hl.
  pose proof (parsePath_segments _ _ Hp) as Hv.
  set (ch' := <[Strconv.Itoa i := tmpl]> (children n)) in *.
  pose proof (replace_at (root t) n p ch' Hn) as Hat.
  assert (∀ k, k ≠ Strconv.Itoa i → ch' !! k = children n !! k) as Hch.
  { intros k Hk. unfold ch'. by rewrite lookup_insert_ne. }
  assert (count_instances ch' = (count_instances (children n) + 1)%Z) as Hcount.
  { eapply count_insert; [done|]. apply instance_of_Itoa. unfold smallest_unused in Hsm. lia. }
  exists i, (set_root t r2). split_and!; [|done|..].
  - rewrite E. do 3 f_equal. rewrite (sync_change _ _ _ _ _ _ _ Hv Hat Hs); simpl; [by rewrite Hcount|].
    intros c Hc. apply (replace_frame _ _ _ _ Hn Hl (Strconv.Itoa i)); [done|].
    by destruct (counter_path_disjoint p [Strconv.Itoa i] c Hc).
  - rewrite (orig_below _ _ _ Hn Hl). by rewrite Hno.
  - simpl. rewrite (sync_table _ _ _ _ _ _ _ _ Hv Hat Hs), (replace_below _ _ _ _ Hn Hl).
    unfold ch'. by rewrite lookup_insert_eq.
  - intros q Hq. unfold view at 1. simpl. rewrite (sync_view _ _ _ _ _ _ _ Hv Hat Hs). simpl.
    rewrite Hcount. unfold recounted.
    by rewrite (replace_frame _ _ _ _ Hn Hl (Strconv.Itoa i) q Hch Hq).
  - pose proof (sync_table _ _ _ _ _ _ _ [] Hv Hat Hs) as H. rewrite !app_nil_r in H. simpl. by rewrite H.
Qed.

(** On a table, [AddObject] succeeds with the smallest unused positive
    instance number; the new instance is the template, nothing that existed
    moves but the table's counter, which reads the new count; observers see
    the creation and then the counter. *)
Theorem AddObject_adds (t : Tree) (path : string) (p : list string) (n tmpl : Node)
  (Hw : wf_tree t) (Hp : parsePath path = Ok p) (Hn : node_at p (root t) = Some n)
  (Ht : table n = Some tmpl) (Hsz : (Z.of_nat (size (children n)) + 1 < 2 ^ 63)%Z) :
  let count := (count_instances (children n) + 1)%Z in
  ∃ i t', AddObject t path = (t', created_change t path i ++ counter_change t p count, Ok i) ∧
    smallest_unused (children n) i ∧
    node_at (p ++ [Strconv.Itoa i]) (root t) = None ∧
    node_at (p ++ [Strconv.Itoa i]) (root t') = Some tmpl ∧
    (∀ q, ¬ (p ++ [Strconv.Itoa i]) `prefix_of` q → view t' q = recounted p count (view t) q).
Proof.
  destruct (AddObject_frame t path p n tmpl Hw Hp Hn Ht Hsz) as (i&t'&?&?&?&?&?&_). by exists i, t'.
Qed.

(** A table of two instances, 1 and 3, with its counter, and one observer. *)
Definition ex_table : Tree :=
  MkTree
    (MkNode
       {["Hosts" :=
           MkNode (<["HostNumberOfEntries" := NewLeaf (MkValue TypeUnsignedInt "2" false)]>
                   {["Host" := MkNode (<["1" := NewBranch]> {["3" := NewBranch]}) None None
                                 (Some (MkNode {["Name" := NewLeaf (MkValue TypeString "" true)]}
                                          None None None))]}) None None None]}
       None None None)
    (MkObservers 1 {[0]}).

Lemma ex_table_wf : wf_tree ex_table.
Proof. apply wf_nodeb_sound. vm_compute. reflexivity. Qed.

Lemma AddObject_adds_witness :
  ∃ n tmpl i t',
    AddObject ex_table "Hosts.Host." =
      (t', created_change ex_table "Hosts.Host." i
             ++ counter_change ex_table ["Hosts"; "Host"] 3, Ok i) ∧
    smallest_unused (children n) i ∧ node_at ["Hosts"; "Host"; Strconv.Itoa i] (root t') = Some tmpl.
Proof.
  pose (p := ["Hosts"; "Host"]).
  pose (n := default NewBranch (node_at p (root ex_table))).
  pose (tmpl := default NewBranch (table n)).
  destruct (AddObject_adds ex_table "Hosts.Host." p n tmpl ex_table_wf
    ltac:(vm_compute; reflexivity) ltac:(vm_compute; reflexivity) ltac:(vm_compute; reflexivity)
    ltac:(vm_compute; reflexivity)) as (i&t'&E&Hs&_&H&_).
  exists n, tmpl, i, t'. split; [exact E|]. split; [exact Hs|exact H].
Defined.

(** ** DeleteObject *)

(** The checks [DeleteObject] makes, in order, and the kind each reports. *)
Definition delete_fault (r : Node) (segs : list string) : option Kind :=
  match segs with
  | [] => Some KindInvalidArgument
  | s :: rest =>
      let '(p, k) := split_last s rest in
      match instance_of k, node_at p r with
      | None, _ => Some KindInvalidArgument
      | Some _, None => Some KindNotFound
      | Some _, Some n =>
          match table n, children n !! k with
          | None, _ => Some KindInvalidArgument
          | Some _, None => Some KindNotFound
          | Some _, Some _ => None
          end
      end
  end.

(** [DeleteObject] fails exactly when one of its checks does, with the kind
    of the first, and then neither the tree nor the observers see anything. *)
Theorem DeleteObject_errors (t : Tree) (path : string) (segs : list string)
  (Hp : parsePath path = Ok segs) :
  match delete_fault (root t) segs with
  | Some k => ∃ e, DeleteObject t path = (t, [], Err e) ∧ ∀ k', Is e k' = true ↔ k' = k
  | None => ∃ t' cs, DeleteObject t path = (t', cs, Ok tt)
  end.
Proof.
  assert (∀ op k f a k', Is (Wrap op k (Some (errorf f a))) k' = true ↔ k' = k) as HI.
  { intros. rewrite Is_Wrap_errorf, bool_decide_eq_true. naive_solver. }
  unfold DeleteObject, delete_fault. rewrite Hp. destruct segs as [|s rest]; [eauto|].
  destruct (split_last s rest) as [p k]. destruct (instance_of k) as [i|]; [|eauto].
  destruct (lookup (root t) p) as [n|e] eqn:El.
  2:{ rewrite (proj1 (lookup_err (root t) p)) by eauto. eexists. split; [done|]. intros k'.
      rewrite Is_Wrap, (lookup_err_plain _ _ _ k' El), orb_false_r, bool_decide_eq_true. naive_solver. }
  apply lookup_ok in El. rewrite El. destruct (table n); [|eauto].
  destruct (children n !! k); [|eauto].
  destruct (syncEntryCount _ _ _ _). eauto.
Qed.

Lemma DeleteObject_errors_witness :
  ∃ e, DeleteObject ex_table "Hosts.Host.2" = (ex_table, [], Err e) ∧
       ∀ k', Is e k' = true ↔ k' = KindNotFound.
Proof. exact (DeleteObject_errors ex_table "Hosts.Host.2" ["Hosts"; "Host"; "2"] eq_refl). Defined.

Lemma DeleteObject_ok_form t path p k i n tmpl c :
  parsePath path = Ok (p ++ [k]) → instance_of k = Some i → node_at p (root t) = Some n →
  table n = Some tmpl → children n !! k = Some c →
  ∃ r2 oc,
    let n' := set_children (delete k (children n)) n in
    syncEntryCount (hasObservers t) (alter_at (λ _, n') p (root t)) p n' = (r2, oc) ∧
    DeleteObject t path =
      (set_root t r2,
       (if hasObservers t then [MkChange path Value_zero Value_zero ChangeObjectDeleted] else [])
         ++ option_list oc, Ok tt).
Proof.
  intros Hp Hi Hn Ht Hc. unfold DeleteObject. rewrite Hp.
  destruct (p ++ [k]) as [|s rest] eqn:E; [by destruct p|].
  rewrite (split_last_snoc p k s rest) by done.
  rewrite Hi, (proj2 (lookup_ok _ _ _) Hn), Ht, Hc. simpl.
  destruct (syncEntryCount _ _ _ _) as [r2 oc] eqn:Es. eauto.
Qed.

Lemma DeleteObject_frame (t : Tree) (path : string) (p : list string) (k : string) (i : Z)
  (n tmpl c : Node)
  (Hw : wf_tree t) (Hp : parsePath path = Ok (p ++ [k])) (Hi : instance_of k = Some i)
  (Hn : node_at p (root t) = Some n) (Ht : table n = Some tmpl) (Hc : children n !! k = Some c) :
  let count := (count_instances (children n) - 1)%Z in
  ∃ t', DeleteObject t path =
      (t', (if hasObservers t then [MkChange path Value_zero Value_zero ChangeObjectDeleted] else [])
             ++ counter_change t p count, Ok tt) ∧
    node_at (p ++ [k]) (root t') = None ∧
    (∀ q, view t' (p ++ k :: q) = None) ∧
    (∀ q, ¬ (p ++ [k]) `prefix_of` q → view t' q = recounted p count (view t) q).
Proof.
  destruct (DeleteObject_ok_form t path p k i n tmpl c) as (r2&oc&Hs&E); try done. simpl in *.
  pose proof (wf_table_not_leaf n tmpl (wf_node_at _ _ _ Hw Hn) Ht) as Hl.
  assert (Forall (λ s, valid_segment s = true) p) as Hv.
  { apply parsePath_segments, Forall_app in Hp as [? _]. done. }
  set (ch' := delete k (children n)) in *.
  pose proof (replace_at (root t) n p ch' Hn) as Hat.
  assert (∀ k', k' ≠ k → ch' !! k' = children n !! k') as Hch.
  { intros k' Hk. unfold ch'. by rewrite lookup_delete_ne. }
  pose proof (count_delete _ _ _ _ Hc Hi) as Hcount. fold ch' in Hcount.
  assert (∀ q, node_at (p ++ k :: q) r2 = None) as Hgone.
  { intros q. rewrite (sync_table _ _ _ _ _ _ _ _ Hv Hat Hs), (replace_below _ _ _ _ Hn Hl).
    unfold ch'. by rewrite lookup_delete_eq. }
  exists (set_root t r2). split_and!.
  - rewrite E. do 3 f_equal. rewrite (sync_change _ _ _ _ _ _ _ Hv Hat Hs); simpl; [by rewrite Hcount|].
    intros c' Hc'. apply (replace_frame _ _ _ _ Hn Hl k); [done|].
    by destruct (counter_path_disjoint p [k] c' Hc').
  - apply Hgone.
  - intros q. unfold view, leaf_at. simpl. by rewrite Hgone.
  - intros q Hq. unfold view at 1. simpl. rewrite (sync_view _ _ _ _ _ _ _ Hv Hat Hs). simpl.
    rewrite Hcount. unfold recounted.
    by rewrite (replace_frame _ _ _ _ Hn Hl k q Hch Hq).
Qed.

(** A successful [DeleteObject] takes out the instance with everything
    beneath it and nothing else: the counter reads one less, every other leaf
    keeps its value, and observers see the deletion, then the counter. *)
Theorem DeleteObject_removes (t : Tree) (path : string) (p : list string) (k : string) (i : Z)
  (n tmpl c : Node)
  (Hw : wf_tree t) (Hp : parsePath path = Ok (p ++ [k])) (Hi : instance_of k = Some i)
  (Hn : node_at p (root t) = Some n) (Ht : table n = Some tmpl) (Hc : children n !! k = Some c) :
  let count := (count_instances (children n) - 1)%Z in
  ∃ t', DeleteObject t path =
      (t', (if hasObservers t then [MkChange path Value_zero Value_zero ChangeObjectDeleted] else [])
             ++ counter_change t p count, Ok tt) ∧
    node_at (p ++ [k]) (root t') = None ∧
    (∀ q, view t' (p ++ k :: q) = None) ∧
    (∀ q, ¬ (p ++ [k]) `prefix_of` q → view t' q = recounted p count (view t) q).
Proof. exact (DeleteObject_frame t path p k i n tmpl c Hw Hp Hi Hn Ht Hc). Qed.

Lemma DeleteObject_removes_witness :
  ∃ t', DeleteObject ex_table "Hosts.Host.3." =
      (t', [MkChange "Hosts.Host.3." Value_zero Value_zero ChangeObjectDeleted]
             ++ counter_change ex_table ["Hosts"; "Host"] 1, Ok tt) ∧
    node_at ["Hosts"; "Host"; "3"] (root t') = None.
Proof.
  pose (p := ["Hosts"; "Host"]). pose (n := default NewBranch (node_at p (root ex_table))).
  destruct (DeleteObject_removes ex_table "Hosts.Host.3." p "3" 3 n (default NewBranch (table n)) NewBranch
    ex_table_wf ltac:(vm_compute; reflexivity) ltac:(vm_compute; reflexivity)
    ltac:(vm_compute; reflexivity) ltac:(vm_compute; reflexivity) ltac:(vm_compute; reflexivity))
    as (t'&E&H&_).
  exists t'. split; [exact E|exact H].
Defined.

(** ** Adding, then deleting *)

(** The table's counter, when there is one, reads its number of instances. *)
Definition counter_honest (t : Tree) (p : list string) (n : Node) : Prop :=
  ∀ c v, counter_path p = Some c → view t c = Some v → Raw v = Strconv.Itoa (count_instances (children n)).

Lemma recounted_honest t p n :
  counter_honest t p n → ∀ q, recounted p (count_instances (children n)) (view t) q = view t q.
Proof.
  intros H q. unfold recounted. case_decide as Hq; [|done].
  destruct (view t q) as [v|] eqn:E; [|done]. simpl. rewrite <-(H q v) by done. by destruct v.
Qed.

Lemma recounted_twice p a b s q : recounted p a (recounted p b s) q = recounted p a s q.
Proof. unfold recounted. case_decide; [|done]. by destruct (s q). Qed.

(** The path an observer is told about names the instance. *)
Lemma created_path_parses path p i :
  (0 ≤ i)%Z → parsePath path = Ok p → p ≠ [] →
  parsePath (Strings.TrimSuffix path "." +:+ ("." +:+ (Strconv.Itoa i +:+ "."))) = Ok (p ++ [Strconv.Itoa i]).
Proof.
  intros Hi Hp Hne. pose proof (parsePath_segments _ _ Hp) as Hv.
  rewrite <-(joinPath_parsePath _ _ Hp).
  assert (joinPath p +:+ ("." +:+ (Strconv.Itoa i +:+ ".")) = joinPath (p ++ [Strconv.Itoa i]) +:+ ".") as ->.
  { unfold joinPath. rewrite Strings.Join_app by done. by rewrite !str_app_assoc. }
  apply parsePath_trailing_dot, Forall_app. split; [done|]. constructor; [|done].
  by apply Itoa_valid_segment.
Qed.

(** Deleting the object [AddObject] announced undoes it: on a table whose
    counter was honest every leaf, the counter included, is back where it
    was, and the instance is gone. *)
Theorem Delete_undoes_Add (t t1 : Tree) (path : string) (p : list string) (n tmpl : Node)
  (cs : list Change) (i : Z)
  (Hw : wf_tree t) (Hp : parsePath path = Ok p) (Hne : p ≠ [])
  (Hn : node_at p (root t) = Some n) (Ht : table n = Some tmpl)
  (Hsz : (Z.of_nat (size (children n)) + 1 < 2 ^ 63)%Z)
  (Hhon : counter_honest t p n)
  (Hadd : AddObject t path = (t1, cs, Ok i)) :
  ∃ t2 cs2,
    DeleteObject t1 (Strings.TrimSuffix path "." +:+ ("." +:+ (Strconv.Itoa i +:+ "."))) = (t2, cs2, Ok tt) ∧
    (∀ q, view t2 q = view t q).
Proof.
  destruct (AddObject_ok_form t path p n tmpl) as (i'&r2&oc&Hsm&Hi&Hno&Hs&E); try done. simpl in *.
  rewrite E in Hadd. injection Hadd as <- _ ->.
  set (k := Strconv.Itoa i) in *. set (ch' := <[k := tmpl]> (children n)) in *.
  pose proof (wf_table_not_leaf n tmpl (wf_node_at _ _ _ Hw Hn) Ht) as Hl.
  pose proof (parsePath_segments _ _ Hp) as Hv.
  pose proof (replace_at (root t) n p ch' Hn) as Hat.
  assert (1 ≤ i)%Z as H1 by apply Hsm.
  assert (instance_of k = Some i) as Hik by (apply instance_of_Itoa; lia).
  assert (node_at p r2 = Some (set_children ch' n)) as Hn1.
  { pose proof (sync_table _ _ _ _ _ _ _ [] Hv Hat Hs) as H. rewrite !app_nil_r in H. by rewrite H. }
  destruct (DeleteObject_ok_form (set_root t r2)
    (Strings.TrimSuffix path "." +:+ ("." +:+ (k +:+ "."))) p k i (set_children ch' n) tmpl tmpl)
    as (r3&oc3&Hs3&E3); try done.
  { by apply created_path_parses; [lia|..]. }
  { simpl. unfold ch'. by rewrite lookup_insert_eq. }
  cbv zeta in Hs3. change (children (set_children ch' n)) with ch' in Hs3.
  eexists _, _. split; [exact E3|].
  assert (delete k ch' = children n) as Hdel by (unfold ch'; by apply delete_insert_id).
  intros q. unfold view at 1. simpl.
  pose proof (replace_at r2 (set_children ch' n) p (delete k ch') Hn1) as Hat3.
  cbn [root set_root] in Hs3. rewrite (sync_view _ _ _ _ _ _ _ Hv Hat3 Hs3).
  change (children (set_children (delete k ch') (set_children ch' n))) with (delete k ch').
  rewrite Hdel at 1. rewrite <-(recounted_honest t p n Hhon q).
  assert (∀ q, leaf_at q (alter_at (λ _, set_children (delete k ch') (set_children ch' n)) p r2) =
               recounted p (count_instances ch') (view t) q) as Hmid.
  { clear q. intros q. destruct (decide (p ++ [k] `prefix_of` q)) as [[s ->]|Hq].
    - rewrite <-(assoc_L (++)). change ([k] ++ s) with (k :: s).
      rewrite (replace_below_leaf r2 (set_children ch' n) p _ Hn1 Hl), Hdel, Hno. simpl.
      unfold recounted, view, leaf_at. rewrite (orig_below _ _ _ Hn Hl), Hno. by case_decide.
    - rewrite (replace_frame r2 (set_children ch' n) p _ Hn1 Hl k); [|by intros; apply lookup_delete_ne|done].
      rewrite (sync_view _ _ _ _ _ _ _ Hv Hat Hs). unfold recounted.
      rewrite (replace_frame (root t) n p ch' Hn Hl k); [done| |done].
      intros k' Hk'. unfold ch'. by rewrite lookup_insert_ne. }
  etrans; [|apply recounted_twice]. unfold recounted at 1 2. by rewrite Hmid.
Qed.

Lemma Delete_undoes_Add_witness :
  ∃ t2 cs2, DeleteObject (AddObject ex_table "Hosts.Host.").1.1 "Hosts.Host.2." = (t2, cs2, Ok tt) ∧
    ∀ q, view t2 q = view ex_table q.
Proof.
  pose (p := ["Hosts"; "Host"]). pose (n := default NewBranch (node_at p (root ex_table))).
  refine (Delete_undoes_Add ex_table (AddObject ex_table "Hosts.Host.").1.1 "Hosts.Host." p n
    (default NewBranch (table n)) (AddObject ex_table "Hosts.Host.").1.2 2 ex_table_wf
    ltac:(vm_compute; reflexivity) ltac:(discriminate) ltac:(vm_compute; reflexivity)
    ltac:(vm_compute; reflexivity) ltac:(vm_compute; reflexivity) _ ltac:(vm_compute; reflexivity)).
  intros c v Hc. vm_compute in Hc. injection Hc as <-. vm_compute. by intros [= <-].
Defined.

(** ** The invariant, through every operation *)

Lemma wf_ops_leaf t path raw v a :
  wf_tree t →
  wf_tree (Set_ t path v).1.1 ∧ wf_tree (SetSystem t path raw).1.1 ∧
  wf_tree (SetAttributes t path a).1.1 ∧ wf_tree (Clone t).
Proof.
  intros Hw. split_and!.
  - destruct (Set_inv t path v) as [[e ->]|(p&m&old&_&Hm&Hv&?&->)]; [done|].
    eapply wf_alter_at; [done..|]. intros. apply wf_set_leaf; [done|apply isLeaf_true; eauto|done].
  - destruct (SetSystem_inv t path raw) as [[e ->]|(p&m&old&_&Hm&Hv&?&->)]; [done|].
    eapply wf_alter_at; [done..|]. intros. apply wf_set_leaf; [done|apply isLeaf_true; eauto|done].
  - destruct (SetAttributes_inv t path a) as [[e ->]|(p&m&old&_&Hm&Hv&->)]; [done|].
    eapply wf_alter_at; [done..|]. intros. apply wf_set_attrs; [done|apply isLeaf_true; eauto].
  - unfold Clone, wf_tree. simpl. by rewrite clone_id.
Qed.

Lemma wf_insert_child n k c :
  wf_node n → isLeaf n = false → valid_segment k = true → wf_node c →
  wf_node (set_children (<[k := c]> (children n)) n).
Proof.
  intros Hw Hl Hk Hc. apply wf_set_children; [done..|]. intros k' c'.
  destruct (decide (k = k')) as [<-|Hne].
  - rewrite lookup_insert_eq. by intros [= <-].
  - rewrite lookup_insert_ne by done. by apply wf_node_inv.
Qed.

Lemma wf_default_child n k : wf_node n → wf_node (default NewBranch (children n !! k)).
Proof.
  intros Hw. destruct (children n !! k) as [c|] eqn:E; simpl; [|apply wf_NewBranch].
  by apply (wf_node_inv _ Hw) in E as [_ ?].
Qed.

Lemma wf_mount_go path segs last n parent :
  wf_node parent → wf_node n → Forall (λ s, valid_segment s = true) segs →
  valid_segment last = true → wf_node (mount_go path segs last n parent).1.
Proof.
  intros Hw Hn Hs Hlast. revert parent Hw. induction Hs as [|s segs Hv Hs IH]; intros parent Hw; simpl.
  - destruct (isLeaf parent) eqn:Hl; [done|]. destruct (children parent !! last); [done|].
    by apply wf_insert_child.
  - destruct (isLeaf parent) eqn:Hl; [done|].
    pose proof (IH (default NewBranch (children parent !! s)) (wf_default_child _ _ Hw)) as H.
    destruct (mount_go _ _ _ _ _) as [child' r]. by apply wf_insert_child.
Qed.

Lemma wf_addtable_go path segs tmpl parent :
  wf_node parent → wf_node tmpl → Forall (λ s, valid_segment s = true) segs →
  wf_node (addtable_go path segs tmpl parent).1.
Proof.
  intros Hw Ht Hs. revert parent Hw. induction Hs as [|s segs Hv Hs IH]; intros parent Hw; simpl.
  - destruct (isLeaf parent) eqn:Hl; [done|]. destruct (table parent); [done|]. by apply wf_set_table.
  - destruct (isLeaf parent) eqn:Hl; [done|].
    pose proof (IH (default NewBranch (children parent !! s)) (wf_default_child _ _ Hw)) as H.
    destruct (addtable_go _ _ _ _) as [child' r]. by apply wf_insert_child.
Qed.

(** Building the tree keeps it well typed: mounting a well-formed node, or
    declaring a table with a well-formed template, leaves a well-formed tree
    on every path, error paths included. *)
Lemma construction_keeps_wf (t : Tree) (path : string) (n : Node) :
  wf_tree t → wf_node n →
  wf_tree (Mount t path n).1.1 ∧ wf_tree (AddTable t path (Some n)).1.1.
Proof.
  intros Hw Hn. unfold Mount, AddTable. destruct (parsePath path) as [[|s rest]|e] eqn:Hp; try done.
  apply parsePath_segments in Hp. split.
  - destruct (split_last s rest) as [init last] eqn:E. apply split_last_spec in E.
    rewrite E in Hp. apply Forall_app in Hp as [Hi Hl]. inv Hl.
    pose proof (wf_mount_go path init last n (root t)) as H.
    destruct (mount_go path init last n (root t)). by apply H.
  - pose proof (wf_addtable_go path (s :: rest) n (root t)) as H.
    destruct (addtable_go path (s :: rest) n (root t)). by apply H.
Qed.

(** ** Mount and AddTable: nothing half-built *)

Lemma mount_go_fresh path segs last n :
  ∃ m, mount_go path segs last n NewBranch = (m, Ok tt).
Proof.
  induction segs as [|s segs [m IH]]; [by eexists|].
  simpl. rewrite lookup_empty. simpl. rewrite IH. by eexists.
Qed.

Lemma addtable_go_fresh path segs n : ∃ m, addtable_go path segs n NewBranch = (m, Ok tt).
Proof.
  induction segs as [|s segs [m IH]]; [by eexists|].
  simpl. rewrite lookup_empty. simpl. rewrite IH. by eexists.
Qed.

Lemma node_at_cons s p n : node_at (s :: p) n = if isLeaf n then None else c ← children n !! s; node_at p c.
Proof. done. Qed.

Lemma leaf_at_cons s p n : leaf_at (s :: p) n = if isLeaf n then None else c ← children n !! s; leaf_at p c.
Proof.
  unfold leaf_at. simpl. destruct (isLeaf n); [done|]. by destruct (children n !! s).
Qed.

(** Rebuilding one child of an interior node, present or freshly made. *)
Lemma leaf_at_insert_child n s c q :
  isLeaf n = false →
  (∀ q', q = s :: q' → leaf_at q' c = leaf_at q' (default NewBranch (children n !! s))) →
  leaf_at q (set_children (<[s := c]> (children n)) n) = leaf_at q n.
Proof.
  intros Hl Hc. destruct q as [|s' q].
  - done.
  - rewrite !leaf_at_cons. change (isLeaf (set_children _ n)) with (isLeaf n). rewrite Hl. simpl.
    destruct (decide (s = s')) as [<-|Hne]; [|by rewrite lookup_insert_ne].
    rewrite lookup_insert_eq. simpl. rewrite (Hc q) by done.
    destruct (children n !! s); simpl; [done|]. by destruct q.
Qed.

Lemma mount_go_spec path segs last n parent :
  match mount_go path segs last n parent with
  | (p', Err e) => p' = parent ∧ Is e KindInvalidArgument = true
  | (p', Ok _) =>
      isLeaf p' = false ∧ node_at (segs ++ [last]) parent = None ∧
      node_at (segs ++ [last]) p' = Some n ∧
      ∀ q, ¬ (segs ++ [last]) `prefix_of` q → leaf_at q p' = leaf_at q parent
  end.
Proof.
  revert parent. induction segs as [|s segs IH]; intros parent; cbn [mount_go app].
  - destruct (isLeaf parent) eqn:Hl; [done|]. destruct (children parent !! last) eqn:Hc; [done|].
    simpl. change (isLeaf (set_children _ parent)) with (isLeaf parent).
    rewrite Hl, Hc, lookup_insert_eq. split_and!; try done.
    intros q Hq. apply leaf_at_insert_child; [done|]. intros q' ->. destruct Hq.
    by apply prefix_cons, prefix_nil.
  - destruct (isLeaf parent) eqn:Hl; [done|].
    specialize (IH (default NewBranch (children parent !! s))).
    destruct (mount_go path segs last n _) as [c' [[]|e]] eqn:E.
    + destruct IH as (Hl'&Hn&Ha&Hf). rewrite !node_at_cons.
      change (isLeaf (set_children _ parent)) with (isLeaf parent). rewrite Hl. simpl.
      rewrite lookup_insert_eq. split_and!; try done.
      * by destruct (children parent !! s).
      * intros q Hq. apply leaf_at_insert_child; [done|]. intros q' ->. apply Hf.
        intros Hp. by apply Hq, prefix_cons.
    + destruct IH as [-> He]. split; [|done].
      destruct (children parent !! s) as [c|] eqn:Hc; simpl in *.
      * rewrite insert_id by done. by destruct parent.
      * destruct (mount_go_fresh path segs last n) as [m Hm]. congruence.
Qed.

Lemma addtable_go_spec path segs tmpl parent :
  match addtable_go path segs tmpl parent with
  | (p', Err e) => p' = parent ∧ Is e KindInvalidArgument = true
  | (p', Ok _) =>
      (∀ m, node_at segs parent = Some m → isLeaf m = false ∧ table m = None) ∧
      (∃ m, node_at segs p' = Some m ∧ isLeaf m = false ∧ table m = Some tmpl ∧
            children m = children (default NewBranch (node_at segs parent))) ∧
      ∀ q, leaf_at q p' = leaf_at q parent
  end.
Proof.
  revert parent. induction segs as [|s segs IH]; intros parent; cbn [addtable_go].
  - destruct (isLeaf parent) eqn:Hl; [done|]. destruct (table parent) eqn:Ht; [done|].
    simpl. split_and!; [by intros m [= <-]|by eexists|by intros [|??]].
  - destruct (isLeaf parent) eqn:Hl; [done|].
    specialize (IH (default NewBranch (children parent !! s))).
    destruct (addtable_go path segs tmpl _) as [c' [[]|e]] eqn:E.
    + destruct IH as (Hn&Ha&Hf). rewrite !node_at_cons.
      change (isLeaf (set_children _ parent)) with (isLeaf parent). rewrite Hl. simpl.
      rewrite lookup_insert_eq. split_and!.
      * intros m Hm. apply Hn. by destruct (children parent !! s).
      * destruct (children parent !! s) as [c|]; simpl in *; [done|].
        by destruct segs.
      * intros q. apply leaf_at_insert_child; [done|]. intros q' ->. apply Hf.
    + destruct IH as [-> He]. split; [|done].
      destruct (children parent !! s) as [c|] eqn:Hc; simpl in *.
      * rewrite insert_id by done. by destruct parent.
      * destruct (addtable_go_fresh path segs tmpl) as [m Hm]. congruence.
Qed.

(** [Mount] either fails, creating nothing (not even the interior nodes of
    the path), or puts the node at a path that was free and moves no other
    leaf. *)
Theorem Mount_correct (t : Tree) (path : string) (n : Node) :
  (∃ e, Mount t path n = (t, [], Err e) ∧ Is e KindInvalidArgument = true) ∨
  (∃ t' p, Mount t path n = (t', [], Ok tt) ∧ parsePath path = Ok p ∧
     node_at p (root t) = None ∧ node_at p (root t') = Some n ∧
     ∀ q, ¬ p `prefix_of` q → view t' q = view t q).
Proof.
  unfold Mount. destruct (parsePath path) as [[|s rest]|e] eqn:Hp.
  - left. by eexists.
  - destruct (split_last s rest) as [init last] eqn:E. apply split_last_spec in E. rewrite E in *.
    pose proof (mount_go_spec path init last n (root t)) as H.
    destruct (mount_go _ _ _ _ _) as [r' [[]|e]].
    + right. exists (set_root t r'), (init ++ [last]). naive_solver.
    + left. destruct H as [-> ?]. exists e. split; [by destruct t|done].
  - left. exists e. split; [done|]. by apply (parsePath_err path).
Qed.

(** [AddTable] either fails, creating nothing, or leaves at the path an
    object with the template set and the children it had; no leaf moves. *)
Theorem AddTable_correct (t : Tree) (path : string) (tmpl : Node) :
  (∃ e, AddTable t path (Some tmpl) = (t, [], Err e) ∧ Is e KindInvalidArgument = true) ∨
  (∃ t' p m, AddTable t path (Some tmpl) = (t', [], Ok tt) ∧ parsePath path = Ok p ∧
     node_at p (root t') = Some m ∧ table m = Some tmpl ∧
     children m = children (default NewBranch (node_at p (root t))) ∧
     ∀ q, view t' q = view t q).
Proof.
  unfold AddTable. destruct (parsePath path) as [[|s rest]|e] eqn:Hp.
  - left. by eexists.
  - pose proof (addtable_go_spec path (s :: rest) tmpl (root t)) as H.
    destruct (addtable_go _ _ _ _) as [r' [[]|e]].
    + right. destruct H as (_&(m&?&_&?&?)&?). by exists (set_root t r'), (s :: rest), m.
    + left. destruct H as [-> ?]. exists e. split; [by destruct t|done].
  - left. exists e. split; [done|]. by apply (parsePath_err path).
Qed.
