(* ===== verification/Listing.v ===== *)
(** * Listing the tree ([internal/paramtree/paramtree.go], [Names],
    [Children], [Walk]): what GetParameterNames, GetParameterValues and a USP
    Get read the tree through. *)
From Stdlib Require Import ZArith Lia Ascii String.
From S2P Require Import Prelude GoLib CpeErr Types Node Tree TreeProps Objects ObjectsProps.

(** ** Definitions *)

Definition sortedKeys (m : gmap string Node) : list string := Sort.Strings (keys m).

(** Go's map iteration order is unspecified; [map_to_list] is one such order,
    and the callers sort what they collect. *)
Fixpoint collectLeaves (n : Node) : list string → list string :=
  match n with
  | MkNode ch lf _ _ =>
      let subs := collectLeaves <$> ch in
      λ prefix,
        match lf with
        | Some _ => [joinPath prefix]
        | None => flat_map (λ '(seg, sub), sub (prefix ++ [seg])) (map_to_list subs)
        end
  end.

Definition Names (t : Tree) (prefix : string) (partial : bool) : result error (list string) :=
  segments ← parsePath prefix;
  n ← map_err (λ e, Wrap "paramtree.Names" KindNotFound (Some e)) (lookup (root t) segments);
  Ok (if partial then Sort.Strings (collectLeaves n segments)
      else if isLeaf n then [joinPath segments]
      else Sort.Strings ((λ seg, joinPath (segments ++ [seg])) <$> keys (children n))).

Record ChildInfo := MkChildInfo { ciName : string; ciWritable : bool }.
#[export] Instance ChildInfo_eq_dec : EqDecision ChildInfo.
Proof. solve_decision. Defined.

Definition child_info (segments : list string) (seg : string) (child : Node) : ChildInfo :=
  let fullPath := joinPath (segments ++ [seg]) in
  match leaf child with
  | Some v => MkChildInfo fullPath (Writable v)
  | None => MkChildInfo (fullPath +:+ ".") false
  end.

Definition Children (t : Tree) (prefix : string) : result error (list ChildInfo) :=
  segments ← parsePath prefix;
  n ← map_err (λ e, Wrap "paramtree.Children" KindNotFound (Some e)) (lookup (root t) segments);
  if isLeaf n then
    Err (Wrap "paramtree.Children" KindNotFound
           (Some (errorf "path %q is a leaf, has no children" [prefix])))
  else
    Ok (omap (λ seg, child_info segments seg <$> children n !! seg) (sortedKeys (children n))).

(** The visitor of [Walk] is a closure: it acts on a state of its own and may
    stop the walk with an error. *)
Definition visitor (S : Type) : Type := string → Value → S → S * option error.

Fixpoint for_each {S A} (f : A → S → S * option error) (l : list A) (s : S) : S * option error :=
  match l with
  | [] => (s, None)
  | x :: rest =>
      match f x s with
      | (s', Some e) => (s', Some e)
      | (s', None) => for_each f rest s'
      end
  end.

Fixpoint walk {S} (n : Node) : list string → Z → visitor S → S → S * option error :=
  match n with
  | MkNode ch lf _ _ =>
      let subs := walk <$> ch in
      λ prefix depth fn s,
        match lf with
        | Some v => fn (joinPath prefix) v s
        | None =>
            if (depth =? 1)%Z then
              for_each (λ seg s,
                match ch !! seg with
                | Some child => match leaf child with
                                | Some v => fn (joinPath (prefix ++ [seg])) v s
                                | None => (s, None)
                                end
                | None => (s, None)
                end) (sortedKeys ch) s
            else
              let next := if (1 <? depth)%Z then (depth - 1)%Z else depth in
              for_each (λ seg s,
                match subs !! seg with
                | Some sub => sub (prefix ++ [seg]) next fn s
                | None => (s, None)
                end) (sortedKeys ch) s
        end
  end.

Definition Walk {S} (t : Tree) (prefix : string) (depth : Z) (fn : visitor S) (s : S) : S * option error :=
  match parsePath prefix with
  | Err e => (s, Some e)
  | Ok segments =>
      match lookup (root t) segments with
      | Err e => (s, Some (Wrap "paramtree.Walk" KindNotFound (Some e)))
      | Ok n => walk n segments depth fn s
      end
  end.

(** ** Specification: the leaves of a node, in the order of their segments *)

Definition below (k : string) (l : list (list string * Value)) : list (list string * Value) :=
  (λ '(p, v), (k :: p, v)) <$> l.

Fixpoint leaves (n : Node) : list (list string * Value) :=
  match n with
  | MkNode ch lf _ _ =>
      let subs := leaves <$> ch in
      match lf with
      | Some v => [([], v)]
      | None => flat_map (λ k, below k (default [] (subs !! k))) (sortedKeys ch)
      end
  end.

Lemma leaves_unfold n :
  leaves n = match leaf n with
             | Some v => [([], v)]
             | None => flat_map (λ k, below k (default [] (leaves <$> children n !! k)))
                         (sortedKeys (children n))
             end.
Proof.
  destruct n as [ch [v|] a tb]; [done|]. simpl. apply flat_map_ext. intros k.
  by rewrite lookup_fmap.
Qed.

Lemma elem_of_sortedKeys m k : k ∈ sortedKeys m ↔ is_Some (m !! k).
Proof. unfold sortedKeys. by rewrite Sort.elem_of_Strings, elem_of_keys. Qed.

Lemma elem_of_below k l q v : (q, v) ∈ below k l ↔ ∃ p, q = k :: p ∧ (p, v) ∈ l.
Proof.
  unfold below. rewrite list_elem_of_fmap. split.
  - intros ([p v']&[= -> ->]&H). eauto.
  - intros (p&->&H). exists (p, v). done.
Qed.

(** [leaves] lists the leaves, all of them and only them. *)
Lemma elem_of_leaves n q v : (q, v) ∈ leaves n ↔ leaf_at q n = Some v.
Proof.
  revert q; induction n as [ch lf a tb IH _] using Node_ind'; intros q.
  rewrite leaves_unfold. simpl. destruct lf as [w|].
  - rewrite list_elem_of_singleton. destruct q as [|s q]; unfold leaf_at; simpl; naive_solver.
  - rewrite elem_of_flat_map. setoid_rewrite elem_of_below. setoid_rewrite elem_of_sortedKeys.
    destruct q as [|s q].
    + unfold leaf_at. simpl. split; [naive_solver|done].
    + rewrite leaf_at_cons. simpl. split.
      * intros (k&[c Hk]&p&[= -> ->]&Hp). rewrite Hk in *. simpl in *. by apply (IH k c Hk).
      * intros (c&Hc&Hq)%bind_Some. exists s. split; [by eexists|]. exists q. split; [done|].
        rewrite Hc. simpl. by apply (IH s c Hc).
Qed.

Lemma NoDup_below k l : NoDup l → NoDup (below k l).
Proof. apply NoDup_fmap_2. intros [??] [??]. naive_solver. Qed.

Lemma leaves_keys n :
  (leaves n).*1 = match leaf n with
    | Some _ => [[]]
    | None => flat_map (λ k, cons k <$> (default [] (leaves <$> children n !! k)).*1) (sortedKeys (children n))
    end.
Proof.
  rewrite leaves_unfold. destruct (leaf n); [done|].
  induction (sortedKeys (children n)) as [|k l IHl]; [done|]. simpl. rewrite fmap_app, IHl. f_equal.
  unfold below. rewrite <-!list_fmap_compose. apply list_fmap_ext. by intros i [??] _.
Qed.

Lemma NoDup_leaves n : NoDup (leaves n).*1.
Proof.
  induction n as [ch lf a tb IH _] using Node_ind'. rewrite leaves_unfold. simpl.
  destruct lf as [w|]; [apply NoDup_singleton|].
  assert (∀ l, (flat_map (λ k, below k (default [] (leaves <$> ch !! k))) l).*1 =
    flat_map (λ k, cons k <$> (default [] (leaves <$> ch !! k)).*1) l) as ->.
  { induction l as [|k l IHl]; [done|]. simpl. rewrite fmap_app, IHl. f_equal.
    unfold below. rewrite <-!list_fmap_compose. apply list_fmap_ext. by intros i [??] _. }
  apply NoDup_flat_map.
  - unfold sortedKeys. apply Sort.NoDup_Strings, NoDup_keys.
  - intros k _. apply NoDup_fmap_2; [by intros ?? [=]|].
    destruct (ch !! k) as [c|] eqn:E; simpl; [by apply (IH k c)|constructor].
  - intros x y b _ _ (?&->&_)%list_elem_of_fmap (?&[=]&_)%list_elem_of_fmap. done.
Qed.

(** ** Walk *)

Lemma for_each_app {S A} (f : A → S → S * option error) l1 l2 s :
  for_each f (l1 ++ l2) s =
  match for_each f l1 s with (s', Some e) => (s', Some e) | (s', None) => for_each f l2 s' end.
Proof.
  revert s; induction l1 as [|x l1 IH]; intros s; simpl; [done|].
  destruct (f x s) as [s' [e|]]; [done|]. apply IH.
Qed.

Lemma for_each_flat_map {S A B} (f : B → S → S * option error) (g : A → list B) l s :
  for_each f (flat_map g l) s = for_each (λ x, for_each f (g x)) l s.
Proof.
  revert s; induction l as [|x l IH]; intros s; simpl; [done|].
  rewrite for_each_app. destruct (for_each f (g x) s) as [s' [e|]]; [done|]. apply IH.
Qed.

Lemma for_each_fmap {S A B} (f : B → S → S * option error) (g : A → B) l s :
  for_each f (g <$> l) s = for_each (λ x, f (g x)) l s.
Proof.
  revert s; induction l as [|x l IH]; intros s; simpl; [done|].
  destruct (f (g x) s) as [s' [e|]]; [done|]. apply IH.
Qed.

Lemma for_each_ext_in {S A} (f g : A → S → S * option error) l s :
  (∀ x s, x ∈ l → f x s = g x s) → for_each f l s = for_each g l s.
Proof.
  revert s; induction l as [|x l IH]; intros s H; simpl; [done|].
  rewrite (H x s) by left. destruct (g x s) as [s' [e|]]; [done|].
  apply IH. intros; apply H; by right.
Qed.

(** A depth of zero or less is no bound; otherwise a leaf is within [depth]
    when it is at most that many segments below the prefix. *)
Definition within (depth : Z) (x : list string * Value) : Prop :=
  (depth ≤ 0)%Z ∨ (Z.of_nat (length x.1) ≤ depth)%Z.
#[export] Instance within_dec depth x : Decision (within depth x).
Proof. unfold within. apply _. Defined.

(** A depth that is not positive bounds nothing. *)
Lemma within_all depth (l : list (list string * Value)) : (depth ≤ 0)%Z → filter (within depth) l = l.
Proof. intros H. induction l as [|x l IH]; [done|]. rewrite filter_cons, decide_True by (by left). by rewrite IH. Qed.

Definition visit {S} (prefix : list string) (fn : visitor S) (x : list string * Value) : S → S * option error :=
  fn (joinPath (prefix ++ x.1)) x.2.

Lemma filter_flat_map {A B} (P : B → Prop) `{!∀ x, Decision (P x)} (f : A → list B) l :
  filter P (flat_map f l) = flat_map (λ x, filter P (f x)) l.
Proof. induction l as [|x l IH]; simpl; [done|]. by rewrite filter_app, IH. Qed.

Lemma filter_below P Q `{!∀ x, Decision (P x), !∀ x, Decision (Q x)} k l :
  (∀ p v, P (k :: p, v) ↔ Q (p, v)) → filter P (below k l) = below k (filter Q l).
Proof.
  intros HPQ. induction l as [|[p v] l IH]; [done|].
  change (below k ((p, v) :: l)) with ((k :: p, v) :: below k l). rewrite !filter_cons, IH.
  destruct (decide (Q (p, v))) as [HQ|HQ].
  - by rewrite decide_True by (by apply HPQ).
  - rewrite decide_False; [done|]. by rewrite HPQ.
Qed.

Lemma visit_below {S} (prefix : list string) (fn : visitor S) k l s :
  for_each (visit prefix fn) (below k l) s = for_each (visit (prefix ++ [k]) fn) l s.
Proof.
  unfold below. rewrite for_each_fmap. apply for_each_ext_in. intros [p v] s' _.
  unfold visit. simpl. by rewrite <-(assoc_L (++)).
Qed.

Lemma walk_leaves {S} n prefix depth (fn : visitor S) s :
  walk n prefix depth fn s = for_each (visit prefix fn) (filter (within depth) (leaves n)) s.
Proof.
  revert prefix depth s; induction n as [ch lf a tb IH _] using Node_ind'; intros prefix depth s.
  rewrite leaves_unfold. cbn [walk leaf children]. destruct lf as [v|].
  { rewrite filter_cons_True, filter_nil.
    - simpl. unfold visit. simpl. rewrite app_nil_r. by destruct (fn _ v s) as [s' [e|]].
    - unfold within. simpl. lia. }
  rewrite filter_flat_map, for_each_flat_map.
  destruct (Z.eqb_spec depth 1) as [->|Hd]; apply for_each_ext_in; intros k s' Hk;
    apply elem_of_sortedKeys in Hk as [c Hc].
  - rewrite Hc. change (default [] (leaves <$> Some c)) with (leaves c). destruct (leaf c) as [v|] eqn:El.
    + rewrite leaves_unfold, El. change (below k [([], v)]) with [([k], v)].
      rewrite filter_cons_True, filter_nil by (unfold within; simpl; lia).
      unfold visit. simpl. by destruct (fn _ v s') as [? [e|]].
    + assert (filter (within 1) (below k (leaves c)) = []) as E.
      { apply elem_of_nil_inv. intros [q v] [Hw (p&->&Hp)%elem_of_below]%list_elem_of_filter.
        apply elem_of_leaves in Hp. destruct p as [|x p].
        - unfold leaf_at in Hp. simpl in Hp. congruence.
        - unfold within in Hw. simpl in Hw. lia. }
      by rewrite E.
  - rewrite lookup_fmap, Hc. simpl. rewrite (IH k c Hc).
    rewrite (filter_below _ (within (if (1 <? depth)%Z then depth - 1 else depth)%Z)).
    + by rewrite visit_below.
    + intros p v. unfold within. simpl. destruct (Z.ltb_spec 1 depth); lia.
Qed.

(** Segment-wise order: a path before its extensions, then the first segment
    that differs decides, byte-wise. *)
Inductive segs_lt : list string → list string → Prop :=
| segs_lt_nil y q : segs_lt [] (y :: q)
| segs_lt_head x y p q : strings.String.le x y → x ≠ y → segs_lt (x :: p) (y :: q)
| segs_lt_tail x p q : segs_lt p q → segs_lt (x :: p) (x :: q).

Lemma StronglySorted_flat_map (f : string → list (list string)) l :
  StronglySorted strings.String.le l → NoDup l →
  (∀ k, k ∈ l → StronglySorted segs_lt (f k)) →
  (∀ k p, p ∈ f k → ∃ q, p = k :: q) →
  StronglySorted segs_lt (flat_map f l).
Proof.
  induction 1 as [|k l Hs IH Hk]; intros HN Hf Hc; simpl; [constructor|].
  inv HN as [|?? Hnk HNl]. apply StronglySorted_app_2.
  - intros p q Hp (k'&Hk'&Hq)%elem_of_flat_map.
    destruct (Hc k p Hp) as [p' ->]. destruct (Hc k' q Hq) as [q' ->].
    rewrite Forall_forall in Hk. apply segs_lt_head; [by apply Hk|]. by intros ->.
  - apply Hf. left.
  - apply IH; [done|intros; apply Hf; by right|done].
Qed.

Lemma leaves_sorted n : StronglySorted segs_lt (leaves n).*1.
Proof.
  induction n as [ch lf a tb IH _] using Node_ind'. rewrite leaves_keys. simpl.
  destruct lf as [w|]; [by repeat constructor|].
  apply StronglySorted_flat_map.
  - apply Sort.Strings_sorted.
  - apply Sort.NoDup_Strings, NoDup_keys.
  - intros k [c Hc]%elem_of_sortedKeys. rewrite Hc. simpl. specialize (IH k c Hc). simpl in IH.
    induction IH as [|p l Hs IHs Hp]; simpl; constructor; [done|].
    apply Forall_fmap. eapply Forall_impl; [exact Hp|]. intros q. apply segs_lt_tail.
  - intros k p (q&->&_)%list_elem_of_fmap. eauto.
Qed.

(** The whole sub-tree, each leaf with its full path. *)
Definition full_leaves (p : list string) (n : Node) : list (string * Value) :=
  (λ x, (joinPath (p ++ x.1), x.2)) <$> leaves n.

(** A visitor that appends walks to the list of what it is given. *)
Lemma for_each_append {A B} (f : A → B) (l : list A) s :
  for_each (λ x s, (s ++ [f x], None)) l s = (s ++ (f <$> l), None).
Proof.
  revert s; induction l as [|x l IH]; intros s; [by rewrite app_nil_r|]. simpl. rewrite IH.
  by rewrite <-(assoc_L (++)).
Qed.

Lemma Walk_append {B} t prefix (f : string → Value → B) s :
  Walk t prefix 0 (λ n v s, (s ++ [f n v], None)) s =
    match parsePath prefix with
    | Err e => (s, Some e)
    | Ok p =>
        match lookup (root t) p with
        | Err e => (s, Some (Wrap "paramtree.Walk" KindNotFound (Some e)))
        | Ok n => (s ++ ((λ x, f x.1 x.2) <$> full_leaves p n), None)
        end
    end.
Proof.
  unfold Walk. destruct (parsePath prefix) as [p|]; [|done]. destruct (lookup (root t) p) as [n|]; [|done].
  rewrite walk_leaves.
  rewrite within_all by done.
  unfold visit, full_leaves. rewrite <-list_fmap_compose.
  apply (for_each_append (λ x, f (joinPath (p ++ x.1)) x.2)).
Qed.

(** [Walk] calls its visitor on the leaves under the prefix that are
    within [depth], each exactly once and in the order of their segments,
    with the leaf's full path and value, and stops at the visitor's first
    error. *)
Theorem Walk_visits {S} (t : Tree) (prefix : string) (depth : Z) (fn : visitor S) (s : S)
  (p : list string) (n : Node) (Hp : parsePath prefix = Ok p) (Hn : node_at p (root t) = Some n) :
  Walk t prefix depth fn s = for_each (visit p fn) (filter (within depth) (leaves n)) s ∧
  StronglySorted segs_lt (leaves n).*1 ∧ NoDup (leaves n) ∧
  (∀ q v, (q, v) ∈ leaves n ↔ view t (p ++ q) = Some v).
Proof.
  unfold Walk. rewrite Hp, (proj2 (lookup_ok _ _ _) Hn). split_and!.
  - apply walk_leaves.
  - apply leaves_sorted.
  - eapply NoDup_fmap_1, NoDup_leaves.
  - intros q v. rewrite elem_of_leaves. unfold view, leaf_at. by rewrite node_at_app, Hn.
Qed.

Lemma Walk_visits_witness :
  Walk ex_table "Hosts." 1 (λ p v s, (s ++ [(p, Raw v)], None)) [] =
    ([("Hosts.HostNumberOfEntries", "2")], None) ∧
  NoDup (leaves (default NewBranch (node_at ["Hosts"] (root ex_table)))).
Proof.
  destruct (Walk_visits ex_table "Hosts." 1 (λ p v s, (s ++ [(p, Raw v)], None)) []
    ["Hosts"] (default NewBranch (node_at ["Hosts"] (root ex_table)))
    ltac:(vm_compute; reflexivity) ltac:(vm_compute; reflexivity)) as (E&_&HN&_).
  split; [|exact HN]. etrans; [exact E|]. vm_compute. reflexivity.
Defined.

(** ** Names *)

Lemma flat_map_fmap {A B C} (f : B → list C) (g : A → B) l : flat_map f (g <$> l) = flat_map (λ x, f (g x)) l.
Proof. induction l; simpl; [done|]. by f_equal. Qed.

Lemma fmap_flat_map {A B C} (f : B → C) (g : A → list B) l : f <$> flat_map g l = flat_map (λ x, f <$> g x) l.
Proof. induction l as [|x l IH]; [done|]. simpl. by rewrite fmap_app, IH. Qed.

(** The collection, in whatever order the maps iterate, is a permutation of
    the leaves. *)
Lemma collectLeaves_Permutation n prefix :
  collectLeaves n prefix ≡ₚ (λ x, joinPath (prefix ++ x.1)) <$> leaves n.
Proof.
  revert prefix; induction n as [ch lf a tb IH _] using Node_ind'; intros prefix.
  rewrite leaves_unfold. simpl. destruct lf as [v|]; [simpl; by rewrite app_nil_r|].
  rewrite map_to_list_fmap, flat_map_fmap.
  unfold sortedKeys. rewrite fmap_flat_map, (Permutation_flat_map _ (Sort.Strings_Permutation (keys ch))).
  unfold keys. rewrite flat_map_fmap.
  assert (∀ kc, kc ∈ map_to_list ch → ch !! kc.1 = Some kc.2) as Hin.
  { intros [k c] ?. by apply elem_of_map_to_list. }
  induction (map_to_list ch) as [|[k c] l IHl]; [done|]. simpl.
  pose proof (Hin (k, c) ltac:(left)) as Hk. simpl in Hk. rewrite Hk. simpl.
  apply Permutation_app; [|apply IHl; intros; apply Hin; by right].
  etrans; [apply (IH k c Hk)|]. unfold below. rewrite <-list_fmap_compose.
  erewrite list_fmap_ext; [done|]. intros i [p v] _. simpl. by rewrite <-(assoc_L (++)).
Qed.

Lemma wf_node_at_segments n p m : wf_node n → node_at p n = Some m → Forall (λ s, valid_segment s = true) p.
Proof.
  revert n; induction p as [|s p IH]; intros n Hw Hm; [constructor|]. rewrite node_at_cons in Hm.
  destruct (isLeaf n); [done|]. apply bind_Some in Hm as (c&Hc&Hm).
  apply (wf_node_inv _ Hw) in Hc as [??]. constructor; [done|]. by eapply IH.
Qed.

(** [Names] with [partial] lists the paths of exactly the leaves at or
    below the prefix, sorted and without repetition; a prefix that does not
    resolve is NotFound. *)
Theorem Names_partial (t : Tree) (prefix : string) (p : list string)
  (Hw : wf_tree t) (Hp : parsePath prefix = Ok p) :
  match node_at p (root t) with
  | Some _ => ∃ l, Names t prefix true = Ok l ∧ StronglySorted strings.String.le l ∧ NoDup l ∧
      ∀ x, x ∈ l ↔ ∃ q v, x = joinPath (p ++ q) ∧ view t (p ++ q) = Some v
  | None => ∃ e, Names t prefix true = Err e ∧ Is e KindNotFound = true
  end.
Proof.
  unfold Names. rewrite Hp. simpl. destruct (lookup (root t) p) as [n|e] eqn:El.
  - apply lookup_ok in El. rewrite El. simpl. eexists. split; [done|].
    pose proof (collectLeaves_Permutation n p) as HP. split_and!.
    + apply Sort.Strings_sorted.
    + apply Sort.NoDup_Strings. rewrite HP.
      assert ((λ x, joinPath (p ++ x.1)) <$> leaves n = (λ q, joinPath (p ++ q)) <$> (leaves n).*1)
        as -> by (by rewrite <-list_fmap_compose).
      assert (∀ q, q ∈ (leaves n).*1 → Forall (λ s, valid_segment s = true) (p ++ q)) as Hv.
      { intros q ([q' v]&->&Hq%elem_of_leaves)%list_elem_of_fmap. simpl.
        apply leaf_at_node in Hq as (m&Hm&_). eapply wf_node_at_segments; [exact Hw|].
        by rewrite node_at_app, El. }
      pose proof (NoDup_leaves n) as HN. induction HN as [|q l Hq HN IH]; [constructor|].
      simpl. constructor.
      * intros (q'&E&Hq')%list_elem_of_fmap. apply joinPath_inj in E; [|apply Hv; left|apply Hv; by right].
        apply app_inv_head in E as ->. done.
      * apply IH. intros; apply Hv. by right.
    + intros x. rewrite Sort.elem_of_Strings, HP, list_elem_of_fmap. split.
      * intros ([q v]&->&Hq%elem_of_leaves). exists q, v. split; [done|].
        unfold view, leaf_at. by rewrite node_at_app, El.
      * intros (q&v&->&Hq). exists (q, v). split; [done|]. apply elem_of_leaves.
        unfold view, leaf_at in Hq. by rewrite node_at_app, El in Hq.
  - rewrite (proj1 (lookup_err _ _)) by eauto. eexists. split; [done|]. apply Is_Wrap_same.
Qed.

Lemma Names_partial_witness :
  ∃ l, Names ex_table "Hosts." true = Ok l ∧ StronglySorted strings.String.le l ∧ NoDup l ∧
    ∀ x, x ∈ l ↔ ∃ q v, x = joinPath (["Hosts"] ++ q) ∧ view ex_table (["Hosts"] ++ q) = Some v.
Proof. exact (Names_partial ex_table "Hosts." ["Hosts"] ex_table_wf eq_refl). Defined.

(** [Walk] orders paths by segment, [Names] by byte: a hyphen sorts before the
    dot, so the two disagree when one segment extends another with it. *)
Definition ex_hyphen : Tree :=
  MkTree (MkNode (<["A" := MkNode {["X" := NewLeaf (MkValue TypeString "" true)]} None None None]>
                   {["A-B" := NewLeaf (MkValue TypeString "" true)]}) None None None) (MkObservers 0 ∅).

(** The order of [Walk] is not the lexicographic order of the paths: on a
    tree with the leaves A.X and A-B it visits A.X first, where [Names], which
    sorts the paths, lists A-B first. *)
Theorem Walk_order_not_lexicographic :
  (Walk ex_hyphen "" 0 (λ p _ s, (s ++ [p], None)) []).1 = ["A.X"; "A-B"] ∧
  Names ex_hyphen "" true = Ok ["A-B"; "A.X"].
Proof. split; vm_compute; reflexivity. Qed.

(** ** Children *)

(** [Children] lists the immediate children of an object in the order of
    their names, a leaf by its path and writability, an object by its path
    with a trailing dot; a leaf prefix is NotFound. *)
Theorem Children_lists (t : Tree) (prefix : string) (p : list string) (n : Node)
  (Hp : parsePath prefix = Ok p) (Hn : node_at p (root t) = Some n) :
  if isLeaf n then ∃ e, Children t prefix = Err e ∧ Is e KindNotFound = true
  else ∃ l, Children t prefix = Ok l ∧
    l = (λ k, child_info p k (default NewBranch (children n !! k))) <$> sortedKeys (children n) ∧
    StronglySorted strings.String.le (sortedKeys (children n)) ∧
    ∀ k, k ∈ sortedKeys (children n) ↔ is_Some (children n !! k).
Proof.
  unfold Children. rewrite Hp. simpl. rewrite (proj2 (lookup_ok _ _ _) Hn). simpl.
  destruct (isLeaf n) eqn:Hl.
  - eexists. split; [done|]. apply Is_Wrap_same.
  - eexists. split; [done|]. split_and!; [|apply Sort.Strings_sorted|intros; apply elem_of_sortedKeys].
    assert (∀ k, k ∈ sortedKeys (children n) → is_Some (children n !! k)) as H.
    { intros k. by rewrite elem_of_sortedKeys. }
    induction (sortedKeys (children n)) as [|k l IH]; [done|]. cbn.
    destruct (H k ltac:(left)) as [c ->]. simpl. f_equal. apply IH. intros; apply H. by right.
Qed.

Lemma Children_lists_witness :
  ∃ l, Children ex_table "Hosts" = Ok l ∧
    l = [MkChildInfo "Hosts.Host." false; MkChildInfo "Hosts.HostNumberOfEntries" false].
Proof.
  destruct (Children_lists ex_table "Hosts" ["Hosts"] (default NewBranch (node_at ["Hosts"] (root ex_table)))
    ltac:(vm_compute; reflexivity) ltac:(vm_compute; reflexivity)) as (l&E&Hl&_).
  exists l. split; [exact E|]. rewrite Hl. vm_compute. reflexivity.
Defined.
