(* ===== verification/Graft.v ===== *)
(** * Grafting a module's data model onto a running tree
    ([internal/paramtree/graft.go]). *)
From Stdlib Require Import ZArith Lia Ascii String.
From S2P Require Import Prelude GoLib CpeErr Types Node Tree TreeProps Objects ObjectsProps Listing.

(** ** Definitions *)

(** The parent pointer is the parent's path, [gpParent]. *)
Record graftPoint := MkGraftPoint { gpParent : list string; gpName : string; gpNode : Node }.
Definition gpPath (g : graftPoint) : list string := gpParent g ++ [gpName g].

(** The loop body's results, in turn; the first error returns. *)
Fixpoint concat_results {E A} (l : list (result E (list A))) : result E (list A) :=
  match l with
  | [] => Ok []
  | r :: rest => a ← r; b ← concat_results rest; Ok (a ++ b)
  end.

Fixpoint collect (src : Node) : Node → list string → result error (list graftPoint) :=
  match src with
  | MkNode ch _ _ _ =>
      let subs := collect <$> ch in
      λ dst prefix,
        concat_results ((λ '(name, child),
          let path := prefix ++ [name] in
          match children dst !! name with
          | None => Ok [MkGraftPoint prefix name child]
          | Some existing =>
              if isLeaf existing || isLeaf child then
                Err (errorf "path %q already exists" [joinPath path])
              else match subs !! name with
                   | Some sub => sub existing path
                   | None => Ok []
                   end
          end) <$> map_to_list ch)
  end.

Definition graft_le (a b : graftPoint) : Prop := strings.String.le (joinPath (gpPath a)) (joinPath (gpPath b)).
#[export] Instance graft_le_dec : RelDecision graft_le.
Proof. intros a b. unfold graft_le. apply _. Defined.

Definition attach_point (n : Node) (g : graftPoint) : Node :=
  alter_at (λ m, set_children (<[gpName g := clone (gpNode g)]> (children m)) m) (gpParent g) n.

Definition graft_root (g : graftPoint) : string :=
  let path := joinPath (gpPath g) in
  if isLeaf (gpNode g) then path else (path +:+ ".").

Definition graft_change (g : graftPoint) : Change :=
  let path := joinPath (gpPath g) in
  match leaf (gpNode g) with
  | Some v => MkChange path Value_zero v ChangeValue
  | None => MkChange (path +:+ ".") Value_zero Value_zero ChangeObjectCreated
  end.

(** [other = None] is the nil tree. *)
Definition Graft (t : Tree) (other : option Tree) : outcome (list string) :=
  match other with
  | None => (t, [], Err (Wrap "paramtree.Graft" KindInvalidArgument (Some (errorf "nil tree" []))))
  | Some o =>
      match collect (root o) (root t) [] with
      | Err e => (t, [], Err (Wrap "paramtree.Graft" KindInvalidArgument (Some e)))
      | Ok points =>
          let points := merge_sort graft_le points in
          (set_root t (foldl attach_point (root t) points),
           if hasObservers t then graft_change <$> points else [],
           Ok (graft_root <$> points))
      end
  end.

Definition Unmount (t : Tree) (path : string) : outcome unit :=
  match parsePath path with
  | Err e => (t, [], Err e)
  | Ok [] => (t, [], Err (Wrap "paramtree.Unmount" KindInvalidArgument
                            (Some (errorf "cannot unmount root" []))))
  | Ok (s :: rest) =>
      let '(init, last) := split_last s rest in
      match lookup (root t) init with
      | Err e => (t, [], Err (Wrap "paramtree.Unmount" KindNotFound (Some e)))
      | Ok parent =>
          if isLeaf parent then
            (t, [], Err (Wrap "paramtree.Unmount" KindInvalidArgument
                           (Some (errorf "path %q traverses a leaf" [path]))))
          else
            match children parent !! last with
            | None => (t, [], Err (Wrap "paramtree.Unmount" KindNotFound
                                     (Some (errorf "path %q not found" [path]))))
            | Some n =>
                if match table parent, instance_of last with Some _, Some _ => true | _, _ => false end then
                  (t, [], Err (Wrap "paramtree.Unmount" KindInvalidArgument
                                 (Some (errorf "path %q is a table instance; use DeleteObject" [path]))))
                else
                  (set_root t (alter_at (λ m, set_children (delete last (children m)) m) init (root t)),
                   if negb (isLeaf n) && hasObservers t
                   then [MkChange (joinPath (init ++ [last]) +:+ ".") Value_zero Value_zero ChangeObjectDeleted]
                   else [],
                   Ok tt)
            end
      end
  end.

(** ** What can be attached where *)

(** [Some true] where there is a leaf, [Some false] where there is an object. *)
Definition shape_at (q : list string) (n : Node) : option bool := isLeaf <$> node_at q n.

(** A path both trees have, with a leaf on one side. *)
Definition conflict (dst src : Node) (q : list string) : Prop :=
  q ≠ [] ∧ ∃ a b, node_at q dst = Some a ∧ node_at q src = Some b ∧ (isLeaf a || isLeaf b) = true.

(** Where [p] is free but its parent is an object. *)
Definition free_at (n : Node) (g : graftPoint) : Prop :=
  shape_at (gpParent g) n = Some false ∧ node_at (gpPath g) n = None.

Definition incomparable (g h : graftPoint) : Prop :=
  ¬ gpPath g `prefix_of` gpPath h ∧ ¬ gpPath h `prefix_of` gpPath g.

Lemma concat_results_map_ok {E A B} (body : A → result E (list B)) l x :
  concat_results (body <$> l) = Ok x →
  x = flat_map (λ a, match body a with Ok y => y | Err _ => [] end) l ∧
  (∀ a, a ∈ l → ∃ y, body a = Ok y).
Proof.
  revert x; induction l as [|a l IH]; intros x; simpl.
  - intros [= <-]. split; [done|]. by intros a ?%not_elem_of_nil.
  - intros H. apply result_bind_ok in H as (y&Hy&H). apply result_bind_ok in H as (z&Hz&[= <-]).
    destruct (IH z Hz) as [-> Hall]. rewrite Hy. split; [done|].
    intros b [->|Hb]%elem_of_cons; eauto.
Qed.

Lemma concat_results_map_err {E A B} (body : A → result E (list B)) l e :
  concat_results (body <$> l) = Err e → ∃ a, a ∈ l ∧ body a = Err e.
Proof.
  induction l as [|a l IH]; simpl; [done|].
  intros H. apply result_bind_err in H as [H|(y&Hy&H)]; [exists a; split; [left|done]|].
  apply result_bind_err in H as [H|(z&Hz&[=])]. destruct (IH H) as (b&?&?).
  exists b. split; [by right|done].
Qed.

(** One round of the loop, the recursive call included. *)
Definition collect_one (dst : Node) (prefix : list string) (kc : string * Node)
  : result error (list graftPoint) :=
  match children dst !! kc.1 with
  | None => Ok [MkGraftPoint prefix kc.1 kc.2]
  | Some existing =>
      if isLeaf existing || isLeaf kc.2 then
        Err (errorf "path %q already exists" [joinPath (prefix ++ [kc.1])])
      else collect kc.2 existing (prefix ++ [kc.1])
  end.

Lemma collect_unfold src dst prefix :
  collect src dst prefix = concat_results (collect_one dst prefix <$> map_to_list (children src)).
Proof.
  destruct src as [ch lf a tb]. simpl. f_equal. apply list_fmap_ext.
  intros i [name child] Hi. apply list_elem_of_lookup_2, elem_of_map_to_list in Hi.
  by rewrite lookup_fmap, Hi.
Qed.

(** What [collect] found, relative to the prefix it started from. *)
Definition point_ok (dst src : Node) (prefix : list string) (g : graftPoint) : Prop :=
  ∃ q, gpParent g = prefix ++ q ∧ shape_at q dst = Some false ∧
    node_at (q ++ [gpName g]) dst = None ∧ node_at (q ++ [gpName g]) src = Some (gpNode g).

Definition covered (dst : Node) (prefix : list string) (pts : list graftPoint) (q : list string) : Prop :=
  is_Some (node_at q dst) ∨ ∃ g, g ∈ pts ∧ gpPath g `prefix_of` (prefix ++ q).

Definition collect_good (dst src : Node) (prefix : list string) (pts : list graftPoint) : Prop :=
  (∀ g, g ∈ pts → point_ok dst src prefix g) ∧ NoDup pts ∧
  (∀ q b, node_at q src = Some b → covered dst prefix pts q) ∧
  (∀ q, ¬ conflict dst src q).

Lemma shape_at_cons s q n :
  shape_at (s :: q) n = if isLeaf n then None else c ← children n !! s; shape_at q c.
Proof.
  unfold shape_at. rewrite node_at_cons. destruct (isLeaf n); [done|]. by destruct (children n !! s).
Qed.

Lemma conflict_cons dst src s q :
  isLeaf dst = false → isLeaf src = false →
  conflict dst src (s :: q) ↔
  ∃ a b, children dst !! s = Some a ∧ children src !! s = Some b ∧
    (if decide (q = []) then (isLeaf a || isLeaf b) = true else conflict a b q).
Proof.
  intros Hd Hs. unfold conflict. rewrite !node_at_cons, Hd, Hs.
  destruct (children dst !! s) as [a|], (children src !! s) as [b|]; simpl; try naive_solver.
  case_decide as Hq; [subst; simpl; naive_solver|]. naive_solver.
Qed.

(** One name of the walk. *)
Section one_name.
Context (dst src : Node) (prefix : list string) (k : string) (c : Node).
Context (Hd : isLeaf dst = false) (Hs : isLeaf src = false) (Hc : children src !! k = Some c).

Lemma point_new : children dst !! k = None → point_ok dst src prefix (MkGraftPoint prefix k c).
Proof.
  intros Hk. exists []. simpl. unfold shape_at. simpl. rewrite Hd, Hs, Hc, Hk. split_and!; try done.
  by rewrite app_nil_r.
Qed.

Lemma point_child e g :
  children dst !! k = Some e → point_ok e c (prefix ++ [k]) g → point_ok dst src prefix g.
Proof.
  intros Hk (q&Hp&Hsh&Hn&Hsrc). exists (k :: q). rewrite shape_at_cons, Hd, Hk. simpl.
  rewrite Hd, Hs, Hk, Hc. simpl. split_and!; try done. by rewrite Hp, <-(assoc_L (++)).
Qed.

Lemma point_prefix e g :
  point_ok e c (prefix ++ [k]) g → (prefix ++ [k]) `prefix_of` gpPath g.
Proof. intros (q&Hp&_). unfold gpPath. rewrite Hp. exists (q ++ [gpName g]). by rewrite <-!(assoc_L (++)). Qed.

Definition one_good (pts : list graftPoint) : Prop :=
  (∀ g, g ∈ pts → point_ok dst src prefix g ∧ (prefix ++ [k]) `prefix_of` gpPath g) ∧ NoDup pts ∧
  (∀ q b, node_at q c = Some b → covered dst prefix pts (k :: q)) ∧
  (∀ q, ¬ conflict dst src (k :: q)).

Lemma one_good_new : children dst !! k = None → one_good [MkGraftPoint prefix k c].
Proof.
  intros Hk. split_and!.
  - intros g ->%list_elem_of_singleton. split; [by apply point_new|]. done.
  - apply NoDup_singleton.
  - intros q b _. right. eexists. split; [by left|]. exists q. unfold gpPath. simpl.
    by rewrite <-(assoc_L (++)).
  - intros q. rewrite conflict_cons by done. intros (?&?&?&_). congruence.
Qed.

Lemma one_good_child e pts :
  children dst !! k = Some e → isLeaf e = false → isLeaf c = false →
  collect_good e c (prefix ++ [k]) pts → one_good pts.
Proof.
  intros Hk He Hcl (Hp&HN&Hcov&Hnc). split_and!; [|done|..].
  - intros g Hg. split; [by eapply point_child; eauto|]. by eapply point_prefix; eauto.
  - intros q b Hb. destruct (Hcov q b Hb) as [[m Hm]|(g&Hg&Hpre)].
    + left. exists m. by rewrite node_at_cons, Hd, Hk.
    + right. exists g. split; [done|]. by rewrite <-(assoc_L (++)) in Hpre.
  - intros q. rewrite conflict_cons by done. intros (a'&b'&Ha'&Hb'&Hcf).
    assert (a' = e ∧ b' = c) as [-> ->] by naive_solver.
    case_decide; [|by apply (Hnc q)]. by rewrite He, Hcl in Hcf.
Qed.

Lemma collect_one_spec :
  (∀ e, isLeaf e = false → isLeaf c = false →
     match collect c e (prefix ++ [k]) with
     | Ok pts => collect_good e c (prefix ++ [k]) pts
     | Err _ => ∃ q, conflict e c q
     end) →
  match collect_one dst prefix (k, c) with
  | Ok pts => one_good pts
  | Err _ => ∃ q, conflict dst src (k :: q)
  end.
Proof.
  intros IH. unfold collect_one. cbn [fst snd].
  destruct (children dst !! k) as [e|] eqn:Hk; [|by apply one_good_new].
  destruct (isLeaf e || isLeaf c) eqn:Hlc.
  { exists []. rewrite conflict_cons by done. exists e, c. by rewrite decide_True. }
  apply orb_false_iff in Hlc as [He Hcl]. specialize (IH e He Hcl).
  destruct (collect c e (prefix ++ [k])) as [pts|er]; [by eapply one_good_child|].
  destruct IH as [q Hq]. exists q. rewrite conflict_cons by done. exists e, c.
  split_and!; [done|done|]. rewrite decide_False; [done|]. by destruct Hq.
Qed.
End one_name.

Lemma snoc_prefix_inj {A} (prefix : list A) k k' p :
  (prefix ++ [k]) `prefix_of` p → (prefix ++ [k']) `prefix_of` p → k = k'.
Proof.
  intros [r1 E1] [r2 E2]. rewrite E1 in E2. rewrite <-!(assoc_L (++)) in E2.
  apply app_inv_head in E2. by injection E2.
Qed.

(** The names put together. *)
Lemma collect_good_flat dst src prefix (f : string * Node → list graftPoint) :
  isLeaf src = false →
  (∀ k c, children src !! k = Some c → one_good dst src prefix k c (f (k, c))) →
  collect_good dst src prefix (flat_map f (map_to_list (children src))).
Proof.
  intros Hs Hf. assert (∀ k c, (k, c) ∈ map_to_list (children src) → one_good dst src prefix k c (f (k, c))) as Hin.
  { intros k c ?%elem_of_map_to_list. auto. }
  split_and!.
  - intros g ([k c]&Hkc&Hg)%elem_of_flat_map. by apply (Hin k c Hkc).
  - apply NoDup_flat_map; [apply NoDup_map_to_list|..].
    + intros [k c] Hkc. by apply (Hin k c Hkc).
    + intros [k c] [k' c'] g Hkc Hkc' Hg Hg'.
      assert (k = k') as <-.
      { eapply snoc_prefix_inj; [by eapply (Hin k c)|by eapply (Hin k' c')]. }
      apply elem_of_map_to_list in Hkc, Hkc'. congruence.
  - intros [|k q] b Hb; [left; by eexists|]. rewrite node_at_cons, Hs in Hb.
    apply bind_Some in Hb as (c&Hc&Hb). destruct (Hf k c Hc) as (_&_&Hcov&_).
    destruct (Hcov q b Hb) as [?|(g&Hg&?)]; [by left|right]. exists g. split; [|done].
    apply elem_of_flat_map. exists (k, c). split; [by apply elem_of_map_to_list|done].
  - intros [|k q]; [by intros []|]. intros Hcf. pose proof Hcf as (_&a&b&_&Hb&_).
    rewrite node_at_cons, Hs in Hb. apply bind_Some in Hb as (c&Hc&_).
    destruct (Hf k c Hc) as (_&_&_&Hnc). by apply Hnc in Hcf.
Qed.

(** [collect] succeeds exactly when the trees do not conflict, and then finds
    every place where the source goes on and the destination stops. *)
Lemma collect_spec src dst prefix :
  isLeaf dst = false → isLeaf src = false →
  match collect src dst prefix with
  | Ok pts => collect_good dst src prefix pts
  | Err _ => ∃ q, conflict dst src q
  end.
Proof.
  revert dst prefix. induction src as [ch lf a tb IH _] using Node_ind'. intros dst prefix Hd Hs.
  assert (∀ k c, ch !! k = Some c →
    match collect_one dst prefix (k, c) with
    | Ok pts => one_good dst (MkNode ch lf a tb) prefix k c pts
    | Err _ => ∃ q, conflict dst (MkNode ch lf a tb) (k :: q)
    end) as Hone.
  { intros k c Hc. apply collect_one_spec; [done..|]. intros e. apply (IH k c Hc). }
  rewrite collect_unfold. simpl children.
  destruct (concat_results _) as [pts|er] eqn:E.
  - apply concat_results_map_ok in E as [-> Hall]. apply collect_good_flat; [done|].
    intros k c Hc. specialize (Hone k c Hc).
    destruct (Hall (k, c)) as [y Hy]; [by apply elem_of_map_to_list|]. by rewrite Hy in *.
  - apply concat_results_map_err in E as ([k c]&Hkc&E).
    specialize (Hone k c). rewrite E in Hone.
    destruct Hone as [q Hq]; [by apply elem_of_map_to_list|]. eauto.
Qed.

(** ** Attaching *)

Lemma alter_at_ext f g p n m :
  node_at p n = Some m → f m = g m → alter_at f p n = alter_at g p n.
Proof.
  revert n; induction p as [|s p IH]; intros n Hm Hfg.
  - simpl in *. by injection Hm as ->.
  - rewrite node_at_cons in Hm. destruct (isLeaf n); [done|].
    apply bind_Some in Hm as (c&Hc&Hm). simpl. f_equal. apply map_eq. intros k.
    destruct (decide (s = k)) as [<-|]; [|by rewrite !lookup_alter_ne].
    rewrite !lookup_alter_eq, Hc. simpl. by rewrite (IH c).
Qed.

Section attach.
Context (n : Node) (g : graftPoint) (Hfree : free_at n g).

Lemma free_parent : ∃ m, node_at (gpParent g) n = Some m ∧ isLeaf m = false ∧ children m !! gpName g = None.
Proof.
  destruct Hfree as [Hs Hn]. unfold shape_at in Hs. unfold gpPath in Hn. rewrite node_at_app in Hn.
  destruct (node_at (gpParent g) n) as [m|]; [|done]. simpl in *. injection Hs as Hs. rewrite Hs in Hn.
  exists m. by destruct (children m !! gpName g).
Qed.

Lemma attach_as_replace m :
  node_at (gpParent g) n = Some m →
  attach_point n g =
    alter_at (λ _, set_children (<[gpName g := gpNode g]> (children m)) m) (gpParent g) n.
Proof. intros Hm. unfold attach_point. rewrite clone_id. by eapply alter_at_ext. Qed.

Lemma attach_below r : node_at (gpPath g ++ r) (attach_point n g) = node_at r (gpNode g).
Proof.
  destruct free_parent as (m&Hm&Hl&Hc). rewrite (attach_as_replace m Hm). unfold gpPath.
  rewrite <-(assoc_L (++)). simpl. rewrite (replace_below _ _ _ _ Hm Hl). by rewrite lookup_insert_eq.
Qed.

Lemma insert_others m k : k ≠ gpName g → <[gpName g := gpNode g]> (children m) !! k = children m !! k.
Proof. intros Hk. by rewrite lookup_insert_ne. Qed.

Lemma attach_frame q : ¬ gpPath g `prefix_of` q → leaf_at q (attach_point n g) = leaf_at q n.
Proof.
  destruct free_parent as (m&Hm&Hl&Hc). intros Hq. rewrite (attach_as_replace m Hm).
  apply (replace_frame _ _ _ _ Hm Hl (gpName g)); [apply insert_others|done].
Qed.

Lemma attach_kind q : ¬ gpPath g `prefix_of` q → kind_at q (attach_point n g) = kind_at q n.
Proof.
  destruct free_parent as (m&Hm&Hl&Hc). intros Hq. rewrite (attach_as_replace m Hm).
  apply (replace_kind _ _ _ _ Hm Hl (gpName g)); [apply insert_others|done].
Qed.

Lemma attach_node q :
  ¬ gpPath g `prefix_of` q → ¬ q `prefix_of` gpPath g → node_at q (attach_point n g) = node_at q n.
Proof.
  destruct free_parent as (m&Hm&Hl&Hc). intros Hq Hq'. rewrite (attach_as_replace m Hm).
  apply (replace_node _ _ _ _ Hm Hl (gpName g)); [apply insert_others|done..].
Qed.
End attach.

Lemma incomparable_app g h r :
  incomparable g h → ¬ gpPath h `prefix_of` (gpPath g ++ r) ∧ ¬ (gpPath g ++ r) `prefix_of` gpPath h.
Proof.
  intros [H1 H2]. split.
  - intros Hp. destruct (prefix_weak_total (gpPath h) (gpPath g) (gpPath g ++ r)) as [?|?]; try done.
    by exists r.
  - intros [r' E]. apply H1. exists (r ++ r'). by rewrite (assoc_L (++)).
Qed.

Lemma shape_kind q n : shape_at q n = fst <$> kind_at q n.
Proof. unfold shape_at, kind_at. by destruct (node_at q n). Qed.

Lemma free_shape n g : free_at n g ↔ shape_at (gpParent g) n = Some false ∧ shape_at (gpPath g) n = None.
Proof. unfold free_at, shape_at. destruct (node_at (gpPath g) n); simpl; naive_solver. Qed.

Lemma free_step n g h :
  free_at n g → free_at n h → incomparable g h → free_at (attach_point n g) h.
Proof.
  rewrite !(free_shape _ h), !shape_kind. intros Hg [Hp Hn] [H1 H2]. split.
  - rewrite attach_kind; [done..|]. intros Hpre. apply H1. etrans; [done|]. by exists [gpName h].
  - by rewrite attach_kind.
Qed.

Lemma attach_all_node g pts n r :
  (∀ h, h ∈ pts → incomparable g h) → (∀ h, h ∈ pts → free_at n h) → NoDup pts →
  (∀ h h', h ∈ pts → h' ∈ pts → h ≠ h' → incomparable h h') →
  node_at (gpPath g ++ r) (foldl attach_point n pts) = node_at (gpPath g ++ r) n.
Proof.
  intros Hg Hf HN. revert n Hf. induction HN as [|h pts Hh HN IH]; intros n Hf Hinc; [done|].
  simpl. rewrite IH.
  - destruct (incomparable_app g h r (Hg h ltac:(left))). apply attach_node; [apply Hf; left|done..].
  - intros; apply Hg; by right.
  - intros h' Hh'. apply free_step; [apply Hf; left|apply Hf; by right|].
    apply Hinc; [left|by right|]. by intros ->.
  - intros; apply Hinc; [by right..|done].
Qed.

Lemma attach_all pts n :
  NoDup pts → (∀ g h, g ∈ pts → h ∈ pts → g ≠ h → incomparable g h) →
  (∀ g, g ∈ pts → free_at n g) →
  let n' := foldl attach_point n pts in
  (∀ g r, g ∈ pts → node_at (gpPath g ++ r) n' = node_at r (gpNode g)) ∧
  (∀ q, (∀ g, g ∈ pts → ¬ gpPath g `prefix_of` q) → leaf_at q n' = leaf_at q n).
Proof.
  intros HN. revert n. induction HN as [|g pts Hg HN IH]; intros n Hinc Hfree; simpl.
  { split; [by intros ?? ?%not_elem_of_nil|done]. }
  assert (free_at n g) as Hfg by (apply Hfree; left).
  assert (∀ h, h ∈ pts → incomparable g h) as Hgh.
  { intros h Hh. apply Hinc; [left|by right|]. by intros ->. }
  assert (∀ h, h ∈ pts → free_at (attach_point n g) h) as Hf'.
  { intros h Hh. apply free_step; [done|apply Hfree; by right|by apply Hgh]. }
  assert (∀ h h', h ∈ pts → h' ∈ pts → h ≠ h' → incomparable h h') as Hinc'.
  { intros; apply Hinc; [by right..|done]. }
  destruct (IH (attach_point n g) Hinc' Hf') as [H1 H2]. split.
  - intros h r [->|Hh]%elem_of_cons; [|by apply H1].
    rewrite attach_all_node by done. by apply attach_below.
  - intros q Hq. rewrite H2; [apply attach_frame; [done|apply Hq; left]|].
    intros; apply Hq; by right.
Qed.

Lemma prefix_snoc_inv {A} (p q : list A) x :
  p `prefix_of` (q ++ [x]) → p = q ++ [x] ∨ p `prefix_of` q.
Proof.
  intros [r E]. destruct r as [|y r _] using rev_ind.
  - left. by rewrite app_nil_r in E.
  - right. rewrite (assoc_L (++)) in E. apply app_inj_tail in E as [-> _]. by exists r.
Qed.

(** Two points of one collection never nest. *)
Lemma points_incomparable dst src prefix g h :
  point_ok dst src prefix g → point_ok dst src prefix h → g ≠ h → incomparable g h.
Proof.
  assert (∀ g h, point_ok dst src prefix g → point_ok dst src prefix h → gpPath g `prefix_of` gpPath h → g = h) as Hp.
  { intros g' h' (q&Hg&_&Hn&Hsrc) (q'&Hh&Hs'&_&Hsrc') Hpre. unfold gpPath in Hpre. rewrite Hg, Hh in Hpre.
    rewrite <-!(assoc_L (++)) in Hpre. apply prefix_app_inv in Hpre.
    apply prefix_snoc_inv in Hpre as [E|[r ->]].
    - apply app_inj_tail in E as [-> En]. destruct g', h'. simpl in *. subst. congruence.
    - unfold shape_at in Hs'. rewrite node_at_app, Hn in Hs'. done. }
  intros Hg Hh Hne. split; intros Hpre; apply Hne; [|symmetry]; by eapply Hp.
Qed.

(** ** Properties *)

(** The union of two trees' leaves, the first one's winning. *)
Definition spec_union (s1 s2 : spec_store) : spec_store := λ q,
  match s1 q with Some v => Some v | None => s2 q end.

Definition has_conflict (t o : Tree) : Prop := ∃ q, conflict (root t) (root o) q.

Lemma collect_no_conflict t o :
  isLeaf (root t) = false → isLeaf (root o) = false →
  is_ok (collect (root o) (root t) []) = true → ¬ has_conflict t o.
Proof.
  intros Ht Ho Hok. pose proof (collect_spec (root o) (root t) [] Ht Ho) as H.
  destruct (collect _ _ _); [|done]. intros [q Hq]. by apply H in Hq.
Qed.

Lemma Graft_cases t o :
  isLeaf (root t) = false → isLeaf (root o) = false →
  (has_conflict t o ∧ ∃ e, Graft t (Some o) = (t, [], Err e) ∧ Is e KindInvalidArgument = true) ∨
  (∃ pts, collect_good (root t) (root o) [] pts ∧
     Graft t (Some o) =
       (set_root t (foldl attach_point (root t) pts),
        if hasObservers t then graft_change <$> pts else [], Ok (graft_root <$> pts))).
Proof.
  intros Ht Ho. pose proof (collect_spec (root o) (root t) [] Ht Ho) as H. unfold Graft.
  destruct (collect (root o) (root t) []) as [pts|e].
  - right. exists (merge_sort graft_le pts). split; [|done].
    destruct H as (H1&H2&H3&H4). split_and!.
    + intros g. rewrite merge_sort_Permutation. apply H1.
    + by rewrite merge_sort_Permutation.
    + intros q b Hb. destruct (H3 q b Hb) as [?|(g&?&?)]; [by left|right].
      exists g. by rewrite merge_sort_Permutation.
    + done.
  - left. split; [done|]. eexists. split; [done|]. apply Is_Wrap_same.
Qed.

Lemma good_points_free dst src pts :
  collect_good dst src [] pts →
  (∀ g, g ∈ pts → free_at dst g ∧ node_at (gpPath g) src = Some (gpNode g)) ∧
  (∀ g h, g ∈ pts → h ∈ pts → g ≠ h → incomparable g h).
Proof.
  intros (H1&_&_&_). split.
  - intros g (q&Hp&Hs&Hn&Hsrc)%H1. simpl in Hp. subst q. done.
  - intros g h Hg Hh. eapply points_incomparable; by apply H1.
Qed.

(** [Graft] is all or nothing: it refuses exactly when the trees have a
    path in common with a leaf on either side, attaching nothing; otherwise
    the tree afterwards holds the leaves of both, its own where it had them. *)
Theorem Graft_refines (t o : Tree)
  (Ht : isLeaf (root t) = false) (Ho : isLeaf (root o) = false) :
  (has_conflict t o → ∃ e, Graft t (Some o) = (t, [], Err e) ∧ Is e KindInvalidArgument = true) ∧
  (¬ has_conflict t o → ∃ t' cs roots, Graft t (Some o) = (t', cs, Ok roots) ∧ obs t' = obs t ∧
     ∀ q, view t' q = spec_union (view t) (view o) q).
Proof.
  destruct (Graft_cases t o Ht Ho) as [[Hc He]|(pts&Hgood&E)].
  { split; [done|]. intros []; done. }
  pose proof (good_points_free _ _ _ Hgood) as [Hfree Hinc].
  destruct Hgood as (Hpts&HN&Hcov&Hnc).
  split; [by intros [q ?%Hnc]|]. intros _. eexists _, _, _. split; [done|]. split; [done|].
  destruct (attach_all pts (root t) HN Hinc) as [Hin Hout]; [by intros g ?; apply Hfree|].
  intros q. unfold view, spec_union. simpl.
  destruct (decide (Exists (λ g, gpPath g `prefix_of` q) pts)) as [Hex|Hnex].
  - apply Exists_exists in Hex as (g&Hg&[r ->]). destruct (Hfree g Hg) as [[_ Hn] Hsrc].
    unfold leaf_at at 1. rewrite Hin by done. unfold leaf_at.
    by rewrite (node_at_app _ _ (root t)), Hn, (node_at_app _ _ (root o)), Hsrc.
  - rewrite Hout.
    2:{ intros g Hg Hp. apply Hnex, Exists_exists. eauto. }
    destruct (leaf_at q (root t)) as [v|] eqn:El; [done|].
    destruct (leaf_at q (root o)) as [v|] eqn:Elo; [|done]. exfalso.
    apply leaf_at_node in Elo as (b&Hb&Hlb).
    destruct (Hcov q b Hb) as [[a Ha]|(g&Hg&Hp)].
    + destruct q as [|s q].
      { simpl in Hb. injection Hb as <-. unfold isLeaf in Ho. by rewrite Hlb in Ho. }
      apply (Hnc (s :: q)). split; [done|]. exists a, b. split_and!; try done.
      apply orb_true_iff. right. apply isLeaf_true. eauto.
    + apply Hnex, Exists_exists. eauto.
Qed.

(** A module's fragment: one new leaf under an object the tree has. *)
Definition ex_module : Tree :=
  MkTree (MkNode {["Hosts" := MkNode {["Module" := NewLeaf (MkValue TypeInt "1" false)]}
                                None None None]} None None None) (MkObservers 0 ∅).

Lemma Graft_refines_witness :
  ∃ t' cs roots, Graft ex_table (Some ex_module) = (t', cs, Ok roots) ∧ obs t' = obs ex_table ∧
    ∀ q, view t' q = spec_union (view ex_table) (view ex_module) q.
Proof.
  refine (proj2 (Graft_refines ex_table ex_module eq_refl eq_refl) _).
  apply collect_no_conflict; [done..|]. vm_compute. reflexivity.
Defined.

(** *** Unmounting *)

Definition detach_point (n : Node) (g : graftPoint) : Node :=
  alter_at (λ m, set_children (delete (gpName g) (children m)) m) (gpParent g) n.

(** [g] hangs where [Unmount] can reach it: under an object, and not as an
    instance of a table. *)
Definition unmountable (n : Node) (g : graftPoint) : Prop :=
  node_at (gpPath g) n = Some (gpNode g) ∧
  ∃ tb, kind_at (gpParent g) n = Some (false, tb) ∧ (is_Some tb → instance_of (gpName g) = None).

Section detach.
Context (n : Node) (g : graftPoint) (Hu : unmountable n g).

Lemma unmountable_parent :
  ∃ m, node_at (gpParent g) n = Some m ∧ isLeaf m = false ∧ children m !! gpName g = Some (gpNode g) ∧
       (is_Some (table m) → instance_of (gpName g) = None).
Proof.
  destruct Hu as (Hn&tb&Hk&Hi). unfold kind_at in Hk. unfold gpPath in Hn. rewrite node_at_app in Hn.
  destruct (node_at (gpParent g) n) as [m|]; [|done]. simpl in *. injection Hk as Hl <-.
  rewrite Hl in Hn. exists m. by destruct (children m !! gpName g).
Qed.

Lemma delete_others m k : k ≠ gpName g → delete (gpName g) (children m) !! k = children m !! k.
Proof. intros Hk. by rewrite lookup_delete_ne. Qed.

Lemma detach_as_replace m :
  node_at (gpParent g) n = Some m →
  detach_point n g = alter_at (λ _, set_children (delete (gpName g) (children m)) m) (gpParent g) n.
Proof. intros Hm. by eapply alter_at_ext. Qed.

Lemma detach_gone r : node_at (gpPath g ++ r) (detach_point n g) = None.
Proof.
  destruct unmountable_parent as (m&Hm&Hl&Hc&_). rewrite (detach_as_replace m Hm). unfold gpPath.
  rewrite <-(assoc_L (++)). simpl. rewrite (replace_below _ _ _ _ Hm Hl). by rewrite lookup_delete_eq.
Qed.

Lemma detach_frame q : ¬ gpPath g `prefix_of` q → leaf_at q (detach_point n g) = leaf_at q n.
Proof.
  destruct unmountable_parent as (m&Hm&Hl&Hc&_). intros Hq. rewrite (detach_as_replace m Hm).
  apply (replace_frame _ _ _ _ Hm Hl (gpName g)); [apply delete_others|done].
Qed.

Lemma detach_keeps h : incomparable g h → unmountable n h → unmountable (detach_point n g) h.
Proof.
  destruct unmountable_parent as (m&Hm&Hl&Hc&_). intros [H1 H2] (Hn&tb&Hk&Hi).
  rewrite (detach_as_replace m Hm). split.
  - rewrite (replace_node _ _ _ _ Hm Hl (gpName g)); [done|apply delete_others|done..].
  - exists tb. split; [|done]. rewrite (replace_kind _ _ _ _ Hm Hl (gpName g)); [done|apply delete_others|].
    intros Hp. apply H1. etrans; [done|]. by exists [gpName h].
Qed.
End detach.

(** [Unmount] of an object or leaf that is not a table instance takes out
    exactly the node with everything beneath it, and reports the removal of
    an object, not of a leaf, when somebody listens. *)
Theorem Unmount_removes (t : Tree) (path : string) (g : graftPoint)
  (Hp : parsePath path = Ok (gpPath g)) (Hu : unmountable (root t) g) :
  ∃ t', Unmount t path =
      (t', if negb (isLeaf (gpNode g)) && hasObservers t
           then [MkChange (joinPath (gpPath g) +:+ ".") Value_zero Value_zero ChangeObjectDeleted] else [],
       Ok tt) ∧
    (∀ r, node_at (gpPath g ++ r) (root t') = None) ∧
    (∀ q, ¬ gpPath g `prefix_of` q → view t' q = view t q).
Proof.
  exists (set_root t (detach_point (root t) g)). split.
  - destruct (unmountable_parent _ _ Hu) as (m&Hm&Hl&Hc&Hi). unfold Unmount. rewrite Hp. unfold gpPath.
    destruct (gpParent g ++ [gpName g]) as [|s rest] eqn:E; [by destruct (gpParent g)|].
    rewrite (split_last_snoc _ _ _ _ (eq_sym E)), (proj2 (lookup_ok _ _ _) Hm), Hl, Hc.
    by destruct (table m); [rewrite Hi by done|]; rewrite E.
  - split; [intros r; by apply detach_gone|intros q Hq; by apply detach_frame].
Qed.

Lemma Unmount_removes_witness :
  ∃ t', Unmount ex_table "Hosts." =
      (t', [MkChange "Hosts." Value_zero Value_zero ChangeObjectDeleted], Ok tt) ∧
    node_at ["Hosts"] (root t') = None.
Proof.
  pose (g := MkGraftPoint [] "Hosts" (default NewBranch (node_at ["Hosts"] (root ex_table)))).
  destruct (Unmount_removes ex_table "Hosts." g) as (t'&E&Hn&_).
  - vm_compute. reflexivity.
  - split; [vm_compute; reflexivity|]. exists None. split; [vm_compute; reflexivity|]. by intros [??].
  - exists t'. split; [exact E|]. exact (Hn []).
Defined.

(** *** Graft, then unmount what it returned *)

Fixpoint unmount_all (t : Tree) (paths : list string) : Tree * list (result error unit) :=
  match paths with
  | [] => (t, [])
  | p :: rest =>
      let '(t1, _, r) := Unmount t p in
      let '(t2, rs) := unmount_all t1 rest in
      (t2, r :: rs)
  end.

Lemma graft_root_parses g :
  Forall (λ s, valid_segment s = true) (gpPath g) → parsePath (graft_root g) = Ok (gpPath g).
Proof.
  intros Hv. unfold graft_root. destruct (isLeaf (gpNode g)).
  - by apply parsePath_joinPath.
  - by apply parsePath_trailing_dot.
Qed.

Lemma Unmount_detaches t g :
  Forall (λ s, valid_segment s = true) (gpPath g) → unmountable (root t) g →
  ∃ cs, Unmount t (graft_root g) = (set_root t (detach_point (root t) g), cs, Ok tt).
Proof.
  intros Hv Hu. destruct (unmountable_parent _ _ Hu) as (m&Hm&Hl&Hc&Hi).
  unfold Unmount. rewrite graft_root_parses by done. unfold gpPath.
  destruct (gpParent g ++ [gpName g]) as [|s rest] eqn:E; [by destruct (gpParent g)|].
  rewrite (split_last_snoc _ _ _ _ (eq_sym E)), (proj2 (lookup_ok _ _ _) Hm), Hl, Hc.
  destruct (table m); [rewrite Hi by done|]; by eexists.
Qed.

Lemma unmount_all_spec pts t :
  NoDup pts → (∀ g h, g ∈ pts → h ∈ pts → g ≠ h → incomparable g h) →
  (∀ g, g ∈ pts → Forall (λ s, valid_segment s = true) (gpPath g) ∧ unmountable (root t) g) →
  ∃ t', unmount_all t (graft_root <$> pts) = (t', (λ _, Ok tt) <$> pts) ∧
    (∀ q g, g ∈ pts → gpPath g `prefix_of` q → view t' q = None) ∧
    (∀ q, (∀ g, g ∈ pts → ¬ gpPath g `prefix_of` q) → view t' q = view t q).
Proof.
  intros HN. revert t. induction HN as [|g pts Hg HN IH]; intros t Hinc Hu.
  { exists t. split; [done|]. split; [by intros ?? ?%not_elem_of_nil|done]. }
  destruct (Hu g ltac:(left)) as [Hv Hug].
  destruct (Unmount_detaches t g Hv Hug) as [cs E].
  assert (∀ h, h ∈ pts → incomparable g h) as Hgh.
  { intros h Hh. apply Hinc; [left|by right|]. by intros ->. }
  destruct (IH (set_root t (detach_point (root t) g))) as (t'&E'&Hgone&Hkeep).
  - intros; apply Hinc; [by right..|done].
  - intros h Hh. split; [apply Hu; by right|]. apply detach_keeps; [done|by apply Hgh|].
    apply Hu; by right.
  - exists t'. split; [rewrite fmap_cons; cbn [unmount_all]; by rewrite E, E'|]. split.
    + intros q h [->|Hh]%elem_of_cons Hp; [|by eapply Hgone].
      destruct Hp as [r ->]. rewrite Hkeep.
      * unfold view, leaf_at. simpl. by rewrite detach_gone.
      * intros h Hh. by apply incomparable_app, Hgh.
    + intros q Hq. rewrite Hkeep by (intros; apply Hq; by right).
      apply detach_frame; [done|]. apply Hq. left.
Qed.

(** No table of [t] gains an instance from [o]. *)
Definition no_instances (t o : Tree) : Prop :=
  ∀ p n k, node_at p (root t) = Some n → is_Some (table n) → is_Some (node_at (p ++ [k]) (root o)) →
    instance_of k = None.

Lemma attached_unmountable t o pts g :
  collect_good (root t) (root o) [] pts → no_instances t o → g ∈ pts →
  unmountable (foldl attach_point (root t) pts) g.
Proof.
  intros Hgood Hni Hg. pose proof (good_points_free _ _ _ Hgood) as [Hfree Hinc].
  destruct Hgood as (_&HN&_). destruct (Hfree g Hg) as [Hfg Hsrc].
  assert (∀ g, g ∈ pts → free_at (root t) g) as Hf by (intros; by apply Hfree).
  destruct (attach_all pts (root t) HN Hinc Hf) as [Hin _].
  split; [rewrite <-(app_nil_r (gpPath g)); by rewrite Hin|].
  destruct (free_parent _ _ Hfg) as (m&Hm&Hl&_).
  exists (table m). split.
  - assert (∀ l n, (∀ h, h ∈ l → free_at n h) → NoDup l →
      (∀ h h', h ∈ l → h' ∈ l → h ≠ h' → incomparable h h') →
      (∀ h, h ∈ l → ¬ gpPath h `prefix_of` gpParent g) →
      kind_at (gpParent g) (foldl attach_point n l) = kind_at (gpParent g) n) as Hk.
    { clear. induction l as [|h l IH]; intros n Hf HN Hinc Hp; [done|]. inv HN as [|?? Hh HNl]. simpl.
      rewrite IH; [|..]; try done.
      - apply attach_kind; [apply Hf; left|apply Hp; left].
      - intros h' Hh'. apply free_step; [apply Hf; left|apply Hf; by right|].
        apply Hinc; [left|by right|]. by intros ->.
      - intros; apply Hinc; [by right..|done].
      - intros; apply Hp; by right. }
    rewrite Hk; [|done..|].
    + unfold kind_at. rewrite Hm. simpl. by rewrite Hl.
    + intros h Hh [r E]. destruct (Hf h Hh) as [_ Hn]. rewrite E in Hm.
      by rewrite node_at_app, Hn in Hm.
  - intros Htb. apply (Hni (gpParent g) m); [done..|]. eauto.
Qed.

(** Unmounting the paths [Graft] returned takes exactly the graft out
    again: every unmount succeeds and every leaf reads as before. This needs
    the graft not to have added instances to a table of the tree. *)
Theorem Unmount_undoes_Graft (t o t' : Tree) (cs : list Change) (roots : list string)
  (Hwo : wf_tree o)
  (Ht : isLeaf (root t) = false) (Ho : isLeaf (root o) = false) (Hni : no_instances t o)
  (H : Graft t (Some o) = (t', cs, Ok roots)) :
  ∃ t2, unmount_all t' roots = (t2, (λ _, Ok tt) <$> roots) ∧ ∀ q, view t2 q = view t q.
Proof.
  destruct (Graft_cases t o Ht Ho) as [[_ (e&E&_)]|(pts&Hgood&E)]; rewrite E in H; [done|].
  injection H as <- _ <-. pose proof (good_points_free _ _ _ Hgood) as [Hfree Hinc].
  pose proof Hgood as (Hpts&HN&_).
  assert (∀ g, g ∈ pts → free_at (root t) g) as Hf by (intros; by apply Hfree).
  destruct (attach_all pts (root t) HN Hinc Hf) as [Hin Hout].
  destruct (unmount_all_spec pts (set_root t (foldl attach_point (root t) pts)) HN Hinc)
    as (t2&E2&Hgone&Hkeep).
  { intros g Hg. split; [|by eapply attached_unmountable].
    destruct (Hfree g Hg) as [_ Hsrc]. exact (wf_node_at_segments _ _ _ Hwo Hsrc). }
  exists t2. split; [rewrite E2; f_equal; exact (list_fmap_compose graft_root (λ _, Ok tt) pts)|]. intros q.
  destruct (decide (Exists (λ g, gpPath g `prefix_of` q) pts)) as [Hex|Hnex].
  - apply Exists_exists in Hex as (g&Hg&Hp). rewrite (Hgone q g Hg Hp). destruct Hp as [r ->].
    destruct (Hf g Hg) as [_ Hn]. unfold view, leaf_at. by rewrite node_at_app, Hn.
  - assert (∀ g, g ∈ pts → ¬ gpPath g `prefix_of` q) as Hq.
    { intros g Hg Hp. apply Hnex, Exists_exists. eauto. }
    rewrite (Hkeep q Hq). unfold view. simpl. by apply Hout.
Qed.

Lemma ex_module_no_instances : no_instances ex_table ex_module.
Proof.
  intros p n k _ _ [m Hm]. destruct p as [|s p].
  - simpl in Hm. apply bind_Some in Hm as (c&[<- _]%lookup_singleton_Some&_). vm_compute. reflexivity.
  - simpl in Hm. apply bind_Some in Hm as (c&[_ <-]%lookup_singleton_Some&Hm). destruct p as [|s' p].
    + simpl in Hm. apply bind_Some in Hm as (c&[<- _]%lookup_singleton_Some&_). vm_compute. reflexivity.
    + simpl in Hm. apply bind_Some in Hm as (c&[_ <-]%lookup_singleton_Some&Hm). by destruct p.
Qed.

Lemma Unmount_undoes_Graft_witness :
  let r := Graft ex_table (Some ex_module) in
  ∃ t2, unmount_all r.1.1 ["Hosts.Module"] = (t2, [Ok tt]) ∧ ∀ q, view t2 q = view ex_table q.
Proof.
  exact (Unmount_undoes_Graft ex_table ex_module (Graft ex_table (Some ex_module)).1.1
    (Graft ex_table (Some ex_module)).1.2 ["Hosts.Module"]
    (wf_nodeb_sound (root ex_module) ltac:(vm_compute; reflexivity)) eq_refl eq_refl ex_module_no_instances
    ltac:(vm_compute; reflexivity)).
Defined.

(** A fragment that brings an instance of a table the tree has. *)
Definition ex_instance : Tree :=
  MkTree (MkNode {["Hosts" := MkNode {["Host" := MkNode {["7" := NewBranch]} None None None]}
                                None None None]} None None None) (MkObservers 0 ∅).

(** The condition is needed: [Graft] attaches a table instance, but the
    path it returns is one [Unmount] refuses, so the instance stays, and
    grafting the same fragment again attaches nothing. *)
Theorem Unmount_refuses_grafted_instance :
  let r := Graft ex_table (Some ex_instance) in
  r.2 = Ok ["Hosts.Host.7."] ∧
  match (unmount_all r.1.1 ["Hosts.Host.7."]).2 with
  | [Err e] => Is e KindInvalidArgument
  | _ => false
  end = true ∧
  node_at ["Hosts"; "Host"; "7"] (root (unmount_all r.1.1 ["Hosts.Host.7."]).1) = Some NewBranch ∧
  (Graft r.1.1 (Some ex_instance)).2 = Ok [].
Proof. split_and!; vm_compute; reflexivity. Qed.
