(* ===== verification/TreeInv.v ===== *)
(** * The tree as a transition system: every operation, from every reachable
    tree, keeps it well typed. *)
From Stdlib Require Import ZArith Lia Ascii String.
From S2P Require Import Prelude GoLib CpeErr Types Node Tree TreeProps Batch Objects ObjectsProps Listing Graft.

Lemma counter_ok_replace r n p ch' k :
  node_at p r = Some n → isLeaf n = false →
  (∀ k', k' ≠ k → ch' !! k' = children n !! k') →
  counter_ok r p → counter_ok (alter_at (λ _, set_children ch' n) p r) p.
Proof.
  intros Hn Hl Hch Hok c v Hc. rewrite (replace_frame r n p ch' Hn Hl k); [by apply Hok|done|].
  by destruct (counter_path_disjoint p [k] c Hc).
Qed.

Lemma wf_AddObject t path :
  wf_tree t →
  (∀ p n, parsePath path = Ok p → node_at p (root t) = Some n →
     counter_ok (root t) p ∧ (Z.of_nat (size (children n)) + 1 < 2 ^ 31)%Z) →
  wf_tree (AddObject t path).1.1.
Proof.
  intros Hw Hpre. unfold AddObject. destruct (parsePath path) as [p|e] eqn:Hp; [|done].
  destruct (lookup (root t) p) as [n|e] eqn:Hn; [|done]. apply lookup_ok in Hn.
  destruct (table n) as [tmpl|] eqn:Ht; [|done].
  destruct (Hpre p n) as [Hok Hsz]; [done..|].
  destruct (next_instance (children n)) as (i&Hf&Hi&Hno&_); [lia|]. rewrite Hf, clone_id.
  pose proof (wf_node_at _ _ _ Hw Hn) as Hwn. pose proof (wf_table_not_leaf n tmpl Hwn Ht) as Hl.
  destruct (syncEntryCount _ _ _ _) as [r2 oc] eqn:Es. simpl.
  eapply sync_wf; [by eapply parsePath_segments| |exact Es|..].
  - by apply (replace_at _ n).
  - apply replace_wf; [done..|]. intros k c. destruct (decide (Strconv.Itoa i = k)) as [<-|Hne].
    + rewrite lookup_insert_eq. intros [= <-]. split; [apply Itoa_valid_segment; lia|].
      by apply (wf_node_inv _ Hwn).
    + rewrite lookup_insert_ne by done. by apply wf_node_inv.
  - eapply counter_ok_replace; [done..| |done]. intros k Hk. by apply lookup_insert_ne.
  - simpl. rewrite (count_insert _ _ _ i) by (done || (apply instance_of_Itoa; lia)).
    pose proof (count_instances_bound (children n)). lia.
Qed.

Lemma wf_DeleteObject t path :
  wf_tree t →
  (∀ p k n, parsePath path = Ok (p ++ [k]) → node_at p (root t) = Some n →
     counter_ok (root t) p ∧ (Z.of_nat (size (children n)) < 2 ^ 31)%Z) →
  wf_tree (DeleteObject t path).1.1.
Proof.
  intros Hw Hpre. unfold DeleteObject. destruct (parsePath path) as [[|s rest]|e] eqn:Hp; [done| |done].
  destruct (split_last s rest) as [p k] eqn:Esp. apply split_last_spec in Esp. rewrite Esp in *.
  destruct (instance_of k) as [i|] eqn:Hi; [|done].
  destruct (lookup (root t) p) as [n|e] eqn:Hn; [|done]. apply lookup_ok in Hn.
  destruct (table n) as [tmpl|] eqn:Ht; [|done].
  destruct (children n !! k) as [c|] eqn:Hc; [|done].
  destruct (Hpre p k n) as [Hok Hsz]; [done..|].
  pose proof (wf_node_at _ _ _ Hw Hn) as Hwn. pose proof (wf_table_not_leaf n tmpl Hwn Ht) as Hl.
  destruct (syncEntryCount _ _ _ _) as [r2 oc] eqn:Es. simpl.
  pose proof (parsePath_segments _ _ Hp) as Hv. apply Forall_app in Hv as [Hv _].
  eapply sync_wf; [exact Hv| |exact Es|..].
  - by apply (replace_at _ n).
  - apply replace_wf; [done..|]. intros k' c' [_ Hk]%lookup_delete_Some. by apply (wf_node_inv _ Hwn).
  - eapply counter_ok_replace; [done..| |done]. intros k' Hk. by apply lookup_delete_ne.
  - simpl. rewrite (count_delete _ _ _ i Hc Hi).
    pose proof (count_instances_bound (children n)). lia.
Qed.

Lemma wf_foldl_apply n0 l resolved n :
  Forall2 (resolves n0) l resolved → Forall (names_leaf n) resolved → wf_node n →
  wf_node (foldl apply_entry n resolved).
Proof.
  intros HF. revert n. induction HF as [|e r l rs (_&_&Hnew&Hwv&_) HF IH]; intros n Hex Hw; [done|].
  inv Hex as [|?? Hr Hrs]. simpl. apply IH.
  - eapply Forall_impl; [exact Hrs|]. intros. by apply names_leaf_step.
  - destruct Hr as (v&(m&Hm&Hv)%leaf_at_node). unfold apply_entry. rewrite Hnew.
    eapply wf_alter_at; [done..|]. intros. apply wf_set_leaf; [done|apply isLeaf_true; eauto|done].
Qed.

Lemma wf_SetBatch t l : wf_tree t → wf_tree (SetBatch t l).1.1.
Proof.
  intros Hw. unfold SetBatch. destruct l as [|s l]; [done|].
  destruct (preflight_cases (root t) (s :: l)) as [(_&rs&->&HF&_)|(_&e&->&_)]; [|done].
  eapply wf_foldl_apply; [done| |done]. by eapply resolves_names_leaf.
Qed.

Lemma wf_attach n g :
  wf_node n → free_at n g → valid_segment (gpName g) = true → wf_node (gpNode g) → wf_node (attach_point n g).
Proof.
  intros Hw Hf Hk Hg. destruct (free_parent n g Hf) as (m&Hm&Hl&_). unfold attach_point. rewrite clone_id.
  eapply wf_alter_at; [done..|]. intros Hwm. by apply wf_insert_child.
Qed.

Lemma wf_attach_all pts n :
  NoDup pts → (∀ g h, g ∈ pts → h ∈ pts → g ≠ h → incomparable g h) → (∀ g, g ∈ pts → free_at n g) →
  (∀ g, g ∈ pts → valid_segment (gpName g) = true ∧ wf_node (gpNode g)) →
  wf_node n → wf_node (foldl attach_point n pts).
Proof.
  intros HN. revert n. induction HN as [|g pts Hg HN IH]; intros n Hinc Hfree Hok Hw; [done|]. cbn [foldl].
  destruct (Hok g ltac:(left)) as [Hk Hn]. apply IH.
  - intros; apply Hinc; [by right..|done].
  - intros h Hh. apply free_step; [apply Hfree; by left|apply Hfree; by right|].
    apply Hinc; [by left|by right|]. by intros ->.
  - intros h Hh. apply Hok. by right.
  - apply wf_attach; [done|apply Hfree; by left|done..].
Qed.

Lemma wf_Graft t o : wf_tree t → wf_tree o → isLeaf (root t) = false → isLeaf (root o) = false →
  wf_tree (Graft t (Some o)).1.1.
Proof.
  intros Hw Ho Ht Hl. destruct (Graft_cases t o Ht Hl) as [(_&e&->&_)|(pts&Hgood&->)]; [done|].
  destruct (good_points_free _ _ _ Hgood) as [Hfree Hinc]. destruct Hgood as (_&HN&_).
  apply wf_attach_all; [done|done|by apply Hfree| |done]. intros g Hg. destruct (Hfree g Hg) as [_ Hsrc].
  split; [|by eapply wf_node_at]. pose proof (wf_node_at_segments _ _ _ Ho Hsrc) as HF.
  apply Forall_app in HF as [_ HF]. by inv HF.
Qed.

Lemma wf_Unmount t path : wf_tree t → wf_tree (Unmount t path).1.1.
Proof.
  intros Hw. unfold Unmount. destruct (parsePath path) as [[|s rest]|e]; [done| |done].
  destruct (split_last s rest) as [init k]. destruct (lookup (root t) init) as [m|e] eqn:Hm; [|done].
  apply lookup_ok in Hm. destruct (isLeaf m) eqn:Hl; [done|]. destruct (children m !! k) as [c|]; [|done].
  destruct (match table m with Some _ => _ | None => _ end); [done|].
  eapply wf_alter_at; [done..|]. intros Hwm. apply wf_set_children; [done..|].
  intros k' c' [_ Hk]%lookup_delete_Some. by apply (wf_node_inv _ Hwm).
Qed.

(** ** The root is an object *)

Lemma leaf_alter_at f p n : (p = [] → leaf (f n) = leaf n) → leaf (alter_at f p n) = leaf n.
Proof. destruct p; [by intros H; apply H|done]. Qed.
Lemma leaf_mount_go path segs last c n : leaf (mount_go path segs last c n).1 = leaf n.
Proof.
  destruct segs as [|s segs]; simpl; destruct (isLeaf n); try done; [by case_match|].
  by destruct (mount_go _ _ _ _ _).
Qed.
Lemma leaf_addtable_go path segs tmpl n : leaf (addtable_go path segs tmpl n).1 = leaf n.
Proof.
  destruct segs as [|s segs]; simpl; destruct (isLeaf n); try done; [by case_match|].
  by destruct (addtable_go _ _ _ _).
Qed.
Lemma leaf_sync h r segs tbl : leaf (syncEntryCount h r segs tbl).1 = leaf r.
Proof.
  unfold syncEntryCount. repeat case_match; try done; cbn [fst]; apply leaf_alter_at; by intros []%app_nil.
Qed.
Lemma leaf_attach_all pts n : leaf (foldl attach_point n pts) = leaf n.
Proof. revert n; induction pts as [|g pts IH]; intros n; [done|]. cbn [foldl]. rewrite IH. by apply leaf_alter_at. Qed.
Lemma leaf_apply_entry n r : leaf n = None → is_Some (leaf_at (beNode r) n) → leaf (apply_entry n r) = None.
Proof.
  intros Hn [v (m&Hm&Hv)%leaf_at_node]. rewrite <-Hn. apply leaf_alter_at. intros E. rewrite E in Hm. simplify_eq/=.
Qed.
Lemma leaf_apply_entries n0 l resolved n :
  Forall2 (resolves n0) l resolved → Forall (names_leaf n) resolved → leaf n = None →
  leaf (foldl apply_entry n resolved) = None.
Proof.
  intros HF. revert n. induction HF as [|e r l rs Hres HF IH]; intros n Hex Hn; [done|].
  inv Hex as [|?? Hr Hrs]. simpl. apply IH; [|by apply leaf_apply_entry].
  eapply Forall_impl; [exact Hrs|]. intros. by apply names_leaf_step.
Qed.

(** ** The transition system *)

Inductive tree_op :=
| OpMount (path : string) (n : Node)
| OpAddTable (path : string) (template : option Node)
| OpSet (path : string) (v : Value)
| OpSetSystem (path raw : string)
| OpSetAttributes (path : string) (a : Attributes)
| OpSetBatch (l : list Setter)
| OpAddObject (path : string)
| OpDeleteObject (path : string)
| OpGraft (other : option Tree)
| OpUnmount (path : string)
| OpReset (other : option Tree)
| OpObserve
| OpCancel (id : nat).

Definition exec (t : Tree) (o : tree_op) : Tree :=
  match o with
  | OpMount path n => (Mount t path n).1.1
  | OpAddTable path tmpl => (AddTable t path tmpl).1.1
  | OpSet path v => (Set_ t path v).1.1
  | OpSetSystem path raw => (SetSystem t path raw).1.1
  | OpSetAttributes path a => (SetAttributes t path a).1.1
  | OpSetBatch l => (SetBatch t l).1.1
  | OpAddObject path => (AddObject t path).1.1
  | OpDeleteObject path => (DeleteObject t path).1.1
  | OpGraft o => (Graft t o).1.1
  | OpUnmount path => (Unmount t path).1.1
  | OpReset o => (Reset_ t o).1.1
  | OpObserve => (Observe t).1
  | OpCancel id => Observe_cancel t id
  end.

(** What a caller owes: well-typed nodes to mount and templates to add
    instances from, well-typed trees to graft or to swap in, and, for the two
    operations that recount a table, a counter leaf of a type that holds a
    number and a table of fewer than [2^31 - 1] children. *)
Definition object_tree (t : Tree) : Prop := wf_tree t ∧ isLeaf (root t) = false.
Definition table_ok (t : Tree) (p : list string) : Prop :=
  counter_ok (root t) p ∧
  ∀ n, node_at p (root t) = Some n → (Z.of_nat (size (children n)) + 1 < 2 ^ 31)%Z.

Definition op_ok (t : Tree) (o : tree_op) : Prop :=
  match o with
  | OpMount _ n => wf_node n
  | OpAddTable _ (Some n) => wf_node n
  | OpAddObject path => ∀ p, parsePath path = Ok p → table_ok t p
  | OpDeleteObject path => ∀ p k, parsePath path = Ok (p ++ [k]) → table_ok t p
  | OpGraft (Some o) | OpReset (Some o) => object_tree o
  | _ => True
  end.

Inductive reachable : Tree → Prop :=
| reach_new : reachable New_
| reach_step t o : reachable t → op_ok t o → reachable (exec t o).

Lemma exec_leaf t o : leaf (root t) = None → op_ok t o → leaf (root (exec t o)) = None.
Proof.
  intros Hn Hok. assert (∀ f p m v, node_at p (root t) = Some m → leaf m = Some v → leaf (alter_at f p (root t)) = None) as Hleaf.
  { intros f p m v Hm Hv. rewrite <-Hn. apply leaf_alter_at. intros ->. simplify_eq/=. }
  destruct o as [path n|path [n|]|path v|path raw|path a|l|path|path|[o|]|path|[o|]| |id]; cbn [exec]; try done.
  - unfold Mount. destruct (parsePath path) as [[|s rest]|]; [done| |done]. destruct (split_last s rest) as [i k].
    pose proof (leaf_mount_go path i k n (root t)) as H. destruct (mount_go _ _ _ _ _). cbn in *. congruence.
  - unfold AddTable. destruct (parsePath path) as [[|s rest]|]; [done| |done].
    pose proof (leaf_addtable_go path (s :: rest) n (root t)) as H. destruct (addtable_go _ _ _ _). cbn in *. congruence.
  - unfold AddTable. by destruct (parsePath path) as [[|??]|].
  - destruct (Set_inv t path v) as [[e ->]|(p&m&old&_&Hm&Hv&_&->)]; [done|]. by eapply Hleaf.
  - destruct (SetSystem_inv t path raw) as [[e ->]|(p&m&old&_&Hm&Hv&_&->)]; [done|]. by eapply Hleaf.
  - destruct (SetAttributes_inv t path a) as [[e ->]|(p&m&old&_&Hm&Hv&->)]; [done|]. by eapply Hleaf.
  - unfold SetBatch. destruct l as [|s l]; [done|].
    destruct (preflight_cases (root t) (s :: l)) as [(_&rs&->&HF&_)|(_&e&->&_)]; [|done].
    eapply leaf_apply_entries; [done| |done]. by eapply resolves_names_leaf.
  - unfold AddObject. repeat case_match; try done;
      match goal with H : syncEntryCount ?h ?r ?s ?n = (?r2, _) |- _ => pose proof (leaf_sync h r s n) as Hs; rewrite H in Hs end;
      cbn; simpl in Hs; rewrite Hs, <-Hn; apply leaf_alter_at; intros ->;
      match goal with H : lookup (root t) [] = Ok _ |- _ => by injection H as -> end.
  - unfold DeleteObject. repeat case_match; try done;
      match goal with H : syncEntryCount ?h ?r ?s ?n = (?r2, _) |- _ => pose proof (leaf_sync h r s n) as Hs; rewrite H in Hs end;
      cbn; simpl in Hs; rewrite Hs, <-Hn; apply leaf_alter_at; intros ->;
      match goal with H : lookup (root t) [] = Ok _ |- _ => by injection H as -> end.
  - unfold Graft. destruct (collect _ _ _); [|done]. cbn. by rewrite leaf_attach_all.
  - unfold Unmount. repeat case_match; try done; cbn; rewrite <-Hn; by apply leaf_alter_at.
  - destruct Hok as [_ Hl]. by apply isLeaf_false in Hl.
Qed.

Lemma exec_wf t o : wf_tree t → leaf (root t) = None → op_ok t o → wf_tree (exec t o).
Proof.
  intros Hw Hroot Hok. destruct o as [path n|path [n|]|path v|path raw|path a|l|path|path|[o|]|path|[o|]| |id];
    cbn [exec op_ok] in *; try done.
  - by apply (construction_keeps_wf t path n).
  - by apply (construction_keeps_wf t path n).
  - unfold AddTable. by destruct (parsePath path) as [[|??]|].
  - by apply (wf_ops_leaf t path "" v Attributes_zero).
  - by apply (wf_ops_leaf t path raw Value_zero Attributes_zero).
  - by apply (wf_ops_leaf t path "" Value_zero a).
  - by apply wf_SetBatch.
  - apply wf_AddObject; [done|]. intros p n Hp Hn. destruct (Hok p Hp) as [? Hs]. split; [done|].
    by apply Hs.
  - apply wf_DeleteObject; [done|]. intros p k n Hp Hn. destruct (Hok p k Hp) as [? Hs].
    split; [done|]. specialize (Hs n Hn). lia.
  - destruct Hok. apply wf_Graft; [done..|by apply isLeaf_false|done].
  - by apply wf_Unmount.
  - by destruct Hok.
Qed.

(** C5. The type invariant: in every tree the operations can reach from the
    empty one, every leaf holds a value its declared type accepts, as long as
    what is mounted, grafted, swapped in or declared as a template is itself
    well typed, and, whenever an instance is added or deleted, the table has
    fewer than [2^31 - 1] children and its counter leaf a type that holds
    numbers. Writes and batches need no such care, whatever they write. *)
Theorem reachable_wf (t : Tree) (H : reachable t) : wf_tree t.
Proof.
  enough (wf_tree t ∧ leaf (root t) = None) by tauto.
  induction H as [|t o Hr [IH Hl] Hok]; [by split; [apply wf_NewBranch|]|].
  split; [by apply exec_wf|by apply exec_leaf].
Qed.

(** Example: mount a typed leaf, write it, write it badly, graft a module. *)
Definition ex_ops : Tree :=
  exec (exec (exec (exec New_ (OpMount "Device.X" (NewLeaf (MkValue TypeInt "1" true))))
    (OpSet "Device.X" (MkValue TypeInt "42" true))) (OpSet "Device.X" (MkValue TypeInt "4294967296" true)))
    (OpGraft (Some ex_module)).

Lemma reachable_wf_witness :
  wf_tree ex_ops ∧ Get ex_ops "Device.X" = Ok (MkValue TypeInt "42" true).
Proof.
  split; [|vm_compute; reflexivity].
  apply (reachable_wf ex_ops). repeat apply reach_step; try exact I; [apply reach_new|..].
  - apply wf_NewLeaf. reflexivity.
  - split; [apply wf_nodeb_sound; vm_compute; reflexivity|reflexivity].
Defined.

(** ** Batches and single writes *)

Fixpoint set_all (t : Tree) (l : list Setter) : Tree * list Change * list (result error unit) :=
  match l with
  | [] => (t, [], [])
  | s :: rest =>
      let '(t1, cs, r) := Set_ t (sPath s) (sValue s) in
      let '(t2, cs2, rs) := set_all t1 rest in
      (t2, cs ++ cs2, r :: rs)
  end.

Definition batch_changes (t : Tree) (l : list BatchResult) : list Change :=
  flat_map (λ r, value_change t (brPath r) (OldValue r) (NewValue r)) l.

Lemma spec_set_ok s p v s' :
  spec_set s p v = Ok s' →
  ∃ old, s p = Some old ∧ Writable old = true ∧ vType old = vType v ∧ valid_raw (vType v) (Raw v) = true.
Proof.
  unfold spec_set. destruct (s p) as [old|]; [|done].
  destruct (Writable old) eqn:?; [|done]. destruct (String.eqb_spec (vType old) (vType v)); [|done].
  destruct (valid_raw _ _) eqn:?; [|done]. eauto.
Qed.

Lemma Set_ok_form t path v p old :
  parsePath path = Ok p → view t p = Some old → Writable old = true → vType old = vType v →
  valid_raw (vType v) (Raw v) = true →
  Set_ t path v = (set_root t (alter_at (set_leaf v) p (root t)), value_change t path old v, Ok tt).
Proof.
  intros Hp (m&Hm&Hl)%leaf_at_node Hw Ht Hv. unfold Set_. rewrite Hp.
  rewrite (proj2 (resolve_leaf_ok _ _ _ _ m old)), Hw, Ht, String.eqb_refl by done. simpl.
  by rewrite (proj2 (Validate_ok _ _ tt) Hv).
Qed.

Lemma set_all_resolved t0 l rs t :
  Forall2 (resolves (root t0)) l rs → NoDup (beNode <$> rs) → obs t = obs t0 →
  (∀ r, r ∈ rs → leaf_at (beNode r) (root t) = Some (beOld r)) →
  set_all t l = (set_root t (foldl apply_entry (root t) rs),
                 batch_changes t0 (zip_with batch_result l rs), (λ _, Ok tt) <$> l).
Proof.
  intros HF. revert t. induction HF as [|s r l rs (Hp&Hold&Hnew&_&Hs) HF IH]; intros t HN Hobs Hin.
  { by destruct t. }
  apply spec_set_ok in Hs as (old&Ho&Hw&Ht&Hv). unfold store_of in Ho.
  assert (old = beOld r) as -> by congruence.
  apply NoDup_cons in HN as [Hnr HN].
  assert (leaf_at (beNode r) (root t) = Some (beOld r)) as Hr by (apply Hin; left).
  cbn [set_all]. rewrite (Set_ok_form t (sPath s) (sValue s) (beNode r) (beOld r)) by done.
  rewrite IH; [|done|done|].
  - assert (∀ o v, value_change t (sPath s) o v = value_change t0 (sPath s) o v) as ->.
    { intros. unfold value_change, hasObservers. by rewrite Hobs. }
    rewrite <-!Hnew. reflexivity.
  - intros r' Hr'. simpl. rewrite <-Hnew.
    rewrite (apply_entry_view (root t) r) by (by eexists).
    unfold spec_update, store_of. rewrite decide_False; [by apply Hin; right|].
    intros E. apply Hnr. rewrite E. by apply list_elem_of_fmap_2.
Qed.

(** A batch that applies leaves exactly the tree that writing its entries
    one by one would, each of those writes succeeding; but where the single
    writes notify the observers of every value that moved, the batch notifies
    them of none. *)
Theorem SetBatch_like_Sets (t t' : Tree) (l : list Setter) (cs : list Change) (res : list BatchResult)
  (H : SetBatch t l = (t', cs, Ok (Some res))) :
  set_all t l = (t', batch_changes t res, (λ _, Ok tt) <$> l) ∧ cs = [].
Proof.
  unfold SetBatch in H. destruct l as [|s0 l0]; [done|]. set (l := s0 :: l0) in *.
  destruct (preflight_cases (root t) l) as [(_&rs&E&HF&HN)|(_&e&E&_)]; rewrite E in H; [|done].
  assert (res = zip_with batch_result l rs) as -> by (by injection H).
  injection H as <- <-. split; [|done]. apply set_all_resolved; [done..|].
  clear -HF. intros r Hr. induction HF as [|e b l rs (_&Ho&_) HF IH]; [by apply not_elem_of_nil in Hr|].
  apply elem_of_cons in Hr as [->|Hr]; auto.
Qed.

Lemma SetBatch_like_Sets_witness :
  let l := [MkSetter "S" (MkValue TypeString "b" true); MkSetter "Device.X" (MkValue TypeInt "2" true)] in
  ∃ res, set_all ex_tree l = ((SetBatch ex_tree l).1.1, batch_changes ex_tree res, [Ok tt; Ok tt])
         ∧ (SetBatch ex_tree l).1.2 = [] ∧ length (batch_changes ex_tree res) = 2%nat.
Proof.
  pose (l := [MkSetter "S" (MkValue TypeString "b" true); MkSetter "Device.X" (MkValue TypeInt "2" true)]).
  pose (res := [MkBatchResult "S" (MkValue TypeString "a" true) (MkValue TypeString "b" true) true;
                MkBatchResult "Device.X" (MkValue TypeInt "1" true) (MkValue TypeInt "2" true) true]).
  destruct (SetBatch_like_Sets ex_tree (SetBatch ex_tree l).1.1 l (SetBatch ex_tree l).1.2 res
    ltac:(vm_compute; reflexivity)) as [H1 H2].
  exists res. split; [exact H1|]. split; [exact H2|]. vm_compute. reflexivity.
Defined.
