(* ===== verification/EventTracker.v ===== *)
(** * What a CPE still has to tell its ACS ([internal/cwmp/eventtracker.go],
    the event codes of [internal/cwmp/inform/types.go]).

    The tracker decides the Event array of each Inform and keeps what a
    session failed to deliver. *)
From Stdlib Require Import ZArith Lia Ascii String.
From S2P Require Import Prelude.

(** ** inform/types.go *)
Definition EventBootstrap := "0 BOOTSTRAP".
Definition EventBoot := "1 BOOT".
Definition EventPeriodic := "2 PERIODIC".
Definition EventValueChange := "4 VALUE CHANGE".
Definition EventConnectionRequest := "6 CONNECTION REQUEST".
Definition EventTransferComplete := "7 TRANSFER COMPLETE".
Definition EventDUStateChange := "11 DU STATE CHANGE COMPLETE".
Definition EventMethodReboot := "M Reboot".
Definition EventMethodScheduleInform := "M ScheduleInform".
Definition EventMethodDownload := "M Download".
Definition EventMethodUpload := "M Upload".
Definition EventMethodChangeDUState := "M ChangeDUState".

Record Event := MkEvent { EventCode : string; CommandKey : string }.
#[export] Instance Event_eq_dec : EqDecision Event.
Proof. solve_decision. Defined.

(** ** transfer.Complete and dustate.Complete; instants are [time.Time]
    values, kept as integers. *)
Record transfer_Complete := MkTransferComplete {
  tcCommandKey : string; tcFaultCode : Z; tcFaultString : string;
  tcStartTime : Z; tcCompleteTime : Z
}.
#[export] Instance transfer_Complete_eq_dec : EqDecision transfer_Complete.
Proof. solve_decision. Defined.

Record OpResult := MkOpResult {
  opUUID : string; DeploymentUnitRef : string; Version : string; CurrentState : string;
  Resolved : bool; ExecutionUnitRefList : string; opStartTime : Z; opCompleteTime : Z;
  opFaultCode : Z; opFaultString : string
}.
#[export] Instance OpResult_eq_dec : EqDecision OpResult.
Proof. solve_decision. Defined.

Record dustate_Complete := MkDUStateComplete { duCommandKey : string; Results : list OpResult }.
#[export] Instance dustate_Complete_eq_dec : EqDecision dustate_Complete.
Proof. solve_decision. Defined.

(** ** eventtracker.go *)

Inductive Trigger :=
| TriggerStartup
| TriggerPeriodic
| TriggerConnectionRequest
| TriggerValueChange
| TriggerTransferComplete
| TriggerRetry
| TriggerDUStateChangeComplete.
#[export] Instance Trigger_eq_dec : EqDecision Trigger.
Proof. solve_decision. Defined.

(** The numbers [iota] gives them. *)
Definition Trigger_number (t : Trigger) : Z :=
  match t with
  | TriggerStartup => 0 | TriggerPeriodic => 1 | TriggerConnectionRequest => 2 | TriggerValueChange => 3
  | TriggerTransferComplete => 4 | TriggerRetry => 5 | TriggerDUStateChangeComplete => 6
  end.

Record EventTracker := MkEventTracker {
  bootstrapDone : bool;
  bootstrapPending : bool;
  pendingEvents : list Event;
  pendingValueChanges : list string;
  pendingTransferCompletes : list transfer_Complete;
  pendingDUStateCompletes : list dustate_Complete;
  baseParameterLists : gmap string (list string)
}.

Definition NewEventTracker (base : gmap string (list string)) : EventTracker :=
  MkEventTracker false false [] [] [] [] base.

Definition set_pendingEvents (l : list Event) (t : EventTracker) : EventTracker :=
  MkEventTracker (bootstrapDone t) (bootstrapPending t) l (pendingValueChanges t)
    (pendingTransferCompletes t) (pendingDUStateCompletes t) (baseParameterLists t).
Definition set_bootstrap (done pending : bool) (t : EventTracker) : EventTracker :=
  MkEventTracker done pending (pendingEvents t) (pendingValueChanges t)
    (pendingTransferCompletes t) (pendingDUStateCompletes t) (baseParameterLists t).
Definition set_pendingValueChanges (l : list string) (t : EventTracker) : EventTracker :=
  MkEventTracker (bootstrapDone t) (bootstrapPending t) (pendingEvents t) l
    (pendingTransferCompletes t) (pendingDUStateCompletes t) (baseParameterLists t).
Definition set_pendingTransferCompletes (l : list transfer_Complete) (t : EventTracker) : EventTracker :=
  MkEventTracker (bootstrapDone t) (bootstrapPending t) (pendingEvents t) (pendingValueChanges t)
    l (pendingDUStateCompletes t) (baseParameterLists t).
Definition set_pendingDUStateCompletes (l : list dustate_Complete) (t : EventTracker) : EventTracker :=
  MkEventTracker (bootstrapDone t) (bootstrapPending t) (pendingEvents t) (pendingValueChanges t)
    (pendingTransferCompletes t) l (baseParameterLists t).

(** The event a trigger announces of its own; a retry announces none. *)
Definition primary_event (trigger : Trigger) : option Event :=
  match trigger with
  | TriggerStartup => Some (MkEvent EventBoot "")
  | TriggerPeriodic => Some (MkEvent EventPeriodic "")
  | TriggerConnectionRequest => Some (MkEvent EventConnectionRequest "")
  | TriggerValueChange => Some (MkEvent EventValueChange "")
  | TriggerTransferComplete => Some (MkEvent EventTransferComplete "")
  | TriggerDUStateChangeComplete => Some (MkEvent EventDUStateChange "")
  | TriggerRetry => None
  end.

(** The loop keeps the first of each and drops what it has seen. *)
Fixpoint dedupe_go (seen out l : list Event) : list Event :=
  match l with
  | [] => out
  | e :: l' =>
      if bool_decide (e ∈ seen) then dedupe_go seen out l'
      else dedupe_go (e :: seen) (out ++ [e]) l'
  end.
Definition dedupeEvents (events : list Event) : list Event :=
  if (length events <? 2)%nat then events else dedupe_go [] [] events.

Definition NextSessionEvents (t : EventTracker) (trigger : Trigger) : list Event * EventTracker :=
  let '(events, t) :=
    match primary_event trigger with
    | Some e => ([e], t)
    | None => (pendingEvents t, set_pendingEvents [] t)
    end in
  let '(events, t) :=
    if negb (bootstrapDone t)
    then (events ++ [MkEvent EventBootstrap ""], set_bootstrap (bootstrapDone t) true t)
    else (events, t) in
  let '(events, t) :=
    if negb (bool_decide (trigger = TriggerRetry)) && (0 <? length (pendingEvents t))%nat
    then (events ++ pendingEvents t, set_pendingEvents [] t)
    else (events, t) in
  let events :=
    if (0 <? length (pendingTransferCompletes t))%nat
    then events ++ [MkEvent EventTransferComplete ""] else events in
  (dedupeEvents events, t).

Definition SessionParameterLists (t : EventTracker) : gmap string (list string) :=
  if (0 <? length (pendingValueChanges t))%nat
  then <[EventValueChange := pendingValueChanges t]> (baseParameterLists t)
  else baseParameterLists t.

Definition Acknowledge (t : EventTracker) : EventTracker :=
  let t := set_pendingValueChanges [] t in
  if bootstrapPending t then set_bootstrap true false t else t.

Definition ResetBootstrap (t : EventTracker) : EventTracker := set_bootstrap false false t.

Definition requeueEvent (e : Event) (t : EventTracker) : EventTracker :=
  set_pendingEvents (pendingEvents t ++ [e]) t.
Definition queueMethod (eventCode commandKey : string) (t : EventTracker) : EventTracker :=
  requeueEvent (MkEvent eventCode commandKey) t.
Definition QueueMethodReboot := queueMethod EventMethodReboot.
Definition QueueMethodScheduleInform := queueMethod EventMethodScheduleInform.
Definition QueueMethodDownload := queueMethod EventMethodDownload.
Definition QueueMethodUpload := queueMethod EventMethodUpload.
Definition QueueMethodChangeDUState := queueMethod EventMethodChangeDUState.
Definition QueuePeriodic (t : EventTracker) : EventTracker := requeueEvent (MkEvent EventPeriodic "") t.

Definition RecordValueChange (path : string) (t : EventTracker) : EventTracker :=
  if String.eqb path "" then t
  else if bool_decide (path ∈ pendingValueChanges t) then t
  else set_pendingValueChanges (pendingValueChanges t ++ [path]) t.

Definition QueueTransferComplete (rec : transfer_Complete) (t : EventTracker) : EventTracker :=
  set_pendingTransferCompletes (pendingTransferCompletes t ++ [rec]) t.
Definition DrainTransferCompletes (t : EventTracker) : list transfer_Complete * EventTracker :=
  (pendingTransferCompletes t, set_pendingTransferCompletes [] t).
Definition HasPendingTransferCompletes (t : EventTracker) : bool :=
  (0 <? length (pendingTransferCompletes t))%nat.

Definition QueueDUStateChangeComplete (rec : dustate_Complete) (t : EventTracker) : EventTracker :=
  set_pendingDUStateCompletes (pendingDUStateCompletes t ++ [rec]) t.
Definition DrainDUStateChangeCompletes (t : EventTracker) : list dustate_Complete * EventTracker :=
  (pendingDUStateCompletes t, set_pendingDUStateCompletes [] t).
Definition HasPendingDUStateChangeCompletes (t : EventTracker) : bool :=
  (0 <? length (pendingDUStateCompletes t))%nat.

Definition HasPendingValueChanges (t : EventTracker) : bool :=
  (0 <? length (pendingValueChanges t))%nat.

(** ** Deduplication *)

Lemma dedupe_go_spec seen out l :
  NoDup out → (∀ e, e ∈ seen ↔ e ∈ out) →
  NoDup (dedupe_go seen out l) ∧
  (∀ e, e ∈ dedupe_go seen out l ↔ e ∈ out ∨ e ∈ l) ∧
  out `prefix_of` dedupe_go seen out l.
Proof.
  revert seen out; induction l as [|e l IH]; intros seen out HN Hs; simpl.
  { split; [done|]. split; [set_solver|done]. }
  case_bool_decide as He.
  - destruct (IH seen out HN Hs) as (?&Hel&?). split; [done|]. split; [|done].
    intros e'. rewrite Hel, elem_of_cons. apply Hs in He. naive_solver.
  - destruct (IH (e :: seen) (out ++ [e])) as (HN'&Hel&Hp).
    + apply NoDup_app. split; [done|]. split; [|apply NoDup_singleton].
      intros x Hx ->%list_elem_of_singleton. apply He. by apply Hs.
    + set_solver.
    + split; [done|]. split.
      * intros x. rewrite Hel. set_solver.
      * etrans; [|exact Hp]. by exists [e].
Qed.

Lemma dedupeEvents_spec l :
  NoDup (dedupeEvents l) ∧ (∀ e, e ∈ dedupeEvents l ↔ e ∈ l) ∧ head (dedupeEvents l) = head l.
Proof.
  unfold dedupeEvents. destruct (Nat.ltb_spec (length l) 2) as [H|H].
  - destruct l as [|e [|e' l]]; simpl in H; try lia; (split; [|done]).
    + constructor.
    + apply NoDup_singleton.
  - destruct (dedupe_go_spec [] [] l) as (HN&He&_); [constructor|set_solver|].
    split; [done|]. split; [intros e; rewrite He; set_solver|].
    destruct l as [|e l]; [simpl in H; lia|]. cbn [dedupe_go].
    rewrite bool_decide_false by apply not_elem_of_nil.
    change ([] ++ [e]) with [e].
    destruct (dedupe_go_spec [e] [e] l) as (_&_&[r ->]); [apply NoDup_singleton|set_solver|done].
Qed.

(** ** What the next session announces *)

Definition announces (t : EventTracker) (trigger : Trigger) (e : Event) : Prop :=
  primary_event trigger = Some e ∨ e ∈ pendingEvents t ∨
  (bootstrapDone t = false ∧ e = MkEvent EventBootstrap "") ∨
  (pendingTransferCompletes t ≠ [] ∧ e = MkEvent EventTransferComplete "").

Lemma length_pos_bool {A} (l : list A) : (0 <? length l)%nat = true ↔ l ≠ [].
Proof. rewrite Nat.ltb_lt. destruct l; simpl; split; [lia|done|done|lia]. Qed.

(** The slice before deduplication. *)
Definition raw_events (t : EventTracker) (trigger : Trigger) : list Event :=
  (match primary_event trigger with Some e => [e] | None => pendingEvents t end)
  ++ (if bootstrapDone t then [] else [MkEvent EventBootstrap ""])
  ++ (match primary_event trigger with Some _ => pendingEvents t | None => [] end)
  ++ (if HasPendingTransferCompletes t then [MkEvent EventTransferComplete ""] else []).

Lemma NextSessionEvents_unfold t trigger :
  NextSessionEvents t trigger =
    (dedupeEvents (raw_events t trigger),
     set_pendingEvents [] (set_bootstrap (bootstrapDone t) (bootstrapPending t || negb (bootstrapDone t)) t)).
Proof.
  destruct t as [done pend evs vcs tcs dus base].
  unfold NextSessionEvents, raw_events, HasPendingTransferCompletes.
  destruct trigger; simpl; destruct done, evs as [|ev evs], tcs as [|tc tcs]; simpl;
    rewrite ?orb_true_r, ?orb_false_r, ?app_nil_r, <-?(assoc_L (++)); simpl;
    rewrite ?app_nil_r, <-?(assoc_L (++)); reflexivity.
Qed.

Lemma elem_of_raw_events t trigger e : e ∈ raw_events t trigger ↔ announces t trigger e.
Proof.
  unfold raw_events, announces, HasPendingTransferCompletes.
  pose proof (length_pos_bool (pendingTransferCompletes t)) as Hl.
  destruct (0 <? length (pendingTransferCompletes t))%nat, (bootstrapDone t), (primary_event trigger);
    rewrite !elem_of_app, ?list_elem_of_singleton; set_solver.
Qed.

(** C12. The Event array of a session has no duplicates, leads with the event of
    its trigger (for a retry, with the oldest undelivered one), and holds
    exactly the trigger's event, everything undelivered, "0 BOOTSTRAP" until
    it has been acknowledged, and "7 TRANSFER COMPLETE" while a record waits;
    the queue is drained, nothing else of the tracker moves. *)
Theorem NextSessionEvents_announces (t : EventTracker) (trigger : Trigger) :
  let '(events, t') := NextSessionEvents t trigger in
  NoDup events ∧
  (∀ e, e ∈ events ↔ announces t trigger e) ∧
  (∀ e, primary_event trigger = Some e → head events = Some e) ∧
  (trigger = TriggerRetry → pendingEvents t ≠ [] → head events = head (pendingEvents t)) ∧
  t' = set_pendingEvents [] (set_bootstrap (bootstrapDone t) (bootstrapPending t || negb (bootstrapDone t)) t).
Proof.
  rewrite NextSessionEvents_unfold. destruct (dedupeEvents_spec (raw_events t trigger)) as (HN&He&Hh).
  split_and!; [done| | | |done].
  - intros e. by rewrite He, elem_of_raw_events.
  - intros e Hp. rewrite Hh. unfold raw_events. by rewrite Hp.
  - intros -> Hne. rewrite Hh. unfold raw_events. simpl. by destruct (pendingEvents t).
Qed.

(** "0 BOOTSTRAP" is retransmitted until delivered: while it has not been
    acknowledged every session announces it, whatever its trigger; once a
    session that carried it is acknowledged no session announces it again,
    until [ResetBootstrap]. *)
Theorem bootstrap_until_acknowledged (t : EventTracker) (trigger trigger' : Trigger) :
  (bootstrapDone t = false →
     MkEvent EventBootstrap "" ∈ (NextSessionEvents t trigger).1 ∧
     MkEvent EventBootstrap "" ∈ (NextSessionEvents (NextSessionEvents t trigger).2 trigger').1) ∧
  (MkEvent EventBootstrap "" ∉ pendingEvents t →
     MkEvent EventBootstrap "" ∉ (NextSessionEvents (Acknowledge (NextSessionEvents t trigger).2) trigger').1) ∧
  MkEvent EventBootstrap "" ∈ (NextSessionEvents (ResetBootstrap t) trigger).1.
Proof.
  assert (∀ t trigger, MkEvent EventBootstrap "" ∈ (NextSessionEvents t trigger).1 ↔
            announces t trigger (MkEvent EventBootstrap "")) as Hann.
  { intros. rewrite NextSessionEvents_unfold. simpl.
    destruct (dedupeEvents_spec (raw_events t0 trigger0)) as (_&He&_). by rewrite He, elem_of_raw_events. }
  rewrite !Hann, !NextSessionEvents_unfold. unfold announces, Acknowledge, ResetBootstrap. split_and!.
  - intros Hd. destruct t; simpl in *. subst. naive_solver.
  - intros Hnp [Hp|[Hp|[[Hd _]|[_ ?]]]].
    + by destruct trigger'.
    + destruct t as [[] [] ? ? ? ? ?]; simpl in Hp; by apply not_elem_of_nil in Hp.
    + destruct t as [[] [] ? ? ? ? ?]; simpl in Hd; congruence.
    + done.
  - naive_solver.
Qed.

(** A value change can be lost: a session that was not started for it
    (say a periodic one) does not announce "4 VALUE CHANGE", yet its
    acknowledgement drops every recorded path. *)
Theorem value_change_lost (t : EventTracker) (trigger : Trigger)
  (Ht : trigger ≠ TriggerValueChange)
  (Hq : MkEvent EventValueChange "" ∉ pendingEvents t) :
  MkEvent EventValueChange "" ∉ (NextSessionEvents t trigger).1 ∧
  HasPendingValueChanges (Acknowledge (NextSessionEvents t trigger).2) = false.
Proof.
  rewrite NextSessionEvents_unfold. split.
  - destruct (dedupeEvents_spec (raw_events t trigger)) as (_&He&_). simpl. rewrite He, elem_of_raw_events.
    unfold announces. intros [Hp|[Hp|[[_ ?]|[_ ?]]]]; try done. by destruct trigger.
  - unfold Acknowledge, HasPendingValueChanges. by destruct t as [[] [] ? ? ? ? ?].
Qed.

Lemma value_change_lost_witness :
  let t := RecordValueChange "Device.X" (set_bootstrap true false (NewEventTracker ∅)) in
  HasPendingValueChanges t = true ∧
  MkEvent EventValueChange "" ∉ (NextSessionEvents t TriggerPeriodic).1 ∧
  HasPendingValueChanges (Acknowledge (NextSessionEvents t TriggerPeriodic).2) = false.
Proof.
  split; [vm_compute; reflexivity|].
  apply (value_change_lost (RecordValueChange "Device.X" (set_bootstrap true false (NewEventTracker ∅)))
           TriggerPeriodic); [discriminate|]. vm_compute. by intros ?%not_elem_of_nil.
Defined.
