(* ===== verification/Retry.v ===== *)
(** * The session retry policy ([internal/cwmp/retry.go]) and the work kept
    for after a session ([internal/cwmp/aftersession.go]). *)
From Stdlib Require Import ZArith Lia.
From S2P Require Import Prelude.

(** ** retry.go

    Durations are nanoseconds. The source doubles through [float64], which is
    exact here: the largest wait, [5 * 2^10] seconds, is below [2^53]
    nanoseconds ([OnFailure_exact]). *)
Definition second : Z := 1000000000.
Definition retryMinimumWait : Z := 5 * second.
Definition retryMultiplier : Z := 2.
Definition retryAttemptCap : Z := 10.

(** [count] is a [uint], 64 bits wide. *)
Record RetryState := MkRetryState { count : Z }.
Definition Count (r : RetryState) : Z := count r.
Definition Reset (r : RetryState) : RetryState := MkRetryState 0.

(** [for i := uint(1); i < attempt; i++ { minWait *= retryMultiplier }] *)
Fixpoint double_loop (n : nat) (w : Z) : Z :=
  match n with O => w | S n' => double_loop n' (w * retryMultiplier)%Z end.

(** [rng] is the source of randomness, [None] when nil: [Int63n n] returns a
    number in [[0, n)]. *)
Definition OnFailure (rng : option (Z → Z)) (r : RetryState) : Z * Z * RetryState :=
  let count' := ((count r + 1) mod 2 ^ 64)%Z in
  let attempt := if (retryAttemptCap <? count')%Z then retryAttemptCap else count' in
  let minWait := double_loop (Z.to_nat (attempt - 1)) retryMinimumWait in
  let maxWait := (minWait * retryMultiplier)%Z in
  let wait := match rng with
              | Some Int63n => (minWait + Int63n (maxWait - minWait))%Z
              | None => minWait
              end in
  (count', wait, MkRetryState count').

Lemma double_loop_pow n w : double_loop n w = (w * 2 ^ Z.of_nat n)%Z.
Proof.
  revert w; induction n as [|n IH]; intros w; simpl double_loop.
  - change (2 ^ Z.of_nat 0)%Z with 1%Z. lia.
  - rewrite IH, Nat2Z.inj_succ, Z.pow_succ_r by lia. unfold retryMultiplier. lia.
Qed.

(** The attempt whose band a failure draws from. *)
Definition attempt_of (n : Z) : Z := Z.min n retryAttemptCap.

(** The n-th consecutive failure waits between [5 * 2^(n-1)] and
    [5 * 2^n] seconds, the band no longer growing from the tenth on, and
    counts one more; the wait is never below five seconds nor above 5120. *)
Theorem OnFailure_band (rng : option (Z → Z)) (r : RetryState)
  (Hrng : ∀ f n, rng = Some f → (0 < n)%Z → (0 ≤ f n < n)%Z)
  (Hc : (0 ≤ count r < 2 ^ 64 - 1)%Z) :
  let '(n, wait, r') := OnFailure rng r in
  n = (count r + 1)%Z ∧ Count r' = n ∧
  (retryMinimumWait * 2 ^ (attempt_of n - 1) ≤ wait < retryMinimumWait * 2 ^ attempt_of n)%Z ∧
  (5 * second ≤ wait < 5120 * second)%Z.
Proof.
  unfold OnFailure. rewrite Z.mod_small by lia. set (n := (count r + 1)%Z).
  assert ((if (retryAttemptCap <? n)%Z then retryAttemptCap else n) = attempt_of n) as ->.
  { unfold attempt_of. destruct (Z.ltb_spec retryAttemptCap n); lia. }
  assert (1 ≤ attempt_of n ≤ 10)%Z as Ha by (unfold attempt_of, retryAttemptCap; lia).
  rewrite double_loop_pow, Z2Nat.id by lia.
  set (a := attempt_of n) in *. clearbody a.
  assert (2 ^ a = 2 * 2 ^ (a - 1))%Z as Hpow by (rewrite <-Z.pow_succ_r by lia; f_equal; lia).
  assert (1 ≤ 2 ^ (a - 1) ≤ 512)%Z as Hb.
  { split; [pose proof (Z.pow_pos_nonneg 2 (a - 1) ltac:(lia) ltac:(lia)); lia|].
    change 512%Z with (2 ^ 9)%Z. apply Z.pow_le_mono_r; lia. }
  set (w := (2 ^ (a - 1))%Z) in *. clearbody w. rewrite Hpow.
  unfold retryMinimumWait, second, retryMultiplier.
  split_and!; try done; destruct rng as [f|];
    try (specialize (Hrng f (5 * 1000000000 * w * 2 - 5 * 1000000000 * w)%Z eq_refl ltac:(lia))); lia.
Qed.

Lemma OnFailure_band_witness :
  let '(n, wait, r') := OnFailure (Some (λ n, n - 1)%Z) (MkRetryState 12) in
  n = 13%Z ∧ Count r' = 13%Z ∧ (2560 * second ≤ wait < 5120 * second)%Z.
Proof.
  pose proof (OnFailure_band (Some (λ n, n - 1)%Z) (MkRetryState 12)
    ltac:(intros f n [= <-]; lia) ltac:(simpl; lia)) as H.
  destruct (OnFailure _ _) as [[n wait] r'] eqn:E. destruct H as (Hn&Hr&H&_).
  simpl in Hn. subst n. split_and!; [reflexivity|exact Hr|apply H..].
Defined.

(** No product of the doubling leaves the integers [float64] holds exactly. *)
Lemma OnFailure_exact a :
  (1 ≤ a ≤ 10)%Z → (retryMinimumWait * 2 ^ a < 2 ^ 53)%Z.
Proof.
  intros H. assert (2 ^ a ≤ 1024)%Z as Hp.
  { change 1024%Z with (2 ^ 10)%Z. apply Z.pow_le_mono_r; lia. }
  unfold retryMinimumWait, second. lia.
Qed.

(** The state a CPE keeps its retry count in. *)
Class HasRetry (W : Type) := {
  get_retry : W → RetryState;
  put_retry : RetryState → W → W;
  get_put_retry : ∀ r w, get_retry (put_retry r w) = r
}.

(** ** aftersession.go

    The queue holds what is to be done, as data [F]; [run] does it. A function
    that queues more from inside a run leaves it for the next run. *)
Record AfterSession (F : Type) := MkAfterSession { queue : list F }.
Arguments MkAfterSession {F} _.
Arguments queue {F} _.
Definition Add {F} (fn : F) (a : AfterSession F) : AfterSession F := MkAfterSession (queue a ++ [fn]).

Class HasAfterSession (W F : Type) := {
  get_after : W → AfterSession F;
  put_after : AfterSession F → W → W;
  get_put_after : ∀ a w, get_after (put_after a w) = a
}.

Definition Run_after {W F} `{HasAfterSession W F} (run : F → W → W) (w : W) : W :=
  foldl (λ w fn, run fn w) (put_after (MkAfterSession []) w) (queue (get_after w)).
