(* ===== verification/Soap.v ===== *)
(** * What the CPE writes on the wire ([internal/cwmp/soap/encoder.go],
    [internal/cwmp/soap/types.go], [internal/cwmp/transfer/transfercomplete.go],
    [internal/cwmp/dustate/dustate.go]).

    Every writer of the program fills a [bytes.Buffer], which does not fail, so
    an encoder is a function to strings; its only error is its own. *)
From Stdlib Require Import ZArith Lia Ascii String.
From S2P Require Import Prelude GoLib GoText CpeErr EventTracker.

Definition quote_char : ascii := ascii_of_N 34.
Definition newline_char : ascii := ascii_of_N 10.
Definition dq : string := String quote_char "".
Definition nl : string := String newline_char "".
Definition cat (l : list string) : string := foldr String.append "" l.

(** ** escapeText, and the [escape] of the packages that render bodies: they
    are the same function. *)
Definition escape_byte (c : ascii) : string :=
  if Ascii.eqb c "&" then "&amp;"
  else if Ascii.eqb c "<" then "&lt;"
  else if Ascii.eqb c ">" then "&gt;"
  else if Ascii.eqb c quote_char then "&quot;"
  else if Ascii.eqb c "'" then "&apos;"
  else String c "".
Fixpoint escapeText (s : string) : string :=
  match s with "" => "" | String c s' => escape_byte c +:+ escapeText s' end.

(** ** types.go *)
Definition envelopeNS := "http://schemas.xmlsoap.org/soap/envelope/".
Definition soapEncNS := "http://schemas.xmlsoap.org/soap/encoding/".
Definition xsiNS := "http://www.w3.org/2001/XMLSchema-instance".
Definition xsdNS := "http://www.w3.org/2001/XMLSchema".
Definition V10 := "urn:dslforum-org:cwmp-1-0".
Definition V11 := "urn:dslforum-org:cwmp-1-1".
Definition V12 := "urn:dslforum-org:cwmp-1-2".
Definition IsKnownVersion (v : string) : bool := bool_decide (v ∈ [V10; V11; V12]).

Record Header := MkHeader { hID : string; HoldRequests : bool }.
Definition IsZero (h : Header) : bool := String.eqb (hID h) "" && negb (HoldRequests h).

Record SetParameterValuesFault := MkSPVFault {
  ParameterName : string; spvFaultCode : Z; spvFaultString : string
}.
#[export] Instance SetParameterValuesFault_eq_dec : EqDecision SetParameterValuesFault.
Proof. solve_decision. Defined.
Record Fault := MkFault {
  FaultCode : Z; FaultString : string; SetFaults : list SetParameterValuesFault
}.
#[export] Instance Fault_eq_dec : EqDecision Fault.
Proof. solve_decision. Defined.

Record EncoderOptions := MkEncoderOptions {
  oVersion : string; SOAPPrefix : string; CWMPPrefix : string; XSIPrefix : string
}.
Definition or_default (s d : string) : string := if String.eqb s "" then d else s.
Definition withDefaults (o : EncoderOptions) : EncoderOptions :=
  MkEncoderOptions (or_default (oVersion o) V11) (or_default (SOAPPrefix o) "soapenv")
    (or_default (CWMPPrefix o) "cwmp") (or_default (XSIPrefix o) "xsi").

Record Envelope := MkEnvelope {
  eHeader : Header; eMethod : string; IsFault : bool; eVersion : string
}.

(** ** encoder.go; [o] has its defaults filled in, as [NewEncoder] does. *)
Definition writeEnvelopeStart (o : EncoderOptions) : string :=
  cat ["<?xml version="; dq; "1.0"; dq; " encoding="; dq; "UTF-8"; dq; "?>"; nl;
       "<"; SOAPPrefix o; ":Envelope xmlns:"; SOAPPrefix o; "="; dq; envelopeNS; dq;
       " xmlns:soap-enc="; dq; soapEncNS; dq; " xmlns:"; CWMPPrefix o; "="; dq; oVersion o; dq;
       " xmlns:"; XSIPrefix o; "="; dq; xsiNS; dq; " xmlns:xsd="; dq; xsdNS; dq; ">"; nl].

Definition writeHeader (o : EncoderOptions) (h : Header) : string :=
  if IsZero h then ""
  else cat ["  <"; SOAPPrefix o; ":Header>"; nl;
            if String.eqb (hID h) "" then ""
            else cat ["    <"; CWMPPrefix o; ":ID "; SOAPPrefix o; ":mustUnderstand="; dq; "1"; dq; ">";
                      escapeText (hID h); "</"; CWMPPrefix o; ":ID>"; nl];
            if HoldRequests h
            then cat ["    <"; CWMPPrefix o; ":HoldRequests "; SOAPPrefix o; ":mustUnderstand="; dq; "1"; dq;
                      ">1</"; CWMPPrefix o; ":HoldRequests>"; nl]
            else "";
            "  </"; SOAPPrefix o; ":Header>"; nl].

(** [WriteRequest], then the body raw, then [Close]. *)
Definition WriteRequest (o : EncoderOptions) (h : Header) (methodName body : string) : result error string :=
  if String.eqb methodName "" then
    Err (Wrap "soap.Encoder.WriteRequest" KindInvalidArgument (Some (errorf "method name is empty" [])))
  else Ok (cat [writeEnvelopeStart o; writeHeader o h;
                "  <"; SOAPPrefix o; ":Body>"; nl; "    <"; CWMPPrefix o; ":"; methodName; ">"; nl;
                body;
                nl; "    </"; CWMPPrefix o; ":"; methodName; ">"; nl;
                "  </"; SOAPPrefix o; ":Body>"; nl; "</"; SOAPPrefix o; ":Envelope>"; nl]).

Definition writeSetFault (pf : SetParameterValuesFault) : string :=
  cat ["          <SetParameterValuesFault>"; nl;
       "            <ParameterName>"; escapeText (ParameterName pf); "</ParameterName>"; nl;
       "            <FaultCode>"; Strconv.Itoa (spvFaultCode pf); "</FaultCode>"; nl;
       "            <FaultString>"; escapeText (spvFaultString pf); "</FaultString>"; nl;
       "          </SetParameterValuesFault>"; nl].

Definition WriteFault (o : EncoderOptions) (h : Header) (f : Fault) : string :=
  cat [writeEnvelopeStart o; writeHeader o h;
       "  <"; SOAPPrefix o; ":Body>"; nl; "    <"; SOAPPrefix o; ":Fault>"; nl;
       "      <faultcode>Client</faultcode>"; nl; "      <faultstring>CWMP fault</faultstring>"; nl;
       "      <detail>"; nl; "        <"; CWMPPrefix o; ":Fault>"; nl;
       "          <FaultCode>"; Strconv.Itoa (FaultCode f); "</FaultCode>"; nl;
       "          <FaultString>"; escapeText (FaultString f); "</FaultString>"; nl;
       cat (writeSetFault <$> SetFaults f);
       "        </"; CWMPPrefix o; ":Fault>"; nl; "      </detail>"; nl;
       "    </"; SOAPPrefix o; ":Fault>"; nl; "  </"; SOAPPrefix o; ":Body>"; nl;
       "</"; SOAPPrefix o; ":Envelope>"; nl].

(** ** Bodies of the CPE's own RPCs. Instants are nanoseconds since the
    epoch. *)
Definition format_nano (ns : Z) : string :=
  Time.Format_RFC3339Nano (ns / 1000000000)%Z (ns mod 1000000000)%Z.

Definition transfer_Render (c : transfer_Complete) : string :=
  cat ["      <CommandKey>"; escapeText (tcCommandKey c); "</CommandKey>"; nl;
       "      <FaultStruct>"; nl;
       "        <FaultCode>"; Strconv.Itoa (tcFaultCode c); "</FaultCode>"; nl;
       "        <FaultString>"; escapeText (tcFaultString c); "</FaultString>"; nl;
       "      </FaultStruct>"; nl;
       "      <StartTime>"; format_nano (tcStartTime c); "</StartTime>"; nl;
       "      <CompleteTime>"; format_nano (tcCompleteTime c); "</CompleteTime>"; nl].

Definition dustate_RenderResult (r : OpResult) : string :=
  cat ["        <OpResultStruct>"; nl;
       "          <UUID>"; escapeText (opUUID r); "</UUID>"; nl;
       "          <DeploymentUnitRef>"; escapeText (DeploymentUnitRef r); "</DeploymentUnitRef>"; nl;
       "          <Version>"; escapeText (EventTracker.Version r); "</Version>"; nl;
       "          <CurrentState>"; escapeText (CurrentState r); "</CurrentState>"; nl;
       "          <Resolved>"; (if Resolved r then "1" else "0"); "</Resolved>"; nl;
       "          <ExecutionUnitRefList>"; escapeText (ExecutionUnitRefList r); "</ExecutionUnitRefList>"; nl;
       "          <StartTime>"; format_nano (opStartTime r); "</StartTime>"; nl;
       "          <CompleteTime>"; format_nano (opCompleteTime r); "</CompleteTime>"; nl;
       "          <Fault>"; nl; "            <FaultStruct>"; nl;
       "              <FaultCode>"; Strconv.Itoa (opFaultCode r); "</FaultCode>"; nl;
       "              <FaultString>"; escapeText (opFaultString r); "</FaultString>"; nl;
       "            </FaultStruct>"; nl; "          </Fault>"; nl;
       "        </OpResultStruct>"; nl].

Definition dustate_Render (c : dustate_Complete) : string :=
  cat ["      <Results soap-enc:arrayType="; dq; "cwmp:OpResultStruct[";
       Strconv.Itoa (Z.of_nat (length (Results c))); "]"; dq; ">"; nl;
       cat (dustate_RenderResult <$> Results c);
       "      </Results>"; nl; "      <CommandKey>"; escapeText (duCommandKey c); "</CommandKey>"; nl].

(** ** Escaping is reversible and leaves no markup *)

(** What an XML reader makes of the five predefined entities. *)
Fixpoint unescape (s : string) : string :=
  match s with
  | String "&" (String "a" (String "m" (String "p" (String ";" r)))) => String "&" (unescape r)
  | String "&" (String "l" (String "t" (String ";" r))) => String "<" (unescape r)
  | String "&" (String "g" (String "t" (String ";" r))) => String ">" (unescape r)
  | String "&" (String "q" (String "u" (String "o" (String "t" (String ";" r))))) =>
      String quote_char (unescape r)
  | String "&" (String "a" (String "p" (String "o" (String "s" (String ";" r))))) =>
      String "'" (unescape r)
  | String c r => String c (unescape r)
  | "" => ""
  end.

Definition markup (c : ascii) : bool :=
  Ascii.eqb c "<" || Ascii.eqb c ">" || Ascii.eqb c quote_char || Ascii.eqb c "'".

Lemma unescape_plain c s : Ascii.eqb c "&" = false → unescape (String c s) = String c (unescape s).
Proof. destruct c as [[] [] [] [] [] [] [] []]; try reflexivity. discriminate. Qed.

(** Text the CPE puts inside an element survives: reading the entities back
    gives the original string, and the escaped text holds no markup byte. *)
Theorem escapeText_roundtrip (s : string) :
  unescape (escapeText s) = s ∧ str_forall (λ c, negb (markup c)) (escapeText s) = true.
Proof.
  induction s as [|c s [IH1 IH2]]; [done|]. cbn [escapeText]. unfold escape_byte.
  destruct (Ascii.eqb_spec c "&") as [->|Ha]; [simpl; by rewrite IH1, IH2|].
  destruct (Ascii.eqb_spec c "<") as [->|Hl]; [simpl; by rewrite IH1, IH2|].
  destruct (Ascii.eqb_spec c ">") as [->|Hg]; [simpl; by rewrite IH1, IH2|].
  destruct (Ascii.eqb_spec c quote_char) as [->|Hq]; [simpl; by rewrite IH1, IH2|].
  destruct (Ascii.eqb_spec c "'") as [->|Hs]; [simpl; by rewrite IH1, IH2|].
  change (String c "" +:+ escapeText s) with (String c (escapeText s)).
  rewrite unescape_plain, IH1 by by apply Ascii.eqb_neq. split; [done|].
  cbn [str_forall]. rewrite IH2, andb_true_r. unfold markup.
  rewrite (proj2 (Ascii.eqb_neq _ _) Hl), (proj2 (Ascii.eqb_neq _ _) Hg),
    (proj2 (Ascii.eqb_neq _ _) Hq), (proj2 (Ascii.eqb_neq _ _) Hs). done.
Qed.
