(* ===== verification/Inform.v ===== *)
(** * Building the Inform ([internal/cwmp/inform/builder.go],
    [internal/cwmp/inform/render.go]). *)
From Stdlib Require Import ZArith Lia Ascii String.
From S2P Require Import Prelude GoLib GoText CpeErr Types Node Tree TreeProps EventTracker Soap.

Record DeviceID := MkDeviceID {
  Manufacturer : string; OUI : string; ProductClass : string; SerialNumber : string
}.
Definition DeviceIDPaths := DeviceID.

Record Parameter_ := MkParameter { pName : string; pValue : Value }.
#[export] Instance Parameter_eq_dec : EqDecision Parameter_.
Proof. solve_decision. Defined.

(** [CurrentTime] is seconds since the epoch: RFC 3339 shows no more. *)
Record Inform := MkInform {
  iDeviceID : DeviceID; iEvents : list Event; iMaxEnvelopes : Z; iCurrentTime : Z;
  iRetryCount : Z; iParameters : list Parameter_
}.

(** The builder holds the tree by reference, so the tree is an argument of
    what it does; [clock] is the reading of the clock. *)
Record Builder := MkBuilder {
  deviceIDPaths : DeviceIDPaths; parameterLists : gmap string (list string); bMaxEnvelopes : Z
}.

Definition check_id_path (t : Tree) (field path : string) : result error unit :=
  if String.eqb path "" then
    Err (Wrap "inform.NewBuilder" KindInvalidArgument (Some (errorf "DeviceIDPaths.%s is required" [field])))
  else match Get t path with
       | Err e => Err (Wrap "inform.NewBuilder" KindInvalidArgument
                         (Some (Errorf "DeviceIDPaths.%s path %q: %w" [field; path] (Some e))))
       | Ok _ => Ok tt
       end.

Definition NewBuilder (t : Tree) (paths : DeviceIDPaths) (lists : gmap string (list string)) (maxEnv : Z)
  : result error Builder :=
  _ ← check_id_path t "Manufacturer" (Manufacturer paths);
  _ ← check_id_path t "OUI" (OUI paths);
  _ ← check_id_path t "ProductClass" (ProductClass paths);
  _ ← check_id_path t "SerialNumber" (SerialNumber paths);
  Ok (MkBuilder paths lists maxEnv).

Definition maxEnvelopes (v : Z) : Z := if (v =? 0)%Z then 1%Z else v.

Definition read_id (t : Tree) (path : string) : result error string :=
  match Get t path with
  | Err e => Err (Wrap "inform.Build" KindInvalidArgument (Some (Errorf "read %s: %w" [path] (Some e))))
  | Ok v => Ok (Raw v)
  end.

Definition readDeviceID (t : Tree) (b : Builder) : result error DeviceID :=
  m ← read_id t (Manufacturer (deviceIDPaths b));
  o ← read_id t (OUI (deviceIDPaths b));
  p ← read_id t (ProductClass (deviceIDPaths b));
  s ← read_id t (SerialNumber (deviceIDPaths b));
  Ok (MkDeviceID m o p s).

(** The two nested loops: every path of every event's list, the first
    occurrence of each. *)
Fixpoint collect_list (seen : list string) (l : list string) : list string * list string :=
  match l with
  | [] => (seen, [])
  | p :: l' =>
      if bool_decide (p ∈ seen) then collect_list seen l'
      else let '(seen', out) := collect_list (p :: seen) l' in (seen', p :: out)
  end.
Fixpoint collect_paths (lists : gmap string (list string)) (seen : list string) (events : list Event)
  : list string :=
  match events with
  | [] => []
  | e :: rest =>
      let '(seen', out) := collect_list seen (default [] (lists !! EventCode e)) in
      out ++ collect_paths lists seen' rest
  end.

Fixpoint read_parameters (t : Tree) (paths : list string) : result error (list Parameter_) :=
  match paths with
  | [] => Ok []
  | p :: rest =>
      match Get t p with
      | Err e => Err (Wrap "inform.Build" KindInvalidArgument
                        (Some (Errorf "read parameter %s: %w" [p] (Some e))))
      | Ok v => out ← read_parameters t rest; Ok (MkParameter p v :: out)
      end
  end.

Definition collectParameters (t : Tree) (b : Builder) (events : list Event) : result error (list Parameter_) :=
  read_parameters t (collect_paths (parameterLists b) [] events).

Definition Build (t : Tree) (b : Builder) (clock : Z) (events : list Event) (retryCount : Z)
  : result error Inform :=
  match events with
  | [] => Err (Wrap "inform.Build" KindInvalidArgument (Some (errorf "events is empty" [])))
  | _ =>
      deviceID ← readDeviceID t b;
      params ← collectParameters t b events;
      Ok (MkInform deviceID events (maxEnvelopes (bMaxEnvelopes b)) clock retryCount params)
  end.

(** ** render.go; [escape] is [Soap.escapeText]. *)
Definition writeDeviceID (d : DeviceID) : string :=
  cat ["      <DeviceId>"; nl;
       "        <Manufacturer>"; escapeText (Manufacturer d); "</Manufacturer>"; nl;
       "        <OUI>"; escapeText (OUI d); "</OUI>"; nl;
       "        <ProductClass>"; escapeText (ProductClass d); "</ProductClass>"; nl;
       "        <SerialNumber>"; escapeText (SerialNumber d); "</SerialNumber>"; nl;
       "      </DeviceId>"; nl].

Definition writeEvent (e : Event) : string :=
  cat ["        <EventStruct>"; nl;
       "          <EventCode>"; escapeText (EventCode e); "</EventCode>"; nl;
       "          <CommandKey>"; escapeText (CommandKey e); "</CommandKey>"; nl;
       "        </EventStruct>"; nl].
Definition writeEvents (events : list Event) : string :=
  match events with
  | [] => cat ["      <Event></Event>"; nl]
  | _ => cat ["      <Event>"; nl; cat (writeEvent <$> events); "      </Event>"; nl]
  end.

Fixpoint writeParameterStructs (params : list Parameter_) : result error string :=
  match params with
  | [] => Ok ""
  | p :: rest =>
      match Marshal (vType (pValue p)) (Raw (pValue p)) with
      | Err e => Err (Wrap "inform.Render" KindInvalidArgument
                        (Some (Errorf "parameter %s: %w" [pName p] (Some e))))
      | Ok canon =>
          out ← writeParameterStructs rest;
          Ok (cat ["        <ParameterValueStruct>"; nl;
                   "          <Name>"; escapeText (pName p); "</Name>"; nl;
                   "          <Value xsi:type="; dq; vType (pValue p); dq; ">"; escapeText canon; "</Value>"; nl;
                   "        </ParameterValueStruct>"; nl; out])
      end
  end.
Definition writeParameters (params : list Parameter_) : result error string :=
  match params with
  | [] => Ok (cat ["      <ParameterList></ParameterList>"; nl])
  | _ => out ← writeParameterStructs params;
         Ok (cat ["      <ParameterList>"; nl; out; "      </ParameterList>"; nl])
  end.

Definition Render (inf : Inform) : result error string :=
  ps ← writeParameters (iParameters inf);
  Ok (cat [writeDeviceID (iDeviceID inf); writeEvents (iEvents inf);
           "      <MaxEnvelopes>"; Strconv.Itoa (maxEnvelopes (iMaxEnvelopes inf)); "</MaxEnvelopes>"; nl;
           "      <CurrentTime>"; Time.Format_RFC3339 (iCurrentTime inf); "</CurrentTime>"; nl;
           "      <RetryCount>"; Strconv.Itoa (iRetryCount inf); "</RetryCount>"; nl; ps]).

(** ** Which parameters an Inform carries *)

Lemma collect_list_spec seen l seen' out :
  collect_list seen l = (seen', out) →
  NoDup out ∧ (∀ p, p ∈ out ↔ p ∈ l ∧ p ∉ seen) ∧ (∀ p, p ∈ seen' ↔ p ∈ seen ∨ p ∈ l).
Proof.
  revert seen seen' out; induction l as [|p l IH]; intros seen seen' out; cbn [collect_list].
  { intros [= <- <-]. split; [constructor|]. set_solver. }
  case_bool_decide as Hp.
  - intros H. destruct (IH _ _ _ H) as (?&Ho&Hs). split; [done|]. split.
    + intros q. rewrite Ho, elem_of_cons. naive_solver.
    + intros q. rewrite Hs, elem_of_cons. naive_solver.
  - destruct (collect_list (p :: seen) l) as [s o] eqn:E. intros [= <- <-].
    destruct (IH _ _ _ E) as (HN&Ho&Hs). split_and!.
    + constructor; [|done]. rewrite Ho. set_solver.
    + intros q. rewrite !elem_of_cons, Ho, elem_of_cons. destruct (decide (q = p)); naive_solver.
    + intros q. rewrite Hs, !elem_of_cons. naive_solver.
Qed.

Lemma collect_paths_spec lists seen events :
  NoDup (collect_paths lists seen events) ∧
  ∀ p, p ∈ collect_paths lists seen events ↔
       p ∉ seen ∧ ∃ e l, e ∈ events ∧ lists !! EventCode e = Some l ∧ p ∈ l.
Proof.
  revert seen; induction events as [|e events IH]; intros seen; cbn [collect_paths].
  { split; [constructor|]. intros p. split; [by intros ?%not_elem_of_nil|].
    intros (_&?&?&?%not_elem_of_nil&_). done. }
  destruct (collect_list seen _) as [seen' out] eqn:E.
  destruct (collect_list_spec _ _ _ _ E) as (HN&Ho&Hs). destruct (IH seen') as [HN' Hp]. split.
  - apply NoDup_app. split; [done|]. split; [|done]. intros p Hin Hin'. apply Hp in Hin' as [Hns _].
    apply Hns, Hs. right. by apply Ho.
  - intros p. rewrite elem_of_app, Ho, Hp, Hs. setoid_rewrite elem_of_cons.
    destruct (lists !! EventCode e) as [l|] eqn:El;
      [change (default [] (Some l)) with l|change (default [] None) with (@nil string)]; split.
    + intros [[Hin Hns]|[Hns (e'&l'&?&?&?)]]; [|naive_solver]. split; [done|]. exists e, l. auto.
    + intros (Hns&e'&l'&[->|He]&Hl&Hin).
      * left. split; [|done]. congruence.
      * destruct (decide (p ∈ l)); [by left|]. right. naive_solver.
    + intros [[Hin%not_elem_of_nil _]|[Hns (e'&l'&?&?&?)]]; [done|]. naive_solver.
    + intros (Hns&e'&l'&[->|He]&Hl&Hin); [congruence|]. right.
      split; [intros [?|?%not_elem_of_nil]; done|]. eauto.
Qed.

Lemma read_parameters_ok t paths ps :
  read_parameters t paths = Ok ps ↔
  Forall2 (λ path p, pName p = path ∧ Get t path = Ok (pValue p)) paths ps.
Proof.
  revert ps; induction paths as [|p paths IH]; intros ps; cbn [read_parameters].
  { split; [intros [= <-]; constructor|]. intros H. by inv H. }
  split.
  - destruct (Get t p) as [v|e] eqn:Hg; [|done]. intros H.
    apply result_bind_ok in H as (out&Ho&[= <-]). constructor; [done|]. by apply IH.
  - intros H. apply Forall2_cons_inv_l in H as ([n v]&out'&[Hn Hv]&HF&->). simpl in *. subst. rewrite Hv.
    apply IH in HF. apply result_bind_ok. exists out'. done.
Qed.

Lemma read_id_ok t path raw : read_id t path = Ok raw → ∃ v, Get t path = Ok v ∧ Raw v = raw.
Proof. unfold read_id. destruct (Get t path) as [v|e]; [|done]. intros [= <-]. by exists v. Qed.

(** The Inform carries the session's events as they are, and a parameter
    for exactly the paths its events' lists name, the union of all of them
    and each once, with the value the tree holds when it is built, as are the
    four fields that identify the device; MaxEnvelopes is never 0. *)
Theorem Build_carries (t : Tree) (b : Builder) (clock retryCount : Z) (events : list Event) (inf : Inform)
  (H : Build t b clock events retryCount = Ok inf) :
  iEvents inf = events ∧ events ≠ [] ∧ iRetryCount inf = retryCount ∧ (0 ≤ bMaxEnvelopes b → 1 ≤ iMaxEnvelopes inf)%Z ∧
  Forall (λ field : DeviceID → string, ∃ v, Get t (field (deviceIDPaths b)) = Ok v ∧ Raw v = field (iDeviceID inf))
    [Manufacturer; OUI; ProductClass; SerialNumber] ∧
  NoDup (pName <$> iParameters inf) ∧
  (∀ p, p ∈ pName <$> iParameters inf ↔
        ∃ e l, e ∈ events ∧ parameterLists b !! EventCode e = Some l ∧ p ∈ l) ∧
  (∀ p, p ∈ iParameters inf → Get t (pName p) = Ok (pValue p)).
Proof.
  unfold Build in H. destruct events as [|e events]; [done|]. set (evs := e :: events) in *.
  apply result_bind_ok in H as (d&Hd&H). apply result_bind_ok in H as (ps&Hps&[= <-]). simpl.
  apply read_parameters_ok in Hps. destruct (collect_paths_spec (parameterLists b) [] evs) as [HN Hp].
  assert (pName <$> ps = collect_paths (parameterLists b) [] evs) as ->.
  { clear -Hps. induction Hps as [|path p paths ps [<- _] _ IH]; [done|]. rewrite fmap_cons. by f_equal. }
  split_and!; try done.
  - unfold maxEnvelopes. destruct (Z.eqb_spec (bMaxEnvelopes b) 0); lia.
  - unfold readDeviceID in Hd. apply result_bind_ok in Hd as (m&Hm&Hd). apply result_bind_ok in Hd as (o&Ho&Hd).
    apply result_bind_ok in Hd as (pc&Hpc&Hd). apply result_bind_ok in Hd as (sn&Hsn&[= <-]).
    repeat constructor; by apply read_id_ok.
  - intros p. rewrite Hp. split; [by intros [_ ?]|]. intros. split; [by intros ?%not_elem_of_nil|done].
  - clear -Hps. induction Hps as [|path p paths ps [<- Hg] _ IH]; intros q; [by intros ?%not_elem_of_nil|].
    intros [->|?]%elem_of_cons; auto.
Qed.

Definition ex_ids : DeviceIDPaths := MkDeviceID "S" "S" "S" "S".
Definition ex_builder : Builder :=
  MkBuilder ex_ids (<[EventBoot := ["S"; "Device.X"]]> {[EventBootstrap := ["Device.Y"; "S"]]}) 0.

Lemma Build_carries_witness :
  ∃ inf, Build ex_tree ex_builder 0 [MkEvent EventBoot ""; MkEvent EventBootstrap ""] 3 = Ok inf ∧
    iEvents inf = [MkEvent EventBoot ""; MkEvent EventBootstrap ""] ∧
    pName <$> iParameters inf = ["S"; "Device.X"; "Device.Y"].
Proof.
  eexists. split; [vm_compute; reflexivity|]. split; [|reflexivity].
  exact (proj1 (Build_carries ex_tree ex_builder 0 3 [MkEvent EventBoot ""; MkEvent EventBootstrap ""]
    _ ltac:(vm_compute; reflexivity))).
Defined.

(** Every Inform built from a well-typed tree can be rendered. *)
Lemma writeParameterStructs_total params :
  Forall (λ p, wf_value (pValue p)) params → ∃ s, writeParameterStructs params = Ok s.
Proof.
  induction 1 as [|p params Hv _ [s IH]]; [by eexists|]. cbn [writeParameterStructs].
  destruct (valid_marshals _ _ Hv) as [c ->]. rewrite IH. by eexists.
Qed.

(** An Inform built from a well-typed tree always renders: no parameter
    value of such a tree fails to marshal. *)
Theorem Build_renders (t : Tree) (b : Builder) (clock retryCount : Z) (events : list Event) (inf : Inform)
  (Hw : wf_tree t) (H : Build t b clock events retryCount = Ok inf) :
  ∃ s, Render inf = Ok s.
Proof.
  unfold Build in H. destruct events as [|e events]; [done|].
  apply result_bind_ok in H as (d&_&H). apply result_bind_ok in H as (ps&Hps&[= <-]).
  apply read_parameters_ok in Hps.
  assert (Forall (λ p, wf_value (pValue p)) ps) as HF.
  { induction Hps as [|path p paths ps [_ Hg] _ IH]; constructor; [by eapply Get_wf|done]. }
  destruct (writeParameterStructs_total ps HF) as [s Hs]. unfold Render, writeParameters. simpl.
  destruct ps; [by eexists|]. rewrite Hs. by eexists.
Qed.

Lemma Build_renders_witness :
  ∃ inf s, Build ex_tree ex_builder 0 [MkEvent EventBoot ""] 0 = Ok inf ∧ Render inf = Ok s.
Proof.
  eexists. destruct (Build_renders ex_tree ex_builder 0 0 [MkEvent EventBoot ""] _
    (wf_nodeb_sound (root ex_tree) ltac:(vm_compute; reflexivity)) ltac:(vm_compute; reflexivity)) as [s Hs].
  exists s. split; [vm_compute; reflexivity|exact Hs].
Defined.
