(* ===== verification/Xml.v ===== *)
(** * Token streams of [encoding/xml] and the loops that read them.

    [xml.Decoder] turns bytes into tokens; what the program sees of it is the
    sequence of tokens and the error that ends it: [io.EOF], or the syntax
    error that every later call of [Token] repeats. The decoders of
    [internal/cwmp/soap] and [internal/cwmp/handlers] are loops over [Token]:
    [loop] is their common shape. *)
From Stdlib Require Import ZArith Lia Ascii String.
From S2P Require Import Prelude GoLib CpeErr.

(** ** encoding/xml *)
Record Name := MkName { Space : string; Local_ : string }.
#[export] Instance Name_eq_dec : EqDecision Name.
Proof. solve_decision. Defined.
Record Attr := MkAttr { aName : Name; aValue : string }.
#[export] Instance Attr_eq_dec : EqDecision Attr.
Proof. solve_decision. Defined.

Inductive Token :=
| StartElement (n : Name) (attr : list Attr)
| EndElement (n : Name)
| CharData (s : string)
| OtherToken. (* comments, processing instructions, directives *)
#[export] Instance Token_eq_dec : EqDecision Token.
Proof. solve_decision. Defined.

Inductive stop := EOF | Broken (e : error).
Definition stop_error (s : stop) : error :=
  match s with EOF => errorf "EOF" [] | Broken e => e end.

Record reader := MkReader { toks : list Token; final : stop }.

Definition next (r : reader) : result stop (Token * reader) :=
  match toks r with
  | [] => Err (final r)
  | t :: l => Ok (t, MkReader l (final r))
  end.

(** [Decoder.Skip]: through the end element that matches the last start
    element read. *)
Fixpoint skip_go (depth : nat) (l : list Token) : option (list Token) :=
  match l with
  | [] => None
  | StartElement _ _ :: l' => skip_go (S depth) l'
  | EndElement _ :: l' => match depth with O => Some l' | S d => skip_go d l' end
  | _ :: l' => skip_go depth l'
  end.
Definition Skip (r : reader) : result error reader :=
  match skip_go 0 (toks r) with
  | Some l => Ok (MkReader l (final r))
  | None => Err (stop_error (final r))
  end.

(** ** Loops over [Token]

    [top] loops take [io.EOF] as their normal end, the others as an error.
    The handler of a start element reads on as far as it wants; the handler of
    an end element says whether the loop returns. *)
Record loop (A : Type) := MkLoop {
  top : bool;
  on_start : A → Name → list Attr → reader → result error (A * reader);
  on_end : A → Name → bool * A;
  on_text : A → string → A
}.
Arguments MkLoop {A} _ _ _ _.
Arguments top {A} _.
Arguments on_start {A} _ _ _ _ _.
Arguments on_end {A} _ _ _.
Arguments on_text {A} _ _ _.

(** Each turn of a loop takes a token at least, so the number of tokens left
    bounds the number of turns. *)
Fixpoint scan {A} (L : loop A) (fuel : nat) (acc : A) (r : reader) : result error (A * reader) :=
  match fuel with
  | O => Err (errorf "scan: out of fuel" [])
  | S fuel' =>
      match next r with
      | Err EOF => if top L then Ok (acc, r) else Err (stop_error EOF)
      | Err e => Err (stop_error e)
      | Ok (StartElement n a, r') =>
          match on_start L acc n a r' with
          | Ok (acc', r'') => scan L fuel' acc' r''
          | Err e => Err e
          end
      | Ok (EndElement n, r') =>
          let '(stop, acc') := on_end L acc n in
          if stop then Ok (acc', r') else scan L fuel' acc' r'
      | Ok (CharData s, r') => scan L fuel' (on_text L acc s) r'
      | Ok (OtherToken, r') => scan L fuel' acc r'
      end
  end.
Definition run_loop {A} (L : loop A) (acc : A) (r : reader) : result error (A * reader) :=
  scan L (S (length (toks r))) acc r.
Arguments run_loop : simpl never.

Definition keep {A} (acc : A) (_ : string) : A := acc.
Definition never_ends {A} (acc : A) (_ : Name) : bool * A := (false, acc).
Definition ends_at {A} (local : string) (acc : A) (n : Name) : bool * A :=
  (String.eqb (Local_ n) local, acc).
Definition skip_start {A} (acc : A) (r : reader) : result error (A * reader) :=
  r' ← Skip r; Ok (acc, r').

(** [dec.DecodeElement(&s, &se)] for a string [s]: the character data directly
    inside the element, its children skipped. *)
Definition text_loop : loop string :=
  MkLoop false (λ acc _ _ r, skip_start acc r) (λ acc _, (true, acc)) (λ acc s, String.append acc s).
Definition DecodeElement (r : reader) : result error (string * reader) := run_loop text_loop "" r.

(** The handler of a start element whose text [f] puts into the accumulator. *)
Definition field {A} (f : string → result error A) (r : reader) : result error (A * reader) :=
  p ← DecodeElement r; a ← f p.1; Ok (a, p.2).

(** ** Fuel *)

Definition shrinks {A} (L : loop A) : Prop :=
  ∀ acc n a r acc' r', on_start L acc n a r = Ok (acc', r') → (length (toks r') ≤ length (toks r))%nat.

Lemma skip_go_shrinks d l l' : skip_go d l = Some l' → (length l' < length l)%nat.
Proof.
  revert d; induction l as [|[]]; intros d H; simpl in *; try done.
  - apply IHl in H. lia.
  - destruct d; [injection H as ->; lia|]. apply IHl in H. lia.
  - apply IHl in H. lia.
  - apply IHl in H. lia.
Qed.

Lemma Skip_shrinks r r' : Skip r = Ok r' → (length (toks r') < length (toks r))%nat.
Proof.
  unfold Skip. destruct (skip_go 0 (toks r)) eqn:E; [|done]. intros [= <-].
  by apply skip_go_shrinks in E.
Qed.

Lemma skip_start_shrinks {A} (acc : A) r acc' r' :
  skip_start acc r = Ok (acc', r') → (length (toks r') ≤ length (toks r))%nat.
Proof.
  unfold skip_start. intros (r1&Hr%Skip_shrinks&[= _ <-])%result_bind_ok. lia.
Qed.

Lemma next_cases r :
  match toks r with
  | [] => next r = Err (final r)
  | t :: l => next r = Ok (t, MkReader l (final r))
  end.
Proof. unfold next. by destruct (toks r). Qed.

Lemma scan_shrinks {A} (L : loop A) (HL : shrinks L) n acc r acc' r' :
  scan L n acc r = Ok (acc', r') → (length (toks r') ≤ length (toks r))%nat.
Proof.
  revert acc r; induction n as [|n IH]; intros acc r; [done|]. cbn [scan].
  pose proof (next_cases r) as Hn. destruct (toks r) as [|t l] eqn:Hr; rewrite Hn.
  - destruct (final r); [|done]. destruct (top L); [|done]. intros [= _ <-]. by rewrite Hr.
  - destruct t as [nm a|nm|s|].
    + destruct (on_start L acc nm a _) as [[a1 r1]|] eqn:Hs; [|done]. intros H%IH.
      apply HL in Hs. simpl in *. lia.
    + destruct (on_end L acc nm) as [[] a1]; [intros [= _ <-]; simpl; lia|].
      intros H%IH. simpl in *. lia.
    + intros H%IH. simpl in *. lia.
    + intros H%IH. simpl in *. lia.
Qed.

Lemma run_loop_shrinks {A} (L : loop A) (HL : shrinks L) acc r acc' r' :
  run_loop L acc r = Ok (acc', r') → (length (toks r') ≤ length (toks r))%nat.
Proof. apply scan_shrinks, HL. Qed.

(** Any fuel above the number of tokens gives the same result: a loop of the
    code, which has no bound, returns it. *)
Lemma scan_fuel {A} (L : loop A) (HL : shrinks L) n m acc r :
  (length (toks r) < n)%nat → (length (toks r) < m)%nat → scan L n acc r = scan L m acc r.
Proof.
  revert m acc r; induction n as [|n IH]; intros m acc r Hn Hm; [lia|].
  destruct m as [|m]; [lia|]. cbn [scan].
  pose proof (next_cases r) as Hx. destruct (toks r) as [|t l] eqn:Hr; rewrite Hx; [done|].
  simpl in Hn, Hm. destruct t as [nm a|nm|s|].
  - destruct (on_start L acc nm a _) as [[a1 r1]|] eqn:Hs; [|done]. apply HL in Hs. simpl in Hs.
    apply IH; lia.
  - destruct (on_end L acc nm) as [[] a1]; [done|]. apply IH; simpl; lia.
  - apply IH; simpl; lia.
  - apply IH; simpl; lia.
Qed.

(** The loop, one token at a time. *)
Lemma run_loop_unfold {A} (L : loop A) (HL : shrinks L) acc r :
  run_loop L acc r =
    match next r with
    | Err EOF => if top L then Ok (acc, r) else Err (stop_error EOF)
    | Err e => Err (stop_error e)
    | Ok (StartElement n a, r') => p ← on_start L acc n a r'; run_loop L p.1 p.2
    | Ok (EndElement n, r') =>
        let '(stop, acc') := on_end L acc n in if stop then Ok (acc', r') else run_loop L acc' r'
    | Ok (CharData s, r') => run_loop L (on_text L acc s) r'
    | Ok (OtherToken, r') => run_loop L acc r'
    end.
Proof.
  unfold run_loop at 1. cbn [scan]. pose proof (next_cases r) as Hx.
  destruct (toks r) as [|t l] eqn:Hr; rewrite Hx; [done|]. destruct t as [nm a|nm|s|]; simpl length.
  - destruct (on_start L acc nm a _) as [[a1 r1]|] eqn:Hs; [|done].
    unfold mbind, result_bind, run_loop. cbn [fst snd].
    apply HL in Hs. simpl in Hs. apply scan_fuel; [done|lia..].
  - by destruct (on_end L acc nm) as [[] a1].
  - done.
  - done.
Qed.

Lemma text_loop_shrinks : shrinks text_loop.
Proof. intros acc n a r acc' r'. apply skip_start_shrinks. Qed.

Lemma DecodeElement_shrinks r s r' :
  DecodeElement r = Ok (s, r') → (length (toks r') ≤ length (toks r))%nat.
Proof. apply run_loop_shrinks, text_loop_shrinks. Qed.

Lemma field_shrinks {A} (f : string → result error A) r a r' :
  field f r = Ok (a, r') → (length (toks r') ≤ length (toks r))%nat.
Proof.
  unfold field. intros ([s r1]&Hd&(a'&_&[= _ <-])%result_bind_ok)%result_bind_ok.
  by apply DecodeElement_shrinks in Hd.
Qed.

(** Discharges [shrinks] of a loop whose start handlers are matches on the
    element's name over the handlers above. *)
Create HintDb xml.
#[export] Hint Resolve skip_start_shrinks field_shrinks : xml.
Tactic Notation "solve_shrinks" reference(L) :=
  let H := fresh in
  intros ? ? ? ? ? ? H; unfold L in H; cbn [on_start] in H;
  repeat match type of H with context [if ?b then _ else _] => destruct b end; eauto with xml.

(** ** Documents

    What a well-formed piece of XML is, and the tokens it yields. *)
Inductive xml :=
| Elem (n : Name) (attr : list Attr) (kids : list xml)
| Text (s : string)
| Misc.

Fixpoint tokens (x : xml) : list Token :=
  match x with
  | Elem n a kids => StartElement n a :: flat_map tokens kids ++ [EndElement n]
  | Text s => [CharData s]
  | Misc => [OtherToken]
  end.
Definition forest (f : list xml) : list Token := flat_map tokens f.

Lemma xml_ind' (P : xml → Prop)
  (HE : ∀ n a kids, Forall P kids → P (Elem n a kids)) (HT : ∀ s, P (Text s)) (HM : P Misc) : ∀ x, P x.
Proof.
  fix IH 1. intros [n a kids|s|]; [|apply HT|apply HM]. apply HE.
  induction kids as [|k kids IHk]; constructor; [apply IH|apply IHk].
Qed.

Lemma forest_cons x f : forest (x :: f) = tokens x ++ forest f.
Proof. done. Qed.
Lemma tokens_Elem n a kids : tokens (Elem n a kids) = StartElement n a :: forest kids ++ [EndElement n].
Proof. done. Qed.
Lemma forest_Elem n a kids f tl :
  forest (Elem n a kids :: f) ++ tl = StartElement n a :: forest kids ++ EndElement n :: forest f ++ tl.
Proof. rewrite forest_cons, tokens_Elem. simpl. by rewrite <-!(assoc_L (++)). Qed.

Lemma skip_go_tokens x d l : skip_go d (tokens x ++ l) = skip_go d l.
Proof.
  revert d l; induction x as [n a kids IH|s|] using xml_ind'; intros d l; [|done|done].
  cbn [tokens]. simpl. rewrite <-(assoc_L (++)).
  assert (∀ d l, skip_go d (flat_map tokens kids ++ l) = skip_go d l) as Hk.
  { induction IH as [|k kids Hx _ IHk]; intros d' l'; [done|]. simpl.
    by rewrite <-(assoc_L (++)), Hx. }
  by rewrite Hk.
Qed.

Lemma skip_go_forest f d l : skip_go d (forest f ++ l) = skip_go d l.
Proof.
  induction f as [|x f IH]; [done|]. by rewrite forest_cons, <-(assoc_L (++)), skip_go_tokens.
Qed.

Lemma Skip_forest f n l fin :
  Skip (MkReader (forest f ++ EndElement n :: l) fin) = Ok (MkReader l fin).
Proof. unfold Skip. simpl. by rewrite skip_go_forest. Qed.

(** A loop whose start handler reads exactly the element and combines it into
    the accumulator by [G] folds [G] over a document. *)
Section fold.
Context {A : Type} (L : loop A) (HL : shrinks L).
Context (G : A → Name → list Attr → list xml → result error A).
Context (HG : ∀ acc n a kids l fin,
  on_start L acc n a (MkReader (forest kids ++ EndElement n :: l) fin)
    = (acc' ← G acc n a kids; Ok (acc', MkReader l fin))).

Definition step_xml (acc : A) (x : xml) : result error A :=
  match x with
  | Elem n a kids => G acc n a kids
  | Text s => Ok (on_text L acc s)
  | Misc => Ok acc
  end.
Fixpoint fold_xml (acc : A) (f : list xml) : result error A :=
  match f with [] => Ok acc | x :: f' => acc' ← step_xml acc x; fold_xml acc' f' end.

Lemma run_loop_forest f acc tl fin :
  run_loop L acc (MkReader (forest f ++ tl) fin) =
    (acc' ← fold_xml acc f; run_loop L acc' (MkReader tl fin)).
Proof using HL HG.
  revert acc; induction f as [|x f IH]; intros acc; [done|].
  destruct x as [n a kids|s|]; cbn [fold_xml step_xml].
  - rewrite forest_Elem. rewrite run_loop_unfold by done. cbn [next toks final].
    rewrite HG. destruct (G acc n a kids) as [acc'|e]; [|done]. cbn. apply IH.
  - rewrite run_loop_unfold by done. cbn. apply IH.
  - rewrite run_loop_unfold by done. cbn. apply IH.
Qed.

Lemma run_loop_document f acc (Ht : top L = true) :
  run_loop L acc (MkReader (forest f) EOF) = (acc' ← fold_xml acc f; Ok (acc', MkReader [] EOF)).
Proof using HL HG.
  rewrite <-(app_nil_r (forest f)), run_loop_forest. destruct (fold_xml acc f) as [acc'|]; [|done].
  cbn. rewrite run_loop_unfold by done. cbn. by rewrite Ht.
Qed.

Lemma run_loop_element f acc n l fin :
  (∀ acc, on_end L acc n = (true, acc)) →
  run_loop L acc (MkReader (forest f ++ EndElement n :: l) fin) =
    (acc' ← fold_xml acc f; Ok (acc', MkReader l fin)).
Proof using HL HG.
  intros He. rewrite run_loop_forest. destruct (fold_xml acc f) as [acc'|]; [|done].
  cbn. rewrite run_loop_unfold by done. cbn. by rewrite He.
Qed.
End fold.

(** The text directly inside an element. *)
Fixpoint text_of (f : list xml) : string :=
  match f with
  | [] => ""
  | Text s :: f' => String.append s (text_of f')
  | _ :: f' => text_of f'
  end.

Lemma DecodeElement_text f n l fin :
  DecodeElement (MkReader (forest f ++ EndElement n :: l) fin) = Ok (text_of f, MkReader l fin).
Proof.
  unfold DecodeElement.
  rewrite (run_loop_element text_loop text_loop_shrinks (λ acc _ _ _, Ok acc)); [| |done].
  - assert (∀ acc, fold_xml text_loop (λ acc _ _ _, Ok acc) acc f = Ok (String.append acc (text_of f))) as Hf.
    { induction f as [|x f IH]; intros acc; simpl; [by rewrite str_app_nil_r|].
      destruct x as [?? kids|s|]; cbn [fold_xml step_xml text_of mbind result_bind]; rewrite IH; [done| |done].
      by rewrite <-str_app_assoc. }
    by rewrite Hf.
  - intros. cbn. unfold skip_start. by rewrite Skip_forest.
Qed.

Lemma field_text {A} (g : string → result error A) f n l fin :
  field g (MkReader (forest f ++ EndElement n :: l) fin) = (a ← g (text_of f); Ok (a, MkReader l fin)).
Proof. unfold field. by rewrite DecodeElement_text. Qed.

Lemma skip_start_forest {A} (acc : A) f n l fin :
  skip_start acc (MkReader (forest f ++ EndElement n :: l) fin) = Ok (acc, MkReader l fin).
Proof. unfold skip_start. by rewrite Skip_forest. Qed.
