(* ===== verification/Decoder.v ===== *)
(** * Reading SOAP envelopes ([internal/cwmp/soap/decoder.go]).

    A [Decoder] owns the token stream. Its operations return the decoder they
    leave behind; after an error the program drops it. *)
From Stdlib Require Import ZArith Lia Ascii String.
From S2P Require Import Prelude GoLib CpeErr Types EventTracker Soap Xml.

Inductive decoderState := stateInit | statePastEnvelope | statePastFault | statePastMethod | stateClosed.
#[export] Instance decoderState_eq_dec : EqDecision decoderState.
Proof. solve_decision. Defined.

(** The only option is [AcceptVersions]. *)
Record Decoder := MkDecoder {
  xd : reader; AcceptVersions : list string; state : decoderState; bodyEnv : Envelope
}.
Definition no_envelope : Envelope := MkEnvelope (MkHeader "" false) "" false "".
Definition NewDecoder (r : reader) (accept : list string) : Decoder :=
  MkDecoder r accept stateInit no_envelope.

Definition soap_wrap (op : string) (e : error) : error :=
  Wrap (String.append "soap.Decoder." op) KindInvalidArgument (Some e).

(** ** Finding the next element *)

Fixpoint expectStart_go (local ns : string) (fin : stop) (l : list Token) : result error (list Attr * reader) :=
  match l with
  | [] => Err (stop_error fin)
  | StartElement n a :: l' =>
      if negb (String.eqb (Local_ n) local) || negb (String.eqb (Space n) ns)
      then Err (errorf "expected <%s xmlns=%q>, got <%s xmlns=%q>" [local; ns; Local_ n; Space n])
      else Ok (a, MkReader l' fin)
  | _ :: l' => expectStart_go local ns fin l'
  end.
Definition expectStart (local ns : string) (r : reader) : result error (list Attr * reader) :=
  expectStart_go local ns (final r) (toks r).

Fixpoint peekStart_go (fin : stop) (l : list Token) : result error (Name * reader) :=
  match l with
  | [] => Err (stop_error fin)
  | StartElement n _ :: l' => Ok (n, MkReader l' fin)
  | EndElement n :: _ =>
      Err (errorf "unexpected end element %q while expecting start" [Local_ n])
  | _ :: l' => peekStart_go fin l'
  end.
Definition peekStart (r : reader) : result error (Name * reader) := peekStart_go (final r) (toks r).

Definition versionAccepted (accept : list string) (v : string) : bool :=
  match accept with [] => true | _ => existsb (String.eqb v) accept end.

Fixpoint detectCWMPVersion (accept : list string) (attrs : list Attr) : result error string :=
  match attrs with
  | [] => Err (errorf "no recognized CWMP namespace declared on Envelope" [])
  | a :: attrs' =>
      if String.eqb (Space (aName a)) "xmlns" && IsKnownVersion (aValue a)
      then if versionAccepted accept (aValue a) then Ok (aValue a)
           else Err (errorf "CWMP version %q not in AcceptVersions" [aValue a])
      else detectCWMPVersion accept attrs'
  end.

(** ** Elements of the header and of a fault *)

(** Character data up to the end element of the same name, whatever is
    nested in between. *)
Definition string_loop (local : string) : loop string :=
  MkLoop false (λ acc _ _ r, Ok (acc, r)) (ends_at local) (λ acc s, String.append acc s).
Definition readElementString (local : string) (r : reader) : result error (string * reader) :=
  run_loop (string_loop local) "" r.

Definition readElementInt (local : string) (r : reader) : result error (Z * reader) :=
  p ← readElementString local r;
  match Strconv.Atoi p.1 with
  | Ok n => Ok (n, p.2)
  | Err e => Err (Errorf "element %s: %w" [local] (Some (num_error "Atoi" p.1 e)))
  end.

Definition header_loop (cwmpURI : string) : loop Header :=
  MkLoop false
    (λ h n _ r,
       if negb (String.eqb (Space n) cwmpURI) then skip_start h r
       else if String.eqb (Local_ n) "ID" then
         p ← readElementString "ID" r; Ok (MkHeader p.1 (HoldRequests h), p.2)
       else if String.eqb (Local_ n) "HoldRequests" then
         p ← readElementString "HoldRequests" r;
         Ok (MkHeader (hID h) (String.eqb p.1 "1" || String.eqb p.1 "true"), p.2)
       else skip_start h r)
    (λ h n, (String.eqb (Space n) envelopeNS && String.eqb (Local_ n) "Header", h))
    keep.
Definition readHeader (cwmpURI : string) (r : reader) : result error (Header * reader) :=
  run_loop (header_loop cwmpURI) (MkHeader "" false) r.

(** ** ReadEnvelope *)
Definition body_start (h : Header) (uri : string) (next : Name) (r : reader)
  : result error (Envelope * reader) :=
  _ ← guard_err (String.eqb (Space next) envelopeNS && String.eqb (Local_ next) "Body")
        (errorf "expected Body, got %q in namespace %q" [Local_ next; Space next]);
  p ← peekStart r;
  Ok (MkEnvelope h (Local_ p.1) (String.eqb (Space p.1) envelopeNS && String.eqb (Local_ p.1) "Fault") uri,
      p.2).

Definition read_envelope (accept : list string) (r : reader) : result error (Envelope * reader) :=
  s ← expectStart "Envelope" envelopeNS r;
  uri ← detectCWMPVersion accept s.1;
  p ← peekStart s.2;
  if String.eqb (Space p.1) envelopeNS && String.eqb (Local_ p.1) "Header" then
    h ← readHeader uri p.2;
    q ← peekStart h.2;
    body_start h.1 uri q.1 q.2
  else body_start (MkHeader "" false) uri p.1 p.2.

Definition ReadEnvelope (d : Decoder) : result error (Envelope * Decoder) :=
  map_err (soap_wrap "ReadEnvelope")
    (_ ← guard_err (bool_decide (state d = stateInit)) (errorf "ReadEnvelope already called" []);
     p ← read_envelope (AcceptVersions d) (xd d);
     Ok (p.1, MkDecoder p.2 (AcceptVersions d) statePastEnvelope p.1)).

(** ** ReadFault: from inside the Fault element to its end, counting depth *)
Definition fault_loop : loop (nat * Fault) :=
  MkLoop false
    (λ '(depth, f) n _ r,
       if String.eqb (Local_ n) "FaultCode" then
         p ← readElementInt "FaultCode" r; Ok ((depth, MkFault p.1 (FaultString f) (SetFaults f)), p.2)
       else if String.eqb (Local_ n) "FaultString" then
         p ← readElementString "FaultString" r; Ok ((depth, MkFault (FaultCode f) p.1 (SetFaults f)), p.2)
       else Ok ((S depth, f), r))
    (λ '(depth, f) _, (bool_decide (depth = 1%nat), (Nat.pred depth, f)))
    keep.

Definition ReadFault (d : Decoder) : result error (Fault * Decoder) :=
  map_err (soap_wrap "ReadFault")
    (_ ← guard_err (bool_decide (state d = statePastEnvelope) && IsFault (bodyEnv d))
           (errorf "ReadFault called outside fault path" []);
     p ← run_loop fault_loop (1%nat, MkFault 0 "" []) (xd d);
     Ok (p.1.2, MkDecoder p.2 (AcceptVersions d) statePastFault (bodyEnv d))).

(** ** MethodTokens *)
Record methodTokens := MkMethodTokens { mt_xd : reader; depth : nat; exhausted : bool }.

(** One call of [Token]. *)
Definition methodTokens_Token (m : methodTokens) : result stop Token * methodTokens :=
  if exhausted m then (Err EOF, m)
  else match next (mt_xd m) with
       | Err e => (Err e, m)
       | Ok (t, r) =>
           match t with
           | StartElement _ _ => (Ok t, MkMethodTokens r (S (depth m)) false)
           | EndElement _ =>
               if bool_decide (depth m = 1%nat) then (Err EOF, MkMethodTokens r 0 true)
               else (Ok t, MkMethodTokens r (Nat.pred (depth m)) false)
           | _ => (Ok t, MkMethodTokens r (depth m) false)
           end
       end.

(** What a reader that calls [Token] until it fails sees. *)
Fixpoint read_all (fuel : nat) (m : methodTokens) : list Token * stop :=
  match fuel with
  | O => ([], Broken (errorf "read_all: out of fuel" []))
  | S fuel' =>
      match methodTokens_Token m with
      | (Err e, _) => ([], e)
      | (Ok t, m') => let '(l, e) := read_all fuel' m' in (t :: l, e)
      end
  end.
Definition as_reader (m : methodTokens) : reader :=
  let '(l, e) := read_all (S (length (toks (mt_xd m)))) m in MkReader l e.

Definition MethodTokens (d : Decoder) : result error methodTokens :=
  map_err (soap_wrap "MethodTokens")
    (_ ← guard_err (bool_decide (state d = statePastEnvelope) && negb (IsFault (bodyEnv d)))
           (errorf "MethodTokens called outside method path" []);
     Ok (MkMethodTokens (xd d) 1 false)).

(** ** Fuel and documents *)

Lemma string_loop_shrinks local : shrinks (string_loop local).
Proof. intros acc n a r acc' r'. cbn. intros [= _ <-]. lia. Qed.

Lemma readElementString_shrinks local r s r' :
  readElementString local r = Ok (s, r') → (length (toks r') ≤ length (toks r))%nat.
Proof. apply run_loop_shrinks, string_loop_shrinks. Qed.

Lemma readElementInt_shrinks local r s r' :
  readElementInt local r = Ok (s, r') → (length (toks r') ≤ length (toks r))%nat.
Proof.
  unfold readElementInt. intros ([t r1]&Hr%readElementString_shrinks&H)%result_bind_ok. cbn in H.
  destruct (Strconv.Atoi t); simplify_eq. done.
Qed.

Lemma header_loop_shrinks uri : shrinks (header_loop uri).
Proof.
  intros h n a r h' r'. cbn [header_loop on_start].
  repeat case_match; eauto with xml;
    intros ([s r1]&Hr%readElementString_shrinks&[= _ <-])%result_bind_ok; done.
Qed.

Lemma fault_loop_shrinks : shrinks fault_loop.
Proof.
  intros [d f] n a r acc' r'. cbn [fault_loop on_start].
  repeat case_match; [| |by intros [= _ <-]].
  - by intros ([s r1]&Hr%readElementInt_shrinks&[= _ <-])%result_bind_ok.
  - by intros ([s r1]&Hr%readElementString_shrinks&[= _ <-])%result_bind_ok.
Qed.

(** Text of a leaf element, as the decoder reads it. *)
Definition leaf (n : Name) (s : string) : xml := Elem n [] [Text s].
Lemma readElementString_leaf n s l fin :
  readElementString (Local_ n) (MkReader (forest [Text s] ++ EndElement n :: l) fin) = Ok (s, MkReader l fin).
Proof.
  unfold readElementString. cbn [forest flat_map tokens app].
  rewrite !(run_loop_unfold _ (string_loop_shrinks _)). cbn.
  rewrite !(run_loop_unfold _ (string_loop_shrinks _)). cbn. by rewrite String.eqb_refl.
Qed.

(** Nothing but white space, comments and the like. *)
Definition blank (f : list xml) : Prop := Forall (λ x, match x with Elem _ _ _ => False | _ => True end) f.

Lemma expectStart_blank f local ns a l fin :
  blank f →
  expectStart local ns (MkReader (forest f ++ StartElement (MkName ns local) a :: l) fin) = Ok (a, MkReader l fin).
Proof.
  unfold expectStart. cbn [final toks]. induction 1 as [|x f Hx _ IH].
  - cbn. by rewrite !String.eqb_refl.
  - by destruct x.
Qed.

Lemma peekStart_blank f n a l fin :
  blank f → peekStart (MkReader (forest f ++ StartElement n a :: l) fin) = Ok (n, MkReader l fin).
Proof. unfold peekStart. cbn [final toks]. induction 1 as [|x f Hx _ IH]; [done|]. by destruct x. Qed.

(** A header child: the two the decoder knows, or one it skips. *)
Inductive header_child (uri : string) : xml → (Header → Header) → Prop :=
| child_id s : header_child uri (leaf (MkName uri "ID") s) (λ h, MkHeader s (HoldRequests h))
| child_hold s : header_child uri (leaf (MkName uri "HoldRequests") s)
    (λ h, MkHeader (hID h) (String.eqb s "1" || String.eqb s "true"))
| child_other n a kids :
    Space n ≠ uri ∨ (Local_ n ≠ "ID" ∧ Local_ n ≠ "HoldRequests") →
    header_child uri (Elem n a kids) id
| child_text s : header_child uri (Text s) id
| child_misc : header_child uri Misc id.

Lemma readHeader_children uri hs fs l fin :
  Forall2 (header_child uri) hs fs →
  readHeader uri (MkReader (forest hs ++ EndElement (MkName envelopeNS "Header") :: l) fin) =
    Ok (foldl (λ h f, f h) (MkHeader "" false) fs, MkReader l fin).
Proof.
  unfold readHeader. generalize (MkHeader "" false). intros h HF. revert h.
  induction HF as [|x f hs fs Hx _ IH]; intros h.
  { rewrite (run_loop_unfold _ (header_loop_shrinks _)). done. }
  cbn [foldl]. inv Hx.
  - unfold leaf. rewrite forest_Elem, (run_loop_unfold _ (header_loop_shrinks _)).
    cbn [next toks final header_loop on_start Space Local_]. rewrite String.eqb_refl. cbn [negb].
    change (String.eqb "ID" "ID") with true. cbn beta iota.
    rewrite (readElementString_leaf (MkName uri "ID")). cbn. apply IH.
  - unfold leaf. rewrite forest_Elem, (run_loop_unfold _ (header_loop_shrinks _)).
    cbn [next toks final header_loop on_start Space Local_]. rewrite String.eqb_refl. cbn [negb].
    change (String.eqb "HoldRequests" "ID") with false.
    change (String.eqb "HoldRequests" "HoldRequests") with true. cbn beta iota.
    rewrite (readElementString_leaf (MkName uri "HoldRequests")). cbn. apply IH.
  - rewrite forest_Elem, (run_loop_unfold _ (header_loop_shrinks _)).
    cbn [next toks final header_loop on_start].
    assert ((if negb (String.eqb (Space n) uri) then true
             else if String.eqb (Local_ n) "ID" then false
             else if String.eqb (Local_ n) "HoldRequests" then false else true) = true) as Hb.
    { destruct H as [H|[H1 H2]].
      - by rewrite (proj2 (String.eqb_neq _ _) H).
      - rewrite (proj2 (String.eqb_neq _ _) H1), (proj2 (String.eqb_neq _ _) H2). by case_match. }
    repeat case_match; try done; rewrite skip_start_forest; apply IH.
  - rewrite (run_loop_unfold _ (header_loop_shrinks _)). apply IH.
  - rewrite (run_loop_unfold _ (header_loop_shrinks _)). apply IH.
Qed.

(** The tokens of an envelope: what is in front of it, its attributes, the
    white space inside it, its header, its body's first child. *)
Definition envelope_tokens (pre : list xml) (attrs : list Attr) (ws1 : list xml)
  (header : option (list xml * list xml)) (ws2 : list xml) (m : Name) (ma : list Attr)
  (kids : list xml) (rest : list Token) : list Token :=
  forest pre ++ StartElement (MkName envelopeNS "Envelope") attrs :: forest ws1 ++
  (match header with
   | Some (hs, ws) =>
       StartElement (MkName envelopeNS "Header") [] :: forest hs ++
       EndElement (MkName envelopeNS "Header") :: forest ws
   | None => []
   end) ++
  StartElement (MkName envelopeNS "Body") [] :: forest ws2 ++
  StartElement m ma :: forest kids ++ EndElement m :: rest.

Lemma read_all_forest f m n l fin :
  (length (forest f) < n)%nat → (0 < m)%nat →
  read_all n (MkMethodTokens (MkReader (forest f ++ l) fin) m false) =
    (let '(l', e) := read_all (n - length (forest f)) (MkMethodTokens (MkReader l fin) m false) in
     (forest f ++ l', e)).
Proof.
  revert m n l; induction (Forall_true (λ _, True) f ltac:(done)) as [|x f _ _ IH]; intros m n l Hn Hm.
  { cbn. rewrite Nat.sub_0_r. by destruct (read_all _ _). }
  rewrite forest_cons, <-(assoc_L (++)) in *.
  assert (∀ x m n l, (length (tokens x) < n)%nat → (0 < m)%nat →
    read_all n (MkMethodTokens (MkReader (tokens x ++ l) fin) m false) =
    (let '(l', e) := read_all (n - length (tokens x)) (MkMethodTokens (MkReader l fin) m false) in
     (tokens x ++ l', e))) as Hone.
  { clear. intros x; induction x as [nm a kids IHk|s|] using xml_ind'; intros m n l Hn Hm.
    - assert (∀ m n l, (length (forest kids) < n)%nat → (0 < m)%nat →
        read_all n (MkMethodTokens (MkReader (forest kids ++ l) fin) m false) =
        (let '(l', e) := read_all (n - length (forest kids)) (MkMethodTokens (MkReader l fin) m false) in
         (forest kids ++ l', e))) as Hkids.
      { clear -IHk. induction IHk as [|x f Hx _ IH]; intros m n l Hn Hm.
        - cbn. rewrite Nat.sub_0_r. by destruct (read_all _ _).
        - rewrite forest_cons, length_app in Hn. rewrite forest_cons, <-(assoc_L (++)).
          rewrite Hx, IH by lia. rewrite length_app, Nat.sub_add_distr.
          destruct (read_all _ _). by rewrite (assoc_L (++)). }
      rewrite tokens_Elem in *. simpl in Hn. rewrite length_app in Hn. simpl in Hn.
      destruct n as [|n]; [lia|]. cbn [app read_all methodTokens_Token exhausted next toks mt_xd depth final].
      rewrite <-(assoc_L (++)). rewrite Hkids by lia. simpl length. rewrite length_app. simpl length.
      replace (n - length (forest kids))%nat with (S (n - length (forest kids) - 1)) by lia.
      cbn [read_all methodTokens_Token exhausted next toks mt_xd depth final app].
      rewrite bool_decide_false by lia. cbn [Nat.pred].
      replace (S n - S (length (forest kids) + 1))%nat with (n - length (forest kids) - 1)%nat by lia.
      destruct (read_all _ _). by rewrite <-(assoc_L (++)).
    - destruct n as [|n]; [simpl in Hn; lia|]. cbn. rewrite Nat.sub_0_r. by destruct (read_all _ _).
    - destruct n as [|n]; [simpl in Hn; lia|]. cbn. rewrite Nat.sub_0_r. by destruct (read_all _ _). }
  rewrite length_app in Hn. rewrite Hone, IH by lia. rewrite length_app, Nat.sub_add_distr.
  destruct (read_all _ _). by rewrite (assoc_L (++)).
Qed.

Lemma as_reader_element kids n l fin :
  as_reader (MkMethodTokens (MkReader (forest kids ++ EndElement n :: l) fin) 1 false) =
    MkReader (forest kids) EOF.
Proof.
  unfold as_reader. cbn [mt_xd toks]. rewrite length_app. simpl length.
  rewrite read_all_forest by lia.
  replace (S (length (forest kids) + S (length l)) - length (forest kids))%nat with (S (S (length l))) by lia.
  cbn. rewrite bool_decide_true by done. cbn. by rewrite app_nil_r.
Qed.

(** An envelope in any layout the ACS may choose (a prologue, white space
    and comments between the elements, an optional header with children the
    CPE does not know) is read as its method, its header and its CWMP version,
    and what the method's handler is then given to read is exactly the content
    of the method element, ended by [io.EOF]. *)
Theorem ReadEnvelope_reads (accept : list string) (pre ws1 ws2 kids : list xml) (attrs ma : list Attr)
  (header : option (list xml * list xml)) (fs : list (Header → Header)) (m : Name) (uri : string)
  (rest : list Token) (fin : stop)
  (Hpre : blank pre) (Hws1 : blank ws1) (Hws2 : blank ws2)
  (Huri : detectCWMPVersion accept attrs = Ok uri)
  (Hh : match header with Some (hs, ws) => Forall2 (header_child uri) hs fs ∧ blank ws | None => fs = [] end) :
  let isFault := bool_decide (m = MkName envelopeNS "Fault") in
  let env := MkEnvelope (foldl (λ h f, f h) (MkHeader "" false) fs) (Local_ m) isFault uri in
  ∃ d, ReadEnvelope (NewDecoder (MkReader (envelope_tokens pre attrs ws1 header ws2 m ma kids rest) fin) accept)
         = Ok (env, d) ∧
    if isFault then is_ok (MethodTokens d) = false
    else ∃ mt, MethodTokens d = Ok mt ∧ as_reader mt = MkReader (forest kids) EOF.
Proof.
  intros isFault env.
  assert (String.eqb (Space m) envelopeNS && String.eqb (Local_ m) "Fault" = isFault) as Hf.
  { unfold isFault. destruct m as [sp lo]; cbn [Space Local_]. destruct (String.eqb_spec sp envelopeNS) as [->|Hs].
    - destruct (String.eqb_spec lo "Fault") as [->|Hl]; [by rewrite bool_decide_true|].
      rewrite bool_decide_false; [done|]. by intros [= ->].
    - rewrite bool_decide_false; [done|]. by intros [= -> ->]. }
  assert (read_envelope accept (MkReader (envelope_tokens pre attrs ws1 header ws2 m ma kids rest) fin)
          = Ok (env, MkReader (forest kids ++ EndElement m :: rest) fin)) as Hread.
  { unfold read_envelope, envelope_tokens. rewrite expectStart_blank by done. cbn [mbind result_bind fst snd].
    rewrite Huri. destruct header as [[hs ws]|].
    - destruct Hh as [Hh Hws]. rewrite <-app_comm_cons, peekStart_blank by done. cbn [mbind result_bind fst snd].
      change (String.eqb (Space (MkName envelopeNS "Header")) envelopeNS && _) with true. cbn beta iota.
      rewrite <-(assoc_L (++)), <-app_comm_cons, (readHeader_children _ _ fs) by done.
      cbn [mbind result_bind fst snd]. rewrite peekStart_blank by done. cbn [mbind result_bind fst snd].
      unfold body_start. rewrite peekStart_blank by done. cbn. by rewrite Hf.
    - subst fs. cbn [app]. rewrite peekStart_blank by done. cbn [mbind result_bind fst snd].
      change (String.eqb (Space (MkName envelopeNS "Body")) envelopeNS && _) with false. cbn beta iota.
      unfold body_start. rewrite peekStart_blank by done. cbn. by rewrite Hf. }
  unfold ReadEnvelope. cbn [NewDecoder state AcceptVersions xd].
  rewrite bool_decide_true by done. cbn [guard_err mbind result_bind]. rewrite Hread. cbn [map_err fst snd].
  eexists. split; [reflexivity|]. unfold MethodTokens. cbn [state bodyEnv xd IsFault env].
  rewrite bool_decide_true by done. destruct isFault; [done|]. cbn.
  eexists. split; [reflexivity|]. apply as_reader_element.
Qed.

Lemma ReadEnvelope_reads_witness :
  let attrs := [MkAttr (MkName "xmlns" "cwmp") V12] in
  let r := MkReader (envelope_tokens [Misc] attrs [Text " "]
             (Some ([Text " "; leaf (MkName V12 "ID") "42"; leaf (MkName V12 "NoMoreRequests") "0"], []))
             [] (MkName V12 "Reboot") [] [leaf (MkName "" "CommandKey") "k"] []) EOF in
  ∃ d, ReadEnvelope (NewDecoder r []) = Ok (MkEnvelope (MkHeader "42" false) "Reboot" false V12, d) ∧
    ∃ mt, MethodTokens d = Ok mt ∧ as_reader mt = MkReader (forest [leaf (MkName "" "CommandKey") "k"]) EOF.
Proof.
  refine (ReadEnvelope_reads [] [Misc] [Text " "] [] [leaf (MkName "" "CommandKey") "k"]
    [MkAttr (MkName "xmlns" "cwmp") V12] []
    (Some ([Text " "; leaf (MkName V12 "ID") "42"; leaf (MkName V12 "NoMoreRequests") "0"], []))
    [id; (λ h, MkHeader "42" (HoldRequests h)); id] (MkName V12 "Reboot") V12 [] EOF _ _ _ eq_refl _).
  - by repeat constructor.
  - by repeat constructor.
  - by repeat constructor.
  - split; [|by constructor]. constructor; [constructor|]. constructor; [constructor|].
    constructor; [|constructor]. apply child_other. right. by split.
Defined.
