(* ===== verification/Handler.v ===== *)
(** * RPC handlers: the interface the session dispatches to
    ([internal/cwmp/handler.go]) and the helpers the handlers share
    ([internal/cwmp/handlers/handlers.go], the fault constructors of
    [getparametervalues.go]).

    A handler acts on the state [W] of its CPE. What the handlers need of that
    state are the interfaces [HasTree], [HasTracker] and [HasAfterSession]:
    their theorems hold for every state that implements them. *)
From Stdlib Require Import ZArith Lia Ascii String.
From S2P Require Import Prelude GoLib CpeErr Tree EventTracker Retry Soap Xml.

(** ** handler.go *)

(** What [Handle] returns: a [*FaultError], which the session renders as it
    is, or any other error. *)
Inductive handler_error :=
| FaultError (f : Fault)
| PlainError (e : error).

Definition faultMethodNotSupported : Z := 9000.
Definition faultInternalError : Z := 9002.

Record Handler (W : Type) := MkHandler {
  Method : string;
  Handle : W → reader → W * result handler_error string
}.
Arguments MkHandler {W} _ _.
Arguments Method {W} _.
Arguments Handle {W} _ _ _.

(** ** What handlers reach *)

(** The parameter tree. [observed] is what the observers registered on the
    tree do with the changes an operation hands them. *)
Class HasTree (W : Type) := {
  get_tree : W → Tree;
  put_tree : Tree → W → W;
  observed : list Change → W → W;
  get_put_tree : ∀ t w, get_tree (put_tree t w) = t;
  put_get_tree : ∀ w, put_tree (get_tree w) w = w;
  observed_nil : ∀ w, observed [] w = w
}.

Class HasTracker (W : Type) := {
  get_tracker : W → EventTracker;
  put_tracker : EventTracker → W → W;
  get_put_tracker : ∀ t w, get_tracker (put_tracker t w) = t
}.

Definition on_tracker {W} `{HasTracker W} (f : EventTracker → EventTracker) (w : W) : W :=
  put_tracker (f (get_tracker w)) w.

(** An operation of the tree, seen from the state it is part of. *)
Definition tree_op {W A} `{HasTree W} (w : W) (o : outcome A) : W * result error A :=
  let '(t, cs, r) := o in (observed cs (put_tree t w), r).

(** ** Faults *)
Definition faultInvalidParameterName (path : string) : handler_error :=
  FaultError (MkFault 9005 ("Invalid parameter name: " +:+ path) []).
Definition faultInvalidArgs (detail : string) : handler_error :=
  FaultError (MkFault 9003 ("Invalid arguments: " +:+ detail) []).

(** ** handlers.go *)

(** <string> children until the end of the list. *)
Definition string_list_loop (list_name : string) : loop (option (list string)) :=
  MkLoop false
    (λ acc n _ r,
       if String.eqb (Local_ n) "string"
       then field (λ s, Ok (Some (default [] acc ++ [s]))) r
       else skip_start acc r)
    (ends_at list_name) keep.
(** A nil slice when the list is empty. *)
Definition readStringListFromStart (list_name : string) (r : reader)
  : result error (option (list string) * reader) :=
  run_loop (string_list_loop list_name) None r.

(** The search for the list's own start element; other elements are skipped.
    Finding it is how this loop ends, so it is a recursion of its own. *)
Fixpoint find_list (fuel : nat) (list_name : string) (r : reader) : result error reader :=
  match fuel with
  | O => Err (errorf "find_list: out of fuel" [])
  | S fuel' =>
      match next r with
      | Err e => Err (Errorf "looking for <%s>: %w" [list_name] (Some (stop_error e)))
      | Ok (StartElement n _, r') =>
          if String.eqb (Local_ n) list_name then Ok r'
          else match Skip r' with Ok r'' => find_list fuel' list_name r'' | Err e => Err e end
      | Ok (_, r') => find_list fuel' list_name r'
      end
  end.
Definition readStringList (list_name : string) (r : reader)
  : result error (option (list string) * reader) :=
  r' ← find_list (S (length (toks r))) list_name r; readStringListFromStart list_name r'.

Record ObjectNameAndKey := MkObjectNameAndKey { ObjectName : string; ParameterKey : string }.
Definition object_loop : loop ObjectNameAndKey :=
  MkLoop true
    (λ acc n _ r,
       if String.eqb (Local_ n) "ObjectName" then field (λ s, Ok (MkObjectNameAndKey s (ParameterKey acc))) r
       else if String.eqb (Local_ n) "ParameterKey" then field (λ s, Ok (MkObjectNameAndKey (ObjectName acc) s)) r
       else skip_start acc r)
    never_ends keep.
Definition decodeObjectNameAndKey (r : reader) : result error ObjectNameAndKey :=
  p ← run_loop object_loop (MkObjectNameAndKey "" "") r; Ok p.1.

(** ** Decoding documents *)
Lemma string_list_loop_shrinks l : shrinks (string_list_loop l).
Proof. solve_shrinks string_list_loop. Qed.
Lemma object_loop_shrinks : shrinks object_loop.
Proof. solve_shrinks object_loop. Qed.

(** A loop over fields: reading a document is a fold over its elements. *)
Tactic Notation "solve_fields" reference(L) reference(G) :=
  intros; unfold L, G; cbn [on_start];
  repeat match goal with |- context [if ?b then _ else _] => destruct b end;
  rewrite ?field_text, ?skip_start_forest; try reflexivity.

Definition string_elem (s : string) : xml := Elem (MkName "" "string") [] [Text s].

Lemma text_of_single s : text_of [Text s] = s.
Proof. apply str_app_nil_r. Qed.

Definition G_string_list (acc : option (list string)) (n : Name) (_ : list Attr) (kids : list xml)
  : result error (option (list string)) :=
  if String.eqb (Local_ n) "string" then Ok (Some (default [] acc ++ [text_of kids])) else Ok acc.

Lemma readStringListFromStart_doc list_name kids n l fin :
  Local_ n = list_name →
  readStringListFromStart list_name (MkReader (forest kids ++ EndElement n :: l) fin) =
    (acc ← fold_xml (string_list_loop list_name) G_string_list None kids; Ok (acc, MkReader l fin)).
Proof.
  intros Hn. unfold readStringListFromStart.
  apply (run_loop_element _ (string_list_loop_shrinks _) G_string_list).
  - solve_fields string_list_loop G_string_list.
  - intros acc. cbn. unfold ends_at. by rewrite Hn, String.eqb_refl.
Qed.

Lemma fold_strings ln acc ss :
  fold_xml (string_list_loop ln) G_string_list acc (string_elem <$> ss) =
    Ok (match ss with [] => acc | _ => Some (default [] acc ++ ss) end).
Proof.
  revert acc; induction ss as [|s ss IH]; intros acc; [done|].
  cbn [fmap list_fmap fold_xml step_xml string_elem].
  change (G_string_list acc _ _ _) with (Ok (E := error) (Some (default [] acc ++ [text_of [Text s]]))).
  rewrite text_of_single. cbn [mbind result_bind]. rewrite IH. destruct ss; [done|].
  cbn [default from_option id]. by rewrite <-(assoc_L (++)).
Qed.

(** The request of the methods that take a list of parameter names. *)
Lemma readStringList_doc list_name ss a l fin n :
  Local_ n = list_name →
  ∃ r', readStringList list_name
    (MkReader (forest [Elem n a (string_elem <$> ss)] ++ l) fin) = Ok (match ss with [] => None | _ => Some ss end, r').
Proof.
  intros Hn. unfold readStringList. rewrite forest_Elem. cbn [toks length find_list next final].
  rewrite Hn, String.eqb_refl. cbn [mbind result_bind].
  rewrite readStringListFromStart_doc by done. rewrite fold_strings. cbn [mbind result_bind].
  eexists. by destruct ss.
Qed.
