(* ===== verification/Cpe.v ===== *)
(** * The state of one simulated CPE, as [cmd/cpe-sim/main.go] wires it.

    The closures of [main.go] that the handlers call back are operations on
    this state; what leaves it (a session to open, a schedule to rearm) is
    appended to [effects], in the order it happens. *)
From Stdlib Require Import ZArith Lia Ascii String.
From S2P Require Import Prelude GoLib CpeErr Types Node Tree TreeProps Batch EventTracker Retry Soap Xml Handler.

Inductive effect :=
| OnIntervalChange
| RequestSession (trigger : Trigger).
#[export] Instance effect_eq_dec : EqDecision effect.
Proof. solve_decision. Defined.

(** [PeriodicInformPaths] of the profile; all empty when there is none. *)
Record InformPaths := MkInformPaths { Interval : string; Enable : string; TimePath : string }.
Definition InformPaths_IsZero (p : InformPaths) : bool :=
  String.eqb (Interval p) "" && String.eqb (Enable p) "".

Record CPE := MkCPE {
  cTree : Tree; cTracker : EventTracker; cAfter : AfterSession (list Setter);
  cRetry : RetryState; cPaths : InformPaths; effects : list effect
}.

Definition on_effect (e : effect) (w : CPE) : CPE :=
  MkCPE (cTree w) (cTracker w) (cAfter w) (cRetry w) (cPaths w) (effects w ++ [e]).
#[export] Program Instance CPE_tracker : HasTracker CPE := {|
  get_tracker := cTracker;
  put_tracker t w := MkCPE (cTree w) t (cAfter w) (cRetry w) (cPaths w) (effects w)
|}.
Next Obligation. done. Qed.
#[export] Program Instance CPE_after : HasAfterSession CPE (list Setter) := {|
  get_after := cAfter;
  put_after a w := MkCPE (cTree w) (cTracker w) a (cRetry w) (cPaths w) (effects w)
|}.
Next Obligation. done. Qed.

#[export] Program Instance CPE_retry : HasRetry CPE := {|
  get_retry := cRetry;
  put_retry r w := MkCPE (cTree w) (cTracker w) (cAfter w) r (cPaths w) (effects w)
|}.
Next Obligation. done. Qed.

(** The [valueChange] closure. *)
Definition cpe_valueChange (path : string) (w : CPE) : CPE :=
  let w := put_tracker (RecordValueChange path (cTracker w)) w in
  let p := cPaths w in
  if negb (InformPaths_IsZero p) &&
     (String.eqb path (Interval p) || String.eqb path (Enable p) ||
      (negb (String.eqb (TimePath p) "") && String.eqb path (TimePath p)))
  then on_effect OnIntervalChange w else w.

(** The observer registered on the tree; the session it asks for runs in a
    goroutine of its own. *)
Definition cpe_observer (w : CPE) (ch : Change) : CPE :=
  match cKind ch with
  | ChangeValue =>
      match GetAttributes (cTree w) (cPath ch) with
      | Err _ => w
      | Ok attrs =>
          if (Notification attrs =? 0)%Z then w
          else
            let w := cpe_valueChange (cPath ch) w in
            if (Notification attrs =? 2)%Z then on_effect (RequestSession TriggerValueChange) w else w
      end
  | _ => w
  end.

#[export] Program Instance CPE_tree : HasTree CPE := {|
  get_tree := cTree;
  put_tree t w := MkCPE t (cTracker w) (cAfter w) (cRetry w) (cPaths w) (effects w);
  observed cs w := foldl cpe_observer w cs
|}.
Next Obligation. done. Qed.
Next Obligation. by intros []. Qed.
Next Obligation. done. Qed.

Lemma cpe_valueChange_tree path w : get_tree (cpe_valueChange path w) = get_tree w.
Proof. unfold cpe_valueChange. simpl. by case_match. Qed.

(** The state the examples start from. *)
Definition ex_cpe : CPE :=
  MkCPE ex_tree (NewEventTracker ∅) (MkAfterSession []) (MkRetryState 0) (MkInformPaths "" "" "") [].
