(* ===== verification/SetParameterValues.v ===== *)
(** * SetParameterValues
    ([internal/cwmp/handlers/setparametervalues.go]). *)
From Stdlib Require Import ZArith Lia Ascii String.
From S2P Require Import Prelude GoLib CpeErr Types Node Tree TreeProps Batch EventTracker Retry Soap Xml Handler Cpe.

Record spvEntry := MkSpvEntry { eName : string; eRaw : string }.
#[export] Instance spvEntry_eq_dec : EqDecision spvEntry.
Proof. solve_decision. Defined.

(** ** Decoding *)
Definition spv_entry_loop (start : string) : loop spvEntry :=
  MkLoop false
    (λ acc n _ r,
       if String.eqb (Local_ n) "Name" then field (λ s, Ok (MkSpvEntry s (eRaw acc))) r
       else if String.eqb (Local_ n) "Value" then field (λ s, Ok (MkSpvEntry (eName acc) s)) r
       else skip_start acc r)
    (ends_at start) keep.
Definition decodeOneParameterValueStruct (start : string) (r : reader) : result error (spvEntry * reader) :=
  run_loop (spv_entry_loop start) (MkSpvEntry "" "") r.

Definition spv_structs_loop (list_name : string) : loop (list spvEntry) :=
  MkLoop false
    (λ acc n _ r,
       if negb (String.eqb (Local_ n) "ParameterValueStruct") then skip_start acc r
       else p ← decodeOneParameterValueStruct (Local_ n) r; Ok (acc ++ [p.1], p.2))
    (ends_at list_name) keep.
Definition decodeParameterValueStructs (list_name : string) (r : reader)
  : result error (list spvEntry * reader) := run_loop (spv_structs_loop list_name) [] r.

(** The entries and the parameter key, which nothing reads. *)
Definition spv_loop : loop (list spvEntry * string) :=
  MkLoop true
    (λ acc n _ r,
       if String.eqb (Local_ n) "ParameterList" then
         p ← decodeParameterValueStructs (Local_ n) r; Ok ((p.1, acc.2), p.2)
       else if String.eqb (Local_ n) "ParameterKey" then field (λ s, Ok (acc.1, s)) r
       else skip_start acc r)
    never_ends keep.
Definition decodeSPVRequest (r : reader) : result error (list spvEntry * string) :=
  p ← run_loop spv_loop ([], "") r; Ok p.1.

(** ** Faults *)
Definition spvBatchFault (perParam : list SetParameterValuesFault) : handler_error :=
  FaultError (MkFault 9003 "Invalid arguments" perParam).

Definition wire_code (c : SetBatchFailure) : Z * string :=
  match c with
  | FailureNotFound => (9005%Z, "Invalid parameter name")
  | FailureNotWritable => (9008%Z, "Attempt to set a non-writable parameter")
  | FailureTypeMismatch => (9006%Z, "Invalid parameter type")
  | FailureInvalidValue => (9007%Z, "Invalid parameter value")
  | FailureDuplicatePath => (9003%Z, "Invalid arguments")
  | FailureUnknown => (9002%Z, "Internal error")
  end.
Definition entryFaultWire (f : EntryFault) : SetParameterValuesFault :=
  MkSPVFault (efPath f) (wire_code (efCode f)).1 (wire_code (efCode f)).2.

(** [SetBatch] and [CheckBatch] return no other error than a
    [*SetBatchError]. *)
Definition mapSetBatchError (e : SetBatchError) : handler_error :=
  let faults := match All e with [] => [MkEntryFault (sbPath e) (sbCode e) (sbErr e)] | l => l end in
  spvBatchFault (entryFaultWire <$> faults).

(** ** The handler *)
Section spv.
Context (Quote : string → string) {W : Type} `{HT : HasTree W, HA : HasAfterSession W (list Setter)}.

(** Callbacks are [None] when nil; [defer] is false when no [AfterSession] was
    given. *)
Record spvHandler := MkSpvHandler {
  onSet : option (string → W → W);
  valueChange : option (string → W → W);
  deferred : gset string;
  afterSession : bool
}.

(** One round of the loop of [prepareSetters]. *)
Definition prepare_entry (t : Tree) (e : spvEntry) : result SetParameterValuesFault Setter :=
  match Get t (eName e) with
  | Err _ => Err (MkSPVFault (eName e) 9005 "Invalid parameter name")
  | Ok cur => Ok (MkSetter (eName e) (MkValue (vType cur) (eRaw e) (Writable cur)))
  end.
Fixpoint prepare_loop (t : Tree) (entries : list spvEntry) : list Setter * list SetParameterValuesFault :=
  match entries with
  | [] => ([], [])
  | e :: rest =>
      let '(out, unknown) := prepare_loop t rest in
      match prepare_entry t e with
      | Ok s => (s :: out, unknown)
      | Err f => (out, f :: unknown)
      end
  end.
Definition prepareSetters (t : Tree) (entries : list spvEntry) : result handler_error (list Setter) :=
  let '(out, unknown) := prepare_loop t entries in
  if (0 <? length unknown)%nat then Err (spvBatchFault unknown) else Ok out.

Definition defers (h : spvHandler) (setters : list Setter) : bool :=
  afterSession h && existsb (λ s, bool_decide (sPath s ∈ deferred h)) setters.

Definition call_onSet (h : spvHandler) (w : W) (r : BatchResult) : W :=
  match onSet h with
  | Some f => if Changed r then f (brPath r) w else w
  | None => w
  end.
Definition call_valueChange (vc : string → W → W) (w : W) (r : BatchResult) : W :=
  if Changed r then
    match GetAttributes (get_tree w) (brPath r) with
    | Ok attrs => if (0 <? Notification attrs)%Z then vc (brPath r) w else w
    | Err _ => w
    end
  else w.

Definition apply (h : spvHandler) (setters : list Setter) (w : W) : W * result SetBatchError unit :=
  let '(t, cs, res) := SetBatch (get_tree w) setters in
  let w := observed cs (put_tree t w) in
  match res with
  | Err e => (w, Err e)
  | Ok results =>
      let results := default [] results in
      let w := foldl (call_onSet h) w results in
      let w := match valueChange h with Some vc => foldl (call_valueChange vc) w results | None => w end in
      (w, Ok tt)
  end.

(** The closure queued for after the session. *)
Definition apply_deferred (h : spvHandler) (setters : list Setter) (w : W) : W := (apply h setters w).1.

Definition status_body (status : string) : string :=
  cat ["      <Status>"; status; "</Status>"; nl].

Definition spv_Handle (h : spvHandler) (w : W) (req : reader) : W * result handler_error string :=
  match decodeSPVRequest req with
  | Err e => (w, Err (faultInvalidArgs ("decode SetParameterValues: " +:+ Error_text Quote e)))
  | Ok (entries, _) =>
      match prepareSetters (get_tree w) entries with
      | Err e => (w, Err e)
      | Ok prepared =>
          if defers h prepared then
            match CheckBatch (get_tree w) prepared with
            | Err e => (w, Err (mapSetBatchError e))
            | Ok _ => (put_after (Add prepared (get_after w)) w, Ok (status_body "1"))
            end
          else
            match apply h prepared w with
            | (w', Err e) => (w', Err (mapSetBatchError e))
            | (w', Ok _) => (w', Ok (status_body "0"))
            end
      end
  end.
Definition NewSetParameterValuesDeferring (h : spvHandler) : Handler W :=
  MkHandler "SetParameterValues" (spv_Handle h).

(** ** The request document *)
Definition pvs (e : spvEntry) : xml :=
  Elem (MkName "" "ParameterValueStruct") []
    [Elem (MkName "" "Name") [] [Text (eName e)]; Elem (MkName "" "Value") [] [Text (eRaw e)]].
Definition spv_request (key : string) (entries : list spvEntry) : list xml :=
  [Elem (MkName "" "ParameterList") [] (pvs <$> entries);
   Elem (MkName "" "ParameterKey") [] [Text key]].

Lemma spv_entry_loop_shrinks s : shrinks (spv_entry_loop s).
Proof. solve_shrinks spv_entry_loop. Qed.

Lemma spv_structs_loop_shrinks s : shrinks (spv_structs_loop s).
Proof.
  intros acc n a r acc' r'. cbn [spv_structs_loop on_start].
  case_match; [apply skip_start_shrinks|].
  intros ([e r1]&Hr&[= _ <-])%result_bind_ok.
  by apply run_loop_shrinks in Hr; [|apply spv_entry_loop_shrinks].
Qed.

Lemma spv_loop_shrinks : shrinks spv_loop.
Proof.
  intros acc n a r acc' r'. cbn [spv_loop on_start].
  repeat case_match; [|apply field_shrinks|apply skip_start_shrinks].
  intros ([e r1]&Hr&[= _ <-])%result_bind_ok.
  by apply run_loop_shrinks in Hr; [|apply spv_structs_loop_shrinks].
Qed.

Definition G_entry (acc : spvEntry) (n : Name) (_ : list Attr) (kids : list xml) : result error spvEntry :=
  if String.eqb (Local_ n) "Name" then Ok (MkSpvEntry (text_of kids) (eRaw acc))
  else if String.eqb (Local_ n) "Value" then Ok (MkSpvEntry (eName acc) (text_of kids))
  else Ok acc.
Definition G_structs (acc : list spvEntry) (n : Name) (_ : list Attr) (kids : list xml)
  : result error (list spvEntry) :=
  if negb (String.eqb (Local_ n) "ParameterValueStruct") then Ok acc
  else e ← fold_xml (spv_entry_loop (Local_ n)) G_entry (MkSpvEntry "" "") kids; Ok (acc ++ [e]).
Definition G_spv (acc : list spvEntry * string) (n : Name) (_ : list Attr) (kids : list xml)
  : result error (list spvEntry * string) :=
  if String.eqb (Local_ n) "ParameterList" then
    l ← fold_xml (spv_structs_loop (Local_ n)) G_structs [] kids; Ok (l, acc.2)
  else if String.eqb (Local_ n) "ParameterKey" then Ok (acc.1, text_of kids)
  else Ok acc.

Lemma ends_at_self {A} (n : Name) (acc : A) : ends_at (Local_ n) acc n = (true, acc).
Proof. unfold ends_at. by rewrite String.eqb_refl. Qed.

Lemma decodeOne_doc s acc n kids l fin :
  Local_ n = s →
  run_loop (spv_entry_loop s) acc (MkReader (forest kids ++ EndElement n :: l) fin) =
    (e ← fold_xml (spv_entry_loop s) G_entry acc kids; Ok (e, MkReader l fin)).
Proof.
  intros <-. apply (run_loop_element _ (spv_entry_loop_shrinks _) G_entry).
  - solve_fields spv_entry_loop G_entry.
  - intros; apply ends_at_self.
Qed.

Lemma decodeStructs_doc s acc n kids l fin :
  Local_ n = s →
  run_loop (spv_structs_loop s) acc (MkReader (forest kids ++ EndElement n :: l) fin) =
    (e ← fold_xml (spv_structs_loop s) G_structs acc kids; Ok (e, MkReader l fin)).
Proof.
  intros <-. apply (run_loop_element _ (spv_structs_loop_shrinks _) G_structs).
  - intros acc0 n0 a0 kids0 l0 fin0. unfold spv_structs_loop, G_structs; cbn [on_start].
    case_match; [apply skip_start_forest|]. unfold decodeOneParameterValueStruct.
    rewrite decodeOne_doc by done. by destruct (fold_xml _ _ _ _).
  - intros; apply ends_at_self.
Qed.

(** The decoder on any document at all: a fold over its elements. *)
Lemma decodeSPVRequest_doc f :
  decodeSPVRequest (MkReader (forest f) EOF) = fold_xml spv_loop G_spv ([], "") f.
Proof.
  unfold decodeSPVRequest. rewrite (run_loop_document _ spv_loop_shrinks G_spv); [| |done].
  - by destruct (fold_xml _ _ _ f) as [[? ?]|].
  - intros acc n a kids l fin. unfold spv_loop, G_spv; cbn [on_start].
    case_match; [|case_match; [apply field_text|apply skip_start_forest]].
    unfold decodeParameterValueStructs. rewrite decodeStructs_doc by done. by destruct (fold_xml _ _ _ _).
Qed.

Lemma decode_spv_request key entries :
  decodeSPVRequest (MkReader (forest (spv_request key entries)) EOF) = Ok (entries, key).
Proof.
  rewrite decodeSPVRequest_doc.
  change (fold_xml spv_loop G_spv ([], "") (spv_request key entries)) with
    (acc ← (l ← fold_xml (spv_structs_loop "ParameterList") G_structs [] (pvs <$> entries);
            Ok (E := error) (l, "")); Ok (acc.1, text_of [Text key])).
  assert (∀ acc, fold_xml (spv_structs_loop "ParameterList") G_structs acc (pvs <$> entries) = Ok (acc ++ entries)) as Hf.
  { induction entries as [|e l IH]; intros acc; [by rewrite app_nil_r|].
    cbn [fmap list_fmap fold_xml step_xml pvs].
    change (G_structs acc _ _ _) with (Ok (E := error) (acc ++ [MkSpvEntry (text_of [Text (eName e)]) (text_of [Text (eRaw e)])])).
    rewrite !text_of_single. cbn [mbind result_bind]. rewrite IH.
    rewrite <-(assoc_L (++)). by destruct e. }
  rewrite Hf, text_of_single. done.
Qed.

(** ** Specification *)

(** The entries the tree does not know. *)
Definition spv_unknown (t : Tree) (entries : list spvEntry) : list SetParameterValuesFault :=
  omap (λ e, match prepare_entry t e with Err f => Some f | Ok _ => None end) entries.
(** The others, each with the type and the writability of its leaf. *)
Definition spv_typed (t : Tree) (entries : list spvEntry) : list Setter :=
  omap (λ e, match prepare_entry t e with Ok s => Some s | Err _ => None end) entries.

(** The per-parameter faults of a request: the unknown names if there are any,
    otherwise what the batch refuses. *)
Definition spv_faults (t : Tree) (entries : list spvEntry) : list SetParameterValuesFault :=
  match spv_unknown t entries with
  | [] => (λ f, MkSPVFault f.1 (wire_code f.2).1 (wire_code f.2).2) <$> batch_faults (view t) [] (spv_typed t entries)
  | us => us
  end.

Definition spv_reader (key : string) (entries : list spvEntry) : reader :=
  MkReader (forest (spv_request key entries)) EOF.

Lemma prepare_loop_spec t entries :
  prepare_loop t entries = (spv_typed t entries, spv_unknown t entries).
Proof.
  unfold spv_typed, spv_unknown. induction entries as [|e l IH]; [done|].
  cbn [prepare_loop]. rewrite IH. cbn. by destruct (prepare_entry t e).
Qed.

Lemma prepareSetters_spec t entries :
  prepareSetters t entries =
    match spv_unknown t entries with
    | [] => Ok (spv_typed t entries)
    | us => Err (spvBatchFault us)
    end.
Proof. unfold prepareSetters. rewrite prepare_loop_spec. by destruct (spv_unknown t entries). Qed.

Lemma mapSetBatchError_spec e fs :
  fs ≠ [] → fault_line <$> All e = fs →
  mapSetBatchError e =
    spvBatchFault ((λ f, MkSPVFault f.1 (wire_code f.2).1 (wire_code f.2).2) <$> fs).
Proof.
  intros Hne <-. unfold mapSetBatchError. destruct (All e) as [|f l] eqn:E; [done|]. f_equal.
  rewrite <-list_fmap_compose. done.
Qed.

(** What [apply] does once the batch is in the tree. *)
Definition callbacks (h : spvHandler) (results : list BatchResult) (w : W) : W :=
  let w := foldl (call_onSet h) w results in
  match valueChange h with Some vc => foldl (call_valueChange vc) w results | None => w end.

Lemma put_same w t : t = get_tree w → observed [] (put_tree t w) = w.
Proof. intros ->. by rewrite put_get_tree, observed_nil. Qed.

Lemma spv_Handle_spec h w key entries :
  let t := get_tree w in
  let setters := spv_typed t entries in
  let fs := spv_faults t entries in
  (fs ≠ [] → spv_Handle h w (spv_reader key entries) =
     (w, Err (FaultError (MkFault 9003 "Invalid arguments" fs)))) ∧
  (fs = [] → spv_unknown t entries = [] ∧ batch_faults (view t) [] setters = [] ∧
     spv_Handle h w (spv_reader key entries) =
       if defers h setters then (put_after (Add setters (get_after w)) w, Ok (status_body "1"))
       else ((apply h setters w).1, Ok (status_body "0"))).
Proof.
  intros t setters fs. unfold spv_Handle, spv_reader. rewrite decode_spv_request, prepareSetters_spec.
  fold t. unfold fs, spv_faults. fold setters.
  destruct (spv_unknown t entries) as [|u us]; [|by split].
  destruct (SetBatch_cases t setters) as [(Hf&rs&HS&HC&_)|(Hf&e&HS&HC&HAll)].
  - rewrite Hf. split; [done|]. intros _. split_and!; [done..|].
    destruct (defers h setters); [by rewrite HC|]. unfold apply. fold t. by rewrite HS.
  - split; [intros _|by intros ?%fmap_nil_inv].
    destruct (defers h setters).
    + rewrite HC. by rewrite (mapSetBatchError_spec _ _ Hf HAll).
    + unfold apply. fold t. rewrite HS. rewrite put_same by done.
      by rewrite (mapSetBatchError_spec _ _ Hf HAll).
Qed.

Lemma apply_spec h setters w :
  batch_faults (view (get_tree w)) [] setters = [] →
  ∃ rs, Forall2 (resolves (root (get_tree w))) setters rs ∧ NoDup (beNode <$> rs) ∧
    let t' := set_root (get_tree w) (foldl apply_entry (root (get_tree w)) rs) in
    apply h setters w = (callbacks h (zip_with batch_result setters rs) (put_tree t' w), Ok tt).
Proof.
  intros Hf. destruct (SetBatch_cases (get_tree w) setters) as [(_&rs&HS&_&HF&HN)|(Hf'&_)]; [|done].
  exists rs. split_and!; [done..|]. unfold apply. rewrite HS, observed_nil.
  unfold callbacks. destruct setters; [by inv HF|done].
Qed.

Lemma apply_batch h setters w :
  batch_faults (view (get_tree w)) [] setters = [] → ∃ t' results,
    apply h setters w = (callbacks h results (put_tree t' w), Ok tt) ∧
    Forall2 (result_of (view (get_tree w))) setters results ∧
    (∀ q, view t' q = batch_update (view (get_tree w)) setters q).
Proof.
  intros Hb. destruct (apply_spec h _ w Hb) as (rs&HF&HN&->). eexists _, _. split; [done|]. split.
  - clear -HF. induction HF as [|e r l' rs' (Hp&Hold&Hnew&_) HF IH]; [constructor|].
    cbn. constructor; [|exact IH]. split_and!; cbn; [done|done|eauto|].
    by rewrite negb_true_iff, String.eqb_neq.
  - intros q. apply (apply_entries_view _ _ _ _ HF). by eapply resolves_names_leaf.
Qed.

Lemma apply_refused h setters w :
  batch_faults (view (get_tree w)) [] setters ≠ [] → (apply h setters w).1 = w.
Proof.
  intros Hf. destruct (SetBatch_cases (get_tree w) setters) as [(Hf'&_)|(_&e&HS&_)]; [done|].
  unfold apply. rewrite HS. cbn [fst]. by rewrite put_same.
Qed.


(** ** Which callbacks run *)
Definition changes (t : Tree) (e : spvEntry) : bool :=
  match Get t (eName e) with Ok v => negb (String.eqb (Raw v) (eRaw e)) | Err _ => false end.
Definition watched (t : Tree) (path : string) : bool :=
  match GetAttributes t path with Ok a => (0 <? Notification a)%Z | Err _ => false end.

Lemma watched_batch t rs l e r :
  Forall (names_leaf (root t)) rs → resolves (root t) e r → l = sPath e →
  watched (set_root t (foldl apply_entry (root t) rs)) l = watched t l.
Proof.
  intros HF (Hp&Hl&_) ->. unfold watched.
  assert (∃ oa, attrs_view t (beNode r) = Some oa) as [oa Hoa].
  { apply leaf_at_node in Hl as (m&Hm&Hv). exists (attrs m). unfold attrs_view. rewrite Hm. simpl. by rewrite Hv. }
  rewrite (GetAttributes_view _ _ _ oa Hp Hoa).
  assert (attrs_view (set_root t (foldl apply_entry (root t) rs)) (beNode r) = Some oa) as Hoa'.
  { rewrite <-Hoa. exact (apply_entries_attrs _ _ _ HF). }
  by rewrite (GetAttributes_view _ _ _ oa Hp Hoa').
Qed.

(** A result belongs to its entry. *)
Definition of_entry (t t' : Tree) (e : spvEntry) (r : BatchResult) : Prop :=
  brPath r = eName e ∧ Changed r = changes t e ∧ watched t' (brPath r) = watched t (eName e).

Lemma results_of_entries t entries rs :
  spv_unknown t entries = [] → Forall2 (resolves (root t)) (spv_typed t entries) rs →
  Forall2 (of_entry t (set_root t (foldl apply_entry (root t) rs))) entries
    (zip_with batch_result (spv_typed t entries) rs).
Proof.
  intros Hu HF. pose proof (resolves_names_leaf _ _ _ HF) as Hn.
  remember (foldl apply_entry (root t) rs) as n' eqn:En.
  assert (∀ e r l, resolves (root t) e r → l = sPath e → watched (set_root t n') l = watched t l) as Hw.
  { intros e r l Hr Hl. subst n'. by eapply watched_batch. }
  clear En Hn. revert rs HF. induction entries as [|e l IH]; intros rs HF; [by constructor|].
  unfold spv_unknown, spv_typed in *. cbn in *. unfold prepare_entry in *.
  destruct (Get t (eName e)) as [cur|] eqn:Hg; [|done].
  inv HF as [|? r ? rs' Hr HF']. cbn. constructor; [|by apply IH].
  pose proof Hr as (Hp&Hl&Hn&_). cbn in Hp, Hn. unfold of_entry, changes. rewrite Hg. cbn.
  assert (cur = beOld r) as ->.
  { unfold Get in Hg. rewrite Hp in Hg. cbn [mbind result_bind] in Hg.
    destruct (resolve_leaf _ _ _ _) as [[m v]|] eqn:Er; [|done]. apply resolve_leaf_ok in Er as [Hm Hv].
    unfold leaf_at in Hl. rewrite Hm in Hl. simpl in Hl. simplify_eq. cbn in Hg. by injection Hg. }
  split_and!; [done|by rewrite Hn|]. by eapply Hw.
Qed.

Lemma fold_onSet h w entries results t t' :
  Forall2 (of_entry t t') entries results →
  foldl (call_onSet h) w results =
    foldl (λ w e, default (λ _ w, w) (onSet h) (eName e) w) w (filter (λ e, changes t e = true) entries).
Proof.
  intros HF. revert w. induction HF as [|e r l rs (Hp&Hc&_) _ IH]; intros w; [done|].
  cbn [foldl]. rewrite filter_cons, IH. unfold call_onSet. rewrite Hc, Hp.
  destruct (changes t e); rewrite ?decide_True, ?decide_False by done; cbn [foldl]; by destruct (onSet h).
Qed.

Lemma fold_valueChange vc w entries results t t' :
  (∀ p w, get_tree (vc p w) = get_tree w) → get_tree w = t' →
  Forall2 (of_entry t t') entries results →
  foldl (call_valueChange vc) w results =
    foldl (λ w e, vc (eName e) w) w (filter (λ e, changes t e = true ∧ watched t (eName e) = true) entries).
Proof.
  intros Hvc Hw HF. revert w Hw. induction HF as [|e r l rs (Hp&Hc&Hwa) _ IH]; intros w Hw; [done|].
  cbn [foldl]. rewrite filter_cons.
  assert (call_valueChange vc w r = if changes t e && watched t (eName e) then vc (eName e) w else w) as ->.
  { unfold call_valueChange. rewrite Hc, Hw, <-Hwa. unfold watched. rewrite Hp.
    destruct (changes t e); [|done]. by destruct (GetAttributes t' (eName e)). }
  destruct (changes t e), (watched t (eName e)); cbn [andb];
    first [rewrite decide_True by done | rewrite decide_False by (intros [??]; done)];
    cbn [foldl]; apply IH; by rewrite ?Hvc.
Qed.

(** A successful SetParameterValues tells exactly what it changed: [onSet]
    is called, in the order of the request, for every parameter whose value
    moved, and then [valueChange] for those of them whose Notification
    attribute asks for it; the values written being in the tree before the
    first call. *)
Theorem SPV_notifies (h : spvHandler) (vc : string → W → W) (w w' : W) (key body : string)
  (entries : list spvEntry)
  (Hvc : valueChange h = Some vc)
  (Hd : defers h (spv_typed (get_tree w) entries) = false)
  (Hon : ∀ f p w, onSet h = Some f → get_tree (f p w) = get_tree w)
  (Hpres : ∀ p w, get_tree (vc p w) = get_tree w)
  (H : spv_Handle h w (spv_reader key entries) = (w', Ok body)) :
  let t := get_tree w in
  ∃ t', get_tree w' = t' ∧ (∀ q, view t' q = batch_update (view t) (spv_typed t entries) q) ∧
    w' = foldl (λ w e, vc (eName e) w)
           (foldl (λ w e, default (λ _ w, w) (onSet h) (eName e) w) (put_tree t' w)
              (filter (λ e, changes t e = true) entries))
           (filter (λ e, changes t e = true ∧ watched t (eName e) = true) entries).
Proof.
  cbv zeta. destruct (spv_Handle_spec h w key entries) as [Hbad Hgood].
  destruct (decide (spv_faults (get_tree w) entries = [])) as [Hf|Hf]; [|by rewrite (Hbad Hf) in H].
  destruct (Hgood Hf) as (Hu&Hb&E). rewrite E, Hd in H. injection H as <- _.
  destruct (apply_spec h _ w Hb) as (rs&HF&_&E2). cbv zeta in E2. rewrite E2. cbn [fst].
  set (t' := set_root _ _). pose proof (results_of_entries _ _ _ Hu HF) as Hres.
  unfold callbacks. rewrite Hvc, (fold_onSet _ _ _ _ _ _ Hres).
  assert (∀ l w, get_tree (foldl (λ w e, default (λ _ w, w) (onSet h) (eName e) w) w l) = get_tree w) as Hg.
  { intros l; induction l as [|e l IH]; intros w0; [done|]. cbn [foldl]. rewrite IH.
    destruct (onSet h) as [f|] eqn:Ef; [by apply (Hon f)|done]. }
  rewrite (fold_valueChange vc _ entries _ (get_tree w) t' Hpres); [| |exact Hres].
  2: { by rewrite Hg, get_put_tree. }
  exists t'. split_and!.
  - assert (∀ l w, get_tree (foldl (λ w e, vc (eName e) w) w l) = get_tree w) as Hg2.
    { intros l; induction l as [|e l IH]; intros w0; [done|]. cbn [foldl]. by rewrite IH, Hpres. }
    by rewrite Hg2, Hg, get_put_tree.
  - intros q. apply (apply_entries_view _ _ _ _ HF). by eapply resolves_names_leaf.
  - done.
Qed.

(** ** The codes *)

Lemma typed_faults t entries c path :
  (path, c) ∈ batch_faults (view t) [] (spv_typed t entries) →
  c = FailureNotWritable ∨ c = FailureInvalidValue ∨ c = FailureDuplicatePath.
Proof.
  generalize (@nil (list string)). unfold spv_typed.
  induction entries as [|e l IH]; intros earlier; [by intros ?%not_elem_of_nil|].
  cbn. unfold prepare_entry at 1. destruct (Get t (eName e)) as [cur|] eqn:Hg; [|apply IH].
  cbn. unfold entry_fault. cbn [sPath sValue].
  unfold Get in Hg. destruct (parsePath (eName e)) as [p|]; [|done]. cbn [mbind result_bind] in Hg.
  destruct (resolve_leaf _ _ _ _) as [[m v]|] eqn:Er; [|done]. injection Hg as ->.
  apply resolve_leaf_ok in Er as [Hm Hv].
  case_bool_decide; [intros [[= _ ->]|Hin]%elem_of_cons; [auto|by eapply IH]|].
  unfold spec_set, view, leaf_at. rewrite Hm. simpl. rewrite Hv.
  destruct (Writable cur); simpl; [|intros [[= _ ->]|Hin]%elem_of_cons; [auto|by eapply IH]].
  rewrite String.eqb_refl. simpl.
  destruct (valid_raw _ _); simpl; [by apply IH|intros [[= _ ->]|Hin]%elem_of_cons; [auto|by eapply IH]].
Qed.

(** The type hint of the wire cannot make a write fail or change a type:
    per-parameter faults are 9005 for unknown names, and when every name is
    known only 9008, 9007 or (for a parameter named twice) 9003; 9006 is never
    answered. *)
Theorem SPV_codes (t : Tree) (entries : list spvEntry) (f : SetParameterValuesFault)
  (Hin : f ∈ spv_faults t entries) :
  if bool_decide (spv_unknown t entries = [])
  then spvFaultCode f = 9008%Z ∨ spvFaultCode f = 9007%Z ∨ spvFaultCode f = 9003%Z
  else spvFaultCode f = 9005%Z ∧ is_ok (Get t (ParameterName f)) = false.
Proof.
  unfold spv_faults in Hin. destruct (spv_unknown t entries) as [|u us] eqn:E.
  - rewrite bool_decide_true by done. apply list_elem_of_fmap in Hin as ([path c]&->&Hin). cbn.
    destruct (typed_faults _ _ _ _ Hin) as [->|[->| ->]]; cbn; auto.
  - rewrite bool_decide_false by done. rewrite <-E in Hin. unfold spv_unknown in Hin.
    apply list_elem_of_omap in Hin as (e&_&He). unfold prepare_entry in He.
    destruct (Get t (eName e)) eqn:Hg; [done|]. injection He as <-. cbn. by rewrite Hg.
Qed.

(** ** Deferred requests *)

(** A request that names a deferred parameter is checked in full when it
    arrives: what the batch would refuse is refused there and then, what it
    would accept is answered Status 1 and only queued; and if the tree is the
    same when the session is over, applying the queued batch then has the
    effect the write would have had at once. *)
Theorem SPV_deferred (h : spvHandler) (w w2 : W) (key : string) (entries : list spvEntry)
  (Hd : defers h (spv_typed (get_tree w) entries) = true)
  (Ht : get_tree w2 = get_tree w) :
  let setters := spv_typed (get_tree w) entries in
  match spv_Handle h w (spv_reader key entries) with
  | (w1, Err e) => w1 = w ∧ spv_faults (get_tree w) entries ≠ [] ∧
      e = FaultError (MkFault 9003 "Invalid arguments" (spv_faults (get_tree w) entries))
  | (w1, Ok body) => body = status_body "1" ∧
      w1 = put_after (Add setters (get_after w)) w ∧
      ∃ t' results, apply_deferred h setters w2 = callbacks h results (put_tree t' w2) ∧
        (∀ q, view t' q = batch_update (view (get_tree w)) setters q)
  end.
Proof.
  cbv zeta. destruct (spv_Handle_spec h w key entries) as [Hbad Hgood].
  destruct (decide (spv_faults (get_tree w) entries = [])) as [Hf|Hf]; [|by rewrite (Hbad Hf)].
  destruct (Hgood Hf) as (Hu&Hb&->). rewrite Hd. split_and!; [done..|].
  rewrite <-Ht in Hb at 1. destruct (apply_spec h _ w2 Hb) as (rs&HF&_&E). cbv zeta in E.
  unfold apply_deferred. rewrite E. cbn [fst]. eexists _, _. split; [done|].
  intros q. rewrite Ht in *. apply (apply_entries_view _ _ _ _ HF). by eapply resolves_names_leaf.
Qed.
End spv.

(** ** Examples *)
Definition ex_spv : spvHandler := MkSpvHandler (W := CPE) None (Some cpe_valueChange) {["Device.X"]} true.
Definition ex_watched : CPE :=
  put_tree (SetAttributes ex_tree "S" (MkAttributes 1 None)).1.1 ex_cpe.


(** A read-only parameter is not reported when the request also names one the
    tree does not know, and is when it does not. *)
Example unknown_names_hide_faults :
  spv_faults ex_tree [MkSpvEntry "Device.Y" "z"; MkSpvEntry "Nowhere" "z"] =
    [MkSPVFault "Nowhere" 9005 "Invalid parameter name"] ∧
  spv_faults ex_tree [MkSpvEntry "Device.Y" "z"] =
    [MkSPVFault "Device.Y" 9008 "Attempt to set a non-writable parameter"].
Proof. split; vm_compute; reflexivity. Qed.

Lemma SPV_notifies_witness :
  let entries := [MkSpvEntry "S" "b"] in
  let w' := (spv_Handle id ex_spv ex_watched (spv_reader "k" entries)).1 in
  let t := get_tree ex_watched in
  filter (λ e, changes t e = true ∧ watched t (eName e) = true) entries = entries ∧
  ∃ t', get_tree w' = t' ∧ (∀ q, view t' q = batch_update (view t) (spv_typed t entries) q) ∧
    w' = foldl (λ w e, cpe_valueChange (eName e) w)
           (foldl (λ w e, default (λ _ w, w) (onSet ex_spv) (eName e) w) (put_tree t' ex_watched)
              (filter (λ e, changes t e = true) entries))
           (filter (λ e, changes t e = true ∧ watched t (eName e) = true) entries).
Proof.
  intros entries w' t.
  assert (defers ex_spv (spv_typed t entries) = false) as Ed by (vm_compute; reflexivity).
  assert (spv_Handle id ex_spv ex_watched (spv_reader "k" entries) = (w', Ok (status_body "0"))) as E
    by (vm_compute; reflexivity).
  split; [vm_compute; reflexivity|].
  exact (SPV_notifies id ex_spv cpe_valueChange ex_watched w' "k" (status_body "0") entries eq_refl Ed
    (λ f p w Hf, False_ind _ (eq_ind None (λ o, match o with None => True | Some _ => False end) I _ Hf))
    cpe_valueChange_tree E).
Defined.

Lemma SPV_codes_witness :
  spvFaultCode (MkSPVFault "Device.Y" 9008 "Attempt to set a non-writable parameter") = 9008%Z ∨
  spvFaultCode (MkSPVFault "Device.Y" 9008 "Attempt to set a non-writable parameter") = 9007%Z ∨
  spvFaultCode (MkSPVFault "Device.Y" 9008 "Attempt to set a non-writable parameter") = 9003%Z.
Proof.
  exact (SPV_codes ex_tree [MkSpvEntry "Device.Y" "z"]
    (MkSPVFault "Device.Y" 9008 "Attempt to set a non-writable parameter")
    ltac:(vm_compute; left)).
Defined.

Lemma SPV_deferred_witness :
  let entries := [MkSpvEntry "Device.X" "7"] in
  let setters := spv_typed (get_tree ex_cpe) entries in
  ∃ w1, spv_Handle id ex_spv ex_cpe (spv_reader "k" entries) = (w1, Ok (status_body "1")) ∧
  w1 = put_after (Add setters (get_after ex_cpe)) ex_cpe ∧
  ∃ t' results, apply_deferred ex_spv setters ex_cpe = callbacks ex_spv results (put_tree t' ex_cpe) ∧
    (∀ q, view t' q = batch_update (view (get_tree ex_cpe)) setters q).
Proof.
  intros entries setters.
  assert (defers ex_spv setters = true) as Ed by (vm_compute; reflexivity).
  pose proof (SPV_deferred id ex_spv ex_cpe ex_cpe "k" entries Ed eq_refl) as H. cbv zeta in H.
  destruct (spv_Handle id ex_spv ex_cpe (spv_reader "k" entries)) as [w1 [body|e]] eqn:E.
  - exists w1. destruct H as (-> & Hw & H). split; [done|]. by split.
  - exfalso. assert (is_ok (spv_Handle id ex_spv ex_cpe (spv_reader "k" entries)).2 = true) as Hok
      by (vm_compute; reflexivity). by rewrite E in Hok.
Defined.
