(* ===== verification/Queries.v ===== *)
(** * The handlers that only read
    ([internal/cwmp/handlers/getparametervalues.go], [getparameternames.go],
    [getparameterattributes.go], [getrpcmethods.go]). *)
From Stdlib Require Import ZArith Lia Ascii String.
From S2P Require Import Prelude GoLib CpeErr Types Node Tree TreeProps Listing EventTracker Soap Xml Handler Cpe.

(** ** Rendering *)
Definition value_struct (name typ canon : string) : string :=
  cat ["        <ParameterValueStruct>"; nl;
       "          <Name>"; escapeText name; "</Name>"; nl;
       "          <Value xsi:type="; dq; typ; dq; ">"; escapeText canon; "</Value>"; nl;
       "        </ParameterValueStruct>"; nl].
Definition writeParameterInfoStruct (name : string) (writable : bool) : string :=
  cat ["        <ParameterInfoStruct>"; nl;
       "          <Name>"; escapeText name; "</Name>"; nl;
       "          <Writable>"; (if writable then "true" else "false"); "</Writable>"; nl;
       "        </ParameterInfoStruct>"; nl].
Definition writeAttributeStruct (name : string) (a : Attributes) : string :=
  cat ["        <ParameterAttributeStruct>"; nl;
       "          <Name>"; escapeText name; "</Name>"; nl;
       "          <Notification>"; Strconv.Itoa (Notification a); "</Notification>"; nl;
       match AccessList a with
       | None => cat ["          <AccessList>"; nl; "            <string>Subscriber</string>"; nl;
                      "          </AccessList>"; nl]
       | Some [] => cat ["          <AccessList></AccessList>"; nl]
       | Some l => cat ["          <AccessList>"; nl;
                        cat ((λ s, cat ["            <string>"; escapeText s; "</string>"; nl]) <$> l);
                        "          </AccessList>"; nl]
       end;
       "        </ParameterAttributeStruct>"; nl].
Definition parameter_list (structs : list string) : string :=
  cat ["      <ParameterList>"; nl; cat structs; "      </ParameterList>"; nl].

Section queries.
Context (Quote : string → string) {W : Type} `{HT : HasTree W}.

(** ** GetParameterValues *)
Record entry := MkEntry { enName : string; enVal : Value }.

(** The loop that collects the leaves to emit. *)
Fixpoint gpv_collect (t : Tree) (entries : list entry) (paths : list string)
  : result handler_error (list entry) :=
  match paths with
  | [] => Ok entries
  | p :: rest =>
      if Strings.HasSuffix p "." then
        match Walk t p 0 (λ name v s, (s ++ [MkEntry name v], None)) entries with
        | (_, Some _) => Err (faultInvalidParameterName p)
        | (entries, None) => gpv_collect t entries rest
        end
      else match Get t p with
           | Err _ => Err (faultInvalidParameterName p)
           | Ok v => gpv_collect t (entries ++ [MkEntry p v]) rest
           end
  end.

Fixpoint gpv_structs (entries : list entry) : result handler_error (list string) :=
  match entries with
  | [] => Ok []
  | e :: rest =>
      match Marshal (vType (enVal e)) (Raw (enVal e)) with
      | Err er => Err (FaultError (MkFault 9002 ("marshal " +:+ enName e +:+ ": " +:+ Error_text Quote er) []))
      | Ok canon =>
          out ← gpv_structs rest; Ok (value_struct (enName e) (vType (enVal e)) canon :: out)
      end
  end.

Definition gpv_Handle (w : W) (req : reader) : W * result handler_error string :=
  (w,
   match readStringList "ParameterNames" req with
   | Err e => Err (faultInvalidArgs ("decode ParameterNames: " +:+ Error_text Quote e))
   | Ok (None, _) | Ok (Some [], _) => Err (faultInvalidArgs "ParameterNames is empty")
   | Ok (Some paths, _) =>
       entries ← gpv_collect (get_tree w) [] paths;
       structs ← gpv_structs entries;
       Ok (parameter_list structs)
   end).
Definition NewGetParameterValues : Handler W := MkHandler "GetParameterValues" gpv_Handle.

(** ** GetParameterAttributes *)
Fixpoint gpa_collect (t : Tree) (leaves : list string) (paths : list string)
  : result handler_error (list string) :=
  match paths with
  | [] => Ok leaves
  | p :: rest =>
      if Strings.HasSuffix p "." then
        match Walk t p 0 (λ name _ s, (s ++ [name], None)) leaves with
        | (_, Some _) => Err (faultInvalidParameterName p)
        | (leaves, None) => gpa_collect t leaves rest
        end
      else match Get t p with
           | Err _ => Err (faultInvalidParameterName p)
           | Ok _ => gpa_collect t (leaves ++ [p]) rest
           end
  end.

Fixpoint gpa_structs (t : Tree) (leaves : list string) : result handler_error (list string) :=
  match leaves with
  | [] => Ok []
  | name :: rest =>
      match GetAttributes t name with
      | Err _ => Err (faultInvalidParameterName name)
      | Ok a => out ← gpa_structs t rest; Ok (writeAttributeStruct name a :: out)
      end
  end.

Definition gpa_Handle (w : W) (req : reader) : W * result handler_error string :=
  (w,
   match readStringList "ParameterNames" req with
   | Err e => Err (faultInvalidArgs ("decode ParameterNames: " +:+ Error_text Quote e))
   | Ok (None, _) | Ok (Some [], _) => Err (faultInvalidArgs "ParameterNames is empty")
   | Ok (Some paths, _) =>
       leaves ← gpa_collect (get_tree w) [] paths;
       structs ← gpa_structs (get_tree w) leaves;
       Ok (parameter_list structs)
   end).
Definition NewGetParameterAttributes : Handler W := MkHandler "GetParameterAttributes" gpa_Handle.

(** ** GetParameterNames *)
Record names_request := MkNamesRequest { ParameterPath : string; NextLevel : string }.

(** The first two child elements, in either order; an error of [Token] just
    ends the loop. *)
Fixpoint gpn_decode (fuel i : nat) (acc : names_request) (r : reader)
  : result (string * error) names_request :=
  match fuel, i with
  | O, _ | _, O => Ok acc
  | S fuel', S i' =>
      match next r with
      | Err _ => Ok acc
      | Ok (StartElement n _, r') =>
          match DecodeElement r' with
          | Err e => Err (Local_ n, e)
          | Ok (s, r'') =>
              let acc :=
                if String.eqb (Local_ n) "ParameterPath" then MkNamesRequest s (NextLevel acc)
                else if String.eqb (Local_ n) "NextLevel" then MkNamesRequest (ParameterPath acc) s
                else acc in
              gpn_decode fuel' i' acc r''
          end
      | Ok (_, r') => gpn_decode fuel' i acc r'
      end
  end.

(** [h.tree.Walk] fails with an error whose text decides the fault. *)
Definition gpn_Handle (w : W) (req : reader) : W * result handler_error string :=
  (w,
   match gpn_decode (S (length (toks req))) 2 (MkNamesRequest "" "") req with
   | Err (el, e) => Err (faultInvalidArgs ("decode " +:+ el +:+ ": " +:+ Error_text Quote e))
   | Ok rq =>
       let path := ParameterPath rq in
       if String.eqb (NextLevel rq) "true" || String.eqb (NextLevel rq) "1" then
         match Children (get_tree w) path with
         | Err _ => Err (faultInvalidParameterName path)
         | Ok children =>
             Ok (parameter_list ((λ c, writeParameterInfoStruct (ciName c) (ciWritable c)) <$> children))
         end
       else
         match Walk (get_tree w) path 0
                 (λ name v s, (s ++ [writeParameterInfoStruct name (Writable v)], None)) [] with
         | (_, Some e) =>
             if Strings.Contains (Error_text Quote e) "not found" then Err (faultInvalidParameterName path)
             else Err (PlainError e)
         | (structs, None) => Ok (parameter_list structs)
         end
   end).
Definition NewGetParameterNames : Handler W := MkHandler "GetParameterNames" gpn_Handle.

(** ** GetRPCMethods *)
Definition grm_Handle (methods : list string) (w : W) (_ : reader) : W * result handler_error string :=
  (w, Ok (cat ["      <MethodList soap-enc:arrayType="; dq; "xsd:string[";
               Strconv.Itoa (Z.of_nat (length methods)); "]"; dq; ">"; nl;
               cat ((λ m, cat ["        <string>"; m; "</string>"; nl]) <$> methods);
               "      </MethodList>"; nl])).
Definition NewGetRPCMethods (methods : list string) : Handler W :=
  MkHandler "GetRPCMethods" (grm_Handle methods).

(** ** Specification *)

(** The leaves a requested name stands for: the sub-tree of a partial path,
    the one leaf of a full path, nothing for a name the tree does not have. *)
Definition expand (t : Tree) (p : string) : option (list (string * Value)) :=
  match parsePath p with
  | Err _ => None
  | Ok segs =>
      match node_at segs (root t) with
      | None => None
      | Some n =>
          if Strings.HasSuffix p "." then Some (full_leaves segs n)
          else v ← leaf n; Some [(p, v)]
      end
  end.
Definition first_unknown (t : Tree) (ps : list string) : option string :=
  head (filter (λ p, expand t p = None) ps).
Definition expand_all (t : Tree) (ps : list string) : list (string * Value) :=
  flat_map (λ p, default [] (expand t p)) ps.

Definition names_body (ps : list string) : list xml :=
  [Elem (MkName "" "ParameterNames") [] (string_elem <$> ps)].
Definition names_reader (ps : list string) : reader := MkReader (forest (names_body ps)) EOF.

Lemma Walk_expand {B} t p (f : string → Value → B) s :
  Strings.HasSuffix p "." = true →
  match expand t p with
  | Some l => Walk t p 0 (λ n v s, (s ++ [f n v], None)) s = (s ++ ((λ x, f x.1 x.2) <$> l), None)
  | None => ∃ e, Walk t p 0 (λ n v s, (s ++ [f n v], None)) s = (s, Some e)
  end.
Proof.
  intros Hs. rewrite Walk_append. unfold expand. rewrite Hs.
  destruct (parsePath p) as [segs|]; [|by eexists].
  destruct (lookup (root t) segs) as [n|e] eqn:E.
  - apply lookup_ok in E. by rewrite E.
  - assert (node_at segs (root t) = None) as -> by (apply lookup_err; eauto). by eexists.
Qed.

Lemma Get_expand t p :
  Strings.HasSuffix p "." = false →
  match expand t p with
  | Some l => ∃ v, Get t p = Ok v ∧ l = [(p, v)]
  | None => ∃ e, Get t p = Err e
  end.
Proof.
  intros Hs. unfold expand, Get. rewrite Hs. destruct (parsePath p) as [segs|]; [|by eexists].
  cbn [mbind result_bind]. pose proof (resolve_leaf_view "paramtree.Get" p segs (root t)) as Hr.
  unfold leaf_at in Hr. destruct (node_at segs (root t)) as [n|]; simpl in Hr |- *.
  - destruct (leaf n) as [v|]; simpl.
    + destruct Hr as (m&->&_). eauto.
    + destruct Hr as (e&->&_). eauto.
  - destruct Hr as (e&->&_). eauto.
Qed.

Lemma first_unknown_cons t p ps :
  first_unknown t (p :: ps) = match expand t p with None => Some p | Some _ => first_unknown t ps end.
Proof.
  unfold first_unknown. rewrite filter_cons.
  destruct (expand t p); [rewrite decide_False by done|rewrite decide_True by done]; done.
Qed.

Lemma gpv_collect_spec t ps acc :
  gpv_collect t acc ps =
    match first_unknown t ps with
    | Some p => Err (faultInvalidParameterName p)
    | None => Ok (acc ++ ((λ x, MkEntry x.1 x.2) <$> expand_all t ps))
    end.
Proof.
  revert acc; induction ps as [|p ps IH]; intros acc; [cbn; by rewrite app_nil_r|].
  cbn [gpv_collect]. rewrite first_unknown_cons. unfold expand_all in *. cbn [flat_map].
  destruct (Strings.HasSuffix p ".") eqn:Hs.
  - pose proof (Walk_expand t p MkEntry acc Hs) as HW. destruct (expand t p) as [l|].
    + rewrite HW, IH. destruct (first_unknown t ps); [done|]. cbn. by rewrite fmap_app, (assoc_L (++)).
    + by destruct HW as [e ->].
  - pose proof (Get_expand t p Hs) as HG. destruct (expand t p) as [l|].
    + destruct HG as (v&->&->). rewrite IH. destruct (first_unknown t ps); [done|].
      cbn. by rewrite <-(assoc_L (++)).
    + by destruct HG as [e ->].
Qed.

Lemma gpa_collect_spec t ps acc :
  gpa_collect t acc ps =
    match first_unknown t ps with
    | Some p => Err (faultInvalidParameterName p)
    | None => Ok (acc ++ (expand_all t ps).*1)
    end.
Proof.
  revert acc; induction ps as [|p ps IH]; intros acc; [cbn; by rewrite app_nil_r|].
  cbn [gpa_collect]. rewrite first_unknown_cons. unfold expand_all in *. cbn [flat_map].
  destruct (Strings.HasSuffix p ".") eqn:Hs.
  - pose proof (Walk_expand t p (λ n _, n) acc Hs) as HW. destruct (expand t p) as [l|].
    + rewrite HW, IH. destruct (first_unknown t ps); [done|]. cbn. by rewrite fmap_app, (assoc_L (++)).
    + by destruct HW as [e ->].
  - pose proof (Get_expand t p Hs) as HG. destruct (expand t p) as [l|].
    + destruct HG as (v&->&->). rewrite IH. destruct (first_unknown t ps); [done|].
      cbn. by rewrite <-(assoc_L (++)).
    + by destruct HG as [e ->].
Qed.

Lemma expand_leaf t p l x :
  wf_tree t → expand t p = Some l → x ∈ l →
  ∃ segs, parsePath x.1 = Ok segs ∧ view t segs = Some x.2.
Proof.
  intros Hw. unfold expand. destruct (parsePath p) as [segs|] eqn:Hp; [|done].
  destruct (node_at segs (root t)) as [n|] eqn:Hn; [|done].
  destruct (Strings.HasSuffix p ".").
  - intros [= <-] ([q v]&->&Hq)%list_elem_of_fmap. cbn [fst snd]. exists (segs ++ q).
    apply elem_of_leaves in Hq as Hl. apply leaf_at_node in Hl as (m&Hm&Hv).
    assert (node_at (segs ++ q) (root t) = Some m) as Hsq by by rewrite node_at_app, Hn.
    split; [by apply parsePath_joinPath, (wf_node_at_segments _ _ _ Hw Hsq)|].
    unfold view, leaf_at. rewrite Hsq. simpl. done.
  - destruct (leaf n) as [v|] eqn:Hl; [|done]. simpl. intros [= <-] ->%list_elem_of_singleton.
    exists segs. split; [done|]. unfold view, leaf_at. rewrite Hn. simpl. done.
Qed.

Lemma expand_all_leaf t ps x :
  wf_tree t → x ∈ expand_all t ps → ∃ segs, parsePath x.1 = Ok segs ∧ view t segs = Some x.2.
Proof.
  intros Hw (p&_&Hx)%elem_of_flat_map. destruct (expand t p) as [l|] eqn:E.
  - by eapply expand_leaf.
  - by apply not_elem_of_nil in Hx.
Qed.

Lemma gpv_structs_total l :
  Forall (λ x : string * Value, wf_value x.2) l →
  ∃ cs, gpv_structs ((λ x, MkEntry x.1 x.2) <$> l) = Ok (zip_with (λ x c, value_struct x.1 (vType x.2) c) l cs) ∧
    Forall2 (λ x c, Marshal (vType x.2) (Raw x.2) = Ok c) l cs.
Proof.
  induction 1 as [|x l Hx _ (cs&E&HF)]; [by exists []|].
  destruct (valid_marshals _ _ Hx) as [c Hc]. exists (c :: cs).
  cbn [fmap list_fmap gpv_structs enVal enName zip_with]. rewrite Hc. cbn [fmap] in E. rewrite E.
  split; [done|]. by constructor.
Qed.

Lemma read_names_reader p ps :
  ∃ r', readStringList "ParameterNames" (names_reader (p :: ps)) = Ok (Some (p :: ps), r').
Proof.
  unfold names_reader, names_body. rewrite <-(app_nil_r (forest _)).
  exact (readStringList_doc "ParameterNames" (p :: ps) [] [] EOF (MkName "" "ParameterNames") eq_refl).
Qed.

(** GetParameterValues on a well-typed tree answers every request: 9005 with
    the first name the tree does not have, or else one struct per leaf the
    names stand for, in the order of the names and, under a partial path, of
    the leaves, each with the leaf's type and its value in canonical form; it
    never answers 9002, and nothing of the CPE moves. *)
Theorem GPV_answers (w : W) (p : string) (ps : list string) (Hw : wf_tree (get_tree w)) :
  let t := get_tree w in
  match first_unknown t (p :: ps) with
  | Some q => gpv_Handle w (names_reader (p :: ps)) = (w, Err (faultInvalidParameterName q))
  | None => ∃ cs,
      gpv_Handle w (names_reader (p :: ps)) =
        (w, Ok (parameter_list (zip_with (λ x c, value_struct x.1 (vType x.2) c) (expand_all t (p :: ps)) cs))) ∧
      Forall2 (λ x c, Marshal (vType x.2) (Raw x.2) = Ok c) (expand_all t (p :: ps)) cs
  end.
Proof.
  cbv zeta. unfold gpv_Handle. destruct (read_names_reader p ps) as [r' ->].
  rewrite gpv_collect_spec. destruct (first_unknown _ _) as [q|]; [done|].
  cbn [mbind result_bind]. rewrite app_nil_l.
  destruct (gpv_structs_total (expand_all (get_tree w) (p :: ps))) as (cs&E&HF).
  - apply Forall_forall. intros x (segs&_&Hv)%(expand_all_leaf _ _ _ Hw). by eapply view_wf.
  - rewrite E. by exists cs.
Qed.

(** GetParameterAttributes expands names as GetParameterValues does and
    answers the stored attributes of every leaf (the defaults where none were
    set), 9005 for the first unknown name, and never fails otherwise. *)
Theorem GPA_answers (w : W) (p : string) (ps : list string) (Hw : wf_tree (get_tree w)) :
  let t := get_tree w in
  match first_unknown t (p :: ps) with
  | Some q => gpa_Handle w (names_reader (p :: ps)) = (w, Err (faultInvalidParameterName q))
  | None => ∃ attrs,
      gpa_Handle w (names_reader (p :: ps)) =
        (w, Ok (parameter_list (zip_with (λ x a, writeAttributeStruct x.1 a) (expand_all t (p :: ps)) attrs))) ∧
      Forall2 (λ x a, GetAttributes t x.1 = Ok a) (expand_all t (p :: ps)) attrs
  end.
Proof.
  cbv zeta. unfold gpa_Handle. destruct (read_names_reader p ps) as [r' ->].
  rewrite gpa_collect_spec. destruct (first_unknown _ _) as [q|]; [done|].
  cbn [mbind result_bind]. rewrite app_nil_l.
  assert (∀ l, (∀ x, x ∈ l → ∃ segs, parsePath x.1 = Ok segs ∧ view (get_tree w) segs = Some x.2) →
    ∃ attrs, gpa_structs (get_tree w) l.*1 = Ok (zip_with (λ x a, writeAttributeStruct x.1 a) l attrs) ∧
      Forall2 (λ x a, GetAttributes (get_tree w) x.1 = Ok a) l attrs) as Htot.
  { induction l as [|x l IH]; intros Hl; [by exists []|].
    destruct IH as (attrs&E&HF); [intros; apply Hl; by right|].
    destruct (Hl x ltac:(left)) as (segs&Hp&(m&Hm&Hv)%leaf_at_node).
    eexists (_ :: attrs). cbn [fmap list_fmap gpa_structs zip_with].
    unfold GetAttributes. rewrite Hp. cbn [mbind result_bind].
    rewrite (proj2 (resolve_leaf_ok _ _ _ _ m x.2)) by done. cbn [mbind result_bind].
    cbn [fmap] in E. rewrite E. split; [done|]. constructor; [|done]. cbn. rewrite Hp. cbn.
    rewrite (proj2 (resolve_leaf_ok _ _ _ _ m x.2)) by done. done. }
  destruct (Htot (expand_all (get_tree w) (p :: ps))) as (attrs&E&HF).
  - intros x. by apply expand_all_leaf.
  - rewrite E. by exists attrs.
Qed.

Definition gpn_request (path next_level : string) : list xml :=
  [Elem (MkName "" "ParameterPath") [] [Text path]; Elem (MkName "" "NextLevel") [] [Text next_level]].

Lemma gpn_decode_field f i acc n kids l fin :
  gpn_decode (S f) (S i) acc (MkReader (forest (Elem n [] kids :: []) ++ l) fin) =
    gpn_decode f i
      (if String.eqb (Local_ n) "ParameterPath" then MkNamesRequest (text_of kids) (NextLevel acc)
       else if String.eqb (Local_ n) "NextLevel" then MkNamesRequest (ParameterPath acc) (text_of kids)
       else acc) (MkReader l fin).
Proof.
  rewrite forest_Elem. cbn [gpn_decode next toks final]. cbn [forest flat_map app]. by rewrite DecodeElement_text.
Qed.

(** Either order of the two arguments is read alike. *)
Lemma gpn_decode_request path nl swap :
  let f := gpn_request path nl in
  let r := MkReader (forest (if swap : bool then rev f else f)) EOF in
  gpn_decode (S (length (toks r))) 2 (MkNamesRequest "" "") r = Ok (MkNamesRequest path nl).
Proof.
  cbv zeta. unfold gpn_request. destruct swap; cbn [rev app toks].
  all: rewrite forest_cons; unfold forest at 2; cbn [flat_map]; rewrite ?app_nil_r.
  all: match goal with |- gpn_decode _ _ _ (MkReader (tokens ?x ++ tokens ?y) _) = _ =>
         change (tokens x ++ tokens y) with (forest [x] ++ (forest [y] ++ [])) end.
  all: match goal with |- gpn_decode (S ?n) _ _ _ = _ => destruct n as [|k] eqn:E; [by cbn in E|] end.
  all: rewrite !gpn_decode_field; cbn [Local_ ParameterPath NextLevel]; rewrite !text_of_single.
  all: by destruct k.
Qed.

(** GetParameterNames with NextLevel lists the immediate children of an
    object, without it every leaf below the path, each with its writability,
    in the order of the tree; the two arguments may come in either order; an
    object the tree does not have is refused and nothing of the CPE moves. *)
Theorem GPN_answers (w : W) (path next_level : string) (swap : bool) :
  let t := get_tree w in
  let f := gpn_request path next_level in
  let res := gpn_Handle w (MkReader (forest (if swap then rev f else f)) EOF) in
  if String.eqb next_level "true" || String.eqb next_level "1" then
    res = (w, match Children t path with
              | Ok cs => Ok (parameter_list ((λ c, writeParameterInfoStruct (ciName c) (ciWritable c)) <$> cs))
              | Err _ => Err (faultInvalidParameterName path)
              end)
  else
    match parsePath path with
    | Ok p =>
        match node_at p (root t) with
        | Some n => res = (w, Ok (parameter_list
            ((λ x, writeParameterInfoStruct x.1 (Writable x.2)) <$> full_leaves p n)))
        | None => ∃ e, res = (w, Err e)
        end
    | Err _ => ∃ e, res = (w, Err e)
    end.
Proof.
  cbv zeta. unfold gpn_Handle. rewrite gpn_decode_request. cbn [NextLevel ParameterPath].
  destruct (String.eqb next_level "true" || String.eqb next_level "1"); [by destruct (Children _ _)|].
  rewrite Walk_append.
  destruct (parsePath path) as [p|]; [|case_match; eauto].
  destruct (lookup (root (get_tree w)) p) as [n|e] eqn:E.
  - apply lookup_ok in E. by rewrite E.
  - assert (node_at p (root (get_tree w)) = None) as -> by (apply lookup_err; eauto). case_match; eauto.
Qed.
End queries.

(** ** Examples *)

(** A path that runs through a leaf names nothing either, but the text of that
    error does not say so: the answer is not 9005 but the session's 9002. *)
Lemma GPN_through_leaf :
  let ask path := (gpn_Handle id ex_cpe (MkReader (forest (gpn_request path "false")) EOF)).2 in
  ask "Device.Z" = Err (faultInvalidParameterName "Device.Z") ∧
  ∃ e, ask "S.X" = Err (PlainError e).
Proof. split; [vm_compute; reflexivity|]. eexists. vm_compute. reflexivity. Qed.

Lemma GPV_answers_witness :
  let t := get_tree ex_cpe in
  expand_all t ["Device."; "S"] =
    [("Device.X", MkValue TypeInt "1" true); ("Device.Y", MkValue TypeString "y" false);
     ("S", MkValue TypeString "a" true)] ∧
  ∃ cs, gpv_Handle id ex_cpe (names_reader ["Device."; "S"]) =
      (ex_cpe, Ok (parameter_list (zip_with (λ x c, value_struct x.1 (vType x.2) c) (expand_all t ["Device."; "S"]) cs))) ∧
    Forall2 (λ x c, Marshal (vType x.2) (Raw x.2) = Ok c) (expand_all t ["Device."; "S"]) cs.
Proof.
  split; [vm_compute; reflexivity|].
  assert (wf_tree (get_tree ex_cpe)) as Hw by (apply wf_nodeb_sound; vm_compute; reflexivity).
  pose proof (GPV_answers id ex_cpe "Device." ["S"] Hw) as H. cbv zeta in H.
  assert (first_unknown (get_tree ex_cpe) ["Device."; "S"] = None) as E by (vm_compute; reflexivity).
  rewrite E in H. exact H.
Defined.

Lemma GPA_answers_witness :
  gpa_Handle id ex_cpe (names_reader ["S"; "Device.Z"]) = (ex_cpe, Err (faultInvalidParameterName "Device.Z")).
Proof.
  assert (wf_tree (get_tree ex_cpe)) as Hw by (apply wf_nodeb_sound; vm_compute; reflexivity).
  pose proof (GPA_answers id ex_cpe "S" ["Device.Z"] Hw) as H. cbv zeta in H.
  assert (first_unknown (get_tree ex_cpe) ["S"; "Device.Z"] = Some "Device.Z") as E by (vm_compute; reflexivity).
  rewrite E in H. exact H.
Defined.
