(* ===== verification/Actions.v ===== *)
(** * The handlers that act: AddObject, DeleteObject, Reboot, FactoryReset,
    Download, Upload and ChangeDUState ([internal/cwmp/handlers/]). *)
From Stdlib Require Import ZArith Lia Ascii String.
From S2P Require Import Prelude GoLib GoText CpeErr Types Node Tree TreeProps Objects EventTracker Soap Xml Handler Cpe.

Section objects.
Context (Quote : string → string) {W : Type} `{HT : HasTree W}.

(** ** AddObject *)
Definition mapAddObjectError (path : string) (e : error) : handler_error :=
  if Is e KindNotFound then faultInvalidParameterName path
  else if Is e KindInvalidArgument then
    FaultError (MkFault 9001 ("Request denied: " +:+ path +:+ " is not a mutable table") [])
  else FaultError (MkFault 9002 (Error_text Quote e) []).

Definition instance_body (i : Z) : string :=
  cat ["      <InstanceNumber>"; Strconv.Itoa i; "</InstanceNumber>"; nl; "      <Status>0</Status>"; nl].

Definition ao_Handle (w : W) (req : reader) : W * result handler_error string :=
  match decodeObjectNameAndKey req with
  | Err e => (w, Err (faultInvalidArgs ("decode AddObject: " +:+ Error_text Quote e)))
  | Ok o =>
      if String.eqb (ObjectName o) "" then (w, Err (faultInvalidArgs "ObjectName is empty"))
      else match tree_op w (AddObject (get_tree w) (ObjectName o)) with
           | (w', Err e) => (w', Err (mapAddObjectError (ObjectName o) e))
           | (w', Ok i) => (w', Ok (instance_body i))
           end
  end.
Definition NewAddObject : Handler W := MkHandler "AddObject" ao_Handle.

(** ** DeleteObject *)
Definition mapDeleteObjectError (e : error) : handler_error :=
  if Is e KindNotFound || Is e KindInvalidArgument then
    FaultError (MkFault 9005 ("Invalid parameter name: " +:+ Error_text Quote e) [])
  else FaultError (MkFault 9002 (Error_text Quote e) []).

Definition do_Handle (w : W) (req : reader) : W * result handler_error string :=
  match decodeObjectNameAndKey req with
  | Err e => (w, Err (faultInvalidArgs ("decode DeleteObject: " +:+ Error_text Quote e)))
  | Ok o =>
      if String.eqb (ObjectName o) "" then (w, Err (faultInvalidArgs "ObjectName is empty"))
      else match tree_op w (DeleteObject (get_tree w) (ObjectName o)) with
           | (w', Err e) => (w', Err (mapDeleteObjectError e))
           | (w', Ok _) => (w', Ok (cat ["      <Status>0</Status>"; nl]))
           end
  end.
Definition NewDeleteObject : Handler W := MkHandler "DeleteObject" do_Handle.

(** ** Their requests and their faults *)
Definition object_request (name key : string) : reader :=
  MkReader (forest [Elem (MkName "" "ObjectName") [] [Text name];
                    Elem (MkName "" "ParameterKey") [] [Text key]]) EOF.

Definition G_object (acc : ObjectNameAndKey) (n : Name) (_ : list Attr) (kids : list xml)
  : result error ObjectNameAndKey :=
  if String.eqb (Local_ n) "ObjectName" then Ok (MkObjectNameAndKey (text_of kids) (ParameterKey acc))
  else if String.eqb (Local_ n) "ParameterKey" then Ok (MkObjectNameAndKey (ObjectName acc) (text_of kids))
  else Ok acc.

Lemma decodeObjectNameAndKey_doc f :
  decodeObjectNameAndKey (MkReader (forest f) EOF) =
    fold_xml object_loop G_object (MkObjectNameAndKey "" "") f.
Proof.
  unfold decodeObjectNameAndKey.
  rewrite (run_loop_document _ object_loop_shrinks G_object); [| |done].
  - by destruct (fold_xml _ _ _ f) as [[? ?]|].
  - solve_fields object_loop G_object.
Qed.

Lemma decode_object_request name key :
  decodeObjectNameAndKey (object_request name key) = Ok (MkObjectNameAndKey name key).
Proof.
  unfold object_request. rewrite decodeObjectNameAndKey_doc.
  change (fold_xml _ _ _ _) with (Ok (E := error) (MkObjectNameAndKey (text_of [Text name]) (text_of [Text key]))).
  by rewrite !text_of_single.
Qed.

(** Neither operation fails in any other way. *)
Lemma AddObject_fails t path e :
  (AddObject t path).2 = Err e → AddObject t path = (t, [], Err e) ∧
    (Is e KindNotFound = true ∨ Is e KindNotFound = false ∧ Is e KindInvalidArgument = true).
Proof.
  unfold AddObject. destruct (parsePath path) as [segs|e'] eqn:Hp.
  2: { intros [= <-]. split; [done|]. right. by apply parsePath_err in Hp as [??]. }
  destruct (lookup (root t) segs) as [n|e'] eqn:Hl.
  2: { intros [= <-]. split; [done|]. left. apply Is_Wrap_same. }
  destruct (table n) as [tmpl|]; [|intros [= <-]; split; [done|]; right; by rewrite !Is_Wrap_errorf].
  destruct (first_free_some (used_instances (children n))) as [i ->].
  by destruct (syncEntryCount _ _ _ _).
Qed.

Lemma DeleteObject_fails t path e :
  (DeleteObject t path).2 = Err e → DeleteObject t path = (t, [], Err e) ∧
    Is e KindNotFound || Is e KindInvalidArgument = true.
Proof.
  unfold DeleteObject. destruct (parsePath path) as [segs|e'] eqn:Hp.
  2: { intros [= <-]. split; [done|]. apply parsePath_err in Hp as [-> ->]. done. }
  destruct segs as [|s rest]; [intros [= <-]; split; [done|]; by rewrite !Is_Wrap_errorf|].
  destruct (split_last s rest) as [p k].
  destruct (instance_of k); [|intros [= <-]; split; [done|]; by rewrite !Is_Wrap_errorf].
  destruct (lookup (root t) p) as [n|e'] eqn:Hl.
  2: { intros [= <-]. split; [done|]. by rewrite Is_Wrap_same. }
  destruct (table n); [|intros [= <-]; split; [done|]; by rewrite !Is_Wrap_errorf].
  destruct (children n !! k); [|intros [= <-]; split; [done|]; by rewrite !Is_Wrap_errorf].
  by destruct (syncEntryCount _ _ _ _).
Qed.

(** AddObject and DeleteObject either do what the tree does and say so, or
    leave the CPE as it was and answer with the fault the specification
    allows: AddObject 9005 when the object is unknown and 9001 when it is no
    table (or no path), DeleteObject always 9005; 9002 is never answered. *)
Theorem object_handlers (w : W) (name key : string) (Hn : name ≠ "") :
  let t := get_tree w in
  match AddObject t name with
  | (t', cs, Ok i) => ao_Handle w (object_request name key) = (observed cs (put_tree t' w), Ok (instance_body i))
  | (_, _, Err e) => ao_Handle w (object_request name key) =
      (w, Err (if Is e KindNotFound then faultInvalidParameterName name
               else FaultError (MkFault 9001 ("Request denied: " +:+ name +:+ " is not a mutable table") [])))
  end ∧
  match DeleteObject t name with
  | (t', cs, Ok _) => do_Handle w (object_request name key) =
      (observed cs (put_tree t' w), Ok (cat ["      <Status>0</Status>"; nl]))
  | (_, _, Err e) => do_Handle w (object_request name key) =
      (w, Err (FaultError (MkFault 9005 ("Invalid parameter name: " +:+ Error_text Quote e) [])))
  end.
Proof.
  cbv zeta. unfold ao_Handle, do_Handle. rewrite decode_object_request. cbn [ObjectName].
  rewrite (proj2 (String.eqb_neq _ _) Hn). unfold tree_op. split.
  - pose proof (AddObject_fails (get_tree w) name) as HA.
    destruct (AddObject (get_tree w) name) as [[t' cs] [i|e]]; [done|].
    destruct (HA e eq_refl) as [[= -> ->] Hk]. rewrite observed_nil, put_get_tree. unfold mapAddObjectError.
    by destruct Hk as [->|[-> ->]].
  - pose proof (DeleteObject_fails (get_tree w) name) as HD.
    destruct (DeleteObject (get_tree w) name) as [[t' cs] [i|e]]; [done|].
    destruct (HD e eq_refl) as [[= -> ->] Hk]. rewrite observed_nil, put_get_tree. unfold mapDeleteObjectError.
    by rewrite Hk.
Qed.
End objects.

(** ** Reboot *)
Definition command_key_loop : loop string :=
  MkLoop true
    (λ acc n _ r, if String.eqb (Local_ n) "CommandKey" then field (λ s, Ok s) r else skip_start acc r)
    never_ends keep.
Definition decodeCommandKey (r : reader) : result error string := p ← run_loop command_key_loop "" r; Ok p.1.

Section events.
Context (Quote : string → string) {W : Type} `{HK : HasTracker W}.

Definition reboot_Handle (schedule : option (string → W → W)) (w : W) (req : reader)
  : W * result handler_error string :=
  match decodeCommandKey req with
  | Err e => (w, Err (faultInvalidArgs ("decode Reboot: " +:+ Error_text Quote e)))
  | Ok commandKey =>
      (match schedule with
       | Some f => f commandKey w
       | None => on_tracker (QueueMethodReboot commandKey) w
       end, Ok "")
  end.
Definition NewReboot (schedule : option (string → W → W)) : Handler W :=
  MkHandler "Reboot" (reboot_Handle schedule).

(** ** FactoryReset *)
Definition fr_Handle (onReset : option (W → W * result error unit))
  (schedule : option ((W → W * result error unit) → W → W)) (w : W) (_ : reader)
  : W * result handler_error string :=
  match schedule with
  | Some f => (match onReset with Some g => f g w | None => w end, Ok "")
  | None =>
      match onReset with
      | None => (w, Ok "")
      | Some g =>
          match g w with
          | (w', Err e) => (w', Err (FaultError (MkFault 9002 ("FactoryReset failed: " +:+ Error_text Quote e) [])))
          | (w', Ok _) => (w', Ok "")
          end
      end
  end.
Definition NewFactoryReset onReset schedule : Handler W := MkHandler "FactoryReset" (fr_Handle onReset schedule).

(** ** Download and Upload *)
Record Pending := MkPending {
  IsDownload : bool; pCommandKey : string; FileType : string; URL : string; DelaySeconds : Z; StartTime : Z
}.
Record transferEntry := MkTransferEntry { teCommandKey : string; teFileType : string; teURL : string; teDelay : Z }.

Definition parse_delay (s : string) : result error Z :=
  let s := Space.TrimSpace s in
  if String.eqb s "" then Ok 0%Z
  else match Strconv.ParseUint s 32 with
       | Ok n => Ok n
       | Err e => Err (Errorf "DelaySeconds %q: %w" [s] (Some (num_error "ParseUint" s e)))
       end.

Definition transfer_loop : loop transferEntry :=
  MkLoop true
    (λ a n _ r,
       if String.eqb (Local_ n) "CommandKey" then
         field (λ s, Ok (MkTransferEntry s (teFileType a) (teURL a) (teDelay a))) r
       else if String.eqb (Local_ n) "FileType" then
         field (λ s, Ok (MkTransferEntry (teCommandKey a) s (teURL a) (teDelay a))) r
       else if String.eqb (Local_ n) "URL" then
         field (λ s, Ok (MkTransferEntry (teCommandKey a) (teFileType a) s (teDelay a))) r
       else if String.eqb (Local_ n) "DelaySeconds" then
         field (λ s, d ← parse_delay s; Ok (MkTransferEntry (teCommandKey a) (teFileType a) (teURL a) d)) r
       else skip_start a r)
    never_ends keep.
Definition decodeTransferRequest (r : reader) : result error transferEntry :=
  p ← run_loop transfer_loop (MkTransferEntry "" "" "" 0) r; Ok p.1.

Definition unknownTimeSentinel := "0001-01-01T00:00:00Z".
Definition writeTransferResponse : string :=
  cat ["      <Status>1</Status>"; nl;
       "      <StartTime>"; unknownTimeSentinel; "</StartTime>"; nl;
       "      <CompleteTime>"; unknownTimeSentinel; "</CompleteTime>"; nl].

(** [now] is the clock when the request is accepted. *)
Definition transfer_Handle (isDownload : bool) (schedule : option (Pending → W → W)) (now : Z)
  (w : W) (req : reader) : W * result handler_error string :=
  match decodeTransferRequest req with
  | Err e =>
      (w, Err (faultInvalidArgs ("decode " +:+ (if isDownload then "Download" else "Upload") +:+ ": "
                                 +:+ Error_text Quote e)))
  | Ok a =>
      if String.eqb (teFileType a) "" then (w, Err (faultInvalidArgs "FileType is required"))
      else if String.eqb (teURL a) "" then (w, Err (faultInvalidArgs "URL is required"))
      else (match schedule with
            | Some f => f (MkPending isDownload (teCommandKey a) (teFileType a) (teURL a) (teDelay a) now) w
            | None => w
            end, Ok writeTransferResponse)
  end.
Definition dl_Handle := transfer_Handle true.
Definition up_Handle := transfer_Handle false.

(** ** ChangeDUState *)
Record DUStateOperation := MkDUStateOperation {
  duKind : string; duURL : string; duUUID : string; duVersion : string; ExecutionEnvRef : string
}.
Record DUStateRequest := MkDUStateRequest { drCommandKey : string; Operations : list DUStateOperation }.

(** [current] points at the last operation, or is nil. *)
Record du_state := MkDuState { duReq : DUStateRequest; current : bool }.
Definition open_op (kind : string) (a : du_state) : du_state :=
  MkDuState (MkDUStateRequest (drCommandKey (duReq a))
               (Operations (duReq a) ++ [MkDUStateOperation kind "" "" "" ""])) true.
Definition set_op (local s : string) (o : DUStateOperation) : DUStateOperation :=
  if String.eqb local "URL" then MkDUStateOperation (duKind o) s (duUUID o) (duVersion o) (ExecutionEnvRef o)
  else if String.eqb local "UUID" then MkDUStateOperation (duKind o) (duURL o) s (duVersion o) (ExecutionEnvRef o)
  else if String.eqb local "Version" then MkDUStateOperation (duKind o) (duURL o) (duUUID o) s (ExecutionEnvRef o)
  else MkDUStateOperation (duKind o) (duURL o) (duUUID o) (duVersion o) s.
Definition set_current (local s : string) (a : du_state) : du_state :=
  match last (Operations (duReq a)) with
  | None => a
  | Some o => MkDuState (MkDUStateRequest (drCommandKey (duReq a))
                (removelast (Operations (duReq a)) ++ [set_op local s o])) (current a)
  end.

Definition is_op_struct (local : string) : option string :=
  if String.eqb local "InstallOpStruct" then Some "install"
  else if String.eqb local "UpdateOpStruct" then Some "update"
  else if String.eqb local "UninstallOpStruct" then Some "uninstall" else None.
Definition is_op_field (local : string) : bool :=
  existsb (String.eqb local) ["URL"; "UUID"; "Version"; "ExecutionEnvRef"].

(** Elements are entered rather than skipped: an element the loop does not
    know is read through. *)
Definition du_loop : loop du_state :=
  MkLoop true
    (λ a n _ r,
       match is_op_struct (Local_ n) with
       | Some kind => Ok (open_op kind a, r)
       | None =>
           if String.eqb (Local_ n) "CommandKey" then
             if current a then Ok (a, r)
             else field (λ s, Ok (MkDuState (MkDUStateRequest s (Operations (duReq a))) (current a))) r
           else if is_op_field (Local_ n) then
             if current a then field (λ s, Ok (set_current (Local_ n) s a)) r else Ok (a, r)
           else Ok (a, r)
       end)
    (λ a n, (false, match is_op_struct (Local_ n) with Some _ => MkDuState (duReq a) false | None => a end))
    keep.
Definition decodeChangeDUState (r : reader) : result error DUStateRequest :=
  p ← run_loop du_loop (MkDuState (MkDUStateRequest "" []) false) r; Ok (duReq p.1).

Definition check_op (i : Z) (o : DUStateOperation) : result string unit :=
  if String.eqb (duKind o) "install" then
    guard_err (negb (String.eqb (duURL o) "")) ("operation " +:+ Strconv.Itoa i +:+ ": InstallOpStruct needs a URL")
  else if String.eqb (duKind o) "update" then
    guard_err (negb (String.eqb (duUUID o) "" && String.eqb (duURL o) ""))
      ("operation " +:+ Strconv.Itoa i +:+ ": UpdateOpStruct needs a UUID or a URL")
  else if String.eqb (duKind o) "uninstall" then
    guard_err (negb (String.eqb (duUUID o) "")) ("operation " +:+ Strconv.Itoa i +:+ ": UninstallOpStruct needs a UUID")
  else Ok tt.
Fixpoint check_ops (i : Z) (ops : list DUStateOperation) : result string unit :=
  match ops with
  | [] => Ok tt
  | o :: rest => _ ← check_op i o; check_ops (i + 1) rest
  end.

Definition du_Handle (schedule : option (DUStateRequest → W → W)) (w : W) (req : reader)
  : W * result handler_error string :=
  match decodeChangeDUState req with
  | Err e => (w, Err (faultInvalidArgs ("decode ChangeDUState: " +:+ Error_text Quote e)))
  | Ok parsed =>
      match Operations parsed with
      | [] => (w, Err (faultInvalidArgs "Operations is empty"))
      | ops =>
          match check_ops 0 ops with
          | Err msg => (w, Err (faultInvalidArgs msg))
          | Ok _ => (match schedule with Some f => f parsed w | None => w end, Ok "")
          end
      end
  end.
Definition NewChangeDUState (schedule : option (DUStateRequest → W → W)) : Handler W :=
  MkHandler "ChangeDUState" (du_Handle schedule).

(** ** Their requests *)
Definition field_elem (local s : string) : xml := Elem (MkName "" local) [] [Text s].

Lemma transfer_loop_shrinks : shrinks transfer_loop.
Proof. solve_shrinks transfer_loop. Qed.

Definition G_transfer (a : transferEntry) (n : Name) (_ : list Attr) (kids : list xml)
  : result error transferEntry :=
  if String.eqb (Local_ n) "CommandKey" then Ok (MkTransferEntry (text_of kids) (teFileType a) (teURL a) (teDelay a))
  else if String.eqb (Local_ n) "FileType" then
    Ok (MkTransferEntry (teCommandKey a) (text_of kids) (teURL a) (teDelay a))
  else if String.eqb (Local_ n) "URL" then
    Ok (MkTransferEntry (teCommandKey a) (teFileType a) (text_of kids) (teDelay a))
  else if String.eqb (Local_ n) "DelaySeconds" then
    d ← parse_delay (text_of kids); Ok (MkTransferEntry (teCommandKey a) (teFileType a) (teURL a) d)
  else Ok a.

Lemma decodeTransferRequest_doc f :
  decodeTransferRequest (MkReader (forest f) EOF) = fold_xml transfer_loop G_transfer (MkTransferEntry "" "" "" 0) f.
Proof.
  unfold decodeTransferRequest. rewrite (run_loop_document _ transfer_loop_shrinks G_transfer); [| |done].
  - by destruct (fold_xml _ _ _ f).
  - solve_fields transfer_loop G_transfer.
Qed.

(** The elements of a request, the ones the handler ignores among them. *)
Definition transfer_request (extra : list xml) (key file_type url delay : string) : reader :=
  MkReader (forest (field_elem "CommandKey" key :: field_elem "FileType" file_type ::
    field_elem "URL" url :: extra ++ [field_elem "DelaySeconds" delay])) EOF.
Definition ignored (x : xml) : Prop :=
  match x with
  | Elem n _ _ => Local_ n ∉ ["CommandKey"; "FileType"; "URL"; "DelaySeconds"]
  | _ => True
  end.

Lemma fold_ignored a extra f :
  Forall ignored extra → fold_xml transfer_loop G_transfer a (extra ++ f) = fold_xml transfer_loop G_transfer a f.
Proof.
  induction 1 as [|x l Hx _ IH]; [done|]. cbn [app fold_xml].
  assert (step_xml transfer_loop G_transfer a x = Ok a) as ->; [|exact IH].
  destruct x as [n at_ kids|s|]; [|done..]. cbn [step_xml]. unfold G_transfer. cbn [ignored] in Hx.
  rewrite !not_elem_of_cons in Hx. destruct Hx as (H1&H2&H3&H4&_).
  by rewrite (proj2 (String.eqb_neq _ _) H1), (proj2 (String.eqb_neq _ _) H2),
    (proj2 (String.eqb_neq _ _) H3), (proj2 (String.eqb_neq _ _) H4).
Qed.

Lemma decode_transfer_request extra key file_type url delay :
  Forall ignored extra →
  decodeTransferRequest (transfer_request extra key file_type url delay) =
    (d ← parse_delay delay; Ok (MkTransferEntry key file_type url d)).
Proof.
  intros HF. unfold transfer_request. rewrite decodeTransferRequest_doc.
  change (fold_xml _ _ _ (field_elem "CommandKey" key :: _)) with
    (fold_xml transfer_loop G_transfer
       (MkTransferEntry (text_of [Text key]) (text_of [Text file_type]) (text_of [Text url]) 0)
       (extra ++ [field_elem "DelaySeconds" delay])).
  rewrite fold_ignored by done. rewrite !text_of_single.
  change (fold_xml _ _ _ _) with
    (acc ← (d ← parse_delay (text_of [Text delay]); Ok (E := error) (MkTransferEntry key file_type url d)); Ok acc).
  rewrite text_of_single. by destruct (parse_delay delay).
Qed.

Lemma parse_delay_range s d : parse_delay s = Ok d → (0 ≤ d < 2 ^ 32)%Z.
Proof.
  unfold parse_delay. destruct (String.eqb _ ""); [intros [= <-]; lia|].
  destruct (Strconv.ParseUint _ 32) as [n|] eqn:E; [|done]. intros [= <-]. by apply Strconv.ParseUint_range in E.
Qed.

(** A Download or Upload is either refused with 9003, nothing scheduled and
    nothing moved (a delay that is no 32-bit number, a missing file type, a
    missing URL), or accepted with Status 1 and scheduled exactly once, with
    the fields of the request, a blank delay counting as none. *)
Theorem transfer_accepts (isDownload : bool) (f : Pending → W → W) (now : Z) (w : W) (extra : list xml)
  (key file_type url delay : string) (Hx : Forall ignored extra) :
  let res := transfer_Handle isDownload (Some f) now w (transfer_request extra key file_type url delay) in
  match parse_delay delay with
  | Err _ => ∃ msg, res = (w, Err (faultInvalidArgs msg))
  | Ok d => (0 ≤ d < 2 ^ 32)%Z ∧
      if String.eqb file_type "" || String.eqb url ""
      then ∃ msg, res = (w, Err (faultInvalidArgs msg))
      else res = (f (MkPending isDownload key file_type url d now) w, Ok writeTransferResponse)
  end.
Proof.
  cbv zeta. unfold transfer_Handle. rewrite decode_transfer_request by done.
  destruct (parse_delay delay) as [d|e] eqn:Ed; cbn [mbind result_bind]; [|by eexists].
  split; [by apply parse_delay_range in Ed|]. cbn [teFileType teURL teCommandKey teDelay].
  destruct (String.eqb file_type ""); [by eexists|]. destruct (String.eqb url ""); [by eexists|done].
Qed.

(** *** ChangeDUState *)
Lemma du_start a n at_ r :
  on_start du_loop a n at_ r =
    match is_op_struct (Local_ n) with
    | Some kind => Ok (open_op kind a, r)
    | None =>
        if String.eqb (Local_ n) "CommandKey" then
          if current a then Ok (a, r)
          else field (λ s, Ok (MkDuState (MkDUStateRequest s (Operations (duReq a))) (current a))) r
        else if is_op_field (Local_ n) then
          if current a then field (λ s, Ok (set_current (Local_ n) s a)) r else Ok (a, r)
        else Ok (a, r)
    end.
Proof. done. Qed.
Lemma du_end a n :
  on_end du_loop a n =
    (false, match is_op_struct (Local_ n) with Some _ => MkDuState (duReq a) false | None => a end).
Proof. done. Qed.

Lemma du_loop_shrinks : shrinks du_loop.
Proof.
  intros a n at_ r a' r' H. unfold du_loop in H. cbn [on_start] in H.
  repeat case_match; simplify_eq; eauto using field_shrinks.
Qed.

Definition struct_of (kind : string) : string :=
  if String.eqb kind "install" then "InstallOpStruct"
  else if String.eqb kind "update" then "UpdateOpStruct" else "UninstallOpStruct".
Definition op_elem (o : DUStateOperation) : xml :=
  Elem (MkName "" (struct_of (duKind o))) []
    [field_elem "URL" (duURL o); field_elem "UUID" (duUUID o);
     field_elem "Version" (duVersion o); field_elem "ExecutionEnvRef" (ExecutionEnvRef o)].
Definition du_request (key : string) (ops : list DUStateOperation) : reader :=
  MkReader (forest [Elem (MkName "" "Operations") [] (op_elem <$> ops); field_elem "CommandKey" key]) EOF.
Definition known_kind (o : DUStateOperation) : Prop := duKind o ∈ ["install"; "update"; "uninstall"].

Lemma du_field a local s l fin :
  is_op_struct local = None → String.eqb local "CommandKey" = false → is_op_field local = true → current a = true →
  run_loop du_loop a (MkReader (tokens (field_elem local s) ++ l) fin) =
    run_loop du_loop (set_current local s a) (MkReader l fin).
Proof.
  intros H1 H2 H3 H4. unfold field_elem. rewrite tokens_Elem. cbn [app]. rewrite <-(assoc_L (++)).
  rewrite (run_loop_unfold _ du_loop_shrinks). cbn [next toks final]. rewrite du_start. cbn [Local_].
  rewrite H1, H2, H3, H4. change ([EndElement (MkName "" local)] ++ l) with (EndElement (MkName "" local) :: l).
  rewrite field_text. cbn [mbind result_bind fst snd]. by rewrite text_of_single.
Qed.

Lemma set_current_snoc local s key ops o b :
  set_current local s (MkDuState (MkDUStateRequest key (ops ++ [o])) b) =
    MkDuState (MkDUStateRequest key (ops ++ [set_op local s o])) b.
Proof. unfold set_current. cbn [duReq Operations]. by rewrite last_snoc, removelast_last. Qed.

Lemma du_op key ops o l fin :
  known_kind o →
  run_loop du_loop (MkDuState (MkDUStateRequest key ops) false) (MkReader (tokens (op_elem o) ++ l) fin) =
    run_loop du_loop (MkDuState (MkDUStateRequest key (ops ++ [o])) false) (MkReader l fin).
Proof.
  intros Hk. unfold op_elem. rewrite tokens_Elem. cbn [app]. rewrite <-(assoc_L (++)).
  assert (is_op_struct (struct_of (duKind o)) = Some (duKind o)) as Hs.
  { unfold known_kind in Hk. rewrite !elem_of_cons in Hk.
    by destruct Hk as [->|[->|[->|?%not_elem_of_nil]]]. }
  rewrite (run_loop_unfold _ du_loop_shrinks). cbn [next toks final]. rewrite du_start. cbn [Local_].
  rewrite Hs. cbn [mbind result_bind fst snd]. unfold open_op. cbn [duReq drCommandKey Operations].
  rewrite !forest_cons, <-!(assoc_L (++)).
  do 4 (rewrite du_field by done; rewrite set_current_snoc).
  change (forest [] ++ [EndElement (MkName "" (struct_of (duKind o)))] ++ l)
    with (EndElement (MkName "" (struct_of (duKind o))) :: l).
  rewrite (run_loop_unfold _ du_loop_shrinks). cbn [next toks final]. rewrite du_end. cbn [Local_].
  rewrite Hs. cbn [duReq]. by destruct o.
Qed.

Lemma du_enter a local at_ l fin :
  is_op_struct local = None → String.eqb local "CommandKey" = false → is_op_field local = false →
  run_loop du_loop a (MkReader (StartElement (MkName "" local) at_ :: l) fin) = run_loop du_loop a (MkReader l fin).
Proof.
  intros H1 H2 H3. rewrite (run_loop_unfold _ du_loop_shrinks). cbn [next toks final]. rewrite du_start.
  cbn [Local_]. by rewrite H1, H2, H3.
Qed.
Lemma du_leave a local l fin :
  is_op_struct local = None →
  run_loop du_loop a (MkReader (EndElement (MkName "" local) :: l) fin) = run_loop du_loop a (MkReader l fin).
Proof.
  intros H1. rewrite (run_loop_unfold _ du_loop_shrinks). cbn [next toks final]. rewrite du_end.
  cbn [Local_]. by rewrite H1.
Qed.
Lemma du_command_key key ops s l fin :
  run_loop du_loop (MkDuState (MkDUStateRequest key ops) false) (MkReader (forest [field_elem "CommandKey" s] ++ l) fin) =
    run_loop du_loop (MkDuState (MkDUStateRequest s ops) false) (MkReader l fin).
Proof.
  unfold field_elem. rewrite forest_Elem, (run_loop_unfold _ du_loop_shrinks). cbn [next toks final].
  rewrite du_start. cbn [Local_ current]. change (is_op_struct "CommandKey") with (@None string).
  rewrite String.eqb_refl. rewrite field_text. cbn [mbind result_bind fst snd duReq Operations].
  by rewrite text_of_single.
Qed.

Lemma decode_du_request key ops :
  Forall known_kind ops → decodeChangeDUState (du_request key ops) = Ok (MkDUStateRequest key ops).
Proof.
  intros HF. unfold decodeChangeDUState, du_request. rewrite <-(app_nil_r (forest _)), forest_Elem.
  rewrite du_enter by done.
  assert (∀ done l, run_loop du_loop (MkDuState (MkDUStateRequest "" done) false)
      (MkReader (forest (op_elem <$> ops) ++ l) EOF) =
    run_loop du_loop (MkDuState (MkDUStateRequest "" (done ++ ops)) false) (MkReader l EOF)) as Hops.
  { induction HF as [|o ops Ho _ IH]; intros done l; [by rewrite app_nil_r|].
    cbn [fmap list_fmap]. rewrite forest_cons, <-(assoc_L (++)), du_op by done.
    cbn [fmap] in IH. rewrite IH. by rewrite <-(assoc_L (++)). }
  rewrite Hops. cbn [app]. rewrite du_leave by done. rewrite du_command_key. done.
Qed.

(** What makes an operation acceptable. *)
Definition op_ok (o : DUStateOperation) : bool :=
  if String.eqb (duKind o) "install" then negb (String.eqb (duURL o) "")
  else if String.eqb (duKind o) "update" then negb (String.eqb (duUUID o) "" && String.eqb (duURL o) "")
  else if String.eqb (duKind o) "uninstall" then negb (String.eqb (duUUID o) "") else true.

Lemma check_ops_spec i ops : is_ok (check_ops i ops) = forallb op_ok ops.
Proof.
  revert i; induction ops as [|o ops IH]; intros i; [done|]. cbn [check_ops forallb].
  assert (is_ok (check_op i o) = op_ok o) as Ho.
  { unfold check_op, op_ok. repeat case_match; [..|done]; by destruct (negb _). }
  destruct (check_op i o) as [u|]; cbn in Ho; rewrite <-Ho; [|done]. apply IH.
Qed.

(** A ChangeDUState request schedules all of its operations, in order and in
    one piece, or none: it is refused with 9003, nothing scheduled, if there is
    no operation or one of them lacks what identifies its target. *)
Theorem ChangeDUState_accepts (f : DUStateRequest → W → W) (w : W) (key : string)
  (ops : list DUStateOperation) (Hk : Forall known_kind ops) :
  let res := du_Handle (Some f) w (du_request key ops) in
  if bool_decide (ops ≠ []) && forallb op_ok ops
  then res = (f (MkDUStateRequest key ops) w, Ok "")
  else ∃ msg, res = (w, Err (faultInvalidArgs msg)).
Proof.
  cbv zeta. unfold du_Handle. rewrite decode_du_request by done. cbn [Operations].
  destruct ops as [|o ops]; [by eexists|]. rewrite bool_decide_true by done. cbn [andb].
  rewrite <-(check_ops_spec 0). destruct (check_ops 0 (o :: ops)); [done|by eexists].
Qed.
End events.

(** ** Examples *)
Lemma object_handlers_witness :
  ao_Handle id ex_cpe (object_request "Device.Z." "") = (ex_cpe, Err (faultInvalidParameterName "Device.Z.")) ∧
  ao_Handle id ex_cpe (object_request "Device." "") =
    (ex_cpe, Err (FaultError (MkFault 9001 "Request denied: Device. is not a mutable table" []))).
Proof.
  split.
  - pose proof (proj1 (object_handlers id ex_cpe "Device.Z." "" ltac:(discriminate))) as H. exact H.
  - pose proof (proj1 (object_handlers id ex_cpe "Device." "" ltac:(discriminate))) as H. exact H.
Defined.

Lemma transfer_accepts_witness :
  transfer_Handle id true (Some (λ p (w : list Pending), w ++ [p])) 5 []
    (transfer_request [field_elem "Username" "u"] "k" "1 Firmware Upgrade Image" "http://x/f" " 30 ") =
  ([MkPending true "k" "1 Firmware Upgrade Image" "http://x/f" 30 5], Ok writeTransferResponse).
Proof.
  pose proof (transfer_accepts id true (λ p (w : list Pending), w ++ [p]) 5 [] [field_elem "Username" "u"]
    "k" "1 Firmware Upgrade Image" "http://x/f" " 30 ") as H.
  assert (parse_delay " 30 " = Ok 30%Z) as E by (vm_compute; reflexivity). cbv zeta in H. rewrite E in H.
  apply H. constructor; [|constructor]. cbn. rewrite !not_elem_of_cons.
  repeat split; try discriminate. apply not_elem_of_nil.
Defined.

Lemma ChangeDUState_accepts_witness :
  let ops := [MkDUStateOperation "install" "http://x/p" "" "" ""; MkDUStateOperation "uninstall" "" "u-1" "" ""] in
  du_Handle id (Some (λ r (w : list DUStateRequest), w ++ [r])) [] (du_request "k" ops) =
    ([MkDUStateRequest "k" ops], Ok "").
Proof.
  intros ops.
  assert (Forall known_kind ops) as Hk.
  { constructor; [left|constructor; [right; right; left|constructor]]. }
  exact (ChangeDUState_accepts id (λ r (w : list DUStateRequest), w ++ [r]) [] "k" ops Hk).
Defined.
