(* ===== verification/SetParameterAttributes.v ===== *)
(** * SetParameterAttributes
    ([internal/cwmp/handlers/setparameterattributes.go]). *)
From Stdlib Require Import ZArith Lia Ascii String.
From S2P Require Import Prelude GoLib GoText CpeErr Types Node Tree TreeProps Listing EventTracker Soap Xml Handler Cpe Queries.

Record spaEntry := MkSpaEntry {
  saName : string; NotificationChange : bool; saNotification : Z;
  AccessListChange : bool; saAccessList : option (list string)
}.

(** ** Decoding *)
Definition go_true (s : string) : bool := String.eqb s "true" || String.eqb s "1".
Definition parse_notification (s : string) : result error Z :=
  match Strconv.Atoi (Space.TrimSpace s) with
  | Ok n => Ok n
  | Err e => Err (Errorf "notification %q: %w" [s] (Some (num_error "Atoi" (Space.TrimSpace s) e)))
  end.

Definition spa_entry_loop (start : string) : loop spaEntry :=
  MkLoop false
    (λ e n _ r,
       if String.eqb (Local_ n) "Name" then
         field (λ s, Ok (MkSpaEntry s (NotificationChange e) (saNotification e) (AccessListChange e) (saAccessList e))) r
       else if String.eqb (Local_ n) "NotificationChange" then
         field (λ s, Ok (MkSpaEntry (saName e) (go_true s) (saNotification e) (AccessListChange e) (saAccessList e))) r
       else if String.eqb (Local_ n) "Notification" then
         field (λ s, v ← parse_notification s;
                     Ok (MkSpaEntry (saName e) (NotificationChange e) v (AccessListChange e) (saAccessList e))) r
       else if String.eqb (Local_ n) "AccessListChange" then
         field (λ s, Ok (MkSpaEntry (saName e) (NotificationChange e) (saNotification e) (go_true s) (saAccessList e))) r
       else if String.eqb (Local_ n) "AccessList" then
         p ← readStringListFromStart (Local_ n) r;
         Ok (MkSpaEntry (saName e) (NotificationChange e) (saNotification e) (AccessListChange e)
               (Some (default [] p.1)), p.2)
       else skip_start e r)
    (ends_at start) keep.
Definition decodeOneSPAStruct (start : string) (r : reader) : result error (spaEntry * reader) :=
  run_loop (spa_entry_loop start) (MkSpaEntry "" false 0 false None) r.

Definition spa_structs_loop (list_name : string) : loop (list spaEntry) :=
  MkLoop false
    (λ acc n _ r,
       if negb (String.eqb (Local_ n) "SetParameterAttributesStruct") then skip_start acc r
       else p ← decodeOneSPAStruct (Local_ n) r; Ok (acc ++ [p.1], p.2))
    (ends_at list_name) keep.
Definition decodeSPAStructs (list_name : string) (r : reader) : result error (list spaEntry * reader) :=
  run_loop (spa_structs_loop list_name) [] r.

Definition spa_loop : loop (list spaEntry) :=
  MkLoop true
    (λ acc n _ r,
       if String.eqb (Local_ n) "ParameterList" then decodeSPAStructs (Local_ n) r else skip_start acc r)
    never_ends keep.
Definition decodeSPARequest (r : reader) : result error (list spaEntry) :=
  p ← run_loop spa_loop [] r; Ok p.1.

(** ** The handler *)
Definition resolveLeaves (t : Tree) (name : string) : result error (list string) :=
  if String.eqb name "" || Strings.HasSuffix name "." then
    match Walk t name 0 (λ path _ s, (s ++ [path], None)) [] with
    | (_, Some e) => Err e
    | (leaves, None) => Ok leaves
    end
  else _ ← Get t name; Ok [name].

Record pendingChange := MkPendingChange { pcPath : string; pcEntry : spaEntry }.

Definition notification_fault (n : Z) : handler_error :=
  FaultError (MkFault 9009 ("Notification request rejected: value " +:+ Strconv.Itoa n +:+ " out of range [0,2]") []).

Fixpoint spa_pending (t : Tree) (pending : list pendingChange) (entries : list spaEntry)
  : result handler_error (list pendingChange) :=
  match entries with
  | [] => Ok pending
  | e :: rest =>
      if NotificationChange e && ((saNotification e <? 0)%Z || (2 <? saNotification e)%Z)
      then Err (notification_fault (saNotification e))
      else match resolveLeaves t (saName e) with
           | Err _ => Err (faultInvalidParameterName (saName e))
           | Ok leaves => spa_pending t (pending ++ ((λ p, MkPendingChange p e) <$> leaves)) rest
           end
  end.

(** The entry's changes over the current attributes. *)
Definition layer (e : spaEntry) (cur : Attributes) : Attributes :=
  MkAttributes
    (if NotificationChange e then saNotification e else Notification cur)
    (if AccessListChange e then Some (default [] (saAccessList e)) else AccessList cur).

Section spa.
Context (Quote : string → string) {W : Type} `{HT : HasTree W}.

Fixpoint spa_apply (t : Tree) (pending : list pendingChange) : Tree * result handler_error unit :=
  match pending with
  | [] => (t, Ok tt)
  | pc :: rest =>
      match GetAttributes t (pcPath pc) with
      | Err e => (t, Err (FaultError (MkFault 9002
                   ("internal: GetAttributes " +:+ pcPath pc +:+ ": " +:+ Error_text Quote e) [])))
      | Ok cur =>
          match SetAttributes t (pcPath pc) (layer (pcEntry pc) cur) with
          | (t', _, Ok _) => spa_apply t' rest
          | (t', _, Err e) => (t', Err (FaultError (MkFault 9002
                   ("internal: SetAttributes " +:+ pcPath pc +:+ ": " +:+ Error_text Quote e) [])))
          end
      end
  end.

(** [SetAttributes] notifies no observer. *)
Definition spa_Handle (w : W) (req : reader) : W * result handler_error string :=
  match decodeSPARequest req with
  | Err e => (w, Err (faultInvalidArgs ("decode SetParameterAttributes: " +:+ Error_text Quote e)))
  | Ok entries =>
      match spa_pending (get_tree w) [] entries with
      | Err f => (w, Err f)
      | Ok pending =>
          match spa_apply (get_tree w) pending with
          | (t, Err f) => (put_tree t w, Err f)
          | (t, Ok _) => (put_tree t w, Ok "")
          end
      end
  end.
Definition NewSetParameterAttributes : Handler W := MkHandler "SetParameterAttributes" spa_Handle.

(** ** The request *)
Lemma spa_entry_loop_shrinks s : shrinks (spa_entry_loop s).
Proof.
  intros acc n a r acc' r'. cbn [spa_entry_loop on_start].
  repeat case_match; eauto with xml. unfold readStringListFromStart.
  intros ([l r1]&Hr&[= _ <-])%result_bind_ok. by apply run_loop_shrinks in Hr; [|apply string_list_loop_shrinks].
Qed.
Lemma spa_structs_loop_shrinks s : shrinks (spa_structs_loop s).
Proof.
  intros acc n a r acc' r'. cbn [spa_structs_loop on_start]. case_match; [apply skip_start_shrinks|].
  intros ([e r1]&Hr&[= _ <-])%result_bind_ok. by apply run_loop_shrinks in Hr; [|apply spa_entry_loop_shrinks].
Qed.
Lemma spa_loop_shrinks : shrinks spa_loop.
Proof.
  intros acc n a r acc' r'. cbn [spa_loop on_start]. case_match; [|apply skip_start_shrinks].
  apply run_loop_shrinks, spa_structs_loop_shrinks.
Qed.

Definition G_spa_entry (e : spaEntry) (n : Name) (_ : list Attr) (kids : list xml) : result error spaEntry :=
  if String.eqb (Local_ n) "Name" then
    Ok (MkSpaEntry (text_of kids) (NotificationChange e) (saNotification e) (AccessListChange e) (saAccessList e))
  else if String.eqb (Local_ n) "NotificationChange" then
    Ok (MkSpaEntry (saName e) (go_true (text_of kids)) (saNotification e) (AccessListChange e) (saAccessList e))
  else if String.eqb (Local_ n) "Notification" then
    v ← parse_notification (text_of kids);
    Ok (MkSpaEntry (saName e) (NotificationChange e) v (AccessListChange e) (saAccessList e))
  else if String.eqb (Local_ n) "AccessListChange" then
    Ok (MkSpaEntry (saName e) (NotificationChange e) (saNotification e) (go_true (text_of kids)) (saAccessList e))
  else if String.eqb (Local_ n) "AccessList" then
    l ← fold_xml (string_list_loop (Local_ n)) G_string_list None kids;
    Ok (MkSpaEntry (saName e) (NotificationChange e) (saNotification e) (AccessListChange e) (Some (default [] l)))
  else Ok e.
Definition G_spa_structs (acc : list spaEntry) (n : Name) (_ : list Attr) (kids : list xml)
  : result error (list spaEntry) :=
  if negb (String.eqb (Local_ n) "SetParameterAttributesStruct") then Ok acc
  else e ← fold_xml (spa_entry_loop (Local_ n)) G_spa_entry (MkSpaEntry "" false 0 false None) kids; Ok (acc ++ [e]).
Definition G_spa (acc : list spaEntry) (n : Name) (_ : list Attr) (kids : list xml)
  : result error (list spaEntry) :=
  if String.eqb (Local_ n) "ParameterList" then fold_xml (spa_structs_loop (Local_ n)) G_spa_structs [] kids
  else Ok acc.

Lemma ends_at_local {A} (n : Name) (acc : A) : ends_at (Local_ n) acc n = (true, acc).
Proof. unfold ends_at. by rewrite String.eqb_refl. Qed.

Lemma decodeOneSPA_doc n kids l fin :
  decodeOneSPAStruct (Local_ n) (MkReader (forest kids ++ EndElement n :: l) fin) =
    (e ← fold_xml (spa_entry_loop (Local_ n)) G_spa_entry (MkSpaEntry "" false 0 false None) kids;
     Ok (e, MkReader l fin)).
Proof.
  apply (run_loop_element _ (spa_entry_loop_shrinks _) G_spa_entry); [|intros; apply ends_at_local].
  intros acc n0 a kids0 l0 fin0. unfold spa_entry_loop, G_spa_entry. cbn [on_start].
  repeat case_match; rewrite ?field_text, ?skip_start_forest; try done.
  rewrite (readStringListFromStart_doc (Local_ n0)) by done. by destruct (fold_xml _ _ _ _).
Qed.

Lemma decodeSPARequest_doc f :
  decodeSPARequest (MkReader (forest f) EOF) = fold_xml spa_loop G_spa [] f.
Proof.
  unfold decodeSPARequest. rewrite (run_loop_document _ spa_loop_shrinks G_spa); [| |done].
  - by destruct (fold_xml _ _ _ f).
  - intros acc n a kids l fin. unfold spa_loop, G_spa. cbn [on_start]. case_match; [|apply skip_start_forest].
    apply (run_loop_element _ (spa_structs_loop_shrinks _) G_spa_structs); [|intros; apply ends_at_local].
    intros acc0 n0 a0 kids0 l0 fin0. unfold spa_structs_loop, G_spa_structs. cbn [on_start].
    case_match; [apply skip_start_forest|]. rewrite decodeOneSPA_doc. by destruct (fold_xml _ _ _ _).
Qed.

Definition elem (local s : string) : xml := Elem (MkName "" local) [] [Text s].
(** How the wire writes an entry. *)
Definition spa_struct (e : spaEntry) (x : xml) : Prop :=
  ∃ nc nt alc ss,
    x = Elem (MkName "" "SetParameterAttributesStruct") []
          [elem "Name" (saName e); elem "NotificationChange" nc; elem "Notification" nt;
           elem "AccessListChange" alc; Elem (MkName "" "AccessList") [] (string_elem <$> ss)] ∧
    NotificationChange e = go_true nc ∧ Strconv.Atoi (Space.TrimSpace nt) = Ok (saNotification e) ∧
    AccessListChange e = go_true alc ∧ saAccessList e = Some ss.
Definition spa_reader (xs : list xml) : reader :=
  MkReader (forest [Elem (MkName "" "ParameterList") [] xs]) EOF.

Lemma fold_spa_struct e nc nt alc ss ln :
  NotificationChange e = go_true nc → Strconv.Atoi (Space.TrimSpace nt) = Ok (saNotification e) →
  AccessListChange e = go_true alc → saAccessList e = Some ss →
  fold_xml (spa_entry_loop ln) G_spa_entry (MkSpaEntry "" false 0 false None)
    [elem "Name" (saName e); elem "NotificationChange" nc; elem "Notification" nt;
     elem "AccessListChange" alc; Elem (MkName "" "AccessList") [] (string_elem <$> ss)] = Ok e.
Proof.
  intros Hnc Hnt Halc Hss.
  change (fold_xml _ _ _ _) with
    (e1 ← (v ← parse_notification (text_of [Text nt]);
           Ok (MkSpaEntry (text_of [Text (saName e)]) (go_true (text_of [Text nc])) v false None));
     e3 ← (l ← fold_xml (string_list_loop "AccessList") G_string_list None (string_elem <$> ss);
           Ok (E := error) (MkSpaEntry (saName e1) (NotificationChange e1) (saNotification e1) (go_true (text_of [Text alc]))
                 (Some (default [] l))));
     Ok e3).
  rewrite fold_strings, !text_of_single. unfold parse_notification. rewrite Hnt.
  cbn [mbind result_bind saName NotificationChange saNotification]. rewrite <-Hnc, <-Halc.
  destruct e as [nm ncb n acb al]. cbn in Hss |- *. subst al. by destruct ss.
Qed.

Lemma decode_spa_reader es xs :
  Forall2 spa_struct es xs → decodeSPARequest (spa_reader xs) = Ok es.
Proof.
  intros HF. unfold spa_reader. rewrite decodeSPARequest_doc.
  change (fold_xml _ _ _ _) with (acc ← fold_xml (spa_structs_loop "ParameterList") G_spa_structs [] xs; Ok (E := error) acc).
  assert (∀ acc, fold_xml (spa_structs_loop "ParameterList") G_spa_structs acc xs = Ok (acc ++ es)) as ->; [|done].
  induction HF as [|e x es xs (nc&nt&alc&ss&->&Hnc&Hnt&Halc&Hss) _ IH]; intros acc; [by rewrite app_nil_r|].
  cbn [fold_xml step_xml].
  change (G_spa_structs acc _ _ ?k) with
    (e ← fold_xml (spa_entry_loop "SetParameterAttributesStruct") G_spa_entry (MkSpaEntry "" false 0 false None) k;
     Ok (acc ++ [e])).
  rewrite (fold_spa_struct e) by done. cbn [mbind result_bind]. by rewrite IH, <-(assoc_L (++)).
Qed.

(** ** Specification *)
Definition fault_of (t : Tree) (e : spaEntry) : option handler_error :=
  if NotificationChange e && ((saNotification e <? 0)%Z || (2 <? saNotification e)%Z)
  then Some (notification_fault (saNotification e))
  else match resolveLeaves t (saName e) with
       | Err _ => Some (faultInvalidParameterName (saName e))
       | Ok _ => None
       end.

(** The leaves an entry is about: the one it names, or those below it. *)
Definition covers (t : Tree) (e : spaEntry) (q : list string) : Prop :=
  match resolveLeaves t (saName e) with
  | Ok leaves => Exists (λ path, parsePath path = Ok q) leaves
  | Err _ => False
  end.
#[local] Instance covers_dec t e q : Decision (covers t e q).
Proof. unfold covers. case_match; apply _. Defined.

(** What a request does to the attributes [a] of the leaf [q]. *)
Definition spa_effect (t : Tree) (entries : list spaEntry) (q : list string) (a : Attributes) : Attributes :=
  foldl (λ a e, if decide (covers t e q) then layer e a else a) a entries.
Definition attributes (t : Tree) (q : list string) : Attributes :=
  default Attributes_zero (default None (attrs_view t q)).

Lemma resolveLeaves_leaf t name leaves path :
  wf_tree t → resolveLeaves t name = Ok leaves → path ∈ leaves →
  ∃ q v, parsePath path = Ok q ∧ view t q = Some v.
Proof.
  intros Hw. unfold resolveLeaves. destruct (String.eqb name "" || Strings.HasSuffix name ".").
  - rewrite Walk_append. destruct (parsePath name) as [p|]; [|done].
    destruct (lookup (root t) p) as [n|] eqn:El; [|done]. apply lookup_ok in El.
    intros [= <-]. cbn [app]. intros (x&->&Hx)%list_elem_of_fmap.
    unfold full_leaves in Hx. apply list_elem_of_fmap in Hx as ([q v]&->&Hq). cbn [fst snd].
    apply elem_of_leaves in Hq. apply leaf_at_node in Hq as (m&Hm&Hv).
    assert (node_at (p ++ q) (root t) = Some m) as Hpq by by rewrite node_at_app, El.
    exists (p ++ q), v. split; [by apply parsePath_joinPath, (wf_node_at_segments _ _ _ Hw Hpq)|].
    unfold view, leaf_at. by rewrite Hpq.
  - destruct (Get t name) as [v|] eqn:Hg; [|done]. intros [= <-] ->%list_elem_of_singleton.
    unfold Get in Hg. apply result_bind_ok in Hg as (p&Hp&Hg). apply result_bind_ok in Hg as ([m v']&Hr&[= <-]).
    apply resolve_leaf_ok in Hr as [Hm Hl]. exists p, v'. split; [done|]. unfold view, leaf_at. by rewrite Hm.
Qed.

Lemma spa_pending_spec t acc entries :
  spa_pending t acc entries =
    match head (omap (fault_of t) entries) with
    | Some f => Err f
    | None => Ok (acc ++ flat_map (λ e, (λ p, MkPendingChange p e) <$>
                    match resolveLeaves t (saName e) with Ok l => l | Err _ => [] end) entries)
    end.
Proof.
  revert acc; induction entries as [|e l IH]; intros acc; [cbn; by rewrite app_nil_r|].
  cbn [spa_pending]. cbn [omap list_omap flat_map]. unfold fault_of at 1.
  destruct (NotificationChange e && _); [done|]. destruct (resolveLeaves t (saName e)) as [leaves|]; [|done].
  rewrite IH. destruct (head _); [done|]. by rewrite (assoc_L (++)).
Qed.

(** Applying pending changes whose paths are leaves. *)
Lemma spa_apply_spec pending t :
  (∀ pc, pc ∈ pending → ∃ q v, parsePath (pcPath pc) = Ok q ∧ view t q = Some v) →
  ∃ t', spa_apply t pending = (t', Ok tt) ∧ (∀ q, view t' q = view t q) ∧
    ∀ q, attributes t' q =
      foldl (λ a pc, if decide (parsePath (pcPath pc) = Ok q) then layer (pcEntry pc) a else a) (attributes t q) pending.
Proof.
  revert t; induction pending as [|pc rest IH]; intros t Hl; [by exists t|]. cbn [spa_apply].
  destruct (Hl pc ltac:(left)) as (p&v&Hp&Hv).
  assert (∃ oa, attrs_view t p = Some oa) as [oa Hoa].
  { apply leaf_at_node in Hv as (m&Hm&Hv). exists (attrs m). unfold attrs_view. rewrite Hm. simpl. by rewrite Hv. }
  rewrite (GetAttributes_view _ _ _ oa Hp Hoa).
  set (cur := match oa with Some a => _ | None => _ end).
  assert (attributes t p = cur) as Hcur.
  { unfold attributes. rewrite Hoa. cbn. by destruct oa as [[? ?]|]. }
  destruct (SetAttributes_leaf t (pcPath pc) (layer (pcEntry pc) cur) p v Hp Hv) as (t1&->&Hv1&Ha1).
  destruct (IH t1) as (t'&->&Hv'&Ha').
  { intros pc' Hin. destruct (Hl pc' ltac:(by right)) as (q&w&Hq&Hw). exists q, w. by rewrite Hv1. }
  exists t'. split; [done|]. split; [intros q; by rewrite Hv', Hv1|]. intros q. rewrite Ha'. cbn [foldl]. f_equal.
  unfold attributes at 1. rewrite Ha1. destruct (decide (p = q)) as [<-|Hne].
  - rewrite decide_True by done. by rewrite Hcur.
  - rewrite decide_False by congruence. done.
Qed.

(** Leaves of one entry: the first occurrence layers the changes, the others
    change nothing. *)
Lemma layer_idemp e a : layer e (layer e a) = layer e a.
Proof. unfold layer. cbn. by destruct (NotificationChange e), (AccessListChange e). Qed.

Lemma fold_one_entry e q leaves a :
  foldl (λ a pc, if decide (parsePath (pcPath pc) = Ok q) then layer (pcEntry pc) a else a) a
    ((λ p, MkPendingChange p e) <$> leaves) =
  if decide (Exists (λ path, parsePath path = Ok q) leaves) then layer e a else a.
Proof.
  revert a; induction leaves as [|p l IH]; intros a.
  { rewrite decide_False; [done|]. intros H. by apply Exists_nil in H. }
  cbn [fmap list_fmap foldl pcPath pcEntry]. cbn [fmap] in IH. rewrite IH.
  destruct (decide (parsePath p = Ok q)) as [Hp|Hp].
  - rewrite (decide_True (P := Exists _ (p :: l))) by by left. case_decide; [apply layer_idemp|done].
  - destruct (decide (Exists _ l)) as [He|He].
    + by rewrite decide_True by by right.
    + rewrite decide_False; [done|]. intros H. apply Exists_cons in H as [H|H]; done.
Qed.

(** SetParameterAttributes is all or nothing: the first entry with a
    notification level out of range (9009) or an unknown name (9005) is
    answered and nothing moves; otherwise every leaf an entry names or
    contains has the entries' changes layered over its attributes in the order
    of the request, other leaves keep theirs, no value moves, and 9002 is never
    answered. *)
Theorem SPA_layers (w : W) (es : list spaEntry) (xs : list xml)
  (Hw : wf_tree (get_tree w)) (Hx : Forall2 spa_struct es xs) :
  let t := get_tree w in
  match head (omap (fault_of t) es) with
  | Some f => spa_Handle w (spa_reader xs) = (w, Err f)
  | None => ∃ t', spa_Handle w (spa_reader xs) = (put_tree t' w, Ok "") ∧
      (∀ q, view t' q = view t q) ∧
      (∀ q, attributes t' q = spa_effect t es q (attributes t q))
  end.
Proof.
  cbv zeta. unfold spa_Handle. rewrite (decode_spa_reader es xs Hx), spa_pending_spec.
  destruct (head (omap (fault_of (get_tree w)) es)); [done|]. rewrite app_nil_l.
  set (pending := flat_map _ es).
  destruct (spa_apply_spec pending (get_tree w)) as (t'&->&Hv&Ha).
  { intros pc (e&_&Hin)%elem_of_flat_map. apply list_elem_of_fmap in Hin as (p&->&Hp). cbn [pcPath].
    destruct (resolveLeaves _ _) as [l|] eqn:Hl; [|by apply not_elem_of_nil in Hp].
    by eapply resolveLeaves_leaf. }
  exists t'. split; [done|]. split; [done|]. intros q. rewrite Ha. unfold pending, spa_effect.
  generalize (attributes (get_tree w) q). clear. induction es as [|e es IH]; intros a; [done|].
  cbn [flat_map foldl]. rewrite foldl_app, IH, fold_one_entry. f_equal. apply decide_ext.
  unfold covers. destruct (resolveLeaves _ _) as [l|]; [done|]. by rewrite Exists_nil.
Qed.
End spa.

(** ** Example *)
Lemma SPA_layers_witness :
  let e1 := MkSpaEntry "Device." true 1 false (Some []) in
  let e2 := MkSpaEntry "Device.X" true 2 true (Some ["a"]) in
  let xs := [Elem (MkName "" "SetParameterAttributesStruct") []
               [elem "Name" "Device."; elem "NotificationChange" "1"; elem "Notification" " 1";
                elem "AccessListChange" "0"; Elem (MkName "" "AccessList") [] (string_elem <$> [])];
             Elem (MkName "" "SetParameterAttributesStruct") []
               [elem "Name" "Device.X"; elem "NotificationChange" "true"; elem "Notification" "2";
                elem "AccessListChange" "true"; Elem (MkName "" "AccessList") [] (string_elem <$> ["a"])]] in
  (spa_effect (get_tree ex_cpe) [e1; e2] ["Device"; "X"] Attributes_zero = MkAttributes 2 (Some ["a"]) ∧
   spa_effect (get_tree ex_cpe) [e1; e2] ["Device"; "Y"] Attributes_zero = MkAttributes 1 None) ∧
  ∃ t', spa_Handle id ex_cpe (spa_reader xs) = (put_tree t' ex_cpe, Ok "") ∧
    (∀ q, view t' q = view (get_tree ex_cpe) q) ∧
    (∀ q, attributes t' q = spa_effect (get_tree ex_cpe) [e1; e2] q (attributes (get_tree ex_cpe) q)).
Proof.
  intros e1 e2 xs. split; [split; vm_compute; reflexivity|].
  assert (wf_tree (get_tree ex_cpe)) as Hw by (apply wf_nodeb_sound; vm_compute; reflexivity).
  assert (Forall2 spa_struct [e1; e2] xs) as Hx.
  { constructor; [|constructor; [|constructor]].
    - exists "1", " 1", "0", []. repeat split; vm_compute; reflexivity.
    - exists "true", "2", "true", ["a"]. repeat split; vm_compute; reflexivity. }
  pose proof (SPA_layers id ex_cpe [e1; e2] xs Hw Hx) as H. cbv zeta in H.
  assert (head (omap (fault_of (get_tree ex_cpe)) [e1; e2]) = None) as E by (vm_compute; reflexivity).
  rewrite E in H. exact H.
Defined.
