(* ===== verification/Session.v ===== *)
(** * One CWMP session against an ACS ([internal/cwmp/session.go]).

    A session is a computation in the state-and-error monad [M]: its state is
    the CPE the handlers act on, the ACS at the other end of the transport,
    and the number of message ids issued so far. *)
From Stdlib Require Import ZArith Lia Ascii String.
From S2P Require Import Prelude GoLib GoText CpeErr Types Node Tree TreeProps EventTracker Soap Inform Xml Decoder Handler Cpe.

(** What [transport.Send] returns when it fails: the error, and the status
    code when an [*HTTPError] is in its chain. *)
Record send_error := MkSendError { seStatus : option Z; seErr : error }.

(** What a session is run with and the repository does not decide: the
    transport to an ACS [A] ([Send], [ResetSession]), the tokens [encoding/xml]
    finds in a message, the text of quoted strings, the clock. *)
Record Env (A : Type) := MkEnv {
  Send : A → string → A * result send_error string;
  ResetSession : A → A;
  lex : string → reader;
  quote : string → string;
  now : Z
}.
Arguments MkEnv {A} _ _ _ _ _.
Arguments Send {A} _ _ _.
Arguments ResetSession {A} _ _.
Arguments lex {A} _ _.
Arguments quote {A} _ _.
Arguments now {A} _.

(** CPE-initiated RPCs: [Method()] and [Body()]. *)
Record CPEInitiatedRPC := MkRPC { rpcMethod : string; rpcBody : result error string }.

Record Session (W : Type) := MkSession {
  inform : Builder;
  handlers : gmap string (Handler W);
  pendingCPERPCs : list CPEInitiatedRPC;
  retryCount : Z;
  encOpts : EncoderOptions;
  decOpts : list string;
  nextID : nat → string  (* the id of the n-th call, from 0 *)
}.
Arguments MkSession {W} _ _ _ _ _ _ _.
Arguments inform {W} _.
Arguments handlers {W} _.
Arguments pendingCPERPCs {W} _.
Arguments retryCount {W} _.
Arguments encOpts {W} _.
Arguments decOpts {W} _.
Arguments nextID {W} _ _.

(** ** NewSession *)
Fixpoint register {W} (hs : list (Handler W)) (m : gmap string (Handler W))
  : result error (gmap string (Handler W)) :=
  match hs with
  | [] => Ok m
  | h :: rest =>
      if String.eqb (Method h) "" then
        Err (Wrap "cwmp.NewSession" KindInvalidArgument (Some (errorf "handler returned empty Method()" [])))
      else match m !! Method h with
           | Some _ => Err (Wrap "cwmp.NewSession" KindInvalidArgument
                              (Some (errorf "duplicate handler for method %q" [Method h])))
           | None => register rest (<[Method h := h]> m)
           end
  end.

(** The default generator counts from 1, in 64 bits. *)
Definition default_ids (n : nat) : string := Strconv.Itoa ((Z.of_nat n + 1) mod 2 ^ 64).

(** The checks for nil options are not modelled: the fields are not optional
    here. *)
Definition NewSession {W} (b : Builder) (hs : list (Handler W)) (enc : EncoderOptions) (dec : list string)
  (ids : option (nat → string)) : result error (Session W) :=
  m ← register hs ∅; Ok (MkSession b m [] 0 enc dec (default default_ids ids)).

Definition setBuilder {W} (b : Builder) (s : Session W) : Session W :=
  MkSession b (handlers s) (pendingCPERPCs s) (retryCount s) (encOpts s) (decOpts s) (nextID s).
Definition setPendingCPERPCs {W} (rpcs : list CPEInitiatedRPC) (s : Session W) : Session W :=
  MkSession (inform s) (handlers s) rpcs (retryCount s) (encOpts s) (decOpts s) (nextID s).
Definition setRetryCount {W} (n : Z) (s : Session W) : Session W :=
  MkSession (inform s) (handlers s) (pendingCPERPCs s) n (encOpts s) (decOpts s) (nextID s).

(** ** Encoding *)
Definition encodeRequest (o : EncoderOptions) (id method body : string) : result error string :=
  map_err (λ e, Wrap "cwmp.Session.encode" KindInternal (Some e))
    (WriteRequest (withDefaults o) (MkHeader id false) method body).
Definition encodeFault (o : EncoderOptions) (id : string) (f : Fault) : string :=
  WriteFault (withDefaults o) (MkHeader id false) f.

Definition isSessionClose (b : string) : bool := String.eqb (Space.TrimSpace b) "".

Definition run_err (f : string) (args : list string) : error :=
  Wrap "cwmp.Session.Run" KindInvalidArgument (Some (errorf f args)).

(** [validateMethodResponse] and, for InformResponse, [validateInformResponse],
    which differ in the texts of their errors. The response's own tokens are
    drained unread. *)
Definition validateResponse (on_fault : error) (expected : string → error) (r : reader) (accept : list string)
  (expectedMethod : string) : result error unit :=
  let wrap e := Wrap "cwmp.Session.Run" KindInvalidArgument (Some e) in
  p ← map_err wrap (ReadEnvelope (NewDecoder r accept));
  _ ← guard_err (negb (IsFault p.1)) on_fault;
  _ ← guard_err (String.eqb (eMethod p.1) expectedMethod) (expected (eMethod p.1));
  _ ← map_err wrap (MethodTokens p.2);
  Ok tt.
Definition validateMethodResponse (r : reader) (accept : list string) (expectedMethod : string)
  : result error unit :=
  validateResponse (run_err "ACS returned fault on %s" [expectedMethod])
    (λ got, run_err "expected %s, got %q" [expectedMethod; got]) r accept expectedMethod.
Definition validateInformResponse (r : reader) (accept : list string) : result error unit :=
  validateResponse (run_err "ACS returned fault on Inform" [])
    (λ got, run_err "expected InformResponse, got %q" [got]) r accept "InformResponse".

(** ** Dispatch *)
Section session.
Context {W A : Type} `{HT : HasTree W}.

(** The text of the error a handler returned. *)
Definition handler_text (quote : string → string) (e : error) : string := Error_text quote e.

Definition dispatch (quote : string → string) (s : Session W) (method requestID : string) (req : reader) (w : W)
  : W * result error string :=
  match handlers s !! method with
  | None =>
      (w, Ok (encodeFault (encOpts s) requestID (MkFault faultMethodNotSupported "Method not supported" [])))
  | Some h =>
      match Handle h w req with
      | (w', Err (FaultError f)) => (w', Ok (encodeFault (encOpts s) requestID f))
      | (w', Err (PlainError e)) =>
          (w', Ok (encodeFault (encOpts s) requestID (MkFault faultInternalError (handler_text quote e) [])))
      | (w', Ok body) => (w', encodeRequest (encOpts s) requestID (method +:+ "Response") body)
      end
  end.

Definition handleACSMessage (quote : string → string) (s : Session W) (r : reader) (w : W)
  : W * result error string :=
  let wrap e := Wrap "cwmp.Session.Run" KindInvalidArgument (Some e) in
  match ReadEnvelope (NewDecoder r (decOpts s)) with
  | Err e => (w, Err (wrap e))
  | Ok (env, d) =>
      if IsFault env then (w, Err (run_err "ACS returned fault during drain" []))
      else match MethodTokens d with
           | Err e => (w, Err (wrap e))
           | Ok mt => dispatch quote s (eMethod env) (hID (eHeader env)) (as_reader mt) w
           end
  end.

(** ** The session monad *)
Record st := MkSt { s_cpe : W; s_acs : A; s_ids : nat }.
Definition M (T : Type) : Type := st → st * result error T.
#[local] Instance M_ret : MRet M := λ T a s, (s, Ok a).
#[local] Instance M_bind : MBind M := λ T U f m s,
  match m s with (s', Ok a) => f a s' | (s', Err e) => (s', Err e) end.
Definition lift {T} (r : result error T) : M T := λ s, (s, r).
Definition on_cpe {T} (f : W → W * result error T) : M T := λ s,
  let '(w, r) := f (s_cpe s) in (MkSt w (s_acs s) (s_ids s), r).

Context (E : Env A) (s : Session W).

Definition next_id : M string := λ st,
  (MkSt (s_cpe st) (s_acs st) (S (s_ids st)), Ok (nextID s (s_ids st))).

(** A 204 is a clean close: empty bytes and no error. *)
Definition send (body : string) : M string := λ st,
  let '(a, r) := Send E (s_acs st) body in
  (MkSt (s_cpe st) a (s_ids st),
   match r with
   | Ok resp => Ok resp
   | Err e => if bool_decide (seStatus e = Some 204%Z) then Ok ""
              else Err (Wrap "cwmp.Session.Run" KindInternal (Some (seErr e)))
   end).

Definition sendInform (events : list Event) : M unit :=
  inf ← on_cpe (λ w, (w, map_err (λ e, Wrap "cwmp.Session.Run" KindInvalidArgument (Some e))
          (Build (get_tree w) (inform s) (now E) events (retryCount s))));
  id ← next_id;
  envelope ← lift (body ← map_err (λ e, Wrap "cwmp.Session.encode" KindInternal (Some e)) (Render inf);
                   encodeRequest (encOpts s) id "Inform" body);
  resp ← send envelope;
  if isSessionClose resp then lift (Err (run_err "ACS closed session before InformResponse" []))
  else lift (validateInformResponse (lex E resp) (decOpts s)).

Definition sendCPEInitiated (rpc : CPEInitiatedRPC) : M unit :=
  body ← lift (map_err (λ e, Wrap "cwmp.Session.Run" KindInternal
                 (Some (Errorf "build %s body: %w" [rpcMethod rpc] (Some e)))) (rpcBody rpc));
  id ← next_id;
  envelope ← lift (encodeRequest (encOpts s) id (rpcMethod rpc) body);
  resp ← send envelope;
  if isSessionClose resp then lift (Err (run_err "ACS closed session before %sResponse" [rpcMethod rpc]))
  else lift (validateMethodResponse (lex E resp) (decOpts s) (rpcMethod rpc +:+ "Response")).

Fixpoint sendAll (rpcs : list CPEInitiatedRPC) : M unit :=
  match rpcs with
  | [] => mret tt
  | rpc :: rest => _ ← sendCPEInitiated rpc; sendAll rest
  end.

(** The drain loop runs for as long as the ACS has requests: [fuel] bounds the
    turns looked at, [None] is a session still running then. *)
Fixpoint drain (fuel : nat) (outbound : string) : M (option unit) :=
  match fuel with
  | O => mret None
  | S fuel' =>
      resp ← send outbound;
      if isSessionClose resp then mret (Some tt)
      else out ← on_cpe (handleACSMessage (quote E) s (lex E resp)); drain fuel' out
  end.

Definition Run (fuel : nat) (events : list Event) : M (option unit) := λ st,
  (_ ← sendInform events;
   _ ← sendAll (pendingCPERPCs s);
   drain fuel "") (MkSt (s_cpe st) (ResetSession E (s_acs st)) (s_ids st)).

(** ** Fuel *)
Lemma drain_mono n m out st st' r :
  drain n out st = (st', r) → r ≠ Ok None → (n ≤ m)%nat → drain m out st = (st', r).
Proof.
  revert m out st; induction n as [|n IH]; intros m out st H Hr Hle.
  { injection H as <- <-. done. }
  destruct m as [|m]; [lia|]. cbn [drain] in *. unfold mbind, M_bind in *.
  destruct (send out st) as [st1 [resp|e]]; [|done]. destruct (isSessionClose resp); [done|].
  destruct (on_cpe _ st1) as [st2 [o|e]]; [|done]. apply (IH m); [done..|lia].
Qed.

(** ** What dispatch answers *)

Lemma encodeRequest_ok o id method body : method ≠ "" → ∃ env, encodeRequest o id method body = Ok env.
Proof.
  intros H. unfold encodeRequest, WriteRequest. rewrite (proj2 (String.eqb_neq _ _) H). by eexists.
Qed.

Lemma append_ne a b : b ≠ "" → a +:+ b ≠ "".
Proof. by destruct a. Qed.
End session.
Arguments MkSt {W A} _ _ _.
Arguments s_cpe {W A} _.
Arguments s_acs {W A} _.
Arguments s_ids {W A} _.

(** ** A session against a scripted ACS *)

(** The ACS has its replies ready and keeps what it is sent. *)
Definition Script : Type := list string * list string.
Definition script_send (a : Script) (body : string) : Script * result send_error string :=
  match a.1 with
  | [] => (([], a.2 ++ [body]), Err (MkSendError None (errorf "EOF" [])))
  | r :: rest => ((rest, a.2 ++ [body]), Ok r)
  end.
Definition script_env (lex : string → reader) (quote : string → string) (now : Z) : Env Script :=
  MkEnv script_send id lex quote now.

Section script.
Context {W : Type} `{HT : HasTree W}.
Context (lex : string → reader) (quote : string → string) (now : Z) (s : Session W).
Let E := script_env lex quote now.
#[local] Existing Instances M_ret M_bind.

(** What handling the ACS's messages one after another does and answers. *)
Fixpoint serve (requests : list string) (w : W) : W * result error (list string) :=
  match requests with
  | [] => (w, Ok [])
  | b :: rest =>
      match handleACSMessage quote s (lex b) w with
      | (w', Err e) => (w', Err e)
      | (w', Ok out) =>
          match serve rest w' with
          | (w'', Err e) => (w'', Err e)
          | (w'', Ok outs) => (w'', Ok (out :: outs))
          end
      end
  end.

(** A message the CPE can send, and a reply that acknowledges it. *)
Definition sendable (rpc : CPEInitiatedRPC) (id env : string) : Prop :=
  ∃ body, rpcBody rpc = Ok body ∧ encodeRequest (encOpts s) id (rpcMethod rpc) body = Ok env.
Definition acknowledges (rpc : CPEInitiatedRPC) (resp : string) : Prop :=
  isSessionClose resp = false ∧
  validateMethodResponse (lex resp) (decOpts s) (rpcMethod rpc +:+ "Response") = Ok tt.
Definition inform_message (w : W) (events : list Event) (id env : string) : Prop :=
  ∃ inf body, Build (get_tree w) (inform s) now events (retryCount s) = Ok inf ∧ Render inf = Ok body ∧
    encodeRequest (encOpts s) id "Inform" body = Ok env.
Definition accepts_inform (resp : string) : Prop :=
  isSessionClose resp = false ∧ validateInformResponse (lex resp) (decOpts s) = Ok tt.

Fixpoint sendable_all (n : nat) (rpcs : list CPEInitiatedRPC) (envs : list string) : Prop :=
  match rpcs, envs with
  | [], [] => True
  | rpc :: rpcs', env :: envs' => sendable rpc (nextID s n) env ∧ sendable_all (S n) rpcs' envs'
  | _, _ => False
  end.

Lemma sendInform_script w events env resp rest log n :
  inform_message w events (nextID s n) env → accepts_inform resp →
  sendInform E s events (MkSt w (resp :: rest, log) n) = (MkSt w (rest, log ++ [env]) (S n), Ok tt).
Proof.
  intros (inf&body&HB&HR&HE) [Hc Hv]. unfold sendInform, mbind, M_bind, on_cpe, lift, next_id, send.
  cbn -[Build Render encodeRequest isSessionClose validateInformResponse].
  rewrite HB. cbn -[Render encodeRequest isSessionClose validateInformResponse].
  rewrite HR. cbn -[encodeRequest isSessionClose validateInformResponse].
  rewrite HE. cbn -[isSessionClose validateInformResponse]. rewrite Hc. by rewrite Hv.
Qed.

Lemma sendAll_script w rpcs envs resps rest log n :
  sendable_all n rpcs envs → Forall2 acknowledges rpcs resps →
  sendAll E s rpcs (MkSt w (resps ++ rest, log) n) =
    (MkSt w (rest, log ++ envs) (n + length rpcs), Ok tt).
Proof.
  intros Hs Hr. revert envs log n Hs. induction Hr as [|rpc resp rpcs resps [Hc Hv] _ IH]; intros envs log n Hs.
  { destruct envs; [|done]. cbn. by rewrite app_nil_r, Nat.add_0_r. }
  destruct envs as [|env envs]; [done|]. destruct Hs as [(body&Hb&He) Hs].
  cbn [sendAll]. unfold mbind, M_bind at 1. unfold sendCPEInitiated, mbind, M_bind, lift, next_id, send.
  rewrite Hb. cbn -[encodeRequest isSessionClose validateMethodResponse String.append sendAll].
  rewrite He. cbn -[isSessionClose validateMethodResponse String.append sendAll].
  rewrite Hc, Hv. rewrite (IH envs) by done. rewrite <-(assoc_L (++)).
  cbn [length]. by rewrite Nat.add_succ_r.
Qed.

Lemma drain_script w w' requests replies closing rest log n out :
  Forall (λ b, isSessionClose b = false) requests → isSessionClose closing = true →
  serve requests w = (w', Ok replies) →
  drain E s (S (length requests)) out (MkSt w (requests ++ closing :: rest, log) n) =
    (MkSt w' (rest, log ++ out :: replies) n, Ok (Some tt)).
Proof.
  intros HF Hcl. revert w out log replies. induction HF as [|b requests Hb _ IH]; intros w out log replies Hs.
  - injection Hs as <- <-. cbn [length drain app]. unfold mbind, M_bind, send.
    cbn -[isSessionClose]. by rewrite Hcl.
  - cbn [serve] in Hs. destruct (handleACSMessage quote s (lex b) w) as [w1 [o|e]] eqn:Eh; [|done].
    destruct (serve requests w1) as [w2 [outs|e]] eqn:Es; [|done]. injection Hs as <- <-.
    cbn [length]. remember (S (length requests)) as fuel eqn:Ef. cbn [drain app]. unfold mbind, M_bind at 1.
    unfold send. cbn -[isSessionClose drain handleACSMessage]. rewrite Hb. unfold mbind, M_bind, on_cpe.
    cbn -[isSessionClose drain handleACSMessage]. rewrite Eh. subst fuel.
    rewrite (IH _ _ _ _ Es). by rewrite <-(assoc_L (++)).
Qed.
End script.

(** C11. A whole session: when the ACS accepts the Inform and answers every RPC
    of the CPE, the CPE sends the Inform, then its RPCs in order, then an empty
    POST, then the reply to each request of the ACS as it comes, each handled
    in the state the previous one left, until the ACS has nothing more; the
    session then ends well, every message having been sent exactly once. *)
Theorem Run_script {W} `{HasTree W} (lex : string → reader) (quote : string → string) (now : Z) (s : Session W)
  (events : list Event) (w w' : W) (n : nat) (inform_env inform_resp closing : string)
  (rpc_envs rpc_resps requests replies : list string)
  (Hinf : inform_message now s w events (nextID s n) inform_env)
  (Hacc : accepts_inform lex s inform_resp)
  (Hrpc : sendable_all s (S n) (pendingCPERPCs s) rpc_envs)
  (Hack : Forall2 (acknowledges lex s) (pendingCPERPCs s) rpc_resps)
  (Hreq : Forall (λ b, isSessionClose b = false) requests)
  (Hserve : serve lex quote s requests w = (w', Ok replies))
  (Hclose : isSessionClose closing = true) (fuel : nat) (Hfuel : (length requests < fuel)%nat) :
  Run (script_env lex quote now) s fuel events
      (MkSt w (inform_resp :: rpc_resps ++ requests ++ [closing], []) n) =
    (MkSt w' ([], inform_env :: rpc_envs ++ "" :: replies) (S n + length (pendingCPERPCs s)), Ok (Some tt)).
Proof.
  unfold Run, mbind, M_bind. cbn [s_cpe s_acs s_ids ResetSession script_env id].
  change (id ?x) with x.
  rewrite (sendInform_script lex quote now s w events inform_env) by done. cbn [app].
  rewrite (sendAll_script lex quote now s w _ rpc_envs) by done.
  apply (drain_mono _ _ (S (length requests))); [|done|lia].
  by rewrite (drain_script lex quote now s w w' requests replies closing []).
Qed.

(** ** What a session promises *)

(** What the ACS asks with a message, when the decoder takes it for a request:
    the method, the id and the tokens its handler reads. *)
Definition asks {W} (s : Session W) (r : reader) (method id : string) (req : reader) : Prop :=
  ∃ env d mt, ReadEnvelope (NewDecoder r (decOpts s)) = Ok (env, d) ∧ IsFault env = false ∧
    MethodTokens d = Ok mt ∧ method = eMethod env ∧ id = hID (eHeader env) ∧ req = as_reader mt.

(** The answer a request is owed, under its id, and the CPE after it: fault
    9000 when nobody handles the method, the handler's own fault, fault 9002
    with the text of any other error, or the response with the body written.
    Only the handler touches the CPE. *)
Inductive answers {W} (quote : string → string) (s : Session W) (method id : string) (req : reader) (w : W)
  : string → W → Prop :=
| answers_unsupported : handlers s !! method = None →
    answers quote s method id req w (encodeFault (encOpts s) id (MkFault 9000 "Method not supported" [])) w
| answers_fault h f w' : handlers s !! method = Some h → Handle h w req = (w', Err (FaultError f)) →
    answers quote s method id req w (encodeFault (encOpts s) id f) w'
| answers_error h e w' : handlers s !! method = Some h → Handle h w req = (w', Err (PlainError e)) →
    answers quote s method id req w (encodeFault (encOpts s) id (MkFault 9002 (Error_text quote e) [])) w'
| answers_response h body out w' : handlers s !! method = Some h → Handle h w req = (w', Ok body) →
    encodeRequest (encOpts s) id (method +:+ "Response") body = Ok out →
    answers quote s method id req w out w'.

(** What went over a transport: each message of the CPE and what came back. *)
Definition exchange : Type := string * result send_error string.
(** What the session reads of an exchange: a 204 reads as empty bytes. *)
Definition reply (x : exchange) : option string :=
  match x.2 with
  | Ok r => Some r
  | Err e => if bool_decide (seStatus e = Some 204%Z) then Some "" else None
  end.

(** The exchanges of a drain that owes the ACS [out], the CPE they leave and
    how they end: with the first empty reply, which closes the session; with
    a lost reply; with one that is no request; or unfinished. Every request
    before is answered in the next exchange, in the state the previous one
    left. *)
Inductive drained {W} (lex : string → reader) (quote : string → string) (s : Session W)
  : W → string → list exchange → W → result error (option unit) → Prop :=
| drained_closed w out x r : x.1 = out → reply x = Some r → isSessionClose r = true →
    drained lex quote s w out [x] w (Ok (Some tt))
| drained_lost w out x e : x.1 = out → reply x = None → drained lex quote s w out [x] w (Err e)
| drained_unreadable w out x r e : x.1 = out → reply x = Some r → isSessionClose r = false →
    (∀ m i q, ¬ asks s (lex r) m i q) → drained lex quote s w out [x] w (Err e)
| drained_unfinished w out : drained lex quote s w out [] w (Ok None)
| drained_turn w out x r m i q next w1 xs w2 res : x.1 = out → reply x = Some r → isSessionClose r = false →
    asks s (lex r) m i q → answers quote s m i q w next w1 → drained lex quote s w1 next xs w2 res →
    drained lex quote s w out (x :: xs) w2 res.

(** An empty reply is the last thing of a session: nothing is sent after it. *)
Definition silent_once_closed (xs : list exchange) : Prop :=
  ∀ i x r, xs !! i = Some x → reply x = Some r → isSessionClose r = true → S i = length xs.

Lemma handle_answers {W} quote (s : Session W) r w w' out :
  handleACSMessage quote s r w = (w', Ok out) → ∃ m i q, asks s r m i q ∧ answers quote s m i q w out w'.
Proof.
  unfold handleACSMessage. destruct (ReadEnvelope _) as [[env d]|e] eqn:Er; [|done].
  destruct (IsFault env) eqn:Ef; [done|]. destruct (MethodTokens d) as [mt|e] eqn:Em; [|done]. intros H.
  eexists _, _, _. split; [by exists env, d, mt|]. unfold dispatch in H.
  destruct (handlers s !! eMethod env) as [h|] eqn:Eh.
  - destruct (Handle h w _) as [w1 [body|[f|e]]] eqn:Eb; simplify_eq.
    + by eapply answers_response.
    + by eapply answers_fault.
    + by eapply answers_error.
  - simplify_eq. by apply answers_unsupported.
Qed.

Lemma handle_refuses {W} quote (s : Session W) r w w' e :
  handleACSMessage quote s r w = (w', Err e) → w' = w ∧ ∀ m i q, ¬ asks s r m i q.
Proof.
  unfold handleACSMessage. intros H. split; [|intros m i q (env&d&mt&Hr&Hf&Hm&_); rewrite Hr, Hf, Hm in H].
  - destruct (ReadEnvelope _) as [[env d]|?]; [|by simplify_eq]. destruct (IsFault env); [by simplify_eq|].
    destruct (MethodTokens d) as [mt|]; [|by simplify_eq]. unfold dispatch in H.
    destruct (handlers s !! _) as [h|]; [|by simplify_eq].
    destruct (Handle h w _) as [w1 [body|[f|e1]]]; [|by simplify_eq..].
    destruct (encodeRequest_ok (encOpts s) (hID (eHeader env)) (eMethod env +:+ "Response") body) as [o Ho];
      [by apply append_ne|congruence].
  - unfold dispatch in H. destruct (handlers s !! _) as [h|]; [|by simplify_eq].
    destruct (Handle h w _) as [w1 [body|[f|e1]]]; [|by simplify_eq..].
    destruct (encodeRequest_ok (encOpts s) (hID (eHeader env)) (eMethod env +:+ "Response") body) as [o Ho];
      [by apply append_ne|congruence].
Qed.

Lemma drained_silent {W} lex quote (s : Session W) w out xs w' res :
  drained lex quote s w out xs w' res → silent_once_closed xs.
Proof.
  induction 1 as [| |w out x r e ? Hr Hc| |w out x r m j q next w1 xs w2 res ? Hr Hc ? ? ? IH]; intros k y r' Hk Hy Hy'.
  1-3: by destruct k as [|[]]; simplify_eq/=.
  - done.
  - destruct k as [|k]; [simplify_eq/=; congruence|]. simpl. f_equal. by eapply IH.
Qed.

(** Any transport, with a record of what went over it. *)
Definition traced {B} (E : Env B) : Env (B * list exchange) :=
  MkEnv (λ a body, let '(b, r) := Send E a.1 body in ((b, a.2 ++ [(body, r)]), r))
    (λ a, (ResetSession E a.1, a.2)) (lex E) (quote E) (now E).

Section delivered.
Context {W B : Type} `{HT : HasTree W}.
Context (E0 : Env B) (s : Session W).
Let E := traced E0.
#[local] Existing Instances M_ret M_bind.

Definition trace (st : st (W := W) (A := B * list exchange)) : list exchange := (s_acs st).2.

Lemma send_trace body st st' res :
  send E body st = (st', res) →
  s_cpe st' = s_cpe st ∧ s_ids st' = s_ids st ∧
  ∃ x, trace st' = trace st ++ [x] ∧ x.1 = body ∧ reply x = match res with Ok resp => Some resp | Err _ => None end.
Proof.
  unfold send, E, traced. cbn [Send].
  match goal with |- context [Send E0 ?a body] => destruct (Send E0 a body) as [b r] eqn:Es end; intros H.
  injection H as <- <-. split; [done|]. split; [done|]. eexists (_, _). split_and!; [done..|].
  unfold reply. cbn. destruct r as [r|e]; [done|]. by destruct (bool_decide _).
Qed.

(** An exchange that carried the Inform under this id, and its acceptance; one
    that carried an RPC, and its acknowledgement. *)
Definition acked_inform (w : W) (events : list Event) (id : string) (x : exchange) : Prop :=
  inform_message (now E0) s w events id x.1 ∧ ∃ r, reply x = Some r ∧ accepts_inform (lex E0) s r.
Definition acked (rpc : CPEInitiatedRPC) (id : string) (x : exchange) : Prop :=
  sendable s rpc id x.1 ∧ ∃ r, reply x = Some r ∧ acknowledges (lex E0) s rpc r.
(** One exchange for each RPC, in order, under the ids from the [n]-th on. *)
Fixpoint acked_all (n : nat) (rpcs : list CPEInitiatedRPC) (xs : list exchange) : Prop :=
  match rpcs, xs with
  | [], [] => True
  | rpc :: rpcs', x :: xs' => acked rpc (nextID s n) x ∧ acked_all (S n) rpcs' xs'
  | _, _ => False
  end.

Definition opened (x : exchange) : Prop := ∃ r, reply x = Some r ∧ isSessionClose r = false.
Lemma acked_inform_opened w events id x : acked_inform w events id x → opened x.
Proof. intros (_&r&Hr&Hc&_). by exists r. Qed.
Lemma acked_all_opened n rpcs xs : acked_all n rpcs xs → Forall opened xs.
Proof.
  revert n xs; induction rpcs as [|rpc rpcs IH]; intros n [|x xs]; try done. intros [(_&r&Hr&Hc&_) H].
  constructor; [by exists r|by eapply IH].
Qed.

Lemma silent_after_opened xs ys : Forall opened xs → silent_once_closed ys → silent_once_closed (xs ++ ys).
Proof.
  intros Hx Hy i x r Hi Hr Hc. apply lookup_app_Some in Hi as [Hi|[Hle Hi]].
  - destruct (Forall_lookup_1 _ _ _ _ Hx Hi) as (r'&Hr'&Hc'). congruence.
  - rewrite length_app. rewrite <-(Hy _ _ _ Hi Hr Hc). lia.
Qed.
Lemma silent_short ys : (length ys ≤ 1)%nat → silent_once_closed ys.
Proof. intros Hl i x r Hi _ _. apply lookup_lt_Some in Hi. lia. Qed.

Ltac step H :=
  unfold mbind in H at 1; unfold M_bind in H at 1;
  match type of H with
  | (match ?m ?st with _ => _ end) = _ =>
      let st' := fresh "st" in let r := fresh "r" in let Eq := fresh "Eq" in
      destruct (m st) as [st' [r|?]] eqn:Eq
  end.

Lemma sendInform_acked events st st' res :
  sendInform E s events st = (st', res) →
  s_cpe st' = s_cpe st ∧
  match res with
  | Ok _ => s_ids st' = S (s_ids st) ∧
      ∃ x, trace st' = trace st ++ [x] ∧ acked_inform (s_cpe st) events (nextID s (s_ids st)) x
  | Err _ => ∃ xs, trace st' = trace st ++ xs ∧ (length xs ≤ 1)%nat
  end.
Proof.
  intros H. unfold sendInform in H. step H; unfold on_cpe in Eq;
    destruct (Build _ _ _ _ _) as [inf|e0] eqn:HB; try done; cbn in Eq; injection Eq as <- <-.
  2: { injection H as <- <-. split; [by destruct st|]. exists []. rewrite app_nil_r. by split; [|simpl; lia]. }
  step H; [|done]. injection Eq as <- <-. step H; unfold lift in Eq.
  2: { injection Eq as <- _. injection H as <- <-. split; [done|]. exists []. rewrite app_nil_r. by split; [|simpl; lia]. }
  injection Eq as <- Henv. apply result_bind_ok in Henv as (body&HR%map_err_ok&HE). step H;
    destruct (send_trace _ _ _ _ Eq) as (Hc&Hn&x&Hx&Hp&Hr).
  2: { injection H as <- <-. split; [done|]. exists [x]. by split; [|simpl; lia]. }
  destruct (isSessionClose r0) eqn:Hcl; unfold lift in H.
  { injection H as <- <-. split; [done|]. exists [x]. by split; [|simpl; lia]. }
  injection H as <- Hv. split; [by rewrite Hc|]. destruct res as [[]|e].
  - split; [by rewrite Hn|]. exists x. split; [done|]. split; [exists inf, body; by rewrite Hp|]. by exists r0.
  - exists [x]. by split; [|simpl; lia].
Qed.

Lemma sendCPEInitiated_acked rpc st st' res :
  sendCPEInitiated E s rpc st = (st', res) →
  s_cpe st' = s_cpe st ∧
  match res with
  | Ok _ => s_ids st' = S (s_ids st) ∧ ∃ x, trace st' = trace st ++ [x] ∧ acked rpc (nextID s (s_ids st)) x
  | Err _ => ∃ xs, trace st' = trace st ++ xs ∧ (length xs ≤ 1)%nat
  end.
Proof.
  intros H. unfold sendCPEInitiated in H. step H; unfold lift in Eq.
  2: { injection Eq as <- _. injection H as <- <-. split; [done|]. exists []. rewrite app_nil_r. by split; [|simpl; lia]. }
  injection Eq as <- HB%map_err_ok. step H; [|done]. injection Eq as <- <-. step H; unfold lift in Eq.
  2: { injection Eq as <- _. injection H as <- <-. split; [done|]. exists []. rewrite app_nil_r. by split; [|simpl; lia]. }
  injection Eq as <- HE. step H; destruct (send_trace _ _ _ _ Eq) as (Hc&Hn&x&Hx&Hp&Hr).
  2: { injection H as <- <-. split; [done|]. exists [x]. by split; [|simpl; lia]. }
  destruct (isSessionClose _) eqn:Hcl in H; unfold lift in H.
  { injection H as <- <-. split; [done|]. exists [x]. by split; [|simpl; lia]. }
  injection H as <- Hv. split; [by rewrite Hc|]. destruct res as [[]|e].
  - split; [by rewrite Hn|]. exists x. split; [done|]. split; [eexists; rewrite Hp; by split|]. by eexists.
  - exists [x]. by split; [|simpl; lia].
Qed.

Lemma sendAll_acked rpcs st st' res :
  sendAll E s rpcs st = (st', res) →
  s_cpe st' = s_cpe st ∧
  match res with
  | Ok _ => ∃ xs, trace st' = trace st ++ xs ∧ acked_all (s_ids st) rpcs xs
  | Err _ => ∃ k xs ys, trace st' = trace st ++ xs ++ ys ∧ acked_all (s_ids st) (take k rpcs) xs ∧
      (k < length rpcs)%nat ∧ (length ys ≤ 1)%nat
  end.
Proof.
  revert st; induction rpcs as [|rpc rpcs IH]; intros st H.
  { injection H as <- <-. split; [done|]. exists []. by rewrite app_nil_r. }
  cbn [sendAll] in H. step H; apply sendCPEInitiated_acked in Eq as (Hc&Eq).
  - destruct Eq as (Hn&x&Hx&Ha). apply IH in H as (Hc'&H). rewrite Hn in H. split; [by rewrite Hc', Hc|].
    destruct res as [u|e'].
    + destruct H as (xs&Hxs&HF). exists (x :: xs). split; [by rewrite Hxs, Hx, <-(assoc_L (++))|done].
    + destruct H as (k&xs&ys&Hxs&HF&Hk&Hl). exists (S k), (x :: xs), ys. split_and!; try done; [|simpl; lia].
      by rewrite Hxs, Hx, <-(assoc_L (++)).
  - injection H as <- <-. split; [done|]. destruct Eq as (xs&Hxs&Hl). exists 0%nat, [], xs. simpl. split_and!; [done..|lia|done].
Qed.

Lemma drain_drained fuel out st st' res :
  drain E s fuel out st = (st', res) →
  ∃ ys, trace st' = trace st ++ ys ∧ drained (lex E0) (quote E0) s (s_cpe st) out ys (s_cpe st') res.
Proof.
  revert out st; induction fuel as [|fuel IH]; intros out st H.
  { injection H as <- <-. exists []. rewrite app_nil_r. split; [done|constructor]. }
  cbn [drain] in H. step H; destruct (send_trace _ _ _ _ Eq) as (Hcpe&_&x&Hx&Hp&Hr).
  2: { injection H as <- <-. exists [x]. split; [done|]. rewrite Hcpe. by apply drained_lost. }
  destruct (isSessionClose r) eqn:Hc.
  { injection H as <- <-. exists [x]. split; [done|]. rewrite Hcpe. by eapply drained_closed. }
  step H; unfold on_cpe in Eq0;
    destruct (handleACSMessage (quote E) s (lex E r) (s_cpe st0)) as [w' o] eqn:Eh; injection Eq0 as <- ->.
  - destruct (handle_answers _ _ _ _ _ _ Eh) as (m&i&q&Ha&Hans). apply IH in H as (xs&Ht&Hd). cbn [s_cpe] in Hd.
    exists (x :: xs). unfold trace in *. cbn [s_acs] in Ht. split; [by rewrite Ht, Hx, <-(assoc_L (++))|].
    rewrite Hcpe in Hans. by eapply drained_turn.
  - injection H as <- <-. destruct (handle_refuses _ _ _ _ _ _ Eh) as [-> Hno]. exists [x]. split; [done|].
    cbn [s_cpe]. rewrite Hcpe. by eapply drained_unreadable.
Qed.
End delivered.

(** A session, whatever comes of it: it ends in its opening, and the CPE is as
    it was, or its opening was accepted and the rest is the drain. *)
Lemma Run_trace {W B} `{HT : HasTree W} (E0 : Env B) (s : Session W) fuel events w b n st' res :
  Run (traced E0) s fuel events (MkSt w (b, []) n) = (st', res) →
  (s_cpe st' = w ∧ (∃ e, res = Err e) ∧
     ((length (trace st') ≤ 1)%nat ∨
      ∃ k x0 xs ys, trace st' = x0 :: xs ++ ys ∧ acked_inform E0 s w events (nextID s n) x0 ∧
        acked_all E0 s (S n) (take k (pendingCPERPCs s)) xs ∧ (k < length (pendingCPERPCs s))%nat ∧ (length ys ≤ 1)%nat)) ∨
  ∃ x0 xs ys,
    trace st' = x0 :: xs ++ ys ∧ acked_inform E0 s w events (nextID s n) x0 ∧
    acked_all E0 s (S n) (pendingCPERPCs s) xs ∧ drained (lex E0) (quote E0) s w "" ys (s_cpe st') res.
Proof.
  intros H. unfold Run, mbind, M_bind in H. cbn [s_cpe s_acs s_ids] in H.
  destruct (sendInform _ s events _) as [st1 [[]|e]] eqn:E1; apply sendInform_acked in E1 as (Hc1&E1); cbn in Hc1, E1.
  2: { injection H as <- <-. left. split; [done|]. split; [by eexists|]. left. destruct E1 as (xs&->&Hl). done. }
  destruct E1 as (Hn&x0&Hx0&Ha).
  destruct (sendAll _ s _ st1) as [st2 [[]|e]] eqn:E2; apply sendAll_acked in E2 as (Hc2&E2); rewrite Hn in E2.
  2: { injection H as <- <-. left. split; [by rewrite Hc2|]. split; [by eexists|]. right.
       destruct E2 as (k&xs&ys&Ht&HF&Hk&Hl). exists k, x0, xs, ys. split_and!; try done. by rewrite Ht, Hx0. }
  destruct E2 as (xs&Hxs&HF). apply drain_drained in H as (ys&Ht&Hd). rewrite Hc2, Hc1 in Hd. right.
  exists x0, xs, ys. split_and!; try done. by rewrite Ht, Hxs, Hx0.
Qed.

Lemma Run_trace_ok {W B} `{HT : HasTree W} (E0 : Env B) (s : Session W) fuel events w b n st' :
  Run (traced E0) s fuel events (MkSt w (b, []) n) = (st', Ok (Some tt)) →
  ∃ x0 xs ys,
    trace st' = x0 :: xs ++ ys ∧ acked_inform E0 s w events (nextID s n) x0 ∧
    acked_all E0 s (S n) (pendingCPERPCs s) xs ∧
    drained (lex E0) (quote E0) s w "" ys (s_cpe st') (Ok (Some tt)).
Proof. intros [(_&[e He]&_)|H]%Run_trace; [done|exact H]. Qed.

Lemma Run_silent {W B} `{HT : HasTree W} (E0 : Env B) (s : Session W) fuel events w b n st' res :
  Run (traced E0) s fuel events (MkSt w (b, []) n) = (st', res) → silent_once_closed (trace st').
Proof.
  intros [(_&_&[Hl|(k&x0&xs&ys&->&Hi%acked_inform_opened&Hx%acked_all_opened&_&Hl)])
         |(x0&xs&ys&->&Hi%acked_inform_opened&Hx%acked_all_opened&Hd%drained_silent)]%Run_trace.
  - by apply silent_short.
  - apply (silent_after_opened (x0 :: xs)); [by constructor|by apply silent_short].
  - by apply (silent_after_opened (x0 :: xs)); [constructor|].
Qed.


(** C9. No request of the ACS goes unanswered, whatever becomes of the session.
    A session that fails in its opening has not touched the CPE. Otherwise
    take any exchange of the drain that is not the last: what the ACS asked in
    it is answered by the next exchange, under the request's id, with fault
    9000 when nobody handles the method, with the handler's fault, with 9002
    and the text of any other error, or with the method's response. After the
    last exchange nothing is owed but by a session still running: its reply
    was empty, lost or no request. *)
Theorem Run_answers {W B} `{HT : HasTree W} (E0 : Env B) (s : Session W) (fuel : nat) (events : list Event)
  (w : W) (b : B) (n : nat) (st' : st) (res : result error (option unit))
  (H : Run (traced E0) s fuel events (MkSt w (b, []) n) = (st', res)) :
  (s_cpe st' = w ∧ is_ok res = false) ∨
  ∃ opening ys, trace st' = opening ++ ys ∧ length opening = S (length (pendingCPERPCs s)) ∧
    drained (lex E0) (quote E0) s w "" ys (s_cpe st') res ∧
    (∀ k x y, ys !! k = Some x → ys !! S k = Some y →
       ∃ r m i q w1 w2, reply x = Some r ∧ asks s (lex E0 r) m i q ∧ answers (quote E0) s m i q w1 y.1 w2) ∧
    (∀ x r m i q, last ys = Some x → reply x = Some r → isSessionClose r = false → asks s (lex E0 r) m i q →
       res = Ok None).
Proof.
  apply Run_trace in H as [(Hw&[e ->]&_)|(x0&xs&ys&Ht&_&Hx&Hd)]; [by left|right].
  exists (x0 :: xs), ys. split_and!; [done| |done|..].
  - simpl. f_equal. clear -Hx. revert xs Hx. generalize (S n). induction (pendingCPERPCs s) as [|p l IH]; intros k [|x xs]; try done.
    intros [_ H]. simpl. f_equal. by eapply IH.
  - clear Ht Hx. induction Hd as [| | | |w out x r m i q next w1 xs' w2 res ? Hr Hc Ha Hans Hd IH]; intros k y z Hy Hz; try done.
    destruct k as [|k]; [|by eapply (IH k)]. simplify_eq/=. exists r, m, i, q, w, w1. split_and!; try done.
    enough (z.1 = next) as -> by done. by inversion Hd; simplify_eq/=.
  - clear Ht Hx. induction Hd as [w out x r ? Hr Hc|w out x e ? Hr|w out x r e ? Hr Hc Hno| |w out x r m i q next w1 xs' w2 res ? Hr Hc Ha Hans Hd IH];
      intros y r' m' i' q' Hy Hr' Hc' Ha'; simplify_eq/=; try done.
    + congruence.
    + by destruct (Hno m' i' q').
    + destruct xs' as [|z zs]; [by inversion Hd|]. by eapply IH.
Qed.

(** ** Termination *)
Section terminates.
Context {W : Type} `{HT : HasTree W}.
Context (lex : string → reader) (quote : string → string) (now : Z) (s : Session W).
Let E := traced (script_env lex quote now).
Create HintDb consumes.
#[local] Existing Instances M_ret M_bind.

Definition left_ (st : st (W := W) (A := Script * list exchange)) : nat := length (s_acs st).1.1.

(** A step takes replies off the script, if anything. *)
Definition consumes {T} (m : M (W := W) (A := Script * list exchange) T) : Prop := ∀ st, (left_ (m st).1 ≤ left_ st)%nat.

Lemma consumes_bind {T U} (m : M T) (f : T → M U) :
  consumes m → (∀ x, consumes (f x)) → consumes (m ≫= f).
Proof.
  intros Hm Hf st. unfold mbind, M_bind. specialize (Hm st). destruct (m st) as [st1 [x|e]]; [|done].
  specialize (Hf x st1). simpl in *. lia.
Qed.
Lemma consumes_lift {T} (r : result error T) : consumes (lift r).
Proof. intros st. done. Qed.
Lemma consumes_ret {T} (x : T) : consumes (mret x).
Proof. intros st. done. Qed.
Lemma consumes_on_cpe {T} (f : W → W * result error T) : consumes (on_cpe f).
Proof. intros st. unfold on_cpe. by destruct (f (s_cpe st)). Qed.
Lemma consumes_next_id : consumes (next_id s).
Proof. intros st. done. Qed.
Lemma send_left body st :
  (left_ (send E body st).1 ≤ left_ st)%nat ∧
  match (send E body st).2 with Ok _ => (left_ (send E body st).1 < left_ st)%nat | Err _ => True end.
Proof. destruct st as [w [[[|r rest] log] tr] n]; cbn; [by split|]. unfold left_. cbn. lia. Qed.
Lemma consumes_send body : consumes (send E body).
Proof. intros st. apply send_left. Qed.
#[local] Hint Resolve consumes_bind consumes_lift consumes_ret consumes_on_cpe consumes_next_id consumes_send : consumes.

Lemma sendInform_consumes events : consumes (sendInform E s events).
Proof.
  unfold sendInform. repeat (apply consumes_bind; [eauto with consumes|intros ?]). case_match; eauto with consumes.
Qed.
Lemma sendAll_consumes rpcs : consumes (sendAll E s rpcs).
Proof.
  induction rpcs as [|rpc rpcs IH]; [eauto with consumes|]. cbn [sendAll].
  apply consumes_bind; [|done]. unfold sendCPEInitiated.
  repeat (apply consumes_bind; [eauto with consumes|intros ?]). case_match; eauto with consumes.
Qed.

Lemma drain_ends fuel out st : (left_ st < fuel)%nat → (drain E s fuel out st).2 ≠ Ok None.
Proof.
  revert out st; induction fuel as [|fuel IH]; intros out st Hf; [lia|]. cbn [drain].
  unfold mbind, M_bind. destruct (send_left out st) as [Hle Hlt].
  destruct (send E out st) as [st1 [resp|e]]; [|done]. cbn in Hlt. destruct (isSessionClose resp); [done|].
  destruct (on_cpe _ st1) as [st2 [o|e]] eqn:Eo; [|done]. apply IH.
  assert (left_ st2 ≤ left_ st1)%nat; [|lia].
  unfold on_cpe in Eo. destruct (handleACSMessage _ _ _ _) as [w' r]. by injection Eo as <- _.
Qed.
End terminates.

(** C10. A session ends, and it ends when the ACS has nothing more to say.
    An empty reply, at whatever point, is the last exchange: the CPE sends
    nothing after it. Each turn of the drain loop uses up a reply, so against
    an ACS with finitely many replies, whatever they are, more fuel than
    replies is enough for the session to return, with success or an error, and
    further fuel changes nothing. *)
Theorem Run_ends {W} `{HasTree W} (lex : string → reader) (quote : string → string) (now : Z) (s : Session W)
  (events : list Event) (w : W) (script log : list string) (n fuel : nat) (Hf : (length script < fuel)%nat) :
  let run k := Run (traced (script_env lex quote now)) s k events (MkSt w ((script, log), []) n) in
  (run fuel).2 ≠ Ok None ∧ (∀ k, (fuel ≤ k)%nat → run k = run fuel) ∧ silent_once_closed (trace (run fuel).1).
Proof.
  cbv zeta. rewrite (assoc (∧)). split; [|by destruct (Run _ s fuel events _) as [st' res] eqn:ER; apply Run_silent in ER].
  unfold Run, mbind, M_bind. cbn [ResetSession traced script_env s_cpe s_acs s_ids fst snd]. change (id ?x) with x.
  pose proof (sendInform_consumes lex quote now s events (MkSt w ((script, log), []) n)) as H1.
  destruct (sendInform _ s events _) as [st1 [[]|e]]; [|by split].
  pose proof (sendAll_consumes lex quote now s (pendingCPERPCs s) st1) as H2.
  destruct (sendAll _ s _ st1) as [st2 [[]|e]]; [|by split].
  assert (left_ st2 < fuel)%nat as Hl by (unfold left_ in *; simpl in *; lia).
  pose proof (drain_ends lex quote now s fuel "" st2 Hl) as Hd. split; [exact Hd|].
  intros k Hk. destruct (drain _ s fuel "" st2) as [st3 r] eqn:Ed. by apply (drain_mono _ _ fuel k _ _ st3 r).
Qed.

(** ** Examples *)
Definition ex_message (method : string) : reader :=
  MkReader (envelope_tokens [] [MkAttr (MkName "xmlns" "cwmp") V12] []
    (Some ([leaf (MkName V12 "ID") "7"], [])) [] (MkName V12 method) [] [] []) EOF.
(** The ACS's messages, by name. *)
Definition ex_lex (b : string) : reader := ex_message b.
Definition ex_handler : Handler CPE :=
  MkHandler "Reboot" (λ w _, (on_tracker (QueueMethodReboot "k") w, Ok "")).
Definition ex_session : Session CPE :=
  MkSession ex_builder {["Reboot" := ex_handler]} [MkRPC "TransferComplete" (Ok "<x/>")] 2
    (MkEncoderOptions "" "" "" "") [] default_ids.
Definition ex_events := [MkEvent EventBoot ""].
Definition ex_run (script : list string) :=
  Run (script_env ex_lex id 0) ex_session 10 ex_events (MkSt ex_cpe (script, []) 0).

Definition get_ok {E X} (d : X) (r : result E X) : X := match r with Ok x => x | Err _ => d end.
Definition ex_inform_env : string :=
  get_ok "" (inf ← Build (get_tree ex_cpe) (inform ex_session) 0 ex_events 2;
             body ← Render inf; encodeRequest (encOpts ex_session) "1" "Inform" body).
Definition ex_rpc_env : string := get_ok "" (encodeRequest (encOpts ex_session) "2" "TransferComplete" "<x/>").
Definition ex_requests := ["Reboot"; "Upload"].
Definition ex_served := serve ex_lex id ex_session ex_requests ex_cpe.

Lemma Run_script_witness :
  ex_run (["InformResponse"; "TransferCompleteResponse"] ++ ex_requests ++ [" "]) =
    (MkSt ex_served.1 ([], ex_inform_env :: ex_rpc_env :: "" :: get_ok [] ex_served.2) 2, Ok (Some tt)) ∧
  pendingEvents (cTracker ex_served.1) = [MkEvent EventMethodReboot "k"].
Proof.
  split; [|vm_compute; reflexivity].
  assert (inform_message 0 ex_session ex_cpe ex_events "1" ex_inform_env) as Hinf.
  { eexists _, _. split; [vm_compute; reflexivity|]. split; vm_compute; reflexivity. }
  assert (accepts_inform ex_lex ex_session "InformResponse") as Hacc by (split; vm_compute; reflexivity).
  assert (sendable_all ex_session 1 (pendingCPERPCs ex_session) [ex_rpc_env]) as Hrpc.
  { split; [|exact I]. exists "<x/>". split; vm_compute; reflexivity. }
  assert (Forall2 (acknowledges ex_lex ex_session) (pendingCPERPCs ex_session) ["TransferCompleteResponse"]) as Hack.
  { constructor; [split; vm_compute; reflexivity|constructor]. }
  assert (Forall (λ b, isSessionClose b = false) ex_requests) as Hreq by by repeat constructor.
  assert (serve ex_lex id ex_session ex_requests ex_cpe = (ex_served.1, Ok (get_ok [] ex_served.2))) as Hserve
    by (vm_compute; reflexivity).
  exact (Run_script ex_lex id 0 ex_session ex_events ex_cpe ex_served.1 0 ex_inform_env "InformResponse" " "
    [ex_rpc_env] ["TransferCompleteResponse"] ex_requests (get_ok [] ex_served.2)
    Hinf Hacc Hrpc Hack Hreq Hserve eq_refl 10 ltac:(simpl; lia)).
Defined.

Lemma Run_ends_witness :
  let st' := (Run (traced (script_env ex_lex id 0)) ex_session 4 ex_events
                (MkSt ex_cpe (["InformResponse"; " "; "x"], [], []) 0)).1 in
  silent_once_closed (trace st') ∧ length (trace st') = 2.
Proof.
  intros st'. split; [|vm_compute; reflexivity].
  exact (proj2 (proj2 (Run_ends ex_lex id 0 ex_session ex_events ex_cpe ["InformResponse"; " "; "x"] [] 0 4 ltac:(simpl; lia)))).
Defined.

Definition ex_traced (script : list string) : st * result error (option unit) :=
  Run (traced (script_env ex_lex id 0)) ex_session 10 ex_events (MkSt ex_cpe ((script, []), []) 0).


Lemma Run_answers_witness :
  let E := script_env ex_lex id 0 in
  let st' := (ex_traced ["InformResponse"; "TransferCompleteResponse"; "Upload"]).1 in
  (s_cpe st' = ex_cpe ∧ is_ok (ex_traced ["InformResponse"; "TransferCompleteResponse"; "Upload"]).2 = false) ∨
  ∃ opening ys, trace st' = opening ++ ys ∧ length opening = 2 ∧
    (∀ k x y, ys !! k = Some x → ys !! S k = Some y →
       ∃ r m i q w1 w2, reply x = Some r ∧ asks ex_session (ex_lex r) m i q ∧ answers id ex_session m i q w1 y.1 w2).
Proof.
  intros E st'. destruct (ex_traced ["InformResponse"; "TransferCompleteResponse"; "Upload"]) as [st1 r0] eqn:HR.
  assert (st' = st1) as -> by reflexivity.
  destruct (Run_answers E ex_session 10 ex_events ex_cpe (["InformResponse"; "TransferCompleteResponse"; "Upload"], []) 0 st1 r0 HR)
    as [H|(opening&ys&Ht&Hl&_&Ha&_)]; [left; exact H|right]. exists opening, ys. split_and!; assumption.
Defined.
