(* ===== verification/RunSession.v ===== *)
(** * One session from trigger to bookkeeping
    ([internal/cwmp/runsession.go]): what the tracker has to say is taken out,
    the session is run, and what it did not deliver is put back. *)
From Stdlib Require Import ZArith Lia Ascii String.
From S2P Require Import Prelude GoLib GoText CpeErr Types Node Tree TreeProps Batch EventTracker Retry Soap Inform Xml.
From S2P Require Import Decoder Handler Cpe SetParameterValues Session.

(** ** CPE-initiated RPCs of the records *)
Definition transferCompleteRPC (r : transfer_Complete) : CPEInitiatedRPC :=
  MkRPC "TransferComplete" (Ok (transfer_Render r)).
Definition duStateCompleteRPC (r : dustate_Complete) : CPEInitiatedRPC :=
  MkRPC "DUStateChangeComplete" (Ok (dustate_Render r)).
Definition adaptTransferCompletes (l : list transfer_Complete) : list CPEInitiatedRPC := transferCompleteRPC <$> l.
Definition adaptDUStateCompletes (l : list dustate_Complete) : list CPEInitiatedRPC := duStateCompleteRPC <$> l.

(** ** Putting back *)

(** TR-069 Table 7: the events a failed session does not put back. *)
Definition requeued (e : Event) : bool :=
  negb (String.eqb (EventCode e) EventConnectionRequest || String.eqb (EventCode e) EventBootstrap ||
        String.eqb (EventCode e) EventTransferComplete).
Definition requeueUndelivered (events : list Event) (t : EventTracker) : EventTracker :=
  foldl (λ t e, if requeued e then requeueEvent e t else t) t events.
Definition requeueTransferCompletes (recs : list transfer_Complete) (t : EventTracker) : EventTracker :=
  foldl (λ t r, QueueTransferComplete r t) t recs.
Definition requeueDUStateCompletes (recs : list dustate_Complete) (t : EventTracker) : EventTracker :=
  foldl (λ t r, QueueDUStateChangeComplete r t) t recs.
Definition requeue_all (events : list Event) (tcs : list transfer_Complete) (dus : list dustate_Complete)
  (t : EventTracker) : EventTracker :=
  requeueDUStateCompletes dus (requeueTransferCompletes tcs (requeueUndelivered events t)).

(** ** RunSession *)
Section runsession.
Context {W F A : Type} `{HT : HasTree W, HK : HasTracker W, HA : HasAfterSession W F, HR : HasRetry W}.

(** [useRetry], [useAfter]: whether the optional [Retry] and [AfterSession]
    were given. *)
Record RunSessionOptions := MkRunSessionOptions {
  roSession : Session W; roPaths : DeviceIDPaths; roMaxEnvelopes : Z; useRetry : bool; useAfter : bool
}.

Context (E : Env A) (run_after : F → W → W) (o : RunSessionOptions).

Definition with_cpe (f : W → W) (s : st (W := W) (A := A)) : st := MkSt (f (s_cpe s)) (s_acs s) (s_ids s).

(** The session of the options with this run's builder, records and count. *)
Definition session_for (w : W) (b : Builder) (tcs : list transfer_Complete) (dus : list dustate_Complete) : Session W :=
  setRetryCount (if useRetry o then Count (get_retry w) else 0%Z)
    (setPendingCPERPCs (adaptTransferCompletes tcs ++ adaptDUStateCompletes dus)
       (setBuilder b (roSession o))).

Definition after_run (s : st (W := W) (A := A)) : st := if useAfter o then with_cpe (Run_after run_after) s else s.

(** [None] is a session still running when the fuel is spent. *)
Definition RunSession (fuel : nat) (trigger : Trigger) (s : st) : st * result error (option unit) :=
  let '(events, t) := NextSessionEvents (get_tracker (s_cpe s)) trigger in
  match events with
  | [] => (with_cpe (put_tracker t) s,
           Err (Wrap "cwmp.RunSession" KindInvalidArgument
                  (Some (errorf "tracker produced no events for trigger %d" [Strconv.Itoa (Trigger_number trigger)]))))
  | _ =>
      let '(tcs, t) := DrainTransferCompletes t in
      let '(dus, t) := DrainDUStateChangeCompletes t in
      let s := with_cpe (put_tracker t) s in
      match NewBuilder (get_tree (s_cpe s)) (roPaths o) (SessionParameterLists t) (roMaxEnvelopes o) with
      | Err e => (with_cpe (on_tracker (requeue_all events tcs dus)) s, Err e)
      | Ok b =>
          match Run E (session_for (s_cpe s) b tcs dus) fuel events s with
          | (s, Ok None) => (s, Ok None)
          | (s, Err e) => (with_cpe (on_tracker (requeue_all events tcs dus)) (after_run s), Err e)
          | (s, Ok (Some _)) =>
              let s := with_cpe (on_tracker Acknowledge) (after_run s) in
              (if useRetry o then with_cpe (λ w, put_retry (Reset (get_retry w)) w) s else s, Ok (Some tt))
          end
      end
  end.
End runsession.

(** ** Requeueing *)
Lemma requeueUndelivered_spec events t :
  requeueUndelivered events t = set_pendingEvents (pendingEvents t ++ filter (λ e, requeued e = true) events) t.
Proof.
  revert t; induction events as [|e l IH]; intros t.
  { destruct t. unfold set_pendingEvents. cbn. by rewrite app_nil_r. }
  unfold requeueUndelivered in *. cbn [foldl]. rewrite IH, filter_cons. destruct (requeued e).
  - rewrite decide_True by done. unfold requeueEvent, set_pendingEvents. cbn. by rewrite <-(assoc_L (++)).
  - by rewrite decide_False.
Qed.
Lemma requeueTransferCompletes_spec recs t :
  requeueTransferCompletes recs t = set_pendingTransferCompletes (pendingTransferCompletes t ++ recs) t.
Proof.
  revert t; induction recs as [|r l IH]; intros t.
  { destruct t. unfold set_pendingTransferCompletes. cbn. by rewrite app_nil_r. }
  unfold requeueTransferCompletes in *. cbn [foldl]. rewrite IH.
  unfold QueueTransferComplete, set_pendingTransferCompletes. cbn. by rewrite <-(assoc_L (++)).
Qed.
Lemma requeueDUStateCompletes_spec recs t :
  requeueDUStateCompletes recs t = set_pendingDUStateCompletes (pendingDUStateCompletes t ++ recs) t.
Proof.
  revert t; induction recs as [|r l IH]; intros t.
  { destruct t. unfold set_pendingDUStateCompletes. cbn. by rewrite app_nil_r. }
  unfold requeueDUStateCompletes in *. cbn [foldl]. rewrite IH.
  unfold QueueDUStateChangeComplete, set_pendingDUStateCompletes. cbn. by rewrite <-(assoc_L (++)).
Qed.

Lemma requeue_all_spec events tcs dus t :
  requeue_all events tcs dus t =
    MkEventTracker (bootstrapDone t) (bootstrapPending t)
      (pendingEvents t ++ filter (λ e, requeued e = true) events) (pendingValueChanges t)
      (pendingTransferCompletes t ++ tcs) (pendingDUStateCompletes t ++ dus) (baseParameterLists t).
Proof.
  unfold requeue_all. rewrite requeueDUStateCompletes_spec, requeueTransferCompletes_spec, requeueUndelivered_spec.
  done.
Qed.

(** ** What happens to the tracker while a session runs *)

(** Nothing the CPE has to say is taken back. *)
Definition tracker_grows (t t' : EventTracker) : Prop :=
  pendingEvents t `prefix_of` pendingEvents t' ∧
  pendingTransferCompletes t `prefix_of` pendingTransferCompletes t' ∧
  pendingDUStateCompletes t `prefix_of` pendingDUStateCompletes t' ∧
  pendingValueChanges t ⊆ pendingValueChanges t' ∧
  (bootstrapDone t' = true → bootstrapDone t = true).

#[export] Instance tracker_grows_preorder : PreOrder tracker_grows.
Proof.
  split.
  - intros t. by split_and!.
  - intros t1 t2 t3 (?&?&?&?&?) (?&?&?&?&?). split_and!; [by etrans..|]. auto.
Qed.

#[export] Instance tracker_grows_state {W} `{HasTracker W} :
  PreOrder (λ w w' : W, tracker_grows (get_tracker w) (get_tracker w')).
Proof. split; [by intros ?|intros ???; apply tracker_grows_preorder]. Qed.

Lemma RecordValueChange_grows p t : tracker_grows t (RecordValueChange p t).
Proof.
  unfold RecordValueChange. repeat case_match; [done..|]. split_and!; try done. cbn. set_solver.
Qed.
Lemma requeueEvent_grows e t : tracker_grows t (requeueEvent e t).
Proof. split_and!; try done. cbn. by apply prefix_app_r. Qed.

(** A relation the handlers preserve holds across a session. *)
Section related.
Context {W A : Type} `{HT : HasTree W} (E : Env A) (s : Session W) (R : W → W → Prop) `{!PreOrder R}.
Context (Hh : ∀ m h w r, handlers s !! m = Some h → R w (Handle h w r).1).
#[local] Existing Instances M_ret M_bind.

Definition respects {T} (m : M (W := W) (A := A) T) : Prop := ∀ st, R (s_cpe st) (s_cpe (m st).1).

Lemma respects_bind {T U} (m : M T) (f : T → M U) : respects m → (∀ x, respects (f x)) → respects (m ≫= f).
Proof using PreOrder0.
  intros Hm Hf st. unfold mbind, M_bind. specialize (Hm st). destruct (m st) as [st1 [x|e]]; [|done].
  specialize (Hf x st1). simpl in *. by etrans.
Qed.
Lemma respects_lift {T} (r : result error T) : respects (lift r).
Proof using PreOrder0. intros st. by simpl. Qed.
Lemma respects_ret {T} (x : T) : respects (mret x).
Proof using PreOrder0. intros st. by simpl. Qed.
Lemma respects_on_cpe {T} (f : W → W * result error T) : (∀ w, R w (f w).1) → respects (on_cpe f).
Proof using Type. intros Hf st. unfold on_cpe. specialize (Hf (s_cpe st)). by destruct (f (s_cpe st)). Qed.
Lemma respects_next_id : respects (next_id s).
Proof using PreOrder0. intros st. by simpl. Qed.
Lemma respects_send body : respects (send E body).
Proof using PreOrder0. intros st. unfold send. by destruct (Send E _ body) as [a [r|e]]. Qed.

Lemma respects_message quote r w : R w (handleACSMessage quote s r w).1.
Proof using PreOrder0 Hh.
  unfold handleACSMessage. destruct (ReadEnvelope _) as [[env d]|e]; [|done]. destruct (IsFault env); [done|].
  destruct (MethodTokens d) as [mt|]; [|done]. unfold dispatch.
  destruct (handlers s !! eMethod env) as [h|] eqn:Eh; [|done].
  pose proof (Hh _ h w (as_reader mt) Eh) as H. by destruct (Handle h w _) as [w' [b|[f|e]]].
Qed.

Create HintDb respects.
#[local] Hint Resolve respects_bind respects_lift respects_ret respects_next_id respects_send : respects.

Lemma respects_sendInform events : respects (sendInform E s events).
Proof using PreOrder0.
  unfold sendInform. apply respects_bind; [by apply respects_on_cpe|intros inf].
  repeat (apply respects_bind; [eauto with respects|intros ?]). case_match; eauto with respects.
Qed.
Lemma respects_sendAll rpcs : respects (sendAll E s rpcs).
Proof using PreOrder0.
  induction rpcs as [|rpc rpcs IH]; [eauto with respects|]. cbn [sendAll].
  apply respects_bind; [|done]. unfold sendCPEInitiated.
  repeat (apply respects_bind; [eauto with respects|intros ?]). case_match; eauto with respects.
Qed.
Lemma respects_drain fuel out : respects (drain E s fuel out).
Proof using PreOrder0 Hh.
  revert out; induction fuel as [|fuel IH]; intros out; [eauto with respects|]. cbn [drain].
  apply respects_bind; [eauto with respects|intros resp]. case_match; [eauto with respects|].
  apply respects_bind; [|done]. apply respects_on_cpe. intros w. apply respects_message.
Qed.

Lemma Run_respects fuel events st : R (s_cpe st) (s_cpe (Run E s fuel events st).1).
Proof using PreOrder0 Hh.
  unfold Run. etrans; [|apply respects_bind]; [done|apply respects_sendInform|intros _].
  apply respects_bind; [apply respects_sendAll|intros _; apply respects_drain].
Qed.
End related.

(** The tracker is kept apart from the retry count and the tree. *)
Class TrackerApart (W : Type) `{HasTree W, HasTracker W, HasRetry W} : Prop := {
  tracker_put_retry : ∀ r (w : W), get_tracker (put_retry r w) = get_tracker w;
  retry_put_tracker : ∀ t (w : W), get_retry (put_tracker t w) = get_retry w;
  tree_put_tracker : ∀ t (w : W), get_tree (put_tracker t w) = get_tree w
}.
#[export] Instance CPE_tracker_apart : TrackerApart CPE.
Proof. done. Qed.

(** What an Inform about these events must say of a CPE whose tree, tracker
    and retry count are these: the events, the identity read off the tree, and
    each parameter once, with its value in the tree: for "4 VALUE CHANGE" the
    paths that changed, where any did, and for every other event the list the
    tracker was set up with. *)
Definition informs (tree : Tree) (t : EventTracker) (paths : DeviceIDPaths) (clock count : Z) (events : list Event)
  (inf : Inform) : Prop :=
  iEvents inf = events ∧ iRetryCount inf = count ∧ iCurrentTime inf = clock ∧
  Forall (λ field : DeviceID → string, ∃ v, Get tree (field paths) = Ok v ∧ Raw v = field (iDeviceID inf))
    [Manufacturer; OUI; ProductClass; SerialNumber] ∧
  NoDup (pName <$> iParameters inf) ∧
  (∀ p, p ∈ pName <$> iParameters inf ↔ ∃ e, e ∈ events ∧
        if bool_decide (EventCode e = "4 VALUE CHANGE" ∧ pendingValueChanges t ≠ [])
        then p ∈ pendingValueChanges t
        else ∃ l, baseParameterLists t !! EventCode e = Some l ∧ p ∈ l) ∧
  (∀ p, p ∈ iParameters inf → Get tree (pName p) = Ok (pValue p)).

Lemma NewBuilder_ok tree paths lists n b :
  NewBuilder tree paths lists n = Ok b → b = MkBuilder paths lists n.
Proof.
  unfold NewBuilder. intros H. repeat (apply result_bind_ok in H as (?&_&H)). by injection H.
Qed.

Lemma SessionParameterLists_lookup t code p :
  (∃ l, SessionParameterLists t !! code = Some l ∧ p ∈ l) ↔
  if bool_decide (code = "4 VALUE CHANGE" ∧ pendingValueChanges t ≠ [])
  then p ∈ pendingValueChanges t else ∃ l, baseParameterLists t !! code = Some l ∧ p ∈ l.
Proof.
  unfold SessionParameterLists, EventValueChange. destruct (pendingValueChanges t) as [|c l] eqn:El; cbn [length Nat.ltb Nat.leb].
  { rewrite bool_decide_false by tauto. done. }
  destruct (decide (code = "4 VALUE CHANGE")) as [->|Hne].
  - rewrite bool_decide_true by done. rewrite lookup_insert_eq. split; [intros (?&[= <-]&?)|]; eauto.
  - rewrite bool_decide_false by tauto. by rewrite lookup_insert_ne.
Qed.

Lemma Build_informs tree t t1 paths n b clock count events inf :
  NewBuilder tree paths (SessionParameterLists t1) n = Ok b →
  pendingValueChanges t1 = pendingValueChanges t → baseParameterLists t1 = baseParameterLists t →
  Build tree b clock events count = Ok inf → informs tree t paths clock count events inf.
Proof.
  intros ->%NewBuilder_ok Hv Hb H. pose proof (Build_carries _ _ _ _ _ _ H) as (He&_&Hc&_&Hid&HN&Hp&Hval).
  assert (iCurrentTime inf = clock) as Hclock.
  { unfold Build in H. destruct events; [done|]. apply result_bind_ok in H as (d&_&H).
    by apply result_bind_ok in H as (ps&_&[= <-]). }
  split_and!; try done. intros p. rewrite Hp. cbn [parameterLists]. rewrite <-Hv, <-Hb.
  setoid_rewrite <-SessionParameterLists_lookup. naive_solver.
Qed.

Lemma announces_events t trigger :
  NoDup (NextSessionEvents t trigger).1 ∧
  (∀ e, e ∈ (NextSessionEvents t trigger).1 ↔ announces t trigger e) ∧
  (NextSessionEvents t trigger).2 =
    set_pendingEvents [] (set_bootstrap (bootstrapDone t) (bootstrapPending t || negb (bootstrapDone t)) t).
Proof.
  rewrite NextSessionEvents_unfold. destruct (dedupeEvents_spec (raw_events t trigger)) as (HN&He&_).
  split_and!; [done| |done]. intros e. cbn. by rewrite He, elem_of_raw_events.
Qed.

Lemma prefix_in {X} (l1 l2 : list X) x : l1 `prefix_of` l2 → x ∈ l1 → x ∈ l2.
Proof. intros [k ->] H. apply elem_of_app. by left. Qed.

(** C2. A session that fails loses nothing. Whatever went wrong and whenever,
    every event it announced and TR-069 lets the CPE retry, every
    TransferComplete and DUStateChangeComplete record, every changed path and
    the pending "0 BOOTSTRAP" are still there to be announced, given only that
    the handlers and the deferred work of the session take nothing back. *)
Theorem RunSession_keeps {W F A} `{HT : HasTree W, HK : HasTracker W, HA : HasAfterSession W F, HR : HasRetry W}
  (E : Env A) (run_after : F → W → W) (o : RunSessionOptions) (fuel : nat) (trigger : Trigger) (s s' : st)
  (e : error)
  (Hh : ∀ m h w r, handlers (roSession o) !! m = Some h → tracker_grows (get_tracker w) (get_tracker (Handle h w r).1))
  (Hafter : ∀ w, tracker_grows (get_tracker w) (get_tracker (Run_after run_after w)))
  (H : RunSession E run_after o fuel trigger s = (s', Err e)) :
  let t := get_tracker (s_cpe s) in
  let t' := get_tracker (s_cpe s') in
  (∀ ev, announces t trigger ev → requeued ev = true → ev ∈ pendingEvents t') ∧
  (∀ r, r ∈ pendingTransferCompletes t → r ∈ pendingTransferCompletes t') ∧
  (∀ r, r ∈ pendingDUStateCompletes t → r ∈ pendingDUStateCompletes t') ∧
  pendingValueChanges t ⊆ pendingValueChanges t' ∧
  (bootstrapDone t = false → bootstrapDone t' = false).
Proof.
  cbv zeta. unfold RunSession in H. destruct (announces_events (get_tracker (s_cpe s)) trigger) as (_&Hev&Ht).
  destruct (NextSessionEvents (get_tracker (s_cpe s)) trigger) as [events t1]. cbn [fst snd] in *. subst t1.
  set (t := get_tracker (s_cpe s)) in *.
  set (bp := bootstrapPending t || negb (bootstrapDone t)) in *.
  (* put back after a state whose tracker has grown from the drained one *)
  assert (∀ w, tracker_grows (MkEventTracker (bootstrapDone t) bp [] (pendingValueChanges t) [] [] (baseParameterLists t))
                 (get_tracker w) →
    let t' := get_tracker (on_tracker (requeue_all events (pendingTransferCompletes t) (pendingDUStateCompletes t)) w) in
    (∀ ev, announces t trigger ev → requeued ev = true → ev ∈ pendingEvents t') ∧
    (∀ r, r ∈ pendingTransferCompletes t → r ∈ pendingTransferCompletes t') ∧
    (∀ r, r ∈ pendingDUStateCompletes t → r ∈ pendingDUStateCompletes t') ∧
    pendingValueChanges t ⊆ pendingValueChanges t' ∧
    (bootstrapDone t = false → bootstrapDone t' = false)) as Hput.
  { intros w (_&_&_&Hv&Hb). cbn in Hv, Hb |- *. unfold on_tracker. rewrite get_put_tracker, requeue_all_spec. cbn.
    split_and!; [|intros; apply elem_of_app; by right..|done|].
    - intros ev Ha Hr. apply elem_of_app. right. apply list_elem_of_filter. split; [done|]. by apply Hev.
    - intros Hd. destruct (bootstrapDone (get_tracker w)); [|done]. rewrite Hb in Hd; done. }
  destruct events as [|ev0 events]; [|].
  { injection H as <- _. unfold with_cpe. cbn [s_cpe]. rewrite get_put_tracker. cbn. split_and!; try done.
    intros ev Ha _. apply Hev in Ha. by apply not_elem_of_nil in Ha. }
  set (evs := ev0 :: events) in *. unfold DrainTransferCompletes, DrainDUStateChangeCompletes in H.
  cbn -[NewBuilder Run] in H. fold t in H.
  destruct (NewBuilder _ _ _ _) as [b|e1].
  2: { injection H as <- _. unfold with_cpe. cbn [s_cpe]. apply Hput. rewrite get_put_tracker. reflexivity. }
  match type of H with context [Run E ?ss fuel evs ?st0] =>
    pose proof (Run_respects E ss (λ w w', tracker_grows (get_tracker w) (get_tracker w')) Hh fuel evs st0) as HR0;
    destruct (Run E ss fuel evs st0) as [s1 [[[]|]|e1]] end; [done|done|].
  injection H as <- _. unfold with_cpe at 1 in HR0. cbn [s_cpe fst] in HR0. rewrite get_put_tracker in HR0.
  unfold with_cpe at 1. cbn [s_cpe]. apply Hput. etrans; [exact HR0|].
  unfold after_run. destruct (useAfter o); [|done]. apply Hafter.
Qed.

Lemma Acknowledge_spec t :
  pendingValueChanges (Acknowledge t) = [] ∧ pendingEvents (Acknowledge t) = pendingEvents t ∧
  bootstrapDone (Acknowledge t) = (bootstrapDone t || bootstrapPending t) ∧ bootstrapPending (Acknowledge t) = false.
Proof. unfold Acknowledge. by destruct t as [[] [] ? ? ? ? ?]. Qed.

(** C7. A session that succeeds has told the ACS everything. Over any
    transport, the first message was the Inform under the next id, and it was
    accepted: it announced exactly the events the tracker owed, each once, the
    device's identity, the retry count, and each parameter its events call for
    once, with its value: the changed paths for "4 VALUE CHANGE", where there
    are any, and the tracker's lists for the others. Then every
    TransferComplete and every DUStateChangeComplete record that was waiting
    was sent, in order, under the ids that follow, and acknowledged. The
    tracker forgets the changed paths and the retry count is zero again. *)
Theorem RunSession_delivers {W F B} `{HT : HasTree W, HK : HasTracker W, HA : HasAfterSession W F, HR : HasRetry W,
    !TrackerApart W}
  (E0 : Env B) (run_after : F → W → W) (o : RunSessionOptions) (fuel : nat) (trigger : Trigger)
  (w : W) (b : B) (n : nat) (s' : st)
  (H : RunSession (traced E0) run_after o fuel trigger (MkSt w (b, []) n) = (s', Ok (Some tt))) :
  let t := get_tracker w in
  let s := roSession o in
  ∃ events inf body x0 xs rest,
    NoDup events ∧ (∀ e, e ∈ events ↔ announces t trigger e) ∧
    informs (get_tree w) t (roPaths o) (now E0) (if useRetry o then Count (get_retry w) else 0%Z) events inf ∧
    Render inf = Ok body ∧
    trace s' = x0 :: xs ++ rest ∧
    encodeRequest (encOpts s) (nextID s n) "Inform" body = Ok x0.1 ∧
    (∃ r, reply x0 = Some r ∧ accepts_inform (lex E0) s r) ∧
    acked_all E0 s (S n)
      (((λ r, MkRPC "TransferComplete" (Ok (transfer_Render r))) <$> pendingTransferCompletes t)
         ++ ((λ r, MkRPC "DUStateChangeComplete" (Ok (dustate_Render r))) <$> pendingDUStateCompletes t)) xs ∧
    pendingValueChanges (get_tracker (s_cpe s')) = [] ∧
    (useRetry o = true → Count (get_retry (s_cpe s')) = 0%Z).
Proof.
  cbv zeta. unfold RunSession in H. destruct (announces_events (get_tracker w) trigger) as (HN&Hev&Ht).
  cbn [s_cpe] in H. destruct (NextSessionEvents (get_tracker w) trigger) as [events t1]. cbn [fst snd] in *. subst t1.
  destruct events as [|ev0 events]; [done|]. set (evs := ev0 :: events) in *.
  unfold DrainTransferCompletes, DrainDUStateChangeCompletes in H. cbn -[NewBuilder Run] in H.
  unfold with_cpe at 1 2 in H. cbn [s_cpe s_acs s_ids] in H.
  destruct (NewBuilder _ _ _ _) as [bl|e1] eqn:EB; [|done].
  match type of H with context [Run _ ?ss fuel evs ?st0] => set (ss0 := ss) in *; set (st1 := st0) in * end.
  destruct (Run _ ss0 fuel evs st1) as [s1 [[[]|]|e1]] eqn:ER; [|done..].
  destruct (Run_trace_ok E0 ss0 fuel evs (s_cpe st1) b n s1 ER) as (x0&xs&ys&Htr&[(inf&body&HB&HR0&HE) Hacc]&Hx&_).
  subst st1. unfold with_cpe in EB, HB. cbn [s_cpe] in EB, HB. rewrite tree_put_tracker in EB, HB.
  exists evs, inf, body, x0, xs, ys. injection H as <-.
  split_and!; try done.
  - eapply Build_informs; [exact EB|done|done|]. unfold ss0, session_for in HB. cbn in HB.
    by rewrite retry_put_tracker in HB.
  - by destruct (useRetry o), (useAfter o) eqn:Ha; unfold with_cpe, after_run, trace in *; rewrite ?Ha.
  - unfold with_cpe. destruct (useRetry o); cbn [s_cpe];
      rewrite ?tracker_put_retry; unfold on_tracker; rewrite get_put_tracker; by apply Acknowledge_spec.
  - intros ->. unfold with_cpe. cbn [s_cpe]. by rewrite get_put_retry.
Qed.

(** A failed connection-request session is never repeated: its event is not
    put back, so when nothing else is pending the retry the policy arms finds
    no event to announce and fails at once, without a word to the ACS, whatever
    else (changed paths, DUStateChangeComplete records) waits. *)
Theorem retry_without_events {W F A} `{HT : HasTree W, HK : HasTracker W, HA : HasAfterSession W F, HR : HasRetry W}
  (E : Env A) (run_after : F → W → W) (o : RunSessionOptions) (fuel : nat) (s : st (W := W) (A := A))
  (Hb : bootstrapDone (get_tracker (s_cpe s)) = true)
  (He : pendingEvents (get_tracker (s_cpe s)) = [])
  (Ht : pendingTransferCompletes (get_tracker (s_cpe s)) = []) :
  requeued (MkEvent EventConnectionRequest "") = false ∧
  (let '(s', r) := RunSession E run_after o fuel TriggerRetry s in
   is_ok r = false ∧ s_acs s' = s_acs s ∧ s_ids s' = s_ids s).
Proof.
  split; [done|]. unfold RunSession. rewrite NextSessionEvents_unfold. unfold raw_events, HasPendingTransferCompletes.
  by rewrite Hb, He, Ht.
Qed.

(** The deferred writes of a CPE only record value changes. *)
Lemma valueChange_fold_grows rs (w : CPE) :
  tracker_grows (get_tracker w) (get_tracker (foldl (call_valueChange cpe_valueChange) w rs)).
Proof.
  revert w; induction rs as [|r rs IH]; intros w; [reflexivity|]. cbn [foldl]. etrans; [|apply IH].
  unfold call_valueChange. repeat case_match; try reflexivity.
  unfold cpe_valueChange. case_match; apply RecordValueChange_grows.
Qed.
Lemma onSet_fold_none (h : spvHandler (W := CPE)) rs w : onSet h = None → foldl (call_onSet h) w rs = w.
Proof.
  intros Hon. revert w; induction rs as [|r rs IH]; intros w; [done|]. cbn [foldl]. rewrite IH.
  unfold call_onSet. by rewrite Hon.
Qed.
Lemma apply_deferred_grows (h : spvHandler (W := CPE)) l (w : CPE) :
  onSet h = None → valueChange h = Some cpe_valueChange →
  tracker_grows (get_tracker w) (get_tracker (apply_deferred h l w)).
Proof.
  intros Hon Hvc. unfold apply_deferred, apply.
  destruct (SetBatch_cases (get_tree w) l) as [(_&rs&->&_)|(_&e0&->&_)]; [|reflexivity]. rewrite Hvc. cbn [fst].
  rewrite onSet_fold_none by done. etrans; [|apply valueChange_fold_grows]. reflexivity.
Qed.
Lemma Run_after_grows (h : spvHandler (W := CPE)) :
  onSet h = None → valueChange h = Some cpe_valueChange →
  ∀ w, tracker_grows (get_tracker w) (get_tracker (Run_after (apply_deferred h) w)).
Proof.
  intros Hon Hvc w. unfold Run_after. generalize (queue (get_after w)). intros l.
  assert (tracker_grows (get_tracker w) (get_tracker (put_after (MkAfterSession []) w))) as H0 by reflexivity.
  revert H0. generalize (put_after (MkAfterSession []) w). induction l as [|x l IH]; intros w0 H0; [done|].
  cbn [foldl]. apply IH. etrans; [exact H0|]. by apply apply_deferred_grows.
Qed.

(** ** Examples *)
Definition ex_options : RunSessionOptions (W := CPE) :=
  MkRunSessionOptions
    (MkSession ex_builder {["Reboot" := ex_handler]} [] 0 (MkEncoderOptions "" "" "" "") [] default_ids)
    ex_ids 0 true true.
(** A booted CPE with a transfer to report and one failed session behind it. *)
Definition ex_record := MkTransferComplete "k" 0 "" 0 60.
Definition ex_busy : CPE :=
  put_retry (MkRetryState 1) (put_tracker (QueueTransferComplete ex_record (set_bootstrap true false (NewEventTracker ∅))) ex_cpe).
Definition ex_st (script : list string) : st (W := CPE) (A := Script * list exchange) :=
  MkSt ex_busy ((script, []), []) 0.
Definition ex_env := traced (script_env ex_lex id 0).
Definition ex_go (script : list string) :=
  RunSession ex_env (apply_deferred ex_spv) ex_options 10 TriggerPeriodic (ex_st script).

Lemma Reboot_grows m h (w : CPE) r :
  handlers (roSession ex_options) !! m = Some h → tracker_grows (get_tracker w) (get_tracker (Handle h w r).1).
Proof.
  cbn [roSession ex_options handlers]. intros [_ <-]%lookup_singleton_Some. cbn [Handle fst ex_handler].
  unfold on_tracker. rewrite get_put_tracker. apply requeueEvent_grows.
Qed.

Lemma RunSession_keeps_witness :
  let s' := (ex_go ["InformResponse"]).1 in
  is_ok (ex_go ["InformResponse"]).2 = false ∧
  MkEvent EventPeriodic "" ∈ pendingEvents (get_tracker (s_cpe s')) ∧
  ex_record ∈ pendingTransferCompletes (get_tracker (s_cpe s')).
Proof.
  intros s'. split; [vm_compute; reflexivity|].
  destruct (ex_go ["InformResponse"]) as [s1 r] eqn:Eg.
  assert (∃ e, r = Err e) as [e ->].
  { assert (is_ok (ex_go ["InformResponse"]).2 = false) as Hr by (vm_compute; reflexivity).
    rewrite Eg in Hr. destruct r; [discriminate Hr|]. by eexists. }
  destruct (RunSession_keeps ex_env (apply_deferred ex_spv) ex_options 10 TriggerPeriodic
    (ex_st ["InformResponse"]) s1 e Reboot_grows (Run_after_grows ex_spv eq_refl eq_refl) Eg) as (Hev&Htc&_).
  split.
  - apply Hev; [|reflexivity]. left. reflexivity.
  - apply Htc. left.
Defined.

Lemma RunSession_delivers_witness :
  let script := ["InformResponse"; "TransferCompleteResponse"; ""] in
  ∃ s' inf x0 x rest, ex_go script = (s', Ok (Some tt)) ∧ trace s' = x0 :: x :: rest ∧
    iRetryCount inf = 1%Z ∧ (∃ body, Render inf = Ok body ∧
      encodeRequest (encOpts (roSession ex_options)) "1" "Inform" body = Ok x0.1) ∧
    pendingTransferCompletes (get_tracker (s_cpe s')) = [] ∧ Count (get_retry (s_cpe s')) = 0%Z.
Proof.
  intros script. destruct (ex_go script) as [s' r] eqn:Eg.
  assert (r = Ok (Some tt)) as -> by (change r with (s', r).2; rewrite <-Eg; vm_compute; reflexivity).
  destruct (RunSession_delivers (script_env ex_lex id 0) (apply_deferred ex_spv) ex_options 10 TriggerPeriodic
    ex_busy (script, []) 0 s' Eg) as (events&inf&body&x0&xs&rest&_&_&(_&Hc&_)&Hb&Htr&He&_&HF&_&Hr).
  change (_ ++ _) with [transferCompleteRPC ex_record] in HF.
  destruct xs as [|x [|y xs]]; cbn [acked_all] in HF; [destruct HF| |destruct HF as [_ []]].
  exists s', inf, x0, x, rest. split_and!; [reflexivity|exact Htr|exact Hc|exists body; split; [exact Hb|exact He]| |exact (Hr eq_refl)].
  change s' with (s', Ok (E := error) (Some tt)).1. rewrite <-Eg. vm_compute. reflexivity.
Defined.

Lemma retry_without_events_witness :
  let w := put_tracker (RecordValueChange "S" (set_bootstrap true false (NewEventTracker ∅))) ex_cpe in
  let '(s', r) := RunSession ex_env (apply_deferred ex_spv) ex_options 10 TriggerRetry (MkSt w (([], []), []) 0) in
  is_ok r = false ∧ s_acs s' = (([], []), []) ∧ s_ids s' = 0.
Proof.
  exact (proj2 (retry_without_events ex_env (apply_deferred ex_spv) ex_options 10
    (MkSt (put_tracker (RecordValueChange "S" (set_bootstrap true false (NewEventTracker ∅))) ex_cpe) (([], []), []) 0)
    eq_refl eq_refl eq_refl)).
Defined.
