(* ===== verification/SessionRunner.v ===== *)
(** * The per-CPE session runner ([cmd/cpe-sim/main.go], [sessionRunner]).

    Requests come from many goroutines: timers, the connection-request
    listener, observers of the tree. What each does under the runner's mutex
    is one step here; steps of different goroutines interleave in any order.
    A session itself ([cwmp.RunSession]) runs outside the mutex and is the
    stretch between two steps. *)
From Stdlib Require Import ZArith Lia Ascii String.
From S2P Require Import Prelude EventTracker Retry.

Definition triggerPriority (t : Trigger) : Z :=
  match t with
  | TriggerStartup => 5
  | TriggerConnectionRequest => 4
  | TriggerTransferComplete => 3
  | TriggerRetry => 2
  | TriggerPeriodic => 1
  | _ => 0
  end.

(** [deferred] and [hasDeferred] are one option. [cancelRetry] is the timer its
    closure would cancel. *)
Record sessionRunner := MkRunner {
  busy : bool; offline : bool; deferred : option Trigger; cancelRetry : option nat
}.

(** Where a goroutine stands. *)
Inductive pc :=
| AtRequest (t : Trigger)  (* in request, before the lock *)
| AtRunOne (t : Trigger)   (* about to runOne *)
| AtCancel (t : Trigger)   (* in runOne, before cancelPendingRetry's lock *)
| InSession (t : Trigger)  (* in RunSession *)
| AtArm                    (* the session failed and was counted *)
| AtLoop                   (* runOne returned; before the lock of the loop *)
| AtFired                  (* a retry timer's callback, before its lock *)
| Returned.
#[export] Instance pc_eq_dec : EqDecision pc.
Proof. solve_decision. Defined.

(** The runner, the tracker and the retry count its code touches, the armed
    retry timers, the goroutines. *)
Record world := MkWorld {
  run : sessionRunner; tracker : EventTracker; retry : RetryState;
  timers : gset nat; threads : gmap nat pc
}.

Definition loser (t d : Trigger) : Trigger := if (triggerPriority d <? triggerPriority t)%Z then d else t.
Definition winner (t d : Trigger) : Trigger := if (triggerPriority d <? triggerPriority t)%Z then t else d.

(** The one-slot latch. *)
Definition latch (t : Trigger) (deferred : option Trigger) (tk : EventTracker) : option Trigger * EventTracker :=
  match deferred with
  | None => (Some t, tk)
  | Some d => (Some (winner t d), if bool_decide (loser t d = TriggerPeriodic) then QueuePeriodic tk else tk)
  end.

(** The first critical section of [request]. *)
Definition request_lock (t : Trigger) (w : world) : world * pc :=
  let r := run w in
  if busy r || offline r then
    let '(d, tk) := latch t (deferred r) (tracker w) in
    (MkWorld (MkRunner (busy r) (offline r) d (cancelRetry r)) tk (retry w) (timers w) (threads w), Returned)
  else (MkWorld (MkRunner true (offline r) (deferred r) (cancelRetry r)) (tracker w) (retry w) (timers w) (threads w),
        AtRunOne t).

(** The critical section of its loop. *)
Definition loop_lock (w : world) : world * pc :=
  let r := run w in
  match deferred r with
  | Some d =>
      if offline r
      then (MkWorld (MkRunner false (offline r) (Some d) (cancelRetry r)) (tracker w) (retry w) (timers w) (threads w), Returned)
      else (MkWorld (MkRunner (busy r) (offline r) None (cancelRetry r)) (tracker w) (retry w) (timers w) (threads w), AtRunOne d)
  | None => (MkWorld (MkRunner false (offline r) None (cancelRetry r)) (tracker w) (retry w) (timers w) (threads w), Returned)
  end.

(** [runOne] up to the session: a retry with nothing left to redeliver is
    skipped ([Count] takes a lock of its own); otherwise the pending timer is
    cancelled. *)
Definition cancelPendingRetry (w : world) : world :=
  let r := run w in
  match cancelRetry r with
  | Some id => MkWorld (MkRunner (busy r) (offline r) (deferred r) None) (tracker w) (retry w) (timers w ∖ {[id]}) (threads w)
  | None => w
  end.
Definition runOne_start (t : Trigger) (w : world) : world * pc :=
  if bool_decide (t = TriggerRetry) && (Count (retry w) =? 0)%Z then (w, AtLoop)
  else (w, AtCancel t).

(** After a failure: [ScheduleOnce], a fresh timer. *)
Definition arm (w : world) : world * pc :=
  let r := run w in
  let id := fresh (timers w) in
  (MkWorld (MkRunner (busy r) (offline r) (deferred r) (Some id)) (tracker w) (retry w) ({[id]} ∪ timers w) (threads w), AtLoop).

(** The callback of a retry timer, once it has fired. *)
Definition fired_lock (w : world) : world * pc :=
  let r := run w in
  (MkWorld (MkRunner (busy r) (offline r) (deferred r) None) (tracker w) (retry w) (timers w) (threads w),
   AtRequest TriggerRetry).

Definition set_offline (b : bool) (w : world) : world :=
  let r := run w in
  MkWorld (MkRunner (busy r) b (deferred r) (cancelRetry r)) (tracker w) (retry w) (timers w) (threads w).
Definition set_env (tk : EventTracker) (rs : RetryState) (w : world) : world :=
  MkWorld (run w) tk rs (timers w) (threads w).
Definition put_thread (i : nat) (p : pc) (w : world) : world :=
  MkWorld (run w) (tracker w) (retry w) (timers w) (<[i := p]> (threads w)).
Definition remove_timer (id : nat) (w : world) : world :=
  MkWorld (run w) (tracker w) (retry w) (timers w ∖ {[id]}) (threads w).

(** One step of goroutine [i]. *)
Definition advance (i : nat) (r : world * pc) : world := put_thread i r.2 r.1.

Inductive label := Request | Lock | LoopLock | RunOne | Cancel | Session | Arm | Fire | Fired | Offline | Online | Other.

Inductive step : label → world → world → Prop :=
| step_request w i t : threads w !! i = None → step Request w (put_thread i (AtRequest t) w)
| step_lock w i t : threads w !! i = Some (AtRequest t) → step Lock w (advance i (request_lock t w))
| step_run_one w i t : threads w !! i = Some (AtRunOne t) → step RunOne w (advance i (runOne_start t w))
| step_cancel w i t : threads w !! i = Some (AtCancel t) →
    step Cancel w (advance i (cancelPendingRetry w, InSession t))
(* the session succeeds, and may leave the tracker in any state *)
| step_ok w i t tk : threads w !! i = Some (InSession t) →
    step Session w (put_thread i AtLoop (set_env tk (Reset (retry w)) w))
(* it fails, and is counted *)
| step_failed w i t tk rng : threads w !! i = Some (InSession t) →
    step Session w (put_thread i AtArm (set_env tk (OnFailure rng (retry w)).2 w))
| step_arm w i : threads w !! i = Some AtArm → step Arm w (advance i (arm w))
| step_loop w i : threads w !! i = Some AtLoop → step LoopLock w (advance i (loop_lock w))
| step_fire w i id : threads w !! i = None → id ∈ timers w → step Fire w (put_thread i AtFired (remove_timer id w))
| step_fired w i : threads w !! i = Some AtFired → step Fired w (advance i (fired_lock w))
| step_offline w : step Offline w (set_offline true w)
| step_online w : step Online w (set_offline false w)
(* anything else that touches the tracker or resets the retry count *)
| step_other w tk rs : (rs = retry w ∨ rs = Reset (retry w)) → step Other w (set_env tk rs w).

Definition initial (tk : EventTracker) : world :=
  MkWorld (MkRunner false false None None) tk (MkRetryState 0) ∅ ∅.

(** Reachable by steps whose labels satisfy [P]. *)
Inductive reachable (P : label → Prop) : world → Prop :=
| reach_init tk : reachable P (initial tk)
| reach_step w w' l : reachable P w → P l → step l w w' → reachable P w'.
Definition any (_ : label) : Prop := True.

(** ** One session at a time *)
Definition owner (p : pc) : bool :=
  match p with AtRunOne _ | AtCancel _ | InSession _ | AtArm | AtLoop => true | _ => false end.

(** Exactly the owner goroutine holds [busy]. *)
Definition exclusive (w : world) : Prop :=
  (∀ i j p q, threads w !! i = Some p → threads w !! j = Some q → owner p = true → owner q = true → i = j) ∧
  (busy (run w) = true ↔ ∃ i p, threads w !! i = Some p ∧ owner p = true).

Lemma exclusive_keep w w' i p p' :
  exclusive w → threads w !! i = Some p → threads w' = <[i := p']> (threads w) →
  busy (run w') = busy (run w) → owner p = owner p' → exclusive w'.
Proof.
  intros [H1 H2] Hi Ht Hb Ho. unfold exclusive. rewrite Ht, Hb. split.
  - intros a b q r. rewrite !lookup_insert_Some. intros [[<- <-]|[Ha Hq]] [[<- <-]|[Hb' Hr]] Oq Or; try done.
    + apply (H1 i b p r); congruence.
    + apply (H1 a i q p); congruence.
    + by apply (H1 a b q r).
  - rewrite H2. split.
    + intros (a&q&Ha&Hq). destruct (decide (a = i)) as [->|Hne].
      * exists i, p'. rewrite lookup_insert_eq. split; [done|]. congruence.
      * exists a, q. by rewrite lookup_insert_ne.
    + intros (a&q&Ha&Hq). apply lookup_insert_Some in Ha as [[<- <-]|[Hne Ha]]; [exists i, p|exists a, q]; split; congruence.
Qed.

Lemma exclusive_spawn w w' i p :
  exclusive w → threads w !! i = None → threads w' = <[i := p]> (threads w) →
  busy (run w') = busy (run w) → owner p = false → exclusive w'.
Proof.
  intros [H1 H2] Hi Ht Hb Ho. unfold exclusive. rewrite Ht, Hb. split.
  - intros a b q r. rewrite !lookup_insert_Some. intros [[<- <-]|[Ha Hq]] [[<- <-]|[Hb' Hr]] Oq Or; try congruence.
    by apply (H1 a b q r).
  - rewrite H2. split.
    + intros (a&q&Ha&Hq). exists a, q. rewrite lookup_insert_ne by congruence. done.
    + intros (a&q&Ha&Hq). apply lookup_insert_Some in Ha as [[<- <-]|[Hne Ha]]; [congruence|exists a, q; done].
Qed.

(** The owner lets go. *)
Lemma exclusive_release w w' i p p' :
  exclusive w → threads w !! i = Some p → threads w' = <[i := p']> (threads w) →
  busy (run w') = false → owner p = true → owner p' = false → exclusive w'.
Proof.
  intros [H1 H2] Hi Ht Hb Ho Ho'. unfold exclusive. rewrite Ht, Hb. split.
  - intros a b q r. rewrite !lookup_insert_Some. intros [[<- <-]|[Ha Hq]] [[<- <-]|[Hb' Hr]] Oq Or; try congruence.
    by apply (H1 a b q r).
  - split; [done|]. intros (a&q&Ha&Hq). apply lookup_insert_Some in Ha as [[<- <-]|[Hne Ha]]; [congruence|].
    destruct Hne. by apply (H1 i a p q).
Qed.

(** A goroutine becomes the owner when there is none. *)
Lemma exclusive_acquire w w' i p p' :
  exclusive w → threads w !! i = Some p → threads w' = <[i := p']> (threads w) →
  busy (run w') = true → busy (run w) = false → owner p = false → owner p' = true → exclusive w'.
Proof.
  intros [H1 H2] Hi Ht Hb Hf Ho Ho'.
  assert (∀ a q, threads w !! a = Some q → owner q = false) as Hnone.
  { intros a q Ha. destruct (owner q) eqn:Oq; [|done]. rewrite (proj2 H2) in Hf by eauto. done. }
  unfold exclusive. rewrite Ht, Hb. split.
  - intros a b q r. rewrite !lookup_insert_Some. intros [[<- <-]|[Ha Hq]] [[<- <-]|[Hb' Hr]] Oq Or; try done.
    + by rewrite (Hnone b r) in Or.
    + by rewrite (Hnone a q) in Oq.
    + by rewrite (Hnone a q) in Oq.
  - split; [|done]. intros _. exists i, p'. by rewrite lookup_insert_eq.
Qed.

Lemma exclusive_same w w' :
  exclusive w → threads w' = threads w → busy (run w') = busy (run w) → exclusive w'.
Proof. intros H Ht Hb. unfold exclusive. by rewrite Ht, Hb. Qed.

Lemma step_exclusive l w w' : exclusive w → step l w w' → exclusive w'.
Proof.
  intros He Hs. destruct Hs as
    [w i t Hi|w i t Hi|w i t Hi|w i t Hi|w i t tk Hi|w i t tk rng Hi|w i Hi|w i Hi|w i id Hi Hid|w i Hi|w|w|w tk rs Hrs].
  - by eapply exclusive_spawn.
  - unfold advance, request_lock. destruct (busy (run w)) eqn:Hb, (offline (run w)) eqn:Ho; cbn [orb].
    1-3: destruct (latch _ _ _) as [d tk]; by eapply exclusive_keep; [|exact Hi|..].
    by eapply (exclusive_acquire w _ i (AtRequest t) (AtRunOne t)).
  - unfold advance, runOne_start. destruct (_ && _); by eapply exclusive_keep.
  - unfold advance, cancelPendingRetry. destruct (cancelRetry (run w)); by eapply exclusive_keep.
  - by eapply exclusive_keep.
  - by eapply exclusive_keep.
  - by eapply exclusive_keep.
  - unfold advance, loop_lock. destruct (deferred (run w)); [destruct (offline (run w))|].
    + by eapply exclusive_release.
    + by eapply exclusive_keep.
    + by eapply exclusive_release.
  - by eapply (exclusive_spawn w).
  - by eapply exclusive_keep.
  - by eapply exclusive_same.
  - by eapply exclusive_same.
  - by eapply exclusive_same.
Qed.

(** C4. Mutual exclusion: however the goroutines interleave, at most one of them
    is running a session (or about to, or winding one up), and [busy] is set
    exactly while one is. *)
Theorem one_session (w : world) (Hr : reachable any w) :
  (∀ i j p q, threads w !! i = Some p → threads w !! j = Some q → owner p = true → owner q = true → i = j) ∧
  (busy (run w) = true ↔ ∃ i p, threads w !! i = Some p ∧ owner p = true).
Proof.
  change (exclusive w). induction Hr as [tk|w w' l Hr IH _ Hs]; [|by eapply step_exclusive].
  split; [set_solver|]. cbn. split; [done|]. by intros (i&p&?&_).
Qed.

(** ** Running a schedule *)

(** The step a label and a choice of the environment ask of goroutine [i], when
    it can be taken. *)
Inductive move :=
| DoRequest (i : nat) (t : Trigger) | DoFail (i : nat) | DoOk (i : nat)
| DoFire (i id : nat) | DoOffline | DoOnline | Do (i : nat).
Definition play1 (m : move) (w : world) : option (label * world) :=
  match m with
  | DoRequest i t => if threads w !! i is None then Some (Request, put_thread i (AtRequest t) w) else None
  | DoFail i =>
      if threads w !! i is Some (InSession _)
      then Some (Session, put_thread i AtArm (set_env (tracker w) (OnFailure None (retry w)).2 w)) else None
  | DoOk i =>
      if threads w !! i is Some (InSession _)
      then Some (Session, put_thread i AtLoop (set_env (tracker w) (Reset (retry w)) w)) else None
  | DoFire i id =>
      if threads w !! i is None
      then if bool_decide (id ∈ timers w) then Some (Fire, put_thread i AtFired (remove_timer id w)) else None
      else None
  | DoOffline => Some (Offline, set_offline true w)
  | DoOnline => Some (Online, set_offline false w)
  | Do i =>
      match threads w !! i with
      | Some (AtRequest t) => Some (Lock, advance i (request_lock t w))
      | Some (AtRunOne t) => Some (RunOne, advance i (runOne_start t w))
      | Some (AtCancel t) => Some (Cancel, advance i (cancelPendingRetry w, InSession t))
      | Some AtArm => Some (Arm, advance i (arm w))
      | Some AtLoop => Some (LoopLock, advance i (loop_lock w))
      | Some AtFired => Some (Fired, advance i (fired_lock w))
      | _ => None
      end
  end.
Fixpoint play (ms : list move) (w : world) : option world :=
  match ms with [] => Some w | m :: ms' => '(_, w') ← play1 m w; play ms' w' end.

Lemma play1_step m w l w' : play1 m w = Some (l, w') → step l w w'.
Proof.
  destruct m as [i t|i|i|i id| | |i]; unfold play1.
  - destruct (threads w !! i) eqn:Ht; [done|]. intros [= <- <-]. by constructor.
  - destruct (threads w !! i) as [[]|] eqn:Ht; try done. intros [= <- <-]. eapply (step_failed w i t _ None), Ht.
  - destruct (threads w !! i) as [[]|] eqn:Ht; try done. intros [= <- <-]. eapply (step_ok w i t), Ht.
  - destruct (threads w !! i) eqn:Ht; [done|]. case_bool_decide; [|done]. intros [= <- <-]. by constructor.
  - intros [= <- <-]. constructor.
  - intros [= <- <-]. constructor.
  - destruct (threads w !! i) as [[]|] eqn:Ht; try done; intros [= <- <-]; constructor; exact Ht.
Qed.

Lemma play_reachable P ms w w' :
  (∀ m w l w', m ∈ ms → play1 m w = Some (l, w') → P l) →
  reachable P w → play ms w = Some w' → reachable P w'.
Proof.
  revert w; induction ms as [|m ms IH]; cbn; intros w HP Hw; [by intros [= <-]|].
  destruct (play1 m w) as [[l w1]|] eqn:E; [|done]. cbn. intros Hp.
  eapply IH; [|eapply reach_step; [exact Hw| |by eapply play1_step]|exact Hp].
  - intros m' * Hm. apply HP. by apply elem_of_cons; right.
  - eapply HP, E. apply elem_of_cons. by left.
Qed.

Lemma play1_online m w l w' : m ≠ DoOffline → play1 m w = Some (l, w') → l ≠ Offline.
Proof.
  intros Hm. destruct m as [i t|i|i|i id| | |i]; unfold play1; try done;
    repeat case_match; try (by intros [= <- <-]); done.
Qed.

Lemma one_session_witness :
  let w0 := MkWorld (MkRunner true false None None) (NewEventTracker ∅) (MkRetryState 0) ∅
              {[0 := InSession TriggerStartup; 1 := AtRequest TriggerPeriodic]} in
  reachable any w0 ∧ busy (run w0) = true ∧
  (∀ i p, threads w0 !! i = Some p → owner p = true → i = 0).
Proof.
  intros w0. assert (reachable any w0) as Hr.
  { apply (play_reachable any [DoRequest 0 TriggerStartup; Do 0; Do 0; Do 0; DoRequest 1 TriggerPeriodic]
      (initial (NewEventTracker ∅))); [done|constructor|vm_compute; reflexivity]. }
  split; [exact Hr|]. split; [reflexivity|]. intros i p Hp Ho.
  exact (proj1 (one_session w0 Hr) i 0 p (InSession TriggerStartup) Hp eq_refl Ho eq_refl).
Defined.

(** ** A deferred trigger is run *)

Lemma quiet_offline P w : (∀ l, P l → l ≠ Offline) → reachable P w →
  offline (run w) = false ∧ (deferred (run w) ≠ None → busy (run w) = true).
Proof.
  intros HP. induction 1 as [tk|w w' l Hr [Ho Hd] Hl Hs]; [done|]. apply HP in Hl.
  destruct Hs as
    [w i t Hi|w i t Hi|w i t Hi|w i t Hi|w i t tk Hi|w i t tk rng Hi|w i Hi|w i Hi|w i id Hi Hid|w i Hi|w|w|w tk rs Hrs];
    try done.
  - unfold advance, request_lock. rewrite Ho.
    destruct (busy (run w)) eqn:Hb; cbn; [by destruct (latch _ _ _)|done].
  - unfold advance, runOne_start. by destruct (_ && _).
  - unfold advance, cancelPendingRetry. by destruct (cancelRetry (run w)).
  - unfold advance, loop_lock. rewrite Ho. by destruct (deferred (run w)).
Qed.

Lemma reachable_exclusive P w : reachable P w → exclusive w.
Proof.
  induction 1 as [tk|w w' l Hr IH _ Hs]; [|by eapply step_exclusive].
  split; [set_solver|]. cbn. split; [done|]. by intros (i&p&?&_).
Qed.

(** What may stand in the latch for a trigger: itself, or one that outranks it. *)
Definition outranks (d d' : Trigger) : Prop := d' = d ∨ (triggerPriority d < triggerPriority d')%Z.
#[export] Instance outranks_preorder : PreOrder outranks.
Proof. split; [by left|]. intros d1 d2 d3 [->|?] [->|?]; unfold outranks; [by left|by right..|right; lia]. Qed.

Lemma winner_outranks t d : outranks d (winner t d).
Proof. unfold winner, outranks. destruct (Z.ltb_spec (triggerPriority d) (triggerPriority t)); auto. Qed.

(** How far the goroutine that holds [busy] is from its loop. *)
Definition to_loop (p : pc) : nat :=
  match p with AtRunOne _ => 4 | AtCancel _ => 3 | InSession _ => 2 | AtArm => 1 | _ => 0 end.

(** The latch is still held for the trigger, by a goroutine at [p]. *)
Definition held (i : nat) (p : pc) (d : Trigger) (w : world) : Prop :=
  threads w !! i = Some p ∧ owner p = true ∧ ∃ d', deferred (run w) = Some d' ∧ outranks d d'.
(** The trigger, or one that outranks it, was taken out of the latch to be run. *)
Definition taken (i : nat) (d : Trigger) (w : world) : Prop :=
  ∃ d', threads w !! i = Some (AtRunOne d') ∧ outranks d d' ∧ deferred (run w) = None.

Lemma held_step l w w' i p d :
  exclusive w → offline (run w) = false → held i p d w → step l w w' →
  held i p d w' ∨ (∃ p', held i p' d w' ∧ (to_loop p' < to_loop p)%nat) ∨ taken i d w'.
Proof.
  intros [Hone Hbusy] Ho (Hi&Op&d1&Hd&Hr) Hs.
  assert (busy (run w) = true) as Hb by (apply Hbusy; eauto).
  assert (∀ j q, threads w !! j = Some q → owner q = true → j = i) as Hown by (intros j q Hj Oq; by eapply Hone).
  assert (∀ j q w1, (threads w !! j = None ∨ ∃ q0, threads w !! j = Some q0 ∧ owner q0 = false) →
    threads w1 = threads w → (∃ d', deferred (run w1) = Some d' ∧ outranks d d') → held i p d (put_thread j q w1)) as Hother.
  { intros j q w1 Hj Ht Hd'. split; [|done]. cbn. rewrite Ht, lookup_insert_ne; [done|]. intros ->.
    destruct Hj as [Hj|(q0&Hj&Oq)]; simplify_eq/=. congruence. }
  assert (∀ q w1, threads w1 = threads w → deferred (run w1) = deferred (run w) → owner q = true → (to_loop q < to_loop p)%nat →
    ∃ p', held i p' d (put_thread i q w1) ∧ (to_loop p' < to_loop p)%nat) as Hmove.
  { intros q w1 Ht Hd' Oq Hl. exists q. split; [|done]. split; [by apply lookup_insert_eq|]. split; [done|].
    cbn. rewrite Hd'. by exists d1. }
  destruct Hs as
    [w j t Hj|w j t Hj|w j t Hj|w j t Hj|w j t tk Hj|w j t tk rng Hj|w j Hj|w j Hj|w j id Hj Hid|w j Hj|w|w|w tk rs Hrs].
  - left. apply Hother; eauto.
  - left. unfold advance, request_lock. rewrite Hb, Hd. cbn [orb latch]. apply Hother; [eauto|done|].
    exists (winner t d1). split; [done|]. etrans; [exact Hr|apply winner_outranks].
  - pose proof (Hown _ _ Hj eq_refl); subst j; rewrite Hi in Hj; injection Hj as ->. right; left. unfold advance, runOne_start.
    destruct (_ && _); apply Hmove; first [done | simpl; lia].
  - pose proof (Hown _ _ Hj eq_refl); subst j; rewrite Hi in Hj; injection Hj as ->. right; left. unfold advance.
    apply Hmove; [..|simpl; lia]; unfold cancelPendingRetry; by destruct (cancelRetry (run w)).
  - pose proof (Hown _ _ Hj eq_refl); subst j; rewrite Hi in Hj; injection Hj as ->. right; left. apply Hmove; first [done | simpl; lia].
  - pose proof (Hown _ _ Hj eq_refl); subst j; rewrite Hi in Hj; injection Hj as ->. right; left. apply Hmove; first [done | simpl; lia].
  - pose proof (Hown _ _ Hj eq_refl); subst j; rewrite Hi in Hj; injection Hj as ->. right; left. apply Hmove; first [done | simpl; lia].
  - pose proof (Hown _ _ Hj eq_refl); subst j; rewrite Hi in Hj; injection Hj as ->. right; right. exists d1. unfold advance, loop_lock.
    rewrite Hd, Ho. split; [by apply lookup_insert_eq|done].
  - left. apply Hother; eauto.
  - left. apply Hother; eauto.
  - left. split_and!; eauto.
  - left. split_and!; eauto.
  - left. split_and!; eauto.
Qed.

(** A run of the process: one step after another, for ever ([step_other] may
    leave everything as it is). *)
Definition execution (P : label → Prop) (e : nat → world) : Prop :=
  reachable P (e 0%nat) ∧ ∀ n, ∃ l, P l ∧ step l (e n) (e (S n)).
(** The goroutine that holds [busy] does not stay where it is for ever: it is
    scheduled, and a session it is in comes to an end. *)
Definition fair (e : nat → world) : Prop :=
  ∀ n i p, threads (e n) !! i = Some p → owner p = true → ∃ m, (n < m)%nat ∧ threads (e m) !! i ≠ Some p.

Section executions.
Context (P : label → Prop) (HP : ∀ l, P l → l ≠ Offline) (e : nat → world) (He : execution P e) (Hfair : fair e).

Lemma execution_reachable n : reachable P (e n).
Proof using He.
  destruct He as [H0 Hs]. induction n as [|n IH]; [done|]. destruct (Hs n) as (l&Hl&Hst). by eapply reach_step.
Qed.

Lemma held_moves k n i p d : held i p d (e n) → threads (e (n + k)) !! i ≠ Some p →
  ∃ m, (n ≤ m)%nat ∧ ((∃ p', held i p' d (e m) ∧ (to_loop p' < to_loop p)%nat) ∨ taken i d (e m)).
Proof using HP He.
  revert n; induction k as [|k IH]; intros n Hh Hk.
  { rewrite Nat.add_0_r in Hk. by destruct Hh. }
  destruct (proj2 He n) as (l&_&Hs). pose proof (execution_reachable n) as Hr.
  destruct (held_step l _ _ i p d (reachable_exclusive _ _ Hr) (proj1 (quiet_offline P _ HP Hr)) Hh Hs) as [Hh'|Hout].
  - rewrite Nat.add_succ_r in Hk. destruct (IH (S n) Hh' Hk) as (m&Hm&Hout). exists m. split; [lia|done].
  - exists (S n). split; [lia|done].
Qed.

Lemma held_taken r n i p d : (to_loop p ≤ r)%nat → held i p d (e n) → ∃ m, (n ≤ m)%nat ∧ taken i d (e m).
Proof using HP He Hfair.
  revert n p; induction r as [r IH] using lt_wf_ind; intros n p Hr Hh.
  destruct (Hfair n i p (proj1 Hh) (proj1 (proj2 Hh))) as (m&Hm&Hne).
  destruct (held_moves (m - n) n i p d Hh) as (k&Hk&[(p'&Hh'&Hl)|Ht]).
  - by replace (n + (m - n))%nat with m by lia.
  - destruct (IH (to_loop p') ltac:(lia) k p' ltac:(lia) Hh') as (k'&Hk'&Ht). exists k'. split; [lia|done].
  - by exists k.
Qed.
End executions.

(** C8. A trigger that was deferred is never stranded. In every run of the
    process that never takes the CPE offline, and in which the goroutine that
    holds [busy] does not stand still for ever, a trigger in the latch is taken
    out of it and run, or one of higher priority that was requested meanwhile
    is run in its place; the latch is then empty. *)
Theorem never_stranded (P : label → Prop) (e : nat → world) (n : nat) (d : Trigger)
  (HP : ∀ l, P l → l ≠ Offline) (He : execution P e) (Hfair : fair e) (Hd : deferred (run (e n)) = Some d) :
  ∃ m i d', (n ≤ m)%nat ∧ threads (e m) !! i = Some (AtRunOne d') ∧
    (d' = d ∨ (triggerPriority d < triggerPriority d')%Z) ∧ deferred (run (e m)) = None.
Proof.
  pose proof (execution_reachable P e He n) as Hr. destruct (quiet_offline P _ HP Hr) as [_ Hb].
  rewrite Hd in Hb. specialize (Hb ltac:(done)). apply (reachable_exclusive _ _ Hr) in Hb as (i&p&Hi&Ho).
  destruct (held_taken P HP e He Hfair (to_loop p) n i p d) as (m&Hm&d'&Ht&Hout&Hnone); [done| |by exists m, i, d'].
  split_and!; [done..|]. exists d. split; [done|]. by left.
Qed.

(** A request that comes while a session runs, and what the goroutines do then. *)
Definition ex_moves : list move := [DoOk 0; Do 0; Do 0; Do 0; DoOk 0; Do 0].
Definition ex_run (n : nat) : world :=
  default (initial (NewEventTracker ∅))
    (play ([DoRequest 0 TriggerStartup; Do 0; Do 0; Do 0; DoRequest 1 TriggerPeriodic; Do 1] ++ take n ex_moves)
       (initial (NewEventTracker ∅))).

Lemma ex_run_end n : ex_run (6 + n) = ex_run 6.
Proof. unfold ex_run. by rewrite !(take_ge ex_moves) by (cbn; lia). Qed.

Lemma ex_run_execution : execution (λ l, l ≠ Offline) ex_run.
Proof.
  split.
  { apply (play_reachable _ [DoRequest 0 TriggerStartup; Do 0; Do 0; Do 0; DoRequest 1 TriggerPeriodic; Do 1]
      (initial (NewEventTracker ∅))); [|constructor|vm_compute; reflexivity].
    intros m w l w' Hm. apply play1_online. intros ->. by vm_compute in Hm; set_solver. }
  assert (∀ n l, l ≠ Offline → (∃ m, play1 m (ex_run n) = Some (l, ex_run (S n))) →
    ∃ l, l ≠ Offline ∧ step l (ex_run n) (ex_run (S n))) as Hp.
  { intros n l Hl [m Hm]. exists l. split; [done|by apply play1_step in Hm]. }
  intros n. do 6 try destruct n as [|n].
  - apply (Hp 0 Session); [done|]. exists (DoOk 0). vm_compute; reflexivity.
  - apply (Hp 1 LoopLock); [done|]. exists (Do 0). vm_compute; reflexivity.
  - apply (Hp 2 RunOne); [done|]. exists (Do 0). vm_compute; reflexivity.
  - apply (Hp 3 Cancel); [done|]. exists (Do 0). vm_compute; reflexivity.
  - apply (Hp 4 Session); [done|]. exists (DoOk 0). vm_compute; reflexivity.
  - apply (Hp 5 LoopLock); [done|]. exists (Do 0). vm_compute; reflexivity.
  - exists Other. split; [done|]. change (S (S (S (S (S (S n)))))) with (6 + n).
    change (S (6 + n)) with (6 + S n). rewrite !ex_run_end.
    pose proof (step_other (ex_run 6) (tracker (ex_run 6)) (retry (ex_run 6)) (or_introl eq_refl)) as H.
    by destruct (ex_run 6).
Qed.

Lemma ex_run_fair : fair ex_run.
Proof.
  intros n i p Hi Ho. exists (7 + n). split; [lia|]. change (7 + n) with (6 + S n). rewrite ex_run_end. intros Hi'.
  assert (map_Forall (λ _ q, owner q = false) (threads (ex_run 6))) as Hnone
    by (apply (bool_decide_unpack _); vm_compute; reflexivity).
  pose proof (Hnone i p Hi') as H. cbn in H. congruence.
Qed.

Lemma never_stranded_witness :
  deferred (run (ex_run 0)) = Some TriggerPeriodic ∧
  ∃ m i d', (0 ≤ m)%nat ∧ threads (ex_run m) !! i = Some (AtRunOne d') ∧
    (d' = TriggerPeriodic ∨ (triggerPriority TriggerPeriodic < triggerPriority d')%Z) ∧ deferred (run (ex_run m)) = None.
Proof.
  split; [vm_compute; reflexivity|].
  exact (never_stranded (λ l, l ≠ Offline) ex_run 0 TriggerPeriodic (λ l H, H) ex_run_execution ex_run_fair
    ltac:(vm_compute; reflexivity)).
Defined.

(** ** What the latch keeps *)

(** When a trigger meets a trigger already latched, the latch keeps the one
    of higher priority (the older one on a tie) and nothing that was queued
    is dropped. The other is still announced by the session the latch starts
    when it is a periodic tick, which is queued on its way out, or a transfer
    completion whose record waits. *)
Theorem latch_keeps (t d : Trigger) (w : world)
  (Hb : busy (run w) = true ∨ offline (run w) = true) (Hd : deferred (run w) = Some d) :
  let '(w', p) := request_lock t w in
  let win := winner t d in
  let announced := (NextSessionEvents (tracker w') win).1 in
  p = Returned ∧ deferred (run w') = Some win ∧
  [win; loser t d] ≡ₚ [t; d] ∧ (triggerPriority (loser t d) ≤ triggerPriority win)%Z ∧
  (∀ e, e ∈ pendingEvents (tracker w) → e ∈ announced) ∧
  (loser t d = TriggerPeriodic → MkEvent EventPeriodic "" ∈ announced) ∧
  (HasPendingTransferCompletes (tracker w) = true → MkEvent EventTransferComplete "" ∈ announced).
Proof.
  assert (∀ tk e, announces tk (winner t d) e → e ∈ (NextSessionEvents tk (winner t d)).1) as HA.
  { intros tk e. rewrite NextSessionEvents_unfold. cbn [fst].
    destruct (dedupeEvents_spec (raw_events tk (winner t d))) as (_&He&_). by rewrite He, elem_of_raw_events. }
  assert (busy (run w) || offline (run w) = true) as Hbo by (apply orb_true_iff; done).
  unfold request_lock, latch. rewrite Hbo, Hd. cbn [tracker run deferred].
  split_and!; [done|done|..].
  - unfold winner, loser. destruct (_ <? _)%Z; [done|apply Permutation_swap].
  - unfold winner, loser. destruct (Z.ltb_spec (triggerPriority d) (triggerPriority t)); lia.
  - intros e He. apply HA. unfold announces. right; left.
    case_bool_decide; [|done]. cbn. apply elem_of_app. by left.
  - intros Hl. rewrite bool_decide_true by done. apply HA. right; left. cbn. apply elem_of_app. right. by left.
  - intros Hp. apply HA. do 3 right. split; [|done]. apply length_pos_bool in Hp. by case_bool_decide.
Qed.

Lemma latch_keeps_witness :
  let w := MkWorld (MkRunner true false (Some TriggerPeriodic) None) (NewEventTracker ∅) (MkRetryState 0) ∅ ∅ in
  deferred (run (request_lock TriggerConnectionRequest w).1) = Some TriggerConnectionRequest ∧
  MkEvent EventPeriodic "" ∈
    (NextSessionEvents (tracker (request_lock TriggerConnectionRequest w).1) TriggerConnectionRequest).1.
Proof.
  intros w. pose proof (latch_keeps TriggerConnectionRequest TriggerPeriodic w (or_introl eq_refl) eq_refl)
    as (_&H1&_&_&_&H2&_). split; [exact H1|]. exact (H2 eq_refl).
Defined.

(** Coalescing does lose one event: a deployment-unit completion that meets
    any other trigger in the latch is announced by neither session, unless
    the other is a value change, although its record is still delivered. *)
Theorem du_state_displaced (t d : Trigger) (w : world)
  (Hb : busy (run w) = true) (Hd : deferred (run w) = Some d)
  (Ht : t = TriggerDUStateChangeComplete)
  (Hp : d ≠ TriggerDUStateChangeComplete)
  (Hq : MkEvent EventDUStateChange "" ∉ pendingEvents (tracker w)) :
  let w' := (request_lock t w).1 in
  deferred (run w') = Some d ∧
  MkEvent EventDUStateChange "" ∉ (NextSessionEvents (tracker w') d).1 ∧
  pendingDUStateCompletes (NextSessionEvents (tracker w') d).2 = pendingDUStateCompletes (tracker w).
Proof.
  subst t. unfold request_lock. rewrite Hb, Hd. cbn [orb latch].
  assert (winner TriggerDUStateChangeComplete d = d ∧ loser TriggerDUStateChangeComplete d = TriggerDUStateChangeComplete)
    as [-> ->] by (by destruct d).
  cbn [fst run deferred tracker]. rewrite bool_decide_false by done. split; [done|].
  rewrite NextSessionEvents_unfold. split; [|done]. cbn [fst].
  destruct (dedupeEvents_spec (raw_events (tracker w) d)) as (_&He&_). rewrite He, elem_of_raw_events.
  unfold announces. intros [H|[H|[[_ H]|[_ H]]]]; try done. by destruct d.
Qed.

Lemma du_state_displaced_witness :
  let w := MkWorld (MkRunner true false (Some TriggerPeriodic) None) (NewEventTracker ∅) (MkRetryState 0) ∅ ∅ in
  MkEvent EventDUStateChange "" ∉
    (NextSessionEvents (tracker (request_lock TriggerDUStateChangeComplete w).1) TriggerPeriodic).1.
Proof.
  intros w. exact (proj1 (proj2 (du_state_displaced TriggerDUStateChangeComplete TriggerPeriodic w
    eq_refl eq_refl eq_refl ltac:(discriminate) (not_elem_of_nil _)))).
Defined.

(** ** Retry timers *)

(** Two retry timers can be armed at once: when a timer's callback has begun
    but not reached the mutex, another session may fail and arm its own timer;
    the callback then forgets that one, which nothing can cancel any more,
    and its own session, failing, arms a second. *)
Theorem two_retry_timers :
  ∃ w, reachable any w ∧ size (timers w) = 2 ∧ ∃ id, id ∈ timers w ∧ cancelRetry (run w) ≠ Some id.
Proof.
  set (w0 := initial (NewEventTracker ∅)).
  set (ms := [DoRequest 0 TriggerStartup; Do 0; Do 0; Do 0; DoFail 0; Do 0; Do 0; DoFire 1 0;
              DoRequest 2 TriggerPeriodic; Do 2; Do 2; Do 2; DoFail 2; Do 2; Do 2;
              Do 1; Do 1; Do 1; Do 1; DoFail 1; Do 1]).
  destruct (play ms w0) as [w|] eqn:E; [|by vm_compute in E].
  exists w. split; [apply (play_reachable any ms w0); [done|constructor|exact E]|].
  vm_compute in E. injection E as <-. split; [by vm_compute|].
  exists 0. split; [by apply (bool_decide_unpack _); vm_compute|discriminate].
Qed.
