(* ===== verification/UspPaths.v ===== *)
(** * USP search paths ([internal/usp/agent/operations.go],
    [ExpandSearchPath] and what it calls, [splitLeaf] of [messages.go]).

    The strings of a USP message are UTF-8, so a loop over runes that looks
    for ASCII ones is a loop over bytes. *)
From Stdlib Require Import ZArith Lia Ascii String.
From S2P Require Import Prelude GoLib GoText CpeErr Types Node Tree TreeProps Objects ObjectsProps Listing.

Definition double_quote : ascii := ascii_of_N 34.

(** ** Segments *)

Definition splitLeaf (path : string) : string * string :=
  match Strings.CutLast path "." with
  | None => ("", path)
  | Some (a, b) => (a +:+ ".", b)
  end.

Definition lastSegment (path : string) : string :=
  let trimmed := Strings.TrimSuffix path "." in
  match Strings.CutLast trimmed "." with Some (_, b) => b | None => trimmed end.

Definition isInstanceNumber (name : string) : bool :=
  if String.eqb name "" then false else str_forall is_digit name.

(** [cur] is the builder, [depth] the open brackets. *)
Fixpoint splitSearchPath_go (depth : nat) (cur : string) (path : string) : list string :=
  match path with
  | "" => [cur]
  | String r rest =>
      if Ascii.eqb r "[" then splitSearchPath_go (S depth) (cur +:+ String r "") rest
      else if Ascii.eqb r "]" then splitSearchPath_go (pred depth) (cur +:+ String r "") rest
      else if Ascii.eqb r "." && (depth =? 0)%nat then cur :: splitSearchPath_go depth "" rest
      else splitSearchPath_go depth (cur +:+ String r "") rest
  end.
Definition splitSearchPath (path : string) : list string := splitSearchPath_go 0 "" path.

(** ** Expressions *)

Record searchTerm := MkSearchTerm { stKey : string; stValue : string; stEqual : bool }.

(** A value loses one pair of surrounding quotes. *)
Definition unquoted (value : string) : string :=
  match value with
  | String q rest =>
      if Ascii.eqb q double_quote && Strings.HasSuffix rest (String double_quote "")
      then Strings.TrimSuffix rest (String double_quote "") else value
  | "" => value
  end.

Definition parse_term (raw : string) : option searchTerm :=
  let raw := Space.TrimSpace raw in
  let op := match Strings.CutStr raw "==" with
            | Some kv => Some (kv, true)
            | None => match Strings.CutStr raw "!=" with Some kv => Some (kv, false) | None => None end
            end in
  match op with
  | None => None
  | Some ((k, v), equal) =>
      if String.eqb k "" then None
      else
        let key := Space.TrimSpace k in
        let value := unquoted (Space.TrimSpace v) in
        if String.eqb key "" then None else Some (MkSearchTerm key value equal)
  end.

Definition parseSearchExpression (seg : string) : option (list searchTerm) :=
  if negb (Strings.HasPrefix seg "[") || negb (Strings.HasSuffix seg "]") then None
  else
    let body := Strings.TrimSuffix (Strings.TrimPrefix seg "[") "]" in
    if String.eqb (Space.TrimSpace body) "" then None
    else mapM parse_term (Strings.Split2 body "&" "&").

Fixpoint term_match (t : Tree) (terms : list searchTerm) (instPath : string) : bool :=
  match terms with
  | [] => true
  | tm :: rest =>
      match Get t (instPath +:+ stKey tm) with
      | Err _ => false
      | Ok v =>
          if negb (Bool.eqb (String.eqb (Raw v) (stValue tm)) (stEqual tm)) then false
          else term_match t rest instPath
      end
  end.

(** ** Expansion *)

Definition childInstanceNames (t : Tree) (tablePath : string) : list string :=
  match Children t tablePath with
  | Err _ => []
  | Ok cs => filter (λ name, isInstanceNumber name = true) ((λ c, lastSegment (ciName c)) <$> cs)
  end.

(** What one segment makes of one prefix; an expression that does not parse
    resolves the whole path to nothing, as finding no instance does. *)
Definition expand_prefix (t : Tree) (seg prefix : string) : list string :=
  if String.eqb seg "*" then
    (λ inst, prefix +:+ "." +:+ inst) <$> childInstanceNames t (prefix +:+ ".")
  else if Strings.HasPrefix seg "[" then
    match parseSearchExpression seg with
    | None => []
    | Some terms =>
        (λ inst, prefix +:+ "." +:+ inst) <$>
          filter (λ inst, term_match t terms (prefix +:+ "." +:+ inst +:+ ".") = true)
            (childInstanceNames t (prefix +:+ "."))
    end
  else if String.eqb prefix "" then [seg]
  else [prefix +:+ "." +:+ seg].

Fixpoint expand_segments (t : Tree) (segments prefixes : list string) : list string :=
  match segments with
  | [] => prefixes
  | seg :: rest =>
      match flat_map (expand_prefix t seg) prefixes with
      | [] => []
      | next => expand_segments t rest next
      end
  end.

Definition ExpandSearchPath (t : Tree) (path : string) : list string :=
  if negb (Strings.ContainsAny path "*[") then [path]
  else
    let trailingDot := Strings.HasSuffix path "." in
    let segments := splitSearchPath (Strings.TrimSuffix path ".") in
    (λ p, if trailingDot then p +:+ "." else p) <$> expand_segments t segments [""].

(** ** Segments of printed paths *)

Lemma splitLeaf_snoc p k :
  valid_segment k = true →
  splitLeaf (joinPath (p ++ [k])) = (if bool_decide (p = []) then "" else joinPath p +:+ ".", k).
Proof.
  intros Hk. apply valid_segment_no_dot in Hk. unfold splitLeaf. case_bool_decide as Hp.
  - subst p. cbn. by rewrite (proj2 (Strings.CutLast_none _ _) Hk).
  - rewrite joinPath_snoc by done.
    by rewrite (proj2 (Strings.CutLast_some (joinPath p +:+ "." +:+ k) "." (joinPath p) k)).
Qed.

Lemma lastSegment_snoc p k (dot : bool) :
  Forall (λ s, valid_segment s = true) (p ++ [k]) →
  lastSegment (joinPath (p ++ [k]) +:+ (if dot then "." else "" : string)) = k.
Proof.
  intros Hv. unfold lastSegment.
  assert (Strings.TrimSuffix (joinPath (p ++ [k]) +:+ (if dot then "." else "" : string)) "." = joinPath (p ++ [k])) as ->.
  { destruct dot; [apply Strings.TrimSuffix_app|]. rewrite str_app_nil_r.
    by apply Strings.TrimSuffix_no_suffix, joinPath_no_trailing_dot. }
  pose proof Hv as [_ Hk]%Forall_app. inv Hk as [|?? Hk' _].
  pose proof (splitLeaf_snoc p k Hk') as H. unfold splitLeaf in H.
  destruct (Strings.CutLast (joinPath (p ++ [k])) ".") as [[a b]|] eqn:E; injection H as H1 H2; [done|].
  done.
Qed.

(** ** What a search path stands for *)

(** [c] numbers an instance under the object at [cs]. *)
Definition instance_under (t : Tree) (cs : list string) (c : string) : Prop :=
  ∃ n, node_at cs (root t) = Some n ∧ is_Some (children n !! c) ∧ isInstanceNumber c = true.

(** A key the instance lacks satisfies no term. *)
Definition term_holds (t : Tree) (inst : list string) (tm : searchTerm) : Prop :=
  ∃ v, Get t (joinPath inst +:+ "." +:+ stKey tm) = Ok v ∧ (Raw v = stValue tm ↔ stEqual tm = true).

Definition segment_matches (t : Tree) (cs : list string) (seg c : string) : Prop :=
  if String.eqb seg "*" then instance_under t cs c
  else if Strings.HasPrefix seg "[" then
    ∃ terms, parseSearchExpression seg = Some terms ∧ instance_under t cs c ∧
             Forall (term_holds t (cs ++ [c])) terms
  else c = seg.

Fixpoint path_matches (t : Tree) (done : list string) (segs cs : list string) : Prop :=
  match segs, cs with
  | [], [] => True
  | seg :: segs', c :: cs' => segment_matches t done seg c ∧ path_matches t (done ++ [c]) segs' cs'
  | _, _ => False
  end.

Definition is_literal (seg : string) : bool :=
  negb (String.eqb seg "*") && negb (Strings.HasPrefix seg "[").
Definition literals_valid (segs : list string) : Prop :=
  Forall (λ seg, is_literal seg = true → valid_segment seg = true) segs.

Lemma digit_segment c : isInstanceNumber c = true → valid_segment c = true.
Proof.
  unfold isInstanceNumber, valid_segment. destruct (String.eqb c ""); [done|]. cbn.
  apply str_forall_impl. intros x Hx. unfold isSegmentChar, is_digit in *. rewrite Hx. by rewrite !orb_true_r.
Qed.

Lemma wf_leaf_children n : wf_node n → isLeaf n = true → children n = ∅.
Proof. intros Hw (v&Hv)%isLeaf_true. by apply (wf_node_inv _ Hw) in Hv as (_&?&_). Qed.

Lemma Children_ok t p n :
  Forall (λ s, valid_segment s = true) p → node_at p (root t) = Some n → isLeaf n = false →
  Children t (joinPath p +:+ ".") =
    Ok ((λ k, child_info p k (default NewBranch (children n !! k))) <$> sortedKeys (children n)).
Proof.
  intros Hv Hn Hl. unfold Children. rewrite (parsePath_trailing_dot p Hv). cbn.
  rewrite (proj2 (lookup_ok _ _ _) Hn). cbn. rewrite Hl. f_equal.
  assert (∀ k, k ∈ sortedKeys (children n) → is_Some (children n !! k)) as H by (intros k; by rewrite elem_of_sortedKeys).
  induction (sortedKeys (children n)) as [|k l IH]; [done|]. cbn.
  destruct (H k ltac:(left)) as [c ->]. cbn. f_equal. apply IH. intros; apply H. by right.
Qed.

Lemma childInstanceNames_spec t p :
  wf_tree t → Forall (λ s, valid_segment s = true) p →
  NoDup (childInstanceNames t (joinPath p +:+ ".")) ∧
  ∀ c, c ∈ childInstanceNames t (joinPath p +:+ ".") ↔ instance_under t p c.
Proof.
  intros Hw Hv. unfold childInstanceNames, instance_under.
  destruct (node_at p (root t)) as [n|] eqn:Hn.
  2:{ assert (∃ e, Children t (joinPath p +:+ ".") = Err e) as [e ->].
      { unfold Children. rewrite (parsePath_trailing_dot p Hv). cbn.
        apply lookup_err in Hn as [e ->]. by eexists. }
      split; [constructor|]. intros c. split; [by intros ?%not_elem_of_nil|by intros (?&?&_)]. }
  pose proof (wf_node_at _ _ _ Hw Hn) as Hwn.
  destruct (isLeaf n) eqn:Hl.
  { assert (∃ e, Children t (joinPath p +:+ ".") = Err e) as [e ->].
    { unfold Children. rewrite (parsePath_trailing_dot p Hv). cbn.
      rewrite (proj2 (lookup_ok _ _ _) Hn). cbn. rewrite Hl. by eexists. }
    split; [constructor|]. intros c. split; [by intros ?%not_elem_of_nil|].
    intros (n'&[= <-]&[? H]&_). rewrite (wf_leaf_children n Hwn Hl) in H. by rewrite lookup_empty in H. }
  rewrite (Children_ok t p n Hv Hn Hl). rewrite <-list_fmap_compose.
  assert ((lastSegment ∘ ciName) ∘ (λ k, child_info p k (default NewBranch (children n !! k))) <$> sortedKeys (children n)
          = sortedKeys (children n)) as E.
  { rewrite <-(list_fmap_id (sortedKeys (children n))) at 2. apply list_fmap_ext. intros i k Hk.
    apply list_elem_of_lookup_2, elem_of_sortedKeys in Hk as [c Hc]. cbn. rewrite Hc. cbn.
    apply (wf_node_inv _ Hwn) in Hc as [Hk _].
    assert (Forall (λ s, valid_segment s = true) (p ++ [k])) as Hv' by (apply Forall_app; split; [done|by constructor]).
    unfold child_info. destruct (leaf c); cbn.
    - rewrite <-(str_app_nil_r (joinPath (p ++ [k]))). exact (lastSegment_snoc p k false Hv').
    - exact (lastSegment_snoc p k true Hv'). }
  change (λ k, lastSegment (ciName k)) with (lastSegment ∘ ciName).
  rewrite E. split.
  - apply NoDup_filter. unfold sortedKeys. by apply Sort.NoDup_Strings, NoDup_keys.
  - intros c. rewrite list_elem_of_filter, elem_of_sortedKeys. naive_solver.
Qed.

Lemma expand_segments_nil t segs : expand_segments t segs [] = [].
Proof. by destruct segs. Qed.
Lemma expand_segments_cons t seg rest ps :
  expand_segments t (seg :: rest) ps = expand_segments t rest (flat_map (expand_prefix t seg) ps).
Proof. cbn [expand_segments]. destruct (flat_map _ ps); [by rewrite expand_segments_nil|done]. Qed.

Lemma term_match_spec t terms inst :
  term_match t terms (joinPath inst +:+ ".") = true ↔ Forall (term_holds t inst) terms.
Proof.
  induction terms as [|tm terms IH]; cbn; [done|]. rewrite Forall_cons, <-IH.
  unfold term_holds. rewrite str_app_assoc. change ("." +:+ stKey tm) with ("." +:+ stKey tm).
  destruct (Get t _) as [v|e]; [|naive_solver].
  assert (Bool.eqb (String.eqb (Raw v) (stValue tm)) (stEqual tm) = true ↔ (Raw v = stValue tm ↔ stEqual tm = true)) as E.
  { rewrite Bool.eqb_true_iff. destruct (String.eqb_spec (Raw v) (stValue tm)), (stEqual tm); naive_solver. }
  destruct (Bool.eqb _ _); cbn.
  - split; [intros H; split; [exists v; split; [done|]; by apply E|done]|by intros [_ ?]].
  - split; [done|]. intros [(v'&[= <-]&H) _]. by apply E in H.
Qed.

Lemma expand_prefix_spec t seg cs :
  wf_tree t → cs ≠ [] → Forall (λ s, valid_segment s = true) cs → (is_literal seg = true → valid_segment seg = true) →
  ∃ nexts, expand_prefix t seg (joinPath cs) = (λ c, joinPath (cs ++ [c])) <$> nexts ∧ NoDup nexts ∧
    (∀ c, c ∈ nexts ↔ segment_matches t cs seg c) ∧ Forall (λ s, valid_segment s = true) nexts.
Proof.
  intros Hw Hne Hv Hlit. destruct (childInstanceNames_spec t cs Hw Hv) as [HN Hin].
  assert (∀ l : list string, (λ inst, joinPath cs +:+ "." +:+ inst) <$> l = (λ c, joinPath (cs ++ [c])) <$> l) as Hj.
  { intros l. apply list_fmap_ext. intros i c _. by rewrite joinPath_snoc. }
  assert (∀ c, instance_under t cs c → valid_segment c = true) as Hd by (intros c (?&_&_&?); by apply digit_segment).
  unfold expand_prefix, segment_matches. destruct (String.eqb seg "*") eqn:Hs.
  { eexists. split; [apply Hj|]. split_and!; [done|done|]. apply Forall_forall. intros c Hc%Hin. by apply Hd. }
  destruct (Strings.HasPrefix seg "[") eqn:Hb.
  - destruct (parseSearchExpression seg) as [terms|].
    + eexists. split; [apply Hj|].
      assert (∀ c, term_match t terms (joinPath cs +:+ "." +:+ c +:+ ".") = true ↔ Forall (term_holds t (cs ++ [c])) terms) as Ht.
      { intros c. rewrite <-term_match_spec, joinPath_snoc by done. by rewrite !str_app_assoc. }
      split_and!; [by apply NoDup_filter|..].
      * intros c. rewrite list_elem_of_filter, Ht, Hin. naive_solver.
      * apply Forall_forall. intros c [_ Hc%Hin]%list_elem_of_filter. by apply Hd.
    + exists []. split_and!; [done|constructor| |constructor].
      intros c. split; [by intros ?%not_elem_of_nil|by intros (?&?&_)].
  - rewrite (proj2 (String.eqb_neq _ _)) by by apply joinPath_ne. exists [seg]. split_and!.
    + cbn. by rewrite joinPath_snoc.
    + apply NoDup_singleton.
    + intros c. by rewrite list_elem_of_singleton.
    + constructor; [|done]. apply Hlit. unfold is_literal. by rewrite Hs, Hb.
Qed.

Lemma expand_segments_spec t segs dones :
  wf_tree t → literals_valid segs → NoDup dones →
  Forall (λ cs, cs ≠ [] ∧ Forall (λ s, valid_segment s = true) cs) dones →
  ∃ out, expand_segments t segs (joinPath <$> dones) = joinPath <$> out ∧ NoDup out ∧
    Forall (λ cs, cs ≠ [] ∧ Forall (λ s, valid_segment s = true) cs) out ∧
    ∀ cs, cs ∈ out ↔ ∃ d rest, d ∈ dones ∧ cs = d ++ rest ∧ path_matches t d segs rest.
Proof.
  intros Hw. revert dones. induction segs as [|seg segs IH]; intros dones Hlit HN Hd.
  { exists dones. split_and!; try done. intros cs. split.
    - intros Hc. exists cs, []. by rewrite app_nil_r.
    - intros (d&[|]&Hin&->&H); [by rewrite app_nil_r|done]. }
  inv Hlit as [|?? Hl Hlits]. rewrite expand_segments_cons.
  assert (∃ next, flat_map (expand_prefix t seg) (joinPath <$> dones) = joinPath <$> next ∧ NoDup next ∧
    Forall (λ cs, cs ≠ [] ∧ Forall (λ s, valid_segment s = true) cs) next ∧
    ∀ cs, cs ∈ next ↔ ∃ d c, d ∈ dones ∧ cs = d ++ [c] ∧ segment_matches t d seg c) as (next&->&HN'&Hd'&Hin').
  { clear IH. induction dones as [|d dones IHd].
    { exists []. split_and!; [done|constructor|constructor|]. intros cs.
      split; [by intros ?%not_elem_of_nil|by intros (?&?&?%not_elem_of_nil&_)]. }
    inv HN as [|?? Hnd HN0]. inv Hd as [|?? [Hne Hv] Hd0].
    destruct (IHd HN0 Hd0) as (next&E&HNn&Hdn&Hinn).
    destruct (expand_prefix_spec t seg d Hw Hne Hv Hl) as (cs1&E1&HN1&Hin1&Hv1).
    exists (((λ c, d ++ [c]) <$> cs1) ++ next). split_and!.
    - cbn. rewrite E, E1, fmap_app. by rewrite <-list_fmap_compose.
    - apply NoDup_app. split_and!; [|intros x|done].
      + apply NoDup_fmap_2; [|done]. intros a b Hab. by apply app_inv_head in Hab as [= ->].
      + rewrite list_elem_of_fmap. intros (c&->&_) (d'&c'&Hd'&Hcs&_)%Hinn.
        apply app_inj_tail in Hcs as [<- _]. done.
    - apply Forall_app. split; [|done]. apply Forall_forall. intros x (c&->&Hc)%list_elem_of_fmap.
      split; [by destruct d|]. apply Forall_app. split; [done|]. constructor; [|done].
      by eapply Forall_forall in Hv1.
    - intros cs. rewrite elem_of_app, Hinn, list_elem_of_fmap. setoid_rewrite elem_of_cons. split.
      + intros [(c&->&Hc)|(d'&c&?&->&?)]; [exists d, c|exists d', c]; naive_solver.
      + intros (d'&c&[->|?]&->&?); [left; exists c; naive_solver|right; naive_solver]. }
  destruct (IH next Hlits HN' Hd') as (out&E&HNo&Hdo&Hino).
  exists out. split_and!; try done. intros cs. rewrite Hino. split.
  - intros (d&rest&(d0&c&Hd0&->&Hc)%Hin'&->&Hm). exists d0, (c :: rest). rewrite <-(assoc_L (++)). done.
  - intros (d&[|c rest]&Hin&->&Hm); [done|]. destruct Hm as [Hc Hm]. exists (d ++ [c]), rest.
    rewrite <-(assoc_L (++)). split_and!; [|done|done]. apply Hin'. naive_solver.
Qed.

(** A search path that starts with a literal expands to exactly the concrete
    paths that match it: an asterisk stands for every instance there is, an
    expression for the instances whose parameters satisfy all of its terms
    (one that does not parse for none), and each path comes once. A path
    without wildcards is itself, whether or not it exists. *)
Theorem ExpandSearchPath_matches (t : Tree) (path first : string) (segs : list string)
  (Hw : wf_tree t) (Hsplit : splitSearchPath (Strings.TrimSuffix path ".") = first :: segs)
  (Hf : is_literal first = true) (Hl : literals_valid (first :: segs)) :
  if Strings.ContainsAny path "*["
  then NoDup (ExpandSearchPath t path) ∧
       ∀ x, x ∈ ExpandSearchPath t path ↔
         ∃ cs, x = joinPath cs +:+ (if Strings.HasSuffix path "." then "." else "") ∧
               path_matches t [] (first :: segs) cs
  else ExpandSearchPath t path = [path].
Proof.
  unfold ExpandSearchPath. destruct (Strings.ContainsAny path "*["); [|done]. cbn [negb].
  rewrite Hsplit, expand_segments_cons. inv Hl as [|?? Hlf Hls]. specialize (Hlf Hf).
  pose proof Hf as [H1 H2]%andb_true_iff. apply negb_true_iff in H1, H2.
  assert (flat_map (expand_prefix t first) [""] = joinPath <$> [[first]]) as ->.
  { unfold expand_prefix. cbn. by rewrite H1, H2. }
  destruct (expand_segments_spec t segs [[first]] Hw Hls) as (out&->&HN&Hv&Hin).
  { apply NoDup_singleton. }
  { constructor; [|done]. split; [done|]. by constructor. }
  assert (∀ cs, joinPath cs +:+ (if Strings.HasSuffix path "." then "." else "") =
                (if Strings.HasSuffix path "." then joinPath cs +:+ "." else joinPath cs)) as Hj.
  { intros cs. destruct (Strings.HasSuffix path "."); [done|]. apply str_app_nil_r. }
  rewrite <-list_fmap_compose. split.
  - apply NoDup_fmap_2_strong; [|done]. intros a b Ha Hb. cbn. rewrite <-!Hj. intros E.
    apply str_app_inj_r in E. rewrite Forall_forall in Hv.
    destruct (Hv a Ha) as [_ ?], (Hv b Hb) as [_ ?]. by apply joinPath_inj.
  - intros x. rewrite list_elem_of_fmap. setoid_rewrite Hin. cbn [compose]. split.
    + intros (cs&->&d&rest&->%list_elem_of_singleton&->&Hm). exists ([first] ++ rest). split; [by rewrite Hj|]. cbn.
      unfold segment_matches. by rewrite H1, H2.
    + intros ([|c rest]&->&Hm); [done|]. destruct Hm as [Hc Hm]. unfold segment_matches in Hc. rewrite H1, H2 in Hc.
      subst c. exists ([first] ++ rest). rewrite Hj. split; [done|].
      exists [first], rest. split; [by apply list_elem_of_singleton|done].
Qed.

(** A table of hosts with two rows, told apart by their aliases. *)
Definition ex_row : Node :=
  set_children {["Alias" := NewLeaf (MkValue TypeString "" true); "Port" := NewLeaf (MkValue TypeUnsignedInt "0" true);
                 "Serial" := NewLeaf (MkValue TypeString "" false)]}
    NewBranch.
Definition ex_hosts : Tree :=
  let t := (Mount New_ "Device.HostNumberOfEntries" (NewLeaf (MkValue TypeUnsignedInt "0" false))).1.1 in
  let t := (AddTable t "Device.Host" (Some ex_row)).1.1 in
  let t := (AddObject (AddObject t "Device.Host.").1.1 "Device.Host.").1.1 in
  let t := (Set_ t "Device.Host.1.Alias" (MkValue TypeString "a" true)).1.1 in
  (Set_ t "Device.Host.2.Alias" (MkValue TypeString "b" true)).1.1.

Lemma ExpandSearchPath_matches_witness :
  "Device.Host.2." ∈ ExpandSearchPath ex_hosts "Device.Host.[Alias==b]." ∧
  "Device.Host.1." ∉ ExpandSearchPath ex_hosts "Device.Host.[Alias==b]." ∧
  NoDup (ExpandSearchPath ex_hosts "Device.Host.*.Alias").
Proof.
  assert (wf_tree ex_hosts) as Hw by (apply wf_nodeb_sound; vm_compute; reflexivity).
  assert (literals_valid ["Device"; "Host"; "[Alias==b]"]) as H1.
  { repeat constructor; vm_compute; done. }
  assert (literals_valid ["Device"; "Host"; "*"; "Alias"]) as H2.
  { repeat constructor; vm_compute; done. }
  destruct (ExpandSearchPath_matches ex_hosts "Device.Host.[Alias==b]." "Device" ["Host"; "[Alias==b]"]
    Hw eq_refl eq_refl H1) as [_ H].
  split_and!.
  - apply H. exists ["Device"; "Host"; "2"]. split; [reflexivity|]. cbn. split_and!; try done.
    exists [MkSearchTerm "Alias" "b" true]. split; [reflexivity|]. split.
    + eexists. split; [vm_compute; reflexivity|]. split; [by eexists|reflexivity].
    + repeat constructor. eexists. split; [vm_compute; reflexivity|done].
  - vm_compute. by intros ?%list_elem_of_singleton.
  - exact (proj1 (ExpandSearchPath_matches ex_hosts "Device.Host.*.Alias" "Device" ["Host"; "*"; "Alias"]
      Hw eq_refl eq_refl H2)).
Defined.
