(* ===== verification/UspQueries.v ===== *)
(** * The USP agent's queries ([internal/usp/agent/messages.go]: [HandleGet],
    the Boot! parameter map, endpoint ids; [operations.go]: [HandleGetInstances],
    [HandleGetSupportedDM]).

    A generated message is a record of the fields the agent sets; the text of
    an [ErrMsg] is kept as the error that prints it, [None] being "". *)
From Stdlib Require Import ZArith Lia Ascii String.
From S2P Require Import Prelude GoLib GoText CpeErr Types Node Tree TreeProps Objects ObjectsProps Listing UspPaths.

Definition ErrCodeInvalidPath : Z := 7026.

(** ** sortStrings *)

(** [rpre] is the sorted part [s[0..i-1]] read from its end: the element at [i]
    is swapped down past the greater ones. *)
Fixpoint sift (x : string) (rpre : list string) : list string :=
  match rpre with
  | [] => [x]
  | y :: rest => if String.ltb x y then y :: sift x rest else x :: rpre
  end.
Definition sortStrings (s : list string) : list string := rev (foldl (λ rpre x, sift x rpre) [] s).

Lemma ltb_leb x y : String.ltb x y = negb (String.leb y x).
Proof.
  unfold String.ltb, String.leb. rewrite (String.compare_antisym y x). by destruct (String.compare x y).
Qed.
Lemma ltb_le x y : String.ltb x y = true → strings.String.le x y.
Proof. unfold strings.String.le, String.ltb, String.leb. by destruct (String.compare x y). Qed.
Lemma sift_perm x l : sift x l ≡ₚ x :: l.
Proof. induction l as [|y l IH]; cbn; [done|]. destruct (String.ltb x y); [|done]. rewrite IH. apply perm_swap. Qed.

Lemma sift_sorted x l :
  StronglySorted (flip strings.String.le) l → StronglySorted (flip strings.String.le) (sift x l).
Proof.
  induction 1 as [|y l Hs IH Hy]; cbn; [by repeat constructor|]. destruct (String.ltb x y) eqn:E.
  - constructor; [done|]. rewrite sift_perm. constructor; [by apply ltb_le|done].
  - assert (strings.String.le y x) as Hyx.
    { rewrite ltb_leb in E. apply negb_false_iff in E. by apply Is_true_true. }
    constructor; [by constructor|]. constructor; [done|]. eapply Forall_impl; [exact Hy|].
    intros z Hz. by transitivity y.
Qed.

Lemma StronglySorted_rev {A} (R : A → A → Prop) l : StronglySorted (flip R) l → StronglySorted R (rev l).
Proof.
  induction 1 as [|x l Hs IH Hx]; cbn; [constructor|]. apply StronglySorted_app_2; [|done|by repeat constructor].
  intros y z Hy%list_elem_of_In%in_rev%list_elem_of_In ->%list_elem_of_singleton. by eapply Forall_forall in Hx.
Qed.

Lemma sift_all s acc :
  StronglySorted (flip strings.String.le) acc →
  StronglySorted (flip strings.String.le) (foldl (λ r x, sift x r) acc s) ∧
  foldl (λ r x, sift x r) acc s ≡ₚ acc ++ s.
Proof.
  revert acc; induction s as [|x s IH]; intros acc Ha; cbn; [by rewrite app_nil_r|].
  destruct (IH (sift x acc) (sift_sorted x acc Ha)) as [Hs Hp]. split; [done|].
  rewrite Hp, sift_perm. apply Permutation_middle.
Qed.

Lemma sortStrings_sorted s : StronglySorted strings.String.le (sortStrings s) ∧ sortStrings s ≡ₚ s.
Proof.
  unfold sortStrings. destruct (sift_all s [] ltac:(constructor)) as [Hs Hp]. split.
  - by apply StronglySorted_rev.
  - by rewrite <-Permutation_rev, Hp.
Qed.

(** The agent's own insertion sort computes what [sort.Strings] does: on
    every input, the one sorted rearrangement of it. *)
Theorem sortStrings_is_sort (s : list string) : sortStrings s = Sort.Strings s.
Proof.
  destruct (sortStrings_sorted s) as [Hs Hp].
  apply (StronglySorted_unique strings.String.le); [done|apply Sort.Strings_sorted|].
  by rewrite Hp, Sort.Strings_Permutation.
Qed.

(** ** Grouping parameters by the object that holds them *)

Section grouping.
Context {X A : Type} (key : X → string) (add : X → A → A) (zero : A).

(** The visitors fill a map and record each key the first time they see it. *)
Definition group_step (x : X) (st : gmap string A * list string) : gmap string A * list string :=
  let '(m, order) := st in
  match m !! key x with
  | None => (<[key x := add x zero]> m, order ++ [key x])
  | Some a => (<[key x := add x a]> m, order)
  end.
Definition group_all (l : list X) : gmap string A * list string := foldl (flip group_step) (∅, []) l.

Definition members (o : string) (l : list X) : list X := filter (λ x, key x = o) l.

Lemma members_nil o l : o ∉ key <$> l → members o l = [].
Proof.
  induction l as [|x l IH]; [done|]. rewrite fmap_cons. intros [Hx Hl]%not_elem_of_cons. unfold members.
  rewrite filter_cons_False by naive_solver. by apply IH.
Qed.

Lemma members_snoc o l x :
  members o (l ++ [x]) = members o l ++ (if decide (key x = o) then [x] else []).
Proof. unfold members. rewrite filter_app, filter_cons, filter_nil. by case_decide. Qed.

Lemma group_all_snoc l x : group_all (l ++ [x]) = group_step x (group_all l).
Proof. unfold group_all. by rewrite foldl_snoc. Qed.

Lemma group_all_lookup l o :
  (group_all l).1 !! o =
    if bool_decide (o ∈ key <$> l) then Some (foldl (flip add) zero (members o l)) else None.
Proof.
  revert o. induction l as [|x l IH] using rev_ind; intros o; [done|].
  rewrite group_all_snoc, members_snoc, foldl_app. specialize (IH (key x)) as Hk. specialize (IH o).
  unfold group_step. destruct (group_all l) as [m order]. cbn [fst] in *. rewrite fmap_app.
  destruct (decide (key x = o)) as [<-|Hne].
  - rewrite bool_decide_true by (apply elem_of_app; right; cbn; left). rewrite IH. case_bool_decide; cbn.
    + by rewrite lookup_insert_eq.
    + rewrite lookup_insert_eq. by rewrite members_nil.
  - assert (∀ a, <[key x := a]> m !! o = m !! o) as Hi by (intros a; by apply lookup_insert_ne).
    cbn [foldl]. rewrite (bool_decide_ext (o ∈ (key <$> l) ++ (key <$> [x])) (o ∈ key <$> l)), <-IH.
    + destruct (m !! key x); cbn; apply Hi.
    + rewrite elem_of_app. cbn. rewrite list_elem_of_singleton. naive_solver.
Qed.

Lemma group_all_order l : NoDup (group_all l).2 ∧ ∀ o, o ∈ (group_all l).2 ↔ o ∈ key <$> l.
Proof.
  induction l as [|x l [HN Hin]] using rev_ind; [by split; [constructor|]|].
  rewrite group_all_snoc. pose proof (group_all_lookup l (key x)) as Hk.
  unfold group_step. destruct (group_all l) as [m order]. cbn [fst snd] in *.
  setoid_rewrite fmap_app. setoid_rewrite elem_of_app. rewrite Hk. case_bool_decide as Hx; cbn [snd].
  - split; [done|]. intros o. rewrite Hin. cbn. rewrite list_elem_of_singleton. naive_solver.
  - split.
    + apply NoDup_app. split_and!; [done| |apply NoDup_singleton].
      intros o Ho ->%list_elem_of_singleton. by apply Hx, Hin.
    + intros o. rewrite elem_of_app, Hin. cbn. done.
Qed.

End grouping.

(** Read back in any order of the groups, the elements are all there. *)
Lemma members_concat {X} (key : X → string) (os : list string) l :
  NoDup os → (∀ x, x ∈ l → key x ∈ os) → flat_map (λ o, members key o l) os ≡ₚ l.
Proof.
  intros HN. revert l. induction HN as [|o os Ho HN IH]; intros l Hl; cbn.
  - destruct l as [|x l]; [done|]. exfalso. apply (not_elem_of_nil (key x)), Hl. left.
  - etrans; [|apply (filter_app_complement (λ x, key x = o) l)]. apply Permutation_app; [done|].
    rewrite <-(IH (filter (λ x, ¬ key x = o) l)).
    + assert (∀ o', o' ∈ os → members key o' l = members key o' (filter (λ x, ¬ key x = o) l)) as E.
      { intros o' Ho'. unfold members. rewrite list_filter_filter. apply list_filter_iff. naive_solver. }
      clear IH HN Ho Hl. induction os as [|o' os IH]; [done|]. cbn. rewrite (E o') by left.
      apply Permutation_app; [done|]. apply IH. intros ? ?. apply E. by right.
    + intros x [Hx Hin]%list_elem_of_filter. apply Hl in Hin as [?|?]%elem_of_cons; done.
Qed.
Lemma for_each_pure {S X} (g : X → S → S) l s :
  for_each (λ x s, (g x s, None)) l s = (foldl (flip g) s l, None).
Proof. revert s; induction l as [|x l IH]; intros s; [done|]. cbn. apply IH. Qed.

Definition leaves_within (depth : Z) (p : list string) (n : Node) : list (string * Value) :=
  (λ x, (joinPath (p ++ x.1), x.2)) <$> filter (within depth) (leaves n).

(** A walk whose visitor does not fail folds it over the leaves below. *)
Lemma Walk_pure {S} t prefix depth (g : string * Value → S → S) s :
  Walk t prefix depth (λ path v s, (g (path, v) s, None)) s =
    match parsePath prefix with
    | Err e => (s, Some e)
    | Ok p =>
        match lookup (root t) p with
        | Err e => (s, Some (Wrap "paramtree.Walk" KindNotFound (Some e)))
        | Ok n => (foldl (flip g) s (leaves_within depth p n), None)
        end
    end.
Proof.
  unfold Walk. destruct (parsePath prefix) as [p|]; [|done]. destruct (lookup (root t) p) as [n|]; [|done].
  rewrite walk_leaves. unfold leaves_within. by rewrite <-(for_each_pure g), for_each_fmap.
Qed.

Lemma elem_of_leaves_within t depth p n path v :
  node_at p (root t) = Some n →
  (path, v) ∈ leaves_within depth p n ↔
  ∃ q, path = joinPath (p ++ q) ∧ view t (p ++ q) = Some v ∧ ((depth ≤ 0)%Z ∨ (Z.of_nat (length q) ≤ depth)%Z).
Proof.
  intros Hn. unfold leaves_within. rewrite list_elem_of_fmap.
  assert (∀ q, view t (p ++ q) = leaf_at q n) as Hv by (intros q; unfold view, leaf_at; by rewrite node_at_app, Hn).
  split.
  - intros ([q w]&[= -> ->]&[Hw Hq%elem_of_leaves]%list_elem_of_filter). exists q. by rewrite Hv.
  - intros (q&->&Hq&Hw). exists (q, v). split; [done|]. apply list_elem_of_filter.
    split; [done|]. apply elem_of_leaves. by rewrite <-Hv.
Qed.

Lemma NoDup_leaves_within t depth p n :
  wf_tree t → Forall (λ s, valid_segment s = true) p → node_at p (root t) = Some n →
  NoDup (leaves_within depth p n).*1.
Proof.
  intros Hw Hp Hn. unfold leaves_within. rewrite <-list_fmap_compose.
  apply (NoDup_fmap_2_strong (λ x : list string * Value, joinPath (p ++ x.1))).
  - intros [q v] [q' v'] [_ Hq%elem_of_leaves]%list_elem_of_filter [_ Hq'%elem_of_leaves]%list_elem_of_filter. cbn.
    pose proof (wf_node_at _ _ _ Hw Hn) as Hwn.
    assert (∀ q v, leaf_at q n = Some v → Forall (λ s, valid_segment s = true) (p ++ q)) as Hval.
    { intros r w (m&Hm&_)%leaf_at_node. apply Forall_app. split; [done|]. by eapply wf_node_at_segments. }
    intros E%joinPath_inj; [|by eapply Hval..]. apply app_inv_head in E as ->. congruence.
  - apply NoDup_filter. apply (NoDup_fmap_1 fst), NoDup_leaves.
Qed.

(** ** HandleGet *)

Inductive Header_MsgType :=
| ERROR | GET | GET_RESP | NOTIFY | SET | SET_RESP | OPERATE | OPERATE_RESP | ADD | ADD_RESP | DELETE | DELETE_RESP
| GET_SUPPORTED_DM | GET_SUPPORTED_DM_RESP | GET_INSTANCES | GET_INSTANCES_RESP | NOTIFY_RESP
| GET_SUPPORTED_PROTO | GET_SUPPORTED_PROTO_RESP | REGISTER | REGISTER_RESP | DEREGISTER | DEREGISTER_RESP.
Record Msg (B : Type) := MkMsg { MsgId : string; MsgType : Header_MsgType; Body : B }.
Arguments MkMsg {B}. Arguments MsgId {B}. Arguments MsgType {B}. Arguments Body {B}.

Record ResolvedPathResult := MkResolved { ResolvedPath : string; ResultParams : gmap string string }.
Record GetResult := MkGetResult {
  gRequestedPath : string; gErrCode : Z; gErrMsg : option error; ResolvedPathResults : list ResolvedPathResult
}.
Definition get_ok (requested : string) (rs : list ResolvedPathResult) : GetResult := MkGetResult requested 0 None rs.
Definition get_failed (requested : string) (e : error) : GetResult := MkGetResult requested ErrCodeInvalidPath (Some e) [].

(** [resolveForGet]'s closure, over the map and the order. *)
Definition param_key (x : string * Value) : string := (splitLeaf x.1).1.
Definition param_add (x : string * Value) (ps : gmap string string) : gmap string string :=
  <[(splitLeaf x.1).2 := Raw x.2]> ps.
Definition resolved_of (byObject : gmap string (gmap string string)) (paths : list string) : list ResolvedPathResult :=
  (λ o, MkResolved o (default ∅ (byObject !! o))) <$> paths.
Definition get_exact (t : Tree) (path : string) : result error (list ResolvedPathResult) :=
  v ← Get t path;
  let '(objPath, leaf) := splitLeaf path in Ok [MkResolved objPath {[leaf := Raw v]}].

Definition resolveForGet (t : Tree) (path : string) : list ResolvedPathResult :=
  if Strings.HasSuffix path "." then
    match Walk t path (-1) (λ p v st, (group_step param_key param_add ∅ (p, v) st, None)) (∅, []) with
    | (_, Some _) => []
    | ((byObject, order), None) => resolved_of byObject (sortStrings order)
    end
  else match get_exact t path with Ok rs => rs | Err _ => [] end.

(** The closure of [HandleGet] keeps the map only. *)
Definition byObject_add (x : string * Value) (byObject : gmap string (gmap string string))
  : gmap string (gmap string string) :=
  let '(objPath, leaf) := splitLeaf x.1 in
  <[objPath := <[leaf := Raw x.2]> (default ∅ (byObject !! objPath))]> byObject.

Definition HandleGet_path (t : Tree) (requested : string) : GetResult :=
  if Strings.Contains requested "*" then
    match ExpandSearchPath t requested with
    | [] => get_ok requested []
    | concrete => get_ok requested (flat_map (resolveForGet t) concrete)
    end
  else if Strings.HasSuffix requested "." then
    match Walk t requested (-1) (λ path v m, (byObject_add (path, v) m, None)) ∅ with
    | (_, Some e) => get_failed requested e
    | (byObject, None) => get_ok requested (resolved_of byObject (sortStrings (map_to_list byObject).*1))
    end
  else
    match get_exact t requested with
    | Err _ => get_failed requested (errorf "path %q not found" [requested])
    | Ok rs => get_ok requested rs
    end.
Definition HandleGet (t : Tree) (msgID : string) (ParamPaths : list string) : Msg (list GetResult) :=
  MkMsg msgID GET_RESP (HandleGet_path t <$> ParamPaths).

(** *** What a Get reports *)

Lemma splitLeaf_cat s : (splitLeaf s).1 +:+ (splitLeaf s).2 = s.
Proof.
  unfold splitLeaf. destruct (Strings.CutLast s ".") as [[a b]|] eqn:E; [|done].
  apply Strings.CutLast_some in E as [-> _]. cbn. by rewrite str_app_assoc.
Qed.

(** The parameters a concrete path selects: all those under it when it ends
    in a dot, else the one it names. *)
Definition selects (path : string) (cs : list string) : Prop :=
  ∃ p, parsePath path = Ok p ∧ if Strings.HasSuffix path "." then p `prefix_of` cs else cs = p.
(** The path names something a Get can answer. *)
Definition resolvable (t : Tree) (path : string) : Prop :=
  ∃ p, parsePath path = Ok p ∧
    if Strings.HasSuffix path "." then is_Some (node_at p (root t)) else is_Some (view t p).
(** The results hold, under its object and leaf name, the value of each
    parameter selected, and nothing else. *)
Definition reports_params (t : Tree) (sel : list string → Prop) (rs : list ResolvedPathResult) : Prop :=
  ∀ o k raw, (∃ ps, MkResolved o ps ∈ rs ∧ ps !! k = Some raw) ↔
    ∃ cs v, sel cs ∧ view t cs = Some v ∧ Raw v = raw ∧ splitLeaf (joinPath cs) = (o, k).

Lemma param_add_lookup l ps k raw :
  NoDup l.*1 → (∀ x y, x ∈ l → y ∈ l → (splitLeaf x.1).2 = (splitLeaf y.1).2 → x.1 = y.1) →
  foldl (flip param_add) ps l !! k = Some raw ↔
  (∃ x, x ∈ l ∧ (splitLeaf x.1).2 = k ∧ Raw x.2 = raw) ∨ (k ∉ (λ x, (splitLeaf x.1).2) <$> l) ∧ ps !! k = Some raw.
Proof.
  revert ps. induction l as [|x l IH]; intros ps HN Hinj; cbn [foldl flip].
  { split; [right; split; [apply not_elem_of_nil|done]|]. by intros [(?&?%not_elem_of_nil&_)|[_ ?]]. }
  inv HN as [|?? Hx HN']. rewrite IH; [|done|intros ?? ?? ?; apply Hinj; by (try right)].
  rewrite fmap_cons, not_elem_of_cons. setoid_rewrite elem_of_cons. unfold param_add at 1.
  assert ((splitLeaf x.1).2 ∉ (λ x, (splitLeaf x.1).2) <$> l) as Hx'.
  { intros (y&Hy&Hin)%list_elem_of_fmap. apply Hx. rewrite (Hinj x y); [|by left|by right|done].
    apply list_elem_of_fmap. by exists y. }
  destruct (decide ((splitLeaf x.1).2 = k)) as [<-|Hne].
  - rewrite lookup_insert_eq. split.
    + intros [(y&?&?&?)|[_ [= <-]]]; left; [exists y|exists x]; naive_solver.
    + intros [(y&[->|Hy]&Hk&<-)|[[? _] _]]; [by right|by left; exists y|done].
  - rewrite lookup_insert_ne by done. split.
    + intros [(y&?&?&?)|[? ?]]; [left; exists y|right]; naive_solver.
    + intros [(y&[->|Hy]&Hk&<-)|[[? ?] ?]]; [done|left; by exists y|by right].
Qed.

Lemma byObject_group l : foldl (flip byObject_add) ∅ l = (group_all param_key param_add ∅ l).1.
Proof.
  induction l as [|x l IH] using rev_ind; [done|]. rewrite foldl_snoc, group_all_snoc, IH. cbn [flip].
  unfold byObject_add, group_step, param_key, param_add.
  destruct (group_all _ _ _ l) as [m order], (splitLeaf x.1) as [o k]. cbn. by destruct (m !! o).
Qed.

Lemma resolved_reports l os :
  NoDup l.*1 → NoDup os → (∀ o, o ∈ os ↔ o ∈ param_key <$> l) →
  let rs := resolved_of (group_all param_key param_add ∅ l).1 (sortStrings os) in
  StronglySorted strings.String.le (ResolvedPath <$> rs) ∧ NoDup (ResolvedPath <$> rs) ∧
  ∀ o k raw, (∃ ps, MkResolved o ps ∈ rs ∧ ps !! k = Some raw) ↔
             ∃ x, x ∈ l ∧ splitLeaf x.1 = (o, k) ∧ Raw x.2 = raw.
Proof.
  intros HN HNo Hos rs. destruct (sortStrings_sorted os) as [Hs Hp].
  assert (ResolvedPath <$> rs = sortStrings os) as ->.
  { unfold rs, resolved_of. rewrite <-list_fmap_compose. apply list_fmap_id. }
  split_and!; [done|by rewrite Hp|]. intros o k raw.
  assert (∀ ps, MkResolved o ps ∈ rs ↔ o ∈ param_key <$> l ∧ ps = foldl (flip param_add) ∅ (members param_key o l)) as Hin.
  { intros ps. unfold rs, resolved_of. rewrite list_elem_of_fmap. setoid_rewrite Hp. setoid_rewrite Hos.
    setoid_rewrite group_all_lookup. split.
    - intros (o'&[= -> ->]&Ho). by rewrite bool_decide_true.
    - intros [Ho ->]. exists o. by rewrite bool_decide_true. }
  assert (∀ x, x ∈ members param_key o l ↔ (splitLeaf x.1).1 = o ∧ x ∈ l) as Hm by (intros x; unfold members; by rewrite list_elem_of_filter).
  setoid_rewrite Hin. split.
  - intros (ps&[Ho ->]&Hk). apply param_add_lookup in Hk as [(x&[Ho' Hx]%Hm&Hk&Hr)|[_ Hk]].
    + exists x. split_and!; [done| |done]. by destruct (splitLeaf x.1); cbn in *; subst.
    + by rewrite lookup_empty in Hk.
    + eapply sublist_NoDup; [exact HN|]. apply fmap_sublist, sublist_filter.
    + intros x y [Hx _]%Hm [Hy _]%Hm E. rewrite <-(splitLeaf_cat x.1), <-(splitLeaf_cat y.1). congruence.
  - intros (x&Hx&Hs'&Hr). eexists. split; [split; [|reflexivity]|].
    + apply list_elem_of_fmap. exists x. unfold param_key. by rewrite Hs'.
    + apply param_add_lookup; [eapply sublist_NoDup; [exact HN|]; apply fmap_sublist, sublist_filter| |].
      * intros y z [Hy _]%Hm [Hz _]%Hm E. rewrite <-(splitLeaf_cat y.1), <-(splitLeaf_cat z.1). congruence.
      * left. exists x. rewrite Hm, Hs'. done.
Qed.

Lemma splitLeaf_joinPath path p :
  parsePath path = Ok p → Strings.HasSuffix path "." = false → joinPath p = path.
Proof. intros Hp%joinPath_parsePath Hs. by rewrite Hp, Strings.TrimSuffix_no_suffix. Qed.

Lemma get_exact_reports t path :
  Strings.HasSuffix path "." = false →
  match get_exact t path with
  | Err _ => ¬ resolvable t path ∧ reports_params t (selects path) []
  | Ok rs => resolvable t path ∧ reports_params t (selects path) rs ∧
             StronglySorted strings.String.le (ResolvedPath <$> rs) ∧ NoDup (ResolvedPath <$> rs)
  end.
Proof.
  intros Hs. unfold get_exact, resolvable, reports_params, selects. rewrite Hs.
    unfold Get. destruct (parsePath path) as [p|e] eqn:Hp; cbn.
  2:{ split; [by intros (?&?&_)|]. intros o k raw. split; [intros (?&?%not_elem_of_nil&_); done|by intros (?&?&(?&?&_)&_)]. }
  pose proof (resolve_leaf_view "paramtree.Get" path p (root t)) as Hl. unfold view.
  destruct (leaf_at p (root t)) as [v|] eqn:Hv.
  - destruct Hl as (m&->&_). cbn. destruct (splitLeaf path) as [objPath leaf] eqn:Hleaf. split_and!.
    + exists p. split; [done|]. rewrite Hv. by eexists.
    + intros o k raw. setoid_rewrite list_elem_of_singleton. split.
      * intros (ps&[= -> ->]&[<- <-]%lookup_singleton_Some). exists p, v.
        rewrite (splitLeaf_joinPath path p Hp Hs). naive_solver.
      * intros (cs&w&(p'&[= <-]&->)&Hw&<-&Hsp). rewrite (splitLeaf_joinPath path p Hp Hs) in Hsp.
        rewrite Hv in Hw. injection Hw as <-. rewrite Hsp in Hleaf. injection Hleaf as -> ->.
        eexists. split; [done|]. apply lookup_singleton_eq.
    + repeat constructor.
    + cbn. apply NoDup_singleton.
  - destruct Hl as (e&->&_). cbn. split.
    + intros (p'&[= <-]&[w Hw]). congruence.
    + intros o k raw. split; [by intros (?&?%not_elem_of_nil&_)|]. intros (cs&w&(p'&[= <-]&->)&Hw&_). congruence.
Qed.

(** The same for a path with a trailing dot, for any listing of the objects. *)
Lemma partial_reports t path p n os :
  wf_tree t → Strings.HasSuffix path "." = true → parsePath path = Ok p → node_at p (root t) = Some n →
  let l := leaves_within (-1) p n in
  NoDup os → (∀ o, o ∈ os ↔ o ∈ param_key <$> l) →
  let rs := resolved_of (group_all param_key param_add ∅ l).1 (sortStrings os) in
  reports_params t (selects path) rs ∧
  StronglySorted strings.String.le (ResolvedPath <$> rs) ∧ NoDup (ResolvedPath <$> rs).
Proof.
  intros Hw Hs Hp Hn l HNo Hos rs.
  destruct (resolved_reports l os) as (Hsort&HN&Hrs); [|done..|].
  { apply (NoDup_leaves_within t); [done| |done]. by eapply parsePath_segments. }
  fold rs in Hsort, HN, Hrs. split_and!; [|done..].
  intros o k raw. rewrite Hrs. unfold selects. rewrite Hs. split.
  - intros ([path' v]&Hin&Hk&Hr). apply elem_of_leaves_within with (t := t) in Hin as (q&->&Hv&_); [|done].
    exists (p ++ q), v. split_and!; try done. exists p. split; [done|]. by exists q.
  - intros (cs&v&(p'&[= <-]%(eq_trans (eq_sym Hp))&[q ->])&Hv&Hr&Hk).
    exists (joinPath (p ++ q), v). split_and!; [|done..]. apply (elem_of_leaves_within t); [done|].
    exists q. split_and!; [done..|left; lia].
Qed.

Lemma no_node_no_params t path p :
  Strings.HasSuffix path "." = true → parsePath path = Ok p → node_at p (root t) = None →
  ¬ resolvable t path ∧ reports_params t (selects path) [].
Proof.
  intros Hs Hp Hn. unfold resolvable, reports_params, selects. rewrite Hs. split.
  - intros (p'&[= <-]%(eq_trans (eq_sym Hp))&[? ?]). congruence.
  - intros o k raw. split; [by intros (?&?%not_elem_of_nil&_)|].
    intros (cs&w&(p'&[= <-]%(eq_trans (eq_sym Hp))&[q ->])&Hw&_).
    unfold view, leaf_at in Hw. rewrite node_at_app, Hn in Hw. done.
Qed.

Lemma no_parse_no_params (t : Tree) path e :
  parsePath path = Err e → ¬ resolvable t path ∧ reports_params t (selects path) [].
Proof.
  intros Hp. unfold resolvable, reports_params, selects. rewrite Hp. split; [by intros (?&?&_)|].
  intros o k raw. split; [by intros (?&?%not_elem_of_nil&_)|by intros (?&?&(?&?&_)&_)].
Qed.

Lemma resolveForGet_reports t path :
  wf_tree t → reports_params t (selects path) (resolveForGet t path).
Proof.
  intros Hw. unfold resolveForGet. destruct (Strings.HasSuffix path ".") eqn:Hs.
  - rewrite Walk_pure. destruct (parsePath path) as [p|e] eqn:Hp; [|by apply (no_parse_no_params t path e)].
    destruct (node_at p (root t)) as [n|] eqn:Hn.
    + rewrite (proj2 (lookup_ok _ _ _) Hn). fold (group_all param_key param_add ∅ (leaves_within (-1) p n)).
      pose proof (group_all_order param_key param_add ∅ (leaves_within (-1) p n)) as [HN Hin].
      pose proof (partial_reports t path p n (group_all param_key param_add ∅ (leaves_within (-1) p n)).2 Hw Hs Hp Hn HN Hin) as [H _].
      by destruct (group_all _ _ _ _).
    + apply lookup_err in Hn as Hn'. destruct Hn' as [e ->]. by apply (no_node_no_params t path p).
  - pose proof (get_exact_reports t path Hs) as H. destruct (get_exact t path); [apply H|apply H].
Qed.

Lemma HandleGet_path_requested t x : gRequestedPath (HandleGet_path t x) = x.
Proof.
  unfold HandleGet_path. destruct (Strings.Contains x "*"); [by destruct (ExpandSearchPath t x)|].
  destruct (Strings.HasSuffix x "."); [by destruct (Walk _ _ _ _ _) as [? [?|]]|by destruct (get_exact t x)].
Qed.

(** What the answer to a path without an asterisk says. *)
Definition plain_answer (t : Tree) (x : string) (r : GetResult) : Prop :=
  (resolvable t x ∧ gErrCode r = 0%Z ∨
   ¬ resolvable t x ∧ gErrCode r = ErrCodeInvalidPath ∧ ResolvedPathResults r = []) ∧
  reports_params t (selects x) (ResolvedPathResults r) ∧
  StronglySorted strings.String.le (ResolvedPath <$> ResolvedPathResults r) ∧
  NoDup (ResolvedPath <$> ResolvedPathResults r).

Lemma failed_answer t x e :
  ¬ resolvable t x ∧ reports_params t (selects x) [] → plain_answer t x (get_failed x e).
Proof. intros [Hr Hp]. split_and!; [by right|done|constructor|constructor]. Qed.

Lemma HandleGet_path_plain t x :
  wf_tree t → Strings.Contains x "*" = false → plain_answer t x (HandleGet_path t x).
Proof.
  intros Hw Hc. unfold HandleGet_path. rewrite Hc. destruct (Strings.HasSuffix x ".") eqn:Hs.
  - rewrite Walk_pure. destruct (parsePath x) as [p|e] eqn:Hp.
    2:{ by apply failed_answer, (no_parse_no_params t x e). }
    destruct (node_at p (root t)) as [n|] eqn:Hn.
    2:{ apply lookup_err in Hn as Hn'. destruct Hn' as [e ->]. by apply failed_answer, (no_node_no_params t x p). }
    rewrite (proj2 (lookup_ok _ _ _) Hn), byObject_group.
    assert (∀ m : gmap string (gmap string string), NoDup (map_to_list m).*1) as HN.
    { intros m. apply NoDup_fst_map_to_list. }
    pose proof (partial_reports t x p n _ Hw Hs Hp Hn (HN (group_all param_key param_add ∅ (leaves_within (-1) p n)).1)) as H.
    split; [left; split; [|done]|apply H].
    + exists p. rewrite Hs, Hn. by split.
    + intros o. rewrite list_elem_of_fmap. transitivity (is_Some ((group_all param_key param_add ∅ (leaves_within (-1) p n)).1 !! o)).
      * split; [intros ([? a]&->&Ha%elem_of_map_to_list); by exists a|intros [a Ha]; exists (o, a); by rewrite elem_of_map_to_list].
      * rewrite group_all_lookup. case_bool_decide; by split.
  - pose proof (get_exact_reports t x Hs) as H. destruct (get_exact t x).
    + destruct H as [Hr H]. split; [by left|exact H].
    + by apply failed_answer.
Qed.

(** A Get answers each requested path once, in order. A path without an
    asterisk that names something there is gets, sorted by object and each
    object once, the value of every parameter it selects and nothing else; one
    that does not gets 7026 without a result. A path with an asterisk is never
    an error and reports what the paths it expands to select. *)
Theorem HandleGet_answers (t : Tree) (msgID : string) (paths : list string) (Hw : wf_tree t) :
  let m := HandleGet t msgID paths in
  MsgId m = msgID ∧ gRequestedPath <$> Body m = paths ∧
  ∀ r, r ∈ Body m →
    if Strings.Contains (gRequestedPath r) "*"
    then gErrCode r = 0%Z ∧
         reports_params t (λ cs, ∃ c, c ∈ ExpandSearchPath t (gRequestedPath r) ∧ selects c cs) (ResolvedPathResults r)
    else plain_answer t (gRequestedPath r) r.
Proof.
  cbn. split_and!; [done| |].
  { rewrite <-list_fmap_compose. rewrite <-(list_fmap_id paths) at 2. apply list_fmap_ext.
    intros i x _. apply HandleGet_path_requested. }
  intros r (x&->&_)%list_elem_of_fmap. rewrite HandleGet_path_requested.
  destruct (Strings.Contains x "*") eqn:Hc; [|by apply HandleGet_path_plain].
  assert (HandleGet_path t x = get_ok x (flat_map (resolveForGet t) (ExpandSearchPath t x))) as ->.
  { unfold HandleGet_path. rewrite Hc. by destruct (ExpandSearchPath t x). }
  split; [done|]. cbn. intros o k raw. setoid_rewrite elem_of_flat_map. split.
  - intros (ps&(c&Hin&Hr)&Hk).
    destruct (proj1 (resolveForGet_reports t c Hw o k raw) (ex_intro _ ps (conj Hr Hk))) as (cs&v&Hs&?&?&?).
    exists cs, v. split_and!; try done. by exists c.
  - intros (cs&v&(c&Hin&Hs)&Hv&Hr&Hk).
    destruct (proj2 (resolveForGet_reports t c Hw o k raw)) as (ps&Hps&Hraw); [by exists cs, v|].
    exists ps. split; [by exists c|done].
Qed.

Lemma HandleGet_answers_witness :
  let m := HandleGet ex_hosts "7" ["Device.Host.2."; "Device.Host.*.Alias"; "Device.Nope"] in
  (∃ r, Body m !! 0%nat = Some r ∧ gErrCode r = 0%Z ∧ ResolvedPath <$> ResolvedPathResults r = ["Device.Host.2."]) ∧
  (∃ r, Body m !! 2%nat = Some r ∧ plain_answer ex_hosts "Device.Nope" r) ∧ MsgId m = "7".
Proof.
  assert (wf_tree ex_hosts) as Hw by (apply wf_nodeb_sound; vm_compute; reflexivity).
  destruct (HandleGet_answers ex_hosts "7" ["Device.Host.2."; "Device.Host.*.Alias"; "Device.Nope"] Hw) as (Hid&_&H).
  split_and!; [|eexists; split; [reflexivity|]|exact Hid].
  - eexists. split; [reflexivity|]. split; vm_compute; reflexivity.
  - apply (H (HandleGet_path ex_hosts "Device.Nope")). cbn. right. right. left.
Defined.
