(* ===== verification/UspDiscovery.v ===== *)
(** * How a controller learns a data model over USP ([internal/usp/agent/operations.go]:
    [HandleGetInstances], [HandleGetSupportedDM] and what they call). *)
From Stdlib Require Import ZArith Lia Ascii String.
From S2P Require Import Prelude GoLib GoText CpeErr Types Node Tree TreeProps Objects ObjectsProps Listing UspPaths UspQueries.

(** ** uniqueKeysFor *)

Definition candidates : list string := ["Alias"; "SSID"; "MACAddress"; "Name"; "Interface"].
Definition uniqueKeysFor (t : Tree) (instancePath : string) : gmap string string :=
  foldl (λ keys candidate,
    match Get t (instancePath +:+ candidate) with
    | Ok v => if String.eqb (Raw v) "" then keys else <[candidate := Raw v]> keys
    | Err _ => keys
    end) ∅ candidates.

(** ** HandleGetInstances *)

Record CurrInstance := MkCurrInstance { InstantiatedObjPath : string; ciUniqueKeys : gmap string string }.
Record InstancesResult := MkInstancesResult {
  iRequestedPath : string; iErrCode : Z; iErrMsg : option error; CurrInsts : list CurrInstance
}.

Definition with_dot (p : string) : string := if Strings.HasSuffix p "." then p else p +:+ ".".

(** What one child of the table contributes, [under] being the recursive call
    for the objects in it. *)
Definition child_instances (under : string → option (result error (list string))) (t : Tree) (firstLevelOnly : bool)
  (child : ChildInfo) : option (list string) :=
  if negb (isInstanceNumber (lastSegment (ciName child))) then Some []
  else
    let childPath := with_dot (ciName child) in
    if firstLevelOnly then Some [childPath]
    else
      match Children t childPath with
      | Err _ => Some [childPath]
      | Ok grandchildren =>
          deeper ← mapM (λ gc,
            if negb (Strings.HasSuffix (ciName gc) ".") then Some []
            else r ← under (ciName gc); Some (match r with Ok l => l | Err _ => [] end)) grandchildren;
          Some (childPath :: concat deeper)
      end.

(** Each level of the recursion descends two levels of the tree, so [fuel] is
    a bound on its depth. [None] is running out of it. *)
Fixpoint instancePathsUnder (fuel : nat) (t : Tree) (firstLevelOnly : bool) (tablePath : string)
  : option (result error (list string)) :=
  match fuel with
  | O => None
  | S fuel' =>
      match Children t tablePath with
      | Err _ => Some (Err (errorf "path %q not found" [tablePath]))
      | Ok cs =>
          out ← mapM (child_instances (instancePathsUnder fuel' t false) t firstLevelOnly) cs;
          Some (Ok (concat out))
      end
  end.

(** The source recurses on the tree it reads; its size bounds its depth. *)
Definition instances_fuel (t : Tree) : nat := S (node_size (root t)).
Definition collect_instances (t : Tree) (firstLevelOnly : bool) (concretes : list string)
  : option (list string * option error) :=
  foldl (λ acc concrete,
    '(instances, err) ← acc;
    r ← instancePathsUnder (instances_fuel t) t firstLevelOnly concrete;
    Some (match r with Err e => (instances, Some e) | Ok found => (instances ++ found, err) end))
    (Some ([], None)) concretes.
Definition HandleGetInstances_path (t : Tree) (firstLevelOnly : bool) (requested : string) : option InstancesResult :=
  '(instances, err) ← collect_instances t firstLevelOnly (ExpandSearchPath t requested);
  let err := match instances with [] => err | _ :: _ => None end in
  Some (match err with
        | Some e => MkInstancesResult requested ErrCodeInvalidPath (Some e) []
        | None => MkInstancesResult requested 0 None
                    ((λ i, MkCurrInstance i (uniqueKeysFor t i)) <$> instances)
        end).
Definition HandleGetInstances (t : Tree) (msgID : string) (firstLevelOnly : bool) (ObjPaths : list string)
  : option (Msg (list InstancesResult)) :=
  MkMsg msgID GET_INSTANCES_RESP <$> mapM (HandleGetInstances_path t firstLevelOnly) ObjPaths.

(** *** Which instances are found *)

(** [c] numbers an instance in the table at [p]; below it, the recursion takes
    each object [g] directly in the instance for a table. *)
Definition object_under (t : Tree) (p : list string) (g : string) : Prop :=
  ∃ n c, node_at p (root t) = Some n ∧ isLeaf n = false ∧ children n !! g = Some c ∧ isLeaf c = false.
Inductive instance_below (t : Tree) : list string → list string → Prop :=
| ib_here p c : instance_under t p c → instance_below t p (p ++ [c])
| ib_nested p c g q :
    instance_under t p c → object_under t (p ++ [c]) g →
    instance_below t (p ++ [c; g]) q → instance_below t p q.

Lemma collect_disjoint {K X Y} (g : K → X) (f : X → option (list Y)) (Q : K → Y → Prop) (l : list K) :
  NoDup l →
  (∀ k, k ∈ l → ∃ ys, f (g k) = Some ys ∧ NoDup ys ∧ ∀ z, z ∈ ys ↔ Q k z) →
  (∀ k k' z, k ∈ l → k' ∈ l → Q k z → Q k' z → k = k') →
  ∃ yss, mapM f (g <$> l) = Some yss ∧ NoDup (concat yss) ∧ ∀ z, z ∈ concat yss ↔ ∃ k, k ∈ l ∧ Q k z.
Proof.
  induction 1 as [|k l Hk HN IH]; intros Hf Hd.
  { exists []. split_and!; [done|constructor|]. intros z. cbn.
    split; [by intros ?%not_elem_of_nil|by intros (?&?%not_elem_of_nil&_)]. }
  destruct (Hf k) as (ys&E&HNy&Hy); [by left|].
  destruct IH as (yss&E'&HNs&Hs); [intros; apply Hf; by right|intros ??? ??; apply Hd; by right|].
  exists (ys :: yss). cbn. rewrite E. cbn. rewrite E'. split_and!; [done| |].
  - apply NoDup_app. split_and!; [done| |done]. intros z Hz%Hy (k'&Hk'&Hz')%Hs.
    apply Hk. by rewrite (Hd k k' z); [|by left|by right|..].
  - intros z. rewrite elem_of_app, Hy, Hs. setoid_rewrite elem_of_cons. naive_solver.
Qed.

Lemma Children_parsed t path p n :
  parsePath path = Ok p → node_at p (root t) = Some n → isLeaf n = false →
  Children t path = Ok ((λ k, child_info p k (default NewBranch (children n !! k))) <$> sortedKeys (children n)).
Proof.
  intros Hp Hn Hl. pose proof (parsePath_segments _ _ Hp) as Hv.
  pose proof (Children_ok t p n Hv Hn Hl) as H. unfold Children in *.
  rewrite (parsePath_trailing_dot p Hv) in H. rewrite Hp. cbn in *.
  rewrite (proj2 (lookup_ok _ _ _) Hn) in *. cbn in *. by rewrite Hl in *.
Qed.

Lemma Children_failed t path p :
  parsePath path = Ok p → (∀ n, node_at p (root t) = Some n → isLeaf n = true) →
  ∃ e, Children t path = Err e.
Proof.
  intros Hp Hn. unfold Children. rewrite Hp. cbn. destruct (node_at p (root t)) as [n|] eqn:E.
  - rewrite (proj2 (lookup_ok _ _ _) E). cbn. rewrite (Hn n) by done. by eexists.
  - apply lookup_err in E as [e ->]. by eexists.
Qed.

(** The name a child is listed under. *)
Lemma ciName_child p k c :
  Forall (λ s, valid_segment s = true) (p ++ [k]) →
  lastSegment (ciName (child_info p k c)) = k ∧
  with_dot (ciName (child_info p k c)) = joinPath (p ++ [k]) +:+ "." ∧
  Strings.HasSuffix (ciName (child_info p k c)) "." = negb (isLeaf c).
Proof.
  intros Hv. unfold child_info, isLeaf, with_dot. pose proof (joinPath_no_trailing_dot _ Hv) as Hd.
  assert (Strings.HasSuffix (joinPath (p ++ [k]) +:+ ".") "." = true) as Hd' by (apply Strings.HasSuffix_iff; by eexists).
  destruct (leaf c); cbn [ciName negb].
  - rewrite Hd. split_and!; try done. rewrite <-(str_app_nil_r (joinPath (p ++ [k]))). by apply (lastSegment_snoc p k false).
  - rewrite Hd'. split_and!; try done. by apply (lastSegment_snoc p k true).
Qed.

Lemma ciName_branch p k c :
  isLeaf c = false → ciName (child_info p k c) = joinPath (p ++ [k]) +:+ ".".
Proof. unfold isLeaf, child_info. by destruct (leaf c). Qed.

Lemma instance_node t p c :
  wf_tree t → instance_under t p c →
  ∃ n m, node_at p (root t) = Some n ∧ isLeaf n = false ∧ children n !! c = Some m ∧ isInstanceNumber c = true ∧
         node_at (p ++ [c]) (root t) = Some m.
Proof.
  intros Hw (n&Hn&[m Hm]&Hc). pose proof (wf_node_at _ _ _ Hw Hn) as Hwn.
  assert (isLeaf n = false) as Hl.
  { destruct (isLeaf n) eqn:E; [|done]. rewrite (wf_leaf_children n Hwn E) in Hm. by rewrite lookup_empty in Hm. }
  exists n, m. split_and!; try done. rewrite node_at_app, Hn. cbn. by rewrite Hl, Hm.
Qed.

Lemma instance_below_inv t p q :
  wf_tree t → instance_below t p q → (∃ c r, q = p ++ c :: r) ∧ is_Some (node_at q (root t)).
Proof.
  intros Hw. induction 1 as [p c Hi|p c g q Hi _ _ [(c'&r&->) Hq]].
  - apply instance_node in Hi as (n&m&_&_&_&_&Hm); [|done]. split; [by exists c, []|by exists m].
  - split; [|done]. exists c, ([g] ++ c' :: r). by rewrite <-(assoc_L (++)).
Qed.

Lemma instance_below_valid t p q :
  wf_tree t → instance_below t p q → Forall (λ s, valid_segment s = true) q.
Proof. intros Hw [_ [m Hm]]%(instance_below_inv _ _ _ Hw). by eapply wf_node_at_segments. Qed.

Lemma instance_below_cases t p q :
  instance_below t p q ↔
  ∃ c, instance_under t p c ∧
    (q = p ++ [c] ∨ ∃ g, object_under t (p ++ [c]) g ∧ instance_below t (p ++ [c; g]) q).
Proof.
  split.
  - destruct 1 as [p c|p c g q]; exists c; naive_solver.
  - intros (c&Hc&[->|(g&Hg&Hq)]); [by apply ib_here|by apply (ib_nested t p c g)].
Qed.

(** The recursion with enough fuel: what it returns for a table. *)
Definition found_under (t : Tree) (first : bool) (p q : list string) : Prop :=
  if first then ∃ c, instance_under t p c ∧ q = p ++ [c] else instance_below t p q.

Definition dotted (q : list string) : string := joinPath q +:+ ".".
Lemma dotted_inj q q' :
  Forall (λ s, valid_segment s = true) q → Forall (λ s, valid_segment s = true) q' →
  dotted q = dotted q' → q = q'.
Proof. intros ?? E%str_app_inj_r. by apply joinPath_inj. Qed.

(** What the listed child [k] contributes. *)
Definition from_child (t : Tree) (first : bool) (p : list string) (k : string) (z : string) : Prop :=
  instance_under t p k ∧ ∃ q, z = dotted q ∧
    (q = p ++ [k] ∨ (first = false ∧ ∃ g, object_under t (p ++ [k]) g ∧ instance_below t (p ++ [k; g]) q)).

Lemma from_child_found t first p z :
  (∃ k, from_child t first p k z) ↔ ∃ q, z = dotted q ∧ found_under t first p q.
Proof.
  unfold from_child, found_under. destruct first.
  - split; [intros (k&Hk&q&->&[->|[? _]]); [|done]; eexists; split; [done|]; by exists k|].
    intros (q&->&k&Hk&->). exists k. split; [done|]. eexists. split; [done|by left].
  - split.
    + intros (k&Hk&q&->&H). exists q. split; [done|]. apply instance_below_cases. exists k. split; [done|].
      destruct H as [->|[_ H]]; [by left|by right].
    + intros (q&->&(k&Hk&H)%instance_below_cases). exists k. split; [done|]. exists q. split; [done|].
      destruct H as [->|H]; [by left|by right].
Qed.

Lemma from_child_inv t first p k z :
  wf_tree t → from_child t first p k z →
  ∃ r, z = dotted (p ++ k :: r) ∧ Forall (λ s, valid_segment s = true) (p ++ k :: r).
Proof.
  intros Hw (Hk&q&->&[->|(_&g&_&Hq)]).
  - exists []. split; [done|]. apply (instance_below_valid t p); [done|by apply ib_here].
  - pose proof (instance_below_valid t _ _ Hw Hq) as Hv.
    apply instance_below_inv in Hq as [(c&r&->) _]; [|done]. rewrite <-(assoc_L (++)) in *. cbn in *. by eexists.
Qed.

Lemma from_child_disjoint t first p k k' z :
  wf_tree t → from_child t first p k z → from_child t first p k' z → k = k'.
Proof.
  intros Hw (r&->&Hv)%(from_child_inv _ _ _ _ _ Hw) (r'&E&Hv')%(from_child_inv _ _ _ _ _ Hw).
  apply dotted_inj in E; [|done..]. apply app_inv_head in E. congruence.
Qed.

(** The recursive call is right for every object directly in [m]. *)
Definition under_ok (under : string → option (result error (list string))) (t : Tree) (p : list string) (m : Node) : Prop :=
  ∀ g c, children m !! g = Some c → isLeaf c = false →
    ∃ out, under (dotted (p ++ [g])) = Some (Ok out) ∧ NoDup out ∧
      ∀ z, z ∈ out ↔ ∃ q, z = dotted q ∧ instance_below t (p ++ [g]) q.

Lemma deeper_spec under t p m :
  wf_tree t → node_at p (root t) = Some m → isLeaf m = false → under_ok under t p m →
  ∃ yss, mapM (λ gc, if negb (Strings.HasSuffix (ciName gc) ".") then Some []
                     else r ← under (ciName gc); Some (match r with Ok l => l | Err _ => [] end))
              ((λ g, child_info p g (default NewBranch (children m !! g))) <$> sortedKeys (children m)) = Some yss ∧
    NoDup (concat yss) ∧
    ∀ z, z ∈ concat yss ↔ ∃ g q, z = dotted q ∧ object_under t p g ∧ instance_below t (p ++ [g]) q.
Proof.
  intros Hw Hm Hl Hu. pose proof (wf_node_at _ _ _ Hw Hm) as Hwm.
  assert (∀ g, object_under t p g ↔ ∃ c, children m !! g = Some c ∧ isLeaf c = false) as Ho.
  { intros g. unfold object_under. rewrite Hm. naive_solver. }
  edestruct (collect_disjoint (λ g, child_info p g (default NewBranch (children m !! g)))
    (λ gc, if negb (Strings.HasSuffix (ciName gc) ".") then Some []
           else r ← under (ciName gc); Some (match r with Ok l => l | Err _ => [] end))
    (λ g z, ∃ q, z = dotted q ∧ object_under t p g ∧ instance_below t (p ++ [g]) q)
    (sortedKeys (children m))) as (yss&E&HN&Hin).
  - unfold sortedKeys. by apply Sort.NoDup_Strings, NoDup_keys.
  - intros g [c Hc]%elem_of_sortedKeys. cbv beta. rewrite Hc. change (default NewBranch (Some c)) with c.
    assert (Forall (λ s, valid_segment s = true) (p ++ [g])) as Hv.
    { eapply (wf_node_at_segments (root t) _ c); [done|]. rewrite node_at_app, Hm. cbn. by rewrite Hl, Hc. }
    destruct (ciName_child p g c Hv) as (_&_&->). destruct (isLeaf c) eqn:Hlc; cbn.
    + exists []. split_and!; [done|constructor|]. intros z.
      split; [by intros ?%not_elem_of_nil|]. intros (q&_&(c'&Hc'&Hl')%Ho&_). congruence.
    + rewrite ciName_branch by done. destruct (Hu g c Hc Hlc) as (out&Eo&HN&Hin). unfold dotted in Eo. rewrite Eo. cbn.
      assert (object_under t p g) by (apply Ho; by exists c).
      exists out. split_and!; try done. intros z. rewrite Hin. naive_solver.
  - intros g g' z _ _ (q&->&_&Hq) (q'&E&_&Hq').
    pose proof (instance_below_valid _ _ _ Hw Hq). pose proof (instance_below_valid _ _ _ Hw Hq').
    apply dotted_inj in E as <-; [|done..].
    apply instance_below_inv in Hq as [(?&?&->) _], Hq' as [(?&?&E) _]; [|done..].
    rewrite <-!(assoc_L (++)) in E. apply app_inv_head in E. cbn in E. congruence.
  - exists yss. split_and!; try done. intros z. rewrite Hin. setoid_rewrite elem_of_sortedKeys. split; [naive_solver|].
    intros (g&q&->&Hg&Hq). exists g. split; [|naive_solver]. apply Ho in Hg as (c&Hc&_). by exists c.
Qed.

Lemma child_spec under t first p n k :
  wf_tree t → node_at p (root t) = Some n → isLeaf n = false → is_Some (children n !! k) →
  (∀ m, first = false → children n !! k = Some m → under_ok under t (p ++ [k]) m) →
  ∃ ys, child_instances under t first (child_info p k (default NewBranch (children n !! k))) = Some ys ∧ NoDup ys ∧
    ∀ z, z ∈ ys ↔ from_child t first p k z.
Proof.
  intros Hw Hn Hl [m Hk] Hu. rewrite Hk. change (default NewBranch (Some m)) with m.
  assert (node_at (p ++ [k]) (root t) = Some m) as Hm by (rewrite node_at_app, Hn; cbn; by rewrite Hl, Hk).
  pose proof (wf_node_at_segments _ _ _ Hw Hm) as Hv.
  destruct (ciName_child p k m Hv) as (Hlast&Hdot&_). unfold child_instances. rewrite Hlast, Hdot.
  assert (instance_under t p k ↔ isInstanceNumber k = true) as Hi by (unfold instance_under; rewrite Hn; naive_solver).
  unfold from_child. destruct (isInstanceNumber k); cbn.
  2:{ exists []. split_and!; [done|constructor|]. intros z. split; [by intros ?%not_elem_of_nil|].
      intros [H _]. by apply Hi in H. }
  assert (instance_under t p k) as Hik by by apply Hi.
  destruct first.
  { eexists. split_and!; [done|apply NoDup_singleton|]. intros z. rewrite list_elem_of_singleton. unfold dotted.
    split; [intros ->; split; [done|]; eexists; split; [done|by left]|by intros (_&q&->&[->|[? _]])]. }
  destruct (isLeaf m) eqn:Hlm.
  { destruct (Children_failed t (dotted (p ++ [k])) (p ++ [k])) as [e E]; [by apply parsePath_trailing_dot|by rewrite Hm; intros ? [= <-]|].
    unfold dotted in E. rewrite E. eexists. split_and!; [done|apply NoDup_singleton|]. intros z. rewrite list_elem_of_singleton.
    split; [intros ->; split; [done|]; eexists; split; [done|by left]|].
    intros (_&q&->&[->|(_&g&(m'&c&Hm'&Hl'&_)&_)]); [done|]. congruence. }
  rewrite (Children_parsed t _ (p ++ [k]) m (parsePath_trailing_dot _ Hv) Hm Hlm).
  destruct (deeper_spec under t (p ++ [k]) m Hw Hm Hlm (Hu m eq_refl Hk)) as (yss&E&HN&Hin).
  rewrite E. cbn. eexists. split_and!; [done| |].
  - constructor; [|done]. rewrite Hin. intros (g&q&Hq&_&Hb).
    pose proof (instance_below_valid _ _ _ Hw Hb) as Hvq. apply dotted_inj in Hq; [|done..]. subst q.
    apply instance_below_inv in Hb as [(c&r&Hq) _]; [|done]. rewrite <-!(assoc_L (++)) in Hq.
    apply app_inv_head in Hq. done.
  - intros z. rewrite elem_of_cons, Hin. split.
    + intros [->|(g&q&->&Hg&Hb)]; (split; [done|]); eexists; (split; [done|]); [by left|right].
      split; [done|]. exists g. split; [done|]. by rewrite <-(assoc_L (++)) in Hb.
    + intros (_&q&->&[->|(_&g&Hg&Hb)]); [by left|right]. exists g, q.
      rewrite <-(assoc_L (++)). done.
Qed.

Lemma instances_of_spec t first fuel path p n :
  wf_tree t → parsePath path = Ok p → node_at p (root t) = Some n → isLeaf n = false → (node_size n < fuel)%nat →
  ∃ out, instancePathsUnder fuel t first path = Some (Ok out) ∧ NoDup out ∧
    ∀ z, z ∈ out ↔ ∃ q, z = dotted q ∧ found_under t first p q.
Proof.
  intros Hw. revert first path p n. induction fuel as [|fuel IH]; intros first path p n Hp Hn Hl Hf; [lia|].
  cbn [instancePathsUnder]. rewrite (Children_parsed t path p n Hp Hn Hl).
  pose proof (wf_node_at _ _ _ Hw Hn) as Hwn.
  assert (∀ k m, children n !! k = Some m → node_at (p ++ [k]) (root t) = Some m ∧ (node_size m < node_size n)%nat) as Hch.
  { intros k m Hk. split; [rewrite node_at_app, Hn; cbn; by rewrite Hl, Hk|].
    destruct n as [ch lf a tb]. cbn in Hk. by apply node_size_child with (k := k). }
  destruct (collect_disjoint (λ k, child_info p k (default NewBranch (children n !! k)))
    (child_instances (instancePathsUnder fuel t false) t first) (from_child t first p) (sortedKeys (children n)))
    as (yss&E&HN&Hin).
  - unfold sortedKeys. by apply Sort.NoDup_Strings, NoDup_keys.
  - intros k Hk%elem_of_sortedKeys. apply (child_spec _ t first p n k Hw Hn Hl Hk). intros m -> Hm g c Hg Hlc.
    destruct (Hch k m Hm) as [Hat Hsz]. assert (isLeaf m = false) as Hlm.
    { destruct (isLeaf m) eqn:El; [|done]. rewrite (wf_leaf_children m (wf_node_at _ _ _ Hw Hat) El) in Hg. by rewrite lookup_empty in Hg. }
    assert (node_at ((p ++ [k]) ++ [g]) (root t) = Some c) as Hc by (rewrite node_at_app, Hat; cbn; by rewrite Hlm, Hg).
    apply (IH false _ ((p ++ [k]) ++ [g]) c); [|done..|].
    + by apply parsePath_trailing_dot, (wf_node_at_segments (root t) _ c).
    + destruct m as [ch lf a tb]. cbn in Hg. pose proof (node_size_child ch lf a tb g c Hg). lia.
  - intros k k' z _ _. by apply from_child_disjoint.
  - rewrite E. cbn. eexists. split_and!; [done|done|]. intros z. rewrite Hin, <-from_child_found.
    split; [intros (k&_&?); by exists k|]. intros (k&Hk). exists k. split; [|done].
    destruct Hk as [(n'&Hn'&Hs&_) _]. apply elem_of_sortedKeys. by rewrite Hn in Hn'; injection Hn' as <-.
Qed.

Lemma node_size_at p n m : node_at p n = Some m → (node_size m ≤ node_size n)%nat.
Proof.
  revert n; induction p as [|s p IH]; intros [ch lf a tb]; cbn; [by intros [= <-]|].
  unfold isLeaf. cbn. destruct lf; [done|]. intros (c&Hc&Hm)%bind_Some.
  pose proof (node_size_child ch None a tb s c Hc) as H. cbn in H. apply IH in Hm. lia.
Qed.

(** The path names an object. *)
Definition names_object (t : Tree) (x : string) (p : list string) : Prop :=
  parsePath x = Ok p ∧ ∃ n, node_at p (root t) = Some n ∧ isLeaf n = false.

Lemma instancePathsUnder_cases t first x :
  wf_tree t →
  (∃ p out, names_object t x p ∧ instancePathsUnder (instances_fuel t) t first x = Some (Ok out) ∧
     ∀ z, z ∈ out ↔ ∃ q, z = dotted q ∧ found_under t first p q) ∨
  ((∀ p, ¬ names_object t x p) ∧ ∃ e, instancePathsUnder (instances_fuel t) t first x = Some (Err e)).
Proof.
  intros Hw. unfold names_object, instances_fuel. destruct (parsePath x) as [p|e] eqn:Hp.
  2:{ right. split; [by intros p [? _]|]. cbn. unfold Children. rewrite Hp. cbn. by eexists. }
  destruct (node_at p (root t)) as [n|] eqn:Hn; [destruct (isLeaf n) eqn:Hl|].
  - right. split; [intros p' ([= <-]&n'&Hn'&Hl'); congruence|].
    destruct (Children_failed t x p Hp) as [e E]; [rewrite Hn; by intros ? [= <-]|]. cbn. rewrite E. by eexists.
  - left. destruct (instances_of_spec t first (S (node_size (root t))) x p n Hw Hp Hn Hl) as (out&E&_&Hin).
    { apply Nat.lt_succ_r. by apply (node_size_at p). }
    exists p, out. split_and!; [done|by exists n|done..].
  - right. split; [intros p' ([= <-]&n'&Hn'&Hl'); congruence|].
    destruct (Children_failed t x p Hp) as [e E]; [rewrite Hn; by intros ? [=]|]. cbn. rewrite E. by eexists.
Qed.

Lemma collect_instances_spec t first xs :
  wf_tree t →
  ∃ l e, collect_instances t first xs = Some (l, e) ∧
    (∀ z, z ∈ l ↔ ∃ x p q, x ∈ xs ∧ names_object t x p ∧ z = dotted q ∧ found_under t first p q) ∧
    (is_Some e ↔ ∃ x, x ∈ xs ∧ ∀ p, ¬ names_object t x p).
Proof.
  intros Hw. unfold collect_instances. induction xs as [|x xs (l&e&E&Hl&He)] using rev_ind.
  { exists [], None. split_and!; [done|..].
    - intros z. split; [by intros ?%not_elem_of_nil|by intros (?&?&?&?%not_elem_of_nil&_)].
    - split; [by intros [? ?]|by intros (?&?%not_elem_of_nil&_)]. }
  rewrite foldl_snoc, E. cbn [mbind option_bind]. setoid_rewrite elem_of_app. setoid_rewrite list_elem_of_singleton.
  destruct (instancePathsUnder_cases t first x Hw) as [(p&out&Hx&->&Hout)|(Hx&e'&->)]; cbn.
  - exists (l ++ out), e. split_and!; [done|..].
    + intros z. rewrite elem_of_app, Hl, Hout. split.
      * intros [(x'&p'&q&?&?&?)|(q&?&?)]; [exists x', p', q|exists x, p, q]; naive_solver.
      * intros (x'&p'&q&[?| ->]&Hx'&?&?); [left; by exists x', p', q|right; exists q].
        destruct Hx as [Hp _], Hx' as [Hp' _]. assert (p' = p) as -> by congruence. done.
    + rewrite He. split; [intros (x'&?&?); exists x'; naive_solver|].
      intros (x'&[?| ->]&Hno); [by exists x'|]. by destruct (Hno p).
  - exists l, (Some e'). split_and!; [done|..].
    + intros z. rewrite Hl. split.
      * intros (x'&p'&q&?&?&?). exists x', p', q. naive_solver.
      * intros (x'&p'&q&[?| ->]&Hx'&?&?); [by exists x', p', q|]. by destruct (Hx p').
    + split; [|by eexists]. intros _. exists x. naive_solver.
Qed.

Lemma HandleGetInstances_path_total t first x :
  wf_tree t → ∃ r, HandleGetInstances_path t first x = Some r.
Proof.
  intros Hw. unfold HandleGetInstances_path.
  destruct (collect_instances_spec t first (ExpandSearchPath t x) Hw) as (l&e&->&_). cbn. by eexists.
Qed.

(** GetInstances always answers, each requested path once and in order,
    with exactly the instances of the tables the path stands for: those
    directly in them, or, when nested ones are asked for, also those in the
    objects directly inside an instance, level by level; each comes with its
    unique keys. A path gets 7026 when it finds no instance and one of the paths it stands for
    is not an object. *)
Theorem HandleGetInstances_finds (t : Tree) (msgID : string) (first : bool) (paths : list string) (Hw : wf_tree t) :
  ∃ rs, HandleGetInstances t msgID first paths = Some (MkMsg msgID GET_INSTANCES_RESP rs) ∧
    iRequestedPath <$> rs = paths ∧
    ∀ r, r ∈ rs → let xs := ExpandSearchPath t (iRequestedPath r) in
      (∀ i, i ∈ CurrInsts r ↔ i = MkCurrInstance (InstantiatedObjPath i) (uniqueKeysFor t (InstantiatedObjPath i)) ∧
         ∃ x p q, x ∈ xs ∧ names_object t x p ∧ InstantiatedObjPath i = dotted q ∧ found_under t first p q) ∧
      (iErrCode r = ErrCodeInvalidPath ↔ CurrInsts r = [] ∧ ∃ x, x ∈ xs ∧ ∀ p, ¬ names_object t x p) ∧
      (iErrCode r = 0%Z ∨ iErrCode r = ErrCodeInvalidPath).
Proof.
  unfold HandleGetInstances.
  assert (∃ rs, mapM (HandleGetInstances_path t first) paths = Some rs) as [rs Hrs].
  { apply mapM_is_Some. apply Forall_forall. intros x _. by apply HandleGetInstances_path_total. }
  rewrite Hrs. cbn. exists rs. split; [done|]. apply mapM_Some in Hrs.
  assert (Forall2 (λ x r, iRequestedPath r = x ∧ HandleGetInstances_path t first x = Some r) paths rs) as H2.
  { eapply Forall2_impl; [exact Hrs|]. intros x r Hr. split; [|done]. unfold HandleGetInstances_path in Hr.
    apply bind_Some in Hr as ([l e]&_&Hr). injection Hr as <-. by destruct (match l with [] => e | _ => None end). }
  split.
  { clear Hrs. induction H2 as [|x r paths rs [Hx _] _ IH]; cbn; congruence. }
  intros r Hr. apply list_elem_of_lookup in Hr as [i Hi]. destruct (Forall2_lookup_r _ _ _ _ _ H2 Hi) as (x&_&Hx&E).
  rewrite Hx. unfold HandleGetInstances_path in E.
  destruct (collect_instances_spec t first (ExpandSearchPath t x) Hw) as (l&e&Hc&Hl&He). rewrite Hc in E. cbn in E.
  injection E as E. destruct (match l with [] => e | _ :: _ => None end) as [e'|] eqn:Ee; subst r; cbn [CurrInsts iErrCode InstantiatedObjPath].
  - destruct l; [|done]. subst e. split_and!.
    + intros i'. split; [by intros ?%not_elem_of_nil|]. intros (_&H%Hl). by apply not_elem_of_nil in H.
    + split; [|done]. intros _. split; [done|]. apply He. by eexists.
    + by right.
  - split_and!; [|split; [done|]|by left].
    + intros i'. rewrite <-Hl, list_elem_of_fmap. split.
      * intros (z&->&Hz). cbn [InstantiatedObjPath]. split; [reflexivity|exact Hz].
      * intros [Ei Hz]. exists (InstantiatedObjPath i'). split; [exact Ei|exact Hz].
    + intros [El%fmap_nil_inv H]. apply He in H as [e' ->]. by rewrite El in Ee.
Qed.

Lemma HandleGetInstances_finds_witness :
  ∃ rs, HandleGetInstances ex_hosts "9" true ["Device.Host."; "Device.Nope."] = Some (MkMsg "9" GET_INSTANCES_RESP rs) ∧
    iRequestedPath <$> rs = ["Device.Host."; "Device.Nope."] ∧ length rs = 2%nat ∧
    Forall (λ r, iErrCode r = 0%Z ∨ iErrCode r = ErrCodeInvalidPath) rs.
Proof.
  assert (wf_tree ex_hosts) as Hw by (apply wf_nodeb_sound; vm_compute; reflexivity).
  destruct (HandleGetInstances_finds ex_hosts "9" true ["Device.Host."; "Device.Nope."] Hw) as (rs&E&Hp&H).
  exists rs. split_and!; [exact E|exact Hp| |].
  - apply (f_equal length) in Hp. by rewrite length_fmap in Hp.
  - apply Forall_forall. intros r Hr. apply (H r Hr).
Defined.

(** A table that sits one object deeper in a row is not a child of the row, so
    asking for nested instances does not reach it. *)
Definition branch (l : list (string * Node)) : Node := set_children (list_to_map l) NewBranch.
Definition ex_nested : Tree :=
  let row := branch [("P", NewLeaf (MkValue TypeString "" true))] in
  MkTree (branch [("T", branch [("1", branch [("V", branch [("1", row)]); ("O", branch [("U", branch [("1", row)])])])])])
    (MkObservers 0 ∅).
Lemma nested_in_object_missed :
  ∃ rs, HandleGetInstances ex_nested "1" false ["T."] = Some (MkMsg "1" GET_INSTANCES_RESP rs) ∧
    (InstantiatedObjPath <$> (rs ≫= CurrInsts)) = ["T.1."; "T.1.V.1."] ∧
    is_Some (node_at ["T"; "1"; "O"; "U"; "1"] (root ex_nested)).
Proof. eexists. split_and!; [vm_compute; reflexivity|vm_compute; reflexivity|by eexists]. Qed.

(** ** HandleGetSupportedDM *)

Inductive ParamAccessType := PARAM_READ_ONLY | PARAM_READ_WRITE.
Inductive ObjAccessType := OBJ_READ_ONLY.
Inductive ParamValueType := PARAM_BOOLEAN | PARAM_INT | PARAM_UNSIGNED_INT | PARAM_DATE_TIME | PARAM_STRING.
Inductive ValueChangeType := VALUE_CHANGE_WILL_IGNORE.

Definition isMultiInstancePath (objPath : string) : bool :=
  match Strings.CutLast (Strings.TrimSuffix objPath ".") "." with
  | None => false
  | Some (_, b) => isInstanceNumber b
  end.
Definition paramAccess (writable : bool) : ParamAccessType := if writable then PARAM_READ_WRITE else PARAM_READ_ONLY.
Definition paramValueType (t : Type_) : ParamValueType :=
  if String.eqb t TypeBoolean then PARAM_BOOLEAN
  else if String.eqb t TypeInt then PARAM_INT
  else if String.eqb t TypeUnsignedInt then PARAM_UNSIGNED_INT
  else if String.eqb t TypeDateTime then PARAM_DATE_TIME
  else PARAM_STRING.

Record SupportedParam := MkSupportedParam {
  ParamName : string; Access : ParamAccessType; ValueType : ParamValueType; ValueChange : ValueChangeType
}.
Record SupportedObject := MkSupportedObject {
  SupportedObjPath : string; oAccess : ObjAccessType; IsMultiInstance : bool; SupportedParams : list SupportedParam
}.
Record SupportedResult := MkSupportedResult {
  ReqObjPath : string; sErrCode : Z; sErrMsg : option error; SupportedObjs : list SupportedObject
}.
Record GetSupportedDM := MkGetSupportedDM {
  dmObjPaths : list string; FirstLevelOnly : bool; ReturnParams : bool
}.

Record objectInfo := MkObjectInfo { params : list SupportedParam; anyRead : bool }.
Definition supported_param (x : string * Value) : SupportedParam :=
  MkSupportedParam (splitLeaf x.1).2 (paramAccess (Writable x.2)) (paramValueType (vType x.2)) VALUE_CHANGE_WILL_IGNORE.
Definition info_add (returnParams : bool) (x : string * Value) (info : objectInfo) : objectInfo :=
  MkObjectInfo (params info ++ (if returnParams then [supported_param x] else []))
    (anyRead info || negb (Writable x.2)).
Definition info_zero : objectInfo := MkObjectInfo [] false.

Definition supportedObjects (t : Tree) (path : string) (req : GetSupportedDM) : result error (list SupportedObject) :=
  let depth := if FirstLevelOnly req then 1%Z else (-1)%Z in
  match Walk t path depth (λ p v st, (group_step param_key (info_add (ReturnParams req)) info_zero (p, v) st, None)) (∅, []) with
  | (_, Some _) => Err (errorf "path %q not found" [path])
  | ((byObject, order), None) =>
      Ok ((λ objPath, MkSupportedObject objPath OBJ_READ_ONLY (isMultiInstancePath objPath)
                        (params (default info_zero (byObject !! objPath)))) <$> sortStrings order)
  end.

Definition collect_supported (t : Tree) (req : GetSupportedDM) (concretes : list string)
  : list SupportedObject * option error :=
  foldl (λ '(objects, err) concrete,
    match supportedObjects t concrete req with
    | Err e => (objects, Some e)
    | Ok found => (objects ++ found, err)
    end) ([], None) concretes.
Definition HandleGetSupportedDM_path (t : Tree) (req : GetSupportedDM) (requested : string) : SupportedResult :=
  let '(objects, err) := collect_supported t req (ExpandSearchPath t requested) in
  let err := match objects with [] => err | _ :: _ => None end in
  match err with
  | Some e => MkSupportedResult requested ErrCodeInvalidPath (Some e) []
  | None => MkSupportedResult requested 0 None objects
  end.
Definition HandleGetSupportedDM (t : Tree) (msgID : string) (req : GetSupportedDM) : Msg (list SupportedResult) :=
  MkMsg msgID GET_SUPPORTED_DM_RESP (HandleGetSupportedDM_path t req <$> dmObjPaths req).

Lemma params_of_group rp l :
  params (foldl (flip (info_add rp)) info_zero l) = if rp then supported_param <$> l else [].
Proof.
  induction l as [|x l IH] using rev_ind; [by destruct rp|]. rewrite foldl_snoc. cbn. rewrite IH.
  destruct rp; [by rewrite fmap_app|done].
Qed.

(** What a report lists, each parameter with the object it is listed under. *)
Definition described (objs : list SupportedObject) : list (string * SupportedParam) :=
  flat_map (λ o, (λ q, (SupportedObjPath o, q)) <$> SupportedParams o) objs.

Lemma described_groups rp l os :
  NoDup os → (∀ o, o ∈ os ↔ o ∈ param_key <$> l) →
  described ((λ o, MkSupportedObject o OBJ_READ_ONLY (isMultiInstancePath o)
               (params (default info_zero ((group_all param_key (info_add rp) info_zero l).1 !! o)))) <$> os)
  ≡ₚ (if rp then (λ x, (param_key x, supported_param x)) <$> l else []).
Proof.
  intros HN Hin.
  assert (∀ o, o ∈ os → (λ q, (o, q)) <$> params (default info_zero ((group_all param_key (info_add rp) info_zero l).1 !! o))
     = if rp then (λ x, (param_key x, supported_param x)) <$> members param_key o l else []) as E.
  { intros o Ho%Hin. rewrite group_all_lookup, bool_decide_true by done. cbn. rewrite params_of_group.
    destruct rp; [|done]. rewrite <-list_fmap_compose. apply list_fmap_ext. intros i x Hx%list_elem_of_lookup_2. cbn.
    unfold members in Hx. by apply list_elem_of_filter in Hx as [-> _]. }
  assert (described ((λ o, MkSupportedObject o OBJ_READ_ONLY (isMultiInstancePath o)
      (params (default info_zero ((group_all param_key (info_add rp) info_zero l).1 !! o)))) <$> os)
    = flat_map (λ o, if rp then (λ x, (param_key x, supported_param x)) <$> members param_key o l else []) os) as ->.
  { clear HN Hin. unfold described. induction os as [|o os IH]; [done|]. cbn. f_equal; [by apply E; left|].
    apply IH. intros ? ?. apply E. by right. }
  destruct rp.
  - assert (∀ m : list string, flat_map (λ o, (λ x, (param_key x, supported_param x)) <$> members param_key o l) m =
      (λ x, (param_key x, supported_param x)) <$> flat_map (λ o, members param_key o l) m) as ->.
    { intros m. induction m as [|o m IH]; [done|]. cbn. by rewrite IH, fmap_app. }
    apply fmap_Permutation, members_concat; [done|]. intros x Hx. apply Hin, list_elem_of_fmap. by eexists.
  - clear. by induction os.
Qed.

(** The leaves a report on [p] covers. *)
Definition in_scope (req : GetSupportedDM) (p cs : list string) : Prop :=
  ∃ q, cs = p ++ q ∧ (FirstLevelOnly req = true → (length q ≤ 1)%nat).

Definition report_depth (req : GetSupportedDM) : Z := if FirstLevelOnly req then 1%Z else (-1)%Z.
Lemma elem_of_scope t req p n x :
  node_at p (root t) = Some n →
  x ∈ leaves_within (report_depth req) p n ↔
  ∃ cs v, x = (joinPath cs, v) ∧ in_scope req p cs ∧ view t cs = Some v.
Proof.
  intros Hn. destruct x as [s v]. rewrite (elem_of_leaves_within t _ p n s v Hn). unfold in_scope, report_depth. split.
  - intros (q&->&Hv&Hq). exists (p ++ q), v. split_and!; [done|exists q; split; [done|]|done].
    intros Hf. rewrite Hf in Hq. lia.
  - intros (cs&v'&[= -> ->]&(q&->&Hq)&Hv). exists q. split_and!; [done..|].
    destruct (FirstLevelOnly req); [right; specialize (Hq eq_refl); lia|left; lia].
Qed.

(** A report on the supported data model fails exactly when the path names
    nothing. Otherwise the objects are those that hold a parameter under the
    path, sorted and each listed once; and, when parameters are asked for,
    each parameter is listed exactly once, under the object that holds it,
    with its access and its type. *)
Theorem supportedObjects_describes (t : Tree) (path : string) (req : GetSupportedDM) (Hw : wf_tree t) :
  match supportedObjects t path req with
  | Err _ => ∀ p, parsePath path = Ok p → node_at p (root t) = None
  | Ok objs => ∃ p, parsePath path = Ok p ∧ is_Some (node_at p (root t)) ∧
      StronglySorted strings.String.le (SupportedObjPath <$> objs) ∧ NoDup (SupportedObjPath <$> objs) ∧
      (∀ o, o ∈ SupportedObjPath <$> objs ↔
        ∃ cs, in_scope req p cs ∧ is_Some (view t cs) ∧ (splitLeaf (joinPath cs)).1 = o) ∧
      (ReturnParams req = true → NoDup ((λ d, d.1 +:+ ParamName d.2) <$> described objs)) ∧
      ∀ o q, (o, q) ∈ described objs ↔ ReturnParams req = true ∧
        ∃ cs v, in_scope req p cs ∧ view t cs = Some v ∧ (splitLeaf (joinPath cs)).1 = o ∧
                q = supported_param (joinPath cs, v)
  end.
Proof.
  unfold supportedObjects. fold (report_depth req). rewrite Walk_pure.
  destruct (parsePath path) as [p|e] eqn:Hp; [|by intros].
  destruct (node_at p (root t)) as [n|] eqn:Hn.
  2:{ apply lookup_err in Hn as Hn'. destruct Hn' as [e ->]. by intros ? [= <-]. }
  rewrite (proj2 (lookup_ok _ _ _) Hn). set (l := leaves_within (report_depth req) p n).
  fold (group_all param_key (info_add (ReturnParams req)) info_zero l).
  pose proof (group_all_order param_key (info_add (ReturnParams req)) info_zero l) as [HN Hin].
  destruct (sortStrings_sorted (group_all param_key (info_add (ReturnParams req)) info_zero l).2) as [Hs Hperm].
  pose proof (described_groups (ReturnParams req) l
    (sortStrings (group_all param_key (info_add (ReturnParams req)) info_zero l).2)) as Hd.
  specialize (Hd ltac:(by rewrite Hperm) ltac:(intros o; by rewrite Hperm)).
  destruct (group_all param_key _ _ l) as [byObject order]. cbn [fst snd] in *.
  assert (∀ x, x ∈ l ↔ ∃ cs v, x = (joinPath cs, v) ∧ in_scope req p cs ∧ view t cs = Some v) as Hl.
  { intros x. by apply elem_of_scope. }
  set (objs := _ <$> sortStrings order) in *.
  assert (SupportedObjPath <$> objs = sortStrings order) as Ho.
  { unfold objs. rewrite <-list_fmap_compose. apply list_fmap_id. }
  rewrite Ho. exists p. split_and!; [done|by eexists|done|by rewrite Hperm|..].
  - intros o. rewrite Hperm, Hin, list_elem_of_fmap. setoid_rewrite Hl. split.
    + intros (x&->&cs&v&->&Hsc&Hv). exists cs. split_and!; [done|by eexists|done].
    + intros (cs&Hsc&[v Hv]&<-). exists (joinPath cs, v). split; [done|]. by exists cs, v.
  - intros Hr. rewrite Hr in Hd. rewrite Hd, <-list_fmap_compose.
    assert ((λ d, d.1 +:+ ParamName d.2) ∘ (λ x, (param_key x, supported_param x)) <$> l = l.*1) as ->.
    { apply list_fmap_ext. intros i x _. apply splitLeaf_cat. }
    apply (NoDup_leaves_within t); [done| |done]. by eapply parsePath_segments.
  - intros o q. rewrite Hd. destruct (ReturnParams req); [|split; [by intros ?%not_elem_of_nil|by intros [? _]]].
    rewrite list_elem_of_fmap. setoid_rewrite Hl. split.
    + intros (x&[= -> ->]&cs&v&->&Hsc&Hv). split; [done|]. by exists cs, v.
    + intros (_&cs&v&Hsc&Hv&<-&->). exists (joinPath cs, v). split; [done|]. by exists cs, v.
Qed.

Lemma supportedObjects_describes_witness :
  ∃ objs, supportedObjects ex_hosts "Device." (MkGetSupportedDM [] false true) = Ok objs ∧
    SupportedObjPath <$> objs = ["Device."; "Device.Host.1."; "Device.Host.2."] ∧
    NoDup ((λ d, d.1 +:+ ParamName d.2) <$> described objs).
Proof.
  assert (wf_tree ex_hosts) as Hw by (apply wf_nodeb_sound; vm_compute; reflexivity).
  pose proof (supportedObjects_describes ex_hosts "Device." (MkGetSupportedDM [] false true) Hw) as H.
  destruct (supportedObjects ex_hosts "Device." (MkGetSupportedDM [] false true)) as [objs|e] eqn:E.
  - destruct H as (p&_&_&_&_&_&HN&_). exists objs. split_and!; [reflexivity| |by apply HN].
    assert (supportedObjects ex_hosts "Device." (MkGetSupportedDM [] false true) = Ok objs) as E' by exact E.
    revert E'. vm_compute. by intros [= <-].
  - exfalso. revert E. vm_compute. discriminate.
Defined.
