(* ===== verification/UspWrites.v ===== *)
(** * The USP agent's writes ([internal/usp/agent/operations.go]: [HandleSet],
    [HandleAdd], [HandleDelete], [applyOne]).

    A handler takes the tree and returns the tree it leaves, the changes the
    observers were handed, and the answer. *)
From Stdlib Require Import ZArith Lia Ascii String.
From S2P Require Import Prelude GoLib GoText CpeErr Types Node Tree TreeProps Objects ObjectsProps Listing.
From S2P Require Import TreeInv UspPaths UspQueries UspDiscovery.

Definition ErrCodeResourcesExceeded : Z := 7005.
Definition ErrCodeMessageNotSupported : Z := 7004.
Definition ErrCodeParamActionFailed : Z := 7008.
Definition ErrCodeParamReadOnly : Z := 7010.
Definition ErrCodeObjectDoesNotExist : Z := 7016.
Definition ErrCodeObjectNotCreatable : Z := 7017.
Definition ErrCodeCommandFailure : Z := 7021.

(** [UpdateParamSetting] and [CreateParamSetting]. *)
Record ParamSetting := MkSetting { Param : string; sValue : string; Required : bool }.
Record ParameterError := MkParamError { peParam : string; peErrCode : Z; peErrMsg : error }.

(** An operation's status: its success, or a failure with code and message. *)
Inductive OperationStatus (A : Type) :=
| OperSuccess (a : A)
| OperFailure (code : Z) (msg : error).
Arguments OperSuccess {A}. Arguments OperFailure {A}.

Definition applyOne (t : Tree) (path raw : string) : Tree * list Change * option (Z * error) :=
  match Get t path with
  | Err _ => (t, [], Some (ErrCodeInvalidPath, errorf "path %q not found" [path]))
  | Ok current =>
      if negb (Writable current) then (t, [], Some (ErrCodeParamReadOnly, errorf "path %q is read-only" [path]))
      else
        match Set_ t path (MkValue (vType current) raw (Writable current)) with
        | (t', cs, Err e) => (t', cs, Some (ErrCodeParamActionFailed, e))
        | (t', cs, Ok _) => (t', cs, None)
        end
  end.

(** The settings of one target in order, up to the first required one that
    fails: what took, the other failures, and that failure. *)
Record applied := MkApplied {
  updated : gmap string string; paramErrs : list ParameterError; requiredErr : option ParameterError
}.
Fixpoint apply_settings (t : Tree) (target : string) (settings : list ParamSetting) (acc : applied)
  : Tree * list Change * applied :=
  match settings with
  | [] => (t, [], acc)
  | st :: rest =>
      match applyOne t (target +:+ Param st) (sValue st) with
      | (t1, cs1, None) =>
          let '(t2, cs2, r) := apply_settings t1 target rest
            (MkApplied (<[Param st := sValue st]> (updated acc)) (paramErrs acc) None) in
          (t2, cs1 ++ cs2, r)
      | (t1, cs1, Some (code, msg)) =>
          let pe := MkParamError (Param st) code msg in
          if Required st then (t1, cs1, MkApplied (updated acc) (paramErrs acc) (Some pe))
          else
            let '(t2, cs2, r) := apply_settings t1 target rest
              (MkApplied (updated acc) (paramErrs acc ++ [pe]) None) in
            (t2, cs1 ++ cs2, r)
      end
  end.
Definition applied_none : applied := MkApplied ∅ [] None.
(** The message quotes the text of the other one. *)
Definition required_failed (pe : ParameterError) : error :=
  Errorf "required parameter %q failed: %w" [peParam pe] (Some (peErrMsg pe)).

(** ** HandleSet *)

Record UpdateObject := MkUpdateObject { uObjPath : string; uParamSettings : list ParamSetting }.
Record UpdatedInstanceResult := MkUpdatedInstance {
  AffectedPath : string; UpdatedParams : gmap string string; uParamErrs : list ParameterError
}.
Record UpdatedObjectResult := MkUpdatedObject {
  uRequestedPath : string; uOperStatus : OperationStatus (list UpdatedInstanceResult)
}.

Fixpoint set_targets (t : Tree) (settings : list ParamSetting) (targets : list string)
  (instResults : list UpdatedInstanceResult)
  : Tree * list Change * (list UpdatedInstanceResult * option ParameterError) :=
  match targets with
  | [] => (t, [], (instResults, None))
  | target :: rest =>
      let '(t1, cs1, a) := apply_settings t target settings applied_none in
      match requiredErr a with
      | Some pe => (t1, cs1, (instResults, Some pe))
      | None =>
          let '(t2, cs2, r) := set_targets t1 settings rest
            (instResults ++ [MkUpdatedInstance target (updated a) (paramErrs a)]) in
          (t2, cs1 ++ cs2, r)
      end
  end.

Definition set_object (t : Tree) (obj : UpdateObject) : Tree * list Change * UpdatedObjectResult :=
  match ExpandSearchPath t (uObjPath obj) with
  | [] => (t, [], MkUpdatedObject (uObjPath obj)
             (OperFailure ErrCodeObjectDoesNotExist (errorf "path %q does not resolve to an object" [uObjPath obj])))
  | targets =>
      let '(t', cs, (instResults, requiredErr)) := set_targets t (uParamSettings obj) targets [] in
      (t', cs, MkUpdatedObject (uObjPath obj)
         (match requiredErr with
          | Some pe => OperFailure (peErrCode pe) (required_failed pe)
          | None => OperSuccess instResults
          end))
  end.

(** The objects of a message, one after the other on the same tree. *)
Fixpoint each_object {A B} (f : Tree → A → Tree * list Change * B) (t : Tree) (objs : list A)
  : Tree * list Change * list B :=
  match objs with
  | [] => (t, [], [])
  | o :: rest =>
      let '(t1, cs1, r) := f t o in
      let '(t2, cs2, rs) := each_object f t1 rest in (t2, cs1 ++ cs2, r :: rs)
  end.

Definition HandleSet (t : Tree) (msgID : string) (UpdateObjs : list UpdateObject)
  : Tree * list Change * Msg (list UpdatedObjectResult) :=
  let '(t', cs, results) := each_object set_object t UpdateObjs in (t', cs, MkMsg msgID SET_RESP results).

(** ** HandleAdd *)

Record CreateObject := MkCreateObject { cObjPath : string; cParamSettings : list ParamSetting }.
Record CreatedObject := MkCreated {
  InstantiatedPath : string; cParamErrs : list ParameterError; cUniqueKeys : gmap string string
}.
Record CreatedObjectResult := MkCreatedResult {
  cRequestedPath : string; cOperStatus : OperationStatus CreatedObject
}.

Definition instance_path (tablePath : string) (instance : Z) : string :=
  Strings.TrimSuffix tablePath "." +:+ ("." +:+ (Strconv.Itoa instance +:+ ".")).

Definition create_in (t : Tree) (obj : CreateObject) (tablePath : string)
  : Tree * list Change * OperationStatus CreatedObject :=
  match AddObject t tablePath with
  | (t1, cs1, Err e) => (t1, cs1, OperFailure ErrCodeObjectNotCreatable e)
  | (t1, cs1, Ok instance) =>
      let instancePath := instance_path tablePath instance in
      let '(t2, cs2, a) := apply_settings t1 instancePath (cParamSettings obj) applied_none in
      match requiredErr a with
      | Some pe =>
          let '(t3, cs3, _) := DeleteObject t2 instancePath in
          (t3, cs1 ++ cs2 ++ cs3, OperFailure (peErrCode pe) (required_failed pe))
      | None => (t2, cs1 ++ cs2, OperSuccess (MkCreated instancePath (paramErrs a) (uniqueKeysFor t2 instancePath)))
      end
  end.

Definition add_object (t : Tree) (obj : CreateObject) : Tree * list Change * CreatedObjectResult :=
  match ExpandSearchPath t (cObjPath obj) with
  | [tablePath] => let '(t', cs, st) := create_in t obj tablePath in (t', cs, MkCreatedResult (cObjPath obj) st)
  | tables =>
      (t, [], MkCreatedResult (cObjPath obj) (OperFailure ErrCodeObjectDoesNotExist
         (if (1 <? length tables)%nat
          then errorf "path %q resolves to %d objects, Add needs exactly one" [cObjPath obj; Strconv.Itoa (Z.of_nat (length tables))]
          else errorf "path %q does not resolve to an object" [cObjPath obj])))
  end.
Definition HandleAdd (t : Tree) (msgID : string) (CreateObjs : list CreateObject)
  : Tree * list Change * Msg (list CreatedObjectResult) :=
  let '(t', cs, results) := each_object add_object t CreateObjs in (t', cs, MkMsg msgID ADD_RESP results).

(** ** HandleDelete *)

Record DeletedObjectResult := MkDeletedResult {
  dRequestedPath : string; dOperStatus : OperationStatus (list string)
}.
Fixpoint delete_targets (t : Tree) (targets affected : list string) (failure : option error)
  : Tree * list Change * (list string * option error) :=
  match targets with
  | [] => (t, [], (affected, failure))
  | target :: rest =>
      let '(t1, cs1, r) := DeleteObject t target in
      let '(affected', failure') :=
        match r with Err e => (affected, Some e) | Ok _ => (affected ++ [target], failure) end in
      let '(t2, cs2, out) := delete_targets t1 rest affected' failure' in (t2, cs1 ++ cs2, out)
  end.
Definition delete_object (t : Tree) (path : string) : Tree * list Change * DeletedObjectResult :=
  let '(t', cs, (affected, failure)) := delete_targets t (ExpandSearchPath t path) [] None in
  (t', cs, MkDeletedResult path
     (match affected with
      | [] => OperFailure ErrCodeObjectDoesNotExist
                (default (errorf "path %q does not resolve to an object" [path]) failure)
      | _ :: _ => OperSuccess affected
      end)).
Definition HandleDelete (t : Tree) (msgID : string) (ObjPaths : list string)
  : Tree * list Change * Msg (list DeletedObjectResult) :=
  let '(t', cs, results) := each_object delete_object t ObjPaths in (t', cs, MkMsg msgID DELETE_RESP results).

(** ** One parameter, abstractly *)

(** The path an abstract write names, if it parses, is looked up in the store. *)
Definition spec_write (s : spec_store) (path raw : string) : result Z spec_store :=
  match parsePath path with
  | Err _ => Err ErrCodeInvalidPath
  | Ok p =>
      match s p with
      | None => Err ErrCodeInvalidPath
      | Some old =>
          if negb (Writable old) then Err ErrCodeParamReadOnly
          else if negb (valid_raw (vType old) raw) then Err ErrCodeParamActionFailed
          else Ok (spec_update p (with_raw raw old) s)
      end
  end.

Definition same_view (t : Tree) (s : spec_store) : Prop := ∀ q, view t q = s q.

Lemma applyOne_refines t path raw :
  match spec_write (view t) path raw with
  | Ok s' => ∃ t' cs, applyOne t path raw = (t', cs, None) ∧ same_view t' s'
  | Err code => ∃ msg, applyOne t path raw = (t, [], Some (code, msg))
  end.
Proof.
  unfold spec_write, applyOne, Get. destruct (parsePath path) as [p|e] eqn:Hp; cbn; [|by eexists].
  pose proof (resolve_leaf_view "paramtree.Get" path p (root t)) as Hl. unfold view.
  destruct (leaf_at p (root t)) as [old|] eqn:Hv.
  2:{ destruct Hl as (e&->&_). cbn. by eexists. }
  destruct Hl as (m&->&Hm&Hold). cbn. destruct (Writable old) eqn:Hw; cbn; [|by eexists].
  unfold Set_. rewrite Hp. pose proof (resolve_leaf_view "paramtree.Set" path p (root t)) as Hl. rewrite Hv in Hl.
  destruct Hl as (m'&->&Hm'&Hold'). rewrite Hw, String.eqb_refl. cbn.
  destruct (Validate (vType old) raw) as [u|e] eqn:HV.
  - assert (valid_raw (vType old) raw = true) as -> by by apply (Validate_ok _ _ u). cbn.
    eexists _, _. split; [done|]. intros q. unfold with_raw. rewrite <-Hw at 1.
    apply (view_set_leaf t p m' old _ Hm' Hold').
  - unfold valid_raw. rewrite HV. cbn. by eexists.
Qed.

(** What becomes of one write on its own: [None] when it takes. *)
Definition verdict (t : Tree) (path raw : string) : option Z :=
  match spec_write (view t) path raw with Ok _ => None | Err code => Some code end.

Lemma verdict_ext t t' path raw :
  (∀ q, parsePath path = Ok q → view t' q = view t q) → verdict t' path raw = verdict t path raw.
Proof.
  intros H. unfold verdict, spec_write. destruct (parsePath path) as [p|]; [|done]. rewrite (H p eq_refl).
  destruct (view t p) as [old|]; [|done]. destruct (Writable old); cbn; [|done].
  by destruct (valid_raw (vType old) raw).
Qed.

(** The tree after the writes [ws], each judged on the tree before them: the
    leaves of those that take hold the new value, the others are as before. *)
Definition performed (t t' : Tree) (ws : list (string * string)) : Prop :=
  (∀ path raw q, (path, raw) ∈ ws → verdict t path raw = None → parsePath path = Ok q →
     view t' q = with_raw raw <$> view t q) ∧
  (∀ q, (∀ path raw, (path, raw) ∈ ws → verdict t path raw = None → parsePath path ≠ Ok q) → view t' q = view t q).

(** No leaf is named twice. *)
Definition distinct (ws : list (string * string)) : Prop :=
  NoDup (omap (λ w, match parsePath w.1 with Ok p => Some p | Err _ => None end) ws).

Lemma distinct_app ws ws' path raw path' raw' q :
  distinct (ws ++ ws') → (path, raw) ∈ ws → (path', raw') ∈ ws' → parsePath path = Ok q → parsePath path' ≠ Ok q.
Proof.
  unfold distinct. rewrite omap_app. intros (_&H&_)%NoDup_app Hin Hin' Hq Hq'. apply (H q).
  - apply list_elem_of_omap. exists (path, raw). cbn. by rewrite Hq.
  - apply list_elem_of_omap. exists (path', raw'). cbn. by rewrite Hq'.
Qed.

Lemma performed_nil t : performed t t [].
Proof. split; [by intros ??? ?%not_elem_of_nil|done]. Qed.

Lemma performed_keeps t t1 ws ws' path raw :
  performed t t1 ws → distinct (ws ++ ws') → (path, raw) ∈ ws' →
  (∀ q, parsePath path = Ok q → view t1 q = view t q) ∧ verdict t1 path raw = verdict t path raw.
Proof.
  intros [_ Hf] Hd Hin.
  assert (∀ q, parsePath path = Ok q → view t1 q = view t q) as H.
  { intros q Hq. apply Hf. intros path' raw' Hin' _ Hq'. by apply (distinct_app ws ws' path' raw' path raw q Hd Hin' Hin). }
  split; [done|by apply verdict_ext].
Qed.

Lemma performed_app t t1 t2 ws ws' :
  distinct (ws ++ ws') → performed t t1 ws → performed t1 t2 ws' → performed t t2 (ws ++ ws').
Proof.
  intros Hd H1 H2. pose proof H1 as [Ha1 Hf1]. pose proof H2 as [Ha2 Hf2]. split.
  - intros path raw q [Hin|Hin]%elem_of_app Hv Hq.
    + rewrite <-(Ha1 path raw q Hin Hv Hq). apply Hf2. intros path' raw' Hin' _. by apply (distinct_app ws ws' path raw path' raw' q).
    + destruct (performed_keeps _ _ _ _ path raw H1 Hd Hin) as [Hk Hv'].
      rewrite <-(Hk q Hq). apply (Ha2 path raw); [done|by rewrite Hv'|done].
  - intros q Hn. rewrite Hf2.
    + apply Hf1. intros path raw Hin. apply (Hn path raw). apply elem_of_app. by left.
    + intros path raw Hin. destruct (performed_keeps _ _ _ _ path raw H1 Hd Hin) as [_ ->]. apply (Hn path raw).
      apply elem_of_app. by right.
Qed.

Lemma spec_write_ok s path raw s' :
  spec_write s path raw = Ok s' →
  ∃ p old, parsePath path = Ok p ∧ s p = Some old ∧ s' = spec_update p (with_raw raw old) s.
Proof.
  unfold spec_write. destruct (parsePath path) as [p|]; [|done]. destruct (s p) as [old|] eqn:E; [|done].
  destruct (Writable old); cbn; [|done]. destruct (valid_raw (vType old) raw); cbn; [|done].
  intros [= <-]. by exists p, old.
Qed.

Lemma applyOne_performed t path raw :
  performed t (applyOne t path raw).1.1 [(path, raw)] ∧
  match verdict t path raw with
  | None => (applyOne t path raw).2 = None
  | Some c => ∃ msg, applyOne t path raw = (t, [], Some (c, msg))
  end.
Proof.
  pose proof (applyOne_refines t path raw) as H. unfold verdict. destruct (spec_write (view t) path raw) as [s'|c] eqn:E.
  - destruct H as (t'&cs&->&Hs). split; [|done]. cbn.
    pose proof (spec_write_ok _ _ _ _ E) as (p&old&Hp&Ho&->).
    assert (verdict t path raw = None) as Hv by (unfold verdict; by rewrite E). split.
    + intros ?? q [= -> ->]%list_elem_of_singleton _ Hq. assert (q = p) as -> by congruence.
      rewrite Hs, Ho. unfold spec_update. by rewrite decide_True.
    + intros q Hq. rewrite Hs. unfold spec_update. case_decide as Hpq; [|done]. subst q. exfalso.
      apply (Hq path raw); [by apply list_elem_of_singleton|done|done].
  - destruct H as [msg H]. rewrite H. split; [|by exists msg]. cbn.
    assert (verdict t path raw = Some c) as Hv by (unfold verdict; by rewrite E). split; [|done].
    intros ?? q [= -> ->]%list_elem_of_singleton Hv' _. congruence.
Qed.

(** ** The settings of one target *)

Definition writes_to (target : string) (settings : list ParamSetting) : list (string * string) :=
  (λ st, (target +:+ Param st, sValue st)) <$> settings.
Definition verdict_of (t : Tree) (target : string) (st : ParamSetting) : option Z :=
  verdict t (target +:+ Param st) (sValue st).
Definition taken (t : Tree) (target : string) (settings : list ParamSetting) : gmap string string :=
  foldl (λ m st, match verdict_of t target st with None => <[Param st := sValue st]> m | Some _ => m end) ∅ settings.
Definition refused (t : Tree) (target : string) (settings : list ParamSetting) : list (string * Z) :=
  omap (λ st, (λ c, (Param st, c)) <$> verdict_of t target st) settings.
(** The settings before the first required one that fails, and that one. *)
Fixpoint until_required (t : Tree) (target : string) (settings : list ParamSetting)
  : list ParamSetting * option (ParamSetting * Z) :=
  match settings with
  | [] => ([], None)
  | st :: rest =>
      match verdict_of t target st, Required st with
      | Some c, true => ([], Some (st, c))
      | _, _ => let '(pre, fl) := until_required t target rest in (st :: pre, fl)
      end
  end.

Definition pe_code (pe : ParameterError) : string * Z := (peParam pe, peErrCode pe).

Lemma until_required_ext t t' target settings :
  (∀ st, st ∈ settings → verdict_of t' target st = verdict_of t target st) →
  until_required t' target settings = until_required t target settings.
Proof.
  induction settings as [|st rest IH]; intros H; [done|]. cbn. rewrite (H st) by left.
  rewrite IH; [done|]. intros; apply H. by right.
Qed.

Lemma taken_snoc t target pre st :
  taken t target (pre ++ [st]) =
    match verdict_of t target st with None => <[Param st := sValue st]> (taken t target pre) | Some _ => taken t target pre end.
Proof. unfold taken. by rewrite foldl_snoc. Qed.
Lemma refused_snoc t target pre st :
  refused t target (pre ++ [st]) =
    refused t target pre ++ match verdict_of t target st with None => [] | Some c => [(Param st, c)] end.
Proof. unfold refused. rewrite omap_app. cbn. by destruct (verdict_of t target st). Qed.

(** Started on the tree [t1] that the settings [done] have left, with what they
    have reported. *)
Lemma apply_settings_from t t1 target dn settings acc :
  distinct (writes_to target (dn ++ settings)) → performed t t1 (writes_to target dn) →
  updated acc = taken t target dn → pe_code <$> paramErrs acc = refused t target dn → requiredErr acc = None →
  let '(t2, cs, r) := apply_settings t1 target settings acc in
  let '(pre, fl) := until_required t target settings in
  performed t t2 (writes_to target (dn ++ pre)) ∧
  match fl with
  | Some (st, c) => ∃ msg, requiredErr r = Some (MkParamError (Param st) c msg)
  | None => requiredErr r = None ∧ pre = settings ∧
            updated r = taken t target (dn ++ settings) ∧ pe_code <$> paramErrs r = refused t target (dn ++ settings)
  end.
Proof.
  revert t1 dn acc. induction settings as [|st rest IH]; intros t1 dn acc Hd H1 Hu He Hr.
  { cbn. by rewrite app_nil_r. }
  cbn [apply_settings until_required]. unfold writes_to in Hd. rewrite fmap_app in Hd.
  destruct (performed_keeps t t1 _ _ (target +:+ Param st) (sValue st) H1 Hd) as [_ Hv]; [cbn; by left|].
  pose proof (applyOne_performed t1 (target +:+ Param st) (sValue st)) as [Hp Ha].
  rewrite Hv in Ha. fold (verdict_of t target st) in Ha.
  assert (performed t (applyOne t1 (target +:+ Param st) (sValue st)).1.1 (writes_to target (dn ++ [st]))) as H2.
  { unfold writes_to. rewrite fmap_app. apply (performed_app t t1); [|done..].
    unfold distinct in *. rewrite fmap_cons, cons_middle, (assoc_L (++)), omap_app in Hd. by apply NoDup_app in Hd as [? _]. }
  assert (∀ acc' : applied, updated acc' = taken t target (dn ++ [st]) →
    pe_code <$> paramErrs acc' = refused t target (dn ++ [st]) → requiredErr acc' = None →
    let '(t2, cs, r) := apply_settings (applyOne t1 (target +:+ Param st) (sValue st)).1.1 target rest acc' in
    let '(pre, fl) := until_required t target rest in
    performed t t2 (writes_to target (dn ++ st :: pre)) ∧
    match fl with
    | Some (st', c) => ∃ msg, requiredErr r = Some (MkParamError (Param st') c msg)
    | None => requiredErr r = None ∧ st :: pre = st :: rest ∧
              updated r = taken t target (dn ++ st :: rest) ∧ pe_code <$> paramErrs r = refused t target (dn ++ st :: rest)
    end) as Hgo.
  { intros acc' Hu' He' Hr'. specialize (IH (applyOne t1 (target +:+ Param st) (sValue st)).1.1 (dn ++ [st]) acc').
    rewrite <-(assoc_L (++)) in IH. unfold writes_to in IH at 1. rewrite fmap_app in IH. specialize (IH Hd H2 Hu' He' Hr').
    destruct (apply_settings _ _ rest acc') as [[t2 cs] r], (until_required t target rest) as [pre fl].
    rewrite <-!(assoc_L (++)) in IH. cbn in IH. destruct fl as [[??]|]; [exact IH|]. destruct IH as (?&?&->&?&?). done. }
  clear IH. rewrite taken_snoc, refused_snoc in Hgo.
  destruct (verdict_of t target st) as [c|].
  - destruct Ha as [msg E]. rewrite E in *. cbn [fst snd] in *. destruct (Required st).
    + cbn. rewrite app_nil_r. split; [done|by exists msg].
    + specialize (Hgo (MkApplied (updated acc) (paramErrs acc ++ [MkParamError (Param st) c msg]) None) Hu).
      cbn in Hgo. rewrite fmap_app in Hgo. specialize (Hgo (f_equal (λ l, l ++ [(Param st, c)]) He) eq_refl).
      destruct (apply_settings t1 target rest _) as [[t3 cs3] r], (until_required t target rest). exact Hgo.
  - destruct (applyOne t1 _ _) as [[t2 cs1] o]. cbn [fst snd] in *. subst o. specialize (Hgo (MkApplied (<[Param st:=sValue st]> (updated acc)) (paramErrs acc) None)).
    cbn in Hgo. rewrite app_nil_r in Hgo. specialize (Hgo (f_equal _ Hu) He eq_refl).
    destruct (apply_settings t2 target rest _) as [[t3 cs3] r], (until_required t target rest). exact Hgo.
Qed.

(** ** A Set *)

Definition all_writes (settings : list ParamSetting) (targets : list string) : list (string * string) :=
  flat_map (λ target, writes_to target settings) targets.

(** The writes made before a required setting fails, and that setting. *)
Fixpoint writes_until (t : Tree) (settings : list ParamSetting) (targets : list string)
  : list (string * string) * option (ParamSetting * Z) :=
  match targets with
  | [] => ([], None)
  | target :: rest =>
      let '(pre, fl) := until_required t target settings in
      match fl with
      | Some f => (writes_to target pre, Some f)
      | None => let '(ws, f) := writes_until t settings rest in (writes_to target settings ++ ws, f)
      end
  end.

(** The report on one target: what took, and what did not with its code. *)
Definition reports_target (t : Tree) (settings : list ParamSetting) (target : string) (i : UpdatedInstanceResult) : Prop :=
  AffectedPath i = target ∧ UpdatedParams i = taken t target settings ∧ pe_code <$> uParamErrs i = refused t target settings.

Lemma distinct_sub ws ws' : distinct (ws ++ ws') → distinct ws ∧ distinct ws'.
Proof. unfold distinct. rewrite omap_app. by intros (?&_&?)%NoDup_app. Qed.

Lemma verdict_of_keeps t t1 ws target settings ws' st :
  performed t t1 ws → distinct (ws ++ writes_to target settings ++ ws') → st ∈ settings →
  verdict_of t1 target st = verdict_of t target st.
Proof.
  intros H1 Hd Hst. eapply (performed_keeps t t1 ws); [done|exact Hd|]. apply elem_of_app. left.
  apply list_elem_of_fmap. by exists st.
Qed.

Lemma fold_ext_in {A B} (f g : A → B → A) l a : (∀ x a, x ∈ l → f a x = g a x) → foldl f a l = foldl g a l.
Proof.
  revert a; induction l as [|x l IH]; intros a H; [done|]. cbn. rewrite (H x) by left. apply IH. intros; apply H. by right.
Qed.

(** The reports a later target makes are those of the tree the object found. *)
Lemma reports_keep t t1 ws target settings ws' :
  performed t t1 ws → distinct (ws ++ writes_to target settings ++ ws') →
  taken t1 target settings = taken t target settings ∧ refused t1 target settings = refused t target settings ∧
  until_required t1 target settings = until_required t target settings.
Proof.
  intros H1 Hd.
  assert (∀ st, st ∈ settings → verdict_of t1 target st = verdict_of t target st) as Hv.
  { intros st Hst. by apply (verdict_of_keeps t t1 ws target settings ws'). }
  split_and!; [| |by apply until_required_ext].
  - unfold taken. apply fold_ext_in. intros st m Hst. by rewrite (Hv st Hst).
  - unfold refused. clear H1 Hd. induction settings as [|st rest IH]; [done|]. cbn. rewrite (Hv st) by left.
    rewrite IH; [done|]. intros; apply Hv. by right.
Qed.

Lemma set_targets_from t t1 settings ws targets insts :
  distinct (ws ++ all_writes settings targets) → performed t t1 ws →
  let '(t2, cs, (insts', re)) := set_targets t1 settings targets insts in
  let '(ws', fl) := writes_until t settings targets in
  performed t t2 (ws ++ ws') ∧
  match fl with
  | Some (st, c) => ∃ msg, re = Some (MkParamError (Param st) c msg)
  | None => re = None ∧ ws' = all_writes settings targets ∧
            ∃ more, insts' = insts ++ more ∧ Forall2 (reports_target t settings) targets more
  end.
Proof.
  revert t1 ws insts. induction targets as [|target rest IH]; intros t1 ws insts Hd H1; cbn [set_targets writes_until].
  { rewrite app_nil_r. split_and!; [done..|]. exists []. by rewrite app_nil_r. }
  cbn in Hd. destruct (reports_keep t t1 ws target settings _ H1 Hd) as (Ht&Hr&Hu).
  pose proof (apply_settings_from t1 t1 target [] settings applied_none) as Ha. cbn [app] in Ha.
  destruct (distinct_sub _ _ Hd) as [_ Hd2]. destruct (distinct_sub _ _ Hd2) as [Hd3 _].
  specialize (Ha Hd3 (performed_nil t1) eq_refl eq_refl eq_refl).
  destruct (apply_settings t1 target settings applied_none) as [[t2 cs1] a].
  rewrite Hu in Ha. destruct (until_required t target settings) as [pre fl] eqn:E. destruct Ha as [Hp Ha].
  assert (∃ post, settings = pre ++ post) as [post Hpost].
  { clear -E. revert pre fl E. induction settings as [|st l IH]; intros pre fl; cbn; [intros [= <- _]; by exists []|].
    destruct (verdict_of t target st), (Required st), (until_required t target l) as [pre' fl'];
      intros [= <- <-]; try (by eexists); destruct (IH _ _ eq_refl) as [post ->]; by exists post. }
  assert (performed t t2 (ws ++ writes_to target pre)) as H2.
  { apply (performed_app t t1); [|done..]. apply (distinct_sub _ (writes_to target post ++ all_writes settings rest)).
    unfold writes_to in *. rewrite Hpost, fmap_app in Hd at 1. by rewrite <-!(assoc_L (++)) in *. }
  destruct fl as [[st c]|].
  - destruct Ha as [msg ->]. split; [done|by exists msg].
  - destruct Ha as (->&->&Hup&Herr). specialize (IH t2 (ws ++ writes_to target settings)
      (insts ++ [MkUpdatedInstance target (updated a) (paramErrs a)])).
    rewrite <-(assoc_L (++)) in IH. specialize (IH Hd H2).
    destruct (set_targets t2 settings rest _) as [[t3 cs2] [insts' re]], (writes_until t settings rest) as [ws' fl].
    rewrite <-(assoc_L (++)) in IH. destruct IH as [Hp3 IH]. split; [done|]. destruct fl as [[??]|]; [done|].
    destruct IH as (->&->&more&->&Hm). split_and!; [done..|].
    exists (MkUpdatedInstance target (updated a) (paramErrs a) :: more). rewrite <-(assoc_L (++)). split; [done|].
    constructor; [|done]. split_and!; cbn; [done|by rewrite Hup|by rewrite Herr].
Qed.

(** What a Set does to one object, when its settings name each leaf once.
    A path that stands for nothing changes nothing and fails with 7016. When
    every required setting takes, the answer lists each target in order with
    exactly the settings that took and the refusals with their codes, and the
    tree holds the first and is otherwise as before. When one does not, the
    answer is its code, and the writes before it stay. *)
Theorem set_object_correct (t : Tree) (obj : UpdateObject)
  (Hd : distinct (all_writes (uParamSettings obj) (ExpandSearchPath t (uObjPath obj)))) :
  let '(t', cs, r) := set_object t obj in
  uRequestedPath r = uObjPath obj ∧
  let targets := ExpandSearchPath t (uObjPath obj) in
  match targets with
  | [] => t' = t ∧ cs = [] ∧ ∃ msg, uOperStatus r = OperFailure ErrCodeObjectDoesNotExist msg
  | _ :: _ =>
      let '(ws, fl) := writes_until t (uParamSettings obj) targets in
      performed t t' ws ∧
      match fl with
      | Some (st, code) => ∃ msg, uOperStatus r = OperFailure code msg
      | None => ws = all_writes (uParamSettings obj) targets ∧
                ∃ insts, uOperStatus r = OperSuccess insts ∧ Forall2 (reports_target t (uParamSettings obj)) targets insts
      end
  end.
Proof.
  unfold set_object. destruct (ExpandSearchPath t (uObjPath obj)) as [|target rest].
  { cbn. split_and!; [done..|]. by eexists. }
  pose proof (set_targets_from t t (uParamSettings obj) [] (target :: rest) [] Hd (performed_nil t)) as H.
  destruct (set_targets t _ (target :: rest) []) as [[t' cs] [insts re]]. split; [done|].
  destruct (writes_until t _ (target :: rest)) as [ws fl]. destruct H as [Hp H]. split; [exact Hp|].
  destruct fl as [[st code]|].
  - destruct H as [msg ->]. by eexists.
  - destruct H as (->&->&more&->&Hm). split; [done|]. by exists more.
Qed.

Lemma set_object_correct_witness :
  let obj := MkUpdateObject "Device.Host.*." [MkSetting "Port" "9" true; MkSetting "Serial" "x" false] in
  let '(t', cs, r) := set_object ex_hosts obj in
  performed ex_hosts t' (all_writes (uParamSettings obj) ["Device.Host.1."; "Device.Host.2."]) ∧
  ∃ insts, uOperStatus r = OperSuccess insts ∧ AffectedPath <$> insts = ["Device.Host.1."; "Device.Host.2."] ∧
           UpdatedParams <$> insts = [{["Port" := "9"]}; {["Port" := "9"]}] ∧
           fmap pe_code ∘ uParamErrs <$> insts = [[("Serial", 7010%Z)]; [("Serial", 7010%Z)]].
Proof.
  cbv zeta. set (obj := MkUpdateObject _ _).
  assert (ExpandSearchPath ex_hosts (uObjPath obj) = ["Device.Host.1."; "Device.Host.2."]) as Et by (vm_compute; reflexivity).
  assert (distinct (all_writes (uParamSettings obj) (ExpandSearchPath ex_hosts (uObjPath obj)))) as Hd.
  { apply (bool_decide_unpack (NoDup _)). vm_compute. done. }
  assert (writes_until ex_hosts (uParamSettings obj) ["Device.Host.1."; "Device.Host.2."] =
    (all_writes (uParamSettings obj) ["Device.Host.1."; "Device.Host.2."], None)) as Ew by (vm_compute; reflexivity).
  assert (taken ex_hosts "Device.Host.1." (uParamSettings obj) = {["Port" := "9"]} ∧
          taken ex_hosts "Device.Host.2." (uParamSettings obj) = {["Port" := "9"]}) as [T1 T2] by (split; vm_compute; reflexivity).
  assert (refused ex_hosts "Device.Host.1." (uParamSettings obj) = [("Serial", 7010%Z)] ∧
          refused ex_hosts "Device.Host.2." (uParamSettings obj) = [("Serial", 7010%Z)]) as [R1 R2] by (split; vm_compute; reflexivity).
  pose proof (set_object_correct ex_hosts obj Hd) as H. destruct (set_object ex_hosts obj) as [[t' cs] r].
  destruct H as [_ H]. cbv zeta in H. rewrite Et in H. cbv iota in H. rewrite Ew in H.
  destruct H as (Hp&_&insts&Hr&Hm). split; [exact Hp|]. exists insts. split; [exact Hr|].
  inversion_clear Hm as [|?? ?? (A1&U1&E1) Hm']. inversion_clear Hm' as [|?? ?? (A2&U2&E2) Hm'']. inversion_clear Hm''.
  rewrite T1 in U1. rewrite T2 in U2. rewrite R1 in E1. rewrite R2 in E2. clear -A1 A2 U1 U2 E1 E2.
  split_and!; [exact (f_equal2 (λ a b, [a; b]) A1 A2)|exact (f_equal2 (λ a b, [a; b]) U1 U2)|exact (f_equal2 (λ a b, [a; b]) E1 E2)].
Defined.

(** A required setting that fails leaves the settings before it written,
    although the object is reported as failed. *)
Lemma failed_set_half_written :
  let obj := MkUpdateObject "Device.Host.1." [MkSetting "Port" "9" true; MkSetting "Serial" "x" true] in
  let '(t', _, r) := set_object ex_hosts obj in
  (∃ msg, uOperStatus r = OperFailure ErrCodeParamReadOnly msg) ∧
  view ex_hosts ["Device"; "Host"; "1"; "Port"] = Some (MkValue TypeUnsignedInt "0" true) ∧
  view t' ["Device"; "Host"; "1"; "Port"] = Some (MkValue TypeUnsignedInt "9" true).
Proof. vm_compute. split_and!; [by eexists|done|done]. Qed.

(** ** Writes below an instance leave the tables as they are *)

(** What a write keeps of the node at a path: whether it is a leaf, its table
    mark and the names under it. *)
Definition same_shape (n n' : Node) : Prop :=
  isLeaf n' = isLeaf n ∧ table n' = table n ∧ dom (children n') = dom (children n).
Definition same_shapes (r r' : Node) : Prop := ∀ p,
  match node_at p r, node_at p r' with
  | Some n, Some n' => same_shape n n'
  | None, None => True
  | _, _ => False
  end.

#[export] Instance same_shapes_preorder : PreOrder same_shapes.
Proof.
  split.
  - intros r p. destruct (node_at p r); [by split_and!|done].
  - intros r1 r2 r3 H1 H2 p. specialize (H1 p). specialize (H2 p).
    destruct (node_at p r1), (node_at p r2), (node_at p r3); try done.
    destruct H1 as (?&?&?), H2 as (?&?&?). split_and!; congruence.
Qed.

Lemma same_shapes_set_leaf v p r m old :
  node_at p r = Some m → leaf m = Some old → same_shapes r (alter_at (set_leaf v) p r).
Proof.
  intros Hm Hl q. revert p r m Hm Hl. induction q as [|s q IH]; intros p r m Hm Hl.
  - destruct p as [|s' p]; cbn in Hm |- *.
    + injection Hm as ->. unfold same_shape, isLeaf. cbn. by rewrite Hl.
    + split_and!; [done..|]. cbn. unfold isLeaf in Hm. destruct (leaf r); [done|]. by rewrite dom_alter_L.
  - destruct p as [|s' p]; cbn in Hm |- *.
    + injection Hm as ->. unfold isLeaf. cbn. by rewrite Hl.
    + unfold isLeaf in *. cbn. destruct (leaf r) eqn:El; [done|]. destruct (decide (s' = s)) as [->|Hne].
      * rewrite lookup_alter_eq. destruct (children r !! s) as [c|]; cbn in *; [|done]. by apply (IH p c m).
      * rewrite lookup_alter_ne by done. destruct (children r !! s) as [c|]; cbn; [|done].
        destruct (node_at q c); [by split_and!|done].
Qed.

Lemma applyOne_tree t path raw :
  wf_tree t → wf_tree (applyOne t path raw).1.1 ∧ same_shapes (root t) (root (applyOne t path raw).1.1) ∧
  obs (applyOne t path raw).1.1 = obs t.
Proof.
  intros Hw. unfold applyOne. destruct (Get t path) as [v|e]; [|by split_and!]. destruct (Writable v); cbn; [|by split_and!].
  pose proof (proj1 (wf_ops_leaf t path "" (MkValue (vType v) raw true) Attributes_zero Hw)) as Hw'.
  destruct (Set_inv t path (MkValue (vType v) raw true)) as [[e E]|(p&m&old&_&Hm&Hl&_&E)]; rewrite E in *; cbn in *.
  - by split_and!.
  - split_and!; [done| |done]. by eapply same_shapes_set_leaf.
Qed.

Lemma apply_settings_tree t target settings acc :
  wf_tree t →
  let t' := (apply_settings t target settings acc).1.1 in wf_tree t' ∧ same_shapes (root t) (root t') ∧ obs t' = obs t.
Proof.
  revert t acc. induction settings as [|st rest IH]; intros t acc Hw; cbn; [by split_and!|].
  pose proof (applyOne_tree t (target +:+ Param st) (sValue st) Hw) as (Hw1&Hs1&Ho1).
  destruct (applyOne t _ _) as [[t1 cs1] [[c msg]|]]; cbn in *.
  - destruct (Required st); [by split_and!|].
    destruct (IH t1 (MkApplied (updated acc) (paramErrs acc ++ [MkParamError (Param st) c msg]) None) Hw1) as (?&?&?).
    destruct (apply_settings t1 _ _ _) as [[t2 cs2] r]. cbn in *. split_and!; [done|by etrans|congruence].
  - destruct (IH t1 (MkApplied (<[Param st:=sValue st]> (updated acc)) (paramErrs acc) None) Hw1) as (?&?&?).
    destruct (apply_settings t1 _ _ _) as [[t2 cs2] r]. cbn in *. split_and!; [done|by etrans|congruence].
Qed.

(** A path written below another one parses below it. *)
Lemma Split_under p s :
  p ≠ [] → Forall (λ x, valid_segment x = true) p →
  Strings.Split (joinPath p +:+ "." +:+ s) "." = p ++ Strings.Split s ".".
Proof.
  unfold joinPath. induction p as [|x [|y p] IH]; intros Hne Hv; [done| |]; inv Hv as [|?? Hx Hv'].
  - by apply Strings.Split_app, valid_segment_no_dot.
  - change (Strings.Join (x :: y :: p) "." +:+ "." +:+ s) with ((x +:+ String "." (Strings.Join (y :: p) ".")) +:+ "." +:+ s).
    rewrite str_app_assoc. change (String "." (Strings.Join (y :: p) ".") +:+ "." +:+ s)
      with (String "." (Strings.Join (y :: p) "." +:+ "." +:+ s)).
    rewrite Strings.Split_app by by apply valid_segment_no_dot. by rewrite IH.
Qed.

Lemma parse_under p s q :
  p ≠ [] → Forall (λ x, valid_segment x = true) p →
  parsePath (joinPath p +:+ "." +:+ s) = Ok q → p `prefix_of` q.
Proof.
  intros Hne Hv Hq. pose proof (parsePath_segments _ _ Hq) as Hvq. apply joinPath_parsePath in Hq.
  assert (q ≠ [] → Strings.Split (joinPath q) "." = q) as Hs.
  { intros Hq0. apply Strings.Split_Join; [done|]. eapply Forall_impl; [exact Hvq|]. intros; by apply valid_segment_no_dot. }
  pose proof (Split_under p s Hne Hv) as Hp.
  destruct (Strings.TrimSuffix_cases (joinPath p +:+ "." +:+ s) ".") as [E|[E _]]; rewrite <-Hq in E.
  - rewrite E in Hp. destruct (decide (q = [])) as [->|Hq0]; [destruct p as [|x [|y p]]; [done| |]; cbn in Hp|].
    + injection Hp as <- _. by inv Hv.
    + injection Hp as <- _. by inv Hv.
    + assert (q ++ [""] = p ++ Strings.Split s ".") as Hp'.
      { rewrite <-Hp. pose proof (Split_under q "" Hq0 Hvq) as H. cbn in H. by rewrite H. }
      destruct (prefix_weak_total p q (q ++ [""])) as [?|[r ->]]; [by eexists|by eexists|done|].
      rewrite <-(assoc_L (++)) in Hp'. apply app_inv_head in Hp'. destruct r as [|x r]; [by rewrite app_nil_r|].
      injection Hp' as <- _. apply Forall_app in Hv as [_ Hv]. by inv Hv.
  - rewrite <-E in Hp. destruct (decide (q = [])) as [->|Hq0].
    + destruct p as [|x p]; [done|]. injection Hp as <- _. by inv Hv.
    + rewrite Hs in Hp by done. by eexists.
Qed.

Lemma performed_outside t t' target pre p q :
  (∀ s r, parsePath (target +:+ s) = Ok r → p `prefix_of` r) → performed t t' (writes_to target pre) →
  ¬ p `prefix_of` q → view t' q = view t q.
Proof.
  intros Hu [_ Hf] Hq. apply Hf. intros path raw (st&[= -> ->]&_)%list_elem_of_fmap _ Hp. by apply Hq, (Hu (Param st)).
Qed.

Lemma count_instances_dom ch ch' : dom ch = dom ch' → count_instances ch = count_instances ch'.
Proof.
  intros Hd. unfold count_instances. f_equal. apply Permutation_length, omap_Permutation.
  apply NoDup_Permutation; [apply NoDup_keys..|]. intros k. rewrite !elem_of_keys, <-!elem_of_dom. by rewrite Hd.
Qed.

(** Deleting the instance again, whatever was written into it since. *)
Lemma delete_after_writes t t2 path p n n1 tmpl i :
  wf_tree t2 → parsePath path = Ok p → p ≠ [] → (1 ≤ i < 2 ^ 63)%Z →
  counter_honest t p n → children n !! Strconv.Itoa i = None →
  node_at p (root t2) = Some n1 → table n1 = Some tmpl →
  dom (children n1) = dom (<[Strconv.Itoa i := tmpl]> (children n)) →
  (∀ q, ¬ (p ++ [Strconv.Itoa i]) `prefix_of` q → view t2 q = recounted p (count_instances (children n) + 1) (view t) q) →
  (∀ q, view t (p ++ Strconv.Itoa i :: q) = None) →
  ∃ t3 cs3, DeleteObject t2 (instance_path path i) = (t3, cs3, Ok tt) ∧ ∀ q, view t3 q = view t q.
Proof.
  intros Hw Hp Hne Hi Hhon Hno Hn1 Ht Hdom Hout Hin. set (k := Strconv.Itoa i) in *.
  assert (instance_of k = Some i) as Hik by (apply instance_of_Itoa; lia).
  assert (is_Some (children n1 !! k)) as [c Hc] by (apply elem_of_dom; rewrite Hdom, dom_insert_L; set_solver).
  destruct (DeleteObject_frame t2 (instance_path path i) p k i n1 tmpl c) as (t3&E&_&Hgone&Hf); try done.
  { apply created_path_parses; [lia|done..]. }
  eexists _, _. split; [exact E|]. intros q. destruct (decide (p ++ [k] `prefix_of` q)) as [[s ->]|Hq].
  - rewrite <-(assoc_L (++)). change ([k] ++ s) with (k :: s). by rewrite Hgone, Hin.
  - rewrite (Hf q Hq).
    rewrite (count_instances_dom _ _ Hdom), (count_insert _ k tmpl i Hno Hik).
    replace (count_instances (children n) + 1 - 1)%Z with (count_instances (children n)) by lia.
    etrans; [|apply (recounted_honest t p n Hhon)]. unfold recounted at 1. rewrite (Hout q Hq).
    etrans; [|apply (recounted_twice p _ (count_instances (children n) + 1))]. unfold recounted at 3. done.
Qed.

(** ** An Add *)

Lemma instance_path_dotted path p i :
  parsePath path = Ok p → p ≠ [] → instance_path path i = dotted (p ++ [Strconv.Itoa i]).
Proof.
  intros Hp Hne. unfold instance_path, dotted. rewrite <-(joinPath_parsePath _ _ Hp), joinPath_snoc by done.
  by rewrite !str_app_assoc.
Qed.

(** The instance [create_in] creates, before the settings: the table's template
    under the smallest unused number, and the table's counter. *)
Lemma create_in_created (t : Tree) (path : string) (p : list string) (n tmpl : Node) (Hw : wf_tree t) (Hp : parsePath path = Ok p)
  (Hn : node_at p (root t) = Some n) (Ht : table n = Some tmpl) (Hok : table_ok t p) :
  ∃ i t1, AddObject t path = (t1, created_change t path i ++ counter_change t p (count_instances (children n) + 1), Ok i) ∧
    smallest_unused (children n) i ∧ wf_tree t1 ∧ children n !! Strconv.Itoa i = None ∧
    (∀ q, view t1 (p ++ Strconv.Itoa i :: q) = leaf_at q tmpl) ∧
    (∀ q, ¬ (p ++ [Strconv.Itoa i]) `prefix_of` q → view t1 q = recounted p (count_instances (children n) + 1) (view t) q) ∧
    node_at p (root t1) = Some (set_children (<[Strconv.Itoa i := tmpl]> (children n)) n).
Proof.
  destruct Hok as [Hcok Hsz]. specialize (Hsz n Hn).
  destruct (AddObject_frame t path p n tmpl Hw Hp Hn Ht) as (i&t1&E&Hsm&Hno&Hin&Hout&Hn1); [lia|].
  destruct (AddObject_ok_form t path p n tmpl Hw Hp Hn Ht) as (i'&r2&oc&_&Hi&Hfree&_&E'); [lia|].
  assert (i' = i) as -> by congruence. clear E'. exists i, t1. split; [done|]. split; [done|]. split; [|split; [done|split; [|done]]].
  - pose proof (wf_AddObject t path Hw) as H. rewrite E in H. apply H. intros p' n' Hp' Hn'.
    assert (p' = p) as -> by congruence. assert (n' = n) as -> by congruence. by split.
  - intros q. unfold view, leaf_at. rewrite cons_middle, (assoc_L (++)), node_at_app, Hin. done.
Qed.

(** The settings applied to it, and the instance taken back. *)
Lemma create_in_correct (t : Tree) (obj : CreateObject) (path : string) (p : list string) (n tmpl : Node)
  (Hw : wf_tree t) (Hp : parsePath path = Ok p) (Hne : p ≠ [])
  (Hn : node_at p (root t) = Some n) (Ht : table n = Some tmpl) (Hok : table_ok t p) (Hhon : counter_honest t p n) :
  let '(t', cs, st) := create_in t obj path in
  ∃ i t1, smallest_unused (children n) i ∧
    (∀ q, view t1 (p ++ Strconv.Itoa i :: q) = leaf_at q tmpl) ∧
    (∀ q, ¬ (p ++ [Strconv.Itoa i]) `prefix_of` q → view t1 q = recounted p (count_instances (children n) + 1) (view t) q) ∧
    (distinct (writes_to (dotted (p ++ [Strconv.Itoa i])) (cParamSettings obj)) →
    let '(pre, fl) := until_required t1 (dotted (p ++ [Strconv.Itoa i])) (cParamSettings obj) in
    match fl with
    | Some (_, code) => (∃ msg, st = OperFailure code msg) ∧ ∀ q, view t' q = view t q
    | None => performed t1 t' (writes_to (dotted (p ++ [Strconv.Itoa i])) (cParamSettings obj)) ∧
        ∃ errs, st = OperSuccess (MkCreated (dotted (p ++ [Strconv.Itoa i])) errs (uniqueKeysFor t' (dotted (p ++ [Strconv.Itoa i])))) ∧
                pe_code <$> errs = refused t1 (dotted (p ++ [Strconv.Itoa i])) (cParamSettings obj)
    end).
Proof.
  destruct (create_in_created t path p n tmpl Hw Hp Hn Ht Hok) as (i&t1&E&Hsm&Hw1&Hfree&Hin&Hout&Hn1).
  assert (i < 2 ^ 63)%Z as Hi.
  { destruct (AddObject_ok_form t path p n tmpl Hw Hp Hn Ht) as (i'&?&?&_&?&_&_&E'); [destruct Hok as [_ Hsz]; specialize (Hsz n Hn); lia|].
    congruence. }
  unfold create_in. rewrite E, (instance_path_dotted path p i Hp Hne). set (k := Strconv.Itoa i) in *. set (target := dotted (p ++ [k])).
  pose proof (apply_settings_from t1 t1 target [] (cParamSettings obj) applied_none) as Ha. cbn [app] in Ha.
  pose proof (apply_settings_tree t1 target (cParamSettings obj) applied_none Hw1) as Hsh. cbv zeta in Hsh.
  destruct (apply_settings t1 target (cParamSettings obj) applied_none) as [[t2 cs2] a]. cbn [fst] in Hsh.
  destruct (until_required t1 target (cParamSettings obj)) as [pre fl] eqn:Eu.
  destruct (requiredErr a) as [pe|] eqn:Er.
  - destruct (DeleteObject t2 target) as [[t3 cs3] r3] eqn:E3. exists i, t1. split; [done|]. split; [done|]. split; [done|]. intros Hd.
    change (dotted (p ++ [Strconv.Itoa i])) with target in *. rewrite Eu. destruct (Ha Hd (performed_nil t1) eq_refl eq_refl eq_refl) as [Hperf Hfl]. clear Ha.
    destruct fl as [[st c]|]; [|destruct Hfl as [? _]; congruence]. destruct Hfl as [msg Hfl]. injection Hfl as ->. split; [by eexists|].
    destruct Hsh as (Hw2&Hsh&_). specialize (Hsh p). rewrite Hn1 in Hsh.
    destruct (node_at p (root t2)) as [n2|] eqn:Hn2; [|done]. destruct Hsh as (_&Htb&Hdom). cbn in Htb, Hdom.
    assert (1 ≤ i)%Z as H1 by apply Hsm.
    pose proof (wf_table_not_leaf n tmpl (wf_node_at _ _ _ Hw Hn) Ht) as Hl.
    destruct (delete_after_writes t t2 path p n n2 tmpl i) as (t3'&cs3'&E3'&Hv); try done.
    + by rewrite Htb.
    + intros q Hq. rewrite <-(Hout q Hq). apply (performed_outside t1 t2 target pre (p ++ [k])); [|done..].
      intros s r. unfold target, dotted. rewrite str_app_assoc.
      apply parse_under; [by destruct p|]. apply Forall_app. split; [by eapply parsePath_segments|].
      constructor; [|done]. apply Itoa_valid_segment. lia.
    + intros q. fold k. unfold view, leaf_at. rewrite (orig_below _ _ _ Hn Hl), Hfree. done.
    + rewrite (instance_path_dotted path p i Hp Hne) in E3'. fold k target in E3'. rewrite E3 in E3'. by injection E3' as -> _ _.
  - exists i, t1. split; [done|]. split; [done|]. split; [done|]. intros Hd.
    change (dotted (p ++ [Strconv.Itoa i])) with target in *. rewrite Eu. destruct (Ha Hd (performed_nil t1) eq_refl eq_refl eq_refl) as [Hperf Hfl]. clear Ha.
    destruct fl as [[st c]|]; [destruct Hfl as [msg Hfl]; congruence|]. destruct Hfl as (_&->&_&Herr). split; [done|].
    by eexists.
Qed.


(** The second setting of this Add is read-only in the rows of [ex_hosts]. *)
Definition ex_add : CreateObject :=
  MkCreateObject "Device.Host." [MkSetting "Port" "9" true; MkSetting "Serial" "x" true].
Definition ex_hosts_table : Node := default NewBranch (node_at ["Device"; "Host"] (root ex_hosts)).

Lemma ex_hosts_wf : wf_tree ex_hosts.
Proof. apply wf_nodeb_sound. vm_compute. reflexivity. Qed.
Lemma ex_hosts_at : node_at ["Device"; "Host"] (root ex_hosts) = Some ex_hosts_table.
Proof. vm_compute. reflexivity. Qed.
Lemma ex_hosts_row : table ex_hosts_table = Some ex_row.
Proof. vm_compute. reflexivity. Qed.
Lemma ex_hosts_count : view ex_hosts ["Device"; "HostNumberOfEntries"] = Some (MkValue TypeUnsignedInt "2" false).
Proof. vm_compute. reflexivity. Qed.
Lemma ex_hosts_counter : counter_path ["Device"; "Host"] = Some ["Device"; "HostNumberOfEntries"].
Proof. vm_compute. reflexivity. Qed.
Lemma ex_hosts_size : (size (children ex_hosts_table) = 2%nat) ∧ count_instances (children ex_hosts_table) = 2%Z.
Proof. vm_compute. done. Qed.
Lemma table_ok_of t p n c v :
  counter_path p = Some c → view t c = Some v → counter_type (vType v) = true → node_at p (root t) = Some n →
  (Z.of_nat (size (children n)) + 1 < 2 ^ 31)%Z → table_ok t p.
Proof. intros Hc Hv Ht Hn Hs. split; [|naive_solver]. intros c' v' Hc' Hv'. unfold view in Hv. congruence. Qed.
Lemma counter_honest_of t p n c v :
  counter_path p = Some c → view t c = Some v → Raw v = Strconv.Itoa (count_instances (children n)) → counter_honest t p n.
Proof. intros Hc Hv Hr c' v' Hc' Hv'. congruence. Qed.
Lemma ex_hosts_table_ok : table_ok ex_hosts ["Device"; "Host"].
Proof.
  apply (table_ok_of _ _ _ _ _ ex_hosts_counter ex_hosts_count eq_refl ex_hosts_at).
  rewrite (proj1 ex_hosts_size). lia.
Qed.
Lemma ex_hosts_honest : counter_honest ex_hosts ["Device"; "Host"] ex_hosts_table.
Proof. apply (counter_honest_of _ _ _ _ _ ex_hosts_counter ex_hosts_count). by rewrite (proj2 ex_hosts_size). Qed.
Definition ex_add_settings (i : Z) : list (string * string) := writes_to (dotted (["Device"; "Host"] ++ [Strconv.Itoa i])) (cParamSettings ex_add).
Lemma ex_add_distinct : distinct (ex_add_settings 3).
Proof. apply (bool_decide_unpack (NoDup _)). vm_compute. exact I. Qed.
Lemma ex_add_expands : ExpandSearchPath ex_hosts (cObjPath ex_add) = ["Device.Host."].
Proof. vm_compute. reflexivity. Qed.
Lemma smallest_unused_unique ch i j : smallest_unused ch i → smallest_unused ch j → i = j.
Proof.
  intros (H1&Hn&Ha) (H1'&Hn'&Ha'). destruct (Z.lt_trichotomy i j) as [Hl|[?|Hl]]; [|done|].
  - destruct (Ha' i (conj H1 Hl)) as (k&[c Hc]&Hk). by destruct (Hn k c Hc).
  - destruct (Ha j (conj H1' Hl)) as (k&[c Hc]&Hk). by destruct (Hn' k c Hc).
Qed.
Lemma ex_add_at : (AddObject ex_hosts "Device.Host.").2 = Ok 3%Z.
Proof. vm_compute. reflexivity. Qed.
Lemma ex_smallest i : smallest_unused (children ex_hosts_table) i → i = 3%Z.
Proof.
  destruct (create_in_created ex_hosts "Device.Host." ["Device"; "Host"] ex_hosts_table ex_row ex_hosts_wf eq_refl ex_hosts_at
    ex_hosts_row ex_hosts_table_ok) as (i'&t1&E&H&_). pose proof ex_add_at as Hi. rewrite E in Hi. injection Hi as ->. clear E.
  intros H'. exact (smallest_unused_unique _ _ _ H' H).
Qed.
(** The first setting takes, the second is required and read-only. *)
Lemma ex_add_until t1 :
  (∀ q, view t1 (["Device"; "Host"] ++ Strconv.Itoa 3 :: q) = leaf_at q ex_row) →
  (∀ q, ¬ (["Device"; "Host"] ++ [Strconv.Itoa 3]) `prefix_of` q →
    view t1 q = recounted ["Device"; "Host"] (count_instances (children ex_hosts_table) + 1) (view ex_hosts) q) →
  until_required t1 (dotted (["Device"; "Host"] ++ [Strconv.Itoa 3])) (cParamSettings ex_add)
    = ([MkSetting "Port" "9" true], Some (MkSetting "Serial" "x" true, ErrCodeParamReadOnly)).
Proof.
  intros Hin Hout.
  destruct (create_in_created ex_hosts "Device.Host." ["Device"; "Host"] ex_hosts_table ex_row ex_hosts_wf eq_refl ex_hosts_at
    ex_hosts_row ex_hosts_table_ok) as (i'&t2&E&_&_&_&Hin2&Hout2&_). pose proof ex_add_at as Hi. rewrite E in Hi. injection Hi as ->.
  assert (∀ q, view t1 q = view t2 q) as Hv.
  { intros q. destruct (decide ((["Device"; "Host"] ++ [Strconv.Itoa 3]) `prefix_of` q)) as [[r ->]|Hq].
    - rewrite <-(assoc_L (++)). change ([Strconv.Itoa 3] ++ r) with (Strconv.Itoa 3 :: r). by rewrite Hin, Hin2.
    - by rewrite Hout, Hout2. }
  rewrite (until_required_ext t2 t1) by (intros; apply verdict_ext; intros; apply Hv).
  assert (until_required (AddObject ex_hosts "Device.Host.").1.1 (dotted (["Device"; "Host"] ++ [Strconv.Itoa 3])) (cParamSettings ex_add)
    = ([MkSetting "Port" "9" true], Some (MkSetting "Serial" "x" true, ErrCodeParamReadOnly))) as Hu by (vm_compute; reflexivity).
  rewrite E in Hu. exact Hu.
Qed.
