(* ===== verification/UspDelete.v ===== *)
(** * Deleting over USP: what [HandleDelete] leaves behind. *)
From Stdlib Require Import ZArith Lia Ascii String.
From S2P Require Import Prelude GoLib GoText CpeErr Types Node Tree TreeProps Objects ObjectsProps Listing.
From S2P Require Import TreeInv UspPaths UspQueries UspDiscovery UspWrites.

(** ** Trees that only lose nodes *)

Definition shrunk (n n' : Node) : Prop :=
  table n' = table n ∧ dom (children n') ⊆ dom (children n) ∧
  (leaf n' = leaf n ∨ ∃ v raw, leaf n = Some v ∧ leaf n' = Some (with_raw raw v)).
Definition shrinks (r r' : Node) : Prop :=
  ∀ q n', node_at q r' = Some n' → ∃ n, node_at q r = Some n ∧ shrunk n n'.

Lemma shrunk_leaf n n' : shrunk n n' → isLeaf n' = isLeaf n.
Proof. unfold isLeaf. by intros (_&_&[->|(v&raw&->&->)]). Qed.

#[export] Instance shrunk_preorder : PreOrder shrunk.
Proof.
  split.
  - intros n. split_and!; [done|done|by left].
  - intros n1 n2 n3 (T1&D1&L1) (T2&D2&L2). split_and!; [congruence|set_solver|].
    destruct L2 as [->|(v&raw&E2&->)]; [done|].
    destruct L1 as [E1|(w&raw'&E1&E3)]; right.
    + exists v, raw. split; [congruence|done].
    + exists w, raw. split; [done|]. assert (v = with_raw raw' w) as -> by congruence. done.
Qed.
#[export] Instance shrinks_preorder : PreOrder shrinks.
Proof.
  split.
  - intros r q n Hn. by exists n.
  - intros r1 r2 r3 H1 H2 q n3 (n2&Hn2&S2)%H2. apply H1 in Hn2 as (n1&Hn1&S1). exists n1. split; [done|by etrans].
Qed.

(** Replacing a node by one that shrinks it shrinks the tree. *)
Lemma shrinks_alter f p r m :
  node_at p r = Some m → shrinks m (f m) → shrinks r (alter_at f p r).
Proof.
  revert r. induction p as [|s p IH]; intros r Hm Hs; cbn in Hm |- *; [by injection Hm as <-|].
  destruct (isLeaf r) eqn:Hl; [done|]. apply bind_Some in Hm as (c&Hc&Hm).
  intros q n'. destruct q as [|s' q]; cbn.
  - intros [= <-]. exists r. split; [done|]. split_and!; [done| |by left]. cbn. by rewrite dom_alter_L.
  - unfold isLeaf in *. cbn. destruct (leaf r); [done|]. destruct (decide (s = s')) as [<-|Hne].
    + rewrite lookup_alter_eq, Hc. cbn. apply (IH c Hm Hs).
    + rewrite lookup_alter_ne by done. intros Hn. by exists n'.
Qed.

Lemma shrinks_delete n k : shrinks n (set_children (delete k (children n)) n).
Proof.
  intros q n'. destruct q as [|s q]; cbn.
  - intros [= <-]. exists n. split; [done|]. split_and!; [done| |by left]. cbn. rewrite dom_delete_L. set_solver.
  - unfold isLeaf. cbn. destruct (leaf n); [done|]. intros (c&[_ Hc]%lookup_delete_Some&Hn)%bind_Some.
    exists n'. rewrite Hc. by split.
Qed.

Lemma shrinks_set_leaf n v raw : leaf n = Some v → shrinks n (set_leaf (with_raw raw v) n).
Proof.
  intros Hl q n'. destruct q as [|s q]; cbn.
  - intros [= <-]. exists n. split; [done|]. split_and!; [done|done|]. right. by exists v, raw.
  - unfold isLeaf. cbn. by destruct q.
Qed.

Lemma shrinks_sync h r segs n tbl :
  Forall (λ s, valid_segment s = true) segs → node_at segs r = Some n →
  shrinks r (syncEntryCount h r segs tbl).1.
Proof.
  intros Hv Hn. destruct (syncEntryCount_cases h r segs n tbl Hv Hn) as [[E _]|(c&m&old&_&Hm&Hl&_&E)]; rewrite E; cbn; [done|].
  apply (shrinks_alter _ _ _ m Hm). by apply shrinks_set_leaf.
Qed.

(** ** One deletion *)

(** Every table of the tree has a counter that can count it. *)
Definition tables_ok (t : Tree) : Prop :=
  ∀ p n, node_at p (root t) = Some n → is_Some (table n) → table_ok t p.

Lemma tables_ok_shrinks t t' : shrinks (root t) (root t') → tables_ok t → tables_ok t'.
Proof.
  intros Hs Hok p n' Hn' Ht. destruct (Hs p n' Hn') as (n&Hn&Htab&Hd&_). rewrite Htab in Ht.
  destruct (Hok p n Hn Ht) as [Hc Hsz]. split.
  - intros c v' Hcp (m'&Hm'&Hl')%leaf_at_node. destruct (Hs c m' Hm') as (m&Hm&_&_&[E|(v&raw&El&El')]).
    + apply (Hc c v'); [done|]. apply leaf_at_node. exists m. by rewrite <-E.
    + rewrite El' in Hl'. injection Hl' as <-. cbn. apply (Hc c v); [done|]. apply leaf_at_node. by exists m.
  - intros n2 Hn2. assert (n2 = n') as -> by congruence. specialize (Hsz n Hn).
    assert (size (children n') ≤ size (children n))%nat; [|lia].
    rewrite <-!size_dom. by apply subseteq_size.
Qed.

(** [x] names an instance of a table. *)
Definition names_instance (t : Tree) (x : string) (p : list string) (k : string) : Prop :=
  parsePath x = Ok (p ++ [k]) ∧ is_Some (instance_of k) ∧
  ∃ n c, node_at p (root t) = Some n ∧ is_Some (table n) ∧ children n !! k = Some c.

Lemma DeleteObject_at t x p k n tmpl c :
  wf_tree t → tables_ok t → parsePath x = Ok (p ++ [k]) → is_Some (instance_of k) →
  node_at p (root t) = Some n → table n = Some tmpl → children n !! k = Some c →
  ∃ t' cs, DeleteObject t x = (t', cs, Ok tt) ∧
     wf_tree t' ∧ shrinks (root t) (root t') ∧ node_at (p ++ [k]) (root t') = None ∧
     (∀ q, ¬ (p ++ [k]) `prefix_of` q → counter_path p ≠ Some q → view t' q = view t q).
Proof.
  intros Hw Hok Hp [i Hi] Hn Ht Hc.
  destruct (DeleteObject_frame t x p k i n tmpl c Hw Hp Hi Hn Ht Hc) as (t'&E&Hgone&_&Hf).
  destruct (DeleteObject_ok_form t x p k i n tmpl c Hp Hi Hn Ht Hc) as (r2&oc&Hs&E').
  assert (t' = set_root t r2) as -> by congruence.
  eexists _, _. split_and!; [exact E| | |done|].
  - pose proof (wf_DeleteObject t x Hw) as H. rewrite E in H. apply H. intros p' k' n' Hp' Hn'.
    assert (p' ++ [k'] = p ++ [k]) as [-> ->]%app_inj_tail by congruence. assert (n' = n) as -> by congruence.
    destruct (Hok p n Hn) as [? Hsz]; [by rewrite Ht|]. split; [done|]. specialize (Hsz n Hn). lia.
  - apply parsePath_segments, Forall_app in Hp as [Hv _]. cbn.
    transitivity (alter_at (λ _, set_children (delete k (children n)) n) p (root t)).
    + apply (shrinks_alter _ _ _ n Hn). apply shrinks_delete.
    + change r2 with ((r2, oc).1). rewrite <-Hs. apply (shrinks_sync _ _ _ (set_children (delete k (children n)) n)); [done|].
      by apply (replace_at (root t) n).
  - intros q Hq Hcq. rewrite (Hf q Hq). unfold recounted. by rewrite decide_False.
Qed.

Lemma DeleteObject_cases t x :
  wf_tree t → tables_ok t →
  (∃ p k t' cs, names_instance t x p k ∧ DeleteObject t x = (t', cs, Ok tt) ∧
     wf_tree t' ∧ shrinks (root t) (root t') ∧ node_at (p ++ [k]) (root t') = None ∧
     (∀ q, ¬ (p ++ [k]) `prefix_of` q → counter_path p ≠ Some q → view t' q = view t q)) ∨
  ((∀ p k, ¬ names_instance t x p k) ∧ ∃ e, DeleteObject t x = (t, [], Err e)).
Proof.
  intros Hw Hok. pose proof (DeleteObject_at t x) as Hat.
  assert (∀ p k n, parsePath x = Ok (p ++ [k]) → node_at p (root t) = Some n →
    (∀ i tmpl c, instance_of k = Some i → table n = Some tmpl → children n !! k = Some c → False) →
    ∀ p k, ¬ names_instance t x p k) as Hno.
  { intros p k n Hp Hn H p' k' (Hp'&[i Hi]&n'&c&Hn'&[tmpl Ht]&Hc).
    assert (p ++ [k] = p' ++ [k']) as [-> ->]%app_inj_tail by congruence.
    assert (n' = n) as -> by congruence. by apply (H i tmpl c). }
  unfold DeleteObject at 2. destruct (parsePath x) as [[|s rest]|e] eqn:Hp.
  - right. split; [|by eexists]. intros p k (Hp'&_). rewrite Hp in Hp'. by destruct p.
  - destruct (split_last s rest) as [p k] eqn:Esp. apply split_last_spec in Esp.
    destruct (instance_of k) as [i|] eqn:Hi.
    2:{ right. split; [|by eexists]. intros p' k' (Hp'&[i' Hi']&_). rewrite Hp, Esp in Hp'.
        injection Hp' as [-> ->]%app_inj_tail. congruence. }
    destruct (lookup (root t) p) as [n|e] eqn:Hn.
    2:{ right. split; [|by eexists]. intros p' k' (Hp'&_&n&_&Hn'&_). rewrite Hp, Esp in Hp'.
        injection Hp' as [-> ->]%app_inj_tail. apply lookup_ok in Hn'. congruence. }
    apply lookup_ok in Hn. specialize (Hno p k n (f_equal Ok Esp) Hn).
    destruct (table n) as [tmpl|] eqn:Ht; [|right; split; [by apply Hno|by eexists]].
    destruct (children n !! k) as [c|] eqn:Hc; [|right; split; [apply Hno; congruence|by eexists]].
    left. destruct (Hat p k n tmpl c Hw Hok (f_equal Ok Esp) ltac:(by eexists) Hn Ht Hc) as (t'&cs&E&H). exists p, k, t', cs.
    split; [split_and!; [by rewrite Hp, Esp|by eexists|by exists n, c]|]. split; [|exact H].
    rewrite <-E. unfold DeleteObject. rewrite Hp.
    rewrite (split_last_snoc p k s rest Esp). rewrite Hi, (proj2 (lookup_ok _ _ _) Hn), Ht, Hc. done.
  - right. split; [|by eexists]. intros p k (Hp'&_). congruence.
Qed.

(** ** All the targets of a path *)

(** What deleting the paths [dels], one after the other, has done to [t]. *)
Definition deleted (t t' : Tree) (dels : list string) : Prop :=
  wf_tree t' ∧ shrinks (root t) (root t') ∧
  (∀ x, x ∈ dels → ∃ p k, names_instance t x p k ∧ node_at (p ++ [k]) (root t') = None) ∧
  (∀ q, (∀ x p k, x ∈ dels → names_instance t x p k → ¬ (p ++ [k]) `prefix_of` q ∧ counter_path p ≠ Some q) →
     view t' q = view t q).

Lemma names_instance_back t t' x p k :
  shrinks (root t) (root t') → names_instance t' x p k → names_instance t x p k.
Proof.
  intros Hs (Hp&Hi&n'&c&Hn'&Ht&Hc). destruct (Hs p n' Hn') as (n&Hn&Htab&Hd&_).
  assert (is_Some (children n !! k)) as [c0 Hc0] by (apply elem_of_dom, Hd, elem_of_dom; by eexists).
  split_and!; [done..|]. exists n, c0. by rewrite <-Htab.
Qed.

Lemma shrinks_none t t' q : shrinks (root t) (root t') → node_at q (root t) = None → node_at q (root t') = None.
Proof. intros Hs Hn. destruct (node_at q (root t')) eqn:E; [|done]. destruct (Hs _ _ E) as (?&?&_). congruence. Qed.

Lemma names_instance_inj t x p k p' k' : names_instance t x p k → names_instance t x p' k' → p = p' ∧ k = k'.
Proof. intros (Hp&_) (Hp'&_). rewrite Hp in Hp'. injection Hp'. by intros [-> ->]%app_inj_tail. Qed.

Lemma delete_targets_from t0 t xs dels failure :
  tables_ok t0 → deleted t0 t dels →
  ∃ t' cs more failure', delete_targets t xs dels failure = (t', cs, (dels ++ more, failure')) ∧
    more `sublist_of` xs ∧ deleted t0 t' (dels ++ more) ∧ shrinks (root t) (root t') ∧
    (∀ x p k, x ∈ xs → ¬ names_instance t' x p k) ∧ (more = [] → t' = t).
Proof.
  intros Hok. revert t dels failure. induction xs as [|x xs IH]; intros t dels failure Hd; cbn [delete_targets].
  { exists t, [], [], failure. rewrite app_nil_r. split_and!; [done..| |done]. by intros x p k ?%not_elem_of_nil. }
  pose proof Hd as (Hw&Hs&Hgone&Hf). pose proof (tables_ok_shrinks t0 t Hs Hok) as Hok1.
  destruct (DeleteObject_cases t x Hw Hok1) as [(p&k&t1&cs&Hx&->&Hw1&Hs1&Hg1&Hf1)|(Hno&e&->)].
  - pose proof (names_instance_back _ _ _ _ _ Hs Hx) as Hx0.
    assert (deleted t0 t1 (dels ++ [x])) as Hd1.
    { split_and!; [done|by etrans|..].
      - intros y [Hy| ->%list_elem_of_singleton]%elem_of_app; [|by exists p, k].
        destruct (Hgone y Hy) as (p'&k'&Hy'&Hn'). exists p', k'. split; [done|]. by apply (shrinks_none t t1).
      - intros q Hq. rewrite Hf1.
        + apply Hf. intros y p' k' Hy. apply (Hq y). apply elem_of_app. by left.
        + apply (Hq x p k); [|done]. apply elem_of_app. right. by left.
        + apply (Hq x p k); [|done]. apply elem_of_app. right. by left. }
    destruct (IH t1 (dels ++ [x]) failure Hd1) as (t'&cs'&more&failure'&->&Hsub&Hd'&Hs'&Hnone&Hsame).
    exists t', (cs ++ cs'), (x :: more), failure'. rewrite <-(assoc_L (++)) in Hd'. rewrite <-(assoc_L (++)).
    split_and!; [done|by apply sublist_skip|done|by etrans| |done].
    intros y p' k' [->|Hy]%elem_of_cons Hy'; [|by apply (Hnone y p' k')].
    pose proof (names_instance_back _ _ _ _ _ Hs' Hy') as Hx1.
    pose proof (names_instance_back _ _ _ _ _ Hs1 Hx1) as Hx2.
    destruct (names_instance_inj _ _ _ _ _ _ Hx Hx2) as [<- <-]. clear Hx2.
    destruct Hx1 as (_&_&n&c&Hn&[tmpl Ht]&Hc). pose proof (wf_table_not_leaf n tmpl (wf_node_at _ _ _ Hw1 Hn) Ht) as Hl.
    rewrite node_at_app, Hn in Hg1. cbn in Hg1. by rewrite Hl, Hc in Hg1.
  - destruct (IH t dels (Some e) Hd) as (t'&cs'&more&failure'&->&Hsub&Hd'&Hs'&Hnone&Hsame).
    exists t', cs', more, failure'. split_and!; [done|by apply sublist_cons|done|done| |done].
    intros y p' k' [->|Hy]%elem_of_cons Hy'; [|by apply (Hnone y p' k')].
    by apply (Hno p' k'), (names_instance_back t t').
Qed.

(** A Delete removes every instance its path stands for and reports, in
    order, exactly the paths it removed; it fails, with 7016, when and only
    when there was none. No target is left afterwards, nothing appears that
    was not there, and nothing else changes but the counters of the tables
    that lost an instance. *)
Theorem delete_object_correct (t : Tree) (path : string) (Hw : wf_tree t) (Hok : tables_ok t) :
  let '(t', cs, r) := delete_object t path in
  let targets := ExpandSearchPath t path in
  dRequestedPath r = path ∧
  ∃ dels, dels `sublist_of` targets ∧ deleted t t' dels ∧
    (∀ x p k, x ∈ targets → ¬ names_instance t' x p k) ∧
    match dOperStatus r with
    | OperSuccess affected => affected = dels ∧ dels ≠ []
    | OperFailure code _ => code = ErrCodeObjectDoesNotExist ∧ t' = t ∧ ∀ x p k, x ∈ targets → ¬ names_instance t x p k
    end.
Proof.
  unfold delete_object.
  assert (deleted t t []) as Hd by (split_and!; [done|done|by intros x ?%not_elem_of_nil|done]).
  destruct (delete_targets_from t t (ExpandSearchPath t path) [] None Hok Hd)
    as (t'&cs&dels&failure&E&Hsub&Hd'&_&Hnone&Hsame).
  rewrite E. cbn [app] in *. split; [done|]. exists dels. split_and!; [done..|].
  destruct dels as [|x dels]; [|done]. cbn. specialize (Hsame eq_refl). subst t'. by split_and!.
Qed.

(** The tables of a tree can be listed. *)
Fixpoint table_paths (n : Node) : list (list string) :=
  match n with
  | MkNode ch lf _ tb =>
      let subs := table_paths <$> ch in
      (match tb with Some _ => [[]] | None => [] end) ++
      flat_map (λ '(k, l), cons k <$> l) (map_to_list subs)
  end.
Lemma elem_of_table_paths p n m : node_at p n = Some m → is_Some (table m) → p ∈ table_paths n.
Proof.
  revert n. induction p as [|s p IH]; intros [ch lf a tb]; cbn.
  - intros [= <-] [t Ht]. cbn in Ht. rewrite Ht. by left.
  - unfold isLeaf. cbn. destruct lf; [done|]. intros (c&Hc&Hm)%bind_Some Ht. apply elem_of_app. right.
    apply elem_of_flat_map. exists (s, table_paths c). split.
    + apply elem_of_map_to_list. by rewrite lookup_fmap, Hc.
    + apply list_elem_of_fmap. exists p. split; [done|]. by apply IH.
Qed.

Lemma ex_hosts_tables_ok : tables_ok ex_hosts.
Proof.
  intros p n Hn Ht. apply (elem_of_table_paths p) in Hn; [|done].
  assert (table_paths (root ex_hosts) = [["Device"; "Host"]]) as E by (vm_compute; reflexivity).
  rewrite E in Hn. apply list_elem_of_singleton in Hn as ->. exact ex_hosts_table_ok.
Qed.

Lemma delete_object_correct_witness :
  let '(t', cs, r) := delete_object ex_hosts "Device.Host.[Alias==b]." in
  dRequestedPath r = "Device.Host.[Alias==b]." ∧ ∀ x p k, x = "Device.Host.2." → ¬ names_instance t' x p k.
Proof.
  pose proof (delete_object_correct ex_hosts "Device.Host.[Alias==b]." ex_hosts_wf ex_hosts_tables_ok) as H.
  assert (ExpandSearchPath ex_hosts "Device.Host.[Alias==b]." = ["Device.Host.2."]) as E by (vm_compute; reflexivity).
  destruct (delete_object ex_hosts "Device.Host.[Alias==b].") as [[t' cs] r].
  destruct H as (Hr&dels&_&_&Hnone&_). split; [exact Hr|]. intros x p k ->. apply Hnone. rewrite E. left.
Defined.
