(* ===== verification/UspMessages.v ===== *)
(** * What the USP agent says unprompted ([internal/usp/agent/messages.go],
    the notifies of [subscriptions.go]): its endpoint id, the onboard request,
    the Boot! event and its parameter map, the notifies of a subscription. *)
From Stdlib Require Import ZArith Lia Ascii String.
From S2P Require Import Prelude GoLib GoText CpeErr UspPaths UspQueries.

Definition AgentSupportedProtocolVersions : string := "1.3".
Definition BootEventName : string := "Boot!".
Definition maxInstanceIDLength : nat := 50.

Record Identity := MkIdentity { EndpointID : string; OUI : string; ProductClass : string; SerialNumber : string }.

(** ** Endpoint ids *)

Definition hexDigits : string := "0123456789ABCDEF".
Definition hex_digit (v : N) : ascii := default "0"%char (String.get (N.to_nat v) hexDigits).
Definition unreserved (c : ascii) : bool :=
  in_range "A" "Z" c || in_range "a" "z" c || in_range "0" "9" c ||
  Ascii.eqb c "-" || Ascii.eqb c "." || Ascii.eqb c "_".
Definition escape_octet (c : ascii) : string :=
  if unreserved c then String c ""
  else String "%" (String (hex_digit (N.shiftr (byte_of c) 4)) (String (hex_digit (N.land (byte_of c) 15)) "")).
Fixpoint escapeInstanceID (s : string) : string :=
  match s with "" => "" | String c rest => escape_octet c +:+ escapeInstanceID rest end.

Definition EndpointIDFor (oui serial : string) : result error string :=
  let instance := escapeInstanceID oui +:+ "-" +:+ escapeInstanceID serial in
  if (maxInstanceIDLength <? String.length instance)%nat
  then Err (errorf "serial %q is too long for a USP endpoint id: instance id %q is %d characters, TR-369 R-ARC.6 allows %d"
              [serial; instance; Strconv.Itoa (Z.of_nat (String.length instance)); "50"])
  else Ok ("os::" +:+ instance).

(** *** An id names one device *)

(** The reader of an escaped id. *)
Definition hex_value (c : ascii) : option N :=
  if in_range "0" "9" c then Some (byte_of c - 48)%N
  else if in_range "A" "F" c then Some (byte_of c - 55)%N else None.
Fixpoint unescape (s : string) : option string :=
  match s with
  | "" => Some ""
  | String "%" (String h (String l rest)) =>
      x ← hex_value h; y ← hex_value l; r ← unescape rest; Some (String (ascii_of_N (16 * x + y)) r)
  | String c rest => r ← unescape rest; Some (String c r)
  end.

(** A property of every octet is checked octet by octet. *)
Fixpoint octets (n : nat) : list ascii :=
  match n with O => [] | S n' => ascii_of_nat n' :: octets n' end.
Lemma elem_of_octets c : c ∈ octets 256.
Proof.
  assert (∀ n, (nat_of_ascii c < n)%nat → c ∈ octets n) as H.
  { intros n. induction n as [|n IH]; intros Hn; [lia|]. cbn.
    destruct (decide (nat_of_ascii c = n)) as [<-|]; [rewrite ascii_nat_embedding; by left|right; apply IH; lia]. }
  apply H. apply nat_ascii_bounded.
Qed.
Lemma every_octet (p : ascii → bool) : forallb p (octets 256) = true → ∀ c, p c = true.
Proof. intros H c. rewrite forallb_forall in H. apply H. apply list_elem_of_In, elem_of_octets. Qed.

Lemma escape_octet_safe c : str_forall (λ x, unreserved x || Ascii.eqb x "%") (escape_octet c) = true.
Proof.
  apply (every_octet (λ c, str_forall (λ x, unreserved x || Ascii.eqb x "%") (escape_octet c))). vm_compute. reflexivity.
Qed.
Lemma escapeInstanceID_safe s : str_forall (λ x, unreserved x || Ascii.eqb x "%") (escapeInstanceID s) = true.
Proof. induction s as [|c s IH]; [done|]. cbn. by rewrite str_forall_app, escape_octet_safe, IH. Qed.

Lemma unescape_octet c s :
  unescape (escape_octet c +:+ s) = (λ r, String c r) <$> unescape s.
Proof.
  pose proof (every_octet (λ c, if unreserved c then negb (Ascii.eqb c "%")
            else match hex_value (hex_digit (N.shiftr (byte_of c) 4)), hex_value (hex_digit (N.land (byte_of c) 15)) with
                 | Some x, Some y => Ascii.eqb (ascii_of_N (16 * x + y)) c
                 | _, _ => false
                 end) ltac:(vm_compute; reflexivity) c) as H. cbv beta in H.
  unfold escape_octet. destruct (unreserved c).
  - assert (∀ r : option string, (x ← r; Some (String c x)) = (λ x, String c x) <$> r) as E by by intros [].
    destruct c as [[] [] [] [] [] [] [] []]; try (cbn; by rewrite E); done.
  - cbn. destruct (hex_value _) as [x|]; [|done]. destruct (hex_value _) as [y|]; [|done]. cbn.
    apply Ascii.eqb_eq in H. destruct (unescape s); cbn; [by rewrite H|done].
Qed.

Lemma unescape_escape s : unescape (escapeInstanceID s) = Some s.
Proof. induction s as [|c s IH]; [done|]. cbn [escapeInstanceID]. by rewrite unescape_octet, IH. Qed.

(** The octets of an OUI, which is six hexadecimal digits. *)
Definition no_dash (s : string) : bool := Strings.no_byte "-" s.
Lemma escape_no_dash s : no_dash s = true → no_dash (escapeInstanceID s) = true.
Proof.
  unfold no_dash, Strings.no_byte. induction s as [|c s IH]; [done|]. cbn. rewrite str_forall_app.
  intros [Hc Hs]%andb_true_iff. apply andb_true_iff. split; [|by apply IH].
  revert Hc. clear. pose proof (every_octet (λ c, implb (negb (Ascii.eqb c "-")) (str_forall (λ x, negb (Ascii.eqb x "-")) (escape_octet c)))
    ltac:(vm_compute; reflexivity) c) as H. cbv beta in H. by destruct (negb (Ascii.eqb c "-")), (str_forall _ _).
Qed.

(** An endpoint id, when it is given, is the scheme and an instance id of at
    most fifty characters from the permitted set, and it names one device:
    with OUIs that hold no dash, as hexadecimal ones do, equal ids come from
    equal pairs. It is refused exactly when the instance id is longer. *)
Theorem EndpointIDFor_identifies (oui serial : string) (Houi : no_dash oui = true) :
  match EndpointIDFor oui serial with
  | Ok id => ∃ instance, id = "os::" +:+ instance ∧ (String.length instance ≤ 50)%nat ∧
      str_forall (λ x, unreserved x || Ascii.eqb x "%") instance = true ∧
      ∀ oui' serial', no_dash oui' = true → EndpointIDFor oui' serial' = Ok id → oui' = oui ∧ serial' = serial
  | Err _ => (50 < String.length (escapeInstanceID oui) + 1 + String.length (escapeInstanceID serial))%nat
  end.
Proof.
  unfold EndpointIDFor. destruct (Nat.ltb_spec maxInstanceIDLength (String.length (escapeInstanceID oui +:+ "-" +:+ escapeInstanceID serial))) as [Hl|Hl].
  { rewrite !str_length_app in Hl. cbn in Hl. unfold maxInstanceIDLength in Hl. lia. }
  eexists. split; [done|]. split; [done|]. split.
  { rewrite str_forall_app, escapeInstanceID_safe. cbn. apply escapeInstanceID_safe. }
  intros oui' serial' Ho'. destruct (_ <? _)%nat; [done|].
  intros H. injection H as H.
  rename H into Hi.
  assert (∀ a b, no_dash a = true →
    Strings.Split (escapeInstanceID a +:+ "-" +:+ b) "-" = escapeInstanceID a :: Strings.Split b "-") as Hs.
  { intros a b Ha. apply Strings.Split_app. by apply escape_no_dash. }
  pose proof (f_equal (λ s, Strings.Split s "-") Hi) as Hc. cbv beta in Hc.
  change (String "-" (escapeInstanceID serial')) with ("-" +:+ escapeInstanceID serial') in Hc.
  change (String "-" (escapeInstanceID serial)) with ("-" +:+ escapeInstanceID serial) in Hc. rewrite !Hs in Hc by done.
  injection Hc as Ho _. rewrite Ho in Hi. apply str_app_inj_l in Hi. injection Hi as Hser.
  apply (f_equal unescape) in Ho, Hser. rewrite !unescape_escape in Ho, Hser. by injection Ho as ->; injection Hser as ->.
Qed.

Lemma EndpointIDFor_identifies_witness :
  no_dash "0025DF" = true ∧ EndpointIDFor "0025DF" "A/1-2" = Ok "os::0025DF-A%2F1-2" ∧
  ∀ serial, EndpointIDFor "0025DF" serial = Ok "os::0025DF-A%2F1-2" → serial = "A/1-2".
Proof.
  split_and!; [reflexivity|vm_compute; reflexivity|].
  pose proof (EndpointIDFor_identifies "0025DF" "A/1-2" eq_refl) as H.
  assert (EndpointIDFor "0025DF" "A/1-2" = Ok "os::0025DF-A%2F1-2") as E by (vm_compute; reflexivity).
  rewrite E in H. destruct H as (_&_&_&_&H). intros serial Hs. exact (proj2 (H "0025DF" serial eq_refl Hs)).
Defined.

(** ** The parameter map of Boot! *)

Definition backslash : ascii := ascii_of_N 92.
Fixpoint ReplaceAll (s : string) (c : ascii) (new : string) : string :=
  match s with
  | "" => ""
  | String x rest => (if Ascii.eqb x c then new else String x "") +:+ ReplaceAll rest c new
  end.
Definition jsonEscape (s : string) : string :=
  let s := ReplaceAll s backslash (String backslash (String backslash "")) in
  ReplaceAll s double_quote (String backslash (String double_quote "")).

Definition member (k v : string) : string :=
  String double_quote (jsonEscape k +:+ String double_quote (String ":" (String double_quote
    (jsonEscape v +:+ String double_quote "")))).
Fixpoint members_text (m : gmap string string) (first : bool) (keys : list string) : string :=
  match keys with
  | [] => ""
  | k :: rest => (if first then "" else ",") +:+ member k (default "" (m !! k)) +:+ members_text m false rest
  end.
Definition encodeParameterMap (m : gmap string string) : string :=
  String "{" (members_text m true (sortStrings (map_to_list m).*1) +:+ "}").

(** *** It reads back *)

(** A reader of objects whose members are strings with the two escapes used. *)
Fixpoint read_string (s : string) : option (string * string) :=
  match s with
  | "" => None
  | String x rest =>
      if Ascii.eqb x double_quote then Some ("", rest)
      else if Ascii.eqb x backslash then
        match rest with
        | String y rest' => '(v, tl) ← read_string rest'; Some (String y v, tl)
        | "" => None
        end
      else '(v, tl) ← read_string rest; Some (String x v, tl)
  end.
Definition expect (c : ascii) (s : string) : option string :=
  match s with String x rest => if Ascii.eqb x c then Some rest else None | "" => None end.
Definition read_member (s : string) : option ((string * string) * string) :=
  s ← expect double_quote s; '(k, s) ← read_string s; s ← expect ":" s; s ← expect double_quote s;
  '(v, s) ← read_string s; Some ((k, v), s).
Fixpoint read_members (fuel : nat) (s : string) : option (list (string * string)) :=
  match fuel with
  | O => None
  | S fuel' =>
      '(kv, s) ← read_member s;
      match s with
      | "}" => Some [kv]
      | String "," s => l ← read_members fuel' s; Some (kv :: l)
      | _ => None
      end
  end.
Definition read_object (s : string) : option (list (string * string)) :=
  s ← expect "{" s; match s with "}" => Some [] | _ => read_members (String.length s) s end.

(** The two replacements, byte by byte. *)
Definition escape_char (c : ascii) : string :=
  if Ascii.eqb c backslash || Ascii.eqb c double_quote then String backslash (String c "") else String c "".
Lemma ReplaceAll_app a b c new : ReplaceAll (a +:+ b) c new = ReplaceAll a c new +:+ ReplaceAll b c new.
Proof. induction a as [|x a IH]; cbn; [done|]. by rewrite IH, str_app_assoc. Qed.
Lemma jsonEscape_cons c s : jsonEscape (String c s) = escape_char c +:+ jsonEscape s.
Proof.
  unfold jsonEscape. cbn [ReplaceAll]. rewrite ReplaceAll_app. f_equal. unfold escape_char.
  destruct (Ascii.eqb_spec c backslash) as [->|Hb]; [reflexivity|]. cbn [ReplaceAll orb].
  destruct (Ascii.eqb_spec c double_quote) as [->|Hq]; reflexivity.
Qed.

Lemma read_jsonEscape s tl : read_string (jsonEscape s +:+ String double_quote tl) = Some (s, tl).
Proof.
  induction s as [|c s IH]; [done|]. rewrite jsonEscape_cons, str_app_assoc. unfold escape_char.
  destruct (Ascii.eqb c backslash) eqn:Eb; cbn [orb].
  - apply Ascii.eqb_eq in Eb as ->. cbn [String.append read_string].
    change (Ascii.eqb backslash double_quote) with false. change (Ascii.eqb backslash backslash) with true. by rewrite IH.
  - destruct (Ascii.eqb c double_quote) eqn:Eq; cbn [String.append read_string].
    + apply Ascii.eqb_eq in Eq as ->.
      change (Ascii.eqb backslash double_quote) with false. change (Ascii.eqb backslash backslash) with true. by rewrite IH.
    + by rewrite Eb, Eq, IH.
Qed.

Lemma expect_cons c s : expect c (String c s) = Some s.
Proof. unfold expect. by rewrite Ascii.eqb_refl. Qed.
Lemma read_member_text k v tl : read_member (member k v +:+ tl) = Some ((k, v), tl).
Proof.
  unfold read_member, member. cbn [String.append]. rewrite !str_app_assoc. cbn [String.append].
  rewrite expect_cons. cbn [mbind option_bind]. rewrite read_jsonEscape. cbn [mbind option_bind].
  rewrite expect_cons. cbn [mbind option_bind]. rewrite expect_cons. cbn [mbind option_bind].
  rewrite !str_app_assoc. cbn [String.append]. by rewrite read_jsonEscape.
Qed.

Lemma members_text_first m k keys :
  members_text m true (k :: keys) = member k (default "" (m !! k)) +:+ members_text m false keys.
Proof. done. Qed.
Lemma members_text_next m k keys : members_text m false (k :: keys) = String "," (members_text m true (k :: keys)).
Proof. done. Qed.

Lemma members_read m k keys fuel :
  (length keys < fuel)%nat →
  read_members fuel (members_text m true (k :: keys) +:+ "}") =
    Some ((λ k, (k, default "" (m !! k))) <$> k :: keys).
Proof.
  revert k fuel. induction keys as [|k' keys IH]; intros k [|fuel] Hf; try (cbn in Hf; lia).
  - cbn [read_members]. rewrite members_text_first, str_app_assoc, read_member_text. done.
  - cbn [read_members]. rewrite members_text_first, str_app_assoc, read_member_text, members_text_next.
    cbn [mbind option_bind String.append]. rewrite (IH k' fuel); [done|cbn in Hf |- *; lia].
Qed.

Lemma members_length m first keys : (length keys ≤ String.length (members_text m first keys))%nat.
Proof.
  revert first. induction keys as [|k keys IH]; intros first; [done|]. cbn [members_text length].
  rewrite !str_length_app. specialize (IH false). unfold member. cbn [String.length]. lia.
Qed.

(** The parameter map is a JSON object that a reader takes back to the
    parameters, sorted by path, each once, whatever quotes and backslashes
    their values hold. *)
Theorem encodeParameterMap_reads_back (m : gmap string string) :
  ∃ l, read_object (encodeParameterMap m) = Some l ∧ StronglySorted strings.String.le l.*1 ∧ NoDup l.*1 ∧
       list_to_map l = m.
Proof.
  destruct (sortStrings_sorted (map_to_list m).*1) as [Hs Hp].
  exists ((λ k, (k, default "" (m !! k))) <$> sortStrings (map_to_list m).*1).
  assert (((λ k, (k, default "" (m !! k))) <$> sortStrings (map_to_list m).*1).*1 = sortStrings (map_to_list m).*1) as E1.
  { rewrite <-list_fmap_compose. apply list_fmap_id. }
  rewrite E1.
  assert (NoDup (sortStrings (map_to_list m).*1)) as HN by (rewrite Hp; apply NoDup_fst_map_to_list).
  split_and!; [|done|done|].
  - unfold encodeParameterMap, read_object. cbn [expect mbind option_bind].
    destruct (sortStrings (map_to_list m).*1) as [|k keys] eqn:E; [done|].
    assert (∃ tl, members_text m true (k :: keys) +:+ "}" = String double_quote tl) as [tl Etl] by (cbn; by eexists).
    transitivity (read_members (String.length (members_text m true (k :: keys) +:+ "}")) (members_text m true (k :: keys) +:+ "}")).
    { by rewrite Etl. }
    apply members_read. rewrite str_length_app. pose proof (members_length m true (k :: keys)) as H.
    change (length (k :: keys)) with (S (length keys)) in H. lia.
  - apply map_eq. intros k. destruct (m !! k) as [v|] eqn:Hk.
    + apply elem_of_list_to_map_1; [by rewrite E1|]. apply list_elem_of_fmap.
      exists k. rewrite Hk. split; [done|]. rewrite Hp. apply list_elem_of_fmap. exists (k, v). by rewrite elem_of_map_to_list.
    + apply not_elem_of_list_to_map_1. rewrite E1. intros Hin. rewrite Hp in Hin.
      apply list_elem_of_fmap in Hin as ([k' v]&->&Hin%elem_of_map_to_list). cbn in Hk. congruence.
Qed.

(** A control character goes out as it is, which JSON does not allow. *)
Lemma control_character_raw :
  encodeParameterMap {["p" := String (ascii_of_N 10) ""]} =
    String "{" (String double_quote "p" +:+ String double_quote (String ":" (String double_quote
      (String (ascii_of_N 10) (String double_quote "}"))))).
Proof. vm_compute. reflexivity. Qed.

(** ** The notifies *)

Inductive OperationResp :=
| ReqOutputArgs (args : gmap string string)
| CmdFailure (code : Z) (msg : error).
Inductive Notification :=
| OnBoardReq (oui productClass serial versions : string)
| Event (objPath eventName : string) (params : gmap string string)
| ValueChange (path value : string)
| ObjectCreation (objPath : string) (uniqueKeys : gmap string string)
| ObjectDeletion (objPath : string)
| OperationComplete (objPath commandName commandKey : string) (resp : OperationResp).
Record Notify := MkNotify { SubscriptionId : string; SendResp : bool; notification : Notification }.
Definition notify_msg (msgID subscriptionID : string) (n : Notification) : Msg Notify :=
  MkMsg msgID NOTIFY (MkNotify subscriptionID false n).

Definition NewOnBoardRequest (msgID : string) (id : Identity) : Msg Notify :=
  notify_msg msgID "onboard" (OnBoardReq (OUI id) (ProductClass id) (SerialNumber id) AgentSupportedProtocolVersions).
Definition NewEventNotify (msgID subscriptionID objPath eventName : string) (params : gmap string string) : Msg Notify :=
  notify_msg msgID subscriptionID (Event objPath eventName params).
Definition NewBootNotify (msgID subscriptionID objPath cause commandKey : string) (firmwareUpdated : bool)
  (bootParams : gmap string string) : Msg Notify :=
  let params := <["CommandKey" := commandKey]> (<["Cause" := cause]>
    {["FirmwareUpdated" := if firmwareUpdated then "true" else "false"]}) in
  let params := if (0 <? size bootParams)%nat then <["ParameterMap" := encodeParameterMap bootParams]> params else params in
  NewEventNotify msgID subscriptionID objPath BootEventName params.
Definition NewValueChangeNotify (msgID subscriptionID path value : string) : Msg Notify :=
  notify_msg msgID subscriptionID (ValueChange path value).
Definition NewObjectCreationNotify (msgID subscriptionID objPath : string) (uniqueKeys : gmap string string) : Msg Notify :=
  notify_msg msgID subscriptionID (ObjectCreation objPath uniqueKeys).
Definition NewObjectDeletionNotify (msgID subscriptionID objPath : string) : Msg Notify :=
  notify_msg msgID subscriptionID (ObjectDeletion objPath).
(** [failure = None] is a nil failure; nil arguments are the empty map. *)
Definition NewOperationCompleteNotify (msgID subscriptionID objPath commandName commandKey : string)
  (outputArgs : gmap string string) (failure : option (Z * error)) : Msg Notify :=
  notify_msg msgID subscriptionID (OperationComplete objPath commandName commandKey
    (match failure with Some (code, msg) => CmdFailure code msg | None => ReqOutputArgs outputArgs end)).
