(* ===== verification/UspSubscriptions.v ===== *)
(** * Subscriptions ([internal/usp/agent/subscriptions.go], the deliveries of
    [async.go], the message ids of [runner.go]): which notifies a change or an
    event of the tree makes. *)
From Stdlib Require Import ZArith Lia Ascii String.
From S2P Require Import Prelude GoLib GoText CpeErr Types Node Tree TreeProps Objects ObjectsProps Listing.
From S2P Require Import UspPaths UspQueries UspDiscovery UspMessages.

Definition LocalAgentPath : string := "Device.LocalAgent.".
Definition LocalAgentEndpointID : string := "Device.LocalAgent.EndpointID".
Definition ControllerTablePath : string := "Device.LocalAgent.Controller.".
Definition SubscriptionTablePath : string := "Device.LocalAgent.Subscription.".
Definition NotifTypeValueChange : string := "ValueChange".
Definition NotifTypeObjectCreation : string := "ObjectCreation".
Definition NotifTypeObjectDeletion : string := "ObjectDeletion".
Definition NotifTypeEvent : string := "Event".
Definition NotifTypeOperationComplete : string := "OperationComplete".

Record Subscription := MkSubscription {
  InstancePath : string; ID : string; Enable : bool; NotifType : string; ReferenceList : list string
}.

(** ** Matching *)

Fixpoint segments_match (refSegs pathSegs : list string) : bool :=
  match refSegs, pathSegs with
  | [], _ => true
  | seg :: rest, p :: ps =>
      if String.eqb seg "*" then isInstanceNumber p && segments_match rest ps
      else String.eqb p seg && segments_match rest ps
  | _ :: _, [] => false
  end.
Definition matchWildcardPath (ref path : string) : bool :=
  let partial := Strings.HasSuffix ref "." in
  let refSegs := Strings.Split (Strings.TrimSuffix ref ".") "." in
  let pathSegs := Strings.Split (Strings.TrimSuffix path ".") "." in
  if partial then
    if (length pathSegs <? length refSegs)%nat then false else segments_match refSegs pathSegs
  else if negb (length pathSegs =? length refSegs)%nat then false else segments_match refSegs pathSegs.

Definition ref_matches (path ref : string) : bool :=
  if String.eqb ref "" then false
  else if Strings.Contains ref "*" then matchWildcardPath ref path
  else if Strings.HasSuffix ref "." then Strings.HasPrefix path ref
  else String.eqb path ref.
Definition Matches (s : Subscription) (path : string) : bool := existsb (ref_matches path) (ReferenceList s).

(** ** The table *)

(** [strings.FieldsFunc] on the separators, which are ASCII. *)
Definition is_ref_sep (c : ascii) : bool :=
  Ascii.eqb c " " || Ascii.eqb c "," || Ascii.eqb c (ascii_of_N 9) || Ascii.eqb c (ascii_of_N 10).
Fixpoint fields_go (cur s : string) : list string :=
  match s with
  | "" => if String.eqb cur "" then [] else [cur]
  | String c rest =>
      if is_ref_sep c then (if String.eqb cur "" then [] else [cur]) ++ fields_go "" rest
      else fields_go (cur +:+ String c "") rest
  end.
Definition splitReferenceList (raw : string) : list string :=
  filter (λ f, f ≠ "") (Space.TrimSpace <$> fields_go "" raw).

Definition raw_or (t : Tree) (path : string) (zero : string) : string :=
  match Get t path with Ok v => Raw v | Err _ => zero end.
Definition childInstances (t : Tree) (tablePath : string) : list string :=
  match Children t tablePath with
  | Err _ => []
  | Ok cs => filter (λ p, isInstanceNumber (lastSegment p) = true) ((λ c, with_dot (ciName c)) <$> cs)
  end.
Definition read_subscription (t : Tree) (instPath : string) : Subscription :=
  let enable := raw_or t (instPath +:+ "Enable") "" in
  MkSubscription instPath (raw_or t (instPath +:+ "ID") "")
    (String.eqb enable "true" || String.eqb enable "1")
    (raw_or t (instPath +:+ "NotifType") "")
    (match Get t (instPath +:+ "ReferenceList") with Ok v => splitReferenceList (Raw v) | Err _ => [] end).
Definition SubscriptionTable (t : Tree) : list Subscription :=
  read_subscription t <$> childInstances t SubscriptionTablePath.

(** ** Message ids *)

(** [msgSeq.Add(1)] on an atomic uint64. *)
Definition next_seq (seq : Z) : Z := ((seq + 1) mod 2 ^ 64)%Z.
Definition nextMsgID (serial kind : string) (seq : Z) : Z * string :=
  let n := next_seq seq in (n, kind +:+ "-" +:+ serial +:+ "-" +:+ Strconv.Itoa n).

(** ** Notifies *)

Definition notifTypeFor (k : ChangeKind) : string :=
  match k with
  | ChangeObjectCreated => NotifTypeObjectCreation
  | ChangeObjectDeleted => NotifTypeObjectDeletion
  | ChangeValue => NotifTypeValueChange
  end.

Section agent.
Context (serial : string).

Definition buildNotify (t : Tree) (seq : Z) (sub : Subscription) (c : Change) : Z * Msg Notify :=
  match cKind c with
  | ChangeValue =>
      let '(n, id) := nextMsgID serial "vc" seq in (n, NewValueChangeNotify id (ID sub) (cPath c) (Raw (New c)))
  | ChangeObjectCreated =>
      let '(n, id) := nextMsgID serial "objadd" seq in
      (n, NewObjectCreationNotify id (ID sub) (cPath c) (uniqueKeysFor t (cPath c)))
  | ChangeObjectDeleted =>
      let '(n, id) := nextMsgID serial "objdel" seq in (n, NewObjectDeletionNotify id (ID sub) (cPath c))
  end.

Definition wanted_sub (wanted path : string) (s : Subscription) : bool :=
  Enable s && String.eqb (NotifType s) wanted && Matches s path.

(** The messages of a loop over the table, in its order: each takes an id. *)
Fixpoint build_all (build : Z → Subscription → Z * Msg Notify) (seq : Z) (subs : list Subscription)
  : Z * list (Msg Notify) :=
  match subs with
  | [] => (seq, [])
  | s :: rest =>
      let '(seq1, m) := build seq s in
      let '(seq2, ms) := build_all build seq1 rest in (seq2, m :: ms)
  end.

(** [notify]: the messages handed to [send]. The observer hands each to a
    goroutine of its own, so those of one change may arrive in any order; a
    blocking caller sends them in this one. *)
Definition notify_change (t : Tree) (seq : Z) (c : Change) : Z * list (Msg Notify) :=
  if Strings.HasPrefix (cPath c) SubscriptionTablePath then (seq, [])
  else build_all (λ seq s, buildNotify t seq s c) seq
         (filter (λ s, wanted_sub (notifTypeFor (cKind c)) (cPath c) s = true) (SubscriptionTable t)).

Definition notifyOperationComplete (t : Tree) (seq : Z) (objPath commandName commandKey : string)
  (outputArgs : gmap string string) (failure : option (Z * error)) : Z * list (Msg Notify) :=
  build_all (λ seq s, let '(n, id) := nextMsgID serial "opc" seq in
      (n, NewOperationCompleteNotify id (ID s) objPath commandName commandKey outputArgs failure)) seq
    (filter (λ s, wanted_sub NotifTypeOperationComplete (objPath +:+ commandName) s = true) (SubscriptionTable t)).

(** [deliverEvent], [publish] telling which sends fail: the messages tried,
    how many arrived and the last failure. *)
Definition deliverEvent (publish : Msg Notify → option error) (t : Tree) (seq : Z) (objPath eventName : string)
  (params : gmap string string) : Z * list (Msg Notify) * (nat * option error) :=
  let '(seq', ms) := build_all (λ seq s, let '(n, id) := nextMsgID serial "event" seq in
      (n, NewEventNotify id (ID s) objPath eventName params)) seq
    (filter (λ s, wanted_sub NotifTypeEvent (objPath +:+ eventName) s = true) (SubscriptionTable t)) in
  (seq', ms, (length (filter (λ m, publish m = None) ms), last (omap publish ms))).
End agent.

(** ** What a reference covers *)

(** A reference as its segments: an asterisk for an instance number, else a name. *)
Definition ref_segment (s : string) : Prop := s = "*" ∨ valid_segment s = true.
Definition segment_covers (r c : string) : Prop := if String.eqb r "*" then isInstanceNumber c = true else c = r.

Lemma ref_segment_plain s : ref_segment s → plain_segment s.
Proof. intros [->|H]; [done|by apply valid_plain]. Qed.
Lemma refs_plain rs : Forall ref_segment rs → Forall plain_segment rs.
Proof. intros H. eapply Forall_impl; [exact H|]. apply ref_segment_plain. Qed.

Lemma segments_match_spec rs ps :
  segments_match rs ps = true ↔ ∃ init tl, ps = init ++ tl ∧ Forall2 segment_covers rs init.
Proof.
  revert ps. induction rs as [|r rs IH]; intros ps; cbn.
  - split; [|done]. intros _. exists [], ps. by split.
  - destruct ps as [|p ps].
    { split; [done|]. intros (init&tl&E&H). symmetry in E. apply app_nil in E as [-> _]. inv H. }
    assert ((if String.eqb r "*" then isInstanceNumber p && segments_match rs ps else String.eqb p r && segments_match rs ps) = true
      ↔ segment_covers r p ∧ segments_match rs ps = true) as ->.
    { unfold segment_covers. destruct (String.eqb r "*"); rewrite andb_true_iff; [done|]. by rewrite String.eqb_eq. }
    rewrite IH. split.
    + intros (Hc&init&tl&->&H). exists (p :: init), tl. split; [done|by constructor].
    + intros (init&tl&E&(c&init'&Hc&Hr&->)%Forall2_cons_inv_l). injection E as -> ->. split; [done|]. by exists init', tl.
Qed.

Lemma str_prefix_contains s c : Strings.Contains s (String c "") = true ↔ Strings.no_byte c s = false.
Proof.
  unfold Strings.no_byte. induction s as [|x s IH]; cbn; [done|].
  destruct (ascii_dec c x) as [->|Hn].
  - rewrite Ascii.eqb_refl. destruct s; by cbn.
  - rewrite (proj2 (Ascii.eqb_neq x c)) by congruence. cbn. exact IH.
Qed.

Lemma no_byte_app c a b : Strings.no_byte c (a +:+ b) = Strings.no_byte c a && Strings.no_byte c b.
Proof. apply str_forall_app. Qed.

Lemma Contains_star rs (dot : bool) :
  rs ≠ [] → Forall ref_segment rs →
  Strings.Contains (joinPath rs +:+ (if dot then "." else "" : string)) "*" = bool_decide ("*" ∈ rs).
Proof.
  intros Hne Hv. apply Bool.eq_true_iff_eq. rewrite str_prefix_contains, bool_decide_eq_true, no_byte_app.
  assert (Strings.no_byte "*" (if dot then "." else "" : string) = true) as -> by by destruct dot. rewrite andb_true_r.
  unfold joinPath. induction rs as [|r rs IH]; [done|]. inv Hv as [|?? Hr Hv'].
  assert (Strings.no_byte "*" r = false ↔ "*" = r) as Hr'.
  { destruct Hr as [->|Hr]; [done|]. split; [|by intros <-]. intros H. exfalso.
    unfold valid_segment in Hr. apply andb_true_iff in Hr as [_ Hr]. apply not_true_iff_false in H. apply H.
    unfold Strings.no_byte. eapply str_forall_impl; [|exact Hr]. intros c Hc. apply negb_true_iff, Ascii.eqb_neq. by intros ->. }
  destruct rs as [|r' rs].
  - cbn. rewrite list_elem_of_singleton. done.
  - change (Strings.Join (r :: r' :: rs) ".") with (r +:+ "." +:+ Strings.Join (r' :: rs) ".").
    rewrite no_byte_app, elem_of_cons. cbn [String.append].
    change (Strings.no_byte "*" (String "." (Strings.Join (r' :: rs) "."))) with (Strings.no_byte "*" (Strings.Join (r' :: rs) ".")).
    rewrite andb_false_iff, Hr'. apply or_iff_compat_l. apply IH; done.
Qed.

(** The path prefix test is one on segments. *)
Lemma HasPrefix_segments rs cs :
  rs ≠ [] → cs ≠ [] → Forall plain_segment rs → Forall plain_segment cs →
  Strings.HasPrefix (joinPath cs) (joinPath rs +:+ ".") = true ↔ ∃ tl, tl ≠ [] ∧ cs = rs ++ tl.
Proof.
  intros Hr Hc Hpr Hpc. rewrite Strings.HasPrefix_iff. split.
  - intros [s Hs]. rewrite str_app_assoc in Hs. apply (f_equal (λ s, Strings.Split s ".")) in Hs. cbv beta in Hs.
    rewrite Split_joinPath in Hs by done.
    assert (∀ l s, l ≠ [] → Forall plain_segment l → Strings.Split (joinPath l +:+ "." +:+ s) "." = l ++ Strings.Split s ".") as Hsp.
    { clear. intros l s. induction l as [|x [|y l] IH]; intros Hne Hv; [done| |]; inv Hv as [|?? [_ Hx] Hv'].
      - by apply Strings.Split_app.
      - change (joinPath (x :: y :: l) +:+ "." +:+ s) with ((x +:+ String "." (joinPath (y :: l))) +:+ "." +:+ s).
        rewrite str_app_assoc. change (String "." (joinPath (y :: l)) +:+ "." +:+ s)
          with (String "." (joinPath (y :: l) +:+ "." +:+ s)).
        rewrite Strings.Split_app by done. by rewrite IH. }
    rewrite Hsp in Hs by done. exists (Strings.Split s "."). split; [apply Strings.Split_nonempty|done].
  - intros (tl&Htl&->). exists (joinPath tl). unfold joinPath. rewrite Strings.Join_app by done. by rewrite str_app_assoc.
Qed.

(** What a reference with these segments and this ending covers. *)
Definition covers (rs : list string) (partial : bool) (cs : list string) : Prop :=
  if partial
  then ∃ init tl, cs = init ++ tl ∧ Forall2 segment_covers rs init ∧ ("*" ∉ rs → tl ≠ [])
  else Forall2 segment_covers rs cs.

Lemma covers_literal rs cs : "*" ∉ rs → Forall2 segment_covers rs cs ↔ cs = rs.
Proof.
  revert cs. induction rs as [|r rs IH]; intros cs Hs.
  - split; [by inversion 1|by intros ->].
  - apply not_elem_of_cons in Hs as [Hr Hs]. assert (∀ c, segment_covers r c ↔ c = r) as Hc.
    { intros c. unfold segment_covers. by rewrite (proj2 (String.eqb_neq r "*")). }
    split.
    + intros (c&cs'&H1%Hc&H2%IH&->)%Forall2_cons_inv_l; [by subst|done].
    + intros ->. constructor; [by apply Hc|]. by apply IH.
Qed.

(** A reference covers exactly the parameters its segments name: each
    asterisk one instance number, never a run of segments; and with a trailing
    dot everything below. *)
Theorem ref_matches_covers (rs cs : list string) (partial : bool)
  (Hne : rs ≠ []) (Hrs : Forall ref_segment rs) (Hc : cs ≠ []) (Hcs : Forall (λ s, valid_segment s = true) cs) :
  ref_matches (joinPath cs) (joinPath rs +:+ (if partial then "." else "" : string)) = true ↔ covers rs partial cs.
Proof.
  pose proof (refs_plain rs Hrs) as Hpr.
  assert (Forall plain_segment cs) as Hpc by (eapply Forall_impl; [exact Hcs|]; intros s; apply valid_plain).
  unfold ref_matches, covers.
  assert (Strings.HasSuffix (joinPath rs +:+ (if partial then "." else "" : string)) "." = partial) as Hdot.
  { destruct partial; [apply Strings.HasSuffix_iff; by eexists|]. rewrite str_app_nil_r. by apply plain_no_trailing_dot. }
  assert (Strings.TrimSuffix (joinPath rs +:+ (if partial then "." else "" : string)) "." = joinPath rs) as Htrim.
  { destruct partial; [apply Strings.TrimSuffix_app|]. rewrite str_app_nil_r.
    by apply Strings.TrimSuffix_no_suffix, plain_no_trailing_dot. }
  rewrite (proj2 (String.eqb_neq _ "")).
  2:{ intros E. destruct rs as [|r [|]]; [done| |]; inv Hpr as [|?? [Hr _] _]; destruct r; done. }
  rewrite Contains_star, Hdot by done. unfold matchWildcardPath. rewrite Hdot, Htrim, Split_joinPath by done.
  rewrite (Strings.TrimSuffix_no_suffix (joinPath cs)), Split_joinPath by (done || by apply plain_no_trailing_dot).
  case_bool_decide as Hs; destruct partial.
  - assert (∀ init tl, cs = init ++ tl → Forall2 segment_covers rs init → (length rs ≤ length cs)%nat) as Hlen.
    { intros init tl -> H%Forall2_length. rewrite length_app. lia. }
    destruct (Nat.ltb_spec (length cs) (length rs)) as [Hl|Hl].
    + split; [done|]. intros (init&tl&E&H&_). specialize (Hlen _ _ E H). lia.
    + rewrite segments_match_spec. naive_solver.
  - destruct (Nat.eqb_spec (length cs) (length rs)) as [Hl|Hl]; cbn.
    + rewrite segments_match_spec. split.
      * intros (init&tl&->&H). pose proof (Forall2_length _ _ _ H) as Hi. rewrite length_app in Hl.
        destruct tl; [by rewrite app_nil_r|cbn in Hl; lia].
      * intros H. exists cs, []. by rewrite app_nil_r.
    + split; [done|]. intros H%Forall2_length. done.
  - rewrite HasPrefix_segments by done. split.
    + intros (tl&Htl&->). exists rs, tl. split_and!; [done| |done]. by apply covers_literal.
    + intros (init&tl&->&H&Htl). apply covers_literal in H as ->; [|done]. exists tl. split; [by apply Htl|done].
  - rewrite str_app_nil_r, String.eqb_eq, covers_literal by done. split; [|by intros ->].
    intros E. apply (f_equal (λ s, Strings.Split s ".")) in E. cbv beta in E. by rewrite !Split_joinPath in E.
Qed.

Lemma ref_matches_covers_witness :
  ref_matches "Device.WiFi.AccessPoint.1.AssociatedDevice.12.Active" "Device.WiFi.AccessPoint.*.AssociatedDevice." = true ∧
  covers ["Device"; "WiFi"; "AccessPoint"; "*"; "AssociatedDevice"] true
    ["Device"; "WiFi"; "AccessPoint"; "1"; "AssociatedDevice"; "12"; "Active"].
Proof.
  split; [vm_compute; reflexivity|].
  apply (ref_matches_covers ["Device"; "WiFi"; "AccessPoint"; "*"; "AssociatedDevice"]
    ["Device"; "WiFi"; "AccessPoint"; "1"; "AssociatedDevice"; "12"; "Active"] true).
  - done.
  - repeat first [apply Forall_cons_2; [first [by left|right; vm_compute; reflexivity]|]|apply Forall_nil_2].
  - done.
  - repeat first [apply Forall_cons_2; [vm_compute; reflexivity|]|apply Forall_nil_2].
  - vm_compute. reflexivity.
Defined.

(** ** Which notifies a change makes *)

Lemma childInstances_spec t path p :
  wf_tree t → parsePath path = Ok p →
  NoDup (childInstances t path) ∧ ∀ z, z ∈ childInstances t path ↔ ∃ c, instance_under t p c ∧ z = dotted (p ++ [c]).
Proof.
  intros Hw Hp. unfold childInstances.
  destruct (node_at p (root t)) as [n|] eqn:Hn; [destruct (isLeaf n) eqn:Hl|].
  - destruct (Children_failed t path p Hp) as [e ->]; [rewrite Hn; by intros ? [= <-]|]. split; [constructor|].
    intros z. split; [by intros ?%not_elem_of_nil|]. intros (c&Hc&_).
    apply instance_node in Hc as (n'&_&Hn'&Hl'&_); [congruence|done].
  - rewrite (Children_parsed t path p n Hp Hn Hl), <-list_fmap_compose.
    assert (∀ k, k ∈ sortedKeys (children n) → with_dot (ciName (child_info p k (default NewBranch (children n !! k)))) = dotted (p ++ [k])
      ∧ lastSegment (dotted (p ++ [k])) = k ∧ Forall (λ s, valid_segment s = true) (p ++ [k])) as Hk.
    { intros k [c Hc]%elem_of_sortedKeys. rewrite Hc. change (default NewBranch (Some c)) with c.
      assert (Forall (λ s, valid_segment s = true) (p ++ [k])) as Hv.
      { apply (wf_node_at_segments (root t) _ c); [done|]. rewrite node_at_app, Hn. cbn. by rewrite Hl, Hc. }
      destruct (ciName_child p k c Hv) as (_&->&_). split_and!; [done|by apply (lastSegment_snoc p k true)|done]. }
    assert ((λ c, with_dot (ciName c)) ∘ (λ k, child_info p k (default NewBranch (children n !! k))) <$> sortedKeys (children n)
      = (λ k, dotted (p ++ [k])) <$> sortedKeys (children n)) as ->.
    { apply list_fmap_ext. intros i k Hi%list_elem_of_lookup_2. by apply Hk. }
    split.
    + apply NoDup_filter. apply NoDup_fmap_2_strong.
      * intros k k' Hi Hi' E. apply dotted_inj in E; [|by apply Hk..]. by apply app_inv_head in E as [= ->].
      * unfold sortedKeys. by apply Sort.NoDup_Strings, NoDup_keys.
    + intros z. rewrite list_elem_of_filter, list_elem_of_fmap. unfold instance_under. rewrite Hn. split.
      * intros (Hz&k&->&Hi). destruct (Hk k Hi) as (_&Hlast&_). rewrite Hlast in Hz. exists k. split; [|done].
        exists n. split_and!; [done|by apply elem_of_sortedKeys|done].
      * intros (c&(n'&[= <-]&Hc&Hi)&->). assert (c ∈ sortedKeys (children n)) as Hin by by apply elem_of_sortedKeys.
        destruct (Hk c Hin) as (_&Hlast&_). rewrite Hlast. split; [done|]. by exists c.
  - destruct (Children_failed t path p Hp) as [e ->]; [rewrite Hn; by intros ? [=]|]. split; [constructor|].
    intros z. split; [by intros ?%not_elem_of_nil|]. intros (c&Hc&_).
    apply instance_node in Hc as (n'&_&Hn'&_); [congruence|done].
Qed.

(** The ids a loop takes are the next ones, in order. *)
Definition msg_id (serial kind : string) (n : Z) : string := kind +:+ "-" +:+ serial +:+ "-" +:+ Strconv.Itoa n.
Lemma msg_id_inj serial kind n n' : msg_id serial kind n = msg_id serial kind n' → n = n'.
Proof. unfold msg_id. intros H. do 4 apply str_app_inj_l in H. by apply Strconv.Itoa_inj. Qed.

Lemma build_all_spec serial kind (f : string → Subscription → Msg Notify) (subs : list Subscription) (n : Z) :
  (0 ≤ n)%Z → (n + Z.of_nat (length subs) < 2 ^ 64)%Z → (∀ id s, MsgId (f id s) = id) →
  let '(n', ms) := build_all (λ n s, let '(n', id) := nextMsgID serial kind n in (n', f id s)) n subs in
  n' = (n + Z.of_nat (length subs))%Z ∧
  Forall2 (λ s m, m = f (MsgId m) s) subs ms ∧
  MsgId <$> ms = msg_id serial kind <$> seqZ (n + 1) (Z.of_nat (length subs)).
Proof.
  intros Hn Hb Hf. revert n Hn Hb. induction subs as [|s subs IH]; intros n Hn Hb; cbn [build_all].
  { cbn. split_and!; [lia|constructor|done]. }
  cbn [length] in Hb. unfold nextMsgID at 1, next_seq. rewrite Z.mod_small by lia.
  specialize (IH (n + 1)%Z ltac:(lia) ltac:(lia)).
  destruct (build_all _ (n + 1)%Z subs) as [n' ms]. destruct IH as (->&HF&Hids). cbn [length].
  split_and!; [lia| |].
  - constructor; [|done]. by rewrite Hf.
  - rewrite fmap_cons, Hf, Hids, (seqZ_cons (n + 1)) by lia. cbn [fmap list_fmap].
    unfold msg_id at 2. do 3 f_equal; lia.
Qed.

Lemma NoDup_ids serial kind n k : NoDup (msg_id serial kind <$> seqZ n k).
Proof. apply NoDup_fmap_2; [|apply NoDup_seqZ]. intros ??. apply msg_id_inj. Qed.

(** What the notify of a change says. *)
Definition change_kind (c : Change) : string :=
  match cKind c with ChangeValue => "vc" | ChangeObjectCreated => "objadd" | ChangeObjectDeleted => "objdel" end.
Definition change_says (t : Tree) (c : Change) : Notification :=
  match cKind c with
  | ChangeValue => ValueChange (cPath c) (Raw (New c))
  | ChangeObjectCreated => ObjectCreation (cPath c) (uniqueKeysFor t (cPath c))
  | ChangeObjectDeleted => ObjectDeletion (cPath c)
  end.

(** The loop of a change is one of those. *)
Lemma build_all_change serial t c subs n :
  build_all (λ seq s, buildNotify serial t seq s c) n subs =
  build_all (λ n s, let '(n', id) := nextMsgID serial (change_kind c) n in (n', notify_msg id (ID s) (change_says t c))) n subs.
Proof.
  revert n. induction subs as [|s subs IH]; intros n; [done|]. cbn [build_all].
  assert (buildNotify serial t n s c = let '(n', id) := nextMsgID serial (change_kind c) n in (n', notify_msg id (ID s) (change_says t c))) as ->.
  { unfold buildNotify, change_kind, change_says. by destruct (cKind c). }
  destruct (nextMsgID _ _ n) as [n1 id]. by rewrite IH.
Qed.

(** *** What a change owes, read off the tree's leaves *)

(** A leaf of the row [k] of the subscription table. *)
Definition sub_leaf (t : Tree) (k name : string) : option string :=
  Raw <$> view t ["Device"; "LocalAgent"; "Subscription"; k; name].

(** A text whose words are [ws]: spaces, commas, tabs and line feeds separate. *)
Definition separator (c : ascii) : Prop := c = " "%char ∨ c = ","%char ∨ c = ascii_of_N 9 ∨ c = ascii_of_N 10.
Inductive written : string → list string → Prop :=
| w_end : written "" []
| w_sep c s ws : separator c → written s ws → written (String c s) ws
| w_word w s ws : w ≠ "" → (∀ c, separator c → Strings.no_byte c w = true) → s = "" ∨ (∃ c s', s = String c s' ∧ separator c) →
    written s ws → written (w +:+ s) (w :: ws).

(** A reference covers the path it is, what is below it when it ends with a
    dot, and with an asterisk any instance number in that place. *)
Definition refers (ref path : string) : Prop :=
  if Strings.Contains ref "*" then
    let rs := Strings.Split (Strings.TrimSuffix ref ".") "." in
    let ps := Strings.Split (Strings.TrimSuffix path ".") "." in
    if Strings.HasSuffix ref "." then ∃ init tl, ps = init ++ tl ∧ Forall2 segment_covers rs init
    else Forall2 segment_covers rs ps
  else path = ref ∨ Strings.HasSuffix ref "." = true ∧ ∃ s, path = ref +:+ s.

Definition kind_name (k : ChangeKind) : string :=
  match k with ChangeValue => "ValueChange" | ChangeObjectCreated => "ObjectCreation" | ChangeObjectDeleted => "ObjectDeletion" end.
(** The row [k] is enabled, asks for changes of this kind, and one of its
    references covers the path. *)
Definition watches (t : Tree) (k : string) (c : Change) : Prop :=
  instance_under t ["Device"; "LocalAgent"; "Subscription"] k ∧
  (sub_leaf t k "Enable" = Some "true" ∨ sub_leaf t k "Enable" = Some "1") ∧
  sub_leaf t k "NotifType" = Some (kind_name (cKind c)) ∧
  (∃ text ws w, sub_leaf t k "ReferenceList" = Some text ∧ written text ws ∧ w ∈ ws ∧
     Space.TrimSpace w ≠ "" ∧ refers (Space.TrimSpace w) (cPath c)) ∧
  ¬ ∃ s, cPath c = "Device.LocalAgent.Subscription." +:+ s.

(** What the notify of a change says; the unique keys of an object are those
    of five leaves that it has and that are not empty. *)
Definition unique_key (t : Tree) (path name : string) : option string :=
  if bool_decide (name ∈ ["Alias"; "SSID"; "MACAddress"; "Name"; "Interface"])
  then match Get t (path +:+ name) with Ok v => if String.eqb (Raw v) "" then None else Some (Raw v) | Err _ => None end
  else None.
Definition says (t : Tree) (c : Change) (n : Notification) : Prop :=
  match cKind c with
  | ChangeValue => n = ValueChange (cPath c) (Raw (New c))
  | ChangeObjectCreated => ∃ keys, n = ObjectCreation (cPath c) keys ∧ ∀ name, keys !! name = unique_key t (cPath c) name
  | ChangeObjectDeleted => n = ObjectDeletion (cPath c)
  end.

Lemma separator_sep c : separator c ↔ is_ref_sep c = true.
Proof. unfold separator, is_ref_sep. rewrite !orb_true_iff, !Ascii.eqb_eq. tauto. Qed.
Lemma no_sep_app w c : (∀ d, separator d → Strings.no_byte d w = true) → ¬ separator c →
  ∀ d, separator d → Strings.no_byte d (w +:+ String c "") = true.
Proof.
  intros Hw Hc d Hd. rewrite no_byte_app, (Hw d Hd). unfold Strings.no_byte. cbn. rewrite andb_true_r.
  apply negb_true_iff, Ascii.eqb_neq. by intros ->.
Qed.
Lemma fields_written cur s : (∀ c, separator c → Strings.no_byte c cur = true) → written (cur +:+ s) (fields_go cur s).
Proof.
  revert cur. induction s as [|c s IH]; intros cur Hc; cbn [fields_go].
  - destruct (String.eqb_spec cur "") as [->|Hn]; [apply w_end|]. apply (w_word cur "" []); [done..|by left|apply w_end].
  - destruct (is_ref_sep c) eqn:Es.
    + apply separator_sep in Es. assert (written (String c s) (fields_go "" s)) as H by (apply w_sep; [done|by apply (IH "")]).
      destruct (String.eqb_spec cur "") as [->|Hn]; [done|]. apply w_word; [done|done| |done]. right. by exists c, s.
    + replace (cur +:+ String c s) with ((cur +:+ String c "") +:+ s) by by rewrite str_app_assoc.
      apply IH, no_sep_app; [done|]. rewrite separator_sep. congruence.
Qed.
Lemma fields_word cur w s : (∀ c, separator c → Strings.no_byte c w = true) → fields_go cur (w +:+ s) = fields_go (cur +:+ w) s.
Proof.
  revert cur. induction w as [|c w IH]; intros cur Hw; [by rewrite str_app_nil_r|]. cbn [String.append fields_go].
  destruct (is_ref_sep c) eqn:Es.
  - apply separator_sep in Es. specialize (Hw c Es). unfold Strings.no_byte in Hw. cbn in Hw. by rewrite Ascii.eqb_refl in Hw.
  - rewrite IH; [by rewrite str_app_assoc|]. intros d Hd. specialize (Hw d Hd). unfold Strings.no_byte in *. cbn in Hw.
    by apply andb_true_iff in Hw as [_ Hw].
Qed.
Lemma written_fields raw ws : written raw ws → fields_go "" raw = ws.
Proof.
  induction 1 as [|c s ws Hc _ IH|w s ws Hne Hw Hs _ IH]; [done| |].
  - cbn. by rewrite (proj1 (separator_sep c) Hc).
  - rewrite fields_word by done. cbn [String.append]. apply String.eqb_neq in Hne. destruct Hs as [->|(c&s'&->&Hc)].
    + cbn [fields_go] in *. by rewrite Hne, <-IH.
    + cbn [fields_go] in *. rewrite (proj1 (separator_sep c) Hc) in *. by rewrite Hne, <-IH.
Qed.
Lemma splitReferenceList_spec text ref :
  ref ∈ splitReferenceList text ↔ ∃ ws w, written text ws ∧ w ∈ ws ∧ ref = Space.TrimSpace w ∧ ref ≠ "".
Proof.
  unfold splitReferenceList. rewrite list_elem_of_filter, list_elem_of_fmap. split.
  - intros (Hne&w&->&Hin). exists (fields_go "" text), w. split; [by apply (fields_written "")|done].
  - intros (ws&w&H&Hin&->&Hne). apply written_fields in H as <-. split; [done|]. by exists w.
Qed.

Lemma refers_spec ref path : ref ≠ "" → ref_matches path ref = true ↔ refers ref path.
Proof.
  intros Hne. unfold ref_matches, refers. rewrite (proj2 (String.eqb_neq _ _) Hne). destruct (Strings.Contains ref "*").
  - unfold matchWildcardPath. set (rs := Strings.Split (Strings.TrimSuffix ref ".") "."). set (ps := Strings.Split (Strings.TrimSuffix path ".") ".").
    destruct (Strings.HasSuffix ref ".").
    + destruct (Nat.ltb_spec (length ps) (length rs)) as [Hl|Hl]; [|apply segments_match_spec].
      split; [done|]. intros (init&tl&E&H%Forall2_length). rewrite E, length_app in Hl. lia.
    + destruct (Nat.eqb_spec (length ps) (length rs)) as [Hl|Hl]; cbn.
      * rewrite segments_match_spec. split.
        -- intros (init&tl&E&H). pose proof (Forall2_length _ _ _ H) as Hi. rewrite E, length_app in Hl.
           destruct tl; [by rewrite E, app_nil_r|cbn in Hl; lia].
        -- intros H. exists ps, []. by rewrite app_nil_r.
      * split; [done|]. intros H%Forall2_length. done.
  - destruct (Strings.HasSuffix ref ".").
    + rewrite Strings.HasPrefix_iff. split; [by right|]. intros [->|[_ H]]; [exists ""; by rewrite str_app_nil_r|done].
    + rewrite String.eqb_eq. split; [by left|]. by intros [|[]].
Qed.

Lemma sub_leaf_raw t k name : instance_under t ["Device"; "LocalAgent"; "Subscription"] k → valid_segment name = true →
  match Get t (dotted ["Device"; "LocalAgent"; "Subscription"; k] +:+ name) with Ok v => Some (Raw v) | Err _ => None end = sub_leaf t k name.
Proof.
  intros (_&_&_&Hk) Hn. apply digit_segment in Hk.
  assert (Forall (λ s, valid_segment s = true) ["Device"; "LocalAgent"; "Subscription"; k; name]) as Hv.
  { repeat (apply Forall_cons_2; [done|]). constructor. }
  assert (dotted ["Device"; "LocalAgent"; "Subscription"; k] +:+ name = joinPath ["Device"; "LocalAgent"; "Subscription"; k; name]) as ->.
  { etrans; [|symmetry; by apply (joinPath_snoc ["Device"; "LocalAgent"; "Subscription"; k] name)]. unfold dotted. by rewrite str_app_assoc. }
  pose proof (parsePath_joinPath _ Hv) as Hp. unfold sub_leaf. destruct (view t _) as [v|] eqn:Ev.
  - rewrite (proj2 (Get_view t _ v)); [done|]. by eexists.
  - destruct (Get t _) as [v|e] eqn:Eg; [|done]. apply Get_view in Eg as (q&Hq&Hv'). congruence.
Qed.

Lemma uniqueKeysFor_lookup t path name : uniqueKeysFor t path !! name = unique_key t path name.
Proof.
  unfold uniqueKeysFor, candidates, unique_key.
  set (f := λ (keys : gmap string string) candidate, match Get t (path +:+ candidate) with
    | Ok v => if String.eqb (Raw v) "" then keys else <[candidate := Raw v]> keys | Err _ => keys end).
  assert (∀ l (m : gmap string string), foldl f m l !! name = if bool_decide (name ∈ l)
    then match Get t (path +:+ name) with Ok v => if String.eqb (Raw v) "" then m !! name else Some (Raw v) | Err _ => m !! name end
    else m !! name) as H; [|by rewrite H].
  induction l as [|x l IH]; intros m; [done|]. cbn [foldl]. rewrite IH. unfold f at 1 2 3.
  destruct (decide (name = x)) as [->|Hne].
  - rewrite (bool_decide_true (x ∈ x :: l)) by left. destruct (Get t (path +:+ x)) as [v|]; [|by case_bool_decide].
    destruct (String.eqb (Raw v) ""); [by case_bool_decide|]. rewrite lookup_insert_eq. by case_bool_decide.
  - assert (bool_decide (name ∈ x :: l) = bool_decide (name ∈ l)) as ->.
    { apply bool_decide_ext. rewrite elem_of_cons. naive_solver. }
    destruct (Get t (path +:+ x)) as [v|]; [|done]. destruct (String.eqb (Raw v) ""); [done|].
    by rewrite lookup_insert_ne.
Qed.

(** The rows the code picks are those that watch the change. *)
Lemma wanted_watches t k c : instance_under t ["Device"; "LocalAgent"; "Subscription"] k →
  Strings.HasPrefix (cPath c) SubscriptionTablePath = false →
  wanted_sub (notifTypeFor (cKind c)) (cPath c) (read_subscription t (dotted ["Device"; "LocalAgent"; "Subscription"; k])) = true ↔
  watches t k c.
Proof.
  intros Hk Hpre. unfold wanted_sub, watches, read_subscription, raw_or, Matches. cbn [Enable NotifType ReferenceList].
  pose proof (sub_leaf_raw t k "Enable" Hk eq_refl) as He. pose proof (sub_leaf_raw t k "NotifType" Hk eq_refl) as Ht.
  pose proof (sub_leaf_raw t k "ReferenceList" Hk eq_refl) as Hr. rewrite <-He, <-Ht, <-Hr. clear He Ht Hr.
  assert (¬ ∃ s, cPath c = SubscriptionTablePath +:+ s) as Hno.
  { rewrite <-Strings.HasPrefix_iff. congruence. }
  assert (notifTypeFor (cKind c) = kind_name (cKind c)) as -> by by destruct (cKind c).
  assert (kind_name (cKind c) ≠ "") as Hkn by by destruct (cKind c).
  rewrite !andb_true_iff, String.eqb_eq.
  assert (∀ z : string, (String.eqb z "true" || String.eqb z "1") = true ↔ z = "true" ∨ z = "1") as Hb.
  { intros z. by rewrite orb_true_iff, !String.eqb_eq. }
  assert (∀ (l : list string) text, (∀ ref, ref ∈ l ↔ ∃ ws w, written text ws ∧ w ∈ ws ∧ ref = Space.TrimSpace w ∧ ref ≠ "") →
    existsb (ref_matches (cPath c)) l = true ↔ ∃ ws w, written text ws ∧ w ∈ ws ∧ Space.TrimSpace w ≠ "" ∧ refers (Space.TrimSpace w) (cPath c)) as Hl.
  { intros l text H. rewrite existsb_exists. split.
    - intros (ref&Hin%list_elem_of_In&Hm). apply H in Hin as (ws&w&?&?&->&Hne). exists ws, w. by rewrite <-refers_spec.
    - intros (ws&w&?&?&Hne&Hm). exists (Space.TrimSpace w). rewrite <-list_elem_of_In, H, refers_spec by done. split; [|done]. by exists ws, w. }
  assert (∀ r : result error Value, match r with Ok v => Raw v | Err _ => "" end = "true" ∨ match r with Ok v => Raw v | Err _ => "" end = "1" ↔
    match r with Ok v => Some (Raw v) | Err _ => None end = Some "true" ∨ match r with Ok v => Some (Raw v) | Err _ => None end = Some "1") as H1.
  { intros [v|e]; [|by split; intros [?|?]]. split; (intros [H|H]; [left|right]; congruence). }
  assert (∀ r : result error Value, match r with Ok v => Raw v | Err _ => "" end = kind_name (cKind c) ↔
    match r with Ok v => Some (Raw v) | Err _ => None end = Some (kind_name (cKind c))) as H2.
  { intros [v|e]; [split; congruence|]. split; [intros H; by symmetry in H|done]. }
  rewrite Hb, H1, H2.
  assert (∀ r : result error Value, existsb (ref_matches (cPath c)) (match r with Ok v => splitReferenceList (Raw v) | Err _ => [] end) = true ↔
    ∃ text ws w, match r with Ok v => Some (Raw v) | Err _ => None end = Some text ∧ written text ws ∧ w ∈ ws ∧ Space.TrimSpace w ≠ "" ∧
      refers (Space.TrimSpace w) (cPath c)) as H3.
  { intros [v|e]; [|split; [done|by intros (?&?&?&?&_)]]. rewrite (Hl _ _ (splitReferenceList_spec (Raw v))). split.
    - intros (ws&w&H). by exists (Raw v), ws, w.
    - intros (text&ws&w&[= <-]&H). by exists ws, w. }
  rewrite H3. clear H1 H2 H3 Hl Hb. tauto.
Qed.

(** The rows of the table, by their instance numbers. *)
Definition row_path (k : string) : string := dotted ["Device"; "LocalAgent"; "Subscription"; k].
Lemma table_keys t : wf_tree t →
  ∃ ks, childInstances t SubscriptionTablePath = row_path <$> ks ∧ NoDup ks ∧
    ∀ k, k ∈ ks ↔ instance_under t ["Device"; "LocalAgent"; "Subscription"] k.
Proof.
  intros Hw. destruct (childInstances_spec t SubscriptionTablePath ["Device"; "LocalAgent"; "Subscription"] Hw eq_refl) as [HN Hin].
  assert (∀ l : list string, (∀ z, z ∈ l → ∃ k, instance_under t ["Device"; "LocalAgent"; "Subscription"] k ∧ z = row_path k) →
    ∃ ks : list string, l = row_path <$> ks ∧ ∀ k, k ∈ ks → instance_under t ["Device"; "LocalAgent"; "Subscription"] k) as Hl.
  { induction l as [|z l IH]; intros H; [exists []; split; [done|by intros k ?%not_elem_of_nil]|].
    destruct (H z) as (k&Hk&->); [by left|]. destruct IH as (ks&->&Hks); [intros z Hz; apply H; by right|].
    exists (k :: ks). split; [done|]. intros k' [->|?]%elem_of_cons; [done|by apply Hks]. }
  destruct (Hl _ (λ z Hz, proj1 (Hin z) Hz)) as (ks&E&Hks). exists ks. split; [done|]. split; [rewrite E in HN; by eapply NoDup_fmap_1|].
  intros k. split; [apply Hks|]. intros Hk. assert (row_path k ∈ childInstances t SubscriptionTablePath) as H by (apply Hin; by exists k).
  rewrite E in H. apply list_elem_of_fmap in H as (k'&Ek&Hk'). apply dotted_inj in Ek as [= ->]; [done| |].
  - repeat (apply Forall_cons_2; [done || apply digit_segment; by destruct Hk as (?&_&_&?)|]). constructor.
  - repeat (apply Forall_cons_2; [done || apply digit_segment; by destruct (Hks k' Hk') as (?&_&_&?)|]). constructor.
Qed.
Lemma filter_rows {A B} (f : A → B) (P : B → bool) (l : list A) :
  filter (λ b, P b = true) (f <$> l) = f <$> filter (λ a, P (f a) = true) l.
Proof. induction l as [|a l IH]; [done|]. rewrite fmap_cons, !filter_cons, IH. by destruct (decide (P (f a) = true)). Qed.

(** C40. A change is reported once for each row of the subscription table that
    the tree has at that moment and that watches it: the row's Enable leaf reads
    true or 1, its NotifType names the kind of the change, and some word of its
    ReferenceList (of any number, separated by spaces, commas, tabs or line
    feeds) covers the changed path. The report bears that row's ID and says what
    changed. The messages have the next ids of the agent, all different (its
    64-bit counter not wrapping within the change). A change of the
    subscription table itself is reported to none. *)
Theorem notify_change_exact (serial : string) (t : Tree) (n : Z) (c : Change) (Hw : wf_tree t) (Hn : (0 ≤ n)%Z)
  (Hb : (n + Z.of_nat (length (SubscriptionTable t)) < 2 ^ 64)%Z) :
  let '(n', ms) := notify_change serial t n c in
  ∃ ks, NoDup ks ∧ (∀ k, k ∈ ks ↔ watches t k c) ∧
  Forall2 (λ k m, ∃ what, says t c what ∧ m = notify_msg (MsgId m) (default "" (sub_leaf t k "ID")) what) ks ms ∧
  MsgId <$> ms = msg_id serial (change_kind c) <$> seqZ (n + 1) (Z.of_nat (length ms)) ∧ NoDup (MsgId <$> ms) ∧
  n' = (n + Z.of_nat (length ms))%Z.
Proof.
  unfold notify_change. destruct (Strings.HasPrefix (cPath c) SubscriptionTablePath) eqn:Hpre.
  { exists []. split; [constructor|]. split; [|split; [constructor|split; [done|split; [constructor|cbn; lia]]]].
    intros k. split; [by intros ?%not_elem_of_nil|]. intros (_&_&_&_&H). exfalso. by apply H, Strings.HasPrefix_iff. }
  destruct (table_keys t Hw) as (K&EK&HN&HK).
  set (P := wanted_sub (notifTypeFor (cKind c)) (cPath c)). set (ks := filter (λ k, P (read_subscription t (row_path k)) = true) K).
  assert (filter (λ s, P s = true) (SubscriptionTable t) = (λ k, read_subscription t (row_path k)) <$> ks) as Ef.
  { unfold SubscriptionTable, ks. rewrite EK, <-list_fmap_compose. apply (filter_rows (λ k, read_subscription t (row_path k)) P). }
  assert (length ks ≤ length (SubscriptionTable t))%nat as Hlen.
  { unfold SubscriptionTable. rewrite EK, !length_fmap. apply length_filter. }
  rewrite Ef. pose proof (build_all_spec serial (change_kind c) (λ id s, notify_msg id (ID s) (change_says t c))
    ((λ k, read_subscription t (row_path k)) <$> ks) n Hn ltac:(rewrite length_fmap; lia) ltac:(done)) as H.
  rewrite (build_all_change serial t c). destruct (build_all _ n _) as [n' ms]. destruct H as (->&HF&Hids).
  pose proof (Forall2_length _ _ _ HF) as Hl. rewrite Hl in *.
  exists ks. split; [by apply NoDup_filter|]. split; [|split; [|split; [done|split; [rewrite Hids; apply NoDup_ids|done]]]].
  - intros k. unfold ks. rewrite list_elem_of_filter, HK. split.
    + intros [Hwk Hk]. by apply wanted_watches.
    + intros Hwk. assert (instance_under t ["Device"; "LocalAgent"; "Subscription"] k) as Hk by apply Hwk.
      split; [by apply wanted_watches|done].
  - apply Forall2_fmap_l in HF. assert (∀ k, k ∈ ks → instance_under t ["Device"; "LocalAgent"; "Subscription"] k) as Hks.
    { intros k [_ Hk]%list_elem_of_filter. by apply HK. }
    clear -HF Hks. induction HF as [|k m ks ms Hm HF IH]; [constructor|]. constructor; [|apply IH; intros k' ?; apply Hks; by right].
    exists (change_says t c). split; [|].
    + unfold says, change_says. destruct (cKind c); [done| |done]. eexists. split; [done|]. intros name. apply uniqueKeysFor_lookup.
    + pose proof (sub_leaf_raw t k "ID" (Hks k ltac:(by left)) eq_refl) as Hid. rewrite Hm at 1. f_equal.
      unfold read_subscription, raw_or, row_path. cbn [ID]. rewrite <-Hid. by destruct (Get t _).
Qed.

(** One subscription to the aliases of the hosts. *)
Definition ex_subscribed : Tree :=
  let leaf r := NewLeaf (MkValue TypeString r true) in
  let row := branch [("ID", leaf "sub-1"); ("Enable", leaf "true"); ("NotifType", leaf "ValueChange");
                     ("ReferenceList", leaf "Device.Host.*.Alias, Device.Other.")] in
  MkTree (branch [("Device", branch [("LocalAgent", branch [("Subscription", branch [("1", row)])])])]) (MkObservers 0 ∅).

Definition ex_change : Change := MkChange "Device.Host.7.Alias" Value_zero (MkValue TypeString "new" true) ChangeValue.
Lemma ex_notified : notify_change "S1" ex_subscribed 4 ex_change = (5%Z, [NewValueChangeNotify "vc-S1-5" "sub-1" "Device.Host.7.Alias" "new"]).
Proof. vm_compute. reflexivity. Qed.
Lemma notify_change_exact_witness : ∃ k, watches ex_subscribed k ex_change ∧ ∀ k', watches ex_subscribed k' ex_change → k' = k.
Proof.
  assert (wf_tree ex_subscribed) as Hw by (apply wf_nodeb_sound; vm_compute; reflexivity).
  assert (4 + Z.of_nat (length (SubscriptionTable ex_subscribed)) < 2 ^ 64)%Z as Hl by (vm_compute; reflexivity).
  assert (0 ≤ 4)%Z as H4 by discriminate.
  pose proof (notify_change_exact "S1" ex_subscribed 4 ex_change Hw H4 Hl) as H. rewrite ex_notified in H.
  destruct H as (ks&_&Hk&HF&_). apply Forall2_cons_inv_r in HF as (k&ks'&_&HF'&->). apply Forall2_nil_inv_r in HF' as ->.
  exists k. split; [apply Hk; left|]. intros k' H'. apply Hk in H'. by apply list_elem_of_singleton in H'.
Defined.
