(* ===== verification/UspAsync.v ===== *)
(** * Commands over USP ([internal/usp/agent/async.go]; [EnsureLocalAgent] of
    [subscriptions.go]): the local agent's subtree, the request rows of
    asynchronous commands, and the answer to an Operate. *)
From Stdlib Require Import ZArith Lia Ascii String.
From S2P Require Import Prelude GoLib GoText CpeErr Types Node Tree TreeProps Objects ObjectsProps Listing.
From S2P Require Import TreeInv UspPaths UspQueries UspDiscovery UspWrites UspDelete UspMessages UspSubscriptions.

(** ** Several tree operations in a row *)

(** [if err := op(); err != nil { return err }]: the changes add up. *)
Definition then_ {A B} (m : outcome A) (f : A → Tree → outcome B) : outcome B :=
  match m with
  | (t, cs, Err e) => (t, cs, Err e)
  | (t, cs, Ok a) => let '(t', cs', r) := f a t in (t', cs ++ cs', r)
  end.
Definition done_ {A} (a : A) (t : Tree) : outcome A := (t, [], Ok a).
(** A result that is dropped. *)
Definition and_then {A B} (m : outcome A) (f : Tree → outcome B) : outcome B :=
  let '(t, cs, _) := m in let '(t', cs', r) := f t in (t', cs ++ cs', r).

(** ** EnsureLocalAgent *)

Definition RequestTablePath : string := "Device.LocalAgent.Request.".
Definition RequestStatusRequested : string := "Requested".
Definition RequestStatusActive : string := "Active".
Definition RequestStatusSuccess : string := "Success".
Definition RequestStatusError : string := "Error".

Fixpoint attach_all (leaves : list (string * Value)) (n : Node) : result error Node :=
  match leaves with
  | [] => Ok n
  | (name, v) :: rest => n' ← Attach n name (NewLeaf v); attach_all rest n'
  end.
Definition str_leaf (writable : bool) (name raw : string) : string * Value := (name, MkValue TypeString raw writable).
Definition bool_leaf (name raw : string) : string * Value := (name, MkValue TypeBoolean raw true).

(** The steps the three tables share. *)
Definition mount_table (t : Tree) (tablePath : string) (leaves : list (string * Value)) : outcome unit :=
  match attach_all leaves NewBranch with
  | Err e => (t, [], Err e)
  | Ok template =>
      let parent := Strings.TrimSuffix tablePath "." in
      then_ (Mount t parent NewBranch) (λ _ t, AddTable t parent (Some template))
  end.
Definition ensure_table (t : Tree) (tablePath : string) (leaves : list (string * Value)) : outcome unit :=
  if is_ok (Children t tablePath) then done_ tt t else mount_table t tablePath leaves.

Definition ensureRequestTable (t : Tree) : outcome unit :=
  ensure_table t RequestTablePath
    [str_leaf false "Alias" ""; str_leaf false "Originator" ""; str_leaf false "Command" "";
     str_leaf false "CommandKey" ""; str_leaf false "Status" RequestStatusRequested].
Definition ensureSubscriptionTable (t : Tree) : outcome unit :=
  ensure_table t SubscriptionTablePath
    [str_leaf true "Alias" ""; str_leaf true "ID" ""; bool_leaf "Enable" "false"; str_leaf true "NotifType" "";
     str_leaf true "ReferenceList" ""; bool_leaf "Persistent" "false"; str_leaf true "Recipient" "";
     bool_leaf "NotifRetry" "false"; ("NotifExpiration", MkValue TypeUnsignedInt "0" true);
     ("TimeToLive", MkValue TypeUnsignedInt "0" true);
     ("CreationDate", MkValue TypeDateTime "0001-01-01T00:00:00Z" false)].
Definition ensureEndpointID (t : Tree) (endpointID : string) : outcome unit :=
  if is_ok (Get t LocalAgentEndpointID) then done_ tt t
  else Mount t LocalAgentEndpointID (NewLeaf (MkValue TypeString endpointID false)).

Definition has_raw (t : Tree) (path raw : string) : bool :=
  match Get t path with Ok v => String.eqb (Raw v) raw | Err _ => false end.
Definition ensureControllerTable (t : Tree) (controllerEndpointID : string) : outcome unit :=
  then_ (ensure_table t ControllerTablePath [str_leaf true "Alias" ""; str_leaf true "EndpointID" ""; bool_leaf "Enable" "true"])
    (λ _ t,
      if String.eqb controllerEndpointID "" then done_ tt t
      else if existsb (λ child, has_raw t (child +:+ "EndpointID") controllerEndpointID) (childInstances t ControllerTablePath)
      then done_ tt t
      else
        then_ (AddObject t ControllerTablePath) (λ i t,
          let row := ControllerTablePath +:+ Strconv.Itoa i +:+ "." in
          then_ (SetSystem t (row +:+ "EndpointID") controllerEndpointID) (λ _ t,
            then_ (SetSystem t (row +:+ "Alias") "cpe-labs") (λ _ t, SetSystem t (row +:+ "Enable") "true")))).
Definition EnsureLocalAgent (t : Tree) (agentEndpointID controllerEndpointID : string) : outcome unit :=
  then_ (ensureSubscriptionTable t) (λ _ t, then_ (ensureRequestTable t) (λ _ t,
    then_ (ensureControllerTable t controllerEndpointID) (λ _ t, ensureEndpointID t agentEndpointID))).

(** ** Request rows *)

(** [None] is the empty string the source returns when there is none. *)
Definition activeRequestForCommand (t : Tree) (commandPath : string) : option string :=
  List.find (λ row, has_raw t (row +:+ "Command") commandPath) (childInstances t RequestTablePath).

Fixpoint set_all (t : Tree) (path : string) (order : list (string * string)) : outcome unit :=
  match order with
  | [] => done_ tt t
  | (leaf, value) :: rest => then_ (SetSystem t (path +:+ leaf) value) (λ _ t, set_all t path rest)
  end.
Definition request_leaves (controllerID commandPath commandKey : string) : list (string * string) :=
  [("Originator", controllerID); ("Command", commandPath); ("CommandKey", commandKey); ("Status", RequestStatusRequested)].

(** [order] is the order Go's range over the map of leaves happens to take. *)
Definition createRequest (order : list (string * string)) (t : Tree) : outcome string :=
  then_ (ensureRequestTable t) (λ _ t,
    then_ (AddObject t RequestTablePath) (λ inst t,
      let path := RequestTablePath +:+ Strconv.Itoa inst +:+ "." in
      match then_ (set_all t path order) (λ _ t, SetSystem t (path +:+ "Status") RequestStatusActive) with
      | (t, cs, Err e) => let '(t', cs', _) := DeleteObject t path in (t', cs ++ cs', Err e)
      | (t, cs, Ok _) => (t, cs, Ok path)
      end)).

(** The two results are only logged. *)
Definition finishRow (t : Tree) (requestPath status : string) : Tree * list Change :=
  let '(t', cs, _) := and_then (SetSystem t (requestPath +:+ "Status") status) (λ t, DeleteObject t requestPath) in (t', cs).

Record AsyncOp := MkAsyncOp {
  RequestPath : string; ObjPath : string; CommandName : string; CommandKey : string; Originator : string
}.

Section runner.
Context (serial controllerID : string).

Definition Complete (t : Tree) (seq : Z) (o : AsyncOp) (outputArgs : gmap string string)
  : Tree * list Change * (Z * list (Msg Notify)) :=
  let '(t', cs) := finishRow t (RequestPath o) RequestStatusSuccess in
  (t', cs, notifyOperationComplete serial t' seq (ObjPath o) (CommandName o) (CommandKey o) outputArgs None).
Definition Fail (t : Tree) (seq : Z) (o : AsyncOp) (errCode : Z) (errMsg : error)
  : Tree * list Change * (Z * list (Msg Notify)) :=
  let '(t', cs) := finishRow t (RequestPath o) RequestStatusError in
  (t', cs, notifyOperationComplete serial t' seq (ObjPath o) (CommandName o) (CommandKey o) ∅ (Some (errCode, errMsg))).

(** ** handleOperate *)

(** What the hook returns: an error with the code its [*CommandError] carries
    (0 for none or another error), or a synchronous or asynchronous outcome.
    A nil outcome is a synchronous one without arguments. *)
Inductive operate_outcome :=
| OpFailed (code : Z) (msg : error)
| OpSync (outputArgs : gmap string string)
| OpAsync (objPath commandName : string).
Inductive OperateResponse :=
| RespCmdFailure (code : Z) (msg : error)
| RespOutputArgs (args : gmap string string)
| RespObjPath (path : string).
Record OperationResult := MkOperationResult { ExecutedCommand : string; OperationResponse : OperateResponse }.

(** What becomes of an asynchronous outcome: [Run] is started on the
    operation, or [Abort] is called. *)
Inductive async_fate := NoAsync | Started (op : AsyncOp) | Aborted.

Definition operate_msg (msgID command : string) (r : OperateResponse) : Msg (list OperationResult) :=
  MkMsg msgID OPERATE_RESP [MkOperationResult command r].

Definition handleOperate (order : list (string * string)) (t : Tree) (msgID command commandKey : string)
  (operate : option operate_outcome) : Tree * list Change * (Msg (list OperationResult) * async_fate) :=
  match operate with
  | None =>
      (t, [], (operate_msg msgID command (RespCmdFailure ErrCodeCommandFailure
         (errorf "command %q is not implemented by this simulator" [command])), NoAsync))
  | Some (OpFailed code msg) =>
      (t, [], (operate_msg msgID command (RespCmdFailure (if (code =? 0)%Z then ErrCodeCommandFailure else code) msg), NoAsync))
  | Some (OpSync args) => (t, [], (operate_msg msgID command (RespOutputArgs args), NoAsync))
  | Some (OpAsync objPath commandName) =>
      match activeRequestForCommand t command with
      | Some existing =>
          (t, [], (operate_msg msgID command (RespCmdFailure ErrCodeResourcesExceeded
             (errorf "command %q already has an active request at %s" [command; existing])), Aborted))
      | None =>
          match createRequest order t with
          | (t', cs, Err e) =>
              (t', cs, (operate_msg msgID command (RespCmdFailure ErrCodeCommandFailure
                 (Errorf "could not create the request row: %w" [] (Some e))), Aborted))
          | (t', cs, Ok reqPath) =>
              (t', cs, (operate_msg msgID command (RespObjPath reqPath),
                        Started (MkAsyncOp reqPath objPath commandName commandKey controllerID)))
          end
      end
  end.
End runner.

(** ** Writing the leaves of a fresh row *)

Lemma SetSystem_ok t path raw p old :
  wf_tree t → parsePath path = Ok p → view t p = Some old → valid_raw (vType old) raw = true →
  ∃ t', SetSystem t path raw = (t', value_change t path old (with_raw raw old), Ok tt) ∧
    (∀ q, view t' q = spec_update p (with_raw raw old) (view t) q) ∧
    wf_tree t' ∧ same_shapes (root t) (root t') ∧ obs t' = obs t.
Proof.
  intros Hw Hp Hv Hr. pose proof (resolve_leaf_view "paramtree.SetSystem" path p (root t)) as Hl.
  unfold view in Hv. rewrite Hv in Hl. destruct Hl as (m&E&Hm&Hold).
  assert (∃ u, Validate (vType old) raw = Ok u) as [u Hu].
  { unfold valid_raw in Hr. destruct (Validate _ _); [by eexists|done]. }
  assert (SetSystem t path raw = (set_root t (alter_at (set_leaf (with_raw raw old)) p (root t)),
    value_change t path old (with_raw raw old), Ok tt)) as ES.
  { unfold SetSystem. rewrite Hp, E, Hu. done. }
  eexists. split; [exact ES|]. split_and!.
  - by apply (view_set_leaf t p m old).
  - pose proof (wf_ops_leaf t path raw old Attributes_zero Hw) as (_&H&_). by rewrite ES in H.
  - by apply (same_shapes_set_leaf _ _ _ m old).
  - done.
Qed.

Lemma view_dir t t' p : same_shapes (root t) (root t') → is_Some (view t p) → is_Some (view t' p).
Proof.
  intros Hs [v Hv]. unfold view in *. apply leaf_at_node in Hv as (m&Hm&Hl). specialize (Hs p). rewrite Hm in Hs.
  destruct (node_at p (root t')) as [m'|] eqn:E; [|done]. destruct Hs as (Hs&_&_). unfold isLeaf in Hs. rewrite Hl in Hs.
  destruct (leaf m') as [v'|] eqn:El; [|done]. exists v'. apply leaf_at_node. by exists m'.
Qed.

Definition string_leaf_at (t : Tree) (p : list string) : Prop := ∃ raw w, view t p = Some (MkValue TypeString raw w).

Lemma leaf_path_parses p k :
  p ≠ [] → Forall (λ s, valid_segment s = true) (p ++ [k]) → parsePath (dotted p +:+ k) = Ok (p ++ [k]).
Proof.
  intros Hne Hv. unfold dotted. rewrite str_app_assoc, <-joinPath_snoc by done. by apply parsePath_joinPath.
Qed.

Lemma set_all_ok t p order :
  wf_tree t → p ≠ [] → NoDup order.*1 →
  Forall (λ lv, Forall (λ s, valid_segment s = true) (p ++ [lv.1]) ∧ string_leaf_at t (p ++ [lv.1]) ∧
                valid_raw TypeString lv.2 = true) order →
  ∃ t' cs, set_all t (dotted p) order = (t', cs, Ok tt) ∧
    wf_tree t' ∧ same_shapes (root t) (root t') ∧ obs t' = obs t ∧
    (∀ k v, (k, v) ∈ order → ∃ w, view t' (p ++ [k]) = Some (MkValue TypeString v w)) ∧
    (∀ q, (∀ k, k ∈ order.*1 → q ≠ p ++ [k]) → view t' q = view t q).
Proof.
  intros Hw Hne HN HF. revert t Hw HF. induction order as [|[k v] order IH]; intros t Hw HF.
  { exists t, []. split_and!; [done..| |done]. by intros ?? ?%not_elem_of_nil. }
  inv HF as [|?? (Hval&(raw&w&Hv)&Hr) HF']. cbn in HN. inv HN as [|?? Hk HN']. cbn [fst snd] in *.
  pose proof (leaf_path_parses p k Hne Hval) as Hp.
  destruct (SetSystem_ok t (dotted p +:+ k) v (p ++ [k]) _ Hw Hp Hv Hr) as (t1&E&Hv1&Hw1&Hs1&Ho1).
  assert (∀ q, q ≠ p ++ [k] → view t1 q = view t q) as Hf1.
  { intros q Hq. rewrite Hv1. unfold spec_update. by rewrite decide_False. }
  destruct (IH HN' t1 Hw1) as (t'&cs&E'&Hw'&Hs'&Ho'&Hset&Hf').
  { apply Forall_forall. intros [k' v'] Hin. rewrite Forall_forall in HF'.
    destruct (HF' _ Hin) as (?&(r'&w'&Hv')&?). split_and!; [done| |done]. exists r', w'. rewrite Hf1; [done|].
    intros [_ [=]]%app_inj_tail. subst k'. apply Hk. apply list_elem_of_fmap. by exists (k, v'). }
  cbn [set_all]. rewrite E. cbn [then_]. rewrite E'. eexists _, _. split; [reflexivity|].
  split_and!; [done|by etrans|congruence|..].
  - intros k' v' [[= -> ->]|Hin]%elem_of_cons; [|by apply Hset]. exists w. rewrite Hf'.
    + rewrite Hv1. unfold spec_update. by rewrite decide_True.
    + intros k' Hk' [_ [= ->]]%app_inj_tail. done.
  - intros q Hq. rewrite Hf'; [apply Hf1, Hq; cbn; by left|]. intros k' Hk'. apply Hq. cbn. by right.
Qed.

(** ** A request *)

Definition Requests : list string := ["Device"; "LocalAgent"; "Request"].
Lemma requests_parse : parsePath RequestTablePath = Ok Requests.
Proof. reflexivity. Qed.

(** The table as [ensureRequestTable] mounts it: rows of read-only strings. *)
Definition request_row : Node :=
  branch [("Alias", NewLeaf (MkValue TypeString "" false)); ("Originator", NewLeaf (MkValue TypeString "" false));
          ("Command", NewLeaf (MkValue TypeString "" false)); ("CommandKey", NewLeaf (MkValue TypeString "" false));
          ("Status", NewLeaf (MkValue TypeString RequestStatusRequested false))].
Definition request_table (t : Tree) (n : Node) : Prop :=
  wf_tree t ∧ node_at Requests (root t) = Some n ∧ table n = Some request_row ∧ table_ok t Requests.

Lemma request_row_leaf k :
  k ∈ ["Alias"; "Originator"; "Command"; "CommandKey"; "Status"] →
  ∃ raw, leaf_at [k] request_row = Some (MkValue TypeString raw false).
Proof.
  rewrite !elem_of_cons. intros [->|[->|[->|[->|[->|H%not_elem_of_nil]]]]]; [eexists; vm_compute; reflexivity..|done].
Qed.

Lemma row_path i : RequestTablePath +:+ Strconv.Itoa i +:+ "." = dotted (Requests ++ [Strconv.Itoa i]).
Proof. reflexivity. Qed.

(** What a new row holds. *)
Definition row_holds (t : Tree) (i : Z) (controllerID command commandKey : string) : Prop :=
  ∀ k v, (k, v) ∈ [("Alias", ""); ("Originator", controllerID); ("Command", command); ("CommandKey", commandKey);
                   ("Status", RequestStatusActive)] →
    ∃ w, view t (Requests ++ [Strconv.Itoa i; k]) = Some (MkValue TypeString v w).

(** A request row appears in [t'] at number [i], and nothing else changes but
    the table's counter. *)
Definition row_added (t t' : Tree) (n : Node) (i : Z) : Prop :=
  smallest_unused (children n) i ∧ wf_tree t' ∧
  (∃ n', node_at Requests (root t') = Some n' ∧ table n' = Some request_row ∧
         dom (children n') = dom (<[Strconv.Itoa i := request_row]> (children n))) ∧
  (∀ q, ¬ (Requests ++ [Strconv.Itoa i]) `prefix_of` q → view t' q = recounted Requests (count_instances (children n) + 1) (view t) q).

Lemma createRequest_ok t n order controllerID command commandKey :
  request_table t n → order ≡ₚ request_leaves controllerID command commandKey →
  valid_raw TypeString controllerID = true → valid_raw TypeString command = true → valid_raw TypeString commandKey = true →
  ∃ i t' cs, createRequest order t = (t', cs, Ok (dotted (Requests ++ [Strconv.Itoa i]))) ∧
    row_added t t' n i ∧ row_holds t' i controllerID command commandKey ∧ (i < 2 ^ 63)%Z ∧
    children n !! Strconv.Itoa i = None.
Proof.
  intros (Hw&Hn&Ht&Hok) Hperm Hc1 Hc2 Hc3. pose proof Hok as [Hcok Hsz]. specialize (Hsz n Hn).
  pose proof (wf_table_not_leaf n _ (wf_node_at _ _ _ Hw Hn) Ht) as Hl.
  destruct (AddObject_frame t RequestTablePath Requests n request_row Hw requests_parse Hn Ht) as (i&t1&E&Hsm&Hno&Hrow&Hout&Hn1); [lia|].
  destruct (AddObject_ok_form t RequestTablePath Requests n request_row Hw requests_parse Hn Ht) as (i'&r2&oc&_&Hi&Hfree&_&E'); [lia|].
  assert (i' = i) as -> by congruence. clear E'.
  assert (wf_tree t1) as Hw1.
  { pose proof (wf_AddObject t RequestTablePath Hw) as H. rewrite E in H. apply H. intros p' n' Hp' Hn'.
    assert (p' = Requests) as -> by (rewrite requests_parse in Hp'; congruence).
    assert (n' = n) as -> by congruence. by split. }
  assert (ensureRequestTable t = done_ tt t) as Een.
  { unfold ensureRequestTable, ensure_table. by rewrite (Children_parsed t RequestTablePath Requests n requests_parse Hn Hl). }
  set (k := Strconv.Itoa i) in *. set (p := Requests ++ [k]) in *.
  assert (∀ leaf, leaf ∈ ["Alias"; "Originator"; "Command"; "CommandKey"; "Status"] →
    ∃ raw, view t1 (p ++ [leaf]) = Some (MkValue TypeString raw false) ∧ Forall (λ s, valid_segment s = true) (p ++ [leaf])) as Hleaf.
  { intros leaf Hlf. destruct (request_row_leaf leaf Hlf) as [raw Hraw]. exists raw.
    assert (view t1 (p ++ [leaf]) = Some (MkValue TypeString raw false)) as Hv.
    { unfold view, leaf_at. rewrite node_at_app, Hrow. exact Hraw. }
    split; [done|]. unfold view in Hv. apply leaf_at_node in Hv as (m&Hm&_). by apply (wf_node_at_segments (root t1) _ m). }
  destruct (set_all_ok t1 p order Hw1) as (t2&cs2&E2&Hw2&Hs2&Ho2&Hset2&Hf2).
  { done. }
  { rewrite Hperm. cbn. apply (bool_decide_unpack _). vm_compute. done. }
  { apply Forall_forall. intros [leaf v]. rewrite Hperm. unfold request_leaves. rewrite !elem_of_cons. intros Hin.
    assert (leaf ∈ ["Alias"; "Originator"; "Command"; "CommandKey"; "Status"] ∧ valid_raw TypeString v = true) as [Hlf Hr].
    { rewrite !elem_of_cons.
      destruct Hin as [[= -> ->]|[[= -> ->]|[[= -> ->]|[[= -> ->]|Hin%not_elem_of_nil]]]]; [split; [tauto|done]..|done]. }
    destruct (Hleaf leaf Hlf) as (raw&Hv&Hval). split_and!; [done|by exists raw, false|done]. }
  destruct (Hleaf "Status" ltac:(rewrite !elem_of_cons; tauto)) as (rawS&HvS&HvalS).
  destruct (view_dir t1 t2 (p ++ ["Status"]) Hs2) as [vS HvS2]; [by rewrite HvS|].
  assert (∃ w, view t2 (p ++ ["Status"]) = Some (MkValue TypeString RequestStatusRequested w)) as [w Hst].
  { apply Hset2. rewrite Hperm. unfold request_leaves. rewrite !elem_of_cons. tauto. }
  destruct (SetSystem_ok t2 (dotted p +:+ "Status") RequestStatusActive (p ++ ["Status"]) _ Hw2
    (leaf_path_parses p "Status" ltac:(done) HvalS) Hst ltac:(vm_compute; reflexivity)) as (t3&E3&Hv3&Hw3&Hs3&Ho3).
  exists i, t3. eexists. split.
  { unfold createRequest. rewrite Een. cbn [then_ done_]. rewrite E. cbn [then_]. rewrite row_path. fold k p.
    rewrite E2. cbn [then_]. rewrite E3. reflexivity. }
  assert (∀ q, (∀ leaf, q ≠ p ++ [leaf]) → view t3 q = view t1 q) as Hsame.
  { intros q Hq. rewrite Hv3. unfold spec_update. rewrite decide_False by (intros <-; by apply (Hq "Status")).
    apply Hf2. intros leaf _. apply Hq. }
  assert (∀ leaf, leaf ≠ "Status" → view t3 (p ++ [leaf]) = view t2 (p ++ [leaf])) as H32.
  { intros leaf Hlf. rewrite Hv3. unfold spec_update. rewrite decide_False; [done|]. intros [_ [=]]%app_inj_tail. done. }
  split_and!; [split_and!; [done|done|..]| |lia|done].
  - assert (same_shapes (root t1) (root t3)) as Hs by by etrans. specialize (Hs Requests). rewrite Hn1 in Hs.
    destruct (node_at Requests (root t3)) as [n3|]; [|done]. destruct Hs as (_&Htb&Hdom). exists n3.
    split_and!; [done|by rewrite Htb|by rewrite Hdom].
  - intros q Hq. rewrite Hsame; [by apply Hout|]. intros leaf ->. apply Hq. by exists [leaf].
  - intros leaf v. rewrite !elem_of_cons.
    change (Requests ++ [k; leaf]) with (p ++ [leaf]).
    assert (leaf = "Alias" ∧ v = "" ∨ leaf = "Status" ∧ v = RequestStatusActive ∨
            leaf ≠ "Status" ∧ (leaf, v) ∈ request_leaves controllerID command commandKey → ∃ w', view t3 (p ++ [leaf]) = Some (MkValue TypeString v w')) as Hgo.
    { intros [[-> ->]|[[-> ->]|[Hne Hin]]].
      - exists false. rewrite H32, Hf2; [|intros k' Hk' [_ [= <-]]%app_inj_tail|done].
        + unfold view, leaf_at. by rewrite node_at_app, Hrow.
        + rewrite Hperm in Hk'. cbn in Hk'. rewrite !elem_of_cons in Hk'.
          destruct Hk' as [Hk'|[Hk'|[Hk'|[Hk'|Hk'%not_elem_of_nil]]]]; done.
      - exists w. rewrite Hv3. unfold spec_update. by rewrite decide_True.
      - rewrite H32 by done. apply Hset2. by rewrite Hperm. }
    intros Hin. apply Hgo. unfold request_leaves. rewrite !elem_of_cons.
    destruct Hin as [[= -> ->]|[[= -> ->]|[[= -> ->]|[[= -> ->]|[[= -> ->]|Hin%not_elem_of_nil]]]]]; [tauto| | | |tauto|done];
      right; right; (split; [done|tauto]).
Qed.

Lemma active_spec t command :
  wf_tree t →
  match activeRequestForCommand t command with
  | Some row => ∃ k, instance_under t Requests k ∧ row = dotted (Requests ++ [k]) ∧ has_raw t (row +:+ "Command") command = true
  | None => ∀ k, instance_under t Requests k → has_raw t (dotted (Requests ++ [k]) +:+ "Command") command = false
  end.
Proof.
  intros Hw. destruct (childInstances_spec t RequestTablePath Requests Hw requests_parse) as [_ Hin].
  unfold activeRequestForCommand. destruct (List.find _ _) as [row|] eqn:E.
  - apply find_some in E as [Hrow Hraw]. apply list_elem_of_In, Hin in Hrow as (k&Hk&->). by exists k.
  - intros k Hk. apply (find_none _ _ E (dotted (Requests ++ [k]))). apply list_elem_of_In, Hin. by exists k.
Qed.

(** An asynchronous command is refused with 7005, its reservation released
    and the tree untouched, when and only when a request row for the same
    command exists. Otherwise its row is created, whatever order the leaves are
    written in: the smallest unused number, holding the command, its key, the
    controller and the status Active; the answer names the row, the operation
    is started on it, and nothing else changes but the table's counter. *)
Theorem handleOperate_async (controllerID : string) (order : list (string * string)) (t : Tree) (n : Node)
  (msgID command commandKey objPath commandName : string)
  (Ht : request_table t n) (Hperm : order ≡ₚ request_leaves controllerID command commandKey)
  (H1 : valid_raw TypeString controllerID = true) (H2 : valid_raw TypeString command = true)
  (H3 : valid_raw TypeString commandKey = true) :
  let '(t', cs, (m, fate)) :=
    handleOperate controllerID order t msgID command commandKey (Some (OpAsync objPath commandName)) in
  (t' = t ∧ cs = [] ∧ fate = Aborted ∧
   (∃ k, instance_under t Requests k ∧ has_raw t (dotted (Requests ++ [k]) +:+ "Command") command = true) ∧
   ∃ msg, m = operate_msg msgID command (RespCmdFailure ErrCodeResourcesExceeded msg)) ∨
  ((∀ k, instance_under t Requests k → has_raw t (dotted (Requests ++ [k]) +:+ "Command") command = false) ∧
   ∃ i, row_added t t' n i ∧ row_holds t' i controllerID command commandKey ∧
     let row := dotted (Requests ++ [Strconv.Itoa i]) in
     m = operate_msg msgID command (RespObjPath row) ∧
     fate = Started (MkAsyncOp row objPath commandName commandKey controllerID)).
Proof.
  pose proof Ht as (Hw&_). unfold handleOperate. pose proof (active_spec t command Hw) as Ha.
  destruct (activeRequestForCommand t command) as [row|].
  - left. destruct Ha as (k&Hk&->&Hraw). split_and!; [done..|by exists k|by eexists].
  - destruct (createRequest_ok t n order controllerID command commandKey Ht Hperm H1 H2 H3) as (i&t'&cs&->&Ha'&Hh&_).
    right. split; [done|]. exists i. by split_and!.
Qed.

(** Finishing an operation, whatever its row was given in the meantime,
    takes the row away again: every parameter of the tree is as it was before
    the request, the table's counter having been right. The terminal status
    reaches the observers before the deletion. *)
Theorem finishRow_undoes (t t2 : Tree) (n : Node) (i : Z) (status : string) (old : Value)
  (Ht : request_table t n) (Hhon : counter_honest t Requests n) (Hrow : row_added t t2 n i)
  (Hi : (i < 2 ^ 63)%Z) (Hfree : children n !! Strconv.Itoa i = None)
  (Hold : view t2 (Requests ++ [Strconv.Itoa i; "Status"]) = Some old) (Hs : valid_raw (vType old) status = true) :
  let row := dotted (Requests ++ [Strconv.Itoa i]) in
  let '(t3, cs) := finishRow t2 row status in
  (∀ q, view t3 q = view t q) ∧
  ∃ tl, cs = value_change t2 (row +:+ "Status") old (with_raw status old) ++
             (if hasObservers t2 then [MkChange row Value_zero Value_zero ChangeObjectDeleted] else []) ++ tl.
Proof.
  destruct Ht as (Hw&Hn&Htab&_). destruct Hrow as (Hsm&Hw2&(n2&Hn2&Ht2&Hdom)&Hout).
  assert (1 ≤ i)%Z as H1 by apply Hsm. cbv zeta. set (k := Strconv.Itoa i) in *.
  pose proof (wf_table_not_leaf n _ (wf_node_at _ _ _ Hw Hn) Htab) as Hl.
  change (Requests ++ [k; "Status"]) with ((Requests ++ [k]) ++ ["Status"]) in Hold.
  assert (Forall (λ s, valid_segment s = true) ((Requests ++ [k]) ++ ["Status"])) as Hval.
  { unfold view in Hold. apply leaf_at_node in Hold as (m&Hm&_). by apply (wf_node_at_segments (root t2) _ m). }
  destruct (SetSystem_ok t2 (dotted (Requests ++ [k]) +:+ "Status") status _ old Hw2
    (leaf_path_parses (Requests ++ [k]) "Status" ltac:(done) Hval) Hold Hs) as (t3&E3&Hv3&Hw3&Hs3&Ho3).
  pose proof (Hs3 Requests) as Hsh. rewrite Hn2 in Hsh. destruct (node_at Requests (root t3)) as [n3|] eqn:Hn3; [|done].
  destruct Hsh as (_&Ht3&Hdom3).
  destruct (delete_after_writes t t3 RequestTablePath Requests n n3 request_row i) as (t4&cs4&E4&Hv4); try done.
  - by rewrite Ht3.
  - by rewrite Hdom3.
  - intros q Hq. rewrite Hv3. unfold spec_update. rewrite decide_False; [by apply Hout|].
    intros <-. apply Hq. by exists ["Status"].
  - intros q. unfold view, leaf_at. rewrite (orig_below _ _ _ Hn Hl). fold k. by rewrite Hfree.
  - change (instance_path RequestTablePath i) with (dotted (Requests ++ [k])) in E4.
    unfold finishRow, and_then. rewrite E3, E4. split; [done|].
    assert (is_Some (instance_of k)) as [j Hj] by (exists i; apply instance_of_Itoa; lia).
    assert (is_Some (children n3 !! k)) as [c Hc] by (apply elem_of_dom; rewrite Hdom3, Hdom, dom_insert_L; set_solver).
    assert (table n3 = Some request_row) as Ht3' by by rewrite Ht3.
    assert (parsePath (dotted (Requests ++ [k])) = Ok (Requests ++ [k])) as Hpd.
    { apply parsePath_trailing_dot. by apply Forall_app in Hval as [? _]. }
    destruct (DeleteObject_frame t3 (dotted (Requests ++ [k])) Requests k j n3 request_row c Hw3 Hpd Hj Hn3 Ht3' Hc)
      as (t5&E5&_). rewrite E4 in E5. injection E5 as -> ->. eexists. unfold hasObservers. rewrite Ho3. reflexivity.
Qed.

(** ** One row per command *)

Definition command_of (t : Tree) (k : string) : option string := Raw <$> view t (Requests ++ [k; "Command"]).
(** No two rows of the table are for the same command. *)
Definition requests_unique (t : Tree) : Prop := ∀ k k' command,
  instance_under t Requests k → instance_under t Requests k' →
  command_of t k = Some command → command_of t k' = Some command → k = k'.

Lemma has_raw_command t k command :
  wf_tree t → instance_under t Requests k →
  has_raw t (dotted (Requests ++ [k]) +:+ "Command") command = true ↔ command_of t k = Some command.
Proof.
  intros Hw Hk. apply instance_node in Hk as (_&m&_&_&_&_&Hm); [|done].
  pose proof (wf_node_at_segments _ _ _ Hw Hm) as Hv.
  assert (parsePath (dotted (Requests ++ [k]) +:+ "Command") = Ok (Requests ++ [k; "Command"])) as Hp.
  { apply (leaf_path_parses (Requests ++ [k]) "Command"); [done|]. apply Forall_app. split; [done|by repeat constructor]. }
  unfold has_raw, command_of, Get. rewrite Hp. cbn [mbind result_bind].
  pose proof (resolve_leaf_view "paramtree.Get" (dotted (Requests ++ [k]) +:+ "Command") (Requests ++ [k; "Command"]) (root t)) as Hl.
  unfold view. destruct (leaf_at _ (root t)) as [v|].
  - destruct Hl as (?&->&_). cbn. rewrite String.eqb_eq. split; [by intros ->|by intros [= <-]].
  - destruct Hl as (?&->&_). cbn. done.
Qed.

(** Rows that were there before, with the command they had. *)
Lemma unique_subset t t' :
  (∀ k, instance_under t' Requests k → instance_under t Requests k ∧ command_of t' k = command_of t k) →
  requests_unique t → requests_unique t'.
Proof.
  intros H Hu k k' c Hk Hk' Hc Hc'. destruct (H k Hk) as [Hk0 E], (H k' Hk') as [Hk0' E'].
  rewrite E in Hc. rewrite E' in Hc'. by apply (Hu k k' c).
Qed.

Lemma row_added_unique t t' n i controllerID command commandKey :
  request_table t n → requests_unique t → row_added t t' n i → row_holds t' i controllerID command commandKey →
  (∀ k, instance_under t Requests k → command_of t k ≠ Some command) → requests_unique t'.
Proof.
  intros (Hw&Hn&_) Hu (_&_&(n'&Hn'&_&Hdom)&Hout) Hrow Hno.
  assert (command_of t' (Strconv.Itoa i) = Some command) as Hnew.
  { destruct (Hrow "Command" command) as [w Hv]; [rewrite !elem_of_cons; tauto|]. unfold command_of. by rewrite Hv. }
  assert (∀ k, instance_under t' Requests k → k ≠ Strconv.Itoa i →
    instance_under t Requests k ∧ command_of t' k = command_of t k) as Hold.
  { intros k (n0&Hn0&Hk%elem_of_dom&Hi) Hne. rewrite Hn' in Hn0. injection Hn0 as <-. rewrite Hdom, dom_insert_L in Hk.
    split; [exists n; split_and!; [done|apply elem_of_dom; set_solver|done]|].
    unfold command_of. rewrite Hout.
    - unfold recounted. rewrite decide_False; [done|]. intros [=].
    - intros [s Hs]. rewrite <-(assoc_L (++)) in Hs. apply app_inv_head in Hs. injection Hs as Hs _. done. }
  intros k k' c Hk Hk' Hc Hc'.
  destruct (decide (k = Strconv.Itoa i)) as [->|Hki], (decide (k' = Strconv.Itoa i)) as [->|Hki'].
  - done.
  - destruct (Hold k' Hk' Hki') as [Hk0 E]. rewrite E in Hc'. destruct (Hno k' Hk0). congruence.
  - destruct (Hold k Hk Hki) as [Hk0 E]. rewrite E in Hc. destruct (Hno k Hk0). congruence.
  - destruct (Hold k Hk Hki) as [Hk0 E], (Hold k' Hk' Hki') as [Hk0' E'].
    rewrite E in Hc. rewrite E' in Hc'. by apply (Hu k k' c).
Qed.

Lemma instance_under_shrinks t t' p k :
  shrinks (root t) (root t') → instance_under t' p k → instance_under t p k.
Proof.
  intros Hs (n'&Hn'&Hk%elem_of_dom&Hi). destruct (Hs p n' Hn') as (n&Hn&_&Hd&_).
  exists n. split_and!; [done|by apply elem_of_dom, Hd|done].
Qed.

Lemma finishRow_subset t k status :
  wf_tree t → tables_ok t → instance_under t Requests k →
  ∀ k', instance_under (finishRow t (dotted (Requests ++ [k])) status).1 Requests k' →
    instance_under t Requests k' ∧ command_of (finishRow t (dotted (Requests ++ [k])) status).1 k' = command_of t k'.
Proof.
  intros Hw Hok Hk k'. pose proof Hk as (_&mk&_&_&_&_&Hmk)%instance_node; [|done].
  pose proof (wf_node_at_segments _ _ _ Hw Hmk) as Hv.
  assert (parsePath (dotted (Requests ++ [k]) +:+ "Status") = Ok (Requests ++ [k; "Status"])) as Hps.
  { apply (leaf_path_parses (Requests ++ [k]) "Status"); [done|]. apply Forall_app. split; [done|by repeat constructor]. }
  unfold finishRow, and_then.
  assert (∃ t1 cs1 r, SetSystem t (dotted (Requests ++ [k]) +:+ "Status") status = (t1, cs1, r) ∧
    wf_tree t1 ∧ shrinks (root t) (root t1) ∧ (∀ q, q ≠ Requests ++ [k; "Status"] → view t1 q = view t q))
    as (t1&cs1&r&->&Hw1&Hs1&Hf1).
  { pose proof (wf_ops_leaf t (dotted (Requests ++ [k]) +:+ "Status") status Value_zero Attributes_zero Hw) as (_&Hw1&_).
    destruct (SetSystem_inv t (dotted (Requests ++ [k]) +:+ "Status") status) as [[e E]|(p&m&old&Hp&Hm&Hl&_&E)]; rewrite E in *.
    - eexists _, _, _. split; [reflexivity|]. by split_and!.
    - rewrite Hps in Hp. injection Hp as <-. eexists _, _, _. split; [reflexivity|]. split_and!; [done| |].
      + apply (shrinks_alter _ _ _ m Hm). by apply shrinks_set_leaf.
      + intros q Hq. rewrite (view_set_leaf t _ m old) by done. unfold spec_update. by rewrite decide_False. }
  pose proof (tables_ok_shrinks t t1 Hs1 Hok) as Hok1.
  destruct (DeleteObject_cases t1 (dotted (Requests ++ [k])) Hw1 Hok1)
    as [(p&k0&t2&cs2&(Hp&_)&->&_&Hs2&Hgone&Hf2)|(_&e&->)]; cbn [fst]; intros Hk'.
  - unfold dotted in Hp. rewrite (parsePath_trailing_dot _ Hv) in Hp.
    assert (Requests ++ [k] = p ++ [k0]) as [<- <-]%app_inj_tail by congruence.
    split; [by apply (instance_under_shrinks t t1), (instance_under_shrinks t1 t2)|].
    unfold command_of. rewrite Hf2, Hf1; [done|by intros [=]| |by intros [=]].
    intros [s Hs]. rewrite <-(assoc_L (++)) in Hs. apply app_inv_head in Hs. injection Hs as -> _.
    destruct Hk' as (n2&Hn2&[m Hm]&_). rewrite node_at_app, Hn2 in Hgone. cbn in Hgone.
    destruct (isLeaf n2) eqn:Hl; [|by rewrite Hm in Hgone].
    destruct (Hs2 _ _ Hn2) as (n1&Hn1&Hsh). pose proof (shrunk_leaf _ _ Hsh) as Hl1. rewrite Hl in Hl1.
    pose proof (wf_leaf_children n1 (wf_node_at _ _ _ Hw1 Hn1) (eq_sym Hl1)) as Hc.
    destruct Hsh as (_&Hd&_). rewrite Hc, dom_empty_L in Hd. assert (k ∈ dom (children n2)) by (apply elem_of_dom; by eexists). set_solver.
  - split; [by apply (instance_under_shrinks t t1)|]. unfold command_of. rewrite Hf1; [done|by intros [=]].
Qed.

(** There is never more than one request row for a command: answering an
    Operate, whatever the command comes to, and finishing an operation both
    keep it so. *)
Theorem one_request_per_command (controllerID : string) (order : list (string * string)) (t : Tree) (n : Node)
  (msgID command commandKey : string) (operate : option operate_outcome)
  (Ht : request_table t n) (Hok : tables_ok t) (Hu : requests_unique t)
  (Hperm : order ≡ₚ request_leaves controllerID command commandKey)
  (H1 : valid_raw TypeString controllerID = true) (H2 : valid_raw TypeString command = true)
  (H3 : valid_raw TypeString commandKey = true) :
  requests_unique (handleOperate controllerID order t msgID command commandKey operate).1.1 ∧
  ∀ k status, instance_under t Requests k → requests_unique (finishRow t (dotted (Requests ++ [k])) status).1.
Proof.
  pose proof Ht as (Hw&_). split.
  2:{ intros k status Hk. apply (unique_subset t); [|done]. by apply finishRow_subset. }
  destruct operate as [[code msg|args|objPath commandName]|]; try done. unfold handleOperate.
  pose proof (active_spec t command Hw) as Ha. destruct (activeRequestForCommand t command) as [row|]; [done|].
  destruct (createRequest_ok t n order controllerID command commandKey Ht Hperm H1 H2 H3) as (i&t'&cs&->&Ha'&Hh&_).
  apply (row_added_unique t t' n i controllerID command commandKey); try done.
  intros k Hk Hc. specialize (Ha k Hk). apply (has_raw_command t k command Hw Hk) in Hc. congruence.
Qed.

(** ** An example: a fresh agent *)

Definition ex_agent : Tree := (EnsureLocalAgent New_ "os::0025DF-1" "self::ctl").1.1.
Definition ex_requests : Node := default NewBranch (node_at Requests (root ex_agent)).
Definition ex_order : list (string * string) :=
  [("Status", RequestStatusRequested); ("Command", "Device.Reboot()"); ("Originator", "self::ctl"); ("CommandKey", "k1")].

Lemma ex_agent_ok : (EnsureLocalAgent New_ "os::0025DF-1" "self::ctl").2 = Ok tt.
Proof. vm_compute. reflexivity. Qed.
Lemma ex_agent_wf : wf_tree ex_agent.
Proof. apply wf_nodeb_sound. vm_compute. reflexivity. Qed.
Lemma ex_agent_at : node_at Requests (root ex_agent) = Some ex_requests.
Proof. vm_compute. reflexivity. Qed.
Lemma ex_requests_table : table ex_requests = Some request_row.
Proof. vm_compute. reflexivity. Qed.
Lemma ex_requests_empty : children ex_requests = ∅.
Proof. vm_compute. reflexivity. Qed.
Lemma ex_no_counter c : counter_path Requests = Some c → view ex_agent c = None.
Proof.
  assert (counter_path Requests = Some ["Device"; "LocalAgent"; "RequestNumberOfEntries"]) as -> by (vm_compute; reflexivity).
  intros H. injection H as <-. vm_compute. reflexivity.
Qed.
Lemma ex_request_table : request_table ex_agent ex_requests.
Proof.
  split_and!; [apply ex_agent_wf|apply ex_agent_at|apply ex_requests_table|]. split.
  - intros c v Hc Hv. pose proof (ex_no_counter c Hc) as H. unfold view in H. congruence.
  - intros n Hn. rewrite ex_agent_at in Hn. apply (inj Some) in Hn. rewrite <-Hn, ex_requests_empty, map_size_empty. lia.
Qed.
Lemma ex_requests_honest : counter_honest ex_agent Requests ex_requests.
Proof. intros c v Hc Hv. pose proof (ex_no_counter c Hc). congruence. Qed.
Lemma ex_no_rows k : ¬ instance_under ex_agent Requests k.
Proof.
  intros (n&Hn&[c Hc]&_). rewrite ex_agent_at in Hn. apply (inj Some) in Hn. rewrite <-Hn, ex_requests_empty in Hc.
  by rewrite lookup_empty in Hc.
Qed.
Lemma ex_order_perm : ex_order ≡ₚ request_leaves "self::ctl" "Device.Reboot()" "k1".
Proof. apply (bool_decide_unpack _). vm_compute. exact I. Qed.

Lemma handleOperate_async_witness :
  let '(t', cs, (m, fate)) :=
    handleOperate "self::ctl" ex_order ex_agent "9" "Device.Reboot()" "k1" (Some (OpAsync "Device." "Reboot()")) in
  ∃ i, row_added ex_agent t' ex_requests i ∧
       m = operate_msg "9" "Device.Reboot()" (RespObjPath (dotted (Requests ++ [Strconv.Itoa i]))).
Proof.
  pose proof (handleOperate_async "self::ctl" ex_order ex_agent ex_requests "9" "Device.Reboot()" "k1" "Device." "Reboot()"
    ex_request_table ex_order_perm eq_refl eq_refl eq_refl) as H.
  destruct (handleOperate _ _ _ _ _ _ _) as [[t' cs] [m fate]].
  destruct H as [(_&_&_&(k&Hk&_)&_)|(_&i&Hadd&_&Hm&_)]; [by destruct (ex_no_rows k)|]. exists i. split; [exact Hadd|exact Hm].
Defined.

Lemma finishRow_undoes_witness :
  ∃ t2 cs i, createRequest ex_order ex_agent = (t2, cs, Ok (dotted (Requests ++ [Strconv.Itoa i]))) ∧
    ∀ q, view (finishRow t2 (dotted (Requests ++ [Strconv.Itoa i])) RequestStatusSuccess).1 q = view ex_agent q.
Proof.
  destruct (createRequest_ok ex_agent ex_requests ex_order "self::ctl" "Device.Reboot()" "k1" ex_request_table ex_order_perm
    eq_refl eq_refl eq_refl) as (i&t2&cs&E&Hrow&Hh&Hi&Hfree).
  exists t2, cs, i. split; [exact E|].
  destruct (Hh "Status" RequestStatusActive) as [w Hold]; [do 4 apply list_elem_of_further; apply list_elem_of_here|].
  pose proof (finishRow_undoes ex_agent t2 ex_requests i RequestStatusSuccess _ ex_request_table ex_requests_honest Hrow Hi Hfree
    Hold ltac:(vm_compute; reflexivity)) as H. cbv zeta in H.
  destruct (finishRow t2 _ RequestStatusSuccess) as [t3 cs3]. exact (proj1 H).
Defined.

Lemma ex_agent_tables_ok : tables_ok ex_agent.
Proof.
  assert (forallb (λ p, match counter_path p with Some c => match leaf_at c (root ex_agent) with Some _ => false | None => true end | None => true end
    && match node_at p (root ex_agent) with Some n => (Z.of_nat (size (children n)) + 1 <? 2 ^ 31)%Z | None => true end)
    (table_paths (root ex_agent)) = true) as Hall by (vm_compute; reflexivity).
  rewrite forallb_forall in Hall. intros p n Hn Ht. apply (elem_of_table_paths p) in Hn as Hp; [|done].
  specialize (Hall p (proj1 (list_elem_of_In _ _) Hp)). apply andb_prop in Hall as [Hc' Hs]. rewrite Hn in Hs. split.
  - intros c v Hc Hv. by rewrite Hc, Hv in Hc'.
  - intros n' Hn'. rewrite Hn in Hn'. apply (inj Some) in Hn'. subst n'. lia.
Qed.

Lemma one_request_per_command_witness :
  requests_unique (handleOperate "self::ctl" ex_order ex_agent "9" "Device.Reboot()" "k1" (Some (OpAsync "Device." "Reboot()"))).1.1.
Proof.
  assert (requests_unique ex_agent) as Hu by (intros k k' c Hk; by destruct (ex_no_rows k)).
  exact (proj1 (one_request_per_command "self::ctl" ex_order ex_agent ex_requests "9" "Device.Reboot()" "k1" _ ex_request_table
    ex_agent_tables_ok Hu ex_order_perm eq_refl eq_refl eq_refl)).
Defined.
