(* ===== verification/UspRunner.v ===== *)
(** * The USP agent ([internal/usp/agent/runner.go], [internal/usp/codec/codec.go]):
    the envelope around a message, the dispatch of a request to its handler,
    and what an agent announces when it comes up.

    The protobuf library is a parameter: marshalling and unmarshalling of
    records and messages. The only law used is that an envelope it wrote reads
    back. *)
From Stdlib Require Import ZArith Lia Ascii String.
From S2P Require Import Prelude GoLib GoText CpeErr Types Node Tree TreeProps Objects ObjectsProps Listing.
From S2P Require Import TreeInv UspPaths UspQueries UspDiscovery UspWrites UspDelete UspMessages UspSubscriptions UspAsync.

(** ** Messages and envelopes *)

Inductive Request :=
| Request_Get (ParamPaths : list string)
| Request_Set (UpdateObjs : list UpdateObject)
| Request_Add (CreateObjs : list CreateObject)
| Request_Delete (ObjPaths : list string)
| Request_GetInstances (firstLevelOnly : bool) (ObjPaths : list string)
| Request_GetSupportedDm (req : GetSupportedDM)
| Request_Operate (command commandKey : string) (sendResp : bool)
| Request_other.

(** The body of a message: a request, one of the answers and notifies this
    agent writes, an error, or anything else a controller may send. *)
Inductive MsgBody :=
| BodyRequest (req : Request)
| BodyGetResp (results : list GetResult)
| BodySetResp (results : list UpdatedObjectResult)
| BodyAddResp (results : list CreatedObjectResult)
| BodyDeleteResp (results : list DeletedObjectResult)
| BodyGetInstancesResp (results : list InstancesResult)
| BodyGetSupportedDmResp (results : list SupportedResult)
| BodyOperateResp (results : list OperationResult)
| BodyNotify (n : Notify)
| BodyError (code : Z) (msg : string)
| BodyOther.
Definition body {B} (f : B → MsgBody) (m : Msg B) : Msg MsgBody := MkMsg (MsgId m) (MsgType m) (f (Body m)).

Definition NewError (msgID : string) (code : Z) (msg : string) : Msg MsgBody := MkMsg msgID ERROR (BodyError code msg).

Definition RecordVersion : string := "1.3".
Inductive PayloadSecurity := PLAINTEXT | TLS12.
Inductive RecordType := NoSessionContext (payload : string) | SessionContext | RecordOther.
Record UspRecord := MkRecord {
  Version : string; ToId : string; FromId : string; Security : PayloadSecurity; recordType : RecordType
}.

Section codec.
Context (marshal_record : UspRecord → result error string) (unmarshal_record : string → result error UspRecord).
Context (marshal_msg : Msg MsgBody → result error string) (unmarshal_msg : string → result error (Msg MsgBody)).

Definition DecodeRecord (b : string) : result error UspRecord :=
  match unmarshal_record b with
  | Err e => Err (Errorf "usp/codec: unmarshal record: %w" [] (Some e))
  | Ok rec => Ok rec
  end.
Definition DecodeMessage (rec : UspRecord) : result error (Msg MsgBody) :=
  match recordType rec with
  | NoSessionContext payload =>
      if String.eqb payload "" then Err (errorf "usp/codec: no_session_context record has an empty payload" [])
      else match unmarshal_msg payload with
           | Err e => Err (Errorf "usp/codec: unmarshal message: %w" [] (Some e))
           | Ok m => Ok m
           end
  | SessionContext => Err (errorf "usp/codec: session_context records are not supported by the simulator" [])
  | RecordOther => Err (errorf "usp/codec: record type carries no USP message" [])
  end.
Definition WrapMessage (msg : Msg MsgBody) (fromID toID : string) : result error string :=
  if String.eqb fromID "" || String.eqb toID "" then Err (errorf "usp/codec: from_id and to_id are both required" [])
  else
    match marshal_msg msg with
    | Err e => Err (Errorf "usp/codec: marshal message: %w" [] (Some e))
    | Ok payload =>
        match marshal_record (MkRecord RecordVersion toID fromID PLAINTEXT (NoSessionContext payload)) with
        | Err e => Err (Errorf "usp/codec: marshal record: %w" [] (Some e))
        | Ok out => Ok out
        end
    end.

(** ** The agent *)

(** [Operate] is the hook the simulator installs, [None] when there is none;
    [Publish] is the transport's, [None] being success. [order] is the order
    in which Go's runtime ranges over the leaves of a request row. *)
Record Config := MkConfig {
  cfgIdentity : Identity;
  ControllerID : string;
  BootParameters : list string;
  BootSubscriptionID : string;
  Operate : option (string → string → operate_outcome);
  Publish : string → option error
}.

Definition NewRunner (cfg : Config) : result error Config :=
  if String.eqb (EndpointID (cfgIdentity cfg)) "" then Err (errorf "usp/agent: endpoint id is required" [])
  else if String.eqb (ControllerID cfg) "" then Err (errorf "usp/agent: controller id is required" [])
  else Ok (MkConfig (cfgIdentity cfg) (ControllerID cfg) (BootParameters cfg)
             (if String.eqb (BootSubscriptionID cfg) "" then "boot" else BootSubscriptionID cfg) (Operate cfg) (Publish cfg)).

(** What is handed to [Publish], and the error of the send. *)
Definition send (cfg : Config) (msg : Msg MsgBody) : list string * option error :=
  match WrapMessage msg (EndpointID (cfgIdentity cfg)) (ControllerID cfg) with
  | Err e => ([], Some e)
  | Ok envelope => ([envelope], Publish cfg envelope)
  end.
Definition reply (cfg : Config) (msg : Msg MsgBody) : list string := (send cfg msg).1.

(** ** Announcing *)

Fixpoint boot_parameters (t : Tree) (paths : list string) (out : gmap string string) : gmap string string :=
  match paths with
  | [] => out
  | path :: rest =>
      match Get t path with Err _ => boot_parameters t rest out | Ok v => boot_parameters t rest (<[path := Raw v]> out) end
  end.
Definition collectBootParameters (cfg : Config) (t : Tree) : gmap string string := boot_parameters t (BootParameters cfg) ∅.
Definition rootObjectPath : string := "Device.".

Definition boot (cfg : Config) (t : Tree) (seq : Z) (cause commandKey : string) (firmwareUpdated : bool)
  : Z * (list string * option error) :=
  let '(seq, id) := nextMsgID (SerialNumber (cfgIdentity cfg)) "boot" seq in
  let '(sent, err) := send cfg (body BodyNotify
    (NewBootNotify id (BootSubscriptionID cfg) rootObjectPath cause commandKey firmwareUpdated (collectBootParameters cfg t))) in
  (seq, (sent, match err with None => None | Some e => Some (Errorf "boot notify: %w" [] (Some e)) end)).
Definition Boot (cfg : Config) (t : Tree) (seq : Z) (cause : string) := boot cfg t seq cause "" false.
Definition FirmwareBoot (cfg : Config) (t : Tree) (seq : Z) (commandKey : string) := boot cfg t seq "RemoteReboot" commandKey true.

Definition Announce (cfg : Config) (t : Tree) (seq : Z) (cause : string) : Z * (list string * option error) :=
  let '(seq, id) := nextMsgID (SerialNumber (cfgIdentity cfg)) "onboard" seq in
  match send cfg (body BodyNotify (NewOnBoardRequest id (cfgIdentity cfg))) with
  | (sent, Some e) => (seq, (sent, Some (Errorf "onboard request: %w" [] (Some e))))
  | (sent, None) => let '(seq, (sent', err)) := Boot cfg t seq cause in (seq, (sent ++ sent', err))
  end.

(** A change the agent could not report when it happened; [mounted] is whether
    [Run] could mount the local agent and so has a notifier. *)
Definition ReportValueChange (cfg : Config) (mounted : bool) (t : Tree) (seq : Z) (path value : string)
  : Z * list (Msg Notify) :=
  if mounted then notify_change (SerialNumber (cfgIdentity cfg)) t seq (MkChange path Value_zero (MkValue "" value false) ChangeValue)
  else (seq, []).

(** ** Serving a request *)

(** The answer, whether it is sent, and what becomes of an asynchronous
    command. [None]: a listing ran out of fuel. *)
Definition dispatch (cfg : Config) (order : list (string * string)) (t : Tree) (msgID : string) (req : Request)
  : option (Tree * list Change * (option (Msg MsgBody) * async_fate)) :=
  match req with
  | Request_Get paths => Some (t, [], (Some (body BodyGetResp (HandleGet t msgID paths)), NoAsync))
  | Request_Set objs => let '(t', cs, m) := HandleSet t msgID objs in Some (t', cs, (Some (body BodySetResp m), NoAsync))
  | Request_Add objs => let '(t', cs, m) := HandleAdd t msgID objs in Some (t', cs, (Some (body BodyAddResp m), NoAsync))
  | Request_Delete paths =>
      let '(t', cs, m) := HandleDelete t msgID paths in Some (t', cs, (Some (body BodyDeleteResp m), NoAsync))
  | Request_GetInstances first paths =>
      m ← HandleGetInstances t msgID first paths; Some (t, [], (Some (body BodyGetInstancesResp m), NoAsync))
  | Request_GetSupportedDm req =>
      Some (t, [], (Some (body BodyGetSupportedDmResp (HandleGetSupportedDM t msgID req)), NoAsync))
  | Request_Operate command commandKey sendResp =>
      let outcome := match Operate cfg with None => None | Some operate => Some (operate command commandKey) end in
      let '(t', cs, (m, fate)) := handleOperate (ControllerID cfg) order t msgID command commandKey outcome in
      Some (t', cs, (if sendResp then Some (body BodyOperateResp m) else None, fate))
  | Request_other => Some (t, [], (Some (NewError msgID 7004 "message not supported by this simulator yet"), NoAsync))
  end.

Definition handleRecord (cfg : Config) (order : list (string * string)) (t : Tree) (payload : string)
  : option (Tree * list Change * (list string * async_fate)) :=
  match DecodeRecord payload with
  | Err _ => Some (t, [], ([], NoAsync))
  | Ok rec =>
      if negb (String.eqb (ToId rec) "") && negb (String.eqb (ToId rec) (EndpointID (cfgIdentity cfg)))
      then Some (t, [], ([], NoAsync))
      else
        match DecodeMessage rec with
        | Err _ => Some (t, [], ([], NoAsync))
        | Ok msg =>
            match Body msg with
            | BodyRequest req =>
                '(t', cs, (answer, fate)) ← dispatch cfg order t (MsgId msg) req;
                Some (t', cs, (match answer with None => [] | Some m => reply cfg m end, fate))
            | _ => Some (t, [], ([], NoAsync))
            end
        end
  end.

(** ** What a peer reads of what was sent *)

Context (reads_back : ∀ r b, marshal_record r = Ok b → unmarshal_record b = Ok r).

(** The envelope is from this agent, to its controller, and holds [m]. *)
Definition carries (cfg : Config) (envelope : string) (m : Msg MsgBody) : Prop :=
  ∃ payload, marshal_msg m = Ok payload ∧
    DecodeRecord envelope =
      Ok (MkRecord RecordVersion (ControllerID cfg) (EndpointID (cfgIdentity cfg)) PLAINTEXT (NoSessionContext payload)).
(** The protobuf library cannot encode [m], or the record around it. *)
Definition unencodable (cfg : Config) (m : Msg MsgBody) : Prop :=
  (∃ e, marshal_msg m = Err e) ∨
  ∃ payload e, marshal_msg m = Ok payload ∧
    marshal_record (MkRecord RecordVersion (ControllerID cfg) (EndpointID (cfgIdentity cfg)) PLAINTEXT (NoSessionContext payload)) = Err e.
(** [m] was sent, in one envelope, unless it cannot be encoded. *)
Definition sends (cfg : Config) (m : Msg MsgBody) (sent : list string) : Prop :=
  (∃ envelope, sent = [envelope] ∧ carries cfg envelope m) ∨ sent = [] ∧ unencodable cfg m.
(** What [NewRunner] insists on. *)
Definition configured (cfg : Config) : Prop := EndpointID (cfgIdentity cfg) ≠ "" ∧ ControllerID cfg ≠ "".
Lemma NewRunner_configured cfg0 cfg : NewRunner cfg0 = Ok cfg → configured cfg.
Proof.
  unfold NewRunner. destruct (String.eqb_spec (EndpointID (cfgIdentity cfg0)) ""); [done|].
  destruct (String.eqb_spec (ControllerID cfg0) ""); [done|]. by intros [= <-].
Qed.

Lemma send_spec cfg m : configured cfg →
  (∃ envelope, send cfg m = ([envelope], Publish cfg envelope) ∧ carries cfg envelope m) ∨
  ∃ e, send cfg m = ([], Some e) ∧ unencodable cfg m.
Proof.
  intros [He Hc]. unfold send, WrapMessage, unencodable. apply String.eqb_neq in He, Hc. rewrite He, Hc. cbn.
  destruct (marshal_msg m) as [p|e] eqn:Em; [|right; eexists; split; [done|left; by exists e]].
  destruct (marshal_record _) as [b|e] eqn:Er; [|right; eexists; split; [done|right; by exists p, e]].
  left. exists b. split; [done|]. exists p. split; [done|]. unfold DecodeRecord. by rewrite (reads_back _ _ Er).
Qed.

Lemma reply_sends cfg m : configured cfg → sends cfg m (reply cfg m).
Proof.
  intros Hc. unfold reply. destruct (send_spec cfg m Hc) as [(env&->&H)|(e&->&H)]; [left|right]; [by exists env|done].
Qed.

(** ** Serving *)

(** The payload is a record for this agent that carries this request. *)
Definition asks (cfg : Config) (payload id : string) (req : Request) : Prop :=
  ∃ rec p ty, unmarshal_record payload = Ok rec ∧ (ToId rec = "" ∨ ToId rec = EndpointID (cfgIdentity cfg)) ∧
    recordType rec = NoSessionContext p ∧ p ≠ "" ∧ unmarshal_msg p = Ok (MkMsg id ty (BodyRequest req)).

Definition wants_answer (req : Request) : bool := match req with Request_Operate _ _ sendResp => sendResp | _ => true end.
Definition may_write (req : Request) : bool :=
  match req with Request_Set _ | Request_Add _ | Request_Delete _ | Request_Operate _ _ _ => true | _ => false end.
(** An answer of the request's kind, with one result for each thing asked for,
    in order. *)
Definition answers (req : Request) (m : Msg MsgBody) : Prop :=
  match req, Body m with
  | Request_Get paths, BodyGetResp rs => MsgType m = GET_RESP ∧ gRequestedPath <$> rs = paths
  | Request_Set objs, BodySetResp rs => MsgType m = SET_RESP ∧ uRequestedPath <$> rs = uObjPath <$> objs
  | Request_Add objs, BodyAddResp rs => MsgType m = ADD_RESP ∧ cRequestedPath <$> rs = cObjPath <$> objs
  | Request_Delete paths, BodyDeleteResp rs => MsgType m = DELETE_RESP ∧ dRequestedPath <$> rs = paths
  | Request_GetInstances _ paths, BodyGetInstancesResp rs => MsgType m = GET_INSTANCES_RESP ∧ iRequestedPath <$> rs = paths
  | Request_GetSupportedDm dm, BodyGetSupportedDmResp rs => MsgType m = GET_SUPPORTED_DM_RESP ∧ ReqObjPath <$> rs = dmObjPaths dm
  | Request_Operate command _ _, BodyOperateResp rs => MsgType m = OPERATE_RESP ∧ ExecutedCommand <$> rs = [command]
  | Request_other, BodyError code _ => MsgType m = ERROR ∧ code = 7004%Z
  | _, _ => False
  end.

Lemma each_object_names {A B} (f : Tree → A → Tree * list Change * B) (asked : A → string) (named : B → string) t objs :
  (∀ t o, named (f t o).2 = asked o) → named <$> (each_object f t objs).2 = asked <$> objs.
Proof.
  intros Hf. revert t. induction objs as [|o objs IH]; intros t; [done|]. cbn [each_object].
  pose proof (Hf t o) as Ho. destruct (f t o) as [[t1 cs1] r]. specialize (IH t1).
  destruct (each_object f t1 objs) as [[t2 cs2] rs]. cbn in *. by rewrite Ho, IH.
Qed.
Lemma set_object_names t obj : uRequestedPath (set_object t obj).2 = uObjPath obj.
Proof. unfold set_object. destruct (ExpandSearchPath t _); [done|]. by destruct (set_targets t _ _ _) as [[t' cs] [ir re]]. Qed.
Lemma add_object_names t obj : cRequestedPath (add_object t obj).2 = cObjPath obj.
Proof.
  unfold add_object. destruct (ExpandSearchPath t _) as [|tp [|? ?]]; [done| |done]. by destruct (create_in t obj tp) as [[t' cs] st].
Qed.
Lemma delete_object_names t path : dRequestedPath (delete_object t path).2 = path.
Proof. unfold delete_object. by destruct (delete_targets t _ _ _) as [[t' cs] [a f]]. Qed.
Lemma HandleGet_path_names t x : gRequestedPath (HandleGet_path t x) = x.
Proof.
  unfold HandleGet_path. destruct (Strings.Contains x "*"); [by destruct (ExpandSearchPath t x)|].
  destruct (Strings.HasSuffix x "."); [by destruct (Walk t x _ _ _) as [m [e|]]|]. by destruct (get_exact t x).
Qed.
Lemma HandleGetInstances_path_names t first x r : HandleGetInstances_path t first x = Some r → iRequestedPath r = x.
Proof.
  unfold HandleGetInstances_path. intros ([l e]&_&E)%bind_Some. injection E as <-.
  by destruct (match l with [] => e | _ => None end).
Qed.
Lemma HandleGetSupportedDM_path_names t dm x : ReqObjPath (HandleGetSupportedDM_path t dm x) = x.
Proof.
  unfold HandleGetSupportedDM_path. destruct (collect_supported t dm _) as [l e].
  by destruct (match l with [] => e | _ => None end).
Qed.
Lemma fmap_names {A} (f : string → A) (named : A → string) (l : list string) : (∀ x, named (f x) = x) → named <$> (f <$> l) = l.
Proof. intros H. induction l as [|x l IH]; [done|]. rewrite !fmap_cons. by rewrite H, IH. Qed.

Lemma request_answered cfg order t id req :
  wf_tree t →
  ∃ t' cs m fate, dispatch cfg order t id req = Some (t', cs, (if wants_answer req then Some m else None, fate)) ∧
    MsgId m = id ∧ answers req m ∧ (may_write req = false → t' = t ∧ cs = []).
Proof.
  intros Hw. destruct req as [paths|objs|objs|paths|first paths|dm|command key sr|]; cbn [dispatch may_write wants_answer answers].
  - eexists _, _, _, _. split; [reflexivity|]; cbn; split_and!; [done|done| |done]; apply fmap_names; apply HandleGet_path_names.
  - pose proof (each_object_names set_object uObjPath uRequestedPath t objs set_object_names) as H. unfold HandleSet.
    destruct (each_object set_object t objs) as [[t' cs] rs]. eexists _, _, _, _. split; [reflexivity|]; by split_and!.
  - pose proof (each_object_names add_object cObjPath cRequestedPath t objs add_object_names) as H. unfold HandleAdd.
    destruct (each_object add_object t objs) as [[t' cs] rs]. eexists _, _, _, _. split; [reflexivity|]; by split_and!.
  - pose proof (each_object_names delete_object (@Datatypes.id string) dRequestedPath t paths delete_object_names) as H. unfold HandleDelete.
    destruct (each_object delete_object t paths) as [[t' cs] rs]. eexists _, _, _, _. split; [reflexivity|]; cbn; split_and!; try done.
    cbn in *. by rewrite list_fmap_id in H.
  - unfold HandleGetInstances. destruct (mapM (HandleGetInstances_path t first) paths) as [rs|] eqn:E.
    + cbn. eexists _, _, _, _. split; [reflexivity|]; cbn; split_and!; try done. cbn. apply mapM_Some in E. clear -E.
      induction E as [|x r xs rs Hx _ IH]; [done|]. cbn. by rewrite (HandleGetInstances_path_names _ _ _ _ Hx), IH.
    + exfalso. apply mapM_None, Exists_exists in E as (x&_&Hx).
      destruct (HandleGetInstances_path_total t first x Hw) as [r Hr]. congruence.
  - eexists _, _, _, _. split; [reflexivity|]; cbn; split_and!; [done|done| |done]; apply fmap_names; apply HandleGetSupportedDM_path_names.
  - assert (∃ t' cs r fate, handleOperate (ControllerID cfg) order t id command key
      (match Operate cfg with None => None | Some o => Some (o command key) end) = (t', cs, (operate_msg id command r, fate)))
      as (t'&cs&r&fate&->).
    { unfold handleOperate. destruct (Operate cfg) as [o|]; [|by eexists _, _, _, _].
      destruct (o command key) as [code msg|args|op cn]; [by eexists _, _, _, _..|].
      destruct (activeRequestForCommand t command); [by eexists _, _, _, _|].
      destruct (createRequest order t) as [[t' cs] [rp|e]]; by eexists _, _, _, _. }
    exists t', cs, (body BodyOperateResp (operate_msg id command r)), fate. split; [by destruct sr|]. by split_and!.
  - eexists _, _, _, _. split; [reflexivity|]; by split_and!.
Qed.

(** C38. In a runner that [NewRunner] accepted, serving an envelope always
    ends. When it is a record for this agent that carries a request, exactly one
    envelope goes back, from this agent to its controller: it carries the answer
    to that request, under its id, with a result for each thing asked for, in
    order; none goes back only when the protobuf library cannot encode that
    answer, or when the request is an Operate whose [send_resp] is false. Only a
    Set, an Add, a Delete or an Operate may touch the tree. Anything else is
    neither answered nor acted upon. *)
Theorem handleRecord_serves (given cfg : Config) (order : list (string * string)) (t : Tree) (payload : string)
    (Hcfg : NewRunner given = Ok cfg) (Hw : wf_tree t) :
  ∃ t' cs sent fate, handleRecord cfg order t payload = Some (t', cs, (sent, fate)) ∧
    ((∃ id req m, asks cfg payload id req ∧ MsgId m = id ∧ answers req m ∧
        (if wants_answer req then sends cfg m sent else sent = []) ∧
        (may_write req = false → t' = t ∧ cs = [])) ∨
     (∀ id req, ¬ asks cfg payload id req) ∧ t' = t ∧ cs = [] ∧ sent = [] ∧ fate = NoAsync).
Proof.
  assert (∀ P : Prop, P → (∀ id req, asks cfg payload id req → False) →
    handleRecord cfg order t payload = Some (t, [], ([], NoAsync)) → ∃ t' cs sent fate, handleRecord cfg order t payload = Some (t', cs, (sent, fate)) ∧
    ((∃ id req m, asks cfg payload id req ∧ MsgId m = id ∧ answers req m ∧
        (if wants_answer req then sends cfg m sent else sent = []) ∧
        (may_write req = false → t' = t ∧ cs = [])) ∨
     (∀ id req, ¬ asks cfg payload id req) ∧ t' = t ∧ cs = [] ∧ sent = [] ∧ fate = NoAsync)) as silent.
  { intros P _ Hno E. exists t, [], [], NoAsync. split; [exact E|]. right. split_and!; [exact Hno|done..]. }
  specialize (silent True I). unfold handleRecord in *. unfold DecodeRecord in *.
  destruct (unmarshal_record payload) as [rec|e] eqn:Er.
  2:{ apply silent; [|done]. intros id req (rec&p&ty&H&_). congruence. }
  assert (negb (String.eqb (ToId rec) "") && negb (String.eqb (ToId rec) (EndpointID (cfgIdentity cfg))) = false ↔
    ToId rec = "" ∨ ToId rec = EndpointID (cfgIdentity cfg)) as Hto.
  { rewrite andb_false_iff, !negb_false_iff, !String.eqb_eq. done. }
  destruct (negb _ && negb _) eqn:Et.
  { apply silent; [|done]. intros id req (rec'&p&ty&H&Ht&_). assert (rec' = rec) as -> by congruence. by apply Hto in Ht. }
  unfold DecodeMessage in *.
  destruct (recordType rec) as [p| |] eqn:Ek.
  2,3: apply silent; [|done]; intros id req (rec'&p&ty&H&_&Hk&_); congruence.
  destruct (String.eqb_spec p "") as [Ep|Ep].
  { apply silent; [|done]. intros id req (rec'&p'&ty&H&_&Hk&Hp'&_). assert (p' = p) as -> by congruence. done. }
  destruct (unmarshal_msg p) as [[id ty b]|e] eqn:Em.
  2:{ apply silent; [|done]. intros id req (rec'&p'&ty&H&_&Hk&_&Hm). assert (p' = p) as -> by congruence. congruence. }
  cbn [Body MsgId] in *. destruct b as [req| | | | | | | | | |].
  2-11: apply silent; [|done]; intros id' req (rec'&p'&ty'&H&_&Hk&_&Hm); assert (p' = p) as -> by congruence; congruence.
  destruct (request_answered cfg order t id req Hw) as (t'&cs&m&fate&E&Hid&Ha&Hmw). rewrite E. cbn.
  eexists t', cs, _, fate. split; [done|]. left. exists id, req, m.
  split_and!; [|done|done| |done].
  - exists rec, p, ty. split_and!; try done. by apply Hto.
  - destruct (wants_answer req); [by eapply reply_sends, NewRunner_configured|done].
Qed.

Lemma boot_parameters_lookup t paths out path :
  boot_parameters t paths out !! path =
    match Get t path with
    | Ok v => if bool_decide (path ∈ paths) then Some (Raw v) else out !! path
    | Err _ => out !! path
    end.
Proof.
  revert out. induction paths as [|x paths IH]; intros out; cbn [boot_parameters].
  { destruct (Get t path); [|done]. by rewrite bool_decide_false by apply not_elem_of_nil. }
  destruct (decide (path = x)) as [->|Hne].
  - rewrite (bool_decide_true (x ∈ x :: paths)) by apply list_elem_of_here.
    destruct (Get t x) as [v|] eqn:E; rewrite IH; [|done].
    destruct (bool_decide _); [done|]. by rewrite lookup_insert_eq.
  - assert (bool_decide (path ∈ x :: paths) = bool_decide (path ∈ paths)) as ->.
    { apply bool_decide_ext. rewrite elem_of_cons. naive_solver. }
    destruct (Get t x) as [v|] eqn:E; rewrite IH; [|done]. destruct (Get t path); by rewrite lookup_insert_ne by done.
Qed.

(** A device that comes up introduces itself before it reports: the
    OnBoardRequest carries its identity, the Boot! after it the cause and the
    boot parameters the tree has, with different ids; when the first cannot be
    sent the second is not tried. *)
Theorem Announce_introduces (cfg : Config) (t : Tree) (seq : Z) (cause : string) (Hc : configured cfg) (Hseq : (0 ≤ seq < 2 ^ 64 - 2)%Z) :
  let hello := body BodyNotify (NewOnBoardRequest (msg_id (SerialNumber (cfgIdentity cfg)) "onboard" (seq + 1)) (cfgIdentity cfg)) in
  let booted := body BodyNotify (NewBootNotify (msg_id (SerialNumber (cfgIdentity cfg)) "boot" (seq + 2))
    (BootSubscriptionID cfg) "Device." cause "" false (collectBootParameters cfg t)) in
  let '(seq', (sent, err)) := Announce cfg t seq cause in
  (∀ path, collectBootParameters cfg t !! path =
     match Get t path with Ok v => if bool_decide (path ∈ BootParameters cfg) then Some (Raw v) else None | Err _ => None end) ∧
  (if bool_decide ((send cfg hello).2 = None)
   then seq' = (seq + 2)%Z ∧ MsgId hello ≠ MsgId booted ∧
        ∃ e1 rest, sent = e1 :: rest ∧ carries cfg e1 hello ∧ sends cfg booted rest ∧ (err = None ↔ (send cfg booted).2 = None)
   else err ≠ None ∧ seq' = (seq + 1)%Z ∧ sends cfg hello sent).
Proof.
  cbv zeta. unfold Announce, Boot, boot, rootObjectPath, nextMsgID, next_seq.
  rewrite !(Z.mod_small (seq + 1)), !(Z.mod_small (seq + 1 + 1)) by lia.
  replace (seq + 1 + 1)%Z with (seq + 2)%Z by lia. fold (msg_id (SerialNumber (cfgIdentity cfg)) "onboard" (seq + 1)).
  fold (msg_id (SerialNumber (cfgIdentity cfg)) "boot" (seq + 2)).
  pose proof (reply_sends cfg (body BodyNotify (NewBootNotify (msg_id (SerialNumber (cfgIdentity cfg)) "boot" (seq + 2))
    (BootSubscriptionID cfg) "Device." cause "" false (collectBootParameters cfg t))) Hc) as Hb.
  unfold reply in Hb.
  destruct (send_spec cfg (body BodyNotify (NewOnBoardRequest (msg_id (SerialNumber (cfgIdentity cfg)) "onboard" (seq + 1)) (cfgIdentity cfg))) Hc)
    as [(e1&E&Hca)|(e&E&He)]; rewrite E; cbn [snd].
  - destruct (Publish cfg e1) as [e|] eqn:Ep.
    + split; [intros path; apply boot_parameters_lookup|]. rewrite bool_decide_false by done.
      split_and!; [done|done|]. left. by exists e1.
    + destruct (send cfg (body BodyNotify (NewBootNotify _ _ _ _ _ _ _))) as [sent err] eqn:Eb.
      split; [intros path; apply boot_parameters_lookup|]. rewrite bool_decide_true by done.
      split_and!; [done| |].
      * cbn. unfold msg_id. intros H. by apply (f_equal (λ s, String.get 0 s)) in H.
      * exists e1, sent. split_and!; [done|done|exact Hb|]. by destruct err.
  - split; [intros path; apply boot_parameters_lookup|]. rewrite bool_decide_false by done.
    split_and!; [done|done|]. by right.
Qed.
End codec.

(** ** An example: a toy wire and a Get *)

Fixpoint bits (p : positive) : string :=
  match p with xH => "" | xO q => String "0" (bits q) | xI q => String "1" (bits q) end.
Fixpoint unbits (s : string) : positive :=
  match s with EmptyString => xH | String c r => if Ascii.eqb c "0" then xO (unbits r) else xI (unbits r) end.
Lemma unbits_bits p : unbits (bits p) = p.
Proof. induction p as [p IH|p IH|]; cbn; congruence. Qed.

#[export] Instance PayloadSecurity_eq_dec : EqDecision PayloadSecurity.
Proof. solve_decision. Defined.
#[export] Instance RecordType_eq_dec : EqDecision RecordType.
Proof. solve_decision. Defined.
#[export] Instance UspRecord_eq_dec : EqDecision UspRecord.
Proof. solve_decision. Defined.
#[export] Instance UspRecord_countable : Countable UspRecord.
Proof.
  refine (inj_countable'
    (λ r, (Version r, ToId r, FromId r, match Security r with PLAINTEXT => true | TLS12 => false end,
           match recordType r with NoSessionContext p => inl p | SessionContext => inr true | RecordOther => inr false end))
    (λ '(v, to, from, s, k), MkRecord v to from (if s : bool then PLAINTEXT else TLS12)
       (match k with inl p => NoSessionContext p | inr true => SessionContext | inr false => RecordOther end)) _).
  by intros [v to from [] [p| |]].
Defined.

Definition toy_marshal (r : UspRecord) : result error string := Ok (bits (encode r)).
Definition toy_unmarshal (b : string) : result error UspRecord :=
  match decode (unbits b) with Some r => Ok r | None => Err (errorf "bad record" []) end.
Lemma toy_reads_back r b : toy_marshal r = Ok b → toy_unmarshal b = Ok r.
Proof. intros E. injection E as <-. unfold toy_unmarshal. by rewrite unbits_bits, decode_encode. Qed.
(** The example's messages: one request, and answers written as their ids. *)
Definition toy_unmarshal_msg (p : string) : result error (Msg MsgBody) :=
  Ok (MkMsg p GET (BodyRequest (Request_Get ["Device.Nope"]))).
Definition toy_marshal_msg (m : Msg MsgBody) : result error string := Ok (MsgId m).

Definition ex_config : Config :=
  MkConfig (MkIdentity "os::0025DF-1" "0025DF" "CPE" "1") "self::ctl" ["Device.X"; "Device.LocalAgent.EndpointID"] "boot" None (λ _, None).
Definition ex_payload : string := bits (encode (MkRecord "1.3" "os::0025DF-1" "self::ctl" PLAINTEXT (NoSessionContext "7"))).
Lemma ex_configured : configured ex_config.
Proof. by apply (NewRunner_configured ex_config). Qed.
Lemma ex_payload_reads :
  toy_unmarshal ex_payload = Ok (MkRecord "1.3" "os::0025DF-1" "self::ctl" PLAINTEXT (NoSessionContext "7")).
Proof. by apply toy_reads_back. Qed.
Lemma ex_asks : asks toy_unmarshal toy_unmarshal_msg ex_config ex_payload "7" (Request_Get ["Device.Nope"]).
Proof.
  eexists _, _, _. split; [apply ex_payload_reads|]. split; [by right|]. split; [reflexivity|]. split; [done|reflexivity].
Qed.

Lemma handleRecord_serves_witness :
  ∃ t' cs sent fate,
    handleRecord toy_marshal toy_unmarshal toy_marshal_msg toy_unmarshal_msg ex_config [] ex_agent ex_payload = Some (t', cs, (sent, fate)) ∧
    t' = ex_agent ∧ ∃ m, MsgId m = "7" ∧
      ∃ envelope, sent = [envelope] ∧ carries toy_unmarshal toy_marshal_msg ex_config envelope m.
Proof.
  destruct (handleRecord_serves toy_marshal toy_unmarshal toy_marshal_msg toy_unmarshal_msg toy_reads_back
    ex_config ex_config [] ex_agent ex_payload eq_refl ex_agent_wf) as (t'&cs&sent&fate&E&[(i&req&m&Ha&Hi&_&Hs&Hw)|(Hno&_)]).
  2:{ exfalso. exact (Hno _ _ ex_asks). }
  assert (i = "7" ∧ req = Request_Get ["Device.Nope"]) as [-> ->].
  { destruct Ha as (rec&p&ty&Hr&_&Hk&_&Hm). rewrite ex_payload_reads in Hr. injection Hr as <-.
    injection Hk as <-. injection Hm as <- _ <-. split; reflexivity. }
  exists t', cs, sent, fate. split; [exact E|]. split; [exact (proj1 (Hw eq_refl))|]. exists m. split; [exact Hi|].
  destruct Hs as [Hs|[_ [[e Hm]|(p&e&_&Hm)]]]; [exact Hs|discriminate Hm|discriminate Hm].
Defined.

Lemma Announce_introduces_witness :
  (0 ≤ 0 < 2 ^ 64 - 2)%Z ∧
  let '(seq', (sent, err)) := Announce toy_marshal toy_marshal_msg ex_config ex_agent 0 "LocalReboot" in seq' = 2%Z.
Proof.
  assert (0 ≤ 0 < 2 ^ 64 - 2)%Z as H0 by lia. split; [exact H0|].
  pose proof (Announce_introduces toy_marshal toy_unmarshal toy_marshal_msg toy_unmarshal_msg toy_reads_back ex_config ex_agent 0 "LocalReboot" ex_configured H0) as H.
  cbv zeta in H. destruct (Announce _ _ _ _ _ _) as [seq' [sent err]].
  destruct H as [_ H]. case_bool_decide as Hd; [exact (proj1 H)|]. destruct Hd. reflexivity.
Defined.
