(* ===== verification/Scheduler.v ===== *)
(** * Periodic informs and one-shot timers ([internal/cwmp/scheduler]).

    Durations and instants are nanoseconds. A CPE's entry is worked on by one
    goroutine, [drain]; what it does between two waits is one step here, and
    steps of different goroutines interleave freely with the clock, with writes
    to the trees and with [OnIntervalChange]. *)
From Stdlib Require Import ZArith Lia Ascii String SpecFloat.
From S2P Require Import Prelude GoLib GoText GoFloat CpeErr Types Node Tree TreeProps.

(** ** Durations *)

Definition Second : Z := 1000000000.
Definition maxDuration : Z := 2 ^ 63 - 1.
Definition minDuration : Z := - 2 ^ 63.
(** [t.Sub(u)]: a difference that does not fit is the nearest that does. *)
Definition Sub (t u : Z) : Z := Z.max minDuration (Z.min maxDuration (t - u)).

(** ** What an entry reads of its tree *)

Record PeriodicInformPaths := MkPaths { pInterval : string; pEnable : string; pTime : string }.
Record settings := MkSettings { interval : Z; enabled : bool; phaseRef : option Z }.

(** [strconv.ParseBool], an error being [false]. *)
Definition parsed_true (raw : string) : bool :=
  bool_decide (raw ∈ ["1"; "t"; "T"; "TRUE"; "true"; "True"]).

(** The instant of a PeriodicInformTime, none when it is empty, unreadable or
    in year 1. *)
Definition phase_of (raw : string) : option Z :=
  let raw := Space.TrimSpace raw in
  if String.eqb raw "" then None
  else match Time.Parse_RFC3339Nano raw with
       | None => None
       | Some f =>
           let t := (Time.unix f * Second + Time.nsec f)%Z in
           if negb (t =? Time.days_from_civil 1 1 1 * 86400 * Second)%Z && (1 <? Time.year f)%Z then Some t else None
       end.

Definition read_error (path : string) (e : error) : error := Errorf "read %s: %w" [path] (Some e).
Definition refreshFromTree (t : Tree) (p : PeriodicInformPaths) : result error settings :=
  iv ← map_err (read_error (pInterval p)) (Get t (pInterval p));
  secs ← map_err (λ _, errorf "parse %s=%q: %w" [pInterval p; Raw iv]) (Strconv.ParseUint (Raw iv) 32);
  ev ← map_err (read_error (pEnable p)) (Get t (pEnable p));
  phase ← (if String.eqb (pTime p) "" then Ok None
           else tv ← map_err (read_error (pTime p)) (Get t (pTime p)); Ok (phase_of (Raw tv)));
  Ok (MkSettings (Z.max Second (secs * Second)) (parsed_true (Raw ev)) phase).

(** ** The next delay *)

(** [time.Duration(float64(ival) * pct)] *)
Definition jitter_span (jitterPct : spec_float) (ival : Z) : Z :=
  float64_int64 (SFmul 53 1024 (float64 ival) jitterPct).
Definition is_zero (f : spec_float) : bool := match f with S754_zero _ => true | _ => false end.

(** A factor of at most a quarter. *)
Definition modest (pct : spec_float) : bool :=
  match pct with
  | S754_zero _ => true
  | S754_finite _ m e => (-200 <=? e)%Z && (e <=? 0)%Z && (4 * Zpos m <=? 2 ^ (- e))%Z
  | _ => false
  end.

Lemma modest_span pct i : modest pct = true → (0 < i)%Z → (jitter_span pct i ≤ i)%Z.
Proof.
  intros Hp Hi. destruct i as [|i|]; [lia| |lia]. unfold jitter_span.
  destruct (float64 (Zpos i)) as [s|s| |s mx ex] eqn:Ef; destruct pct as [t|t| |t my ey]; try done; cbn [SFmul];
    try (cbn; lia).
  apply float64_bound in Ef as (Hex&Hm&->). cbn [modest] in Hp.
  destruct (binary_round_aux _ _ _ _ _ _) as [?|?| |s m e] eqn:Er; try (cbn; lia).
  apply round_bound in Er as (He&Hb&_); [|lia].
  apply float64_int64_le; [lia|lia|].
  assert (4 * Zpos my ≤ 2 ^ (- ey))%Z as Hy by lia. assert (-200 ≤ ey ≤ 0)%Z as Hey by lia.
  assert (Zpos (mx * my) * 2 ^ (ex + 53) * 2 ≤ Zpos i * 2 ^ 53 * 2 ^ (- ey))%Z as H1 by (rewrite Pos2Z.inj_mul; nia).
  replace (e + 2000)%Z with ((e - (ex + ey)) + (ex + 53) + (1947 + ey))%Z by lia. rewrite !Z.pow_add_r by lia.
  assert (2 ^ 2000 = 2 ^ 53 * 2 ^ (- ey) * 2 ^ (1947 + ey))%Z as -> by (rewrite <-!Z.pow_add_r by lia; f_equal; lia).
  pose proof (Z.pow_pos_nonneg 2 (1947 + ey) ltac:(lia) ltac:(lia)).
  pose proof (Z.pow_pos_nonneg 2 (ex + 53) ltac:(lia) ltac:(lia)).
  assert (Zpos m * 2 ^ (e - (ex + ey)) * 2 ^ (ex + 53) ≤ Zpos i * 2 ^ 53 * 2 ^ (- ey))%Z as H2 by nia.
  rewrite !Z.mul_assoc in *. apply Z.mul_le_mono_nonneg_r; [lia|exact H2].
Qed.

Section delay.
(** [rng.Int63n]; [None] is a nil source. *)
Context (Int63n : option (Z → Z)) (jitterPct : spec_float).

Definition nextDelay (s : settings) (now : Z) : Z :=
  match phaseRef s with
  | Some ref =>
      let elapsed := Z.rem (Sub now ref) (interval s) in
      let elapsed := (if elapsed <? 0 then elapsed + interval s else elapsed)%Z in
      let delay := (interval s - elapsed)%Z in
      if (delay <? 1)%Z then interval s else delay
  | None =>
      match Int63n with
      | None => interval s
      | Some draw =>
          if is_zero jitterPct then interval s
          else
            let span := jitter_span jitterPct (interval s) in
            if (span <=? 0)%Z then interval s
            else
              let delta := (draw (i64 (2 * span + 1)) - span)%Z in
              Z.max 1 (interval s + delta)
      end
  end.

(** With a phase, the next tick is on the next boundary of the interval
    counted from it, wherever the phase lies, as long as it is less than 292
    years away. *)
Theorem nextDelay_phase (s : settings) (now ref : Z) (Hi : (Second ≤ interval s)%Z) (Hp : phaseRef s = Some ref)
  (Hr : (minDuration ≤ now - ref ≤ maxDuration)%Z) :
  (0 < nextDelay s now ≤ interval s)%Z ∧
  ((now + nextDelay s now - ref) mod interval s = 0)%Z ∧
  ∀ d, (0 < d < nextDelay s now)%Z → ((now + d - ref) mod interval s ≠ 0)%Z.
Proof.
  unfold nextDelay. rewrite Hp. unfold Sub. rewrite Z.min_r, Z.max_r by lia.
  unfold Second in Hi. set (i := interval s) in *. set (e := Z.rem (now - ref) i).
  assert ((if e <? 0 then e + i else e)%Z = (now - ref) mod i)%Z as ->.
  { subst e. destruct (Z_lt_ge_dec (now - ref) 0) as [Hn|Hn].
    - pose proof (Z.rem_bound_pos_neg (now - ref) i ltac:(lia) ltac:(lia)).
      pose proof (Z.quot_rem' (now - ref) i) as Hq. destruct (Z.ltb_spec (Z.rem (now - ref) i) 0).
      + apply (Z.mod_unique _ _ (Z.quot (now - ref) i - 1)); lia.
      + apply (Z.mod_unique _ _ (Z.quot (now - ref) i)); lia.
    - rewrite Z.rem_mod_nonneg by lia. pose proof (Z.mod_pos_bound (now - ref) i ltac:(lia)).
      by destruct (Z.ltb_spec ((now - ref) mod i) 0); [lia|]. }
  pose proof (Z.mod_pos_bound (now - ref) i ltac:(lia)) as Hb. pose proof (Z.div_mod (now - ref) i ltac:(lia)) as Hd.
  destruct (Z.ltb_spec (i - (now - ref) mod i) 1) as [|_]; [lia|]. split; [lia|]. split.
  - symmetry. apply (Z.mod_unique _ _ ((now - ref) / i + 1)); lia.
  - intros d Hd'. rewrite <-(Z.mod_unique (now + d - ref) i ((now - ref) / i) ((now - ref) mod i + d)); lia.
Qed.

(** Without a phase, the next tick is within the jitter's span of the
    interval, and always in the future. *)
Lemma jitter_bounds (s : settings) (now : Z) (draw : Z → Z)
  (Hi : (Second ≤ interval s ≤ (2 ^ 32 - 1) * Second)%Z) (Hp : phaseRef s = None) (Hs : Int63n = Some draw)
  (Hspan : modest jitterPct = true) (Hdraw : ∀ n, (0 < n)%Z → (0 ≤ draw n < n)%Z) :
  (0 < nextDelay s now)%Z ∧ (Z.abs (nextDelay s now - interval s) ≤ Z.max 0 (jitter_span jitterPct (interval s)))%Z.
Proof.
  unfold nextDelay. rewrite Hp, Hs. unfold Second in Hi. destruct (is_zero jitterPct); [lia|].
  destruct (Z.leb_spec (jitter_span jitterPct (interval s)) 0); [lia|]. pose proof (modest_span jitterPct (interval s) Hspan ltac:(lia)). set (sp := jitter_span jitterPct (interval s)) in *.
  rewrite (i64_small (2 * sp + 1)) by lia.
  specialize (Hdraw (2 * sp + 1)%Z ltac:(lia)). lia.
Qed.
End delay.

(** ** The scheduler *)

(** A timer that exists: stopped with nothing queued, running until its
    instant, or fired with its tick queued. *)
Inductive timer := Idle | Pending (due : Z) | Queued.

(** Where an entry's goroutine stands: not started, about to be armed by
    [Start] or [Schedule], at the select of [drain], in [OnTick], done; or
    skipped, its first reading of the tree having failed. *)
Inductive pc := Registered | ToArm | Waiting | InTick | Exited | Skipped.
#[export] Instance pc_eq_dec : EqDecision pc.
Proof. solve_decision. Defined.

(** [current] are the fields [refreshFromTree] stores. [change] is the buffered
    signal. *)
Record cpeEntry := MkEntry {
  paths : PeriodicInformPaths; tree : Tree; hasRng : bool; jitterPct : spec_float;
  current : settings; etimer : option timer; change : bool; closed : bool; at_ : pc
}.
Record Scheduler := MkScheduler { cpes : gmap string cpeEntry; started : bool; stopped : bool; clock : Z }.

Record Registration := MkRegistration {
  CPEID : string; rTree : Tree; rPaths : PeriodicInformPaths; rHasRng : bool; rJitterPct : spec_float
}.

(** [JitterPct > 0] *)
Definition positive_pct (f : spec_float) : bool :=
  match f with S754_finite false _ _ | S754_infinity false => true | _ => false end.
Definition new_entry (reg : Registration) (started : bool) : cpeEntry :=
  MkEntry (rPaths reg) (rTree reg) (rHasRng reg) (rJitterPct reg) (MkSettings 0 false None) None false false
    (if started then ToArm else Registered).
Definition Schedule (reg : Registration) (s : Scheduler) : result error Scheduler :=
  if String.eqb (CPEID reg) "" then Err (errorf "scheduler.Schedule: CPEID is required" [])
  else if String.eqb (pInterval (rPaths reg)) "" || String.eqb (pEnable (rPaths reg)) ""
  then Err (errorf "scheduler.Schedule: Paths.Interval and Paths.Enable are required" [])
  else if positive_pct (rJitterPct reg) && negb (rHasRng reg)
  then Err (errorf "scheduler.Schedule: RNG is required when JitterPct > 0" [])
  else if stopped s then Err (errorf "scheduler.Schedule: scheduler is stopped" [])
  else if bool_decide (is_Some (cpes s !! CPEID reg))
  then Err (errorf "scheduler.Schedule: CPEID %q already registered" [CPEID reg])
  else Ok (MkScheduler (<[CPEID reg := new_entry reg (started s)]> (cpes s)) (started s) (stopped s) (clock s)).

Definition set_at (p : pc) (e : cpeEntry) : cpeEntry :=
  MkEntry (paths e) (tree e) (hasRng e) (jitterPct e) (current e) (etimer e) (change e) (closed e) p.
Definition Start (s : Scheduler) : result error Scheduler :=
  if stopped s then Err (errorf "scheduler.Start: scheduler is stopped" [])
  else if started s then Ok s
  else Ok (MkScheduler ((λ e, set_at ToArm e) <$> cpes s) true (stopped s) (clock s)).

(** [Stop] cancels the context; the goroutines see it at their next select. *)
Definition Stop (s : Scheduler) : Scheduler := MkScheduler (cpes s) (started s) true (clock s).

Definition OnIntervalChange (e : cpeEntry) : cpeEntry :=
  MkEntry (paths e) (tree e) (hasRng e) (jitterPct e) (current e) (etimer e) true (closed e) (at_ e).

Definition stopTimer (t : option timer) : option timer := match t with None => None | Some _ => Some Idle end.
Definition refreshed (s : settings) (e : cpeEntry) : cpeEntry :=
  MkEntry (paths e) (tree e) (hasRng e) (jitterPct e) s (etimer e) (change e) (closed e) (at_ e).
Definition set_timer (t : option timer) (e : cpeEntry) : cpeEntry :=
  MkEntry (paths e) (tree e) (hasRng e) (jitterPct e) (current e) t (change e) (closed e) (at_ e).
Definition armTimer (draw : Z → Z) (now : Z) (e : cpeEntry) : cpeEntry :=
  if negb (enabled (current e)) then set_timer (stopTimer (etimer e)) e
  else set_timer (Some (Pending (now + nextDelay (if hasRng e then Some draw else None) (jitterPct e) (current e) now))) e.

Definition armEntry (draw : Z → Z) (now : Z) (e : cpeEntry) : cpeEntry :=
  match refreshFromTree (tree e) (paths e) with
  | Err _ => set_at Skipped e
  | Ok s => set_at Waiting (armTimer draw now (refreshed s e))
  end.

(** The three branches of [drain]. A tick is two steps: its receipt, and what
    follows [OnTick]. *)
Definition drain_done (e : cpeEntry) : cpeEntry :=
  MkEntry (paths e) (tree e) (hasRng e) (jitterPct e) (current e) (stopTimer (etimer e)) (change e) true Exited.
Definition drain_change (draw : Z → Z) (now : Z) (e : cpeEntry) : cpeEntry :=
  let e := MkEntry (paths e) (tree e) (hasRng e) (jitterPct e) (current e) (etimer e) false (closed e) (at_ e) in
  match refreshFromTree (tree e) (paths e) with
  | Err _ => e
  | Ok s => armTimer draw now (set_timer (stopTimer (etimer e)) (refreshed s e))
  end.
Definition drain_tick (e : cpeEntry) : cpeEntry := set_at InTick (set_timer (Some Idle) e).
Definition drain_ticked (draw : Z → Z) (now : Z) (e : cpeEntry) : cpeEntry :=
  let e := match refreshFromTree (tree e) (paths e) with Err _ => e | Ok s => refreshed s e end in
  set_at Waiting (armTimer draw now e).

Definition elapse (now : Z) (e : cpeEntry) : cpeEntry :=
  set_timer (match etimer e with Some (Pending due) => if (due <=? now)%Z then Some Queued else Some (Pending due) | t => t end) e.
Definition write (t : Tree) (e : cpeEntry) : cpeEntry :=
  MkEntry (paths e) t (hasRng e) (jitterPct e) (current e) (etimer e) (change e) (closed e) (at_ e).

(** What [Int63n] promises. *)
Definition draws (draw : Z → Z) : Prop := ∀ n, (0 < n)%Z → (0 ≤ draw n < n)%Z.

(** What one entry can do. A write to the tree either leaves what the entry
    reads of it alone or is followed by [OnIntervalChange], as the
    SetParameterValues callback sees to. *)
Inductive entry_step (s : Scheduler) : cpeEntry → cpeEntry → Prop :=
| es_arm e draw : at_ e = ToArm → draws draw → entry_step s e (armEntry draw (clock s) e)
| es_change e draw : at_ e = Waiting → change e = true → draws draw → entry_step s e (drain_change draw (clock s) e)
| es_tick e : at_ e = Waiting → etimer e = Some Queued → entry_step s e (drain_tick e)
| es_ticked e draw : at_ e = InTick → draws draw → entry_step s e (drain_ticked draw (clock s) e)
| es_done e : at_ e = Waiting → stopped s = true → entry_step s e (drain_done e)
| es_signal e : entry_step s e (OnIntervalChange e)
| es_write e t : refreshFromTree t (paths e) = refreshFromTree (tree e) (paths e) → entry_step s e (write t e)
| es_write_signal e t : entry_step s e (OnIntervalChange (write t e)).

Inductive step : Scheduler → Scheduler → Prop :=
| st_schedule reg s s' : modest (rJitterPct reg) = true → Schedule reg s = Ok s' → step s s'
| st_start s s' : Start s = Ok s' → step s s'
| st_stop s : step s (Stop s)
| st_time s now : (clock s ≤ now)%Z → step s (MkScheduler (elapse now <$> cpes s) (started s) (stopped s) now)
| st_entry s id e e' : cpes s !! id = Some e → entry_step s e e' →
    step s (MkScheduler (<[id := e']> (cpes s)) (started s) (stopped s) (clock s)).
Inductive reachable : Scheduler → Prop :=
| reach_init now : reachable (MkScheduler ∅ false false now)
| reach_step s s' : reachable s → step s s' → reachable s'.

(** ** A CPE is never forgotten *)

(** The longest wait an entry may arm. *)
Definition longest (e : cpeEntry) : Z := interval (current e) + Z.max 0 (jitter_span (jitterPct e) (interval (current e))).
Definition fits (s : settings) : Prop := (Second ≤ interval s ≤ (2 ^ 32 - 1) * Second)%Z.
Definition in_sync (e : cpeEntry) : Prop := ∀ s, refreshFromTree (tree e) (paths e) = Ok s → current e = s.
Definition quiet (t : option timer) : Prop := t = None ∨ t = Some Idle.
(** The next tick of an enabled entry is queued or due soon; a disabled entry
    has none. *)
Definition due_ok (now : Z) (e : cpeEntry) : Prop :=
  if enabled (current e)
  then etimer e = Some Queued ∨ ∃ due, etimer e = Some (Pending due) ∧ (now < due ≤ now + longest e)%Z
  else quiet (etimer e).
Definition entry_ok (now : Z) (e : cpeEntry) : Prop :=
  modest (jitterPct e) = true ∧
  match at_ e with
  | Registered | ToArm | Skipped => etimer e = None
  | Waiting => fits (current e) ∧ due_ok now e ∧ (change e = false → in_sync e)
  | InTick => fits (current e) ∧ etimer e = Some Idle
  | Exited => quiet (etimer e)
  end.

Lemma refresh_fits t p s : refreshFromTree t p = Ok s → fits s.
Proof.
  unfold refreshFromTree. destruct (map_err _ (Get t (pInterval p))) as [iv|]; [cbn|done].
  destruct (Strconv.ParseUint (Raw iv) 32) as [secs|] eqn:Hu; [cbn|done].
  pose proof (Strconv.ParseUint_range _ 32 _ ltac:(lia) Hu) as Hs.
  destruct (map_err _ (Get t (pEnable p))) as [ev|]; [cbn|done].
  destruct (String.eqb (pTime p) "").
  - cbn. intros [= <-]. unfold fits, Second. cbn. lia.
  - destruct (map_err _ (Get t (pTime p))) as [tv|]; [cbn|done]. intros [= <-]. unfold fits, Second. cbn. lia.
Qed.

Lemma nextDelay_longest e draw now :
  modest (jitterPct e) = true → fits (current e) → draws draw →
  (0 < nextDelay (if hasRng e then Some draw else None) (jitterPct e) (current e) now ≤ longest e)%Z.
Proof.
  intros Hm Hf Hd. unfold fits in Hf. unfold longest.
  destruct (phaseRef (current e)) as [ref|] eqn:Hp.
  - unfold nextDelay. rewrite Hp. unfold Second in Hf.
    pose proof (Z.rem_bound_abs (Sub now ref) (interval (current e)) ltac:(lia)).
    set (r := Z.rem _ _) in *. cbv zeta. destruct (Z.ltb_spec r 0); match goal with |- context [(?x <? 1)%Z] => destruct (Z.ltb_spec x 1) end; lia.
  - destruct (hasRng e).
    + pose proof (jitter_bounds (Some draw) (jitterPct e) (current e) now draw Hf Hp eq_refl Hm Hd). lia.
    + unfold nextDelay. rewrite Hp. unfold Second in Hf. lia.
Qed.

Lemma armTimer_ok draw now e :
  modest (jitterPct e) = true → fits (current e) → draws draw → due_ok now (armTimer draw now e).
Proof.
  intros Hm Hf Hd. unfold armTimer, due_ok. destruct (enabled (current e)) eqn:En; cbn; rewrite En.
  - right. eexists. split; [done|]. pose proof (nextDelay_longest e draw now Hm Hf Hd). unfold longest in *. cbn. lia.
  - unfold quiet. destruct (etimer e); [by right|by left].
Qed.

Lemma elapse_ok now now' e : (now ≤ now')%Z → entry_ok now e → entry_ok now' (elapse now' e).
Proof.
  intros Hle [Hm He]. split; [done|]. unfold elapse. cbn. destruct (at_ e) eqn:Ea.
  1,2,6: by rewrite He.
  - destruct He as (Hf&Hd&Hs). split_and!; [done| |done]. unfold due_ok in *. cbn. destruct (enabled (current e)).
    + destruct Hd as [->|(due&->&Hd)]; [by left|]. destruct (Z.leb_spec due now'); [by left|].
      right. exists due. split; [done|]. unfold longest in *. cbn. lia.
    + by destruct Hd as [->| ->]; [left|right].
  - destruct He as [Hf ->]. done.
  - by destruct He as [->| ->]; [left|right].
Qed.

Lemma refreshed_sync e s : refreshFromTree (tree e) (paths e) = Ok s → in_sync (refreshed s e).
Proof. intros E s' E'. cbn in *. congruence. Qed.
Lemma in_sync_armed draw now e : in_sync e → in_sync (armTimer draw now e).
Proof. intros H. unfold armTimer. by destruct (negb _). Qed.
Lemma change_armed draw now e : change (armTimer draw now e) = change e.
Proof. unfold armTimer. by destruct (negb _). Qed.
Lemma current_armed draw now e : current (armTimer draw now e) = current e.
Proof. unfold armTimer. by destruct (negb _). Qed.
Lemma at_armed draw now e : at_ (armTimer draw now e) = at_ e.
Proof. unfold armTimer. by destruct (negb _). Qed.
Lemma pct_armed draw now e : jitterPct (armTimer draw now e) = jitterPct e.
Proof. unfold armTimer. by destruct (negb _). Qed.

(** An entry at the select, just armed. *)
Lemma armed_waiting draw now e :
  modest (jitterPct e) = true → fits (current e) → draws draw → (change e = false → in_sync e) →
  entry_ok now (set_at Waiting (armTimer draw now e)).
Proof.
  intros Hm Hf Hd Hs. split; [cbn; by rewrite pct_armed|]. cbn [at_ set_at]. split_and!.
  - cbn. by rewrite current_armed.
  - exact (armTimer_ok draw now e Hm Hf Hd).
  - cbn. rewrite change_armed. intros Hc. exact (in_sync_armed _ _ _ (Hs Hc)).
Qed.

Lemma entry_step_ok s e e' : entry_step s e e' → entry_ok (clock s) e → entry_ok (clock s) e'.
Proof.
  intros Hst [Hm He]. destruct Hst as [e draw Ha Hd|e draw Ha Hc Hd|e Ha Ht|e draw Ha Hd|e Ha Hstop|e|e t Ht|e t].
  - rewrite Ha in He. unfold armEntry. destruct (refreshFromTree _ _) as [st|] eqn:E; [|by split].
    apply armed_waiting; [done|by eapply refresh_fits|done|]. intros _. by apply refreshed_sync.
  - rewrite Ha in He. destruct He as (Hf&Hdue&Hs). unfold drain_change. cbn.
    destruct (refreshFromTree _ _) as [st|] eqn:E.
    + set (e1 := set_timer _ _). assert (at_ (armTimer draw (clock s) e1) = Waiting) as Hat by (rewrite at_armed; done).
      assert (armTimer draw (clock s) e1 = set_at Waiting (armTimer draw (clock s) e1)) as ->.
      { destruct (armTimer draw (clock s) e1). cbn in *. by subst. }
      apply armed_waiting; [done|by eapply refresh_fits|done|]. intros _. by intros s' [=<-]%(eq_trans (eq_sym E)).
    + split; [done|]. cbn. rewrite Ha. split_and!; [done|exact Hdue|]. intros _ s' E'. cbn in E'. congruence.
  - rewrite Ha in He. split; [done|]. by split; [apply He|].
  - rewrite Ha in He. destruct He as [Hf Ht]. unfold drain_ticked. destruct (refreshFromTree _ _) as [st|] eqn:E.
    + apply armed_waiting; [done|by eapply refresh_fits|done|]. intros _. by apply refreshed_sync.
    + apply armed_waiting; [done|done|done|]. intros _ s' E'. congruence.
  - split; [done|]. cbn. unfold quiet. destruct (etimer e); [by right|by left].
  - split; [done|]. cbn. destruct (at_ e); try done. destruct He as (Hf&Hdue&Hs). by split_and!.
  - split; [done|]. cbn. destruct (at_ e); try done. destruct He as (Hf&Hdue&Hs). split_and!; [done|done|].
    intros Hc s' E'. cbn in E'. rewrite Ht in E'. by apply Hs.
  - split; [done|]. cbn. destruct (at_ e); try done. destruct He as (Hf&Hdue&Hs). by split_and!.
Qed.

(** Before [Start] every entry waits for it; after, none does. *)
Definition started_ok (s : Scheduler) (e : cpeEntry) : Prop := at_ e = Registered ↔ started s = false.

Lemma entry_step_at s e e' : entry_step s e e' → at_ e = Registered ↔ at_ e' = Registered.
Proof.
  intros [e0 draw Ha Hd|e0 draw Ha Hc Hd|e0 Ha Ht|e0 draw Ha Hd|e0 Ha Hstop|e0|e0 t Ht|e0 t]; cbn; try done; try (by rewrite Ha).
  - unfold armEntry. destruct (refreshFromTree _ _); cbn; by rewrite Ha.
  - unfold drain_change. cbn. destruct (refreshFromTree _ _); [rewrite at_armed|]; cbn; by rewrite Ha.
Qed.

Lemma reachable_ok s : reachable s → map_Forall (λ _ e, entry_ok (clock s) e ∧ started_ok s e) (cpes s).
Proof.
  induction 1 as [now|s s' Hr IH Hst]; [apply map_Forall_empty|].
  destruct Hst as [reg s s' Hm Hs|s s' Hs|s|s now Hle|s id e e' He Hst].
  - unfold Schedule in Hs. repeat (case_match; [done|]). injection Hs as <-. cbn [cpes clock].
    apply map_Forall_insert_2; [|done]. split; [by destruct (started s)|]. unfold started_ok. cbn. by destruct (started s).
  - unfold Start in Hs. destruct (stopped s); [done|]. destruct (started s) eqn:Est; injection Hs as <-; [done|].
    cbn [cpes clock]. apply map_Forall_fmap. intros id e He. destruct (IH id e He) as [[Hm Ho] Hso]. cbn.
    unfold started_ok in Hso. rewrite Est in Hso. rewrite (proj2 Hso eq_refl) in Ho. by split.
  - exact IH.
  - cbn [cpes clock]. apply map_Forall_fmap. intros id e He. destruct (IH id e He) as [Ho Hso].
    split; [by eapply elapse_ok|exact Hso].
  - cbn [cpes clock]. apply map_Forall_insert_2; [|done]. destruct (IH id e He) as [Ho Hso].
    split; [by eapply entry_step_ok|]. unfold started_ok in *. cbn. by rewrite <-(entry_step_at _ _ _ Hst).
Qed.

(** C13. In every state the scheduler can reach, a CPE that was started and
    whose goroutine waits has its next tick queued or due within its interval
    and the jitter, unless periodic informs are disabled, and then it has none;
    by that time at the latest the tick is there. What it goes by is what its
    tree says, as soon as no signal is waiting to be looked at. *)
Theorem never_silent (s : Scheduler) (id : string) (e : cpeEntry) (Hr : reachable s) (He : cpes s !! id = Some e) :
  (started s = true → at_ e ≠ Registered) ∧
  (at_ e = Waiting →
    (if enabled (current e)
     then ∀ now, (clock s + longest e ≤ now)%Z → etimer (elapse now e) = Some Queued
     else etimer e ≠ Some Queued ∧ ∀ due, etimer e ≠ Some (Pending due)) ∧
    (change e = false → ∀ st, refreshFromTree (tree e) (paths e) = Ok st → current e = st)).
Proof.
  destruct (reachable_ok s Hr id e He) as [[Hm Ho] Hso]. split.
  { intros Hst Ha. apply Hso in Ha. congruence. }
  intros Ha. rewrite Ha in Ho. destruct Ho as (Hf&Hd&Hs). split; [|exact Hs]. unfold due_ok in Hd.
  destruct (enabled (current e)).
  - intros now Hnow. unfold elapse. cbn. destruct Hd as [->|(due&->&Hd)]; [done|]. by destruct (Z.leb_spec due now); [|lia].
  - split; [|intros due]; by destruct Hd as [->| ->].
Qed.

(** ** One-shots *)

(** The goroutine of a [ScheduleOnce]: at its select, past it with the timer
    fired, in the callback, done. [runs] counts the calls. *)
Inductive once_pc := OWaiting | OFired | ORunning | ODone.
Record once := MkOnce { oDue : Z; cancelClosed : bool; oAt : once_pc; runs : nat }.

Definition ScheduleOnce (s : Scheduler) (delay : Z) : option once :=
  if stopped s then None else Some (MkOnce (clock s + delay) false OWaiting 0).
Definition cancel (o : once) : once := MkOnce (oDue o) true (oAt o) (runs o).
Definition once_done (o : once) : once := MkOnce (oDue o) (cancelClosed o) ODone (runs o).
Definition once_fire (o : once) : once := MkOnce (oDue o) (cancelClosed o) OFired (runs o).
Definition once_check (o : once) : once :=
  if cancelClosed o then once_done o else MkOnce (oDue o) (cancelClosed o) ORunning (S (runs o)).

(** [now] is the clock when the step is taken. *)
Inductive once_step (now : Z) (stopping : bool) : once → once → Prop :=
| os_fire o : oAt o = OWaiting → (oDue o ≤ now)%Z → once_step now stopping o (once_fire o)
| os_cancelled o : oAt o = OWaiting → cancelClosed o = true → once_step now stopping o (once_done o)
| os_stopped o : oAt o = OWaiting → stopping = true → once_step now stopping o (once_done o)
| os_check o : oAt o = OFired → once_step now stopping o (once_check o)
| os_return o : oAt o = ORunning → once_step now stopping o (once_done o)
| os_cancel o : once_step now stopping o (cancel o).
(** From [o] at one time to another at a later one. *)
Inductive once_trace : Z → once → Z → once → Prop :=
| ot_here now o : once_trace now o now o
| ot_step now now1 now2 stopping o o1 o2 :
    (now ≤ now1)%Z → once_step now1 stopping o o1 → once_trace now1 o1 now2 o2 → once_trace now o now2 o2.

Lemma once_trace_inv (P : Z → once → Prop) :
  (∀ now now' stopping o o', P now o → (now ≤ now')%Z → once_step now' stopping o o' → P now' o') →
  ∀ now o now' o', once_trace now o now' o' → P now o → P now' o'.
Proof. intros H now o now' o' Hr. induction Hr as [|now n1 n2 st o o1 o2 Hle Hst _ IH]; intros HP; [done|]. apply IH. by eapply H. Qed.

(** The callback has run exactly when the goroutine is past its check. *)
Definition once_ok (due now : Z) (o : once) : Prop :=
  oDue o = due ∧ (oAt o = OWaiting ∨ (due ≤ now)%Z ∨ oAt o = ODone ∧ runs o = 0%nat) ∧
  match oAt o with OWaiting | OFired => runs o = 0%nat | _ => (runs o ≤ 1)%nat end.

Lemma once_step_ok due now now' stopping o o' :
  once_ok due now o → (now ≤ now')%Z → once_step now' stopping o o' → once_ok due now' o'.
Proof.
  intros Hok Hle Hst. destruct Hst as [o0 Ha Hd|o0 Ha Hc|o0 Ha Hs|o0 Ha|o0 Ha|o0]; destruct Hok as (<-&Ht&Hr); unfold once_ok, once_check, once_done in *; cbn.
  - rewrite Ha in Hr. split_and!; [done|by right; left|done].
  - rewrite Ha in Hr. split_and!; [done|right; right; done|lia].
  - rewrite Ha in Hr. split_and!; [done|right; right; done|lia].
  - rewrite Ha in Hr, Ht. destruct Ht as [[=]|[Ht|[[=] _]]].
    destruct (cancelClosed o0); cbn; split_and!; try done; try (right; left; lia); lia.
  - rewrite Ha in Hr, Ht. destruct Ht as [[=]|[Ht|[[=] _]]]. split_and!; [done|right; left; lia|done].
  - split_and!; [done| |done]. destruct Ht as [?|[?|?]]; [by left|right; left; lia|by right; right].
Qed.

(** Cancelled and not run. *)
Definition called_off (o : once) : Prop := cancelClosed o = true ∧ oAt o ≠ ORunning ∧ runs o = 0%nat.
Lemma called_off_step now stopping o o' : called_off o → once_step now stopping o o' → called_off o'.
Proof.
  intros Hco Hst. destruct Hst as [o0 H Hd|o0 H _|o0 H Hs|o0 H|o0 H|o0]; destruct Hco as (Hc&Ha&Hr); unfold called_off, once_check, once_done; cbn; try done.
  by rewrite Hc.
Qed.

(** A one-shot runs its callback at most once, not before its delay is
    over, and not at all when it is cancelled before the callback starts. *)
Theorem once_at_most (s : Scheduler) (delay now1 now2 : Z) (o o1 o2 : once)
  (H0 : ScheduleOnce s delay = Some o) (H1 : once_trace (clock s) o now1 o1) (H2 : once_trace now1 o1 now2 o2) :
  (runs o1 ≤ 1)%nat ∧ (runs o1 = 1%nat → (clock s + delay ≤ now1)%Z) ∧
  (cancelClosed o1 = true → runs o1 = 0%nat → runs o2 = 0%nat).
Proof.
  unfold ScheduleOnce in H0. destruct (stopped s); [done|]. injection H0 as <-.
  assert (once_ok (clock s + delay) now1 o1 ∧ (oAt o1 = ORunning → runs o1 = 1%nat)) as [(_&Ht&Hr) Hone].
  { revert H1. generalize (clock s + delay)%Z as due. intros due H1.
    refine (once_trace_inv (λ now o, once_ok due now o ∧ (oAt o = ORunning → runs o = 1%nat)) _ _ _ _ _ H1 _).
    - intros now now' st o o' [Hok Hone] Hle Hst. split; [by eapply once_step_ok|].
      destruct Hst as [o0 Ha Hd|o0 Ha Hc|o0 Ha Hs|o0 Ha|o0 Ha|o0]; cbn; try done.
      destruct Hok as (_&_&Hr). rewrite Ha in Hr. unfold once_check. destruct (cancelClosed o0); cbn; [done|]. intros _. by rewrite Hr.
    - split; [|done]. split_and!; [done|by left|done]. }
  split_and!.
  - destruct (oAt o1); lia.
  - intros H. destruct Ht as [Ha|[Ht|[_ Ht]]]; [|done|lia]. rewrite Ha in Hr. lia.
  - intros Hc H. assert (called_off o1) as Hco by (split_and!; [done|intros Ha; specialize (Hone Ha); lia|done]).
    refine (proj2 (proj2 (once_trace_inv (λ _ o, called_off o) _ _ _ _ _ H2 Hco))).
    intros now now' st o o' Hco' _ Hst. by eapply called_off_step.
Qed.

(** ** Examples *)

(** The program's ten percent. *)
Definition tenth : spec_float := S754_finite false 7205759403792794 (-56).
Example tenth_modest : modest tenth = true.
Proof. reflexivity. Qed.
Example tenth_of_hour : jitter_span tenth (3600 * Second) = (360 * Second)%Z.
Proof. vm_compute. reflexivity. Qed.

Definition ex_paths : PeriodicInformPaths := MkPaths "Interval" "Enable" "Time".
Definition ex_informs (ival enable time : string) : Tree :=
  set_root New_ (set_children (list_to_map
    [("Interval", NewLeaf (MkValue TypeUnsignedInt ival true)); ("Enable", NewLeaf (MkValue TypeBoolean enable true));
     ("Time", NewLeaf (MkValue TypeDateTime time true))]) NewBranch).
Definition ex_settings : settings := MkSettings (300 * Second) true (Some 1704067200000000000%Z).
Example ex_refresh : refreshFromTree (ex_informs "300" "1" "2024-01-01T00:00:00Z") ex_paths = Ok ex_settings.
Proof. vm_compute. reflexivity. Qed.
Example ex_refresh_clamped : refreshFromTree (ex_informs "0" "maybe" "0001-01-01T00:00:00Z") ex_paths = Ok (MkSettings Second false None).
Proof. vm_compute. reflexivity. Qed.

Lemma nextDelay_phase_witness :
  nextDelay None tenth ex_settings 1704067201000000000%Z = (299 * Second)%Z ∧
  ((1704067201000000000%Z + nextDelay None tenth ex_settings 1704067201000000000%Z - 1704067200000000000%Z) mod (300 * Second) = 0)%Z.
Proof.
  split; [vm_compute; reflexivity|].
  refine (proj1 (proj2 (nextDelay_phase None tenth ex_settings 1704067201000000000%Z 1704067200000000000%Z _ eq_refl _)));
    unfold ex_settings, Second, minDuration, maxDuration; cbn [interval]; lia.
Defined.

(** A phase in the year 1000 is further away than a duration can say, so the
    ticks miss its boundaries, although only its position within the interval
    should count. *)
Lemma far_phase_missed :
  ∃ ref, phase_of "1000-01-01T00:00:00Z" = Some ref ∧
    let s := MkSettings (300 * Second) true (Some ref) in
    ((1704067200000000000%Z + nextDelay None tenth s 1704067200000000000%Z - ref) mod (300 * Second) ≠ 0)%Z.
Proof. eexists. split; [vm_compute; reflexivity|]. vm_compute. done. Qed.

Definition ex_registration : Registration :=
  MkRegistration "cpe-1" (ex_informs "300" "1" "2024-01-01T00:00:00Z") ex_paths true tenth.
Definition ex_registered : Scheduler := MkScheduler {["cpe-1" := new_entry ex_registration false]} false false 1704067201000000000%Z.
Definition ex_started : Scheduler := MkScheduler {["cpe-1" := new_entry ex_registration true]} true false 1704067201000000000%Z.
Definition ex_entry : cpeEntry := armEntry (λ _, 0%Z) 1704067201000000000%Z (new_entry ex_registration true).
Definition ex_running : Scheduler := MkScheduler (<["cpe-1" := ex_entry]> (cpes ex_started)) true false 1704067201000000000%Z.
Lemma ex_running_reachable : reachable ex_running.
Proof.
  eapply reach_step; [eapply reach_step; [eapply reach_step; [apply (reach_init 1704067201000000000%Z)|]|]|].
  - apply (st_schedule ex_registration _ ex_registered); [reflexivity|]. vm_compute. reflexivity.
  - apply (st_start _ ex_started). vm_compute. reflexivity.
  - apply (st_entry ex_started "cpe-1" (new_entry ex_registration true) ex_entry); [reflexivity|].
    apply (es_arm ex_started); [reflexivity|]. intros n Hn. lia.
Qed.

Lemma never_silent_witness :
  at_ ex_entry = Waiting ∧ etimer (elapse (1704067201000000000%Z + longest ex_entry)%Z ex_entry) = Some Queued.
Proof.
  assert (at_ ex_entry = Waiting) as Ha by (vm_compute; reflexivity). split; [exact Ha|].
  pose proof (never_silent ex_running "cpe-1" ex_entry ex_running_reachable (lookup_insert_eq _ _ _)) as [_ H].
  destruct (H Ha) as [H1 _]. assert (enabled (current ex_entry) = true) as E by (vm_compute; reflexivity).
  rewrite E in H1. apply H1. apply Z.le_refl.
Defined.

Lemma once_at_most_witness :
  ∃ o1 o2, once_trace 1704067201000000000%Z (MkOnce 1704067202000000000%Z false OWaiting 0) 1704067203000000000%Z o1 ∧
    cancelClosed o1 = true ∧ runs o1 = 0%nat ∧ once_trace 1704067203000000000%Z o1 1704067203000000000%Z o2 ∧ runs o2 = 0%nat.
Proof.
  pose (o1 := cancel (once_fire (MkOnce 1704067202000000000%Z false OWaiting 0))).
  assert (once_trace 1704067201000000000%Z (MkOnce 1704067202000000000%Z false OWaiting 0) 1704067203000000000%Z o1) as H1.
  { apply (ot_step _ 1704067203000000000%Z _ false _ (once_fire (MkOnce 1704067202000000000%Z false OWaiting 0)));
      [lia|apply os_fire; [reflexivity|cbn; lia]|].
    apply (ot_step _ 1704067203000000000%Z _ false _ o1); [apply Z.le_refl|apply os_cancel|apply ot_here]. }
  assert (once_trace 1704067203000000000%Z o1 1704067203000000000%Z (once_check o1)) as H2.
  { apply (ot_step _ 1704067203000000000%Z _ false _ (once_check o1)); [apply Z.le_refl|by apply os_check|apply ot_here]. }
  exists o1, (once_check o1). split_and!; [exact H1|reflexivity|reflexivity|exact H2|].
  exact (proj2 (proj2 (once_at_most ex_running 1000000000%Z _ _ _ _ _ eq_refl H1 H2)) eq_refl eq_refl).
Defined.
