(* ===== verification/Generators.v ===== *)
(** * Value generators ([internal/generators]: [counter.go], [drift.go],
    [enum.go], [timestamp.go], [FromConfig] of [config.go]; [validateGenerator]
    of [internal/paramtree/profile.go]).

    A generator reads its leaf, computes the next value and writes it. The
    random source and the clock are arguments of a tick. *)
From Stdlib Require Import ZArith Lia Ascii String SpecFloat.
From S2P Require Import Prelude GoLib GoText GoFloat CpeErr Types Node Tree TreeProps.

(** ** The random source *)

(** [rng.Int63n(n)], which panics on [n <= 0]; [rng.Intn(n)] likewise. *)
Definition Int63n (draw : Z → Z) (n : Z) : option Z := if (0 <? n)%Z then Some (draw n) else None.
Definition draws (draw : Z → Z) : Prop := ∀ n, (0 < n)%Z → (0 ≤ draw n < n)%Z.

(** ** Configurations *)

Record CounterConfig := MkCounter { cPath : string; cMin : Z; cMax : Z; cStep : Z; cJitter : spec_float }.
Record DriftConfig := MkDrift { dPath : string; dMin : Z; dMax : Z; dStepMax : Z }.
Record EnumConfig := MkEnum { ePath : string; eValues : list string; eMode : string }.
Inductive TimestampKind := TimestampUptime | TimestampWallclock.
Record TimestampConfig := MkTimestamp { tPath : string; tKind : TimestampKind }.

(** [idx] is the cycle's position; [start] the instant a timestamp generator
    was built, in nanoseconds. *)
Inductive Generator :=
| counterGen (cfg : CounterConfig)
| driftGen (cfg : DriftConfig)
| enumGen (cfg : EnumConfig) (idx : nat)
| timestampGen (cfg : TimestampConfig) (start : Z).
Definition Path (g : Generator) : string :=
  match g with
  | counterGen c => cPath c | driftGen c => dPath c | enumGen c _ => ePath c | timestampGen c _ => tPath c
  end.

Definition bbfUint32Max : Z := 4294967295.
Definition float_zero : spec_float := S754_zero false.
(** [Jitter < 0 || Jitter > 1], its negation. *)
Definition jitter_ok (j : spec_float) : bool := in_unit j.

Definition NewCounter (cfg : CounterConfig) : result error Generator :=
  if String.eqb (cPath cfg) "" then Err (errorf "generators.NewCounter: Path is required" [])
  else if (cStep cfg =? 0)%Z then Err (errorf "generators.NewCounter: Step must be > 0" [])
  else if (cMax cfg <=? cMin cfg)%Z
  then Err (errorf "generators.NewCounter: Min (%d) must be < Max (%d)" [Strconv.Itoa (cMin cfg); Strconv.Itoa (cMax cfg)])
  else if (bbfUint32Max <? cMax cfg)%Z
  then Err (errorf "generators.NewCounter: Max %d exceeds xsd:unsignedInt ceiling %d" [Strconv.Itoa (cMax cfg); Strconv.Itoa bbfUint32Max])
  else if negb (jitter_ok (cJitter cfg)) then Err (errorf "generators.NewCounter: Jitter must be in [0.0, 1.0], got %g" [])
  else Ok (counterGen cfg).
Definition NewDrift (cfg : DriftConfig) : result error Generator :=
  if String.eqb (dPath cfg) "" then Err (errorf "generators.NewDrift: Path is required" [])
  else if (dMax cfg <=? dMin cfg)%Z
  then Err (errorf "generators.NewDrift: Min (%d) must be < Max (%d)" [Strconv.Itoa (dMin cfg); Strconv.Itoa (dMax cfg)])
  else if (dStepMax cfg <=? 0)%Z then Err (errorf "generators.NewDrift: StepMax must be > 0, got %d" [Strconv.Itoa (dStepMax cfg)])
  else Ok (driftGen cfg).
Definition NewEnum (cfg : EnumConfig) : result error Generator :=
  if String.eqb (ePath cfg) "" then Err (errorf "generators.NewEnum: Path is required" [])
  else match eValues cfg with
       | [] => Err (errorf "generators.NewEnum: Values must be non-empty" [])
       | _ =>
           let mode := if String.eqb (eMode cfg) "" then "cycle" else eMode cfg in
           if negb (String.eqb mode "cycle") && negb (String.eqb mode "random")
           then Err (errorf "generators.NewEnum: Mode %q invalid (want cycle|random)" [mode])
           else Ok (enumGen (MkEnum (ePath cfg) (eValues cfg) mode) 0)
       end.
Definition NewTimestamp (cfg : TimestampConfig) (now : Z) : result error Generator :=
  if String.eqb (tPath cfg) "" then Err (errorf "generators.NewTimestamp: Path is required" []) else Ok (timestampGen cfg now).

(** ** Ticks *)

(** The state the counter advances from. *)
Definition counter_state (cfg : CounterConfig) (state : Z) : Z :=
  if (state <? cMin cfg)%Z || (cMax cfg <? state)%Z then cMin cfg else state.
Definition counter_span (cfg : CounterConfig) : Z := float64_uint64 (SFmul 53 1024 (float64 (cStep cfg)) (cJitter cfg)).
(** The increment; [None] is a panic of the random source. *)
Definition counter_inc (draw : Z → Z) (cfg : CounterConfig) : option Z :=
  if SFltb float_zero (cJitter cfg) then
    let span := counter_span cfg in
    if (0 <? span)%Z then
      d ← Int63n draw (i64 (i64 (2 * span) + 1));
      Some (u64 (cStep cfg + u64 (d - span)))
    else Some (cStep cfg)
  else Some (cStep cfg).
Definition counter_next (cfg : CounterConfig) (state inc : Z) : Z :=
  let next := u64 (state + inc) in
  if (cMax cfg <? next)%Z then
    let over := u64 (next - cMax cfg - 1) in
    u64 (cMin cfg + over mod (u64 (cMax cfg - cMin cfg + 1)))
  else next.

Definition drift_state (cfg : DriftConfig) (raw : string) : Z :=
  let state := match Strconv.ParseInt raw 64 with Ok z => z | Err _ => Z.quot (i64 (dMin cfg + dMax cfg)) 2 end in
  if (state <? dMin cfg)%Z then dMin cfg else if (dMax cfg <? state)%Z then dMax cfg else state.
Definition drift_next (draw : Z → Z) (cfg : DriftConfig) (state : Z) : option Z :=
  d ← Int63n draw (i64 (i64 (2 * dStepMax cfg) + 1));
  let next := i64 (state + i64 (d - dStepMax cfg)) in
  Some (if (next <? dMin cfg)%Z then dMin cfg else if (dMax cfg <? next)%Z then dMax cfg else next).

Definition enum_next (draw : Z → Z) (cfg : EnumConfig) (idx : nat) : option (string * nat) :=
  if String.eqb (eMode cfg) "random" then
    d ← Int63n draw (Z.of_nat (length (eValues cfg))); Some (nth (Z.to_nat d) (eValues cfg) "", idx)
  else Some (nth idx (eValues cfg) "", ((idx + 1) mod length (eValues cfg))%nat).

(** [d.Seconds()]: the whole seconds and the rest, added as floats. *)
Definition Seconds (d : Z) : spec_float :=
  SFadd 53 1024 (float64 (Z.quot d 1000000000)) (SFdiv 53 1024 (float64 (Z.rem d 1000000000)) (float64 1000000000)).
(** [uint64(time.Since(start).Seconds())], and the UTC clock to the second. *)
Definition timestamp_raw (kind : TimestampKind) (start now : Z) : string :=
  match kind with
  | TimestampUptime => Strconv.Itoa (float64_uint64 (Seconds (now - start)))
  | TimestampWallclock => Time.Format_RFC3339 (now / 1000000000)
  end.

(** A tick: the tree, what observers see, the generator after, the raw value
    written. [None] is a panic. *)
Definition ticked : Type := Tree * list Change * Generator * result error string.
Definition write_raw (t : Tree) (g : Generator) (raw : string) : ticked :=
  match SetSystem t (Path g) raw with
  | (t', cs, Err e) => (t', cs, g, Err e)
  | (t', cs, Ok _) => (t', cs, g, Ok raw)
  end.
Definition Tick (draw : Z → Z) (now : Z) (t : Tree) (g : Generator) : option ticked :=
  match Get t (Path g) with
  | Err e => Some (t, [], g, Err e)
  | Ok cur =>
      match g with
      | counterGen cfg =>
          match Strconv.ParseUint (Raw cur) 64 with
          | Err _ => Some (t, [], g, Err (errorf "parse current value %q: %w" [Raw cur]))
          | Ok state =>
              inc ← counter_inc draw cfg;
              Some (write_raw t g (Strconv.Itoa (counter_next cfg (counter_state cfg state) inc)))
          end
      | driftGen cfg =>
          next ← drift_next draw cfg (drift_state cfg (Raw cur)); Some (write_raw t g (Strconv.Itoa next))
      | enumGen cfg idx =>
          '(next, idx') ← enum_next draw cfg idx; Some (write_raw t (enumGen cfg idx') next)
      | timestampGen cfg start => Some (write_raw t g (timestamp_raw (tKind cfg) start now))
      end
  end.

(** ** A counter *)

(** A valid value is written, to that leaf alone. *)
Lemma write_raw_ok t g raw v : Get t (Path g) = Ok v → valid_raw (vType v) raw = true →
  ∃ t' cs p, write_raw t g raw = (t', cs, g, Ok raw) ∧ parsePath (Path g) = Ok p ∧
    ∀ q, view t' q = spec_update p (with_raw raw v) (view t) q.
Proof. intros Hg Hr. destruct (SetSystem_writes t _ raw v Hg Hr) as (t'&cs&p&E&?&?). exists t', cs, p. unfold write_raw. by rewrite E. Qed.

Lemma counter_next_band cfg state inc :
  (0 ≤ cMin cfg < cMax cfg)%Z → (cMax cfg < 2 ^ 32)%Z → (cMin cfg ≤ state ≤ cMax cfg)%Z → (0 ≤ inc < 2 ^ 60)%Z →
  (counter_next cfg state inc = cMin cfg + (state + inc - cMin cfg) mod (cMax cfg - cMin cfg + 1) ∧
   cMin cfg ≤ counter_next cfg state inc ≤ cMax cfg)%Z.
Proof.
  intros Hm Hx Hs Hi. unfold counter_next. rewrite (u64_small (state + inc)), (u64_small (cMax cfg - cMin cfg + 1)) by lia.
  set (w := (cMax cfg - cMin cfg + 1)%Z). pose proof (Z.mod_pos_bound (state + inc - cMin cfg) w ltac:(lia)) as Hb.
  destruct (Z.ltb_spec (cMax cfg) (state + inc)).
  - rewrite (u64_small (state + inc - _ - _)) by lia.
    assert ((state + inc - cMax cfg - 1) mod w = (state + inc - cMin cfg) mod w)%Z as ->.
    { replace (state + inc - cMin cfg)%Z with (state + inc - cMax cfg - 1 + 1 * w)%Z by lia. by rewrite Z.mod_add by lia. }
    rewrite u64_small by lia. lia.
  - rewrite Z.mod_small by lia. lia.
Qed.

Lemma counter_inc_span draw cfg : (0 < cStep cfg < 2 ^ 53)%Z → valid_binary 53 1024 (cJitter cfg) = true →
  jitter_ok (cJitter cfg) = true → draws draw →
  ∃ inc, counter_inc draw cfg = Some inc ∧ (0 ≤ inc ≤ 2 * cStep cfg)%Z ∧
    (Z.abs (inc - cStep cfg) ≤ if SFltb float_zero (cJitter cfg) then counter_span cfg else 0)%Z.
Proof.
  intros Hs Hv Hj Hd. unfold counter_inc. destruct (SFltb _ _) eqn:Hpos; [|exists (cStep cfg); split; [done|lia]].
  pose proof (fraction_le (cStep cfg) (cJitter cfg) Hs Hv Hj Hpos) as Hspan. fold (counter_span cfg) in Hspan.
  destruct (Z.ltb_spec 0 (counter_span cfg)); [|exists (cStep cfg); split; [done|lia]].
  rewrite (i64_small (2 * _)), i64_small by lia. unfold Int63n. destruct (Z.ltb_spec 0 (2 * counter_span cfg + 1)); [|lia].
  specialize (Hd (2 * counter_span cfg + 1)%Z ltac:(lia)). cbn. eexists. split; [done|].
  set (d := draw (2 * counter_span cfg + 1)%Z) in *.
  assert (u64 (cStep cfg + u64 (d - counter_span cfg)) = cStep cfg + (d - counter_span cfg))%Z as ->; [|lia].
  unfold u64. rewrite Z.add_mod_idemp_r by lia. apply Z.mod_small. lia.
Qed.

Lemma NewCounter_ok cfg g : NewCounter cfg = Ok g →
  g = counterGen cfg ∧ (cMin cfg < cMax cfg ≤ bbfUint32Max)%Z ∧ cStep cfg ≠ 0%Z ∧ jitter_ok (cJitter cfg) = true.
Proof.
  unfold NewCounter. destruct (String.eqb (cPath cfg) ""); [done|]. destruct (Z.eqb_spec (cStep cfg) 0); [done|].
  destruct (Z.leb_spec (cMax cfg) (cMin cfg)); [done|]. destruct (Z.ltb_spec bbfUint32Max (cMax cfg)); [done|].
  destruct (jitter_ok _) eqn:Hj; [|done]. intros E. injection E as <-. split_and!; [done|lia|lia|done|done].
Qed.

(** A counter with a step below [2^53] always ticks: it moves on by its
    step, give or take the jitter, and comes round within its band. Whatever
    the leaf held before, it then holds that number, and nothing else changed. *)
Theorem counter_ticks (draw : Z → Z) (now : Z) (t : Tree) (cfg : CounterConfig) (g : Generator) (v : Value) (state : Z)
  (Hg : NewCounter cfg = Ok g) (Hmin : (0 ≤ cMin cfg)%Z) (Hstep : (0 < cStep cfg < 2 ^ 53)%Z)
  (Hj : valid_binary 53 1024 (cJitter cfg) = true) (Hd : draws draw)
  (Hv : Get t (cPath cfg) = Ok v) (Ht : vType v = TypeUnsignedInt) (Hraw : Strconv.ParseUint (Raw v) 64 = Ok state) :
  ∃ inc t' cs p, let from := if (state <? cMin cfg)%Z || (cMax cfg <? state)%Z then cMin cfg else state in
    let n := (cMin cfg + (from + inc - cMin cfg) mod (cMax cfg - cMin cfg + 1))%Z in
    Tick draw now t g = Some (t', cs, g, Ok (Strconv.Itoa n)) ∧ (cMin cfg ≤ n ≤ cMax cfg)%Z ∧
    (0 ≤ inc ≤ 2 * cStep cfg)%Z ∧
    (Z.abs (inc - cStep cfg) ≤ if SFltb float_zero (cJitter cfg) then counter_span cfg else 0)%Z ∧
    parsePath (cPath cfg) = Ok p ∧ ∀ q, view t' q = spec_update p (with_raw (Strconv.Itoa n) v) (view t) q.
Proof.
  destruct (NewCounter_ok cfg g Hg) as (->&Hm&_&Hjo). unfold bbfUint32Max in Hm.
  destruct (counter_inc_span draw cfg Hstep Hj Hjo Hd) as (inc&Ei&Hi&Hspan).
  cbv zeta. fold (counter_state cfg state).
  assert (cMin cfg ≤ counter_state cfg state ≤ cMax cfg)%Z as Hst.
  { unfold counter_state. destruct (Z.ltb_spec state (cMin cfg)); cbn; [lia|]. destruct (Z.ltb_spec (cMax cfg) state); lia. }
  destruct (counter_next_band cfg (counter_state cfg state) inc ltac:(lia) ltac:(lia) Hst ltac:(lia)) as [En Hn].
  assert (valid_raw (vType v) (Strconv.Itoa (counter_next cfg (counter_state cfg state) inc)) = true) as Hval.
  { rewrite Ht. apply valid_uint_range. eexists. split; [apply Strconv.ParseUint_Itoa; lia|lia]. }
  destruct (write_raw_ok t (counterGen cfg) _ v Hv Hval) as (t'&cs&p&Ew&Hp&Hq).
  rewrite En in Ew, Hn, Hq. exists inc, t', cs, p. split_and!; try done; try lia.
  unfold Tick. cbn [Path] in *. rewrite Hv, Hraw, Ei. cbn. by rewrite En, Ew.
Qed.

(** ** A gauge, a list of values *)

Lemma drift_next_band draw cfg raw : (dMin cfg < dMax cfg)%Z → (- 2 ^ 31 ≤ dMin cfg)%Z → (dMax cfg < 2 ^ 31)%Z →
  (0 < dStepMax cfg < 2 ^ 62)%Z → draws draw →
  ∃ n, drift_next draw cfg (drift_state cfg raw) = Some n ∧ (dMin cfg ≤ n ≤ dMax cfg)%Z ∧
    (dMin cfg ≤ drift_state cfg raw ≤ dMax cfg)%Z ∧ (Z.abs (n - drift_state cfg raw) ≤ dStepMax cfg)%Z.
Proof.
  intros Hm Hl Hh Hs Hd. assert (dMin cfg ≤ drift_state cfg raw ≤ dMax cfg)%Z as Hst.
  { unfold drift_state. cbv zeta. set (s := match Strconv.ParseInt raw 64 with Ok z => z | Err _ => _ end).
    destruct (Z.ltb_spec s (dMin cfg)); [lia|]. destruct (Z.ltb_spec (dMax cfg) s); lia. }
  unfold drift_next, Int63n. rewrite (i64_small (2 * _)), i64_small by lia.
  destruct (Z.ltb_spec 0 (2 * dStepMax cfg + 1)); [|lia]. specialize (Hd (2 * dStepMax cfg + 1)%Z ltac:(lia)). cbn.
  set (d := draw _) in *. rewrite (i64_small (d - _)), i64_small by lia. eexists. split; [done|].
  destruct (Z.ltb_spec (drift_state cfg raw + (d - dStepMax cfg)) (dMin cfg)); [lia|].
  destruct (Z.ltb_spec (dMax cfg) (drift_state cfg raw + (d - dStepMax cfg))); lia.
Qed.

Lemma enum_next_in draw cfg idx : eValues cfg ≠ [] → (idx < length (eValues cfg))%nat → draws draw →
  ∃ x idx', enum_next draw cfg idx = Some (x, idx') ∧ x ∈ eValues cfg ∧ (idx' < length (eValues cfg))%nat.
Proof.
  intros Hne Hi Hd. assert (0 < length (eValues cfg))%nat as Hl by lia. unfold enum_next, Int63n. destruct (String.eqb _ _).
  - destruct (Z.ltb_spec 0 (Z.of_nat (length (eValues cfg)))); [|lia]. specialize (Hd (Z.of_nat (length (eValues cfg))) ltac:(lia)).
    cbn. eexists _, _. split; [done|]. split; [|done]. apply list_elem_of_In, nth_In. lia.
  - eexists _, _. split; [done|]. split; [by apply list_elem_of_In, nth_In|]. apply Nat.mod_upper_bound. lia.
Qed.

(** ** What a profile may ask for *)

Record CounterParams := MkCounterParams { cpMin : Z; cpMax : Z; cpStep : Z; cpJitter : spec_float }.
Record DriftParams := MkDriftParams { dpMin : Z; dpMax : Z; dpStepMax : Z }.
Record EnumParams := MkEnumParams { epValues : list string; epMode : string }.
Record GeneratorConfig := MkGeneratorConfig {
  gPath : string; gType : string; gInterval : Z;
  gCounter : option CounterParams; gDrift : option DriftParams; gEnum : option EnumParams
}.
Record rawGenerator := MkRaw {
  rPath : string; rType : string; rInterval : string; rMin : option Z; rMax : option Z; rStep : option Z;
  rJitter : option spec_float; rStepMax : option Z; rValues : list string; rMode : string
}.

Definition FromConfig (now : Z) (cfg : GeneratorConfig) : result error Generator :=
  if String.eqb (gType cfg) "counter" then
    match gCounter cfg with
    | None => Err (errorf "generator %q: counter block missing" [gPath cfg])
    | Some c => NewCounter (MkCounter (gPath cfg) (cpMin c) (cpMax c) (cpStep c) (cpJitter c))
    end
  else if String.eqb (gType cfg) "drift" then
    match gDrift cfg with
    | None => Err (errorf "generator %q: drift block missing" [gPath cfg])
    | Some d => NewDrift (MkDrift (gPath cfg) (dpMin d) (dpMax d) (dpStepMax d))
    end
  else if String.eqb (gType cfg) "enum" then
    match gEnum cfg with
    | None => Err (errorf "generator %q: enum block missing" [gPath cfg])
    | Some e => NewEnum (MkEnum (gPath cfg) (epValues e) (epMode e))
    end
  else if String.eqb (gType cfg) "uptime" then NewTimestamp (MkTimestamp (gPath cfg) TimestampUptime) now
  else if String.eqb (gType cfg) "wallclock" then NewTimestamp (MkTimestamp (gPath cfg) TimestampWallclock) now
  else Err (errorf "generator %q: type %q unsupported" [gPath cfg; gType cfg]).

Section validate.
(** [time.ParseDuration], an error being [None]. *)
Context (ParseDuration : string → option Z).

Definition validate_counter (source : string) (raw : rawGenerator) (leaf : Value) : result error CounterParams :=
  if negb (String.eqb (vType leaf) TypeUnsignedInt) then Err (errorf "%s: counter target must be %s, got %s" [source])
  else match rMin raw, rMax raw, rStep raw with
       | Some mn, Some mx, Some st =>
           if (mn <? 0)%Z then Err (errorf "%s: counter min must be >= 0, got %d" [source])
           else if (mx <? 0)%Z then Err (errorf "%s: counter max must be >= 0, got %d" [source])
           else
             let cp := MkCounterParams mn mx st (default float_zero (rJitter raw)) in
             if (cpStep cp =? 0)%Z then Err (errorf "%s: counter step must be > 0" [source])
             else if (cpMax cp <=? cpMin cp)%Z then Err (errorf "%s: counter min (%d) must be < max (%d)" [source])
             else if (bbfUint32Max <? cpMax cp)%Z
             then Err (errorf "%s: counter max %d exceeds xsd:unsignedInt ceiling %d" [source])
             else if negb (jitter_ok (cpJitter cp)) then Err (errorf "%s: counter jitter must be in [0.0, 1.0], got %g" [source])
             else Ok cp
       | _, _, _ => Err (errorf "%s: counter requires min, max, step" [source])
       end.
Definition validate_drift (source : string) (raw : rawGenerator) (leaf : Value) : result error DriftParams :=
  if negb (String.eqb (vType leaf) TypeInt) then Err (errorf "%s: drift target must be %s (signed gauge), got %s" [source])
  else match rMin raw, rMax raw, rStepMax raw with
       | Some mn, Some mx, Some st =>
           if (mx <=? mn)%Z then Err (errorf "%s: drift min (%d) must be < max (%d)" [source])
           else if (st <=? 0)%Z then Err (errorf "%s: drift stepMax must be > 0, got %d" [source])
           else Ok (MkDriftParams mn mx st)
       | _, _, _ => Err (errorf "%s: drift requires min, max, stepMax" [source])
       end.
Definition validate_enum (source : string) (raw : rawGenerator) (leaf : Value) : result error EnumParams :=
  if negb (String.eqb (vType leaf) TypeString) && negb (String.eqb (vType leaf) TypeBoolean)
  then Err (errorf "%s: enum target must be %s or %s, got %s" [source])
  else match rValues raw with
       | [] => Err (errorf "%s: enum requires non-empty values list" [source])
       | values =>
           if negb (forallb (valid_raw (vType leaf)) values) then Err (errorf "%s: enum value %q does not match target type %s: %w" [source])
           else
             let mode := if String.eqb (rMode raw) "" then "cycle" else rMode raw in
             if negb (String.eqb mode "cycle") && negb (String.eqb mode "random")
             then Err (errorf "%s: enum mode %q invalid (want cycle|random)" [source; mode])
             else Ok (MkEnumParams values mode)
       end.
Definition validateGenerator (t : Tree) (source : string) (raw : rawGenerator) : result error GeneratorConfig :=
  if String.eqb (rPath raw) "" then Err (errorf "%s: path is required" [source])
  else
    leaf ← map_err (λ e, Errorf "%s: references unknown path: %w" [source] (Some e)) (Get t (rPath raw));
    if String.eqb (rInterval raw) "" then Err (errorf "%s: interval is required" [source])
    else
      interval ← from_option_err (errorf "%s: interval %q: %w" [source; rInterval raw]) (ParseDuration (rInterval raw));
      if (interval <=? 0)%Z then Err (errorf "%s: interval must be > 0, got %s" [source])
      else
        let gen := MkGeneratorConfig (rPath raw) (rType raw) interval in
        if String.eqb (rType raw) "counter" then c ← validate_counter source raw leaf; Ok (gen (Some c) None None)
        else if String.eqb (rType raw) "drift" then d ← validate_drift source raw leaf; Ok (gen None (Some d) None)
        else if String.eqb (rType raw) "enum" then e ← validate_enum source raw leaf; Ok (gen None None (Some e))
        else if String.eqb (rType raw) "uptime" then
          if String.eqb (vType leaf) TypeUnsignedInt then Ok (gen None None None)
          else Err (errorf "%s: uptime target must be %s, got %s" [source])
        else if String.eqb (rType raw) "wallclock" then
          if String.eqb (vType leaf) TypeDateTime then Ok (gen None None None)
          else Err (errorf "%s: wallclock target must be %s, got %s" [source])
        else Err (errorf "%s: type %q unsupported (want counter|drift|enum|uptime|wallclock)" [source; rType raw]).
End validate.

(** ** A validated generator keeps ticking *)

(** What a generator's leaf must be, and the bounds within which its arithmetic
    does not wrap: validation leaves the steps of counters and gauges and the
    band of a gauge open. *)
Definition fits (g : Generator) (typ : Type_) : Prop :=
  match g with
  | counterGen cfg => typ = TypeUnsignedInt ∧ NewCounter cfg = Ok g ∧ (0 ≤ cMin cfg)%Z
  | driftGen cfg => typ = TypeInt ∧ (dMin cfg < dMax cfg)%Z ∧ (0 < dStepMax cfg)%Z
  | enumGen cfg idx => Forall (λ x, valid_raw typ x = true) (eValues cfg) ∧ (idx < length (eValues cfg))%nat
  | timestampGen cfg _ => typ = match tKind cfg with TimestampUptime => TypeUnsignedInt | TimestampWallclock => TypeDateTime end
  end.
Definition moderate (g : Generator) : Prop :=
  match g with
  | counterGen cfg => (0 < cStep cfg < 2 ^ 53)%Z ∧ valid_binary 53 1024 (cJitter cfg) = true
  | driftGen cfg => (- 2 ^ 31 ≤ dMin cfg)%Z ∧ (dMax cfg < 2 ^ 31)%Z ∧ (dStepMax cfg < 2 ^ 62)%Z
  | _ => True
  end.
Definition ready (t : Tree) (g : Generator) : Prop :=
  ∃ v, Get t (Path g) = Ok v ∧ wf_value v ∧ fits g (vType v).

(** The configuration a raw entry asks for, its generator once built. *)
Lemma validated_fits ParseDuration t source raw cfg now v :
  validateGenerator ParseDuration t source raw = Ok cfg → Get t (rPath raw) = Ok v →
  ∃ g, FromConfig now cfg = Ok g ∧ Path g = rPath raw ∧ fits g (vType v).
Proof.
  unfold validateGenerator. destruct (String.eqb (rPath raw) "") eqn:Hp; [done|]. intros E Hv. rewrite Hv in E. cbn in E.
  destruct (String.eqb (rInterval raw) ""); [done|]. destruct (ParseDuration _) as [i|]; [cbn in E|done].
  destruct (i <=? 0)%Z; [done|]. unfold FromConfig.
  destruct (String.eqb (rType raw) "counter") eqn:T1; [|destruct (String.eqb (rType raw) "drift") eqn:T2;
    [|destruct (String.eqb (rType raw) "enum") eqn:T3; [|destruct (String.eqb (rType raw) "uptime") eqn:T4;
    [|destruct (String.eqb (rType raw) "wallclock") eqn:T5; [|done]]]]].
  - unfold validate_counter in E. destruct (String.eqb_spec (vType v) TypeUnsignedInt) as [Ht|]; [|done]. cbn in E.
    destruct (rMin raw) as [mn|]; [|done]. destruct (rMax raw) as [mx|]; [|done]. destruct (rStep raw) as [st|]; [|done].
    destruct (Z.ltb_spec mn 0); [done|]. destruct (Z.ltb_spec mx 0); [done|]. cbn in E.
    destruct (st =? 0)%Z eqn:Es; [done|]. destruct (mx <=? mn)%Z eqn:Em; [done|].
    destruct (bbfUint32Max <? mx)%Z eqn:Ex; [done|]. destruct (jitter_ok _) eqn:Ej; [|done]. injection E as <-. cbn [gType gCounter]. rewrite T1.
    cbn [cpMin cpMax cpStep cpJitter]. unfold NewCounter. cbn. rewrite Hp, Es, Em, Ex, Ej. cbn.
    eexists. split; [done|]. split; [done|]. split_and!; [done| |done]. unfold NewCounter. cbn. by rewrite Hp, Es, Em, Ex, Ej.
  - unfold validate_drift in E. destruct (String.eqb_spec (vType v) TypeInt) as [Ht|]; [|done]. cbn in E.
    destruct (rMin raw) as [mn|]; [|done]. destruct (rMax raw) as [mx|]; [|done]. destruct (rStepMax raw) as [st|]; [|done].
    destruct (Z.leb_spec mx mn) as [|Hm]; [done|]. destruct (Z.leb_spec st 0) as [|Hs]; [done|].
    injection E as <-. cbn [gType gDrift]. rewrite T1, T2.
    unfold NewDrift. cbn. rewrite Hp. destruct (Z.leb_spec mx mn); [lia|]. destruct (Z.leb_spec st 0); [lia|].
    eexists. by split_and!.
  - unfold validate_enum in E. destruct (negb _ && negb _); [done|]. destruct (rValues raw) as [|x xs] eqn:Ev; [done|].
    destruct (forallb _ _) eqn:Hall; [|done]. cbn [negb] in E.
    set (mode := if String.eqb (rMode raw) "" then "cycle" else rMode raw) in E.
    destruct (negb (String.eqb mode "cycle") && negb (String.eqb mode "random")) eqn:Hmode; [done|].
    injection E as <-. cbn [gType gEnum]. rewrite T1, T2, T3. unfold NewEnum. cbn [ePath eValues eMode epValues epMode]. cbn [gPath]. rewrite Hp.
    assert ((if String.eqb mode "" then "cycle" else mode) = mode) as ->.
    { unfold mode. destruct (String.eqb (rMode raw) "") eqn:Hm; [done|]. by rewrite Hm. }
    rewrite Hmode. eexists. split; [done|]. split; [done|]. split; [|cbn; lia]. apply Forall_forall. intros y Hy.
    rewrite forallb_forall in Hall. apply Hall. by apply list_elem_of_In.
  - destruct (String.eqb_spec (vType v) TypeUnsignedInt); [|done]. injection E as <-. cbn [gType]. rewrite T1, T2, T3, T4.
    unfold NewTimestamp. cbn. rewrite Hp. eexists. by split_and!.
  - destruct (String.eqb_spec (vType v) TypeDateTime); [|done]. injection E as <-. cbn [gType]. rewrite T1, T2, T3, T4, T5.
    unfold NewTimestamp. cbn. rewrite Hp. eexists. by split_and!.
Qed.

(** The raw values a tick may write. *)
Definition in_range (g : Generator) (raw : string) : Prop :=
  match g with
  | counterGen cfg => ∃ n, raw = Strconv.Itoa n ∧ (cMin cfg ≤ n ≤ cMax cfg)%Z
  | driftGen cfg => ∃ n, raw = Strconv.Itoa n ∧ (dMin cfg ≤ n ≤ dMax cfg)%Z
  | enumGen cfg _ => raw ∈ eValues cfg
  | timestampGen _ _ => True
  end.
(** Time has not run past what a timestamp's leaf can hold. *)
Definition clock_fits (now : Z) (g : Generator) (typ : Type_) : Prop :=
  match g with timestampGen cfg start => valid_raw typ (timestamp_raw (tKind cfg) start now) = true | _ => True end.

Lemma tick_raw draw now t g v : Get t (Path g) = Ok v → wf_value v → fits g (vType v) → moderate g → draws draw →
  clock_fits now g (vType v) →
  ∃ g' raw, Tick draw now t g = Some (write_raw t g' raw) ∧ Path g' = Path g ∧ fits g' (vType v) ∧ moderate g' ∧
    valid_raw (vType v) raw = true ∧ in_range g raw.
Proof.
  intros Hv Hwf Hf Hm Hd Hc. unfold Tick. rewrite Hv. destruct g as [cfg|cfg|cfg idx|cfg start]; cbn [fits moderate in_range Path] in *.
  - destruct Hf as (Ht&Hn&Hmin). destruct Hm as [Hs Hj]. destruct (NewCounter_ok _ _ Hn) as (_&Hmm&_&Hjo). unfold bbfUint32Max in Hmm.
    unfold wf_value in Hwf. rewrite Ht in Hwf. apply valid_uint_range in Hwf as (state&Hp&_).
    rewrite (Strconv.ParseUint_wider _ 32 64 state ltac:(lia) Hp).
    destruct (counter_inc_span draw cfg Hs Hj Hjo Hd) as (inc&->&Hi&_). cbn.
    assert (cMin cfg ≤ counter_state cfg state ≤ cMax cfg)%Z as Hst.
    { unfold counter_state. destruct (Z.ltb_spec state (cMin cfg)); cbn; [lia|]. destruct (Z.ltb_spec (cMax cfg) state); lia. }
    destruct (counter_next_band cfg (counter_state cfg state) inc ltac:(lia) ltac:(lia) Hst ltac:(lia)) as [_ Hb].
    eexists (counterGen cfg), _. split_and!; [done..| |by eexists]. rewrite Ht. apply valid_uint_range. eexists.
    split; [apply Strconv.ParseUint_Itoa; lia|lia].
  - destruct Hf as (Ht&Hmm&Hs). destruct Hm as (Hl&Hh&Hs2).
    destruct (drift_next_band draw cfg (Raw v) Hmm Hl Hh ltac:(lia) Hd) as (n&->&Hn&_). cbn.
    eexists (driftGen cfg), _. split_and!; [done..| |by eexists]. rewrite Ht. apply valid_int_range. exists n. split; [|lia].
    destruct (Z.lt_ge_cases n 0); [apply Strconv.ParseInt_Itoa_neg; lia|apply Strconv.ParseInt_Itoa; lia].
  - destruct Hf as [Hall Hi]. assert (eValues cfg ≠ []) as Hne by (intros E; rewrite E in Hi; cbn in Hi; lia).
    destruct (enum_next_in draw cfg idx Hne Hi Hd) as (x&idx'&->&Hx&Hi'). cbn.
    eexists (enumGen cfg idx'), x. split_and!; try done. rewrite Forall_forall in Hall. by apply Hall.
  - eexists (timestampGen cfg start), _. by split_and!.
Qed.

(** C14. A generator the loader accepts can be built and finds its leaf ready.
    From then on, as long as its numbers are moderate (a counter's step below
    [2^53] and its jitter finite; a gauge's band within 32 bits and its step
    below [2^62]) and the instant of the tick fits the leaf of a timestamp,
    every tick succeeds, whatever is drawn: it writes a value of its range to
    its leaf, which the leaf's type accepts, changes nothing else, and leaves
    the leaf ready for the next tick. The loader accepts immoderate numbers
    too; see the last section. *)
Theorem validated_ticks (ParseDuration : string → option Z) (source : string) (raw : rawGenerator) (cfg : GeneratorConfig)
  (t : Tree) (start : Z) (Hw : wf_tree t) (Hcfg : validateGenerator ParseDuration t source raw = Ok cfg) :
  ∃ g, FromConfig start cfg = Ok g ∧ Path g = rPath raw ∧ ready t g ∧
    ∀ t1 g1 draw now, ready t1 g1 → moderate g1 → draws draw →
      (∀ v, Get t1 (Path g1) = Ok v → clock_fits now g1 (vType v)) →
      ∃ t2 cs g2 written, Tick draw now t1 g1 = Some (t2, cs, g2, Ok written) ∧ in_range g1 written ∧
        Path g2 = Path g1 ∧ ready t2 g2 ∧ moderate g2 ∧
        ∀ q, parsePath (Path g1) ≠ Ok q → view t2 q = view t1 q.
Proof.
  assert (∃ v, Get t (rPath raw) = Ok v) as [v Hv].
  { unfold validateGenerator in Hcfg. destruct (String.eqb (rPath raw) ""); [done|].
    destruct (Get t (rPath raw)) as [v|]; [by eexists|done]. }
  destruct (validated_fits _ _ _ _ _ start v Hcfg Hv) as (g&Hg&Hp&Hf). exists g. split; [done|]. split; [done|]. split.
  { exists v. rewrite Hp. split_and!; [done|by eapply Get_wf|done]. }
  intros t1 g1 draw now (w&Hgw&Hww&Hfw) Hm Hd Hc.
  destruct (tick_raw draw now t1 g1 w Hgw Hww Hfw Hm Hd (Hc w Hgw)) as (g2&out&E&Hp2&Hf2&Hm2&Hval&Hr).
  rewrite <-Hp2 in Hgw. destruct (write_raw_ok t1 g2 out w Hgw Hval) as (t2&cs&p&Ew&Hpp&Hq).
  exists t2, cs, g2, out. split_and!; [by rewrite E, Ew|done|done| |done|].
  - exists (with_raw out w). split_and!; [|done|done]. apply Get_view. exists p. split; [done|].
    rewrite Hq. unfold spec_update. by rewrite decide_True.
  - intros q Hne. rewrite Hq. unfold spec_update. rewrite decide_False; [done|]. intros ->. rewrite <-Hp2 in Hne. done.
Qed.

(** ** Examples *)

Definition ex_leaf : Tree :=
  set_root New_ (set_children (list_to_map [("Bytes", NewLeaf (MkValue TypeUnsignedInt "95" false))]) NewBranch).
Definition half : spec_float := S754_finite false 4503599627370496 (-53).
Definition ex_counter : CounterConfig := MkCounter "Bytes" 10 100 7 half.
Example ex_counter_tick :
  (λ x : ticked, x.2) <$> Tick (λ n, n - 1)%Z 0 ex_leaf (counterGen ex_counter) = Some (Ok "14").
Proof. vm_compute. reflexivity. Qed.

Lemma top_draws : draws (λ n, n - 1)%Z.
Proof. intros n Hn. lia. Qed.
Lemma ex_leaf_get : Get ex_leaf "Bytes" = Ok (MkValue TypeUnsignedInt "95" false).
Proof. vm_compute. reflexivity. Qed.

Lemma counter_ticks_witness :
  ∃ inc t' cs n, Tick (λ n, n - 1)%Z 0 ex_leaf (counterGen ex_counter) = Some (t', cs, counterGen ex_counter, Ok (Strconv.Itoa n)) ∧
    n = (10 + (95 + inc - 10) mod 91)%Z ∧ (10 ≤ n ≤ 100)%Z.
Proof.
  destruct (counter_ticks (λ n, n - 1)%Z 0 ex_leaf ex_counter (counterGen ex_counter) (MkValue TypeUnsignedInt "95" false) 95
    eq_refl ltac:(cbn; lia) ltac:(cbn; lia) eq_refl top_draws ex_leaf_get eq_refl eq_refl) as (inc&t'&cs&p&H).
  exists inc, t', cs, (10 + (95 + inc - 10) mod 91)%Z. split; [exact (proj1 H)|]. split; [reflexivity|exact (proj1 (proj2 H))].
Defined.

(** A step near [2^64] wraps the 64-bit sum, and the counter leaves its band
    below. *)
Lemma huge_step_escapes :
  let cfg := MkCounter "Bytes" 10 100 (2 ^ 64 - 90) float_zero in
  NewCounter cfg = Ok (counterGen cfg) ∧
  (λ x : ticked, x.2) <$> Tick (λ n, n - 1)%Z 0 ex_leaf (counterGen cfg) = Some (Ok "5").
Proof. split; vm_compute; reflexivity. Qed.

(** A gauge step of [2^62] overflows the argument of the random source, which
    panics: the tick takes the process down. *)
Lemma huge_gauge_step_panics :
  let cfg := MkDrift "Bytes" 0 10 (2 ^ 62) in
  NewDrift cfg = Ok (driftGen cfg) ∧ Tick (λ n, n - 1)%Z 0 ex_leaf (driftGen cfg) = None.
Proof. split; vm_compute; reflexivity. Qed.

(** A gauge band beyond 32 bits passes validation, and every tick beyond them
    fails. *)
Definition ex_gauge : Tree :=
  set_root New_ (set_children (list_to_map [("Level", NewLeaf (MkValue TypeInt "0" false))]) NewBranch).
Definition ex_wide : rawGenerator :=
  MkRaw "Level" "drift" "1s" (Some 2147483648%Z) (Some 3000000000%Z) None None (Some 5%Z) [] "".
Definition wide_config : GeneratorConfig :=
  MkGeneratorConfig "Level" "drift" 1000000000 None (Some (MkDriftParams 2147483648 3000000000 5)) None.
Lemma wide_gauge_never_ticks :
  validateGenerator (λ _, Some 1000000000%Z) ex_gauge "p" ex_wide = Ok wide_config ∧
  (λ r : result error Generator, match r with
     | Ok g => is_ok <$> ((λ x : ticked, x.2) <$> Tick (λ n, n - 1)%Z 0 ex_gauge g)
     | Err _ => None
     end) (FromConfig 0 wide_config) = Some false.
Proof. split; vm_compute; reflexivity. Qed.

Definition ex_raw : rawGenerator :=
  MkRaw "Bytes" "counter" "1s" (Some 10%Z) (Some 100%Z) (Some 7%Z) (Some half) None [] "".
Definition ex_validated : GeneratorConfig :=
  MkGeneratorConfig "Bytes" "counter" 1000000000 (Some (MkCounterParams 10 100 7 half)) None None.
Lemma ex_validates : validateGenerator (λ _, Some 1000000000%Z) ex_leaf "profile" ex_raw = Ok ex_validated.
Proof. vm_compute. reflexivity. Qed.
Lemma ex_leaf_wf : wf_tree ex_leaf.
Proof. apply wf_nodeb_sound. vm_compute. reflexivity. Qed.

Lemma ex_from_config : FromConfig 0 ex_validated = Ok (counterGen ex_counter).
Proof. vm_compute. reflexivity. Qed.

Lemma Ok_inj (g g' : Generator) : Ok (E := error) g = Ok g' → g = g'.
Proof. by intros [=]. Qed.
Lemma ex_moderate : moderate (counterGen ex_counter).
Proof. split; [split; reflexivity|vm_compute; reflexivity]. Qed.
Lemma validated_ticks_witness :
  ∃ t2 cs g2 written, Tick (λ n, n - 1)%Z 5 ex_leaf (counterGen ex_counter) = Some (t2, cs, g2, Ok written) ∧ ready t2 g2.
Proof.
  destruct (validated_ticks (λ _, Some 1000000000%Z) "profile" ex_raw ex_validated ex_leaf 0 ex_leaf_wf ex_validates)
    as (g&Hg&_&Hready&Htick).
  rewrite ex_from_config in Hg. apply Ok_inj in Hg. subst g.
  destruct (Htick ex_leaf (counterGen ex_counter) (λ n, n - 1)%Z 5%Z Hready ex_moderate top_draws (λ _ _, I)) as (t2&cs&g2&w&E&_&_&Hr&_).
  exists t2, cs, g2, w. split; [exact E|exact Hr].
Defined.
