(* ===== verification/Ticker.v ===== *)
(** * The generators' runners and their shared queue ([internal/generators]:
    [generators.go], [scheduler.go], [AddConfig] of [config.go]).

    A runner holds one CPE's generators; one scheduler serves every runner. A
    generator is an object, so it has an address, and its state is in a store.
    What a goroutine does between two releases of a mutex is one step, and steps
    of different goroutines interleave freely. *)
From Stdlib Require Import ZArith Lia Ascii String SpecFloat Sorting.Sorted.
From S2P Require Import Prelude GoLib GoText GoFloat CpeErr Types Node Tree TreeProps Batch Objects ObjectsProps TreeInv Generators.

(** ** The queue *)

(** A slot: the runner, the generator's address, its cadence and when it is
    next due. *)
Record schedEntry := MkEntry { eRunner : nat; eGen : nat; eInterval : Z; due : Z; seq : Z }.
Definition Less (a b : schedEntry) : bool := if (due a =? due b)%Z then (seq a <? seq b)%Z else (due a <? due b)%Z.

(** [heap.Pop]: the least slot, and the others. *)
Fixpoint Pop (q : list schedEntry) : option (schedEntry * list schedEntry) :=
  match q with
  | [] => None
  | e :: q' =>
      match Pop q' with
      | None => Some (e, [])
      | Some (m, r) => if Less m e then Some (m, e :: r) else Some (e, q')
      end
  end.

Definition rearm (now : Z) (e : schedEntry) : schedEntry := MkEntry (eRunner e) (eGen e) (eInterval e) (now + eInterval e) (seq e).

Section collect.
Context (wants : nat → nat → bool) (now : Z).

Fixpoint collect_loop (fuel : nat) (q : list schedEntry) : list schedEntry * list schedEntry :=
  match fuel with
  | O => ([], q)
  | S fuel =>
      match Pop q with
      | None => ([], q)
      | Some (e, q') =>
          if (now <? due e)%Z then ([], q)
          else if negb (wants (eRunner e) (eGen e)) then collect_loop fuel q'
          else let '(ready, q'') := collect_loop fuel (rearm now e :: q') in (rearm now e :: ready, q'')
      end
  end.
(** What is ready, how long until the next slot, if any, and the queue left. *)
Definition collectDue (q : list schedEntry) : list schedEntry * option Z * list schedEntry :=
  let '(ready, q') := collect_loop (S (length q)) q in
  (ready, match Pop q' with Some (e, _) => Some (due e - now)%Z | None => None end, q').

(** *** Laws of the queue *)

Lemma filter_all {A} (P : A → Prop) `{!∀ x, Decision (P x)} l : Forall P l → filter P l = l.
Proof. induction 1 as [|x l Hx _ IH]; [done|]. by rewrite filter_cons_True, IH. Qed.

Definition before (a b : schedEntry) : Prop := Less b a = false.
Lemma before_trans a b c : before a b → before b c → before a c.
Proof.
  unfold before, Less. intros H1 H2.
  destruct (Z.eqb_spec (due b) (due a)), (Z.eqb_spec (due c) (due b)), (Z.eqb_spec (due c) (due a)); lia.
Qed.
Lemma before_total a b : Less a b = true → before a b.
Proof. unfold before, Less. destruct (Z.eqb_spec (due a) (due b)), (Z.eqb_spec (due b) (due a)); lia. Qed.

Lemma Pop_min q e r : Pop q = Some (e, r) → q ≡ₚ e :: r ∧ Forall (before e) r.
Proof.
  revert e r. induction q as [|x q IH]; intros e r; [done|]. cbn.
  destruct (Pop q) as [[m s]|] eqn:Ep.
  - destruct (IH m s eq_refl) as [Hp Hf]. destruct (Less m x) eqn:El; intros [= <- <-].
    + split; [rewrite Hp; apply Permutation_swap|]. constructor; [by apply before_total|done].
    + split; [done|]. rewrite Hp. constructor; [done|]. eapply Forall_impl; [exact Hf|].
      intros y Hy. eapply before_trans; [|exact Hy]. done.
  - intros [= <- <-]. destruct q as [|y q]; [done|]. cbn in Ep. destruct (Pop q) as [[]|]; [|done]. by destruct (Less _ _).
Qed.
Lemma Pop_none q : Pop q = None → q = [].
Proof. destruct q as [|x q]; [done|]. cbn. destruct (Pop q) as [[m r]|]; [|done]. by destruct (Less m x). Qed.

Definition ripe (e : schedEntry) : Prop := (due e ≤ now)%Z.
#[global] Instance ripe_dec e : Decision (ripe e).
Proof. unfold ripe. apply _. Defined.
Definition called (e : schedEntry) : Prop := ripe e ∧ wants (eRunner e) (eGen e) = true.
#[global] Instance called_dec e : Decision (called e).
Proof. unfold called. apply _. Defined.
Definition advances (e : schedEntry) : Prop := (0 < eInterval e)%Z.

Lemma rearm_later e : advances e → ¬ ripe (rearm now e).
Proof. unfold advances, ripe, rearm. cbn. lia. Qed.

Lemma collect_loop_spec fuel q :
  (length (filter ripe q) < fuel)%nat → Forall advances q →
  ∃ fired, fired ≡ₚ filter called q ∧ StronglySorted before fired ∧
    (collect_loop fuel q).1 = rearm now <$> fired ∧
    (collect_loop fuel q).2 ≡ₚ filter (λ e, ¬ ripe e) q ++ (rearm now <$> fired).
Proof.
  revert q. induction fuel as [|fuel IH]; intros q Hf Ha; [lia|]. cbn.
  destruct (Pop q) as [[e r]|] eqn:Ep.
  - apply Pop_min in Ep as [Hp Hmin]. destruct (Z.ltb_spec now (due e)) as [Hl|Hl].
    + exists []. assert (Forall (λ x, ¬ ripe x) q) as Hn.
      { rewrite Hp. constructor; [unfold ripe; lia|]. eapply Forall_impl; [exact Hmin|]. intros x. unfold before, Less, ripe.
        destruct (Z.eqb_spec (due x) (due e)); lia. }
      split_and!; [|constructor|done|].
      * rewrite filter_none; [done|]. eapply Forall_impl; [exact Hn|]. unfold called. by intros x Hx [? _].
      * cbn. rewrite app_nil_r. by rewrite filter_all.
    + rewrite Hp in Hf, Ha. rewrite filter_cons_True in Hf by exact Hl. cbn in Hf. inversion Ha as [|? ? Hae Har]; subst.
      destruct (wants (eRunner e) (eGen e)) eqn:Ew; cbn.
      * destruct (IH (rearm now e :: r)) as (fired&H1&H2&H3&H4).
        { rewrite filter_cons_False by by apply rearm_later. lia. }
        { by constructor. }
        rewrite filter_cons_False in H1 by (unfold called; intros [Hr _]; by eapply rearm_later).
        rewrite filter_cons_True in H4 by by apply rearm_later.
        destruct (collect_loop fuel (rearm now e :: r)) as [ready q2]. cbn in *. subst ready.
        exists (e :: fired). split_and!; [|constructor; [done|]|done|].
        { rewrite Hp, filter_cons_True by done. by rewrite H1. }
        { rewrite H1. apply Forall_forall. intros x [_ Hx]%list_elem_of_filter. rewrite Forall_forall in Hmin. by apply Hmin. }
        { rewrite H4, Hp, filter_cons_False by (intros Hn; by apply Hn). cbn. by rewrite Permutation_middle. }
      * destruct (IH r) as (fired&H1&H2&H3&H4); [lia|done|].
        exists fired. split_and!; [|done|done|].
        { rewrite Hp, filter_cons_False; [done|]. intros [_ Hc]. by rewrite Ew in Hc. }
        { rewrite H4, Hp, filter_cons_False by (intros Hn; by apply Hn). done. }
  - apply Pop_none in Ep. subst. exists []. split_and!; [done|constructor|done|done].
Qed.
End collect.

(** ** Runners *)

Record scheduledGen := MkScheduledGen { gen : nat; interval : Z }.
Record Runner := MkRunner { items : list scheduledGen; byPath : gset string; started : bool; stopped : bool }.
Definition NewRunner : Runner := MkRunner [] ∅ false false.

Section runner.
(** The generators in the store. *)
Context (gens : gmap nat Generator).
Definition PathOf (g : nat) : string := match gens !! g with Some x => Path x | None => "" end.

Definition Add (g : nat) (ival : Z) (r : Runner) : result error Runner :=
  if (ival <=? 0)%Z then Err (errorf "generators.Runner.Add: interval must be > 0, got %s" [])
  else
    let path := PathOf g in
    if String.eqb path "" then Err (errorf "generators.Runner.Add: generator returned empty Path()" [])
    else if stopped r then Err (errorf "generators.Runner.Add: runner is stopped" [])
    else if bool_decide (path ∈ byPath r) then Err (errorf "generators.Runner.Add: duplicate generator path %q" [path])
    else Ok (MkRunner (items r ++ [MkScheduledGen g ival]) ({[path]} ∪ byPath r) (started r) (stopped r)).

(** The first item of a path is dropped. *)
Fixpoint drop_path (path : string) (l : list scheduledGen) : list scheduledGen :=
  match l with
  | [] => []
  | sg :: l' => if String.eqb (PathOf (gen sg)) path then l' else sg :: drop_path path l'
  end.
Definition Remove (path : string) (r : Runner) : Runner :=
  if bool_decide (path ∈ byPath r)
  then MkRunner (drop_path path (items r)) (byPath r ∖ {[path]}) (started r) (stopped r)
  else r.
End runner.

Definition wants (r : Runner) (g : nat) : bool := negb (stopped r) && existsb (λ sg, (gen sg =? g)%nat) (items r).

(** The runner started, and the registrations it now owes the scheduler. *)
Definition Start (r : Runner) : result error (Runner * list scheduledGen) :=
  if stopped r then Err (errorf "generators.Runner.Start: runner is stopped" [])
  else if started r then Ok (r, [])
  else Ok (MkRunner (items r) (byPath r) true (stopped r), items r).
Definition Stop (r : Runner) : Runner := MkRunner (items r) (byPath r) (started r) true.

(** ** The process *)

(** [owed] are the calls of [Scheduler.add] runners are yet to make; [jobs]
    what [run] has collected and workers have not taken, in order; [running]
    the ticks a worker has begun. *)
Record ticker := MkTicker {
  gens : gmap nat Generator; runners : gmap nat Runner; trees : gmap nat Tree; owed : list (nat * scheduledGen);
  queue : list schedEntry; seqNo : Z; halted : bool; jobs : list (nat * nat); running : list (nat * nat); clock : Z
}.

Definition set_runner (rid : nat) (r : Runner) (w : ticker) : ticker :=
  MkTicker (gens w) (<[rid := r]> (runners w)) (trees w) (owed w) (queue w) (seqNo w) (halted w) (jobs w) (running w) (clock w).
Definition owe (l : list (nat * scheduledGen)) (w : ticker) : ticker :=
  MkTicker (gens w) (runners w) (trees w) l (queue w) (seqNo w) (halted w) (jobs w) (running w) (clock w).
Definition store (g : nat) (x : Generator) (w : ticker) : ticker :=
  MkTicker (<[g := x]> (gens w)) (runners w) (trees w) (owed w) (queue w) (seqNo w) (halted w) (jobs w) (running w) (clock w).
Definition plant (rid : nat) (t : Tree) (w : ticker) : ticker :=
  MkTicker (gens w) (runners w) (<[rid := t]> (trees w)) (owed w) (queue w) (seqNo w) (halted w) (jobs w) (running w) (clock w).
Definition requeue (q : list schedEntry) (n : Z) (w : ticker) : ticker :=
  MkTicker (gens w) (runners w) (trees w) (owed w) q n (halted w) (jobs w) (running w) (clock w).
Definition set_jobs (j r : list (nat * nat)) (w : ticker) : ticker :=
  MkTicker (gens w) (runners w) (trees w) (owed w) (queue w) (seqNo w) (halted w) j r (clock w).

(** [Scheduler.add] *)
Definition add (rid : nat) (sg : scheduledGen) (w : ticker) : ticker :=
  if halted w then w
  else requeue (MkEntry rid (gen sg) (interval sg) (clock w + interval sg) (seqNo w + 1) :: queue w) (seqNo w + 1) w.

(** [e.runner.wants(e.gen)] *)
Definition wanted (w : ticker) (rid g : nat) : bool := match runners w !! rid with Some r => wants r g | None => false end.

(** One turn of [run]: what is due goes to the workers. *)
Definition run_turn (w : ticker) : ticker :=
  let '(ready, _, q) := collectDue (wanted w) (clock w) (queue w) in
  set_jobs (jobs w ++ ((λ e, (eRunner e, eGen e)) <$> ready)) (running w) (requeue q (seqNo w) w).

(** A worker takes a job, and [Runner.tick] goes on if the runner wants it. *)
Definition take_job (w : ticker) : option ticker :=
  match jobs w with
  | [] => None
  | (rid, g) :: rest => Some (set_jobs rest (if wanted w rid g then running w ++ [(rid, g)] else running w) w)
  end.

(** The generator runs under the runner's [tickMu]; [None] is a panic. *)
Definition run_tick (draw : Z → Z) (rid g : nat) (w : ticker) : option ticker :=
  t ← trees w !! rid;
  x ← gens w !! g;
  '(t', _, x', _) ← Tick draw (clock w) t x;
  Some (plant rid t' (store g x' w)).

(** [AddConfig]: the generator a configuration describes, at a new address. *)
Definition AddConfig (rid g : nat) (cfg : GeneratorConfig) (w : ticker) : result error ticker :=
  match runners w !! rid with
  | None => Err (errorf "no such runner" [])
  | Some r =>
      x ← FromConfig (clock w) cfg;
      r' ← map_err (λ e, Errorf "generator %q: %w" [gPath cfg] (Some e)) (Add (<[g := x]> (gens w)) g (gInterval cfg) r);
      let w' := set_runner rid r' (store g x w) in
      Ok (if started r then owe (owed w ++ [(rid, MkScheduledGen g (gInterval cfg))]) w' else w')
  end.

Inductive step : ticker → ticker → Prop :=
| st_new rid t w : runners w !! rid = None → wf_tree t → step w (plant rid t (set_runner rid NewRunner w))
| st_add_config rid g cfg w w' : gens w !! g = None → AddConfig rid g cfg w = Ok w' → step w w'
| st_remove rid r path w : runners w !! rid = Some r → step w (set_runner rid (Remove (gens w) path r) w)
| st_start rid r r' l w : runners w !! rid = Some r → Start r = Ok (r', l) →
    step w (owe (owed w ++ ((λ sg, (rid, sg)) <$> l)) (set_runner rid r' w))
| st_stop rid r w : runners w !! rid = Some r → step w (set_runner rid (Stop r) w)
| st_add l1 rid sg l2 w : owed w = l1 ++ (rid, sg) :: l2 → step w (add rid sg (owe (l1 ++ l2) w))
| st_run w : step w (run_turn w)
| st_take w w' : take_job w = Some w' → step w w'
| st_tick l1 rid g l2 draw w w' : running w = l1 ++ (rid, g) :: l2 → run_tick draw rid g w = Some w' →
    step w (set_jobs (jobs w') (l1 ++ l2) w')
| st_write rid t w : is_Some (trees w !! rid) → wf_tree t → step w (plant rid t w)
| st_halt w : step w (MkTicker (gens w) (runners w) (trees w) (owed w) (queue w) (seqNo w) true (jobs w) (running w) (clock w))
| st_time now w : (clock w ≤ now)%Z →
    step w (MkTicker (gens w) (runners w) (trees w) (owed w) (queue w) (seqNo w) (halted w) (jobs w) (running w) now).
Inductive reachable : ticker → Prop :=
| reach_init now : reachable (MkTicker ∅ ∅ ∅ [] [] 0 false [] [] now)
| reach_step w w' : reachable w → step w w' → reachable w'.

(** ** Every generator keeps its slot *)

(** Whose slot it is. *)
Definition owed_key (p : nat * scheduledGen) : nat * nat := (p.1, gen p.2).
Definition entry_key (e : schedEntry) : nat * nat := (eRunner e, eGen e).
Definition slots (w : ticker) : list (nat * nat) := (owed_key <$> owed w) ++ (entry_key <$> queue w).
(** A generator waits for the scheduler to be told of it, or for an instant
    at most one interval away. *)
Definition slotted (w : ticker) (rid : nat) (sg : scheduledGen) : Prop :=
  (rid, sg) ∈ owed w ∨
  ∃ e, e ∈ queue w ∧ entry_key e = (rid, gen sg) ∧ eInterval e = interval sg ∧ (due e ≤ clock w + interval sg)%Z.

Definition items_ok (gens : gmap nat Generator) (r : Runner) : Prop :=
  NoDup (gen <$> items r) ∧ Forall (λ sg, is_Some (gens !! gen sg) ∧ (0 < interval sg)%Z) (items r) ∧
  NoDup ((λ sg, PathOf gens (gen sg)) <$> items r) ∧
  ∀ path, path ∈ byPath r ↔ path ∈ (λ sg, PathOf gens (gen sg)) <$> items r.
Record consistent (w : ticker) : Prop := {
  one_slot : NoDup (slots w);
  slot_known rid g : (rid, g) ∈ slots w → is_Some (gens w !! g) ∧ ∃ r, runners w !! rid = Some r ∧ started r = true;
  slot_moves : Forall advances (queue w) ∧ Forall (λ p, (0 < interval p.2)%Z) (owed w);
  runner_ok rid r : runners w !! rid = Some r → items_ok (gens w) r;
  kept rid r sg : runners w !! rid = Some r → started r = true → stopped r = false → halted w = false →
    sg ∈ items r → slotted w rid sg;
  tree_ok rid t : trees w !! rid = Some t → wf_tree t
}.

(** *** Runners *)

Lemma PathOf_fresh gens g x g' : gens !! g = None → is_Some (gens !! g') → PathOf (<[g := x]> gens) g' = PathOf gens g'.
Proof. intros Hn [y Hy]. unfold PathOf. rewrite lookup_insert_ne; [done|]. intros ->. congruence. Qed.

Lemma items_ok_paths gens gens' r :
  (∀ g, is_Some (gens !! g) → is_Some (gens' !! g) ∧ PathOf gens' g = PathOf gens g) → items_ok gens r → items_ok gens' r.
Proof.
  intros H (H1&H2&H3&H4).
  assert ((λ sg, PathOf gens' (gen sg)) <$> items r = (λ sg, PathOf gens (gen sg)) <$> items r) as E.
  { apply list_fmap_ext. intros i sg Hi%list_elem_of_lookup_2. rewrite Forall_forall in H2. apply H. by apply H2. }
  split_and!; [done| |by rewrite E|by rewrite E]. eapply Forall_impl; [exact H2|]. intros sg [? ?]. split; [by apply H|done].
Qed.

Lemma Add_ok gens g ival r r' : items_ok gens r → is_Some (gens !! g) → g ∉ gen <$> items r → Add gens g ival r = Ok r' →
  items_ok gens r' ∧ started r' = started r ∧ stopped r = false ∧ stopped r' = false ∧ items r' = items r ++ [MkScheduledGen g ival] ∧ (0 < ival)%Z.
Proof.
  intros (H1&H2&H3&H4) Hg Hni. unfold Add. destruct (Z.leb_spec ival 0); [done|].
  destruct (String.eqb _ _); [done|]. destruct (stopped r) eqn:Es; [done|]. destruct (bool_decide _) eqn:Ed; [done|].
  apply bool_decide_eq_false in Ed. intros [= <-]. cbn. split_and!; try done. unfold items_ok. cbn. rewrite !fmap_app. cbn. split_and!.
  - apply NoDup_app. split_and!; [done| |by apply NoDup_singleton]. intros x Hx ->%list_elem_of_singleton. done.
  - apply Forall_app. split; [done|]. by constructor.
  - apply NoDup_app. split_and!; [done| |by apply NoDup_singleton]. intros x Hx ->%list_elem_of_singleton. apply Ed. by apply H4.
  - intros path. rewrite elem_of_union, elem_of_singleton, elem_of_app, list_elem_of_singleton, H4. tauto.
Qed.

Lemma drop_path_spec gens path l : NoDup ((λ sg, PathOf gens (gen sg)) <$> l) →
  drop_path gens path l = filter (λ sg, PathOf gens (gen sg) ≠ path) l.
Proof.
  induction l as [|sg l IH]; [done|]. rewrite fmap_cons. cbn [drop_path]. intros [Hn Hd]%NoDup_cons.
  destruct (String.eqb_spec (PathOf gens (gen sg)) path) as [E|E].
  - rewrite filter_cons_False by (intros H; by apply H). symmetry. apply filter_all. apply Forall_forall.
    intros x Hx Hp. apply Hn. rewrite E, <-Hp. by apply (list_elem_of_fmap_2 (λ sg, PathOf gens (gen sg))).
  - by rewrite filter_cons_True, IH.
Qed.

Lemma NoDup_fmap_filter {A B} (f : A → B) (P : A → Prop) `{!∀ x, Decision (P x)} l : NoDup (f <$> l) → NoDup (f <$> filter P l).
Proof.
  induction l as [|x l IH]; [done|]. rewrite fmap_cons. intros [Hn Hd]%NoDup_cons. rewrite filter_cons. destruct (decide (P x)); [|by apply IH].
  rewrite fmap_cons. apply NoDup_cons. split; [|by apply IH]. intros (y&E&[_ Hy]%list_elem_of_filter)%list_elem_of_fmap.
  apply Hn. rewrite E. by apply list_elem_of_fmap_2.
Qed.

Lemma Remove_ok gens path r : items_ok gens r →
  items_ok gens (Remove gens path r) ∧ started (Remove gens path r) = started r ∧ stopped (Remove gens path r) = stopped r ∧
  ∀ sg, sg ∈ items (Remove gens path r) ↔ sg ∈ items r ∧ PathOf gens (gen sg) ≠ path.
Proof.
  intros H. pose proof H as (H1&H2&H3&H4). unfold Remove. destruct (bool_decide _) eqn:Ed.
  - cbn. rewrite drop_path_spec by done. split_and!; [|done..|]. 2: { intros sg. rewrite list_elem_of_filter. tauto. }
    unfold items_ok. cbn. split_and!; [by apply NoDup_fmap_filter|apply Forall_forall; intros sg [_ Hs]%list_elem_of_filter; rewrite Forall_forall in H2; by apply H2|by apply NoDup_fmap_filter|].
    intros q. rewrite elem_of_difference, elem_of_singleton, H4, !list_elem_of_fmap. split.
    + intros [(sg&->&Hs) Hq]. exists sg. rewrite list_elem_of_filter. done.
    + intros (sg&->&[Hq Hs]%list_elem_of_filter). split; [|done]. by exists sg.
  - apply bool_decide_eq_false in Ed. split_and!; [done..|]. intros sg. split; [|tauto]. intros Hs. split; [done|]. intros <-.
    apply Ed, H4, list_elem_of_fmap. by exists sg.
Qed.

Lemma Tick_path draw now t x t' cs x' r : Tick draw now t x = Some (t', cs, x', r) → Path x' = Path x.
Proof.
  unfold Tick, write_raw. destruct (Get t (Path x)); [|by intros [= <- <- <- <-]].
  destruct x as [cfg|cfg|cfg idx|cfg start]; [destruct (Strconv.ParseUint _ _); [|by intros [= <- <- <- <-]]| | |].
  1: destruct (counter_inc draw cfg); cbn; [|done].
  2: destruct (drift_next draw cfg _); cbn; [|done].
  3: destruct (enum_next draw cfg idx) as [[??]|]; cbn; [|done].
  all: destruct (SetSystem _ _ _) as [[? ?] [|]]; intros H; injection H; intros; by subst.
Qed.
Lemma Tick_wf draw now t x t' cs x' r : wf_tree t → Tick draw now t x = Some (t', cs, x', r) → wf_tree t'.
Proof.
  intros Hw. assert (∀ g raw, wf_tree (write_raw t g raw).1.1.1) as Hwr.
  { intros g raw. unfold write_raw. assert (wf_tree (SetSystem t (Path g) raw).1.1) as H by (by apply (wf_ops_leaf t (Path g) raw Value_zero Attributes_zero)).
    by destruct (SetSystem _ _ _) as [[? ?] [|]]. }
  unfold Tick. destruct (Get t (Path x)); [|by intros [= <- <- <- <-]].
  destruct x as [cfg|cfg|cfg idx|cfg start]; [destruct (Strconv.ParseUint _ _); [|by intros [= <- <- <- <-]]| | |].
  1: destruct (counter_inc draw cfg); cbn; [|done].
  2: destruct (drift_next draw cfg _); cbn; [|done].
  3: destruct (enum_next draw cfg idx) as [[??]|]; cbn; [|done].
  all: intros H; injection H as H; match type of H with write_raw _ ?g ?raw = _ => specialize (Hwr g raw); rewrite H in Hwr end; done.
Qed.

(** *** The queue *)

Lemma run_turn_fires w : Forall advances (queue w) →
  ∃ fired q, fired ≡ₚ filter (called (wanted w) (clock w)) (queue w) ∧ StronglySorted before fired ∧
    q ≡ₚ filter (λ e, ¬ ripe (clock w) e) (queue w) ++ (rearm (clock w) <$> fired) ∧
    run_turn w = set_jobs (jobs w ++ (entry_key <$> fired)) (running w) (requeue q (seqNo w) w).
Proof.
  intros Ha. unfold run_turn, collectDue.
  destruct (collect_loop_spec (wanted w) (clock w) (S (length (queue w))) (queue w)) as (fired&H1&H2&H3&H4); [|done|].
  { pose proof (length_filter (ripe (clock w)) (queue w)). lia. }
  destruct (collect_loop _ _ _ _) as [ready q]. cbn in *. subst ready. exists fired, q. split_and!; [done..|].
  do 2 f_equal. by rewrite <-list_fmap_compose.
Qed.

Lemma queue_split wants now q :
  q ≡ₚ (filter (λ e, ¬ ripe now e) q ++ filter (called wants now) q) ++
       filter (λ e, ripe now e ∧ wants (eRunner e) (eGen e) = false) q.
Proof.
  induction q as [|e q IH]; [done|]. rewrite !filter_cons.
  destruct (decide (ripe now e)) as [Hr|Hr], (wants (eRunner e) (eGen e)) eqn:Ew.
  - rewrite decide_False by tauto. rewrite decide_True by done. rewrite decide_False by (intros [_ ?]; congruence).
    cbn. rewrite <-Permutation_middle. cbn. by constructor.
  - rewrite decide_False by tauto. rewrite decide_False by (intros [_ ?]; congruence). rewrite decide_True by done.
    rewrite <-Permutation_middle. by constructor.
  - rewrite decide_True by done. rewrite decide_False by (intros [? _]; done). rewrite decide_False by (intros [? _]; done). by constructor.
  - rewrite decide_True by done. rewrite decide_False by (intros [? _]; done). rewrite decide_False by (intros [? _]; done). by constructor.
Qed.

Lemma rearm_keys now (l : list schedEntry) : entry_key <$> (rearm now <$> l) = entry_key <$> l.
Proof. rewrite <-list_fmap_compose. by apply list_fmap_ext. Qed.

Lemma init_consistent now : consistent (MkTicker ∅ ∅ ∅ [] [] 0 false [] [] now).
Proof. split; cbn; try done; [by apply NoDup_nil_2|by intros ?? ?%not_elem_of_nil]. Qed.

Lemma new_consistent rid t w : runners w !! rid = None → wf_tree t → consistent w →
  consistent (plant rid t (set_runner rid NewRunner w)).
Proof.
  intros Hn Ht [H1 H2 H3 H4 H5 H6]. split; cbn; [done| |done| | |].
  - intros r g Hs. destruct (H2 r g Hs) as (?&y&Hy&?). split; [done|]. exists y. rewrite lookup_insert_ne; [done|]. intros ->. congruence.
  - intros r y. destruct (decide (rid = r)) as [<-|Hne].
    + rewrite lookup_insert_eq. intros [= <-]. unfold items_ok. cbn. split_and!; [by apply NoDup_nil_2|done|by apply NoDup_nil_2|].
      intros path. by rewrite elem_of_empty, elem_of_nil.
    + rewrite lookup_insert_ne by done. apply H4.
  - intros r y sg. destruct (decide (rid = r)) as [<-|Hne].
    + rewrite lookup_insert_eq. by intros [= <-].
    + rewrite lookup_insert_ne by done. apply H5.
  - intros r y. destruct (decide (rid = r)) as [<-|Hne].
    + rewrite lookup_insert_eq. by intros [= <-].
    + rewrite lookup_insert_ne by done. apply H6.
Qed.

(** A runner that keeps its items, or some of them, and its start. *)
Lemma runner_consistent rid r r' w : runners w !! rid = Some r → items_ok (gens w) r' → started r' = started r →
  (stopped r' = false → stopped r = false) → (∀ sg, sg ∈ items r' → sg ∈ items r) → consistent w → consistent (set_runner rid r' w).
Proof.
  intros Hr Hi Hst Hsp Hsub [H1 H2 H3 H4 H5 H6]. split; cbn; [done| |done| | |done].
  - intros q g Hs. destruct (H2 q g Hs) as (?&y&Hy&?). split; [done|]. destruct (decide (rid = q)) as [<-|Hne].
    + exists r'. rewrite lookup_insert_eq. split; [done|]. by simplify_eq/=; rewrite Hst.
    + exists y. by rewrite lookup_insert_ne.
  - intros q y. destruct (decide (rid = q)) as [<-|Hne]; [rewrite lookup_insert_eq; by intros [= <-]|].
    rewrite lookup_insert_ne by done. apply H4.
  - intros q y sg. destruct (decide (rid = q)) as [<-|Hne].
    + rewrite lookup_insert_eq. intros [= <-] Hs Hp Hh Hin. rewrite Hst in Hs. by apply (H5 rid r sg); auto.
    + rewrite lookup_insert_ne by done. apply H5.
Qed.

Lemma start_consistent rid r r' l w : runners w !! rid = Some r → Start r = Ok (r', l) → consistent w →
  consistent (owe (owed w ++ ((λ sg, (rid, sg)) <$> l)) (set_runner rid r' w)).
Proof.
  intros Hr Hs Hc. unfold Start in Hs. destruct (stopped r) eqn:Ep; [done|]. destruct (started r) eqn:Es.
  - injection Hs as <- <-. cbn. rewrite app_nil_r.
    apply (runner_consistent rid r r w Hr (runner_ok w Hc rid r Hr) eq_refl ltac:(done) ltac:(done)) in Hc.
    by destruct Hc; split.
  - injection Hs as <- <-. destruct Hc as [H1 H2 H3 H4 H5 H6]. pose proof (H4 rid r Hr) as (N1&N2&N3&N4).
    assert (∀ g, (rid, g) ∉ slots w) as Hfresh by (intros g Hg; destruct (H2 _ _ Hg) as (_&y&?&?); simplify_eq/=; congruence).
    set (w' := owe _ _).
    assert (slots w' ≡ₚ (owed_key <$> ((λ sg, (rid, sg)) <$> items r)) ++ slots w) as Hp.
    { unfold slots, w'. cbn. rewrite fmap_app. rewrite <-!(assoc_L (++)). apply Permutation_app_swap_app. }
    assert (∀ rid' g, (rid', g) ∈ owed_key <$> ((λ sg, (rid, sg)) <$> items r) → rid' = rid ∧ g ∈ gen <$> items r) as Hnew.
    { intros rid' g. rewrite <-list_fmap_compose. intros (sg&[= -> ->]&Hin)%list_elem_of_fmap. split; [done|]. by apply list_elem_of_fmap_2. }
    assert (runners w' = <[rid := MkRunner (items r) (byPath r) true false]> (runners w)) as Er by done.
    assert (owed w' = owed w ++ ((λ sg, (rid, sg)) <$> items r)) as Eo by done.
    split; rewrite ?Er, ?Eo; unfold slotted; rewrite ?Eo.
    + rewrite Hp. apply NoDup_app. split_and!; [| |done].
      * rewrite <-list_fmap_compose.
        assert (owed_key ∘ (λ sg, (rid, sg)) <$> items r = (λ g, (rid, g)) <$> (gen <$> items r)) as -> by by rewrite <-list_fmap_compose.
        apply NoDup_fmap; [by intros ?? [=]|done].
      * intros [q g] [-> _]%Hnew. apply Hfresh.
    + intros q g. rewrite Hp, elem_of_app. intros [[-> Hg]%Hnew|Hold].
      * split; [|eexists; by rewrite lookup_insert_eq]. apply list_elem_of_fmap in Hg as (sg&->&Hin). rewrite Forall_forall in N2. by apply N2.
      * destruct (H2 q g Hold) as (?&y&Hy&?). split; [done|]. exists y. rewrite lookup_insert_ne; [done|]. intros <-. by eapply Hfresh.
    + destruct H3 as [? ?]. split; [done|]. apply Forall_app. split; [done|]. apply Forall_fmap. eapply Forall_impl; [exact N2|]. by intros ? [_ ?].
    + intros q y. destruct (decide (rid = q)) as [<-|Hne]; [rewrite lookup_insert_eq; by intros [= <-]|].
      rewrite lookup_insert_ne by done. apply H4.
    + intros q y sg. destruct (decide (rid = q)) as [<-|Hne].
      * rewrite lookup_insert_eq. intros [= <-] _ _ _ Hin. left. cbn. apply elem_of_app. right. by apply list_elem_of_fmap_2.
      * rewrite lookup_insert_ne by done. intros Hy Hst Hsp Hh Hin. destruct (H5 q y sg Hy Hst Hsp Hh Hin) as [Ho|Hq]; [|by right].
        left. cbn. apply elem_of_app. by left.
    + done.
Qed.

Lemma add_consistent l1 rid sg l2 w : owed w = l1 ++ (rid, sg) :: l2 → consistent w → consistent (add rid sg (owe (l1 ++ l2) w)).
Proof.
  intros Ho [H1 H2 H3 H4 H5 H6]. destruct H3 as [Hq Hw]. unfold add. cbn.
  assert (slots w ≡ₚ (rid, gen sg) :: (owed_key <$> (l1 ++ l2)) ++ (entry_key <$> queue w)) as Hp.
  { unfold slots. rewrite Ho, !fmap_app, fmap_cons. cbn. by rewrite <-Permutation_middle. }
  assert (Forall (λ p, (0 < interval p.2)%Z) (l1 ++ l2) ∧ (0 < interval sg)%Z) as [Hw' Hi].
  { rewrite Ho in Hw. apply Forall_app in Hw as [? Hw]. inversion Hw; subst. split; [by apply Forall_app|done]. }
  assert (∀ q x, (q, x) ∈ owed w → (q, x) ∈ l1 ++ l2 ∨ q = rid ∧ x = sg) as Hin.
  { intros q x. rewrite Ho, !elem_of_app, elem_of_cons. intros [?|[[= -> ->]|?]]; [by left; left|by right|by left; right]. }
  destruct (halted w) eqn:Eh.
  - split; cbn; try done.
    + rewrite Hp in H1. apply NoDup_cons in H1 as [_ H1]. exact H1.
    + intros q g Hs. apply H2. rewrite Hp. by right.
    + intros q y x _ _ _ Hh. by rewrite Eh in Hh.
  - split; cbn; try done.
    + unfold slots. cbn. unfold entry_key at 1. cbn. rewrite <-Permutation_middle. by rewrite <-Hp.
    + intros q g Hs. apply H2. rewrite Hp. unfold slots in Hs. cbn in Hs. by rewrite <-Permutation_middle in Hs.
    + split; [by constructor|done].
    + intros q y x Hy Hst Hsp _ Hx. destruct (H5 q y x Hy Hst Hsp eq_refl Hx) as [Hown|(e&He&Hk)].
      * apply Hin in Hown as [Hown|[-> ->]]; [by left|]. right. eexists. split; [by left|]. cbn. unfold entry_key. cbn. split_and!; [done..|lia].
      * right. exists e. split; [by right|done].
Qed.

Lemma add_config_consistent rid g cfg w w' : gens w !! g = None → AddConfig rid g cfg w = Ok w' → consistent w → consistent w'.
Proof.
  intros Hg Ha [H1 H2 H3 H4 H5 H6]. unfold AddConfig in Ha. destruct (runners w !! rid) as [r|] eqn:Hr; [|done].
  destruct (FromConfig (clock w) cfg) as [x|] eqn:Ex; [cbn in Ha|done].
  destruct (Add _ g (gInterval cfg) r) as [r'|] eqn:Er; [cbn in Ha|done]. injection Ha as <-.
  assert (∀ h, is_Some (gens w !! h) → is_Some (<[g := x]> (gens w) !! h) ∧ PathOf (<[g := x]> (gens w)) h = PathOf (gens w) h) as Hold.
  { intros h Hh. split; [|by apply PathOf_fresh]. destruct (decide (g = h)) as [<-|]; [by rewrite lookup_insert_eq|by rewrite lookup_insert_ne]. }
  assert (g ∉ gen <$> items r) as Hni.
  { intros (sg&->&Hin)%list_elem_of_fmap. destruct (H4 rid r Hr) as (_&N2&_). rewrite Forall_forall in N2.
    destruct (N2 sg Hin) as [[? ?] _]. congruence. }
  destruct (Add_ok (<[g := x]> (gens w)) g (gInterval cfg) r r') as (Hi&Hst&Hsp&Hsp'&Hit&Hpos);
    [by eapply items_ok_paths, H4|by rewrite lookup_insert_eq|done|done|].
  assert (∀ q h, (q, h) ∈ slots w → h ≠ g) as Hne by (intros q h Hs ->; destruct (H2 _ _ Hs) as [[? ?] _]; congruence).
  set (new := if started r then [(rid, MkScheduledGen g (gInterval cfg))] else []).
  assert ((if started r then owe (owed w ++ [(rid, MkScheduledGen g (gInterval cfg))]) (set_runner rid r' (store g x w))
           else set_runner rid r' (store g x w)) = owe (owed w ++ new) (set_runner rid r' (store g x w))) as ->.
  { unfold new. destruct (started r); [done|]. by rewrite app_nil_r. }
  split; cbn.
  - assert (slots (owe (owed w ++ new) (set_runner rid r' (store g x w))) ≡ₚ (owed_key <$> new) ++ slots w) as ->.
    { unfold slots. cbn. rewrite fmap_app, <-!(assoc_L (++)). apply Permutation_app_swap_app. }
    apply NoDup_app. split_and!; [| |done]; unfold new; destruct (started r); cbn; try apply NoDup_nil_2.
    + by apply NoDup_singleton.
    + intros [q h] [= -> ->]%list_elem_of_singleton Hs. by eapply Hne.
    + by intros ? ?%not_elem_of_nil.
  - intros q h. unfold slots. cbn. rewrite fmap_app, !elem_of_app. intros Hs.
    assert ((q, h) ∈ slots w ∨ started r = true ∧ q = rid ∧ h = g) as [Hin|(Hs1&->&->)].
    { unfold slots. rewrite elem_of_app. destruct Hs as [[?|Hs]|?]; [by left; left| |by left; right]. unfold new in Hs.
      destruct (started r); [|by apply not_elem_of_nil in Hs]. apply list_elem_of_singleton in Hs as [= -> ->]. by right. }
    + destruct (H2 q h Hin) as (Hsm&y&Hy&?). split; [by apply Hold|]. destruct (decide (rid = q)) as [<-|].
      * exists r'. rewrite lookup_insert_eq, Hst. split; [done|]. congruence.
      * exists y. by rewrite lookup_insert_ne.
    + split; [by rewrite lookup_insert_eq|]. exists r'. by rewrite lookup_insert_eq, Hst.
  - destruct H3 as [? ?]. split; [done|]. apply Forall_app. split; [done|]. unfold new. destruct (started r); [|done]. by constructor.
  - intros q y. destruct (decide (rid = q)) as [<-|]; [rewrite lookup_insert_eq; by intros [= <-]|].
    rewrite lookup_insert_ne by done. intros Hy. by eapply items_ok_paths, H4.
  - intros q y sg. unfold slotted. cbn. destruct (decide (rid = q)) as [<-|].
    + rewrite lookup_insert_eq. intros [= <-]. rewrite Hit, Hst. intros Hs _ Hh. rewrite elem_of_app, list_elem_of_singleton. intros [Hin| ->].
      * destruct (H5 rid r sg Hr Hs Hsp Hh Hin) as [?|?]; [left; apply elem_of_app; by left|by right].
      * left. apply elem_of_app. right. unfold new. rewrite Hs. by left.
    + rewrite lookup_insert_ne by done. intros Hy Hs Hp Hh Hin. destruct (H5 q y sg Hy Hs Hp Hh Hin) as [?|?]; [left; apply elem_of_app; by left|by right].
  - done.
Qed.

Lemma run_consistent w : consistent w → consistent (run_turn w).
Proof.
  intros [H1 H2 H3 H4 H5 H6]. destruct H3 as [Hq Hw]. destruct (run_turn_fires w Hq) as (fired&q&Hf&_&Hp&->).
  pose proof (queue_split (wanted w) (clock w) (queue w)) as Hsplit.
  assert (∃ rest, entry_key <$> queue w ≡ₚ (entry_key <$> q) ++ rest) as [rest Hkeys].
  { eexists. rewrite Hsplit at 1. rewrite fmap_app. apply Permutation_app_tail. rewrite Hp, !fmap_app, rearm_keys. by rewrite Hf. }
  assert (∀ x, x ∈ slots (requeue q (seqNo w) w) → x ∈ slots w) as Hsub.
  { intros x. unfold slots. cbn. rewrite !elem_of_app, Hkeys, elem_of_app. tauto. }
  split; cbn; try done.
  - unfold slots in *. cbn. rewrite Hkeys, (assoc_L (++)) in H1. by apply NoDup_app in H1 as [? _].
  - intros r g Hs. apply H2. by apply Hsub.
  - split; [|done]. rewrite Hp. apply Forall_app. split.
    + apply Forall_forall. intros e [_ He]%list_elem_of_filter. rewrite Forall_forall in Hq. by apply Hq.
    + apply Forall_fmap. rewrite Hf. apply Forall_forall. intros e [_ He]%list_elem_of_filter. rewrite Forall_forall in Hq. by apply (Hq e).
  - intros r y sg Hy Hst Hsp Hh Hin. destruct (H5 r y sg Hy Hst Hsp Hh Hin) as [?|(e&He&Hk&Hi&Hd)]; [by left|right]. cbn.
    destruct (decide (ripe (clock w) e)) as [Hr|Hr].
    + exists (rearm (clock w) e). split_and!; [|done|done|cbn; lia]. rewrite Hp, elem_of_app. right. apply list_elem_of_fmap_2. rewrite Hf.
      apply list_elem_of_filter. split; [|done]. split; [done|]. unfold entry_key in Hk. injection Hk as -> ->. unfold wanted. rewrite Hy. unfold wants.
      rewrite Hsp. cbn. apply existsb_exists. exists sg. split; [by apply list_elem_of_In|apply Nat.eqb_refl].
    + exists e. split; [|done]. rewrite Hp, elem_of_app. left. by apply list_elem_of_filter.
Qed.

Lemma tick_consistent l1 rid g l2 draw w w' : run_tick draw rid g w = Some w' → consistent w → consistent (set_jobs (jobs w') (l1 ++ l2) w').
Proof.
  unfold run_tick. destruct (trees w !! rid) as [t|] eqn:Ht; [cbn|done]. destruct (gens w !! g) as [x|] eqn:Hx; [cbn|done].
  destruct (Tick draw (clock w) t x) as [[[[t' cs] x'] res]|] eqn:Et; [cbn|done]. intros [= <-] [H1 H2 H3 H4 H5 H6].
  pose proof (Tick_path _ _ _ _ _ _ _ _ Et) as Hpath.
  assert (∀ h, is_Some (gens w !! h) → is_Some (<[g := x']> (gens w) !! h) ∧ PathOf (<[g := x']> (gens w)) h = PathOf (gens w) h) as Hold.
  { intros h Hh. unfold PathOf. destruct (decide (g = h)) as [<-|]; [by rewrite lookup_insert_eq, Hx|by rewrite lookup_insert_ne]. }
  split; cbn; try done.
  - intros q h Hs. destruct (H2 q h Hs) as [? ?]. split; [by apply Hold|done].
  - intros q y Hy. by eapply items_ok_paths, H4.
  - intros q y. destruct (decide (rid = q)) as [<-|]; [rewrite lookup_insert_eq; intros [= <-]|by rewrite lookup_insert_ne by done; apply H6].
    by eapply Tick_wf, Et; eapply H6.
Qed.

Lemma step_consistent w w' : step w w' → consistent w → consistent w'.
Proof.
  intros Hs. destruct Hs as [rid t w Hn Ht|rid g cfg w w' Hg Ha|rid r path w Hr|rid r r' l w Hr Hs|rid r w Hr|l1 rid sg l2 w Ho|w|w w' Hj
    |l1 rid g l2 draw w w' _ Ht|rid t w [t0 Ht0] Ht|w|now w Hle]; intros Hc.
  - by apply new_consistent.
  - by eapply add_config_consistent.
  - destruct (Remove_ok (gens w) path r (runner_ok w Hc rid r Hr)) as (Hi&Hst&Hsp&Hin).
    eapply runner_consistent; [done..|by rewrite Hsp| |done]. intros sg Hsg. by apply Hin.
  - by eapply start_consistent.
  - eapply runner_consistent; [done|exact (runner_ok w Hc rid r Hr)|done..].
  - by apply add_consistent.
  - by apply run_consistent.
  - unfold take_job in Hj. destruct (jobs w) as [|[rid g] rest]; [done|]. injection Hj as <-. by destruct Hc; split.
  - by eapply tick_consistent.
  - pose proof Hc as [H1 H2 H3 H4 H5 H6]; split; try done. cbn. intros q y. destruct (decide (rid = q)) as [<-|].
    + rewrite lookup_insert_eq. by intros [= <-].
    + rewrite lookup_insert_ne by done. by apply (tree_ok w Hc).
  - destruct Hc; split; done.
  - destruct Hc as [H1 H2 H3 H4 H5 H6]; split; try done. cbn. intros q y sg Hy Hst Hsp Hh Hin.
    destruct (H5 q y sg Hy Hst Hsp Hh Hin) as [?|(e&?&?&?&?)]; [by left|right]. exists e. cbn. split_and!; try done. lia.
Qed.

Lemma reachable_consistent w : reachable w → consistent w.
Proof. induction 1 as [now|w w' _ IH Hs]; [apply init_consistent|by eapply step_consistent]. Qed.

(** C15. In every interleaving: while a runner is started and not stopped and
    the scheduler runs, each generator registered with it has exactly one slot:
    its registration is on its way, or its next tick is queued, at its cadence
    and at most one interval away. No slot is held twice, no two generators of
    a runner are registered under the same text of a path (two spellings of a
    path are two paths, see [other_spelling_registered]), and every tree the
    ticks write keeps its types. *)
Theorem never_forgotten (w : ticker) (Hreach : reachable w) :
  NoDup (slots w) ∧
  (∀ rid r, runners w !! rid = Some r →
    NoDup ((λ sg, PathOf (gens w) (gen sg)) <$> items r) ∧
    ∀ sg, sg ∈ items r → started r = true → stopped r = false → halted w = false →
      slotted w rid sg ∧ (rid, gen sg) ∈ slots w) ∧
  ∀ rid t, trees w !! rid = Some t → wf_tree t.
Proof.
  destruct (reachable_consistent w Hreach) as [H1 H2 H3 H4 H5 H6].
  split_and!; [done| |done]. intros rid r Hr. split; [by apply (H4 rid r Hr)|]. intros sg Hin Hst Hsp Hh.
  pose proof (H5 rid r sg Hr Hst Hsp Hh Hin) as Hs. split; [done|]. unfold slots. apply elem_of_app. destruct Hs as [Ho|(e&He&<-&_)].
  - left. by apply (list_elem_of_fmap_2 owed_key _ (rid, sg)).
  - right. by apply list_elem_of_fmap_2.
Qed.

(** Two generators that write one leaf are both accepted when its path is
    spelled with a dot at the end in one of them. *)
Example other_spelling_registered :
  let gens := {[0%nat := timestampGen (MkTimestamp "Up" TimestampUptime) 0; 1%nat := timestampGen (MkTimestamp "Up." TimestampUptime) 0]} in
  parsePath "Up" = parsePath "Up." ∧
  (r ← Add gens 0 1 NewRunner; r ← Add gens 1 1 r; Ok (length (items r))) = Ok 2%nat.
Proof. split; vm_compute; reflexivity. Qed.

(** A turn of the scheduler hands the workers exactly the generators that
    are due and still wanted, each once, the longest due first and in order of
    registration among equals; afterwards every slot is in the future, and the
    wait it announces ends at the first of them. *)
Theorem turn_exact (w : ticker) (Hreach : reachable w) :
  let '(ready, delay, q) := collectDue (wanted w) (clock w) (queue w) in
  (∃ fired, ready = rearm (clock w) <$> fired ∧ StronglySorted before fired ∧
    fired ≡ₚ filter (called (wanted w) (clock w)) (queue w)) ∧
  q ≡ₚ filter (λ e, ¬ ripe (clock w) e) (queue w) ++ ready ∧
  match delay with
  | None => q = []
  | Some d => (0 < d)%Z ∧ (∃ e, e ∈ q ∧ due e = clock w + d)%Z ∧ Forall (λ e, clock w + d ≤ due e)%Z q
  end.
Proof.
  destruct (slot_moves w (reachable_consistent w Hreach)) as [Hq _]. unfold collectDue.
  destruct (collect_loop_spec (wanted w) (clock w) (S (length (queue w))) (queue w)) as (fired&H1&H2&H3&H4); [|done|].
  { pose proof (length_filter (ripe (clock w)) (queue w)). lia. }
  destruct (collect_loop _ _ _ _) as [ready q]. cbn in *. subst ready. split_and!; [by exists fired|done|].
  destruct (Pop q) as [[e r]|] eqn:Ep; [|by apply Pop_none]. apply Pop_min in Ep as [Hp Hmin].
  assert (e ∈ q) as He by (rewrite Hp; by left). split_and!.
  - rewrite H4, elem_of_app in He. destruct He as [[He _]%list_elem_of_filter|(x&->&Hx)%list_elem_of_fmap]; [unfold ripe in He; lia|].
    rewrite H1 in Hx. apply list_elem_of_filter in Hx as [_ Hx]. rewrite Forall_forall in Hq. specialize (Hq x Hx). unfold advances in Hq. cbn. lia.
  - exists e. split; [done|lia].
  - rewrite Hp. constructor; [lia|]. eapply Forall_impl; [exact Hmin|]. intros x. unfold before, Less. destruct (Z.eqb_spec (due x) (due e)); lia.
Qed.

(** ** Example: a counter on a started runner *)

Definition ex_new : ticker := plant 0 ex_leaf (set_runner 0 NewRunner (MkTicker ∅ ∅ ∅ [] [] 0 false [] [] 0)).
Definition ex_config : GeneratorConfig := ex_validated.
Definition ex_added : ticker := set_runner 0 (MkRunner [MkScheduledGen 7 1000000000] {["Bytes"]} false false) (store 7 (counterGen ex_counter) ex_new).
Definition ex_started : ticker := owe [(0%nat, MkScheduledGen 7 1000000000)]
  (set_runner 0 (MkRunner [MkScheduledGen 7 1000000000] {["Bytes"]} true false) ex_added).
Definition ex_queued : ticker := add 0 (MkScheduledGen 7 1000000000) (owe [] ex_started).
Definition ex_later : ticker :=
  MkTicker (gens ex_queued) (runners ex_queued) (trees ex_queued) (owed ex_queued) (queue ex_queued) (seqNo ex_queued) false [] [] 2500000000.
Lemma ex_adds : AddConfig 0 7 ex_config ex_new = Ok ex_added.
Proof. vm_compute. reflexivity. Qed.
Lemma ex_reachable : reachable ex_later.
Proof.
  assert (reachable ex_started) as H.
  { eapply reach_step; [|apply (st_start 0 (MkRunner [MkScheduledGen 7 1000000000] {["Bytes"]} false false)
      (MkRunner [MkScheduledGen 7 1000000000] {["Bytes"]} true false) [MkScheduledGen 7 1000000000] ex_added); vm_compute; reflexivity].
    eapply reach_step; [|apply (st_add_config 0 7 ex_config ex_new ex_added); [vm_compute; reflexivity|apply ex_adds]].
    eapply reach_step; [apply reach_init|]. apply st_new; [vm_compute; reflexivity|apply ex_leaf_wf]. }
  eapply reach_step; [|apply (st_time 2500000000 ex_queued); vm_compute; discriminate].
  eapply reach_step; [exact H|]. by apply (st_add [] 0 (MkScheduledGen 7 1000000000) []).
Qed.

Lemma ex_item : runners ex_later !! 0%nat = Some (MkRunner [MkScheduledGen 7 1000000000] {["Bytes"]} true false).
Proof. vm_compute. reflexivity. Qed.
Lemma never_forgotten_witness : slotted ex_later 0 (MkScheduledGen 7 1000000000) ∧ NoDup (slots ex_later).
Proof.
  destruct (never_forgotten ex_later ex_reachable) as (H1&H2&_). split; [|exact H1].
  destruct (H2 0%nat _ ex_item) as [_ H]. apply (H (MkScheduledGen 7 1000000000)); [left|reflexivity..].
Defined.

Lemma ex_turn : collectDue (wanted ex_later) (clock ex_later) (queue ex_later) =
  ([MkEntry 0 7 1000000000 3500000000 1], Some 1000000000%Z, [MkEntry 0 7 1000000000 3500000000 1]).
Proof. vm_compute. reflexivity. Qed.
Lemma turn_exact_witness :
  ∃ fired, [MkEntry 0 7 1000000000 3500000000 1] = rearm (clock ex_later) <$> fired ∧
    fired ≡ₚ filter (called (wanted ex_later) (clock ex_later)) (queue ex_later).
Proof.
  pose proof (turn_exact ex_later ex_reachable) as H. rewrite ex_turn in H.
  destruct H as [(fired&H1&_&H2) _]. exists fired. split; [exact H1|exact H2].
Defined.
