(* ===== verification/Stun.v ===== *)
(** * STUN messages ([internal/cwmp/stun/codec.go]).

    A datagram is a list of octets, each a [Z] from 0 to 255. *)
From Stdlib Require Import ZArith Lia Ascii String.
From S2P Require Import Prelude GoLib CpeErr.

(** ** Octets *)

Definition octet (z : Z) : Prop := (0 ≤ z < 256)%Z.
(** [binary.BigEndian.Uint16] and [PutUint16], of the first two octets. *)
Definition Uint16 (b : list Z) : Z := match b with x :: y :: _ => (256 * x + y)%Z | _ => 0%Z end.
Definition PutUint16 (v : Z) : list Z := [(v / 256) mod 256; v mod 256]%Z.

(** ** Messages *)

Definition TypeBindingRequest : Z := 1.
Definition TypeBindingResponse : Z := 257.
Definition TypeBindingErrorResponse : Z := 273.
Definition AttrMappedAddress : Z := 1.
Definition AttrUsername : Z := 6.
Definition AttrMessageIntegrity : Z := 8.
Definition AttrErrorCode : Z := 9.
Definition AttrConnectionRequestBinding : Z := 49153.
Definition AttrBindingChange : Z := 49154.
Definition ConnectionRequestBindingValue : string := "dslforum.org/TR-111 ".
Definition headerLen : nat := 20.

Record Attribute := MkAttribute { aType : Z; aValue : list Z }.
Record Message := MkMessage { mType : Z; TransactionID : list Z; Attributes : list Attribute }.
Definition ErrMalformed : error := errorf "stun: malformed message" [].

Definition IsSTUN (b : list Z) : bool :=
  match b with
  | x :: _ => (headerLen <=? length b)%nat && (Z.land x 192 =? 0)%Z
  | [] => false
  end.

(** A length rounded up to a multiple of four. *)
Definition padded (n : nat) : nat := let rem := (n mod 4)%nat in if (rem =? 0)%nat then n else (n + (4 - rem))%nat.

Fixpoint decode_attributes (fuel : nat) (body : list Z) : result error (list Attribute) :=
  match fuel, body with
  | _, [] => Ok []
  | O, _ => Err ErrMalformed
  | S fuel, _ =>
      if (length body <? 4)%nat then Err ErrMalformed
      else
        let t := Uint16 body in
        let l := Z.to_nat (Uint16 (drop 2 body)) in
        if (length body <? 4 + l)%nat then Err ErrMalformed
        else
          let next := Nat.min (padded (4 + l)) (length body) in
          rest ← decode_attributes fuel (drop next body);
          Ok (MkAttribute t (take l (drop 4 body)) :: rest)
  end.
Definition Decode (b : list Z) : result error Message :=
  if (length b <? headerLen)%nat then Err ErrMalformed
  else
    let n := Z.to_nat (Uint16 (drop 2 b)) in
    if (length b <? headerLen + n)%nat then Err ErrMalformed
    else
      attrs ← decode_attributes n (take n (drop headerLen b));
      Ok (MkMessage (Uint16 b) (take 16 (drop 4 b)) attrs).

Definition encode_attribute (a : Attribute) : list Z :=
  PutUint16 (aType a) ++ PutUint16 (Z.of_nat (length (aValue a))) ++ aValue a ++
  replicate (padded (length (aValue a)) - length (aValue a)) 0%Z.
Definition Encode (m : Message) : list Z :=
  let body := mjoin (encode_attribute <$> Attributes m) in
  PutUint16 (mType m) ++ PutUint16 (Z.of_nat (length body)) ++ TransactionID m ++ body.

(** The first attribute of a type. *)
Definition Get (t : Z) (m : Message) : option (list Z) := aValue <$> List.find (λ a, (aType a =? t)%Z) (Attributes m).
Definition Add (t : Z) (v : list Z) (m : Message) : Message :=
  MkMessage (mType m) (TransactionID m) (Attributes m ++ [MkAttribute t v]).

(** An IPv4 address and a port. *)
Record UDPAddr := MkAddr { IP : list Z; Port : Z }.
#[export] Instance UDPAddr_eq_dec : EqDecision UDPAddr.
Proof. solve_decision. Defined.
Definition MappedAddress (m : Message) : result error UDPAddr :=
  match Get AttrMappedAddress m with
  | None => Err (errorf "stun: no MAPPED-ADDRESS in the response" [])
  | Some v =>
      if (length v <? 8)%nat || negb (nth 1 v 0 =? 1)%Z then Err ErrMalformed
      else Ok (MkAddr (take 4 (drop 4 v)) (Uint16 (drop 2 v)))
  end.
Definition ErrorCode (m : Message) : Z :=
  match Get AttrErrorCode m with
  | Some v => if (length v <? 4)%nat then 0 else (Z.land (nth 2 v 0) 7 * 100 + nth 3 v 0)%Z
  | None => 0
  end.

Definition bytes_of (s : string) : list Z := (λ c, Z.of_N (N_of_ascii c)) <$> list_ascii_of_string s.
(** At most three spaces are added: [fuel] bounds the loop. *)
Fixpoint pad_loop (fuel : nat) (b : list Z) : list Z :=
  match fuel with
  | O => b
  | S fuel => if (length b mod 4 =? 0)%nat then b else pad_loop fuel (b ++ [32%Z])
  end.
Definition PadUsername (u : string) : list Z := pad_loop 4 (bytes_of u).

(** ** The codec reads what it writes *)

Definition u16 (z : Z) : Prop := (0 ≤ z < 65536)%Z.
Definition wf_attribute (a : Attribute) : Prop := u16 (aType a) ∧ u16 (Z.of_nat (length (aValue a))).
Definition wf_message (m : Message) : Prop :=
  u16 (mType m) ∧ length (TransactionID m) = 16%nat ∧ Forall wf_attribute (Attributes m) ∧
  u16 (Z.of_nat (length (mjoin (encode_attribute <$> Attributes m)))).

Lemma Uint16_Put v b : u16 v → Uint16 (PutUint16 v ++ b) = v.
Proof.
  unfold u16, Uint16, PutUint16. cbn. intros H. rewrite (Z.mod_small (v / 256)).
  - symmetry. rewrite Z.mul_comm at 1. rewrite Z.mul_comm. apply Z.div_mod. lia.
  - split; [apply Z.div_pos; lia|apply Z.div_lt_upper_bound; lia].
Qed.

Lemma padded_spec n : (n ≤ padded n < n + 4)%nat ∧ (padded n mod 4 = 0)%nat.
Proof.
  unfold padded. pose proof (Nat.mod_upper_bound n 4 ltac:(lia)) as Hb. pose proof (Nat.div_mod_eq n 4) as Hd.
  destruct (Nat.eqb_spec (n mod 4) 0) as [E|E]; [lia|]. split; [lia|].
  replace (n + (4 - n mod 4))%nat with (4 * (n / 4 + 1))%nat by lia. rewrite Nat.mul_comm. apply Nat.Div0.mod_mul.
Qed.
Lemma padded_unique n k : (n ≤ k < n + 4)%nat → (k mod 4 = 0)%nat → padded n = k.
Proof.
  intros Hk Hm. destruct (padded_spec n) as [H1 H2].
  pose proof (Nat.div_mod_eq k 4). pose proof (Nat.div_mod_eq (padded n) 4). lia.
Qed.
Lemma padded_add4 n : padded (4 + n) = (4 + padded n)%nat.
Proof.
  destruct (padded_spec n) as [H1 H2]. apply padded_unique; [lia|].
  rewrite Nat.add_comm. replace (padded n + 4)%nat with (padded n + 1 * 4)%nat by lia. by rewrite Nat.Div0.mod_add.
Qed.

Lemma padded_mono n k : (n ≤ k)%nat → (padded n ≤ padded k)%nat.
Proof.
  intros H. destruct (padded_spec n) as [H1 H2], (padded_spec k) as [H3 H4].
  pose proof (Nat.div_mod_eq (padded k) 4). pose proof (Nat.div_mod_eq (padded n) 4). lia.
Qed.
Lemma padded_add n k : padded (padded n + k) = (padded n + padded k)%nat.
Proof.
  destruct (padded_spec n) as [H1 H2], (padded_spec k) as [H3 H4]. apply padded_unique; [lia|].
  rewrite Nat.Div0.add_mod, H2, H4. done.
Qed.

Lemma length_encode_attribute a : length (encode_attribute a) = padded (4 + length (aValue a)).
Proof.
  unfold encode_attribute. rewrite !length_app, length_replicate, padded_add4. cbn.
  pose proof (padded_spec (length (aValue a))). lia.
Qed.

Lemma decode_attribute a rest fuel : wf_attribute a →
  decode_attributes (S fuel) (encode_attribute a ++ rest) = (r ← decode_attributes fuel rest; Ok (a :: r)).
Proof.
  intros [Ht Hl]. set (body := encode_attribute a ++ rest).
  assert (length body = (padded (4 + length (aValue a)) + length rest)%nat) as Hlen.
  { unfold body. by rewrite length_app, length_encode_attribute. }
  pose proof (padded_spec (4 + length (aValue a))) as [Hp _].
  assert (Uint16 body = aType a) as E1.
  { unfold body, encode_attribute. rewrite <-!(assoc_L (++)). by apply Uint16_Put. }
  assert (Z.to_nat (Uint16 (drop 2 body)) = length (aValue a)) as E2.
  { unfold body, encode_attribute. rewrite <-!(assoc_L (++)). cbn [drop PutUint16 app].
    change (?x :: ?y :: ?z) with ([x; y] ++ z). fold (PutUint16 (Z.of_nat (length (aValue a)))). rewrite Uint16_Put by done. lia. }
  assert (take (length (aValue a)) (drop 4 body) = aValue a) as E3.
  { unfold body, encode_attribute. rewrite <-!(assoc_L (++)). cbn [drop PutUint16 app]. by rewrite drop_0, take_app_length. }
  assert (drop (Nat.min (padded (4 + length (aValue a))) (length body)) body = rest) as E4.
  { rewrite Nat.min_l by lia. unfold body. by rewrite <-length_encode_attribute, drop_app_length. }
  cbn [decode_attributes]. destruct body as [|x body'] eqn:Eb; [exfalso; change (@length Z []) with 0%nat in Hlen; lia|]. rewrite <-Eb in *.
  destruct (Nat.ltb_spec (length body) 4); [lia|]. rewrite E2. destruct (Nat.ltb_spec (length body) (4 + length (aValue a))); [lia|].
  rewrite E1, E3, E4. by destruct a.
Qed.

Lemma body_cons a l : mjoin (encode_attribute <$> a :: l) = encode_attribute a ++ mjoin (encode_attribute <$> l).
Proof. done. Qed.

Lemma decode_encode_attributes l fuel : Forall wf_attribute l → (length l ≤ fuel)%nat →
  decode_attributes fuel (mjoin (encode_attribute <$> l)) = Ok l.
Proof.
  intros Hl. revert fuel. induction Hl as [|a l Ha _ IH]; intros fuel Hf; [by destruct fuel|].
  destruct fuel as [|fuel]; [cbn in Hf; lia|]. rewrite body_cons, decode_attribute by done.
  cbn in Hf. by rewrite IH by lia.
Qed.

Lemma length_attributes l : (length l ≤ length (mjoin (encode_attribute <$> l)))%nat.
Proof.
  induction l as [|a l IH]; [done|]. rewrite body_cons, length_app, length_encode_attribute.
  destruct (padded_spec (4 + length (aValue a))) as [Hp _]. cbn [length]. lia.
Qed.

(** A message within the format's bounds is decoded from its encoding,
    whatever follows it in the datagram. *)
Theorem Decode_Encode (m : Message) (trailing : list Z) (H : wf_message m) : Decode (Encode m ++ trailing) = Ok m.
Proof.
  destruct H as (Ht&Hid&Ha&Hn). unfold Decode, Encode. set (body := mjoin _) in *. rewrite <-!(assoc_L (++)).
  assert (∀ l, length (PutUint16 (mType m) ++ PutUint16 (Z.of_nat (length body)) ++ TransactionID m ++ body ++ l) =
    (20 + length body + length l)%nat) as Hl by (intros l; rewrite !length_app, Hid; cbn; lia).
  rewrite Hl. unfold headerLen. destruct (Nat.ltb_spec (20 + length body + length trailing) 20); [lia|].
  rewrite Uint16_Put by done. set (b := PutUint16 (mType m) ++ _).
  assert (Z.to_nat (Uint16 (drop 2 b)) = length body) as ->.
  { unfold b. cbn [drop PutUint16 app]. change (?x :: ?y :: ?z) with ([x; y] ++ z).
    fold (PutUint16 (Z.of_nat (length body))). rewrite Uint16_Put by done. lia. }
  destruct (Nat.ltb_spec (20 + length body + length trailing) (20 + length body)); [lia|].
  assert (take 16 (drop 4 b) = TransactionID m) as ->.
  { unfold b. cbn [drop PutUint16 app]. by rewrite drop_0, <-Hid, take_app_length. }
  assert (take (length body) (drop 20 b) = body) as ->.
  { unfold b. cbn [PutUint16 app]. change (drop 20 (?x :: ?y :: ?z :: ?w :: ?t)) with (drop 16 t).
    rewrite <-Hid, drop_app_length. by rewrite take_app_length. }
  unfold body. rewrite decode_encode_attributes; [by destruct m|done|apply length_attributes].
Qed.

(** ** What is read is well formed *)

Lemma Uint16_range b : Forall octet b → u16 (Uint16 b).
Proof.
  unfold u16, octet. destruct b as [|x [|y b]]; cbn; [lia|lia|]. intros H. inversion H as [|? ? ? H']; subst. inversion H'; subst. lia.
Qed.

Lemma decode_attributes_ok fuel body l : Forall octet body → decode_attributes fuel body = Ok l →
  Forall wf_attribute l ∧ (length (mjoin (encode_attribute <$> l)) ≤ padded (length body))%nat.
Proof.
  revert body l. induction fuel as [|fuel IH]; intros body l Ho.
  { destruct body; [|done]. intros [= <-]. by split; [|vm_compute; lia]. }
  destruct body as [|x body']; [intros [= <-]; by split; [|vm_compute; lia]|]. cbn [decode_attributes].
  set (body := x :: body') in *. destruct (Nat.ltb_spec (length body) 4); [done|].
  set (n := Z.to_nat (Uint16 (drop 2 body))). destruct (Nat.ltb_spec (length body) (4 + n)) as [|Hn]; [done|].
  destruct (decode_attributes fuel _) as [rest|] eqn:Er; [|done]. intros [= <-].
  apply IH in Er as [Hr Hlen]; [|by apply Forall_drop].
  assert (length (take n (drop 4 body)) = n) as El by (rewrite length_take, length_drop; lia).
  split.
  - constructor; [|done]. split; [exact (Uint16_range body Ho)|]. change (u16 (Z.of_nat (length (take n (drop 4 body))))). rewrite El.
    pose proof (Uint16_range (drop 2 body) ltac:(by apply Forall_drop)) as Hu. unfold u16, n in *. lia.
  - rewrite body_cons, length_app, length_encode_attribute. change (aValue _) with (take n (drop 4 body)). rewrite El. rewrite length_drop in Hlen.
    destruct (Nat.le_gt_cases (padded (4 + n)) (length body)) as [Hle|Hgt].
    + rewrite Nat.min_l in Hlen by done.
      replace (length body) with (padded (4 + n) + (length body - padded (4 + n)))%nat by lia. rewrite padded_add. lia.
    + rewrite Nat.min_r, Nat.sub_diag in Hlen by lia. change (padded 0) with 0%nat in Hlen.
      pose proof (padded_mono (4 + n) (length body) Hn). lia.
Qed.

(** Every datagram of at most 65,000 octets that decodes gives a message
    that encodes and decodes to itself: a response can be quoted back. *)
Theorem Decode_stable (b : list Z) (m : Message) (Ho : Forall octet b) (Hlen : (Z.of_nat (length b) ≤ 65000)%Z) (H : Decode b = Ok m) :
  wf_message m ∧ Decode (Encode m) = Ok m.
Proof.
  assert (wf_message m) as Hw.
  { unfold Decode, headerLen in H. destruct (Nat.ltb_spec (length b) 20); [done|].
    destruct (Nat.ltb_spec (length b) (20 + Z.to_nat (Uint16 (drop 2 b)))); [done|].
    destruct (decode_attributes _ _) as [l|] eqn:El; [|done]. injection H as <-.
    apply decode_attributes_ok in El as [Hl Hb]; [|by apply Forall_take, Forall_drop].
    split_and!; cbn; [by apply Uint16_range|rewrite length_take, length_drop; lia|done|].
    set (k := Z.to_nat (Uint16 (drop 2 b))) in *.
    assert (length (take k (drop 20 b)) = k) as Hk by (rewrite length_take, length_drop; lia).
    rewrite Hk in Hb. destruct (padded_spec k) as [Hp _]. unfold u16. lia. }
  split; [done|]. rewrite <-(app_nil_r (Encode m)). by apply Decode_Encode.
Qed.

(** The padded username is the username and fewer than four spaces, and fills
    whole words: the codec adds nothing to it. *)
Lemma PadUsername_spec u : ∃ k, (k < 4)%nat ∧ PadUsername u = bytes_of u ++ replicate k 32%Z ∧ (length (PadUsername u) mod 4 = 0)%nat.
Proof.
  unfold PadUsername. set (b := bytes_of u).
  assert (∀ fuel (k : nat), (padded (length b) - length b - k < fuel)%nat → (length b + k ≤ padded (length b))%nat →
    pad_loop fuel (b ++ replicate k 32%Z) = b ++ replicate (padded (length b) - length b) 32%Z) as H.
  { intros fuel. induction fuel as [|fuel IH]; intros k Hf Hk; [lia|]. cbn [pad_loop]. rewrite length_app, length_replicate.
    destruct (padded_spec (length b)) as [H1 H2]. destruct (Nat.eqb_spec ((length b + k) mod 4) 0) as [E|E].
    - f_equal. f_equal. rewrite (padded_unique (length b) (length b + k)); lia.
    - rewrite <-(assoc_L (++)). rewrite <-replicate_S_end. apply IH.
      + assert (length b + k ≠ padded (length b))%nat by (intros E'; rewrite E' in E; done). lia.
      + assert (length b + k ≠ padded (length b))%nat by (intros E'; rewrite E' in E; done). lia. }
  destruct (padded_spec (length b)) as [H1 H2].
  assert (pad_loop 4 b = b ++ replicate (padded (length b) - length b) 32%Z) as E.
  { rewrite <-(H 4%nat 0%nat) by lia. cbn [replicate]. by rewrite app_nil_r. }
  exists (padded (length b) - length b)%nat. rewrite E. split_and!; [lia|done|].
  rewrite length_app, length_replicate. by replace (length b + (padded (length b) - length b))%nat with (padded (length b)) by lia.
Qed.

(** ** Examples *)

Definition ex_id : list Z := seqZ 1 16.
Definition ex_message : Message :=
  MkMessage TypeBindingRequest ex_id [MkAttribute AttrUsername (PadUsername "user1");
    MkAttribute AttrConnectionRequestBinding (bytes_of ConnectionRequestBindingValue); MkAttribute AttrBindingChange []].
Lemma ex_wf : wf_message ex_message.
Proof. split_and!; [done|done| |done]. repeat constructor; done. Qed.
Lemma Decode_Encode_witness : Decode (Encode ex_message ++ [7%Z]) = Ok ex_message.
Proof. exact (Decode_Encode ex_message [7%Z] ex_wf). Defined.

(** A response with an odd attribute, without padding at its end. *)
Definition ex_datagram : list Z := [1; 1; 0; 13]%Z ++ ex_id ++ [0; 1; 0; 8; 0; 1; 4; 210; 198; 51; 100; 7; 9]%Z.
Definition ex_response : list Z := [1; 1; 0; 12]%Z ++ ex_id ++ [0; 1; 0; 8; 0; 1; 4; 210; 198; 51; 100; 7]%Z.
Definition ex_answer : Message := MkMessage 257 ex_id [MkAttribute 1 [0; 1; 4; 210; 198; 51; 100; 7]%Z].
Example ex_malformed : Decode ex_datagram = Err ErrMalformed.
Proof. reflexivity. Qed.
Example ex_mapped : Decode ex_response = Ok ex_answer ∧ MappedAddress ex_answer = Ok (MkAddr [198; 51; 100; 7]%Z 1234).
Proof. split; reflexivity. Qed.
Lemma ex_octets : Forall octet ex_response.
Proof. unfold octet. repeat constructor; done. Qed.
Lemma ex_response_short : (Z.of_nat (length ex_response) ≤ 65000)%Z.
Proof. vm_compute. discriminate. Qed.
Lemma Decode_stable_witness : Decode (Encode ex_answer) = Ok ex_answer.
Proof. exact (proj2 (Decode_stable ex_response ex_answer ex_octets ex_response_short (proj1 ex_mapped))). Defined.

(** The documentation of [IsSTUN] says the first byte is 0 or 1; the mask
    accepts every first byte below 64, a line break among them. *)
Lemma any_low_byte_is_STUN (x : Z) (rest : list Z) (Hx : (0 ≤ x < 64)%Z) (Hl : (20 ≤ length (x :: rest))%nat) :
  IsSTUN (x :: rest) = true.
Proof.
  unfold IsSTUN, headerLen. destruct (Nat.leb_spec 20 (length (x :: rest))); [|lia]. cbn.
  assert (Z.land x 192 = 0)%Z as ->; [|done]. apply Z.bits_inj'. intros n Hn. rewrite Z.land_spec, Z.bits_0.
  destruct (Z.lt_ge_cases n 6) as [Hlt|Hge].
  - assert (n = 0 ∨ n = 1 ∨ n = 2 ∨ n = 3 ∨ n = 4 ∨ n = 5)%Z as Hc by lia.
    destruct Hc as [->|[->|[->|[->|[->| ->]]]]]; by rewrite andb_false_r.
  - destruct (Z.eq_dec x 0%Z) as [->|]; [by rewrite Z.bits_0|]. rewrite Z.bits_above_log2; [done|lia|].
    apply Z.lt_le_trans with 6%Z; [|lia]. apply Z.log2_lt_pow2; lia.
Qed.
