(* ===== verification/StunClient.v ===== *)
(** * The STUN client and UDP connection requests ([internal/cwmp/stun/client.go]).

    Instants are nanoseconds. What the client's goroutine does between two
    waits is one function of its state, but for the validation of a connection
    request, whose two critical sections are steps of their own, since loops may
    overlap around a restart; the socket, the resolver, the random transaction
    ids, HTTP parsing and HMAC-SHA1 are arguments. *)
From Stdlib Require Import ZArith Lia Ascii String Sorting.Sorted.
From S2P Require Import Prelude GoLib GoText GoAuth CpeErr Types Node Tree TreeProps Stun.

(** ** Settings *)

Record Paths := MkPaths {
  Enable : string; ServerAddress : string; ServerPort : string; Username : string; Password : string;
  MinKeepAlive : string; MaxKeepAlive : string; UDPAddress : string; NATDetected : string;
  CRUsername : string; CRPassword : string
}.
Definition PathsUnder (root : string) : Paths :=
  MkPaths (root +:+ "STUNEnable") (root +:+ "STUNServerAddress") (root +:+ "STUNServerPort") (root +:+ "STUNUsername")
    (root +:+ "STUNPassword") (root +:+ "STUNMinimumKeepAlivePeriod") (root +:+ "STUNMaximumKeepAlivePeriod")
    (root +:+ "UDPConnectionRequestAddress") (root +:+ "NATDetected") (root +:+ "ConnectionRequestUsername")
    (root +:+ "ConnectionRequestPassword").

Record settings := MkSettings {
  enabled : bool; server : string; port : Z; username : string; minKeepAlive : Z; maxKeepAlive : Z
}.
#[export] Instance settings_eq_dec : EqDecision settings.
Proof. solve_decision. Defined.

Definition Millisecond : Z := 1000000.
Definition Second : Z := 1000000000.

Definition read (t : Tree) (path : string) : string := match Tree.Get t path with Ok v => Raw v | Err _ => "" end.

Definition isTrue (v : string) : bool := let v := Space.TrimSpace v in EqualFold v "true" || String.eqb v "1".

Section settings.
Context (paths : Paths) (ACSHost : string).

Definition current (t : Tree) : settings :=
  let server := Space.TrimSpace (read t (ServerAddress paths)) in
  let server := if String.eqb server "" then ACSHost else server in
  let port := Strconv.Atoi_value (read t (ServerPort paths)) in
  let port := (if port <=? 0 then 3478 else port)%Z in
  let minKA := Strconv.Atoi_value (read t (MinKeepAlive paths)) in
  let maxKA := Strconv.Atoi_value (read t (MaxKeepAlive paths)) in
  let minKA := (if minKA <=? 0 then 30 else minKA)%Z in
  let minKA := (if (0 <? maxKA) && (maxKA <? minKA) then maxKA else minKA)%Z in
  MkSettings (isTrue (read t (Enable paths))) server port (read t (Username paths)) (i64 (minKA * Second)) (i64 (maxKA * Second)).
End settings.

(** [Detect]: the root whose STUN leaves the profile models. *)
Definition has (t : Tree) (path : string) : bool := is_ok (Tree.Get t path).
Definition ErrNotModelled : error := errorf "stun: the profile models no ManagementServer STUN leaves" [].
Fixpoint detect_roots (t : Tree) (roots : list string) : result error Paths :=
  match roots with
  | [] => Err ErrNotModelled
  | root :: rest =>
      let p := PathsUnder root in
      if has t (Enable p) then
        match List.find (λ required, negb (has t required)) [ServerAddress p; UDPAddress p; NATDetected p] with
        | Some required => Err (errorf "stun: %s is modelled but %s is not" [Enable p; required])
        | None => Ok p
        end
      else detect_roots t rest
  end.
Definition Detect (t : Tree) : result error Paths :=
  detect_roots t ["Device.ManagementServer."; "InternetGatewayDevice.ManagementServer."].

(** ** The client *)

(** [running]: the settings the loop was started with, while [c.running];
    [seen] and [lastID] together. *)
Record Client := MkClient { running : option settings; lastTS : Z; lastID : option Z }.
Definition New : Client := MkClient None 0 None.

(** What a reconciliation does to the loop. *)
Inductive loop_action := Cancel | Launch (s : settings).

(** The part of [reconcile] under the mutex, [want] having been read before. *)
Definition reconcile (want : settings) (c : Client) : Client * list loop_action :=
  if bool_decide (running c = Some want) then (c, [])
  else
    let cancels := match running c with Some _ => [Cancel] | None => [] end in
    if negb (enabled want) || String.eqb (server want) ""
    then (MkClient None (lastTS c) (lastID c), cancels)
    else (MkClient (Some want) (lastTS c) (lastID c), cancels ++ [Launch want]).

(** A reconciliation that no write overtakes leaves the loop the tree asks for. *)
Definition wanted_loop (s : settings) : option settings :=
  if enabled s && negb (String.eqb (server s) "") then Some s else None.
Definition loop_fits (c : Client) : Prop := ∀ s, running c = Some s → wanted_loop s = Some s.
Lemma reconcile_fits want c : loop_fits c →
  running (reconcile want c).1 = wanted_loop want ∧ loop_fits (reconcile want c).1.
Proof.
  intros H. unfold reconcile. destruct (bool_decide_reflect (running c = Some want)) as [E|E].
  - cbn. rewrite E. split; [by rewrite (H want E)|done].
  - unfold loop_fits, wanted_loop. destruct (enabled want) eqn:Ee, (String.eqb (server want) "") eqn:Es; cbn; split; try done.
    intros s [= <-]. by rewrite Ee, Es.
Qed.

(** ** The process around the client *)

(** Goroutines the tree's observer started: [woken] are yet to read the tree,
    [reading] have read it and wait for the mutex. *)
Record world := MkWorld { tree : Tree; client : Client; woken : nat; reading : list settings }.

Inductive wstep (paths : Paths) (host : string) : world → world → Prop :=
| w_write t w : wstep paths host w (MkWorld t (client w) (S (woken w)) (reading w))
| w_read n w : woken w = S n → wstep paths host w (MkWorld (tree w) (client w) n (reading w ++ [current paths host (tree w)]))
| w_lock l1 s l2 w : reading w = l1 ++ s :: l2 →
    wstep paths host w (MkWorld (tree w) (reconcile s (client w)).1 (woken w) (l1 ++ l2)).
Inductive wsteps (paths : Paths) (host : string) : world → world → Prop :=
| ws_refl w : wsteps paths host w w
| ws_step w1 w2 w3 : wsteps paths host w1 w2 → wstep paths host w2 w3 → wsteps paths host w1 w3.

(** ** Connection requests *)

Section requests.
(** The query of a datagram that is an HTTP GET, and the hexadecimal
    HMAC-SHA1 of a message under a key. *)
Context (ReadQuery : list Z → option (string → string)) (hmac : string → string → string).
Context (paths : Paths).

Definition Sign (password : string) (ts id : Z) (username cnonce : string) : string :=
  hmac password (Strconv.Itoa ts +:+ Strconv.Itoa id +:+ username +:+ cnonce).

(** What a request asks for: its timestamp, its message id, its query. *)
Definition stamp (d : list Z) : option (Z * Z * (string → string)) :=
  q ← ReadQuery d;
  match Strconv.ParseInt (q "ts") 64, Strconv.ParseUint (q "id") 32 with
  | Ok ts, Ok id => Some (ts, id, q)
  | _, _ => None
  end.

(** A request under the credentials read for it, up to the end of the checks:
    the first critical section only copies what was last accepted. *)
Definition examine (username password : string) (d : list Z) (c : Client) : option (Z * Z) :=
  match stamp d with
  | None => None
  | Some (ts, id, q) =>
      if (ts <=? lastTS c)%Z then None
      else if bool_decide (lastID c = Some id) then None
      else if negb (String.eqb (q "un") username) then None
      else
        let want := Sign password ts id (q "un") (q "cn") in
        if negb (EqualFold (q "sig") want) then None
        else Some (ts, id)
  end.
(** The second critical section. *)
Definition commit (ts id : Z) (c : Client) : Client := MkClient (running c) ts (Some id).

(** *** The loops that listen *)

(** Where a loop is with a datagram; the trees are those its reads of the
    username and of the password found. *)
Inductive stage :=
| Idle
| Received (tu tp : Tree) (d : list Z)
| Passed (tu tp : Tree) (d : list Z) (ts id : Z).
Record listener := MkListener { cancelled : bool; at_ : stage }.

(** [accepted]: the requests that started a session, the last one last. *)
Record listening := MkListening { shared : Client; loops : list listener; accepted : list (Tree * Tree * list Z) }.

(** [reconcile] cancels the loop there is and starts another one without
    waiting for it: a cancelled loop may still have a datagram in hand, or
    take one more that its socket had read. *)
Definition relaunch (acts : list loop_action) (ls : list listener) : list listener :=
  foldl (λ ls a, match a with
    | Cancel => (λ l, MkListener true (at_ l)) <$> ls
    | Launch _ => ls ++ [MkListener false Idle]
    end) ls acts.

(** What [connectionRequest] does, section by section. *)
Inductive lstep : listening → listening → Prop :=
| l_reconcile want w : lstep w
    (MkListening (reconcile want (shared w)).1 (relaunch (reconcile want (shared w)).2 (loops w)) (accepted w))
| l_end l1 l2 w : loops w = l1 ++ MkListener true Idle :: l2 → lstep w (MkListening (shared w) (l1 ++ l2) (accepted w))
| l_receive l1 b l2 tu tp d w : loops w = l1 ++ MkListener b Idle :: l2 →
    lstep w (MkListening (shared w) (l1 ++ MkListener b (Received tu tp d) :: l2) (accepted w))
| l_examine l1 b l2 tu tp d w : loops w = l1 ++ MkListener b (Received tu tp d) :: l2 →
    lstep w (MkListening (shared w)
      (l1 ++ MkListener b (match examine (read tu (CRUsername paths)) (read tp (CRPassword paths)) d (shared w) with
        | Some (ts, id) => Passed tu tp d ts id | None => Idle end) :: l2) (accepted w))
| l_commit l1 b l2 tu tp d ts id w : loops w = l1 ++ MkListener b (Passed tu tp d ts id) :: l2 →
    lstep w (MkListening (commit ts id (shared w)) (l1 ++ MkListener b Idle :: l2) (accepted w ++ [(tu, tp, d)])).
(** A history in which [ok] holds all along. *)
Inductive heard (ok : listening → Prop) : listening → Prop :=
| h_start : heard ok (MkListening New [] [])
| h_step w w' : heard ok w → lstep w w' → ok w' → heard ok w'.

(** At most one loop has a request in hand. *)
Definition busy (l : listener) : Prop := at_ l ≠ Idle.
Definition one_at_a_time (w : listening) : Prop :=
  ∀ l1 x l2 y l3, loops w = l1 ++ x :: l2 ++ y :: l3 → ¬ (busy x ∧ busy y).

(** *** No replay *)

(** The timestamp and message id a datagram carries; that it carries this
    username, and the signature of its own timestamp, id, username and nonce
    under this password. *)
Definition stamped (d : list Z) (ts id : Z) : Prop :=
  ∃ q, ReadQuery d = Some q ∧ Strconv.ParseInt (q "ts") 64 = Ok ts ∧ Strconv.ParseUint (q "id") 32 = Ok id.
Definition genuine (username password : string) (d : list Z) : Prop :=
  ∃ q ts id, ReadQuery d = Some q ∧ Strconv.ParseInt (q "ts") 64 = Ok ts ∧ Strconv.ParseUint (q "id") 32 = Ok id ∧
    q "un" = username ∧
    EqualFold (q "sig") (hmac password (Strconv.Itoa ts +:+ Strconv.Itoa id +:+ username +:+ q "cn")) = true.
Definition later (x y : list Z) : Prop := ∃ ts id ts' id', stamped x ts id ∧ stamped y ts' id' ∧ (ts < ts')%Z.
(** The username and the password are each one the tree held. *)
Definition credited (p : Tree * Tree * list Z) : Prop :=
  genuine (read p.1.1 (CRUsername paths)) (read p.1.2 (CRPassword paths)) p.2.

Lemma stamp_stamped d ts id q : stamp d = Some (ts, id, q) ↔
  ReadQuery d = Some q ∧ Strconv.ParseInt (q "ts") 64 = Ok ts ∧ Strconv.ParseUint (q "id") 32 = Ok id.
Proof.
  unfold stamp. destruct (ReadQuery d) as [q'|]; cbn; [|by split; [|intros [? _]]].
  destruct (Strconv.ParseInt (q' "ts") 64) as [ts'|] eqn:E1, (Strconv.ParseUint (q' "id") 32) as [id'|] eqn:E2;
    (split; [intros H; by inversion H; subst|intros ([= ->]&H1&H2); rewrite H1 in E1; rewrite H2 in E2; by simplify_eq]).
Qed.
Lemma stamped_fun d ts id ts' id' : stamped d ts id → stamped d ts' id' → ts = ts' ∧ id = id'.
Proof. intros (q&H1&H2&H3) (q'&H1'&H2'&H3'). rewrite H1 in H1'. injection H1' as <-. rewrite H2 in H2'. rewrite H3 in H3'. by simplify_eq. Qed.

(** The checks, decided. *)
Lemma examine_spec u p d c ts id : examine u p d c = Some (ts, id) ↔
  stamped d ts id ∧ genuine u p d ∧ (lastTS c < ts)%Z ∧ lastID c ≠ Some id.
Proof.
  unfold examine. split.
  - destruct (stamp d) as [[[ts' id'] q]|] eqn:Es; [|done]. apply stamp_stamped in Es as (Hq&Ht&Hi).
    destruct (Z.leb_spec ts' (lastTS c)); [done|]. destruct (bool_decide_reflect (lastID c = Some id')); [done|].
    destruct (String.eqb_spec (q "un") u) as [Eu|]; [|done]. cbn.
    destruct (EqualFold _ _) eqn:Ef; [|done]. cbn. intros [= <- <-]. split; [by exists q|]. split; [|done].
    exists q, ts', id'. unfold Sign in Ef. by rewrite <-Eu.
  - intros (Hs&(q&ts'&id'&Hq&Ht&Hi&Hu&Hg)&Hlt&Hid).
    destruct (stamped_fun d ts id ts' id' Hs ltac:(by exists q)) as [-> ->].
    rewrite (proj2 (stamp_stamped d ts' id' q)) by done. destruct (Z.leb_spec ts' (lastTS c)); [lia|].
    rewrite bool_decide_false by done. unfold Sign. by rewrite Hu, String.eqb_refl, Hg.
Qed.

(** What holds of any history. *)
Definition passed_ok (l : listener) : Prop :=
  match at_ l with Passed tu tp d ts id => stamped d ts id ∧ credited (tu, tp, d) | _ => True end.
Lemma relaunch_passed acts ls : Forall passed_ok ls → Forall passed_ok (relaunch acts ls).
Proof.
  revert ls. induction acts as [|a acts IH]; intros ls H; [done|]. apply IH. destruct a.
  - apply Forall_fmap. eapply Forall_impl; [exact H|done].
  - apply Forall_app. split; [done|]. by constructor.
Qed.
Lemma relaunch_busy acts ls (P : listener → Prop) : (∀ b b' s, P (MkListener b s) → P (MkListener b' s)) → P (MkListener false Idle) →
  Forall P ls → Forall P (relaunch acts ls).
Proof.
  intros Hb Hi. revert ls. induction acts as [|a acts IH]; intros ls H; [done|]. apply IH. destruct a.
  - apply Forall_fmap. eapply Forall_impl; [exact H|]. intros [b s]. apply Hb.
  - apply Forall_app. split; [done|]. by constructor.
Qed.
Lemma reconcile_last want c : lastTS (reconcile want c).1 = lastTS c ∧ lastID (reconcile want c).1 = lastID c.
Proof. unfold reconcile. by repeat case_match. Qed.

Lemma heard_genuine ok w : heard ok w → Forall passed_ok (loops w) ∧ Forall credited (accepted w).
Proof.
  induction 1 as [|w w' _ [IH1 IH2] Hs _]; [by split; constructor|].
  destruct Hs as [want w|l1 l2 w E|l1 b l2 tu tp d w E|l1 b l2 tu tp d w E|l1 b l2 tu tp d ts id w E]; cbn.
  - split; [by apply relaunch_passed|done].
  - rewrite E in IH1. apply Forall_app in IH1 as [H1 [_ H2]%Forall_cons]. split; [by apply Forall_app|done].
  - rewrite E in IH1. apply Forall_app in IH1 as [H1 [_ H2]%Forall_cons]. split; [|done]. apply Forall_app. split; [done|by constructor].
  - rewrite E in IH1. apply Forall_app in IH1 as [H1 [_ H2]%Forall_cons]. split; [|done]. apply Forall_app. split; [done|].
    constructor; [|done]. unfold passed_ok. cbn. destruct (examine _ _ _ _) as [[ts id]|] eqn:Ex; [|done].
    apply examine_spec in Ex as (?&?&_). done.
  - rewrite E in IH1. apply Forall_app in IH1 as [H1 [H2 H3]%Forall_cons]. split; [apply Forall_app; split; [done|by constructor]|].
    apply Forall_app. split; [done|]. constructor; [by apply H2|done].
Qed.

(** With one request at a time, what is in hand is newer than all accepted. *)
Definition fresh (w : listening) : Prop :=
  StronglySorted (λ p p' : Tree * Tree * list Z, later p.2 p'.2) (accepted w) ∧
  Forall (λ p : Tree * Tree * list Z, ∃ ts id, stamped p.2 ts id ∧ (ts ≤ lastTS (shared w))%Z) (accepted w) ∧
  Forall (λ l, match at_ l with Passed _ _ d ts id => stamped d ts id ∧ (lastTS (shared w) < ts)%Z | _ => True end) (loops w).
Lemma sorted_snoc {A} (R : A → A → Prop) (l : list A) x : StronglySorted R l → Forall (λ y, R y x) l → StronglySorted R (l ++ [x]).
Proof.
  induction 1 as [|y l _ IH Hy]; intros H; [by repeat constructor|]. inversion_clear H as [|? ? Hr Hl]. cbn. constructor; [by apply IH|].
  apply Forall_app. split; [done|by constructor].
Qed.
Lemma alone_idle l1 x l2 w : one_at_a_time w → loops w = l1 ++ x :: l2 → busy x → Forall (λ l, at_ l = Idle) (l1 ++ l2).
Proof.
  intros H E Hx. apply Forall_app. split; apply Forall_forall; intros y (a&b&->)%list_elem_of_split;
    (destruct (at_ y) eqn:Ey; [done|exfalso|exfalso]).
  1,2: apply (H a y b x l2); [by rewrite E, <-app_assoc|]; split; [unfold busy; congruence|done].
  all: apply (H l1 x a y b); [done|]; split; [done|unfold busy; congruence].
Qed.
Lemma heard_fresh w : heard one_at_a_time w → one_at_a_time w ∧ fresh w.
Proof.
  induction 1 as [|w w' _ [Ha (IH1&IH2&IH3)] Hs Ho]; [split; [intros [|] ? ? ? ? ?; done|by repeat constructor]|]. split; [done|].
  destruct Hs as [want w|l1 l2 w E|l1 b l2 tu tp d w E|l1 b l2 tu tp d w E|l1 b l2 tu tp d ts id w E]; unfold fresh; cbn in *.
  - destruct (reconcile_last want (shared w)) as [-> _]. split; [done|]. split; [done|]. by apply relaunch_busy.
  - rewrite E in IH3. apply Forall_app in IH3 as [H1 [_ H2]%Forall_cons]. split; [done|]. split; [done|]. by apply Forall_app.
  - rewrite E in IH3. apply Forall_app in IH3 as [H1 [_ H2]%Forall_cons]. split; [done|]. split; [done|]. apply Forall_app. split; [done|by constructor].
  - rewrite E in IH3. apply Forall_app in IH3 as [H1 [_ H2]%Forall_cons]. split; [done|]. split; [done|]. apply Forall_app. split; [done|].
    constructor; [|done]. cbn. destruct (examine _ _ _ _) as [[ts id]|] eqn:Ex; [|done]. apply examine_spec in Ex as (?&_&?&_). done.
  - pose proof (alone_idle _ _ _ _ Ha E ltac:(done)) as Hi. rewrite E in IH3. apply Forall_app in IH3 as [_ [Hp _]%Forall_cons].
    destruct Hp as [Hst Hlt]. split; [|split].
    + apply sorted_snoc; [done|]. eapply Forall_impl; [exact IH2|]. intros p (ts'&id'&Hp&Hle). exists ts', id', ts, id. cbn. split; [done|]. split; [done|lia].
    + apply Forall_app. split; [|constructor; [|done]; exists ts, id; cbn; split; [done|lia]].
      eapply Forall_impl; [exact IH2|]. intros p (ts'&id'&Hp&Hle). exists ts', id'. split; [done|lia].
    + apply Forall_app in Hi as [Hi1 Hi2]. apply Forall_app. split; [|constructor; [done|]];
        (eapply Forall_impl; [eassumption|]; intros l; by intros ->).
Qed.
Lemma later_irrefl d : ¬ later d d.
Proof. intros (ts&id&ts'&id'&H1&H2&H3). destruct (stamped_fun _ _ _ _ _ H1 H2). lia. Qed.

(** C37. Whatever loops run and whatever they receive, a request starts a
    session only if it carries the username the tree held and the signature,
    under the password the tree held, of its own timestamp, message id,
    username and nonce. The checks pass exactly such requests that are later
    than the last accepted and bear another message id. As long as no two loops
    have a request in hand at once, every accepted request is later than all
    those accepted before it, so no datagram starts two sessions. (Around a
    restart two loops may overlap; [overlapping_loops_replay] shows what then
    happens.) *)
Theorem no_replay :
  (∀ w, heard (λ _, True) w → Forall credited (accepted w)) ∧
  (∀ username password d c ts id, examine username password d c = Some (ts, id) ↔
    stamped d ts id ∧ genuine username password d ∧ (lastTS c < ts)%Z ∧ lastID c ≠ Some id) ∧
  (∀ w, heard one_at_a_time w →
    StronglySorted (λ p p', later p.2 p'.2) (accepted w) ∧ NoDup (snd <$> accepted w)).
Proof.
  split; [intros w H; by eapply heard_genuine|]. split; [intros; apply examine_spec|]. intros w [_ (Hs&_)]%heard_fresh.
  split; [done|]. induction Hs as [|p l _ IH Hall]; [apply NoDup_nil_2|]. cbn. apply NoDup_cons. split; [|done].
  intros (p'&E&Hin)%list_elem_of_fmap. rewrite Forall_forall in Hall. specialize (Hall p' Hin). cbn in Hall. rewrite E in Hall.
  by eapply later_irrefl.
Qed.
End requests.

(** ** The binding loop *)

Record pendingRequest := MkPending { msg : Message; change : bool; attempts : Z; next : Z }.
(** [keepalive]: when the keepalive timer fires. *)
Record binding := MkBinding { pending : option pendingRequest; mapped : option UDPAddr; keepalive : Z }.

(** The wait after the [k]-th transmission. *)
Definition wait (k : Z) : Z := Z.min (1600 * Millisecond) (i64 (Z.shiftl (100 * Millisecond) (k - 1))).
Definition transmit (now : Z) (p : pendingRequest) : pendingRequest :=
  MkPending (msg p) (change p) (attempts p + 1) (now + wait (attempts p + 1)).
(** One firing of the retry ticker, and whether the request is sent again. *)
Definition on_retry (now : Z) (p : option pendingRequest) : option pendingRequest * bool :=
  match p with
  | Some r =>
      if (next r <=? now)%Z then if (9 <=? attempts r)%Z then (None, false) else (Some (transmit now r), true) else (p, false)
  | None => (None, false)
  end.

Section loop.
Context (s : settings) (local : UDPAddr).

Definition binding_request (id : list Z) (change : bool) : Message :=
  let m := MkMessage TypeBindingRequest id [] in
  let m := if String.eqb (username s) "" then m else Add AttrUsername (PadUsername (username s)) m in
  let m := Add AttrConnectionRequestBinding (bytes_of ConnectionRequestBindingValue) m in
  if change then Add AttrBindingChange [] m else m.
Definition send (id : list Z) (change : bool) (now : Z) : pendingRequest :=
  transmit now (MkPending (binding_request id change) change 0 now).

Definition on_keepalive (id : list Z) (now : Z) (b : binding) : binding * list Message :=
  let p := send id false now in (MkBinding (Some p) (mapped b) (now + minKeepAlive s), [msg p]).
Definition retry (now : Z) (b : binding) : binding * list Message :=
  let '(p, again) := on_retry now (pending b) in
  (MkBinding p (mapped b) (keepalive b), match p with Some r => if again then [msg r] else [] | None => [] end).

(** A STUN datagram: the binding after it, what is sent, and what is to be
    reported. *)
Definition on_stun (id : list Z) (now : Z) (d : list Z) (b : binding) : binding * list Message * option (bool * UDPAddr) :=
  match Decode d, pending b with
  | Ok m, Some p =>
      if negb (bool_decide (TransactionID m = TransactionID (msg p))) then (b, [], None)
      else if (mType m =? TypeBindingErrorResponse)%Z then (MkBinding None (mapped b) (keepalive b), [], None)
      else if (mType m =? TypeBindingResponse)%Z then
        match MappedAddress m with
        | Err _ => (MkBinding None (mapped b) (keepalive b), [], None)
        | Ok addr =>
            let nat := negb (bool_decide (addr = local)) in
            if bool_decide (mapped b = Some addr) then (MkBinding None (mapped b) (keepalive b), [], None)
            else
              let p := match mapped b with Some _ => Some (send id true now) | None => None end in
              (MkBinding p (Some addr) (keepalive b), match p with Some r => [msg r] | None => [] end, Some (nat, addr))
        end
      else (b, [], None)
  | _, _ => (b, [], None)
  end.
End loop.

(** [net.JoinHostPort] of an IPv4 address. *)
Definition JoinHostPort (a : UDPAddr) : string := Strings.Join (Strconv.Itoa <$> IP a) "." +:+ ":" +:+ Strconv.Itoa (Port a).
Definition FormatBool (b : bool) : string := if b then "true" else "false".
Definition report (paths : Paths) (local : UDPAddr) (nat : bool) (mapped : UDPAddr) (t : Tree) : Tree :=
  let reported := if nat then mapped else local in
  let t := (SetSystem t (NATDetected paths) (FormatBool nat)).1.1 in
  (SetSystem t (UDPAddress paths) (JoinHostPort reported)).1.1.

(** *** The retransmission schedule *)

Lemma wait_value k : (1 ≤ k ≤ 9)%Z → wait k = (if (k =? 1) then 100 * Millisecond else if k =? 2 then 200 * Millisecond
  else if k =? 3 then 400 * Millisecond else if k =? 4 then 800 * Millisecond else 1600 * Millisecond)%Z.
Proof.
  intros H. assert (k = 1 ∨ k = 2 ∨ k = 3 ∨ k = 4 ∨ k = 5 ∨ k = 6 ∨ k = 7 ∨ k = 8 ∨ k = 9)%Z as Hk by lia.
  by destruct Hk as [->|[->|[->|[->|[->|[->|[->|[->| ->]]]]]]]].
Qed.
Lemma wait_pos k : (1 ≤ k ≤ 9)%Z → (0 < wait k)%Z.
Proof. intros H. rewrite wait_value by done. unfold Millisecond. repeat case_match; lia. Qed.

(** The instants at which a request goes out again, over firings of the
    ticker, and what is left of it. *)
Fixpoint retries (ticks : list Z) (p : option pendingRequest) : list Z * option pendingRequest :=
  match ticks with
  | [] => ([], p)
  | t :: ticks =>
      let '(p', again) := on_retry t p in
      let '(sent, rest) := retries ticks p' in (if again then t :: sent else sent, rest)
  end.
(** The [k]-th transmission and the later ones keep the schedule's waits. *)
Fixpoint spaced (k t : Z) (sent : list Z) : Prop :=
  match sent with [] => True | t' :: sent => (t + wait k ≤ t')%Z ∧ spaced (k + 1) t' sent end.

Lemma retries_none ticks : retries ticks None = ([], None).
Proof. induction ticks as [|t ticks IH]; [done|]. cbn. by rewrite IH. Qed.

Lemma retries_spaced ticks p t : (1 ≤ attempts p ≤ 9)%Z → next p = (t + wait (attempts p))%Z →
  let sent := (retries ticks (Some p)).1 in
  spaced (attempts p) t sent ∧ (attempts p + Z.of_nat (length sent) ≤ 9)%Z.
Proof.
  revert p t. induction ticks as [|t' ticks IH]; intros p t Ha Hn; cbn; [lia|].
  destruct (Z.leb_spec (next p) t') as [Hd|Hd].
  - destruct (Z.leb_spec 9 (attempts p)); [rewrite retries_none; cbn; lia|].
    specialize (IH (transmit t' p) t' ltac:(cbn; lia) eq_refl). destruct (retries ticks (Some (transmit t' p))) as [sent rest].
    cbn in *. split; [split; [lia|apply IH]|lia].
  - specialize (IH p t Ha Hn). destruct (retries ticks (Some p)) as [sent rest]. done.
Qed.

(** Firings of a ticker, each at most [gap] after the last. *)
Fixpoint every (gap t : Z) (ticks : list Z) : Prop :=
  match ticks with [] => True | t' :: ticks => (t ≤ t' ≤ t + gap)%Z ∧ every gap t' ticks end.
(** What may yet pass after the next due time: the waits and firings left. *)
Definition left (gap k : Z) : Z := match k with
  | 1 => 9400 * Millisecond + 8 * gap | 2 => 9200 * Millisecond + 7 * gap | 3 => 8800 * Millisecond + 6 * gap
  | 4 => 8000 * Millisecond + 5 * gap | 5 => 6400 * Millisecond + 4 * gap | 6 => 4800 * Millisecond + 3 * gap
  | 7 => 3200 * Millisecond + 2 * gap | 8 => 1600 * Millisecond + gap | _ => 0
  end%Z.
Lemma left_step gap k : (1 ≤ k < 9)%Z → (left gap k = gap + wait (k + 1) + left gap (k + 1))%Z.
Proof.
  intros H. assert (k = 1 ∨ k = 2 ∨ k = 3 ∨ k = 4 ∨ k = 5 ∨ k = 6 ∨ k = 7 ∨ k = 8)%Z as Hk by lia.
  destruct Hk as [->|[->|[->|[->|[->|[->|[->| ->]]]]]]];
    match goal with |- context [wait ?k] => let n := eval vm_compute in k in change k with n;
      let v := eval vm_compute in (wait n) in change (wait n) with v end;
    unfold left, Millisecond; lia.
Qed.

Lemma last_cons (x d : Z) l : List.last (x :: l) d = List.last l x.
Proof. revert x d. induction l as [|y l IH]; intros x d; [done|]. change (List.last (y :: l) d = List.last (y :: l) x). by rewrite !IH. Qed.

Lemma retries_end gap ticks p t : (0 ≤ gap)%Z → (1 ≤ attempts p ≤ 9)%Z → (t < next p)%Z → every gap t ticks →
  (next p + left gap (attempts p) ≤ List.last ticks t)%Z → (retries ticks (Some p)).2 = None.
Proof.
  intros Hg. revert p t. induction ticks as [|t' ticks IH]; intros p t Ha Ht He Hl.
  { cbn in Hl. assert (0 ≤ left gap (attempts p))%Z; [|lia]. unfold left, Millisecond. repeat case_match; lia. }
  destruct He as [Hr He]. rewrite last_cons in Hl.
  cbn [retries on_retry]. destruct (Z.leb_spec (next p) t') as [Hd|Hd].
  - destruct (Z.leb_spec 9 (attempts p)); [by rewrite retries_none|].
    pose proof (wait_pos (attempts p + 1) ltac:(lia)) as Hw. pose proof (left_step gap (attempts p) ltac:(lia)) as Hls.
    specialize (IH (transmit t' p) t' ltac:(cbn; lia) ltac:(cbn; lia) He ltac:(cbn; lia)).
    by destruct (retries ticks (Some (transmit t' p))).
  - specialize (IH p t' Ha Hd He Hl). by destruct (retries ticks (Some p)).
Qed.

(** An unanswered Binding Request is sent at most nine times, 100, 200,
    400, 800 and then 1600 ms apart at least, and is given up within 9.5
    seconds and nine firings of the ticker. *)
Theorem retransmission (s : settings) (id : list Z) (chg : bool) (now gap : Z) (ticks : list Z)
  (Hgap : (0 ≤ gap)%Z) (Hev : every gap now ticks) :
  let '(sent, rest) := retries ticks (Some (send s id chg now)) in
  spaced 1 now sent ∧ (length sent ≤ 8)%nat ∧
  ((now + 9500 * Millisecond + 8 * gap ≤ List.last ticks now)%Z → rest = None).
Proof.
  pose proof (retries_spaced ticks (send s id chg now) now ltac:(cbn; lia) eq_refl) as H.
  pose proof (retries_end gap ticks (send s id chg now) now Hgap ltac:(cbn; lia)) as Hend.
  destruct (retries ticks _) as [sent rest]. cbn [fst snd] in *. destruct H as [H1 H2]. change (attempts (send s id chg now)) with 1%Z in *. split_and!; [done|lia|].
  assert (next (send s id chg now) = now + 100 * Millisecond)%Z as Hn by done. rewrite Hn in Hend.
  intros Hl. apply Hend; [unfold Millisecond; lia|done|]. unfold left, Millisecond in *. lia.
Qed.

(** ** What the tree says of the binding *)

Section reported.
Context (s : settings) (local : UDPAddr) (paths : Paths).

(** What the loop's goroutine does at each wake-up, on the tree and its
    binding. [Keepalive] and [Datagram] bring the random id a request would
    take. *)
Inductive event := Keepalive (id : list Z) (now : Z) | Retry (now : Z) | Response (id : list Z) (now : Z) (d : list Z).
Definition handle (e : event) (t : Tree) (b : binding) : Tree * binding :=
  match e with
  | Keepalive id now => (t, (on_keepalive s id now b).1)
  | Retry now => (t, (retry now b).1)
  | Response id now d =>
      let '(b', _, found) := on_stun s local id now d b in
      (match found with Some (nat, addr) => report paths local nat addr t | None => t end, b')
  end.
Definition serve (l : list event) (t : Tree) (b : binding) : Tree * binding :=
  foldl (λ w e, handle e w.1 w.2) (t, b) l.

(** The two leaves exist, are two, and are of the types the model gives them. *)
Definition leaves_ok (t : Tree) : Prop :=
  ∃ p q, parsePath (NATDetected paths) = Ok p ∧ parsePath (UDPAddress paths) = Ok q ∧ p ≠ q ∧
    (∃ v, view t p = Some v ∧ vType v = TypeBoolean) ∧ ∃ v, view t q = Some v ∧ vType v = TypeString.
Definition tracked (t : Tree) (b : binding) : Prop :=
  ∀ a, mapped b = Some a → read t (NATDetected paths) = FormatBool (negb (bool_decide (a = local))) ∧
    read t (UDPAddress paths) = JoinHostPort a.
(** Every leaf but those two. *)
Definition elsewhere (t t' : Tree) : Prop :=
  ∀ r, parsePath (NATDetected paths) ≠ Ok r → parsePath (UDPAddress paths) ≠ Ok r → view t' r = view t r.
Definition octets (e : event) : Prop := match e with Response _ _ d => Forall octet d | _ => True end.

Lemma read_view t path p v : parsePath path = Ok p → view t p = Some v → read t path = Raw v.
Proof. intros Hp Hv. unfold read. by rewrite (proj2 (Get_view t path v) (ex_intro _ p (conj Hp Hv))). Qed.

Definition sane (a : UDPAddr) : Prop := Forall (λ x, 0 ≤ x)%Z (IP a) ∧ (0 ≤ Port a)%Z.
Lemma JoinHostPort_valid a : sane a → Utf8.ValidString (JoinHostPort a) = true.
Proof.
  intros [Hi Hp]. apply Utf8.ValidString_ascii. unfold JoinHostPort.
  assert (∀ z, (0 ≤ z)%Z → str_forall (between 0 127) (Strconv.Itoa z) = true) as Hz.
  { intros z Hz. eapply str_forall_impl; [|by apply Strconv.Itoa_digits]. intros c. unfold is_digit, in_range, byte_le, between, byte_of.
    rewrite !andb_true_iff, !N.leb_le. change (N_of_ascii "9") with 57%N. lia. }
  rewrite !str_forall_app, (Hz (Port a) Hp). change (str_forall (between 0 127) ":") with true. cbn [andb]. rewrite andb_true_r.
  induction Hi as [|x l Hx _ IH]; [done|]. rewrite fmap_cons. destruct l as [|y l]; [by apply Hz|].
  rewrite fmap_cons in *. cbn [Strings.Join]. by rewrite !str_forall_app, (Hz x Hx).
Qed.

Lemma MappedAddress_sane d m a : Forall octet d → Decode d = Ok m → MappedAddress m = Ok a → sane a.
Proof.
  intros Hd Hm. assert (Forall (λ x, Forall octet (aValue x)) (Attributes m)) as Ha.
  { unfold Decode in Hm. destruct (_ <? _)%nat; [done|]. destruct (_ <? _)%nat; [done|].
    destruct (decode_attributes _ _) as [l|] eqn:El; [|done]. injection Hm as <-. cbn. clear -Hd El.
    assert (∀ fuel body l, Forall octet body → decode_attributes fuel body = Ok l → Forall (λ x, Forall octet (aValue x)) l) as H.
    { intros fuel. induction fuel as [|fuel IH]; intros body l' Ho; [destruct body; [|done]; by intros [= <-]|].
      destruct body as [|x body']; [by intros [= <-]|]. cbn [decode_attributes]. destruct (_ <? _)%nat; [done|]. destruct (_ <? _)%nat; [done|].
      destruct (decode_attributes fuel _) as [rest|] eqn:Er; [|done]. intros [= <-]. constructor.
      - cbn [aValue]. apply (Forall_take octet). by apply (Forall_drop octet 4 (x :: body')).
      - eapply IH; [|exact Er]. by apply Forall_drop. }
    eapply H; [|exact El]. by apply Forall_take, Forall_drop. }
  unfold MappedAddress, Stun.Get. destruct (List.find _ _) as [x|] eqn:Ef; [|done]. cbn.
  apply List.find_some in Ef as [Hin _]. rewrite Forall_forall in Ha. specialize (Ha x (proj2 (list_elem_of_In _ _) Hin)).
  destruct (_ || _); [done|]. intros [= <-]. split; cbn.
  - eapply Forall_impl; [by apply Forall_take, Forall_drop|]. unfold octet. intros z ?. lia.
  - pose proof (Uint16_range (drop 2 (aValue x)) ltac:(by apply Forall_drop)) as Hu. unfold u16 in Hu. lia.
Qed.

Lemma report_tracks t a b' : leaves_ok t → sane a → mapped b' = Some a →
  let t' := report paths local (negb (bool_decide (a = local))) a t in leaves_ok t' ∧ tracked t' b' ∧ elsewhere t t'.
Proof.
  intros (p&q&Hp&Hq&Hne&(v&Hv&Ev)&w&Hw&Ew) Ha Hm. unfold report.
  set (nat := negb (bool_decide (a = local))).
  assert ((if nat then a else local) = a) as -> by (unfold nat; by destruct (bool_decide_reflect (a = local))).
  destruct (SetSystem_writes t (NATDetected paths) (FormatBool nat) v) as (t1&c1&p'&E1&Hp'&V1).
  { apply Get_view. by exists p. } { rewrite Ev. by destruct nat. }
  rewrite Hp in Hp'. injection Hp' as <-. rewrite E1. cbn.
  assert (view t1 q = Some w) as Hw1 by (rewrite V1; unfold spec_update; by rewrite decide_False).
  destruct (SetSystem_writes t1 (UDPAddress paths) (JoinHostPort a) w) as (t2&c2&q'&E2&Hq'&V2).
  { apply Get_view. by exists q. } { rewrite Ew. rewrite valid_raw_unfold. simpl. unfold validateString. by rewrite JoinHostPort_valid. }
  rewrite Hq in Hq'. injection Hq' as <-. rewrite E2. cbn.
  assert (view t2 p = Some (with_raw (FormatBool nat) v)) as Hv2.
  { rewrite V2. unfold spec_update. rewrite decide_False by congruence. rewrite V1. unfold spec_update. by rewrite decide_True. }
  assert (view t2 q = Some (with_raw (JoinHostPort a) w)) as Hw2 by (rewrite V2; unfold spec_update; by rewrite decide_True).
  split_and!.
  - exists p, q. split_and!; try done; [by exists (with_raw (FormatBool nat) v)|by exists (with_raw (JoinHostPort a) w)].
  - intros x Hx. rewrite Hm in Hx. injection Hx as <-. rewrite (read_view t2 _ p _ Hp Hv2), (read_view t2 _ q _ Hq Hw2). done.
  - intros r Hr1 Hr2. rewrite V2. unfold spec_update. rewrite decide_False by congruence. rewrite V1. unfold spec_update. by rewrite decide_False by congruence.
Qed.

Lemma handle_tracks e t b : octets e → leaves_ok t → tracked t b →
  leaves_ok (handle e t b).1 ∧ tracked (handle e t b).1 (handle e t b).2 ∧ elsewhere t (handle e t b).1.
Proof.
  intros Ho Hl Ht. destruct e as [id now|now|id now d]; cbn; [done| |].
  { unfold retry. by destruct (on_retry now (pending b)) as [p again]. }
  unfold on_stun. destruct (Decode d) as [m|] eqn:Em; [|done]. destruct (pending b) as [p|]; [|done].
  destruct (bool_decide_reflect (TransactionID m = TransactionID (msg p))); cbn; [|done].
  destruct (mType m =? TypeBindingErrorResponse)%Z; [done|]. destruct (mType m =? TypeBindingResponse)%Z; [|done].
  destruct (MappedAddress m) as [a|] eqn:Ea; [|done]. destruct (bool_decide_reflect (mapped b = Some a)); [done|].
  apply report_tracks; [done|by eapply MappedAddress_sane|done].
Qed.

(** From a loop that has found nothing yet, whatever requests are lost,
    repeated or answered, and whatever else arrives, the tree always holds the
    last address the server reported and whether a NAT stands before it; no
    other leaf is touched. *)
Theorem binding_tracked (l : list event) (t : Tree) (b : binding) (Hl : leaves_ok t) (Hb : mapped b = None) (Ho : Forall octets l) :
  let '(t', b') := serve l t b in tracked t' b' ∧ leaves_ok t' ∧ elsewhere t t'.
Proof.
  assert (tracked t b) as Ht by (intros a Ha; congruence). clear Hb. revert t b Hl Ht. induction Ho as [|e l He _ IH]; intros t b Hl Ht; [done|].
  unfold serve. cbn [foldl fst snd]. destruct (handle_tracks e t b He Hl Ht) as (Hl'&Ht'&Hel). destruct (handle e t b) as [t1 b1]. cbn in *.
  specialize (IH t1 b1 Hl' Ht'). unfold serve in IH. destruct (foldl _ (t1, b1) l) as [t2 b2]. destruct IH as (?&?&He2). split_and!; [done..|].
  intros r H1 H2. rewrite He2 by done. by apply Hel.
Qed.
End reported.

(** ** Examples *)

Definition ex_paths : Paths := PathsUnder "".
Definition ex_leaves (server : string) : Tree :=
  set_root New_ (set_children (list_to_map
    [("STUNEnable", NewLeaf (MkValue TypeBoolean "1" true)); ("STUNServerAddress", NewLeaf (MkValue TypeString server true));
     ("NATDetected", NewLeaf (MkValue TypeBoolean "false" false)); ("UDPConnectionRequestAddress", NewLeaf (MkValue TypeString "" false));
     ("ConnectionRequestUsername", NewLeaf (MkValue TypeString "acs" true)); ("ConnectionRequestPassword", NewLeaf (MkValue TypeString "pw" true))])
    NewBranch).
Definition ex_settings (server : string) : settings := MkSettings true server 3478 "" (30 * Second) 0.
Example ex_current : current ex_paths "acs.example" (ex_leaves " a.example ") = ex_settings "a.example".
Proof. vm_compute. reflexivity. Qed.

(** A toy HTTP reader and a toy digest. *)
Definition ex_query (d : list Z) : option (string → string) :=
  match d with
  | [n] => Some (λ k, if String.eqb k "ts" then Strconv.Itoa n else if String.eqb k "id" then Strconv.Itoa n
      else if String.eqb k "un" then "acs" else if String.eqb k "cn" then "n" else ("pw" +:+ Strconv.Itoa n +:+ Strconv.Itoa n +:+ "acs" +:+ "n"))
  | _ => None
  end.
Definition ex_hmac (key m : string) : string := key +:+ m.
Lemma ex_genuine : genuine ex_query ex_hmac "acs" "pw" [5]%Z.
Proof. eexists _, 5%Z, 5%Z. repeat split; vm_compute; reflexivity. Qed.
Lemma ex_stamped : stamped ex_query [5]%Z 5 5.
Proof. eexists. repeat split; vm_compute; reflexivity. Qed.

(** Loops, the timestamp last accepted and the datagrams accepted. *)
Definition ex_entry (n : Z) : Tree * Tree * list Z := (ex_leaves "", ex_leaves "", [n]).
Definition ex_listen (s : string) (ls : list listener) (last : Z) (acc : list Z) : listening :=
  MkListening (MkClient (Some (ex_settings s)) last (if (last =? 0)%Z then None else Some last)) ls (ex_entry <$> acc).
Definition ex_received (n : Z) : stage := Received (ex_leaves "") (ex_leaves "") [n].
Definition ex_passed (n : Z) : stage := Passed (ex_leaves "") (ex_leaves "") [n] n n.
Section overlap.
Context (ok : listening → Prop) (s : string).
Let lh := heard ex_query ex_hmac ex_paths ok.
Lemma heard_launch : ok (ex_listen "s" [MkListener false Idle] 0 []) → lh (ex_listen "s" [MkListener false Idle] 0 []).
Proof. intros H. eapply h_step; [apply h_start|apply (l_reconcile _ _ _ (ex_settings "s"))|exact H]. Qed.
Lemma heard_receive l1 b l2 last acc n : lh (ex_listen s (l1 ++ MkListener b Idle :: l2) last acc) →
  ok (ex_listen s (l1 ++ MkListener b (ex_received n) :: l2) last acc) → lh (ex_listen s (l1 ++ MkListener b (ex_received n) :: l2) last acc).
Proof. intros H Ho. eapply h_step; [exact H|by apply (l_receive _ _ _ l1 b l2 _ _ _ (ex_listen s _ last acc))|exact Ho]. Qed.
Lemma heard_examine l1 b l2 last acc n r :
  match examine ex_query ex_hmac (read (ex_leaves "") (CRUsername ex_paths)) (read (ex_leaves "") (CRPassword ex_paths)) [n]
      (shared (ex_listen s [] last [])) with
    Some (ts, id) => Passed (ex_leaves "") (ex_leaves "") [n] ts id | None => Idle end = r →
  lh (ex_listen s (l1 ++ MkListener b (ex_received n) :: l2) last acc) →
  ok (ex_listen s (l1 ++ MkListener b r :: l2) last acc) → lh (ex_listen s (l1 ++ MkListener b r :: l2) last acc).
Proof.
  intros <- H Ho. eapply h_step; [exact H| |exact Ho].
  exact (l_examine ex_query ex_hmac ex_paths l1 b l2 _ _ [n] (ex_listen s (l1 ++ MkListener b (ex_received n) :: l2) last acc) eq_refl).
Qed.
Lemma heard_commit l1 b l2 last acc n : (n =? 0)%Z = false →
  lh (ex_listen s (l1 ++ MkListener b (ex_passed n) :: l2) last acc) →
  ok (ex_listen s (l1 ++ MkListener b Idle :: l2) n (acc ++ [n])) → lh (ex_listen s (l1 ++ MkListener b Idle :: l2) n (acc ++ [n])).
Proof.
  intros Hn H Ho. eapply h_step; [exact H| |exact Ho].
  pose proof (l_commit ex_query ex_hmac ex_paths l1 b l2 _ _ _ _ _ (ex_listen s (l1 ++ MkListener b (ex_passed n) :: l2) last acc) eq_refl) as Hs.
  unfold ex_listen in *. rewrite Hn, fmap_app. exact Hs.
Qed.
End overlap.
Lemma alone_single s l last acc : one_at_a_time (ex_listen s [l] last acc).
Proof. by intros [|? [|? ?]] x [|? ?] y r3 [=]. Qed.
(** A copy of an accepted request is passed over, a later one accepted. *)
Lemma ex_heard : heard ex_query ex_hmac ex_paths one_at_a_time (ex_listen "s" [MkListener false Idle] 9 [5; 9]%Z).
Proof.
  apply (heard_commit _ "s" [] false [] 5 [5]%Z 9 eq_refl); [|apply alone_single].
  apply (heard_examine _ "s" [] false [] 5 [5]%Z 9); [vm_compute; reflexivity| |apply alone_single].
  apply heard_receive; [|apply alone_single].
  apply (heard_examine _ "s" [] false [] 5 [5]%Z 5 Idle); [vm_compute; reflexivity| |apply alone_single].
  apply heard_receive; [|apply alone_single].
  apply (heard_commit _ "s" [] false [] 0 [] 5 eq_refl); [|apply alone_single].
  apply (heard_examine _ "s" [] false [] 0 [] 5); [vm_compute; reflexivity| |apply alone_single].
  apply heard_receive; [|apply alone_single]. apply heard_launch, alone_single.
Qed.
Lemma no_replay_witness :
  NoDup (snd <$> accepted (ex_listen "s" [MkListener false Idle] 9 [5; 9]%Z)) ∧
  examine ex_query ex_hmac "acs" "pw" [5]%Z New = Some (5, 5)%Z.
Proof.
  destruct (no_replay ex_query ex_hmac ex_paths) as (_&He&Ha). split; [exact (proj2 (Ha _ ex_heard))|].
  apply (He "acs" "pw" [5]%Z New 5%Z 5%Z). split; [exact ex_stamped|]. split; [exact ex_genuine|]. split; [reflexivity|discriminate].
Defined.

(** A loop that a restart cancelled while it checked a request, and its
    successor, both accept copies of one datagram. *)
Lemma overlapping_loops_replay :
  heard ex_query ex_hmac ex_paths (λ _, True) (ex_listen "t" [MkListener true Idle; MkListener false Idle] 5 [5; 5]%Z).
Proof.
  apply (heard_commit _ "t" [MkListener true Idle] false [] 5 [5]%Z 5 eq_refl); [|done].
  apply (heard_commit _ "t" [] true [MkListener false (ex_passed 5)] 0 [] 5 eq_refl); [|done].
  apply (heard_examine _ "t" [MkListener true (ex_passed 5)] false [] 0 [] 5); [vm_compute; reflexivity| |done].
  apply (heard_receive _ "t" [MkListener true (ex_passed 5)] false [] 0 [] 5); [|done].
  eapply h_step; [|apply (l_reconcile ex_query ex_hmac ex_paths (ex_settings "t") (ex_listen "s" [MkListener false (ex_passed 5)] 0 []))|done].
  apply (heard_examine _ "s" [] false [] 0 [] 5); [vm_compute; reflexivity| |done].
  apply heard_receive; [|done]. by apply heard_launch.
Qed.

Definition ex_ticks : list Z := (λ n, 20 * Second * n)%Z <$> seqZ 1 9.
Lemma ex_every : every (20 * Second) 0 ex_ticks.
Proof. vm_compute. repeat split; discriminate. Qed.
Lemma retransmission_witness :
  (length (retries ex_ticks (Some (send (ex_settings "s") ex_id true 0))).1 ≤ 8)%nat ∧
  (retries ex_ticks (Some (send (ex_settings "s") ex_id true 0))).2 = None.
Proof.
  pose proof (retransmission (ex_settings "s") ex_id true 0 (20 * Second) ex_ticks ltac:(discriminate) ex_every) as H.
  destruct (retries ex_ticks _) as [sent rest]. cbn [fst snd]. destruct H as (_&H1&H2). split; [exact H1|apply H2]. vm_compute. discriminate.
Defined.

Definition ex_local : UDPAddr := MkAddr [10; 0; 0; 2]%Z 50000.
Definition ex_bound : binding := MkBinding (Some (send (ex_settings "s") ex_id true 0)) None (30 * Second).
Definition ex_events : list event := [Retry (100 * Millisecond); Response ex_id (150 * Millisecond) ex_response; Keepalive ex_id (30 * Second)].
Lemma ex_leaves_ok : leaves_ok ex_paths (ex_leaves "").
Proof.
  exists ["NATDetected"], ["UDPConnectionRequestAddress"]. split_and!; [reflexivity|reflexivity|discriminate| |];
    eexists; split; vm_compute; reflexivity.
Qed.
Lemma ex_octet_events : Forall octets ex_events.
Proof. constructor; [exact I|]. constructor; [exact ex_octets|]. constructor; [exact I|constructor]. Qed.
Lemma ex_served : mapped (serve (ex_settings "s") ex_local ex_paths ex_events (ex_leaves "") ex_bound).2 = Some (MkAddr [198; 51; 100; 7]%Z 1234).
Proof. vm_compute. reflexivity. Qed.
Lemma binding_tracked_witness :
  read (serve (ex_settings "s") ex_local ex_paths ex_events (ex_leaves "") ex_bound).1 "UDPConnectionRequestAddress" = "198.51.100.7:1234".
Proof.
  pose proof (binding_tracked (ex_settings "s") ex_local ex_paths ex_events (ex_leaves "") ex_bound ex_leaves_ok eq_refl ex_octet_events) as H.
  pose proof ex_served as Hm. destruct (serve _ _ _ _ _ _) as [t b]. cbn [fst snd] in *. destruct H as (H&_).
  exact (proj2 (H _ Hm)).
Defined.

(** ** What goes wrong *)

(** [reconcile] reads the tree before it takes the mutex: a reader overtaken by
    another restarts the loop with the older settings, and it stays so. *)
Definition ex_world (t : Tree) (running : option settings) : world := MkWorld t (MkClient running 0 None) 0 [].
Lemma read_step n w s : current ex_paths "" (tree w) = s → woken w = S n →
  wstep ex_paths "" w (MkWorld (tree w) (client w) n (reading w ++ [s])).
Proof. intros <-. apply w_read. Qed.
Lemma stale_settings :
  wsteps ex_paths "" (ex_world (ex_leaves "a") (Some (ex_settings "a"))) (ex_world (ex_leaves "c") (Some (ex_settings "b"))) ∧
  current ex_paths "" (ex_leaves "c") = ex_settings "c".
Proof.
  split; [|vm_compute; reflexivity].
  assert (current ex_paths "" (ex_leaves "b") = ex_settings "b") as Eb by (vm_compute; reflexivity).
  assert (current ex_paths "" (ex_leaves "c") = ex_settings "c") as Ec by (vm_compute; reflexivity).
  eapply ws_step; [|apply (w_lock ex_paths "" [] (ex_settings "b") [] (MkWorld (ex_leaves "c") (MkClient (Some (ex_settings "c")) 0 None) 0 [ex_settings "b"])); reflexivity].
  eapply ws_step; [|apply (w_lock ex_paths "" [ex_settings "b"] (ex_settings "c") [] (MkWorld (ex_leaves "c") (MkClient (Some (ex_settings "a")) 0 None) 0 [ex_settings "b"; ex_settings "c"])); reflexivity].
  eapply ws_step; [|apply (read_step 0 (MkWorld (ex_leaves "c") (MkClient (Some (ex_settings "a")) 0 None) 1 [ex_settings "b"]) _ Ec); reflexivity].
  eapply ws_step; [|apply (w_write ex_paths "" (ex_leaves "c") (MkWorld (ex_leaves "b") (MkClient (Some (ex_settings "a")) 0 None) 0 [ex_settings "b"]))].
  eapply ws_step; [|apply (read_step 0 (MkWorld (ex_leaves "b") (MkClient (Some (ex_settings "a")) 0 None) 1 []) _ Eb); reflexivity].
  eapply ws_step; [apply ws_refl|apply (w_write ex_paths "" (ex_leaves "b") (ex_world (ex_leaves "a") (Some (ex_settings "a"))))].
Qed.

(** A keepalive takes the place of a request still unanswered, and does not
    say that the binding changed even when that request did. *)
Lemma keepalive_displaces_change s id now b p : pending b = Some p → change p = true →
  ∃ p', pending (on_keepalive s id now b).1 = Some p' ∧ change p' = false ∧ mapped (on_keepalive s id now b).1 = mapped b.
Proof. intros _ _. by eexists. Qed.
