(* ===== verification/HttpAuth.v ===== *)
(** * The CPE as an HTTP client ([internal/cwmp/transport]: [auth.go],
    [transport.go]).

    MD5 is a parameter, and so is the server a transport talks to. *)
From Stdlib Require Import ZArith Lia Ascii String.
From S2P Require Import Prelude GoLib GoText GoAuth CpeErr.

(** ** Parameter lists *)

Definition is_skip (c : ascii) : bool := Ascii.eqb c " " || Ascii.eqb c "," || Ascii.eqb c "009".
(** The text before the first byte of a set, and from it on. *)
Fixpoint span_until (p : ascii → bool) (s : string) : string * string :=
  match s with
  | "" => ("", "")
  | String c s' => if p c then ("", s) else let '(a, b) := span_until p s' in (String c a, b)
  end.

(** [parseAuthParams]: every turn consumes a byte, so the length of the text
    is fuel enough. *)
Fixpoint parse_loop (fuel : nat) (s : string) (out : gmap string string) : gmap string string :=
  match fuel with
  | O => out
  | S fuel =>
      let s := TrimLeftSet is_skip s in
      if String.eqb s "" then out
      else
        let '(k, rest) := span_until (λ c, Ascii.eqb c "=" || Ascii.eqb c ",") s in
        let key := Space.TrimSpace k in
        match rest with
        | String c rest' =>
            if Ascii.eqb c "=" then
              let '(value, rest2) :=
                match rest' with
                | String d quoted =>
                    if Ascii.eqb d dquote then
                      let '(v, r) := span_until (Ascii.eqb dquote) quoted in
                      (v, match r with String _ r' => r' | "" => "" end)
                    else let '(v, r) := span_until (Ascii.eqb ",") rest' in (Space.TrimSpace v, r)
                | "" => ("", "")
                end in
              parse_loop fuel rest2 (if String.eqb key "" then out else <[ToLower key := value]> out)
            else parse_loop fuel rest out
        | "" => out
        end
  end.
Definition parseAuthParams (s : string) : gmap string string := parse_loop (S (String.length s)) s ∅.
Definition param (m : gmap string string) (k : string) : string := default "" (m !! k).

(** ** Answering a challenge *)

Inductive authState :=
| BasicState (basicHeader : string)
| DigestState (username password realm nonce opaque algorithm qop cnonce : string) (nc : Z).

Definition basicCredentials (user pass : string) : string := EncodeToString (user +:+ ":" +:+ pass).

Section auth.
Context (md5hex : string → string).

Definition parseChallenge (challenge username password : string) (cnonceFn : string) : result error authState :=
  let trimmed := Space.TrimSpace challenge in
  let '(scheme, rest) := match Strings.Cut trimmed " " with
                         | Some (a, b) => if String.eqb a "" then (trimmed, b) else (a, b)
                         | None => (trimmed, "")
                         end in
  let scheme' := ToLower scheme in
  if String.eqb scheme' "basic" then Ok (BasicState ("Basic " +:+ basicCredentials username password))
  else if String.eqb scheme' "digest" then
    let params := parseAuthParams rest in
    let algorithm := if String.eqb (param params "algorithm") "" then "MD5" else param params "algorithm" in
    let qop := param params "qop" in
    if String.eqb (param params "nonce") "" then Err (errorf "digest challenge missing nonce" [])
    else if negb (String.eqb algorithm "MD5") && negb (String.eqb algorithm "MD5-sess")
    then Err (errorf "digest algorithm %q unsupported" [algorithm])
    else if String.eqb qop "" then Err (errorf "digest challenge missing qop=auth" [])
    else if negb (existsb (λ q, String.eqb (Space.TrimSpace q) "auth") (Strings.Split qop ","))
    then Err (errorf "digest qop %q unsupported (want auth)" [qop])
    else Ok (DigestState username password (param params "realm") (param params "nonce") (param params "opaque") algorithm "auth" cnonceFn 0)
  else Err (errorf "auth scheme %q unsupported" [scheme]).

(** A header's text, in the order it is written. *)
Definition digest_header (username realm nonce uri algorithm response qop nc cnonce opaque : string) : string :=
  "Digest username=" +:+ quoted username +:+ ", realm=" +:+ quoted realm +:+ ", nonce=" +:+ quoted nonce +:+
  ", uri=" +:+ quoted uri +:+ ", algorithm=" +:+ algorithm +:+ ", response=" +:+ quoted response +:+
  ", qop=" +:+ qop +:+ ", nc=" +:+ nc +:+ ", cnonce=" +:+ quoted cnonce +:+
  (if String.eqb opaque "" then "" else ", opaque=" +:+ quoted opaque).

(** The header of the next request, and the state after it. *)
Definition authorizationHeader (method uri : string) (a : authState) : authState * string :=
  match a with
  | BasicState h => (a, h)
  | DigestState username password realm nonce opaque algorithm qop cnonce nc0 =>
      let nc1 := ((nc0 + 1) mod 2 ^ 32)%Z in
      let nc := hex8 nc1 in
      let ha1 := md5hex (username +:+ ":" +:+ realm +:+ ":" +:+ password) in
      let ha1 := if String.eqb algorithm "MD5-sess" then md5hex (ha1 +:+ ":" +:+ nonce +:+ ":" +:+ cnonce) else ha1 in
      let ha2 := md5hex (method +:+ ":" +:+ uri) in
      let response := md5hex (ha1 +:+ ":" +:+ nonce +:+ ":" +:+ nc +:+ ":" +:+ cnonce +:+ ":" +:+ qop +:+ ":" +:+ ha2) in
      (DigestState username password realm nonce opaque algorithm qop cnonce nc1,
       digest_header username realm nonce uri algorithm response qop nc cnonce opaque)
  end.

(** ** Sending *)

Record response := MkResponse { StatusCode : Z; challenge_ : string; body_ : string }.

(** One transport: where it posts, whose credentials it uses, what it keeps of
    the last challenge. The server is a state [S] and what it answers. *)
Section transport.
Context {St : Type} (exchange : St → option string → St * result error response).
Context (uri : string) (credentials : string * string) (cnonce : string).

Definition httpError (r : response) (k : Kind) : error :=
  Wrap "transport.Send" k (Some (errorf "http %d: %s" [Strconv.Itoa (StatusCode r)])).
Definition do (srv : St) (auth : option authState) : St * option authState * result error response :=
  let '(auth', header) :=
    match auth with
    | Some a => let '(a', h) := authorizationHeader "POST" uri a in (Some a', Some h)
    | None => (None, None)
    end in
  let '(srv', r) := exchange srv header in
  (srv', auth', map_err (λ e, Wrap "transport.Send" KindInternal (Some e)) r).

Definition classify (r : response) : result error string :=
  if (StatusCode r =? 401)%Z then Err (httpError r KindInvalidArgument)
  else if ((400 <=? StatusCode r) && (StatusCode r <? 500))%Z then Err (httpError r KindInvalidArgument)
  else if (500 <=? StatusCode r)%Z then Err (httpError r KindInternal)
  else Ok (body_ r).
Definition Send (srv : St) (auth : option authState) : St * option authState * result error string :=
  match do srv auth with
  | (srv1, auth1, Err e) => (srv1, auth1, Err e)
  | (srv1, auth1, Ok r) =>
      if (StatusCode r =? 401)%Z then
        if String.eqb (challenge_ r) "" then (srv1, auth1, Err (httpError r KindInvalidArgument))
        else
          match parseChallenge (challenge_ r) credentials.1 credentials.2 cnonce with
          | Err e => (srv1, auth1, Err (Wrap "transport.Send" KindInvalidArgument (Some e)))
          | Ok a =>
              match do srv1 (Some a) with
              | (srv2, auth2, Err e) => (srv2, auth2, Err e)
              | (srv2, auth2, Ok r2) => (srv2, auth2, classify r2)
              end
          end
      else (srv1, auth1, classify r)
  end.
End transport.
End auth.
