(* ===== verification/CrAuth.v ===== *)
(** * The connection-request listener ([internal/cwmp/cr]: [auth.go],
    [listener.go]).

    MD5 and Go's [%q] are parameters. A request is its method, its path and its
    Authorization header, empty when there is none; instants are nanoseconds. *)
From Stdlib Require Import ZArith Lia Ascii String Sorting.Sorted.
From S2P Require Import Prelude GoLib GoText GoAuth HttpAuth CpeErr.

Record request := MkRequest { Method : string; URLPath : string; Authorization : string }.

(** What is kept of an issued nonce, in a table by nonce. *)
Record nonceState := MkNonce { issuedAt : Z; seenNC : gset Z }.
Abbreviation nonces := (gmap string nonceState).

(** ** Basic *)

(** The challenge header an authenticator leaves, if any, and its verdict. *)
Definition verdict : Type := option string * bool.

Section authenticators.
Context (md5hex quote : string → string) (realm : string) (lookup : string * string).

Definition basic_challenge : string := "Basic realm=" +:+ quote realm.
Definition basicAuthenticate (r : request) : verdict :=
  let '(expectedUser, expectedPass) := lookup in
  if String.eqb expectedUser "" then (None, false)
  else
    let header := Authorization r in
    if String.eqb header "" || negb (Strings.HasPrefix header "Basic ") then (Some basic_challenge, false)
    else
      match DecodeString (Strings.TrimPrefix header "Basic ") with
      | None => (Some basic_challenge, false)
      | Some raw =>
          match Strings.Cut raw ":" with
          | None => (Some basic_challenge, false)
          | Some (user, pass) =>
              if negb (String.eqb user expectedUser) || negb (String.eqb pass expectedPass) then (Some basic_challenge, false)
              else (None, true)
          end
      end.

(** ** Digest *)

(** [parseDigestParams]: each turn consumes the [=] it finds. *)
Definition is_sep (c : ascii) : bool := Ascii.eqb c " " || Ascii.eqb c "," || Ascii.eqb c "009".
Fixpoint digest_loop (fuel : nat) (s : string) (out : gmap string string) : gmap string string :=
  match fuel with
  | O => out
  | S fuel =>
      match Strings.Cut s "=" with
      | None => out
      | Some (k, s) =>
          let key := Space.TrimSpace k in
          let bare :=
            match Strings.Cut s "," with
            | None => Some (Space.TrimSpace s, "")
            | Some (v, rest) => Some (Space.TrimSpace v, rest)
            end in
          let found :=
            match s with
            | String c s' => if Ascii.eqb c dquote then Strings.Cut s' dquote else bare
            | "" => bare
            end in
          match found with
          | None => out
          | Some (value, rest) => digest_loop fuel (TrimLeftSet is_sep rest) (<[ToLower key := value]> out)
          end
      end
  end.
Definition parseDigestParams (s : string) : gmap string string := digest_loop (S (String.length s)) s ∅.

Context (nonceTTL : Z).

Definition gcNonces (now : Z) (n : nonces) : nonces := filter (λ p, ¬ (issuedAt p.2 < now - nonceTTL)%Z) n.
(** [fresh] is what the nonce generator gives. *)
Definition writeChallenge (fresh : string) (now : Z) (stale : bool) (n : nonces) : nonces * option string :=
  (gcNonces now (<[fresh := MkNonce now ∅]> n),
   Some ("Digest realm=" +:+ quote realm +:+ ", nonce=" +:+ quote fresh +:+ ", qop=" +:+ quoted "auth" +:+ ", algorithm=MD5" +:+
     (if stale then ", stale=true" else ""))).

(** What a digest says, once its form is accepted. *)
Record claim := MkClaim { cNonce : string; cNCText : string; cNC : Z; cCnonce : string; cUri : string; cResponse : string }.
Definition claim_of (expectedUser : string) (r : request) : option claim :=
  let header := Authorization r in
  if String.eqb header "" || negb (Strings.HasPrefix (ToLower header) "digest ") then None
  else
    let params := parseDigestParams (Space.TrimSpace (Space.drop 6 header)) in
    let algo := ToUpper (param params "algorithm") in
    let algo := if String.eqb algo "" then "MD5" else algo in
    if negb (String.eqb algo "MD5") then None
    else if negb (String.eqb (param params "qop") "auth") then None
    else if negb (String.eqb (param params "realm") realm) then None
    else if negb (String.eqb (param params "username") expectedUser) then None
    else if String.eqb (param params "nonce") "" then None
    else if String.eqb (param params "nc") "" then None
    else
      match ParseHex (param params "nc") with
      | None => None
      | Some nc =>
          if (nc =? 0)%Z then None
          else if String.eqb (param params "cnonce") "" then None
          else Some (MkClaim (param params "nonce") (param params "nc") nc (param params "cnonce") (param params "uri") (param params "response"))
      end.
Definition expected (user pass method : string) (c : claim) : string :=
  let ha1 := md5hex (user +:+ ":" +:+ realm +:+ ":" +:+ pass) in
  let ha2 := md5hex (method +:+ ":" +:+ cUri c) in
  md5hex (ha1 +:+ ":" +:+ cNonce c +:+ ":" +:+ cNCText c +:+ ":" +:+ cCnonce c +:+ ":auth:" +:+ ha2).

Definition Authenticate (fresh : string) (now : Z) (r : request) (n : nonces) : nonces * verdict :=
  let '(expectedUser, expectedPass) := lookup in
  if String.eqb expectedUser "" then (n, (None, false))
  else
    let challenge stale n := let '(n', h) := writeChallenge fresh now stale n in (n', (h, false)) in
    match claim_of expectedUser r with
    | None => challenge false n
    | Some c =>
        let n := gcNonces now n in
        match n !! cNonce c with
        | None => challenge true n
        | Some st =>
            if (nonceTTL <? now - issuedAt st)%Z then challenge true (delete (cNonce c) n)
            else if bool_decide (cNC c ∈ seenNC st) then challenge false n
            else
              let n := <[cNonce c := MkNonce (issuedAt st) ({[cNC c]} ∪ seenNC st)]> n in
              if negb (String.eqb (expected expectedUser expectedPass (Method r) c) (cResponse c)) then challenge false n
              else (n, (None, true))
        end
    end.
End authenticators.

(** ** The listener *)

Record Endpoint := MkEndpoint { ePath : string; eThrottle : Z }.
Record Listener := MkListener { endpoints : gmap string Endpoint; started : bool }.
Definition Register (ep : Endpoint) (l : Listener) : result error Listener :=
  if started l then Err (Wrap "cr.Register" KindInvalidArgument (Some (errorf "Register after Start is not supported" [])))
  else if String.eqb (ePath ep) "" || negb (Strings.HasPrefix (ePath ep) "/")
  then Err (Wrap "cr.Register" KindInvalidArgument (Some (errorf "path must start with %q, got %q" ["/"; ePath ep])))
  else if bool_decide (is_Some (endpoints l !! ePath ep))
  then Err (Wrap "cr.Register" KindInvalidArgument (Some (errorf "path %q already registered" [ePath ep])))
  else Ok (MkListener (<[ePath ep := ep]> (endpoints l)) (started l)).

Inductive reply := NotFound | MethodNotAllowed | Unauthorized (challenge : option string) | Unavailable (retryAfter : Z) | Accepted.
Definition status (r : reply) : Z :=
  match r with NotFound => 404 | MethodNotAllowed => 405 | Unauthorized _ => 401 | Unavailable _ => 503 | Accepted => 200 end.

Definition Second : Z := 1000000000.
(** [int(d.Seconds())], rounded up, at least one. The float holds whole
    seconds exactly for waits below 104 days. *)
Definition retry_seconds (d : Z) : Z :=
  let seconds := (d / Second)%Z in
  if (seconds <? 1)%Z then 1 else if (seconds * Second <? d)%Z then (seconds + 1)%Z else seconds.

(** One endpoint's handler: [auth] is its authenticator on a state [A], and
    [lastAllowed] its throttle, unset at first. *)
Section handler.
Context {A : Type} (ep : Endpoint) (auth : option (Z → request → A → A * (option string * bool))).
Definition handlerFor (now : Z) (r : request) (w : A * option Z) : (A * option Z) * reply :=
  let '(a, lastAllowed) := w in
  if negb (String.eqb (URLPath r) (ePath ep)) then (w, NotFound)
  else if negb (String.eqb (Method r) "GET") then (w, MethodNotAllowed)
  else
    let '(a, (challenge, ok)) := match auth with Some f => f now r a | None => (a, (None, true)) end in
    if negb ok then ((a, lastAllowed), Unauthorized challenge)
    else if (0 <? eThrottle ep)%Z then
      match lastAllowed with
      | Some last =>
          let elapsed := (now - last)%Z in
          if (elapsed <? eThrottle ep)%Z then ((a, lastAllowed), Unavailable (retry_seconds (eThrottle ep - elapsed)))
          else ((a, Some now), Accepted)
      | None => ((a, Some now), Accepted)
      end
    else ((a, lastAllowed), Accepted).
End handler.
