(* ===== verification/AuthProps.v ===== *)
(** * What authentication promises, on both sides ([internal/cwmp/transport],
    [internal/cwmp/cr]): digests do not replay, the two ends understand each
    other, the throttle holds. *)
From Stdlib Require Import ZArith Lia Ascii String Sorting.Sorted.
From S2P Require Import Prelude GoLib GoText GoAuth HttpAuth CrAuth CpeErr.

(** ** Printed parameters are read back *)

Lemma no_dquote_cons c s : Strings.no_byte dquote (String c s) = true → Ascii.eqb c dquote = false ∧ Strings.no_byte dquote s = true.
Proof. unfold Strings.no_byte. cbn. rewrite andb_true_iff, negb_true_iff. done. Qed.

Lemma digest_loop_quoted fuel k v rest out :
  Strings.no_byte "=" k = true → str_forall graphic k = true → Strings.no_byte dquote v = true →
  digest_loop (S fuel) (k +:+ "=" +:+ quoted v +:+ rest) out = digest_loop fuel (TrimLeftSet is_sep rest) (<[ToLower k := v]> out).
Proof.
  intros Hk Hg Hv. cbn [digest_loop]. change (k +:+ "=" +:+ quoted v +:+ rest) with (k +:+ String "=" (quoted v +:+ rest)).
  rewrite Cut_app by done. rewrite (TrimSpace_graphic k Hg). unfold quoted.
  change (String dquote (v +:+ String dquote "") +:+ rest) with (String dquote ((v +:+ String dquote "") +:+ rest)).
  cbn iota beta zeta. rewrite Ascii.eqb_refl, str_app_assoc. change (String dquote "" +:+ rest) with (String dquote rest). by rewrite Cut_app.
Qed.
Lemma digest_loop_bare fuel k c v rest out :
  Strings.no_byte "=" k = true → str_forall graphic k = true → str_forall graphic (String c v) = true →
  Strings.no_byte "," (String c v) = true → Ascii.eqb c dquote = false →
  digest_loop (S fuel) (k +:+ "=" +:+ String c v +:+ "," +:+ rest) out = digest_loop fuel (TrimLeftSet is_sep rest) (<[ToLower k := String c v]> out).
Proof.
  intros Hk Hg Hv Hc Hq. cbn [digest_loop]. change (k +:+ "=" +:+ String c v +:+ "," +:+ rest) with (k +:+ String "=" (String c v +:+ String "," rest)).
  rewrite Cut_app by done. rewrite (TrimSpace_graphic k Hg). cbn iota beta zeta. rewrite Cut_app by done. change (String c v +:+ String "," rest) with (String c (v +:+ String "," rest)).
  cbn iota. rewrite Hq. by rewrite (TrimSpace_graphic _ Hv).
Qed.
Lemma digest_loop_done fuel out : digest_loop fuel "" out = out.
Proof. by destruct fuel. Qed.

(** One quoted parameter of a digest. *)
Ltac step_quoted := match goal with |- context [digest_loop (S ?f) ?t ?m] =>
  first [ rewrite (digest_loop_quoted f "username") by done | rewrite (digest_loop_quoted f "realm") by done
        | rewrite (digest_loop_quoted f "nonce") by done | rewrite (digest_loop_quoted f "uri") by done
        | rewrite (digest_loop_quoted f "response") by done | rewrite (digest_loop_quoted f "cnonce") by done ] end.

(** Everything quoted is free of quotes, and what must be there is. *)
Record plain_digest (username realm nonce uri response cnonce : string) : Prop := {
  pd_user : Strings.no_byte dquote username = true; pd_realm : Strings.no_byte dquote realm = true;
  pd_nonce : Strings.no_byte dquote nonce = true; pd_uri : Strings.no_byte dquote uri = true;
  pd_response : Strings.no_byte dquote response = true; pd_cnonce : Strings.no_byte dquote cnonce = true;
  pd_nonce_ne : nonce ≠ ""; pd_cnonce_ne : cnonce ≠ ""
}.

Definition digest_params (username realm nonce uri algorithm response qop nc cnonce : string) : string :=
  "username=" +:+ quoted username +:+ ", realm=" +:+ quoted realm +:+ ", nonce=" +:+ quoted nonce +:+
  ", uri=" +:+ quoted uri +:+ ", algorithm=" +:+ algorithm +:+ ", response=" +:+ quoted response +:+
  ", qop=" +:+ qop +:+ ", nc=" +:+ nc +:+ ", cnonce=" +:+ quoted cnonce +:+ "".

Lemma hex8_cons n : ∃ c s, hex8 n = String c s ∧ Ascii.eqb c dquote = false ∧
  str_forall graphic (hex8 n) = true ∧ Strings.no_byte "," (hex8 n) = true.
Proof.
  destruct (hex_digits_graphic 8 n) as [Hg Hq]. assert (Strings.no_byte "," (hex8 n) = true) as Hc.
  { unfold hex8. generalize 8%nat as k. intros k. clear Hg Hq; revert n. unfold Strings.no_byte. induction k as [|k IH]; intros n; [done|].
    cbn [hex_digits]. rewrite str_forall_app, IH. cbn. destruct (hex_value_digit (n mod 16) ltac:(apply Z.mod_pos_bound; lia)) as (Hv&_&_).
    destruct (Ascii.eqb_spec (hex_digit (n mod 16)) ",") as [E|]; [|done]. rewrite E in Hv. by vm_compute in Hv. }
  unfold hex8 in *. destruct (hex_digits 8 n) as [|c s] eqn:E.
  - apply (f_equal String.length) in E. cbn [hex_digits] in E. rewrite str_length_app in E. cbn in E. lia.
  - exists c, s. split_and!; try done. by apply no_dquote_cons in Hq as [? _].
Qed.

Lemma parse_digest_params username realm nonce uri response cnonce nc :
  plain_digest username realm nonce uri response cnonce →
  let m := parseDigestParams (digest_params username realm nonce uri "MD5" response "auth" (hex8 nc) cnonce) in
  param m "algorithm" = "MD5" ∧ param m "qop" = "auth" ∧ param m "realm" = realm ∧ param m "username" = username ∧
  param m "nonce" = nonce ∧ param m "nc" = hex8 nc ∧ param m "cnonce" = cnonce ∧ param m "uri" = uri ∧ param m "response" = response.
Proof.
  intros [H1 H2 H3 H4 H5 H6 H7 H8]. destruct (hex8_cons nc) as (c&s&Ec&Hq&Hg&Hc).
  unfold parseDigestParams. set (text := digest_params _ _ _ _ _ _ _ _ _).
  assert (∃ n, S (String.length text) = (10 + n)%nat) as [n ->].
  { exists (String.length text - 9)%nat. assert (9 ≤ String.length text)%nat; [|lia]. unfold text, digest_params. rewrite str_length_app. cbn. lia. }
  unfold text, digest_params. cbn [Nat.add].
  change ("username=" +:+ ?x) with ("username" +:+ "=" +:+ x). step_quoted.
  change (TrimLeftSet is_sep (", realm=" +:+ ?x)) with ("realm" +:+ "=" +:+ x). step_quoted.
  change (TrimLeftSet is_sep (", nonce=" +:+ ?x)) with ("nonce" +:+ "=" +:+ x). step_quoted.
  change (TrimLeftSet is_sep (", uri=" +:+ ?x)) with ("uri" +:+ "=" +:+ x). step_quoted.
  change (TrimLeftSet is_sep (", algorithm=" +:+ "MD5" +:+ ", response=" +:+ ?x)) with ("algorithm" +:+ "=" +:+ "MD5" +:+ "," +:+ " response=" +:+ x).
  rewrite (digest_loop_bare _ "algorithm" "M" "D5") by done.
  change (TrimLeftSet is_sep (" response=" +:+ ?x)) with ("response" +:+ "=" +:+ x). step_quoted.
  change (TrimLeftSet is_sep (", qop=" +:+ "auth" +:+ ", nc=" +:+ ?x)) with ("qop" +:+ "=" +:+ "auth" +:+ "," +:+ " nc=" +:+ x).
  rewrite (digest_loop_bare _ "qop" "a" "uth") by done. rewrite Ec in *.
  change (TrimLeftSet is_sep (" nc=" +:+ ?x +:+ ", cnonce=" +:+ ?y)) with ("nc" +:+ "=" +:+ x +:+ "," +:+ " cnonce=" +:+ y).
  rewrite (digest_loop_bare _ "nc" c s) by done.
  change (TrimLeftSet is_sep (" cnonce=" +:+ ?x)) with ("cnonce" +:+ "=" +:+ x). step_quoted.
  change (TrimLeftSet is_sep "") with "". rewrite digest_loop_done. unfold param. cbn [ToLower].
  repeat match goal with |- context [ToLower ?k] => let v := eval vm_compute in (ToLower k) in change (ToLower k) with v end.
  split_and!; by simplify_map_eq.
Qed.

(** The server reads in a header what the client wrote. *)
Lemma claim_read realm username nonce uri response cnonce nc method path :
  plain_digest username realm nonce uri response cnonce → (1 ≤ nc < 2 ^ 32)%Z →
  claim_of realm username (MkRequest method path (digest_header username realm nonce uri "MD5" response "auth" (hex8 nc) cnonce "")) =
  Some (MkClaim nonce (hex8 nc) nc cnonce uri response).
Proof.
  intros Hp Hn. pose proof (parse_digest_params _ _ _ _ _ _ nc Hp) as H.
  assert (digest_header username realm nonce uri "MD5" response "auth" (hex8 nc) cnonce "" =
    "Digest " +:+ digest_params username realm nonce uri "MD5" response "auth" (hex8 nc) cnonce) as -> by done.
  set (params := digest_params _ _ _ _ _ _ _ _ _) in *.
  unfold claim_of. cbn [Authorization]. change (String.eqb ("Digest " +:+ params) "") with false.
  change (Strings.HasPrefix (ToLower ("Digest " +:+ params)) "digest ") with true. cbn [orb negb].
  change (Space.drop 6 ("Digest " +:+ params)) with (String " " params).
  assert (∃ c s, params = String c s ∧ graphic c = true ∧ last_graphic (String c s) = true) as (c&s&E&Hc&Hl).
  { exists "u"%char, ("sername=" +:+ quoted username +:+ ", realm=" +:+ quoted realm +:+ ", nonce=" +:+ quoted nonce +:+
      ", uri=" +:+ quoted uri +:+ ", algorithm=" +:+ "MD5" +:+ ", response=" +:+ quoted response +:+
      ", qop=" +:+ "auth" +:+ ", nc=" +:+ hex8 nc +:+ ", cnonce=" +:+ quoted cnonce +:+ ""). split; [done|]. split; [done|].
    assert (∀ a b, last_graphic (a +:+ (b +:+ String dquote "")) = true) as Hlast.
    { intros a b. rewrite <-str_app_assoc. by apply last_graphic_app. }
    change (String "u" ?x) with ("u" +:+ x). unfold quoted at 6. rewrite str_app_nil_r.
    change (String dquote (cnonce +:+ String dquote "")) with (String dquote cnonce +:+ String dquote "").
    rewrite <-!str_app_assoc. by apply last_graphic_app. }
  rewrite E. rewrite (TrimSpace_cons c s Hc Hl), <-E. destruct H as (->&->&->&->&->&->&->&->&->).
  cbn [ToUpper]. change (String.eqb (ToUpper "MD5") "") with false. change (String.eqb (ToUpper "MD5") "MD5") with true.
  change (String.eqb "auth" "auth") with true. rewrite !String.eqb_refl. cbn [negb].
  destruct Hp as [? ? ? ? ? ? Hne Hce]. apply String.eqb_neq in Hne, Hce. rewrite Hne, Hce.
  destruct (hex8_cons nc) as (d&t&Ed&_). rewrite ParseHex_hex8 by lia. rewrite Ed. change (String.eqb (String d t) "") with false.
  cbn iota. rewrite <-Ed. destruct (Z.eqb_spec nc 0); [lia|done].
Qed.

(** *** A challenge *)

Lemma span_until_app p a c s : str_forall (λ x, negb (p x)) a = true → p c = true →
  span_until p (a +:+ String c s) = (a, String c s).
Proof.
  intros Ha Hc. induction a as [|d a IH]; cbn in *; [by rewrite Hc|]. apply andb_true_iff in Ha as [Hd Ha]. apply negb_true_iff in Hd.
  by rewrite Hd, IH.
Qed.
Lemma span_until_end p a : str_forall (λ x, negb (p x)) a = true → span_until p a = (a, "").
Proof.
  intros Ha. induction a as [|d a IH]; cbn in *; [done|]. apply andb_true_iff in Ha as [Hd Ha]. apply negb_true_iff in Hd.
  by rewrite Hd, IH.
Qed.

Lemma parse_loop_skip fuel c s out : is_skip c = true → parse_loop (S fuel) (String c s) out = parse_loop (S fuel) s out.
Proof. intros H. cbn [parse_loop TrimLeftSet]. by rewrite H. Qed.
Lemma parse_loop_quoted fuel k c v rest out :
  str_forall graphic (String c k) = true → str_forall (λ x, negb (Ascii.eqb x "=" || Ascii.eqb x ",")) (String c k) = true → is_skip c = false →
  Strings.no_byte dquote v = true →
  parse_loop (S fuel) (String c k +:+ "=" +:+ quoted v +:+ rest) out = parse_loop fuel rest (<[ToLower (String c k) := v]> out).
Proof.
  intros Hg Hk Hc Hv. cbn [parse_loop]. change (String c k +:+ "=" +:+ quoted v +:+ rest) with (String c (k +:+ String "=" (quoted v +:+ rest))).
  cbn [TrimLeftSet]. rewrite Hc. change (String.eqb (String c ?x) "") with false. cbn iota.
  change (String c (k +:+ String "=" (quoted v +:+ rest))) with (String c k +:+ String "=" (quoted v +:+ rest)).
  rewrite span_until_app by done. rewrite (TrimSpace_graphic _ Hg). change (Ascii.eqb "=" "=") with true. cbn iota.
  unfold quoted. change (String dquote (v +:+ String dquote "") +:+ rest) with (String dquote ((v +:+ String dquote "") +:+ rest)).
  cbn iota beta zeta. rewrite Ascii.eqb_refl, str_app_assoc. change (String dquote "" +:+ rest) with (String dquote rest).
  rewrite span_until_app; [done| |apply Ascii.eqb_refl]. eapply str_forall_impl; [|exact Hv]. intros x. by rewrite Ascii.eqb_sym.
Qed.

(** The client reads in a challenge what the server wrote. *)
Lemma challenge_read quote realm nonce ttl now n user pass cnonce :
  quote realm = quoted realm → quote nonce = quoted nonce → Strings.no_byte dquote realm = true → Strings.no_byte dquote nonce = true → nonce ≠ "" →
  parseChallenge (default "" (writeChallenge quote realm ttl nonce now false n).2) user pass cnonce =
  Ok (DigestState user pass realm nonce "" "MD5" "auth" cnonce 0).
Proof.
  intros Hr Hn Hq Hq2 Hne. cbn [writeChallenge snd default]. unfold id. rewrite Hr, Hn. rewrite str_app_nil_r.
  set (text := "realm=" +:+ quoted realm +:+ ", nonce=" +:+ quoted nonce +:+ ", qop=" +:+ quoted "auth" +:+ ", algorithm=MD5").
  change ("Digest realm=" +:+ ?x) with ("Digest " +:+ ("realm=" +:+ x)). fold text. unfold parseChallenge.
  assert (Space.TrimSpace ("Digest " +:+ text) = "Digest " +:+ text) as ->.
  { apply (TrimSpace_id "D" ("igest " +:+ text)); [done|].
    change (String "D" ("igest " +:+ text)) with ("Digest realm=" +:+ quoted realm +:+ ", nonce=" +:+ quoted nonce +:+ ", qop=" +:+ quoted "auth" +:+ (", algorithm=MD" +:+ "5")).
    rewrite <-!str_app_assoc. by apply last_graphic_app. }
  change ("Digest " +:+ text) with ("Digest" +:+ String " " text) at 1. rewrite Cut_app by done.
  change (String.eqb "Digest" "") with false. change (String.eqb (ToLower "Digest") "basic") with false.
  change (String.eqb (ToLower "Digest") "digest") with true. cbn iota zeta.
  assert (parseAuthParams text = <["algorithm" := "MD5"]> (<["qop" := "auth"]> (<["nonce" := nonce]> (<["realm" := realm]> ∅)))) as ->.
  { unfold parseAuthParams. assert (∃ f, S (String.length text) = (8 + f)%nat) as [f ->].
    { exists (String.length text - 7)%nat. assert (7 ≤ String.length text)%nat; [|lia]. unfold text. rewrite str_length_app. cbn. lia. }
    unfold text. cbn [Nat.add].
    change ("realm=" +:+ ?x) with (String "r" "ealm" +:+ "=" +:+ x). rewrite parse_loop_quoted by done.
    change (", nonce=" +:+ ?x) with (String "," (String " " (String "n" "once" +:+ "=" +:+ x))). rewrite !parse_loop_skip by done. rewrite parse_loop_quoted by done.
    change (", qop=" +:+ ?x) with (String "," (String " " (String "q" "op" +:+ "=" +:+ x))). rewrite !parse_loop_skip by done. rewrite parse_loop_quoted by done.
    change (", algorithm=MD5") with (String "," (String " " "algorithm=MD5")). rewrite !parse_loop_skip by done. reflexivity. }
  unfold param. repeat (rewrite lookup_insert_eq || rewrite lookup_insert_ne by done). rewrite lookup_empty. cbn [default].
  unfold id. apply String.eqb_neq in Hne. rewrite Hne. reflexivity.
Qed.

(** ** A client of the transport against the listener's digests *)

Section session.
Context (md5hex quote : string → string) (realm user pass uri cnonce path body : string) (fresh : nat → string) (ttl now : Z).

(** Names and nonces are printable without quotes, digests are hexadecimal. *)
Record parties : Prop := {
  p_quote : quote realm = quoted realm; p_quote_nonce i : quote (fresh i) = quoted (fresh i);
  p_realm : Strings.no_byte dquote realm = true; p_nonce i : Strings.no_byte dquote (fresh i) = true ∧ fresh i ≠ "";
  p_user : Strings.no_byte dquote user = true ∧ user ≠ ""; p_uri : Strings.no_byte dquote uri = true;
  p_cnonce : Strings.no_byte dquote cnonce = true ∧ cnonce ≠ ""; p_md5 s : Strings.no_byte dquote (md5hex s) = true;
  p_ttl : (0 ≤ ttl)%Z
}.

(** The server: its nonces and how many it generated. *)
Definition exchange (w : nonces * nat) (header : option string) : (nonces * nat) * result error response :=
  let '(n, (challenge, ok)) := Authenticate md5hex quote realm (user, pass) ttl (fresh w.2) now (MkRequest "POST" path (default "" header)) w.1 in
  ((n, S w.2), Ok (if ok then MkResponse 200 "" body else MkResponse 401 (default "" challenge) "")).
Fixpoint sends (k : nat) (w : nonces * nat) (auth : option authState) : (nonces * nat) * option authState * list (result error string) :=
  match k with
  | O => (w, auth, [])
  | S k =>
      let '(w, auth, r) := Send md5hex exchange uri (user, pass) cnonce w auth in
      let '(w, auth, l) := sends k w auth in (w, auth, r :: l)
  end.

(** The client holds a nonce the server issued, and no later count is used. *)
Definition agreed (w : nonces * nat) (nonce : string) (nc : Z) : Prop :=
  ∃ seen, w.1 !! nonce = Some (MkNonce now seen) ∧ ∀ x, x ∈ seen → (x ≤ nc)%Z.
Definition client (nonce : string) (nc : Z) : authState := DigestState user pass realm nonce "" "MD5" "auth" cnonce nc.

Lemma gc_fresh n nonce seen : (0 ≤ ttl)%Z → n !! nonce = Some (MkNonce now seen) → gcNonces ttl now n !! nonce = Some (MkNonce now seen).
Proof. intros Ht Hn. unfold gcNonces. apply map_lookup_filter_Some. split; [done|]. cbn. lia. Qed.

Lemma exchange_accepts (P : parties) w i nc : agreed w (fresh i) nc → (0 ≤ nc < 2 ^ 32 - 1)%Z →
  ∃ w', exchange w (Some (authorizationHeader md5hex "POST" uri (client (fresh i) nc)).2) = (w', Ok (MkResponse 200 "" body)) ∧
    agreed w' (fresh i) (nc + 1) ∧ w'.2 = S w.2.
Proof.
  intros (seen&Hs&Hle) Hnc. destruct P as [Pq Pqn Pr Pn [Pu Pune] Puri [Pc Pcne] Pmd Pt]. destruct (Pn i) as [Hn Hne].
  unfold client, authorizationHeader. cbn [snd]. rewrite Z.mod_small by lia. change (String.eqb "MD5" "MD5-sess") with false. cbn iota zeta.
  set (resp := md5hex (md5hex (user +:+ _) +:+ _)). unfold exchange, Authenticate. cbn [default fst snd]. unfold id.
  apply String.eqb_neq in Pune as Eu. rewrite Eu. rewrite claim_read; [|constructor; (done || apply Pmd)|lia]. cbn [cNonce cNC].
  rewrite (gc_fresh w.1 (fresh i) seen Pt Hs). cbn [issuedAt seenNC]. destruct (Z.ltb_spec ttl (now - now)); [lia|].
  rewrite bool_decide_false by (intros Hin%Hle; lia).
  assert (expected md5hex realm user pass "POST" (MkClaim (fresh i) (hex8 (nc + 1)) (nc + 1) cnonce uri resp) = resp) as E.
  { reflexivity. }
  cbn [Method cResponse]. rewrite E. rewrite String.eqb_refl. cbn [negb fst snd]. eexists. split; [done|]. split; [|done].
  exists ({[(nc + 1)%Z]} ∪ seen). split; [apply lookup_insert_eq|]. intros x [->%elem_of_singleton|Hx%Hle]%elem_of_union; lia.
Qed.

Lemma Send_agreed (P : parties) w i nc : agreed w (fresh i) nc → (0 ≤ nc < 2 ^ 32 - 1)%Z →
  ∃ w', Send md5hex exchange uri (user, pass) cnonce w (Some (client (fresh i) nc)) = (w', Some (client (fresh i) (nc + 1)), Ok body) ∧
    agreed w' (fresh i) (nc + 1) ∧ w'.2 = S w.2.
Proof.
  intros Ha Hnc. destruct (exchange_accepts P w i nc Ha Hnc) as (w'&E&Ha'&Hk). exists w'. split; [|done].
  unfold Send, do. destruct (authorizationHeader md5hex "POST" uri (client (fresh i) nc)) as [a h] eqn:Eh. cbn [snd] in E. rewrite E. cbn.
  unfold client, authorizationHeader in Eh. rewrite Z.mod_small in Eh by lia. by injection Eh as <- _.
Qed.

Lemma Send_first (P : parties) k :
  ∃ w', Send md5hex exchange uri (user, pass) cnonce (∅, k) None = (w', Some (client (fresh k) 1), Ok body) ∧
    agreed w' (fresh k) 1 ∧ w'.2 = S (S k).
Proof.
  assert (exchange (∅, k) None = ((gcNonces ttl now (<[fresh k := MkNonce now ∅]> ∅), S k),
    Ok (MkResponse 401 (default "" (writeChallenge quote realm ttl (fresh k) now false ∅).2) ""))) as E.
  { unfold exchange, Authenticate. cbn [default fst snd]. destruct P as [? ? ? ? [_ Hune] ? ? ? ?]. apply String.eqb_neq in Hune. by rewrite Hune. }
  assert (agreed (gcNonces ttl now (<[fresh k := MkNonce now ∅]> ∅), S k) (fresh k) 0) as Ha.
  { exists ∅. split; [|by intros x ?%elem_of_empty]. cbn [fst]. apply gc_fresh; [by destruct P|apply lookup_insert_eq]. }
  destruct (exchange_accepts P _ k 0 Ha ltac:(lia)) as (w'&E2&Ha'&Hk). exists w'. split; [|done].
  unfold Send at 1. unfold do at 1. rewrite E. cbn [map_err].
  change (StatusCode _ =? 401)%Z with true. cbn iota. cbn [challenge_].
  destruct P as [Pq Pqn Pr Pn ? ? ? ? ?]. rewrite challenge_read by (try done; apply Pn).
  assert (String.eqb (default "" (writeChallenge quote realm ttl (fresh k) now false ∅).2) "" = false) as -> by done.
  cbn [fst snd]. unfold do. fold (client (fresh k) 0). destruct (authorizationHeader md5hex "POST" uri (client (fresh k) 0)) as [a h] eqn:Eh.
  cbn [snd] in E2. rewrite E2. cbn. unfold client, authorizationHeader in Eh. rewrite Z.mod_small in Eh by lia. by injection Eh as <- _.
Qed.

Lemma sends_agreed (P : parties) k w i nc : agreed w (fresh i) nc → (0 ≤ nc)%Z → (nc + Z.of_nat k < 2 ^ 32)%Z →
  ∃ w', sends k w (Some (client (fresh i) nc)) = (w', Some (client (fresh i) (nc + Z.of_nat k)), replicate k (Ok body)) ∧
    w'.2 = (k + w.2)%nat.
Proof.
  revert w nc. induction k as [|k IH]; intros w nc Ha Hn Hk; cbn [sends replicate].
  { exists w. by rewrite Z.add_0_r. }
  destruct (Send_agreed P w i nc Ha ltac:(lia)) as (w1&->&Ha1&Hk1).
  destruct (IH w1 (nc + 1)%Z Ha1 ltac:(lia) ltac:(lia)) as (w2&->&Hk2). exists w2. split; [|rewrite Hk2, Hk1; lia].
  by replace (nc + Z.of_nat (S k))%Z with (nc + 1 + Z.of_nat k)%Z by lia.
Qed.

(** A transport with the right credentials, against a server that asks for
    the digests the listener's authenticator checks: the first request is
    challenged once and answered, and it and the [k] that follow all succeed,
    each with the next count of the same nonce. *)
Theorem digest_session (P : parties) (k : nat) (Hk : (Z.of_nat k < 2 ^ 32 - 1)%Z) :
  ∃ n, sends (S k) (∅, O) None = ((n, (k + 2)%nat), Some (client (fresh 0) (Z.of_nat k + 1)), replicate (S k) (Ok body)).
Proof.
  cbn [sends replicate]. destruct (Send_first P 0) as (w&->&Ha&Hw).
  destruct (sends_agreed P k w 0 1 Ha ltac:(lia) ltac:(lia)) as ([n j]&->&Hj). exists n. cbn in Hj. rewrite Hj, Hw, (Z.add_comm 1). done.
Qed.
End session.

(** ** No digest is accepted twice *)

Section once.
Context (md5hex quote : string → string) (realm user pass : string) (ttl : Z).

(** What each call of the authenticator is given: the next nonce of the
    generator, the time and the request. *)
Definition call : Type := string * Z * request.
Definition issued (c : call) : string := c.1.1.
Definition authenticate (c : call) (n : nonces) : nonces * verdict :=
  Authenticate md5hex quote realm (user, pass) ttl c.1.1 c.1.2 c.2 n.
(** The nonces and counts of the requests let in. *)
Fixpoint admitted (l : list call) (n : nonces) : list (string * Z) :=
  match l with
  | [] => []
  | c :: l =>
      let '(n', (_, ok)) := authenticate c n in
      match claim_of realm user c.2 with
      | Some d => if ok then (cNonce d, cNC d) :: admitted l n' else admitted l n'
      | None => admitted l n'
      end
  end.

Lemma gc_lookup t (n : nonces) N st : gcNonces ttl t n !! N = Some st → n !! N = Some st.
Proof. intros [H _]%map_lookup_filter_Some. done. Qed.

(** A nonce of the table was there before with no fewer counts used, or is the
    one just issued. *)
Definition grows (f : string) (n n' : nonces) : Prop :=
  ∀ N st, n' !! N = Some st → N = f ∨ ∃ st0, n !! N = Some st0 ∧ seenNC st0 ⊆ seenNC st.
Lemma grows_challenge f t stale n0 n : (∀ N st, n !! N = Some st → ∃ st0, n0 !! N = Some st0 ∧ seenNC st0 ⊆ seenNC st) →
  grows f n0 (writeChallenge quote realm ttl f t stale n).1.
Proof.
  intros H N st Hn. cbn [writeChallenge fst] in Hn. apply gc_lookup in Hn. destruct (decide (f = N)) as [->|Hne]; [by left|].
  rewrite lookup_insert_ne in Hn by done. right. by apply H.
Qed.

Lemma authenticate_step c n n' ch ok : authenticate c n = (n', (ch, ok)) →
  grows (issued c) n n' ∧
  (ok = true → ∃ d st0, claim_of realm user c.2 = Some d ∧ cResponse d = expected md5hex realm user pass (Method c.2) d ∧
    n !! cNonce d = Some st0 ∧ (cNC d ∉ seenNC st0) ∧ ∀ st, n' !! cNonce d = Some st → cNC d ∈ seenNC st).
Proof.
  destruct c as [[f t] r]. unfold authenticate, Authenticate, issued. cbn [fst snd]. destruct (String.eqb user "").
  { intros [= <- <- <-]. split; [|done]. intros N st Hn. right. by exists st. }
  destruct (claim_of realm user r) as [d|] eqn:Ec.
  2:{ intros [= <- <- <-]. split; [|done]. apply (grows_challenge f t false n n). intros N st Hn. by exists st. }
  destruct (gcNonces ttl t n !! cNonce d) as [st|] eqn:Es.
  2:{ intros [= <- <- <-]. split; [|done]. apply (grows_challenge f t true n). intros N st Hn%gc_lookup. by exists st. }
  apply gc_lookup in Es as Es'. destruct (ttl <? t - issuedAt st)%Z.
  { intros [= <- <- <-]. split; [|done]. apply (grows_challenge f t true n). intros N x [_ Hn%gc_lookup]%lookup_delete_Some. by exists x. }
  destruct (bool_decide_reflect (cNC d ∈ seenNC st)) as [Hin|Hin].
  { intros [= <- <- <-]. split; [|done]. apply (grows_challenge f t false n). intros N x Hn%gc_lookup. by exists x. }
  set (n1 := <[cNonce d := _]> (gcNonces ttl t n)).
  assert (∀ N x, n1 !! N = Some x → ∃ st0, n !! N = Some st0 ∧ seenNC st0 ⊆ seenNC x) as Hg.
  { intros N x. unfold n1. destruct (decide (cNonce d = N)) as [<-|Hne].
    - rewrite lookup_insert_eq. intros [= <-]. exists st. split; [done|]. cbn. set_solver.
    - rewrite lookup_insert_ne by done. intros Hn%gc_lookup. by exists x. }
  destruct (String.eqb_spec (expected md5hex realm user pass (Method r) d) (cResponse d)) as [Ee|Ee]; cbn [negb].
  - intros [= <- <- <-]. split; [intros N x Hn; right; by apply Hg|]. intros _. exists d, st. split_and!; [done|done|done|done|].
    unfold n1. rewrite lookup_insert_eq. intros x [= <-]. cbn. set_solver.
  - intros [= <- <- <-]. split; [|done]. by apply (grows_challenge f t false n).
Qed.

Lemma admitted_fresh l n (used : list (string * Z)) :
  NoDup (issued <$> l) → (∀ c, c ∈ l → n !! issued c = None) →
  (∀ N k, (N, k) ∈ used → (N ∉ (issued <$> l)) ∧ ∀ st, n !! N = Some st → k ∈ seenNC st) →
  NoDup (admitted l n) ∧ ∀ p, p ∈ admitted l n → p ∉ used.
Proof.
  revert n used. induction l as [|c l IH]; intros n used Hnd Hf Hu; [split; [apply NoDup_nil_2|by intros p ?%not_elem_of_nil]|].
  rewrite fmap_cons in Hnd. apply NoDup_cons in Hnd as [Hc Hnd]. cbn [admitted]. destruct (authenticate c n) as [n' [ch ok]] eqn:Ea.
  destruct (authenticate_step c n n' ch ok Ea) as [Hg Hok].
  assert (∀ x, x ∈ l → n' !! issued x = None) as Hf'.
  { intros x Hx. destruct (n' !! issued x) as [st|] eqn:E; [|done]. exfalso. destruct (Hg _ _ E) as [Ex|(st0&Hs&_)].
    - apply Hc. rewrite <-Ex. by apply (list_elem_of_fmap_2 issued).
    - rewrite (Hf x) in Hs; [done|by right]. }
  assert (∀ N k, (N, k) ∈ used → (N ∉ (issued <$> l)) ∧ ∀ st, n' !! N = Some st → k ∈ seenNC st) as Hu'.
  { intros N k Hin. destruct (Hu N k Hin) as [Hn Hs]. rewrite fmap_cons, not_elem_of_cons in Hn. destruct Hn as [Hne Hn]. split; [done|].
    intros st Hst. destruct (Hg N st Hst) as [?|(st0&Hst0&Hsub)]; [done|]. by apply Hsub, Hs. }
  assert (NoDup (admitted l n') ∧ ∀ p, p ∈ admitted l n' → p ∉ used) as [Hnd' Hout] by by apply IH.
  destruct ok; [|by destruct (claim_of realm user c.2)]. destruct (Hok eq_refl) as (d&st0&Ed&_&Hs0&Hk&Hs'). rewrite Ed.
  assert (cNonce d ∉ (issued <$> l)) as Hdn.
  { intros (x&E&Hx)%list_elem_of_fmap. rewrite E, (Hf x) in Hs0; [done|by right]. }
  destruct (IH n' ((cNonce d, cNC d) :: used) Hnd Hf') as [_ Hout2].
  { intros N k [[= -> ->]|Hin]%elem_of_cons; [by split|]. by apply Hu'. }
  split.
  - apply NoDup_cons. split; [|done]. intros Hin. apply (Hout2 _ Hin). by left.
  - intros p [->|Hp]%elem_of_cons; [|by apply Hout]. intros Hin. destruct (Hu _ _ Hin) as [_ Hs]. by apply Hk, Hs.
Qed.

(** C16. As long as its generator does not repeat itself, the authenticator
    never lets in two requests with the same nonce and count, whatever
    requests it is given, at whatever times; and each it lets in answers a
    nonce of its table with the right response. *)
Theorem digest_once (l : list call) (n : nonces) (Hnd : NoDup (issued <$> l)) (Hf : ∀ c, c ∈ l → n !! issued c = None) :
  NoDup (admitted l n) ∧
  ∀ c n0, (authenticate c n0).2.2 = true → ∃ d, claim_of realm user c.2 = Some d ∧ is_Some (n0 !! cNonce d) ∧
    cResponse d = expected md5hex realm user pass (Method c.2) d.
Proof.
  split; [apply (admitted_fresh l n []); [done|done|by intros ?? ?%not_elem_of_nil]|].
  intros c n0 H. destruct (authenticate c n0) as [n' [ch ok]] eqn:E. destruct (authenticate_step _ _ _ _ _ E) as [_ Hok].
  destruct (Hok H) as (d&st0&?&?&?&_). by exists d.
Qed.
End once.

(** ** The throttle *)

Section throttle.
Context {A : Type} (ep : Endpoint) (auth : option (Z → request → A → A * (option string * bool))).

(** The instants at which a sequence of requests is accepted. *)
Fixpoint accepted_at (l : list (Z * request)) (w : A * option Z) : list Z :=
  match l with
  | [] => []
  | (now, r) :: l =>
      let '(w, rep) := handlerFor ep auth now r w in
      match rep with Accepted => now :: accepted_at l w | _ => accepted_at l w end
  end.
Definition apart (x y : Z) : Prop := (x + eThrottle ep ≤ y)%Z.

Lemma handler_throttle now r a last w rep : (0 < eThrottle ep)%Z → handlerFor ep auth now r (a, last) = (w, rep) →
  match rep with
  | Accepted => w.2 = Some now ∧ ∀ t, last = Some t → apart t now
  | Unavailable s => w.2 = last ∧ ∃ t, last = Some t ∧ (now < t + eThrottle ep ≤ now + s * Second)%Z ∧ (1 ≤ s)%Z
  | _ => w.2 = last
  end.
Proof.
  intros Hp. unfold handlerFor. destruct (negb _); [by intros [= <- <-]|]. destruct (negb _); [by intros [= <- <-]|].
  destruct (match auth with Some f => f now r a | None => (a, (None, true)) end) as [a' [ch ok]].
  destruct ok; cbn [negb]; [|by intros [= <- <-]]. destruct (Z.ltb_spec 0 (eThrottle ep)); [|lia].
  destruct last as [t|].
  - destruct (Z.ltb_spec (now - t) (eThrottle ep)) as [Hl|Hl].
    + intros [= <- <-]. cbn. split; [done|]. exists t. split; [done|]. unfold retry_seconds. set (d := (eThrottle ep - (now - t))%Z).
      assert (0 < d)%Z by lia. pose proof (Z.div_mod d Second ltac:(done)) as Hd. pose proof (Z.mod_pos_bound d Second ltac:(done)) as Hm. unfold Second in *.
      destruct (Z.ltb_spec (d / 1000000000) 1); [lia|]. destruct (Z.ltb_spec (d / 1000000000 * 1000000000) d); lia.
    + intros [= <- <-]. cbn. split; [done|]. intros t' [= <-]. unfold apart. lia.
  - intros [= <- <-]. by split.
Qed.

(** C17. Accepted connection requests are at least the throttle apart, whatever
    else arrives in between; a refused one is told a number of seconds after
    which the throttle no longer stands in its way. *)
Theorem throttle_holds (l : list (Z * request)) (a : A) (Hp : (0 < eThrottle ep)%Z) :
  StronglySorted apart (accepted_at l (a, None)) ∧
  ∀ now r a t w s, handlerFor ep auth now r (a, Some t) = (w, Unavailable s) → (now < t + eThrottle ep ≤ now + s * Second)%Z.
Proof.
  split.
  2:{ intros now r a0 t w s H. apply handler_throttle in H; [|done]. destruct H as (_&t'&[= <-]&H&_). done. }
  assert (∀ l a last, StronglySorted apart (accepted_at l (a, last)) ∧ ∀ t, last = Some t → Forall (apart t) (accepted_at l (a, last))) as H.
  { clear l a. induction l as [|[now r] l IH]; intros a last; [split; [constructor|by constructor]|]. cbn [accepted_at].
    destruct (handlerFor ep auth now r (a, last)) as [[a' last'] rep] eqn:E. pose proof (handler_throttle _ _ _ _ _ _ Hp E) as H. cbn in H.
    destruct (IH a' last') as [Hs Hf]. destruct rep; try (rewrite H in *; by split).
    - destruct H as [-> _]. by split.
    - destruct H as [-> Ht]. specialize (Hf now eq_refl). split; [by constructor|]. intros t Et. specialize (Ht t Et). constructor; [done|].
      eapply Forall_impl; [exact Hf|]. unfold apart in *. intros x ?. lia. }
  apply H.
Qed.
End throttle.

(** ** Examples *)

(** A toy digest and a nonce for each call. *)
Definition ex_md5 (s : string) : string := ToLower (hex8 (Z.of_nat (String.length s))).
Definition ex_quote : string → string := quoted.
Definition ex_nonce (i : nat) : string := hex8 (Z.of_nat i + 1).
Lemma ToLower_no_dquote s : Strings.no_byte dquote s = true → Strings.no_byte dquote (ToLower s) = true.
Proof.
  unfold Strings.no_byte. induction s as [|c s IH]; [done|]. cbn. rewrite !andb_true_iff, !negb_true_iff. intros [Hc Hs]. split; [|by apply IH].
  unfold lower_byte. destruct (in_range "A" "Z" c) eqn:Er; [|done]. apply Ascii.eqb_neq. intros E.
  unfold in_range, byte_le in Er. rewrite andb_true_iff, !N.leb_le in Er. change (N_of_ascii "A") with 65%N in Er. change (N_of_ascii "Z") with 90%N in Er.
  apply (f_equal N_of_ascii) in E. rewrite N_ascii_embedding in E by lia. change (N_of_ascii dquote) with 34%N in E. lia.
Qed.
Lemma hex8_ne n : hex8 n ≠ "".
Proof. by destruct (hex8_cons n) as (c&s&->&_). Qed.
Lemma ex_parties : parties ex_md5 ex_quote "cpe" "acs" "/cr" "cn" ex_nonce 300.
Proof.
  split; try done; try (split; done).
  - intros i. split; [apply (hex_digits_graphic 8)|apply hex8_ne].
  - intros s. apply ToLower_no_dquote. apply (hex_digits_graphic 8).
Qed.
Lemma digest_session_witness :
  ∃ n, sends ex_md5 ex_quote "cpe" "acs" "pw" "/cr" "cn" "/cr" "body" ex_nonce 300 1000 3 (∅, O) None =
    ((n, 4%nat), Some (client "cpe" "acs" "pw" "cn" (ex_nonce 0) 3), [Ok "body"; Ok "body"; Ok "body"]).
Proof. exact (digest_session ex_md5 ex_quote "cpe" "acs" "pw" "/cr" "cn" "/cr" "body" ex_nonce 300 1000 ex_parties 2 eq_refl). Defined.

Definition ex_header (nc : Z) (response : string) : string := digest_header "acs" "cpe" (ex_nonce 0) "/cr" "MD5" response "auth" (hex8 nc) "cn" "".
Definition ex_response (nc : Z) : string :=
  ex_md5 (ex_md5 ("acs:cpe:pw") +:+ ":" +:+ ex_nonce 0 +:+ ":" +:+ hex8 nc +:+ ":cn:auth:" +:+ ex_md5 "GET:/cr").
Definition ex_get (header : string) : request := MkRequest "GET" "/cr" header.
Definition ex_calls : list call :=
  [(ex_nonce 0, 1, ex_get ""); (ex_nonce 1, 2, ex_get (ex_header 1 (ex_response 1))); (ex_nonce 2, 3, ex_get (ex_header 1 (ex_response 1)));
   (ex_nonce 3, 4, ex_get (ex_header 2 (ex_response 2)))]%Z.
Lemma ex_admitted : admitted ex_md5 ex_quote "cpe" "acs" "pw" 300 ex_calls ∅ = [(ex_nonce 0, 1); (ex_nonce 0, 2)]%Z.
Proof. vm_compute. reflexivity. Qed.
Lemma ex_nonces_differ : NoDup (issued <$> ex_calls).
Proof. apply (bool_decide_unpack _). vm_compute. exact I. Qed.
Lemma digest_once_witness : NoDup (admitted ex_md5 ex_quote "cpe" "acs" "pw" 300 ex_calls ∅).
Proof. exact (proj1 (digest_once ex_md5 ex_quote "cpe" "acs" "pw" 300 ex_calls ∅ ex_nonces_differ (λ c _, lookup_empty (issued c)))). Defined.

Definition ex_endpoint : Endpoint := MkEndpoint "/cr" (5 * Second).
Definition ex_requests : list (Z * request) := (λ t, (t * Second, ex_get ""))%Z <$> [0; 3; 6; 7; 12]%Z.
Lemma ex_accepts : accepted_at ex_endpoint (None : option (Z → request → unit → unit * (option string * bool))) ex_requests (tt, None) =
  [0; 6 * Second; 12 * Second]%Z.
Proof. vm_compute. reflexivity. Qed.
Lemma throttle_holds_witness : StronglySorted (apart ex_endpoint) [0; 6 * Second; 12 * Second]%Z.
Proof.
  rewrite <-ex_accepts. exact (proj1 (throttle_holds ex_endpoint (None : option (Z → request → unit → unit * (option string * bool))) ex_requests tt eq_refl)).
Defined.

(** Basic credentials are read back whole, whatever the password, when the
    user name has no colon. *)
Lemma basic_interoperates realm quote user pass path method :
  Strings.no_byte ":" user = true → user ≠ "" →
  basicAuthenticate quote realm (user, pass) (MkRequest method path ("Basic " +:+ basicCredentials user pass)) = (None, true).
Proof.
  intros Hu Hne. unfold basicAuthenticate. apply String.eqb_neq in Hne. rewrite Hne. cbn [Authorization].
  change (String.eqb ("Basic " +:+ ?x) "") with false.
  assert (∀ x, Strings.HasPrefix ("Basic " +:+ x) "Basic " = true) as -> by (intros x; by destruct x). cbn [orb negb].
  assert (∀ x, Strings.TrimPrefix ("Basic " +:+ x) "Basic " = x) as -> by (intros x; by destruct x).
  unfold basicCredentials. rewrite Base64_Decode_Encode.
  change (user +:+ ":" +:+ pass) with (user +:+ String ":" pass). rewrite Cut_app by done. by rewrite !String.eqb_refl.
Qed.

(** The count of a request is marked as used before its response is checked: a
    wrong answer takes the count away from the right one. *)
Lemma wrong_answer_burns_count :
  let '(n1, _) := Authenticate ex_md5 ex_quote "cpe" ("acs", "pw") 300 (ex_nonce 0) 1 (ex_get "") ∅ in
  let '(n2, (_, guessed)) := Authenticate ex_md5 ex_quote "cpe" ("acs", "pw") 300 (ex_nonce 1) 2 (ex_get (ex_header 1 "guess")) n1 in
  let '(_, (_, answered)) := Authenticate ex_md5 ex_quote "cpe" ("acs", "pw") 300 (ex_nonce 2) 3 (ex_get (ex_header 1 (ex_response 1))) n2 in
  let '(_, (_, alone)) := Authenticate ex_md5 ex_quote "cpe" ("acs", "pw") 300 (ex_nonce 2) 3 (ex_get (ex_header 1 (ex_response 1))) n1 in
  (guessed, answered, alone) = (false, false, true).
Proof. vm_compute. reflexivity. Qed.
