(* ===== verification/TreeFrame.v ===== *)
(** * What the operations on a tree leave alone.

    [frame X Y t t']: outside the sub-trees at [X] no node appears, disappears
    or changes its nature, and outside [Y] no value changes. The rows and the
    grafts of a module are tracked through its installation by their frames. *)
From Stdlib Require Import ZArith Lia Ascii String.
From S2P Require Import Prelude GoLib CpeErr Types Node Tree TreeProps Objects ObjectsProps Listing Graft.

Abbreviation segments := (list string).

Definition outside (X : list segments) (q : segments) : Prop := ∀ x, x ∈ X → ¬ x `prefix_of` q.
Definition frame (X Y : list segments) (t t' : Tree) : Prop :=
  ∀ q, outside X q → kind_at q (root t') = kind_at q (root t) ∧ ((q ∉ Y) → view t' q = view t q).
(** Nothing at [x] or below. *)
Definition gone (x : segments) (t : Tree) : Prop := ∀ q, x `prefix_of` q → kind_at q (root t) = None.
(** Tables are objects. *)
Definition sound (t : Tree) : Prop := ∀ q tb, kind_at q (root t) ≠ Some (true, Some tb).

Lemma kind_None q n : kind_at q n = None ↔ node_at q n = None.
Proof. unfold kind_at. by destruct (node_at q n). Qed.
Lemma kind_Some q n b tb : kind_at q n = Some (b, tb) ↔ ∃ m, node_at q n = Some m ∧ isLeaf m = b ∧ table m = tb.
Proof.
  unfold kind_at. destruct (node_at q n) as [m|]; cbn; [|by split; [|intros (?&?&_)]].
  split; [intros [= <- <-]; by exists m|]. intros (m'&E&<-&<-). by injection E as <-.
Qed.
Lemma kind_view t q : kind_at q (root t) = None → view t q = None.
Proof. rewrite kind_None. unfold view, leaf_at. by intros ->. Qed.
Lemma view_kind t q v : view t q = Some v → ∃ tb, kind_at q (root t) = Some (true, tb).
Proof.
  intros (m&Hm&Hl)%leaf_at_node. exists (table m). apply kind_Some. exists m. split_and!; [done| |done]. apply isLeaf_true. by exists v.
Qed.
Lemma gone_node x t : gone x t ↔ node_at x (root t) = None.
Proof.
  split; [intros H; apply kind_None, H; done|]. intros H q [r ->]. by rewrite kind_None, node_at_app, H.
Qed.
Lemma gone_view x t q : gone x t → x `prefix_of` q → view t q = None.
Proof. intros H Hp. by apply kind_view, H. Qed.
Lemma node_app_None p r n : node_at p n = None → node_at (p ++ r) n = None.
Proof. intros H. rewrite node_at_app, H. done. Qed.
Lemma node_above p r n : is_Some (node_at (p ++ r) n) → is_Some (node_at p n).
Proof. rewrite node_at_app. by destruct (node_at p n) as [m|]; [eauto|intros [? ?]]. Qed.

Lemma wf_sound t : wf_tree t → sound t.
Proof.
  intros Hw q tb (m&Hm&Hl&Ht)%kind_Some. pose proof (wf_table_not_leaf m tb (wf_node_at _ _ _ Hw Hm) Ht). congruence.
Qed.

(** ** Frames compose *)

Lemma sub_head {A} (x : A) l : [x] ⊆ x :: l.
Proof. intros y ->%list_elem_of_singleton. left. Qed.
Lemma sub_tail {A} (x : A) l : l ⊆ x :: l.
Proof. intros y Hy. by right. Qed.


Lemma outside_nil q : outside [] q.
Proof. by intros x ?%not_elem_of_nil. Qed.
Create HintDb frame.
#[export] Hint Resolve outside_nil : frame.
Lemma outside_cons x X q : outside (x :: X) q ↔ ¬ x `prefix_of` q ∧ outside X q.
Proof.
  unfold outside. split; [intros H; split; [apply H; left|intros y Hy; apply H; by right]|].
  by intros [Hx HX] y [->|Hy]%elem_of_cons; [|apply HX].
Qed.
Lemma outside_sub X X' q : X ⊆ X' → outside X' q → outside X q.
Proof. intros Hs Ho x Hx. by apply Ho, Hs. Qed.

#[export] Instance frame_refl X Y : Reflexive (frame X Y).
Proof. by intros t q _. Qed.
#[export] Instance frame_trans X Y : Transitive (frame X Y).
Proof.
  intros t1 t2 t3 H12 H23 q Hq. destruct (H12 q Hq) as [K1 V1], (H23 q Hq) as [K2 V2].
  split; [congruence|]. intros HY. by rewrite V2, V1.
Qed.
Lemma frame_mono X Y X' Y' t t' : frame X Y t t' → X ⊆ X' → Y ⊆ Y' → frame X' Y' t t'.
Proof.
  intros H HX HY q Hq. destruct (H q (outside_sub _ _ _ HX Hq)) as [K V]. split; [done|]. intros HnY. apply V. intros ?. by apply HnY, HY.
Qed.
Lemma frame_then X Y X1 Y1 X2 Y2 t1 t2 t3 :
  frame X1 Y1 t1 t2 → frame X2 Y2 t2 t3 → X1 ⊆ X → Y1 ⊆ Y → X2 ⊆ X → Y2 ⊆ Y → frame X Y t1 t3.
Proof. intros H1 H2 ????. etrans; eapply frame_mono; done. Qed.
Lemma frame_cons x X Y t1 t2 t3 : frame [x] Y t1 t2 → frame X Y t2 t3 → frame (x :: X) Y t1 t3.
Proof.
  intros H1 H2 q [Hx HX]%outside_cons. assert (outside [x] q) as Hq by (apply outside_cons; auto with frame).
  destruct (H1 q Hq) as [K1 V1], (H2 q HX) as [K2 V2]. split; [congruence|]. intros HY. by rewrite V2, V1.
Qed.
(** A sub-tree that was not there and is not there is no change. *)
Lemma frame_gone x X Y t t' : frame (x :: X) Y t t' → gone x t → gone x t' → frame X Y t t'.
Proof.
  intros H Hg Hg' q Hq. destruct (decide (x `prefix_of` q)) as [Hp|Hp].
  - rewrite (Hg q Hp), (Hg' q Hp). split; [done|]. intros _. by rewrite (gone_view x t q), (gone_view x t' q).
  - apply H, outside_cons. done.
Qed.
Lemma frame_gone_all X X0 Y t t' : frame (X ++ X0) Y t t' → (∀ x, x ∈ X → gone x t ∧ gone x t') → frame X0 Y t t'.
Proof.
  induction X as [|x X IH]; intros H Hg; [done|]. apply IH; [|intros; apply Hg; by right].
  destruct (Hg x ltac:(left)). by eapply frame_gone.
Qed.
Lemma frame_kind X Y t t' q : frame X Y t t' → outside X q → kind_at q (root t') = kind_at q (root t).
Proof. intros H Hq. by apply H. Qed.
Lemma frame_still_gone X Y t t' x : frame X Y t t' → outside X x → gone x t → gone x t'.
Proof. rewrite !gone_node, <-!kind_None. intros H Hx ?. by rewrite (frame_kind _ _ _ _ _ H Hx). Qed.
Lemma frame_sound Y t t' : frame [] Y t t' → sound t → sound t'.
Proof. intros H Hs q tb. rewrite (frame_kind _ _ _ _ q H); [apply Hs|auto with frame]. Qed.

Lemma frame_same_root t t' : root t' = root t → frame [] [] t t'.
Proof. intros E q _. unfold view. by rewrite E. Qed.

(** ** One leaf *)

Lemma kind_at_alter_leaf f p q n m :
  node_at p n = Some m → isLeaf m = true → isLeaf (f m) = true → table (f m) = table m →
  kind_at q (alter_at f p n) = kind_at q n.
Proof.
  intros Hm Hl Hf Ht. unfold kind_at. destruct (decide (p `prefix_of` q)) as [[r ->]|Hp].
  - destruct (decide (r = [])) as [->|Hr].
    + rewrite app_nil_r, (node_at_alter_same _ _ _ m), Hm by done. cbn. by rewrite Hl, Hf, Ht.
    + apply isLeaf_true in Hl as [v Hv], Hf as [w Hw].
      rewrite (leaf_node_stops _ _ n m v Hm Hv Hr). by rewrite (leaf_node_stops _ _ _ (f m) w (node_at_alter_same _ _ _ _ Hm) Hw Hr).
  - destruct (decide (q `prefix_of` p)) as [[r ->]|Hq]; [|by rewrite node_at_alter_disjoint].
    destruct (node_at_alter_above f q r n m Hm) as (c&->&->). cbn. destruct r as [|s r]; [by rewrite app_nil_r in Hp; destruct Hp|]. done.
Qed.

Lemma set_leaf_frame t p m v w : node_at p (root t) = Some m → leaf m = Some v →
  frame [] [p] t (set_root t (alter_at (set_leaf w) p (root t))).
Proof.
  intros Hm Hl q _. split.
  - cbn [root set_root]. eapply kind_at_alter_leaf; [done|apply isLeaf_true; by exists v|done|done].
  - intros Hq. rewrite (view_set_leaf t p m v w Hm Hl). unfold spec_update. rewrite decide_False; [done|]. intros ->. apply Hq. left.
Qed.
Lemma SetSystem_frame t path raw p : parsePath path = Ok p → frame [] [p] t (SetSystem t path raw).1.1.
Proof.
  intros Hp. destruct (SetSystem_inv t path raw) as [[e ->]|(p'&m&old&Hp'&Hm&Hv&_&->)]; [done|].
  assert (p' = p) as -> by congruence. by eapply set_leaf_frame.
Qed.

(** ** Rows *)

(** Replacing the children of an object but for one child. *)
Lemma replace_child_frame t p n ch' k (Hn : node_at p (root t) = Some n) (Hl : isLeaf n = false)
  (Hch : ∀ k', k' ≠ k → ch' !! k' = children n !! k') :
  frame [p ++ [k]] [] t (set_root t (alter_at (λ _, set_children ch' n) p (root t))).
Proof.
  intros q [Hq _]%outside_cons. split.
  - by apply (replace_kind _ _ _ _ Hn Hl k).
  - intros _. by apply (replace_frame _ _ _ _ Hn Hl k).
Qed.
Lemma sync_frame t h segs n tbl r oc :
  Forall (λ s, valid_segment s = true) segs → node_at segs (root t) = Some n →
  syncEntryCount h (root t) segs tbl = (r, oc) → frame [] (option_list (counter_path segs)) t (set_root t r).
Proof.
  intros Hv Hn Hs. destruct (syncEntryCount_cases h (root t) segs n tbl Hv Hn) as [[E _]|(c&m&old&Hc&Hm&Hl&_&E)]; rewrite E in Hs; injection Hs as <- <-.
  - by destruct t.
  - rewrite Hc. by eapply set_leaf_frame.
Qed.

Definition counters (p : segments) : list segments := option_list (counter_path p).

(** A table with room for one more row. *)
Definition width (q : segments) (n : Node) : nat := match node_at q n with Some m => size (children m) | None => 0 end.
Definition roomy (p : segments) (t : Tree) : Prop :=
  ∀ tb, kind_at p (root t) = Some (false, tb) → (Z.of_nat (width p (root t)) + 1 < 2 ^ 63)%Z.

Lemma AddObject_ok t path t' cs i p :
  sound t → parsePath path = Ok p → AddObject t path = (t', cs, Ok i) → roomy p t →
  ∃ tmpl, kind_at p (root t) = Some (false, Some tmpl) ∧ instance_of (Strconv.Itoa i) = Some i ∧ (0 < i)%Z ∧
    gone (p ++ [Strconv.Itoa i]) t ∧ node_at (p ++ [Strconv.Itoa i]) (root t') = Some tmpl ∧
    frame [p ++ [Strconv.Itoa i]] (counters p) t t'.
Proof.
  intros Hsd Hp H Hroom. unfold AddObject in H. rewrite Hp in H.
  destruct (lookup (root t) p) as [n|] eqn:Hn; [|done]. apply lookup_ok in Hn.
  destruct (table n) as [tmpl|] eqn:Ht; [|done].
  assert (isLeaf n = false) as Hl.
  { destruct (isLeaf n) eqn:El; [|done]. exfalso. apply (Hsd p tmpl), kind_Some. by exists n. }
  assert (Z.of_nat (size (children n)) + 1 < 2 ^ 63)%Z as Hsz.
  { unfold roomy, width in Hroom. rewrite Hn in Hroom. apply (Hroom (Some tmpl)), kind_Some. by exists n. }
  destruct (next_instance _ Hsz) as (i'&Hf&Hi&Hno&_). rewrite Hf in H.
  set (ch' := <[Strconv.Itoa i' := clone tmpl]> (children n)) in H.
  destruct (syncEntryCount _ _ _ _) as [r2 oc] eqn:Hs. injection H as <- _ <-. rename i' into i.
  pose proof (parsePath_segments _ _ Hp) as Hv. pose proof (replace_at (root t) n p ch' Hn) as Hat.
  set (t1 := set_root t (alter_at (λ _, set_children ch' n) p (root t))) in *.
  assert (frame [p ++ [Strconv.Itoa i]] [] t t1) as Hf1.
  { apply replace_child_frame; [done..|]. intros k Hk. unfold ch'. by rewrite lookup_insert_ne. }
  assert (frame [] (counters p) t1 (set_root t r2)) as Hf2 by (eapply (sync_frame t1); [done|exact Hat|exact Hs]).
  exists tmpl. split_and!; [apply kind_Some; by exists n|apply instance_of_Itoa; lia|lia| | |].
  - apply gone_node. rewrite (orig_below _ _ _ Hn Hl). by rewrite Hno.
  - cbn. rewrite (sync_table _ _ _ _ _ _ _ _ Hv Hat Hs), (replace_below _ _ _ _ Hn Hl). unfold ch'. by rewrite lookup_insert_eq, clone_id.
  - eapply frame_then; [exact Hf1|exact Hf2|set_solver+..].
Qed.
Lemma AddObject_err t path t' cs e : AddObject t path = (t', cs, Err e) → t' = t ∧ cs = [].
Proof.
  unfold AddObject. destruct (parsePath path) as [p|]; [|by intros [= <- <- _]].
  destruct (lookup _ _) as [n|]; [|by intros [= <- <- _]]. destruct (table n); [|by intros [= <- <- _]].
  destruct (first_free _); [|by intros [= <- <- _]]. by destruct (syncEntryCount _ _ _ _).
Qed.

Lemma DeleteObject_ok t path p k i tmpl :
  parsePath path = Ok (p ++ [k]) → instance_of k = Some i → kind_at p (root t) = Some (false, Some tmpl) →
  is_Some (kind_at (p ++ [k]) (root t)) →
  ∃ t' cs, DeleteObject t path = (t', cs, Ok tt) ∧ frame [p ++ [k]] (counters p) t t' ∧ gone (p ++ [k]) t'.
Proof.
  intros Hp Hi (n&Hn&Hl&Ht)%kind_Some [kd Hk].
  destruct (children n !! k) as [c|] eqn:Hc.
  2:{ unfold kind_at in Hk. rewrite (orig_below _ _ _ Hn Hl), Hc in Hk. done. }
  destruct (DeleteObject_ok_form t path p k i n tmpl c Hp Hi Hn Ht Hc) as (r2&oc&Hs&E). cbn zeta in Hs.
  eexists _, _. split; [exact E|].
  assert (Forall (λ s, valid_segment s = true) p) as Hv by (apply parsePath_segments, Forall_app in Hp as [? _]; done).
  set (ch' := delete k (children n)) in *. pose proof (replace_at (root t) n p ch' Hn) as Hat.
  set (t1 := set_root t (alter_at (λ _, set_children ch' n) p (root t))) in *.
  split.
  - assert (frame [p ++ [k]] [] t t1) as Hf1.
    { apply replace_child_frame; [done..|]. intros k' Hk'. unfold ch'. by rewrite lookup_delete_ne. }
    eapply frame_then; [exact Hf1|eapply (sync_frame t1); [done|exact Hat|exact Hs]|set_solver..].
  - apply gone_node. cbn. rewrite (sync_table _ _ _ _ _ _ _ _ Hv Hat Hs), (replace_below _ _ _ _ Hn Hl). unfold ch'. by rewrite lookup_delete_eq.
Qed.

(** ** Grafts *)

(** [p ++ [k]] hangs where [Unmount] can reach it. *)
Definition detachable (t : Tree) (x : segments) : Prop :=
  ∃ p k tb, x = p ++ [k] ∧ kind_at p (root t) = Some (false, tb) ∧ is_Some (kind_at x (root t)) ∧ (is_Some tb → instance_of k = None).

Lemma Unmount_ok t path x : parsePath path = Ok x → detachable t x →
  ∃ t' cs, Unmount t path = (t', cs, Ok tt) ∧ frame [x] [] t t' ∧ gone x t'.
Proof.
  intros Hp (p&k&tb&->&(n&Hn&Hl&Ht)%kind_Some&[kd Hk]&Hi).
  destruct (children n !! k) as [c|] eqn:Hc.
  2:{ unfold kind_at in Hk. rewrite (orig_below _ _ _ Hn Hl), Hc in Hk. done. }
  set (t1 := set_root t (alter_at (λ _, set_children (delete k (children n)) n) p (root t))).
  assert (∃ cs, Unmount t path = (t1, cs, Ok tt)) as [cs E].
  { unfold Unmount. rewrite Hp. destruct (p ++ [k]) as [|s rest] eqn:Es; [by destruct p|].
    rewrite (split_last_snoc p k s rest) by done. rewrite (proj2 (lookup_ok _ _ _) Hn), Hl, Hc.
    assert ((match table n with Some _ => match instance_of k with Some _ => true | None => false end | None => false end) = false) as ->.
    { destruct (table n) as [tbl|] eqn:Etb; [|done]. rewrite Hi; [done|]. rewrite <-Ht. by eexists. }
    eexists. do 2 f_equal. unfold t1. f_equal. by eapply alter_at_ext. }
  exists t1, cs. split; [exact E|]. split.
  - apply replace_child_frame; [done..|]. intros k' Hk'. by rewrite lookup_delete_ne.
  - apply gone_node. cbn. rewrite (replace_below _ _ _ _ Hn Hl). by rewrite lookup_delete_eq.
Qed.

(** No path of the list is above another. *)
Definition apart (X : list segments) : Prop := ∀ x y, x ∈ X → y ∈ X → x ≠ y → ¬ x `prefix_of` y.

Lemma detachable_frame X Y t t' x : frame X Y t t' → outside X x → detachable t x → detachable t' x.
Proof.
  intros H Hx (p&k&tb&->&Hp&Hk&Hi). exists p, k, tb. split; [done|]. split.
  { rewrite (frame_kind _ _ _ _ _ H); [done|]. intros y Hy Hpre. apply (Hx y Hy). etrans; [done|]. by exists [k]. }
  split; [|done]. by rewrite (frame_kind _ _ _ _ _ H Hx).
Qed.

Lemma unmount_all_ok paths X t : Forall2 (λ path x, parsePath path = Ok x) paths X → NoDup X → apart X → Forall (detachable t) X →
  let t' := foldl (λ t path, (Unmount t path).1.1) t paths in frame X [] t t' ∧ ∀ x, x ∈ X → gone x t'.
Proof.
  intros HF. revert t. induction HF as [|path x paths X Hp HF IH]; intros t HN Ha HD.
  { split; [done|]. by intros x ?%not_elem_of_nil. }
  apply NoDup_cons in HN as [Hx HN]. apply Forall_cons in HD as [Hd HD]. cbn [foldl].
  destruct (Unmount_ok t path x Hp Hd) as (t1&cs&E&Hf&Hg). rewrite E. cbn [fst].
  assert (∀ y, y ∈ X → outside [x] y) as Ho.
  { intros y Hy. apply outside_cons. split; [|apply outside_nil]. apply Ha; [left|by right|]. by intros ->. }
  destruct (IH t1 HN) as [Hf' Hg'].
  - intros y z Hy Hz. apply Ha; by right.
  - rewrite Forall_forall in HD |- *. intros y Hy. eapply detachable_frame; [exact Hf|by apply Ho|by apply HD].
  - split; [by apply (frame_cons _ _ _ _ t1)|].
    intros y [->|Hy]%elem_of_cons; [|by apply Hg'].
    eapply frame_still_gone; [exact Hf'| |exact Hg]. intros z Hz. apply Ha; [by right|left|]. by intros ->.
Qed.

(** [t'] is [t] with [o] grafted at the roots [X]. *)
Record grafted (t o t' : Tree) (X : list segments) : Prop := {
  gr_frame : frame X [] t t';
  gr_fresh : ∀ x, x ∈ X → gone x t;
  gr_inside : ∀ x q, x ∈ X → x `prefix_of` q → node_at q (root t') = node_at q (root o);
  gr_some : ∀ x, x ∈ X → is_Some (node_at x (root o));
  gr_nodup : NoDup X;
  gr_apart : apart X;
  gr_detach : no_instances t o → ∀ x, x ∈ X → detachable t' x
}.

Lemma attach_all_kind pts n q :
  NoDup pts → (∀ g h, g ∈ pts → h ∈ pts → g ≠ h → incomparable g h) → (∀ g, g ∈ pts → free_at n g) →
  (∀ g, g ∈ pts → ¬ gpPath g `prefix_of` q) → kind_at q (foldl attach_point n pts) = kind_at q n.
Proof.
  intros HN. revert n. induction HN as [|g pts Hg HN IH]; intros n Hinc Hf Hq; [done|]. cbn [foldl].
  rewrite IH; [apply attach_kind; [apply Hf; left|apply Hq; left]|..].
  - intros; apply Hinc; [by right..|done].
  - intros h Hh. apply free_step; [apply Hf; left|apply Hf; by right|]. apply Hinc; [left|by right|]. by intros ->.
  - intros; apply Hq; by right.
Qed.

Lemma gpPath_inj_on pts : (∀ g h, g ∈ pts → h ∈ pts → g ≠ h → incomparable g h) → NoDup pts → NoDup (gpPath <$> pts).
Proof.
  intros Hinc. induction pts as [|g pts IH]; intros HN; [constructor|]. apply NoDup_cons in HN as [Hg HN]. cbn [fmap list_fmap].
  apply NoDup_cons. split; [|apply IH; [intros; apply Hinc; [by right..|done]|done]].
  intros (h&E&Hh)%list_elem_of_fmap. destruct (Hinc g h ltac:(left) ltac:(by right)) as [H1 _]; [by intros ->|]. rewrite E in H1. by destruct H1.
Qed.

Lemma Graft_ok t o t' cs rs : isLeaf (root t) = false → isLeaf (root o) = false → wf_tree o →
  Graft t (Some o) = (t', cs, Ok rs) → ∃ X, grafted t o t' X ∧ Forall2 (λ path x, parsePath path = Ok x) rs X.
Proof.
  intros Ht Ho Hwo H. destruct (Graft_cases t o Ht Ho) as [[_ (e&E&_)]|(pts&Hgood&E)]; rewrite E in H; [done|].
  injection H as <- _ <-. pose proof (good_points_free _ _ _ Hgood) as [Hfree Hinc]. pose proof Hgood as (Hpts&HN&_).
  assert (∀ g, g ∈ pts → free_at (root t) g) as Hf by (intros; by apply Hfree).
  destruct (attach_all pts (root t) HN Hinc Hf) as [Hin Hout].
  exists (gpPath <$> pts). split; [constructor|].
  - intros q Hq. assert (∀ g, g ∈ pts → ¬ gpPath g `prefix_of` q) as Hq' by (intros g Hg; by apply Hq, list_elem_of_fmap_2).
    cbn. split; [by apply attach_all_kind|]. intros _. by apply Hout.
  - intros x (g&->&Hg)%list_elem_of_fmap. apply gone_node. by apply Hf.
  - intros x q (g&->&Hg)%list_elem_of_fmap [r ->]. cbn. rewrite Hin by done. destruct (Hfree g Hg) as [_ Hs].
    by rewrite node_at_app, Hs.
  - intros x (g&->&Hg)%list_elem_of_fmap. destruct (Hfree g Hg) as [_ ->]. by eexists.
  - by apply gpPath_inj_on.
  - intros x y (g&->&Hg)%list_elem_of_fmap (h&->&Hh)%list_elem_of_fmap Hne. apply (Hinc g h Hg Hh). by intros ->.
  - intros Hni x (g&->&Hg)%list_elem_of_fmap.
    destruct (attached_unmountable t o pts g Hgood Hni Hg) as (Hn&tb&Hk&Hi).
    exists (gpParent g), (gpName g), tb. split_and!; [done|exact Hk| |exact Hi]. unfold kind_at. cbn [root set_root]. rewrite Hn. by eexists.
  - apply Forall2_fmap_l, Forall2_fmap_r, Forall_Forall2_diag, Forall_forall. intros g Hg. apply graft_root_parses.
    destruct (Hfree g Hg) as [_ Hs]. exact (wf_node_at_segments _ _ _ Hwo Hs).
Qed.
Lemma Graft_err t o t' cs e : Graft t o = (t', cs, Err e) → t' = t ∧ cs = [].
Proof. unfold Graft. destruct o as [o|]; [|by intros [= <- <- _]]. by destruct (collect _ _ _); [|intros [= <- <- _]]. Qed.

Lemma grafted_sound t o t' X : grafted t o t' X → sound t → sound o → sound t'.
Proof.
  intros H Hst Hso q tb Hk. destruct (decide (Exists (λ x, x `prefix_of` q) X)) as [Hex|Hn].
  - apply Exists_exists in Hex as (x&Hx&Hp). apply (Hso q tb). unfold kind_at in *. by rewrite <-(gr_inside _ _ _ _ H x q Hx Hp).
  - apply (Hst q tb). rewrite <-(frame_kind _ _ _ _ q (gr_frame _ _ _ _ H)); [done|]. intros x Hx Hp. apply Hn, Exists_exists. by exists x.
Qed.
(** Every node of the result comes from one of the two trees. *)
Lemma grafted_from t o t' X q : grafted t o t' X → is_Some (node_at q (root t')) → is_Some (node_at q (root t)) ∨ is_Some (node_at q (root o)).
Proof.
  intros H Hq. destruct (decide (Exists (λ x, x `prefix_of` q) X)) as [Hex|Hn].
  - apply Exists_exists in Hex as (x&Hx&Hp). right. by rewrite <-(gr_inside _ _ _ _ H x q Hx Hp).
  - left. assert (kind_at q (root t') = kind_at q (root t)) as E.
    { apply (frame_kind _ _ _ _ q (gr_frame _ _ _ _ H)). intros x Hx Hp. apply Hn, Exists_exists. by exists x. }
    unfold kind_at in E. destruct Hq as [m Hm]. rewrite Hm in E. destruct (node_at q (root t)); [by eexists|done].
Qed.

(** ** The rows of a table *)

Lemma child_node q k n m : node_at q n = Some m → isLeaf m = false → node_at (q ++ [k]) n = children m !! k.
Proof. intros Hm Hl. rewrite node_at_app, Hm. cbn. rewrite Hl. by destruct (children m !! k). Qed.

(** A table has no more rows than the two it draws from. *)
Lemma width_union q n' n1 n2 :
  (∃ m, node_at q n' = Some m ∧ isLeaf m = false) →
  (∀ k, is_Some (node_at (q ++ [k]) n') → is_Some (node_at (q ++ [k]) n1) ∨ is_Some (node_at (q ++ [k]) n2)) →
  (width q n' ≤ width q n1 + width q n2)%nat.
Proof.
  intros (m'&Hm'&Hl') H. unfold width. rewrite Hm'.
  set (ch n := match node_at q n with Some m => children m | None => ∅ end).
  assert (∀ n, match node_at q n with Some m => size (children m) | None => 0 end = size (dom (ch n))) as Hsz.
  { intros n. unfold ch. rewrite size_dom. by destruct (node_at q n). }
  rewrite !Hsz. rewrite <-size_dom.
  assert (size (dom (ch n1) ∪ dom (ch n2)) ≤ size (dom (ch n1)) + size (dom (ch n2)))%nat as Hu.
  { rewrite size_union_alt. pose proof (subseteq_size (dom (ch n2) ∖ dom (ch n1)) (dom (ch n2)) (subseteq_difference_l _ _ _ (reflexivity _))). lia. }
  etrans; [|exact Hu].
  apply subseteq_size. intros k Hk. apply elem_of_dom in Hk. rewrite <-(child_node q k n' m') in Hk by done.
  assert (∀ n, is_Some (node_at (q ++ [k]) n) → k ∈ dom (ch n)) as Hin.
  { intros n [c Hc]. apply elem_of_dom. unfold ch. rewrite node_at_app in Hc. destruct (node_at q n) as [m|]; [|done]. cbn in Hc.
    destruct (isLeaf m); [done|]. destruct (children m !! k); [by eexists|done]. }
  apply elem_of_union. destruct (H k Hk); [left|right]; by apply Hin.
Qed.
Lemma width_mono q n' n1 :
  (∃ m, node_at q n' = Some m ∧ isLeaf m = false) →
  (∀ k, is_Some (node_at (q ++ [k]) n') → is_Some (node_at (q ++ [k]) n1)) → (width q n' ≤ width q n1)%nat.
Proof.
  intros Hm H. pose proof (width_union q n' n1 NewBranch Hm) as Hu.
  assert (width q NewBranch = 0%nat) as E0 by (unfold width; destruct q; done). rewrite E0, Nat.add_0_r in Hu. apply Hu. intros k Hk. left. by apply H.
Qed.

(** ** Rows and the table above them *)

Lemma row_outside (T : segments) k : outside [T ++ [k]] T.
Proof.
  apply outside_cons. split; [|apply outside_nil]. intros [r E]. rewrite <-(assoc_L (++)) in E.
  apply (f_equal length) in E. rewrite !length_app in E. cbn in E. lia.
Qed.
(** The rows of one table are not under a row of another. *)
Lemma other_row (R : segments) a b k k' r : a ≠ b → ¬ ((R ++ [a]) ++ [k]) `prefix_of` ((R ++ [b]) ++ k' :: r).
Proof.
  intros Hab [r' E]. rewrite <-!(assoc_L (++)) in E. apply app_inv_head in E. injection E as E _. done.
Qed.
Lemma other_table (R : segments) a b k : a ≠ b → outside [(R ++ [a]) ++ [k]] (R ++ [b]).
Proof.
  intros Hab. apply outside_cons. split; [|apply outside_nil]. intros [r' E]. rewrite <-!(assoc_L (++)) in E. apply app_inv_head in E. by injection E.
Qed.
