(* ===== verification/Sha.v ===== *)
(** * SHA-1, SHA-256 and HMAC ([crypto/sha1], [crypto/sha256], [crypto/hmac]),
    and the name-based UUIDs [AppUUID] of [internal/softwaremodules/manager.go]
    derives with the first. [DerivePassword] of [internal/usp/mtp/mqtt] uses the
    others.

    A byte is a [Z] from 0 to 255, a word one below [2 ^ 32]. *)
From Stdlib Require Import ZArith Lia Ascii String.
From S2P Require Import Prelude GoLib GoAuth.

(** ** FIPS 180-4 *)

Definition w32 (z : Z) : Z := z mod 2 ^ 32.
Definition rotl (n x : Z) : Z := Z.lor (w32 (Z.shiftl x n)) (Z.shiftr x (32 - n)).
(** A word, most significant byte first, and back. *)
Definition word_bytes (x : Z) : list Z := (λ s, Z.shiftr x s mod 256)%Z <$> [24; 16; 8; 0]%Z.
Fixpoint words (l : list Z) : list Z :=
  match l with
  | a :: b :: c :: d :: rest => (a * 2 ^ 24 + b * 2 ^ 16 + c * 2 ^ 8 + d)%Z :: words rest
  | _ => []
  end.

(** The message, a one bit, zeros, and its length in bits. *)
Definition pad_message (m : list Z) : list Z :=
  let bits := (8 * Z.of_nat (length m))%Z in
  let zeros := ((55 - Z.of_nat (length m)) mod 64)%Z in
  m ++ [128%Z] ++ replicate (Z.to_nat zeros) 0%Z ++ word_bytes (bits / 2 ^ 32)%Z ++ word_bytes bits.

(** The schedule, its latest word first. *)
Fixpoint extend (n : nat) (rev_w : list Z) : list Z :=
  match n with
  | O => rev_w
  | S n =>
      let at_ i := nth i rev_w 0%Z in
      extend n (rotl 1 (Z.lxor (Z.lxor (at_ 2%nat) (at_ 7%nat)) (Z.lxor (at_ 13%nat) (at_ 15%nat))) :: rev_w)
  end.
Definition schedule (block : list Z) : list Z := rev (extend 64 (rev block)).

Definition round_f (t : nat) (b c d : Z) : Z :=
  if (t <? 20)%nat then Z.lor (Z.land b c) (Z.land (Z.lxor b (2 ^ 32 - 1)) d)
  else if (t <? 40)%nat then Z.lxor b (Z.lxor c d)
  else if (t <? 60)%nat then Z.lor (Z.land b c) (Z.lor (Z.land b d) (Z.land c d))
  else Z.lxor b (Z.lxor c d).
Definition round_k (t : nat) : Z :=
  if (t <? 20)%nat then 1518500249%Z else if (t <? 40)%nat then 1859775393%Z
  else if (t <? 60)%nat then 2400959708%Z else 3395469782%Z.

Record digest := MkDigest { hA : Z; hB : Z; hC : Z; hD : Z; hE : Z }.
Fixpoint rounds (t : nat) (ws : list Z) (h : digest) : digest :=
  match ws with
  | [] => h
  | w :: ws =>
      let 'MkDigest a b c d e := h in
      rounds (S t) ws (MkDigest (w32 (rotl 5 a + round_f t b c d + e + round_k t + w)%Z) a (rotl 30 b) c d)
  end.
Definition block_step (h : digest) (block : list Z) : digest :=
  let r := rounds 0 (schedule block) h in
  MkDigest (w32 (hA h + hA r)) (w32 (hB h + hB r)) (w32 (hC h + hC r)) (w32 (hD h + hD r)) (w32 (hE h + hE r)).
Fixpoint blocks (fuel : nat) (ws : list Z) (h : digest) : digest :=
  match fuel with
  | O => h
  | S fuel => match ws with [] => h | _ => blocks fuel (drop 16 ws) (block_step h (take 16 ws)) end
  end.
(** A block takes sixteen words, so as many rounds as words are enough. *)
Definition sha1 (m : list Z) : list Z :=
  let ws := words (pad_message m) in
  let h := blocks (length ws) ws (MkDigest 1732584193 4023233417 2562383102 271733878 3285377520) in
  word_bytes (hA h) ++ word_bytes (hB h) ++ word_bytes (hC h) ++ word_bytes (hD h) ++ word_bytes (hE h).

(** [fmt.Sprintf("%x", b)] *)
Fixpoint hex_bytes (l : list Z) : string :=
  match l with [] => "" | x :: l => hex_digits 2 x +:+ hex_bytes l end.
(** [[]byte(s)] *)
Fixpoint bytes (s : string) : list Z := match s with "" => [] | String c s => byte_z c :: bytes s end.

Example sha1_abc : hex_bytes (sha1 (bytes "abc")) = "a9993e364706816aba3e25717850c26c9cd0d89d".
Proof. vm_compute. reflexivity. Qed.
Example sha1_two_blocks :
  hex_bytes (sha1 (bytes "abcdbcdecdefdefgefghfghighijhijkijkljklmklmnlmnomnopnopq"))
  = "84983e441c3bd26ebaae4aa1f95129e5e54670f1".
Proof. vm_compute. reflexivity. Qed.

(** ** SHA-256 and HMAC *)

Definition rotr (n x : Z) : Z := rotl (32 - n) x.
Definition constants256 : list Z :=
  [1116352408; 1899447441; 3049323471; 3921009573; 961987163; 1508970993; 2453635748; 2870763221;
   3624381080; 310598401; 607225278; 1426881987; 1925078388; 2162078206; 2614888103; 3248222580;
   3835390401; 4022224774; 264347078; 604807628; 770255983; 1249150122; 1555081692; 1996064986;
   2554220882; 2821834349; 2952996808; 3210313671; 3336571891; 3584528711; 113926993; 338241895;
   666307205; 773529912; 1294757372; 1396182291; 1695183700; 1986661051; 2177026350; 2456956037;
   2730485921; 2820302411; 3259730800; 3345764771; 3516065817; 3600352804; 4094571909; 275423344;
   430227734; 506948616; 659060556; 883997877; 958139571; 1322822218; 1537002063; 1747873779;
   1955562222; 2024104815; 2227730452; 2361852424; 2428436474; 2756734187; 3204031479; 3329325298]%Z.
Definition initial256 : list Z :=
  [1779033703; 3144134277; 1013904242; 2773480762; 1359893119; 2600822924; 528734635; 1541459225]%Z.

(** The schedule, its latest word first. *)
Fixpoint extend256 (n : nat) (rev_w : list Z) : list Z :=
  match n with
  | O => rev_w
  | S n =>
      let at_ i := nth i rev_w 0%Z in
      let s0 := Z.lxor (Z.lxor (rotr 7 (at_ 14%nat)) (rotr 18 (at_ 14%nat))) (Z.shiftr (at_ 14%nat) 3) in
      let s1 := Z.lxor (Z.lxor (rotr 17 (at_ 1%nat)) (rotr 19 (at_ 1%nat))) (Z.shiftr (at_ 1%nat) 10) in
      extend256 n (w32 (at_ 15%nat + s0 + at_ 6%nat + s1) :: rev_w)
  end.
Definition schedule256 (block : list Z) : list Z := rev (extend256 48 (rev block)).

Fixpoint rounds256 (kws : list (Z * Z)) (h : list Z) : list Z :=
  match kws, h with
  | (k, w) :: kws, [a; b; c; d; e; f; g; h] =>
      let s1 := Z.lxor (Z.lxor (rotr 6 e) (rotr 11 e)) (rotr 25 e) in
      let ch := Z.lxor (Z.land e f) (Z.land (Z.lxor e (2 ^ 32 - 1)) g) in
      let t1 := (h + s1 + ch + k + w)%Z in
      let s0 := Z.lxor (Z.lxor (rotr 2 a) (rotr 13 a)) (rotr 22 a) in
      let maj := Z.lxor (Z.lxor (Z.land a b) (Z.land a c)) (Z.land b c) in
      rounds256 kws [w32 (t1 + s0 + maj); a; b; c; w32 (d + t1); e; f; g]
  | _, _ => h
  end.
Definition block_step256 (h block : list Z) : list Z := zip_with (λ x y, w32 (x + y)) h (rounds256 (zip constants256 (schedule256 block)) h).
Fixpoint blocks256 (fuel : nat) (ws h : list Z) : list Z :=
  match fuel with
  | O => h
  | S fuel => match ws with [] => h | _ => blocks256 fuel (drop 16 ws) (block_step256 h (take 16 ws)) end
  end.
(** A block takes sixteen of the words. *)
Definition sha256 (m : list Z) : list Z :=
  let ws := words (pad_message m) in flat_map word_bytes (blocks256 (length ws) ws initial256).

(** Keys of more than a block are hashed first. *)
Definition hmac_sha256 (key message : list Z) : list Z :=
  let key := if (64 <? length key)%nat then sha256 key else key in
  let key := key ++ replicate (64 - length key) 0%Z in
  sha256 ((Z.lxor 92 <$> key) ++ sha256 ((Z.lxor 54 <$> key) ++ message)).

Definition of_bytes (l : list Z) : string := string_of_list_ascii (z_byte <$> l).

Example sha256_abc : hex_bytes (sha256 (bytes "abc")) = "ba7816bf8f01cfea414140de5dae2223b00361a396177a9cb410ff61f20015ad".
Proof. vm_compute. reflexivity. Qed.
Example sha256_two_blocks :
  hex_bytes (sha256 (replicate 70 97%Z)) = "6bd5e5034855a11241f0dee8fc72850ffd9955b28347a86428b5fa19119f6ad0".
Proof. vm_compute. reflexivity. Qed.

Definition byte_ok (z : Z) : Prop := (0 ≤ z < 256)%Z.

Lemma word_bytes_ok x : length (word_bytes x) = 4%nat ∧ Forall byte_ok (word_bytes x).
Proof. split; [done|]. unfold word_bytes. repeat constructor; apply Z.mod_pos_bound; lia. Qed.

Lemma sha1_ok m : length (sha1 m) = 20%nat ∧ Forall byte_ok (sha1 m).
Proof.
  unfold sha1. cbv zeta. set (h := blocks _ _ _). clearbody h. split; [reflexivity|].
  rewrite !Forall_app. repeat split; apply word_bytes_ok.
Qed.

(** ** UUIDs *)

Definition is_hex (c : ascii) : bool := is_digit c || in_range "a" "f" c || in_range "A" "F" c.
(** [uuidPattern.MatchString] *)
Definition uuid_matches (s : string) : bool :=
  match Strings.Split s "-" with
  | [a; b; c; d; e] =>
      bool_decide (String.length <$> [a; b; c; d; e] = [8; 4; 4; 4; 12]) && forallb (str_forall is_hex) [a; b; c; d; e]
  | _ => false
  end.

(** The bytes of a digest under version 5 and the RFC 4122 variant. *)
Definition stamp_version (i : nat) (x : Z) : Z :=
  if (i =? 6)%nat then Z.lor (Z.land x 15) 80
  else if (i =? 8)%nat then Z.lor (Z.land x 63) 128 else x.
Definition format_uuid (sum : list Z) : string :=
  let part a n := hex_bytes (take n (drop a sum)) in
  part 0 4 +:+ "-" +:+ part 4 2 +:+ "-" +:+ part 6 2 +:+ "-" +:+ part 8 2 +:+ "-" +:+ part 10 6.

Definition appNamespace : list Z :=
  [107; 167; 184; 17; 157; 173; 17; 209; 128; 180; 0; 192; 79; 212; 48; 200]%Z.
Definition AppUUID (vendor name : string) : string :=
  let sum := sha1 (appNamespace ++ bytes ("urn:cpe-labs:app:" +:+ vendor +:+ "/" +:+ name)) in
  format_uuid (imap stamp_version sum).

Example AppUUID_1 : AppUUID "Acme" "hub" = "c28e709e-76d4-5532-834e-9c5a214bcdbd".
Proof. vm_compute. reflexivity. Qed.

Lemma hex_digits_hex k n : str_forall is_hex (hex_digits k n) = true ∧ String.length (hex_digits k n) = k.
Proof.
  revert n. induction k as [|k IH]; intros n; [done|]. cbn [hex_digits]. rewrite str_forall_app, str_length_app.
  destruct (IH (n / 16)%Z) as [-> ->]. cbn. rewrite andb_true_r, Nat.add_comm. split; [|done].
  pose proof (Z.mod_pos_bound n 16 ltac:(lia)) as Hm.
  assert (forallb (λ n, is_hex (hex_digit n)) (seqZ 0 16) = true) as Hall by (vm_compute; reflexivity).
  rewrite forallb_forall in Hall. apply Hall. apply list_elem_of_In, elem_of_seqZ. lia.
Qed.
Lemma hex_bytes_hex l : str_forall is_hex (hex_bytes l) = true ∧ String.length (hex_bytes l) = 2 * length l.
Proof.
  induction l as [|x l [IH1 IH2]]; [done|]. cbn [hex_bytes length]. rewrite str_forall_app, str_length_app, IH1, IH2.
  destruct (hex_digits_hex 2 x) as [-> ->]. split; [done|lia].
Qed.
Lemma hex_no_dash s : str_forall is_hex s = true → Strings.no_byte "-" s = true.
Proof.
  unfold Strings.no_byte. induction s as [|c s IH]; [done|]. cbn. rewrite !andb_true_iff. intros [Hc Hs]. split; [|by apply IH].
  apply negb_true_iff, Ascii.eqb_neq. intros ->. done.
Qed.

(** The first digit of a byte, after the stamp. *)
Lemma version_digit x : byte_ok x → hex_digit (Z.lor (Z.land x 15) 80 / 16 mod 16) = "5"%char.
Proof.
  intros Hx. assert (forallb (λ x, Ascii.eqb (hex_digit (Z.lor (Z.land x 15) 80 / 16 mod 16)) "5") (seqZ 0 256) = true) as H by (vm_compute; reflexivity).
  rewrite forallb_forall in H. apply Ascii.eqb_eq, H, list_elem_of_In, elem_of_seqZ. unfold byte_ok in Hx. lia.
Qed.
Lemma variant_digit x : byte_ok x → hex_digit (Z.lor (Z.land x 63) 128 / 16 mod 16) ∈ ["8"; "9"; "a"; "b"]%char.
Proof.
  intros Hx.
  assert (forallb (λ x, bool_decide (hex_digit (Z.lor (Z.land x 63) 128 / 16 mod 16) ∈ ["8"; "9"; "a"; "b"]%char)) (seqZ 0 256) = true) as H
    by (vm_compute; reflexivity).
  rewrite forallb_forall in H. eapply bool_decide_eq_true, H, list_elem_of_In, elem_of_seqZ. unfold byte_ok in Hx. lia.
Qed.

Lemma format_uuid_matches sum : length sum = 20%nat → uuid_matches (format_uuid sum) = true.
Proof.
  intros Hl. unfold format_uuid. cbv zeta.
  set (l := (λ p : nat * nat, hex_bytes (take p.2 (drop p.1 sum))) <$> [(0, 4); (4, 2); (6, 2); (8, 2); (10, 6)]).
  match goal with |- uuid_matches ?u = true => change u with (Strings.Join l "-") end.
  assert (Forall (λ s, str_forall is_hex s = true) l) as Hh by (subst l; repeat constructor; apply hex_bytes_hex).
  unfold uuid_matches. rewrite Strings.Split_Join; [|done|].
  2:{ eapply Forall_impl; [exact Hh|]. intros s. apply hex_no_dash. }
  rewrite Forall_forall in Hh. unfold l at 1. cbn [fmap list_fmap fst snd]. apply andb_true_iff. split.
  - apply bool_decide_eq_true. cbn [fmap list_fmap]. rewrite !(proj2 (hex_bytes_hex _)), !length_take, !length_drop, Hl. done.
  - apply forallb_forall. intros s Hs. apply Hh, list_elem_of_In, Hs.
Qed.

Lemma AppUUID_matches vendor name : uuid_matches (AppUUID vendor name) = true.
Proof. unfold AppUUID. cbv zeta. apply format_uuid_matches. rewrite length_imap. apply sha1_ok. Qed.

(** The UUID the device derives for a module is one its own argument check
    accepts, so a deployment unit installed without a UUID can be updated and
    uninstalled; it carries version 5 and the RFC 4122 variant. *)
Theorem AppUUID_valid (vendor name : string) :
  uuid_matches (AppUUID vendor name) = true ∧
  String.get 14 (AppUUID vendor name) = Some "5"%char ∧
  ∃ c, String.get 19 (AppUUID vendor name) = Some c ∧ c ∈ ["8"; "9"; "a"; "b"]%char.
Proof.
  split; [apply AppUUID_matches|].
  unfold AppUUID. cbv zeta. destruct (sha1_ok (appNamespace ++ bytes ("urn:cpe-labs:app:" +:+ vendor +:+ "/" +:+ name))) as [Hl Hb].
  set (sum := sha1 _) in *. clearbody sum.
  do 20 (destruct sum as [|? sum]; [done|]). destruct sum; [|done].
  rewrite Forall_forall in Hb. split.
  - cbn. f_equal. apply version_digit, Hb. repeat (first [left|right]; try done).
  - eexists. split; [cbn; reflexivity|]. apply variant_digit, Hb. do 8 right. left.
Qed.
