(* ===== verification/SoftwareModules.v ===== *)
(** * Deployment units ([internal/softwaremodules]: [manager.go],
    [faults.go]).

    A manager installs, updates and uninstalls modules on one CPE: it adds and
    removes rows of two tables of the parameter tree, grafts a module's data
    model and registers its generators. What the manager cannot decide is in a
    [World]: the manifest behind a URL, whether a delay is cut short, the
    clock, and what the rest of the CPE does to the tree while a fetch or a
    delay lasts. *)
From Stdlib Require Import ZArith Lia Ascii String.
From S2P Require Import Prelude GoLib GoText GoAuth CpeErr Types Node Tree Objects Listing Graft Generators Sha.

(** ** faults.go *)

Abbreviation Reason := string (only parsing).
Definition ReasonRequestDenied : Reason := "request-denied".
Definition ReasonInvalidArguments : Reason := "invalid-arguments".
Definition ReasonUnreachable : Reason := "server-unreachable".
Definition ReasonUnavailable : Reason := "file-unavailable".
Definition ReasonCorrupt : Reason := "corrupt".
Definition ReasonUnknownExecEnv : Reason := "unknown-ee".
Definition ReasonDisabledExecEnv : Reason := "disabled-ee".
Definition ReasonMismatch : Reason := "ee-mismatch".
Definition ReasonDuplicate : Reason := "duplicate".
Definition ReasonResources : Reason := "resources-exceeded".
Definition ReasonUnknownDU : Reason := "unknown-du".
Definition ReasonInvalidState : Reason := "invalid-state".
Definition ReasonVersionExists : Reason := "version-exists".

(** The CWMP code, the USP code and the text of a reason. *)
Definition codes : list (string * (Z * Z * string)) :=
  [(ReasonRequestDenied, (9001%Z, 7002%Z, "Request denied"));
   (ReasonInvalidArguments, (9003%Z, 7004%Z, "Invalid arguments"));
   (ReasonUnreachable, (9015%Z, 7033%Z, "File transfer failure: unable to contact file server"));
   (ReasonUnavailable, (9016%Z, 7033%Z, "File transfer failure: unable to access file"));
   (ReasonCorrupt, (9018%Z, 7035%Z, "File corrupted or otherwise unusable"));
   (ReasonUnknownExecEnv, (9023%Z, 7223%Z, "Unknown Execution Environment"));
   (ReasonDisabledExecEnv, (9024%Z, 7002%Z, "Disabled Execution Environment"));
   (ReasonMismatch, (9025%Z, 7225%Z, "Deployment Unit to Execution Environment Mismatch"));
   (ReasonDuplicate, (9026%Z, 7226%Z, "Duplicate Deployment Unit"));
   (ReasonResources, (9027%Z, 7227%Z, "System Resources Exceeded"));
   (ReasonUnknownDU, (9028%Z, 7002%Z, "Unknown Deployment Unit"));
   (ReasonInvalidState, (9029%Z, 7229%Z, "Invalid Deployment Unit State"));
   (ReasonVersionExists, (9032%Z, 7226%Z, "Invalid Deployment Unit Update: Version Already Exists"))].

Record Fault := MkFault { fReason : string; fMessage : string }.
(** A map without the key reads the zero value. *)
Definition code_of (f : Fault) : Z * Z * string := default (0%Z, 0%Z, "") (list_to_map (M := gmap string _) codes !! fReason f).
Definition Fault_Error (f : Fault) : string :=
  if String.eqb (fMessage f) "" then fReason f else fReason f +:+ ": " +:+ fMessage f.
Definition CWMPCode (f : Fault) : Z := (code_of f).1.1.
Definition USPCode (f : Fault) : Z := (code_of f).1.2.
Definition Fault_String (f : Fault) : string := if negb (String.eqb (fMessage f) "") then fMessage f else (code_of f).2.

Record SoftwareModuleFault := MkSMFault { smReason : string; smMessage : string }.
Definition injected (f : SoftwareModuleFault) : Fault := MkFault (smReason f) (smMessage f).

(** ** Data *)

Inductive Kind := Install | Update | Uninstall | OtherKind (n : Z).
Definition Kind_String (k : Kind) : string :=
  match k with
  | Install => "Install" | Update => "Update" | Uninstall => "Uninstall"
  | OtherKind n => "Kind(" +:+ Strconv.Itoa n +:+ ")"
  end.

Record Operation := MkOperation { oKind : Kind; oURL : string; oUUID : string; oVersion : string; oExecutionEnvRef : string }.
(** Instants are nanoseconds. *)
Record Result := MkResult {
  rOperation : Kind; rUUID : string; rDURef : string; rVersion : string; rState : string; rResolved : bool;
  rEURefs : list string; rStart : Z; rComplete : Z; rFault : option Fault
}.

Record App := MkApp { appName : string; appVersion : string; appVendor : string; appDescription : string; ExecutionUnit : string }.
Record AppManifest := MkManifest { mApp : App; mTree : Tree; mGenerators : list GeneratorConfig }.

Record Config := MkConfig {
  cPath : string; InstallDelay : Z; UninstallDelay : Z; Faults : gmap string SoftwareModuleFault
}.
Record installation := MkInstallation {
  duPath : string; euPath : string; eePath : string; manifest : AppManifest; url : string; roots : list string
}.

(** [generators.Runner], as the manager uses it. *)
Class GeneratorRunner (G : Type) := {
  AddConfig : GeneratorConfig → G → result error G;
  Remove : string → G → G
}.

(** [told] is what the observers of the tree were told, in order. *)
Record Manager {G : Type} := MkManager {
  cfg : Config; tree : Tree; gens : option G; installed : gmap string installation; told : list Change
}.
Arguments Manager G : clear implicits.
Arguments MkManager {G} _ _ _ _ _.

Record World := MkWorld {
  fetch : string → result Fault AppManifest;
  ctx_err : option string;
  while_fetching : Tree → Tree;
  while_sleeping : Tree → Tree;
  t_begin : Z; t_start : Z; t_restart : Z; t_done : Z; t_end : Z
}.

Definition DUInstalling := "Installing".
Definition DUInstalled := "Installed".
Definition DUUpdating := "Updating".
Definition DUUninstalling := "Uninstalling".
Definition DUUninstalled := "Uninstalled".
Definition DUFailed := "Failed".
Definition EUIdle := "Idle".
Definition EUStarting := "Starting".
Definition EUActive := "Active".
Definition EUStopping := "Stopping".
Definition SoftwareModulesExecEnvTable := "ExecEnv.".
Definition SoftwareModulesDeploymentUnitTable := "DeploymentUnit.".
Definition SoftwareModulesExecutionUnitTable := "ExecutionUnit.".
Definition requiredDULeaves := ["UUID"; "Name"; "Status"; "Version"].
Definition requiredEULeaves := ["Name"; "Status"; "References"].

(** An instance path as a reference. *)
Definition ref (path : string) : string := Strings.TrimSuffix path ".".
(** [t.Format(time.RFC3339)] *)
Definition stamp (ns : Z) : string := Time.Format_RFC3339 (ns / 1000000000).

Definition is_blank (s : string) : bool := String.eqb (Space.TrimSpace s) "".
Definition NoResult : Result := MkResult Install "" "" "" "" false [] 0 0 None.
Definition with_uuid (u : string) (r : Result) : Result :=
  MkResult (rOperation r) u (rDURef r) (rVersion r) (rState r) (rResolved r) (rEURefs r) (rStart r) (rComplete r) (rFault r).
Definition with_version (v : string) (r : Result) : Result :=
  MkResult (rOperation r) (rUUID r) (rDURef r) v (rState r) (rResolved r) (rEURefs r) (rStart r) (rComplete r) (rFault r).
Definition with_refs (du : string) (eus : list string) (r : Result) : Result :=
  MkResult (rOperation r) (rUUID r) du (rVersion r) (rState r) (rResolved r) eus (rStart r) (rComplete r) (rFault r).
Definition withFault (r : Result) (f : Fault) : Result :=
  MkResult (rOperation r) (rUUID r) (rDURef r) (rVersion r) (rState r) (rResolved r) (rEURefs r) (rStart r) (rComplete r) (Some f).
Definition failed (f : Fault) : Result := withFault NoResult f.
Definition unit_result (uuid du version state : string) (resolved : bool) (eus : list string) : Result :=
  MkResult Install uuid du version state resolved eus 0 0 None.

(** ** manager.go *)

Section manager.
Context (Quote : string → string) {G : Type} `{HG : GeneratorRunner G}.
Abbreviation M := (Manager G).

Definition fault (reason format : string) (args : list string) : Fault := MkFault reason (Sprintf Quote format args "").

(** *** fetch.go *)

(** What [url.Parse] says of a URL, how the exchange ended, and the loader of
    manifests, are arguments. *)
Record parsed_url := MkURL { Scheme : string; Host : string; has_user : bool }.
Inductive exchange :=
| NoRequest (err : string) | NoResponse (err : string) | Response (StatusCode : Z) (Status : string) (body : result string string).
Definition maxManifestBytes : Z := Z.shiftl 4 20.

Definition Fetch (parse : string → option parsed_url) (do_ : string → exchange) (load : string → string → result error AppManifest)
  (rawURL : string) : result Fault AppManifest :=
  let absolute := match parse rawURL with Some u => negb (String.eqb (Scheme u) "" || String.eqb (Host u) "") | None => false end in
  if negb absolute then Err (fault ReasonInvalidArguments "URL %q is not an absolute URL" [rawURL])
  else if match parse rawURL with Some u => has_user u | None => false end
  then Err (fault ReasonInvalidArguments "URL carries a userinfo component" [])
  else
    match do_ rawURL with
    | NoRequest e => Err (fault ReasonInvalidArguments "%v" [e])
    | NoResponse e => Err (fault ReasonUnreachable "%v" [e])
    | Response code status body =>
        if (code <? 200)%Z || (299 <? code)%Z then Err (fault ReasonUnavailable "server answered %s" [status])
        else
          match body with
          | Err e => Err (fault ReasonUnreachable "reading body: %v" [e])
          | Ok b =>
              if (maxManifestBytes <? Z.of_nat (String.length b))%Z
              then Err (fault ReasonCorrupt "manifest exceeds %d bytes" [Strconv.Itoa maxManifestBytes])
              else map_err (λ e, fault ReasonCorrupt "%v" [Error_text Quote e]) (load b rawURL)
          end
    end.

(** *** On the tree *)

Definition on_tree {A} (op : Tree → outcome A) (m : M) : M * result error A :=
  let '(t, cs, r) := op (tree m) in (MkManager (cfg m) t (gens m) (installed m) (told m ++ cs), r).
Definition meanwhile (f : Tree → Tree) (m : M) : M := MkManager (cfg m) (f (tree m)) (gens m) (installed m) (told m).
Definition set_gens (g : option G) (m : M) : M := MkManager (cfg m) (tree m) g (installed m) (told m).
Definition set_installed (i : gmap string installation) (m : M) : M := MkManager (cfg m) (tree m) (gens m) i (told m).

(** A write that fails is logged at most. The source ranges over a map, the
    order is here that of its literal, whose leaves are distinct. *)
Definition setLeaves (row : string) (values : list (string * string)) (m : M) : M :=
  foldl (λ m '(leaf, value), (on_tree (λ t, SetSystem t (row +:+ leaf) value) m).1) m values.
(** [_ = m.tree.DeleteObject(path)] *)
Definition deleteRow (path : string) (m : M) : M := (on_tree (λ t, DeleteObject t path) m).1.
Definition unmount (roots : list string) (m : M) : M :=
  foldl (λ m r, (on_tree (λ t, Unmount t r) m).1) m roots.

Definition has_leaf (t : Tree) (path : string) : bool := is_ok (Get t path).
(** The first leaf a row lacks. *)
Definition missing_leaf (t : Tree) (row : string) (required : list string) : option string :=
  head (filter (λ leaf, has_leaf t (row +:+ leaf) = false) required).
Definition addRow (table : string) (required : list string) (m : M) : M * result Fault string :=
  let parent := cPath (cfg m) +:+ table in
  match on_tree (λ t, AddObject t parent) m with
  | (m, Err e) => (m, Err (fault ReasonRequestDenied "cannot add a %s row: %v" [table; Error_text Quote e]))
  | (m, Ok inst) =>
      let path := parent +:+ Strconv.Itoa inst +:+ "." in
      match missing_leaf (tree m) path required with
      | Some leaf =>
          (deleteRow path m, Err (fault ReasonRequestDenied "the profile's %s{i}. template declares no %s leaf" [table; leaf]))
      | None => (m, Ok path)
      end
  end.

(** *** Checks *)

(** [err == nil && v.Raw != want...] *)
Definition reads_other (t : Tree) (path : string) (wanted : list string) : option string :=
  match Get t path with
  | Ok v => if bool_decide (Raw v ∈ wanted) then None else Some (Raw v)
  | Err _ => None
  end.
Definition execEnv (m : M) (r : string) : result Fault string :=
  match Children (tree m) (cPath (cfg m) +:+ SoftwareModulesExecEnvTable) with
  | Err _ | Ok [] => Err (fault ReasonUnknownExecEnv "no execution environment declared" [])
  | Ok (e :: envs) =>
      path ← (if String.eqb r "" then Ok (ciName e)
              else if bool_decide ((Strings.TrimSuffix r "." +:+ ".") ∈ (ciName <$> e :: envs))
              then Ok (Strings.TrimSuffix r "." +:+ ".")
              else Err (fault ReasonUnknownExecEnv "%s does not exist" [r]));
      match reads_other (tree m) (path +:+ "Enable") ["true"; "1"] with
      | Some _ => Err (fault ReasonDisabledExecEnv "%s is disabled" [ref path])
      | None =>
          match reads_other (tree m) (path +:+ "Status") ["Up"] with
          | Some v => Err (fault ReasonDisabledExecEnv "%s is %s" [ref path; v])
          | None => Ok path
          end
      end
  end.

Definition reads_uuid (t : Tree) (du uuid : string) : bool :=
  match Get t (du +:+ "UUID") with Ok v => EqualFold (Raw v) uuid | Err _ => false end.
Definition inst_matches (t : Tree) (uuid version : string) (i : installation) : bool :=
  (EqualFold (appVersion (mApp (manifest i))) version || String.eqb version "") && reads_uuid t (duPath i) uuid.
Definition installations (m : M) : list installation := (map_to_list (installed m)).*2.
Definition findLocked (m : M) (uuid version : string) : result Fault installation :=
  match filter (λ i, inst_matches (tree m) uuid version i = true) (installations m) with
  | [] =>
      if negb (String.eqb version "") then Err (fault ReasonUnknownDU "no deployment unit %s at version %s" [uuid; version])
      else Err (fault ReasonUnknownDU "no deployment unit %s" [uuid])
  | [i] => Ok i
  | _ => Err (fault ReasonInvalidArguments "%s is installed at several versions; name one" [uuid])
  end.

Definition checkInstallArgs (op : Operation) : option Fault :=
  if is_blank (oURL op) then Some (fault ReasonInvalidArguments "URL is required" [])
  else if negb (String.eqb (oUUID op) "") && negb (uuid_matches (oUUID op))
  then Some (fault ReasonInvalidArguments "UUID %q is not an RFC 4122 UUID" [oUUID op])
  else None.

Definition err_of {A} (r : result Fault A) : option Fault := match r with Ok _ => None | Err f => Some f end.
Definition Check (m : M) (op : Operation) : option Fault :=
  match oKind op with
  | Install =>
      match checkInstallArgs op with Some f => Some f | None => err_of (execEnv m (oExecutionEnvRef op)) end
  | Update | Uninstall =>
      if String.eqb (oUUID op) "" then Some (fault ReasonInvalidArguments "UUID is required" [])
      else if negb (uuid_matches (oUUID op))
      then Some (fault ReasonInvalidArguments "UUID %q is not an RFC 4122 UUID" [oUUID op])
      else
        match match oKind op with
              | Uninstall => if String.eqb (oExecutionEnvRef op) "" then None else err_of (execEnv m (oExecutionEnvRef op))
              | _ => None
              end with
        | Some f => Some f
        | None => err_of (findLocked m (oUUID op) (oVersion op))
        end
  | k => Some (fault ReasonInvalidArguments "unknown operation %v" [Kind_String k])
  end.

(** [except = ""] names no unit. Go's range order is not specified; it only
    picks the unit the message names. *)
Definition checkManifest (m : M) (man : AppManifest) (uuid except : string) : option Fault :=
  match Faults (cfg m) !! appName (mApp man) with
  | Some f => Some (injected f)
  | None =>
      match filter (λ p : string * installation, p.1 ≠ except ∧ reads_uuid (tree m) p.1 uuid = true) (map_to_list (installed m)) with
      | (path, i) :: _ =>
          Some (fault ReasonDuplicate "%s is already installed at version %s as %s" [uuid; appVersion (mApp (manifest i)); ref path])
      | [] => None
      end
  end.

(** [UUIDOf] *)
Definition UUIDOf (m : M) (du : string) : result error string := v ← Get (tree m) (du +:+ "UUID"); Ok (Raw v).

(** *** Execution units *)

(** The units of an environment that run, as the tree has them. *)
Definition active_units (m : M) (ee : string) : list string :=
  Sort.Strings ((λ i, ref (euPath i)) <$>
    filter (λ i, eePath i = ee ∧ reads_other (tree m) (euPath i +:+ "Status") [EUActive] = None ∧
                 has_leaf (tree m) (euPath i +:+ "Status") = true) (installations m)).
Definition syncActiveUnits (ee : string) (m : M) : M :=
  setLeaves ee [("ActiveExecutionUnits", Strings.Join (active_units m ee) ",")] m.

(** A generator that cannot be added is logged. *)
Definition add_generators (l : list GeneratorConfig) (m : M) : M :=
  match gens m with
  | None => m
  | Some g => set_gens (Some (foldl (λ g c, match AddConfig c g with Ok g' => g' | Err _ => g end) g l)) m
  end.
Definition remove_generators (l : list GeneratorConfig) (m : M) : M :=
  match gens m with
  | None => m
  | Some g => set_gens (Some (foldl (λ g c, Remove (gPath c) g) g l)) m
  end.

Definition eu_leaves (man : AppManifest) (roots : list string) (ee : string) (now : Z) : list (string * string) :=
  [("EUID", ExecutionUnit (mApp man)); ("Name", ExecutionUnit (mApp man)); ("ExecEnvLabel", ExecutionUnit (mApp man));
   ("Status", EUStarting); ("ExecutionFaultCode", "NoFault"); ("ExecutionFaultMessage", ""); ("AutoStart", "true");
   ("Vendor", appVendor (mApp man)); ("Version", appVersion (mApp man)); ("Description", appDescription (mApp man));
   ("References", Strings.Join roots ","); ("ExecutionEnvRef", ref ee); ("CreationTime", stamp now)].

(** [now] is the clock as the row is written. *)
Definition start (now : Z) (man : AppManifest) (ee : string) (m : M) : M * result Fault (list string * string) :=
  match on_tree (λ t, Graft t (Some (mTree man))) m with
  | (m, Err e) => (m, Err (fault ReasonMismatch "data model cannot be added: %v" [Error_text Quote e]))
  | (m, Ok roots) =>
      match addRow SoftwareModulesExecutionUnitTable requiredEULeaves m with
      | (m, Err f) => (unmount roots m, Err f)
      | (m, Ok eu) =>
          let m := setLeaves eu (eu_leaves man roots ee now) m in
          let m := add_generators (mGenerators man) m in
          (setLeaves eu [("Status", EUActive)] m, Ok (roots, eu))
      end
  end.

Definition stop (i : installation) (m : M) : M :=
  let m := setLeaves (euPath i) [("Status", EUStopping)] m in
  let m := remove_generators (mGenerators (manifest i)) m in
  let m := unmount (roots i) m in
  setLeaves (euPath i) [("Status", EUIdle); ("References", "")] m.

(** *** Operations *)

Context (W : World).

(** The manifest, or the sleep's error. *)
Definition do_fetch (u : string) (m : M) : M * result Fault AppManifest := (meanwhile (while_fetching W) m, fetch W u).
Definition sleep (d : Z) (m : M) : M * option string :=
  if (d <=? 0)%Z then (m, None) else (meanwhile (while_sleeping W) m, ctx_err W).

Definition du_app_leaves (a : App) : list (string * string) :=
  [("Name", appName a); ("Version", appVersion a); ("Vendor", appVendor a); ("Description", appDescription a)].

Definition undo (op : Operation) (du : string) (f : Fault) (m : M) : M * Result :=
  (deleteRow du m, with_uuid (oUUID op) (failed f)).

(** After the row is there and the manifest has been fetched. *)
Definition install_manifest (op : Operation) (ee du : string) (man : AppManifest) (m : M) : M * Result :=
  let uuid := if String.eqb (oUUID op) "" then AppUUID (appVendor (mApp man)) (appName (mApp man)) else oUUID op in
  let m := setLeaves du [("UUID", uuid)] m in
  match checkManifest m man uuid "" with
  | Some f => let '(m, r) := undo op du f m in (m, with_version (appVersion (mApp man)) (with_uuid uuid r))
  | None =>
      let m := setLeaves du (du_app_leaves (mApp man) ++ [("DUID", appName (mApp man))]) m in
      match sleep (InstallDelay (cfg m)) m with
      | (m, Some e) => let '(m, r) := undo op du (fault ReasonRequestDenied "%v" [e]) m in (m, with_uuid uuid r)
      | (m, None) =>
          match start (t_start W) man ee m with
          | (m, Err f) => let '(m, r) := undo op du f m in (m, with_version (appVersion (mApp man)) (with_uuid uuid r))
          | (m, Ok (roots, eu)) =>
              let m := setLeaves du [("Status", DUInstalled); ("Resolved", "true"); ("ExecutionUnitList", ref eu);
                                     ("Installed", stamp (t_done W)); ("LastUpdate", stamp (t_done W))] m in
              let m := set_installed (<[du := MkInstallation du eu ee man (oURL op) roots]> (installed m)) m in
              let m := syncActiveUnits ee m in
              (m, unit_result uuid (ref du) (appVersion (mApp man)) DUInstalled true [ref eu])
          end
      end
  end.

Definition install (op : Operation) (m : M) : M * Result :=
  match checkInstallArgs op with
  | Some f => (m, failed f)
  | None =>
      match execEnv m (oExecutionEnvRef op) with
      | Err f => (m, failed f)
      | Ok ee =>
          match addRow SoftwareModulesDeploymentUnitTable requiredDULeaves m with
          | (m, Err f) => (m, failed f)
          | (m, Ok du) =>
              let m := setLeaves du [("UUID", oUUID op); ("Status", DUInstalling); ("Resolved", "false");
                                     ("URL", oURL op); ("ExecutionEnvRef", ref ee)] m in
              match do_fetch (oURL op) m with
              | (m, Err f) => undo op du f m
              | (m, Ok man) => install_manifest op ee du man m
              end
          end
      end
  end.

(** [inst.roots, inst.euPath = ...]: the record is shared with the table. *)
Definition restarted (i : installation) (rs : list string) (eu : string) : installation :=
  MkInstallation (duPath i) eu (eePath i) (manifest i) (url i) rs.
Definition put (i : installation) (m : M) : M := set_installed (<[duPath i := i]> (installed m)) m.
Definition forget (i : installation) (m : M) : M := deleteRow (duPath i) (set_installed (delete (duPath i) (installed m)) m).
Definition before (uuid : string) (i : installation) : Result :=
  unit_result uuid (ref (duPath i)) (appVersion (mApp (manifest i))) DUInstalled true [ref (euPath i)].

(** The new version did not start: the old one is put back. *)
Definition roll_back (uuid : string) (i : installation) (f : Fault) (m : M) : M * Result :=
  match start (t_restart W) (manifest i) (eePath i) m with
  | (m, Err _) => (forget i m, with_refs "" [] (withFault (before uuid i) f))
  | (m, Ok (rs, eu)) =>
      let i' := restarted i rs eu in
      let m := put i' m in
      let m := setLeaves (duPath i) [("Status", DUInstalled); ("ExecutionUnitList", ref eu)] m in
      let m := syncActiveUnits (eePath i) m in
      (m, withFault (before uuid i') f)
  end.

(** From the stop of the running version on. *)
Definition replace (uuid u : string) (i : installation) (man : AppManifest) (m : M) : M * Result :=
  let m := setLeaves (duPath i) [("Status", DUUpdating); ("URL", u)] m in
  let m := stop i m in
  let m := deleteRow (euPath i) m in
  match sleep (InstallDelay (cfg m)) m with
  | (m, Some e) =>
      (forget i m, with_refs "" [ref (euPath i)] (withFault (before uuid i) (fault ReasonRequestDenied "%v" [e])))
  | (m, None) =>
      match start (t_start W) man (eePath i) m with
      | (m, Err f) => roll_back uuid i f m
      | (m, Ok (rs, eu)) =>
          let m := setLeaves (duPath i) (du_app_leaves (mApp man) ++
                     [("Status", DUInstalled); ("Resolved", "true"); ("ExecutionUnitList", ref eu); ("LastUpdate", stamp (t_done W))]) m in
          let i' := MkInstallation (duPath i) eu (eePath i) man u rs in
          let m := put i' m in
          let m := syncActiveUnits (eePath i) m in
          (m, before uuid i')
      end
  end.

Definition not_installed (m : M) (i : installation) : option Fault :=
  v ← reads_other (tree m) (duPath i +:+ "Status") [DUInstalled];
  Some (fault ReasonInvalidState "%s is %s" [ref (duPath i); v]).

Definition update (op : Operation) (m : M) : M * Result :=
  match findLocked m (oUUID op) (oVersion op) with
  | Err f => (m, failed f)
  | Ok i =>
      let uuid := oUUID op in
      match not_installed m i with
      | Some f => (m, withFault (before uuid i) f)
      | None =>
          match execEnv m (ref (eePath i)) with
          | Err f => (m, withFault (before uuid i) f)
          | Ok _ =>
              let u := if String.eqb (oURL op) "" then url i else oURL op in
              match do_fetch u m with
              | (m, Err f) => (m, withFault (before uuid i) f)
              | (m, Ok man) =>
                  match checkManifest m man uuid (duPath i) with
                  | Some f => (m, withFault (before uuid i) f)
                  | None =>
                      if String.eqb (appVersion (mApp man)) (appVersion (mApp (manifest i)))
                      then (m, withFault (before uuid i) (fault ReasonVersionExists "%s is already at version %s" [uuid; appVersion (mApp man)]))
                      else replace uuid u i man m
                  end
              end
          end
      end
  end.

Definition uninstall (op : Operation) (m : M) : M * Result :=
  match findLocked m (oUUID op) (oVersion op) with
  | Err f => (m, failed f)
  | Ok i =>
      if negb (String.eqb (oExecutionEnvRef op) "") && negb (String.eqb (Strings.TrimSuffix (oExecutionEnvRef op) ".") (ref (eePath i)))
      then (m, failed (fault ReasonUnknownDU "%s is not installed on %s" [oUUID op; oExecutionEnvRef op]))
      else
        let version := appVersion (mApp (manifest i)) in
        match not_installed m i with
        | Some f => (m, withFault (unit_result (oUUID op) (ref (duPath i)) version "" false []) f)
        | None =>
            let m := setLeaves (duPath i) [("Status", DUUninstalling)] m in
            let m := stop i m in
            let m := deleteRow (euPath i) m in
            let m := syncActiveUnits (eePath i) m in
            let '(m, _) := sleep (UninstallDelay (cfg m)) m in
            let m := deleteRow (duPath i) m in
            let m := set_installed (delete (duPath i) (installed m)) m in
            (m, unit_result (oUUID op) "" version DUUninstalled false [])
        end
  end.

Definition Run (op : Operation) (m : M) : M * Result :=
  let '(m, r) :=
    match oKind op with
    | Install => install op m
    | Update => update op m
    | Uninstall => uninstall op m
    | k => (m, failed (fault ReasonInvalidArguments "unknown operation %v" [Kind_String k]))
    end in
  let uuid := if String.eqb (rUUID r) "" then oUUID op else rUUID r in
  let state := match rFault r with Some _ => DUFailed | None => rState r end in
  (m, MkResult (oKind op) uuid (rDURef r) (rVersion r) state (rResolved r) (rEURefs r) (t_begin W) (t_end W) (rFault r)).
End manager.
