(* ===== verification/ModulesFrame.v ===== *)
(** * What a module operation does to the tree, step by step.

    Every step of [install], [update] and [uninstall] has its frame: the row it
    writes, the table it recounts, the roots it grafts. *)
From Stdlib Require Import ZArith Lia Ascii String.
From S2P Require Import Prelude GoLib GoAuth CpeErr Types Node Tree TreeProps Objects ObjectsProps Listing Graft TreeFrame Generators Sha SoftwareModules.

(** A row's path as the manager spells it. *)
Definition row_name (p : segments) : string := joinPath p +:+ ".".

Lemma row_leaf p leaf : p ≠ [] → Forall (λ s, valid_segment s = true) (p ++ [leaf]) → parsePath (row_name p +:+ leaf) = Ok (p ++ [leaf]).
Proof. intros Hp Hv. unfold row_name. rewrite str_app_assoc, <-joinPath_snoc by done. by apply parsePath_joinPath. Qed.
Lemma row_parses p : Forall (λ s, valid_segment s = true) p → parsePath (row_name p) = Ok p.
Proof. apply parsePath_trailing_dot. Qed.
Lemma row_child p k : p ≠ [] → row_name p +:+ (k +:+ ".") = row_name (p ++ [k]).
Proof. intros H. unfold row_name. rewrite joinPath_snoc by done. by rewrite !str_app_assoc. Qed.

Section steps.
Context (Quote : string → string) {G : Type} `{HG : GeneratorRunner G}.
Abbreviation M := (Manager G).

(** Only the tree, and what its observers were told, may differ. *)
Definition same_books (m m' : M) : Prop := cfg m' = cfg m ∧ installed m' = installed m ∧ gens m' = gens m.
#[local] Instance same_books_refl : Reflexive same_books.
Proof. by intros m. Qed.
#[local] Instance same_books_trans : Transitive same_books.
Proof. intros m1 m2 m3 (?&?&?) (?&?&?). split_and!; congruence. Qed.

Lemma on_tree_eq {A} (op : Tree → outcome A) (m : M) :
  on_tree op m = (MkManager (cfg m) (op (tree m)).1.1 (gens m) (installed m) (told m ++ (op (tree m)).1.2), (op (tree m)).2).
Proof. unfold on_tree. by destruct (op (tree m)) as [[t cs] r]. Qed.

(** *** Leaves *)

Definition valid_names (values : list (string * string)) : Prop := Forall (λ p, valid_segment p.1 = true) values.

Lemma setLeaves_step row leaf value rest (m : M) :
  setLeaves row ((leaf, value) :: rest) m = setLeaves row rest (on_tree (λ t, SetSystem t (row +:+ leaf) value) m).1.
Proof. done. Qed.
Lemma setLeaves_books row values (m : M) : same_books m (setLeaves row values m).
Proof.
  revert m. induction values as [|[leaf value] rest IH]; intros m; [done|]. rewrite setLeaves_step. etrans; [|apply IH].
  rewrite on_tree_eq. done.
Qed.

Context (p : segments) (Hp : p ≠ []) (Hv : Forall (λ s, valid_segment s = true) p).

Lemma leaf_path leaf : valid_segment leaf = true → parsePath (row_name p +:+ leaf) = Ok (p ++ [leaf]).
Proof. intros Hl. apply row_leaf; [done|]. apply Forall_app. by repeat constructor. Qed.

(** Writes under a row change its leaves and nothing else. *)
Lemma setLeaves_frame values (m : M) : valid_names values →
  frame [] ((λ l, p ++ [l.1]) <$> values) (tree m) (tree (setLeaves (row_name p) values m)).
Proof.
  intros H. revert m. induction H as [|[leaf value] rest Hl H IH]; intros m; [done|]. rewrite setLeaves_step.
  assert (tree (on_tree (λ t, SetSystem t (row_name p +:+ leaf) value) m).1 = (SetSystem (tree m) (row_name p +:+ leaf) value).1.1) as E by (by rewrite on_tree_eq).
  pose proof (SetSystem_frame (tree m) (row_name p +:+ leaf) value _ (leaf_path leaf Hl)) as H1. rewrite <-E in H1.
  eapply frame_then; [exact H1|apply IH|done|apply sub_head|done|apply sub_tail].
Qed.
Lemma setLeaves_row values (m : M) : valid_names values → frame [p] [] (tree m) (tree (setLeaves (row_name p) values m)).
Proof.
  intros H q [Hq _]%outside_cons. destruct (setLeaves_frame values m H q (outside_nil q)) as [K V]. split; [done|]. intros _. apply V.
  intros (l&->&_)%list_elem_of_fmap. apply Hq. by exists [l.1].
Qed.

(** What a leaf reads after the only write of it. *)
Lemma setLeaves_writes values leaf value v (m : M) : valid_names values → NoDup values.*1 → (leaf, value) ∈ values →
  view (tree m) (p ++ [leaf]) = Some v → valid_raw (vType v) value = true →
  view (tree (setLeaves (row_name p) values m)) (p ++ [leaf]) = Some (with_raw value v).
Proof.
  intros H. revert m. induction H as [|[l x] rest Hl H IH]; intros m HN Hin Hview Hty; [by apply not_elem_of_nil in Hin|].
  cbn [fmap list_fmap fst] in HN. apply NoDup_cons in HN as [Hfresh HN]. rewrite setLeaves_step.
  set (m1 := (on_tree _ m).1).
  assert (tree m1 = (SetSystem (tree m) (row_name p +:+ l) x).1.1) as E by (unfold m1; by rewrite on_tree_eq).
  apply elem_of_cons in Hin as [[= -> ->]|Hin].
  - assert (view (tree m1) (p ++ [l]) = Some (with_raw x v)) as Hw.
    { rewrite E. pose proof (leaf_path l Hl) as Hpath.
      destruct (SetSystem_writes (tree m) (row_name p +:+ l) x v) as (t'&cs&p'&Es&Ep&Hq).
      - apply Get_view. exists (p ++ [l]). done.
      - done.
      - rewrite Es. cbn. rewrite Hq. unfold spec_update. rewrite decide_True; [done|congruence]. }
    destruct (setLeaves_frame rest m1 H (p ++ [l]) (outside_nil _)) as [_ V]. rewrite V; [done|].
    intros ([l' x']&E'&Hin)%list_elem_of_fmap. apply app_inv_head in E'. injection E' as E'. cbn in E'. subst l'.
    apply Hfresh, list_elem_of_fmap. by exists (l, x').
  - apply IH; [done..| |done]. rewrite <-Hview, E.
    pose proof (SetSystem_frame (tree m) (row_name p +:+ l) x _ (leaf_path l Hl)) as H1.
    destruct (H1 (p ++ [leaf]) (outside_nil _)) as [_ V]. rewrite V; [done|].
    rewrite list_elem_of_singleton. intros E'. apply app_inv_head in E'. injection E' as ->.
    apply Hfresh, list_elem_of_fmap. by exists (l, value).
Qed.
(** A write keeps a leaf's type. *)
Lemma setLeaves_type values leaf v (m : M) : valid_names values → view (tree m) (p ++ [leaf]) = Some v →
  ∃ v', view (tree (setLeaves (row_name p) values m)) (p ++ [leaf]) = Some v' ∧ vType v' = vType v.
Proof.
  intros H. revert m v. induction H as [|[l x] rest Hl H IH]; intros m v Hview; [by exists v|]. rewrite setLeaves_step.
  set (m1 := (on_tree _ m).1).
  assert (tree m1 = (SetSystem (tree m) (row_name p +:+ l) x).1.1) as E by (unfold m1; by rewrite on_tree_eq).
  assert (∃ v1, view (tree m1) (p ++ [leaf]) = Some v1 ∧ vType v1 = vType v) as (v1&Hv1&Ht).
  { rewrite E. destruct (SetSystem_inv (tree m) (row_name p +:+ l) x) as [[e ->]|(p'&n&old&_&Hn&Hold&_&->)]; [by exists v|]. cbn.
    rewrite (view_set_leaf (tree m) p' n old _ Hn Hold). unfold spec_update. case_decide as Hd; [|by exists v].
    exists (with_raw x old). split; [done|]. subst p'. unfold view, leaf_at in Hview. rewrite Hn in Hview. cbn in Hview. by simplify_eq. }
  destruct (IH m1 v1 Hv1) as (v'&?&?). exists v'. split; [done|congruence].
Qed.

End steps.

Section rows.
Context (Quote : string → string) {G : Type} `{HG : GeneratorRunner G}.
Abbreviation M := (Manager G).
#[local] Existing Instance same_books_refl.
#[local] Existing Instance same_books_trans.

(** Where the profile put the tables. *)
Context (R : segments) (HR : R ≠ []) (HRv : Forall (λ s, valid_segment s = true) R).
Definition DUT : segments := R ++ ["DeploymentUnit"].
Definition EUT : segments := R ++ ["ExecutionUnit"].
Definition EET : segments := R ++ ["ExecEnv"].
Definition at_site (m : M) : Prop := cPath (cfg m) = row_name R.

Lemma table_valid name : valid_segment name = true → Forall (λ s, valid_segment s = true) (R ++ [name]).
Proof. intros H. apply Forall_app. by repeat constructor. Qed.
Lemma table_name (m : M) name : at_site m → cPath (cfg m) +:+ (name +:+ ".") = row_name (R ++ [name]).
Proof. intros ->. by apply row_child. Qed.
Lemma snoc_ne {A} (l : list A) x : l ++ [x] ≠ [].
Proof. by destruct l. Qed.

Lemma deleteRow_eq path (m : M) : tree (deleteRow path m) = (DeleteObject (tree m) path).1.1 ∧ same_books m (deleteRow path m).
Proof. unfold deleteRow. rewrite on_tree_eq. done. Qed.

Lemma deleteRow_ok (m : M) T k tmpl :
  Forall (λ s, valid_segment s = true) (T ++ [k]) → is_Some (instance_of k) →
  kind_at T (root (tree m)) = Some (false, Some tmpl) → is_Some (kind_at (T ++ [k]) (root (tree m))) →
  let m' := deleteRow (row_name (T ++ [k])) m in
  frame [T ++ [k]] (counters T) (tree m) (tree m') ∧ gone (T ++ [k]) (tree m') ∧ same_books m m'.
Proof.
  intros Hv [i Hi] HT Hk. destruct (deleteRow_eq (row_name (T ++ [k])) m) as [E Hb].
  destruct (DeleteObject_ok (tree m) _ _ _ i tmpl (row_parses _ Hv) Hi HT Hk) as (t'&cs&E'&Hf&Hg). cbn zeta. rewrite E, E'. done.
Qed.

Section table.
Context (name : string) (Hname : valid_segment name = true).
Let T : segments := R ++ [name].

(** What is known of a row after it was added. *)
Record row_added (k : string) (tmpl : Node) (t t' : Tree) : Prop := {
  ra_table : kind_at T (root t) = Some (false, Some tmpl);
  ra_instance : is_Some (instance_of k);
  ra_valid : Forall (λ s, valid_segment s = true) (T ++ [k]);
  ra_fresh : gone (T ++ [k]) t;
  ra_node : node_at (T ++ [k]) (root t') = Some tmpl;
  ra_frame : frame [T ++ [k]] (counters T) t t'
}.

Lemma row_added_table k tmpl t t' : row_added k tmpl t t' → kind_at T (root t') = Some (false, Some tmpl).
Proof. intros H. rewrite (frame_kind _ _ _ _ _ (ra_frame _ _ _ _ H)); [apply H|apply row_outside]. Qed.

Lemma AddObject_row (m : M) t' cs i : at_site m → sound (tree m) → roomy T (tree m) →
  AddObject (tree m) (cPath (cfg m) +:+ (name +:+ ".")) = (t', cs, Ok i) →
  (0 ≤ i)%Z ∧ ∃ tmpl, row_added (Strconv.Itoa i) tmpl (tree m) t'.
Proof.
  intros Hs Hsd Hroom H. rewrite table_name in H by done.
  destruct (AddObject_ok _ _ _ _ _ T Hsd (row_parses _ (table_valid _ Hname)) H Hroom) as (tmpl&Hk&Hi&Hpos&Hg&Hn&Hf).
  split; [lia|]. exists tmpl. constructor; [done|by eexists| |done..].
  apply Forall_app. split; [by apply table_valid|]. repeat constructor. apply Itoa_valid_segment. lia.
Qed.

(** Adding a row fails and leaves the table recounted, or there is a new row
    copied from the template. *)
Lemma addRow_spec (m m' : M) required res : at_site m → sound (tree m) → roomy T (tree m) →
  addRow Quote (name +:+ ".") required m = (m', res) →
  same_books m m' ∧
  match res with
  | Err _ => frame [] (counters T) (tree m) (tree m')
  | Ok path => ∃ k tmpl, path = row_name (T ++ [k]) ∧ row_added k tmpl (tree m) (tree m')
  end.
Proof.
  intros Hs Hsd Hroom. unfold addRow. rewrite on_tree_eq.
  destruct (AddObject (tree m) (cPath (cfg m) +:+ (name +:+ "."))) as [[t1 cs] [i|e]] eqn:E; cbn [fst snd cfg].
  2:{ apply AddObject_err in E as [-> _]. intros [= <- <-]. done. }
  destruct (AddObject_row m t1 cs i Hs Hsd Hroom E) as (Hi&tmpl&Hra).
  set (m1 := MkManager _ t1 _ _ _). rewrite table_name by done.
  change (R ++ [name]) with T. assert (row_name T +:+ (Strconv.Itoa i +:+ ".") = row_name (T ++ [Strconv.Itoa i])) as -> by (rewrite row_child; [done|apply snoc_ne]).
  destruct (missing_leaf _ _ _) as [leaf|] eqn:Em; intros [= <- <-].
  - pose proof (row_added_table _ _ _ _ Hra) as HT.
    destruct (deleteRow_ok m1 T (Strconv.Itoa i) tmpl) as (Hf&Hg&Hb); [apply Hra..|done| |].
    { cbn. unfold kind_at. rewrite (ra_node _ _ _ _ Hra). by eexists. }
    split; [etrans; [|exact Hb]; done|]. eapply frame_gone; [|apply Hra|exact Hg].
    etrans; [apply Hra|exact Hf].
  - split; [done|]. exists (Strconv.Itoa i), tmpl. done.
Qed.
End table.

(** *** Grafts *)

Lemma unmount_eq rs (m : M) :
  tree (unmount rs m) = foldl (λ t path, (Unmount t path).1.1) (tree m) rs ∧ same_books m (unmount rs m).
Proof.
  unfold unmount. revert m. induction rs as [|r rs IH]; intros m; [done|]. cbn [foldl].
  destruct (IH (on_tree (λ t, Unmount t r) m).1) as [E Hb]. rewrite E. rewrite on_tree_eq in *. split; [done|]. etrans; [|exact Hb]. done.
Qed.

Lemma unmount_ok rs X (m : M) : Forall2 (λ path x, parsePath path = Ok x) rs X → NoDup X → apart X → Forall (detachable (tree m)) X →
  frame X [] (tree m) (tree (unmount rs m)) ∧ (∀ x, x ∈ X → gone x (tree (unmount rs m))) ∧ same_books m (unmount rs m).
Proof.
  intros HF HN Ha Hd. destruct (unmount_eq rs m) as [-> Hb]. destruct (unmount_all_ok rs X (tree m) HF HN Ha Hd) as [H1 H2]. done.
Qed.

Lemma add_generators_books l (m : M) : tree (add_generators l m) = tree m ∧ cfg (add_generators l m) = cfg m ∧
  installed (add_generators l m) = installed m.
Proof. unfold add_generators. by destruct (gens m). Qed.
Lemma remove_generators_books l (m : M) : tree (remove_generators l m) = tree m ∧ cfg (remove_generators l m) = cfg m ∧
  installed (remove_generators l m) = installed m.
Proof. unfold remove_generators. by destruct (gens m). Qed.

(** *** Starting a module *)

Definition narrow (p : segments) (t : Tree) : Prop := (Z.of_nat (width p (root t)) < 2 ^ 62)%Z.
Definition slim (p : segments) (t : Tree) : Prop := ∀ tb, kind_at p (root t) = Some (false, tb) → narrow p t.
(** What a module brings: a well-formed data model that adds no instance to a
    table of the device. *)
Record benign (t : Tree) (man : AppManifest) : Prop := {
  bn_wf : wf_tree (mTree man);
  bn_object : isLeaf (root (mTree man)) = false;
  bn_instances : no_instances t (mTree man);
  bn_slim : slim EUT t ∧ narrow EUT (mTree man)
}.

Lemma grafted_roomy t o t' X : grafted t o t' X → slim EUT t → narrow EUT o → roomy EUT t'.
Proof.
  intros Hg H1 H2 tb Hk. pose proof Hk as (m&Hm&Hl&_)%kind_Some.
  assert (narrow EUT t) as H1'.
  { destruct (kind_at EUT (root t)) as [[b tb']|] eqn:E; [destruct b|].
    - exfalso. destruct (decide (Exists (λ x, x `prefix_of` EUT) X)) as [Hex|Hn].
      + apply Exists_exists in Hex as (x&Hx&Hp). rewrite (gr_fresh _ _ _ _ Hg x Hx EUT Hp) in E. done.
      + rewrite (frame_kind _ _ _ _ EUT (gr_frame _ _ _ _ Hg)) in Hk; [congruence|]. intros x Hx Hp. apply Hn, Exists_exists. by exists x.
    - by eapply H1.
    - apply kind_None in E. unfold narrow, width. rewrite E. lia. }
  unfold narrow in *.
  pose proof (width_union EUT (root t') (root t) (root o)) as Hw.
  assert (width EUT (root t') ≤ width EUT (root t) + width EUT (root o))%nat.
  { apply Hw; [by exists m|]. intros k. apply (grafted_from _ _ _ _ _ Hg). }
  lia.
Qed.

(** A started module: its roots are grafted, its execution unit is a row. *)
Record started (man : AppManifest) (m m' : M) (roots : list string) (X : list segments) (t1 : Tree) (k : string) (tmpl : Node) : Prop := {
  sd_graft : grafted (tree m) (mTree man) t1 X;
  sd_paths : Forall2 (λ path x, parsePath path = Ok x) roots X;
  sd_row : ∃ t2 Z, row_added "ExecutionUnit" k tmpl t1 t2 ∧ frame [EUT ++ [k]] [] t2 (tree m') ∧ frame [] Z t2 (tree m');
  sd_books : cfg m' = cfg m ∧ installed m' = installed m ∧ gens m' = gens (add_generators (mGenerators man) m)
}.

Lemma eu_names man rs ee now : valid_names (eu_leaves man rs ee now).
Proof. unfold valid_names, eu_leaves. repeat constructor. Qed.
Lemma start_inner_spec now man ee rs k tmpl t1 (m : M) :
  let T := EUT ++ [k] in row_added "ExecutionUnit" k tmpl t1 (tree m) →
  let m' := setLeaves (row_name T) [("Status", EUActive)] (add_generators (mGenerators man) (setLeaves (row_name T) (eu_leaves man rs ee now) m)) in
  frame [T] [] (tree m) (tree m') ∧ (∃ Z, frame [] Z (tree m) (tree m')) ∧ cfg m' = cfg m ∧ installed m' = installed m ∧ gens m' = gens (add_generators (mGenerators man) m).
Proof.
  intros T Hra m'. assert (T ≠ []) as HT by apply snoc_ne. pose proof (ra_valid _ _ _ _ _ Hra) as Hv.
  set (m1 := setLeaves (row_name T) (eu_leaves man rs ee now) m) in *. set (m2 := add_generators (mGenerators man) m1) in *.
  destruct (setLeaves_books (row_name T) (eu_leaves man rs ee now) m) as (B1&B2&B3). fold m1 in B1, B2, B3.
  destruct (add_generators_books (mGenerators man) m1) as (C0&C1&C2). fold m2 in C0, C1, C2.
  destruct (setLeaves_books (row_name T) [("Status", EUActive)] m2) as (D1&D2&D3).
  split; [|split; [|split; [|split]]].
  - transitivity (tree m1); [apply setLeaves_row; [done|done|apply eu_names]|]. rewrite <-C0.
    apply setLeaves_row; [done|done|]. repeat constructor.
  - pose proof (setLeaves_frame T HT Hv (eu_leaves man rs ee now) m (eu_names _ _ _ _)) as H1. fold m1 in H1.
    pose proof (setLeaves_frame T HT Hv [("Status", EUActive)] m2 ltac:(repeat constructor)) as H2. rewrite C0 in H2.
    eexists (_ ++ _). eapply frame_then; [exact H1|exact H2|done|apply list_subseteq_app_l; done|done|apply list_subseteq_app_r; done].
  - unfold m'. rewrite D1, C1. exact B1.
  - unfold m'. rewrite D2, C2. exact B2.
  - unfold m'. rewrite D3. unfold m2, add_generators. rewrite B3. destruct (gens m) eqn:Eg; [done|]. by rewrite B3, Eg.
Qed.

Lemma start_spec now man ee (m m' : M) res : at_site m → isLeaf (root (tree m)) = false → sound (tree m) → benign (tree m) man →
  start Quote now man ee m = (m', res) →
  match res with
  | Err _ => frame [] (counters EUT) (tree m) (tree m') ∧ same_books m m'
  | Ok (rs, eu) => ∃ X t1 k tmpl, eu = row_name (EUT ++ [k]) ∧ started man m m' rs X t1 k tmpl
  end.
Proof.
  intros Hs Hroot Hsd Hb H. unfold start in H. rewrite on_tree_eq in H.
  destruct (Graft (tree m) (Some (mTree man))) as [[t1 cs] [rs|e]] eqn:Eg; cbn [fst snd] in H.
  2:{ apply Graft_err in Eg as [-> _]. injection H as <- <-. done. }
  destruct (Graft_ok _ _ _ _ _ Hroot (bn_object _ _ Hb) (bn_wf _ _ Hb) Eg) as (X&Hg&Hpaths).
  set (m1 := MkManager _ t1 _ _ _) in H. destruct (bn_slim _ _ Hb) as [Hs1 Hs2].
  pose proof (grafted_sound _ _ _ _ Hg Hsd (wf_sound _ (bn_wf _ _ Hb))) as Hsd1.
  destruct (addRow Quote SoftwareModulesExecutionUnitTable requiredEULeaves m1) as [m2 [eu|f]] eqn:Ea.
  - destruct (addRow_spec "ExecutionUnit" eq_refl m1 m2 _ _ Hs Hsd1 (grafted_roomy _ _ _ _ Hg Hs1 Hs2) Ea) as [(B1&B2&B3) (k&tmpl&->&Hra)].
    injection H as <- <-. exists X, t1, k, tmpl. split; [done|].
    destruct (start_inner_spec now man ee rs k tmpl t1 m2 Hra) as (Hf&[Z HZ]&C1&C2&C3).
    constructor; [done|done|by exists (tree m2), Z|]. split_and!; [transitivity (cfg m2); done|transitivity (installed m2); done|].
    transitivity (gens (add_generators (mGenerators man) m2)); [done|]. unfold add_generators. rewrite B3. cbn [gens m1]. destruct (gens m) eqn:Egm; [done|]. by rewrite Egm.
  - destruct (addRow_spec "ExecutionUnit" eq_refl m1 m2 _ _ Hs Hsd1 (grafted_roomy _ _ _ _ Hg Hs1 Hs2) Ea) as [Hb2 Hf].
    injection H as <- <-.
    assert (Forall (detachable (tree m2)) X) as Hd.
    { apply Forall_forall. intros x Hx. eapply detachable_frame; [exact Hf|apply outside_nil|]. by apply (gr_detach _ _ _ _ Hg (bn_instances _ _ Hb)). }
    destruct (unmount_ok rs X m2 Hpaths (gr_nodup _ _ _ _ Hg) (gr_apart _ _ _ _ Hg) Hd) as (Hf3&Hgone&Hb3).
    split; [|etrans; [|exact Hb3]; exact Hb2].
    apply (frame_gone_all X); [|intros x Hx; split; [by apply (gr_fresh _ _ _ _ Hg)|by apply Hgone]].
    rewrite app_nil_r. eapply frame_then; [exact (gr_frame _ _ _ _ Hg)| |done|apply list_subseteq_nil|done..].
    eapply frame_then; [exact Hf|exact Hf3|apply list_subseteq_nil|done|done|apply list_subseteq_nil].
Qed.
End rows.
