(* ===== verification/ModulesProps.v ===== *)
(** * Installing and removing modules leaves no trace. *)
From Stdlib Require Import ZArith Lia Ascii String.
From S2P Require Import Prelude GoLib GoAuth CpeErr Types Node Tree TreeProps Objects ObjectsProps Listing Graft TreeFrame Generators Sha SoftwareModules ModulesFrame.

Section install.
Context (Quote : string → string) {G : Type} `{HG : GeneratorRunner G} (W : World).
Abbreviation M := (Manager G).
#[local] Existing Instance same_books_refl.
#[local] Existing Instance same_books_trans.
Context (R : segments) (HR : R ≠ []) (HRv : Forall (λ s, valid_segment s = true) R).

(** Nothing else touches the tree while a fetch or a delay lasts. *)
Definition quiet : Prop := (∀ t, while_fetching W t = t) ∧ (∀ t, while_sleeping W t = t).
(** The device, and every module a URL may bring to it. *)
Record site (m : M) : Prop := {
  st_path : at_site R m;
  st_wf : wf_tree (tree m);
  st_object : isLeaf (root (tree m)) = false;
  st_slim : slim (DUT R) (tree m);
  st_modules : ∀ u man, fetch W u = Ok man → benign R (tree m) man ∧ node_at (DUT R) (root (mTree man)) = None
}.

Lemma kind_root_leaf t t' Y X : frame X Y t t' → ([] ∉ X) → isLeaf (root t') = isLeaf (root t).
Proof.
  intros H HX. assert (outside X []) as Ho by (intros x Hx ->%prefix_nil_inv; done).
  pose proof (frame_kind _ _ _ _ _ H Ho) as E. unfold kind_at in E. cbn in E. by injection E.
Qed.
Lemma slim_roomy p t : slim p t → roomy p t.
Proof. intros H tb Hk. specialize (H tb Hk). unfold narrow in H. lia. Qed.

Lemma meanwhile_quiet f (m : M) : (∀ t, f t = t) → meanwhile f m = m.
Proof. intros H. unfold meanwhile. rewrite H. by destruct m. Qed.
Lemma do_fetch_quiet u (m : M) : quiet → do_fetch W u m = (m, fetch W u).
Proof. intros [H _]. unfold do_fetch. by rewrite meanwhile_quiet. Qed.
Lemma sleep_quiet d (m : M) : quiet → sleep W d m = (m, if (d <=? 0)%Z then None else ctx_err W).
Proof. intros [_ H]. unfold sleep. destruct (d <=? 0)%Z; [done|]. by rewrite meanwhile_quiet. Qed.

(** The state between adding the deployment unit's row [k] and removing it:
    only that row and the counters differ from [m0]. *)
Record working (m0 m : M) (k : string) (tmpl : Node) : Prop := {
  wk_books : same_books m0 m;
  wk_table : kind_at (DUT R) (root (tree m0)) = Some (false, Some tmpl);
  wk_instance : is_Some (instance_of k);
  wk_valid : Forall (λ s, valid_segment s = true) (DUT R ++ [k]);
  wk_fresh : gone (DUT R ++ [k]) (tree m0);
  wk_present : is_Some (kind_at (DUT R ++ [k]) (root (tree m)));
  wk_sound : sound (tree m);
  wk_frame : frame [DUT R ++ [k]] (counters (DUT R) ++ counters (EUT R)) (tree m0) (tree m)
}.
Let du k := row_name (DUT R ++ [k]).

Lemma du_ne k : DUT R ++ [k] ≠ [].
Proof. apply snoc_ne. Qed.

Lemma row_added_sound k tmpl t t' : wf_tree t → row_added R "DeploymentUnit" k tmpl t t' → sound t'.
Proof.
  intros Hw Hra q tb Hk. destruct (decide ((DUT R ++ [k]) `prefix_of` q)) as [[r ->]|Hn].
  - unfold kind_at, DUT in Hk. rewrite node_at_app, (ra_node _ _ _ _ _ _ Hra) in Hk. cbn in Hk.
    pose proof (ra_table _ _ _ _ _ _ Hra) as (n&Hnn&_&Ht)%kind_Some.
    pose proof (wf_node_at _ _ _ Hw Hnn) as Hwn. apply wf_node_inv in Hwn as (_&_&Hwt).
    apply (wf_sound (MkTree tmpl (MkObservers 0 ∅)) (Hwt _ Ht) r tb). exact Hk.
  - apply (wf_sound t Hw q tb). rewrite <-(frame_kind _ _ _ _ q (ra_frame _ _ _ _ _ _ Hra)); [done|]. by apply outside_cons; split; [|apply outside_nil].
Qed.

(** *** Steps *)

Lemma working_begins (m0 m : M) k tmpl : site m0 → row_added R "DeploymentUnit" k tmpl (tree m0) (tree m) → same_books m0 m →
  working m0 m k tmpl.
Proof.
  intros Hs Hra Hb. destruct Hra as [H1 H2 H3 H4 H5 H6] eqn:E. constructor; try done.
  - unfold kind_at, DUT. rewrite H5. by eexists.
  - eapply row_added_sound; [apply Hs|exact Hra].
  - eapply frame_mono; [exact H6|done|]. intros x Hx. apply elem_of_app. by left.
Qed.
Lemma working_writes m0 m k tmpl values : working m0 m k tmpl → valid_names values → working m0 (setLeaves (du k) values m) k tmpl.
Proof.
  intros Hw Hv. pose proof (setLeaves_row (DUT R ++ [k]) (du_ne k) (wk_valid _ _ _ _ Hw) values m Hv) as Hf.
  pose proof (setLeaves_frame (DUT R ++ [k]) (du_ne k) (wk_valid _ _ _ _ Hw) values m Hv) as Hf0.
  constructor; try apply Hw.
  - etrans; [apply Hw|apply setLeaves_books].
  - unfold du. rewrite (frame_kind _ _ _ _ _ Hf0 (outside_nil _)). apply Hw.
  - unfold du. intros q tb. rewrite (frame_kind _ _ _ _ _ Hf0 (outside_nil _)). apply (wk_sound _ _ _ _ Hw).
  - etrans; [apply Hw|]. eapply frame_mono; [exact Hf|done|apply list_subseteq_nil].
Qed.
Lemma working_start_failed m0 m m' k tmpl : working m0 m k tmpl → frame [] (counters (EUT R)) (tree m) (tree m') → same_books m m' →
  working m0 m' k tmpl.
Proof.
  intros Hw Hf Hb. constructor; try apply Hw.
  - etrans; [apply Hw|done].
  - rewrite (frame_kind _ _ _ _ _ Hf (outside_nil _)). apply Hw.
  - intros q tb. rewrite (frame_kind _ _ _ _ _ Hf (outside_nil _)). apply (wk_sound _ _ _ _ Hw).
  - etrans; [apply Hw|]. eapply frame_mono; [exact Hf|apply list_subseteq_nil|]. intros x Hx. apply elem_of_app. by right.
Qed.
Lemma working_table m0 m k tmpl : working m0 m k tmpl → kind_at (DUT R) (root (tree m)) = Some (false, Some tmpl).
Proof. intros Hw. rewrite (frame_kind _ _ _ _ _ (wk_frame _ _ _ _ Hw) (row_outside _ _)). apply Hw. Qed.
Lemma working_ends m0 m k tmpl : working m0 m k tmpl →
  let m' := deleteRow (du k) m in
  frame [] (counters (DUT R) ++ counters (EUT R)) (tree m0) (tree m') ∧ same_books m0 m'.
Proof.
  intros Hw. destruct (deleteRow_ok m (DUT R) k tmpl (wk_valid _ _ _ _ Hw) (wk_instance _ _ _ _ Hw) (working_table _ _ _ _ Hw) (wk_present _ _ _ _ Hw)) as (Hf&Hg&Hb).
  split; [|etrans; [apply Hw|exact Hb]]. eapply frame_gone; [|apply Hw|exact Hg].
  etrans; [apply Hw|]. eapply frame_mono; [exact Hf|done|]. intros x Hx. apply elem_of_app. by left.
Qed.

(** The module is still benign while the row is there. *)
Lemma working_benign m0 m k tmpl man : working m0 m k tmpl → benign R (tree m0) man → node_at (DUT R) (root (mTree man)) = None →
  benign R (tree m) man.
Proof.
  intros Hw Hb Hno. destruct Hb as [H1 H2 H3 [H4 H5]]. constructor; [done..| |].
  - intros p n k' Hn Ht Hin. assert (outside [DUT R ++ [k]] p) as Ho.
    { apply outside_cons. split; [|apply outside_nil]. intros [r ->]. rewrite <-!(assoc_L (++)) in Hin.
      apply node_above in Hin. rewrite Hno in Hin. by destruct Hin. }
    pose proof (frame_kind _ _ _ _ _ (wk_frame _ _ _ _ Hw) Ho) as Hk. unfold kind_at in Hk. rewrite Hn in Hk. cbn in Hk.
    destruct (node_at p (root (tree m0))) as [n0|] eqn:En0; [|done]. cbn in Hk. injection Hk as _ Ht0.
    apply (H3 p n0); [done| |done]. by rewrite <-Ht0.
  - split; [|done]. intros tb Hk. assert (outside [DUT R ++ [k]] (EUT R)) as Ho by (by apply (other_table R "DeploymentUnit" "ExecutionUnit" k)).
    rewrite (frame_kind _ _ _ _ _ (wk_frame _ _ _ _ Hw) Ho) in Hk. specialize (H4 tb Hk). unfold narrow in *.
    assert (width (EUT R) (root (tree m)) ≤ width (EUT R) (root (tree m0)))%nat; [|lia]. apply width_mono.
    + rewrite <-(frame_kind _ _ _ _ _ (wk_frame _ _ _ _ Hw) Ho) in Hk. apply kind_Some in Hk as (n&?&?&_). by exists n.
    + intros k'. assert (outside [DUT R ++ [k]] (EUT R ++ [k'])) as Ho'.
      { apply outside_cons. split; [by apply other_row|apply outside_nil]. }
      pose proof (frame_kind _ _ _ _ _ (wk_frame _ _ _ _ Hw) Ho') as E. unfold kind_at in E.
      destruct (node_at (EUT R ++ [k']) (root (tree m))), (node_at (EUT R ++ [k']) (root (tree m0))); try done; by intros [? ?].
Qed.

(** *** Installation *)

Definition both_counters : list segments := counters (DUT R) ++ counters (EUT R).
Definition traceless (m0 m : M) : Prop := frame [] both_counters (tree m0) (tree m) ∧ same_books m0 m.

Definition opening (op : Operation) (ee : string) : list (string * string) :=
  [("UUID", oUUID op); ("Status", DUInstalling); ("Resolved", "false"); ("URL", oURL op); ("ExecutionEnvRef", ref ee)].
Definition closing (eu : string) : list (string * string) :=
  [("Status", DUInstalled); ("Resolved", "true"); ("ExecutionUnitList", ref eu);
   ("Installed", stamp (t_done W)); ("LastUpdate", stamp (t_done W))].
Definition uuid_of (op : Operation) (man : AppManifest) : string :=
  if String.eqb (oUUID op) "" then AppUUID (appVendor (mApp man)) (appName (mApp man)) else oUUID op.

(** What a successful installation was made of. *)
Record installed_as (m0 m' : M) (op : Operation) (ee : string) (man : AppManifest) (k : string) (tmpl : Node)
    (rs : list string) (X : list segments) (t1 : Tree) (k' : string) (tmpl' : Node) (ma mb mc : M) : Prop := {
  in_row : row_added R "DeploymentUnit" k tmpl (tree m0) (tree ma);
  in_books : same_books m0 ma;
  in_leaves : mb = setLeaves (du k) (du_app_leaves (mApp man) ++ [("DUID", appName (mApp man))])
                     (setLeaves (du k) [("UUID", uuid_of op man)] (setLeaves (du k) (opening op ee) ma));
  in_fetched : fetch W (oURL op) = Ok man;
  in_unique : checkManifest Quote (setLeaves (du k) [("UUID", uuid_of op man)] (setLeaves (du k) (opening op ee) ma)) man (uuid_of op man) "" = None;
  in_working : working m0 mb k tmpl;
  in_started : started R man mb mc rs X t1 k' tmpl';
  in_end : let eu := row_name (EUT R ++ [k']) in
    let md := setLeaves (du k) (closing eu) mc in
    m' = syncActiveUnits ee (set_installed (<[du k := MkInstallation (du k) eu ee man (oURL op) rs]> (installed md)) md)
}.

Lemma closing_names eu : valid_names (closing eu).
Proof. repeat constructor. Qed.
Lemma app_names man : valid_names (du_app_leaves (mApp man) ++ [("DUID", appName (mApp man))]).
Proof. repeat constructor. Qed.
Lemma opening_names op ee : valid_names (opening op ee).
Proof. repeat constructor. Qed.

Lemma frame_object Y t t' X : frame X Y t t' → (∀ x, x ∈ X → x ≠ []) → isLeaf (root t) = false → isLeaf (root t') = false.
Proof. intros H HX Hl. rewrite <-Hl. eapply kind_root_leaf; [exact H|]. intros Hin. by apply (HX _ Hin). Qed.
Lemma working_object m0 m k tmpl : working m0 m k tmpl → isLeaf (root (tree m0)) = false → isLeaf (root (tree m)) = false.
Proof. intros Hw. eapply frame_object; [apply Hw|]. intros x ->%list_elem_of_singleton. apply du_ne. Qed.
Lemma working_site m0 m k tmpl : working m0 m k tmpl → site m0 → at_site R m.
Proof. intros Hw Hs. unfold at_site. destruct (wk_books _ _ _ _ Hw) as [-> _]. apply Hs. Qed.

Lemma undone m0 m k tmpl op f m' r : working m0 m k tmpl → undo op (du k) f m = (m', r) → traceless m0 m' ∧ rFault r = Some f.
Proof. intros Hw [= <- <-]. split; [by eapply working_ends|done]. Qed.

Lemma install_manifest_spec op ee man k tmpl (m0 m ma m' : M) r : quiet → site m0 →
  row_added R "DeploymentUnit" k tmpl (tree m0) (tree ma) → same_books m0 ma → fetch W (oURL op) = Ok man →
  m = setLeaves (du k) (opening op ee) ma →
  install_manifest Quote W op ee (du k) man m = (m', r) →
  (is_Some (rFault r) ∧ traceless m0 m') ∨
  (∃ rs X t1 k' tmpl' mb mc, installed_as m0 m' op ee man k tmpl rs X t1 k' tmpl' ma mb mc ∧
     r = unit_result (uuid_of op man) (ref (du k)) (appVersion (mApp man)) DUInstalled true [ref (row_name (EUT R ++ [k']))]).
Proof.
  intros Hq Hs Hra Hb Hfetch Em. unfold install_manifest. fold (uuid_of op man). subst m.
  pose proof (working_begins m0 ma k tmpl Hs Hra Hb) as Hw0. pose proof (working_writes _ _ _ _ _ Hw0 (opening_names op ee)) as Hw.
  set (m1 := setLeaves (du k) [("UUID", uuid_of op man)] (setLeaves (du k) (opening op ee) ma)). assert (working m0 m1 k tmpl) as Hw1 by (apply working_writes; [done|repeat constructor]).
  destruct (checkManifest Quote m1 man (uuid_of op man) "") as [f|] eqn:Ec.
  { destruct (undo op (du k) f m1) as [m2 r2] eqn:Eu. destruct (undone _ _ _ _ _ _ _ _ Hw1 Eu) as [Ht _].
    intros [= <- <-]. left. split; [|done]. unfold undo in Eu. injection Eu as _ <-. by eexists. }
  set (m2 := setLeaves (du k) _ m1). assert (working m0 m2 k tmpl) as Hw2 by (apply working_writes; [done|apply app_names]).
  rewrite sleep_quiet by done. destruct (if (InstallDelay (cfg m2) <=? 0)%Z then None else ctx_err W) as [e|] eqn:Es.
  { match goal with |- context [undo op (du k) ?f m2] => set (ff := f) end.
    destruct (undo op (du k) ff m2) as [m3 r3] eqn:Eu. destruct (undone _ _ _ _ _ _ _ _ Hw2 Eu) as [Ht _].
    intros [= <- <-]. left. split; [|done]. unfold undo in Eu. injection Eu as _ <-. by eexists. }
  destruct (st_modules _ Hs _ _ Hfetch) as [Hben Hno].
  destruct (start Quote (t_start W) man ee m2) as [m3 res] eqn:Est.
  pose proof (start_spec Quote R HR HRv _ _ _ m2 m3 res (working_site _ _ _ _ Hw2 Hs) (working_object _ _ _ _ Hw2 (st_object _ Hs))
    (wk_sound _ _ _ _ Hw2) (working_benign _ _ _ _ _ Hw2 Hben Hno) Est) as Hst.
  destruct res as [[rs eu]|f].
  - destruct Hst as (X&t1&k'&tmpl'&->&Hsd). intros [= <- <-]. right. exists rs, X, t1, k', tmpl', m2, m3. split; [|done]. by constructor.
  - destruct Hst as [Hf Hb3]. pose proof (working_start_failed _ _ _ _ _ Hw2 Hf Hb3) as Hw3.
    destruct (undo op (du k) f m3) as [m4 r4] eqn:Eu. destruct (undone _ _ _ _ _ _ _ _ Hw3 Eu) as [Ht _].
    intros [= <- <-]. left. split; [|done]. unfold undo in Eu. injection Eu as _ <-. by eexists.
Qed.

Lemma traceless_refl (m : M) : traceless m m.
Proof. split; done. Qed.

Lemma install_spec op (m m' : M) r : quiet → site m → install Quote W op m = (m', r) →
  (is_Some (rFault r) ∧ traceless m m') ∨
  (∃ ee man k tmpl rs X t1 k' tmpl' ma mb mc, installed_as m m' op ee man k tmpl rs X t1 k' tmpl' ma mb mc ∧
     execEnv Quote m (oExecutionEnvRef op) = Ok ee ∧
     r = unit_result (uuid_of op man) (ref (du k)) (appVersion (mApp man)) DUInstalled true [ref (row_name (EUT R ++ [k']))]).
Proof.
  intros Hq Hs. unfold install.
  destruct (checkInstallArgs Quote op) as [f|]; [intros [= <- <-]; left; split; [by eexists|apply traceless_refl]|].
  destruct (execEnv Quote m (oExecutionEnvRef op)) as [ee|f] eqn:Ee; [|intros [= <- <-]; left; split; [by eexists|apply traceless_refl]].
  destruct (addRow Quote SoftwareModulesDeploymentUnitTable requiredDULeaves m) as [m1 res] eqn:Ea.
  destruct (addRow_spec Quote R HR HRv "DeploymentUnit" eq_refl m m1 _ _ (st_path _ Hs) (wf_sound _ (st_wf _ Hs)) (slim_roomy _ _ (st_slim _ Hs)) Ea) as [Hb Ht].
  destruct res as [path|f].
  2:{ intros [= <- <-]. left. split; [by eexists|]. split; [|done]. eapply frame_mono; [exact Ht|done|]. intros x Hx. apply elem_of_app. by left. }
  destruct Ht as (k&tmpl&->&Hra). fold (opening op ee). change (row_name ((R ++ ["DeploymentUnit"]) ++ [k])) with (du k).
  rewrite do_fetch_quiet by done. destruct (fetch W (oURL op)) as [man|f] eqn:Ef.
  2:{ intros H. destruct (undone _ _ _ _ _ _ _ _ (working_writes _ _ _ _ _ (working_begins _ _ _ _ Hs Hra Hb) (opening_names op ee)) H) as [Ht Er].
      left. split; [rewrite Er; by eexists|done]. }
  intros H. destruct (install_manifest_spec op ee man k tmpl m (setLeaves (du k) (opening op ee) m1) m1 m' r Hq Hs Hra Hb Ef eq_refl H) as [?|Hok]; [by left|right].
  destruct Hok as (rs&X&t1&k'&tmpl'&mb&mc&Hin&Er). by exists ee, man, k, tmpl, rs, X, t1, k', tmpl', m1, mb, mc.
Qed.
End install.

(** C30. A failed installation leaves no unit behind. Take a device nothing else
    writes to meanwhile, whose tree is well typed and has room in its tables,
    and modules whose data models are well typed and neither add an instance to
    a table of the device nor reach into its table of deployment units.
    Whatever went wrong (the arguments, the environment, the row, the fetch, an
    injected fault, a duplicate, a delay cut short, a data model that does not
    fit, an execution unit that cannot be added), the result says failed, the
    inventory and the generators are as before, no node of the tree appeared or
    disappeared, and no leaf changed its value but the row counters of the two
    tables, which are rewritten; attributes are not compared. *)
Theorem failed_install_no_trace (Quote : string → string) {G : Type} `{HG : GeneratorRunner G} (W : World) (R : segments)
  (m m' : Manager G) (op : Operation) (r : Result) (f : Fault)
  (HR : R ≠ []) (HRv : Forall (λ s, valid_segment s = true) R) (Hq : quiet W) (Hs : site W R m)
  (Hop : oKind op = Install) (H : Run Quote W op m = (m', r)) (Hf : rFault r = Some f) :
  installed m' = installed m ∧ gens m' = gens m ∧ rState r = DUFailed ∧
  ∀ q, kind_at q (root (tree m')) = kind_at q (root (tree m)) ∧
       ((q ∉ both_counters R) → view (tree m') q = view (tree m) q).
Proof.
  unfold Run in H. rewrite Hop in H. destruct (install Quote W op m) as [m1 r1] eqn:E. injection H as <- <-. cbn in Hf.
  destruct (install_spec Quote W R HR HRv op m m1 r1 Hq Hs E) as [[[f' Hf'] [Hfr (Hc&Hi&Hg)]]|(ee&man&k&tmpl&rs&X&t1&k'&tmpl'&ma&mb&mc&_&_&->)]; [|done].
  rewrite Hf'. split_and!; [done..|]. intros q. apply Hfr. apply outside_nil.
Qed.

(** ** A device to try it on *)

#[export] Instance unit_runner : GeneratorRunner unit := { AddConfig := λ _ g, Ok g; Remove := λ _ g, g }.
Definition str_leaf (s : string) : Node := NewLeaf (MkValue TypeString s false).
Definition obj (l : list (string * Node)) : Node := MkNode (list_to_map l) None None None.
Definition ex_device : Tree :=
  MkTree (obj [("SM", obj [
    ("ExecEnv", MkNode (list_to_map [("1", obj [("Enable", str_leaf "true"); ("Status", str_leaf "Up"); ("ActiveExecutionUnits", str_leaf "")])])
                  None None (Some NewBranch));
    ("DeploymentUnit", NewTable (obj [("UUID", str_leaf ""); ("Name", str_leaf ""); ("Status", str_leaf ""); ("Version", str_leaf "");
                                      ("URL", str_leaf ""); ("ExecutionUnitList", str_leaf "")]));
    ("ExecutionUnit", NewTable (obj [("Name", str_leaf ""); ("Status", str_leaf ""); ("References", str_leaf "")]));
    ("DeploymentUnitNumberOfEntries", NewLeaf (MkValue TypeUnsignedInt "0" false))]);
    ("Used", str_leaf "")]) (MkObservers 1 {[0]}).
(** A module whose model takes a path the device uses, and one that does not. *)
Definition ex_app (version : string) (path : string) : AppManifest :=
  MkManifest (MkApp "hub" version "Acme" "" "hub-eu") (MkTree (obj [(path, str_leaf version)]) (MkObservers 0 ∅)) [].
Definition ex_world (man : AppManifest) (cut : option string) : World := MkWorld (λ _, Ok man) cut id id 0 0 0 0 0.
Definition ex_manager : Manager unit := MkManager (MkConfig "SM." 5 1 ∅) ex_device (Some tt) ∅ [].
Definition ex_quote (s : string) : string := quoted s.

(** No node is named like a table's instance. *)
Fixpoint numberless (n : Node) : bool :=
  match n with
  | MkNode ch _ _ _ => forallb (λ '(k, b), match instance_of k with Some _ => false | None => b end) (map_to_list (numberless <$> ch))
  end.
Lemma numberless_at p k n : numberless n = true → is_Some (node_at (p ++ [k]) n) → instance_of k = None.
Proof.
  revert n. induction p as [|s p IH]; intros [ch lf a tb] Hn Hk; cbn [numberless] in Hn; rewrite forallb_forall in Hn.
  - cbn in Hk. destruct (isLeaf _); [by destruct Hk|]. destruct (ch !! k) as [c|] eqn:Ec; [|by destruct Hk].
    specialize (Hn (k, numberless c)). cbn in Hn. destruct (instance_of k); [|done]. discriminate Hn.
    apply list_elem_of_In, elem_of_map_to_list. by rewrite lookup_fmap, Ec.
  - cbn in Hk. destruct (isLeaf _); [by destruct Hk|]. destruct (ch !! s) as [c|] eqn:Ec; [|by destruct Hk]. cbn in Hk.
    apply (IH c); [|done]. specialize (Hn (s, numberless c)). cbn in Hn. destruct (instance_of s); [discriminate Hn|apply Hn];
      apply list_elem_of_In, elem_of_map_to_list; by rewrite lookup_fmap, Ec.
Qed.
Lemma numberless_no_instances t o : numberless (root o) = true → no_instances t o.
Proof. intros H p n k _ _. by apply numberless_at. Qed.

Lemma ex_app_tree version path : mTree (ex_app version path) = MkTree (obj [(path, str_leaf version)]) (MkObservers 0 ∅).
Proof. done. Qed.
Lemma ex_site_gen man cut : wf_nodeb (root (mTree man)) = true → isLeaf (root (mTree man)) = false →
  numberless (root (mTree man)) = true → bool_decide (width ["SM"; "ExecutionUnit"] (root (mTree man)) = 0) = true →
  node_at ["SM"; "DeploymentUnit"] (root (mTree man)) = None → site (ex_world man cut) ["SM"] ex_manager.
Proof.
  intros Hw Hl Hn Hwd Hno. apply bool_decide_eq_true in Hwd. constructor.
  - reflexivity.
  - apply wf_nodeb_sound. vm_compute. reflexivity.
  - reflexivity.
  - intros tb _. unfold narrow. assert (width (DUT ["SM"]) (root (tree ex_manager)) = 0%nat) as -> by (vm_compute; reflexivity). done.
  - intros u man' [= <-]. split; [|done]. constructor; [by apply wf_nodeb_sound|done|by apply numberless_no_instances|]. split.
    + intros tb _. unfold narrow. assert (width (EUT ["SM"]) (root (tree ex_manager)) = 0%nat) as -> by (vm_compute; reflexivity). done.
    + unfold narrow. change (EUT ["SM"]) with ["SM"; "ExecutionUnit"]. rewrite Hwd. done.
Qed.
Definition ex_install : Operation := MkOperation Install "http://apps/hub" "" "" "".

Lemma ex_taken_run : rFault (Run ex_quote (ex_world (ex_app "1.0" "Used") None) ex_install ex_manager).2 =
  Some (MkFault ReasonMismatch ("data model cannot be added: paramtree.Graft: invalid_argument: path " +:+ quoted "Used" +:+ " already exists")).
Proof. vm_compute. reflexivity. Qed.
Lemma failed_install_no_trace_witness :
  let res := Run ex_quote (ex_world (ex_app "1.0" "Used") None) ex_install ex_manager in
  installed res.1 = ∅ ∧ gens res.1 = Some tt ∧ rState res.2 = DUFailed ∧
  ∀ q, kind_at q (root (tree res.1)) = kind_at q (root ex_device) ∧
       ((q ∉ both_counters ["SM"]) → view (tree res.1) q = view ex_device q).
Proof.
  exact (failed_install_no_trace ex_quote (ex_world (ex_app "1.0" "Used") None) ["SM"] ex_manager
    (Run ex_quote (ex_world (ex_app "1.0" "Used") None) ex_install ex_manager).1 ex_install
    (Run ex_quote (ex_world (ex_app "1.0" "Used") None) ex_install ex_manager).2 _
    ltac:(done) ltac:(repeat constructor) (conj (λ t, eq_refl) (λ t, eq_refl))
    (ex_site_gen (ex_app "1.0" "Used") None ltac:(vm_compute; reflexivity) ltac:(vm_compute; reflexivity) ltac:(vm_compute; reflexivity) ltac:(vm_compute; reflexivity) ltac:(vm_compute; reflexivity))
    eq_refl (surjective_pairing _) ex_taken_run).
Defined.
