(* ===== verification/ModulesRoundtrip.v ===== *)
(** * Uninstalling a module takes out exactly what its installation put in. *)
From Stdlib Require Import ZArith Lia Ascii String.
From S2P Require Import Prelude GoLib GoText GoAuth CpeErr Types Node Tree TreeProps Objects ObjectsProps Listing Graft TreeFrame Generators Sha SoftwareModules ModulesFrame ModulesProps.

Lemma is_hex_ascii c : is_hex c = true → between 0 127 c = true.
Proof.
  unfold is_hex, is_digit, GoLib.in_range, byte_le, between, byte_of. rewrite !orb_true_iff, !andb_true_iff, !N.leb_le.
  change (N_of_ascii "9") with 57%N. change (N_of_ascii "f") with 102%N. change (N_of_ascii "F") with 70%N. lia.
Qed.
Lemma uuid_utf8 s : uuid_matches s = true → Utf8.ValidString s = true.
Proof.
  intros H. apply Utf8.ValidString_ascii. rewrite <-(Strings.Join_Split s "-"). unfold uuid_matches in H.
  destruct (Strings.Split s "-") as [|a [|b [|c [|d [|e [|]]]]]]; try discriminate H.
  apply andb_true_iff in H as [_ H]. cbn [forallb] in H. rewrite !andb_true_iff in H. destruct H as (Ha&Hb&Hc&Hd&He&_).
  assert (∀ x, str_forall is_hex x = true → str_forall (between 0 127) x = true) as Hx by (intros x; apply str_forall_impl, is_hex_ascii).
  cbn [Strings.Join]. rewrite !str_forall_app, (Hx a Ha), (Hx b Hb), (Hx c Hc), (Hx d Hd), (Hx e He). done.
Qed.

Lemma valid_string raw : Utf8.ValidString raw = true → valid_raw TypeString raw = true.
Proof. intros H. rewrite valid_raw_unfold. change (typeFns_validate TypeString) with (Some validateString). cbn iota beta. unfold validateString. by rewrite H. Qed.

Section roundtrip.
Context (Quote : string → string) {G : Type} `{HG : GeneratorRunner G} (W : World).
Abbreviation M := (Manager G).
#[local] Existing Instance same_books_refl.
#[local] Existing Instance same_books_trans.
Context (R : segments) (HR : R ≠ []) (HRv : Forall (λ s, valid_segment s = true) R).
Let du k := row_name (DUT R ++ [k]).
Let eu k := row_name (EUT R ++ [k]).

(** The device's tables are there, its rows are objects, and the two leaves
    of a deployment unit the manager reads back take any text. *)
Record equipped (m : M) : Prop := {
  eq_units : is_Some (kind_at (EUT R) (root (tree m)));
  eq_envs : ∀ k c, node_at (EET R ++ [k]) (root (tree m)) = Some c → isLeaf c = false;
  eq_leaves : ∀ tmpl leaf, kind_at (DUT R) (root (tree m)) = Some (false, Some tmpl) → leaf ∈ ["UUID"; "Status"] →
    ∃ v, leaf_at [leaf] tmpl = Some v ∧ vType v = TypeString;
  eq_books : ∀ key i, installed m !! key = Some i → duPath i = key ∧ ∃ k, key = du k ∧ Forall (λ s, valid_segment s = true) (DUT R ++ [k])
}.

(** *** The environment's row *)

Lemma execEnv_row (m : M) r ee : at_site R m → wf_tree (tree m) → (∀ k c, node_at (EET R ++ [k]) (root (tree m)) = Some c → isLeaf c = false) →
  execEnv Quote m r = Ok ee → ∃ k, ee = row_name (EET R ++ [k]) ∧ Forall (λ s, valid_segment s = true) (EET R ++ [k]).
Proof.
  intros Hs Hw Hobj. unfold execEnv. change SoftwareModulesExecEnvTable with ("ExecEnv" +:+ "."). rewrite (table_name R HR m "ExecEnv" Hs). fold (EET R).
  pose proof (row_parses _ (table_valid R HRv "ExecEnv" eq_refl)) as Hp. fold (EET R) in Hp.
  destruct (node_at (EET R) (root (tree m))) as [n|] eqn:En.
  2:{ unfold Children. rewrite Hp. cbn [mbind result_bind]. apply lookup_err in En as [e En]. rewrite En. done. }
  pose proof (Children_lists (tree m) (row_name (EET R)) (EET R) n Hp En) as Hc. destruct (isLeaf n) eqn:Hl; [destruct Hc as (e&->&_); done|].
  destruct Hc as (l&->&El&_&Hk). destruct l as [|e l]; [done|]. intros H. apply result_bind_ok in H as (path&Hpath&H).
  assert (path ∈ (ciName <$> e :: l)) as Hin.
  { destruct (String.eqb r ""); [injection Hpath as <-; left|].
    destruct (bool_decide_reflect ((Strings.TrimSuffix r "." +:+ ".") ∈ (ciName <$> e :: l))) as [Hin|]; [|done]. injection Hpath as <-. exact Hin. }
  assert (ee = path) as ->. { destruct (reads_other _ (_ +:+ "Enable") _); [done|]. destruct (reads_other _ _ _); [done|]. by injection H as <-. }
  rewrite El in Hin. apply list_elem_of_fmap in Hin as (ci&->&Hin). apply list_elem_of_fmap in Hin as (k&->&Hin). apply Hk in Hin as [c Hc].
  assert (node_at (EET R ++ [k]) (root (tree m)) = Some c) as Hnode by (rewrite (child_node _ _ _ _ En Hl); done).
  exists k. rewrite Hc. unfold child_info. cbn. specialize (Hobj k c Hnode). apply isLeaf_false in Hobj. rewrite Hobj. cbn. split; [done|].
  apply Forall_app. split; [by apply table_valid|]. repeat constructor. by apply (wf_node_inv _ (wf_node_at _ _ _ Hw En)) in Hc as [? _].
Qed.

Definition active_leaf (k : string) : segments := (EET R ++ [k]) ++ ["ActiveExecutionUnits"].
Lemma sync_frame_active k (m : M) : Forall (λ s, valid_segment s = true) (EET R ++ [k]) →
  frame [] [active_leaf k] (tree m) (tree (syncActiveUnits (row_name (EET R ++ [k])) m)).
Proof. intros Hv. unfold syncActiveUnits. eapply (setLeaves_frame (EET R ++ [k])); [apply snoc_ne|done|]. repeat constructor. Qed.
Lemma sync_books ee (m : M) : same_books m (syncActiveUnits ee m).
Proof. apply setLeaves_books. Qed.

(** *** Where the grafted roots are *)

Lemma in_tables (a b : string) k r : a ≠ b → outside [(R ++ [a]) ++ [k]] ((R ++ [b]) ++ r).
Proof.
  intros Hab. apply outside_cons. split; [|apply outside_nil]. intros [r' E]. rewrite <-!(assoc_L (++)) in E.
  apply app_inv_head in E. injection E as E _. done.
Qed.
Lemma other_child T k k' r : k ≠ k' → outside [T ++ [k]] (T ++ k' :: r).
Proof.
  intros Hk. apply outside_cons. split; [|apply outside_nil]. intros [r' E]. rewrite <-!(assoc_L (++)) in E. apply app_inv_head in E. injection E as E _. done.
Qed.
Lemma roots_off_table (t o t' : Tree) X : grafted t o t' X → is_Some (kind_at (DUT R) (root t)) → node_at (DUT R) (root o) = None →
  ∀ r, outside X (DUT R ++ r).
Proof.
  intros Hg [kd Hk] Hno r x Hx Hp. destruct (prefix_weak_total x (DUT R) (DUT R ++ r)) as [H|[r' ->]]; [done|by exists r| |].
  - rewrite (gr_fresh _ _ _ _ Hg x Hx (DUT R) H) in Hk. done.
  - pose proof (gr_some _ _ _ _ Hg _ Hx) as Hs. apply node_above in Hs. rewrite Hno in Hs. by destruct Hs.
Qed.
Lemma roots_off_row (t o t' : Tree) X k : grafted t o t' X → is_Some (kind_at (EUT R) (root t)) → gone (EUT R ++ [k]) t' →
  outside X (EUT R ++ [k]) ∧ ∀ x, x ∈ X → outside [EUT R ++ [k]] x.
Proof.
  intros Hg [kd Hk] Hgone. assert (∀ x, x ∈ X → is_Some (kind_at x (root t'))) as Hthere.
  { intros x Hx. unfold kind_at. rewrite (gr_inside _ _ _ _ Hg x x Hx) by done. by destruct (gr_some _ _ _ _ Hg x Hx) as [n ->]. }
  split.
  - intros x Hx Hp. apply prefix_snoc_inv in Hp as [->|Hp].
    + destruct (Hthere _ Hx) as [? H]. by rewrite (Hgone _ (reflexivity _)) in H.
    + by rewrite (gr_fresh _ _ _ _ Hg x Hx _ Hp) in Hk.
  - intros x Hx. apply outside_cons. split; [|apply outside_nil]. intros Hp. destruct (Hthere _ Hx) as [? H]. by rewrite (Hgone _ Hp) in H.
Qed.

(** *** What the manager reads back *)

Lemma Get_row t p leaf : p ≠ [] → Forall (λ s, valid_segment s = true) p → valid_segment leaf = true →
  match view t (p ++ [leaf]) with
  | Some v => Get t (row_name p +:+ leaf) = Ok v
  | None => ∃ e, Get t (row_name p +:+ leaf) = Err e
  end.
Proof.
  intros Hp Hv Hl. pose proof (leaf_path p Hp Hv leaf Hl) as Hpath. destruct (view t (p ++ [leaf])) as [v|] eqn:E.
  - apply Get_view. by exists (p ++ [leaf]).
  - destruct (Get t (row_name p +:+ leaf)) as [v|e] eqn:Eg; [|by exists e]. apply Get_view in Eg as (q&Eq&Ev). congruence.
Qed.
Lemma reads_uuid_view t p u : p ≠ [] → Forall (λ s, valid_segment s = true) p →
  reads_uuid t (row_name p) u = match view t (p ++ ["UUID"]) with Some v => EqualFold (Raw v) u | None => false end.
Proof.
  intros Hp Hv. unfold reads_uuid. pose proof (Get_row t p "UUID" Hp Hv eq_refl) as H.
  destruct (view t (p ++ ["UUID"])) as [v|]; [by rewrite H|]. by destruct H as [e ->].
Qed.
Lemma EqualFold_refl s : EqualFold s s = true.
Proof. unfold EqualFold. apply String.eqb_refl. Qed.

Lemma row_name_ne p : row_name p ≠ "".
Proof. unfold row_name. intros E. apply (f_equal String.length) in E. rewrite str_length_app in E. cbn in E. lia. Qed.

Lemma checkManifest_none (m : M) man uuid key i : checkManifest Quote m man uuid "" = None → installed m !! key = Some i → key ≠ "" →
  reads_uuid (tree m) key uuid = false.
Proof.
  unfold checkManifest. destruct (Faults (cfg m) !! _); [done|].
  destruct (filter _ _) as [|[path i'] rest] eqn:E; [|done]. intros _ Hi Hne. destruct (reads_uuid (tree m) key uuid) eqn:Er; [|done].
  exfalso. apply (not_elem_of_nil (key, i)). rewrite <-E. apply list_elem_of_filter. split; [done|]. by apply elem_of_map_to_list.
Qed.

Lemma findLocked_one (m : M) uuid key i : installed m !! key = Some i →
  reads_uuid (tree m) (duPath i) uuid = true →
  (∀ key' i', installed m !! key' = Some i' → key' ≠ key → reads_uuid (tree m) (duPath i') uuid = false) →
  findLocked Quote m uuid "" = Ok i.
Proof.
  intros Hi Hr Hothers. unfold findLocked.
  assert (filter (λ i, inst_matches (tree m) uuid "" i = true) (installations m) = [i]) as ->; [|done].
  apply Permutation_singleton_r. unfold installations. rewrite <-(insert_delete_id (installed m) key i Hi).
  rewrite map_to_list_insert by apply lookup_delete_eq. cbn [fmap list_fmap]. rewrite filter_cons_True.
  2:{ cbn. unfold inst_matches. by rewrite Hr, orb_true_r. }
  assert (filter (λ i, inst_matches (tree m) uuid "" i = true) (map_to_list (delete key (installed m))).*2 = []) as ->; [|done].
  apply filter_none, Forall_forall. intros i' ([key' i'']&->&Hin)%list_elem_of_fmap. apply elem_of_map_to_list, lookup_delete_Some in Hin as [Hne Hin].
  unfold inst_matches. cbn. rewrite (Hothers key' i'') by done. by rewrite andb_false_r.
Qed.

(** *** At rest between the two operations *)

Section pair.
Context (k k' e : string) (tmpl tmpl' : Node) (X : list segments) (rs : list string) (man : AppManifest) (u : string).
Let DU := DUT R ++ [k].
Let EU := EUT R ++ [k'].
Definition touched : list segments := DU :: EU :: X.
Definition leaves_behind : list segments := both_counters R ++ [active_leaf e].
Definition unit_of : installation := MkInstallation (du k) (eu k') (row_name (EET R ++ [e])) man u rs.

(** The module is installed on [m], on what was [m0]. *)
Record resting (m0 m : M) : Prop := {
  rg_valid : Forall (λ s, valid_segment s = true) DU ∧ Forall (λ s, valid_segment s = true) EU ∧ Forall (λ s, valid_segment s = true) (EET R ++ [e]);
  rg_instance : is_Some (instance_of k) ∧ is_Some (instance_of k');
  rg_paths : Forall2 (λ path x, parsePath path = Ok x) rs X ∧ NoDup X ∧ apart X ∧ Forall (detachable (tree m)) X;
  rg_rows : kind_at (DUT R) (root (tree m)) = Some (false, Some tmpl) ∧ is_Some (kind_at DU (root (tree m))) ∧
            kind_at (EUT R) (root (tree m)) = Some (false, Some tmpl') ∧ is_Some (kind_at EU (root (tree m)));
  rg_off : (∀ r, outside X (DUT R ++ r)) ∧ outside X EU ∧ ∀ x, x ∈ X → outside [EU] x ∧ outside [DU] x;
  rg_fresh : ∀ x, x ∈ touched → gone x (tree m0);
  rg_frame : frame touched leaves_behind (tree m0) (tree m)
}.

Lemma DU_ne : DU ≠ []. Proof. apply snoc_ne. Qed.
Lemma EU_ne : EU ≠ []. Proof. apply snoc_ne. Qed.
Lemma DU_off_EU : outside [EU] DU ∧ outside [DU] EU.
Proof. split; by apply in_tables. Qed.
Lemma above_outside Y x y : outside Y (x ++ [y]) → outside Y x.
Proof. intros H z Hz Hp. apply (H z Hz). etrans; [done|]. by exists [y]. Qed.

Lemma remove_generators_gens l (m m1 : M) : gens m1 = gens m → gens (remove_generators l m1) = gens (remove_generators l m).
Proof. intros E. unfold remove_generators. rewrite E. destruct (gens m) eqn:Eg; [done|congruence]. Qed.
Lemma stop_books i path (m : M) : let m2 := deleteRow path (stop i m) in
  cfg m2 = cfg m ∧ installed m2 = installed m ∧ gens m2 = gens (remove_generators (mGenerators (manifest i)) m).
Proof.
  cbv zeta. unfold stop. set (ma := setLeaves _ [("Status", EUStopping)] m). set (mb := remove_generators _ ma). set (mc := unmount _ mb).
  set (md := setLeaves _ _ mc). destruct (deleteRow_eq path md) as [_ (D1&D2&D3)].
  pose proof (setLeaves_books (euPath i) [("Status", EUStopping)] m) as (A1&A2&A3). fold ma in A1, A2, A3.
  destruct (remove_generators_books (mGenerators (manifest i)) ma) as (_&B1&B2). fold mb in B1, B2.
  destruct (unmount_eq (roots i) mb) as [_ (C1&C2&C3)]. fold mc in C1, C2, C3.
  pose proof (setLeaves_books (euPath i) [("Status", EUIdle); ("References", "")] mc) as (E1&E2&E3). fold md in E1, E2, E3.
  split_and!; [congruence..|]. rewrite D3, E3, C3. by apply remove_generators_gens.
Qed.

(** [stop] and the deletion of the execution unit's row. *)
Lemma stop_frame (m0 m : M) : resting m0 m → ∀ m1, frame [DU] [] (tree m) (tree m1) → (∃ Z, frame [] Z (tree m) (tree m1)) →
  let m2 := deleteRow (eu k') (stop unit_of m1) in
  frame touched leaves_behind (tree m) (tree m2) ∧ (∀ x, x ∈ EU :: X → gone x (tree m2)) ∧
  frame (EU :: X) (counters (EUT R)) (tree m1) (tree m2).
Proof.
  intros Hr m1 Hf1 [Z1 HZ1] m2. destruct (rg_valid _ _ Hr) as (V1&V2&V3). destruct (rg_instance _ _ Hr) as [I1 I2].
  destruct (rg_paths _ _ Hr) as (P1&P2&P3&P4). destruct (rg_rows _ _ Hr) as (K1&K2&K3&K4). destruct (rg_off _ _ Hr) as (O1&O2&O3).
  set (ma := setLeaves (eu k') [("Status", EUStopping)] m1). set (mb := remove_generators (mGenerators man) ma).
  set (mc := unmount rs mb). set (md := setLeaves (eu k') [("Status", EUIdle); ("References", "")] mc).
  assert (m2 = deleteRow (eu k') md) as Em2 by done.
  pose proof (setLeaves_row EU EU_ne V2 [("Status", EUStopping)] m1 ltac:(repeat constructor)) as Fa. change (setLeaves _ _ m1) with ma in Fa.
  pose proof (setLeaves_frame EU EU_ne V2 [("Status", EUStopping)] m1 ltac:(repeat constructor)) as Za. change (setLeaves _ _ m1) with ma in Za.
  destruct (remove_generators_books (mGenerators man) ma) as (Eb&Cb&Ib). fold mb in Eb, Cb, Ib.
  assert (Forall (detachable (tree mb)) X) as Hd.
  { rewrite Eb. rewrite Forall_forall in P4 |- *. intros x Hx. eapply detachable_frame; [exact Za|apply outside_nil|].
    eapply detachable_frame; [exact HZ1|apply outside_nil|]. by apply P4. }
  destruct (unmount_ok rs X mb P1 P2 P3 Hd) as (Fc&Gc&Bc). fold mc in Fc, Gc, Bc.
  pose proof (setLeaves_row EU EU_ne V2 [("Status", EUIdle); ("References", "")] mc ltac:(repeat constructor)) as Fd. change (setLeaves _ _ mc) with md in Fd.
  pose proof (setLeaves_frame EU EU_ne V2 [("Status", EUIdle); ("References", "")] mc ltac:(repeat constructor)) as Zd. change (setLeaves _ _ mc) with md in Zd.
  assert (∀ q, outside X q → kind_at q (root (tree md)) = kind_at q (root (tree m))) as Hk.
  { intros q Hq. rewrite (frame_kind _ _ _ _ _ Zd (outside_nil _)), (frame_kind _ _ _ _ _ Fc Hq), Eb.
    by rewrite (frame_kind _ _ _ _ _ Za (outside_nil _)), (frame_kind _ _ _ _ _ HZ1 (outside_nil _)). }
  destruct (deleteRow_ok md (EUT R) k' tmpl' V2 I2) as (Fe&Ge&Be); [rewrite Hk; [done|by eapply above_outside]|by rewrite Hk|].
  change (deleteRow _ md) with m2 in Fe, Ge, Be.
  assert (frame (EU :: X) (counters (EUT R)) (tree m1) (tree m2)) as Fall.
  { assert (frame (EU :: X) [] (tree m1) (tree md)) as H1.
    { etrans; [eapply frame_mono; [exact Fa|apply sub_head|done]|]. rewrite <-Eb.
      etrans; [eapply frame_mono; [exact Fc|apply sub_tail|done]|]. eapply frame_mono; [exact Fd|apply sub_head|done]. }
    eapply frame_then; [exact H1|exact Fe|done|apply list_subseteq_nil|apply sub_head|done]. }
  split_and!.
  - eapply frame_then; [exact Hf1|exact Fall|apply sub_head|apply list_subseteq_nil|apply sub_tail|].
    intros x Hx. unfold leaves_behind, both_counters. rewrite !elem_of_app. by left; right.
  - intros x [->|Hx]%elem_of_cons; [done|]. eapply frame_still_gone; [exact Fe|by apply O3|].
    eapply frame_still_gone; [exact Zd|apply outside_nil|by apply Gc].
  - done.
Qed.

Lemma frame_touched_mono Y Y' t t' (H : frame [DU] Y t t') : Y ⊆ Y' → frame touched Y' t t'.
Proof. intros HY. eapply frame_mono; [exact H|apply sub_head|done]. Qed.

Lemma uninstall_resting (m0 m m' : M) uuid r : quiet W → resting m0 m →
  findLocked Quote m uuid "" = Ok unit_of → reads_other (tree m) (du k +:+ "Status") [DUInstalled] = None →
  uninstall Quote W (MkOperation Uninstall "" uuid "" "") m = (m', r) →
  frame [] leaves_behind (tree m0) (tree m') ∧ installed m' = delete (du k) (installed m) ∧
  gens m' = gens (remove_generators (mGenerators man) m) ∧ r = unit_result uuid "" (appVersion (mApp man)) DUUninstalled false [].
Proof.
  intros Hq Hr Hfind Hst. unfold uninstall. cbn [oUUID oVersion oExecutionEnvRef]. rewrite Hfind. cbn [String.eqb negb andb].
  unfold not_installed. change (duPath unit_of) with (du k). rewrite Hst. cbn [mbind option_bind].
  destruct (rg_valid _ _ Hr) as (V1&V2&V3). destruct (rg_instance _ _ Hr) as [I1 I2]. destruct (rg_rows _ _ Hr) as (K1&K2&K3&K4).
  destruct (rg_off _ _ Hr) as (O1&O2&O3). destruct DU_off_EU as [OE OD].
  change (eePath unit_of) with (row_name (EET R ++ [e])). change (euPath unit_of) with (eu k').
  set (m1 := setLeaves (du k) [("Status", DUUninstalling)] m).
  pose proof (setLeaves_row DU DU_ne V1 [("Status", DUUninstalling)] m ltac:(repeat constructor)) as F1.
  pose proof (setLeaves_frame DU DU_ne V1 [("Status", DUUninstalling)] m ltac:(repeat constructor)) as Z1.
  destruct (stop_frame m0 m Hr m1 F1 ltac:(by eexists)) as (F2&G2&F12). set (m2 := deleteRow (eu k') (stop unit_of m1)) in *.
  destruct (stop_books unit_of (eu k') m1) as (B1&B2&B3). fold m2 in B1, B2, B3.
  pose proof (sync_frame_active e m2 V3) as F3. set (m3 := syncActiveUnits (row_name (EET R ++ [e])) m2) in *.
  destruct (sync_books (row_name (EET R ++ [e])) m2) as (C1&C2&C3). fold m3 in C1, C2, C3.
  rewrite sleep_quiet by done. set (m4 := deleteRow (du k) m3). intros [= <- <-]. cbn [tree set_installed installed gens].
  assert (∀ q, outside (EU :: X) q → kind_at q (root (tree m3)) = kind_at q (root (tree m))) as Hk.
  { intros q Ho. rewrite (frame_kind _ _ _ _ _ F3 (outside_nil _)), (frame_kind _ _ _ _ _ F12 Ho). by rewrite (frame_kind _ _ _ _ _ Z1 (outside_nil _)). }
  assert (∀ r, outside [EU] (DUT R ++ r) → outside (EU :: X) (DUT R ++ r)) as Hout.
  { intros q Ho. apply outside_cons. split; [|apply O1]. by apply outside_cons in Ho as [? _]. }
  destruct (deleteRow_ok m3 (DUT R) k tmpl V1 I1) as (F4&G4&D1&D2&D3).
  { rewrite Hk; [done|]. rewrite <-(app_nil_r (DUT R)). apply Hout. by apply in_tables. }
  { rewrite Hk; [done|]. by apply Hout. }
  change (deleteRow _ m3) with m4 in F4, G4, D1, D2, D3.
  split; [|split; [|split; [|done]]].
  - apply (frame_gone_all touched).
    + rewrite app_nil_r. etrans; [apply Hr|]. etrans; [exact F2|]. etrans.
      * eapply frame_mono; [exact F3|apply list_subseteq_nil|]. intros x Hx. apply elem_of_app. by right.
      * eapply frame_touched_mono; [exact F4|]. intros x Hx. unfold leaves_behind, both_counters. rewrite !elem_of_app. by left; left.
    + intros x Hx. split; [by apply (rg_fresh _ _ Hr)|]. apply elem_of_cons in Hx as [->|Hx]; [done|].
      eapply frame_still_gone; [exact F4| |]; [by apply elem_of_cons in Hx as [->|Hx]; [|apply O3]|].
      eapply frame_still_gone; [exact F3|apply outside_nil|by apply G2].
  - rewrite D2, C2, B2. unfold m1. by destruct (setLeaves_books (du k) [("Status", DUUninstalling)] m) as (_&->&_).
  - rewrite D3, C3, B3. apply remove_generators_gens. by apply (setLeaves_books (du k)).
Qed.
End pair.

(** *** A successful installation leaves the module at rest *)

Section after.
Context (m0 m' : M) (op : Operation) (e : string) (man : AppManifest) (k : string) (tmpl : Node)
  (rs : list string) (X : list segments) (t1 : Tree) (k' : string) (tmpl' : Node) (ma mb mc : M).
Context (Hs : site W R m0) (Heq : equipped m0) (He : Forall (λ s, valid_segment s = true) (EET R ++ [e])).
Context (Hin : installed_as Quote W R m0 m' op (row_name (EET R ++ [e])) man k tmpl rs X t1 k' tmpl' ma mb mc).
Let DU := DUT R ++ [k].
Let EU := EUT R ++ [k'].

Lemma after_module : node_at (DUT R) (root (mTree man)) = None.
Proof. by apply (st_modules _ _ _ Hs _ _ (in_fetched _ _ _ _ _ _ _ _ _ _ _ _ _ _ _ _ _ _ Hin)). Qed.
Lemma after_working : working R m0 mb k tmpl.
Proof. apply Hin. Qed.
Lemma after_started : started R man mb mc rs X t1 k' tmpl'.
Proof. apply Hin. Qed.
Lemma after_graft : grafted (tree mb) (mTree man) t1 X.
Proof. apply after_started. Qed.

Lemma after_table : kind_at (DUT R) (root (tree mb)) = Some (false, Some tmpl).
Proof. exact (working_table _ _ _ _ _ after_working). Qed.
Lemma after_units : is_Some (kind_at (EUT R) (root (tree mb))).
Proof.
  rewrite (frame_kind _ _ _ _ _ (wk_frame _ _ _ _ _ after_working)); [apply Heq|]. by apply (other_table R).
Qed.

(** From the data model on: the execution unit's row, then its frames. *)
Lemma after_frames : ∃ t2 Z, row_added R "ExecutionUnit" k' tmpl' t1 t2 ∧ frame [EU] [] t2 (tree mc) ∧ frame [] Z t2 (tree mc) ∧
  frame [] ((λ l, DU ++ [l.1]) <$> closing W (eu k')) (tree mc) (tree (setLeaves (du k) (closing W (eu k')) mc)) ∧
  frame [DU] [] (tree mc) (tree (setLeaves (du k) (closing W (eu k')) mc)) ∧
  frame [] [active_leaf e] (tree (setLeaves (du k) (closing W (eu k')) mc)) (tree m').
Proof.
  destruct (sd_row _ _ _ _ _ _ _ _ _ after_started) as (t2&Z&Hra&Hf&HZ). exists t2, Z.
  pose proof (wk_valid _ _ _ _ _ after_working) as Hv. split_and!; [done..| | |].
  - apply (setLeaves_frame DU (snoc_ne _ _) Hv). apply closing_names.
  - apply (setLeaves_row DU (snoc_ne _ _) Hv). apply closing_names.
  - rewrite (in_end _ _ _ _ _ _ _ _ _ _ _ _ _ _ _ _ _ _ Hin). cbv zeta.
    match goal with |- frame _ _ _ (tree (syncActiveUnits _ ?m1)) => exact (sync_frame_active e m1 He) end.
Qed.

Lemma after_off : (∀ r, outside X (DUT R ++ r)) ∧ outside X EU ∧ ∀ x, x ∈ X → outside [EU] x ∧ outside [DU] x.
Proof.
  destruct after_frames as (t2&Z&Hra&_).
  destruct (roots_off_row (tree mb) _ t1 X k' after_graft after_units (ra_fresh _ _ _ _ _ _ Hra)) as [H1 H2].
  assert (∀ r, outside X (DUT R ++ r)) as H0.
  { eapply roots_off_table; [exact after_graft|rewrite after_table; by eexists|exact after_module]. }
  split_and!; [done|done|]. intros x Hx. split; [by apply H2|]. apply outside_cons. split; [|apply outside_nil]. intros [r ->].
  pose proof (gr_some _ _ _ _ after_graft _ Hx) as Hsome. unfold DU in Hsome. rewrite <-!(assoc_L (++)) in Hsome. apply node_above in Hsome.
  rewrite after_module in Hsome. by destruct Hsome.
Qed.

(** From the grafting to the end, off the execution unit's row no node moves. *)
Lemma after_kinds q : outside [EU] q → kind_at q (root (tree m')) = kind_at q (root t1).
Proof.
  intros Hq. destruct after_frames as (t2&Z&Hra&Hf&HZ&H1&_&H2).
  rewrite (frame_kind _ _ _ _ _ H2 (outside_nil _)), (frame_kind _ _ _ _ _ H1 (outside_nil _)), (frame_kind _ _ _ _ _ HZ (outside_nil _)).
  apply (frame_kind _ _ _ _ _ (ra_frame _ _ _ _ _ _ Hra) Hq).
Qed.
Lemma after_kinds_off q : outside [EU] q → outside X q → kind_at q (root (tree m')) = kind_at q (root (tree mb)).
Proof. intros H1 H2. rewrite after_kinds by done. apply (frame_kind _ _ _ _ _ (gr_frame _ _ _ _ after_graft) H2). Qed.

Lemma after_fresh x : x ∈ touched k k' X → gone x (tree m0).
Proof.
  destruct after_off as (O1&O2&O3). destruct after_frames as (t2&Z&Hra&_). unfold touched. rewrite !elem_of_cons.
  pose proof (wk_frame _ _ _ _ _ after_working) as F. intros [->|[->|Hx]].
  - exact (wk_fresh _ _ _ _ _ after_working).
  - apply gone_node, kind_None. rewrite <-(frame_kind _ _ _ _ _ F) by (by apply in_tables).
    rewrite <-(frame_kind _ _ _ _ (EUT R ++ [k']) (gr_frame _ _ _ _ after_graft) O2). apply (ra_fresh _ _ _ _ _ _ Hra). done.
  - apply gone_node, kind_None. rewrite <-(frame_kind _ _ _ _ _ F) by (by apply O3). apply (gr_fresh _ _ _ _ after_graft x Hx). done.
Qed.

Lemma after_frame : frame (touched k k' X) (leaves_behind e) (tree m0) (tree m').
Proof.
  destruct after_frames as (t2&Z&Hra&Hf&_&_&H1&H2). unfold touched, leaves_behind.
  assert (frame [EU] (counters (EUT R)) t1 (tree mc)) as H3 by (eapply frame_then; [apply Hra|exact Hf|done|done|done|apply list_subseteq_nil]).
  assert (frame (EU :: X) (counters (EUT R)) (tree mb) (tree mc)) as H4.
  { eapply frame_then; [exact (gr_frame _ _ _ _ after_graft)|exact H3|apply sub_tail|apply list_subseteq_nil|apply sub_head|done]. }
  etrans; [eapply frame_mono; [exact (wk_frame _ _ _ _ _ after_working)|apply sub_head|intros x Hx; apply elem_of_app; by left]|].
  etrans; [eapply frame_mono; [exact H4|apply sub_tail|intros x Hx; unfold both_counters; rewrite !elem_of_app; by left; right]|].
  eapply frame_then; [exact H1|exact H2|apply sub_head|apply list_subseteq_nil|apply list_subseteq_nil|].
  intros x Hx. apply elem_of_app. by right.
Qed.

Lemma after_rests : resting k k' e tmpl tmpl' X rs m0 m'.
Proof.
  destruct after_off as (O1&O2&O3). destruct after_frames as (t2&Z&Hra&Hf&HZ&H1&_&H2).
  assert (outside [EU] DU) as OD by (by apply in_tables). assert (outside [EU] (DUT R)) as OT by (by apply (other_table R)).
  constructor.
  - split_and!; [apply after_working|apply (ra_valid _ _ _ _ _ _ Hra)|done].
  - split; [apply after_working|apply (ra_instance _ _ _ _ _ _ Hra)].
  - split_and!; [apply after_started|apply after_graft..|].
    apply Forall_forall. intros x Hx. eapply detachable_frame; [exact H2|apply outside_nil|]. eapply detachable_frame; [exact H1|apply outside_nil|].
    eapply detachable_frame; [exact HZ|apply outside_nil|]. eapply detachable_frame; [apply Hra|by apply O3|].
    apply (gr_detach _ _ _ _ after_graft); [|done].
    apply (bn_instances R). eapply working_benign; [exact after_working| |exact after_module].
    by apply (st_modules _ _ _ Hs _ _ (in_fetched _ _ _ _ _ _ _ _ _ _ _ _ _ _ _ _ _ _ Hin)).
  - split_and!.
    + rewrite after_kinds_off; [exact after_table|done|]. rewrite <-(app_nil_r (DUT R)). apply O1.
    + rewrite after_kinds_off; [apply after_working|done|apply O1].
    + rewrite after_kinds by apply row_outside. apply Hra.
    + rewrite (frame_kind _ _ _ _ _ H2 (outside_nil _)), (frame_kind _ _ _ _ _ H1 (outside_nil _)), (frame_kind _ _ _ _ _ HZ (outside_nil _)).
      unfold kind_at, EU, EUT. rewrite (ra_node _ _ _ _ _ _ Hra). by eexists.
  - exact after_off.
  - exact after_fresh.
  - exact after_frame.
Qed.

(** *** What the deployment unit's row reads *)

Lemma counters_units : counters (EUT R) = [R ++ [counter_name "ExecutionUnit"]].
Proof. unfold counters, EUT. by rewrite counter_path_snoc. Qed.
Lemma not_ours kk leaf : ((DUT R ++ [kk]) ++ [leaf] ∉ counters (EUT R)) ∧ ((DUT R ++ [kk]) ++ [leaf] ∉ [active_leaf e]).
Proof.
  rewrite counters_units. unfold active_leaf, DUT, EET. rewrite !list_elem_of_singleton, <-!(assoc_L (++)).
  split; intros E; apply app_inv_head in E; discriminate E.
Qed.
Lemma after_view_units kk leaf : view (tree mc) ((DUT R ++ [kk]) ++ [leaf]) = view (tree mb) ((DUT R ++ [kk]) ++ [leaf]).
Proof.
  destruct after_off as (O1&O2&O3). destruct after_frames as (t2&Z&Hra&Hf&_). destruct (not_ours kk leaf) as [N1 N2].
  set (q := (DUT R ++ [kk]) ++ [leaf]) in *.
  assert (outside [EU] q) as Oq by (unfold q; rewrite <-(assoc_L (++)); by apply in_tables).
  destruct (Hf q Oq) as [_ ->]; [|apply not_elem_of_nil]. destruct (ra_frame _ _ _ _ _ _ Hra q Oq) as [_ ->]; [|done].
  apply (gr_frame _ _ _ _ after_graft); [unfold q; rewrite <-(assoc_L (++)); apply O1|apply not_elem_of_nil].
Qed.
Lemma after_view kk leaf : (kk ≠ k ∨ leaf ∉ (closing W (eu k')).*1) →
  view (tree m') ((DUT R ++ [kk]) ++ [leaf]) = view (tree mb) ((DUT R ++ [kk]) ++ [leaf]).
Proof.
  intros Hne. rewrite <-after_view_units. destruct after_frames as (t2&Z&_&_&_&H1&_&H2). destruct (not_ours kk leaf) as [_ N2].
  destruct (H2 ((DUT R ++ [kk]) ++ [leaf]) (outside_nil _)) as [_ ->]; [|done].
  destruct (H1 ((DUT R ++ [kk]) ++ [leaf]) (outside_nil _)) as [_ ->]; [done|].
  intros (l&E&Hl)%list_elem_of_fmap. unfold DU in E. apply app_inj_tail in E as [E E2]. apply app_inj_tail in E as [_ E1].
  destruct Hne as [Hne|Hne]; [done|]. apply Hne. rewrite E2. by apply list_elem_of_fmap_2.
Qed.

(** The two leaves are in the row from the beginning and keep their type. *)
Lemma row_string leaf : leaf ∈ ["UUID"; "Status"] → ∃ v, view (tree ma) (DU ++ [leaf]) = Some v ∧ vType v = TypeString.
Proof.
  intros Hl. pose proof (in_row _ _ _ _ _ _ _ _ _ _ _ _ _ _ _ _ _ _ Hin) as Hra.
  destruct (eq_leaves _ Heq tmpl leaf (ra_table _ _ _ _ _ _ Hra) Hl) as (v&Hv&Ht). exists v. split; [|done].
  unfold view, leaf_at. rewrite node_at_app. unfold DU, DUT. rewrite (ra_node _ _ _ _ _ _ Hra). exact Hv.
Qed.
Let m1 : M := setLeaves (du k) [("UUID", uuid_of op man)] (setLeaves (du k) (opening op (row_name (EET R ++ [e]))) ma).
Lemma du_valid : Forall (λ s, valid_segment s = true) DU.
Proof. apply after_working. Qed.

Lemma after_uuid : Utf8.ValidString (uuid_of op man) = true →
  ∃ v, view (tree m') (DU ++ ["UUID"]) = Some v ∧ Raw v = uuid_of op man.
Proof.
  intros Hutf. destruct (row_string "UUID" ltac:(left)) as (v&Hv&Ht).
  destruct (setLeaves_type DU (opening op (row_name (EET R ++ [e]))) "UUID" v ma (opening_names _ _) Hv) as (v1&Hv1&Ht1).
  assert (view (tree m1) (DU ++ ["UUID"]) = Some (with_raw (uuid_of op man) v1)) as Hm1.
  { apply (setLeaves_writes DU (snoc_ne _ _) du_valid); [repeat constructor|by apply NoDup_singleton|left|exact Hv1|].
    rewrite Ht1, Ht. by apply valid_string. }
  exists (with_raw (uuid_of op man) v1). split; [|done].
  assert ("UUID" ∉ (closing W (eu k')).*1) as Hne by (cbn; rewrite !not_elem_of_cons; repeat (split; [done|]); apply not_elem_of_nil).
  pose proof (after_view k "UUID" (or_intror Hne)) as Hav. change (DUT R ++ [k]) with DU in Hav. rewrite Hav.
  rewrite (in_leaves _ _ _ _ _ _ _ _ _ _ _ _ _ _ _ _ _ _ Hin). fold m1. rewrite <-Hm1.
  destruct (setLeaves_frame DU (snoc_ne _ _) du_valid (du_app_leaves (mApp man) ++ [("DUID", appName (mApp man))]) m1 (app_names _) (DU ++ ["UUID"]) (outside_nil _)) as [_ V].
  apply V. intros (l&E&Hl)%list_elem_of_fmap. apply app_inv_head in E. injection E as E. cbn in Hl.
  rewrite !elem_of_cons in Hl. destruct Hl as [->|[->|[->|[->|[->|Hl]]]]]; try discriminate E. by apply not_elem_of_nil in Hl.
Qed.

Lemma after_status : ∃ v, view (tree m') (DU ++ ["Status"]) = Some v ∧ Raw v = DUInstalled.
Proof.
  destruct (row_string "Status" ltac:(by right; left)) as (v&Hv&Ht).
  destruct (setLeaves_type DU (opening op (row_name (EET R ++ [e]))) "Status" v ma (opening_names _ _) Hv) as (v1&Hv1&Ht1).
  destruct (setLeaves_type DU [("UUID", uuid_of op man)] "Status" v1 _ ltac:(repeat constructor) Hv1) as (v2&Hv2&Ht2). fold m1 in Hv2.
  destruct (setLeaves_type DU (du_app_leaves (mApp man) ++ [("DUID", appName (mApp man))]) "Status" v2 m1 (app_names _) Hv2) as (v3&Hv3&Ht3).
  assert (setLeaves (row_name DU) (du_app_leaves (mApp man) ++ [("DUID", appName (mApp man))]) m1 = mb) as Emb
    by (symmetry; exact (in_leaves _ _ _ _ _ _ _ _ _ _ _ _ _ _ _ _ _ _ Hin)).
  rewrite Emb in Hv3. pose proof (after_view_units k "Status") as Hau. change (DUT R ++ [k]) with DU in Hau. rewrite <-Hau in Hv3.
  exists (with_raw DUInstalled v3). split; [|done]. destruct after_frames as (t2&Z&_&_&_&_&_&H2). destruct (not_ours k "Status") as [_ N2].
  destruct (H2 (DU ++ ["Status"]) (outside_nil _)) as [_ ->]; [|done].
  apply (setLeaves_writes DU (snoc_ne _ _) du_valid); [apply closing_names|..|exact Hv3|].
  - cbn. repeat (apply NoDup_cons; split; [rewrite ?not_elem_of_cons; repeat (split; [done|]); apply not_elem_of_nil|]). constructor.
  - left.
  - rewrite Ht3, Ht2, Ht1, Ht. vm_compute. reflexivity.
Qed.

(** No other unit of the inventory reads the UUID. *)
Lemma after_others key i : installed m0 !! key = Some i → key ≠ du k → reads_uuid (tree m') (duPath i) (uuid_of op man) = false.
Proof.
  intros Hi Hne. destruct (eq_books _ Heq key i Hi) as [-> (kk&->&Hv)].
  assert (kk ≠ k) as Hkk by (by intros ->).
  pose proof (in_unique _ _ _ _ _ _ _ _ _ _ _ _ _ _ _ _ _ _ Hin) as Hu. fold m1 in Hu.
  destruct (in_books _ _ _ _ _ _ _ _ _ _ _ _ _ _ _ _ _ _ Hin) as (_&Hb&_).
  assert (installed m1 = installed m0) as Hinst.
  { unfold m1. destruct (setLeaves_books (du k) [("UUID", uuid_of op man)] (setLeaves (du k) (opening op (row_name (EET R ++ [e]))) ma)) as (_&->&_).
    by destruct (setLeaves_books (du k) (opening op (row_name (EET R ++ [e]))) ma) as (_&->&_). }
  rewrite <-Hinst in Hi. pose proof (checkManifest_none _ _ _ _ _ Hu Hi (row_name_ne _)) as H.
  unfold du in *. rewrite reads_uuid_view in H |- * by (done || apply snoc_ne). rewrite after_view by (by left). etrans; [|exact H].
  assert (setLeaves (row_name DU) (du_app_leaves (mApp man) ++ [("DUID", appName (mApp man))]) m1 = mb) as Emb
    by (symmetry; exact (in_leaves _ _ _ _ _ _ _ _ _ _ _ _ _ _ _ _ _ _ Hin)).
  destruct (setLeaves_row DU (snoc_ne _ _) du_valid (du_app_leaves (mApp man) ++ [("DUID", appName (mApp man))]) m1 (app_names _) ((DUT R ++ [kk]) ++ ["UUID"])) as [_ V].
  - unfold DU. rewrite <-(assoc_L (++)). by apply other_child.
  - rewrite Emb in V. rewrite V by apply not_elem_of_nil. done.
Qed.

Lemma after_inventory : installed m' = <[du k := unit_of k k' e rs man (oURL op)]> (installed m0).
Proof.
  rewrite (in_end _ _ _ _ _ _ _ _ _ _ _ _ _ _ _ _ _ _ Hin). cbv zeta.
  match goal with |- installed (syncActiveUnits ?x ?y) = _ => destruct (sync_books x y) as (_&->&_) end. cbn [installed set_installed].
  match goal with |- context [installed (setLeaves ?x ?y ?z)] => destruct (setLeaves_books x y z) as (_&->&_) end.
  destruct (sd_books _ _ _ _ _ _ _ _ _ after_started) as (_&->&_).
  by destruct (wk_books _ _ _ _ _ after_working) as (_&->&_).
Qed.
Lemma after_generators : gens m' = gens (add_generators (mGenerators man) m0).
Proof.
  rewrite (in_end _ _ _ _ _ _ _ _ _ _ _ _ _ _ _ _ _ _ Hin). cbv zeta.
  match goal with |- gens (syncActiveUnits ?x ?y) = _ => destruct (sync_books x y) as (_&_&->) end. cbn [gens set_installed].
  match goal with |- gens (setLeaves ?x ?y ?z) = _ => destruct (setLeaves_books x y z) as (_&_&->) end.
  destruct (sd_books _ _ _ _ _ _ _ _ _ after_started) as (_&_&->).
  destruct (wk_books _ _ _ _ _ after_working) as (_&_&E). unfold add_generators. rewrite E. destruct (gens m0) eqn:Eg; [done|by rewrite E, Eg].
Qed.
End after.
End roundtrip.

Lemma uuid_of_matches (Quote : string → string) op man : checkInstallArgs Quote op = None → uuid_matches (uuid_of op man) = true.
Proof.
  unfold checkInstallArgs, uuid_of. destruct (is_blank _); [done|]. destruct (String.eqb_spec (oUUID op) "") as [->|Hne]; cbn [negb andb].
  - intros _. apply AppUUID_matches.
  - by destruct (uuid_matches (oUUID op)).
Qed.
Lemma install_args (Quote : string → string) {G : Type} `{HG : GeneratorRunner G} (W : World) op (m m' : Manager G) r :
  install Quote W op m = (m', r) → rFault r = None → checkInstallArgs Quote op = None.
Proof. unfold install. destruct (checkInstallArgs Quote op) as [f|]; [|done]. intros H Hr. injection H as _ <-. discriminate Hr. Qed.

(** C31. Uninstalling the unit an installation reported takes out what the
    installation put in. Take a device as in the theorem on failed
    installations, whose tables hold rows, whose template of a deployment unit
    has its text leaves, and whose inventory names rows of the table. Then the
    uninstallation succeeds; every node the two operations added, the rows and
    the grafted data model, is gone and every other node is there; and no leaf
    has another value than before the installation, except the row counters of
    the two tables and the environment's list of active units, which are
    rewritten. The inventory differs only in that it has no entry under the
    row's reference, and the generators are what registering those of the module
    and removing them again makes of the ones before. *)
Theorem uninstall_undoes_install (Quote : string → string) {G : Type} `{HG : GeneratorRunner G} (W : World) (R : segments)
  (m m1 m2 : Manager G) (op : Operation) (r1 r2 : Result)
  (HR : R ≠ []) (HRv : Forall (λ s, valid_segment s = true) R) (Hq : quiet W) (Hs : site W R m) (Heq : equipped R m)
  (Hop : oKind op = Install) (H1 : Run Quote W op m = (m1, r1)) (Hok : rFault r1 = None)
  (H2 : Run Quote W (MkOperation Uninstall "" (rUUID r1) "" "") m1 = (m2, r2)) :
  rFault r2 = None ∧ rState r2 = DUUninstalled ∧ rUUID r2 = rUUID r1 ∧
  (∃ e, ∀ q, kind_at q (root (tree m2)) = kind_at q (root (tree m)) ∧ ((q ∉ leaves_behind R e) → view (tree m2) q = view (tree m) q)) ∧
  (∃ du, ref du = rDURef r1 ∧ installed m2 = delete du (installed m)) ∧
  ∃ man, fetch W (oURL op) = Ok man ∧ gens m2 = gens (remove_generators (mGenerators man) (add_generators (mGenerators man) m)).
Proof.
  unfold Run in H1. rewrite Hop in H1. destruct (install Quote W op m) as [m1' ri] eqn:Ei. injection H1 as -> <-. cbn [rFault rUUID rDURef] in *.
  pose proof (install_args _ _ _ _ _ _ Ei Hok) as Hargs.
  destruct (install_spec Quote W R HR HRv op m m1 ri Hq Hs Ei) as [[[f Hf] _]|(ee&man&k&tmpl&rs&X&t1&k'&tmpl'&ma&mb&mc&Hin&Hee&->)]; [congruence|].
  destruct (execEnv_row Quote R HR HRv m _ ee (st_path _ _ _ Hs) (st_wf _ _ _ Hs) (eq_envs _ _ Heq) Hee) as (e&->&He).
  pose proof (uuid_of_matches Quote op man Hargs) as Hu.
  assert (String.eqb (uuid_of op man) "" = false) as Hune by (apply String.eqb_neq; intros E; by rewrite E in Hu).
  cbn [rUUID unit_result] in H2. rewrite Hune in H2. unfold Run in H2. cbn [oKind oUUID] in H2.
  pose proof (after_rests Quote W R m m1 op e man k tmpl rs X t1 k' tmpl' ma mb mc Hs Heq He Hin) as Hrest.
  destruct (after_uuid Quote W R m m1 op e man k tmpl rs X t1 k' tmpl' ma mb mc Hs Heq He Hin (uuid_utf8 _ Hu)) as (v&Hv&Hraw).
  destruct (after_status Quote W R m m1 op e man k tmpl rs X t1 k' tmpl' ma mb mc Hs Heq He Hin) as (w&Hw&Hst).
  pose proof (wk_valid _ _ _ _ _ (in_working _ _ _ _ _ _ _ _ _ _ _ _ _ _ _ _ _ _ Hin)) as Hval.
  set (unit := unit_of R k k' e rs man (oURL op)).
  pose proof (after_inventory Quote W R m m1 op e man k tmpl rs X t1 k' tmpl' ma mb mc Hin) as Hinv. fold unit in Hinv.
  assert (findLocked Quote m1 (uuid_of op man) "" = Ok unit) as Hfind.
  { eapply (findLocked_one Quote m1 _ (row_name (DUT R ++ [k]))).
    - rewrite Hinv. apply lookup_insert_eq.
    - cbn. rewrite reads_uuid_view by (done || apply snoc_ne). rewrite Hv, Hraw. apply EqualFold_refl.
    - intros key i Hi Hne. rewrite Hinv, lookup_insert_ne in Hi by done.
      exact (after_others Quote W R m m1 op e man k tmpl rs X t1 k' tmpl' ma mb mc Hs Heq He Hin key i Hi Hne). }
  assert (reads_other (tree m1) (row_name (DUT R ++ [k]) +:+ "Status") [DUInstalled] = None) as Hro.
  { unfold reads_other. pose proof (Get_row (tree m1) (DUT R ++ [k]) "Status" (snoc_ne _ _) Hval eq_refl) as Hg. rewrite Hw in Hg. rewrite Hg, Hst.
    rewrite bool_decide_true; [done|left]. }
  destruct (uninstall Quote W (MkOperation Uninstall "" (uuid_of op man) "" "") m1) as [mu ru] eqn:Eu.
  destruct (uninstall_resting Quote W R k k' e tmpl tmpl' X rs man (oURL op) m m1 mu _ ru Hq Hrest Hfind Hro Eu) as (Hf&Hi&Hg&->).
  injection H2 as -> <-. cbn [rFault rState rUUID unit_result]. rewrite Hune. split_and!; [done..|by exists e; intros q; apply Hf, outside_nil| |].
  - exists (row_name (DUT R ++ [k])). split; [done|]. rewrite Hi, Hinv. apply delete_insert_eq.
  - exists man. split; [apply Hin|]. rewrite Hg. apply remove_generators_gens.
    exact (after_generators Quote W R m m1 op e man k tmpl rs X t1 k' tmpl' ma mb mc Hin).
Qed.

(** ** On the example device *)

Definition ex_good : World := ex_world (ex_app "1.0" "App") None.
Definition ex_installed : Manager unit := (Run ex_quote ex_good ex_install ex_manager).1.
Definition ex_removed : Manager unit * Result :=
  Run ex_quote ex_good (MkOperation Uninstall "" (rUUID (Run ex_quote ex_good ex_install ex_manager).2) "" "") ex_installed.

Lemma ex_good_site : site ex_good ["SM"] ex_manager.
Proof.
  exact (ex_site_gen (ex_app "1.0" "App") None ltac:(vm_compute; reflexivity) ltac:(vm_compute; reflexivity) ltac:(vm_compute; reflexivity)
    ltac:(vm_compute; reflexivity) ltac:(vm_compute; reflexivity)).
Qed.
Lemma ex_env_rows : match node_at ["SM"; "ExecEnv"] (root ex_device) with
  | Some n => isLeaf n = false ∧ children n = {["1" := obj [("Enable", str_leaf "true"); ("Status", str_leaf "Up"); ("ActiveExecutionUnits", str_leaf "")]]}
  | None => False end.
Proof. vm_compute. done. Qed.
Lemma ex_du_template : kind_at ["SM"; "DeploymentUnit"] (root ex_device) =
  Some (false, Some (obj [("UUID", str_leaf ""); ("Name", str_leaf ""); ("Status", str_leaf ""); ("Version", str_leaf "");
                          ("URL", str_leaf ""); ("ExecutionUnitList", str_leaf "")])).
Proof. vm_compute. reflexivity. Qed.
Lemma ex_equipped : equipped ["SM"] ex_manager.
Proof.
  constructor.
  - eexists. vm_compute. reflexivity.
  - intros k c. change (EET ["SM"] ++ [k]) with (["SM"; "ExecEnv"] ++ [k]). rewrite node_at_app. pose proof ex_env_rows as H.
    change (root (tree ex_manager)) with (root ex_device). destruct (node_at ["SM"; "ExecEnv"] (root ex_device)) as [n|]; [|done]. destruct H as [Hl Hc].
    cbn. rewrite Hl, Hc. destruct (decide ("1" = k)) as [<-|Hk]; [rewrite lookup_singleton_eq; by intros [= <-]|rewrite lookup_singleton_ne by done; done].
  - intros tmpl leaf H Hl. pose proof ex_du_template as Ht. change (root (tree ex_manager)) with (root ex_device) in H.
    assert (Some (false, Some tmpl) = kind_at ["SM"; "DeploymentUnit"] (root ex_device)) as E by (rewrite <-H; reflexivity).
    rewrite Ht in E. assert (∀ x y : Node, Some (false, Some x) = Some (false, Some y) → x = y) as Hinj by (intros x y Exy; by injection Exy).
    apply Hinj in E as ->.
    rewrite !elem_of_cons in Hl. destruct Hl as [->|[->|Hl]]; [| |by apply not_elem_of_nil in Hl]; (eexists; split; [vm_compute; reflexivity|done]).
  - intros key i Hi. change (installed ex_manager) with (∅ : gmap string installation) in Hi. by rewrite lookup_empty in Hi.
Qed.
Lemma ex_install_ok : rFault (Run ex_quote ex_good ex_install ex_manager).2 = None.
Proof. vm_compute. reflexivity. Qed.
Example ex_installed_reads : (Raw <$> view (tree ex_installed) ["SM"; "DeploymentUnit"; "1"; "Status"],
  Raw <$> view (tree ex_installed) ["SM"; "ExecutionUnit"; "1"; "References"], Raw <$> view (tree ex_installed) ["App"],
  Raw <$> view (tree ex_installed) ["SM"; "ExecEnv"; "1"; "ActiveExecutionUnits"]) =
  (Some "Installed", Some "App", Some "1.0", Some "SM.ExecutionUnit.1").
Proof. vm_compute. reflexivity. Qed.

Lemma uninstall_undoes_install_witness :
  rFault ex_removed.2 = None ∧ rState ex_removed.2 = DUUninstalled ∧
  (∃ e, ∀ q, kind_at q (root (tree ex_removed.1)) = kind_at q (root ex_device) ∧
     ((q ∉ leaves_behind ["SM"] e) → view (tree ex_removed.1) q = view ex_device q)).
Proof.
  destruct (uninstall_undoes_install ex_quote ex_good ["SM"] ex_manager ex_installed ex_removed.1 ex_install
    (Run ex_quote ex_good ex_install ex_manager).2 ex_removed.2 ltac:(done) ltac:(repeat constructor) (conj (λ t, eq_refl) (λ t, eq_refl))
    ex_good_site ex_equipped eq_refl (surjective_pairing _) ex_install_ok (surjective_pairing _)) as (H1&H2&_&H3&_).
  exact (conj H1 (conj H2 H3)).
Defined.
