(* ===== verification/ModulesGlue.v ===== *)
(** * Module operations as the two protocols drive them
    ([cmd/cpe-sim/softwaremodules.go], [cmd/cpe-sim/usp_softwaremodules.go]).

    A CWMP ChangeDUState hands over a batch and owes one
    DUStateChangeComplete; a USP command is one asynchronous operation, one at
    a time. *)
From Stdlib Require Import ZArith Lia Ascii String.
From S2P Require Import Prelude GoLib GoText GoAuth CpeErr Types Node Tree Objects Listing Graft Generators EventTracker Actions UspWrites Sha SoftwareModules ModulesFrame ModulesProps.

(** ** CWMP *)

(** An unknown kind is the zero value. *)
Definition toOperation (op : DUStateOperation) : Operation :=
  let kind := if String.eqb (duKind op) "install" then Install
              else if String.eqb (duKind op) "update" then Update
              else if String.eqb (duKind op) "uninstall" then Uninstall else OtherKind 0 in
  MkOperation kind (duURL op) (duUUID op) (duVersion op) (ExecutionEnvRef op).

Definition toOpResult (r : Result) : OpResult :=
  MkOpResult (rUUID r) (rDURef r) (rVersion r) (rState r) (rResolved r) (Strings.Join (rEURefs r) ",") (rStart r) (rComplete r)
    (match rFault r with Some f => CWMPCode f | None => 0%Z end)
    (match rFault r with Some f => Fault_String f | None => "" end).

Section cwmp.
Context (Quote : string → string) {G : Type} `{HG : GeneratorRunner G}.

(** The operations run in order, each in the world it meets. *)
Fixpoint run_all (worlds : list World) (ops : list DUStateOperation) (m : Manager G) {struct ops} : Manager G * list OpResult :=
  match ops, worlds with
  | op :: ops, W :: worlds =>
      let '(m, r) := Run Quote W (toOperation op) m in
      let '(m, rs) := run_all worlds ops m in
      (m, toOpResult r :: rs)
  | _, _ => (m, [])
  end.
(** The goroutine of one accepted ChangeDUState, up to the session it asks
    for. *)
Definition dustate_batch (worlds : list World) (req : DUStateRequest) (s : Manager G * EventTracker) : Manager G * EventTracker :=
  let '(m, rs) := run_all worlds (Operations req) s.1 in
  (m, QueueDUStateChangeComplete (MkDUStateComplete (drCommandKey req) rs) (QueueMethodChangeDUState (drCommandKey req) s.2)).
End cwmp.

(** ** USP *)

Definition ErrCodeInvalidArguments : Z := 7004.
Definition uspOperationFailureCode : Z := 7022.

Record softwareModulesCommand := MkCommand { objPath : string; name : string }.
Definition commandPath (c : softwareModulesCommand) : string := objPath c +:+ name c.

Definition isInstanceSegment (s : string) : bool := negb (String.eqb s "") && str_forall is_digit s.
(** [root] is the manager's path, [None] when the profile has no such block. *)
Definition parseSoftwareModulesCommand (root : option string) (command : string) : option softwareModulesCommand :=
  match root with
  | None => None
  | Some root =>
      if String.eqb command (root +:+ "InstallDU()") then Some (MkCommand root "InstallDU()")
      else
        let suffix := if Strings.HasSuffix command ".Update()" then Some "Update()"
                      else if Strings.HasSuffix command ".Uninstall()" then Some "Uninstall()" else None in
        match suffix with
        | None => None
        | Some name =>
            let obj := Strings.TrimSuffix command name in
            let table := root +:+ SoftwareModulesDeploymentUnitTable in
            if Strings.HasPrefix obj table && isInstanceSegment (Strings.TrimSuffix (Strings.TrimPrefix obj table) ".")
            then Some (MkCommand obj name) else None
        end
  end.

Definition operateFailureCode (f : Fault) : Z :=
  let code := USPCode f in if (7002 <=? code)%Z && (code <=? 7008)%Z then code else uspOperationFailureCode.

Definition duStateChangeParams (r : Result) : list (string * string) :=
  [("UUID", rUUID r); ("DeploymentUnitRef", rDURef r); ("Version", rVersion r); ("CurrentState", rState r);
   ("Resolved", if rResolved r then "true" else "false"); ("ExecutionUnitRefList", Strings.Join (rEURefs r) ",");
   ("StartTime", SoftwareModules.stamp (rStart r)); ("CompleteTime", SoftwareModules.stamp (rComplete r)); ("OperationPerformed", Kind_String (rOperation r));
   ("FaultCode", match rFault r with Some f => Strconv.Itoa (USPCode f) | None => "0" end);
   ("FaultString", match rFault r with Some f => Fault_String f | None => "" end)].

Section usp.
Context (Quote : string → string) {G : Type} `{HG : GeneratorRunner G}.

(** [args[k]], trimmed; a missing argument is empty. *)
Definition arg (args : gmap string string) (k : string) : string := Space.TrimSpace (default "" (args !! k)).
Definition command_operation (m : Manager G) (cmd : softwareModulesCommand) (args : gmap string string) : result error Operation :=
  if String.eqb (name cmd) "InstallDU()" then
    Ok (MkOperation Install (arg args "URL") (arg args "UUID") "" (arg args "ExecutionEnvRef"))
  else if String.eqb (name cmd) "Update()" || String.eqb (name cmd) "Uninstall()" then
    match UUIDOf m (objPath cmd) with
    | Err _ => Err (errorf "%s has no UUID leaf" [objPath cmd])
    | Ok uuid =>
        Ok (if String.eqb (name cmd) "Uninstall()" then MkOperation Uninstall "" uuid "" ""
            else MkOperation Update (arg args "URL") uuid "" "")
    end
  else Err (errorf "command %q is not implemented" [commandPath cmd]).

(** A refusal with the code of its [*CommandError], 0 for another error; or
    the operation to run, with the busy flag taken. *)
Definition uspSoftwareModulesOperate (wired busy : bool) (m : Manager G) (cmd : softwareModulesCommand) (args : gmap string string)
  : bool * result (Z * error) Operation :=
  match Children (tree m) (objPath cmd) with
  | Err _ => (busy, Err (ErrCodeObjectDoesNotExist, errorf "object %q does not exist" [objPath cmd]))
  | Ok _ =>
      if negb wired then (busy, Err (0%Z, errorf "no USP agent wired for this CPE" []))
      else
        match command_operation m cmd args with
        | Err e => (busy, Err (0%Z, e))
        | Ok op =>
            match match Check Quote m op with
                  | Some f => if String.eqb (fReason f) ReasonInvalidArguments then Some f else None
                  | None => None
                  end with
            | Some f => (busy, Err (ErrCodeInvalidArguments, errorf "%s" [Fault_Error f]))
            | None =>
                if busy then
                  (busy, Err (ErrCodeResourcesExceeded,
                     errorf "a software module operation is already in flight; it will not be cancelled, retry after its OperationComplete" []))
                else (true, Ok op)
            end
        end
  end.

(** What [Run] of the asynchronous operation reports, the flag released. *)
Inductive completion := Completed | CompletedFault (code : Z) (msg : string).
Definition async_run (W : World) (op : Operation) (m : Manager G) : Manager G * bool * completion * list (string * string) :=
  let '(m, r) := Run Quote W op m in
  (m, false, match rFault r with Some f => CompletedFault (operateFailureCode f) (Fault_Error f) | None => Completed end, duStateChangeParams r).
End usp.

(** ** No failure reads as a success *)

Definition known (f : Fault) : Prop := fReason f ∈ codes.*1.

Lemma fault_known Quote reason fmt args : reason ∈ codes.*1 → known (fault Quote reason fmt args).
Proof. done. Qed.
Definition codes_ok : bool :=
  forallb (λ r, let f := MkFault r "" in
    negb (CWMPCode f =? 0)%Z && (9001 <=? CWMPCode f)%Z && (CWMPCode f <=? 9032)%Z && negb (USPCode f =? 0)%Z) codes.*1.
Lemma known_codes f : known f → (9001 ≤ CWMPCode f ≤ 9032)%Z ∧ USPCode f ≠ 0%Z.
Proof.
  intros Hf. assert (codes_ok = true) as H by (vm_compute; reflexivity). unfold codes_ok in H. rewrite forallb_forall in H.
  specialize (H (fReason f) (proj1 (list_elem_of_In _ _) Hf)). cbv zeta in H. rewrite !andb_true_iff, !negb_true_iff, !Z.leb_le, !Z.eqb_neq in H.
  destruct H as [[[H1 H2] H3] H4]. unfold CWMPCode, USPCode, code_of in *. cbn [fReason] in *. done.
Qed.

(** The profile's faults and the fetcher's carry known reasons. *)
Record coded {G} (W : World) (m : Manager G) : Prop := {
  cd_profile : ∀ app f, Faults (cfg m) !! app = Some f → smReason f ∈ codes.*1;
  cd_fetch : ∀ u f, fetch W u = Err f → known f
}.

Section known.
Context (Quote : string → string) {G : Type} `{HG : GeneratorRunner G}.
Ltac known := apply fault_known; apply (bool_decide_unpack _); vm_compute; exact I.

(** The default fetcher's faults are coded too. *)
Lemma Fetch_known parse do_ load u f : Fetch Quote parse do_ load u = Err f → known f.
Proof.
  unfold Fetch. destruct (negb _); [intros [= <-]; known|]. destruct (match parse u with Some _ => _ | None => _ end); [intros [= <-]; known|].
  destruct (do_ u) as [e|e|c st b]; [intros [= <-]; known..|]. destruct (_ || _); [intros [= <-]; known|].
  destruct b as [b|e]; [|intros [= <-]; known]. destruct (_ <? _)%Z; [intros [= <-]; known|]. destruct (load b u); [done|]. intros [= <-]; known.
Qed.
Lemma execEnv_known (m : Manager G) r f : execEnv Quote m r = Err f → known f.
Proof.
  unfold execEnv. destruct (Children _ _) as [[|e l]|]; [intros [= <-]; known| |intros [= <-]; known].
  intros H. apply result_bind_err in H as [H|(p&_&H)].
  - destruct (String.eqb r ""); [done|]. destruct (bool_decide _); [done|]. injection H as <-. known.
  - destruct (reads_other _ (_ +:+ "Enable") _); [injection H as <-; known|]. destruct (reads_other _ _ _); [injection H as <-; known|done].
Qed.
Lemma findLocked_known (m : Manager G) u v f : findLocked Quote m u v = Err f → known f.
Proof.
  unfold findLocked. destruct (filter _ _) as [|i [|]]; [|done|intros [= <-]; known]. destruct (negb _); intros [= <-]; known.
Qed.
Lemma checkArgs_known op f : checkInstallArgs Quote op = Some f → known f.
Proof. unfold checkInstallArgs. destruct (is_blank _); [intros [= <-]; known|]. destruct (_ && _); [intros [= <-]; known|done]. Qed.
Lemma checkManifest_known W (m : Manager G) man u x f : coded W m → checkManifest Quote m man u x = Some f → known f.
Proof.
  intros Hc. unfold checkManifest. destruct (Faults (cfg m) !! _) as [sf|] eqn:E.
  - intros [= <-]. exact (cd_profile _ _ Hc _ _ E).
  - destruct (filter _ _) as [|[p i] l]; [done|]. intros [= <-]. known.
Qed.
Lemma addRow_known table req (m m' : Manager G) f : addRow Quote table req m = (m', Err f) → known f.
Proof.
  unfold addRow. destruct (on_tree _ m) as [m1 [i|e]]; [|intros [= _ <-]; known]. destruct (missing_leaf _ _ _); [intros [= _ <-]; known|done].
Qed.
Lemma start_known now man ee (m m' : Manager G) f : start Quote now man ee m = (m', Err f) → known f.
Proof.
  unfold start. destruct (on_tree _ m) as [m1 [rs|e]]; [|intros [= _ <-]; known].
  destruct (addRow _ _ _ m1) as [m2 [eu|f']] eqn:E; [done|]. intros [= _ <-]. by eapply addRow_known.
Qed.

Lemma addRow_cfg table req (m m' : Manager G) r : addRow Quote table req m = (m', r) → cfg m' = cfg m.
Proof.
  unfold addRow. rewrite on_tree_eq. destruct (AddObject _ _) as [[t cs] [i|e]]; cbn [fst snd]; [|by intros [= <- _]].
  destruct (missing_leaf _ _ _); intros [= <- _]; [|done].
  match goal with |- cfg (deleteRow ?p ?m) = _ => destruct (deleteRow_eq p m) as [_ (->&_)] end. done.
Qed.
Lemma coded_cfg W (m m' : Manager G) : coded W m → cfg m' = cfg m → coded W m'.
Proof. intros [H1 H2] E. constructor; [by rewrite E|done]. Qed.
Lemma setLeaves_cfg row l (m : Manager G) : cfg (setLeaves row l m) = cfg m.
Proof. apply (setLeaves_books row l m). Qed.

Lemma install_manifest_known W op ee du man (m m' : Manager G) r f : coded W m →
  install_manifest Quote W op ee du man m = (m', r) → rFault r = Some f → known f.
Proof.
  intros Hc. unfold install_manifest. set (u := if String.eqb (oUUID op) "" then _ else _). set (m1 := setLeaves du _ m).
  assert (coded W m1) as Hc1 by (eapply coded_cfg; [exact Hc|apply setLeaves_cfg]).
  destruct (checkManifest Quote m1 man u "") as [f'|] eqn:Ec; [intros [= _ <-] [= <-]; by eapply checkManifest_known|].
  destruct (sleep _ _ _) as [m2 [e|]]; [intros [= _ <-] [= <-]; known|].
  destruct (start _ _ _ _ m2) as [m3 [[rs eu]|f']] eqn:Es; [by intros [= _ <-]|]. intros [= _ <-] [= <-]. by eapply start_known.
Qed.
Lemma install_known W op (m m' : Manager G) r f : coded W m → install Quote W op m = (m', r) → rFault r = Some f → known f.
Proof.
  intros Hc. unfold install. destruct (checkInstallArgs Quote op) as [f'|] eqn:Ea; [intros [= _ <-] [= <-]; by eapply checkArgs_known|].
  destruct (execEnv _ _ _) as [ee|f'] eqn:Ee; [|intros [= _ <-] [= <-]; by eapply execEnv_known].
  destruct (addRow _ _ _ m) as [m1 [du|f']] eqn:Er; [|intros [= _ <-] [= <-]; by eapply addRow_known].
  unfold do_fetch. destruct (fetch W (oURL op)) as [man|f'] eqn:Ef; [|intros [= _ <-] [= <-]; by apply (cd_fetch _ _ Hc _ _ Ef)].
  apply install_manifest_known. eapply coded_cfg; [exact Hc|]. cbn [cfg meanwhile]. rewrite setLeaves_cfg. by eapply addRow_cfg.
Qed.
Lemma replace_known W uuid u i man (m m' : Manager G) r f : replace Quote W uuid u i man m = (m', r) → rFault r = Some f → known f.
Proof.
  unfold replace. destruct (sleep _ _ _) as [m2 [e|]]; [intros [= _ <-] [= <-]; known|].
  destruct (start _ _ _ _ m2) as [m3 [[rs eu]|f']] eqn:Es; [by intros [= _ <-]|].
  unfold roll_back. destruct (start _ _ _ _ m3) as [m4 [[rs eu]|f'']]; intros [= _ <-] [= <-]; by eapply start_known.
Qed.
Lemma update_known W op (m m' : Manager G) r f : coded W m → update Quote W op m = (m', r) → rFault r = Some f → known f.
Proof.
  intros Hc. unfold update. destruct (findLocked _ _ _ _) as [i|f'] eqn:Ei; [|intros [= _ <-] [= <-]; by eapply findLocked_known].
  unfold not_installed. destruct (reads_other _ _ _); cbn [mbind option_bind]; [intros [= _ <-] [= <-]; known|].
  destruct (execEnv _ _ _) as [ee|f'] eqn:Ee; [|intros [= _ <-] [= <-]; by eapply execEnv_known].
  unfold do_fetch. destruct (fetch W _) as [man|f'] eqn:Ef; [|intros [= _ <-] [= <-]; by apply (cd_fetch _ _ Hc _ _ Ef)].
  destruct (checkManifest _ _ _ _ _) as [f'|] eqn:Ec; [intros [= _ <-] [= <-]; eapply checkManifest_known; [|exact Ec]; by eapply coded_cfg|].
  destruct (String.eqb (appVersion (mApp man)) _); [intros [= _ <-] [= <-]; known|]. apply replace_known.
Qed.
Lemma uninstall_known W op (m m' : Manager G) r f : uninstall Quote W op m = (m', r) → rFault r = Some f → known f.
Proof.
  unfold uninstall. destruct (findLocked _ _ _ _) as [i|f'] eqn:Ei; [|intros [= _ <-] [= <-]; by eapply findLocked_known].
  destruct (_ && _); [intros [= _ <-] [= <-]; known|].
  unfold not_installed. destruct (reads_other _ _ _); cbn [mbind option_bind]; [intros [= _ <-] [= <-]; known|].
  destruct (sleep _ _ _). by intros [= _ <-].
Qed.
Lemma Run_known W op (m m' : Manager G) r f : coded W m → Run Quote W op m = (m', r) → rFault r = Some f → known f.
Proof.
  intros Hc. unfold Run. destruct (oKind op).
  - destruct (install _ _ _ m) as [m1 r1] eqn:E. intros [= _ <-]. cbn. by eapply install_known.
  - destruct (update _ _ _ m) as [m1 r1] eqn:E. intros [= _ <-]. cbn. by eapply update_known.
  - destruct (uninstall _ _ _ m) as [m1 r1] eqn:E. intros [= _ <-]. cbn. by eapply uninstall_known.
  - intros [= _ <-] [= <-]. known.
Qed.

Definition ends_well (state : string) (r : Result) : Prop := rFault r = None → rState r = state.
Lemma install_manifest_state W op ee du man (m m' : Manager G) r : install_manifest Quote W op ee du man m = (m', r) → ends_well DUInstalled r.
Proof.
  unfold install_manifest. set (u := if String.eqb (oUUID op) "" then _ else _). set (m1 := setLeaves du _ m).
  destruct (checkManifest Quote m1 man u "") as [f'|] eqn:Ec; [by intros [= _ <-]|].
  destruct (sleep _ _ _) as [m2 [e|]]; [by intros [= _ <-]|]. destruct (start _ _ _ _ m2) as [m3 [[rs eu]|f']]; by intros [= _ <-].
Qed.
Lemma install_state W op (m m' : Manager G) r : install Quote W op m = (m', r) → ends_well DUInstalled r.
Proof.
  unfold install. destruct (checkInstallArgs Quote op); [by intros [= _ <-]|]. destruct (execEnv _ _ _) as [ee|]; [|by intros [= _ <-]].
  destruct (addRow _ _ _ m) as [m1 [du|]]; [|by intros [= _ <-]]. unfold do_fetch. destruct (fetch W (oURL op)); [|by intros [= _ <-]].
  apply install_manifest_state.
Qed.
Lemma replace_state W uuid u i man (m m' : Manager G) r : replace Quote W uuid u i man m = (m', r) → ends_well DUInstalled r.
Proof.
  unfold replace. destruct (sleep _ _ _) as [m2 [e|]]; [by intros [= _ <-]|]. destruct (start _ _ _ _ m2) as [m3 [[rs eu]|f']]; [by intros [= _ <-]|].
  unfold roll_back. destruct (start _ _ _ _ m3) as [m4 [[rs eu]|]]; by intros [= _ <-].
Qed.
Lemma update_state W op (m m' : Manager G) r : update Quote W op m = (m', r) → ends_well DUInstalled r.
Proof.
  unfold update. destruct (findLocked _ _ _ _) as [i|]; [|by intros [= _ <-]]. destruct (not_installed _ _ _); [by intros [= _ <-]|].
  destruct (execEnv _ _ _); [|by intros [= _ <-]]. unfold do_fetch. destruct (fetch W _) as [man|]; [|by intros [= _ <-]].
  destruct (checkManifest _ _ _ _ _); [by intros [= _ <-]|]. destruct (String.eqb (appVersion (mApp man)) _); [by intros [= _ <-]|]. apply replace_state.
Qed.
Lemma uninstall_state W op (m m' : Manager G) r : uninstall Quote W op m = (m', r) → ends_well DUUninstalled r.
Proof.
  unfold uninstall. destruct (findLocked _ _ _ _) as [i|]; [|by intros [= _ <-]]. destruct (_ && _); [by intros [= _ <-]|].
  destruct (not_installed _ _ _); [by intros [= _ <-]|]. destruct (sleep _ _ _). by intros [= _ <-].
Qed.
Lemma Run_state W op (m m' : Manager G) r : Run Quote W op m = (m', r) →
  match rFault r with Some _ => rState r = DUFailed | None => rState r = DUInstalled ∨ rState r = DUUninstalled end.
Proof.
  unfold Run. destruct (oKind op).
  - destruct (install _ _ _ m) as [m1 r1] eqn:E. intros [= _ <-]. cbn. destruct (rFault r1) eqn:Ef; [done|]. left. by apply (install_state _ _ _ _ _ E).
  - destruct (update _ _ _ m) as [m1 r1] eqn:E. intros [= _ <-]. cbn. destruct (rFault r1) eqn:Ef; [done|]. left. by apply (update_state _ _ _ _ _ E).
  - destruct (uninstall _ _ _ m) as [m1 r1] eqn:E. intros [= _ <-]. cbn. destruct (rFault r1) eqn:Ef; [done|]. right. by apply (uninstall_state _ _ _ _ _ E).
  - intros [= _ <-]. done.
Qed.

(** No operation changes the configuration. *)
Lemma fst_eq {A B} (a c : A) (b d : B) : (a, b) = (c, d) → c = a.
Proof. by intros [= -> _]. Qed.
Lemma deleteRow_cfg p (m : Manager G) : cfg (deleteRow p m) = cfg m.
Proof. by destruct (deleteRow_eq p m) as [_ (->&_)]. Qed.
Lemma unmount_cfg l (m : Manager G) : cfg (unmount l m) = cfg m.
Proof. by destruct (unmount_eq l m) as [_ (->&_)]. Qed.
Lemma add_cfg l (m : Manager G) : cfg (add_generators l m) = cfg m.
Proof. apply add_generators_books. Qed.
Lemma remove_cfg l (m : Manager G) : cfg (remove_generators l m) = cfg m.
Proof. apply remove_generators_books. Qed.
Lemma sync_cfg ee (m : Manager G) : cfg (syncActiveUnits ee m) = cfg m.
Proof. apply setLeaves_cfg. Qed.
Lemma stop_cfg i (m : Manager G) : cfg (stop i m) = cfg m.
Proof. unfold stop. by rewrite setLeaves_cfg, unmount_cfg, remove_cfg, setLeaves_cfg. Qed.
Lemma start_cfg now man ee (m m' : Manager G) r : start Quote now man ee m = (m', r) → cfg m' = cfg m.
Proof.
  unfold start. rewrite on_tree_eq. destruct (Graft _ _) as [[t cs] [rs|e]]; cbn [fst snd]; [|by intros [= <- _]].
  destruct (addRow _ _ _ _) as [m1 [eu|f]] eqn:E; apply addRow_cfg in E; intros ->%fst_eq.
  - by rewrite setLeaves_cfg, add_cfg, setLeaves_cfg.
  - by rewrite unmount_cfg.
Qed.
Lemma sleep_cfg W d (m m' : Manager G) r : sleep W d m = (m', r) → cfg m' = cfg m.
Proof. unfold sleep. destruct (d <=? 0)%Z; by intros [= <- _]. Qed.
Create Rewrite HintDb cfg.
#[local] Hint Rewrite setLeaves_cfg deleteRow_cfg unmount_cfg sync_cfg stop_cfg : cfg.
Ltac cfg_done := intros ->%fst_eq; cbn [cfg set_installed put forget fst]; autorewrite with cfg; cbn [cfg set_installed put forget]; autorewrite with cfg; congruence.

Lemma install_cfg W op (m m' : Manager G) r : install Quote W op m = (m', r) → cfg m' = cfg m.
Proof.
  unfold install. destruct (checkInstallArgs Quote op); [cfg_done|]. destruct (execEnv _ _ _) as [ee|]; [|cfg_done].
  destruct (addRow _ _ _ m) as [m1 [du|]] eqn:Ea; apply addRow_cfg in Ea; [|cfg_done]. unfold do_fetch.
  set (m2 := meanwhile _ _). assert (cfg m2 = cfg m1) as E2 by (cbn [cfg m2 meanwhile]; by rewrite setLeaves_cfg).
  destruct (fetch W (oURL op)) as [man|]; [|unfold undo; cfg_done].
  unfold install_manifest. set (u := if String.eqb (oUUID op) "" then _ else _). set (m3 := setLeaves du _ m2).
  assert (cfg m3 = cfg m) as E3 by (unfold m3; rewrite setLeaves_cfg; congruence).
  destruct (checkManifest Quote m3 man u ""); [unfold undo; cfg_done|].
  destruct (sleep _ _ _) as [m4 [e|]] eqn:Es; apply sleep_cfg in Es; rewrite setLeaves_cfg in Es; [unfold undo; cfg_done|].
  destruct (start _ _ _ _ m4) as [m5 [[rs eu]|f']] eqn:Et; apply start_cfg in Et; unfold undo; cfg_done.
Qed.
Lemma update_cfg W op (m m' : Manager G) r : update Quote W op m = (m', r) → cfg m' = cfg m.
Proof.
  unfold update. destruct (findLocked _ _ _ _) as [i|]; [|cfg_done]. destruct (not_installed _ _ _); [cfg_done|].
  destruct (execEnv _ _ _); [|cfg_done]. unfold do_fetch. set (m1 := meanwhile _ m). assert (cfg m1 = cfg m) as E1 by done.
  destruct (fetch W _) as [man|]; [|cfg_done]. destruct (checkManifest _ _ _ _ _); [cfg_done|].
  destruct (String.eqb (appVersion (mApp man)) _); [cfg_done|]. unfold replace.
  destruct (sleep _ _ _) as [m2 [e|]] eqn:Es; apply sleep_cfg in Es; autorewrite with cfg in Es; [unfold forget; cfg_done|].
  destruct (start _ _ _ _ m2) as [m3 [[rs eu]|f']] eqn:Et; apply start_cfg in Et; [unfold put; cfg_done|].
  unfold roll_back. destruct (start _ _ _ _ m3) as [m4 [[rs eu]|]] eqn:Eu; apply start_cfg in Eu; unfold put, forget; cfg_done.
Qed.
Lemma uninstall_cfg W op (m m' : Manager G) r : uninstall Quote W op m = (m', r) → cfg m' = cfg m.
Proof.
  unfold uninstall. destruct (findLocked _ _ _ _) as [i|]; [|cfg_done]. destruct (_ && _); [cfg_done|].
  destruct (not_installed _ _ _); [cfg_done|]. destruct (sleep _ _ _) as [m1 x] eqn:Es. apply sleep_cfg in Es. autorewrite with cfg in Es. cfg_done.
Qed.
Lemma Run_cfg W op (m m' : Manager G) r : Run Quote W op m = (m', r) → cfg m' = cfg m.
Proof.
  unfold Run. destruct (oKind op).
  - destruct (install _ _ _ m) as [m1 r1] eqn:E. intros [= <- _]. by eapply install_cfg.
  - destruct (update _ _ _ m) as [m1 r1] eqn:E. intros [= <- _]. by eapply update_cfg.
  - destruct (uninstall _ _ _ m) as [m1 r1] eqn:E. intros [= <- _]. by eapply uninstall_cfg.
  - by intros [= <- _].
Qed.

(** One report per operation, in order, and none a failure that reads as a
    success or the reverse. *)
Definition honest (r : OpResult) : Prop :=
  (opFaultCode r = 0%Z ∧ CurrentState r ∈ [DUInstalled; DUUninstalled]) ∨
  ((9001 ≤ opFaultCode r ≤ 9032)%Z ∧ CurrentState r = DUFailed).
Lemma Run_honest W op (m m' : Manager G) r : coded W m → Run Quote W op m = (m', r) → honest (toOpResult r).
Proof.
  intros Hc H. pose proof (Run_state W op m m' r H) as Hs. unfold honest, toOpResult. cbn. destruct (rFault r) as [f|] eqn:Ef.
  - right. split; [|done]. by apply known_codes, (Run_known W op m m' r f).
  - left. split; [done|]. destruct Hs as [->| ->]; [left|right; left].
Qed.
Lemma run_all_honest worlds ops (m m' : Manager G) rs : length worlds = length ops → Forall (λ W, coded W m) worlds →
  run_all Quote worlds ops m = (m', rs) → length rs = length ops ∧ Forall honest rs.
Proof.
  revert worlds m m' rs. induction ops as [|op ops IH]; intros [|W worlds] m m' rs Hl Hc H; cbn in H; try discriminate Hl; [by injection H as _ <-|].
  apply Forall_cons in Hc as [Hc Hcs]. destruct (Run Quote W (toOperation op) m) as [m1 r] eqn:E.
  destruct (run_all Quote worlds ops m1) as [m2 rs'] eqn:E'. injection H as _ <-. cbn in Hl. injection Hl as Hl.
  destruct (IH worlds m1 m2 rs' Hl) as [H1 H2].
  - eapply Forall_impl; [exact Hcs|]. intros W' Hc'. eapply coded_cfg; [exact Hc'|]. by eapply Run_cfg.
  - exact E'.
  - split; [cbn; by rewrite H1|]. constructor; [|done]. by eapply Run_honest.
Qed.
End known.

(** A ChangeDUState owes exactly one DUStateChangeComplete: when its batch
    ends the tracker holds one more pending report, under the request's
    CommandKey, with one result per operation in the request's order; a result
    carries a TR-069 fault code when, and only when, its unit's state is Failed,
    whatever went wrong. *)
Theorem dustate_batch_reports (Quote : string → string) {G : Type} `{HG : GeneratorRunner G} (worlds : list World) (req : DUStateRequest)
  (m m' : Manager G) (t t' : EventTracker)
  (Hlen : length worlds = length (Operations req)) (Hc : Forall (λ W, coded W m) worlds)
  (H : dustate_batch Quote worlds req (m, t) = (m', t')) :
  ∃ rs, pendingDUStateCompletes t' = pendingDUStateCompletes t ++ [MkDUStateComplete (drCommandKey req) rs] ∧
    length rs = length (Operations req) ∧ Forall honest rs ∧
    MkEvent EventMethodChangeDUState (drCommandKey req) ∈ pendingEvents t'.
Proof.
  unfold dustate_batch in H. cbn [fst snd] in H. destruct (run_all Quote worlds (Operations req) m) as [m1 rs] eqn:E. injection H as <- <-.
  destruct (run_all_honest Quote worlds (Operations req) m m1 rs Hlen Hc E) as [H1 H2]. exists rs. split_and!; [|done..|].
  - destruct t. reflexivity.
  - cbn. apply elem_of_app. right. left.
Qed.

Definition du_install (url : string) : DUStateOperation := MkDUStateOperation "install" url "" "" "".
Definition ex_request : DUStateRequest := MkDUStateRequest "key" [du_install "http://apps/hub"; du_install "http://apps/hub"].
Lemma ex_coded man cut : coded (ex_world man cut) ex_manager.
Proof. constructor; [|done]. intros app f H. change (Faults (cfg ex_manager)) with (∅ : gmap string SoftwareModuleFault) in H. by rewrite lookup_empty in H. Qed.
Lemma dustate_batch_reports_witness :
  let worlds := [ex_world (ex_app "1.0" "App") None; ex_world (ex_app "1.0" "App") None] in
  let s := dustate_batch ex_quote worlds ex_request (ex_manager, NewEventTracker ∅) in
  ∃ rs, pendingDUStateCompletes s.2 = [MkDUStateComplete "key" rs] ∧ length rs = 2%nat ∧ Forall honest rs ∧
    MkEvent EventMethodChangeDUState "key" ∈ pendingEvents s.2.
Proof.
  exact (dustate_batch_reports ex_quote [ex_world (ex_app "1.0" "App") None; ex_world (ex_app "1.0" "App") None] ex_request ex_manager
    (dustate_batch ex_quote [ex_world (ex_app "1.0" "App") None; ex_world (ex_app "1.0" "App") None] ex_request (ex_manager, NewEventTracker ∅)).1
    (NewEventTracker ∅) _ eq_refl (Forall_cons_2 _ _ _ (ex_coded _ _) (Forall_cons_2 _ _ _ (ex_coded _ _) (Forall_nil_2 _))) (surjective_pairing _)).
Defined.

(** The second installation of the same module is a duplicate. *)
Example ex_batch_codes : let s := dustate_batch ex_quote [ex_world (ex_app "1.0" "App") None; ex_world (ex_app "1.0" "App") None] ex_request (ex_manager, NewEventTracker ∅) in
  (λ c, (λ r, (CurrentState r, opFaultCode r)) <$> Results c) <$> pendingDUStateCompletes s.2 = [[("Installed", 0%Z); ("Failed", 9026%Z)]].
Proof. vm_compute. reflexivity. Qed.

(** ** One operation at a time *)

(** The stack's manager, its busy flag and the asynchronous operations the
    agent was handed and that have not ended. *)
Record stack (G : Type) := MkStack { mgr : Manager G; uspSoftwareModulesBusy : bool; in_flight : list Operation }.
Arguments MkStack {G} _ _ _.
Arguments mgr {G} _.
Arguments uspSoftwareModulesBusy {G} _.
Arguments in_flight {G} _.

Section stack.
Context (Quote : string → string) {G : Type} `{HG : GeneratorRunner G}.

(** The agent may refuse an operation it was handed, and then aborts it; the
    rest of the CPE may change the manager's tree at any time. *)
Inductive stack_step : stack G → stack G → Prop :=
| sk_operate wired cmd args s b r : uspSoftwareModulesOperate Quote wired (uspSoftwareModulesBusy s) (mgr s) cmd args = (b, r) →
    stack_step s (MkStack (mgr s) b (in_flight s ++ match r with Ok op => [op] | Err _ => [] end))
| sk_abort s l1 op l2 : in_flight s = l1 ++ op :: l2 → stack_step s (MkStack (mgr s) false (l1 ++ l2))
| sk_run W s l1 op l2 m b c params : in_flight s = l1 ++ op :: l2 → async_run Quote W op (mgr s) = (m, b, c, params) →
    stack_step s (MkStack m b (l1 ++ l2))
| sk_tree s m : stack_step s (MkStack m (uspSoftwareModulesBusy s) (in_flight s)).
Inductive stack_reachable (m0 : Manager G) : stack G → Prop :=
| sr_start : stack_reachable m0 (MkStack m0 false [])
| sr_step s s' : stack_reachable m0 s → stack_step s s' → stack_reachable m0 s'.

Lemma operate_flag wired busy (m : Manager G) cmd args b r : uspSoftwareModulesOperate Quote wired busy m cmd args = (b, r) →
  match r with Ok _ => busy = false ∧ b = true | Err _ => b = busy end.
Proof.
  unfold uspSoftwareModulesOperate. destruct (Children _ _); [|by intros [= <- <-]]. destruct (negb wired); [by intros [= <- <-]|].
  destruct (command_operation m cmd args); [|by intros [= <- <-]].
  match goal with |- context [match ?x with Some _ => _ | None => _ end = _ → _] => destruct x end.
  all: repeat case_match; by intros [= <- <-].
Qed.

(** C32. One software-module operation at a time: whatever commands arrive, and
    whether the agent runs or aborts what it is handed, at most one operation
    is in flight, and the busy flag is up exactly while one is, so it is neither
    lost nor left behind. *)
Theorem one_operation_in_flight (m0 : Manager G) (s : stack G) (H : stack_reachable m0 s) :
  (length (in_flight s) ≤ 1)%nat ∧ (uspSoftwareModulesBusy s = true ↔ in_flight s ≠ []).
Proof.
  assert ((uspSoftwareModulesBusy s = false ∧ in_flight s = []) ∨ (uspSoftwareModulesBusy s = true ∧ ∃ op, in_flight s = [op])) as Hinv.
  { induction H as [|s s' H IH Hs]; [by left|]. assert (∀ l1 op l2, in_flight s = l1 ++ op :: l2 → l1 ++ l2 = []) as Hone.
    { intros l1 op l2 E. destruct IH as [[_ E']|[_ [op' E']]]; rewrite E' in E; destruct l1 as [|? [|]]; try discriminate E. by injection E as _ <-. }
    destruct Hs as [wired cmd args s b r E|s l1 op l2 E|W s l1 op l2 m b c params E Er|s m]; cbn.
    - apply operate_flag in E. destruct r as [op|].
      + destruct E as [E ->]. destruct IH as [[_ ->]|[E' _]]; [|congruence]. right. split; [done|by exists op].
      + subst b. by rewrite app_nil_r.
    - left. split; [done|by eapply Hone].
    - left. unfold async_run in Er. destruct (Run Quote W op (mgr s)) as [m1 r]. injection Er as _ <- _ _. split; [done|by eapply Hone].
    - done. }
  destruct Hinv as [[-> ->]|[-> [op ->]]]; cbn; split; try lia; split; done.
Qed.
End stack.

Definition ex_op : Operation := MkOperation Install "u" "" "" "".
Definition ex_command : softwareModulesCommand := MkCommand "SM." "InstallDU()".
Definition ex_args : gmap string string := {["URL" := "u"]}.
Definition ex_stack (busy : bool) (l : list Operation) : stack unit := MkStack ex_manager busy l.
Lemma ex_operate : uspSoftwareModulesOperate ex_quote true (uspSoftwareModulesBusy (ex_stack false [])) (mgr (ex_stack false [])) ex_command ex_args = (true, Ok ex_op).
Proof. vm_compute. reflexivity. Qed.
Lemma ex_in_flight : stack_reachable ex_quote ex_manager (ex_stack true [ex_op]).
Proof. exact (sr_step ex_quote ex_manager (ex_stack false []) (ex_stack true [ex_op]) (sr_start ex_quote ex_manager)
    (sk_operate ex_quote true ex_command ex_args (ex_stack false []) true (Ok ex_op) ex_operate)). Qed.
Lemma one_operation_in_flight_witness :
  (length (in_flight (ex_stack true [ex_op])) ≤ 1)%nat ∧
  (uspSoftwareModulesBusy (ex_stack true [ex_op]) = true ↔ in_flight (ex_stack true [ex_op]) ≠ []).
Proof. exact (one_operation_in_flight ex_quote ex_manager (ex_stack true [ex_op]) ex_in_flight). Defined.
