(* ===== verification/ModulesInventory.v ===== *)
(** * What a module operation does to the inventory, on every branch, and what
    an update that fails leaves behind. *)
From Stdlib Require Import ZArith Lia Ascii String.
From S2P Require Import Prelude GoLib GoAuth CpeErr Types Node Tree TreeProps Objects Listing Graft TreeFrame Generators Sha SoftwareModules ModulesFrame ModulesProps ModulesRoundtrip ModulesGlue.

Section inventory.
Context (Quote : string → string) {G : Type} `{HG : GeneratorRunner G} (W : World).
Abbreviation M := (Manager G).

Lemma setLeaves_inv row l (m : M) : installed (setLeaves row l m) = installed m.
Proof. apply (setLeaves_books row l m). Qed.
Lemma deleteRow_inv p (m : M) : installed (deleteRow p m) = installed m.
Proof. by destruct (deleteRow_eq p m) as [_ (_&->&_)]. Qed.
Lemma unmount_inv l (m : M) : installed (unmount l m) = installed m.
Proof. by destruct (unmount_eq l m) as [_ (_&->&_)]. Qed.
Lemma sync_inv ee (m : M) : installed (syncActiveUnits ee m) = installed m.
Proof. apply setLeaves_inv. Qed.
Lemma stop_inv i (m : M) : installed (stop i m) = installed m.
Proof. unfold stop. rewrite setLeaves_inv, unmount_inv. destruct (remove_generators_books (mGenerators (manifest i)) (setLeaves (euPath i) [("Status", EUStopping)] m)) as (_&_&->). apply setLeaves_inv. Qed.
Lemma addRow_inv table req (m m' : M) r : addRow Quote table req m = (m', r) → installed m' = installed m.
Proof.
  unfold addRow. rewrite on_tree_eq. destruct (AddObject _ _) as [[t cs] [i|e]]; cbn [fst snd]; [|by intros ->%fst_eq].
  destruct (missing_leaf _ _ _); intros ->%fst_eq; [by rewrite deleteRow_inv|done].
Qed.
Lemma start_inv now man ee (m m' : M) r : start Quote now man ee m = (m', r) → installed m' = installed m.
Proof.
  unfold start. rewrite on_tree_eq. destruct (Graft _ _) as [[t cs] [rs|e]]; cbn [fst snd]; [|by intros ->%fst_eq].
  destruct (addRow _ _ _ _) as [m1 [eu|f]] eqn:E; apply addRow_inv in E; intros ->%fst_eq.
  - rewrite setLeaves_inv. match goal with |- installed (add_generators ?l ?m) = _ => destruct (add_generators_books l m) as (_&_&->) end. by rewrite setLeaves_inv.
  - by rewrite unmount_inv.
Qed.
Lemma sleep_inv d (m m' : M) r : sleep W d m = (m', r) → installed m' = installed m ∧ (r = None ∨ (0 < d)%Z ∧ r = ctx_err W).
Proof. unfold sleep. destruct (Z.leb_spec d 0) as [Hd|Hd]; intros [= <- <-]; split; try done; [by left|by right]. Qed.

(** The inventory after an operation that ended in [r]. *)
Definition inventory_after (op : Operation) (m m' : M) (r : Result) : Prop :=
  match oKind op, rFault r with
  | Install, Some _ => installed m' = installed m
  | Install, None => ∃ i, installed m' = <[duPath i := i]> (installed m) ∧ fetch W (oURL op) = Ok (manifest i) ∧ url i = oURL op ∧
      rDURef r = ref (duPath i) ∧ rEURefs r = [ref (euPath i)] ∧ rVersion r = appVersion (mApp (manifest i))
  | Update, None => ∃ i i', findLocked Quote m (oUUID op) (oVersion op) = Ok i ∧ installed m' = <[duPath i := i']> (installed m) ∧
      duPath i' = duPath i ∧ eePath i' = eePath i ∧ fetch W (url i') = Ok (manifest i') ∧
      appVersion (mApp (manifest i')) ≠ appVersion (mApp (manifest i)) ∧ rEURefs r = [ref (euPath i')] ∧ rVersion r = appVersion (mApp (manifest i'))
  | Update, Some _ => installed m' = installed m ∨
      ∃ i, findLocked Quote m (oUUID op) (oVersion op) = Ok i ∧
        ((∃ rs eu, installed m' = <[duPath i := restarted i rs eu]> (installed m) ∧ rEURefs r = [ref eu] ∧ rVersion r = appVersion (mApp (manifest i))) ∨
         (installed m' = delete (duPath i) (installed m) ∧ rDURef r = ""))
  | Uninstall, Some _ => m' = m
  | Uninstall, None => ∃ i, findLocked Quote m (oUUID op) (oVersion op) = Ok i ∧ installed m' = delete (duPath i) (installed m)
  | OtherKind _, f => m' = m ∧ is_Some f
  end.

Create Rewrite HintDb inventory.
#[local] Hint Rewrite setLeaves_inv deleteRow_inv unmount_inv sync_inv stop_inv : inventory.
Ltac inv_done := cbn [installed set_installed put forget fst duPath restarted]; autorewrite with inventory; cbn [installed set_installed put forget duPath restarted]; autorewrite with inventory; congruence.

Lemma pair_eq2 {A B} (a c : A) (b d : B) : (a, b) = (c, d) → c = a ∧ d = b.
Proof. by intros [= -> ->]. Qed.

Lemma install_inventory op (m m' : M) r : oKind op = Install → install Quote W op m = (m', r) → inventory_after op m m' r.
Proof.
  intros Hop. unfold inventory_after. rewrite Hop. unfold install.
  destruct (checkInstallArgs Quote op); [by intros [-> ->]%pair_eq2|]. destruct (execEnv _ _ _) as [ee|]; [|by intros [-> ->]%pair_eq2].
  destruct (addRow _ _ _ m) as [m1 [du|]] eqn:Ea; apply addRow_inv in Ea; [|by intros [-> ->]%pair_eq2]. unfold do_fetch.
  set (m2 := meanwhile _ _). assert (installed m2 = installed m) as E2 by (cbn [installed m2 meanwhile]; by rewrite setLeaves_inv).
  destruct (fetch W (oURL op)) as [man|] eqn:Ef; [|intros [-> ->]%pair_eq2; cbn [rFault]; inv_done].
  unfold install_manifest. set (u := if String.eqb (oUUID op) "" then _ else _). set (m3 := setLeaves du _ m2).
  assert (installed m3 = installed m) as E3 by (unfold m3; by rewrite setLeaves_inv).
  destruct (checkManifest Quote m3 man u ""); [intros [-> ->]%pair_eq2; cbn [rFault]; inv_done|].
  destruct (sleep _ _ _) as [m4 [e|]] eqn:Es; apply sleep_inv in Es as [Es _]; rewrite setLeaves_inv in Es;
    [intros [-> ->]%pair_eq2; cbn [rFault]; inv_done|].
  destruct (start _ _ _ _ m4) as [m5 [[rs eu]|f']] eqn:Et; apply start_inv in Et; intros [-> ->]%pair_eq2; [|cbn [rFault]; inv_done].
  exists (MkInstallation du eu ee man (oURL op) rs). split_and!; [|done..]. cbn [duPath]. rewrite sync_inv. cbn [installed set_installed].
  rewrite setLeaves_inv. congruence.
Qed.

Lemma replace_inventory uuid u i man (m m' : M) r : fetch W u = Ok man → appVersion (mApp man) ≠ appVersion (mApp (manifest i)) →
  replace Quote W uuid u i man m = (m', r) →
  match rFault r with
  | None => ∃ i', installed m' = <[duPath i := i']> (installed m) ∧ duPath i' = duPath i ∧ eePath i' = eePath i ∧
      fetch W (url i') = Ok (manifest i') ∧ appVersion (mApp (manifest i')) ≠ appVersion (mApp (manifest i)) ∧
      rEURefs r = [ref (euPath i')] ∧ rVersion r = appVersion (mApp (manifest i'))
  | Some _ => (∃ rs eu, installed m' = <[duPath i := restarted i rs eu]> (installed m) ∧ rEURefs r = [ref eu] ∧ rVersion r = appVersion (mApp (manifest i))) ∨
      (installed m' = delete (duPath i) (installed m) ∧ rDURef r = "")
  end.
Proof.
  intros Hf Hv. unfold replace. destruct (sleep _ _ _) as [m2 [e|]] eqn:Es; apply sleep_inv in Es as [Es _]; autorewrite with inventory in Es.
  { intros [-> ->]%pair_eq2. cbn [rFault]. right. split; [|done]. unfold forget. inv_done. }
  destruct (start _ _ _ _ m2) as [m3 [[rs eu]|f']] eqn:Et; apply start_inv in Et.
  - intros [-> ->]%pair_eq2. cbn [rFault before unit_result]. exists (MkInstallation (duPath i) eu (eePath i) man u rs). split_and!; try done.
    unfold put. inv_done.
  - unfold roll_back. destruct (start _ _ _ _ m3) as [m4 [[rs eu]|]] eqn:Eu; apply start_inv in Eu; intros [-> ->]%pair_eq2; cbn [rFault withFault with_refs].
    + left. exists rs, eu. split; [|done]. unfold put. inv_done.
    + right. split; [|done]. unfold forget. inv_done.
Qed.

Lemma update_inventory op (m m' : M) r : oKind op = Update → update Quote W op m = (m', r) → inventory_after op m m' r.
Proof.
  intros Hop. unfold inventory_after. rewrite Hop. unfold update. destruct (findLocked _ _ _ _) as [i|] eqn:Ei; [|intros [-> ->]%pair_eq2; by left].
  destruct (not_installed _ _ _); [intros [-> ->]%pair_eq2; by left|]. destruct (execEnv _ _ _); [|intros [-> ->]%pair_eq2; by left].
  unfold do_fetch. destruct (fetch W _) as [man|] eqn:Ef; [|intros [-> ->]%pair_eq2; by left].
  destruct (checkManifest _ _ _ _ _); [intros [-> ->]%pair_eq2; by left|].
  destruct (String.eqb_spec (appVersion (mApp man)) (appVersion (mApp (manifest i)))); [intros [-> ->]%pair_eq2; by left|].
  intros H. pose proof (replace_inventory _ _ _ _ _ _ _ Ef n H) as Hr. cbn [installed meanwhile] in Hr. destruct (rFault r).
  - right. exists i. split; [done|]. exact Hr.
  - destruct Hr as (i'&?&?&?&?&?&?&?). by exists i, i'.
Qed.
Lemma uninstall_inventory op (m m' : M) r : oKind op = Uninstall → uninstall Quote W op m = (m', r) → inventory_after op m m' r.
Proof.
  intros Hop. unfold inventory_after. rewrite Hop. unfold uninstall. destruct (findLocked _ _ _ _) as [i|] eqn:Ei; [|by intros [-> ->]%pair_eq2].
  destruct (_ && _); [by intros [-> ->]%pair_eq2|]. destruct (not_installed _ _ _); [by intros [-> ->]%pair_eq2|].
  destruct (sleep _ _ _) as [m1 x] eqn:Es. apply sleep_inv in Es as [Es _]. autorewrite with inventory in Es. intros [-> ->]%pair_eq2. cbn [rFault unit_result].
  exists i. split; [done|]. cbn [installed set_installed]. rewrite deleteRow_inv. by rewrite Es.
Qed.
End inventory.

(** What an operation does to the inventory, on every branch. A failed
    installation changes nothing of it; a successful one records the fetched
    manifest under the new row. A successful update puts the manifest of the
    other version in the unit's place; a failed one leaves the inventory alone,
    or records the restart of the same version, or, when that was not possible
    either, drops the unit and reports no row. An uninstallation that fails
    changes nothing at all, not even the tree; one that succeeds drops the
    unit. *)
Theorem Run_inventory (Quote : string → string) {G : Type} `{HG : GeneratorRunner G} (W : World) (op : Operation)
  (m m' : Manager G) (r : Result) (H : Run Quote W op m = (m', r)) : inventory_after Quote W op m m' r.
Proof.
  assert (∀ m1 r1, (match oKind op with Install => install Quote W op m | Update => update Quote W op m | Uninstall => uninstall Quote W op m
     | k => (m, failed (fault Quote ReasonInvalidArguments "unknown operation %v" [Kind_String k])) end) = (m1, r1) →
     m' = m1 ∧ rFault r = rFault r1 ∧ rDURef r = rDURef r1 ∧ rEURefs r = rEURefs r1 ∧ rVersion r = rVersion r1) as Hr.
  { intros m1 r1 E. unfold Run in H. rewrite E in H. apply pair_eq2 in H as [-> ->]. done. }
  assert (∀ m1 r1, m' = m1 ∧ rFault r = rFault r1 ∧ rDURef r = rDURef r1 ∧ rEURefs r = rEURefs r1 ∧ rVersion r = rVersion r1 →
     inventory_after Quote W op m m1 r1 → inventory_after Quote W op m m' r) as Hsame.
  { intros m1 r1 (->&E1&E2&E3&E4). unfold inventory_after. by rewrite E1, E2, E3, E4. }
  destruct (oKind op) eqn:Ek.
  - destruct (install Quote W op m) as [m1 r1] eqn:E. apply (Hsame m1 r1); [by apply Hr|exact (install_inventory Quote W op m m1 r1 Ek E)].
  - destruct (update Quote W op m) as [m1 r1] eqn:E. apply (Hsame m1 r1); [by apply Hr|exact (update_inventory Quote W op m m1 r1 Ek E)].
  - destruct (uninstall Quote W op m) as [m1 r1] eqn:E. apply (Hsame m1 r1); [by apply Hr|exact (uninstall_inventory Quote W op m m1 r1 Ek E)].
  - destruct (Hr m _ eq_refl) as (->&Ef&_). unfold inventory_after. rewrite Ek, Ef. split; [done|by eexists].
Qed.

Definition ex_update (url : string) : Operation := MkOperation Update url (AppUUID "Acme" "hub") "" "".
Lemma Run_inventory_witness :
  inventory_after ex_quote (ex_world (ex_app "2.0" "App") None) (ex_update "") ex_installed
    (Run ex_quote (ex_world (ex_app "2.0" "App") None) (ex_update "") ex_installed).1
    (Run ex_quote (ex_world (ex_app "2.0" "App") None) (ex_update "") ex_installed).2.
Proof. exact (Run_inventory ex_quote (ex_world (ex_app "2.0" "App") None) (ex_update "") ex_installed _ _ (surjective_pairing _)). Defined.

(** ** What a failed update leaves *)

Definition raw_at (m : Manager unit) (p : segments) : option string := Raw <$> view (tree m) p.

(** An update cut short by its context takes the running version out and
    reports the unit gone, as its comment says; the environment's list of
    active units keeps naming the execution unit that is no more, and so does
    the report. *)
Lemma cancelled_update_names_dead_unit :
  let res := Run ex_quote (ex_world (ex_app "2.0" "App") (Some "context canceled")) (ex_update "") ex_installed in
  (is_Some (rFault res.2) ∧ rDURef res.2 = "" ∧ rEURefs res.2 = ["SM.ExecutionUnit.1"]) ∧
  node_at ["SM"; "ExecutionUnit"; "1"] (root (tree res.1)) = None ∧
  raw_at res.1 ["SM"; "ExecEnv"; "1"; "ActiveExecutionUnits"] = Some "SM.ExecutionUnit.1".
Proof. split_and!; try (vm_compute; reflexivity). eexists. vm_compute. reflexivity. Qed.

(** An update whose data model does not fit restarts the previous version,
    but the row's URL stays the one that failed, while the manager keeps the
    one that worked. *)
Lemma failed_update_keeps_failed_url :
  let res := Run ex_quote (ex_world (ex_app "2.0" "Used") None) (ex_update "http://apps/bad") ex_installed in
  is_Some (rFault res.2) ∧ raw_at res.1 ["SM"; "DeploymentUnit"; "1"; "Status"] = Some "Installed" ∧
  raw_at res.1 ["SM"; "DeploymentUnit"; "1"; "Version"] = Some "1.0" ∧
  raw_at res.1 ["SM"; "DeploymentUnit"; "1"; "URL"] = Some "http://apps/bad" ∧
  url <$> installed res.1 !! "SM.DeploymentUnit.1." = Some "http://apps/hub".
Proof. split_and!; try (vm_compute; reflexivity). eexists. vm_compute. reflexivity. Qed.

(** The comment makes the duplicate rule one UUID per execution environment;
    the check never looks at the environment. *)
Lemma duplicate_ignores_environment (Quote : string → string) {G : Type} (m : Manager G) (man : AppManifest) (uuid : string)
  (du : string) (i : installation) :
  Faults (cfg m) !! appName (mApp man) = None → installed m !! du = Some i → du ≠ "" → reads_uuid (tree m) du uuid = true →
  ∃ f, checkManifest Quote m man uuid "" = Some f ∧ fReason f = ReasonDuplicate.
Proof.
  intros Hf Hi Hne Hr. unfold checkManifest. rewrite Hf. destruct (filter _ _) as [|[p j] l] eqn:E; [|by eexists].
  exfalso. apply (not_elem_of_nil (du, i)). rewrite <-E. apply list_elem_of_filter. split; [done|]. by apply elem_of_map_to_list.
Qed.
