(* ===== verification/Firmware.v ===== *)
(** * Firmware images and the USP firmware commands
    ([internal/firmwareimage/firmwareimage.go], [cmd/cpe-sim/usp_firmware.go],
    [resolveFirmwareVersion] of [cmd/cpe-sim/firmware.go]).

    The HTTP exchange, URL parsing and the digests are parameters. What an
    asynchronous command does is the list of its effects, in order. *)
From Stdlib Require Import ZArith Lia Ascii String.
From S2P Require Import Prelude GoLib GoText GoAuth CpeErr Types Node Tree Listing UspWrites ModulesGlue.

(** ** Images *)

Definition VersionHeader := "cpe-labs-firmware-version:".
Definition versionScanLimit : nat := Z.to_nat (64 * 1024).
Record Image := MkImage { imgVersion : string; imgDigest : string }.

Definition SupportedChecksumAlgorithm (alg : string) : bool :=
  bool_decide (alg ∈ ["SHA-1"; "SHA-224"; "SHA-256"; "SHA-384"; "SHA-512"]).

Fixpoint scan_lines (lines : list string) : option string :=
  match lines with
  | [] => None
  | line :: rest =>
      let s := Space.TrimSpace line in
      if Strings.HasPrefix s VersionHeader then
        let v := Space.TrimSpace (Strings.TrimPrefix s VersionHeader) in
        if String.eqb v "" then None else Some v
      else scan_lines rest
  end.
Definition newline : ascii := ascii_of_nat 10.
Definition ParseVersionHeader (prefix : string) : option string := scan_lines (Strings.Split prefix newline).

(** What a GET comes to. [BodyFailed] is a body that breaks off; which of the
    two reads sees it does not matter. *)
Inductive got := GetFailed (e : error) | Status (code : Z) | BodyFailed (e : error) | Body (body : string).

Section fetch.
(** [hasher.Sum] in hexadecimal, by algorithm. *)
Context (digest : string → string → string).

Definition Fetch_image (checksumAlg : string) (g : got) : result error Image :=
  if negb (String.eqb checksumAlg "") && negb (SupportedChecksumAlgorithm checksumAlg)
  then Err (errorf "unsupported checksum algorithm %q" [checksumAlg])
  else
    match g with
    | GetFailed e => Err (Errorf "fetch firmware image: %w" [] (Some e))
    | Status code => Err (errorf "fetch firmware image: status %d" [Strconv.Itoa code])
    | BodyFailed e => Err (Errorf "read firmware image: %w" [] (Some e))
    | Body body =>
        Ok (MkImage (default "" (ParseVersionHeader (substring 0 versionScanLimit body)))
                    (if String.eqb checksumAlg "" then "" else digest checksumAlg body))
    end.
End fetch.

(** [path.Base] and [path.Ext]. *)
Module Path.
Definition slash : ascii := "/".
Fixpoint strip_slashes (fuel : nat) (s : string) : string :=
  match fuel with
  | O => s
  | S fuel => if Strings.HasSuffix s "/" then strip_slashes fuel (Strings.TrimSuffix s "/") else s
  end.
Definition Base (p : string) : string :=
  if String.eqb p "" then "."
  else
    let s := strip_slashes (String.length p) p in
    let s := match Strings.CutLast s slash with Some (_, after) => after | None => s end in
    if String.eqb s "" then "/" else s.
(** Of a name without slashes. *)
Definition Ext (name : string) : string :=
  match Strings.CutLast name "." with Some (_, after) => "." +:+ after | None => "" end.
End Path.

Definition isNumericExt (ext : string) : bool :=
  (2 <=? String.length ext)%nat && match ext with String _ rest => str_forall is_digit rest | "" => false end.

(** [parsed] is the path of the parsed URL, when it parses. *)
Definition VersionFromURL (parsed : option string) : string :=
  match parsed with
  | None => ""
  | Some p =>
      if String.eqb p "" || Strings.HasSuffix p "/" then ""
      else
        let base := Path.Base p in
        if String.eqb base "." || String.eqb base "/" then ""
        else
          let ext := Path.Ext base in
          if negb (String.eqb ext "") && negb (isNumericExt ext) then Strings.TrimSuffix base ext else base
  end.

(** ** The profile's firmware block *)

Record FirmwareConfig := MkFirmwareConfig { VersionPath : string; ApplyDelay : Z; FetchImage : bool }.

(** [rawFirmware]: [fetch] is a pointer. *)
Record rawFirmware := MkRawFirmware { rfVersionPath : string; rfApplyDelay : string; rfFetch : option bool }.
Definition defaultFirmwareApplyDelay : Z := 30 * 1000000000.

Section config.
Context (ParseDuration : string → result error Z) (Duration_String : Z → string).

Definition validateFirmware (t : Tree) (source : string) (raw : rawFirmware) : result error FirmwareConfig :=
  if String.eqb (rfVersionPath raw) "" then
    Err (errorf "%s: transfer.firmware.versionPath is required (no TR-181 / TR-098 default; supply the parameter-tree path explicitly)" [source])
  else
    match Get t (rfVersionPath raw) with
    | Err e => Err (Errorf "%s: transfer.firmware.versionPath references unknown path %q: %w" [source; rfVersionPath raw] (Some e))
    | Ok v =>
        if bool_decide (vType v ≠ TypeString) then
          Err (errorf "%s: transfer.firmware.versionPath path %q must be %s, got %s"
                 [source; rfVersionPath raw; TypeString; vType v])
        else
          d ← (if String.eqb (rfApplyDelay raw) "" then Ok defaultFirmwareApplyDelay
               else match ParseDuration (rfApplyDelay raw) with
                    | Err e => Err (Errorf "%s: transfer.firmware.applyDelay %q: %w" [source; rfApplyDelay raw] (Some e))
                    | Ok d => if (d <? 0)%Z
                              then Err (errorf "%s: transfer.firmware.applyDelay must be >= 0, got %s" [source; Duration_String d])
                              else Ok d
                    end);
          Ok (MkFirmwareConfig (rfVersionPath raw) d (default true (rfFetch raw)))
    end.
End config.

(** [url_path] is what [neturl.Parse] makes of the URL, [img] what the fetch
    brings when there is one. *)
Definition resolveFirmwareVersion (fw : FirmwareConfig) (img : result error Image) (url_path : option string) (url : string)
  : result error string :=
  if FetchImage fw then
    i ← img;
    if String.eqb (imgVersion i) "" then Err (errorf "no %q line in the image header" [VersionHeader]) else Ok (imgVersion i)
  else
    let v := VersionFromURL url_path in
    if String.eqb v "" then Err (errorf "no version derivable from URL %q" [url]) else Ok v.

(** ** The USP commands ([usp_firmware.go]) *)

Definition uspFirmwareFaultCode : Z := 7800.
Record firmwareCommand := MkFirmwareCommand { fwObjPath : string; fwName : string }.
Definition fw_commandPath (c : firmwareCommand) : string := fwObjPath c +:+ fwName c.

(** The last but one of at least two. *)
Definition second_last (l : list string) : option (string * string) :=
  match rev l with b :: a :: _ => Some (a, b) | _ => None end.
Definition parseFirmwareCommand (command : string) : option firmwareCommand :=
  name ← (if Strings.HasSuffix command ".Download()" then Some "Download()"
          else if Strings.HasSuffix command ".Activate()" then Some "Activate()" else None);
  let obj := Strings.TrimSuffix command name in
  '(table, i) ← second_last (Strings.Split (Strings.TrimSuffix obj ".") ".");
  if String.eqb table "FirmwareImage" && isInstanceSegment i then Some (MkFirmwareCommand obj name) else None.

(** What an accepted command runs. *)
Inductive firmware_op :=
| OpDownload (url checksum alg : string) (autoActivate : bool)
| OpActivate (version : string).

Definition checksum_algorithm (args : gmap string string) : string :=
  if String.eqb (arg args "CheckSum") "" then ""
  else if String.eqb (arg args "CheckSumAlgorithm") "" then "SHA-256" else arg args "CheckSumAlgorithm".
Definition claim_busy (busy : bool) (op : firmware_op) : bool * result (Z * error) firmware_op :=
  if busy then
    (busy, Err (ErrCodeResourcesExceeded,
       errorf "a firmware operation is already in flight; it will not be cancelled, retry after its OperationComplete" []))
  else (true, Ok op).
(** The busy flag as it is left, and the operation the agent is to run. A code
    of 0 is a plain error. *)
Definition uspFirmwareOperate (fw : option FirmwareConfig) (wired busy : bool) (t : Tree) (cmd : firmwareCommand)
  (args : gmap string string) : bool * result (Z * error) firmware_op :=
  match fw with
  | None => (busy, Err (0%Z, errorf "firmware simulation is not enabled: the profile declares no transfer.firmware block" []))
  | Some _ =>
      match Children t (fwObjPath cmd) with
      | Err _ => (busy, Err (ErrCodeObjectDoesNotExist, errorf "object %q does not exist" [fwObjPath cmd]))
      | Ok _ =>
          if negb wired then (busy, Err (0%Z, errorf "no USP agent wired for this CPE" []))
          else if String.eqb (fwName cmd) "Download()" then
            if String.eqb (arg args "URL") "" then (busy, Err (0%Z, errorf "the URL input argument is required" []))
            else
              let alg := checksum_algorithm args in
              if negb (String.eqb (arg args "CheckSum") "") && negb (SupportedChecksumAlgorithm alg)
              then (busy, Err (0%Z, errorf "unsupported CheckSumAlgorithm %q" [alg]))
              else claim_busy busy (OpDownload (arg args "URL") (arg args "CheckSum") alg
                     (bool_decide (default "" (args !! "AutoActivate") ∈ ["true"; "1"])))
          else if String.eqb (fwName cmd) "Activate()" then
            match Get t (fwObjPath cmd +:+ "Version") with
            | Ok v =>
                if String.eqb (Space.TrimSpace (Raw v)) ""
                then (busy, Err (0%Z, errorf "no image to activate: %sVersion is empty" [fwObjPath cmd]))
                else claim_busy busy (OpActivate (Raw v))
            | Err _ => (busy, Err (0%Z, errorf "no image to activate: %sVersion is empty" [fwObjPath cmd]))
            end
          else (busy, Err (0%Z, errorf "command %q is not implemented" [fw_commandPath cmd]))
      end
  end.

(** What a running command does, in order. [Release] is the deferred end of the
    busy claim. *)
Inductive effect :=
| WriteLeaf (path value : string)
| OpFail (code : Z) (msg : string)
| OpComplete
| TransferCompleteEvent (params : list (string * string))
| DisconnectTransport | SleepFor (d : Z) | ConnectTransport | FirmwareBoot (key : string)
| Release.

Section download.
Context (Quote : string → string) (fw : FirmwareConfig) (cmd : firmwareCommand) (commandKey originator : string).

(** [connected] is whether the agent comes back. *)
Definition activateUSPFirmware (connected : bool) (version : string) : list effect :=
  [DisconnectTransport; SleepFor (ApplyDelay fw); WriteLeaf (VersionPath fw) version;
   WriteLeaf (fwObjPath cmd +:+ "Status") "Active"; ConnectTransport] ++
  (if connected then [FirmwareBoot commandKey] else []).

Definition uspTransferCompleteParams (url start now : string) (faultCode : Z) (faultString : string) : list (string * string) :=
  [("Command", fw_commandPath cmd); ("CommandKey", commandKey); ("Requestor", originator); ("TransferType", "Download");
   ("Affected", fwObjPath cmd); ("TransferURL", url); ("StartTime", start); ("CompleteTime", now);
   ("FaultCode", Strconv.Itoa faultCode); ("FaultString", faultString)].

Definition set_status (status : string) : effect := WriteLeaf (fwObjPath cmd +:+ "Status") status.
Definition fail_with (url start now status reason : string) : list effect :=
  [set_status status; OpFail uspFirmwareFaultCode reason;
   TransferCompleteEvent (uspTransferCompleteParams url start now uspFirmwareFaultCode reason)].

Definition mismatch (checksum : string) (i : Image) : bool :=
  negb (String.eqb checksum "") && FetchImage fw && negb (EqualFold (imgDigest i) checksum).
(** From the image on. *)
Definition validated (url checksum alg start now : string) (autoActivate connected : bool) (i : Image) : list effect :=
  set_status "Validating" ::
  (if String.eqb (imgVersion i) "" then
     fail_with url start now "ValidationFailed" (Sprintf Quote "no %q line in the image header" [VersionHeader] "")
   else if mismatch checksum i then
     fail_with url start now "ValidationFailed"
       (Sprintf Quote "%s checksum mismatch: image %s, expected %s" [alg; imgDigest i; ToLower checksum] "")
   else
     [WriteLeaf (fwObjPath cmd +:+ "Version") (imgVersion i); WriteLeaf (fwObjPath cmd +:+ "Available") "true";
      set_status "Available"; OpComplete;
      TransferCompleteEvent (uspTransferCompleteParams url start now 0 "")] ++
     (if autoActivate then activateUSPFirmware connected (imgVersion i) else [])).
Definition runUSPFirmwareDownload (url checksum alg start now : string) (autoActivate connected : bool)
  (url_path : option string) (img : result error Image) : list effect :=
  set_status "Downloading" ::
  (if FetchImage fw then
     match img with
     | Err e => fail_with url start now "DownloadFailed" (Error_text Quote e)
     | Ok i => validated url checksum alg start now autoActivate connected i
     end
   else validated url checksum alg start now autoActivate connected (MkImage (VersionFromURL url_path) "")) ++ [Release].
Definition runActivate (connected : bool) (version : string) : list effect :=
  OpComplete :: activateUSPFirmware connected version ++ [Release].
End download.

(** ** What holds *)

Definition while_online (e : effect) : bool :=
  match e with DisconnectTransport | SleepFor _ | ConnectTransport | FirmwareBoot _ => false | _ => true end.
Definition outcomes (tr : list effect) : list effect :=
  omap (λ e, match e with OpFail _ _ | OpComplete | TransferCompleteEvent _ => Some e | _ => None end) tr.

(** The image a download goes on with. *)
Definition image_of (fw : FirmwareConfig) (url_path : option string) (img : result error Image) : option Image :=
  if FetchImage fw then match img with Ok i => Some i | Err _ => None end else Some (MkImage (VersionFromURL url_path) "").
Definition accepts (fw : FirmwareConfig) (checksum : string) (i : option Image) : option string :=
  i ← i; if String.eqb (imgVersion i) "" || mismatch fw checksum i then None else Some (imgVersion i).

Section download_props.
Context (Quote : string → string) (fw : FirmwareConfig) (cmd : firmwareCommand) (key originator : string).

(** A download reports one outcome and one event of the same verdict, with
    everything the outcome rests on written before; only an accepted image
    that is to be activated takes the agent off line, after all of that, and
    the claim is released last. *)
Theorem download_settles url checksum alg start now auto connected url_path img :
  let tr := runUSPFirmwareDownload Quote fw cmd key originator url checksum alg start now auto connected url_path img in
  ∃ report, Forall (λ e, while_online e = true) report ∧
    match accepts fw checksum (image_of fw url_path img) with
    | Some v =>
        tr = report ++ (if auto then activateUSPFirmware fw cmd key connected v else []) ++ [Release] ∧
        outcomes report = [OpComplete; TransferCompleteEvent (uspTransferCompleteParams cmd key originator url start now 0 "")] ∧
        WriteLeaf (fwObjPath cmd +:+ "Version") v ∈ report ∧ set_status cmd "Available" ∈ report
    | None =>
        tr = report ++ [Release] ∧
        ∃ why, outcomes report = [OpFail uspFirmwareFaultCode why;
          TransferCompleteEvent (uspTransferCompleteParams cmd key originator url start now uspFirmwareFaultCode why)]
    end.
Proof.
  intros tr. subst tr. unfold runUSPFirmwareDownload, accepts, image_of.
  assert (∀ i, ∃ report, Forall (λ e, while_online e = true) report ∧
    match (if String.eqb (imgVersion i) "" || mismatch fw checksum i then None else Some (imgVersion i)) with
    | Some v =>
        set_status cmd "Downloading" :: validated Quote fw cmd key originator url checksum alg start now auto connected i ++ [Release] =
          report ++ (if auto then activateUSPFirmware fw cmd key connected v else []) ++ [Release] ∧
        outcomes report = [OpComplete; TransferCompleteEvent (uspTransferCompleteParams cmd key originator url start now 0 "")] ∧
        WriteLeaf (fwObjPath cmd +:+ "Version") v ∈ report ∧ set_status cmd "Available" ∈ report
    | None =>
        set_status cmd "Downloading" :: validated Quote fw cmd key originator url checksum alg start now auto connected i ++ [Release] = report ++ [Release] ∧
        ∃ why, outcomes report = [OpFail uspFirmwareFaultCode why;
          TransferCompleteEvent (uspTransferCompleteParams cmd key originator url start now uspFirmwareFaultCode why)]
    end) as Hv.
  { intros i. unfold validated. destruct (String.eqb (imgVersion i) "") eqn:Ev; cbn [orb]; [|destruct (mismatch fw checksum i) eqn:Em].
    - eexists (_ :: _ :: _). split; [|split; [reflexivity|by eexists]]. by repeat constructor.
    - eexists (_ :: _ :: _). split; [|split; [reflexivity|by eexists]]. by repeat constructor.
    - eexists [_; _; _; _; _; _; _]. split; [|split; [cbn [app]; reflexivity|]]; [by repeat constructor|].
      split; [reflexivity|]. split; set_solver. }
  destruct (FetchImage fw); [destruct img as [i|e]|]; [apply Hv| |apply Hv].
  eexists (_ :: _). split; [|split; [reflexivity|by eexists]]. by repeat constructor.
Qed.
End download_props.

Example parses_version : ParseVersionHeader ("GIF89a" +:+ String newline " cpe-labs-firmware-version:  2.1 ") = Some "2.1".
Proof. vm_compute. reflexivity. Qed.
Example version_of_url :
  (VersionFromURL (Some "/fw/router-2.0.0"), VersionFromURL (Some "/fw/router-2.1.bin"), VersionFromURL (Some "/fw/")) =
  ("router-2.0.0", "router-2.1", "").
Proof. vm_compute. reflexivity. Qed.
Example parses_firmware_command :
  parseFirmwareCommand "Device.DeviceInfo.FirmwareImage.2.Activate()" =
  Some (MkFirmwareCommand "Device.DeviceInfo.FirmwareImage.2." "Activate()").
Proof. vm_compute. reflexivity. Qed.
