(* ===== verification/LinkFault.v ===== *)
(** * Uplink faults: the profile's block ([internal/paramtree/linkfault.go]).

    What a fault does to a CPE is in [Schedules]. *)
From Stdlib Require Import ZArith Lia Ascii String.
From S2P Require Import Prelude GoLib GoText GoAuth CpeErr Types Node Tree.

Record LinkFaultConfig := MkLinkFault { Interface : string; Duration : Z; From : Z; To : Z; LinkReboot : bool }.
Definition Applies (c : LinkFaultConfig) (instance : Z) : bool :=
  if (From c =? 0)%Z && (To c =? 0)%Z then true else (From c <=? instance)%Z && (instance <=? To c)%Z.
Definition StatusPath (c : LinkFaultConfig) : string := Interface c +:+ "Status".
Definition LastChangePath (c : LinkFaultConfig) : string := Interface c +:+ "LastChange".

Record rawLinkFault := MkRawLinkFault { rlInterface : string; rlDuration : string; rlInstances : string; rlReboot : bool }.
Definition defaultLinkFaultDuration : Z := 120 * 1000000000.

Definition instance_number (s : string) : result error Z :=
  map_err (λ _, errorf "not a range of instance numbers" []) (Strconv.Atoi (Space.TrimSpace s)).
Definition parseInstanceBand (s : string) : result error (Z * Z) :=
  let '(lo, hi) := match Strings.Cut (Space.TrimSpace s) "-" with
                   | Some (lo, hi) => (lo, Some hi)
                   | None => (Space.TrimSpace s, None)
                   end in
  from ← instance_number lo;
  to ← (match hi with Some hi => instance_number hi | None => Ok from end);
  if (from <=? 0)%Z then Err (errorf "instances start at 1" [])
  else if (to <? from)%Z then Err (errorf "range ends before it starts" []) else Ok (from, to).

Section parse.
Context (ParseDuration : string → result error Z) (Duration_String : Z → string).

Definition parseLinkFault (t : Tree) (raw : rawLinkFault) (where_ : string) : result error LinkFaultConfig :=
  let iface := Space.TrimSpace (rlInterface raw) in
  if String.eqb iface "" then Err (errorf "%s: interface is required" [where_])
  else
    let iface := if Strings.HasSuffix iface "." then iface else iface +:+ "." in
    match Get t (iface +:+ "Status") with
    | Err e => Err (Errorf "%s: interface %q has no Status leaf: %w" [where_; iface] (Some e))
    | Ok _ =>
        d ← (if String.eqb (rlDuration raw) "" then Ok defaultLinkFaultDuration
             else match ParseDuration (rlDuration raw) with
                  | Err e => Err (Errorf "%s: duration %q: %w" [where_; rlDuration raw] (Some e))
                  | Ok d => if (d <=? 0)%Z then Err (errorf "%s: duration must be positive, got %s" [where_; Duration_String d]) else Ok d
                  end);
        band ← (if String.eqb (rlInstances raw) "" then Ok (0, 0)%Z
                else map_err (λ e, Errorf "%s: instances %q: %w" [where_; rlInstances raw] (Some e)) (parseInstanceBand (rlInstances raw)));
        Ok (MkLinkFault iface d band.1 band.2 (rlReboot raw))
    end.
End parse.

(** [linkFaultBand] of [cmd/cpe-sim/linkfault.go]. *)
Definition linkFaultBand (c : LinkFaultConfig) : string :=
  if (From c =? 0)%Z && (To c =? 0)%Z then "all" else Strconv.Itoa (From c) +:+ "-" +:+ Strconv.Itoa (To c).

(** A band is never empty and never takes in an instance below 1. *)
Lemma parseInstanceBand_ok s from to : parseInstanceBand s = Ok (from, to) → (1 ≤ from ≤ to)%Z.
Proof.
  unfold parseInstanceBand. destruct (match Strings.Cut _ _ with Some _ => _ | None => _ end) as [lo hi].
  intros (f&_&(t&_&H)%result_bind_ok)%result_bind_ok. revert H.
  destruct (Z.leb_spec f 0); [done|]. destruct (Z.ltb_spec t f); [done|]. intros [= <- <-]. lia.
Qed.

(** A fault that parses covers some device, acts on a leaf that is there and
    ends. *)
Theorem parseLinkFault_sound ParseDuration Duration_String t raw where_ c :
  parseLinkFault ParseDuration Duration_String t raw where_ = Ok c →
  (0 < Duration c)%Z ∧ is_ok (Get t (StatusPath c)) = true ∧ ∃ i, (1 ≤ i)%Z ∧ Applies c i = true.
Proof.
  unfold parseLinkFault. destruct (String.eqb _ ""); [done|].
  destruct (Get _ _) eqn:Eg; [|done].
  intros (d&Hd&(band&Hb&[= <-])%result_bind_ok)%result_bind_ok. split_and!; [cbn [Duration]|unfold StatusPath; cbn [Interface]; by rewrite Eg|].
  - revert Hd. destruct (String.eqb (rlDuration raw) "").
    { intros E. assert (d = defaultLinkFaultDuration) as -> by congruence. reflexivity. }
    destruct (ParseDuration _) as [d'|]; [|done].
    destruct (Z.leb_spec d' 0) as [|Hd']; [done|]. intros E. assert (d = d') as -> by congruence. exact Hd'.
  - revert Hb. destruct (String.eqb (rlInstances raw) ""); [intros E; assert (band = (0, 0)%Z) as -> by congruence; by exists 1%Z|].
    destruct (parseInstanceBand _) as [[f to]|] eqn:E; [|done]. intros E'. assert (band = (f, to)) as -> by (cbn in E'; congruence). apply parseInstanceBand_ok in E.
    exists f. split; [lia|]. unfold Applies. cbn [From To fst snd]. destruct (_ && _); [done|].
    rewrite (proj2 (Z.leb_le f f)), (proj2 (Z.leb_le f to)) by lia. done.
Qed.
Example bands : (parseInstanceBand " 400001 - 400010", parseInstanceBand "7", is_ok (parseInstanceBand "5-3")) =
  (Ok (400001, 400010)%Z, Ok (7, 7)%Z, false).
Proof. vm_compute. reflexivity. Qed.
