(* ===== verification/Schedules.v ===== *)
(** * Deferred work of a CPE ([cmd/cpe-sim/main.go], [firmware.go],
    [linkfault.go]): transfers, the firmware sequence, scheduled reboots and
    factory resets, uplink faults.

    All of it meets in the tree, the tracker, the runner's offline switch and
    the slots of [pendingScheduledCancels]. A callback, a handler's closure and
    a fault are lists of calls still to make; each call is one step, and the
    steps of different goroutines interleave in any order. One-shots are those
    of [Scheduler]. What the runner does with a request is [SessionRunner]'s:
    here a request is recorded, and a session begins when the CPE is online. *)
From Stdlib Require Import ZArith Lia Ascii String.
From S2P Require Import Prelude GoLib GoFloat CpeErr Types Node Tree EventTracker Retry Actions Scheduler Generators Firmware LinkFault.

(** ** The profile *)

Record TransferFault := MkTransferFault { faultCode : Z; faultText : string }.
Record TransferConfig := MkTransferConfig {
  DefaultDelay : Z; Faults : gmap string TransferFault; FirmwareBlock : option FirmwareConfig
}.
(** [rSerial] is the serial a factory reset stamps, and where. [url_path] is
    [neturl.Parse]. *)
Record profile := MkProfile {
  Transfer : TransferConfig; RebootDelay : Z; FactoryResetDelay : Z; Link : option LinkFaultConfig; HasUsp : bool;
  Template : Tree; SerialPath : string; Serial : string; url_path : string → option string
}.

Definition firmwareFileType := "1 Firmware Upgrade Image".
Definition firmwareFaultCode : Z := 9010.
Definition lookupTransferFault (c : TransferConfig) (fileType : string) : TransferFault :=
  default (MkTransferFault 0 "") (Faults c !! fileType).
(** The zero [time.Time], in nanoseconds. *)
Definition zero_time : Z := -62135596800 * 1000000000.

(** ** Calls *)

Inductive slot := SReboot | SFactoryReset | SFirmware.
#[export] Instance slot_eq_dec : EqDecision slot.
Proof. solve_decision. Defined.

(** The callbacks, with what they close over. A transfer carries the number
    under which it was accepted. *)
Inductive task :=
| TransferDone (n : nat) (p : Actions.Pending) (f : TransferFault)
| Settle (n : nat) (fw : FirmwareConfig) (p : Actions.Pending)
| ApplyImage (n : nat) (fw : FirmwareConfig) (p : Actions.Pending) (version : string)
| RebootNow (key : string)
| ResetNow.

(** A fault under way: the value its interface had, whether it has a
    [LastChange] leaf, whether there is a USP agent. *)
Record outage := MkOutage { oCfg : LinkFaultConfig; oUp : string; oHasLastChange : bool; oUsp : bool }.

Inductive action :=
| CancelSlot (s : slot)
| ScheduleTask (s : option slot) (delay : Z) (t : task)
| StoreCancel (s : slot) (c : option (option nat))
| Resolve (n : nat) (fw : FirmwareConfig) (p : Actions.Pending)
| SetOffline | SetOnline
| WriteSystem (path value : string)
| QueueMethod (kind : string → EventTracker → EventTracker) (key : string)
| QueueComplete (n : nat) (c : Z → transfer_Complete)
| ResetRetry
| FactoryReset
| Request (t : Trigger)
| LinkDown | LinkUp
| AwayStart (o : outage) | AwayUntil (began : Z) (o : outage)
| Report (path value : string) | AnnounceBoot | FaultOver.

Definition transfer_body (n : nat) (p : Actions.Pending) (f : TransferFault) : list action :=
  [QueueMethod (if IsDownload p then QueueMethodDownload else QueueMethodUpload) (pCommandKey p);
   QueueComplete n (λ now, MkTransferComplete (pCommandKey p) (faultCode f) (faultText f) (StartTime p) now);
   Request TriggerTransferComplete].
Definition apply_body (n : nat) (fw : FirmwareConfig) (p : Actions.Pending) (version : string) : list action :=
  [StoreCancel SFirmware None; WriteSystem (VersionPath fw) version; QueueMethod QueueMethodDownload (pCommandKey p);
   QueueComplete n (λ _, MkTransferComplete (pCommandKey p) 0 "" zero_time zero_time);
   SetOnline; ResetRetry; Request TriggerStartup].
Definition deliverFirmwareFault (n : nat) (p : Actions.Pending) : list action :=
  [QueueMethod QueueMethodDownload (pCommandKey p);
   QueueComplete n (λ now, MkTransferComplete (pCommandKey p) firmwareFaultCode "invalid firmware image" (StartTime p) now);
   Request TriggerTransferComplete].
Definition body (t : task) : list action :=
  match t with
  | TransferDone n p f => transfer_body n p f
  | Settle n fw p => [StoreCancel SFirmware None; Resolve n fw p]
  | ApplyImage n fw p v => apply_body n fw p v
  | RebootNow key => [StoreCancel SReboot None; QueueMethod QueueMethodReboot key; ResetRetry; Request TriggerStartup]
  | ResetNow => [StoreCancel SFactoryReset None; FactoryReset; ResetRetry; Request TriggerStartup]
  end.
(** The settle callback once the image is known. *)
Definition after_resolve (n : nat) (fw : FirmwareConfig) (p : Actions.Pending) (v : result error string) : list action :=
  match v with
  | Ok v => [SetOffline; ScheduleTask (Some SFirmware) (ApplyDelay fw) (ApplyImage n fw p v)]
  | Err _ => deliverFirmwareFault n p
  end.

Definition Second : Z := 1000000000.
(** [handlers.Schedule]: the closure of [buildTransferScheduler]. *)
Definition scheduleTransfer (pr : profile) (n : nat) (p : Actions.Pending) : list action :=
  let c := Transfer pr in
  let defaultDelay := if (DefaultDelay c <=? 0)%Z then (5 * Second)%Z else DefaultDelay c in
  let delay := i64 (defaultDelay + i64 (i64 (DelaySeconds p) * Second)) in
  let fault := lookupTransferFault c (FileType p) in
  match FirmwareBlock c with
  | Some fw =>
      if IsDownload p && String.eqb (FileType p) firmwareFileType && (faultCode fault =? 0)%Z
      then [CancelSlot SFirmware; ScheduleTask (Some SFirmware) delay (Settle n fw p)]
      else [ScheduleTask None delay (TransferDone n p fault)]
  | None => [ScheduleTask None delay (TransferDone n p fault)]
  end.
Definition scheduleReboot (pr : profile) (key : string) : list action :=
  [CancelSlot SReboot; ScheduleTask (Some SReboot) (RebootDelay pr) (RebootNow key)].
Definition scheduleFactoryReset (pr : profile) : list action :=
  [CancelSlot SFactoryReset; ScheduleTask (Some SFactoryReset) (FactoryResetDelay pr) ResetNow].

(** [runLinkFault], up to its window and from it on. *)
Definition outage_begins (o : outage) : list action :=
  (if oUsp o then [LinkDown] else []) ++ [SetOffline; WriteSystem (StatusPath (oCfg o)) "Down"] ++
  (if oHasLastChange o then [WriteSystem (LastChangePath (oCfg o)) "0"] else []) ++ [AwayStart o].
Definition outage_ends (o : outage) (down : Z) : list action :=
  let report l := if oUsp o then l else [] in
  let report_change v := if oHasLastChange o then report [Report (LastChangePath (oCfg o)) v] else [] in
  report [LinkUp] ++ [SetOnline] ++
  report [Report (StatusPath (oCfg o)) "Down"] ++ report_change (Strconv.Itoa (float64_int64 (Seconds down))) ++
  [WriteSystem (StatusPath (oCfg o)) (oUp o)] ++ report_change "0" ++
  (if LinkReboot (oCfg o) then report [AnnounceBoot] else []) ++ [FaultOver].

(** ** The CPE *)

(** A one-shot with the calls its callback has still to make, or a goroutine. *)
Inductive actor := Shot (o : once) (todo : list action) | Thread (todo : list action).
Definition todo_of (a : actor) : list action := match a with Shot _ l | Thread l => l end.
Definition with_todo (l : list action) (a : actor) : actor :=
  match a with Shot o _ => Shot o l | Thread _ => Thread l end.
Definition running (a : actor) : bool :=
  match a with Shot o _ => match oAt o with ORunning => true | _ => false end | Thread _ => true end.

Inductive event :=
| Requested (t : Trigger) | LinkIs (up : bool) | Reported (path value : string) | Booted.
Record device := MkDevice {
  tree : Tree; told : list Change; tracker : EventTracker; retry : RetryState; log : list event
}.
(** The slots: no cancel function, one of a stopped scheduler, one of an actor. *)
Record pendingScheduledCancels := MkCancels {
  reboot : option (option nat); factoryReset : option (option nat); firmware : option (option nat)
}.
(** [session] is the handler's calls while a session is in progress. [tickets]
    counts the transfers accepted; [settled] is what was reported of each. *)
Record cpe := MkCpe {
  sched : Scheduler; actors : list actor; cancels : pendingScheduledCancels;
  session : option (list action); offline : bool; linkFaultBusy : bool; dev : device;
  tickets : nat; settled : list (nat * transfer_Complete)
}.

Definition set_sched x (s : cpe) : cpe := MkCpe x (actors s) (cancels s) (session s) (offline s) (linkFaultBusy s) (dev s) (tickets s) (settled s).
Definition set_actors x (s : cpe) : cpe := MkCpe (sched s) x (cancels s) (session s) (offline s) (linkFaultBusy s) (dev s) (tickets s) (settled s).
Definition set_cancels x (s : cpe) : cpe := MkCpe (sched s) (actors s) x (session s) (offline s) (linkFaultBusy s) (dev s) (tickets s) (settled s).
Definition set_session x (s : cpe) : cpe := MkCpe (sched s) (actors s) (cancels s) x (offline s) (linkFaultBusy s) (dev s) (tickets s) (settled s).
Definition set_offline x (s : cpe) : cpe := MkCpe (sched s) (actors s) (cancels s) (session s) x (linkFaultBusy s) (dev s) (tickets s) (settled s).
Definition set_busy x (s : cpe) : cpe := MkCpe (sched s) (actors s) (cancels s) (session s) (offline s) x (dev s) (tickets s) (settled s).
Definition set_dev x (s : cpe) : cpe := MkCpe (sched s) (actors s) (cancels s) (session s) (offline s) (linkFaultBusy s) x (tickets s) (settled s).
Definition settle n c (s : cpe) : cpe := MkCpe (sched s) (actors s) (cancels s) (session s) (offline s) (linkFaultBusy s) (dev s) (tickets s) (settled s ++ [(n, c)]).
Definition next_ticket (s : cpe) : cpe := MkCpe (sched s) (actors s) (cancels s) (session s) (offline s) (linkFaultBusy s) (dev s) (S (tickets s)) (settled s).

Definition on_tree {A} (op : Tree → outcome A) (d : device) : device * result error A :=
  let '(t, cs, r) := op (tree d) in (MkDevice t (told d ++ cs) (tracker d) (retry d) (log d), r).
Definition on_tracker (f : EventTracker → EventTracker) (d : device) : device :=
  MkDevice (tree d) (told d) (f (tracker d)) (retry d) (log d).
Definition logs (e : event) (d : device) : device := MkDevice (tree d) (told d) (tracker d) (retry d) (log d ++ [e]).
Definition reset_retry (d : device) : device := MkDevice (tree d) (told d) (tracker d) (Reset (retry d)) (log d).

(** The [factoryReset] closure of [buildCPEStack]; its error is only logged. *)
Definition factory_reset (pr : profile) (d : device) : device :=
  match on_tree (λ t, Reset_ t (Some (Clone (Template pr)))) d with
  | (d, Err _) => d
  | (d, Ok _) =>
      match on_tree (λ t, SetSystem t (SerialPath pr) (Serial pr)) d with
      | (d, Err _) => d
      | (d, Ok _) => on_tracker ResetBootstrap d
      end
  end.

Definition get_slot (s : slot) (c : pendingScheduledCancels) : option (option nat) :=
  match s with SReboot => reboot c | SFactoryReset => factoryReset c | SFirmware => firmware c end.
Definition set_slot (s : slot) (f : option (option nat)) (c : pendingScheduledCancels) : pendingScheduledCancels :=
  match s with
  | SReboot => MkCancels f (factoryReset c) (firmware c)
  | SFactoryReset => MkCancels (reboot c) f (firmware c)
  | SFirmware => MkCancels (reboot c) (factoryReset c) f
  end.
Definition cancel_shot (a : actor) : actor := match a with Shot o l => Shot (cancel o) l | Thread l => Thread l end.
(** [cancelReboot], [cancelFactoryReset], [cancelFirmware]. *)
Definition cancel_slot (sl : slot) (s : cpe) : cpe :=
  match get_slot sl (cancels s) with
  | None => s
  | Some f =>
      set_cancels (set_slot sl None (cancels s))
        (match f with Some id => set_actors (alter cancel_shot id (actors s)) s | None => s end)
  end.

Section step.
Context (pr : profile).

(** One call, and the calls it turns into. [img] is what a fetch of this
    moment brings. *)
Definition do_action (img : result error Image) (a : action) (s : cpe) : cpe * list action :=
  match a with
  | CancelSlot sl => (cancel_slot sl s, [])
  | ScheduleTask sl delay t =>
      match ScheduleOnce (sched s) delay with
      | Some o =>
          (set_actors (actors s ++ [Shot o (body t)]) s,
           match sl with Some sl => [StoreCancel sl (Some (Some (length (actors s))))] | None => [] end)
      | None => (s, match sl with Some sl => [StoreCancel sl (Some None)] | None => [] end)
      end
  | StoreCancel sl c => (set_cancels (set_slot sl c (cancels s)) s, [])
  | Resolve n fw p => (s, after_resolve n fw p (resolveFirmwareVersion fw img (url_path pr (URL p)) (URL p)))
  | SetOffline => (set_offline true s, [])
  | SetOnline => (set_offline false s, [])
  | WriteSystem path value => (set_dev (on_tree (λ t, SetSystem t path value) (dev s)).1 s, [])
  | QueueMethod kind key => (set_dev (on_tracker (kind key) (dev s)) s, [])
  | QueueComplete n c =>
      (settle n (c (clock (sched s))) (set_dev (on_tracker (QueueTransferComplete (c (clock (sched s)))) (dev s)) s), [])
  | ResetRetry => (set_dev (reset_retry (dev s)) s, [])
  | FactoryReset => (set_dev (factory_reset pr (dev s)) s, [])
  | Request t => (set_dev (logs (Requested t) (dev s)) s, [])
  | LinkDown => (set_dev (logs (LinkIs false) (dev s)) s, [])
  | LinkUp => (set_dev (logs (LinkIs true) (dev s)) s, [])
  | AwayStart o => (s, [AwayUntil (clock (sched s)) o])
  | AwayUntil began o => (s, outage_ends o (clock (sched s) - began))
  | Report path value => (set_dev (logs (Reported path value) (dev s)) s, [])
  | AnnounceBoot => (set_dev (logs Booted (dev s)) s, [])
  | FaultOver => (set_busy false s, [])
  end.
(** Only the end of an outage has to be waited for. *)
Definition ready (a : action) (s : cpe) : bool :=
  match a with AwayUntil began o => (began + Duration (oCfg o) <=? clock (sched s))%Z | _ => true end.

(** What the [Up] of the interface was, and whether it has a [LastChange]. *)
Definition new_outage (c : LinkFaultConfig) (t : Tree) : outage :=
  MkOutage c
    (match Get t (StatusPath c) with Ok v => if String.eqb (Raw v) "" then "Up" else Raw v | Err _ => "Up" end)
    (is_ok (Get t (LastChangePath c))) (HasUsp pr).

Inductive move :=
| Fire (i : nat) | Quit (i : nat) | DropOut (i : nat) | Act (i : nat) (img : result error Image) | Return (i : nat)
| Begin | Handle (img : result error Image) | End_
| AcceptTransfer (p : Actions.Pending) | AcceptReboot (key : string) | AcceptReset | UspReboot (key : string)
| CutLink | AdvanceTo (now : Z) | StopScheduler | Others (d : device).

(** A one-shot's own steps, which are [Scheduler.once_step]'s. *)
Definition on_shot (i : nat) (f : once → option once) (s : cpe) : option cpe :=
  match actors s !! i with
  | Some (Shot o l) => o' ← f o; Some (set_actors (<[i := Shot o' l]> (actors s)) s)
  | _ => None
  end.
Definition act (i : nat) (img : result error Image) (s : cpe) : option cpe :=
  match actors s !! i with
  | Some a =>
      match todo_of a with
      | x :: rest =>
          if running a && ready x s then
            let '(s, more) := do_action img x (set_actors (<[i := with_todo rest a]> (actors s)) s) in
            Some (set_actors (alter (λ a, with_todo (more ++ todo_of a) a) i (actors s)) s)
          else None
      | [] => None
      end
  | None => None
  end.
(** The handler's closures run in the session's goroutine. *)
Definition accept (todo : list action) (s : cpe) : option cpe :=
  match session s with Some [] => Some (set_session (Some todo) s) | _ => None end.
Definition at_ (pc : once_pc) (o : once) : bool :=
  match oAt o, pc with OWaiting, OWaiting | OFired, OFired | ORunning, ORunning | ODone, ODone => true | _, _ => false end.

Definition perform (m : move) (s : cpe) : option cpe :=
  match m with
  | Fire i => on_shot i (λ o, if at_ OWaiting o && (oDue o <=? clock (sched s))%Z then Some (once_fire o) else None) s
  | Quit i => on_shot i (λ o, if at_ OWaiting o && (cancelClosed o || stopped (sched s)) then Some (once_done o) else None) s
  | DropOut i => on_shot i (λ o, if at_ OFired o then Some (once_check o) else None) s
  | Act i img => act i img s
  | Return i =>
      match actors s !! i with
      | Some (Shot o []) => on_shot i (λ o, if at_ ORunning o then Some (once_done o) else None) s
      | _ => None
      end
  | Begin => if offline s then None else match session s with None => Some (set_session (Some []) s) | Some _ => None end
  | Handle img =>
      match session s with
      | Some (x :: rest) =>
          let '(s, more) := do_action img x (set_session (Some rest) s) in
          Some (set_session (Some (more ++ default [] (session s))) s)
      | _ => None
      end
  | End_ => match session s with Some [] => Some (set_session None s) | _ => None end
  | AcceptTransfer p => next_ticket <$> accept (scheduleTransfer pr (tickets s) p) s
  | AcceptReboot key => if (0 <? RebootDelay pr)%Z then accept (scheduleReboot pr key) s else None
  | AcceptReset => if (0 <? FactoryResetDelay pr)%Z then accept (scheduleFactoryReset pr) s else None
  (* the USP command, on the agent's goroutine *)
  | UspReboot key =>
      if HasUsp pr && (0 <? RebootDelay pr)%Z then Some (set_actors (actors s ++ [Thread (scheduleReboot pr key)]) s) else None
  | CutLink =>
      match Link pr with
      | Some c =>
          if linkFaultBusy s then None
          else Some (set_busy true (set_actors (actors s ++ [Thread (outage_begins (new_outage c (tree (dev s))))]) s))
      | None => None
      end
  | AdvanceTo now =>
      if (clock (sched s) <=? now)%Z
      then Some (set_sched (MkScheduler (cpes (sched s)) (started (sched s)) (stopped (sched s)) now) s) else None
  | StopScheduler => Some (set_sched (MkScheduler (cpes (sched s)) (started (sched s)) true (clock (sched s))) s)
  (* whatever the rest of the CPE does to the device *)
  | Others d => Some (set_dev d s)
  end.
Definition step (s s' : cpe) : Prop := ∃ m, perform m s = Some s'.

Definition initial (sc : Scheduler) (d : device) : cpe :=
  MkCpe sc [] (MkCancels None None None) None false false d 0 [].
Inductive reachable : cpe → Prop :=
| reach_start sc d : stopped sc = false → reachable (initial sc d)
| reach_step s s' : reachable s → step s s' → reachable s'.

Fixpoint play (ms : list move) (s : cpe) : option cpe :=
  match ms with [] => Some s | m :: ms => s ← perform m s; play ms s end.
Lemma schedule_reachable ms s s' : reachable s → play ms s = Some s' → reachable s'.
Proof.
  revert s; induction ms as [|m ms IH]; cbn; intros s Hs; [by intros [= <-]|].
  destruct (perform m s) as [s1|] eqn:E; [|done]. cbn. intros Hp. apply (IH s1); [|done]. apply (reach_step s); [done|by exists m].
Qed.

(** ** What a step does to the actors *)

(** [a] of the list is [b] afterwards, but for a cancellation. *)
Definition same_actor (a b : actor) : Prop := b = a ∨ b = cancel_shot a.
Lemma same_todo a b : same_actor a b → todo_of b = todo_of a.
Proof. intros [->| ->]; [done|by destruct a]. Qed.

(** A call keeps every actor, may cancel some, and may start one. *)
Lemma do_action_actors img x s s' more : do_action img x s = (s', more) →
  ∃ l new, actors s' = l ++ new ∧ Forall2 same_actor (actors s) l ∧
    (new = [] ∨ ∃ sl d t o, x = ScheduleTask sl d t ∧ ScheduleOnce (sched s) d = Some o ∧ new = [Shot o (body t)]).
Proof.
  assert (∀ l : list actor, Forall2 same_actor l l) as Hrefl by (intros l; apply Forall_Forall2_diag, Forall_true; by left).
  assert (∀ s1, actors s1 = actors s → ∃ l new, actors s1 = l ++ new ∧ Forall2 same_actor (actors s) l ∧
    (new = [] ∨ ∃ sl d t o, x = ScheduleTask sl d t ∧ ScheduleOnce (sched s) d = Some o ∧ new = [Shot o (body t)])) as Hk.
  { intros s1 H. exists (actors s), []. rewrite app_nil_r. split_and!; [done|apply Hrefl|by left]. }
  destruct x; cbn [do_action]; try (intros [= <- <-]; by apply Hk).
  - intros [= <- <-]. unfold cancel_slot. destruct (get_slot _ _) as [[id|]|]; [|by apply Hk|by apply Hk].
    exists (alter cancel_shot id (actors s)), []. rewrite app_nil_r. split_and!; [done| |by left].
    apply Forall2_same_length_lookup_2; [by rewrite length_alter|]. intros i a b Ha Hb.
    rewrite list_lookup_alter in Hb. destruct (decide (id = i)) as [->|]; rewrite Ha in Hb; cbn in Hb; injection Hb as <-; [by right|by left].
  - destruct (ScheduleOnce (sched s) delay) as [o|] eqn:E; intros [= <- <-]; [|by apply Hk].
    exists (actors s), [Shot o (body t)]. split_and!; [done|apply Hrefl|right]. by exists s0, delay, t, o.
Qed.
End step.
