(* ===== verification/SchedulesProps.v ===== *)
(** * Deferred work: what is promised.

    Every accepted transfer is reported once unless it was called off; a dark
    CPE comes back unless its image was called off; and where the slots and the
    one offline switch let the code down. *)
From Stdlib Require Import ZArith Lia Ascii String.
From S2P Require Import Prelude GoLib GoFloat CpeErr Types Node Tree EventTracker Retry Actions Scheduler Generators Firmware LinkFault Schedules.

Lemma alter_insert {A} (f : A → A) i (l : list A) a : l !! i = Some a → alter f i l = <[i := f a]> l.
Proof.
  intros H. apply list_eq. intros j. rewrite list_lookup_alter, list_lookup_insert. apply lookup_lt_Some in H as Hl.
  destruct (decide (i = j)) as [<-|Hne].
  - rewrite H, decide_True by (split; [reflexivity|exact Hl]). reflexivity.
  - rewrite decide_False by (intros [? _]; done). done.
Qed.
Lemma sum_insert {A} (f : A → nat) l i a b : l !! i = Some a → (sum_list_with f (<[i := b]> l) + f a = sum_list_with f l + f b)%nat.
Proof. revert i; induction l as [|x l IH]; intros [|i] H; csimpl in *; [done|done|injection H as <-; lia|specialize (IH i H); lia]. Qed.
Lemma sum_same {A} (f : A → nat) (R : A → A → Prop) l k : (∀ a b, R a b → f b = f a) → Forall2 R l k → sum_list_with f k = sum_list_with f l.
Proof. intros Hf. induction 1 as [|a b l k Hab _ IH]; cbn; [done|]. by rewrite (Hf a b Hab), IH. Qed.

(** ** Every transfer settles once *)

Definition task_owes (n : nat) (t : task) : nat :=
  match t with
  | TransferDone m _ _ | Settle m _ _ | ApplyImage m _ _ _ => if decide (m = n) then 1 else 0
  | RebootNow _ | ResetNow => 0
  end.
(** The reports of transfer [n] a call leads to. *)
Definition owes (n : nat) (x : action) : nat :=
  match x with
  | ScheduleTask _ _ t => task_owes n t
  | Resolve m _ _ | QueueComplete m _ => if decide (m = n) then 1 else 0
  | _ => 0
  end.
Definition owed (n : nat) (l : list action) : nat := sum_list_with (owes n) l.
Definition reports (n : nat) (s : cpe) : nat := length (filter (λ r, r.1 = n) (settled s)).
(** An actor that will go on: a goroutine, a callback that runs, a one-shot
    that waits and was not cancelled. *)
Definition going (a : actor) : bool :=
  match a with
  | Shot o _ => match oAt o with OWaiting | OFired => negb (cancelClosed o) | ORunning => true | ODone => false end
  | Thread _ => true
  end.
Definition pending (n : nat) (s : cpe) : nat :=
  owed n (default [] (session s)) + sum_list_with (λ a, if going a then owed n (todo_of a) else 0) (actors s).
Definition dropped (n : nat) (s : cpe) : nat := sum_list_with (λ a, if going a then 0 else owed n (todo_of a)) (actors s).

Definition held (n : nat) (s : cpe) : nat := sum_list_with (λ a, owed n (todo_of a)) (actors s).
Definition total (n : nat) (s : cpe) : nat := reports n s + owed n (default [] (session s)) + held n s.
Lemma total_split n s : total n s = (reports n s + pending n s + dropped n s)%nat.
Proof.
  unfold total, pending, dropped, held. enough (∀ l,
    sum_list_with (λ a, owed n (todo_of a)) l =
    (sum_list_with (λ a, if going a then owed n (todo_of a) else 0) l + sum_list_with (λ a, if going a then 0 else owed n (todo_of a)) l)%nat) as ->
    by lia.
  induction l as [|a l IH]; cbn; [done|]. rewrite IH. destruct (going a); lia.
Qed.
Lemma owed_app n l k : owed n (l ++ k) = (owed n l + owed n k)%nat.
Proof. apply sum_list_with_app. Qed.
Lemma owed_body n t : owed n (body t) = task_owes n t.
Proof. destruct t as [m p f|m fw p|m fw p v|k|]; try done; cbn; case_decide; lia. Qed.
Lemma owed_outage n o : owed n (outage_begins o) = 0%nat ∧ ∀ d, owed n (outage_ends o d) = 0%nat.
Proof. unfold outage_begins, outage_ends. by destruct o as [[? ? ? ? []] ? [] []]. Qed.
Lemma owed_transfer pr n m p : owed n (scheduleTransfer pr m p) = if decide (m = n) then 1%nat else 0%nat.
Proof.
  unfold scheduleTransfer. destruct (FirmwareBlock _); [destruct (_ && _)|]; cbn; case_decide; lia.
Qed.

Section props.
Context (pr : profile).

Lemma do_action_kept img x s s' more : do_action pr img x s = (s', more) →
  session s' = session s ∧ sched s' = sched s ∧ tickets s' = tickets s.
Proof.
  destruct x; cbn [do_action]; try (by intros [= <- <-]).
  - intros [= <- <-]. unfold cancel_slot. by destruct (get_slot _ _) as [[id|]|].
  - destruct (ScheduleOnce _ _); by intros [= <- <-].
Qed.
Lemma do_action_settled img x s s' more n : do_action pr img x s = (s', more) →
  reports n s' = (reports n s + match x with QueueComplete m _ => if decide (m = n) then 1 else 0 | _ => 0 end)%nat.
Proof.
  destruct x; cbn [do_action]; try (intros [= <- <-]; unfold reports; cbn; lia).
  - intros [= <- <-]. unfold reports, cancel_slot. destruct (get_slot _ _) as [[id|]|]; cbn; lia.
  - destruct (ScheduleOnce _ _); intros [= <- <-]; unfold reports; cbn; lia.
  - intros [= <- <-]. unfold reports. cbn. rewrite filter_app, length_app. f_equal.
    case_decide; [by rewrite filter_cons_True|by rewrite filter_cons_False].
Qed.
Lemma do_action_total img x s s' more n : stopped (sched s) = false → do_action pr img x s = (s', more) →
  (total n s' + owed n more = total n s + owes n x)%nat.
Proof.
  intros Hs E. pose proof (do_action_kept _ _ _ _ _ E) as (Hse&_&_). pose proof (do_action_settled _ _ _ _ _ n E) as Hr.
  destruct (do_action_actors pr _ _ _ _ _ E) as (l&new&Ha&Hl&Hn). unfold total, held. rewrite Hr, Hse, Ha, sum_list_with_app.
  rewrite (sum_same _ _ _ _ (λ a b Hab, f_equal (owed n) (same_todo a b Hab)) Hl).
  destruct Hn as [->|(sl&d&t&o&->&Ho&->)].
  - cbn [sum_list_with]. destruct x; cbn [do_action] in E; try (injection E as <- <-; cbn; lia).
    + unfold ScheduleOnce in E. rewrite Hs in E. injection E as <- <-. cbn [actors set_actors] in Ha.
      apply (f_equal length) in Ha. apply Forall2_length in Hl. rewrite !length_app in Ha. cbn in Ha. lia.
    + injection E as <- <-. unfold after_resolve, deliverFirmwareFault. destruct (resolveFirmwareVersion _ _ _ _); cbn; lia.
    + injection E as <- <-. rewrite (proj2 (owed_outage n o)). cbn. lia.
  - cbn [do_action] in E. rewrite Ho in E. injection E as <- <-. cbn [sum_list_with todo_of owes]. rewrite owed_body. destruct sl; cbn; lia.
Qed.

(** The actor that makes a call is still there after it. *)
Lemma do_action_actor img x s s' more i a : do_action pr img x s = (s', more) → actors s !! i = Some a →
  ∃ b, actors s' !! i = Some b ∧ same_actor a b.
Proof.
  intros E Hi. destruct (do_action_actors pr _ _ _ _ _ E) as (l&new&Ha&Hl&_).
  destruct (Forall2_lookup_l _ _ _ _ _ Hl Hi) as (b&Hb&Hab). exists b. split; [|done]. rewrite Ha. by apply lookup_app_l_Some.
Qed.
(** An [act], taken apart. *)
Lemma act_inv i img s s' : act pr i img s = Some s' →
  ∃ a x rest s2 more b, actors s !! i = Some a ∧ todo_of a = x :: rest ∧ running a = true ∧ ready x s = true ∧
    do_action pr img x (set_actors (<[i := with_todo rest a]> (actors s)) s) = (s2, more) ∧
    actors s2 !! i = Some b ∧ same_actor (with_todo rest a) b ∧
    s' = set_actors (<[i := with_todo (more ++ rest) b]> (actors s2)) s2.
Proof.
  unfold act. destruct (actors s !! i) as [a|] eqn:Hi; [|done]. destruct (todo_of a) as [|x rest] eqn:Ht; [done|].
  destruct (running a && ready x s) eqn:Hg; [|done]. apply andb_true_iff in Hg as [Hg Hr].
  destruct (do_action _ _ _ _) as [s2 more] eqn:E. intros [= <-].
  destruct (do_action_actor _ _ _ _ _ i (with_todo rest a) E) as (b&Hb&Hab).
  { apply list_lookup_insert_eq. by eapply lookup_lt_Some. }
  exists a, x, rest, s2, more, b. split_and!; try done. rewrite (alter_insert _ _ _ _ Hb).
  rewrite (same_todo _ _ Hab). by destruct a.
Qed.
Lemma held_insert n i a b s : actors s !! i = Some a →
  (held n (set_actors (<[i := b]> (actors s)) s) + owed n (todo_of a) = held n s + owed n (todo_of b))%nat.
Proof. intros H. exact (sum_insert (λ a, owed n (todo_of a)) (actors s) i a b H). Qed.
Lemma total_actors n l s : total n (set_actors l s) = (reports n s + owed n (default [] (session s)) + held n (set_actors l s))%nat.
Proof. done. Qed.
Lemma todo_with l a : todo_of (with_todo l a) = l.
Proof. by destruct a. Qed.

Lemma on_shot_inv i f s s' : on_shot i f s = Some s' →
  ∃ o l o', actors s !! i = Some (Shot o l) ∧ f o = Some o' ∧ s' = set_actors (<[i := Shot o' l]> (actors s)) s.
Proof.
  unfold on_shot. destruct (actors s !! i) as [[o l|]|] eqn:Hi; [|done|done]. destruct (f o) as [o'|] eqn:Ho; [|done].
  intros [= <-]. by exists o, l, o'.
Qed.
Lemma on_shot_total i f s s' n : on_shot i f s = Some s' → total n s' = total n s.
Proof.
  intros (o&l&o'&Hi&_&->)%on_shot_inv. rewrite total_actors. pose proof (held_insert n i _ (Shot o' l) s Hi) as H. cbn [todo_of] in H.
  unfold total. lia.
Qed.
Lemma act_total i img s s' n : stopped (sched s) = false → act pr i img s = Some s' → total n s' = total n s.
Proof.
  intros Hs (a&x&rest&s2&more&b&Hi&Ht&_&_&E&Hb&Hab&->)%act_inv. rewrite total_actors.
  pose proof (do_action_total _ _ (set_actors (<[i := with_todo rest a]> (actors s)) s) _ _ n Hs E) as H2. pose proof (held_insert n i _ (with_todo rest a) s Hi) as H1.
  pose proof (held_insert n i _ (with_todo (more ++ rest) b) s2 Hb) as H3.
  rewrite todo_with, ?Ht, owed_app in *. rewrite (same_todo _ _ Hab), todo_with in H3. cbn [owed sum_list_with] in H1.
  fold (owed n rest) in H1. rewrite total_actors in H2. unfold total in *. lia.
Qed.
Lemma handle_total img x rest s s2 more n : stopped (sched s) = false → session s = Some (x :: rest) →
  do_action pr img x (set_session (Some rest) s) = (s2, more) →
  total n (set_session (Some (more ++ default [] (session s2))) s2) = total n s.
Proof.
  intros Hs Hse E. pose proof (do_action_total _ _ (set_session (Some rest) s) _ _ n Hs E) as H. pose proof (do_action_kept _ _ _ _ _ E) as (H'&_&_).
  unfold total in *. cbn [session set_session] in *. rewrite H', Hse in *. cbn [from_option id] in *.
  change (held n (set_session _ s2)) with (held n s2). change (held n (set_session _ s)) with (held n s) in H.
  change (reports n (set_session _ s2)) with (reports n s2). change (reports n (set_session _ s)) with (reports n s) in H.
  rewrite owed_app. cbn [owed sum_list_with]. fold (owed n rest). unfold id in *. lia.
Qed.
Lemma accept_inv todo s s' : accept todo s = Some s' → session s = Some [] ∧ s' = set_session (Some todo) s.
Proof. unfold accept. destruct (session s) as [[|]|]; [|done..]. by intros [= <-]. Qed.

Lemma total_session n l s : total n (set_session l s) = (reports n s + owed n (default [] l) + held n s)%nat.
Proof. done. Qed.
Lemma total_grown n l s : total n (set_actors (actors s ++ [Thread l]) s) = (total n s + owed n l)%nat.
Proof. unfold total, held. cbn [actors set_actors session]. rewrite sum_list_with_app. cbn [sum_list_with todo_of]. change (reports n (set_actors _ s)) with (reports n s). lia. Qed.
Lemma perform_total m s s' n : perform pr m s = Some s' → stopped (sched s') = false →
  stopped (sched s) = false ∧ (total n s' + (if decide (n < tickets s)%nat then 1 else 0) = total n s + (if decide (n < tickets s')%nat then 1 else 0))%nat.
Proof.
  assert (∀ f i s1, on_shot i f s = Some s1 → sched s1 = sched s ∧ tickets s1 = tickets s) as Hshot.
  { intros f i s1 (o&l&o'&_&_&->)%on_shot_inv. done. }
  assert (∀ f i, on_shot i f s = Some s' → stopped (sched s') = false →
    stopped (sched s) = false ∧ (total n s' + (if decide (n < tickets s)%nat then 1 else 0) = total n s + (if decide (n < tickets s')%nat then 1 else 0))%nat) as Hs.
  { intros f i E Hst. pose proof (Hshot f i s' E) as [Hsc Htk]. rewrite Hsc in Hst. rewrite (on_shot_total _ _ _ _ n E), Htk. split; [done|lia]. }
  destruct m; cbn [perform]; try apply Hs.
  - intros E Hst. pose proof E as (a&x&rest&s2&more&b&_&_&_&_&E2&_&_&->)%act_inv.
    pose proof (do_action_kept _ _ _ _ _ E2) as (_&Hsc&Htk). cbn in Hst, Hsc, Htk. cbn [sched set_actors tickets] in *.
    rewrite Hsc in Hst. rewrite (act_total _ _ _ _ n Hst E). cbn [tickets set_actors]. rewrite Htk. split; [done|lia].
  - destruct (actors s !! i) as [[o [|]|]|]; try done. apply Hs.
  - destruct (offline s); [done|]. destruct (session s) eqn:Hse; [done|]. intros [= <-] Hst. split; [done|]. rewrite total_session. unfold total. rewrite Hse. cbn. lia.
  - destruct (session s) as [[|x rest]|] eqn:Hse; [done| |done].
    destruct (do_action _ _ _ _) as [s2 more] eqn:E. intros [= <-] Hst.
    pose proof (do_action_kept _ _ _ _ _ E) as (_&Hsc&Htk). cbn [sched set_session tickets] in *. rewrite Hsc in Hst.
    rewrite (handle_total _ _ _ _ _ _ n Hst Hse E), Htk. split; [done|lia].
  - destruct (session s) as [[|]|] eqn:Hse; [|done..]. intros [= <-] Hst. split; [done|]. rewrite total_session. unfold total. rewrite Hse. cbn. lia.
  - destruct (accept _ s) as [s1|] eqn:E; [|done]. intros [= <-] Hst. apply accept_inv in E as [Hse ->]. split; [done|].
    change (total n (next_ticket ?s)) with (total n s). rewrite total_session. cbn [from_option id]. rewrite owed_transfer.
    unfold total. rewrite Hse. cbn. repeat case_decide; lia.
  - destruct (0 <? RebootDelay pr)%Z; [|done]. intros (Hse&->)%accept_inv Hst. split; [done|]. rewrite total_session. unfold total. rewrite Hse. cbn. lia.
  - destruct (0 <? FactoryResetDelay pr)%Z; [|done]. intros (Hse&->)%accept_inv Hst. split; [done|]. rewrite total_session. unfold total. rewrite Hse. cbn. lia.
  - destruct (_ && _); [|done]. intros [= <-] Hst. split; [done|]. rewrite total_grown. cbn. lia.
  - destruct (Link pr); [|done]. destruct (linkFaultBusy s); [done|]. intros [= <-] Hst. split; [done|].
    change (total n (set_busy true ?s)) with (total n s). rewrite total_grown, (proj1 (owed_outage n _)). cbn. lia.
  - destruct (_ <=? _)%Z; [|done]. intros [= <-] Hst. split; [done|]. change (total n (set_sched _ s)) with (total n s). cbn. lia.
  - intros [= <-] Hst. done.
  - intros [= <-] Hst. split; [done|]. change (total n (set_dev _ s)) with (total n s). cbn. lia.
Qed.

(** ** What an actor may still do *)

(** The calls that end in the CPE being online. *)
Definition brings (x : action) : bool :=
  match x with
  | SetOnline | ScheduleTask _ _ (ApplyImage _ _ _ _) | AwayStart _ | AwayUntil _ _ => true
  | _ => false
  end.
(** Whoever goes off line has it in its calls to come back. *)
Fixpoint covered (l : list action) : bool :=
  match l with
  | [] => true
  | SetOffline :: r => existsb brings r && covered r
  | _ :: r => covered r
  end.
Lemma covered_app l k : covered l = true → covered k = true → covered (l ++ k) = true.
Proof.
  induction l as [|x l IH]; [done|]. intros Hl Hk. destruct x; try exact (IH Hl Hk).
  cbn in *. apply andb_true_iff in Hl as [Hb Hl]. by rewrite existsb_app, Hb, IH.
Qed.
Lemma covered_cons x l : covered (x :: l) = true → covered l = true.
Proof. destruct x; try done. cbn. by intros [_ H]%andb_true_iff. Qed.
Definition calm (l : list action) : bool :=
  forallb (λ x, match x with
                | CancelSlot _ | StoreCancel _ _ => true
                | ScheduleTask _ _ (ApplyImage _ _ _ _) => false
                | ScheduleTask _ _ _ => true
                | _ => false
                end) l.
Lemma calm_scheduled n p key : calm (scheduleTransfer pr n p) = true ∧ calm (scheduleReboot pr key) = true ∧ calm (scheduleFactoryReset pr) = true.
Proof. split_and!; [|done..]. unfold scheduleTransfer. by destruct (FirmwareBlock _); [destruct (_ && _)|]. Qed.
Lemma calm_covered l : calm l = true → covered l = true.
Proof. induction l as [|x l IH]; [done|]. cbn. intros [Hx Hl]%andb_true_iff. destruct x; try done; by apply IH. Qed.
Lemma covered_body t : covered (body t) = true.
Proof. by destruct t as [? [] ?| | | |]. Qed.
Lemma covered_outage o : covered (outage_begins o) = true ∧ ∀ d, covered (outage_ends o d) = true ∧ existsb brings (outage_ends o d) = true.
Proof. unfold outage_begins, outage_ends. by destruct o as [[? ? ? ? []] ? [] []]. Qed.
Lemma covered_more img x s s' more : do_action pr img x s = (s', more) → covered more = true.
Proof.
  destruct x; cbn [do_action]; try (by intros [= <- <-]).
  - destruct (ScheduleOnce _ _), s0; by intros [= <- <-].
  - intros [= <- <-]. unfold after_resolve. by destruct (resolveFirmwareVersion _ _ _ _).
  - intros [= <- <-]. apply covered_outage.
Qed.
Lemma calm_more img x s s' more l : calm (x :: l) = true → do_action pr img x s = (s', more) → calm (more ++ l) = true ∧ offline s' = offline s.
Proof.
  cbn. intros [Hx Hl]%andb_true_iff. destruct x; cbn [do_action]; try done.
  - intros [= <- <-]. split; [done|]. unfold cancel_slot. by destruct (get_slot _ _) as [[]|].
  - destruct (ScheduleOnce _ _), s0; by intros [= <- <-].
  - by intros [= <- <-].
Qed.

(** A one-shot that ended without making its calls was cancelled. *)
Definition tidy (st : bool) (a : actor) : Prop :=
  covered (todo_of a) = true ∧
  match a with Shot o l => oAt o = ODone → l = [] ∨ cancelClosed o = true ∨ st = true | Thread _ => True end.
Definition tidy_cpe (s : cpe) : Prop := Forall (tidy (stopped (sched s))) (actors s) ∧ calm (default [] (session s)) = true.
Lemma tidy_cancel st a b : tidy st a → same_actor a b → tidy st b.
Proof. intros [Hc H] [->| ->]; [done|]. destruct a as [o l|]; [|done]. split; [done|]. intros _. by right; left. Qed.
Lemma do_action_tidy img x s s' more : Forall (tidy (stopped (sched s))) (actors s) → do_action pr img x s = (s', more) →
  Forall (tidy (stopped (sched s'))) (actors s').
Proof.
  intros Ht E. pose proof (do_action_kept _ _ _ _ _ E) as (_&->&_). destruct (do_action_actors pr _ _ _ _ _ E) as (l&new&->&Hl&Hn).
  apply Forall_app. split.
  - apply Forall_lookup. intros i b Hb. destruct (Forall2_lookup_r _ _ _ _ _ Hl Hb) as (a&Ha&Hab).
    eapply tidy_cancel, Hab. by eapply Forall_lookup_1.
  - destruct Hn as [->|(sl&d&t&o&_&Ho&->)]; [done|]. apply Forall_singleton. split; [apply covered_body|].
    unfold ScheduleOnce in Ho. destruct (stopped _); [done|]. by injection Ho as <-.
Qed.
Lemma insert_tidy st l i a : Forall (tidy st) l → tidy st a → Forall (tidy st) (<[i := a]> l).
Proof. apply Forall_insert. Qed.
Lemma tidy_stop st a : tidy st a → tidy true a.
Proof. intros [Hc H]. split; [done|]. destruct a; [|done]. intros _. by right; right. Qed.
Lemma running_tidy st st' a l : running a = true → covered l = true → tidy st a → tidy st' (with_todo l a).
Proof. destruct a as [o k|k]; [|done]. cbn. intros Hr Hl _. split; [done|]. intros Ho. by rewrite Ho in Hr. Qed.
Lemma same_running a b : same_actor a b → running b = running a.
Proof. intros [->| ->]; [done|by destruct a]. Qed.
Lemma running_with l a : running (with_todo l a) = running a.
Proof. by destruct a. Qed.

Lemma act_tidy i img s s' : tidy_cpe s → act pr i img s = Some s' → tidy_cpe s'.
Proof.
  intros [Ht Hc] (a&x&rest&s2&more&b&Hi&Hx&Hr&_&E&Hb&Hab&->)%act_inv.
  pose proof (Forall_lookup_1 _ _ _ _ Ht Hi) as Ha. assert (covered rest = true) as Hcr.
  { destruct Ha as [Ha _]. rewrite Hx in Ha. by eapply covered_cons. }
  pose proof (do_action_kept _ _ _ _ _ E) as (Hse&Hsc&_). split; [|by cbn [session set_actors]; rewrite Hse].
  cbn [actors set_actors sched]. apply insert_tidy.
  - eapply do_action_tidy; [|exact E]. cbn [actors set_actors sched]. by apply insert_tidy, running_tidy with (st := stopped (sched s)).
  - apply (running_tidy (stopped (sched s))).
    + by rewrite (same_running _ _ Hab), running_with.
    + apply covered_app; [by eapply covered_more|done].
    + eapply tidy_cancel; [|exact Hab]. by apply (running_tidy (stopped (sched s))).
Qed.
Lemma on_shot_tidy i f s s' : tidy_cpe s →
  (∀ o l o', actors s !! i = Some (Shot o l) → f o = Some o' → tidy (stopped (sched s)) (Shot o l) → tidy (stopped (sched s)) (Shot o' l)) →
  on_shot i f s = Some s' → tidy_cpe s'.
Proof.
  intros [Ht Hc] Hf (o&l&o'&Hi&Ho&->)%on_shot_inv. split; [|done]. apply insert_tidy; [done|]. eapply Hf; [done..|].
  by eapply Forall_lookup_1 in Hi.
Qed.

Lemma perform_tidy m s s' : tidy_cpe s → perform pr m s = Some s' → tidy_cpe s'.
Proof.
  intros Hs. pose proof Hs as [Ht Hc]. destruct m; cbn [perform].
  - apply on_shot_tidy; [done|]. intros o l o' _. destruct (_ && _); [|done]. intros [= <-] [H _]. by split.
  - apply on_shot_tidy; [done|]. intros o l o' _. destruct (at_ OWaiting o); [|done]. cbn. destruct (cancelClosed o) eqn:Ec; cbn.
    + intros [= <-] [H _]. split; [done|]. intros _. cbn. by right; left.
    + destruct (stopped _) eqn:Est; [|done]. intros [= <-] [H _]. split; [done|]. intros _. by right; right.
  - apply on_shot_tidy; [done|]. intros o l o' _. destruct (at_ OFired o); [|done]. intros [= <-] [H _]. split; [done|].
    unfold once_check. destruct (cancelClosed o) eqn:Ec; cbn; [|done]. intros _. by right; left.
  - by apply act_tidy.
  - destruct (actors s !! i) as [[o [|]|]|] eqn:Hi; try done. apply on_shot_tidy; [done|]. intros o' l o'' Hi'.
    rewrite Hi in Hi'. injection Hi' as <- <-. destruct (at_ ORunning o); [|done]. intros [= <-] [H _]. split; [done|]. intros _. by left.
  - destruct (offline s); [done|]. destruct (session s); [done|]. by intros [= <-].
  - destruct (session s) as [[|x rest]|] eqn:Hse; [done| |done]. destruct (do_action _ _ _ _) as [s2 more] eqn:E. intros [= <-].
    pose proof (do_action_kept _ _ _ _ _ E) as (Hse2&_&_). split.
    + cbn [sched set_session actors]. by eapply do_action_tidy in E.
    + cbn [session set_session] in *. rewrite Hse2. cbn. by eapply calm_more in E as [? _].
  - destruct (session s) as [[|]|]; [|done..]. by intros [= <-].
  - destruct (accept _ s) as [s1|] eqn:E; [|done]. intros [= <-]. apply accept_inv in E as [_ ->]. split; [done|]. apply (calm_scheduled _ _ "").
  - destruct (0 <? _)%Z; [|done]. intros (_&->)%accept_inv. by split.
  - destruct (0 <? _)%Z; [|done]. intros (_&->)%accept_inv. by split.
  - destruct (_ && _); [|done]. intros [= <-]. split; [|done]. apply Forall_app. split; [done|]. by apply Forall_singleton.
  - destruct (Link pr); [|done]. destruct (linkFaultBusy s); [done|]. intros [= <-]. split; [|done]. apply Forall_app. split; [done|].
    apply Forall_singleton. split; [apply covered_outage|done].
  - destruct (_ <=? _)%Z; [|done]. by intros [= <-].
  - intros [= <-]. split; [|done]. eapply Forall_impl; [exact Ht|]. intros a. apply tidy_stop.
  - by intros [= <-].
Qed.

(** ** The way back *)

Definition helps (s : cpe) : Prop := ∃ i a, actors s !! i = Some a ∧ existsb brings (todo_of a) = true.
Definition dark_ok (s : cpe) : Prop := offline s = true → stopped (sched s) = true ∨ helps s.

Lemma helps_kept img x s s' more : do_action pr img x s = (s', more) → helps s → helps s'.
Proof.
  intros E (i&a&Hi&Ha). destruct (do_action_actor _ _ _ _ _ i a E Hi) as (b&Hb&Hab). exists i, b.
  by rewrite (same_todo _ _ Hab).
Qed.
Lemma helps_insert i a b s : actors s !! i = Some a → (existsb brings (todo_of a) = true → existsb brings (todo_of b) = true) →
  helps s → helps (set_actors (<[i := b]> (actors s)) s).
Proof.
  intros Hi Hab (j&c&Hj&Hc). pose proof (lookup_lt_Some _ _ _ Hi) as Hlt. cbn [actors set_actors].
  destruct (decide (i = j)) as [<-|Hne].
  - exists i, b. cbn. rewrite list_lookup_insert_eq by done. rewrite Hi in Hj. injection Hj as <-. auto.
  - exists j, c. cbn. by rewrite list_lookup_insert_ne.
Qed.
Lemma helps_at i a s : actors s !! i = Some a → ∀ b, existsb brings (todo_of b) = true → helps (set_actors (<[i := b]> (actors s)) s).
Proof. intros Hi b Hb. exists i, b. cbn. rewrite list_lookup_insert_eq; [done|]. by eapply lookup_lt_Some. Qed.
Lemma do_action_offline img x s s' more : do_action pr img x s = (s', more) →
  offline s' = match x with SetOffline => true | SetOnline => false | _ => offline s end.
Proof.
  destruct x; cbn [do_action]; try (by intros [= <- <-]).
  - intros [= <- <-]. unfold cancel_slot. by destruct (get_slot _ _) as [[id|]|].
  - destruct (ScheduleOnce _ _); by intros [= <- <-].
Qed.
(** What a call that brings the CPE back leaves. *)
Lemma brings_left img x s s' more : brings x = true → do_action pr img x s = (s', more) →
  offline s' = false ∨ stopped (sched s) = true ∨ existsb brings more = true ∨
  ∃ sl d n fw p v, x = ScheduleTask sl d (ApplyImage n fw p v) ∧
    actors s' = actors s ++ [Shot (MkOnce (clock (sched s) + d) false OWaiting 0) (apply_body n fw p v)].
Proof.
  destruct x as [|sl d t| | | | | | | | | | | | | | | | |]; try done.
  - destruct t as [| |n fw p v| |]; try done. intros _. cbn [do_action]. unfold ScheduleOnce. destruct (stopped (sched s)); intros [= <- <-].
    + by right; left.
    + right; right; right. by exists sl, d, n, fw, p, v.
  - intros _ [= <- <-]. by left.
  - intros _ [= <- <-]. by right; right; left.
  - intros _ [= <- <-]. right; right; left. by apply covered_outage.
Qed.

Lemma act_dark i img s s' : tidy_cpe s → dark_ok s → act pr i img s = Some s' → dark_ok s'.
Proof.
  intros [Ht _] Hd (a&x&rest&s2&more&b&Hi&Hx&_&_&E&Hb&Hab&->)%act_inv Ho. cbn [offline set_actors sched] in *.
  pose proof (do_action_kept _ _ _ _ _ E) as (_&Hsc&_). cbn [sched set_actors] in Hsc. rewrite Hsc.
  pose proof (do_action_offline _ _ _ _ _ E) as Hoff. cbn [offline set_actors] in Hoff.
  assert (helps s2 → helps (set_actors (<[i := with_todo (more ++ rest) b]> (actors s2)) s2)) as Hup.
  { apply helps_insert with b; [done|]. rewrite (same_todo _ _ Hab), !todo_with, existsb_app. intros ->. apply orb_true_r. }
  destruct (brings x) eqn:Hbx.
  - destruct (brings_left _ _ _ _ _ Hbx E) as [H|[H|[H|(sl&d&n&fw&p&v&_&Ha)]]]; [congruence|by left|right|right; apply Hup].
    + apply helps_at with b; [done|]. by rewrite todo_with, existsb_app, H.
    + eexists _, _. split; [rewrite Ha; by apply list_lookup_middle|]. done.
  - assert (helps s → helps s2) as Hdown.
    { intros H. eapply helps_kept; [exact E|]. eapply helps_insert; [exact Hi| |exact H]. rewrite Hx, todo_with. cbn. by rewrite Hbx. }
    assert (x = SetOffline ∨ offline s2 = offline s) as [->|Hsame] by (destruct x; try congruence; auto).
    + right. apply helps_at with b; [done|]. rewrite todo_with, existsb_app.
      pose proof (Forall_lookup_1 _ _ _ _ Ht Hi) as [Hc _]. rewrite Hx in Hc. cbn in Hc. apply andb_true_iff in Hc as [-> _]. apply orb_true_r.
    + rewrite Hsame in Ho. destruct (Hd Ho) as [?|H]; [by left|right; auto].
Qed.
Lemma perform_dark m s s' : tidy_cpe s → dark_ok s → perform pr m s = Some s' → dark_ok s'.
Proof.
  intros Ht Hd. pose proof Ht as [_ Hc].
  assert (∀ i f s1, on_shot i f s = Some s1 → dark_ok s1) as Hshot.
  { intros i f s1 (o&l&o'&Hi&_&->)%on_shot_inv Ho. destruct (Hd Ho) as [?|H]; [by left|right]. by eapply helps_insert. }
  assert (∀ l, dark_ok (set_actors (actors s ++ [l]) s)) as Hgrow.
  { intros l Ho. destruct (Hd Ho) as [?|(i&a&Hi&Ha)]; [by left|right]. exists i, a. split; [|done]. by apply lookup_app_l_Some. }
  destruct m; cbn [perform]; try (by apply Hshot).
  - by apply act_dark.
  - destruct (actors s !! i) as [[o [|]|]|]; try done. apply Hshot.
  - destruct (offline s); [done|]. destruct (session s); [done|]. intros [= <-]. done.
  - destruct (session s) as [[|x rest]|] eqn:Hse; [done| |done]. destruct (do_action _ _ _ _) as [s2 more] eqn:E. intros [= <-].
    apply (calm_more _ _ _ _ _ rest) in E as Ho; [|done]. destruct Ho as [_ Ho]. intros Hoff. cbn [offline set_session sched] in *.
    pose proof (do_action_kept _ _ _ _ _ E) as (_&->&_). rewrite Ho in Hoff. destruct (Hd Hoff) as [?|H]; [by left|right].
    change (helps s2). by eapply helps_kept.
  - destruct (session s) as [[|]|]; [|done..]. by intros [= <-].
  - destruct (accept _ s) as [s1|] eqn:E; [|done]. intros [= <-]. by apply accept_inv in E as [_ ->].
  - destruct (0 <? _)%Z; [|done]. by intros (_&->)%accept_inv.
  - destruct (0 <? _)%Z; [|done]. by intros (_&->)%accept_inv.
  - destruct (_ && _); [|done]. intros [= <-]. apply Hgrow.
  - destruct (Link pr); [|done]. destruct (linkFaultBusy s); [done|]. intros [= <-]. apply Hgrow.
  - destruct (_ <=? _)%Z; [|done]. by intros [= <-].
  - intros [= <-] _. by left.
  - by intros [= <-].
Qed.
Lemma schedules_ok s : reachable pr s → tidy_cpe s ∧ dark_ok s.
Proof.
  induction 1 as [sc d _|s s' _ [Ht Hd] [m Hm]]; [by repeat split|]. split; [by eapply perform_tidy|by eapply perform_dark].
Qed.
End props.
