(* ===== verification/DarkWindow.v ===== *)
(** * Deferred work: the theorems, and where the slots and the one offline
    switch let the code down. *)
From Stdlib Require Import ZArith Lia Ascii String.
From S2P Require Import Prelude GoLib GoFloat CpeErr Types Node Tree EventTracker Retry Actions Scheduler Generators Firmware LinkFault Schedules SchedulesProps.

Section back.
Context (pr : profile).

(** Steps of the goroutines that are there, and of time. *)
Definition own_move (m : move) : bool := match m with Fire _ | DropOut _ | Act _ _ | AdvanceTo _ => true | _ => false end.
Definition own (s s' : cpe) : Prop := ∃ m, own_move m = true ∧ perform pr m s = Some s'.

Definition no_image : result error Image := Err (errorf "" []).
Lemma act_goes i s a x rest : actors s !! i = Some a → todo_of a = x :: rest → running a = true → ready x s = true →
  ∃ s', act pr i no_image s = Some s'.
Proof. intros Hi Hx Hr Hy. unfold act. rewrite Hi, Hx, Hr, Hy. cbn. destruct (do_action _ _ _ _). by eexists. Qed.

Lemma wait_for s d : ∃ s', rtc own s s' ∧ (d ≤ clock (sched s'))%Z ∧ actors s' = actors s ∧ stopped (sched s') = stopped (sched s).
Proof.
  set (now := Z.max d (clock (sched s))).
  exists (set_sched (MkScheduler (cpes (sched s)) (started (sched s)) (stopped (sched s)) now) s). split_and!; [|cbn; lia|done|done].
  apply rtc_once. exists (AdvanceTo now). split; [done|]. cbn [perform]. rewrite (proj2 (Z.leb_le _ _)); [done|]. lia.
Qed.
Lemma get_ready s i a x rest : actors s !! i = Some a → todo_of a = x :: rest →
  ∃ s', rtc own s s' ∧ ready x s' = true ∧ actors s' = actors s ∧ stopped (sched s') = stopped (sched s).
Proof.
  intros _ _. destruct (wait_for s (match x with AwayUntil began o => began + Duration (oCfg o) | _ => 0 end)%Z) as (s'&Hs&Hd&Ha&Hst).
  exists s'. split_and!; try done. destruct x; try done. cbn. by apply Z.leb_le.
Qed.
(** A one-shot that was not cancelled gets to its callback. *)
Lemma wake s i o l : actors s !! i = Some (Shot o l) → going (Shot o l) = true → l ≠ [] →
  tidy (stopped (sched s)) (Shot o l) →
  ∃ s' o', rtc own s s' ∧ actors s' !! i = Some (Shot o' l) ∧ oAt o' = ORunning ∧ stopped (sched s') = stopped (sched s).
Proof.
  intros Hi Hg Hl _. assert (∀ s0 o0, actors s0 !! i = Some (Shot o0 l) → oAt o0 = OFired → cancelClosed o0 = false →
    ∃ s' o', rtc own s0 s' ∧ actors s' !! i = Some (Shot o' l) ∧ oAt o' = ORunning ∧ stopped (sched s') = stopped (sched s0)) as Hf.
  { intros s0 o0 Hi0 Hf Hc. eexists _, _. split_and!; [apply rtc_once; exists (DropOut i); split; [done|]|..].
    - cbn [perform]. unfold on_shot. rewrite Hi0. unfold at_. rewrite Hf. cbn. reflexivity.
    - cbn. apply list_lookup_insert_eq. by eapply lookup_lt_Some.
    - unfold once_check. by rewrite Hc.
    - done. }
  cbn in Hg. destruct (oAt o) eqn:Ho.
  - apply negb_true_iff in Hg. destruct (wait_for s (oDue o)) as (s1&H1&Hd&Ha&Hst). rewrite <-Ha in Hi.
    set (s2 := set_actors (<[i := Shot (once_fire o) l]> (actors s1)) s1).
    destruct (Hf s2 (once_fire o)) as (s'&o'&H2&Hi'&Hr&Hst'); [by apply list_lookup_insert_eq, lookup_lt_Some with (Shot o l)|done|done|].
    exists s', o'. split_and!; [|done|done|by rewrite Hst']. etrans; [exact H1|]. eapply rtc_l; [|exact H2].
    exists (Fire i). split; [done|]. cbn [perform]. unfold on_shot. rewrite Hi. unfold at_. rewrite Ho.
    rewrite (proj2 (Z.leb_le _ _)) by lia. done.
  - apply negb_true_iff in Hg. by apply (Hf s o).
  - exists s, o. split_and!; [apply rtc_refl|done..].
  - done.
Qed.

Definition cost (x : action) : nat :=
  match x with
  | ScheduleTask _ _ _ => 20
  | Resolve _ _ _ => 40
  | AwayStart _ => 40 | AwayUntil _ _ => 30
  | _ => 1
  end.
Definition cost_of (l : list action) : nat := sum_list_with cost l.
Lemma cost_app l k : cost_of (l ++ k) = (cost_of l + cost_of k)%nat.
Proof. apply sum_list_with_app. Qed.
Lemma cost_more img x s s' more : do_action pr img x s = (s', more) → (cost_of more < cost x)%nat.
Proof.
  destruct x; cbn [do_action]; try (intros [= <- <-]; cbn; lia).
  - destruct (ScheduleOnce _ _), s0; intros [= <- <-]; cbn; lia.
  - intros [= <- <-]. unfold after_resolve. destruct (resolveFirmwareVersion _ _ _ _); cbn; lia.
  - intros [= <- <-]. unfold outage_ends. destruct o as [[? ? ? ? []] ? [] []]; cbn; lia.
Qed.

Lemma run_back k s i a : actors s !! i = Some a → running a = true → existsb brings (todo_of a) = true →
  (cost_of (todo_of a) ≤ k)%nat → stopped (sched s) = false → ∃ s', rtc own s s' ∧ offline s' = false.
Proof.
  revert s i a. induction k as [|k IH]; intros s i a Hi Hr Hb Hk Hst.
  { destruct (todo_of a) as [|x l]; [done|]. cbn in Hk. destruct x; cbn in Hk; lia. }
  destruct (todo_of a) as [|x rest] eqn:Hx; [done|].
  destruct (get_ready s i a x rest Hi Hx) as (s0&H0&Hy&Ha&Hst0). rewrite <-Ha in Hi. rewrite Hst in Hst0.
  destruct (act_goes i s0 a x rest Hi Hx Hr Hy) as [s3 H3]. assert (rtc own s s3) as Hgo.
  { eapply rtc_r; [exact H0|]. exists (Act i no_image). by split. }
  apply act_inv in H3 as (a'&x'&rest'&s2&more&b&Hi'&Hx'&_&_&E&Hib&Hab&->).
  rewrite Hi in Hi'. injection Hi' as <-. rewrite Hx in Hx'. injection Hx' as <- <-.
  pose proof (do_action_kept _ _ _ _ _ _ E) as (_&Hsc&_). pose proof (cost_more _ _ _ _ _ E) as Hcost.
  cbn in Hk. fold (cost_of rest) in Hk.
  assert (stopped (sched s2) = false) as Hst2 by (by rewrite Hsc).
  assert (existsb brings (more ++ rest) = true → ∃ s', rtc own s s' ∧ offline s' = false) as Hon.
  { intros Hbr. destruct (IH (set_actors (<[i:=with_todo (more ++ rest) b]> (actors s2)) s2) i (with_todo (more ++ rest) b)) as (s'&Hs'&Ho).
    - apply list_lookup_insert_eq. by eapply lookup_lt_Some.
    - by rewrite running_with, (same_running _ _ Hab), running_with.
    - by rewrite todo_with.
    - rewrite todo_with, cost_app. lia.
    - done.
    - exists s'. split; [|done]. by etrans. }
  cbn in Hb. apply orb_true_iff in Hb as [Hb|Hb]; [|apply Hon; rewrite existsb_app, Hb; apply orb_true_r].
  destruct (brings_left _ _ _ _ _ _ Hb E) as [H|[H|[H|(sl&d&n&fw&p&v&->&Hnew)]]].
  - exists (set_actors (<[i:=with_todo (more ++ rest) b]> (actors s2)) s2). by split.
  - cbn in H. congruence.
  - apply Hon. by rewrite existsb_app, H.
  - set (s3 := set_actors (<[i:=with_todo (more ++ rest) b]> (actors s2)) s2) in *. set (o := MkOnce _ false OWaiting 0) in Hnew.
    assert (actors s3 !! length (actors s0) = Some (Shot o (apply_body n fw p v))) as Hj.
    { unfold s3. cbn [actors set_actors]. rewrite list_lookup_insert_ne.
      - rewrite Hnew. cbn [actors set_actors]. apply list_lookup_middle. by rewrite length_insert.
      - apply lookup_lt_Some in Hi. lia. }
    destruct (wake s3 _ _ _ Hj) as (s4&o'&H4&Hi4&Hr4&Hst4); [done|done|by split|].
    destruct (IH s4 _ _ Hi4) as (s'&Hs'&Ho).
    + cbn. by rewrite Hr4.
    + done.
    + cbn in *. lia.
    + by rewrite Hst4.
    + exists s'. split; [|done]. etrans; [exact Hgo|]. by etrans.
Qed.
End back.

(** ** The theorems *)

(** A one-shot with such calls was cancelled before it ran. *)
Definition was_cancelled (P : list action → Prop) (s : cpe) : Prop :=
  ∃ i o l, actors s !! i = Some (Shot o l) ∧ cancelClosed o = true ∧ oAt o ≠ ORunning ∧ P l.

(** What a step reports is on the tracker when the step is done: its record is
    behind those that wait. *)
Definition reports_follow (s s' : cpe) : Prop :=
  settled s' = settled s ∨
  ∃ k c, settled s' = settled s ++ [(k, c)] ∧
    pendingTransferCompletes (tracker (dev s')) = pendingTransferCompletes (tracker (dev s)) ++ [c].
Lemma do_action_reports pr img x s s' more : do_action pr img x s = (s', more) → reports_follow s s'.
Proof.
  destruct x; cbn [do_action]; try (intros [= <- <-]; by left).
  - intros [= <- <-]. left. unfold cancel_slot. by destruct (get_slot _ _) as [[id|]|].
  - destruct (ScheduleOnce _ _); intros [= <- <-]; by left.
  - intros [= <- <-]. right. by eexists _, _.
Qed.
Lemma perform_reports pr m s s' : perform pr m s = Some s' → reports_follow s s'.
Proof.
  assert (∀ i f, on_shot i f s = Some s' → reports_follow s s') as Hshot by (intros i f (o&l&o'&_&_&->)%on_shot_inv; by left).
  assert (∀ l, accept l s = Some s' → reports_follow s s') as Hacc.
  { intros l. unfold accept. destruct (session s) as [[|]|]; try done. intros [= <-]. by left. }
  destruct m; cbn [perform]; try by apply Hshot.
  - intros (a&x&rest&s2&more&b&_&_&_&_&E&_&_&->)%act_inv. exact (do_action_reports _ _ _ _ _ _ E).
  - destruct (actors s !! i) as [[o [|]|]|]; try done. apply Hshot.
  - destruct (offline s); [done|]. destruct (session s); [done|]. intros [= <-]. by left.
  - destruct (session s) as [[|x rest]|]; try done. destruct (do_action _ _ _ _) as [s2 more] eqn:E.
    intros [= <-]. exact (do_action_reports _ _ _ _ _ _ E).
  - destruct (session s) as [[|]|]; try done. intros [= <-]. by left.
  - destruct (accept _ s) as [s1|] eqn:E; [|done]. intros [= <-]. unfold accept in E. destruct (session s) as [[|]|]; try done.
    injection E as <-. by left.
  - destruct (_ <? _)%Z; [apply Hacc|done].
  - destruct (_ <? _)%Z; [apply Hacc|done].
  - destruct (_ && _); [|done]. intros [= <-]. by left.
  - destruct (Link pr); [|done]. destruct (linkFaultBusy s); [done|]. intros [= <-]. by left.
  - destruct (_ <=? _)%Z; [|done]. intros [= <-]. by left.
  - intros [= <-]. by left.
  - intros [= <-]. by left.
Qed.

(** C28. No accepted transfer is lost or reported twice. In every interleaving
    of handlers, callbacks, sessions, faults and time, while the scheduler
    runs: each accepted Download or Upload has been reported once, or is still
    on its way to one report, or was dropped, and it was dropped only if its
    one-shot was cancelled before it ran, which a later firmware Download does.
    To report it is to queue its TransferComplete record on the tracker, behind
    the records already there: no step counts a report and does anything else
    to them. *)
Theorem transfers_settle (pr : profile) (s : cpe) (n : nat) (Hr : reachable pr s) (Hst : stopped (sched s) = false)
  (Hn : (n < tickets s)%nat) :
  (reports n s + pending n s + dropped n s = 1)%nat ∧
  (dropped n s ≠ 0%nat → was_cancelled (λ l, owed n l = 1%nat) s) ∧
  (∀ m s', perform pr m s = Some s' → settled s' = settled s ∨
     ∃ k c, settled s' = settled s ++ [(k, c)] ∧
       pendingTransferCompletes (tracker (dev s')) = pendingTransferCompletes (tracker (dev s)) ++ [c]).
Proof.
  assert (total n s = if decide (n < tickets s)%nat then 1%nat else 0%nat) as Htot.
  { clear Hn. induction Hr as [sc d Hsc|s s' Hr IH [m Hm]]; [done|]. destruct (perform_total _ _ _ _ n Hm Hst) as [H1 H2].
    rewrite (IH H1) in H2. lia. }
  rewrite decide_True in Htot by done. split; [by rewrite <-total_split|]. split; [|intros m s'; apply perform_reports].
  assert (∀ a, a ∈ actors s → (owed n (todo_of a) ≤ 1)%nat) as Hone.
  { intros a (i&Hi)%list_elem_of_lookup. pose proof (sum_insert (λ a, owed n (todo_of a)) _ i a a Hi) as H.
    rewrite (list_insert_id _ _ _ Hi) in H. unfold total, held in Htot.
    enough (owed n (todo_of a) ≤ sum_list_with (λ a, owed n (todo_of a)) (actors s))%nat by lia.
    clear -Hi. revert i Hi. induction (actors s) as [|b l IH]; intros [|i] Hi; [done|done|injection Hi as ->; cbn; lia|].
    specialize (IH i Hi). cbn. lia. }
  intros Hd. assert (∃ a, a ∈ actors s ∧ going a = false ∧ owed n (todo_of a) ≠ 0%nat) as (a&Ha&Hg&Ho).
  { unfold dropped in Hd. clear -Hd. induction (actors s) as [|a l IH]; [done|]. cbn in Hd. destruct (going a) eqn:Hg.
    - destruct IH as (b&Hb&H); [done|]. exists b. split; [by right|done].
    - destruct (decide (owed n (todo_of a) = 0%nat)) as [E|]; [|exists a; split; [by left|done]].
      destruct IH as (b&Hb&H); [lia|]. exists b. split; [by right|done]. }
  specialize (Hone a Ha). apply list_elem_of_lookup in Ha as (i&Hi). destruct (schedules_ok _ _ Hr) as [[Ht _] _].
  pose proof (Forall_lookup_1 _ _ _ _ Ht Hi) as [_ Htidy]. destruct a as [o l|l]; [|done]. exists i, o, l. cbn [going todo_of] in Hg, Ho, Hone, Htidy.
  rewrite Hst in Htidy. split_and!; [done| |intros E; by rewrite E in Hg|lia].
  destruct (oAt o); try done; try by apply negb_false_iff. destruct (Htidy eq_refl) as [->|[?|?]]; done.
Qed.

(** C29. A dark CPE comes back. Whenever the CPE is off line, by an image being
    applied or by an outage, the passing of time and the steps of the goroutines
    that are already there take it on line again, unless an image's one-shot
    was cancelled before it ran. *)
Theorem dark_window_ends (pr : profile) (s : cpe) (Hr : reachable pr s) (Hst : stopped (sched s) = false) (Ho : offline s = true) :
  (∃ s', rtc (own pr) s s' ∧ offline s' = false) ∨
  was_cancelled (λ l, existsb brings l = true) s.
Proof.
  destruct (schedules_ok _ _ Hr) as [[Ht _] Hd]. destruct (Hd Ho) as [?|(i&a&Hi&Ha)]; [congruence|].
  pose proof (Forall_lookup_1 _ _ _ _ Ht Hi) as Htidy. destruct a as [o l|l].
  - destruct (going (Shot o l)) eqn:Hg.
    + left. destruct (wake pr s i o l Hi Hg) as (s1&o'&H1&Hi1&Hr1&Hst1); [by intros ->|done|].
      destruct (run_back pr (cost_of l) s1 i (Shot o' l) Hi1) as (s'&Hs'&Ho'); [cbn; by rewrite Hr1|done|done|by rewrite Hst1|].
      exists s'. split; [by etrans|done].
    + right. exists i, o, l. destruct Htidy as [_ Htidy]. cbn in Hg. rewrite Hst in Htidy.
      split_and!; [done| |intros E; by rewrite E in Hg|done].
      destruct (oAt o); try done; try by apply negb_false_iff. destruct (Htidy eq_refl) as [->|[?|?]]; done.
  - left. by apply (run_back pr (cost_of l) s i (Thread l)).
Qed.

(** ** Examples *)

Definition ex_string (v : string) : Node := NewLeaf (MkValue TypeString v false).
Definition ex_cpe_tree : Tree :=
  set_root New_ (set_children (list_to_map
    [("Version", ex_string "1.0"); ("If", set_children (list_to_map [("Status", ex_string "Up"); ("LastChange", ex_string "0")]) NewBranch);
     ("Serial", ex_string "S1")]) NewBranch).
Definition ex_firmware : FirmwareConfig := MkFirmwareConfig "Version" (30 * Second) true.
Definition ex_profile : profile :=
  MkProfile (MkTransferConfig 0 ∅ (Some ex_firmware)) Second 0 (Some (MkLinkFault "If." (120 * Second) 0 0 false)) false
    ex_cpe_tree "Serial" "S1" (λ _, None).
Definition ex_start : cpe :=
  initial (MkScheduler ∅ true false 0) (MkDevice ex_cpe_tree [] (NewEventTracker ∅) (MkRetryState 0) []).
Definition ex_download (key : string) : Actions.Pending := MkPending true key firmwareFileType "http://images/fw" 0 0.
Definition ex_image (v : string) : result error Image := Ok (MkImage v "").
Definition bad_image : result error Image := Ok (MkImage "" "").

(** A session in which the ACS orders a download, and its handler's calls. *)
Definition order (key : string) : list move := [AcceptTransfer (ex_download key); Handle no_image; Handle no_image; Handle no_image].
(** One-shot [i] runs its callback, [calls] calls long, at [now]. *)
Definition runs_at (now : Z) (i calls : nat) (img : result error Image) : list move :=
  [AdvanceTo now; Fire i; DropOut i] ++ replicate calls (Act i img) ++ [Return i].

Lemma ex_start_reachable : reachable ex_profile ex_start.
Proof. by apply reach_start. Qed.

(** The whole sequence: dark while the image is applied, then the version, the
    record with zero times and a boot session. *)
Definition ex_upgrade : list move :=
  [Begin] ++ order "k" ++ [End_] ++ runs_at (5 * Second) 0 5 (ex_image "2.0") ++ runs_at (35 * Second) 1 7 no_image.
Example upgrade_runs :
  (λ s, (offline s, map_err (λ _, tt) (Raw <$> Get (tree (dev s)) "Version"), log (dev s), settled s, actors s)) <$>
    play ex_profile ex_upgrade ex_start =
  Some (false, Ok "2.0", [Requested TriggerStartup], [(0%nat, MkTransferComplete "k" 0 "" zero_time zero_time)],
        [Shot (MkOnce (5 * Second) false ODone 1) []; Shot (MkOnce (35 * Second) false ODone 1) []]).
Proof. vm_compute. reflexivity. Qed.

Lemma transfers_settle_witness :
  ∃ s, reachable ex_profile s ∧ (0 < tickets s)%nat ∧ (reports 0 s + pending 0 s + dropped 0 s = 1)%nat.
Proof.
  destruct (play ex_profile ex_upgrade ex_start) as [s|] eqn:E; [|vm_compute in E; discriminate E].
  assert (stopped (sched s) = false ∧ (0 < tickets s)%nat) as [H1 H2].
  { vm_compute in E. injection E as <-. split; [reflexivity|cbn; lia]. }
  exists s. split; [exact (schedule_reachable _ _ _ _ ex_start_reachable E)|]. split; [exact H2|].
  exact (proj1 (transfers_settle ex_profile s 0 (schedule_reachable _ _ _ _ ex_start_reachable E) H1 H2)).
Defined.

(** In the dark, with the image's one-shot armed. *)
Definition ex_dark : list move := [Begin] ++ order "k" ++ [End_] ++ runs_at (5 * Second) 0 5 (ex_image "2.0").
Lemma dark_window_ends_witness : ∃ s, reachable ex_profile s ∧ offline s = true ∧ ∃ s', rtc (own ex_profile) s s' ∧ offline s' = false.
Proof.
  destruct (play ex_profile ex_dark ex_start) as [s|] eqn:E; [|vm_compute in E; discriminate E].
  pose proof (schedule_reachable _ _ _ _ ex_start_reachable E) as Hr.
  assert (stopped (sched s) = false ∧ offline s = true) as [H1 H2].
  { vm_compute in E. injection E as <-. split; reflexivity. }
  exists s. split; [exact Hr|]. split; [exact H2|].
  destruct (dark_window_ends ex_profile s Hr H1 H2) as [H|(i&o&l&Hi&Hc&_)]; [exact H|].
  exfalso. vm_compute in E. injection E as <-. destruct i as [|[|i]]; cbn in Hi; [| |destruct i; discriminate Hi]; injection Hi as <- <-; discriminate Hc.
Defined.

(** ** Where it does not do what it means to *)

(** Nobody will ever act again, and the CPE is off line. *)
Definition dead (s : cpe) : Prop :=
  session s = None ∧ offline s = true ∧
  Forall (λ a, match a with Shot o _ => oAt o = ODone ∨ cancelClosed o = true ∧ oAt o ≠ ORunning | Thread _ => False end) (actors s).
Lemma dead_stays pr s s' : Link pr = None → HasUsp pr = false → dead s → step pr s s' → dead s'.
Proof.
  intros HL HU (Hse&Ho&Ha) [m Hm]. assert (∀ i f, on_shot i f s = Some s' → (∀ o o' l, f o = Some o' → actors s !! i = Some (Shot o l) →
      oAt o' = ODone ∨ cancelClosed o' = cancelClosed o ∧ oAt o' ≠ ORunning ∧ oAt o ≠ ODone) → dead s') as Hshot.
  { intros i f (o&l&o'&Hi&Hf&->)%on_shot_inv Hn. split_and!; [done|done|]. cbn [actors set_actors]. apply Forall_insert; [done|].
    pose proof (Forall_lookup_1 _ _ _ _ Ha Hi) as H. cbn in H. destruct (Hn o o' l Hf Hi) as [?|(->&?&?)]; [by left|]. right. split; [|done]. destruct H as [H|[H _]]; [done|exact H]. }
  destruct m; cbn [perform] in Hm.
  - eapply Hshot; [exact Hm|]. intros o o' l. unfold at_. destruct (oAt o) eqn:Eo; try done. cbn. case_match; [|done]. intros [= <-] _. by right.
  - eapply Hshot; [exact Hm|]. intros o o' l. cbv beta. case_match; [|done]. intros [= <-] _. by left.
  - eapply Hshot; [exact Hm|]. intros o o' l. unfold at_. destruct (oAt o) eqn:Eo; try done. cbn. intros [= <-] Hi. left.
    pose proof (Forall_lookup_1 _ _ _ _ Ha Hi) as [H|[H _]]; [congruence|]. unfold once_check. by rewrite H.
  - apply act_inv in Hm as (a&x&rest&s2&more&b&Hi&_&Hr&_). pose proof (Forall_lookup_1 _ _ _ _ Ha Hi) as H. destruct a as [o l|]; [|done].
    cbn in H, Hr. destruct (oAt o); try done. by destruct H as [?|[_ ?]].
  - destruct (actors s !! i) as [[o [|]|]|] eqn:Hi; try done. eapply Hshot; [exact Hm|]. intros o' o'' l. cbv beta. case_match; [|done]. intros [= <-] _. by left.
  - by rewrite Ho in Hm.
  - by rewrite Hse in Hm.
  - by rewrite Hse in Hm.
  - unfold accept in Hm. by rewrite Hse in Hm.
  - unfold accept in Hm. rewrite Hse in Hm. by destruct (_ <? _)%Z.
  - unfold accept in Hm. rewrite Hse in Hm. by destruct (_ <? _)%Z.
  - by rewrite HU in Hm.
  - by rewrite HL in Hm.
  - destruct (_ <=? _)%Z; [|done]. by injection Hm as <-.
  - by injection Hm as <-.
  - by injection Hm as <-.
Qed.

Definition ex_plain : profile := MkProfile (Transfer ex_profile) Second 0 None false ex_cpe_tree "Serial" "S1" (λ _, None).
Definition ex_superseded : list move :=
  [Begin] ++ order "a" ++ runs_at (5 * Second) 0 5 (ex_image "2.0") ++ order "b" ++ [End_] ++ runs_at (10 * Second) 2 5 bad_image.
(** A firmware Download accepted in a session that outlives the start of a
    dark window cancels the one-shot that would end it. When its own image is
    then rejected, nothing takes the CPE on line again: no session will ever
    carry the fault, or anything else. *)
Theorem superseded_in_the_dark :
  ∃ s, reachable ex_plain s ∧ stopped (sched s) = false ∧ (tcFaultCode ∘ snd) <$> settled s = [firmwareFaultCode] ∧
    ∀ s', rtc (step ex_plain) s s' → offline s' = true ∧ session s' = None.
Proof.
  destruct (play ex_plain ex_superseded ex_start) as [s|] eqn:E; [|vm_compute in E; discriminate E].
  assert (reachable ex_plain s) as Hr by (eapply schedule_reachable; [|exact E]; by apply reach_start).
  assert (stopped (sched s) = false ∧ (tcFaultCode ∘ snd) <$> settled s = [firmwareFaultCode] ∧ dead s) as (H1&H2&H3).
  { vm_compute in E. injection E as <-. split; [reflexivity|]. split; [reflexivity|]. split; [reflexivity|]. split; [reflexivity|].
    repeat apply Forall_cons_2; [by left|by right|by left|apply Forall_nil_2]. }
  exists s. split; [exact Hr|]. split; [exact H1|]. split; [exact H2|]. clear E Hr H1 H2. intros s' Hs.
  assert (dead s') as (Hse&Ho&_); [|exact (conj Ho Hse)].
  induction Hs as [|s s1 s2 H _ IH]; [exact H3|]. apply IH. exact (dead_stays ex_plain s s1 eq_refl eq_refl H3 H).
Qed.

(** The settle callback clears the slot before it fetches the image. A firmware
    Download that arrives during the fetch supersedes nothing: both images are
    applied, and the first takes the CPE on line in the middle of the second's
    dark window. *)
Definition ex_during_fetch : list move :=
  [Begin] ++ order "a" ++ [End_; AdvanceTo (5 * Second); Fire 0; DropOut 0; Act 0 no_image] ++
  [Begin] ++ order "b" ++ [End_] ++ replicate 4 (Act 0 (ex_image "2.0")) ++ [Return 0] ++
  runs_at (10 * Second) 1 5 (ex_image "3.0") ++ runs_at (35 * Second) 2 7 no_image.
Theorem fetch_not_superseded :
  (λ s, (offline s, (tcCommandKey ∘ snd) <$> settled s, actors s !! 3)) <$> play ex_plain ex_during_fetch ex_start =
  Some (false, ["a"], Some (Shot (MkOnce (40 * Second) false OWaiting 0) (apply_body 1 ex_firmware (ex_download "b") "3.0"))).
Proof. vm_compute. reflexivity. Qed.

(** A reboot's callback clears the slot when it starts. Ordered meanwhile,
    another reboot has its cancel function wiped by it, and a third then runs
    beside the second instead of superseding it. *)
Definition ex_reboot (key : string) : list move := [AcceptReboot key; Handle no_image; Handle no_image; Handle no_image].
Definition ex_two_reboots : list move :=
  [Begin] ++ ex_reboot "a" ++ [AdvanceTo Second; Fire 0; DropOut 0] ++ ex_reboot "b" ++ [Act 0 no_image] ++ ex_reboot "c".
Theorem two_reboots_pending :
  (λ s, drop 1 (actors s)) <$> play ex_plain ex_two_reboots ex_start =
  Some [Shot (MkOnce (2 * Second) false OWaiting 0) (body (RebootNow "b"));
        Shot (MkOnce (2 * Second) false OWaiting 0) (body (RebootNow "c"))].
Proof. vm_compute. reflexivity. Qed.

(** The firmware sequence and the uplink fault share one offline switch: an
    image applied during an outage takes the CPE on line while its link is
    still cut, and a session begins. *)
Definition ex_image_in_outage : list move :=
  ex_dark ++ [CutLink] ++ replicate 4 (Act 2 no_image) ++ runs_at (35 * Second) 1 7 no_image ++ [Begin].
Theorem outage_ended_by_image :
  (λ s, (offline s, session s, actors s !! 2)) <$> play ex_profile ex_image_in_outage ex_start =
  Some (false, Some [], Some (Thread [AwayUntil (5 * Second) (MkOutage (MkLinkFault "If." (120 * Second) 0 0 false) "Up" true false)])).
Proof. vm_compute. reflexivity. Qed.

(** A factory reset puts back the template and the serial number only: the
    notification attribute that start-up gives the periodic-inform leaves,
    without which a write to them does not reach the scheduler, is lost. *)
Definition ex_template : Tree :=
  set_root New_ (set_children (list_to_map [("Interval", NewLeaf (MkValue TypeUnsignedInt "60" true)); ("Serial", ex_string "S0")]) NewBranch).
Theorem factory_reset_mutes :
  let pr := MkProfile (Transfer ex_profile) Second Second None false ex_template "Serial" "S1" (λ _, None) in
  let started := (SetAttributes ex_template "Interval" (MkAttributes 1 None)).1.1 in
  let d := factory_reset pr (MkDevice started [] (NewEventTracker ∅) (MkRetryState 0) []) in
  (Notification <$> GetAttributes started "Interval", Notification <$> GetAttributes (tree d) "Interval", Raw <$> Get (tree d) "Serial") =
  (Ok 1%Z, Ok 0%Z, Ok "S1").
Proof. vm_compute. reflexivity. Qed.
