(* ===== verification/Fleet.v ===== *)
(** * Fleets: per-instance addresses, serial numbers and placeholders
    ([internal/paramtree/fleet.go]; [applyFleetPlaceholders] to
    [padIPlaceholder] of [cmd/cpe-sim/main.go]).

    Parsing and printing of addresses ([net/netip], [net.ParseCIDR]) and the
    random streams are parameters. An address is its number, a prefix the
    number, the family and the length it was written with. *)
From Stdlib Require Import ZArith Lia Ascii String.
From S2P Require Import Prelude GoLib GoText GoAuth CpeErr Types Node Tree TreeProps Listing.

Record FleetPool := MkPool { pType : string; pCIDR : string; pSuper : string; pSubLen : Z }.
Record prefix := MkPrefix { is4 : bool; addr : Z; bits : Z }.
(** What [net.ParseCIDR] tells: whether [To4] gives an address, and the length
    of the mask. *)
Record cidr := MkCidr { to4 : bool; mask_size : Z }.

(** [prefix.Masked().Addr()] *)
Definition width (p : prefix) : Z := if is4 p then 32 else 128.
Definition host_bits (p : prefix) : Z := width p - bits p.
Definition masked (p : prefix) : Z := Z.shiftl (Z.shiftr (addr p) (host_bits p)) (host_bits p).

(** ** Pools *)
Module Pool.
Section pool.
Context (ParsePrefix : string → result error prefix) (ParseCIDR : string → result error cidr) (Addr_String : bool → Z → string).
(** [regexp] on the name. *)
Definition is_letter (c : ascii) : bool := in_range "a" "z" c || in_range "A" "Z" c || Ascii.eqb c "_".
Definition name_ok (s : string) : bool :=
  match s with "" => false | String c rest => is_letter c && str_forall (λ c, is_letter c || is_digit c) rest end.
Definition reservedPoolNames : list string := ["cpe"; "cpe_id"; "i"; "base"].

Definition parse_network (what s : string) : result error cidr := map_err (λ e, Errorf (what +:+ " %q: %w") [s] (Some e)) (ParseCIDR s).
Definition validateFleetPool (name : string) (raw : FleetPool) : result error FleetPool :=
  if String.eqb name "" then Err (errorf "pool name is empty" [])
  else if negb (name_ok name) then Err (errorf "pool name %q must match %s" [name; "^[A-Za-z_][A-Za-z0-9_]*$"])
  else if bool_decide (name ∈ reservedPoolNames) then
    Err (errorf "pool name %q is reserved (clashes with built-in placeholders {cpe}/{cpe_id}/etc.)" [name])
  else if String.eqb (pType raw) "ipv4" then
    if String.eqb (pCIDR raw) "" then Err (errorf "type=ipv4 requires cidr" [])
    else c ← parse_network "cidr" (pCIDR raw);
         if to4 c then Ok raw else Err (errorf "cidr %q is not an IPv4 network" [pCIDR raw])
  else if String.eqb (pType raw) "ipv6" then
    if String.eqb (pCIDR raw) "" then Err (errorf "type=ipv6 requires cidr" [])
    else c ← parse_network "cidr" (pCIDR raw);
         if to4 c then Err (errorf "cidr %q is not an IPv6 network" [pCIDR raw]) else Ok raw
  else if String.eqb (pType raw) "ipv6prefix" then
    if String.eqb (pSuper raw) "" then Err (errorf "type=ipv6prefix requires super" [])
    else c ← parse_network "super" (pSuper raw);
         if to4 c then Err (errorf "super %q must be an IPv6 network" [pSuper raw])
         else if (pSubLen raw <=? mask_size c)%Z then
           Err (errorf "sublen %d must be greater than super prefix length %d" [Strconv.Itoa (pSubLen raw); Strconv.Itoa (mask_size c)])
         else if (128 <? pSubLen raw)%Z then Err (errorf "sublen %d exceeds 128" [Strconv.Itoa (pSubLen raw)])
         else Ok raw
  else if String.eqb (pType raw) "" then Err (errorf "type is required" [])
  else Err (errorf "type %q unsupported (want ipv4, ipv6, ipv6prefix)" [pType raw]).

(** The number of the address, before it is printed. [u64] and [u32] are the
    source's conversions. *)
Definition over (instance capacity : Z) (cidr : string) : error :=
  errorf "instance %d exceeds capacity %d for cidr %s" [Strconv.Itoa instance; Strconv.Itoa capacity; cidr].
Definition parse_prefix (what s : string) : result error prefix := map_err (λ e, Errorf (what +:+ " %q: %w") [s] (Some e)) (ParsePrefix s).
Definition u32 (z : Z) : Z := z mod 2 ^ 32.
Definition ipv4_address (cidr : string) (instance : Z) : result error Z :=
  p ← parse_prefix "cidr" cidr;
  if negb (is4 p) then Err (errorf "cidr %q is not IPv4" [cidr])
  else if (host_bits p =? 0)%Z then
    if (instance =? 1)%Z then Ok (addr p) else Err (errorf "/32 pool can only hold instance 1; got %d" [Strconv.Itoa instance])
  else
    let maxHost := (u64 (Z.shiftl 1 (host_bits p)) - 1)%Z in
    if (maxHost <? u64 instance)%Z then Err (over instance maxHost cidr)
    else Ok (u32 (masked p + u32 instance)).
Definition ipv6_address (cidr : string) (instance : Z) : result error Z :=
  p ← parse_prefix "cidr" cidr;
  if is4 p then Err (errorf "cidr %q is not IPv6" [cidr])
  else
    let maxHost := (u64 (Z.shiftl 1 (host_bits p)) - 1)%Z in
    if (host_bits p <? 64)%Z && (maxHost <? u64 instance)%Z then Err (over instance maxHost cidr)
    else Ok ((masked p + instance) mod 2 ^ 128)%Z.
Definition ipv6_subprefix (super : string) (subLen instance : Z) : result error Z :=
  p ← parse_prefix "super" super;
  if is4 p then Err (errorf "super %q is not IPv6" [super])
  else if (subLen <=? bits p)%Z || (128 <? subLen)%Z then
    Err (errorf "sublen %d invalid for super /%d" [Strconv.Itoa subLen; Strconv.Itoa (bits p)])
  else
    let maxHost := u64 (Z.shiftl 1 (subLen - bits p)) in
    if (subLen - bits p <? 64)%Z && (maxHost <=? u64 instance)%Z then
      Err (errorf "instance %d exceeds capacity %d for super /%d -> /%d"
             [Strconv.Itoa instance; Strconv.Itoa (maxHost - 1); Strconv.Itoa (bits p); Strconv.Itoa subLen])
    else Ok (Z.lor (masked p) (Z.shiftl instance (128 - subLen)) mod 2 ^ 128)%Z.

Definition resolveIPv4 (cidr : string) (instance : Z) : result error string := Addr_String true <$> ipv4_address cidr instance.
Definition resolveIPv6 (cidr : string) (instance : Z) : result error string := Addr_String false <$> ipv6_address cidr instance.
Definition resolveIPv6Prefix (super : string) (subLen instance : Z) : result error string :=
  (λ a, Addr_String false a +:+ "/" +:+ Strconv.Itoa subLen) <$> ipv6_subprefix super subLen instance.

Definition ResolvePool (p : FleetPool) (instance : Z) : result error string :=
  if (instance <? 1)%Z then Err (errorf "instance must be >= 1, got %d" [Strconv.Itoa instance])
  else if String.eqb (pType p) "ipv4" then resolveIPv4 (pCIDR p) instance
  else if String.eqb (pType p) "ipv6" then resolveIPv6 (pCIDR p) instance
  else if String.eqb (pType p) "ipv6prefix" then resolveIPv6Prefix (pSuper p) (pSubLen p) instance
  else Err (errorf "unsupported pool type %q" [pType p]).

Definition sortedPoolNames (pools : gmap string FleetPool) : list string := Sort.Strings (map_to_list pools).*1.
Fixpoint check_pools (pools : gmap string FleetPool) (highest : Z) (names : list string) : result error unit :=
  match names with
  | [] => Ok tt
  | name :: rest =>
      match ResolvePool (default (MkPool "" "" "" 0) (pools !! name)) highest with
      | Err e => Err (Errorf "pool %q cannot reach instance %d (pools are sized for the whole fleet, not one shard): %w"
                        [name; Strconv.Itoa highest] (Some e))
      | Ok _ => check_pools pools highest rest
      end
  end.
Definition ValidatePoolCapacity (pools : gmap string FleetPool) (highest : Z) : result error unit :=
  if (highest <? 1)%Z then Ok tt else check_pools pools highest (sortedPoolNames pools).

(** [resolveFleetPools] of [main.go]; Go ranges over the map in any order. *)
Fixpoint resolve_each (l : list (string * FleetPool)) (instance : Z) : result error (list (string * string)) :=
  match l with
  | [] => Ok []
  | (name, p) :: rest =>
      v ← map_err (λ e, Errorf "fleet.pools[%q]: %w" [name] (Some e)) (ResolvePool p instance);
      vs ← resolve_each rest instance;
      Ok ((name, v) :: vs)
  end.
Definition resolveFleetPools (pools : gmap string FleetPool) (instance : Z) : result error (list (string * string)) :=
  resolve_each (map_to_list pools) instance.
End pool.
End Pool.

(** ** Placeholders *)

(** [strings.ReplaceAll] of a word that is not empty. *)
Fixpoint ReplaceAll_go (fuel : nat) (s old new : string) : string :=
  match fuel with
  | O => s
  | S fuel =>
      match Strings.CutStr s old with
      | Some (a, b) => a +:+ new +:+ ReplaceAll_go fuel b old new
      | None => s
      end
  end.
Definition ReplaceAll (s old new : string) : string := ReplaceAll_go (S (String.length s)) s old new.
Definition braced (name : string) : string := "{" +:+ name +:+ "}".

(** [%0*d], [%0*x], [%0*X] of a positive number: widths beyond a million are
    not taken. *)
Definition zero_pad (w : Z) (digits : string) : string :=
  if (1000000 <? w)%Z then "%!(BADWIDTH)" +:+ digits
  else Time.zeros (Z.to_nat w - String.length digits) +:+ digits.
Fixpoint strip_zeros (s : string) : string :=
  match s with
  | String c s' => match s' with "" => s | _ => if Ascii.eqb c "0" then strip_zeros s' else s end
  | "" => s
  end.
Definition hex_of (n : Z) : string := strip_zeros (hex_digits 16 n).

Module Placeholder.
Section placeholder.
Context (ParsePrefix : string → result error prefix) (Addr_String : bool → Z → string).
(** [rng.ForCPE] and [Intn]. *)
Context {R : Type} (ForCPE : string → R) (Intn : Z → R → Z * R).

Definition base36 : string := "0123456789ABCDEFGHIJKLMNOPQRSTUVWXYZ".
Definition char_at (i : Z) (s : string) : ascii := default "0"%char (String.get (Z.to_nat i) s).
Fixpoint draw_token (w : nat) (r : R) : string * R :=
  match w with
  | O => ("", r)
  | S w =>
      let '(i, r) := Intn 36 r in
      let '(s, r) := draw_token w r in
      (String (char_at i base36) s, r)
  end.

(** A width: what [Atoi] reads, when it is at least [low]. *)
Definition width_of (s : string) (low : Z) : option Z :=
  match Strconv.Atoi s with Ok w => if (low <=? w)%Z then Some w else None | Err _ => None end.
Definition options (kind arg : string) : result error (list string) :=
  let opts := Strings.Split arg "," in
  match opts with
  | [o] => if String.eqb (Space.TrimSpace o) "" then Err (errorf (kind +:+ " %q: empty option list") [arg]) else Ok opts
  | _ => Ok opts
  end.
Definition mac_bytes (upper : bool) (w : nat) (instance : Z) : string :=
  let byte i := let h := hex_digits 2 (Z.land (Z.shiftr instance (Z.of_nat i * 8)) 255) in if upper then ToUpper h else h in
  Strings.Join (byte <$> rev (seq 0 w)) ":".
Definition mac (upper : bool) (arg : string) (instance : Z) : result error string :=
  match Strconv.Atoi arg with
  | Ok w =>
      if (w <? 1)%Z || (3 <? w)%Z then Err (errorf "mac byte-count %q: invalid (want 1..3)" [arg])
      else
        let maxInst := (Z.shiftl 1 (w * 8) - 1)%Z in
        if (maxInst <? u64 instance)%Z then
          Err (errorf "mac:%d byte-count: instance %d exceeds capacity %d" [Strconv.Itoa w; Strconv.Itoa instance; Strconv.Itoa maxInst])
        else Ok (mac_bytes upper (Z.to_nat w) instance)
  | Err _ => Err (errorf "mac byte-count %q: invalid (want 1..3)" [arg])
  end.
Definition ipv6prefix_form (arg : string) (instance : Z) : result error string :=
  match Strings.CutLast arg "," with
  | None => Err (errorf "ipv6prefix arg %q: expected SUPER,SUBLEN" [arg])
  | Some (super, len) =>
      match Strconv.Atoi len with
      | Err e => Err (Errorf "ipv6prefix sublen %q: %w" [len] (Some (num_error "Atoi" len e)))
      | Ok subLen => Pool.ResolvePool ParsePrefix Addr_String (MkPool "ipv6prefix" "" super subLen) instance
      end
  end.
(** The token's draws go on from the stream of the string, started at the
    first. *)
Definition alnum (lower : bool) (arg cpeID : string) (stream : option R) : option R * result error string :=
  match width_of arg 1 with
  | None => (stream, Err (errorf "alnum width %q: invalid (want >= 1)" [arg]))
  | Some w =>
      let '(token, r) := draw_token (Z.to_nat w) (default (ForCPE (cpeID +:+ ":serial")) stream) in
      (Some r, Ok (if lower then ToLower token else token))
  end.

(** [evalCPEForm]: the stream, and the value when the form is known. *)
Definition evalCPEForm (spec cpeID : string) (instance : Z) (stream : option R) : option R * result error (option string) :=
  let known (r : result error string) := (stream, Some <$> r) in
  match width_of spec 0 with
  | Some w => (stream, Ok (Some (zero_pad w (Strconv.Itoa instance))))
  | None =>
      match Strings.Cut spec ":" with
      | None => (stream, Ok None)
      | Some (kind, arg) =>
          if String.eqb kind "rpick" then
            known (opts ← options "rpick" arg;
                   Ok (Space.TrimSpace (nth (Z.to_nat (Intn (Z.of_nat (length opts)) (ForCPE (cpeID +:+ ":rpick:" +:+ spec))).1) opts "")))
          else if String.eqb kind "pick" then
            known (opts ← options "pick" arg;
                   Ok (Space.TrimSpace (nth (Z.to_nat ((instance - 1) mod Z.of_nat (length opts))) opts "")))
          else if String.eqb kind "hex" then
            known (match width_of arg 0 with
                   | Some w => Ok (zero_pad w (hex_of instance))
                   | None => Err (errorf "hex width %q: invalid" [arg])
                   end)
          else if String.eqb kind "HEX" then
            known (match width_of arg 0 with
                   | Some w => Ok (zero_pad w (ToUpper (hex_of instance)))
                   | None => Err (errorf "HEX width %q: invalid" [arg])
                   end)
          else if String.eqb kind "alnum" || String.eqb kind "ALNUM" then
            let '(stream, r) := alnum (String.eqb kind "alnum") arg cpeID stream in (stream, Some <$> r)
          else if String.eqb kind "mac" then known (mac false arg instance)
          else if String.eqb kind "MAC" then known (mac true arg instance)
          else if String.eqb kind "ipv4" then known (Pool.ResolvePool ParsePrefix Addr_String (MkPool "ipv4" arg "" 0) instance)
          else if String.eqb kind "ipv6" then known (Pool.ResolvePool ParsePrefix Addr_String (MkPool "ipv6" arg "" 0) instance)
          else if String.eqb kind "ipv6prefix" then known (ipv6prefix_form arg instance)
          else (stream, Ok None)
      end
  end.

Definition marker := "{cpe:".
Definition close_brace : ascii := "}".
Fixpoint expand_loop (fuel : nat) (s cpeID : string) (instance : Z) (stream : option R) : result error string :=
  match fuel with
  | O => Ok s
  | S fuel =>
      match Strings.CutStr s marker with
      | None => Ok s
      | Some (before, after) =>
          match Strings.Cut after close_brace with
          | None => Ok s
          | Some (spec, rest) =>
              match evalCPEForm spec cpeID instance stream with
              | (_, Err e) => Err (Errorf "{cpe:%s}: %w" [spec] (Some e))
              | (stream, Ok v) =>
                  tail ← expand_loop fuel rest cpeID instance stream;
                  Ok (before +:+ default (marker +:+ spec +:+ "}") v +:+ tail)
              end
          end
      end
  end.
(** Every turn takes a marker off the string. *)
Definition expandCPEFormPlaceholders (s cpeID : string) (instance : Z) : result error string :=
  expand_loop (S (String.length s)) s cpeID instance None.

Definition substituteFleetPlaceholders (s : string) (instance : Z) (cpeID : string) (resolved : list (string * string))
  : result error string :=
  let out := ReplaceAll s "{cpe_id}" cpeID in
  let out := ReplaceAll out "{cpe}" (Strconv.Itoa instance) in
  let out := foldl (λ out '(name, v), ReplaceAll out (braced name) v) out resolved in
  expandCPEFormPlaceholders out cpeID instance.
Definition hasFleetPlaceholder (s : string) (resolved : list (string * string)) : bool :=
  Strings.Contains s "{cpe}" || Strings.Contains s "{cpe:" || Strings.Contains s "{cpe_id}" ||
  existsb (λ '(name, _), Strings.Contains s (braced name)) resolved.

(** What a leaf's value becomes; [None] is to be left alone. *)
Definition placed (instance : Z) (cpeID : string) (resolved : list (string * string)) (raw : string) : result error (option string) :=
  if hasFleetPlaceholder raw resolved then
    next ← substituteFleetPlaceholders raw instance cpeID resolved;
    Ok (if String.eqb next raw then None else Some next)
  else Ok None.
Definition collect_update (instance : Z) (cpeID : string) (resolved : list (string * string)) : visitor (list (string * string)) :=
  λ path v updates,
    match placed instance cpeID resolved (Raw v) with
    | Err e => (updates, Some (Errorf "substitute %q: %w" [path] (Some e)))
    | Ok None => (updates, None)
    | Ok (Some next) => (updates ++ [(path, next)], None)
    end.
Fixpoint apply_updates (t : Tree) (updates : list (string * string)) : Tree * list Change * result error unit :=
  match updates with
  | [] => (t, [], Ok tt)
  | (path, raw) :: rest =>
      match SetSystem t path raw with
      | (t, cs, Err e) => (t, cs, Err (Errorf "apply fleet placeholder at %q: %w" [path] (Some e)))
      | (t, cs, Ok _) => let '(t, cs', r) := apply_updates t rest in (t, cs ++ cs', r)
      end
  end.
Definition applyFleetPlaceholders (t : Tree) (instance : Z) (cpeID : string) (pools : gmap string FleetPool)
  : Tree * list Change * result error unit :=
  match Pool.resolveFleetPools ParsePrefix Addr_String pools instance with
  | Err e => (t, [], Err e)
  | Ok resolved =>
      match Walk t "" (-1) (collect_update instance cpeID resolved) [] with
      | (_, Some e) => (t, [], Err e)
      | (updates, None) => apply_updates t updates
      end
  end.

(** The tree a device starts with: lines of [buildCPEStack]. *)
Definition prepare (template : Tree) (serialPath serial : string) (instance : Z) (cpeID : string) (pools : gmap string FleetPool)
  : Tree * result error unit :=
  match SetSystem (Clone template) serialPath serial with
  | (t, _, Err e) => (t, Err (Errorf "stamp serial at %q: %w" [serialPath] (Some e)))
  | (t, _, Ok _) =>
      let '(t, _, r) := applyFleetPlaceholders t instance cpeID pools in
      (t, map_err (λ e, Errorf "fleet placeholder substitution: %w" [] (Some e)) r)
  end.

(** ** Serial numbers *)

Fixpoint pad_loop (fuel : nat) (s : string) (instance : Z) : string :=
  match fuel with
  | O => s
  | S fuel =>
      match Strings.CutStr s "{i:" with
      | None => s
      | Some (before, after) =>
          match Strings.Cut after close_brace with
          | None => s
          | Some (w, rest) =>
              match width_of w 0 with
              | None => before +:+ "{i:" +:+ w +:+ "}" +:+ pad_loop fuel rest instance
              | Some w => before +:+ zero_pad w (Strconv.Itoa instance) +:+ pad_loop fuel rest instance
              end
          end
      end
  end.
Definition padIPlaceholder (s : string) (instance : Z) : string := pad_loop (S (String.length s)) s instance.

Definition stampSerial (pattern baseSerial : string) (instance : Z) (cpeID : string) (pools : gmap string FleetPool)
  : result error string :=
  let out := ReplaceAll pattern "{base}" baseSerial in
  let out := ReplaceAll out "{i}" (Strconv.Itoa instance) in
  let out := padIPlaceholder out instance in
  out ← (if Strings.Contains out "{" then
           resolved ← Pool.resolveFleetPools ParsePrefix Addr_String pools instance;
           substituteFleetPlaceholders out instance cpeID resolved
         else Ok out);
  if (64 <? String.length out)%nat then
    Err (errorf "serial %q is %d characters, exceeds the TR-069 SerialNumber limit of 64" [out; Strconv.Itoa (Z.of_nat (String.length out))])
  else Ok out.
End placeholder.
End Placeholder.
