(* ===== verification/FleetProps.v ===== *)
(** * Fleets: what is promised of addresses and placeholders *)
From Stdlib Require Import ZArith Lia Ascii String.
From S2P Require Import Prelude GoLib GoText GoAuth CpeErr Types Node Tree TreeProps Listing EventTracker Retry Schedules DarkWindow Fleet.

(** ** Addresses *)

Definition valid_prefix (p : prefix) : Prop := (0 ≤ bits p ≤ width p ∧ 0 ≤ addr p < 2 ^ width p)%Z.

Lemma masked_range p : valid_prefix p → (0 ≤ masked p ∧ masked p + 2 ^ host_bits p ≤ 2 ^ width p)%Z.
Proof.
  intros [[Hb Hbw] [Ha Haw]]. unfold masked. assert (0 ≤ host_bits p)%Z as Hh by (unfold host_bits; lia).
  rewrite Z.shiftl_mul_pow2, Z.shiftr_div_pow2 by done. assert (2 ^ width p = 2 ^ bits p * 2 ^ host_bits p)%Z as E.
  { rewrite <-Z.pow_add_r by lia. f_equal. unfold host_bits. lia. }
  rewrite E in *. assert (0 < 2 ^ host_bits p)%Z as Hp by (by apply Z.pow_pos_nonneg).
  assert (0 ≤ addr p / 2 ^ host_bits p)%Z by (apply Z.div_pos; lia).
  assert (addr p / 2 ^ host_bits p < 2 ^ bits p)%Z by (apply Z.div_lt_upper_bound; lia). split; nia.
Qed.
(** The host part is free in a masked address. *)
Lemma masked_lor p x : valid_prefix p → (0 ≤ x < 2 ^ host_bits p)%Z → Z.lor (masked p) x = (masked p + x)%Z.
Proof.
  intros [[Hb Hbw] _] Hx. assert (0 ≤ host_bits p)%Z as Hh by (unfold host_bits; lia).
  assert (Z.land (masked p) x = 0)%Z as Hl.
  { apply Z.bits_inj'. intros n Hn. rewrite Z.land_spec, Z.bits_0. unfold masked. destruct (Z.lt_ge_cases n (host_bits p)) as [H|H].
    - by rewrite Z.shiftl_spec_low.
    - destruct (Z.eq_dec x 0%Z) as [->|Hx0]; [by rewrite Z.bits_0, andb_false_r|].
      rewrite (Z.bits_above_log2 x n), andb_false_r; [done|lia|]. eapply Z.lt_le_trans; [|exact H].
      apply Z.log2_lt_pow2; lia. }
  rewrite <-Z.lxor_lor by done. by rewrite <-Z.add_nocarry_lxor.
Qed.

Section pools.
Context (ParsePrefix : string → result error prefix) (Addr_String : bool → Z → string).
(** [netip] reads valid prefixes only, and prints different addresses of a
    family differently. *)
Context (Hparse : ∀ s p, ParsePrefix s = Ok p → valid_prefix p)
        (Hprint : ∀ f a b, Addr_String f a = Addr_String f b → a = b).
Definition index (i : Z) : Prop := (1 ≤ i < 2 ^ 63)%Z.

Lemma parse_prefix_valid what s p : Pool.parse_prefix ParsePrefix what s = Ok p → valid_prefix p.
Proof. unfold Pool.parse_prefix. destruct (ParsePrefix s) eqn:E; [|done]. intros [= <-]. by eapply Hparse. Qed.
Lemma capacity_small h : (0 ≤ h < 64)%Z → u64 (Z.shiftl 1 h) = (2 ^ h)%Z ∧ (1 ≤ 2 ^ h < 2 ^ 64)%Z.
Proof.
  intros H. rewrite Z.shiftl_1_l. assert (1 ≤ 2 ^ h < 2 ^ 64)%Z as Hb.
  { split; [apply Z.lt_pred_le; cbn; apply Z.pow_pos_nonneg; lia|apply Z.pow_lt_mono_r; lia]. }
  split; [apply u64_small; lia|done].
Qed.

(** What an address is, when there is one; and that there is one for every
    smaller index. *)
Lemma ipv4_number cidr i a : index i → Pool.ipv4_address ParsePrefix cidr i = Ok a →
  ∃ p, ParsePrefix cidr = Ok p ∧ is4 p = true ∧
    if (host_bits p =? 0)%Z then i = 1%Z ∧ a = addr p else (i < 2 ^ host_bits p)%Z ∧ a = (masked p + i)%Z.
Proof.
  intros Hi (p&Hp&H)%result_bind_ok. pose proof (parse_prefix_valid _ _ _ Hp) as Hv. exists p.
  unfold Pool.parse_prefix in Hp. destruct (ParsePrefix cidr) as [p'|]; [|done]. injection Hp as ->. split; [done|].
  destruct (is4 p) eqn:E4; [|done]. cbn [negb] in H. split; [done|]. destruct (host_bits p =? 0)%Z eqn:Eh.
  - destruct (Z.eqb_spec i 1); [|done]. by injection H as <-.
  - apply Z.eqb_neq in Eh. pose proof Hv as [[Hb Hbw] _]. unfold width in Hbw. rewrite E4 in Hbw.
    assert (0 < host_bits p ≤ 32)%Z as Hh by (unfold host_bits, width in *; rewrite E4 in *; lia).
    destruct (capacity_small (host_bits p)) as [Hc Hc2]; [lia|]. rewrite Hc in H. unfold index in Hi.
    rewrite (u64_small i) in H by lia. destruct (Z.ltb_spec (2 ^ host_bits p - 1) i); [done|]. injection H as <-. split; [lia|].
    assert (2 ^ host_bits p ≤ 2 ^ 32)%Z by (apply Z.pow_le_mono_r; lia).
    pose proof (masked_range p Hv) as [Hm1 Hm2]. unfold width in Hm2. rewrite E4 in Hm2.
    unfold Pool.u32. rewrite (Z.mod_small i) by lia. apply Z.mod_small. lia.
Qed.
Lemma ipv6_number cidr i a : index i → Pool.ipv6_address ParsePrefix cidr i = Ok a →
  ∃ p, ParsePrefix cidr = Ok p ∧ is4 p = false ∧ (i < 2 ^ host_bits p)%Z ∧ a = (masked p + i)%Z.
Proof.
  intros Hi (p&Hp&H)%result_bind_ok. pose proof (parse_prefix_valid _ _ _ Hp) as Hv. exists p.
  unfold Pool.parse_prefix in Hp. destruct (ParsePrefix cidr) as [p'|]; [|done]. injection Hp as ->. split; [done|].
  destruct (is4 p) eqn:E4; [done|]. split; [done|]. pose proof Hv as [[Hb Hbw] _].
  assert (0 ≤ host_bits p)%Z as Hh by (unfold host_bits; lia). unfold index in Hi.
  assert (i < 2 ^ host_bits p)%Z as Hlt.
  { destruct (Z.ltb_spec (host_bits p) 64) as [Hs|Hs].
    - destruct (capacity_small (host_bits p)) as [Hc Hc2]; [lia|]. rewrite Hc, (u64_small i) in H by lia. cbn [andb] in H.
      destruct (Z.ltb_spec (2 ^ host_bits p - 1) i); [done|]. lia.
    - apply Z.lt_le_trans with (2 ^ 64)%Z; [lia|]. apply Z.pow_le_mono_r; lia. }
  split; [done|]. cbv zeta in H. destruct (_ && _); [done|]. injection H as <-. pose proof (masked_range p Hv) as [Hm1 Hm2].
  unfold width in Hm2. rewrite E4 in Hm2. apply Z.mod_small. lia.
Qed.
Lemma ipv6_subprefix_number super n i a : index i → Pool.ipv6_subprefix ParsePrefix super n i = Ok a →
  ∃ p, ParsePrefix super = Ok p ∧ is4 p = false ∧ (bits p < n ≤ 128)%Z ∧ (i < 2 ^ (n - bits p))%Z ∧
    a = (masked p + i * 2 ^ (128 - n))%Z.
Proof.
  intros Hi (p&Hp&H)%result_bind_ok. pose proof (parse_prefix_valid _ _ _ Hp) as Hv. exists p.
  unfold Pool.parse_prefix in Hp. destruct (ParsePrefix super) as [p'|]; [|done]. injection Hp as ->. split; [done|].
  destruct (is4 p) eqn:E4; [done|]. split; [done|]. pose proof Hv as [[Hb Hbw] _].
  destruct (Z.leb_spec n (bits p)); [done|]. destruct (Z.ltb_spec 128 n); [done|]. cbn [orb] in H. split; [lia|].
  unfold index in Hi. assert (i < 2 ^ (n - bits p))%Z as Hlt.
  { destruct (Z.ltb_spec (n - bits p) 64) as [Hs|Hs].
    - destruct (capacity_small (n - bits p)) as [Hc Hc2]; [lia|]. rewrite Hc, (u64_small i) in H by lia. cbn [andb] in H.
      destruct (Z.leb_spec (2 ^ (n - bits p)) i); [done|]. lia.
    - apply Z.lt_le_trans with (2 ^ 64)%Z; [lia|]. apply Z.pow_le_mono_r; lia. }
  split; [done|]. cbv zeta in H. destruct (_ && _); [done|]. injection H as <-. rewrite Z.shiftl_mul_pow2 by lia.
  assert (2 ^ host_bits p = 2 ^ (n - bits p) * 2 ^ (128 - n))%Z as E.
  { rewrite <-Z.pow_add_r by lia. f_equal. unfold host_bits, width. rewrite E4. lia. }
  assert (0 < 2 ^ (128 - n))%Z by (apply Z.pow_pos_nonneg; lia). assert (0 ≤ i * 2 ^ (128 - n) < 2 ^ host_bits p)%Z as Hx by (rewrite E; nia).
  rewrite masked_lor by done. pose proof (masked_range p Hv) as [Hm1 Hm2]. unfold width in Hm2. rewrite E4 in Hm2. apply Z.mod_small. lia.
Qed.

Lemma fewer_fit m i n : index i → (i ≤ n < 2 ^ 63)%Z →
  ((m <? u64 n)%Z = false → (m <? u64 i)%Z = false) ∧ ((m <=? u64 n)%Z = false → (m <=? u64 i)%Z = false).
Proof. intros Hi Hn. unfold index in Hi. rewrite !u64_small, !Z.ltb_ge, !Z.leb_gt by lia. lia. Qed.
Lemma resolve_smaller p i n : index i → (i ≤ n < 2 ^ 63)%Z →
  is_ok (Pool.ResolvePool ParsePrefix Addr_String p n) = true → is_ok (Pool.ResolvePool ParsePrefix Addr_String p i) = true.
Proof.
  intros Hi Hn. unfold Pool.ResolvePool. unfold index in Hi. destruct (Z.ltb_spec n 1); [lia|]. destruct (Z.ltb_spec i 1); [lia|].
  repeat match goal with |- context [String.eqb (pType p) ?s] => destruct (String.eqb (pType p) s) end; try done.
  - unfold Pool.resolveIPv4, Pool.ipv4_address. destruct (Pool.parse_prefix _ _ _) as [x|]; [|done]. cbn.
    destruct (negb (is4 x)); [done|]. destruct (host_bits x =? 0)%Z; [destruct (Z.eqb_spec n 1) as [->|]; [|done]; by rewrite (proj2 (Z.eqb_eq i 1)) by lia|].
    destruct (_ <? u64 n)%Z eqn:E; [done|]. by rewrite (proj1 (fewer_fit _ i n Hi Hn) E).
  - unfold Pool.resolveIPv6, Pool.ipv6_address. destruct (Pool.parse_prefix _ _ _) as [x|]; [|done]. cbn.
    destruct (is4 x); [done|]. destruct (host_bits x <? 64)%Z; [|done]. cbn.
    destruct (_ <? u64 n)%Z eqn:E; [done|]. by rewrite (proj1 (fewer_fit _ i n Hi Hn) E).
  - unfold Pool.resolveIPv6Prefix, Pool.ipv6_subprefix. destruct (Pool.parse_prefix _ _ _) as [x|]; [|done]. cbn.
    destruct (is4 x); [done|]. destruct (_ || _); [done|]. destruct (pSubLen p - bits x <? 64)%Z; [|done]. cbn.
    destruct (_ <=? u64 n)%Z eqn:E; [done|]. by rewrite (proj2 (fewer_fit _ i n Hi Hn) E).
Qed.

Lemma fmap_result_ok {A B} (f : A → B) (r : result error A) v : f <$> r = Ok v → ∃ a, r = Ok a ∧ v = f a.
Proof. destruct r; [|done]. intros [= <-]. by eexists. Qed.
Lemma resolve_injective p i j v : index i → index j →
  Pool.ResolvePool ParsePrefix Addr_String p i = Ok v → Pool.ResolvePool ParsePrefix Addr_String p j = Ok v → i = j.
Proof.
  intros Hi Hj. unfold Pool.ResolvePool. destruct (i <? 1)%Z; [done|]. destruct (j <? 1)%Z; [done|].
  destruct (String.eqb (pType p) "ipv4"); [|destruct (String.eqb (pType p) "ipv6"); [|destruct (String.eqb (pType p) "ipv6prefix"); [|done]]].
  - intros (a&Ha&->)%fmap_result_ok (b&Hb&Hab)%fmap_result_ok. apply Hprint in Hab as ->.
    apply ipv4_number in Ha as (x&Hx&_&Ha); [|done]. apply ipv4_number in Hb as (y&Hy&_&Hb); [|done]. rewrite Hx in Hy. injection Hy as <-.
    destruct (host_bits x =? 0)%Z; lia.
  - intros (a&Ha&->)%fmap_result_ok (b&Hb&Hab)%fmap_result_ok. apply Hprint in Hab as ->.
    apply ipv6_number in Ha as (x&Hx&_&_&Ha); [|done]. apply ipv6_number in Hb as (y&Hy&_&_&Hb); [|done]. rewrite Hx in Hy. injection Hy as <-. lia.
  - intros (a&Ha&->)%fmap_result_ok (b&Hb&Hab)%fmap_result_ok. apply str_app_inj_r, Hprint in Hab as ->.
    apply ipv6_subprefix_number in Ha as (x&Hx&_&Hn&_&Ha); [|done]. apply ipv6_subprefix_number in Hb as (y&Hy&_&_&_&Hb); [|done].
    rewrite Hx in Hy. injection Hy as <-. assert (0 < 2 ^ (128 - pSubLen p))%Z by (apply Z.pow_pos_nonneg; lia). nia.
Qed.
Lemma check_pools_all pools n names : Pool.check_pools ParsePrefix Addr_String pools n names = Ok tt →
  ∀ name, name ∈ names → is_ok (Pool.ResolvePool ParsePrefix Addr_String (default (MkPool "" "" "" 0) (pools !! name)) n) = true.
Proof.
  induction names as [|x names IH]; cbn; [by intros _ name ?%elem_of_nil|]. destruct (Pool.ResolvePool _ _ _ _) eqn:E; [|done].
  intros H name [->|Hin]%elem_of_cons; [by rewrite E|by apply IH].
Qed.
End pools.

(** C18. Addresses of a fleet. When the capacity check passes for the highest
    instance of the run, every pool has an address, or a delegated prefix, for
    every instance up to it, and no two instances get the same. *)
Theorem fleet_addresses (ParsePrefix : string → result error prefix) (Addr_String : bool → Z → string)
  (Hparse : ∀ s p, ParsePrefix s = Ok p → valid_prefix p) (Hprint : ∀ f a b, Addr_String f a = Addr_String f b → a = b)
  (pools : gmap string FleetPool) (highest : Z) (name : string) (p : FleetPool)
  (Hc : Pool.ValidatePoolCapacity ParsePrefix Addr_String pools highest = Ok tt) (Hh : (highest < 2 ^ 63)%Z) (Hp : pools !! name = Some p) :
  ∀ i, (1 ≤ i ≤ highest)%Z → ∃ v, Pool.ResolvePool ParsePrefix Addr_String p i = Ok v ∧
    ∀ j, (1 ≤ j ≤ highest)%Z → Pool.ResolvePool ParsePrefix Addr_String p j = Ok v → j = i.
Proof.
  intros i Hi. unfold Pool.ValidatePoolCapacity in Hc. destruct (Z.ltb_spec highest 1); [lia|].
  assert (is_ok (Pool.ResolvePool ParsePrefix Addr_String p highest) = true) as Htop.
  { pose proof (check_pools_all ParsePrefix Addr_String _ _ _ Hc name) as H0. rewrite Hp in H0. apply H0.
    unfold Pool.sortedPoolNames. apply Sort.elem_of_Strings, list_elem_of_fmap. exists (name, p). split; [done|]. by apply elem_of_map_to_list. }
  assert (index i) as Hix by (unfold index; lia).
  pose proof (resolve_smaller ParsePrefix Addr_String p i highest Hix ltac:(lia) Htop) as Hok.
  destruct (Pool.ResolvePool ParsePrefix Addr_String p i) as [v|] eqn:Ev; [|done]. exists v. split; [done|].
  intros j Hj Hjv. refine (resolve_injective ParsePrefix Addr_String Hparse Hprint p j i v _ Hix Hjv Ev). unfold index. lia.
Qed.

Definition ex_parse (s : string) : result error prefix :=
  if String.eqb s "10.0.0.0/29" then Ok (MkPrefix true 167772160 29) else Err (errorf "no '/'" []).
Definition ex_print (f : bool) (a : Z) : string := Strconv.Itoa a.
Definition ex_pools : gmap string FleetPool := {["wan" := MkPool "ipv4" "10.0.0.0/29" "" 0]}.
Lemma ex_parse_valid s p : ex_parse s = Ok p → valid_prefix p.
Proof. unfold ex_parse. destruct (String.eqb s _); [|done]. intros [= <-]. split; cbn; lia. Qed.
Lemma fleet_addresses_witness :
  (∃ v, Pool.ResolvePool ex_parse ex_print (MkPool "ipv4" "10.0.0.0/29" "" 0) 3 = Ok v ∧
    ∀ j, (1 ≤ j ≤ 7)%Z → Pool.ResolvePool ex_parse ex_print (MkPool "ipv4" "10.0.0.0/29" "" 0) j = Ok v → j = 3%Z) ∧
  is_ok (Pool.ValidatePoolCapacity ex_parse ex_print ex_pools 8) = false.
Proof.
  split; [|by vm_compute].
  exact (fleet_addresses ex_parse ex_print ex_parse_valid (λ _ a b, Strconv.Itoa_inj a b) ex_pools 7 "wan" (MkPool "ipv4" "10.0.0.0/29" "" 0)
    ltac:(vm_compute; reflexivity) ltac:(lia) ltac:(vm_compute; reflexivity) 3 ltac:(lia)).
Defined.

(** ** Placeholders *)

Section placeholders.
Context (ParsePrefix : string → result error prefix) (Addr_String : bool → Z → string).
Context {R : Type} (ForCPE : string → R) (Intn : Z → R → Z * R).
Context (instance : Z) (cpeID : string) (resolved : list (string * string)).
Let step raw := Placeholder.placed ParsePrefix Addr_String ForCPE Intn instance cpeID resolved raw.
(** The text a leaf ends with. *)
Definition filled (raw : string) : string := match step raw with Ok (Some next) => next | _ => raw end.
(** A leaf whose placeholders can be written. *)
Definition fillable (v : Value) : Prop :=
  is_ok (step (Raw v)) = true ∧ (filled (Raw v) ≠ Raw v → valid_raw (vType v) (filled (Raw v)) = true).
Definition update_of (x : list string * Value) : option (string * string) :=
  if decide (filled (Raw x.2) = Raw x.2) then None else Some (joinPath x.1, filled (Raw x.2)).

Lemma placed_moves raw next : step raw = Ok (Some next) → next ≠ raw.
Proof.
  unfold step, Placeholder.placed. destruct (Placeholder.hasFleetPlaceholder _ _); [|done].
  destruct (Placeholder.substituteFleetPlaceholders _ _ _ _ _ _ _ _) as [x|]; [|done]. cbn.
  destruct (String.eqb_spec x raw); [done|]. by intros [= <-].
Qed.
Lemma collects (l : list (list string * Value)) s :
  Forall (λ x, fillable x.2) l →
  for_each (visit [] (Placeholder.collect_update ParsePrefix Addr_String ForCPE Intn instance cpeID resolved)) l s = (s ++ omap update_of l, None).
Proof.
  revert s; induction l as [|[q v] l IH]; intros s HF; [cbn; by rewrite app_nil_r|].
  inv HF as [|?? [Hok _] HF']. cbn [for_each omap list_omap]. unfold visit at 1. unfold update_of at 1. cbn [fst snd app] in *.
  unfold Placeholder.collect_update at 1. unfold filled. fold (step (Raw v)) in *. destruct (step (Raw v)) as [[next|]|e] eqn:E; [| |done].
  - rewrite decide_False by (by apply placed_moves). rewrite (IH _ HF'), <-app_assoc. done.
  - rewrite decide_True by done. by rewrite (IH _ HF').
Qed.
Lemma applies (l : list (list string * Value)) t :
  NoDup l.*1 → Forall (λ x, fillable x.2 ∧ parsePath (joinPath x.1) = Ok x.1 ∧ view t x.1 = Some x.2) l →
  ∃ t' cs, Placeholder.apply_updates t (omap update_of l) = (t', cs, Ok tt) ∧
    ∀ q, view t' q = if decide (q ∈ l.*1) then (λ v, with_raw (filled (Raw v)) v) <$> view t q else view t q.
Proof.
  revert t; induction l as [|[q v] l IH]; intros t HN HF.
  { exists t, []. split; [done|]. intros q. cbn. by rewrite decide_False by apply not_elem_of_nil. }
  inv HN as [|?? Hq HN']. inv HF as [|?? ([_ Hval]&Hp&Hv) HF']. cbn [fst snd] in *. cbn [omap list_omap]. unfold update_of at 1. cbn [fst snd].
  destruct (decide (filled (Raw v) = Raw v)) as [Heq|Hne].
  - destruct (IH t HN' HF') as (t'&cs&E&Hw). exists t', cs. split; [done|]. intros q'. rewrite Hw. cbn [fmap list_fmap fst].
    destruct (decide (q' ∈ l.*1)) as [Hin|Hnin]; [by rewrite decide_True by (by right)|].
    destruct (decide (q' = q)) as [->|Hd]; [|by rewrite decide_False by (by intros [?|?]%elem_of_cons)].
    rewrite decide_True by (by left). rewrite Hv. cbn. rewrite Heq. by destruct v.
  - destruct (SetSystem_writes t (joinPath q) (filled (Raw v)) v) as (t1&cs1&p&E1&Hp1&Hw1); [apply Get_view; by exists q|by apply Hval|].
    rewrite Hp in Hp1. injection Hp1 as <-. destruct (IH t1 HN') as (t'&cs&E&Hw).
    { apply Forall_forall. intros [q' v'] Hin. rewrite Forall_forall in HF'. destruct (HF' _ Hin) as (?&?&Hv'). split_and!; [done..|].
      rewrite Hw1. unfold spec_update. rewrite decide_False; [done|]. intros ->. apply Hq, list_elem_of_fmap. by exists (q', v'). }
    cbn [Placeholder.apply_updates]. rewrite E1, E. eexists _, _. split; [reflexivity|]. intros q'. rewrite Hw, Hw1. unfold spec_update.
    cbn [fmap list_fmap fst]. destruct (decide (q' = q)) as [->|Hd].
    + rewrite !decide_False by done. rewrite decide_True by done. rewrite decide_True by (by left). by rewrite Hv.
    + rewrite (decide_False (P := q = q')) by congruence. destruct (decide (q' ∈ l.*1)) as [Hin|Hnin].
      * by rewrite decide_True by (by right).
      * by rewrite decide_False by (by intros [?|?]%elem_of_cons).
Qed.
End placeholders.

(** *** What a text with placeholders means *)

(** Text without an opening brace, and a name between braces. *)
Inductive piece := Lit (s : string) | Ref (name : string).
Definition show_piece (p : piece) : string := match p with Lit s => s | Ref n => "{" +:+ n +:+ "}" end.
Fixpoint show (ps : list piece) : string := match ps with [] => "" | p :: ps => show_piece p +:+ show ps end.
Abbreviation no_open := (Strings.no_byte "{").
Abbreviation no_close := (Strings.no_byte "}").
Definition piece_ok (p : piece) : Prop :=
  match p with Lit s => no_open s = true | Ref n => no_open n = true ∧ no_close n = true end.

Section meaning.
Context (ParsePrefix : string → result error prefix) (Addr_String : bool → Z → string).
Context {R : Type} (ForCPE : string → R) (Intn : Z → R → Z * R).
Context (instance : Z) (cpeID : string) (pools : gmap string FleetPool).

(** A token of base-36 digits, drawn from a stream. *)
Inductive draws : nat → R → string → R → Prop :=
| draws_O r : draws 0 r "" r
| draws_S w r i r1 s r2 : Intn 36 r = (i, r1) → draws w r1 s r2 →
    draws (S w) r (String (default "0"%char (String.get (Z.to_nat i) "0123456789ABCDEFGHIJKLMNOPQRSTUVWXYZ")) s) r2.
(** The last bytes of the instance number, in hexadecimal, joined by colons. *)
Definition last_bytes (w : nat) : string :=
  Strings.Join ((λ i : nat, hex_digits 2 (instance / 256 ^ Z.of_nat i mod 256)) <$> rev (seq 0 w)) ":".
Definition kinds : list string := ["rpick"; "pick"; "hex"; "HEX"; "alnum"; "ALNUM"; "mac"; "MAC"; "ipv4"; "ipv6"; "ipv6prefix"].

(** What stands for [{cpe:spec}], and the string's stream of draws before and
    after. *)
Inductive form : string → option R → string → option R → Prop :=
| form_width spec w st : Strconv.Atoi spec = Ok w → (0 ≤ w)%Z → form spec st (zero_pad w (Strconv.Itoa instance)) st
| form_hex arg w st : Strconv.Atoi arg = Ok w → (0 ≤ w)%Z → form ("hex:" +:+ arg) st (zero_pad w (hex_of instance)) st
| form_HEX arg w st : Strconv.Atoi arg = Ok w → (0 ≤ w)%Z → form ("HEX:" +:+ arg) st (zero_pad w (ToUpper (hex_of instance))) st
| form_pick arg st :
    form ("pick:" +:+ arg) st
      (Space.TrimSpace (nth (Z.to_nat ((instance - 1) mod Z.of_nat (length (Strings.Split arg ",")))) (Strings.Split arg ",") "")) st
| form_rpick arg st :
    form ("rpick:" +:+ arg) st
      (Space.TrimSpace (nth (Z.to_nat (Intn (Z.of_nat (length (Strings.Split arg ","))) (ForCPE (cpeID +:+ ":rpick:rpick:" +:+ arg))).1)
        (Strings.Split arg ",") "")) st
| form_alnum arg w st text r : Strconv.Atoi arg = Ok w → (1 ≤ w)%Z →
    draws (Z.to_nat w) (default (ForCPE (cpeID +:+ ":serial")) st) text r → form ("alnum:" +:+ arg) st (ToLower text) (Some r)
| form_ALNUM arg w st text r : Strconv.Atoi arg = Ok w → (1 ≤ w)%Z →
    draws (Z.to_nat w) (default (ForCPE (cpeID +:+ ":serial")) st) text r → form ("ALNUM:" +:+ arg) st text (Some r)
| form_mac arg w st : Strconv.Atoi arg = Ok w → (1 ≤ w ≤ 3)%Z → (instance < 256 ^ w)%Z → form ("mac:" +:+ arg) st (last_bytes (Z.to_nat w)) st
| form_MAC arg w st : Strconv.Atoi arg = Ok w → (1 ≤ w ≤ 3)%Z → (instance < 256 ^ w)%Z →
    form ("MAC:" +:+ arg) st (Strings.Join ((λ i : nat, ToUpper (hex_digits 2 (instance / 256 ^ Z.of_nat i mod 256))) <$> rev (seq 0 (Z.to_nat w))) ":") st
| form_ipv4 arg text st : Pool.ResolvePool ParsePrefix Addr_String (MkPool "ipv4" arg "" 0) instance = Ok text → form ("ipv4:" +:+ arg) st text st
| form_ipv6 arg text st : Pool.ResolvePool ParsePrefix Addr_String (MkPool "ipv6" arg "" 0) instance = Ok text → form ("ipv6:" +:+ arg) st text st
| form_ipv6prefix super len subLen text st : Strconv.Atoi len = Ok subLen → Strings.no_byte "," len = true →
    Pool.ResolvePool ParsePrefix Addr_String (MkPool "ipv6prefix" "" super subLen) instance = Ok text →
    form ("ipv6prefix:" +:+ super +:+ "," +:+ len) st text st
| form_none spec st : (∀ w, Strconv.Atoi spec = Ok w → (w < 0)%Z) →
    (∀ kind arg, spec = kind +:+ ":" +:+ arg → Strings.no_byte ":" kind = true → kind ∉ kinds) → form spec st ("{cpe:" +:+ spec +:+ "}") st.

(** What the pieces of a value become, from the left: the device's identity,
    its number, its value of a pool, a form; any other name is kept. *)
Inductive says : list piece → option R → string → Prop :=
| says_nil st : says [] st ""
| says_lit s ps st out : says ps st out → says (Lit s :: ps) st (s +:+ out)
| says_id ps st out : says ps st out → says (Ref "cpe_id" :: ps) st (cpeID +:+ out)
| says_number ps st out : says ps st out → says (Ref "cpe" :: ps) st (Strconv.Itoa instance +:+ out)
| says_pool n p v ps st out : n ≠ "cpe_id" → n ≠ "cpe" → pools !! n = Some p →
    Pool.ResolvePool ParsePrefix Addr_String p instance = Ok v → says ps st out → says (Ref n :: ps) st (v +:+ out)
| says_form spec text st' ps st out : pools !! ("cpe:" +:+ spec) = None → form spec st text st' → says ps st' out →
    says (Ref ("cpe:" +:+ spec) :: ps) st (text +:+ out)
| says_other n ps st out : n ≠ "cpe_id" → n ≠ "cpe" → pools !! n = None → (∀ spec, n ≠ "cpe:" +:+ spec) → says ps st out →
    says (Ref n :: ps) st ("{" +:+ n +:+ "}" +:+ out).

Context (Hi : (1 ≤ instance < 2 ^ 63)%Z).

(** **** The forms *)

Lemma Cut_ok s c a b : Strings.Cut s c = Some (a, b) → s = a +:+ String c b ∧ Strings.no_byte c a = true.
Proof.
  revert a. induction s as [|d s IH]; intros a; cbn; [done|]. destruct (Ascii.eqb_spec d c) as [->|Hn]; [by intros [= <- <-]|].
  destruct (Strings.Cut s c) as [[a' b']|]; [|done]. intros [= <- <-]. destruct (IH a' eq_refl) as [-> Hb]. split; [done|].
  unfold Strings.no_byte in *. cbn. apply Ascii.eqb_neq in Hn. by rewrite Hn.
Qed.
Lemma options_ok kind arg opts : Placeholder.options kind arg = Ok opts → opts = Strings.Split arg ",".
Proof. unfold Placeholder.options. destruct (Strings.Split arg ",") as [|o [|]]; [by intros [= <-]| |by intros [= <-]]. destruct (String.eqb _ _); [done|by intros [= <-]]. Qed.
Lemma width_ok s low w : Placeholder.width_of s low = Some w → Strconv.Atoi s = Ok w ∧ (low ≤ w)%Z.
Proof. unfold Placeholder.width_of. destruct (Strconv.Atoi s) as [x|]; [|done]. destruct (Z.leb_spec low x); [|done]. by intros [= <-]. Qed.
Lemma draw_ok w r s r' : Placeholder.draw_token Intn w r = (s, r') → draws w r s r'.
Proof.
  revert r s. induction w as [|w IH]; intros r s; cbn; [intros [= <- <-]; constructor|].
  destruct (Intn 36 r) as [i r1] eqn:Ei. destruct (Placeholder.draw_token Intn w r1) as [s1 r2] eqn:Ed. intros [= <- <-].
  by eapply draws_S, IH.
Qed.
Lemma byte_of i : Z.land (Z.shiftr instance (Z.of_nat i * 8)) 255 = (instance / 256 ^ Z.of_nat i mod 256)%Z.
Proof.
  change 255%Z with (Z.ones 8). rewrite Z.land_ones, Z.shiftr_div_pow2 by lia. change 256%Z with (2 ^ 8)%Z at 1.
  rewrite <-Z.pow_mul_r by lia. by rewrite (Z.mul_comm 8).
Qed.
Lemma mac_ok upper arg text : Placeholder.mac upper arg instance = Ok text →
  ∃ w, Strconv.Atoi arg = Ok w ∧ (1 ≤ w ≤ 3)%Z ∧ (instance < 256 ^ w)%Z ∧
    text = Strings.Join ((λ i : nat, let h := hex_digits 2 (instance / 256 ^ Z.of_nat i mod 256) in if upper then ToUpper h else h) <$> rev (seq 0 (Z.to_nat w))) ":".
Proof.
  unfold Placeholder.mac. destruct (Strconv.Atoi arg) as [w|]; [|done]. destruct (Z.ltb_spec w 1), (Z.ltb_spec 3 w); cbn [orb]; try done.
  rewrite u64_small by lia. destruct (Z.ltb_spec (Z.shiftl 1 (w * 8) - 1) instance) as [|Hlt]; [done|]. intros [= <-].
  exists w. rewrite Z.shiftl_1_l in Hlt. rewrite (Z.mul_comm w), Z.pow_mul_r in Hlt by lia. change (2 ^ 8)%Z with 256%Z in Hlt.
  split; [done|]. split; [lia|]. split; [lia|]. unfold Placeholder.mac_bytes. f_equal. apply list_fmap_ext. intros _ i _. by rewrite byte_of.
Qed.
Lemma Ok_text_inj (a b : string) : @Ok error string a = Ok b → a = b.
Proof. congruence. Qed.
Lemma known_ok (st st' : option R) (r : result error string) v : (st, Some <$> r) = (st', Ok v) → st' = st ∧ ∃ a, r = Ok a ∧ v = Some a.
Proof. destruct r; [|done]. intros [= <- <-]. split; [done|]. by eexists. Qed.
Lemma eval_form spec st st' v : Placeholder.evalCPEForm ParsePrefix Addr_String ForCPE Intn spec cpeID instance st = (st', Ok v) →
  form spec st (default ("{cpe:" +:+ spec +:+ "}") v) st'.
Proof.
  unfold Placeholder.evalCPEForm. destruct (Placeholder.width_of spec 0) as [w|] eqn:Ew.
  { intros [= <- <-]. apply width_ok in Ew as [Ha Hw]. by apply form_width. }
  assert (∀ w, Strconv.Atoi spec = Ok w → (w < 0)%Z) as Hn.
  { intros w Hw. unfold Placeholder.width_of in Ew. rewrite Hw in Ew. destruct (Z.leb_spec 0 w); [done|lia]. }
  destruct (Strings.Cut spec ":") as [[kind arg]|] eqn:Ec.
  2:{ intros [= <- <-]. apply form_none; [done|]. intros kind arg -> Hk. change (":" +:+ arg) with (String ":" arg) in Ec. by rewrite Cut_app in Ec. }
  apply Cut_ok in Ec as [-> Hk]. destruct (String.eqb_spec kind "rpick") as [->|N1].
  { intros [-> (x&H&->)]%known_ok. apply result_bind_ok in H as (opts&Ho%options_ok&[= <-]). rewrite Ho. apply form_rpick. }
  destruct (String.eqb_spec kind "pick") as [->|N2].
  { intros [-> (x&H&->)]%known_ok. apply result_bind_ok in H as (opts&Ho%options_ok&[= <-]). rewrite Ho. apply form_pick. }
  destruct (String.eqb_spec kind "hex") as [->|N3].
  { intros [-> (x&H&->)]%known_ok. destruct (Placeholder.width_of arg 0) as [w|] eqn:E; [|done]. apply width_ok in E as [??].
    apply Ok_text_inj in H as <-. by apply form_hex. }
  destruct (String.eqb_spec kind "HEX") as [->|N4].
  { intros [-> (x&H&->)]%known_ok. destruct (Placeholder.width_of arg 0) as [w|] eqn:E; [|done]. apply width_ok in E as [??].
    apply Ok_text_inj in H as <-. by apply form_HEX. }
  destruct (String.eqb kind "alnum" || String.eqb kind "ALNUM") eqn:Ea.
  { unfold Placeholder.alnum. destruct (Placeholder.width_of arg 1) as [w|] eqn:E; [|done]. apply width_ok in E as [??].
    destruct (Placeholder.draw_token Intn (Z.to_nat w) _) as [token r] eqn:Ed. intros [= <- <-]. apply draw_ok in Ed.
    apply orb_true_iff in Ea as [Ea%String.eqb_eq|Ea%String.eqb_eq]; subst kind; cbn [default]; [by eapply form_alnum|by eapply form_ALNUM]. }
  apply orb_false_iff in Ea as [N5%String.eqb_neq N6%String.eqb_neq].
  destruct (String.eqb_spec kind "mac") as [->|N7].
  { intros [-> (x&H&->)]%known_ok. apply mac_ok in H as (w&?&?&?&->). by apply form_mac. }
  destruct (String.eqb_spec kind "MAC") as [->|N8].
  { intros [-> (x&H&->)]%known_ok. apply mac_ok in H as (w&?&?&?&->). by apply form_MAC. }
  destruct (String.eqb_spec kind "ipv4") as [->|N9].
  { intros [-> (x&H&->)]%known_ok. by apply form_ipv4. }
  destruct (String.eqb_spec kind "ipv6") as [->|N10].
  { intros [-> (x&H&->)]%known_ok. by apply form_ipv6. }
  destruct (String.eqb_spec kind "ipv6prefix") as [->|N11].
  { intros [-> (x&H&->)]%known_ok. unfold Placeholder.ipv6prefix_form in H.
    destruct (Strings.CutLast arg ",") as [[super len]|] eqn:El; [|done]. apply Strings.CutLast_some in El as [-> Hl].
    destruct (Strconv.Atoi len) as [subLen|] eqn:Eal; [|done]. by eapply (form_ipv6prefix super len). }
  intros [= <- <-]. apply form_none; [done|]. intros kind' arg' E Hk'.
  assert (kind' = kind) as ->.
  { pose proof (Cut_app kind arg ":" Hk) as H1. pose proof (Cut_app kind' arg' ":" Hk') as H2. change (":" +:+ arg') with (String ":" arg') in E.
    rewrite <-E, H1 in H2. congruence. }
  unfold kinds. rewrite !not_elem_of_cons. split_and!; try done. apply not_elem_of_nil.
Qed.

(** **** Searching shown pieces *)

Lemma shift_cut c s sub : Ascii.eqb c "{" = false → Strings.CutStr (String c s) (String "{" sub) =
  match Strings.CutStr s (String "{" sub) with Some (a, b) => Some (String c a, b) | None => None end.
Proof. intros H. cbn [Strings.CutStr Strings.TrimPrefix_go]. by rewrite Ascii.eqb_sym, H. Qed.
Lemma skip_cut a s sub : no_open a = true → Strings.CutStr (a +:+ s) (String "{" sub) =
  match Strings.CutStr s (String "{" sub) with Some (x, b) => Some (a +:+ x, b) | None => None end.
Proof.
  induction a as [|c a IH]; [intros _; cbn [String.append]; destruct (Strings.CutStr s (String "{" sub)) as [[]|]; reflexivity|].
  unfold Strings.no_byte. cbn [str_forall]. rewrite andb_true_iff, negb_true_iff. intros [Hc Ha]. change (String c a +:+ s) with (String c (a +:+ s)). rewrite shift_cut by done. rewrite IH by done. destruct (Strings.CutStr s (String "{" sub)) as [[]|]; reflexivity.
Qed.
(** A name between braces, read against a word without a brace. *)
Lemma trim_word m w r : no_close w = true → no_close m = true →
  Strings.TrimPrefix_go (m +:+ "}" +:+ r) w = (λ x, x +:+ "}" +:+ r) <$> Strings.TrimPrefix_go m w.
Proof.
  revert m. induction w as [|c w IH]; intros m Hw Hm; [by destruct m|]. unfold Strings.no_byte in *. cbn [str_forall] in Hw.
  apply andb_true_iff in Hw as [Hc Hw]. apply negb_true_iff in Hc. destruct m as [|d m].
  - cbn [String.append Strings.TrimPrefix_go]. by rewrite Hc.
  - cbn [str_forall] in Hm. apply andb_true_iff in Hm as [_ Hm]. cbn [String.append Strings.TrimPrefix_go String.eqb]. destruct (Ascii.eqb c d); [|done]. by apply IH.
Qed.
Lemma trim_braced m n r : no_close n = true → no_close m = true →
  Strings.TrimPrefix_go (m +:+ "}" +:+ r) (n +:+ "}") = if String.eqb m n then Some r else None.
Proof.
  revert m. induction n as [|c n IH]; intros m Hn Hm.
  - destruct m as [|d m]; [by destruct r|]. unfold Strings.no_byte in Hm. cbn [str_forall] in Hm. apply andb_true_iff in Hm as [Hd _]. apply negb_true_iff in Hd.
    cbn [String.append Strings.TrimPrefix_go String.eqb]. by rewrite Ascii.eqb_sym, Hd.
  - unfold Strings.no_byte in Hn. cbn [str_forall] in Hn. apply andb_true_iff in Hn as [Hc Hn]. apply negb_true_iff in Hc. destruct m as [|d m].
    + cbn [String.append Strings.TrimPrefix_go]. by rewrite Hc.
    + unfold Strings.no_byte in Hm. cbn [str_forall] in Hm. apply andb_true_iff in Hm as [_ Hm]. cbn [String.append Strings.TrimPrefix_go String.eqb]. 
      change (String.eqb (String d m) (String c n)) with (if Ascii.eqb d c then String.eqb m n else false).
      rewrite (Ascii.eqb_sym d c). destruct (Ascii.eqb c d); [|done]. by apply IH.
Qed.
Lemma TrimPrefix_go_some m w x : Strings.TrimPrefix_go m w = Some x ↔ m = w +:+ x.
Proof.
  revert m. induction w as [|c w IH]; intros m; [destruct m; cbn [Strings.TrimPrefix_go String.append]; (split; [congruence|intros <-; done])|].
  destruct m as [|d m]; [done|]. cbn [Strings.TrimPrefix_go String.append].
  destruct (Ascii.eqb_spec c d) as [->|Hn]; [rewrite IH; split; [by intros ->|by intros [= ->]]|]. split; [done|]. intros [= H _]. congruence.
Qed.
Lemma CutStr_head s w y : s = w +:+ y → Strings.CutStr s w = Some ("", y).
Proof. intros H%TrimPrefix_go_some. destruct s; cbn [Strings.CutStr]; by rewrite H. Qed.
Lemma ref_close m : no_open m = true → no_open (m +:+ "}") = true.
Proof. intros H. unfold Strings.no_byte in *. by rewrite str_forall_app, H. Qed.

(** The first piece that is [{n}]. *)
Fixpoint until_ref (n : string) (ps : list piece) : option (list piece * list piece) :=
  match ps with
  | [] => None
  | p :: ps =>
      if match p with Ref m => String.eqb m n | Lit _ => false end then Some ([], ps)
      else match until_ref n ps with Some (a, b) => Some (p :: a, b) | None => None end
  end.
Lemma cut_show n ps : no_close n = true → Forall piece_ok ps →
  Strings.CutStr (show ps) (braced n) = match until_ref n ps with Some (a, b) => Some (show a, show b) | None => None end.
Proof.
  intros Hn. induction 1 as [|p ps Hp _ IH]; [done|]. change (braced n) with (String "{" (n +:+ "}")) in *. cbn [show until_ref]. destruct p as [s|m].
  - cbn in Hp. cbn [show_piece]. rewrite skip_cut, IH by done. by destruct (until_ref n ps) as [[]|].
  - destruct Hp as [Ho Hc]. cbn [show_piece]. rewrite !str_app_assoc. change ("{" +:+ m +:+ "}" +:+ show ps) with (String "{" (m +:+ "}" +:+ show ps)).
    cbn [Strings.CutStr]. change (Strings.TrimPrefix_go (String "{" (m +:+ "}" +:+ show ps)) (String "{" (n +:+ "}")))
      with (Strings.TrimPrefix_go (m +:+ "}" +:+ show ps) (n +:+ "}")). rewrite trim_braced by done. destruct (String.eqb m n); [done|].
    rewrite <-str_app_assoc, skip_cut, IH by by apply ref_close. destruct (until_ref n ps) as [[]|]; [|done]. cbn [show show_piece]. by rewrite !str_app_assoc.
Qed.

(** **** Replacing one name *)

Definition put (n v : string) (p : piece) : piece := match p with Ref m => if String.eqb m n then Lit v else p | Lit _ => p end.
Lemma until_ref_put n v ps : match until_ref n ps with
  | Some (a, b) => put n v <$> ps = a ++ Lit v :: (put n v <$> b) ∧ (length b < length ps)%nat ∧ (Forall piece_ok ps → Forall piece_ok b)
  | None => put n v <$> ps = ps end.
Proof.
  induction ps as [|p ps IH]; [done|]. cbn [until_ref]. rewrite fmap_cons. destruct (match p with Ref m => String.eqb m n | Lit _ => false end) eqn:E.
  - destruct p as [|m]; [done|]. cbn [put]. rewrite E. cbn. split; [done|]. split; [lia|]. by intros [_ ?]%Forall_cons.
  - assert (put n v p = p) as -> by (destruct p; cbn; [done|by rewrite E]). destruct (until_ref n ps) as [[a b]|].
    + destruct IH as (->&?&?). split; [done|]. split; [cbn; lia|]. intros [_ ?]%Forall_cons. auto.
    + by rewrite IH.
Qed.
Lemma show_app a b : show (a ++ b) = show a +:+ show b.
Proof. induction a as [|p a IH]; [done|]. cbn. by rewrite IH, str_app_assoc. Qed.
Lemma ReplaceAll_show n v ps : no_close n = true → Forall piece_ok ps → ReplaceAll (show ps) (braced n) v = show (put n v <$> ps).
Proof.
  intros Hn HF. unfold ReplaceAll. assert (∀ fuel, (String.length (show ps) < fuel)%nat → ReplaceAll_go fuel (show ps) (braced n) v = show (put n v <$> ps)) as H; [|apply H; lia].
  intros fuel. revert ps HF. induction fuel as [|fuel IH]; intros ps HF Hf; [lia|]. cbn [ReplaceAll_go]. pose proof (until_ref_put n v ps) as Hu.
  pose proof (cut_show n ps Hn HF) as Hc. destruct (until_ref n ps) as [[a b]|].
  - rewrite Hc. destruct Hu as (->&_&Hb). rewrite IH; [|by apply Hb|].
    + rewrite show_app. done.
    + assert (∀ s sub x y, Strings.CutStr s (String "{" sub) = Some (x, y) → (String.length y < String.length s)%nat) as Hl.
      { clear. intros s sub. induction s as [|c s IHs]; intros x y; cbn [Strings.CutStr]; [by cbn|].
        destruct (Strings.TrimPrefix_go (String c s) (String "{" sub)) as [r|] eqn:E.
        - intros [= _ <-]. apply TrimPrefix_go_some in E as [= _ ->]. cbn. rewrite str_length_app. lia.
        - destruct (Strings.CutStr s _) as [[x' y']|] eqn:Es; [|done]. intros [= _ <-]. specialize (IHs _ _ eq_refl). cbn. lia. }
      specialize (Hl _ _ _ _ Hc). lia.
  - by rewrite Hc, Hu.
Qed.
Lemma put_ok n v ps : no_open v = true → Forall piece_ok ps → Forall piece_ok (put n v <$> ps).
Proof. intros Hv HF. apply Forall_fmap. eapply Forall_impl; [exact HF|]. intros [s|m] H; cbn; [done|]. by destruct (String.eqb m n). Qed.

(** **** The forms that are left *)

(** What the pieces become once the names are replaced. *)
Inductive expands : list piece → option R → string → Prop :=
| ex_nil st : expands [] st ""
| ex_lit s ps st out : expands ps st out → expands (Lit s :: ps) st (s +:+ out)
| ex_form spec text st' ps st out : form spec st text st' → expands ps st' out → expands (Ref ("cpe:" +:+ spec) :: ps) st (text +:+ out)
| ex_other n ps st out : (∀ spec, n ≠ "cpe:" +:+ spec) → expands ps st out → expands (Ref n :: ps) st ("{" +:+ n +:+ "}" +:+ out).

Abbreviation loop := (Placeholder.expand_loop ParsePrefix Addr_String ForCPE Intn).
Lemma loop_skip fuel a s st out : (∀ x, Strings.CutStr (a +:+ x) "{cpe:" = match Strings.CutStr x "{cpe:" with Some (y, b) => Some (a +:+ y, b) | None => None end) →
  loop (S fuel) (a +:+ s) cpeID instance st = Ok out → ∃ out', loop (S fuel) s cpeID instance st = Ok out' ∧ out = a +:+ out'.
Proof.
  intros Ha. cbn [Placeholder.expand_loop]. unfold Placeholder.marker. rewrite Ha. destruct (Strings.CutStr s "{cpe:") as [[b c]|]; [|intros [= <-]; by exists s].
  destruct (Strings.Cut c Placeholder.close_brace) as [[spec rest]|]; [|intros [= <-]; by exists s].
  destruct (Placeholder.evalCPEForm _ _ _ _ _ _ _ _) as [st' [v|]]; [|done]. intros (tail&Ht&[= <-])%result_bind_ok.
  rewrite Ht. eexists. split; [reflexivity|]. by rewrite str_app_assoc.
Qed.
Lemma loop_show ps : Forall piece_ok ps → ∀ fuel st out, (String.length (show ps) < fuel)%nat →
  loop fuel (show ps) cpeID instance st = Ok out → expands ps st out.
Proof.
  induction 1 as [|p ps Hp _ IH]; intros [|fuel] st out Hf; [lia| |lia|]; [cbn; intros [= <-]; constructor|].
  cbn [show] in Hf |- *. rewrite str_length_app in Hf. destruct p as [s|m].
  - cbn [show_piece] in *. cbn in Hp. intros (out'&H&->)%loop_skip; [|intros x; by apply skip_cut]. apply ex_lit. apply (IH (S fuel)); [lia|done].
  - destruct Hp as [Ho Hc]. cbn [show_piece] in *. destruct (Strings.TrimPrefix_go m "cpe:") as [spec|] eqn:E.
    + apply TrimPrefix_go_some in E as ->. rewrite !str_app_assoc. cbn [Placeholder.expand_loop].
      rewrite (CutStr_head _ Placeholder.marker (spec +:+ "}" +:+ show ps)) by done.
      cbn iota beta. assert (no_close spec = true) as Hs.
      { unfold Strings.no_byte in *. rewrite str_forall_app in Hc. by apply andb_true_iff in Hc as [_ ?]. }
      change ("}" +:+ show ps) with (String Placeholder.close_brace (show ps)).
      rewrite (Cut_app spec (show ps) Placeholder.close_brace Hs).
      destruct (Placeholder.evalCPEForm _ _ _ _ spec cpeID instance st) as [st' [v|]] eqn:Ev; [|done].
      intros (tail&Ht&[= <-])%result_bind_ok. apply eval_form in Ev. apply (ex_form spec _ st'); [exact Ev|].
      apply (IH fuel); [|exact Ht]. cbn in Hf. rewrite !str_length_app in Hf. cbn in Hf. lia.
    + intros (out'&H&->)%loop_skip.
      * rewrite !str_app_assoc. apply ex_other; [|apply (IH (S fuel)); [lia|done]]. intros spec ->. by rewrite (proj2 (TrimPrefix_go_some _ _ spec)) in E.
      * intros x. rewrite !str_app_assoc. change ("{" +:+ m +:+ "}" +:+ x) with (String "{" (m +:+ "}" +:+ x)). cbn [Strings.CutStr].
        change (Strings.TrimPrefix_go (String "{" (m +:+ "}" +:+ x)) "{cpe:") with (Strings.TrimPrefix_go (m +:+ "}" +:+ x) "cpe:").
        rewrite trim_word, E by done. cbn [fmap option_fmap option_map].
        rewrite <-str_app_assoc, (skip_cut (m +:+ "}") x "cpe:") by by apply ref_close.
        destruct (Strings.CutStr x "{cpe:") as [[]|]; [|done]. cbn. by rewrite !str_app_assoc.
Qed.
(** **** The device's values *)

Context (resolved : list (string * string)) (Hr : Pool.resolveFleetPools ParsePrefix Addr_String pools instance = Ok resolved).
Lemma resolve_each_ok l rs : Pool.resolve_each ParsePrefix Addr_String l instance = Ok rs →
  rs.*1 = l.*1 ∧ ∀ n v, (n, v) ∈ rs → ∃ p, (n, p) ∈ l ∧ Pool.ResolvePool ParsePrefix Addr_String p instance = Ok v.
Proof.
  revert rs. induction l as [|[n p] l IH]; intros rs; cbn [Pool.resolve_each]; [intros [= <-]; split; [done|by intros ?? ?%elem_of_nil]|].
  intros (v&Hv%map_err_ok&(vs&Hvs&[= <-])%result_bind_ok)%result_bind_ok. destruct (IH vs Hvs) as [E H]. split; [by rewrite !fmap_cons, E|].
  intros m w [[= -> ->]|Hin]%elem_of_cons; [exists p; split; [left|done]|]. destruct (H m w Hin) as (q&?&?). exists q. split; [by right|done].
Qed.
Lemma resolved_in n v : (n, v) ∈ resolved → ∃ p, pools !! n = Some p ∧ Pool.ResolvePool ParsePrefix Addr_String p instance = Ok v.
Proof.
  intros H. apply resolve_each_ok in Hr as [_ Hin]. destruct (Hin n v H) as (p&Hp&Hv). exists p. split; [by apply elem_of_map_to_list|done].
Qed.
Lemma resolved_out n : n ∉ resolved.*1 → pools !! n = None.
Proof.
  intros H. apply resolve_each_ok in Hr as [E _]. rewrite E in H. destruct (pools !! n) as [p|] eqn:Ep; [|done]. exfalso. apply H.
  apply list_elem_of_fmap. exists (n, p). split; [done|]. by apply elem_of_map_to_list.
Qed.
(** No name holds a closing brace, and no text put in holds an opening one. *)
Context (Hid : no_open cpeID = true) (Hnames : ∀ n, is_Some (pools !! n) → no_close n = true)
  (Hvals : ∀ n p v, pools !! n = Some p → Pool.ResolvePool ParsePrefix Addr_String p instance = Ok v → no_open v = true).

Definition place_all (l : list (string * string)) (p : piece) : piece := foldl (λ p '(n, v), put n v p) p l.
Definition named : list (string * string) := ("cpe_id", cpeID) :: ("cpe", Strconv.Itoa instance) :: resolved.
Lemma place_all_show l ps : Forall (λ nv, no_close nv.1 = true ∧ no_open nv.2 = true) l → Forall piece_ok ps →
  foldl (λ out '(n, v), ReplaceAll out (braced n) v) (show ps) l = show (place_all l <$> ps) ∧ Forall piece_ok (place_all l <$> ps).
Proof.
  intros HF. revert ps. induction HF as [|[n v] l [Hn Hv] _ IH]; intros ps Hps.
  - cbn. assert (place_all [] <$> ps = ps) as -> by apply list_fmap_id. done.
  - cbn [foldl fst snd] in *. rewrite ReplaceAll_show by done.
    assert (place_all ((n, v) :: l) <$> ps = place_all l <$> (put n v <$> ps)) as -> by by rewrite <-list_fmap_compose.
    apply IH. by apply put_ok.
Qed.
Lemma place_all_lit l s : place_all l (Lit s) = Lit s.
Proof. unfold place_all. induction l as [|[n v] l IH]; [done|]. by cbn. Qed.
Lemma place_all_ref l m : (∃ v, (m, v) ∈ l ∧ place_all l (Ref m) = Lit v) ∨ m ∉ l.*1 ∧ place_all l (Ref m) = Ref m.
Proof.
  unfold place_all. induction l as [|[n v] l IH]; [right; split; [apply not_elem_of_nil|done]|]. cbn [foldl put]. destruct (String.eqb_spec m n) as [->|Hn].
  - left. exists v. split; [left|]. apply (place_all_lit l).
  - destruct IH as [(w&Hin&E)|[Hout E]]; [left; exists w; split; [by right|done]|]. right. split; [|done]. cbn. by intros [?|?]%elem_of_cons.
Qed.
Lemma Itoa_no_open : no_open (Strconv.Itoa instance) = true.
Proof.
  assert (valid_segment (Strconv.Itoa instance) = true) as H by (apply Itoa_valid_segment; lia). unfold valid_segment in H.
  apply andb_true_iff in H as [_ H]. revert H. apply str_forall_impl. intros c Hc. rewrite negb_true_iff, Ascii.eqb_neq. intros ->. by compute in Hc.
Qed.
Lemma named_ok : Forall (λ nv, no_close nv.1 = true ∧ no_open nv.2 = true) named.
Proof.
  unfold named. constructor; [done|]. constructor; [split; [done|apply Itoa_no_open]|]. apply Forall_forall. intros [n v] Hin.
  destruct (resolved_in n v Hin) as (p&Hp&Hv). cbn. split; [apply Hnames; by exists p|by eapply Hvals].
Qed.

Lemma place_all_cons n v l p : place_all ((n, v) :: l) p = place_all l (put n v p).
Proof. done. Qed.
Lemma place_named m : place_all named (Ref m) =
  if decide (m = "cpe_id") then Lit cpeID else if decide (m = "cpe") then Lit (Strconv.Itoa instance) else place_all resolved (Ref m).
Proof.
  unfold named. rewrite place_all_cons. cbn [put]. case_decide as H1; [subst; apply place_all_lit|].
  rewrite (proj2 (String.eqb_neq m "cpe_id") H1), place_all_cons. cbn [put]. case_decide as H2; [subst; apply place_all_lit|].
  by rewrite (proj2 (String.eqb_neq m "cpe") H2).
Qed.
Lemma expands_says ps st out : expands (place_all named <$> ps) st out → says ps st out.
Proof.
  revert st out. induction ps as [|p ps IH]; intros st out; [intros H; inversion H; constructor|]. rewrite fmap_cons. destruct p as [s|m].
  { rewrite place_all_lit. intros H. inversion H; subst. by apply says_lit, IH. }
  rewrite place_named. case_decide as N1; [subst m; intros H; inversion H; subst; by apply says_id, IH|].
  case_decide as N2; [subst m; intros H; inversion H; subst; by apply says_number, IH|].
  destruct (place_all_ref resolved m) as [(v&Hin&E)|[Hout E]]; rewrite E; intros H.
  - inversion H; subst. destruct (resolved_in m v Hin) as (p&Hp&Hv). eapply says_pool; [done|done|exact Hp|exact Hv|by apply IH].
  - pose proof (resolved_out m Hout) as Hno. inversion H; subst; [by eapply says_form; [|done|apply IH]|]. apply says_other; [done..|by apply IH].
Qed.

(** **** A text with nothing to replace *)

Lemma Contains_cut s sub : Strings.Contains s sub = false → Strings.CutStr s sub = None.
Proof.
  assert (∀ pre s, String.prefix pre s = match Strings.TrimPrefix_go s pre with Some _ => true | None => false end) as Hp.
  { induction pre as [|x pre IHp]; intros [|y s']; try done. cbn [String.prefix Strings.TrimPrefix_go].
    destruct (Ascii.eqb_spec x y) as [->|Hxy]; [by destruct (ascii_dec y y)|by destruct (ascii_dec x y)]. }
  induction s as [|c s IH]; cbn [Strings.Contains Strings.CutStr]; rewrite Hp; destruct (Strings.TrimPrefix_go _ _); try done.
  cbn [orb]. intros H. by rewrite IH.
Qed.
Lemma ReplaceAll_absent s old new : Strings.Contains s old = false → ReplaceAll s old new = s.
Proof. intros H%Contains_cut. unfold ReplaceAll. cbn [ReplaceAll_go]. by rewrite H. Qed.
Lemma nothing_to_place s : Placeholder.hasFleetPlaceholder s resolved = false →
  Placeholder.substituteFleetPlaceholders ParsePrefix Addr_String ForCPE Intn s instance cpeID resolved = Ok s.
Proof.
  unfold Placeholder.hasFleetPlaceholder, Placeholder.substituteFleetPlaceholders. rewrite !orb_false_iff. intros [[[H1 H2] H3] H4].
  rewrite (ReplaceAll_absent s "{cpe_id}" _ H3), (ReplaceAll_absent s "{cpe}" _ H1).
  assert (foldl (λ out '(name, v), ReplaceAll out (braced name) v) s resolved = s) as ->.
  { clear -H4. induction resolved as [|[n v] l IH]; [done|]. cbn [existsb foldl] in *. apply orb_false_iff in H4 as [Hn Hl].
    rewrite ReplaceAll_absent by done. by apply IH. }
  unfold Placeholder.expandCPEFormPlaceholders. cbn [Placeholder.expand_loop]. unfold Placeholder.marker. by rewrite (Contains_cut _ _ H2).
Qed.

(** What a leaf is filled with is what its pieces say. *)
Lemma filled_says raw ps : Forall piece_ok ps → raw = show ps →
  is_ok (Placeholder.placed ParsePrefix Addr_String ForCPE Intn instance cpeID resolved raw) = true →
  says ps None (filled ParsePrefix Addr_String ForCPE Intn instance cpeID resolved raw).
Proof.
  intros Hps -> Hok.
  assert (Placeholder.substituteFleetPlaceholders ParsePrefix Addr_String ForCPE Intn (show ps) instance cpeID resolved
    = Ok (filled ParsePrefix Addr_String ForCPE Intn instance cpeID resolved (show ps))) as H.
  { unfold filled. revert Hok. unfold Placeholder.placed. destruct (Placeholder.hasFleetPlaceholder _ _) eqn:E; [|by rewrite nothing_to_place].
    destruct (Placeholder.substituteFleetPlaceholders _ _ _ _ _ _ _ _) as [x|]; [|done]. cbn [mbind result_bind]. intros _.
    by destruct (String.eqb_spec x (show ps)) as [->|]. }
  apply expands_says. revert H. unfold Placeholder.substituteFleetPlaceholders.
  change (foldl ?f (ReplaceAll (ReplaceAll ?s "{cpe_id}" ?a) "{cpe}" ?b) ?l) with (foldl f s (("cpe_id", a) :: ("cpe", b) :: l)).
  destruct (place_all_show named ps named_ok Hps) as [E Hp]. unfold named in E at 1. rewrite E. intros H. eapply loop_show; [exact Hp| |exact H]. lia.
Qed.
End meaning.

(** Every leaf that can be filled in is, and nothing else moves. *)
Lemma placeholders_filled (ParsePrefix : string → result error prefix) (Addr_String : bool → Z → string)
  (R : Type) (ForCPE : string → R) (Intn : Z → R → Z * R)
  (t : Tree) (instance : Z) (cpeID : string) (pools : gmap string FleetPool) (resolved : list (string * string))
  (Hw : wf_tree t) (Hr : Pool.resolveFleetPools ParsePrefix Addr_String pools instance = Ok resolved)
  (Hf : ∀ q v, view t q = Some v → fillable ParsePrefix Addr_String ForCPE Intn instance cpeID resolved v) :
  ∃ t' cs, Placeholder.applyFleetPlaceholders ParsePrefix Addr_String ForCPE Intn t instance cpeID pools = (t', cs, Ok tt) ∧
    ∀ q, view t' q = (λ v, with_raw (filled ParsePrefix Addr_String ForCPE Intn instance cpeID resolved (Raw v)) v) <$> view t q.
Proof.
  unfold Placeholder.applyFleetPlaceholders. rewrite Hr.
  assert (∀ x, x ∈ leaves (root t) ↔ view t x.1 = Some x.2) as Hl by (intros [q v]; by rewrite elem_of_leaves).
  change (Walk t "" (-1) ?f []) with (walk (root t) [] (-1) f []). rewrite walk_leaves.
  rewrite within_all by done.
  rewrite collects.
  2:{ apply Forall_forall. intros x Hx%Hl. by eapply Hf. }
  cbn [app]. destruct (applies ParsePrefix Addr_String ForCPE Intn instance cpeID resolved (leaves (root t)) t) as (t'&cs&E&Hv).
  - apply NoDup_leaves.
  - apply Forall_forall. intros x Hx%Hl. split; [by eapply Hf|]. split; [|done]. apply parsePath_joinPath.
    apply leaf_at_node in Hx as (m&Hm&_). by eapply wf_node_at_segments.
  - exists t', cs. split; [done|]. intros q. rewrite Hv. destruct (decide (q ∈ _)) as [|Hn]; [done|].
    destruct (view t q) as [v|] eqn:Eq; [|done]. exfalso. apply Hn, list_elem_of_fmap. exists (q, v). split; [done|]. by apply Hl.
Qed.

(** C19. Start-up and placeholders, for an instance numbered from 1, whose pools
    have an address for it and whose leaves' placeholders can all be written
    (each form evaluates, and each new text fits its leaf's type). A leaf whose
    text is made of plain pieces and names between braces ends with the text those
    pieces say, from the left: [{cpe_id}] the device's id, [{cpe}] its number, a
    pool's name the device's value of that pool, [{cpe:...}] what the form
    stands for (widths, hexadecimal, picks, tokens, hardware and network
    addresses), one stream of draws serving the whole text, and any other name
    as it was. No leaf appears or goes, types and write permissions
    stay. Assumed: neither the id nor a pool's value holds an opening brace, no
    pool name a closing one. *)
Theorem placeholders_applied (ParsePrefix : string → result error prefix) (Addr_String : bool → Z → string)
  (R : Type) (ForCPE : string → R) (Intn : Z → R → Z * R)
  (t : Tree) (instance : Z) (cpeID : string) (pools : gmap string FleetPool) (resolved : list (string * string))
  (Hw : wf_tree t) (Hi : (1 ≤ instance < 2 ^ 63)%Z)
  (Hr : Pool.resolveFleetPools ParsePrefix Addr_String pools instance = Ok resolved)
  (Hf : ∀ q v, view t q = Some v → fillable ParsePrefix Addr_String ForCPE Intn instance cpeID resolved v)
  (Hid : no_open cpeID = true) (Hnames : ∀ n, is_Some (pools !! n) → no_close n = true)
  (Hvals : ∀ n p v, pools !! n = Some p → Pool.ResolvePool ParsePrefix Addr_String p instance = Ok v → no_open v = true) :
  ∃ t' cs, Placeholder.applyFleetPlaceholders ParsePrefix Addr_String ForCPE Intn t instance cpeID pools = (t', cs, Ok tt) ∧
    ∀ q, match view t q with
         | None => view t' q = None
         | Some v => ∃ out, view t' q = Some (with_raw out v) ∧
             ∀ ps, Forall piece_ok ps → Raw v = show ps → says ParsePrefix Addr_String ForCPE Intn instance cpeID pools ps None out
         end.
Proof.
  destruct (placeholders_filled ParsePrefix Addr_String R ForCPE Intn t instance cpeID pools resolved Hw Hr Hf) as (t'&cs&E&Hv).
  exists t', cs. split; [exact E|]. intros q. rewrite Hv. destruct (view t q) as [v|] eqn:Eq; [|done]. eexists. split; [done|].
  intros ps Hps Hs. eapply filled_says; [done..|]. by apply (Hf q v Eq).
Qed.

Definition ex_for (s : string) : unit := tt.
Definition ex_intn (n : Z) (r : unit) : Z * unit := (0%Z, r).
Definition ex_fleet_tree : Tree :=
  set_root New_ (set_children (list_to_map
    [("IP", ex_string "{wan}/29"); ("Name", ex_string "cpe-{cpe:3}-{cpe:alnum:2}"); ("Serial", ex_string "S{cpe:hex:4}")]) NewBranch).
Lemma ex_pool_values n p v : ex_pools !! n = Some p → Pool.ResolvePool ex_parse ex_print p 3 = Ok v → no_open v = true.
Proof.
  unfold ex_pools. intros [<- <-]%(lookup_singleton_Some (M := gmap string)) H. assert (Pool.ResolvePool ex_parse ex_print (MkPool "ipv4" "10.0.0.0/29" "" 0) 3 = Ok "167772163") as E by (vm_compute; reflexivity).
  rewrite E in H. injection H as <-. reflexivity.
Qed.
Lemma ex_pool_names n : is_Some (ex_pools !! n) → no_close n = true.
Proof. unfold ex_pools. intros [p [<- _]%(lookup_singleton_Some (M := gmap string))]. reflexivity. Qed.
Definition ex_pieces : list piece := [Lit "cpe-"; Ref "cpe:3"; Lit "-"; Ref "cpe_id"; Ref "none"; Ref "wan"].
Definition ex_placed_tree : Tree := set_root New_ (set_children (list_to_map [("Name", ex_string (show ex_pieces))]) NewBranch).
Lemma ex_pieces_ok : Forall piece_ok ex_pieces.
Proof. repeat (apply Forall_cons; split; [vm_compute; first [reflexivity|split; reflexivity]|]). constructor. Qed.
Lemma ex_placed_fillable q v : view ex_placed_tree q = Some v → fillable ex_parse ex_print ex_for ex_intn 3 "id" [("wan", "167772163")] v.
Proof.
  intros H. apply (proj2 (elem_of_leaves (root ex_placed_tree) q v)) in H.
  assert (leaves (root ex_placed_tree) = [(["Name"], MkValue TypeString (show ex_pieces) false)]) as E by (vm_compute; reflexivity).
  rewrite E in H. apply list_elem_of_singleton in H as [= _ ->]. split; [vm_compute; reflexivity|intros _; vm_compute; reflexivity].
Qed.
Lemma ex_placed_name : view ex_placed_tree ["Name"] = Some (MkValue TypeString "cpe-{cpe:3}-{cpe_id}{none}{wan}" false).
Proof. vm_compute. reflexivity. Qed.
Lemma placeholders_applied_witness :
  ∃ t' cs out, Placeholder.applyFleetPlaceholders ex_parse ex_print ex_for ex_intn ex_placed_tree 3 "id" ex_pools = (t', cs, Ok tt) ∧
    view t' ["Name"] = Some (MkValue TypeString out false) ∧ says ex_parse ex_print ex_for ex_intn 3 "id" ex_pools ex_pieces None out.
Proof.
  assert (1 ≤ 3 < 2 ^ 63)%Z as H3 by (split; [discriminate|reflexivity]).
  destruct (placeholders_applied ex_parse ex_print unit ex_for ex_intn ex_placed_tree 3 "id" ex_pools [("wan", "167772163")]
    (wf_nodeb_sound (root ex_placed_tree) ltac:(vm_compute; reflexivity)) H3 ltac:(vm_compute; reflexivity) ex_placed_fillable
    eq_refl ex_pool_names ex_pool_values) as (t'&cs&E&H).
  specialize (H ["Name"]). rewrite ex_placed_name in H. destruct H as (out&Hv&Hs).
  exists t', cs, out. split; [exact E|]. split; [exact Hv|]. apply (Hs ex_pieces ex_pieces_ok). vm_compute. reflexivity.
Defined.
(** What they say here. *)
Example ex_placed_says :
  Raw <$> view (Placeholder.applyFleetPlaceholders ex_parse ex_print ex_for ex_intn ex_placed_tree 3 "id" ex_pools).1.1 ["Name"] =
  Some "cpe-003-id{none}167772163".
Proof. vm_compute. reflexivity. Qed.

(** ** What a factory reset leaves *)

(** [factoryReset] puts back the template and the serial number; the
    placeholders that start-up filled in are literal again. *)
Lemma factory_reset_unstamps :
  let started := (Placeholder.prepare ex_parse ex_print ex_for ex_intn ex_fleet_tree "Serial" "S1" 3 "id" ex_pools).1 in
  let pr := MkProfile (Transfer ex_profile) Second Second None false ex_fleet_tree "Serial" "S1" (λ _, None) in
  let d := factory_reset pr (MkDevice started [] (NewEventTracker ∅) (MkRetryState 0) []) in
  (Raw <$> Get started "IP", Raw <$> Get (tree d) "IP", Raw <$> Get (tree d) "Serial") = (Ok "167772163/29", Ok "{wan}/29", Ok "S1").
Proof. vm_compute. reflexivity. Qed.

(** The first delegated prefix of [cafe::/48] of length 56 is [cafe:0:0:100::/56]:
    the one that starts where the pool does is never given. *)
Lemma first_subprefix_skipped :
  Pool.ipv6_subprefix (λ _, Ok (MkPrefix false (Z.shiftl 51966 112) 48)) "cafe::/48" 56 1 =
  Ok (Z.shiftl 51966 112 + Z.shiftl 256 64)%Z.
Proof. vm_compute. reflexivity. Qed.
