(* ===== verification/Rows.v ===== *)
(** * Profile rows: from declarations to a parameter tree
    ([applyDefaults], [typeZeroValue], [expandObjects], [expandGroups],
    [applyRows], [buildInstanceTemplate], [parseProfilePath],
    [samplePickPlaceholders] of [internal/paramtree/profile.go]).

    A nil pointer of the YAML schema is [None]. The tree a loader builds is its
    own until it returns, so a failed pass returns the error alone. Go ranges
    over a map in any order: [range] is that order. *)
From Stdlib Require Import ZArith Lia Ascii String SpecFloat.
From S2P Require Import Prelude GoLib GoText GoAuth CpeErr Types Node Tree Objects Fleet.

(** ** Declarations *)

Record rawInlineGenerator := MkInline {
  igType : string; igInterval : string; igMin : option Z; igMax : option Z; igStep : option Z;
  igJitter : option spec_float; igStepMax : option Z; igValues : list string; igMode : string
}.
Record rawProfileParam := MkRawParam {
  rpPath : string; rpType : option string; rpValue : option string; rpWritable : option bool; rpInstances : option Z;
  rpGenerator : option rawInlineGenerator
}.
Record rawObject := MkRawObject { roPath : string; roInstances : Z; roParameters : list rawProfileParam }.
Record rawGroup := MkRawGroup { rgPrefix : string; rgParameters : list rawProfileParam }.
Record profileParam := MkParam {
  ppPath : string; ppType : Type_; ppValue : string; ppWritable : bool; ppInstances : Z; ppInstancesSet : bool; ppSource : string
}.

Definition typeZeroValue (typ : Type_) : string :=
  if decide (typ = TypeInt) then "0" else if decide (typ = TypeUnsignedInt) then "0"
  else if decide (typ = TypeBoolean) then "false"
  else if decide (typ = TypeDateTime) then "1970-01-01T00:00:00Z" else "".
Definition applyDefaults (raw : rawProfileParam) (source : string) : profileParam :=
  let typ := default TypeString (rpType raw) in
  MkParam (rpPath raw) typ (default (typeZeroValue typ) (rpValue raw)) (default false (rpWritable raw))
    (default 0%Z (rpInstances raw)) (match rpInstances raw with Some _ => true | None => false end) source.
Definition with_path (path : string) (raw : rawProfileParam) : rawProfileParam :=
  MkRawParam path (rpType raw) (rpValue raw) (rpWritable raw) (rpInstances raw) (rpGenerator raw).
Definition with_instances (n : Z) (raw : rawProfileParam) : rawProfileParam :=
  MkRawParam (rpPath raw) (rpType raw) (rpValue raw) (rpWritable raw) (Some n) (rpGenerator raw).

Definition tmark : string := "{i}".
Definition is_template (s : string) : bool := Strings.Contains s tmark.

(** ** Objects and groups *)

Section expand.
(** [%q] *)
Context (Quote : string → string).
(** The checks the children of an object and of a group share; [where_] is
    their index and path in the message. *)
Definition check_child (where_ : string) (templated declared : error) (child : rawProfileParam) : result error unit :=
  if String.eqb (rpPath child) "" then Err (errorf "%s: path is required" [where_])
  else if is_template (rpPath child) then Err templated
  else match rpInstances child with Some _ => Err declared | None => Ok tt end.
Definition child_where (where_ : string) (i : nat) (child : rawProfileParam) : string :=
  where_ +:+ ".parameters[" +:+ Strconv.Itoa (Z.of_nat i) +:+ "] (path=" +:+ Quote (rpPath child) +:+ ")".
Fixpoint expand_children (where_ : string) (templated declared : string) (full : rawProfileParam → rawProfileParam)
  (i : nat) (l : list rawProfileParam) : result error (list rawProfileParam) :=
  match l with
  | [] => Ok []
  | child :: rest =>
      let w := child_where where_ i child in
      _ ← check_child w (errorf templated [w]) (errorf declared [w]) child;
      more ← expand_children where_ templated declared full (S i) rest;
      Ok (full child :: more)
  end.

(** A path that other paths are put beneath. *)
Definition check_prefix (where_ required templated : string) (path : string) : result error unit :=
  if String.eqb path "" then Err (errorf required [where_])
  else if is_template path then Err (errorf templated [where_])
  else if Strings.HasSuffix path "." then Err (errorf "%s: path must not end with '.'" [where_])
  else Ok tt.
Definition no_children (where_ : string) (l : list rawProfileParam) : result error unit :=
  match l with [] => Err (errorf "%s: at least one child parameter required" [where_]) | _ => Ok tt end.

Definition expand_object (source : string) (i : nat) (o : rawObject) : result error (list rawProfileParam) :=
  let w := source +:+ ": objects[" +:+ Strconv.Itoa (Z.of_nat i) +:+ "] (path=" +:+ Quote (roPath o) +:+ ")" in
  _ ← check_prefix w "%s: path is required" "%s: path must NOT contain {i}; instances are appended automatically" (roPath o);
  if (roInstances o <? 0)%Z then Err (errorf "%s: instances must be >= 0, got %d" [w; Strconv.Itoa (roInstances o)])
  else
    _ ← no_children w (roParameters o);
    expand_children w "%s: child path must NOT contain {i}; the object wrapper supplies it"
      "%s: child must not declare its own instances (the object's instances applies to all children)"
      (λ child, with_instances (roInstances o) (with_path (roPath o +:+ ".{i}." +:+ rpPath child) child)) 0 (roParameters o).
Fixpoint expandObjects_go (source : string) (i : nat) (objects : list rawObject) : result error (list rawProfileParam) :=
  match objects with
  | [] => Ok []
  | o :: rest => rows ← expand_object source i o; more ← expandObjects_go source (S i) rest; Ok (rows ++ more)
  end.
Definition expandObjects (objects : list rawObject) (source : string) : result error (list rawProfileParam) :=
  expandObjects_go source 0 objects.

Definition expand_group (source : string) (i : nat) (g : rawGroup) : result error (list rawProfileParam) :=
  let w := source +:+ ": groups[" +:+ Strconv.Itoa (Z.of_nat i) +:+ "] (prefix=" +:+ Quote (rgPrefix g) +:+ ")" in
  _ ← check_prefix w "%s: prefix is required" "%s: prefix must NOT contain {i} (use objects: for multi-instance)" (rgPrefix g);
  _ ← no_children w (rgParameters g);
  expand_children w "%s: child path must NOT contain {i}"
    "%s: child must not declare instances inside groups: (use objects: for tables)"
    (λ child, with_path (rgPrefix g +:+ "." +:+ rpPath child) child) 0 (rgParameters g).
Fixpoint expandGroups_go (source : string) (i : nat) (groups : list rawGroup) : result error (list rawProfileParam) :=
  match groups with
  | [] => Ok []
  | g :: rest => rows ← expand_group source i g; more ← expandGroups_go source (S i) rest; Ok (rows ++ more)
  end.
Definition expandGroups (groups : list rawGroup) (source : string) : result error (list rawProfileParam) :=
  expandGroups_go source 0 groups.
End expand.

(** ** Paths and sample values *)

Definition profileErrAt (source paramPath : string) (cause : error) : error :=
  let source := if String.eqb source "" then "<reader>" else source in
  Wrap "paramtree.LoadProfile" KindInvalidArgument (Some (Errorf "%s: parameter %q: %w" [source; paramPath] (Some cause))).

(** The loop over the segments; the index of the [{i}] segment. *)
Fixpoint profile_segments (segs : list string) (i : nat) (iIdx : option nat) : result error (option nat) :=
  match segs with
  | [] => Ok iIdx
  | seg :: rest =>
      if String.eqb seg "" then Err (errorf "empty segment in path" [])
      else if String.eqb seg tmark then
        match iIdx with
        | Some _ => Err (errorf "path may contain {i} at most once" [])
        | None => profile_segments rest (S i) (Some i)
        end
      else if is_template seg then Err (errorf "{i} must be a complete segment, not embedded in %q" [seg])
      else if str_forall isSegmentChar seg then profile_segments rest (S i) iIdx
      else Err (errorf "invalid character %q in segment %q" [seg])
  end.
Definition parseProfilePath (p : string) : result error (list string * option nat) :=
  let p := Strings.TrimSuffix p "." in
  if String.eqb p "" then Err (errorf "empty path" [])
  else
    let segments := Strings.Split p "." in
    iIdx ← profile_segments segments 0 None;
    if bool_decide (iIdx = Some (length segments - 1)%nat)
    then Err (errorf "{i} cannot be the leaf segment; must have a sub-path" [])
    else Ok (segments, iIdx).

(** Every turn shortens the text by a marker. *)
Fixpoint sample_loop (fuel : nat) (marker s : string) : string :=
  match fuel with
  | O => s
  | S fuel =>
      match Strings.CutStr s marker with
      | None => s
      | Some (before, after) =>
          match Strings.Cut after "}" with
          | None => s
          | Some (opts, rest) =>
              let first := match Strings.Cut opts "," with Some (a, _) => a | None => opts end in
              sample_loop fuel marker (before +:+ Space.TrimSpace first +:+ rest)
          end
      end
  end.
Definition samplePickPlaceholders (s : string) : string :=
  let s := sample_loop (S (String.length s)) "{cpe:pick:" s in
  sample_loop (S (String.length s)) "{cpe:rpick:" s.

(** ** Templates *)

(** One row of a template; a failed [Attach] is ignored, and what is put below
    it then is lost. *)
Fixpoint template_put (segs : list string) (v : Value) (n : Node) : Node :=
  match segs with
  | [] => n
  | [seg] => match Attach n seg (NewLeaf v) with Ok n' => n' | Err _ => n end
  | seg :: rest =>
      match children n !! seg with
      | Some child => set_children (<[seg := template_put rest v child]> (children n)) n
      | None => match Attach n seg (template_put rest v NewBranch) with Ok n' => n' | Err _ => n end
      end
  end.
(** The index of the [{i}] segment, 0 when there is none. *)
Fixpoint mark_index (segs : list string) : nat :=
  match segs with
  | [] => 0
  | seg :: rest => if String.eqb seg tmark then 0 else if existsb (String.eqb tmark) rest then S (mark_index rest) else 0
  end.
Definition row_value (row : profileParam) (raw : string) : Value := MkValue (ppType row) raw (ppWritable row).
Definition template_row (n : Node) (row : profileParam) : Node :=
  let segments := Strings.Split (ppPath row) "." in
  template_put (drop (S (mark_index segments)) segments) (row_value row (ppValue row)) n.
Definition buildInstanceTemplate (rows : list profileParam) : Node := foldl template_row NewBranch rows.

(** ** Applying the rows *)

Record tableGroup := MkGroup { tgParent : list string; tgInstances : Z; tgRows : list profileParam }.

(** Pass 1, one row: the parent of the table it is a row of. *)
Definition check_row (row : profileParam) : result error (option (list string)) :=
  let at_ e := profileErrAt (ppSource row) (ppPath row) e in
  match typeFns_validate (ppType row) with
  | None => Err (at_ (errorf "unknown type %q" [ppType row]))
  | Some _ =>
      p ← map_err at_ (parseProfilePath (ppPath row));
      let '(segments, iIdx) := p in
      let hasI := match iIdx with Some _ => true | None => false end in
      if hasI && (negb (ppInstancesSet row) || (ppInstances row <? 0)%Z) then
        Err (at_ (errorf "path uses {i}; instances must be declared and >= 0 (0 declares the table empty)" []))
      else if negb hasI && negb (ppInstances row =? 0)%Z then
        Err (at_ (errorf "instances=%d on a non-{i} path is not allowed" [Strconv.Itoa (ppInstances row)]))
      else
        let v := if hasI then ReplaceAll (ppValue row) tmark "1" else ppValue row in
        _ ← map_err (λ e, at_ (Errorf "value %q does not match type %s: %w" [ppValue row; ppType row] (Some e)))
              (Validate (ppType row) (samplePickPlaceholders v));
        Ok ((λ i, take i segments) <$> iIdx)
  end.
Definition join_group (row : profileParam) (parent : list string) (groups : gmap string tableGroup)
  : result error (gmap string tableGroup) :=
  let key := joinPath parent in
  match groups !! key with
  | None => Ok (<[key := MkGroup parent (ppInstances row) [row]]> groups)
  | Some g =>
      if (tgInstances g =? ppInstances row)%Z
      then Ok (<[key := MkGroup (tgParent g) (tgInstances g) (tgRows g ++ [row])]> groups)
      else Err (profileErrAt (ppSource row) (ppPath row)
                  (errorf "instances=%d disagrees with %d already declared for table parent %q"
                     [Strconv.Itoa (ppInstances row); Strconv.Itoa (tgInstances g); key]))
  end.
Fixpoint check_rows (rows : list profileParam) (groups : gmap string tableGroup) : result error (gmap string tableGroup) :=
  match rows with
  | [] => Ok groups
  | row :: rest =>
      parent ← check_row row;
      groups ← match parent with None => Ok groups | Some p => join_group row p groups end;
      check_rows rest groups
  end.

(** The tree and [mountedFrom]. *)
Abbreviation mounting := (Tree * gmap string string)%type.
Definition mount_leaf (path raw : string) (row : profileParam) (st : mounting) : result error mounting :=
  match st.2 !! path with
  | Some prev => Err (profileErrAt (ppSource row) path (errorf "duplicate path; already declared in %s" [prev]))
  | None =>
      match Mount st.1 path (NewLeaf (row_value row raw)) with
      | (_, _, Err e) => Err (profileErrAt (ppSource row) path e)
      | (t, _, Ok _) => Ok (t, <[path := ppSource row]> st.2)
      end
  end.
Definition then_each {A S} (f : A → S → result error S) : list A → S → result error S :=
  fix go l s := match l with [] => Ok s | x :: rest => s ← f x s; go rest s end.
(** Pass 2. *)
Definition mount_plain (row : profileParam) (st : mounting) : result error mounting :=
  if (0 <? ppInstances row)%Z || is_template (ppPath row) then Ok st else mount_leaf (ppPath row) (ppValue row) row st.
(** Pass 3. *)
Definition mount_instance (i : Z) (row : profileParam) : mounting → result error mounting :=
  mount_leaf (ReplaceAll (ppPath row) tmark (Strconv.Itoa i)) (ReplaceAll (ppValue row) tmark (Strconv.Itoa i)) row.
Definition mount_group (g : tableGroup) : mounting → result error mounting :=
  then_each (λ i, then_each (mount_instance i) (tgRows g)) (seqZ 1 (tgInstances g)).
(** Pass 4. *)
Definition group_source (g : tableGroup) : string := match tgRows g with row :: _ => ppSource row | [] => "" end.
Definition register_table (kg : string * tableGroup) (t : Tree) : result error Tree :=
  match AddTable t kg.1 (Some (buildInstanceTemplate (tgRows kg.2))) with
  | (_, _, Err e) => Err (profileErrAt (group_source kg.2) kg.1 e)
  | (t, _, Ok _) => Ok t
  end.

Section apply.
(** The order of the two loops over the groups. *)
Context (range range' : gmap string tableGroup → list (string * tableGroup)).
Definition applyRows (t : Tree) (rows : list profileParam) : result error Tree :=
  groups ← check_rows rows ∅;
  st ← then_each mount_plain rows (t, ∅);
  st ← then_each (λ kg, mount_group kg.2) (range groups) st;
  then_each register_table (range' groups) st.1.
End apply.
