(* ===== verification/RowsTree.v ===== *)
(** * Profile rows: what mounting leaves and registering tables makes of a tree

    The tree of a profile is described by two maps: the values of its leaves
    and the templates of its tables. Everything else is a branch above one of
    them. *)
From Stdlib Require Import ZArith Lia Ascii String SpecFloat.
From S2P Require Import Prelude GoLib GoText GoAuth CpeErr Types Node Tree TreeProps Objects ObjectsProps Listing Graft TreeFrame Fleet Rows.

(** ** What is at a path *)

Definition info_at (q : segments) (n : Node) : option (option Value * option Node) := (λ m, (leaf m, table m)) <$> node_at q n.

Lemma info_nil n : info_at [] n = Some (leaf n, table n).
Proof. done. Qed.
Lemma info_cons s q n : info_at (s :: q) n = if isLeaf n then None else c ← children n !! s; info_at q c.
Proof. unfold info_at. cbn. destruct (isLeaf n); [done|]. by destruct (children n !! s). Qed.
Lemma info_view t q : view t q = info_at q (root t) ≫= fst.
Proof. unfold view, leaf_at, info_at. by destruct (node_at q (root t)). Qed.
Lemma info_NewBranch q : info_at q NewBranch = if decide (q = []) then Some (None, None) else None.
Proof. destruct q as [|s q]; [done|]. rewrite info_cons. cbn. by rewrite lookup_empty. Qed.
Lemma info_NewLeaf q v : info_at q (NewLeaf v) = if decide (q = []) then Some (Some v, None) else None.
Proof. by destruct q as [|s q]. Qed.
(** One child set, the others kept. *)
Lemma info_insert s c q n : isLeaf n = false →
  info_at q (set_children (<[s := c]> (children n)) n) =
  match q with [] => info_at [] n | s' :: q' => if decide (s = s') then info_at q' c else info_at q n end.
Proof.
  intros Hl. destruct q as [|s' q']; [done|]. rewrite !info_cons. change (isLeaf (set_children _ n)) with (isLeaf n). rewrite Hl. cbn.
  case_decide as H; [subst; by rewrite lookup_insert_eq|by rewrite lookup_insert_ne].
Qed.
(** A child that is not there reads as an empty branch would, but for its root. *)
Lemma info_child s q n : isLeaf n = false →
  info_at (s :: q) n = match children n !! s with Some c => info_at q c | None => None end.
Proof. intros Hl. rewrite info_cons, Hl. by destruct (children n !! s). Qed.

(** A leaf mounted at [p] seen from [q]. *)
Definition after_mount (p : segments) (v : Value) (old : segments → option (option Value * option Node)) (q : segments) :=
  if decide (q = p) then Some (Some v, None)
  else if decide (q `prefix_of` p) then Some (default (None, None) (old q)) else old q.
(** Nothing is at [p] and no leaf is above it. *)
Definition open_for (p : segments) (old : segments → option (option Value * option Node)) : Prop :=
  old p = None ∧ ∀ q, q `prefix_of` p → ∀ v tb, old q ≠ Some (Some v, tb).

(** Below one child of a branch. *)
Section child.
Context (s : string) (parent : Node) (Hl : isLeaf parent = false).
Let child := default NewBranch (children parent !! s).
Lemma child_info q : q ≠ [] → info_at q child = info_at (s :: q) parent.
Proof. intros Hq. unfold child. rewrite info_child by done. destruct (children parent !! s); cbn; [done|]. by rewrite info_NewBranch, decide_False. Qed.
Lemma child_default q : default (None, None) (info_at q child) = default (None, None) (info_at (s :: q) parent).
Proof.
  destruct q as [|y q]; [|by rewrite child_info]. rewrite info_child by done. unfold child. by destruct (children parent !! s).
Qed.
Lemma no_leaf_above p :
  (∀ q, q `prefix_of` p → ∀ v tb, info_at q child ≠ Some (Some v, tb)) ↔
  (∀ q, q `prefix_of` s :: p → ∀ v tb, info_at q parent ≠ Some (Some v, tb)).
Proof.
  split; intros H.
  - intros [|x q] Hq w tb; [rewrite info_nil; apply isLeaf_false in Hl; rewrite Hl; by intros [=]|].
    apply prefix_cons_inv_1 in Hq as Hx. subst x. apply prefix_cons_inv_2 in Hq. destruct q as [|y q].
    + intros E. apply (H [] (prefix_nil _) w tb). rewrite info_child in E by done. unfold child. by destruct (children parent !! s).
    + rewrite <-child_info by done. by apply H.
  - intros [|x q] Hq w tb E.
    + apply (H [s] (prefix_cons s _ _ (prefix_nil _)) w tb). rewrite info_child by done. unfold child in E. by destruct (children parent !! s).
    + rewrite child_info in E by done. by apply (H (s :: x :: q) (prefix_cons s _ _ Hq) w tb).
Qed.
End child.

Lemma mount_go_info path segs last v parent :
  match mount_go path segs last (NewLeaf v) parent with
  | (p', Ok _) => open_for (segs ++ [last]) (λ q, info_at q parent) ∧
      ∀ q, info_at q p' = after_mount (segs ++ [last]) v (λ q, info_at q parent) q
  | (_, Err _) => ¬ open_for (segs ++ [last]) (λ q, info_at q parent)
  end.
Proof.
  revert parent. induction segs as [|s segs IH]; intros parent; cbn [mount_go app].
  - destruct (isLeaf parent) eqn:Hl.
    { apply isLeaf_true in Hl as [w Hw]. intros [_ H]. apply (H [] (prefix_nil _) w (table parent)). rewrite info_nil, Hw. done. }
    destruct (children parent !! last) as [c|] eqn:Hc.
    { intros [H _]. rewrite info_child, Hc, info_nil in H by done. done. }
    split.
    + split; [by rewrite info_child, Hc|]. intros q Hq w tb. destruct q as [|x q].
      * rewrite info_nil. apply isLeaf_false in Hl. rewrite Hl. by intros [=].
      * apply prefix_cons_inv_2 in Hq as Hq'. apply prefix_nil_inv in Hq' as ->. apply prefix_cons_inv_1 in Hq as ->. by rewrite info_child, Hc.
    + intros q. rewrite info_insert by done. unfold after_mount. destruct q as [|x q].
      * rewrite decide_False by done. rewrite decide_True by apply prefix_nil. by rewrite info_nil.
      * case_decide as Hx; [subst x|].
        -- rewrite info_NewLeaf. case_decide as Hq; [subst; by rewrite decide_True|]. rewrite (decide_False (P := last :: q = [last])) by congruence.
           rewrite decide_False; [by rewrite info_child, Hc|]. by intros ?%prefix_cons_inv_2%prefix_nil_inv.
        -- rewrite decide_False by congruence. rewrite decide_False; [done|]. intros ?%prefix_cons_inv_1. congruence.
  - destruct (isLeaf parent) eqn:Hl.
    { apply isLeaf_true in Hl as [w Hw]. intros [_ H]. apply (H [] (prefix_nil _) w (table parent)). rewrite info_nil, Hw. done. }
    specialize (IH (default NewBranch (children parent !! s))).
    assert (open_for (segs ++ [last]) (λ q, info_at q (default NewBranch (children parent !! s))) ↔ open_for (s :: segs ++ [last]) (λ q, info_at q parent)) as Hop.
    { unfold open_for. by rewrite (no_leaf_above s parent Hl), (child_info s parent Hl) by (by destruct segs). }
    destruct (mount_go path segs last (NewLeaf v) _) as [c' [[]|e]]; [|by rewrite <-Hop].
    destruct IH as [Ho Hi]. split; [by apply Hop|]. intros q. rewrite info_insert by done. unfold after_mount. destruct q as [|x q].
    { rewrite decide_False by done. rewrite decide_True by apply prefix_nil. by rewrite info_nil. }
    case_decide as Hx; [subst x|].
    + rewrite Hi. unfold after_mount. destruct (decide (q = segs ++ [last])) as [->|Hq]; [by rewrite decide_True|].
      rewrite (decide_False (P := s :: q = _)) by congruence. destruct (decide (q `prefix_of` segs ++ [last])) as [Hp|Hp].
      * rewrite decide_True by (by apply prefix_cons). f_equal. by apply child_default.
      * rewrite decide_False by (by intros ?%prefix_cons_inv_2). apply child_info; [done|]. intros ->. apply Hp, prefix_nil.
    + rewrite decide_False by congruence. rewrite decide_False; [done|]. intros ?%prefix_cons_inv_1. congruence.
Qed.

(** A table declared at [p] seen from [q]. *)
Definition after_table (p : segments) (tmpl : Node) (old : segments → option (option Value * option Node)) (q : segments) :=
  if decide (q = p) then Some (None, Some tmpl)
  else if decide (q `prefix_of` p) then Some (default (None, None) (old q)) else old q.
Definition open_table (p : segments) (old : segments → option (option Value * option Node)) : Prop :=
  (∀ tb, old p ≠ Some (None, Some tb)) ∧ ∀ q, q `prefix_of` p → ∀ v tb, old q ≠ Some (Some v, tb).

Lemma addtable_go_info path segs tmpl parent :
  match addtable_go path segs tmpl parent with
  | (p', Ok _) => open_table segs (λ q, info_at q parent) ∧ ∀ q, info_at q p' = after_table segs tmpl (λ q, info_at q parent) q
  | (_, Err _) => ¬ open_table segs (λ q, info_at q parent)
  end.
Proof.
  revert parent. induction segs as [|s segs IH]; intros parent; cbn [addtable_go].
  - destruct (isLeaf parent) eqn:Hl.
    { apply isLeaf_true in Hl as [w Hw]. intros [_ H]. apply (H [] (prefix_nil _) w (table parent)). by rewrite info_nil, Hw. }
    apply isLeaf_false in Hl as Hlf. destruct (table parent) as [tb|] eqn:Ht.
    { intros [H _]. apply (H tb). by rewrite info_nil, Hlf, Ht. }
    split.
    + split; [intros tb; by rewrite info_nil, Hlf, Ht|]. intros q ->%prefix_nil_inv w tb. by rewrite info_nil, Hlf.
    + intros [|x q]; unfold after_table; [by rewrite info_nil; cbn; rewrite Hlf|]. rewrite decide_False by done.
      rewrite decide_False; [|by intros ?%prefix_nil_inv]. by rewrite !info_cons.
  - destruct (isLeaf parent) eqn:Hl.
    { apply isLeaf_true in Hl as [w Hw]. intros [_ H]. apply (H [] (prefix_nil _) w (table parent)). by rewrite info_nil, Hw. }
    specialize (IH (default NewBranch (children parent !! s))).
    assert (open_table segs (λ q, info_at q (default NewBranch (children parent !! s))) ↔ open_table (s :: segs) (λ q, info_at q parent)) as Hop.
    { unfold open_table. rewrite (no_leaf_above s parent Hl segs). destruct segs as [|y segs]; [|by rewrite (child_info s parent Hl (y :: segs)) by done].
      rewrite info_child by done. rewrite ?info_nil. destruct (children parent !! s) as [c|]; cbn; [done|]. by split; intros [_ H]; (split; [intros tb [=]|]). }
    destruct (addtable_go path segs tmpl _) as [c' [[]|e]]; [|by rewrite <-Hop].
    destruct IH as [Ho Hi]. split; [by apply Hop|]. intros q. rewrite info_insert by done. unfold after_table. destruct q as [|x q].
    { rewrite decide_False by done. rewrite decide_True by apply prefix_nil. by rewrite info_nil. }
    case_decide as Hx; [subst x|].
    + rewrite Hi. unfold after_table. destruct (decide (q = segs)) as [->|Hq]; [by rewrite decide_True|].
      rewrite (decide_False (P := s :: q = _)) by congruence. destruct (decide (q `prefix_of` segs)) as [Hp|Hp].
      * rewrite decide_True by (by apply prefix_cons). f_equal. by apply child_default.
      * rewrite decide_False by (by intros ?%prefix_cons_inv_2). apply child_info; [done|]. intros ->. apply Hp, prefix_nil.
    + rewrite decide_False by congruence. rewrite decide_False; [done|]. intros ?%prefix_cons_inv_1. congruence.
Qed.

(** ** The tree of some leaves and some tables *)

Section built.
Implicit Types (L : gmap segments Value) (T : gmap segments Node) (p q : segments).
Definition above L T q : Prop := q = [] ∨ set_Exists (λ p, q `prefix_of` p) (dom L ∪ dom T : gset segments).
#[local] Instance above_dec L T q : Decision (above L T q).
Proof. unfold above. apply _. Defined.
Definition expected L T q : option (option Value * option Node) :=
  match L !! q with
  | Some v => Some (Some v, None)
  | None => if decide (above L T q) then Some (None, T !! q) else None
  end.
Definition built (t : Tree) L T : Prop := ∀ q, info_at q (root t) = expected L T q.

Lemma above_insert_leaf L T p v q : above (<[p := v]> L) T q ↔ q `prefix_of` p ∨ above L T q.
Proof.
  unfold above, set_Exists. split.
  - intros [->|(x&Hx&Hq)]; [tauto|]. rewrite dom_insert in Hx. assert (x = p ∨ x ∈ (dom L ∪ dom T : gset _)) as [->|Hx'] by set_solver; [tauto|eauto].
  - intros [Hp|[->|(x&Hx&Hq)]]; [|tauto|].
    + right. exists p. split; [rewrite dom_insert; set_solver|done].
    + right. exists x. split; [rewrite dom_insert; set_solver|done].
Qed.
Lemma above_insert_table L T p n q : above L (<[p := n]> T) q ↔ q `prefix_of` p ∨ above L T q.
Proof.
  unfold above, set_Exists. split.
  - intros [->|(x&Hx&Hq)]; [tauto|]. rewrite dom_insert in Hx. assert (x = p ∨ x ∈ (dom L ∪ dom T : gset _)) as [->|Hx'] by set_solver; [tauto|eauto].
  - intros [Hp|[->|(x&Hx&Hq)]]; [|tauto|].
    + right. exists p. split; [rewrite dom_insert; set_solver|done].
    + right. exists x. split; [rewrite dom_insert; set_solver|done].
Qed.
Lemma above_table L T q n : T !! q = Some n → above L T q.
Proof. intros H. right. exists q. split; [|done]. apply elem_of_union_r, elem_of_dom. by exists n. Qed.
Lemma not_above L T q : ¬ above L T q → expected L T q = (λ v, (Some v, None)) <$> L !! q ∧ T !! q = None.
Proof.
  intros H. unfold expected. rewrite decide_False by done. destruct (T !! q) eqn:E; [by apply above_table with (L := L) in E|]. by destruct (L !! q).
Qed.
Lemma no_leaf L T p : (∀ q, q `prefix_of` p → ∀ v tb, expected L T q ≠ Some (Some v, tb)) ↔ (∀ x, x ∈ dom L → ¬ x `prefix_of` p).
Proof.
  unfold expected. split.
  - intros H x [v Hx]%elem_of_dom Hp. apply (H x Hp v None). by rewrite Hx.
  - intros H q Hq v tb. destruct (L !! q) eqn:E; [exfalso; apply (H q); [apply elem_of_dom; eauto|done]|]. by case_decide.
Qed.

(** Room for a leaf, and for a table. *)
Definition free L T p : Prop := (∀ x, x ∈ dom L ∪ dom T → ¬ p `prefix_of` x) ∧ ∀ x, x ∈ dom L → ¬ x `prefix_of` p.
Definition free_table L T p : Prop := T !! p = None ∧ ∀ x, x ∈ dom L → ¬ x `prefix_of` p.

Lemma open_for_free L T p : p ≠ [] → open_for p (expected L T) ↔ free L T p.
Proof.
  intros Hp. unfold open_for, free. rewrite no_leaf. split; intros [H1 H2]; (split; [|done]).
  - intros x Hx Hpx. unfold expected in H1. destruct (L !! p) eqn:E; [done|]. rewrite decide_True in H1; [done|]. right. by exists x.
  - unfold expected. destruct (L !! p) eqn:E.
    { exfalso. apply (H2 p); [apply elem_of_dom; eauto|done]. }
    apply decide_False. intros [?|(x&Hx&Hpx)]; [done|]. by apply (H1 x).
Qed.
Lemma after_mount_built L T p v q : free L T p → after_mount p v (expected L T) q = expected (<[p := v]> L) T q.
Proof.
  intros [H1 H2]. unfold after_mount. destruct (decide (q = p)) as [->|Hq]; [unfold expected; by rewrite lookup_insert_eq|].
  unfold expected at 3. rewrite lookup_insert_ne by done. destruct (decide (q `prefix_of` p)) as [Hp|Hp].
  - rewrite decide_True by (apply above_insert_leaf; tauto). destruct (L !! q) eqn:E; [exfalso; apply (H2 q); [apply elem_of_dom; eauto|done]|].
    unfold expected. rewrite E. case_decide as Ha; [done|]. cbn. by apply not_above in Ha as [_ ->].
  - unfold expected. destruct (L !! q); [done|]. apply decide_ext. rewrite above_insert_leaf. tauto.
Qed.
Lemma open_table_free L T p : open_table p (expected L T) ↔ free_table L T p.
Proof.
  unfold open_table, free_table. rewrite no_leaf. split; intros [H1 H2]; (split; [|done]).
  - destruct (T !! p) as [n|] eqn:E; [|done]. exfalso. apply (H1 n). unfold expected.
    destruct (L !! p) eqn:El; [exfalso; apply (H2 p); [apply elem_of_dom; eauto|done]|]. rewrite decide_True by (by eapply above_table). by rewrite E.
  - intros tb. unfold expected. destruct (L !! p); [done|]. case_decide; [|done]. by rewrite H1.
Qed.
Lemma after_table_built L T p n q : free_table L T p → after_table p n (expected L T) q = expected L (<[p := n]> T) q.
Proof.
  intros [H1 H2]. unfold after_table. destruct (decide (q = p)) as [->|Hq].
  { unfold expected. rewrite lookup_insert_eq. destruct (L !! p) eqn:E; [exfalso; apply (H2 p); [apply elem_of_dom; eauto|done]|].
    rewrite decide_True; [done|]. apply above_insert_table. by left. }
  unfold expected at 3. rewrite lookup_insert_ne by done. destruct (decide (q `prefix_of` p)) as [Hp|Hp].
  - rewrite decide_True by (apply above_insert_table; tauto). destruct (L !! q) eqn:E; [exfalso; apply (H2 q); [apply elem_of_dom; eauto|done]|].
    unfold expected. rewrite E. case_decide as Ha; [done|]. cbn. by apply not_above in Ha as [_ ->].
  - unfold expected. destruct (L !! q); [done|]. apply decide_ext. rewrite above_insert_table. tauto.
Qed.

Lemma built_New : built New_ ∅ ∅.
Proof.
  intros q. change (root New_) with NewBranch. rewrite info_NewBranch. unfold expected. rewrite lookup_empty. apply decide_ext. unfold above, set_Exists.
  rewrite !dom_empty_L. split; [tauto|]. intros [?|(x&Hx&_)]; [done|]. set_solver.
Qed.
Lemma built_mount t L T path p v : built t L T → parsePath path = Ok p → p ≠ [] →
  match Mount t path (NewLeaf v) with
  | (t', _, Ok _) => free L T p ∧ built t' (<[p := v]> L) T
  | (_, _, Err _) => ¬ free L T p
  end.
Proof.
  intros Hb Hp Hne. unfold Mount. rewrite Hp. destruct p as [|s rest]; [done|]. destruct (split_last s rest) as [init last] eqn:E.
  apply split_last_spec in E. pose proof (mount_go_info path init last v (root t)) as H. rewrite <-E in H.
  assert (open_for (s :: rest) (λ q, info_at q (root t)) ↔ free L T (s :: rest)) as Ho.
  { rewrite <-open_for_free by done. unfold open_for. by setoid_rewrite Hb. }
  destruct (mount_go path init last (NewLeaf v) (root t)) as [r' [u|e]]; [|by rewrite <-Ho].
  destruct H as [Hf Hi]. apply Ho in Hf. split; [done|]. intros q. cbn [root set_root]. rewrite Hi, <-after_mount_built by done.
  unfold after_mount. by rewrite Hb.
Qed.
Lemma built_table t L T path p n : built t L T → parsePath path = Ok p → p ≠ [] →
  match AddTable t path (Some n) with
  | (t', _, Ok _) => free_table L T p ∧ built t' L (<[p := n]> T)
  | (_, _, Err _) => ¬ free_table L T p
  end.
Proof.
  intros Hb Hp Hne. unfold AddTable. rewrite Hp. destruct p as [|s rest]; [done|].
  pose proof (addtable_go_info path (s :: rest) n (root t)) as H.
  assert (open_table (s :: rest) (λ q, info_at q (root t)) ↔ free_table L T (s :: rest)) as Ho.
  { rewrite <-open_table_free. unfold open_table. by setoid_rewrite Hb. }
  destruct (addtable_go path (s :: rest) n (root t)) as [r' [u|e]]; [|by rewrite <-Ho].
  destruct H as [Hf Hi]. apply Ho in Hf. split; [done|]. intros q. cbn [root set_root]. rewrite Hi, <-after_table_built by done.
  unfold after_table. by rewrite Hb.
Qed.
End built.

(** ** Many mounts *)

Lemma then_each_app {A S} (f : A → S → result error S) l1 l2 s :
  then_each f (l1 ++ l2) s = (s ← then_each f l1 s; then_each f l2 s).
Proof. revert s; induction l1 as [|x l1 IH]; intros s; [done|]. cbn. destruct (f x s); [apply IH|done]. Qed.
Lemma then_each_flat_map {A B S} (f : B → S → result error S) (g : A → list B) l s :
  then_each (λ x, then_each f (g x)) l s = then_each f (flat_map g l) s.
Proof. revert s; induction l as [|x l IH]; intros s; [done|]. cbn [flat_map]. rewrite then_each_app. cbn. destruct (then_each f (g x) s); [apply IH|done]. Qed.
Lemma then_each_fmap {A B S} (f : B → S → result error S) (g : A → B) l s :
  then_each f (g <$> l) s = then_each (λ x, f (g x)) l s.
Proof. revert s; induction l as [|x l IH]; intros s; [done|]. cbn. destruct (f (g x) s); [apply IH|done]. Qed.
Lemma then_each_ext {A S} (f g : A → S → result error S) l s :
  (∀ x s, x ∈ l → f x s = g x s) → then_each f l s = then_each g l s.
Proof.
  revert s; induction l as [|x l IH]; intros s H; [done|]. cbn. rewrite H by left. destruct (g x s); [|done]. apply IH. intros y s' Hy. apply H. by right.
Qed.

(** The path, the raw value and the row of one mount. *)
Definition job : Type := string * string * profileParam.
Definition mount_job (j : job) : mounting → result error mounting := mount_leaf j.1.1 j.1.2 j.2.
Definition path_of (s : string) : segments := match parsePath s with Ok p => p | Err _ => [] end.
Definition job_at (j : job) : segments := path_of j.1.1.
Definition job_leaf (j : job) : segments * Value := (job_at j, row_value j.2 j.1.2).
Definition jobs_map (jobs : list job) : gmap segments Value := list_to_map (job_leaf <$> jobs).

(** Paths that can all become leaves, whatever the order. *)
Definition fits (L : gmap segments Value) (P : list segments) : Prop :=
  [] ∉ P ∧ NoDup P ∧ apart P ∧ ∀ p x, p ∈ P → x ∈ dom L → ¬ p `prefix_of` x ∧ ¬ x `prefix_of` p.
Lemma fits_nil L : fits L [].
Proof. split_and!; [apply not_elem_of_nil|constructor|by intros ?? ?%elem_of_nil|by intros ?? ?%elem_of_nil]. Qed.
Lemma fits_cons L p v P : fits L (p :: P) ↔ p ≠ [] ∧ free L ∅ p ∧ fits (<[p := v]> L) P.
Proof.
  assert (∀ x, x ∈ dom (<[p:=v]> L) ↔ x = p ∨ x ∈ dom L) as Hd by (intros x; rewrite dom_insert, elem_of_union, elem_of_singleton; done).
  unfold fits, free, apart. setoid_rewrite Hd. rewrite NoDup_cons, not_elem_of_cons. setoid_rewrite elem_of_union. split.
  - intros ([Hne Hn]&[Hp HN]&Ha&Hc). split_and!; [by intros ->| | |done|done| |].
    + intros x [Hx|Hx]; [refine (proj1 (Hc p x _ Hx)); left|]. by rewrite dom_empty in Hx.
    + intros x Hx. refine (proj2 (Hc p x _ Hx)). left.
    + intros x y Hx Hy. by apply Ha; right.
    + intros q x Hq [->|Hx]; [|apply (Hc q x); [by right|done]]. assert (q ≠ p) by (by intros ->). split; apply Ha; try done; try (by left); by right.
  - intros (Hne&[H1 H2]&Hn&HN&Ha&Hc). split_and!; [by intros ?|done| |done| |].
    + intros Hp. destruct (Hc p p Hp (or_introl eq_refl)) as [Hx _]. by apply Hx.
    + intros x y [->|Hx]%elem_of_cons [->|Hy]%elem_of_cons Hxy; [done| | |by apply Ha].
      * by apply (Hc y p Hy (or_introl eq_refl)).
      * by apply (Hc x p Hx (or_introl eq_refl)).
    + intros q x [->|Hq]%elem_of_cons Hx; [split; [apply H1; by left|by apply H2]|]. apply Hc; [done|by right].
Qed.
#[export] Instance fits_proper L : Proper ((≡ₚ) ==> iff) (fits L).
Proof. intros P Q HPQ. assert (∀ x, x ∈ P ↔ x ∈ Q) as He by (intros x; by rewrite HPQ). unfold fits, apart. setoid_rewrite He. by rewrite HPQ. Qed.

Definition mounted (st : mounting) (L : gmap segments Value) : Prop :=
  built st.1 L ∅ ∧ ∀ k, is_Some (st.2 !! k) → path_of k ∈ dom L.
Lemma mount_one j st L : mounted st L →
  match mount_job j st with
  | Ok st' => (job_at j ≠ [] ∧ free L ∅ (job_at j)) ∧ mounted st' (<[job_at j := (job_leaf j).2]> L)
  | Err _ => ¬ (job_at j ≠ [] ∧ free L ∅ (job_at j))
  end.
Proof.
  intros [Hb Hm]. unfold mount_job, mount_leaf. destruct (st.2 !! j.1.1) as [prev|] eqn:Ep.
  { intros [_ [H _]]. apply (H (job_at j)); [|done]. apply elem_of_union_l, Hm. by exists prev. }
  assert (job_at j = [] → ∃ t' cs e, Mount st.1 j.1.1 (NewLeaf (row_value j.2 j.1.2)) = (t', cs, Err e)) as Hroot.
  { unfold job_at, path_of, Mount. destruct (parsePath j.1.1) as [[|]|]; [|done|]; intros _; by eexists _, _, _. }
  destruct (decide (job_at j = [])) as [He|Hne]; [destruct (Hroot He) as (t'&cs&e&->); by intros [? _]|].
  assert (parsePath j.1.1 = Ok (job_at j)) as Hp by (unfold job_at, path_of in *; by destruct (parsePath _)).
  pose proof (built_mount st.1 L ∅ _ _ (row_value j.2 j.1.2) Hb Hp Hne) as H.
  destruct (Mount st.1 j.1.1 _) as [[t' cs] [u|e]]; [|by intros [_ ?]]. destruct H as [Hf Hb']. split; [done|]. split; [done|].
  intros k. cbn [snd]. rewrite dom_insert, elem_of_union, elem_of_singleton. destruct (decide (j.1.1 = k)) as [<-|Hk]; [by left|].
  rewrite lookup_insert_ne by done. intros Hs. right. by apply Hm.
Qed.
Lemma then_each_cons {A S} (f : A → S → result error S) x l s : then_each f (x :: l) s = (s ← f x s; then_each f l s).
Proof. done. Qed.
Lemma mounts jobs st L : mounted st L →
  match then_each mount_job jobs st with
  | Ok st' => fits L (job_at <$> jobs) ∧ mounted st' (jobs_map jobs ∪ L)
  | Err _ => ¬ fits L (job_at <$> jobs)
  end.
Proof.
  revert st L; induction jobs as [|j jobs IH]; intros st L Hm.
  { cbn. split; [apply fits_nil|]. change (jobs_map []) with (∅ : gmap segments Value). by rewrite (left_id_L ∅ (∪)). }
  rewrite then_each_cons, fmap_cons. pose proof (fits_cons L (job_at j) (job_leaf j).2 (job_at <$> jobs)) as Hfc. pose proof (mount_one j st L Hm) as H.
  destruct (mount_job j st) as [st'|e]; cbn [mbind result_bind]; [|tauto]. destruct H as [Hj Hm'].
  specialize (IH _ _ Hm'). destruct (then_each mount_job jobs st') as [st''|e]; [|tauto]. destruct IH as [Hfit Hst]. split; [tauto|].
  unfold jobs_map. rewrite fmap_cons. cbn [list_to_map foldr job_leaf fst snd].
  rewrite <-insert_union_l, insert_union_r; [done|]. apply not_elem_of_list_to_map_1. rewrite <-list_fmap_compose. intros (j'&Hj'&Hin)%list_elem_of_fmap.
  destruct Hfit as (_&_&_&Hc). destruct (Hc (job_at j') (job_at j)) as [Hx _]; [by apply list_elem_of_fmap_2|rewrite dom_insert; set_solver|].
  apply Hx. cbn in Hj'. by rewrite <-Hj'.
Qed.
