(* ===== verification/RowsProps.v ===== *)
(** * Profile rows: the tree they build, its order and its types *)
From Stdlib Require Import ZArith Lia Ascii String SpecFloat.
From S2P Require Import Prelude GoLib GoText GoAuth CpeErr Types Node Tree TreeProps Objects ObjectsProps Listing Graft TreeFrame Fleet Rows RowsTree.

(** ** Paths with a mark *)

Abbreviation no_open := (Strings.no_byte "{").
Lemma cut_step c s : Ascii.eqb c "{" = false → Strings.CutStr (String c s) tmark =
  match Strings.CutStr s tmark with Some (a, b) => Some (String c a, b) | None => None end.
Proof.
  intros H. cbn [Strings.CutStr]. change (Strings.TrimPrefix_go (String c s) tmark) with (if Ascii.eqb "{" c then Strings.TrimPrefix_go s "i}" else None).
  by rewrite Ascii.eqb_sym, H.
Qed.
Lemma no_open_cons c s : no_open (String c s) = true ↔ Ascii.eqb c "{" = false ∧ no_open s = true.
Proof. unfold Strings.no_byte. cbn [str_forall]. by rewrite andb_true_iff, negb_true_iff. Qed.
Lemma CutStr_none s : no_open s = true → Strings.CutStr s tmark = None.
Proof. induction s as [|c s IH]; [done|]. intros [Hc Hs]%no_open_cons. by rewrite cut_step, IH. Qed.
Lemma CutStr_mark a b : no_open a = true → Strings.CutStr (a +:+ tmark +:+ b) tmark = Some (a, b).
Proof.
  induction a as [|c a IH]; [by destruct b|]. intros [Hc Hs]%no_open_cons. change (String c a +:+ tmark +:+ b) with (String c (a +:+ tmark +:+ b)).
  by rewrite cut_step, IH.
Qed.
Lemma is_template_cut s : is_template s = match Strings.CutStr s tmark with Some _ => true | None => false end.
Proof.
  unfold is_template. induction s as [|c s IH]; [done|]. cbn [Strings.Contains Strings.CutStr].
  assert (∀ pre s, String.prefix pre s = match Strings.TrimPrefix_go s pre with Some _ => true | None => false end) as Hp.
  { induction pre as [|x pre IHp]; intros [|y s']; try done. cbn [String.prefix Strings.TrimPrefix_go].
    destruct (Ascii.eqb_spec x y) as [->|Hxy]; [by destruct (ascii_dec y y)|by destruct (ascii_dec x y)]. }
  rewrite Hp. destruct (Strings.TrimPrefix_go _ _); [done|]. cbn [orb]. rewrite IH. by destruct (Strings.CutStr s tmark) as [[]|].
Qed.
Lemma ReplaceAll_mark a b x : no_open a = true → no_open b = true → ReplaceAll (a +:+ tmark +:+ b) tmark x = a +:+ x +:+ b.
Proof.
  intros Ha Hb. unfold ReplaceAll. cbn [ReplaceAll_go]. rewrite CutStr_mark by done. do 2 f_equal.
  destruct (String.length _); [done|]. cbn [ReplaceAll_go]. by rewrite CutStr_none.
Qed.
Lemma valid_no_open s : valid_segment s = true → no_open s = true.
Proof.
  unfold valid_segment. rewrite andb_true_iff. intros [_ H]. revert H.
  apply str_forall_impl. intros c Hc. rewrite negb_true_iff, Ascii.eqb_neq. intros ->. by compute in Hc.
Qed.

Lemma no_open_app x y : no_open x = true → no_open y = true → no_open (x +:+ y) = true.
Proof. induction x as [|c x IH]; [done|]. intros [Hc Hx]%no_open_cons Hy. apply no_open_cons. split; [done|]. by apply IH. Qed.
Lemma no_open_Join l : Forall (λ s, no_open s = true) l → no_open (Strings.Join l ".") = true.
Proof. induction 1 as [|x l Hx Hl IH]; [done|]. destruct l as [|y l]; [done|]. apply no_open_app; [done|]. by apply (no_open_app "."). Qed.
(** A list of segments around one of them. *)
Lemma Join_around l1 l2 : Forall (λ s, no_open s = true) (l1 ++ l2) →
  ∃ a b, no_open a = true ∧ no_open b = true ∧ ∀ x, Strings.Join (l1 ++ x :: l2) "." = a +:+ x +:+ b.
Proof.
  intros [H1 H2]%Forall_app.
  exists (match l1 with [] => "" | _ => Strings.Join l1 "." +:+ "." end), (match l2 with [] => "" | _ => "." +:+ Strings.Join l2 "." end).
  split_and!.
  - destruct l1; [done|]. apply no_open_app; [by apply no_open_Join|done].
  - destruct l2; [done|]. apply (no_open_app "."); [done|by apply no_open_Join].
  - intros x. assert (Strings.Join (x :: l2) "." = x +:+ match l2 with [] => "" | _ => "." +:+ Strings.Join l2 "." end) as Hx.
    { destruct l2; [by rewrite str_app_nil_r|done]. }
    destruct l1 as [|z l1]; [exact Hx|].
    rewrite Strings.Join_app, Hx by done. by rewrite !str_app_assoc.
Qed.

Lemma profile_segments_ok segs i acc r : profile_segments segs i acc = Ok r →
  match acc with
  | Some k => r = Some k ∧ Forall (λ s, valid_segment s = true) segs
  | None => match r with
            | None => Forall (λ s, valid_segment s = true) segs
            | Some k => ∃ l1 l2, segs = l1 ++ tmark :: l2 ∧ k = (i + length l1)%nat ∧ Forall (λ s, valid_segment s = true) (l1 ++ l2)
            end
  end.
Proof.
  revert i acc; induction segs as [|s segs IH]; intros i acc; cbn [profile_segments].
  { intros [= <-]. destruct acc; [split; [done|constructor]|constructor]. }
  destruct (String.eqb_spec s "") as [|Hne]; [done|]. destruct (String.eqb_spec s tmark) as [->|Hm].
  - destruct acc as [k|]; [done|]. intros H%IH. destruct H as [-> Hv]. exists [], segs. split_and!; [done|cbn; lia|done].
  - destruct (is_template s); [done|]. destruct (str_forall isSegmentChar s) eqn:Es; [|done].
    assert (valid_segment s = true) as Hs by (unfold valid_segment; rewrite Es; by destruct (String.eqb_spec s "")).
    intros H%IH. destruct acc as [k|]; [split; [tauto|]; constructor; tauto|]. destruct r as [k|]; [|by constructor].
    destruct H as (l1&l2&->&->&Hv). exists (s :: l1), l2. split_and!; [done|cbn; lia|by constructor].
Qed.

(** A profile path is a path, or one with the mark for the instance number. *)
Lemma parseProfilePath_ok path segs idx : parseProfilePath path = Ok (segs, idx) →
  match idx with
  | None => parsePath path = Ok segs ∧ is_template path = false
  | Some k => ∃ l1 l2, segs = l1 ++ tmark :: l2 ∧ k = length l1 ∧ l2 ≠ [] ∧ Forall (λ s, valid_segment s = true) (l1 ++ l2) ∧
      is_template path = true ∧ ∀ x, valid_segment x = true → parsePath (ReplaceAll path tmark x) = Ok (l1 ++ x :: l2)
  end.
Proof.
  unfold parseProfilePath. set (p := Strings.TrimSuffix path "."). destruct (String.eqb_spec p "") as [|Hp]; [done|].
  set (l := Strings.Split p "."). intros (r&Hr&H)%result_bind_ok. destruct (bool_decide _) eqn:Hb; [done|]. apply bool_decide_eq_false in Hb. injection H as <- <-.
  apply profile_segments_ok in Hr. assert (p = Strings.Join l ".") as Hj by (symmetry; apply Strings.Join_Split).
  assert (∃ d, path = p +:+ d ∧ (d = "" ∨ d = ".")) as (d&Hd&Hdd).
  { destruct (Strings.TrimSuffix_cases path ".") as [E|[E _]]; [exists "."; tauto|]. exists "". unfold p. rewrite E, str_app_nil_r. tauto. }
  assert (∀ l, Forall (λ s, valid_segment s = true) l → parsePath (joinPath l +:+ d) = Ok l) as Hparse.
  { intros l' Hl'. destruct Hdd as [->| ->]; [rewrite str_app_nil_r; by apply parsePath_joinPath|by apply parsePath_trailing_dot]. }
  destruct r as [k|].
  - destruct Hr as (l1&l2&El&->&Hv). exists l1, l2. split_and!; [done|done| |done|..].
    + intros ->. apply Hb. rewrite El, length_app. cbn. f_equal. lia.
    + rewrite Hd, Hj, El. destruct (Join_around l1 l2) as (a&b&Ha&Hb'&E); [eapply Forall_impl; [exact Hv|]; intros s; apply valid_no_open|].
      by rewrite is_template_cut, E, !str_app_assoc, CutStr_mark.
    + intros x Hx. rewrite Hd, Hj, El. destruct (Join_around l1 l2) as (a&b&Ha&Hb'&E); [eapply Forall_impl; [exact Hv|]; intros s; apply valid_no_open|].
      rewrite E, !str_app_assoc, ReplaceAll_mark; [|done|].
      * assert (a +:+ x +:+ b +:+ d = joinPath (l1 ++ x :: l2) +:+ d) as -> by (unfold joinPath; by rewrite E, !str_app_assoc). apply Hparse. apply Forall_app in Hv as [??]. apply Forall_app. by split; [|constructor].
      * apply no_open_app; [done|]. by destruct Hdd as [->| ->].
  - split; [rewrite Hd, Hj; by apply (Hparse l)|]. rewrite is_template_cut, CutStr_none; [done|]. rewrite Hd, Hj.
    apply no_open_app; [|by destruct Hdd as [->| ->]]. apply no_open_Join. eapply Forall_impl; [exact Hr|]. intros s. apply valid_no_open.
Qed.

(** ** The passes as lists of mounts *)

Definition parent_of (row : profileParam) : option segments :=
  match parseProfilePath (ppPath row) with Ok (segs, Some i) => Some (take i segs) | _ => None end.
(** The leaves a row declares: one, or one for every instance. *)
Definition row_leaves (row : profileParam) : list (segments * Value) :=
  match parseProfilePath (ppPath row) with
  | Ok (segs, None) => [(segs, MkValue (ppType row) (ppValue row) (ppWritable row))]
  | Ok (segs, Some k) =>
      (λ i, (<[k := Strconv.Itoa i]> segs, MkValue (ppType row) (ReplaceAll (ppValue row) "{i}" (Strconv.Itoa i)) (ppWritable row))) <$> seqZ 1 (ppInstances row)
  | Err _ => []
  end.
Definition declared (rows : list profileParam) : list (segments * Value) := flat_map row_leaves rows.
Definition template_rows (p : segments) (rows : list profileParam) : list profileParam := filter (λ r, parent_of r = Some p) rows.

Definition plain_jobs (row : profileParam) : list job :=
  if (0 <? ppInstances row)%Z || is_template (ppPath row) then [] else [(ppPath row, ppValue row, row)].
Definition instance_job (i : Z) (row : profileParam) : job :=
  (ReplaceAll (ppPath row) tmark (Strconv.Itoa i), ReplaceAll (ppValue row) tmark (Strconv.Itoa i), row).
Definition instance_jobs (row : profileParam) : list job :=
  if is_template (ppPath row) then (λ i, instance_job i row) <$> seqZ 1 (ppInstances row) else [].
Definition group_jobs (g : tableGroup) : list job := flat_map (λ i, instance_job i <$> tgRows g) (seqZ 1 (tgInstances g)).

Lemma pass2_jobs rows st : then_each mount_plain rows st = then_each mount_job (flat_map plain_jobs rows) st.
Proof.
  rewrite <-then_each_flat_map. apply then_each_ext. intros row s _. unfold mount_plain, plain_jobs. destruct (_ || _); [done|].
  change (mount_leaf _ _ row s) with (mount_job (ppPath row, ppValue row, row) s). rewrite then_each_cons. by destruct (mount_job _ _).
Qed.
Lemma pass3_jobs (l : list (string * tableGroup)) st :
  then_each (λ kg, mount_group kg.2) l st = then_each mount_job (flat_map (λ kg, group_jobs kg.2) l) st.
Proof.
  rewrite <-then_each_flat_map. apply then_each_ext. intros kg s _. unfold mount_group, group_jobs. rewrite <-then_each_flat_map.
  apply then_each_ext. intros i s' _. by rewrite then_each_fmap.
Qed.

(** What pass 1 tells of a row. *)
Definition row_ok (row : profileParam) : Prop :=
  ∃ segs idx, parseProfilePath (ppPath row) = Ok (segs, idx) ∧ (0 ≤ ppInstances row)%Z ∧ (idx = None → ppInstances row = 0%Z) ∧
    valid_raw (ppType row) (samplePickPlaceholders (match idx with Some _ => ReplaceAll (ppValue row) tmark "1" | None => ppValue row end)) = true.
Lemma check_row_ok row parent : check_row row = Ok parent → row_ok row ∧ parent = parent_of row.
Proof.
  unfold check_row, row_ok, parent_of. destruct (typeFns_validate _); [|done]. destruct (parseProfilePath _) as [[segs idx]|] eqn:Ep; [|done].
  cbn [map_err mbind result_bind]. destruct idx as [k|]; cbn [andb negb fmap option_fmap option_map].
  - destruct (ppInstancesSet row); cbn [negb orb]; [|done]. destruct (Z.ltb_spec (ppInstances row) 0) as [|Hi]; [done|].
    intros (u&Hv%map_err_ok&[= <-])%result_bind_ok. split; [|done]. exists segs, (Some k). unfold valid_raw. by rewrite Hv.
  - destruct (Z.eqb_spec (ppInstances row) 0) as [Hi|]; [|done]. cbn [negb].
    intros (u&Hv%map_err_ok&[= <-])%result_bind_ok. split; [|done]. exists segs, None. unfold valid_raw. rewrite Hv. split_and!; [done|lia|done|done].
Qed.

(** A row's mounts are its leaves. *)
Lemma row_jobs_leaves row : row_ok row → job_leaf <$> (plain_jobs row ++ instance_jobs row) = row_leaves row.
Proof.
  intros (segs&idx&Ep&Hi&H0&_). unfold plain_jobs, instance_jobs, row_leaves. rewrite Ep. pose proof (parseProfilePath_ok _ _ _ Ep) as H. destruct idx as [k|].
  - destruct H as (l1&l2&->&->&Hl2&Hv&->&Hr). rewrite orb_true_r. cbn [app]. rewrite <-list_fmap_compose. apply list_fmap_ext.
    intros n i Hni. unfold compose, job_leaf, job_at, path_of, instance_job. cbn [fst snd]. apply list_elem_of_lookup_2, elem_of_seqZ in Hni.
    rewrite Hr by (apply Itoa_valid_segment; lia). f_equal. rewrite <-(Nat.add_0_r (length l1)), insert_app_r. done.
  - destruct H as [Hp ->]. rewrite (H0 eq_refl). cbn. unfold job_leaf, job_at, path_of. cbn [fst snd]. by rewrite Hp.
Qed.

Lemma flat_map_snoc {A B} (f : A → list B) (g : A → B) (l : list A) : flat_map (λ i, f i ++ [g i]) l ≡ₚ flat_map f l ++ (g <$> l).
Proof. induction l as [|x l IH]; [done|]. cbn [flat_map fmap list_fmap]. rewrite IH. solve_Permutation. Qed.
Lemma flat_map_Permutation {A B} (f : A → list B) l1 l2 : l1 ≡ₚ l2 → flat_map f l1 ≡ₚ flat_map f l2.
Proof. induction 1 as [|x l1 l2 H IH|x y l|l1 l2 l3 H1 IH1 H2 IH2]; cbn; [done|by rewrite IH|solve_Permutation|by etrans]. Qed.
Lemma flat_map_app_Permutation {A B} (f g : A → list B) (l : list A) : flat_map (λ x, f x ++ g x) l ≡ₚ flat_map f l ++ flat_map g l.
Proof. induction l as [|x l IH]; [done|]. cbn [flat_map]. rewrite IH. solve_Permutation. Qed.

(** Pass 1 gathers the template rows by their parents. *)
Definition groups_ok (seen : list profileParam) (m : gmap string tableGroup) : Prop :=
  (∀ key g, m !! key = Some g → key = joinPath (tgParent g) ∧ Forall (λ s, valid_segment s = true) (tgParent g) ∧
     tgRows g = template_rows (tgParent g) seen ∧ tgRows g ≠ [] ∧ Forall (λ r, ppInstances r = tgInstances g) (tgRows g)) ∧
  (∀ r p, r ∈ seen → parent_of r = Some p → is_Some (m !! joinPath p)).

Lemma parent_valid row p : parent_of row = Some p → Forall (λ s, valid_segment s = true) p ∧ is_template (ppPath row) = true.
Proof.
  unfold parent_of. destruct (parseProfilePath _) as [[segs [k|]]|] eqn:E; [|done..]. intros [= <-].
  apply parseProfilePath_ok in E as (l1&l2&->&->&_&[Hv _]%Forall_app&->&_). by rewrite take_app_length.
Qed.
Lemma parent_none row : row_ok row → parent_of row = None → is_template (ppPath row) = false.
Proof.
  intros (segs&idx&E&_). unfold parent_of. rewrite E. destruct idx; [done|]. by apply parseProfilePath_ok in E as [_ ?].
Qed.
Lemma template_rows_snoc p rows row :
  template_rows p (rows ++ [row]) = template_rows p rows ++ (if decide (parent_of row = Some p) then [row] else []).
Proof. unfold template_rows. rewrite filter_app. done. Qed.

Definition all_group_jobs (m : gmap string tableGroup) : list job := flat_map (λ kg, group_jobs kg.2) (map_to_list m).
Lemma join_group_ok seen m row p m' : groups_ok seen m → row_ok row → parent_of row = Some p → join_group row p m = Ok m' →
  groups_ok (seen ++ [row]) m' ∧ all_group_jobs m' ≡ₚ all_group_jobs m ++ instance_jobs row.
Proof.
  intros [H1 H2] Hok Hp. pose proof (parent_valid row p Hp) as [Hv Ht]. unfold join_group.
  assert (∀ key g, m !! key = Some g → key ≠ joinPath p → template_rows (tgParent g) (seen ++ [row]) = template_rows (tgParent g) seen) as Hother.
  { intros key g Hg Hk. rewrite template_rows_snoc, decide_False, app_nil_r; [done|]. rewrite Hp. intros [= Heq]. apply Hk. rewrite Heq. by apply (H1 key g Hg). }
  assert (∀ g', tgParent g' = p → tgRows g' = template_rows p seen ++ [row] → Forall (λ r, ppInstances r = tgInstances g') (tgRows g') →
    groups_ok (seen ++ [row]) (<[joinPath p := g']> m)) as Hnew.
  { intros g' Hg1 Hg2 Hg3. split.
    - intros key g. destruct (decide (joinPath p = key)) as [<-|Hk].
      + rewrite lookup_insert_eq. intros [= <-]. rewrite Hg1, template_rows_snoc, decide_True by done. split_and!; [done|done|done| |done]. rewrite Hg2. by destruct (template_rows p seen).
      + rewrite lookup_insert_ne by done. intros Hg. destruct (H1 key g Hg) as (?&?&?&?&?). rewrite (Hother key g) by done. done.
    - intros r q [Hr| ->%list_elem_of_singleton]%elem_of_app Hq.
      + destruct (H2 r q Hr Hq) as [g Hg]. destruct (decide (joinPath p = joinPath q)) as [->|]; [rewrite lookup_insert_eq; eauto|rewrite lookup_insert_ne; eauto].
      + rewrite Hp in Hq. injection Hq as <-. rewrite lookup_insert_eq. eauto. }
  destruct (m !! joinPath p) as [g|] eqn:Hm.
  - destruct (H1 _ g Hm) as (Hk&Hvg&Hrows&Hne&Hinst). apply joinPath_inj in Hk; [|done..]. rewrite <-Hk in *.
    destruct (Z.eqb_spec (tgInstances g) (ppInstances row)) as [Hi|]; [|done]. intros [= <-]. split.
    + apply Hnew; [done|by rewrite <-Hrows|]. cbn. apply Forall_app. split; [done|]. by repeat constructor.
    + unfold all_group_jobs. rewrite <-(insert_delete_id m (joinPath p) g Hm) at 2. rewrite <-insert_delete_eq.
      rewrite !(map_to_list_insert (delete _ m)) by apply lookup_delete_eq. cbn [flat_map snd].
      assert (group_jobs (MkGroup p (tgInstances g) (tgRows g ++ [row])) ≡ₚ group_jobs g ++ instance_jobs row) as ->; [|solve_Permutation].
      unfold group_jobs, instance_jobs. rewrite Ht, Hi. cbn [tgInstances tgRows]. rewrite <-flat_map_snoc. apply reflexive_eq.
      apply flat_map_ext. intros i. by rewrite fmap_app.
  - assert (template_rows p seen = []) as Hnil.
    { apply filter_none, Forall_forall. intros r Hr Hq. destruct (H2 r p Hr Hq) as [g Hg]. congruence. }
    intros [= <-]. split.
    + apply Hnew; [done|by rewrite Hnil|]. by repeat constructor.
    + unfold all_group_jobs. rewrite map_to_list_insert by done. cbn [flat_map snd].
      assert (group_jobs (MkGroup p (ppInstances row) [row]) = instance_jobs row) as ->; [|solve_Permutation].
      unfold group_jobs, instance_jobs. rewrite Ht. cbn [tgInstances tgRows]. induction (seqZ 1 (ppInstances row)) as [|i l IH]; [done|]. cbn [flat_map]. rewrite IH. done.
Qed.
Lemma groups_ok_plain seen m row : groups_ok seen m → parent_of row = None → groups_ok (seen ++ [row]) m.
Proof.
  intros [H1 H2] Hp. split.
  - intros key g Hg. rewrite template_rows_snoc, Hp, decide_False, app_nil_r by done. by apply H1.
  - intros r q [Hr| ->%list_elem_of_singleton]%elem_of_app Hq; [by eapply H2|congruence].
Qed.
Lemma check_rows_ok rows seen m m' : groups_ok seen m → check_rows rows m = Ok m' →
  Forall row_ok rows ∧ groups_ok (seen ++ rows) m' ∧ all_group_jobs m' ≡ₚ all_group_jobs m ++ flat_map instance_jobs rows.
Proof.
  revert seen m; induction rows as [|row rows IH]; intros seen m Hg; cbn [check_rows].
  { intros [= <-]. cbn. by rewrite !app_nil_r. }
  intros (parent&[Hok ->]%check_row_ok&(m1&Hm1&H)%result_bind_ok)%result_bind_ok.
  assert (groups_ok (seen ++ [row]) m1 ∧ all_group_jobs m1 ≡ₚ all_group_jobs m ++ instance_jobs row) as [Hg1 Hj1].
  { destruct (parent_of row) as [p|] eqn:Hp; [by apply (join_group_ok _ _ _ p)|]. injection Hm1 as <-. split; [by apply groups_ok_plain|].
    unfold instance_jobs. by rewrite (parent_none row Hok Hp), app_nil_r. }
  destruct (IH _ _ Hg1 H) as (HF&Hg'&Hj). split_and!; [by constructor|by rewrite cons_middle, app_assoc|].
  rewrite Hj, Hj1. cbn [flat_map]. by rewrite app_assoc.
Qed.

(** ** The tables *)

Definition table_of (kg : string * tableGroup) : segments * Node := (path_of kg.1, buildInstanceTemplate (tgRows kg.2)).
Definition tables_fit (L : gmap segments Value) (T : gmap segments Node) (l : list (string * tableGroup)) : Prop :=
  NoDup (table_of <$> l).*1 ∧ ∀ p, p ∈ (table_of <$> l).*1 → p ≠ [] ∧ free_table L T p.
Lemma tables_fit_cons L T kg l n :
  tables_fit L T (kg :: l) ↔ (path_of kg.1 ≠ [] ∧ free_table L T (path_of kg.1)) ∧ tables_fit L (<[path_of kg.1 := n]> T) l.
Proof.
  unfold tables_fit, free_table. rewrite !fmap_cons. cbn [table_of fst]. rewrite NoDup_cons. split.
  - intros ([Hn HN]&H). split; [apply H; left|]. split; [done|]. intros p Hp. rewrite lookup_insert_ne by (intros E; apply Hn; by rewrite E). apply H. by right.
  - intros (Hk&HN&H). split.
    + split; [|done]. intros Hp. destruct (H _ Hp) as (_&Hl&_). by rewrite lookup_insert_eq in Hl.
    + intros p [->|Hp]%elem_of_cons; [done|]. destruct (H p Hp) as (?&Hl&?). split_and!; [done| |done].
      destruct (decide (path_of kg.1 = p)) as [<-|Hne]; [by rewrite lookup_insert_eq in Hl|by rewrite lookup_insert_ne in Hl].
Qed.
Lemma registers l t L T : built t L T →
  match then_each register_table l t with
  | Ok t' => tables_fit L T l ∧ built t' L (list_to_map (table_of <$> l) ∪ T)
  | Err _ => ¬ tables_fit L T l
  end.
Proof.
  revert t T; induction l as [|kg l IH]; intros t T Hb.
  { cbn. rewrite (left_id_L ∅ (∪)). split; [|done]. split; [constructor|]. by intros p ?%elem_of_nil. }
  rewrite then_each_cons. pose proof (tables_fit_cons L T kg l (table_of kg).2) as Hfc.
  change (register_table kg t) with (match AddTable t kg.1 (Some (buildInstanceTemplate (tgRows kg.2))) with
    (_, _, Err e) => Err (profileErrAt (group_source kg.2) kg.1 e) | (t, _, Ok _) => Ok t end).
  assert (path_of kg.1 = [] → ∃ t' cs e, AddTable t kg.1 (Some (buildInstanceTemplate (tgRows kg.2))) = (t', cs, Err e)) as Hroot.
  { unfold path_of, AddTable. destruct (parsePath kg.1) as [[|]|]; [|done|]; intros _; by eexists _, _, _. }
  destruct (decide (path_of kg.1 = [])) as [He|Hne].
  { destruct (Hroot He) as (t'&cs&e&->). cbn [mbind result_bind]. tauto. }
  assert (parsePath kg.1 = Ok (path_of kg.1)) as Hp by (unfold path_of in *; by destruct (parsePath _)).
  pose proof (built_table t L T _ _ (buildInstanceTemplate (tgRows kg.2)) Hb Hp Hne) as H.
  destruct (AddTable _ _ _) as [[t' cs] [u|e]]; cbn [mbind result_bind]; [|tauto]. destruct H as [Hf Hb'].
  specialize (IH _ _ Hb'). destruct (then_each register_table l t') as [t''|e]; [|tauto]. destruct IH as [Hfit Hb'']. split; [tauto|].
  rewrite fmap_cons. cbn [list_to_map foldr table_of fst snd]. rewrite <-insert_union_l, insert_union_r; [done|].
  apply not_elem_of_list_to_map_1. intros Hin. assert (NoDup (table_of <$> kg :: l).*1) as HN by (by apply Hfc). rewrite !fmap_cons in HN. by inv HN.
Qed.

Section orders.
Context (range range' : gmap string tableGroup → list (string * tableGroup)).
Context (Hr : ∀ m, range m ≡ₚ map_to_list m) (Hr' : ∀ m, range' m ≡ₚ map_to_list m).

(** What the passes come to, whatever the two orders. *)
Lemma applyRows_spec rows :
  match check_rows rows ∅ with
  | Err _ => is_ok (applyRows range range' New_ rows) = false
  | Ok m =>
      match applyRows range range' New_ rows with
      | Ok t => fits ∅ (declared rows).*1 ∧ tables_fit (list_to_map (declared rows)) ∅ (map_to_list m) ∧
          built t (list_to_map (declared rows)) (list_to_map (table_of <$> map_to_list m))
      | Err _ => ¬ (fits ∅ (declared rows).*1 ∧ tables_fit (list_to_map (declared rows)) ∅ (map_to_list m))
      end
  end.
Proof.
  unfold applyRows. destruct (check_rows rows ∅) as [m|e] eqn:Em; [|done]. cbn [mbind result_bind].
  assert (groups_ok [] ∅) as H0 by (split; [intros ??; by rewrite lookup_empty|by intros ?? ?%elem_of_nil]).
  apply (check_rows_ok rows [] ∅ m H0) in Em as (HF&_&Hj). change (all_group_jobs ∅) with (@nil job) in Hj. cbn [app] in Hj.
  rewrite pass2_jobs. assert (∀ st : result error mounting, (s ← st; then_each (λ kg, mount_group kg.2) (range m) s) =
    (s ← st; then_each mount_job (flat_map (λ kg, group_jobs kg.2) (range m)) s)) as E3 by (intros [s|]; [apply pass3_jobs|done]).
  set (jobs := flat_map plain_jobs rows ++ flat_map (λ kg, group_jobs kg.2) (range m)).
  assert (∀ k : mounting → result error Tree,
    (s ← then_each mount_job (flat_map plain_jobs rows) (New_, ∅); s' ← then_each (λ kg, mount_group kg.2) (range m) s; k s') =
    (s ← then_each mount_job jobs (New_, ∅); k s)) as ->.
  { intros k. unfold jobs. rewrite then_each_app. destruct (then_each mount_job (flat_map plain_jobs rows) _) as [s|]; [|done]. cbn [mbind result_bind]. by rewrite pass3_jobs. }
  assert (job_leaf <$> jobs ≡ₚ declared rows) as Hd.
  { unfold jobs. rewrite (flat_map_Permutation _ _ _ (Hr m)). fold (all_group_jobs m). rewrite Hj, <-flat_map_app_Permutation.
    unfold declared. clear -HF. induction HF as [|row rows Hrow HF IH]; [done|]. cbn [flat_map]. by rewrite fmap_app, IH, row_jobs_leaves. }
  assert (job_at <$> jobs ≡ₚ (declared rows).*1) as Hd1 by (rewrite <-Hd, <-list_fmap_compose; done).
  pose proof (mounts jobs (New_, ∅) ∅) as Hms. destruct (then_each mount_job jobs _) as [st|e]; cbn [mbind result_bind].
  2:{ rewrite Hd1 in Hms. intros [Hfit _]. apply Hms; [|done]. split; [apply built_New|]. cbn. intros k [x Hx]. by rewrite lookup_empty in Hx. }
  destruct Hms as [Hfit [Hb _]]; [split; [apply built_New|]; cbn; intros k [x Hx]; by rewrite lookup_empty in Hx|].
  rewrite Hd1 in Hfit. rewrite (right_id_L ∅ (∪)) in Hb. assert (jobs_map jobs = list_to_map (declared rows)) as EL.
  { unfold jobs_map. apply list_to_map_proper; [|done]. rewrite <-list_fmap_compose. change (fst ∘ job_leaf) with job_at. rewrite Hd1. apply Hfit. }
  rewrite EL in Hb. pose proof (registers (range' m) st.1 _ ∅ Hb) as Hrg.
  assert (∀ l, l ≡ₚ map_to_list m → tables_fit (list_to_map (declared rows)) ∅ l ↔ tables_fit (list_to_map (declared rows)) ∅ (map_to_list m)) as Htp.
  { intros l Hl. unfold tables_fit. assert ((table_of <$> l).*1 ≡ₚ (table_of <$> map_to_list m).*1) as HP by (by rewrite Hl). rewrite HP.
    split; intros [HN H]; (split; [done|]); intros p Hp; apply H; [rewrite HP|rewrite <-HP]; done. }
  destruct (then_each register_table (range' m) st.1) as [t|e]; [|rewrite (Htp _ (Hr' m)) in Hrg; tauto].
  destruct Hrg as [Hft Hbt]. split; [done|]. split; [by apply (Htp _ (Hr' m))|]. rewrite (right_id_L ∅ (∪)) in Hbt.
  assert (list_to_map (table_of <$> map_to_list m) = (list_to_map (table_of <$> range' m) : gmap segments Node)) as ->; [|done].
  apply list_to_map_proper; [|by rewrite Hr']. apply (Htp _ (Hr' m)), Hft.
Qed.
End orders.

(** ** The templates *)

(** The segments after the mark, and the leaf a template row stands for. The
    dot a path may end with is a last, empty segment. *)
Fixpoint after_mark (segs : list string) : list string :=
  match segs with [] => [] | s :: rest => if String.eqb s "{i}" then rest else after_mark rest end.
Definition template_leaf (row : profileParam) : segments * Value :=
  (after_mark (Strings.Split (ppPath row) "."), MkValue (ppType row) (ppValue row) (ppWritable row)).
(** A leaf at, above or below one before it is left out. *)
Definition in_the_way (p q : segments) : bool := bool_decide (p `prefix_of` q) || bool_decide (q `prefix_of` p).
Definition keep_leaf (l : list (segments * Value)) (x : segments * Value) : list (segments * Value) :=
  if existsb (λ y, in_the_way x.1 y.1) l then l else l ++ [x].
Definition template_leaves (rows : list profileParam) : list (segments * Value) := foldl keep_leaf [] (template_leaf <$> rows).
(** These leaves, the branches above them, and no table. *)
Definition holds_exactly (tmpl : Node) (l : list (segments * Value)) : Prop :=
  NoDup l.*1 ∧ (∀ q v, leaf_at q tmpl = Some v ↔ (q, v) ∈ l) ∧
  (∀ q, is_Some (node_at q tmpl) ↔ q = [] ∨ ∃ p, q `prefix_of` p ∧ p ∈ l.*1) ∧
  ∀ q n, node_at q tmpl = Some n → table n = None.

Lemma template_put_branch s s' rest v n : isLeaf n = false →
  template_put (s :: s' :: rest) v n =
  set_children (<[s := template_put (s' :: rest) v (default NewBranch (children n !! s))]> (children n)) n.
Proof. intros Hl. cbn [template_put]. destruct (children n !! s) eqn:E; [done|]. unfold Attach. by rewrite Hl, E. Qed.
Lemma template_put_leaf segs v n : isLeaf n = true → ∀ q, info_at q (template_put segs v n) = info_at q n.
Proof.
  intros Hl q. destruct segs as [|s [|s' rest]]; [done|cbn; unfold Attach; by rewrite Hl|].
  cbn [template_put]. destruct (children n !! s); [|unfold Attach; by rewrite Hl]. destruct q as [|x q]; [done|].
  rewrite !info_cons. change (isLeaf (set_children _ n)) with (isLeaf n). by rewrite Hl.
Qed.
Lemma open_NewBranch p : p ≠ [] → open_for p (λ q, info_at q NewBranch).
Proof.
  intros Hp. split; [by rewrite info_NewBranch, decide_False|]. intros q _ v tb. rewrite info_NewBranch. by case_decide.
Qed.

(** A row of a template is like a mount, but that one refused changes nothing. *)
Lemma template_put_info segs v n : segs ≠ [] →
  (open_for segs (λ q, info_at q n) ∧ ∀ q, info_at q (template_put segs v n) = after_mount segs v (λ q, info_at q n) q) ∨
  (¬ open_for segs (λ q, info_at q n) ∧ ∀ q, info_at q (template_put segs v n) = info_at q n).
Proof.
  revert n. induction segs as [|s segs IH]; intros n; [done|]. intros _. destruct (isLeaf n) eqn:Hl.
  { right. split; [|by apply template_put_leaf]. apply isLeaf_true in Hl as [w Hw]. intros [_ H].
    apply (H [] (prefix_nil _) w (table n)). by rewrite info_nil, Hw. }
  destruct segs as [|s' rest].
  - pose proof (mount_go_info "" [] s v n) as H. cbn [mount_go app] in H. cbn [template_put]. unfold Attach. rewrite Hl in *.
    destruct (children n !! s); [right; by split|by left].
  - rewrite template_put_branch by done. specialize (IH (default NewBranch (children n !! s)) ltac:(done)).
    assert (open_for (s' :: rest) (λ q, info_at q (default NewBranch (children n !! s))) ↔ open_for (s :: s' :: rest) (λ q, info_at q n)) as Hop.
    { unfold open_for. by rewrite (no_leaf_above s n Hl), (child_info s n Hl) by done. }
    destruct IH as [[Ho Hi]|[Ho Hi]]; [left|right]; (split; [by rewrite <-Hop|]); intros q; rewrite info_insert by done.
    + unfold after_mount. destruct q as [|x q].
      { rewrite decide_False by done. rewrite decide_True by apply prefix_nil. by rewrite info_nil. }
      case_decide as Hx; [subst x|].
      * rewrite Hi. unfold after_mount. destruct (decide (q = s' :: rest)) as [->|Hq]; [by rewrite decide_True|].
        rewrite (decide_False (P := s :: q = _)) by congruence. destruct (decide (q `prefix_of` s' :: rest)) as [Hp|Hp].
        -- rewrite decide_True by (by apply prefix_cons). f_equal. by apply child_default.
        -- rewrite decide_False by (by intros ?%prefix_cons_inv_2). apply child_info; [done|]. intros ->. apply Hp, prefix_nil.
      * rewrite decide_False by congruence. rewrite decide_False; [done|]. intros ?%prefix_cons_inv_1. congruence.
    + destruct q as [|x q]; [done|]. case_decide as Hx; [subst x|done]. rewrite Hi, info_child by done.
      destruct (children n !! s); [done|]. exfalso. by apply Ho, open_NewBranch.
Qed.

Lemma in_the_way_free (l : list (segments * Value)) p :
  existsb (λ y, in_the_way p y.1) l = false ↔ free (list_to_map l) (∅ : gmap segments Node) p.
Proof.
  unfold free. assert (∀ x, x ∈ dom (list_to_map l : gmap segments Value) ↔ x ∈ l.*1) as Hd.
  { intros x. rewrite dom_list_to_map, elem_of_list_to_set. done. }
  rewrite <-not_true_iff_false, existsb_exists. split.
  - intros H. split; intros x Hx Hp; apply H.
    + rewrite dom_empty_L, (right_id_L ∅ (∪)), Hd in Hx. apply list_elem_of_fmap in Hx as (y&->&Hy). exists y. split; [by apply list_elem_of_In|].
      unfold in_the_way. by rewrite bool_decide_true.
    + rewrite Hd in Hx. apply list_elem_of_fmap in Hx as (y&->&Hy). exists y. split; [by apply list_elem_of_In|].
      unfold in_the_way. by rewrite (bool_decide_true (y.1 `prefix_of` p)), orb_true_r.
  - intros [H1 H2] (y&Hy%list_elem_of_In&Hw). unfold in_the_way in Hw. apply orb_true_iff in Hw as [Hw%bool_decide_eq_true|Hw%bool_decide_eq_true].
    + apply (H1 y.1); [|done]. apply elem_of_union_l, Hd, list_elem_of_fmap. by exists y.
    + apply (H2 y.1); [|done]. apply Hd, list_elem_of_fmap. by exists y.
Qed.

Lemma template_go rows n (l : list (segments * Value)) :
  Forall (λ row, ∃ p, drop (S (mark_index (Strings.Split (ppPath row) "."))) (Strings.Split (ppPath row) ".") = p ∧
    after_mark (Strings.Split (ppPath row) ".") = p ∧ p ≠ []) rows →
  NoDup l.*1 → (∀ q, info_at q n = expected (list_to_map l) ∅ q) →
  NoDup (foldl keep_leaf l (template_leaf <$> rows)).*1 ∧
  ∀ q, info_at q (foldl template_row n rows) = expected (list_to_map (foldl keep_leaf l (template_leaf <$> rows))) ∅ q.
Proof.
  intros HF. revert n l. induction HF as [|row rows (p&Ep&Ea&Hne) HF IH]; intros n l HN Hn; [done|]. cbn [foldl fmap list_fmap].
  assert (template_leaf row = (p, row_value row (ppValue row))) as -> by (unfold template_leaf; by rewrite Ea).
  assert (template_row n row = template_put p (row_value row (ppValue row)) n) as -> by (unfold template_row; by rewrite Ep).
  assert (keep_leaf l (p, row_value row (ppValue row)) =
    if existsb (λ y, in_the_way p y.1) l then l else l ++ [(p, row_value row (ppValue row))]) as -> by done.
  apply IH.
  - destruct (existsb _ l) eqn:Ew; [done|]. rewrite fmap_app. apply NoDup_app. split; [done|]. split; [|apply NoDup_singleton].
    intros x Hx ->%list_elem_of_singleton. apply in_the_way_free in Ew as [_ Ew]. apply (Ew p); [|done].
    by rewrite dom_list_to_map, elem_of_list_to_set.
  - intros q.
    assert (open_for p (λ q, info_at q n) ↔ open_for p (expected (list_to_map l) ∅)) as Hop.
    { unfold open_for. rewrite Hn. split; intros [H1 H2]; (split; [done|]); intros y Hy; specialize (H2 y Hy); [rewrite <-Hn|rewrite Hn]; done. }
    destruct (template_put_info p (row_value row (ppValue row)) n Hne) as [[Ho Hi]|[Ho Hi]]; rewrite Hop, open_for_free, <-in_the_way_free in Ho by done.
    + rewrite Ho, Hi. apply in_the_way_free in Ho. rewrite list_to_map_snoc.
      * rewrite <-after_mount_built by done. unfold after_mount. by rewrite Hn.
      * intros Hx. destruct Ho as [_ Ho]. apply (Ho p); [|done]. by rewrite dom_list_to_map, elem_of_list_to_set.
    + apply not_false_iff_true in Ho. by rewrite Ho, Hi.
Qed.

Lemma mark_index_app l1 l2 : Forall (λ s, valid_segment s = true) l1 → mark_index (l1 ++ tmark :: l2) = length l1.
Proof.
  induction 1 as [|s l1 Hs H IH]; [done|]. cbn [app mark_index length]. destruct (String.eqb_spec s tmark) as [->|_]; [done|].
  assert (existsb (String.eqb tmark) (l1 ++ tmark :: l2) = true) as ->; [|by rewrite IH]. apply existsb_exists. exists tmark. split; [|done].
  apply in_app_iff. right. by left.
Qed.
Lemma Split_dot s : Strings.Split (s +:+ ".") "." = Strings.Split s "." ++ [""].
Proof.
  pose proof (Strings.Join_Split s ".") as E. pose proof (Strings.Split_nonempty s ".") as Hne. pose proof (Strings.Split_segments_no_byte s ".") as Hv.
  rewrite <-E at 1. revert Hne Hv. generalize (Strings.Split s "."). clear. induction l as [|x l IH]; intros Hne Hv; [done|].
  apply Forall_cons in Hv as [Hx Hv]. destruct l as [|y l].
  - change (Strings.Join [x] "." +:+ ".") with (x +:+ String "." ""). by rewrite Strings.Split_app.
  - change (Strings.Join (x :: y :: l) "." +:+ ".") with ((x +:+ String "." (Strings.Join (y :: l) ".")) +:+ ".").
    rewrite str_app_assoc. change (String "." (Strings.Join (y :: l) ".") +:+ ".") with (String "." (Strings.Join (y :: l) "." +:+ ".")).
    rewrite Strings.Split_app by done. by rewrite IH.
Qed.
(** The segments a template row's path has, the last one perhaps empty. *)
Lemma template_row_segments row p : parent_of row = Some p →
  ∃ q, drop (S (mark_index (Strings.Split (ppPath row) "."))) (Strings.Split (ppPath row) ".") = q ∧
    after_mark (Strings.Split (ppPath row) ".") = q ∧ q ≠ [].
Proof.
  unfold parent_of. destruct (parseProfilePath (ppPath row)) as [[segs [k|]]|] eqn:E; [|done..]. intros _.
  pose proof (parseProfilePath_ok _ _ _ E) as (l1&l2&El&_&Hl2&[Hv _]%Forall_app&_).
  assert (∃ tl, Strings.Split (ppPath row) "." = l1 ++ tmark :: l2 ++ tl) as [tl ->].
  { revert E. unfold parseProfilePath. destruct (String.eqb_spec (Strings.TrimSuffix (ppPath row) ".") "") as [|Hne]; [done|].
    intros (r&_&H)%result_bind_ok. destruct (bool_decide _); [done|]. injection H as Hs _. rewrite El in Hs.
    destruct (Strings.TrimSuffix_cases (ppPath row) ".") as [E|[E _]].
    - exists [""]. rewrite E. rewrite Split_dot, Hs. by rewrite <-app_assoc.
    - exists []. rewrite <-E at 1. rewrite Hs. by rewrite app_nil_r. }
  rewrite mark_index_app by done. exists (l2 ++ tl). split; [|split; [|by destruct l2]].
  - rewrite cons_middle, app_assoc, drop_app_length'; [done|]. rewrite length_app. cbn. lia.
  - clear -Hv. induction Hv as [|s l1 Hs _ IH]; [done|]. cbn. by destruct (String.eqb_spec s "{i}") as [->|_].
Qed.

Lemma template_built p rows : holds_exactly (buildInstanceTemplate (template_rows p rows)) (template_leaves (template_rows p rows)).
Proof.
  unfold buildInstanceTemplate, template_leaves.
  assert (∀ l : list profileParam, (∀ row, row ∈ l → parent_of row = Some p) → Forall (λ row, ∃ q,
    drop (S (mark_index (Strings.Split (ppPath row) "."))) (Strings.Split (ppPath row) ".") = q ∧
    after_mark (Strings.Split (ppPath row) ".") = q ∧ q ≠ []) l) as HF.
  { intros l Hl. apply Forall_forall. intros row Hrow. by apply (template_row_segments row p), Hl. }
  destruct (template_go (template_rows p rows) NewBranch []) as [HN Hi].
  - apply HF. by intros row [? _]%list_elem_of_filter.
  - constructor.
  - apply built_New.
  - set (l := foldl keep_leaf [] _) in *. set (n := foldl template_row _ _) in *. split; [done|].
    assert (∀ q, q ∈ dom (list_to_map l : gmap segments Value) ↔ q ∈ l.*1) as Hd.
    { intros q. by rewrite dom_list_to_map, elem_of_list_to_set. }
    split; [|split].
    + intros q v. assert (leaf_at q n = info_at q n ≫= fst) as -> by (unfold leaf_at, info_at; by destruct (node_at q n)).
      rewrite Hi. unfold expected. rewrite (elem_of_list_to_map _ q v HN). destruct (_ !! q); [done|]. by case_decide.
    + intros q. assert (is_Some (node_at q n) ↔ is_Some (info_at q n)) as -> by (unfold info_at; by rewrite fmap_is_Some).
      rewrite Hi. unfold expected. assert (above (list_to_map l) ∅ q ↔ q = [] ∨ ∃ p, q `prefix_of` p ∧ p ∈ l.*1) as <-.
      { unfold above, set_Exists. rewrite dom_empty_L. setoid_rewrite (right_id_L ∅ (∪)). setoid_rewrite Hd. naive_solver. }
      destruct (_ !! q) as [v|] eqn:E.
      * split; [intros _|by eexists]. right. exists q. split; [|done]. apply elem_of_union_l, elem_of_dom. by eexists.
      * case_decide as Ha; [split; [done|by eexists]|]. split; [by intros [? ?]|done].
    + intros q m Hm. specialize (Hi q). unfold info_at, expected in Hi. rewrite Hm in Hi. cbn in Hi.
      destruct (_ !! q); [by injection Hi|]. case_decide; [|done]. injection Hi as _ ->. apply lookup_empty.
Qed.

(** ** What a profile's rows become *)

Lemma tables_of_rows rows m q : groups_ok rows m → NoDup (table_of <$> map_to_list m).*1 →
  (list_to_map (table_of <$> map_to_list m) : gmap segments Node) !! q =
  match template_rows q rows with [] => None | rs => Some (buildInstanceTemplate rs) end.
Proof.
  intros [H1 H2] HN.
  assert (∀ key g, m !! key = Some g → table_of (key, g) = (tgParent g, buildInstanceTemplate (template_rows (tgParent g) rows))) as Ht.
  { intros key g Hg. destruct (H1 key g Hg) as (->&Hv&<-&_). unfold table_of, path_of. cbn [fst snd]. by rewrite parsePath_joinPath. }
  destruct (template_rows q rows) as [|r rs] eqn:E.
  - apply not_elem_of_list_to_map_1. intros (x&->&([key g]&->&Hkg)%list_elem_of_fmap)%list_elem_of_fmap.
    apply elem_of_map_to_list in Hkg. rewrite (Ht _ _ Hkg) in E. cbn in E. destruct (H1 _ _ Hkg) as (_&_&Hrs&Hne&_). congruence.
  - assert (r ∈ template_rows q rows) as [Hq Hr]%list_elem_of_filter by (rewrite E; left).
    destruct (H2 r q Hr Hq) as [g Hg]. pose proof (proj1 (parent_valid r q Hq)) as Hv.
    destruct (H1 _ _ Hg) as (Hk&Hvg&_). apply joinPath_inj in Hk; [|done..]. apply elem_of_list_to_map_1; [done|]. rewrite <-E.
    apply list_elem_of_fmap. exists (joinPath q, g). split; [by rewrite (Ht _ _ Hg), <-Hk|by apply elem_of_map_to_list].
Qed.

(** C21. When the rows of a profile load into an empty tree, the leaves of the
    tree are exactly those the rows declare, with their type, value and access:
    one for a plain row and, for a row with a mark, one for each instance from 1
    on, its number in place of the mark in path and value; none twice. Every other
    node lies above a leaf or a table. The tables are the parents of the marks,
    and the template of one holds exactly the leaves its rows name after the
    mark, with type, value and access, and the branches above them; of two rows
    of one table that name the same leaf, or one below the other, the first
    counts (with an instance they would not load). A template path that
    ends in a dot ends in an empty segment there. *)
Theorem applyRows_exact (range range' : gmap string tableGroup → list (string * tableGroup))
  (Hr : ∀ m, range m ≡ₚ map_to_list m) (Hr' : ∀ m, range' m ≡ₚ map_to_list m)
  (rows : list profileParam) (t : Tree) (H : applyRows range range' New_ rows = Ok t) :
  NoDup (declared rows).*1 ∧ (∀ q v, view t q = Some v ↔ (q, v) ∈ declared rows) ∧
  (∀ q, is_Some (node_at q (root t)) ↔ q = [] ∨ ∃ p, q `prefix_of` p ∧ (p ∈ (declared rows).*1 ∨ template_rows p rows ≠ [])) ∧
  (∀ q n, node_at q (root t) = Some n →
     match table n with
     | None => template_rows q rows = []
     | Some tmpl => template_rows q rows ≠ [] ∧ holds_exactly tmpl (template_leaves (template_rows q rows))
     end).
Proof.
  pose proof (applyRows_spec range range' Hr Hr' rows) as S. destruct (check_rows rows ∅) as [m|e] eqn:Em; [|by rewrite H in S].
  rewrite H in S. destruct S as ((_&HN&_)&[HNt Hft]&Hb).
  assert (groups_ok [] ∅) as H0 by (split; [intros ??; by rewrite lookup_empty|by intros ?? ?%elem_of_nil]).
  apply (check_rows_ok rows [] ∅ m H0) in Em as (_&Hg&_). cbn [app] in Hg.
  pose proof (λ q, tables_of_rows rows m q Hg HNt) as HT. unfold built in Hb.
  set (L := list_to_map (declared rows) : gmap segments Value) in *. set (T := list_to_map (table_of <$> map_to_list m) : gmap segments Node) in *.
  assert (∀ p, p ∈ dom L ↔ p ∈ (declared rows).*1) as HL by (intros p; unfold L; rewrite dom_list_to_map, elem_of_list_to_set; done).
  assert (∀ p, p ∈ dom T ↔ template_rows p rows ≠ []) as HdT.
  { intros p. rewrite elem_of_dom, HT. destruct (template_rows p rows) as [|r rs]; (split; [intros [x Hx]|intros Hx]); try done; by eexists. }
  split; [done|]. split; [|split].
  - intros q v. rewrite info_view, Hb. unfold expected. rewrite (elem_of_list_to_map _ q v HN). fold L. destruct (L !! q); [done|]. by case_decide.
  - intros q. assert (is_Some (node_at q (root t)) ↔ is_Some (expected L T q)) as ->.
    { rewrite <-Hb. unfold info_at. by rewrite fmap_is_Some. }
    assert (above L T q ↔ q = [] ∨ ∃ p, q `prefix_of` p ∧ (p ∈ (declared rows).*1 ∨ template_rows p rows ≠ [])) as <-.
    { unfold above, set_Exists. setoid_rewrite elem_of_union. setoid_rewrite HL. setoid_rewrite HdT. naive_solver. }
    unfold expected. destruct (L !! q) as [v|] eqn:E.
    + split; [intros _|by eexists]. right. exists q. split; [apply elem_of_union_l, elem_of_dom; by exists v|done].
    + case_decide as Ha; [split; [done|by eexists]|]. split; [by intros [? ?]|done].
  - intros q n Hn. assert (table n = T !! q) as ->.
    2:{ rewrite HT. pose proof (template_built q rows) as Hq. by destruct (template_rows q rows). }
    specialize (Hb q). unfold info_at, expected in Hb. rewrite Hn in Hb. cbn in Hb. destruct (L !! q) as [v|] eqn:E.
    + injection Hb as _ ->. destruct (T !! q) as [x|] eqn:Et; [|done]. exfalso.
      assert (q ∈ (table_of <$> map_to_list m).*1) as Hq.
      { apply elem_of_list_to_map_2 in Et. apply list_elem_of_fmap. by exists (q, x). }
      destruct (Hft q Hq) as (_&_&Hlf). apply (Hlf q); [apply elem_of_dom; by exists v|done].
    + case_decide; [|done]. by injection Hb as _ ->.
Qed.

(** C23. The order in which Go ranges over the groups of rows is not observable:
    if the rows load in one order they load in every other, and the two trees
    have the same nodes, values and templates. *)
Theorem applyRows_order (range1 range1' range2 range2' : gmap string tableGroup → list (string * tableGroup))
  (H1 : ∀ m, range1 m ≡ₚ map_to_list m) (H1' : ∀ m, range1' m ≡ₚ map_to_list m)
  (H2 : ∀ m, range2 m ≡ₚ map_to_list m) (H2' : ∀ m, range2' m ≡ₚ map_to_list m)
  (rows : list profileParam) (t : Tree) (H : applyRows range1 range1' New_ rows = Ok t) :
  ∃ t', applyRows range2 range2' New_ rows = Ok t' ∧ ∀ q, info_at q (root t') = info_at q (root t).
Proof.
  pose proof (applyRows_spec range1 range1' H1 H1' rows) as S1. pose proof (applyRows_spec range2 range2' H2 H2' rows) as S2.
  destruct (check_rows rows ∅) as [m|e]; [|by rewrite H in S1]. rewrite H in S1. destruct S1 as (Hf&Ht&Hb).
  destruct (applyRows range2 range2' New_ rows) as [t'|e]; [|by destruct S2]. exists t'. split; [done|]. intros q. destruct S2 as (_&_&Hb'). by rewrite Hb, Hb'.
Qed.

Definition ex_row (path typ value : string) (instances : option Z) : profileParam :=
  applyDefaults (MkRawParam path (Some typ) (Some value) None instances None) "p.yaml".
Definition ex_rows : list profileParam :=
  [ex_row "Device.Name" TypeString "gw" None; ex_row "Device.Host.{i}.IP" TypeString "10.0.0.{i}" (Some 2%Z);
   ex_row "Device.Map.{i}.Port" TypeUnsignedInt "80" (Some 0%Z); ex_row "Device.Host.{i}.Up" TypeBoolean "true" (Some 2%Z)].
Definition ex_range (m : gmap string tableGroup) : list (string * tableGroup) := reverse (map_to_list m).
Lemma ex_range_perm m : ex_range m ≡ₚ map_to_list m.
Proof. apply reverse_Permutation. Qed.
Definition ex_tree_of (rows : list profileParam) : Tree :=
  match applyRows map_to_list map_to_list New_ rows with Ok t => t | Err _ => New_ end.

Lemma ex_rows_load : applyRows map_to_list map_to_list New_ ex_rows = Ok (ex_tree_of ex_rows).
Proof. vm_compute. reflexivity. Qed.

Lemma ex_declared : declared ex_rows = [(["Device"; "Name"], MkValue TypeString "gw" false); (["Device"; "Host"; "1"; "IP"], MkValue TypeString "10.0.0.1" false);
  (["Device"; "Host"; "2"; "IP"], MkValue TypeString "10.0.0.2" false); (["Device"; "Host"; "1"; "Up"], MkValue TypeBoolean "true" false);
  (["Device"; "Host"; "2"; "Up"], MkValue TypeBoolean "true" false)].
Proof. vm_compute. reflexivity. Qed.
Lemma ex_template : template_leaves (template_rows ["Device"; "Host"] ex_rows) =
  [(["IP"], MkValue TypeString "10.0.0.{i}" false); (["Up"], MkValue TypeBoolean "true" false)].
Proof. vm_compute. reflexivity. Qed.
Lemma applyRows_exact_witness :
  let t := ex_tree_of ex_rows in
  view t ["Device"; "Host"; "2"; "IP"] = Some (MkValue TypeString "10.0.0.2" false) ∧ view t ["Device"; "Host"; "3"; "IP"] = None ∧
  ∀ n tmpl, node_at ["Device"; "Host"] (root t) = Some n → table n = Some tmpl → leaf_at ["IP"] tmpl = Some (MkValue TypeString "10.0.0.{i}" false).
Proof.
  destruct (applyRows_exact map_to_list map_to_list (λ _, reflexivity _) (λ _, reflexivity _) ex_rows (ex_tree_of ex_rows) ex_rows_load) as (_&Hv&_&Ht).
  rewrite ex_declared in Hv. split; [apply Hv; do 2 right; left|split].
  - destruct (view _ _) as [v|] eqn:Ev; [|reflexivity]. apply Hv in Ev. rewrite !elem_of_cons in Ev. by destruct Ev as [?|[?|[?|[?|[?|?%elem_of_nil]]]]].
  - intros n tmpl Hn Htb. apply Ht in Hn. rewrite Htb, ex_template in Hn. destruct Hn as (_&_&Hl&_). apply Hl. left.
Defined.
Lemma applyRows_order_witness :
  ∃ t, applyRows ex_range ex_range New_ ex_rows = Ok t ∧ info_at ["Device"; "Map"] (root t) = info_at ["Device"; "Map"] (root (ex_tree_of ex_rows)).
Proof.
  destruct (applyRows_order map_to_list map_to_list ex_range ex_range (λ _, reflexivity _) (λ _, reflexivity _) ex_range_perm ex_range_perm
    ex_rows (ex_tree_of ex_rows) ex_rows_load) as (t&E&H).
  exists t. split; [exact E|apply H].
Defined.

(** ** Well-typed profiles *)

Lemma cut_none_open s sub : no_open s = true → Strings.CutStr s (String "{" sub) = None.
Proof.
  induction s as [|c s IH]; [done|]. intros [Hc Hs]%no_open_cons. cbn [Strings.CutStr].
  change (Strings.TrimPrefix_go (String c s) (String "{" sub)) with (if Ascii.eqb "{" c then Strings.TrimPrefix_go s sub else None).
  by rewrite Ascii.eqb_sym, Hc, IH.
Qed.
Lemma sample_plain s : no_open s = true → samplePickPlaceholders s = s.
Proof. intros H. unfold samplePickPlaceholders. cbn [sample_loop]. rewrite (cut_none_open s "cpe:pick:" H). by rewrite (cut_none_open s "cpe:rpick:" H). Qed.
Lemma ReplaceAll_plain s x : no_open s = true → ReplaceAll s tmark x = s.
Proof. intros H. unfold ReplaceAll. cbn [ReplaceAll_go]. by rewrite CutStr_none. Qed.

Lemma then_each_inv {A S} (I : S → Prop) (f : A → S → result error S) l s s' :
  (∀ x s s', x ∈ l → I s → f x s = Ok s' → I s') → I s → then_each f l s = Ok s' → I s'.
Proof.
  revert s; induction l as [|x l IH]; intros s Hf Hs; [by intros [= <-]|]. rewrite then_each_cons. intros (s1&H1&H)%result_bind_ok.
  eapply IH; [|by eapply (Hf x s); [left|..]|exact H]. intros y s2 s3 Hy. apply Hf. by right.
Qed.

(** A row whose value holds no placeholder, and whose path, when it is a
    template, does not end in a dot. *)
Definition plain_row (row : profileParam) : Prop :=
  no_open (ppValue row) = true ∧ (is_template (ppPath row) = true → Strings.HasSuffix (ppPath row) "." = false).
Lemma plain_row_value row : row_ok row → plain_row row → wf_value (row_value row (ppValue row)).
Proof.
  intros (segs&idx&_&_&_&Hv) [Hp _]. unfold wf_value, row_value. cbn [vType Raw]. destruct idx; [rewrite ReplaceAll_plain in Hv by done|]; by rewrite sample_plain in Hv.
Qed.
Lemma wf_mount_leaf path raw row st st' : wf_value (row_value row raw) → wf_tree st.1 → mount_leaf path raw row st = Ok st' → wf_tree st'.1.
Proof.
  intros Hv Hw. unfold mount_leaf. destruct (st.2 !! path); [done|]. pose proof (construction_keeps_wf st.1 path _ Hw (wf_NewLeaf _ Hv)) as [H _].
  destruct (Mount st.1 path _) as [[t cs] [u|e]]; [|done]. by intros [= <-].
Qed.
Lemma template_put_cons s s' rest v n : template_put (s :: s' :: rest) v n =
  match children n !! s with
  | Some child => set_children (<[s := template_put (s' :: rest) v child]> (children n)) n
  | None => match Attach n s (template_put (s' :: rest) v NewBranch) with Ok n' => n' | Err _ => n end
  end.
Proof. done. Qed.
Lemma wf_template_put segs v n : Forall (λ s, valid_segment s = true) segs → wf_value v → wf_node n → wf_node (template_put segs v n).
Proof.
  intros Hs Hv. revert n; induction Hs as [|s segs Hseg Hs IH]; intros n Hn; [done|].
  assert (∀ c, wf_node c → wf_node (match Attach n s c with Ok n' => n' | Err _ => n end)) as Hatt.
  { intros c Hc. unfold Attach. destruct (isLeaf n) eqn:Hl; [done|]. destruct (children n !! s); [done|]. by apply wf_insert_child. }
  destruct segs as [|s' segs]; [by apply Hatt, wf_NewLeaf|]. rewrite template_put_cons. destruct (children n !! s) as [c|] eqn:Hc.
  - pose proof (wf_node_inv _ Hn) as (Hch&Hlf&_). destruct (Hch s c Hc) as [_ Hwc].
    apply wf_insert_child; [done| |done|by apply IH]. apply isLeaf_false. destruct (leaf n) as [w|] eqn:El; [|done]. destruct (Hlf w eq_refl) as (_&E&_). by rewrite E in Hc.
  - apply Hatt, IH, wf_NewBranch.
Qed.
Lemma wf_template rows : Forall (λ row, row_ok row ∧ plain_row row ∧ is_template (ppPath row) = true) rows → wf_node (buildInstanceTemplate rows).
Proof.
  intros HF. unfold buildInstanceTemplate. assert (∀ n, wf_node n → wf_node (foldl template_row n rows)) as H; [|apply H, wf_NewBranch].
  induction HF as [|row rows (Hok&Hp&Ht) HF IH]; intros n Hn; [done|]. cbn [foldl]. apply IH. unfold template_row.
  pose proof (plain_row_value row Hok Hp) as Hv. destruct Hok as (segs&idx&E&_). destruct Hp as [_ Hd]. pose proof (parseProfilePath_ok _ _ _ E) as Hpath.
  destruct idx as [k|]; [|destruct Hpath as [_ Hf]; congruence]. destruct Hpath as (l1&l2&El&_&_&[H1 H2]%Forall_app&_).
  assert (Strings.Split (ppPath row) "." = segs) as ->.
  { revert E. unfold parseProfilePath. rewrite (Strings.TrimSuffix_no_suffix _ _ (Hd Ht)). destruct (String.eqb _ _); [done|].
    intros (r&_&H)%result_bind_ok. destruct (bool_decide _); [done|]. by injection H. }
  rewrite El, mark_index_app by done. apply wf_template_put; [|done|done]. rewrite cons_middle, app_assoc, drop_app_length'; [done|].
  rewrite length_app. cbn. lia.
Qed.

(** A profile without placeholders loads into a well-typed tree, templates
    included: every leaf holds a value its type accepts, and so will every row
    added later. *)
Theorem rows_well_typed (range range' : gmap string tableGroup → list (string * tableGroup))
  (Hr : ∀ m, range m ≡ₚ map_to_list m) (Hr' : ∀ m, range' m ≡ₚ map_to_list m)
  (rows : list profileParam) (t : Tree) (Hp : Forall plain_row rows) (H : applyRows range range' New_ rows = Ok t) : wf_tree t.
Proof.
  unfold applyRows in H. apply result_bind_ok in H as (m&Hm&(st2&H2&(st3&H3&H4)%result_bind_ok)%result_bind_ok).
  assert (groups_ok [] ∅) as H0 by (split; [intros ??; by rewrite lookup_empty|by intros ?? ?%elem_of_nil]).
  apply (check_rows_ok rows [] ∅ m H0) in Hm as (HF&[Hg _]&_). cbn [app] in Hg. rewrite Forall_forall in HF, Hp.
  assert (∀ kg row, kg ∈ map_to_list m → row ∈ tgRows kg.2 → row ∈ rows ∧ is_template (ppPath row) = true) as Hin.
  { intros [key g] row Hkg%elem_of_map_to_list Hrow. destruct (Hg _ _ Hkg) as (_&_&E&_). cbn [snd] in Hrow. rewrite E in Hrow.
    apply list_elem_of_filter in Hrow as [Hq Hrow]. split; [done|]. by apply parent_valid in Hq as [_ ?]. }
  assert (wf_tree st2.1) as W2.
  { refine (then_each_inv (λ st, wf_tree st.1) mount_plain rows (New_, ∅) st2 _ wf_NewBranch H2). intros row s s' Hrow Hs. unfold mount_plain.
    destruct (_ || _); [by intros [= <-]|]. apply wf_mount_leaf; [|done]. by apply plain_row_value; [apply HF|apply Hp]. }
  assert (wf_tree st3.1) as W3.
  { eapply (then_each_inv (λ st, wf_tree st.1)); [|exact W2|exact H3]. intros kg s s' Hkg Hs.
    refine (then_each_inv (λ st, wf_tree st.1) _ _ s s' _ Hs). intros i s1 s1' _ Hs1.
    refine (then_each_inv (λ st, wf_tree st.1) _ _ s1 s1' _ Hs1). intros row s2 s2' Hrow Hs2. rewrite Hr in Hkg. destruct (Hin kg row Hkg Hrow) as [Hrin _].
    unfold mount_instance. apply wf_mount_leaf; [|done]. destruct (Hp _ Hrin) as [Hno ?]. rewrite ReplaceAll_plain by done. by apply plain_row_value; [apply HF|split]. }
  eapply (then_each_inv wf_tree); [|exact W3|exact H4]. intros kg s s' Hkg Hs. rewrite Hr' in Hkg. unfold register_table.
  assert (wf_node (buildInstanceTemplate (tgRows kg.2))) as Hwt.
  { apply wf_template, Forall_forall. intros row Hrow. destruct (Hin kg row Hkg Hrow) as [Hrin ?]. split_and!; [by apply HF|by apply Hp|done]. }
  pose proof (construction_keeps_wf s kg.1 _ Hs Hwt) as [_ Hw]. destruct (AddTable s kg.1 _) as [[t' cs] [u|e]]; [|done]. by intros [= <-].
Qed.
Definition ex_plain_rows : list profileParam :=
  [ex_row "Device.Name" TypeString "gw" None; ex_row "Device.Host.{i}.Up" TypeBoolean "true" (Some 2%Z)].
Lemma rows_well_typed_witness : wf_tree (ex_tree_of ex_plain_rows) ∧ is_ok (Get (ex_tree_of ex_plain_rows) "Device.Host.2.Up") = true.
Proof.
  split; [|vm_compute; reflexivity].
  refine (rows_well_typed map_to_list map_to_list (λ _, reflexivity _) (λ _, reflexivity _) ex_plain_rows _ _ _).
  - repeat constructor; vm_compute; try reflexivity; by intros [=].
  - vm_compute. reflexivity.
Defined.

(** ** What loads although it should not *)

(** A value with a mark is checked for the first instance only: the sixth holds
    a number above the ceiling of its type. *)
Lemma ill_typed_instance :
  let t := ex_tree_of [ex_row "N.{i}.Max" TypeUnsignedInt "429496729{i}" (Some 6%Z)] in
  Get t "N.6.Max" = Ok (MkValue TypeUnsignedInt "4294967296" false) ∧ valid_raw TypeUnsignedInt "4294967296" = false.
Proof. split; vm_compute; reflexivity. Qed.
(** A template keeps the mark: a row added later holds text in a number. *)
Lemma added_row_ill_typed :
  let t := ex_tree_of [ex_row "N.{i}.Max" TypeUnsignedInt "{i}" (Some 1%Z)] in
  let '(t, _, r) := AddObject t "N." in
  (r, Get t "N.2.Max", valid_raw TypeUnsignedInt "{i}") = (Ok 2%Z, Ok (MkValue TypeUnsignedInt "{i}" false), false).
Proof. vm_compute. reflexivity. Qed.
(** A trailing dot is accepted and dropped when the instances are mounted, but
    not when their template is built: an added row has a leaf without a name
    below the leaf's name. *)
Lemma trailing_dot_template :
  let t := ex_tree_of [ex_row "N.{i}.Name." TypeString "x" (Some 1%Z)] in
  let '(t, _, r) := AddObject t "N." in
  (Raw <$> Get t "N.1.Name", is_ok (Get t "N.2.Name"), Raw <$> view t ["N"; "2"; "Name"; ""]) = (Ok "x", false, Some "x").
Proof. vm_compute. reflexivity. Qed.
(** Two declarations of one path collide only when an instance is mounted: in
    an empty table the second is dropped. *)
Lemma empty_table_hides_duplicates :
  let rows n := [ex_row "N.{i}.Name" TypeString "x" (Some n); ex_row "N.{i}.Name" TypeString "y" (Some n)] in
  let load n := applyRows map_to_list map_to_list New_ (rows n) in
  (is_ok (load 1%Z), is_ok (load 0%Z),
   match load 0%Z with Ok t => (λ n, Raw <$> leaf_at ["Name"] n) <$> (node_at ["N"] (root t) ≫= table) | Err _ => None end) = (false, true, Some (Some "x")).
Proof. vm_compute. reflexivity. Qed.
