(* ===== verification/Blocks.v ===== *)
(** * Profile blocks checked against the tree: bulk data, diagnostics and
    software modules ([internal/paramtree/bulkdata.go], [diagnostic.go],
    [validateSoftwareModules] of [app.go]).

    A tree a block fails to mount on is not used again, so the error is
    returned alone. *)
From Stdlib Require Import ZArith Lia Ascii String.
From S2P Require Import Prelude GoLib GoText GoAuth CpeErr Types Node Tree Objects Listing SoftwareModules Fleet Rows.

(** ** Bulk data *)

Record BulkDataConfig := MkBulkData {
  bdRoot : string; bdProtocols : string; bdEncodingTypes : string; bdMinReportingInterval : Z;
  bdMaxNumberOfProfiles : Z; bdMaxNumberOfParameterReferences : Z; bdParameterWildCardSupported : bool
}.
Definition rawBulkData : Type := BulkDataConfig.
Definition boolRaw (b : bool) : string := if b then "1" else "0".

(** A leaf to put somewhere: name, type, value, writable. *)
Definition leaf_spec : Type := string * Type_ * string * bool.
Definition spec_leaf (l : leaf_spec) : Node := let '(_, typ, raw, w) := l in NewLeaf (MkValue typ raw w).
Definition attach_leaf (l : leaf_spec) (n : Node) : result error Node := Attach n l.1.1.1 (spec_leaf l).
Definition text_leaf (name : string) : leaf_spec := (name, TypeString, "", true).
Definition name_reference : result error Node := then_each attach_leaf [text_leaf "Name"; text_leaf "Reference"] NewBranch.

Definition http_leaves : list leaf_spec :=
  [("URL", TypeString, "", true); ("Username", TypeString, "", true); ("Password", TypeString, "", true);
   ("CompressionsSupported", TypeString, "GZIP,Compress,Deflate", false); ("Compression", TypeString, "None", true);
   ("MethodsSupported", TypeString, "POST,PUT", false); ("Method", TypeString, "POST", true);
   ("UseDateHeader", TypeBoolean, "1", true); ("RetryEnable", TypeBoolean, "1", true);
   ("RetryMinimumWaitInterval", TypeUnsignedInt, "5", true); ("RetryIntervalMultiplier", TypeUnsignedInt, "2000", true);
   ("RequestURIParameterNumberOfEntries", TypeUnsignedInt, "0", false)].
Definition bulkDataHTTPTemplate : result error Node :=
  http ← then_each attach_leaf http_leaves NewBranch;
  uriParam ← name_reference;
  Attach http "RequestURIParameter" (NewTable uriParam).
Definition profile_leaves : list leaf_spec :=
  [("Enable", TypeBoolean, "0", true); ("Name", TypeString, "", true); ("NumberOfRetainedFailedReports", TypeInt, "0", true);
   ("Protocol", TypeString, "", true); ("EncodingType", TypeString, "", true); ("ReportingInterval", TypeUnsignedInt, "86400", true);
   ("TimeReference", TypeDateTime, "0001-01-01T00:00:00Z", true); ("ParameterNumberOfEntries", TypeUnsignedInt, "0", false);
   ("X_0000C5_Status", TypeString, "Disabled", false)].
Definition json_leaves : list leaf_spec :=
  [("ReportFormat", TypeString, "ObjectHierarchy", true); ("ReportTimestamp", TypeString, "Unix-Epoch", true)].
Definition bulkDataProfileTemplate : result error Node :=
  profile ← then_each attach_leaf profile_leaves NewBranch;
  json ← then_each attach_leaf json_leaves NewBranch;
  profile ← Attach profile "JSONEncoding" json;
  http ← bulkDataHTTPTemplate;
  profile ← Attach profile "HTTP" http;
  nameRef ← name_reference;
  Attach profile "Parameter" (NewTable nameRef).

Definition mounting_ok (r : outcome unit) : result error Tree := match r with (t, _, Ok _) => Ok t | (_, _, Err e) => Err e end.
Definition capability_leaves (cfg : BulkDataConfig) : list leaf_spec :=
  [("Enable", TypeBoolean, "0", true); ("Status", TypeString, "Disabled", false);
   ("MinReportingInterval", TypeUnsignedInt, Strconv.Itoa (bdMinReportingInterval cfg), false);
   ("Protocols", TypeString, bdProtocols cfg, false); ("EncodingTypes", TypeString, bdEncodingTypes cfg, false);
   ("ParameterWildCardSupported", TypeBoolean, boolRaw (bdParameterWildCardSupported cfg), false);
   ("MaxNumberOfProfiles", TypeInt, Strconv.Itoa (bdMaxNumberOfProfiles cfg), false);
   ("MaxNumberOfParameterReferences", TypeInt, Strconv.Itoa (bdMaxNumberOfParameterReferences cfg), false);
   ("ProfileNumberOfEntries", TypeUnsignedInt, "0", false)].
Definition mount_spec (base : string) (l : leaf_spec) (t : Tree) : result error Tree :=
  mounting_ok (Mount t (base +:+ "." +:+ l.1.1.1) (spec_leaf l)).
Definition MountBulkData (t : Tree) (cfg : BulkDataConfig) : result error Tree :=
  let root := Strings.TrimSuffix (bdRoot cfg) "." in
  if String.eqb root "" then Err (errorf "bulkData: root is empty" [])
  else
    let base := root +:+ ".BulkData" in
    t ← mounting_ok (Mount t base NewBranch);
    t ← then_each (mount_spec base) (capability_leaves cfg) t;
    profile ← bulkDataProfileTemplate;
    t ← mounting_ok (Mount t (base +:+ ".Profile") NewBranch);
    mounting_ok (AddTable t (base +:+ ".Profile") (Some profile)).

Definition validateBulkData (source : string) (raw : rawBulkData) : result error BulkDataConfig :=
  if String.eqb (bdRoot raw) "" then Err (errorf "%s: bulkData.root is required" [source])
  else if negb (String.eqb (bdRoot raw) "InternetGatewayDevice" || String.eqb (bdRoot raw) "Device") then
    Err (errorf "%s: bulkData.root %q is not a data model root" [source; bdRoot raw])
  else if String.eqb (bdProtocols raw) "" then Err (errorf "%s: bulkData.protocols is required" [source])
  else if String.eqb (bdEncodingTypes raw) "" then Err (errorf "%s: bulkData.encodingTypes is required" [source])
  else if (bdMinReportingInterval raw <? 1)%Z then Err (errorf "%s: bulkData.minReportingInterval must be at least 1" [source])
  else if (bdMaxNumberOfProfiles raw =? 0)%Z || (bdMaxNumberOfProfiles raw <? -1)%Z then
    Err (errorf "%s: bulkData.maxNumberOfProfiles must be -1 or a positive count" [source])
  else if (bdMaxNumberOfParameterReferences raw =? 0)%Z || (bdMaxNumberOfParameterReferences raw <? -1)%Z then
    Err (errorf "%s: bulkData.maxNumberOfParameterReferences must be -1 or a positive count" [source])
  else Ok raw.

(** ** Durations *)

Section durations.
(** [time.ParseDuration] and the [String] of a duration. *)
Context (ParseDuration : string → result error Z) (Duration_String : Z → string).

(** An optional duration of a block: [unset] when the text is empty; [what] is
    how the block names it. *)
Definition parse_delay (source what : string) (raw : string) (unset : Z) : result error Z :=
  if String.eqb raw "" then Ok unset
  else match ParseDuration raw with
       | Err e => Err (Errorf ("%s: " +:+ what +:+ " %q: %w") [source; raw] (Some e))
       | Ok d => if (d <? 0)%Z then Err (errorf ("%s: " +:+ what +:+ " must be >= 0, got %s") [source; Duration_String d]) else Ok d
       end.

(** ** Diagnostics *)

Record DiagnosticConfig := MkDiagnostic {
  dgStatePath : string; dgTrigger : string; dgComplete : string; dgDuration : Z; dgCountPath : string; dgResultCount : Z
}.
Record rawDiagnostic := MkRawDiagnostic {
  rdStatePath : string; rdTrigger : string; rdComplete : string; rdDuration : string; rdCountPath : string; rdResultCount : Z
}.
Definition parseDiagnostic (t : Tree) (raw : rawDiagnostic) (where_ : string) : result error DiagnosticConfig :=
  if String.eqb (rdStatePath raw) "" then Err (errorf "%s: statePath is required" [where_])
  else
    _ ← map_err (λ e, Errorf "%s: statePath %q: %w" [where_; rdStatePath raw] (Some e)) (Get t (rdStatePath raw));
    let trigger := if String.eqb (rdTrigger raw) "" then "Requested" else rdTrigger raw in
    let complete := if String.eqb (rdComplete raw) "" then "Complete" else rdComplete raw in
    if String.eqb trigger complete then
      Err (errorf "%s: trigger and complete are both %q, so a run could never be observed to finish" [where_; trigger])
    else
      duration ← (if String.eqb (rdDuration raw) "" then Ok (5 * 1000000000)%Z
                  else match ParseDuration (rdDuration raw) with
                       | Err e => Err (Errorf "%s: duration %q: %w" [where_; rdDuration raw] (Some e))
                       | Ok d => if (d <? 0)%Z then Err (errorf "%s: duration must not be negative, got %s" [where_; Duration_String d]) else Ok d
                       end);
      _ ← (if String.eqb (rdCountPath raw) "" then Ok tt
           else _ ← map_err (λ e, Errorf "%s: countPath %q: %w" [where_; rdCountPath raw] (Some e)) (Get t (rdCountPath raw));
                if (rdResultCount raw <? 0)%Z
                then Err (errorf "%s: resultCount must not be negative, got %d" [where_; Strconv.Itoa (rdResultCount raw)]) else Ok tt);
      Ok (MkDiagnostic (rdStatePath raw) trigger complete duration (rdCountPath raw) (rdResultCount raw)).

(** ** Software modules *)

Record rawSoftwareModules := MkRawModules {
  rsPath : string; rsInstallDelay : string; rsUninstallDelay : string; rsFaults : gmap string SoftwareModuleFault
}.
Definition SoftwareModuleFaultReasons : list string := ["server-unreachable"; "corrupt"; "ee-mismatch"; "resources-exceeded"].
Definition defaultSoftwareModuleInstallDelay : Z := 5 * 1000000000.
Definition defaultSoftwareModuleUninstallDelay : Z := 1000000000.

Fixpoint check_tables (t : Tree) (source path : string) (tables : list string) : result error unit :=
  match tables with
  | [] => Ok tt
  | table :: rest =>
      match Children t (path +:+ table) with
      | Err e => Err (Errorf "%s: softwareModules.path %q has no %s table: %w" [source; path; table] (Some e))
      | Ok _ => check_tables t source path rest
      end
  end.
Fixpoint check_faults (source : string) (l : list (string * SoftwareModuleFault)) : result error unit :=
  match l with
  | [] => Ok tt
  | (name, f) :: rest =>
      if existsb (λ r, String.eqb r (smReason f)) SoftwareModuleFaultReasons then check_faults source rest
      else Err (errorf "%s: softwareModules.faults[%q].reason %q is not one of %s"
                  [source; name; smReason f; Strings.Join SoftwareModuleFaultReasons ", "])
  end.
Definition validateSoftwareModules (t : Tree) (source : string) (raw : rawSoftwareModules) : result error Config :=
  if String.eqb (rsPath raw) "" then
    Err (errorf "%s: softwareModules.path is required (no TR-181 / TR-098 default; name the object explicitly)" [source])
  else if negb (Strings.HasSuffix (rsPath raw) ".") then
    Err (errorf "%s: softwareModules.path %q must end with '.'" [source; rsPath raw])
  else
    _ ← check_tables t source (rsPath raw) [SoftwareModulesExecEnvTable; SoftwareModulesDeploymentUnitTable; SoftwareModulesExecutionUnitTable];
    match Children t (rsPath raw +:+ SoftwareModulesExecEnvTable) with
    | Err _ | Ok [] =>
        Err (errorf "%s: softwareModules.path %q declares no %s{i}. instance; an install needs an execution environment"
               [source; rsPath raw; SoftwareModulesExecEnvTable])
    | Ok _ =>
        install ← parse_delay source "softwareModules.installDelay" (rsInstallDelay raw) defaultSoftwareModuleInstallDelay;
        uninstall ← parse_delay source "softwareModules.uninstallDelay" (rsUninstallDelay raw) defaultSoftwareModuleUninstallDelay;
        _ ← check_faults source (map_to_list (rsFaults raw));
        Ok (MkConfig (rsPath raw) install uninstall (rsFaults raw))
    end.
End durations.
