(* ===== verification/Loader.v ===== *)
(** * The profile loader ([mergeFiles], [crossCheckInformParameters],
    [LoadProfileFromReader], [loadProfileDir], [LoadProfile] of
    [internal/paramtree/profile.go]; [LoadAppManifest] and [rejectAppHeader] of
    [app.go]).

    A file is what the YAML decoder makes of it; the decoder, the file system,
    [time.ParseDuration], [net] and [%q] are parameters. Where Go ranges over a
    map the order decides at most which error is reported; it is the order of
    the literal, or of the map's keys, except for the groups of rows, whose order
    is a parameter too. *)
From Stdlib Require Import ZArith Lia Ascii String SpecFloat.
From S2P Require Import Prelude GoLib GoText GoAuth GoFloat CpeErr Types Node Tree Objects Listing Inform Scheduler Generators Firmware LinkFault Schedules SoftwareModules Fleet Rows Blocks.

(** ** Files *)

(** The lists of [informParameters]; a missing one is [None]. *)
Record rawInformParameters := MkRawInform {
  riBootstrap : option (list string); riBoot : option (list string); riPeriodic : option (list string);
  riValueChange : option (list string); riConnectionRequest : option (list string); riTransferComplete : option (list string)
}.
Definition rawDeviceIDPaths : Type := DeviceIDPaths.
Record rawTransfer := MkRawTransfer { rtDefaultDelay : string; rtFaults : gmap string TransferFault; rtFirmware : option rawFirmware }.
Record rawConnectionRequest := MkRawCR {
  rcScheme : string; rcRealm : string; rcThrottleWindow : string; rcUsernameParameter : string; rcPasswordParameter : string
}.
Record ConnectionRequestConfig := MkCR { crScheme : string; crRealm : string; crThrottleWindow : Z; crUsername : string; crPassword : string }.
Record ACSCredentialPaths := MkACS { acsUsername : string; acsPassword : string }.
Record rawFleet := MkRawFleet { rfCount : Z; rfOffset : Z; rfSerialPattern : string; rfPools : gmap string FleetPool }.
Record FleetConfig := MkFleet { fcCount : Z; fcOffset : Z; fcSerialPattern : string; fcPools : gmap string FleetPool }.
Record rawEventSchedule := MkRawEvents { reRebootDelay : string; reFactoryResetDelay : string; reBootDelay : string; reBootRamp : string }.
Record EventScheduleConfig := MkEvents { evRebootDelay : Z; evFactoryResetDelay : Z; evBootDelay : Z; evBootRamp : Z }.
Definition rawApp : Type := App.

Record profile := MkProfile {
  prParameters : list rawProfileParam; prObjects : list rawObject; prGroups : list rawGroup;
  prInformParameters : option rawInformParameters; prDeviceIDPaths : option rawDeviceIDPaths; prTransfer : option rawTransfer;
  prConnectionRequest : option rawConnectionRequest; prPeriodicInformPaths : option PeriodicInformPaths;
  prACSCredentialPaths : option ACSCredentialPaths; prDeferredParameters : list string; prGenerators : list rawGenerator;
  prFleet : option rawFleet; prEventSchedule : option rawEventSchedule; prDiagnostics : list rawDiagnostic;
  prSoftwareModules : option rawSoftwareModules; prBulkData : option rawBulkData; prFaults : option (option rawLinkFault);
  prApp : option rawApp
}.
Record loadedFile := MkFile { lfPath : string; lfProf : profile }.

Record mergedConfig := MkMerged {
  mcInformValues : gmap string (list string); mcInformSources : gmap string string; mcDeviceIDPaths : DeviceIDPaths;
  mcTransfer : TransferConfig; mcConnectionRequest : ConnectionRequestConfig; mcPeriodicInformPaths : PeriodicInformPaths;
  mcACSCredentialPaths : ACSCredentialPaths; mcDeferredParameters : list string; mcGenerators : list GeneratorConfig;
  mcFleet : FleetConfig; mcEventSchedule : EventScheduleConfig; mcDiagnostics : list DiagnosticConfig;
  mcSoftwareModules : option Config; mcLinkFault : option LinkFaultConfig
}.

Definition invalid (e : error) : error := Wrap "paramtree.LoadProfile" KindInvalidArgument (Some e).

(** ** A block that one file may declare *)

(** [src] is the file that declared it, empty when none has. *)
Fixpoint once_go {R C} (name : string) (field : profile → option R) (accept : string → R → C → result error C)
  (files : list loadedFile) (c : C) (src : string) : result error (C * string) :=
  match files with
  | [] => Ok (c, src)
  | lf :: rest =>
      match field (lfProf lf) with
      | None => once_go name field accept rest c src
      | Some raw =>
          if negb (String.eqb src "") then Err (invalid (errorf ("%s and %s both declare " +:+ name) [src; lfPath lf]))
          else c ← map_err invalid (accept (lfPath lf) raw c); once_go name field accept rest c (lfPath lf)
      end
  end.
Definition once {R C} (name : string) (field : profile → option R) (accept : string → R → C → result error C)
  (files : list loadedFile) (c : C) : result error (C * string) := once_go name field accept files c "".

(** The leaf a block names: there, of a type, writable. *)
Definition known_leaf (t : Tree) (source what path : string) : result error Value :=
  map_err (λ e, Errorf ("%s: " +:+ what +:+ " references unknown path %q: %w") [source; path] (Some e)) (Get t path).
Definition writable_leaf (t : Tree) (source what path : string) (typ : Type_) (mismatch : Value → error) : result error unit :=
  v ← known_leaf t source what path;
  if negb (String.eqb (vType v) typ) then Err (mismatch v)
  else if negb (Writable v) then Err (errorf ("%s: " +:+ what +:+ " path %q must be writable") [source; path])
  else Ok tt.
Definition must_be (source what path : string) (typ : Type_) (v : Value) : error :=
  errorf ("%s: " +:+ what +:+ " path %q must be %s, got %s") [source; path; typ; vType v].
Definition typed_leaf (t : Tree) (source what path : string) (typ : Type_) : result error unit :=
  writable_leaf t source what path typ (must_be source what path typ).

(** ** Rows *)

(** The rows of a file with the file they come from. *)
Section rows.
Context (Quote : string → string).
Definition file_rows (lf : loadedFile) : result error (list (rawProfileParam * string)) :=
  objects ← map_err invalid (expandObjects Quote (prObjects (lfProf lf)) (lfPath lf));
  groups ← map_err invalid (expandGroups Quote (prGroups (lfProf lf)) (lfPath lf));
  Ok ((λ raw, (raw, lfPath lf)) <$> prParameters (lfProf lf) ++ objects ++ groups).
Fixpoint all_rows (files : list loadedFile) : result error (list (rawProfileParam * string)) :=
  match files with
  | [] => Ok []
  | lf :: rest => rows ← file_rows lf; more ← all_rows rest; Ok (rows ++ more)
  end.
End rows.

(** ** informParameters *)

Definition inform_entries (ip : rawInformParameters) : list (string * string * option (list string)) :=
  [("bootstrap", "0 BOOTSTRAP", riBootstrap ip); ("boot", "1 BOOT", riBoot ip); ("periodic", "2 PERIODIC", riPeriodic ip);
   ("valueChange", "4 VALUE CHANGE", riValueChange ip); ("connectionRequest", "6 CONNECTION REQUEST", riConnectionRequest ip);
   ("transferComplete", "7 TRANSFER COMPLETE", riTransferComplete ip)].
Abbreviation informs := (gmap string (list string) * gmap string string)%type.
Definition inform_entry (path : string) (e : string * string * option (list string)) (agg : informs) : result error informs :=
  let '(key, code, vals) := e in
  match vals with
  | None => Ok agg
  | Some vals =>
      match agg.2 !! code with
      | Some prev => Err (invalid (errorf "%s and %s both declare informParameters.%s" [prev; path; key]))
      | None => Ok (<[code := vals]> agg.1, <[code := path]> agg.2)
      end
  end.
Definition inform_file (lf : loadedFile) (agg : informs) : result error informs :=
  match prInformParameters (lfProf lf) with
  | None => Ok agg
  | Some ip => then_each (inform_entry (lfPath lf)) (inform_entries ip) agg
  end.
Definition merge_inform (files : list loadedFile) : result error informs := then_each inform_file files (∅, ∅).
Definition check_inform (t : Tree) (src code path : string) : result error unit :=
  match Get t path with
  | Err e => Err (invalid (Errorf "%s: informParameters event %q references unknown path %q: %w" [src; code; path] (Some e)))
  | Ok _ => Ok tt
  end.
Definition crossCheckInformParameters (t : Tree) (agg : informs) : result error unit :=
  then_each (λ '(code, paths) _, then_each (λ p _, check_inform t (default "" (agg.2 !! code)) code p) paths tt) (map_to_list agg.1) tt.

(** ** The blocks *)

Definition accept_ids (t : Tree) (source : string) (dp : rawDeviceIDPaths) (_ : DeviceIDPaths) : result error DeviceIDPaths :=
  if String.eqb (Manufacturer dp) "" || String.eqb (OUI dp) "" || String.eqb (ProductClass dp) "" || String.eqb (SerialNumber dp) "" then
    Err (errorf "%s: deviceIdPaths must declare manufacturer, oui, productClass, and serialNumber" [source])
  else
    _ ← known_leaf t source "deviceIdPaths.manufacturer" (Manufacturer dp);
    _ ← known_leaf t source "deviceIdPaths.oui" (OUI dp);
    _ ← known_leaf t source "deviceIdPaths.productClass" (ProductClass dp);
    _ ← known_leaf t source "deviceIdPaths.serialNumber" (SerialNumber dp);
    Ok dp.

Section durations.
Context (ParseDuration : string → result error Z) (Duration_String : Z → string) (Quote : string → string).

Definition accept_transfer (t : Tree) (source : string) (tr : rawTransfer) (c : TransferConfig) : result error TransferConfig :=
  d ← (if String.eqb (rtDefaultDelay tr) "" then Ok (DefaultDelay c)
       else map_err (λ e, Errorf "%s: transfer.defaultDelay %q: %w" [source; rtDefaultDelay tr] (Some e)) (ParseDuration (rtDefaultDelay tr)));
  fw ← match rtFirmware tr with
       | None => Ok (FirmwareBlock c)
       | Some raw => Some <$> validateFirmware ParseDuration Duration_String t source raw
       end;
  Ok (MkTransferConfig d (rtFaults tr) fw).

Definition required (source name advice scheme value : string) : result error unit :=
  if String.eqb value "" then
    Err (errorf ("%s: connectionRequest." +:+ name +:+ " is required when scheme=%q" +:+ advice) [source; scheme])
  else Ok tt.
Definition accept_cr (t : Tree) (source : string) (raw : rawConnectionRequest) (_ : ConnectionRequestConfig) : result error ConnectionRequestConfig :=
  let scheme := ToLower (Space.TrimSpace (rcScheme raw)) in
  if negb (String.eqb scheme "") && negb (String.eqb scheme "basic") && negb (String.eqb scheme "digest") then
    Err (errorf "%s: connectionRequest.scheme %q unsupported (want basic|digest|empty)" [source; rcScheme raw])
  else
    window ← parse_delay ParseDuration Duration_String source "connectionRequest.throttleWindow" (rcThrottleWindow raw) 0;
    _ ← (if String.eqb scheme "" then Ok tt
         else
           _ ← required source "realm" "" scheme (rcRealm raw);
           _ ← required source "usernameParameter" " (no TR-181 default; supply the parameter-tree path explicitly)" scheme (rcUsernameParameter raw);
           _ ← required source "passwordParameter" " (no TR-181 default; supply the parameter-tree path explicitly)" scheme (rcPasswordParameter raw);
           let check what path :=
             writable_leaf t source what path TypeString
               (λ v, errorf ("%s: " +:+ what +:+ " path %q must be a string leaf, got %s") [source; path; vType v]) in
           _ ← check "connectionRequest.usernameParameter" (rcUsernameParameter raw);
           check "connectionRequest.passwordParameter" (rcPasswordParameter raw));
    Ok (MkCR scheme (rcRealm raw) window (rcUsernameParameter raw) (rcPasswordParameter raw)).

Definition accept_periodic (t : Tree) (source : string) (raw : PeriodicInformPaths) (_ : PeriodicInformPaths) : result error PeriodicInformPaths :=
  if String.eqb (pInterval raw) "" || String.eqb (pEnable raw) "" then
    Err (errorf "%s: periodicInformPaths must declare both interval and enable (no TR-181 default; supply both parameter-tree paths explicitly)" [source])
  else
    _ ← typed_leaf t source "periodicInformPaths.interval" (pInterval raw) TypeUnsignedInt;
    _ ← typed_leaf t source "periodicInformPaths.enable" (pEnable raw) TypeBoolean;
    _ ← (if String.eqb (pTime raw) "" then Ok tt else typed_leaf t source "periodicInformPaths.time" (pTime raw) TypeDateTime);
    Ok raw.

Definition accept_acs (t : Tree) (source : string) (raw : ACSCredentialPaths) (_ : ACSCredentialPaths) : result error ACSCredentialPaths :=
  if String.eqb (acsUsername raw) "" || String.eqb (acsPassword raw) "" then
    Err (errorf "%s: acsCredentialPaths must declare both username and password" [source])
  else
    _ ← typed_leaf t source "acsCredentialPaths.username" (acsUsername raw) TypeString;
    _ ← typed_leaf t source "acsCredentialPaths.password" (acsPassword raw) TypeString;
    Ok raw.

(** [deferredParameters] is a union: the list is also what has been seen. *)
Definition defer (t : Tree) (source path : string) (deferred : list string) : result error (list string) :=
  v ← map_err (λ e, invalid (Errorf "%s: deferredParameters references unknown path %q: %w" [source; path] (Some e))) (Get t path);
  if negb (Writable v) then Err (invalid (errorf "%s: deferredParameters path %q must be writable" [source; path]))
  else Ok (if bool_decide (path ∈ deferred) then deferred else deferred ++ [path]).
Definition merge_deferred (t : Tree) (files : list loadedFile) : result error (list string) :=
  then_each (λ lf, then_each (defer t (lfPath lf)) (prDeferredParameters (lfProf lf))) files [].

Definition accept_events (source : string) (raw : rawEventSchedule) (c : EventScheduleConfig) : result error EventScheduleConfig :=
  let parse what := parse_delay ParseDuration Duration_String source ("eventSchedule." +:+ what) in
  r ← parse "rebootDelay" (reRebootDelay raw) (evRebootDelay c);
  f ← parse "factoryResetDelay" (reFactoryResetDelay raw) (evFactoryResetDelay c);
  b ← parse "bootDelay" (reBootDelay raw) (evBootDelay c);
  m ← parse "bootRamp" (reBootRamp raw) (evBootRamp c);
  Ok (MkEvents r f b m).

Definition prLink (p : profile) : option rawLinkFault := prFaults p ≫= id.
Definition accept_link (t : Tree) (source : string) (raw : rawLinkFault) (_ : option LinkFaultConfig) : result error (option LinkFaultConfig) :=
  Some <$> parseLinkFault ParseDuration Duration_String t raw (source +:+ ": faults.link").

(** ** Generators and diagnostics *)

(** The configurations so far, and the file that declared each path. *)
Record animated := MkAnimated {
  anGenerators : list GeneratorConfig; anGenSource : gmap string string;
  anDiagnostics : list DiagnosticConfig; anDiagSource : gmap string string
}.
Definition duration_opt (s : string) : option Z := match ParseDuration s with Ok d => Some d | Err _ => None end.
Definition add_generator (t : Tree) (source where_ : string) (raw : rawGenerator) (a : animated) : result error animated :=
  match anGenSource a !! rPath raw with
  | Some prev => Err (invalid (errorf "%s: duplicate generator path; already declared in %s" [where_; prev]))
  | None =>
      gen ← map_err invalid (validateGenerator duration_opt t where_ raw);
      Ok (MkAnimated (anGenerators a ++ [gen]) (<[rPath raw := source]> (anGenSource a)) (anDiagnostics a) (anDiagSource a))
  end.
Definition listed_generator (t : Tree) (source : string) (ir : nat * rawGenerator) (a : animated) : result error animated :=
  let '(i, raw) := ir in
  let where_ := source +:+ ": generators[" +:+ Strconv.Itoa (Z.of_nat i) +:+ "] (path=" +:+ Quote (rPath raw) +:+ ")" in
  if String.eqb (rPath raw) "" then Err (invalid (errorf "%s: path is required" [where_]))
  else add_generator t source where_ raw a.
Definition add_diagnostic (t : Tree) (source : string) (raw : rawDiagnostic) (a : animated) : result error animated :=
  let where_ := source +:+ ": diagnostic " +:+ Quote (rdStatePath raw) in
  match anDiagSource a !! rdStatePath raw with
  | Some prev => Err (invalid (errorf "%s: duplicate diagnostic statePath; already declared in %s" [where_; prev]))
  | None =>
      diag ← map_err invalid (parseDiagnostic ParseDuration Duration_String t raw where_);
      Ok (MkAnimated (anGenerators a) (anGenSource a) (anDiagnostics a ++ [diag]) (<[rdStatePath raw := source]> (anDiagSource a)))
  end.
Definition animate_file (t : Tree) (lf : loadedFile) (a : animated) : result error animated :=
  a ← then_each (listed_generator t (lfPath lf)) (imap pair (prGenerators (lfProf lf))) a;
  then_each (add_diagnostic t (lfPath lf)) (prDiagnostics (lfProf lf)) a.

(** The paths of an inline generator: its row's, for every instance. *)
Definition inline_paths (source : string) (raw : rawProfileParam) : result error (list string) :=
  if is_template (rpPath raw) then
    let instances := default 0%Z (rpInstances raw) in
    if (instances <? 1)%Z then
      Err (invalid (errorf "%s: parameter (path=%q): inline generator on {i} path requires instances >= 1" [source; rpPath raw]))
    else Ok ((λ j, ReplaceAll (rpPath raw) tmark (Strconv.Itoa j)) <$> seqZ 1 instances)
  else Ok [rpPath raw].
Definition inline_generator (t : Tree) (source : string) (ig : rawInlineGenerator) (p : string) : animated → result error animated :=
  add_generator t source (source +:+ ": parameter (path=" +:+ Quote p +:+ ").generator")
    (MkRaw p (igType ig) (igInterval ig) (igMin ig) (igMax ig) (igStep ig) (igJitter ig) (igStepMax ig) (igValues ig) (igMode ig)).
Definition inline_row (t : Tree) (rs : rawProfileParam * string) (a : animated) : result error animated :=
  match rpGenerator rs.1 with
  | None => Ok a
  | Some ig => paths ← inline_paths rs.2 rs.1; then_each (inline_generator t rs.2 ig) paths a
  end.
Definition merge_animated (t : Tree) (files : list loadedFile) (rows : list (rawProfileParam * string)) : result error animated :=
  a ← then_each (animate_file t) files (MkAnimated [] ∅ [] ∅);
  then_each (inline_row t) rows a.

(** ** Fleet *)

Context (ParsePrefix : string → result error prefix) (ParseCIDR : string → result error cidr) (Addr_String : bool → Z → string).
Definition accept_pool (source : string) (np : string * FleetPool) (pools : gmap string FleetPool) : result error (gmap string FleetPool) :=
  pool ← map_err (λ e, Errorf "%s: fleet.pools[%q]: %w" [source; np.1] (Some e)) (Pool.validateFleetPool ParseCIDR np.1 np.2);
  Ok (<[np.1 := pool]> pools).
Definition accept_fleet (source : string) (raw : rawFleet) (_ : FleetConfig) : result error FleetConfig :=
  if (rfCount raw <? 0)%Z then Err (errorf "%s: fleet.count must be >= 0, got %d" [source; Strconv.Itoa (rfCount raw)])
  else if (rfOffset raw <? 0)%Z then Err (errorf "%s: fleet.offset must be >= 0, got %d" [source; Strconv.Itoa (rfOffset raw)])
  else
    pools ← then_each (accept_pool source) (map_to_list (rfPools raw)) ∅;
    Ok (MkFleet (rfCount raw) (rfOffset raw) (rfSerialPattern raw) pools).
Definition one_at_least (n : Z) : Z := if (n =? 0)%Z then 1 else n.
Definition merge_fleet (files : list loadedFile) : result error FleetConfig :=
  '(c, source) ← once "fleet" prFleet accept_fleet files (MkFleet 0 0 "" ∅);
  _ ← map_err (λ e, invalid (Errorf "%s: %w" [source] (Some e)))
        (Pool.ValidatePoolCapacity ParsePrefix Addr_String (fcPools c) (i64 (fcOffset c + one_at_least (fcCount c))));
  Ok (MkFleet (one_at_least (fcCount c)) (fcOffset c)
        (if String.eqb (fcSerialPattern c) "" then "{base}-{i}" else fcSerialPattern c) (fcPools c)).

(** ** Everything *)

Definition accept_bulk (source : string) (raw : rawBulkData) (t : Tree) : result error Tree :=
  cfg ← validateBulkData source raw;
  map_err (λ e, Errorf "%s: bulkData: %w" [source] (Some e)) (MountBulkData t cfg).
Definition accept_modules (t : Tree) (source : string) (raw : rawSoftwareModules) (_ : option Config) : result error (option Config) :=
  Some <$> validateSoftwareModules ParseDuration Duration_String t source raw.

Context (range range' : gmap string tableGroup → list (string * tableGroup)).
(** The tree goes in empty and comes out with the rows and the bulk data. *)
Definition mergeFiles (t : Tree) (files : list loadedFile) : result error (Tree * mergedConfig) :=
  rows ← all_rows Quote files;
  t ← applyRows range range' t ((λ rs, applyDefaults rs.1 rs.2) <$> rows);
  inf ← merge_inform files;
  '(ids, _) ← once "deviceIdPaths" prDeviceIDPaths (accept_ids t) files (MkDeviceID "" "" "" "");
  '(tr, _) ← once "transfer" prTransfer (accept_transfer t) files (MkTransferConfig 0 ∅ None);
  '(cr, _) ← once "connectionRequest" prConnectionRequest (accept_cr t) files (MkCR "" "" 0 "" "");
  '(per, _) ← once "periodicInformPaths" prPeriodicInformPaths (accept_periodic t) files (MkPaths "" "" "");
  '(acs, _) ← once "acsCredentialPaths" prACSCredentialPaths (accept_acs t) files (MkACS "" "");
  deferred ← merge_deferred t files;
  '(ev, _) ← once "eventSchedule" prEventSchedule accept_events files (MkEvents 0 0 0 0);
  '(link, _) ← once "faults.link" prLink (accept_link t) files None;
  an ← merge_animated t files rows;
  fleet ← merge_fleet files;
  '(t, _) ← once "bulkData" prBulkData accept_bulk files t;
  '(sm, _) ← once "softwareModules" prSoftwareModules (accept_modules t) files None;
  Ok (t, MkMerged inf.1 inf.2 ids tr cr per acs deferred (anGenerators an) fleet ev (anDiagnostics an) sm link).
End durations.

(** ** Profiles *)

Record Profile := MkLoaded { Tree_ : Tree; Merged : mergedConfig }.

(** [files] are already decoded. The guard against a manifest. *)
Fixpoint rejectAppHeader (files : list loadedFile) : result error unit :=
  match files with
  | [] => Ok tt
  | lf :: rest =>
      match prApp (lfProf lf) with
      | Some _ => Err (invalid (errorf "%s: app is an app manifest block; a profile does not declare one" [lfPath lf]))
      | None => rejectAppHeader rest
      end
  end.

Definition tab_newline : string := String (ascii_of_nat 9) (String (ascii_of_nat 10) "").
Section load.
Context (ParseDuration : string → result error Z) (Duration_String : Z → string) (Quote : string → string).
Context (ParsePrefix : string → result error prefix) (ParseCIDR : string → result error cidr) (Addr_String : bool → Z → string).
Context (range range' : gmap string tableGroup → list (string * tableGroup)).
(** The strict YAML decoder, an empty document being an empty profile. *)
Context (Decode : string → result error profile).
Let merge := mergeFiles ParseDuration Duration_String Quote ParsePrefix ParseCIDR Addr_String range range'.

Definition decodeProfileFile (content path : string) : result error loadedFile :=
  match Decode content with
  | Err e => Err (invalid (Errorf "%s: %w" [path] (Some e)))
  | Ok prof => Ok (MkFile path prof)
  end.
(** What loading a file and loading a directory share. *)
Definition load_files (files : list loadedFile) : result error Profile :=
  _ ← rejectAppHeader files;
  tm ← merge New_ files;
  _ ← crossCheckInformParameters tm.1 (mcInformValues tm.2, mcInformSources tm.2);
  Ok (MkLoaded tm.1 tm.2).
Definition LoadProfileFromReader (content path : string) : result error Profile :=
  lf ← decodeProfileFile content path;
  load_files [lf].

(** *** From the file system *)

Record entry := MkEntry { eName : string; eIsDir : bool }.
(** [os.Stat] (is it a directory), [os.ReadDir], [os.Open] with the reads, and
    [filepath.Join]. *)
Context (Stat : string → result error bool) (ReadDir : string → result error (list entry)) (ReadFile : string → result error string)
        (FilepathJoin : string → string → string).
Definition internal (e : error) : error := Wrap "paramtree.LoadProfile" KindInternal (Some e).
Definition loadProfileFile (path : string) : result error Profile :=
  content ← map_err internal (ReadFile path);
  LoadProfileFromReader content path.
Definition is_yaml (e : entry) : bool := negb (eIsDir e) && (Strings.HasSuffix (eName e) ".yaml" || Strings.HasSuffix (eName e) ".yml").
Definition load_file (path : string) (loaded : list loadedFile) : result error (list loadedFile) :=
  content ← map_err internal (ReadFile path);
  pf ← decodeProfileFile content path;
  Ok (loaded ++ [pf]).
Definition loadProfileDir (dir : string) : result error Profile :=
  entries ← map_err internal (ReadDir dir);
  match (λ e, FilepathJoin dir (eName e)) <$> filter (λ e, is_yaml e = true) entries with
  | [] => Err (invalid (errorf "no .yaml/.yml files in %s" [dir]))
  | files =>
      loaded ← then_each load_file (Sort.Strings files) [];
      load_files loaded
  end.
Definition LoadProfile (path : string) : result error Profile :=
  map_err internal (Stat path) ≫= λ isDir : bool, if isDir then loadProfileDir path else loadProfileFile path.
Definition LoadProfileTree (path : string) : result error Tree := Tree_ <$> LoadProfile path.

(** *** App manifests *)

Definition is_alnum (c : ascii) : bool := GoLib.in_range "a" "z" c || GoLib.in_range "A" "Z" c || is_digit c.
Definition app_name_ok (s : string) : bool :=
  match s with
  | "" => false
  | String c rest => is_alnum c && str_forall (λ c, is_alnum c || Ascii.eqb c "." || Ascii.eqb c "_" || Ascii.eqb c "-") rest
  end.
Definition some {A} (o : option A) : bool := match o with Some _ => true | None => false end.
(** The blocks a manifest may not have. *)
Definition profile_blocks (p : profile) : list (string * bool) :=
  [("informParameters", some (prInformParameters p)); ("deviceIdPaths", some (prDeviceIDPaths p)); ("transfer", some (prTransfer p));
   ("connectionRequest", some (prConnectionRequest p)); ("periodicInformPaths", some (prPeriodicInformPaths p));
   ("acsCredentialPaths", some (prACSCredentialPaths p)); ("deferredParameters", (0 <? length (prDeferredParameters p))%nat);
   ("fleet", some (prFleet p)); ("eventSchedule", some (prEventSchedule p)); ("diagnostics", (0 <? length (prDiagnostics p))%nat);
   ("softwareModules", some (prSoftwareModules p)); ("faults", some (prFaults p))].
Definition manifest_error (e : error) : error := Wrap "paramtree.LoadAppManifest" KindInvalidArgument (Some e).
Definition LoadAppManifest (content source : string) : result error AppManifest :=
  lf ← decodeProfileFile content source;
  match prApp (lfProf lf) with
  | None => Err (manifest_error (errorf "%s: app block is required in a manifest" [source]))
  | Some raw =>
      if negb (app_name_ok (appName raw)) then
        Err (manifest_error (errorf "%s: app.name %q must match %s" [source; appName raw; "^[A-Za-z0-9][A-Za-z0-9._-]*$"]))
      else if String.eqb (appVersion raw) "" || Strings.ContainsAny (appVersion raw) (" " +:+ tab_newline) then
        Err (manifest_error (errorf "%s: app.version is required and carries no whitespace" [source]))
      else
        match filter (λ kb, kb.2 = true) (profile_blocks (lfProf lf)) with
        | (key, _) :: _ => Err (manifest_error (errorf "%s: %s is a profile block, not valid in an app manifest" [source; key]))
        | [] =>
            tm ← merge New_ [lf];
            match Children tm.1 "" with
            | Ok (_ :: _) =>
                Ok (MkManifest
                      (MkApp (appName raw) (appVersion raw) (appVendor raw) (appDescription raw)
                         (if String.eqb (ExecutionUnit raw) "" then appName raw else ExecutionUnit raw))
                      tm.1 (mcGenerators tm.2))
            | _ => Err (manifest_error (errorf "%s: a manifest declares the data model its execution unit provides; none found" [source]))
            end
        end
  end.
End load.
