(* ===== verification/LoaderProps.v ===== *)
(** * What a loaded profile promises

    Every path a block of a profile names is checked against the tree, so the
    parts of the simulator that read those leaves find them there, of the type
    and with the permission they need. *)
From Stdlib Require Import ZArith Lia Ascii String SpecFloat.
From S2P Require Import Prelude GoLib GoText GoAuth GoFloat CpeErr Types Node Tree TreeProps Objects ObjectsProps Listing Inform Scheduler Generators Firmware LinkFault Schedules SoftwareModules Fleet Rows RowsTree RowsProps Blocks Loader.

(** ** Leaves, blocks and loops *)

Definition leaf_there (t : Tree) (path : string) : Prop := ∃ v, Get t path = Ok v.
Definition leaf_of (t : Tree) (path : string) (typ : Type_) : Prop := ∃ v, Get t path = Ok v ∧ vType v = typ ∧ Writable v = true.
(** The leaves of [t] are leaves of [t'], unchanged. *)
Definition keeps (t t' : Tree) : Prop := ∀ path v, Get t path = Ok v → Get t' path = Ok v.
#[export] Instance keeps_refl : Reflexive keeps.
Proof. by intros t path v. Qed.
#[export] Instance keeps_trans : Transitive keeps.
Proof. intros t1 t2 t3 H1 H2 path v H. by apply H2, H1. Qed.

Lemma keeps_view t t' : (∀ q v, view t q = Some v → view t' q = Some v) → keeps t t'.
Proof. intros H path v (p&Hp&Hv)%Get_view. apply Get_view. exists p. split; [done|]. by apply H. Qed.
Lemma Mount_keeps t path n t' : mounting_ok (Mount t path n) = Ok t' → keeps t t'.
Proof.
  destruct (Mount_correct t path n) as [(e&->&_)|(t1&p&->&_&Hn&_&Hq)]; [done|]. intros [= <-]. apply keeps_view. intros q v Hv.
  destruct (decide (p `prefix_of` q)) as [[r ->]|Hp]; [|by rewrite Hq].
  unfold view, leaf_at in Hv. rewrite node_at_app, Hn in Hv. done.
Qed.
Lemma AddTable_keeps t path n t' : mounting_ok (AddTable t path (Some n)) = Ok t' → keeps t t'.
Proof.
  destruct (AddTable_correct t path n) as [(e&->&_)|(t1&p&m&->&_&_&_&_&Hq)]; [done|]. intros [= <-]. apply keeps_view. intros q v. by rewrite Hq.
Qed.
Lemma MountBulkData_keeps t cfg t' : MountBulkData t cfg = Ok t' → keeps t t'.
Proof.
  unfold MountBulkData. destruct (String.eqb _ ""); [done|].
  intros (t1&H1%Mount_keeps&(t2&H2&(prof&_&(t3&H3%Mount_keeps&H4%AddTable_keeps)%result_bind_ok)%result_bind_ok)%result_bind_ok)%result_bind_ok.
  etrans; [exact H1|]. etrans; [|etrans; [exact H3|exact H4]].
  refine (then_each_inv (λ t, keeps t1 t) _ _ t1 t2 _ _ H2); [|done]. intros l s s' _ Hs H. etrans; [exact Hs|]. by apply Mount_keeps in H.
Qed.

(** What acceptance establishes, or no file declaring the block leaves. *)
Lemma once_inv {R C} (I : C → Prop) name (field : profile → option R) (accept : string → R → C → result error C) files c c' src :
  (∀ source raw c0 c1, I c0 → accept source raw c0 = Ok c1 → I c1) → I c → once name field accept files c = Ok (c', src) → I c'.
Proof.
  intros Ha. unfold once. generalize "". revert c; induction files as [|lf files IH]; intros c s Hc; cbn [once_go]; [by intros [= <- _]|].
  destruct (field (lfProf lf)) as [raw|]; [|by apply IH]. destruct (negb _); [done|].
  intros (c1&H1%map_err_ok&H)%result_bind_ok. eapply IH; [|exact H]. by eapply Ha.
Qed.
Lemma once_none {R C} name (field : profile → option R) (accept : string → R → C → result error C) files c :
  (∀ lf, lf ∈ files → field (lfProf lf) = None) → once name field accept files c = Ok (c, "").
Proof.
  intros H. unfold once. generalize "". induction files as [|lf files IH]; intros s; [done|]. cbn [once_go]. rewrite H by left. apply IH.
  intros lf' Hlf. apply H. by right.
Qed.
(** A second declaration is refused. *)
Lemma once_go_twice {R C} name (field : profile → option R) (accept : string → R → C → result error C) files c s g :
  s ≠ "" → g ∈ files → some (field (lfProf g)) = true → is_ok (once_go name field accept files c s) = false.
Proof.
  intros Hs Hg Hf. induction Hg as [g files|g lf files Hg IH]; cbn [once_go].
  - destruct (field (lfProf g)); [|done]. by destruct (String.eqb_spec s "").
  - destruct (field (lfProf lf)); [by destruct (String.eqb_spec s "")|by apply IH].
Qed.
Lemma once_conflict {R C} name (field : profile → option R) (accept : string → R → C → result error C) l1 f l2 g l3 c :
  lfPath f ≠ "" → some (field (lfProf f)) = true → some (field (lfProf g)) = true →
  is_ok (once name field accept (l1 ++ f :: l2 ++ g :: l3) c) = false.
Proof.
  intros Hp Hf Hg. unfold once. generalize "" as s. revert c; induction l1 as [|lf l1 IH]; intros c s; cbn [app once_go].
  - destruct (field (lfProf f)) as [raw|]; [|done]. destruct (negb _); [done|]. destruct (accept _ _ _) as [c1|]; [|done]. cbn [map_err mbind result_bind].
    apply (once_go_twice name field accept _ _ _ g); [done| |done]. apply elem_of_app. right. left.
  - destruct (field (lfProf lf)) as [raw|]; [|apply IH]. destruct (negb _); [done|]. destruct (accept _ _ _) as [c1|]; [|done]. apply IH.
Qed.

Lemma known_leaf_ok t source what path v : known_leaf t source what path = Ok v → Get t path = Ok v.
Proof. by intros ?%map_err_ok. Qed.
Lemma writable_leaf_ok t source what path typ mismatch u : writable_leaf t source what path typ mismatch = Ok u → leaf_of t path typ.
Proof.
  intros (v&Hv%known_leaf_ok&H)%result_bind_ok. exists v. split; [done|]. destruct (String.eqb_spec (vType v) typ); [|done]. by destruct (Writable v).
Qed.
Lemma parse_delay_ok PD DS source what raw unset d : parse_delay PD DS source what raw unset = Ok d → d = unset ∨ (0 ≤ d)%Z.
Proof.
  unfold parse_delay. destruct (String.eqb raw ""); [intros [= ->]; by left|]. destruct (PD raw) as [x|]; [|done].
  destruct (Z.ltb_spec x 0); [done|]. intros [= <-]. by right.
Qed.

(** ** The promise *)

Definition ids_sound (t : Tree) (d : DeviceIDPaths) : Prop :=
  d = MkDeviceID "" "" "" "" ∨ Forall (leaf_there t) [Manufacturer d; OUI d; ProductClass d; SerialNumber d].
Definition transfer_sound (t : Tree) (c : TransferConfig) : Prop :=
  ∀ fw, FirmwareBlock c = Some fw → (0 ≤ ApplyDelay fw)%Z ∧ ∃ v, Get t (VersionPath fw) = Ok v ∧ vType v = TypeString.
Definition cr_sound (t : Tree) (c : ConnectionRequestConfig) : Prop :=
  (0 ≤ crThrottleWindow c)%Z ∧
  (crScheme c ≠ "" → crScheme c ∈ ["basic"; "digest"] ∧ crRealm c ≠ "" ∧ leaf_of t (crUsername c) TypeString ∧ leaf_of t (crPassword c) TypeString).
Definition periodic_sound (t : Tree) (p : PeriodicInformPaths) : Prop :=
  p = MkPaths "" "" "" ∨
  leaf_of t (pInterval p) TypeUnsignedInt ∧ leaf_of t (pEnable p) TypeBoolean ∧ (pTime p ≠ "" → leaf_of t (pTime p) TypeDateTime).
Definition acs_sound (t : Tree) (a : ACSCredentialPaths) : Prop :=
  a = MkACS "" "" ∨ leaf_of t (acsUsername a) TypeString ∧ leaf_of t (acsPassword a) TypeString.
Definition deferred_sound (t : Tree) (l : list string) : Prop :=
  NoDup l ∧ Forall (λ path, ∃ v, Get t path = Ok v ∧ Writable v = true) l.
Definition events_sound (e : EventScheduleConfig) : Prop :=
  (0 ≤ evRebootDelay e ∧ 0 ≤ evFactoryResetDelay e ∧ 0 ≤ evBootDelay e ∧ 0 ≤ evBootRamp e)%Z.
Definition link_sound (t : Tree) (c : LinkFaultConfig) : Prop :=
  (0 < Duration c)%Z ∧ leaf_there t (StatusPath c) ∧ ∃ i, (1 ≤ i)%Z ∧ Applies c i = true.
(** A generator can be built on its leaf, whenever the process starts. *)
Definition generator_sound (t : Tree) (cfg : GeneratorConfig) : Prop :=
  (0 < gInterval cfg)%Z ∧ ∀ now, ∃ v g, Get t (gPath cfg) = Ok v ∧ FromConfig now cfg = Ok g ∧ Generators.Path g = gPath cfg ∧ Generators.fits g (vType v).
Definition diagnostic_sound (t : Tree) (d : DiagnosticConfig) : Prop :=
  leaf_there t (dgStatePath d) ∧ dgTrigger d ≠ dgComplete d ∧ (0 ≤ dgDuration d)%Z ∧ (dgCountPath d ≠ "" → leaf_there t (dgCountPath d) ∧ (0 ≤ dgResultCount d)%Z).

Section blocks.
Context (PD : string → result error Z) (DS : Z → string) (t : Tree).

Lemma accept_ids_ok source dp c d : accept_ids t source dp c = Ok d → ids_sound t d.
Proof.
  unfold accept_ids. destruct (_ || _); [done|].
  intros (v1&H1%known_leaf_ok&(v2&H2%known_leaf_ok&(v3&H3%known_leaf_ok&(v4&H4%known_leaf_ok&[= <-])%result_bind_ok)%result_bind_ok)%result_bind_ok)%result_bind_ok.
  right. repeat constructor; by eexists.
Qed.
Lemma validateFirmware_ok source raw fw : validateFirmware PD DS t source raw = Ok fw →
  (0 ≤ ApplyDelay fw)%Z ∧ ∃ v, Get t (VersionPath fw) = Ok v ∧ vType v = TypeString.
Proof.
  unfold validateFirmware. destruct (String.eqb _ ""); [done|]. destruct (Get t _) as [v|] eqn:Eg; [|done].
  destruct (bool_decide (vType v ≠ TypeString)) eqn:Eb; [done|]. apply bool_decide_eq_false in Eb. intros (d&Hd&[= <-])%result_bind_ok. cbn. split.
  - destruct (String.eqb (rfApplyDelay raw) ""); [injection Hd as <-; by vm_compute|]. destruct (PD _) as [x|]; [|done].
    destruct (Z.ltb_spec x 0); [done|]. by injection Hd as <-.
  - exists v. split; [done|]. by destruct (decide (vType v = TypeString)).
Qed.
Lemma accept_transfer_ok source tr c c' : accept_transfer PD DS t source tr c = Ok c' → transfer_sound t c → transfer_sound t c'.
Proof.
  intros (d&_&(fw&Hfw&[= <-])%result_bind_ok)%result_bind_ok Hc f. cbn. destruct (rtFirmware tr) as [raw|].
  - destruct (validateFirmware PD DS t source raw) as [x|] eqn:E; [|done]. injection Hfw as <-. intros [= <-]. by eapply validateFirmware_ok.
  - injection Hfw as <-. apply Hc.
Qed.
Lemma required_ok source name advice scheme value u : required source name advice scheme value = Ok u → value ≠ "".
Proof. unfold required. by destruct (String.eqb_spec value ""). Qed.
Lemma accept_cr_ok source raw c c' : accept_cr PD DS t source raw c = Ok c' → cr_sound t c'.
Proof.
  unfold accept_cr. set (scheme := ToLower (Space.TrimSpace (rcScheme raw))).
  destruct (negb (String.eqb scheme "") && negb (String.eqb scheme "basic") && negb (String.eqb scheme "digest")) eqn:Es; [done|].
  intros (w&Hw%parse_delay_ok&(u&Hu&[= <-])%result_bind_ok)%result_bind_ok. split; cbn; [lia|]. intros Hne.
  destruct (String.eqb_spec scheme "") as [|_]; [done|]. cbn [negb andb] in Es.
  apply result_bind_ok in Hu as (u1&H1%required_ok&(u2&_&(u3&_&(u4&H4%writable_leaf_ok&H5%writable_leaf_ok)%result_bind_ok)%result_bind_ok)%result_bind_ok).
  split_and!; [|done..]. destruct (String.eqb_spec scheme "basic") as [E|]; [rewrite E; left|]. destruct (String.eqb_spec scheme "digest") as [E|]; [rewrite E; right; left|done].
Qed.
Lemma accept_periodic_ok source raw c p : accept_periodic t source raw c = Ok p → periodic_sound t p.
Proof.
  unfold accept_periodic. destruct (_ || _); [done|].
  intros (u1&H1%writable_leaf_ok&(u2&H2%writable_leaf_ok&(u3&H3&[= <-])%result_bind_ok)%result_bind_ok)%result_bind_ok.
  right. split_and!; [done..|]. intros Hne. destruct (String.eqb_spec (pTime raw) ""); [done|]. by apply writable_leaf_ok in H3.
Qed.
Lemma accept_acs_ok source raw c a : accept_acs t source raw c = Ok a → acs_sound t a.
Proof.
  unfold accept_acs. destruct (_ || _); [done|].
  intros (u1&H1%writable_leaf_ok&(u2&H2%writable_leaf_ok&[= <-])%result_bind_ok)%result_bind_ok. by right.
Qed.
Lemma defer_ok source path l l' : defer t source path l = Ok l' → deferred_sound t l → deferred_sound t l'.
Proof.
  intros (v&Hv%map_err_ok&H)%result_bind_ok [HN HF]. destruct (Writable v) eqn:Hw; [|done]. cbn in H.
  destruct (decide (path ∈ l)) as [Hin|Hin].
  - rewrite bool_decide_eq_true_2 in H by done. by injection H as <-.
  - rewrite bool_decide_eq_false_2 in H by done. injection H as <-. split.
    + apply NoDup_app. split_and!; [done| |apply NoDup_singleton]. by intros x Hx ->%list_elem_of_singleton.
    + apply Forall_app. split; [done|]. constructor; [by exists v|done].
Qed.
Lemma merge_deferred_ok files l : merge_deferred t files = Ok l → deferred_sound t l.
Proof.
  refine (then_each_inv (deferred_sound t) _ _ [] l _ _); [|split; [constructor|done]]. intros lf s s' _ Hs.
  refine (then_each_inv (deferred_sound t) _ _ s s' _ Hs). intros path l1 l2 _ Hl H. by eapply defer_ok.
Qed.
Lemma accept_events_ok source raw c c' : accept_events PD DS source raw c = Ok c' → events_sound c → events_sound c'.
Proof.
  intros (d1&H1%parse_delay_ok&(d2&H2%parse_delay_ok&(d3&H3%parse_delay_ok&(d4&H4%parse_delay_ok&[= <-])%result_bind_ok)%result_bind_ok)%result_bind_ok)%result_bind_ok.
  unfold events_sound. cbn. intros (?&?&?&?). lia.
Qed.
Lemma accept_link_ok source raw c c' : accept_link PD DS t source raw c = Ok c' → ∀ l, c' = Some l → link_sound t l.
Proof.
  unfold accept_link. destruct (parseLinkFault _ _ _ _ _) as [x|] eqn:E; [|done]. intros [= <-] l [= <-].
  apply parseLinkFault_sound in E as (H1&H2&H3). split_and!; [done| |done]. unfold leaf_there. destruct (Get t (StatusPath x)) as [v|]; [by exists v|done].
Qed.
Lemma parseDiagnostic_ok raw where_ d : parseDiagnostic PD DS t raw where_ = Ok d → diagnostic_sound t d.
Proof.
  unfold parseDiagnostic. destruct (String.eqb _ ""); [done|]. intros (v&Hv%map_err_ok&H)%result_bind_ok.
  set (trigger := if String.eqb (rdTrigger raw) "" then "Requested" else rdTrigger raw) in *.
  set (complete := if String.eqb (rdComplete raw) "" then "Complete" else rdComplete raw) in *.
  destruct (String.eqb_spec trigger complete) as [|Hne]; [done|]. apply result_bind_ok in H as (dur&Hd&(u&Hc&[= <-])%result_bind_ok).
  split_and!; cbn; [by exists v|done| |].
  - destruct (String.eqb (rdDuration raw) ""); [injection Hd as <-; lia|]. destruct (PD _) as [x|]; [|done].
    destruct (Z.ltb_spec x 0); [done|]. by injection Hd as <-.
  - intros Hcp. destruct (String.eqb_spec (rdCountPath raw) ""); [done|]. apply result_bind_ok in Hc as (w&Hw%map_err_ok&Hc).
    destruct (Z.ltb_spec (rdResultCount raw) 0); [done|]. split; [by exists w|done].
Qed.
Lemma validateGenerator_path D source raw cfg : validateGenerator D t source raw = Ok cfg → gPath cfg = rPath raw ∧ (0 < gInterval cfg)%Z ∧ leaf_there t (rPath raw).
Proof.
  unfold validateGenerator. destruct (String.eqb _ ""); [done|]. intros (v&Hv%map_err_ok&H)%result_bind_ok.
  destruct (String.eqb (rInterval raw) ""); [done|]. apply result_bind_ok in H as (i&_&H). destruct (Z.leb_spec i 0); [done|].
  assert (∀ c d e, cfg = MkGeneratorConfig (rPath raw) (rType raw) i c d e → gPath cfg = rPath raw ∧ (0 < gInterval cfg)%Z ∧ leaf_there t (rPath raw)) as K.
  { intros c d e ->. split_and!; [done|cbn; lia|by exists v]. }
  destruct (String.eqb _ "counter"); [apply result_bind_ok in H as (?&_&[= <-]); by eapply K|].
  destruct (String.eqb _ "drift"); [apply result_bind_ok in H as (?&_&[= <-]); by eapply K|].
  destruct (String.eqb _ "enum"); [apply result_bind_ok in H as (?&_&[= <-]); by eapply K|].
  destruct (String.eqb _ "uptime"); [destruct (String.eqb _ _); [injection H as <-; by eapply K|done]|].
  destruct (String.eqb _ "wallclock"); [destruct (String.eqb _ _); [injection H as <-; by eapply K|done]|done].
Qed.
Lemma validateGenerator_ok D source raw cfg : validateGenerator D t source raw = Ok cfg → generator_sound t cfg.
Proof.
  intros H. destruct (validateGenerator_path _ _ _ _ H) as (Hp&Hi&(v&Hv)). split; [done|]. intros now.
  destruct (validated_fits D t source raw cfg now v H Hv) as (g&Hg&Hgp&Hf). exists v, g. rewrite Hp. done.
Qed.
End blocks.

(** ** Loops over generators, diagnostics, pools and tables *)

Section loops.
Context (PD : string → result error Z) (DS : Z → string) (Quote : string → string).

Definition animated_sound (t : Tree) (a : animated) : Prop :=
  (Forall (generator_sound t) (anGenerators a) ∧ NoDup (gPath <$> anGenerators a) ∧
   ∀ p, p ∈ gPath <$> anGenerators a → is_Some (anGenSource a !! p)) ∧
  (Forall (diagnostic_sound t) (anDiagnostics a) ∧ NoDup (dgStatePath <$> anDiagnostics a) ∧
   ∀ p, p ∈ dgStatePath <$> anDiagnostics a → is_Some (anDiagSource a !! p)).

(** One more declaration of a path not declared before. *)
Lemma declare {A} (P : A → Prop) (path : A → string) (l : list A) (m : gmap string string) (x : A) (p src : string) :
  m !! p = None → path x = p → P x →
  Forall P l ∧ NoDup (path <$> l) ∧ (∀ q, q ∈ path <$> l → is_Some (m !! q)) →
  Forall P (l ++ [x]) ∧ NoDup (path <$> l ++ [x]) ∧ (∀ q, q ∈ path <$> l ++ [x] → is_Some (<[p := src]> m !! q)).
Proof.
  intros Hm Hp Hx (HF&HN&Hs). rewrite fmap_app. cbn [fmap list_fmap]. rewrite Hp. split_and!.
  - apply Forall_app. split; [done|]. by constructor.
  - apply NoDup_app. split_and!; [done| |apply NoDup_singleton]. intros q Hq ->%list_elem_of_singleton. apply Hs in Hq as [? ?]. congruence.
  - intros q [Hq| ->%list_elem_of_singleton]%elem_of_app; [|by rewrite lookup_insert_eq; eexists].
    destruct (decide (p = q)) as [<-|Hne]; [by rewrite lookup_insert_eq; eexists|]. rewrite lookup_insert_ne by done. by apply Hs.
Qed.
Lemma add_generator_ok t source where_ raw a a' : add_generator PD t source where_ raw a = Ok a' → animated_sound t a → animated_sound t a'.
Proof.
  unfold add_generator. destruct (anGenSource a !! rPath raw) eqn:E; [done|]. intros (gen&Hg%map_err_ok&[= <-])%result_bind_ok [HG HD].
  split; cbn; [|done]. apply declare; [done|by eapply validateGenerator_path|by eapply validateGenerator_ok|done].
Qed.
Lemma add_diagnostic_ok t source raw a a' : add_diagnostic PD DS Quote t source raw a = Ok a' → animated_sound t a → animated_sound t a'.
Proof.
  unfold add_diagnostic. destruct (anDiagSource a !! rdStatePath raw) eqn:E; [done|]. intros (d&Hd%map_err_ok&[= <-])%result_bind_ok [HG HD].
  split; cbn; [done|]. apply declare; [done| |by eapply parseDiagnostic_ok|done].
  revert Hd. unfold parseDiagnostic. destruct (String.eqb _ ""); [done|]. intros (?&_&H)%result_bind_ok. destruct (String.eqb _ _); [done|].
  apply result_bind_ok in H as (?&_&(?&_&[= <-])%result_bind_ok). done.
Qed.
Lemma merge_animated_ok t files rows a : merge_animated PD DS Quote t files rows = Ok a → animated_sound t a.
Proof.
  intros (a1&H1&H2)%result_bind_ok.
  refine (then_each_inv (animated_sound t) _ _ a1 a _ _ H2).
  { intros [raw source] s s' _ Hs. unfold inline_row. cbn [fst snd]. destruct (rpGenerator raw) as [ig|]; [|by intros [= <-]].
    intros (paths&_&H)%result_bind_ok. refine (then_each_inv (animated_sound t) _ _ s s' _ Hs H). intros p x x' _ Hx Hp. by eapply add_generator_ok. }
  refine (then_each_inv (animated_sound t) _ _ _ a1 _ _ H1).
  2:{ split; (split_and!; [done|constructor|by intros p ?%elem_of_nil]). }
  intros lf s s' _ Hs (s1&Hg&Hd)%result_bind_ok.
  refine (then_each_inv (animated_sound t) _ _ s1 s' _ _ Hd); [intros raw x x' _ Hx H; by eapply add_diagnostic_ok|].
  refine (then_each_inv (animated_sound t) _ _ s s1 _ Hs Hg). intros [i raw] x x' _ Hx. unfold listed_generator.
  destruct (String.eqb _ ""); [done|]. intros H. by eapply add_generator_ok.
Qed.

Context (ParsePrefix : string → result error prefix) (ParseCIDR : string → result error cidr) (Addr_String : bool → Z → string).
Definition fleet_sound (c : FleetConfig) : Prop :=
  (1 ≤ fcCount c ∧ 0 ≤ fcOffset c)%Z ∧ fcSerialPattern c ≠ "" ∧
  (∀ name p, fcPools c !! name = Some p → is_ok (Pool.validateFleetPool ParseCIDR name p) = true) ∧
  Pool.ValidatePoolCapacity ParsePrefix Addr_String (fcPools c) (i64 (fcOffset c + fcCount c)) = Ok tt.

Lemma validateFleetPool_same name raw p : Pool.validateFleetPool ParseCIDR name raw = Ok p → p = raw.
Proof.
  unfold Pool.validateFleetPool. destruct (String.eqb name ""); [done|]. destruct (negb _); [done|]. destruct (bool_decide _); [done|].
  destruct (String.eqb _ "ipv4").
  { destruct (String.eqb _ ""); [done|]. intros (c&_&H)%result_bind_ok. destruct (to4 c); [by injection H|done]. }
  destruct (String.eqb _ "ipv6").
  { destruct (String.eqb _ ""); [done|]. intros (c&_&H)%result_bind_ok. destruct (to4 c); [done|by injection H]. }
  destruct (String.eqb _ "ipv6prefix"); [|by destruct (String.eqb _ "")].
  destruct (String.eqb _ ""); [done|]. intros (c&_&H)%result_bind_ok. destruct (to4 c); [done|]. destruct (_ <=? _)%Z; [done|].
  destruct (_ <? _)%Z; [done|by injection H].
Qed.
Lemma merge_fleet_ok files c : merge_fleet ParsePrefix ParseCIDR Addr_String files = Ok c → fleet_sound c.
Proof.
  intros ([c0 source]&H0&([]&Hc%map_err_ok&[= <-])%result_bind_ok)%result_bind_ok.
  set (I := λ c : FleetConfig, (0 ≤ fcCount c ∧ 0 ≤ fcOffset c)%Z ∧ ∀ name p, fcPools c !! name = Some p → is_ok (Pool.validateFleetPool ParseCIDR name p) = true).
  assert (I c0) as [Hr Hp].
  { refine (once_inv I _ _ _ _ _ c0 source _ _ H0); [|split; [done|]; cbn [fcPools]; by intros ?? ?%lookup_empty_Some].
    intros src raw c1 c2 _ Ha. unfold accept_fleet in Ha. unfold I.
    destruct (Z.ltb_spec (rfCount raw) 0); [done|]. destruct (Z.ltb_spec (rfOffset raw) 0); [done|].
    apply result_bind_ok in Ha as (pools&Hpools&[= <-]). cbn. split; [lia|].
    refine (then_each_inv (λ m : gmap string FleetPool, ∀ name p, m !! name = Some p → is_ok (Pool.validateFleetPool ParseCIDR name p) = true) _ _ ∅ pools _ _ Hpools).
    2:{ intros ??. by rewrite lookup_empty. }
    intros [n raw0] m m' _ Hm (pool&Hv%map_err_ok&[= <-])%result_bind_ok name p. cbn [fst snd] in *. destruct (decide (n = name)) as [->|Hne].
    - rewrite lookup_insert_eq. intros [= <-]. rewrite (validateFleetPool_same _ _ _ Hv) in *. by rewrite Hv.
    - rewrite lookup_insert_ne by done. apply Hm. }
  unfold fleet_sound. cbn [fcCount fcOffset fcSerialPattern fcPools]. split_and!; [unfold one_at_least; destruct (Z.eqb_spec (fcCount c0) 0); lia|lia| |done|done].
  by destruct (String.eqb_spec (fcSerialPattern c0) "").
Qed.

Definition modules_sound (t : Tree) (c : Config) : Prop :=
  (∀ table, table ∈ [SoftwareModulesExecEnvTable; SoftwareModulesDeploymentUnitTable; SoftwareModulesExecutionUnitTable] →
     is_ok (Children t (SoftwareModules.cPath c +:+ table)) = true) ∧
  (∃ env envs, Children t (SoftwareModules.cPath c +:+ SoftwareModulesExecEnvTable) = Ok (env :: envs)) ∧
  (0 ≤ InstallDelay c ∧ 0 ≤ UninstallDelay c)%Z ∧
  ∀ name f, SoftwareModules.Faults c !! name = Some f → smReason f ∈ SoftwareModuleFaultReasons.
Lemma check_tables_ok t source path tables u : check_tables t source path tables = Ok u → ∀ table, table ∈ tables → is_ok (Children t (path +:+ table)) = true.
Proof.
  induction tables as [|x tables IH]; [by intros _ ? ?%elem_of_nil|]. cbn [check_tables]. destruct (Children t (path +:+ x)) eqn:E; [|done].
  intros H table [->|Hin]%elem_of_cons; [by rewrite E|by apply IH].
Qed.
Lemma check_faults_ok source l u : check_faults source l = Ok u → Forall (λ nf, smReason nf.2 ∈ SoftwareModuleFaultReasons) l.
Proof.
  induction l as [|[name f] l IH]; [constructor|]. cbn [check_faults]. destruct (existsb _ _) eqn:E; [|done]. intros H. constructor; [|by apply IH].
  apply existsb_exists in E as (r&Hr&->%String.eqb_eq). by apply list_elem_of_In.
Qed.
Lemma accept_modules_ok t source raw c c' : accept_modules PD DS t source raw c = Ok c' → ∀ cfg, c' = Some cfg → modules_sound t cfg.
Proof.
  unfold accept_modules. destruct (validateSoftwareModules _ _ _ _ _) as [x|] eqn:E; [|done]. intros [= <-] cfg [= <-]. revert E.
  unfold validateSoftwareModules. destruct (String.eqb _ ""); [done|]. destruct (negb _); [done|]. intros (u&Ht&H)%result_bind_ok.
  pose proof (check_tables_ok _ _ _ _ _ Ht) as Htables. destruct (Children t (rsPath raw +:+ SoftwareModulesExecEnvTable)) as [[|env envs]|] eqn:Ec; [done| |done].
  apply result_bind_ok in H as (i&Hi%parse_delay_ok&(d&Hd%parse_delay_ok&(v&Hv%check_faults_ok&[= <-])%result_bind_ok)%result_bind_ok).
  split_and!; cbn [SoftwareModules.cPath InstallDelay UninstallDelay SoftwareModules.Faults]; [done|by eexists _, _| | |].
  - destruct Hi as [->|?]; [by vm_compute|done].
  - destruct Hd as [->|?]; [by vm_compute|done].
  - intros name f Hf. rewrite Forall_forall in Hv. apply (Hv (name, f)). by apply elem_of_map_to_list.
Qed.
Lemma crossCheck_ok t agg u : crossCheckInformParameters t agg = Ok u → ∀ code paths, agg.1 !! code = Some paths → Forall (leaf_there t) paths.
Proof.
  unfold crossCheckInformParameters. intros H code paths Hc%elem_of_map_to_list. revert u H.
  assert (∀ src l u, then_each (λ p _, check_inform t src code p) l tt = Ok u → Forall (leaf_there t) l) as Hin.
  { intros src l. induction l as [|p l IH]; intros u; [constructor|]. rewrite then_each_cons. intros ([]&Hp&H)%result_bind_ok.
    constructor; [|by eapply IH]. unfold check_inform in Hp. unfold leaf_there. destruct (Get t p) as [v|]; [by exists v|done]. }
  induction (map_to_list agg.1) as [|[c ps] l IH]; [by apply elem_of_nil in Hc|]. intros u. rewrite then_each_cons. intros ([]&Hp&H)%result_bind_ok.
  apply elem_of_cons in Hc as [[= <- <-]|Hc]; [by eapply Hin|by eapply IH].
Qed.
End loops.

(** ** Blocks are checked before the bulk-data mount, and hold after it *)

Section keeps.
Context (t t' : Tree) (Hk : keeps t t').
Lemma leaf_there_keeps p : leaf_there t p → leaf_there t' p.
Proof. intros [v Hv]. exists v. by apply Hk. Qed.
Lemma leaf_of_keeps p typ : leaf_of t p typ → leaf_of t' p typ.
Proof. intros (v&Hv&?). exists v. split; [by apply Hk|done]. Qed.
Lemma ids_keeps d : ids_sound t d → ids_sound t' d.
Proof. intros [->|H]; [by left|right]. eapply Forall_impl; [exact H|]. intros p. apply leaf_there_keeps. Qed.
Lemma transfer_keeps c : transfer_sound t c → transfer_sound t' c.
Proof. intros H fw Hfw. destruct (H fw Hfw) as (?&v&Hv&?). split; [done|]. exists v. split; [by apply Hk|done]. Qed.
Lemma cr_keeps c : cr_sound t c → cr_sound t' c.
Proof. intros [? H]. split; [done|]. intros Hs. destruct (H Hs) as (?&?&?&?). split_and!; by (done || apply leaf_of_keeps). Qed.
Lemma periodic_keeps p : periodic_sound t p → periodic_sound t' p.
Proof. intros [->|(?&?&H)]; [by left|right]. split_and!; [by apply leaf_of_keeps..|]. intros Hp. by apply leaf_of_keeps, H. Qed.
Lemma acs_keeps a : acs_sound t a → acs_sound t' a.
Proof. intros [->|[??]]; [by left|right]. split; by apply leaf_of_keeps. Qed.
Lemma deferred_keeps l : deferred_sound t l → deferred_sound t' l.
Proof. intros [? H]. split; [done|]. eapply Forall_impl; [exact H|]. intros p (v&Hv&?). exists v. split; [by apply Hk|done]. Qed.
Lemma link_keeps c : link_sound t c → link_sound t' c.
Proof. intros (?&?&?). split_and!; [done|by apply leaf_there_keeps|done]. Qed.
Lemma generator_keeps g : generator_sound t g → generator_sound t' g.
Proof. intros [? H]. split; [done|]. intros now. destruct (H now) as (v&g'&Hv&?). exists v, g'. split; [by apply Hk|done]. Qed.
Lemma diagnostic_keeps d : diagnostic_sound t d → diagnostic_sound t' d.
Proof. intros (?&?&?&H). split_and!; [by apply leaf_there_keeps|done..|]. intros Hp. destruct (H Hp). split; [by apply leaf_there_keeps|done]. Qed.
End keeps.

Section load.
Context (PD : string → result error Z) (DS : Z → string) (Quote : string → string).
Context (ParsePrefix : string → result error prefix) (ParseCIDR : string → result error cidr) (Addr_String : bool → Z → string).
Context (range range' : gmap string tableGroup → list (string * tableGroup)) (Decode : string → result error profile).

(** Every block against the tree of the profile. *)
Record profile_sound (p : Profile) : Prop := {
  ps_inform : ∀ code paths, mcInformValues (Merged p) !! code = Some paths → Forall (leaf_there (Tree_ p)) paths;
  ps_ids : ids_sound (Tree_ p) (mcDeviceIDPaths (Merged p));
  ps_transfer : transfer_sound (Tree_ p) (mcTransfer (Merged p));
  ps_cr : cr_sound (Tree_ p) (mcConnectionRequest (Merged p));
  ps_periodic : periodic_sound (Tree_ p) (mcPeriodicInformPaths (Merged p));
  ps_acs : acs_sound (Tree_ p) (mcACSCredentialPaths (Merged p));
  ps_deferred : deferred_sound (Tree_ p) (mcDeferredParameters (Merged p));
  ps_events : events_sound (mcEventSchedule (Merged p));
  ps_link : ∀ c, mcLinkFault (Merged p) = Some c → link_sound (Tree_ p) c;
  ps_generators : Forall (generator_sound (Tree_ p)) (mcGenerators (Merged p)) ∧ NoDup (gPath <$> mcGenerators (Merged p));
  ps_diagnostics : Forall (diagnostic_sound (Tree_ p)) (mcDiagnostics (Merged p)) ∧ NoDup (dgStatePath <$> mcDiagnostics (Merged p));
  ps_fleet : fleet_sound ParsePrefix ParseCIDR Addr_String (mcFleet (Merged p));
  ps_modules : ∀ c, mcSoftwareModules (Merged p) = Some c → modules_sound (Tree_ p) c
}.

Lemma accept_bulk_keeps source raw t t' : accept_bulk source raw t = Ok t' → keeps t t'.
Proof. intros (cfg&_&Hm%map_err_ok)%result_bind_ok. by eapply MountBulkData_keeps. Qed.
(** A merge into an empty tree: the tree of the rows, the bulk data on top of
    it, and every block checked. *)
Lemma mergeFiles_inv files t mc : mergeFiles PD DS Quote ParsePrefix ParseCIDR Addr_String range range' New_ files = Ok (t, mc) →
  (∃ rows t0, all_rows Quote files = Ok rows ∧ applyRows range range' New_ ((λ rs, applyDefaults rs.1 rs.2) <$> rows) = Ok t0 ∧ keeps t0 t ∧
     ((∀ lf, lf ∈ files → prBulkData (lfProf lf) = None) → t = t0)) ∧
  ((∀ code paths, mcInformValues mc !! code = Some paths → Forall (leaf_there t) paths) → profile_sound (MkLoaded t mc)).
Proof.
  unfold mergeFiles. intros (rows&Hrows&H)%result_bind_ok.
  apply result_bind_ok in H as (t0&H0&H). apply result_bind_ok in H as (inf&Hinf&H).
  apply result_bind_ok in H as ([ids s1]&Hids&H). apply result_bind_ok in H as ([tr s2]&Htr&H). apply result_bind_ok in H as ([cr s3]&Hcr&H).
  apply result_bind_ok in H as ([per s4]&Hper&H). apply result_bind_ok in H as ([acs s5]&Hacs&H). apply result_bind_ok in H as (deferred&Hdef&H).
  apply result_bind_ok in H as ([ev s6]&Hev&H). apply result_bind_ok in H as ([link s7]&Hlink&H). apply result_bind_ok in H as (an&Han&H).
  apply result_bind_ok in H as (fleet&Hfleet&H). apply result_bind_ok in H as ([t1 s8]&Hbulk&H). apply result_bind_ok in H as ([sm s9]&Hsm&H).
  injection H as <- <-.
  assert (keeps t0 t1) as Hk.
  { refine (once_inv (keeps t0) _ _ _ _ t0 t1 s8 _ (reflexivity _) Hbulk). intros source raw c0 c1 Hc Ha. etrans; [exact Hc|]. by eapply accept_bulk_keeps. }
  split.
  { exists rows, t0. split_and!; [done..|]. intros Hno. rewrite (once_none _ _ _ _ _ Hno) in Hbulk. by injection Hbulk. }
  intros Hinform. constructor; cbn [Tree_ Merged mcInformValues mcDeviceIDPaths mcTransfer mcConnectionRequest mcPeriodicInformPaths mcACSCredentialPaths
    mcDeferredParameters mcGenerators mcFleet mcEventSchedule mcDiagnostics mcSoftwareModules mcLinkFault].
  - exact Hinform.
  - apply (ids_keeps t0 t1 Hk). refine (once_inv (ids_sound t0) _ _ _ _ _ ids s1 _ (or_introl eq_refl) Hids). intros ??????. by eapply accept_ids_ok.
  - apply (transfer_keeps t0 t1 Hk). refine (once_inv (transfer_sound t0) _ _ _ _ _ tr s2 _ _ Htr); [|done]. intros ??????. by eapply accept_transfer_ok.
  - apply (cr_keeps t0 t1 Hk). refine (once_inv (cr_sound t0) _ _ _ _ _ cr s3 _ _ Hcr); [|done]. intros ??????. by eapply accept_cr_ok.
  - apply (periodic_keeps t0 t1 Hk). refine (once_inv (periodic_sound t0) _ _ _ _ _ per s4 _ (or_introl eq_refl) Hper). intros ??????. by eapply accept_periodic_ok.
  - apply (acs_keeps t0 t1 Hk). refine (once_inv (acs_sound t0) _ _ _ _ _ acs s5 _ (or_introl eq_refl) Hacs). intros ??????. by eapply accept_acs_ok.
  - apply (deferred_keeps t0 t1 Hk). by eapply merge_deferred_ok.
  - refine (once_inv events_sound _ _ _ _ _ ev s6 _ _ Hev); [|by split_and!]. intros ??????. by eapply accept_events_ok.
  - intros c Hc. apply (link_keeps t0 t1 Hk).
    refine (once_inv (λ o, ∀ c, o = Some c → link_sound t0 c) _ _ _ _ _ link s7 _ _ Hlink c Hc); [|done]. intros ??????. by eapply accept_link_ok.
  - apply merge_animated_ok in Han as [(HF&HN&_) _]. split; [|done]. eapply Forall_impl; [exact HF|]. intros g. by apply generator_keeps.
  - apply merge_animated_ok in Han as [_ (HF&HN&_)]. split; [|done]. eapply Forall_impl; [exact HF|]. intros d. by apply diagnostic_keeps.
  - by eapply merge_fleet_ok.
  - intros c Hc. refine (once_inv (λ o, ∀ c, o = Some c → modules_sound t1 c) _ _ _ _ _ sm s9 _ _ Hsm c Hc); [|done]. intros ??????. by eapply accept_modules_ok.
Qed.
Lemma load_files_sound files p : load_files PD DS Quote ParsePrefix ParseCIDR Addr_String range range' files = Ok p → profile_sound p.
Proof.
  intros (u&_&([t mc]&Hm&(u'&Hx&[= <-])%result_bind_ok)%result_bind_ok)%result_bind_ok.
  apply mergeFiles_inv in Hm as [_ Hs]. apply Hs. exact (crossCheck_ok t _ u' Hx).
Qed.
End load.

(** C20. A loaded profile keeps what each block's check promises, whatever file
    or directory it comes from. In the tree, writable, and of the type their
    reader needs are the credentials of connection requests, where a scheme is
    named (basic or digest, with a realm), those of the ACS, and the interval,
    the switch and, where named, the time of the periodic inform; in the tree
    and a string, the version of the firmware block; in the tree and writable,
    the deferred parameters, each named once; in the tree, with neither type
    nor permission checked, every path of the Inform lists and of the DeviceId,
    the status of the link fault, and the state and count of the diagnostics.
    Every generator has a positive interval and can be built on its leaf; no
    text of a path has two generators, or two diagnostics. A diagnostic's
    trigger differs from its outcome. Not negative are the throttle window,
    the delays of the event schedule, the apply delay of the firmware, the
    duration and count of a diagnostic and the delays of the software modules,
    and positive the duration of the link fault; the sign of the default
    transfer delay is not checked, its reader taking one that is not positive
    for unset. The fleet has at least one device and a serial pattern, and its
    pools are valid and pass the capacity check for the last instance; the
    software modules have their tables, an execution environment and faults of
    known reasons. *)
Theorem loaded_profile_sound (PD : string → result error Z) (DS : Z → string) (Quote : string → string)
  (ParsePrefix : string → result error prefix) (ParseCIDR : string → result error cidr) (Addr_String : bool → Z → string)
  (range range' : gmap string tableGroup → list (string * tableGroup)) (Decode : string → result error profile)
  (Stat : string → result error bool) (ReadDir : string → result error (list entry)) (ReadFile : string → result error string)
  (FilepathJoin : string → string → string) (path : string) (p : Profile)
  (H : LoadProfile PD DS Quote ParsePrefix ParseCIDR Addr_String range range' Decode Stat ReadDir ReadFile FilepathJoin path = Ok p) :
  profile_sound ParsePrefix ParseCIDR Addr_String p.
Proof.
  unfold LoadProfile in H. apply result_bind_ok in H as ([|]&_&H).
  - apply result_bind_ok in H as (entries&_&H). destruct (_ <$> _) as [|f files]; [done|].
    apply result_bind_ok in H as (loaded&_&H). by eapply load_files_sound.
  - apply result_bind_ok in H as (content&_&(lf&_&H)%result_bind_ok). by eapply load_files_sound.
Qed.

(** ** Conflicts *)

Definition inform_codes (p : profile) : list string :=
  match prInformParameters p with
  | None => []
  | Some ip => omap (λ e : string * string * option (list string), (λ _, e.1.2) <$> e.2) (inform_entries ip)
  end.
(** Two files that declare one block, or the list of one event. *)
Definition clash (p q : profile) : Prop :=
  (some (prDeviceIDPaths p) && some (prDeviceIDPaths q)) || (some (prTransfer p) && some (prTransfer q)) ||
  (some (prConnectionRequest p) && some (prConnectionRequest q)) || (some (prPeriodicInformPaths p) && some (prPeriodicInformPaths q)) ||
  (some (prACSCredentialPaths p) && some (prACSCredentialPaths q)) || (some (prEventSchedule p) && some (prEventSchedule q)) ||
  (some (prLink p) && some (prLink q)) || (some (prFleet p) && some (prFleet q)) || (some (prBulkData p) && some (prBulkData q)) ||
  (some (prSoftwareModules p) && some (prSoftwareModules q)) = true ∨ ∃ code, code ∈ inform_codes p ∧ code ∈ inform_codes q.

Lemma inform_entries_step path (l : list (string * string * option (list string))) agg agg' : then_each (inform_entry path) l agg = Ok agg' →
  (∀ c, is_Some (agg.2 !! c) → is_Some (agg'.2 !! c)) ∧
  ∀ c, c ∈ omap (λ e : string * string * option (list string), (λ _, e.1.2) <$> e.2) l → agg.2 !! c = None ∧ is_Some (agg'.2 !! c).
Proof.
  revert agg; induction l as [|[[k code] vals] l IH]; intros agg; [intros [= <-]; split; [done|by intros c ?%elem_of_nil]|].
  rewrite then_each_cons. intros (a1&H1&H)%result_bind_ok. destruct (IH _ H) as [Hm Hc]. cbn [inform_entry] in H1. cbn [omap list_omap fst snd].
  destruct vals as [v|]; [|injection H1 as <-; done]. destruct (agg.2 !! code) eqn:E; [done|]. injection H1 as <-. cbn [snd] in *.
  assert (∀ c, is_Some (agg.2 !! c) → is_Some (<[code := path]> agg.2 !! c)) as Hup.
  { intros c Hs. destruct (decide (code = c)) as [->|Hne]; [rewrite lookup_insert_eq; by eexists|by rewrite lookup_insert_ne]. }
  split; [intros c Hs; by apply Hm, Hup|]. intros c [->|Hin]%elem_of_cons.
  - split; [done|]. apply Hm. rewrite lookup_insert_eq. by eexists.
  - destruct (Hc c Hin) as [Hn ?]. split; [|done]. destruct (decide (code = c)) as [->|Hne]; [done|]. by rewrite lookup_insert_ne in Hn.
Qed.
Lemma inform_file_step lf agg agg' : inform_file lf agg = Ok agg' →
  (∀ c, is_Some (agg.2 !! c) → is_Some (agg'.2 !! c)) ∧ ∀ c, c ∈ inform_codes (lfProf lf) → agg.2 !! c = None ∧ is_Some (agg'.2 !! c).
Proof.
  unfold inform_file, inform_codes. destruct (prInformParameters _) as [ip|]; [apply inform_entries_step|].
  intros [= <-]. split; [done|by intros c ?%elem_of_nil].
Qed.
Lemma inform_conflict l1 f l2 g l3 code : code ∈ inform_codes (lfProf f) → code ∈ inform_codes (lfProf g) →
  is_ok (merge_inform (l1 ++ f :: l2 ++ g :: l3)) = false.
Proof.
  intros Hf Hg. unfold merge_inform. rewrite then_each_app. destruct (then_each inform_file l1 _) as [a|]; [|done]. cbn [mbind result_bind].
  rewrite then_each_cons. destruct (inform_file f a) as [b|] eqn:Eb; [|done]. cbn [mbind result_bind]. rewrite then_each_app.
  destruct (then_each inform_file l2 b) as [c|] eqn:Ec; [|done]. cbn [mbind result_bind]. rewrite then_each_cons.
  destruct (inform_file g c) as [d|] eqn:Ed; [|done]. exfalso. apply inform_file_step in Eb as [_ Hb]. destruct (Hb code Hf) as [_ Hs].
  apply inform_file_step in Ed as [_ Hd]. destruct (Hd code Hg) as [Hn _].
  refine (_ (then_each_inv (λ a : informs, is_Some (a.2 !! code)) _ _ b c _ Hs Ec)); [rewrite Hn; by intros [? ?]|].
  intros lf s s' _ Hsome Hstep. apply inform_file_step in Hstep as [Hmono _]. by apply Hmono.
Qed.

(** C22. Conflicts between files. Two files of a profile that declare the same
    block, or the parameter list of the same event, are refused, wherever they
    stand among the files and whatever else the files hold. *)
Theorem conflicts_rejected (PD : string → result error Z) (DS : Z → string) (Quote : string → string)
  (ParsePrefix : string → result error prefix) (ParseCIDR : string → result error cidr) (Addr_String : bool → Z → string)
  (range range' : gmap string tableGroup → list (string * tableGroup)) (l1 l2 l3 : list loadedFile) (f g : loadedFile)
  (Hp : lfPath f ≠ "") (Hc : clash (lfProf f) (lfProf g)) :
  is_ok (load_files PD DS Quote ParsePrefix ParseCIDR Addr_String range range' (l1 ++ f :: l2 ++ g :: l3)) = false.
Proof.
  set (files := l1 ++ f :: l2 ++ g :: l3). destruct (load_files _ _ _ _ _ _ _ _ files) as [p|] eqn:E; [|done]. exfalso.
  apply result_bind_ok in E as (u&_&([t mc]&H&_)%result_bind_ok). unfold mergeFiles in H. apply result_bind_ok in H as (rows&_&H).
  apply result_bind_ok in H as (t0&_&H). apply result_bind_ok in H as (inf&Hinf&H).
  apply result_bind_ok in H as ([ids s1]&Hids&H). apply result_bind_ok in H as ([tr s2]&Htr&H). apply result_bind_ok in H as ([cr s3]&Hcr&H).
  apply result_bind_ok in H as ([per s4]&Hper&H). apply result_bind_ok in H as ([acs s5]&Hacs&H). apply result_bind_ok in H as (deferred&_&H).
  apply result_bind_ok in H as ([ev s6]&Hev&H). apply result_bind_ok in H as ([link s7]&Hlink&H). apply result_bind_ok in H as (an&_&H).
  apply result_bind_ok in H as (fleet&(fl&Hfl&_)%result_bind_ok&H). apply result_bind_ok in H as ([t1 s8]&Hbulk&H).
  apply result_bind_ok in H as ([sm s9]&Hsm&_).
  assert (∀ {R C} name (field : profile → option R) (accept : string → R → C → result error C) c x,
    once name field accept files c = Ok x → some (field (lfProf f)) = true → some (field (lfProf g)) = true → False) as Honce.
  { intros R C name field accept c x Hx Hf Hg. pose proof (once_conflict name field accept l1 f l2 g l3 c Hp Hf Hg) as Hno. fold files in Hno. by rewrite Hx in Hno. }
  destruct Hc as [Hc|(code&Hf&Hg)].
  - rewrite !orb_true_iff, !andb_true_iff in Hc. destruct Hc as [[[[[[[[[[]|[]]|[]]|[]]|[]]|[]]|[]]|[]]|[]]|[]]; eauto.
  - pose proof (inform_conflict l1 f l2 g l3 code Hf Hg) as Hno. fold files in Hno. by rewrite Hinf in Hno.
Qed.

(** ** Two files *)

Definition bare : profile :=
  MkProfile [] [] [] None None None None None None [] [] None None [] None None None None.
Definition ex_param (path : string) (typ : Type_) (value : string) (writable : bool) : rawProfileParam :=
  MkRawParam path (Some typ) (Some value) (Some writable) None None.
Definition ex_profile : profile :=
  MkProfile
    [ex_param "D.Maker" TypeString "Acme" false; ex_param "D.Version" TypeString "1.0" false; ex_param "D.User" TypeString "u" true;
     ex_param "D.Pass" TypeString "p" true; ex_param "D.Interval" TypeUnsignedInt "300" true; ex_param "D.Enable" TypeBoolean "true" true;
     ex_param "D.State" TypeString "None" true;
     MkRawParam "D.Rows.{i}.Up" (Some TypeUnsignedInt) None (Some true) (Some 2%Z) (Some (MkInline "uptime" "5s" None None None None None [] ""))]
    [] []
    (Some (MkRawInform (Some ["D.Maker"; "D.Version"]) None (Some ["D.Rows.2.Up"]) None None None))
    (Some (MkDeviceID "D.Maker" "D.Maker" "D.Maker" "D.Maker"))
    (Some (MkRawTransfer "1s" ∅ (Some (MkRawFirmware "D.Version" "5s" None))))
    (Some (MkRawCR " Digest" "sim" "" "D.User" "D.Pass"))
    (Some (MkPaths "D.Interval" "D.Enable" "")) (Some (MkACS "D.User" "D.Pass")) ["D.Interval"] []
    (Some (MkRawFleet 2 0 "" ∅)) (Some (MkRawEvents "1s" "" "" "")) [MkRawDiagnostic "D.State" "" "" "2s" "" 0] None None None None.
Definition ex_duration (s : string) : result error Z := if String.eqb s "" then Err (errorf "empty" []) else Ok 1000000000%Z.
Definition ex_text (_ : Z) : string := "".
Definition ex_quote (s : string) : string := s.
Definition ex_prefix (_ : string) : result error prefix := Err (errorf "prefix" []).
Definition ex_cidr (_ : string) : result error cidr := Err (errorf "cidr" []).
Definition ex_addr (_ : bool) (_ : Z) : string := "".
Definition ex_load : result error Profile :=
  LoadProfile ex_duration ex_text ex_quote ex_prefix ex_cidr ex_addr map_to_list map_to_list (λ _, Ok ex_profile)
    (λ _, Ok false) (λ _, Ok []) (λ _, Ok "") (λ d f, d +:+ "/" +:+ f) "p.yaml".
Definition ex_loaded : Profile := match ex_load with Ok p => p | Err _ => MkLoaded New_ (MkMerged ∅ ∅ (MkDeviceID "" "" "" "") (MkTransferConfig 0 ∅ None) (MkCR "" "" 0 "" "") (MkPaths "" "" "") (MkACS "" "") [] [] (MkFleet 0 0 "" ∅) (MkEvents 0 0 0 0) [] None None) end.
Lemma ex_loads : is_ok ex_load = true.
Proof. vm_compute. reflexivity. Qed.
Lemma ex_loaded_ok : ex_load = Ok ex_loaded.
Proof. pose proof ex_loads as H. unfold ex_loaded. by destruct ex_load. Qed.
Lemma ex_generators : gPath <$> mcGenerators (Merged ex_loaded) = ["D.Rows.1.Up"; "D.Rows.2.Up"].
Proof. vm_compute. reflexivity. Qed.

Lemma loaded_profile_sound_witness :
  leaf_of (Tree_ ex_loaded) "D.Interval" TypeUnsignedInt ∧ Forall (generator_sound (Tree_ ex_loaded)) (mcGenerators (Merged ex_loaded)).
Proof.
  pose proof (loaded_profile_sound ex_duration ex_text ex_quote ex_prefix ex_cidr ex_addr map_to_list map_to_list (λ _, Ok ex_profile)
    (λ _, Ok false) (λ _, Ok []) (λ _, Ok "") (λ d f, d +:+ "/" +:+ f) "p.yaml" ex_loaded ex_loaded_ok) as H.
  split; [|apply (ps_generators _ _ _ _ H)]. destruct (ps_periodic _ _ _ _ H) as [E|(Hi&_)]; [exfalso; revert E; by vm_compute|exact Hi].
Defined.
Lemma conflicts_rejected_witness :
  is_ok (load_files ex_duration ex_text ex_quote ex_prefix ex_cidr ex_addr map_to_list map_to_list
    [MkFile "a.yaml" ex_profile; MkFile "b.yaml" bare; MkFile "c.yaml" ex_profile]) = false.
Proof.
  refine (conflicts_rejected ex_duration ex_text ex_quote ex_prefix ex_cidr ex_addr map_to_list map_to_list [] [MkFile "b.yaml" bare] []
    (MkFile "a.yaml" ex_profile) (MkFile "c.yaml" ex_profile) _ _); [done|left; vm_compute; reflexivity].
Defined.

(** ** What loads although it should not *)

(** A manifest may not have the blocks of a profile, but [bulkData] is not among
    the refused: its subtree ends up in the tree of the manifest. *)
Lemma manifest_keeps_bulk_data :
  let p := MkProfile [ex_param "Unit.Name" TypeString "x" false] [] [] None None None None None None [] [] None None [] None
             (Some (MkBulkData "Device" "HTTP" "JSON" 60 1 (-1) false)) None (Some (MkApp "app" "1" "" "" "")) in
  match LoadAppManifest ex_duration ex_text ex_quote ex_prefix ex_cidr ex_addr map_to_list map_to_list (λ _, Ok p) "" "m.yaml" with
  | Ok m => is_ok (Get (mTree m) "Device.BulkData.Enable")
  | Err _ => false
  end = true.
Proof. vm_compute. reflexivity. Qed.

(** The result count of a diagnostic is not compared with the rows of a table. *)
Lemma unchecked_result_count :
  match load_files ex_duration ex_text ex_quote ex_prefix ex_cidr ex_addr map_to_list map_to_list
    [MkFile "a.yaml" (MkProfile [ex_param "D.State" TypeString "None" true; ex_param "D.Count" TypeUnsignedInt "0" false] [] [] None None None None None None [] [] None None
       [MkRawDiagnostic "D.State" "" "" "" "D.Count" 40] None None None None)] with
  | Ok p => dgResultCount <$> mcDiagnostics (Merged p)
  | Err _ => []
  end = [40%Z].
Proof. vm_compute. reflexivity. Qed.
