(* ===== verification/Diagnostics.v ===== *)
(** * Triggered diagnostics ([internal/diagnostics/diagnostics.go])

    The runner of one CPE as interleaved steps. The context of [OnWrite] is the
    background one ([buildCPEStack] of [cmd/cpe-sim/main.go] passes it), so a
    run ends by its timer or by the run that supersedes it. The writes of the
    ACS and of the rest of the CPE are moves too. *)
From Stdlib Require Import ZArith Lia Ascii String.
From S2P Require Import Prelude GoLib CpeErr Types Node Tree TreeProps Objects Fleet Rows Blocks.

(** ** The model *)

(** The loop over [b], which has room for twenty bytes. *)
Fixpoint itoa_loop (room : nat) (n : Z) (b : string) : string :=
  match room with
  | O => b
  | S room =>
      if (0 <? n)%Z then itoa_loop room (n / 10) (String (ascii_of_N (48 + Z.to_N (n mod 10))) b) else b
  end.
Definition itoa (n : Z) : string :=
  if (n =? 0)%Z then "0"
  else
    let neg := (n <? 0)%Z in
    let b := itoa_loop 20 (if neg then i64 (- n) else n) "" in
    if neg then String "-" b else b.

(** Where the goroutine of a run is: not started, in its [select], past its
    timer, past the count, past the state, gone. *)
Inductive stage := Starting | Waiting (due : Z) | Counting | Finishing | Closing | Ended.
Record run := MkRun { rDiag : DiagnosticConfig; rCancelled : bool; rStage : stage }.
(** A call of [OnWrite]: about to look, or about to take the mutex. *)
Inductive call := Looking (path : string) | Locking (d : DiagnosticConfig).
(** A run is known by its place in [runs]. *)
Record world := MkWorld { clock : Z; tree : Tree; inFlight : gmap string nat; runs : list run; calls : list call }.
Definition set_tree x (w : world) : world := MkWorld (clock w) x (inFlight w) (runs w) (calls w).
Definition set_calls x (w : world) : world := MkWorld (clock w) (tree w) (inFlight w) (runs w) x.
Definition set_stage (x : stage) (r : run) : run := MkRun (rDiag r) (rCancelled r) x.
Definition cancel (r : run) : run := MkRun (rDiag r) true (rStage r).
Definition set_run (i : nat) (r : run) (w : world) : world := MkWorld (clock w) (tree w) (inFlight w) (<[i := r]> (runs w)) (calls w).

Section runner.
Context (diags : list DiagnosticConfig).

(** [New] *)
Definition byGap : gmap string DiagnosticConfig := foldl (λ m d, <[dgStatePath d := d]> m) ∅ diags.
Definition New (t : Tree) (now : Z) : world := MkWorld now t ∅ [] [].

(** [OnWrite], up to the mutex, and under it. *)
Definition look (t : Tree) (path : string) : option DiagnosticConfig :=
  d ← byGap !! path;
  match Get t path with
  | Ok v => if String.eqb (Raw v) (dgTrigger d) then Some d else None
  | Err _ => None
  end.
Definition start (d : DiagnosticConfig) (w : world) : world :=
  let path := dgStatePath d in
  let running := match inFlight w !! path with Some prev => alter cancel prev (runs w) | None => runs w end in
  MkWorld (clock w) (tree w) (<[path := length (runs w)]> (inFlight w)) (running ++ [MkRun d false Starting]) (calls w).

(** [complete] *)
Definition write_system (path raw : string) (t : Tree) : Tree := (SetSystem t path raw).1.1.
Definition write_count (d : DiagnosticConfig) (t : Tree) : Tree :=
  if String.eqb (dgCountPath d) "" then t else write_system (dgCountPath d) (itoa (dgResultCount d)) t.
Definition close (i : nat) (r : run) (w : world) : world :=
  let path := dgStatePath (rDiag r) in
  let left := if bool_decide (inFlight w !! path = Some i) then delete path (inFlight w) else inFlight w in
  MkWorld (clock w) (tree w) left (<[i := set_stage Ended r]> (runs w)) (calls w).

(** A write of the ACS, after which the handler calls [OnWrite] when the value
    changed; any other change of the tree; a call's next part; a run's next
    part; the timer or the cancellation picked by the [select]. *)
Inductive move :=
| Write (path raw : string) | Other (t : Tree) | Call (j : nat) | Timer (i : nat) | Cancelled (i : nat) | Go (i : nat) | Tick (now : Z).
Definition run_goes (i : nat) (r : run) (w : world) : option world :=
  let d := rDiag r in
  match rStage r with
  | Starting => Some (set_run i (set_stage (Waiting (clock w + dgDuration d)) r) w)
  | Counting => Some (set_run i (set_stage Finishing r) (set_tree (write_count d (tree w)) w))
  | Finishing => Some (set_run i (set_stage Closing r) (set_tree (write_system (dgStatePath d) (dgComplete d) (tree w)) w))
  | Closing => Some (close i r w)
  | Waiting _ | Ended => None
  end.
Definition perform (m : move) (w : world) : option world :=
  match m with
  | Write path raw =>
      match Get (tree w) path with
      | Ok old =>
          if Writable old then
            match Set_ (tree w) path (with_raw raw old) with
            | (t, _, Ok _) => Some (set_calls (calls w ++ (if String.eqb raw (Raw old) then [] else [Looking path])) (set_tree t w))
            | _ => None
            end
          else None
      | Err _ => None
      end
  | Other t => Some (set_tree t w)
  | Call j =>
      c ← calls w !! j;
      match c with
      | Looking path =>
          match look (tree w) path with
          | Some d => Some (set_calls (<[j := Locking d]> (calls w)) w)
          | None => Some (set_calls (delete j (calls w)) w)
          end
      | Locking d => Some (start d (set_calls (delete j (calls w)) w))
      end
  | Timer i =>
      r ← runs w !! i;
      match rStage r with
      | Waiting due => if (due <=? clock w)%Z then Some (set_run i (set_stage Counting r) w) else None
      | _ => None
      end
  | Cancelled i =>
      r ← runs w !! i;
      match rStage r with
      | Waiting _ => if rCancelled r then Some (set_run i (set_stage Closing r) w) else None
      | _ => None
      end
  | Go i => r ← runs w !! i; run_goes i r w
  | Tick now => if (clock w <=? now)%Z then Some (MkWorld now (tree w) (inFlight w) (runs w) (calls w)) else None
  end.
End runner.
