(* ===== verification/DiagnosticsProps.v ===== *)
(** * What the diagnostics runner promises

    One run of a diagnostic at a time, the count before the state, and a
    trigger that never stays unanswered, in every interleaving; and what a
    superseded run can still do. *)
From Stdlib Require Import ZArith Lia Ascii String.
From S2P Require Import Prelude GoLib CpeErr Types Node Tree TreeProps Objects Fleet Rows Blocks Diagnostics.

(** ** [itoa] *)

Lemma digit_char m : (m < 10)%N → ascii_of_N (48 + m) = pretty_N_char m.
Proof. intros H. destruct m as [|p]; [done|]. do 4 (destruct p as [p|p|]; try lia; try done). Qed.
Lemma itoa_loop_pretty room n b : (0 ≤ n < 10 ^ Z.of_nat room)%Z → itoa_loop room n b = pretty_N_go (Z.to_N n) b.
Proof.
  revert n b; induction room as [|room IH]; intros n b Hn; cbn [itoa_loop].
  - assert (n = 0)%Z as -> by (cbn in Hn; lia). by rewrite pretty_N_go_0.
  - destruct (Z.ltb_spec 0 n) as [H|H]; [|assert (n = 0)%Z as -> by lia; by rewrite pretty_N_go_0].
    rewrite (pretty_N_go_step (Z.to_N n)) by lia. rewrite IH.
    + change 10%N with (Z.to_N 10). rewrite <- Z2N.inj_div, <- Z2N.inj_mod by lia. f_equal. f_equal. apply digit_char.
      pose proof (Z.mod_pos_bound n 10). lia.
    + split; [apply Z.div_pos; lia|]. apply Z.div_lt_upper_bound; [lia|]. rewrite Nat2Z.inj_succ, Z.pow_succ_r in Hn by lia. lia.
Qed.
(** The hand-written [itoa] is [strconv.Itoa] on every [int] but the least,
    whose negation overflows. *)
Theorem itoa_is_Itoa (n : Z) (H : (- 2 ^ 63 < n < 2 ^ 63)%Z) : itoa n = Strconv.Itoa n.
Proof.
  assert (∀ m, (0 < m < 2 ^ 63)%Z → itoa_loop 20 m "" = Strconv.Itoa m) as Hpos.
  { intros m Hm. rewrite itoa_loop_pretty by (change (10 ^ Z.of_nat 20)%Z with 100000000000000000000%Z; lia).
    unfold Strconv.Itoa. by destruct m as [|p|p]; [lia| |lia]. }
  unfold itoa. destruct (Z.eqb_spec n 0) as [->|H0]; [done|]. destruct (Z.ltb_spec n 0) as [Hn|Hn]; [|by apply Hpos; lia].
  rewrite i64_small by lia. rewrite Hpos by lia. unfold Strconv.Itoa. by destruct n as [|p|p]; [lia|lia|].
Qed.
Lemma itoa_least : itoa (- 2 ^ 63) = "-".
Proof. reflexivity. Qed.

(** ** Trees *)

(** [q] reads the same in both trees, up to its error. *)
Definition same_at (t t' : Tree) (q : string) : Prop := ∀ u, Get t' q = Ok u ↔ Get t q = Ok u.
Lemma write_reads t t' path p w : parsePath path = Ok p → (∀ q, view t' q = spec_update p w (view t) q) →
  Get t' path = Ok w ∧ ∀ q, parsePath q ≠ parsePath path → same_at t t' q.
Proof.
  intros Hp Hv. split.
  - apply Get_view. exists p. split; [done|]. rewrite Hv. unfold spec_update. by rewrite decide_True.
  - intros q Hq u. rewrite !Get_view. apply exist_proper. intros x. split; intros [Hx Hu]; (split; [done|]); revert Hu;
      rewrite Hv; unfold spec_update; rewrite decide_False by congruence; done.
Qed.
Lemma write_system_reads t path raw v : Get t path = Ok v → valid_raw (vType v) raw = true →
  Get (write_system path raw t) path = Ok (with_raw raw v) ∧ ∀ q, parsePath q ≠ parsePath path → same_at t (write_system path raw t) q.
Proof.
  intros Hv Hr. destruct (SetSystem_writes t path raw v Hv Hr) as (t'&cs&p&E&Hp&Hq). unfold write_system. rewrite E. by eapply write_reads.
Qed.
Lemma Set_reads t path v t' cs u : Set_ t path v = (t', cs, Ok u) → Get t' path = Ok v ∧ ∀ q, parsePath q ≠ parsePath path → same_at t t' q.
Proof.
  intros E. destruct (Set_inv t path v) as [[e E']|(p&m&old&Hp&Hm&Hl&Hw&E')]; [congruence|].
  pose proof (Set_refines t path v p Hp) as H. destruct (spec_set (view t) p v) as [s'|f] eqn:Es; [|destruct H as (e&H&_); congruence].
  destruct H as (t1&cs1&E1&_&Hq). assert (t1 = t') as -> by congruence.
  eapply write_reads; [exact Hp|]. intros q. rewrite Hq. unfold spec_set in Es. destruct (view t p) as [o|]; [|done].
  destruct (negb _); [done|]. destruct (negb _); [done|]. destruct (negb _); [done|]. by injection Es as <-.
Qed.

(** ** The device *)

Section runner.
Context (diags : list DiagnosticConfig).

Definition watched (path : string) : Prop := ∃ d, d ∈ diags ∧ (path = dgStatePath d ∨ path = dgCountPath d ∧ path ≠ "").
(** The loader's promises, and that no leaf has two spellings or two roles. *)
Record apart : Prop := {
  ap_states : NoDup (dgStatePath <$> diags);
  ap_trigger : ∀ d, d ∈ diags → dgTrigger d ≠ dgComplete d;
  ap_spelling : ∀ p q, watched p → watched q → parsePath p = parsePath q → p = q;
  ap_roles : ∀ d d', d ∈ diags → d' ∈ diags → dgStatePath d ≠ dgCountPath d';
  ap_counts : ∀ d d', d ∈ diags → d' ∈ diags → dgCountPath d ≠ "" → dgCountPath d = dgCountPath d' → dgResultCount d = dgResultCount d'
}.
(** The leaves take what a run writes, and the ACS cannot write a count. *)
Record fit (t : Tree) : Prop := {
  fit_state : ∀ d, d ∈ diags → ∃ v, Get t (dgStatePath d) = Ok v ∧ valid_raw (vType v) (dgComplete d) = true;
  fit_count : ∀ d, d ∈ diags → dgCountPath d ≠ "" →
    ∃ v, Get t (dgCountPath d) = Ok v ∧ valid_raw (vType v) (itoa (dgResultCount d)) = true ∧ Writable v = false
}.
(** No state is at its trigger. *)
Definition quiet (t : Tree) : Prop := ∀ d v, d ∈ diags → Get t (dgStatePath d) = Ok v → Raw v ≠ dgTrigger d.
(** The ACS spells a watched leaf as the profile does; the rest of the CPE keeps
    off watched leaves. *)
Definition allowed (m : move) (w : world) : Prop :=
  match m with
  | Write path _ => ∀ p, watched p → parsePath path = parsePath p → path = p
  | Other t => ∀ p, watched p → Get t p = Get (tree w) p
  | _ => True
  end.
Definition step (w w' : world) : Prop := ∃ m, allowed m w ∧ perform diags m w = Some w'.
Definition reachable (w : world) : Prop := ∃ t now, fit t ∧ quiet t ∧ rtc step (New t now) w.

Definition state_of (r : run) : string := dgStatePath (rDiag r).
Definition active (s : stage) : bool := match s with Closing | Ended => false | _ => true end.
Definition counted (t : Tree) (d : DiagnosticConfig) : Prop :=
  dgCountPath d ≠ "" → ∃ v, Get t (dgCountPath d) = Ok v ∧ Raw v = itoa (dgResultCount d).
Definition calls_for (c : call) (path : string) : Prop :=
  match c with Looking p => p = path | Locking d => dgStatePath d = path ∧ d ∈ diags end.

Lemma byGap_spec : NoDup (dgStatePath <$> diags) → ∀ p d, byGap diags !! p = Some d ↔ d ∈ diags ∧ dgStatePath d = p.
Proof.
  unfold byGap. induction diags as [|x l IH] using rev_ind; intros HN p d; [split; [done|by intros [?%elem_of_nil _]]|].
  rewrite fmap_app in HN. apply NoDup_app in HN as (HN&Hx&_). rewrite foldl_app. cbn [foldl]. rewrite lookup_insert_Some, (IH HN), elem_of_app, list_elem_of_singleton.
  split; [intros [[<- ->]|(Hne&?&?)]; auto|]. intros [[Hd| ->] <-]; [right|by left]. split; [|done]. intros E. apply (Hx (dgStatePath d)).
  - by apply list_elem_of_fmap_2.
  - rewrite <- E. left.
Qed.

(** *** Runs *)

Record inv (w : world) : Prop := {
  in_diags : ∀ i r, runs w !! i = Some r → rDiag r ∈ diags;
  in_alive : ∀ i r, runs w !! i = Some r → rCancelled r = false → rStage r ≠ Ended → inFlight w !! state_of r = Some i;
  in_entry : ∀ p i, inFlight w !! p = Some i → ∃ r, runs w !! i = Some r ∧ state_of r = p ∧ rCancelled r = false ∧ rStage r ≠ Ended;
  in_calls : ∀ d, Locking d ∈ calls w → d ∈ diags
}.
Lemma inv_new t now : inv (New t now).
Proof. split; cbn; [done..|by intros ? ? ?%lookup_empty_Some|by intros ? ?%elem_of_nil]. Qed.
(** A run goes on. *)
Lemma inv_stage w i r s : inv w → runs w !! i = Some r → rStage r ≠ Ended → s ≠ Ended → inv (set_run i (set_stage s r) w).
Proof.
  intros [H1 H2 H3 H4] Hi Hr Hs. split; cbn; [| | |done].
  - intros j x [(<-&<-&_)|[_ Hx]]%list_lookup_insert_Some; [exact (H1 _ _ Hi)|by eapply H1].
  - intros j x [(<-&<-&_)|[_ Hx]]%list_lookup_insert_Some; [intros Hc _; by apply (H2 _ r)|by eapply H2].
  - intros p j (x&Hx&Hp&Hc&Hx')%H3. destruct (decide (i = j)) as [<-|Hne].
    + rewrite Hi in Hx. injection Hx as <-. exists (set_stage s r). split_and!; [|done..]. apply list_lookup_insert_eq. by eapply lookup_lt_Some.
    + exists x. by rewrite list_lookup_insert_ne.
Qed.
Lemma inv_set_tree w t : inv w → inv (set_tree t w).
Proof. by intros [? ? ? ?]. Qed.
Lemma inv_set_calls w l : inv w → (∀ d, Locking d ∈ l → d ∈ diags) → inv (set_calls l w).
Proof. by intros [? ? ? _] H. Qed.
Lemma inv_close w i r : inv w → runs w !! i = Some r → inv (close i r w).
Proof.
  intros [H1 H2 H3 H4] Hi. split; cbn; [| | |done].
  - intros j x [(<-&<-&_)|[_ Hx]]%list_lookup_insert_Some; [exact (H1 _ _ Hi)|by eapply H1].
  - intros j x [(<-&<-&_)|[Hne Hx]]%list_lookup_insert_Some Hc Hs; [done|]. pose proof (H2 _ _ Hx Hc Hs) as Hj. case_bool_decide as E; [|done].
    rewrite lookup_delete_ne; [done|]. unfold state_of in *. intros E'. congruence.
  - intros p j Hp. assert (inFlight w !! p = Some j ∧ (j = i → p ≠ dgStatePath (rDiag r))) as [Hw Hj].
    { case_bool_decide as E; [apply lookup_delete_Some in Hp as [Hne Hp]; split; [done|by intros _ ->]|]. split; [done|]. intros -> ->. done. }
    destruct (H3 _ _ Hw) as (x&Hx&Hpx&Hc&Hs). destruct (decide (i = j)) as [->|Hne].
    + rewrite Hi in Hx. injection Hx as <-. destruct (Hj eq_refl). by rewrite <- Hpx.
    + exists x. by rewrite list_lookup_insert_ne.
Qed.
Lemma inv_start w d : inv w → d ∈ diags → inv (start d w).
Proof.
  intros [H1 H2 H3 H4] Hd. unfold start. set (running := match inFlight w !! dgStatePath d with Some prev => alter cancel prev (runs w) | None => runs w end).
  assert (length running = length (runs w)) as Hlen by (unfold running; destruct (_ !! _); [apply length_alter|done]).
  assert (∀ j x, running !! j = Some x → ∃ y, runs w !! j = Some y ∧ rDiag x = rDiag y ∧ rStage x = rStage y ∧
    (rCancelled x = false → rCancelled y = false ∧ inFlight w !! dgStatePath d ≠ Some j)) as Hrun.
  { intros j x. unfold running. destruct (inFlight w !! dgStatePath d) as [prev|] eqn:E; [|intros Hx; exists x; done].
    intros Hx. destruct (decide (prev = j)) as [->|Hne].
    - rewrite list_lookup_alter_eq in Hx. destruct (runs w !! j) as [y|] eqn:Ey; [|done]. injection Hx as <-. exists y. done.
    - rewrite list_lookup_alter_ne in Hx by done. exists x. split_and!; [done..|]. intros ->. split; [done|congruence]. }
  split; cbn; [| | |done].
  - intros j x [Hx|[_ Hx]]%lookup_app_Some; [destruct (Hrun _ _ Hx) as (y&Hy&->&_); by eapply H1|].
    apply list_lookup_singleton_Some in Hx as [_ <-]. done.
  - intros j x [Hx|[Hj Hx]]%lookup_app_Some Hc Hs.
    + destruct (Hrun _ _ Hx) as (y&Hy&Ed&Es&Hyc). destruct (Hyc Hc) as [Hc' Hne]. rewrite Es in Hs. pose proof (H2 _ _ Hy Hc' Hs) as Hj.
      unfold state_of in *. rewrite Ed. rewrite lookup_insert_ne; [done|]. intros E. congruence.
    + apply list_lookup_singleton_Some in Hx as [Hx <-]. cbn. rewrite lookup_insert_eq. f_equal. lia.
  - intros p j [[<- <-]|[Hne Hp]]%lookup_insert_Some.
    + exists (MkRun d false Starting). split_and!; [|done..]. rewrite lookup_app_r by lia. by rewrite Hlen, Nat.sub_diag.
    + destruct (H3 _ _ Hp) as (x&Hx&Hpx&Hc&Hs). exists x. split_and!; [|done..]. apply lookup_app_l_Some. unfold running.
      destruct (inFlight w !! dgStatePath d) as [prev|] eqn:E; [|done]. rewrite list_lookup_alter_ne; [done|]. intros ->.
      destruct (H3 _ _ E) as (y&Hy&Hpy&_). rewrite Hy in Hx. injection Hx as <-. congruence.
Qed.

(** *** Leaves *)

(** Watched leaves keep their type and permission. *)
Definition alike (t t' : Tree) : Prop :=
  ∀ p v, watched p → Get t p = Ok v → ∃ v', Get t' p = Ok v' ∧ vType v' = vType v ∧ Writable v' = Writable v.
Lemma watched_state d : d ∈ diags → watched (dgStatePath d).
Proof. intros Hd. exists d. auto. Qed.
Lemma watched_count d : d ∈ diags → dgCountPath d ≠ "" → watched (dgCountPath d).
Proof. intros Hd Hc. exists d. auto. Qed.
#[local] Hint Resolve watched_state watched_count : core.
Lemma fit_alike t t' : alike t t' → fit t → fit t'.
Proof.
  intros Ha [Hs Hc]. split.
  - intros d Hd. destruct (Hs d Hd) as (v&Hv&Hx). destruct (Ha _ v (watched_state d Hd) Hv) as (v'&Hv'&Ht&_). exists v'. by rewrite Ht.
  - intros d Hd Hne. destruct (Hc d Hd Hne) as (v&Hv&Hx&Hw). destruct (Ha _ v (watched_count d Hd Hne) Hv) as (v'&Hv'&Ht&Hw'). exists v'. by rewrite Ht, Hw'.
Qed.
Lemma counted_same t t' d : (dgCountPath d ≠ "" → same_at t t' (dgCountPath d)) → counted t d → counted t' d.
Proof. intros Hs Hc Hne. destruct (Hc Hne) as (v&Hv&?). exists v. split; [by apply Hs|done]. Qed.
(** A write to one watched leaf, or to none. *)
Lemma alike_write t t' path v raw : (∀ p, watched p → p ≠ path → same_at t t' p) →
  Get t path = Ok v → Get t' path = Ok (with_raw raw v) → alike t t'.
Proof.
  intros Hs Hv Hv' p u Hp Hu. destruct (decide (p = path)) as [->|Hne]; [|exists u; split; [by apply Hs|done]].
  rewrite Hv in Hu. injection Hu as <-. by exists (with_raw raw v).
Qed.

Context (ap : apart).
Lemma wrote t path raw v : watched path → Get t path = Ok v → valid_raw (vType v) raw = true →
  Get (write_system path raw t) path = Ok (with_raw raw v) ∧ ∀ p, watched p → p ≠ path → same_at t (write_system path raw t) p.
Proof.
  intros Hw Hv Hr. destruct (write_system_reads t path raw v Hv Hr) as [H1 H2]. split; [done|]. intros p Hp Hne. apply H2.
  intros E. by apply Hne, (ap_spelling ap).
Qed.
Lemma wrote_count t d : fit t → d ∈ diags → alike t (write_count d t) ∧ counted (write_count d t) d ∧
  ∀ p, watched p → p ≠ dgCountPath d → same_at t (write_count d t) p.
Proof.
  intros Hf Hd. unfold write_count. destruct (String.eqb_spec (dgCountPath d) "") as [E|Hne].
  { split_and!; [intros p v _ Hv; by exists v|by intros ?|done]. }
  destruct (fit_count _ Hf d Hd Hne) as (v&Hv&Hr&_). destruct (wrote t _ _ v (watched_count d Hd Hne) Hv Hr) as [H1 H2].
  split_and!; [by eapply alike_write|intros _; by eexists|done].
Qed.
Lemma wrote_state t d : fit t → d ∈ diags → let t' := write_system (dgStatePath d) (dgComplete d) t in
  alike t t' ∧ (∀ v, Get t' (dgStatePath d) = Ok v → Raw v = dgComplete d) ∧ is_ok (Get t' (dgStatePath d)) = true ∧
  ∀ p, watched p → p ≠ dgStatePath d → same_at t t' p.
Proof.
  intros Hf Hd. destruct (fit_state _ Hf d Hd) as (v&Hv&Hr). destruct (wrote t _ _ v (watched_state d Hd) Hv Hr) as [H1 H2].
  split_and!; [by eapply alike_write|rewrite H1; by intros u [= <-]|by rewrite H1|done].
Qed.
Lemma state_inj d d' : d ∈ diags → d' ∈ diags → dgStatePath d = dgStatePath d' → d = d'.
Proof.
  intros H1 H2 E. pose proof (byGap_spec (ap_states ap) (dgStatePath d')) as H.
  pose proof (proj2 (H d) (conj H1 E)) as E1. pose proof (proj2 (H d') (conj H2 eq_refl)) as E2. congruence.
Qed.

(** *** The invariant *)

(** [d] is on its way: a call will look at its leaf, or a run will complete it. *)
Definition under_way (w : world) (path : string) : Prop :=
  (∃ c, c ∈ calls w ∧ calls_for c path) ∨
  ∃ i r, inFlight w !! path = Some i ∧ runs w !! i = Some r ∧ active (rStage r) = true.
Record good (w : world) : Prop := {
  gd_inv : inv w;
  gd_fit : fit (tree w);
  gd_count : ∀ i r, runs w !! i = Some r → rStage r = Finishing → counted (tree w) (rDiag r);
  gd_on : ∀ d v, d ∈ diags → Get (tree w) (dgStatePath d) = Ok v → Raw v = dgTrigger d → under_way w (dgStatePath d)
}.
Lemma good_new t now : fit t → quiet t → good (New t now).
Proof.
  intros Hf Hq. split; [apply inv_new|done|by intros ? ? ?|]. intros d v Hd Hv Hr. by destruct (Hq d v Hd Hv).
Qed.
(** The tree changes, and nothing of the runs. *)
Lemma good_tree w t l : good w → alike (tree w) t → (∀ d, d ∈ diags → dgCountPath d ≠ "" → same_at (tree w) t (dgCountPath d)) →
  (∀ c, c ∈ calls w → c ∈ l) → (∀ d, Locking d ∈ l → Locking d ∈ calls w) →
  (∀ d v, d ∈ diags → Get t (dgStatePath d) = Ok v → Raw v = dgTrigger d →
    (∃ v, Get (tree w) (dgStatePath d) = Ok v ∧ Raw v = dgTrigger d) ∨ Looking (dgStatePath d) ∈ l) →
  good (set_calls l (set_tree t w)).
Proof.
  intros [Hi Hf Hc Hon] Ha Hs Hl Hl' Ht. split; cbn.
  - apply inv_set_calls; [by apply inv_set_tree|]. intros d Hd. by apply (in_calls _ Hi), Hl'.
  - by eapply fit_alike.
  - intros i r Hr Hst. eapply counted_same; [apply Hs; by eapply in_diags|by eapply Hc].
  - intros d v Hd Hv Hr. destruct (Ht d v Hd Hv Hr) as [(u&Hu&Hru)|Hin]; [|left; exists (Looking (dgStatePath d)); done].
    destruct (Hon d u Hd Hu Hru) as [(c&Hc'&Hp)|Hrun]; [left; exists c; auto|by right].
Qed.
(** A run goes on, and the leaves it does not own read the same. *)
Lemma good_stage w i r s t : good w → runs w !! i = Some r → rStage r ≠ Ended → s ≠ Ended → alike (tree w) t →
  (∀ j x, runs w !! j = Some x → rStage x = Finishing → counted t (rDiag x)) → (s = Finishing → counted t (rDiag r)) →
  (∀ d, d ∈ diags → d ≠ rDiag r → same_at (tree w) t (dgStatePath d)) →
  (∀ v, Get t (state_of r) = Ok v → Raw v = dgTrigger (rDiag r) →
     (∃ v, Get (tree w) (state_of r) = Ok v ∧ Raw v = dgTrigger (rDiag r)) ∧ (inFlight w !! state_of r = Some i → active s = true)) →
  good (set_run i (set_stage s r) (set_tree t w)).
Proof.
  intros [Hi Hf Hc Hon] Hr Hne Hs Ha Hcj Hcs Hst Hown. pose proof (in_diags _ Hi _ _ Hr) as Hrd. split; cbn.
  - apply (inv_stage (set_tree t w)); [by apply inv_set_tree|done..].
  - by eapply fit_alike.
  - intros j x [(<-&<-&_)|[_ Hx]]%list_lookup_insert_Some Hx'; [by apply Hcs|by eapply Hcj].
  - intros d v Hd Hv Hrw.
    assert ((∃ v, Get (tree w) (dgStatePath d) = Ok v ∧ Raw v = dgTrigger d) ∧ (inFlight w !! dgStatePath d = Some i → active s = true)) as [(u&Hu&Hru) Hact].
    { destruct (decide (dgStatePath d = state_of r)) as [E|E].
      - apply state_inj in E as E'; [|done..]. subst d. by apply (Hown v).
      - split; [|intros Hin; destruct (in_entry _ Hi _ _ Hin) as (x&Hx&Hp&_); rewrite Hr in Hx; injection Hx as <-; by symmetry in Hp].
        exists v. split; [|done]. apply (Hst d); [done|intros ->; done|done]. }
    destruct (Hon d u Hd Hu Hru) as [Hcall|(j&x&Hj&Hx&Hax)]; [by left|right]. cbn. destruct (decide (i = j)) as [<-|Hij].
    + exists i, (set_stage s r). rewrite list_lookup_insert_eq by (by eapply lookup_lt_Some). auto.
    + exists j, x. by rewrite list_lookup_insert_ne.
Qed.
Lemma alike_refl t : alike t t.
Proof. intros p v _ Hv. by exists v. Qed.
(** The tree stays. *)
Lemma good_moves w i r s : good w → runs w !! i = Some r → rStage r ≠ Ended → s ≠ Ended → s ≠ Finishing →
  (inFlight w !! state_of r = Some i → active s = true) → good (set_run i (set_stage s r) w).
Proof.
  intros Hg Hr Hne Hs Hf Hact. assert (set_tree (tree w) w = w) as E by (by destruct w).
  rewrite <- E. rewrite <- E in Hr. apply (good_stage (set_tree (tree w) w)); rewrite E in *; try done; [apply alike_refl|by intros j x; apply (gd_count _ Hg)|].
  intros v Hv Hrw. split; [by exists v|done].
Qed.

Lemma good_write w path raw w' : good w → allowed (Write path raw) w → perform diags (Write path raw) w = Some w' → good w'.
Proof.
  intros Hg Ha. cbn. destruct (Get (tree w) path) as [old|] eqn:Eg; [|done]. destruct (Writable old) eqn:Ew; [|done].
  destruct (Set_ (tree w) path (with_raw raw old)) as [[t cs] [u|]] eqn:Es; [|done]. intros [= <-]. apply Set_reads in Es as [Hv Hq].
  assert (∀ p, watched p → p ≠ path → same_at (tree w) t p) as Hs.
  { intros p Hp Hne. apply Hq. intros E. symmetry in E. by apply Hne, eq_sym, Ha. }
  assert (∀ d, d ∈ diags → dgCountPath d = path → path ≠ "" → False) as Hnc.
  { intros d Hd E Hne. subst path. destruct (fit_count _ (gd_fit _ Hg) d Hd Hne) as (v&Hv'&_&Hw). congruence. }
  apply (good_tree w); [done|by eapply alike_write| | | |].
  - intros d Hd Hne. apply Hs; [by apply watched_count|]. intros E. apply (Hnc d Hd E). congruence.
  - intros c Hc. apply elem_of_app. by left.
  - intros d [?|Hd]%elem_of_app; [done|]. destruct (String.eqb _ _); [by apply elem_of_nil in Hd|by apply list_elem_of_singleton in Hd].
  - intros d v Hd Hdv Hr. destruct (decide (dgStatePath d = path)) as [E|E].
    + rewrite E in Hdv |- *. rewrite Hv in Hdv. injection Hdv as <-. cbn [Raw with_raw] in Hr. destruct (String.eqb_spec raw (Raw old)) as [Er|Er].
      * left. exists old. split; [done|]. congruence.
      * right. apply elem_of_app. right. left.
    + left. exists v. split; [|done]. by apply (Hs (dgStatePath d)); auto.
Qed.
Lemma good_call w j w' : good w → perform diags (Call j) w = Some w' → good w'.
Proof.
  intros Hg. cbn. intros (c&Hj&H)%bind_Some. assert (∀ c', c' ∈ calls w → c' ∈ delete j (calls w) ∨ c' = c) as Hdel.
  { intros c' [k Hk]%list_elem_of_lookup. destruct (decide (k = j)) as [->|Hne]; [right; congruence|left].
    apply list_elem_of_lookup. destruct (decide (k < j)) as [Hlt|Hge]; [exists k; by rewrite list_lookup_delete_lt|].
    exists (k - 1). rewrite list_lookup_delete_ge by lia. rewrite <- Hk. f_equal. lia. }
  assert (∀ c', c' ∈ delete j (calls w) → c' ∈ calls w) as Hin by (intros c'; apply list_elem_of_delete_inv).
  destruct c as [path|d].
  - destruct (look diags (tree w) path) as [d|] eqn:El; injection H as <-.
    + unfold look in El. apply bind_Some in El as (d'&Hd'&El). apply (byGap_spec (ap_states ap)) in Hd' as [Hd' Hp].
      destruct (Get (tree w) path); [|done]. destruct (String.eqb _ _); [|done]. injection El as ->.
      destruct Hg as [Hi Hf Hc Hon]. split; cbn; [|done..|].
      * apply inv_set_calls; [done|]. intros x [k [(_&[= <-]&_)|[_ Hk]]%list_lookup_insert_Some]%list_elem_of_lookup; [done|].
        apply (in_calls _ Hi). by eapply list_elem_of_lookup_2.
      * intros x v Hx Hv Hr. destruct (Hon x v Hx Hv Hr) as [(c&[k Hk]%list_elem_of_lookup&Hcp)|?]; [left|by right].
        destruct (decide (k = j)) as [->|Hne].
        -- rewrite Hj in Hk. injection Hk as <-. exists (Locking d). split; [|split; [congruence|done]]. eapply list_elem_of_lookup_2, list_lookup_insert_eq. by eapply lookup_lt_Some.
        -- exists c. split; [|done]. apply (list_elem_of_lookup_2 _ k). cbn. by rewrite list_lookup_insert_ne.
    + destruct Hg as [Hi Hf Hc Hon]. split; cbn; [|done..|].
      * apply inv_set_calls; [done|]. intros x Hx. by apply (in_calls _ Hi), Hin.
      * intros x v Hx Hv Hr. destruct (Hon x v Hx Hv Hr) as [(c&Hc'&Hcp)|?]; [left|by right]. destruct (Hdel c Hc') as [?| ->]; [by exists c|].
        exfalso. cbn in Hcp. subst path. unfold look in El. rewrite (proj2 (byGap_spec (ap_states ap) _ x) (conj Hx eq_refl)) in El.
        cbn in El. rewrite Hv in El. by destruct (String.eqb_spec (Raw v) (dgTrigger x)).
  - injection H as <-. destruct Hg as [Hi Hf Hc Hon]. assert (d ∈ diags) as Hd by (apply (in_calls _ Hi); by eapply list_elem_of_lookup_2).
    split.
    + apply inv_start; [|done]. apply inv_set_calls; [done|]. intros x Hx. by apply (in_calls _ Hi), Hin.
    + done.
    + unfold start. cbn. intros i r [Hr|[_ Hr]]%lookup_app_Some Hs.
      * destruct (inFlight w !! dgStatePath d) as [prev|]; [|by eapply Hc].
        destruct (decide (prev = i)) as [<-|Hne]; [|rewrite list_lookup_alter_ne in Hr by done; by eapply Hc].
        rewrite list_lookup_alter_eq in Hr. destruct (runs w !! prev) as [x|] eqn:Ex; [|done]. injection Hr as <-. by apply (Hc prev x).
      * apply list_lookup_singleton_Some in Hr as [_ <-]. done.
    + unfold start. cbn. intros x v Hx Hv Hr. destruct (decide (dgStatePath x = dgStatePath d)) as [E|E].
      { right. exists (length (runs w)), (MkRun d false Starting). cbn. rewrite E, lookup_insert_eq. split_and!; [done| |done].
        destruct (inFlight w !! dgStatePath d); rewrite lookup_app_r by (rewrite ?length_alter; lia); rewrite ?length_alter; by rewrite Nat.sub_diag. }
      destruct (Hon x v Hx Hv Hr) as [(c&Hc'&Hcp)|(i&r&Hi'&Hr'&Ha)].
      * left. destruct (Hdel c Hc') as [?| ->]; [by exists c|]. by destruct Hcp as [[=]%eq_sym _].
      * right. exists i, r. cbn. rewrite lookup_insert_ne by done. split_and!; [done| |done]. apply lookup_app_l_Some.
        destruct (inFlight w !! dgStatePath d) as [prev|] eqn:Ep; [|done]. rewrite list_lookup_alter_ne; [done|]. intros ->.
        destruct (in_entry _ Hi _ _ Ep) as (y&Hy&Hpy&_). destruct (in_entry _ Hi _ _ Hi') as (z&Hz&Hpz&_). congruence.
Qed.
Lemma good_go w i r w' : good w → runs w !! i = Some r → run_goes i r w = Some w' → good w'.
Proof.
  intros Hg Hr. pose proof (in_diags _ (gd_inv _ Hg) _ _ Hr) as Hd. unfold run_goes. destruct (rStage r) eqn:Es; try done.
  - intros [= <-]. apply good_moves; try done; by rewrite Es.
  - intros [= <-]. destruct (wrote_count (tree w) (rDiag r) (gd_fit _ Hg) Hd) as (Ha&Hc&Hs).
    apply good_stage; [done..|by rewrite Es|done|done| |done| |].
    + intros j x Hx Hx'. pose proof (in_diags _ (gd_inv _ Hg) _ _ Hx) as Hdx. intros Hne.
      destruct (decide (dgCountPath (rDiag x) = dgCountPath (rDiag r))) as [E|E].
      * rewrite E in Hne |- *. destruct (Hc Hne) as (v&Hv&Hrv). exists v. split; [done|]. rewrite Hrv. f_equal. symmetry. apply (ap_counts ap); congruence.
      * refine (counted_same _ _ _ _ (gd_count _ Hg _ _ Hx Hx') Hne). intros _. apply Hs; [by apply watched_count|done].
    + intros d Hdd _. apply Hs; [by apply watched_state|by apply (ap_roles ap)].
    + intros v Hv Hrv. split; [|done]. exists v. split; [|done]. apply (Hs (state_of r)); [by apply watched_state|by apply (ap_roles ap)|done].
  - intros [= <-]. destruct (wrote_state (tree w) (rDiag r) (gd_fit _ Hg) Hd) as (Ha&Hc&_&Hs).
    apply good_stage; [done..|by rewrite Es|done|done| |done| |].
    + intros j x Hx Hx'. pose proof (in_diags _ (gd_inv _ Hg) _ _ Hx) as Hdx. intros Hne.
      refine (counted_same _ _ _ _ (gd_count _ Hg _ _ Hx Hx') Hne). intros _. apply Hs; [by apply watched_count|]. intros E. by apply (ap_roles ap (rDiag r) (rDiag x)).
    + intros d Hdd Hne. apply Hs; [by apply watched_state|]. intros E. by apply Hne, state_inj.
    + intros v Hv Hrv. exfalso. apply (ap_trigger ap _ Hd). rewrite <- Hrv. by apply Hc.
  - intros [= <-]. destruct Hg as [Hi Hf Hc Hon]. split; cbn.
    + by apply inv_close.
    + done.
    + intros j x [(<-&<-&_)|[_ Hx]]%list_lookup_insert_Some Hx'; [done|by eapply Hc].
    + intros d v Hdd Hv Hrv. destruct (Hon d v Hdd Hv Hrv) as [?|(j&x&Hj&Hx&Hax)]; [by left|right].
      assert (i ≠ j) as Hne by (intros <-; rewrite Hr in Hx; injection Hx as <-; by rewrite Es in Hax).
      exists j, x. cbn. rewrite list_lookup_insert_ne by done. split_and!; [|done..]. case_bool_decide as E; [|done].
      rewrite lookup_delete_ne; [done|]. intros E'. congruence.
Qed.
Lemma step_good w w' : good w → step w w' → good w'.
Proof.
  intros Hg (m&Ha&H). destruct m as [path raw|t|j|i|i|i|now].
  - by eapply good_write.
  - injection H as <-. assert (w = set_calls (calls w) w) as E by (by destruct w).
    assert (∀ p, watched p → same_at (tree w) t p) as Hs by (intros p Hp v; by rewrite (Ha p Hp)).
    change (set_tree t w) with (set_calls (calls w) (set_tree t w)). apply good_tree; [done| | |done|done|].
    + intros p v Hp Hv. exists v. split; [by apply Hs|done].
    + intros d Hd Hne. by apply Hs, watched_count.
    + intros d v Hd Hv Hr. left. exists v. split; [by apply (Hs (dgStatePath d)); auto|done].
  - by eapply good_call.
  - cbn in H. apply bind_Some in H as (r&Hr&H). destruct (rStage r) as [|due| | | |] eqn:Es; try done. destruct (_ <=? _)%Z; [|done]. injection H as <-.
    apply good_moves; try done; by rewrite Es.
  - cbn in H. apply bind_Some in H as (r&Hr&H). destruct (rStage r) as [|due| | | |] eqn:Es; try done. destruct (rCancelled r) eqn:Ec; [|done]. injection H as <-.
    apply good_moves; try done; [by rewrite Es|]. intros Hin. destruct (in_entry _ (gd_inv _ Hg) _ _ Hin) as (x&Hx&_&Hcx&_). congruence.
  - cbn in H. apply bind_Some in H as (r&Hr&H). by eapply good_go.
  - cbn in H. destruct (_ <=? _)%Z; [|done]. injection H as <-. by destruct Hg as [[? ? ? ?] ? ? ?].
Qed.
Lemma reachable_good w : reachable w → good w.
Proof.
  intros (t&now&Hf&Hq&H). revert H. generalize (good_new t now Hf Hq). generalize (New t now) as w0. intros w0 H0 H. induction H as [w0|w0 w1 w2 H1 _ IH]; [done|].
  apply IH. by eapply step_good.
Qed.

(** *** On to the end *)

(** What the runner does by itself, and time. *)
Definition own_move (m : move) : bool := match m with Write _ _ | Other _ => false | _ => true end.
Definition own (w w' : world) : Prop := ∃ m, own_move m = true ∧ perform diags m w = Some w'.
Definition completed (t : Tree) (d : DiagnosticConfig) : Prop :=
  (∃ v, Get t (dgStatePath d) = Ok v ∧ Raw v = dgComplete d) ∧ counted t d.
Lemma own_step w w' : own w w' → step w w'.
Proof. intros (m&Hm&H). exists m. split; [by destruct m|done]. Qed.
Lemma own_good w w' : good w → own w w' → good w'.
Proof. intros Hg Ho. by eapply step_good, own_step. Qed.
Lemma goes w i r w' : runs w !! i = Some r → run_goes i r w = Some w' → own w w'.
Proof. intros Hr H. exists (Go i). split; [done|]. cbn. by rewrite Hr. Qed.
Lemma writes_state w i r : good w → runs w !! i = Some r → rStage r = Finishing →
  ∃ w', perform diags (Go i) w = Some w' ∧ completed (tree w') (rDiag r).
Proof.
  intros Hg Hr Hs. pose proof (in_diags _ (gd_inv _ Hg) _ _ Hr) as Hd. eexists. cbn. rewrite Hr. cbn. unfold run_goes. rewrite Hs. split; [done|]. cbn.
  destruct (wrote_state (tree w) (rDiag r) (gd_fit _ Hg) Hd) as (_&Hc&Hok&Hsame). split.
  - destruct (Get (write_system _ _ _) _) as [v|] eqn:E; [|done]. exists v. auto.
  - eapply counted_same; [|by eapply gd_count]. intros Hne. apply Hsame; [by apply watched_count|]. intros E. by apply (ap_roles ap (rDiag r) (rDiag r)).
Qed.
(** The diagnostic is answered by the runner and time alone: some run of it
    comes to its last write with the count of its rows in place, and the write
    puts the terminal state beside it. *)
Definition answered (w : world) (d : DiagnosticConfig) : Prop :=
  ∃ w1 i r w2, rtc own w w1 ∧ runs w1 !! i = Some r ∧ rDiag r = d ∧ rStage r = Finishing ∧
    counted (tree w1) d ∧ perform diags (Go i) w1 = Some w2 ∧ completed (tree w2) d.
Lemma answered_own w w' d : own w w' → answered w' d → answered w d.
Proof. intros Ho (w1&i&r&w2&H&?). exists w1, i, r, w2. split; [by eapply rtc_l|done]. Qed.
Lemma run_on w i r : good w → runs w !! i = Some r → active (rStage r) = true → answered w (rDiag r).
Proof.
  assert (∀ w i r, good w → runs w !! i = Some r → rStage r = Finishing → answered w (rDiag r)) as HF.
  { intros w0 j x Hg Hr Hs. destruct (writes_state _ _ _ Hg Hr Hs) as (w'&H&Hc). exists w0, j, x, w'.
    split_and!; try done. by eapply gd_count. }
  assert (∀ w i r s w', good w → runs w !! i = Some r → own w w' → runs w' !! i = Some (set_stage s r) →
    (∀ w i r', good w → runs w !! i = Some r' → rStage r' = s → answered w (rDiag r')) → answered w (rDiag r)) as Hstep.
  { intros w0 j x s w' Hg Hr Ho Hr' H. eapply answered_own; [exact Ho|]. apply (H w' j (set_stage s x)); [by eapply own_good|done|done]. }
  assert (∀ w i r s, runs w !! i = Some r → runs (set_run i (set_stage s r) w) !! i = Some (set_stage s r)) as Hset.
  { intros w0 j x s Hx. apply list_lookup_insert_eq. by eapply lookup_lt_Some. }
  assert (∀ w i r, good w → runs w !! i = Some r → rStage r = Counting → answered w (rDiag r)) as HC.
  { intros w0 j x Hg Hr Hs. eapply (Hstep _ _ _ Finishing); [done..| | |done].
    - eapply goes; [done|]. unfold run_goes. by rewrite Hs.
    - by apply (Hset (set_tree (write_count (rDiag x) (tree w0)) w0)). }
  assert (∀ due w i r, good w → runs w !! i = Some r → rStage r = Waiting due → answered w (rDiag r)) as HW.
  { intros due w0 j x Hg Hr Hs. set (w1 := MkWorld (Z.max (clock w0) due) (tree w0) (inFlight w0) (runs w0) (calls w0)).
    assert (own w0 w1) as H1. { exists (Tick (Z.max (clock w0) due)). split; [done|]. cbn. by rewrite (proj2 (Z.leb_le _ _)) by lia. }
    eapply answered_own; [exact H1|]. apply (Hstep w1 j x Counting (set_run j (set_stage Counting x) w1)); [by eapply own_good|done| |by apply Hset|done].
    exists (Timer j). split; [done|]. cbn. rewrite Hr. cbn. rewrite Hs. by rewrite (proj2 (Z.leb_le _ _)) by lia. }
  intros Hg Hr. destruct (rStage r) eqn:Es; try done; intros _; [|by eapply HW|by eapply HC|by eapply HF].
  eapply (Hstep _ _ _ (Waiting (clock w + dgDuration (rDiag r)))); [done..| |by apply Hset|by apply HW]. eapply goes; [done|]. unfold run_goes. by rewrite Es.
Qed.
Lemma locked_on w d : good w → Locking d ∈ calls w → answered w d.
Proof.
  intros Hg [j Hj]%list_elem_of_lookup. set (w1 := start d (set_calls (delete j (calls w)) w)).
  assert (own w w1) as H1. { exists (Call j). split; [done|]. cbn. by rewrite Hj. }
  eapply answered_own; [exact H1|]. apply (run_on w1 (length (runs w)) (MkRun d false Starting)); [by eapply own_good| |done].
  unfold w1, start. cbn. destruct (inFlight w !! dgStatePath d); rewrite lookup_app_r by (rewrite ?length_alter; lia); rewrite ?length_alter; by rewrite Nat.sub_diag.
Qed.
End runner.

(** C25. The diagnostics run one at a time. In every interleaving a diagnostic has
    at most one run that was not superseded, and the table of runs in flight
    holds it until it is over: a superseded run that winds up does not clear
    the entry of its successor. *)
Theorem one_run (diags : list DiagnosticConfig) (w : world) (ap : apart diags) (H : reachable diags w) (i j : nat) (r x : run)
  (Hr : runs w !! i = Some r) (Hx : runs w !! j = Some x) (Hp : state_of r = state_of x)
  (Lr : rCancelled r = false ∧ rStage r ≠ Ended) (Lx : rCancelled x = false ∧ rStage x ≠ Ended) :
  i = j ∧ inFlight w !! state_of r = Some i.
Proof.
  destruct (gd_inv _ _ (reachable_good _ ap _ H)) as [_ Ha _ _]. destruct Lr as [Cr Sr], Lx as [Cx Sx].
  pose proof (Ha _ _ Hr Cr Sr) as Hi. pose proof (Ha _ _ Hx Cx Sx) as Hj. split; [|done]. congruence.
Qed.
(** Count first, then state: the step with which a run writes the terminal state
    leaves the count of its rows beside it, whatever happened since the run
    wrote it. *)
Theorem complete_after_count (diags : list DiagnosticConfig) (w : world) (ap : apart diags) (H : reachable diags w) (i : nat) (r : run)
  (Hr : runs w !! i = Some r) (Hs : rStage r = Finishing) :
  ∃ w', perform diags (Go i) w = Some w' ∧ completed (tree w') (rDiag r).
Proof. by eapply (writes_state diags ap), Hs; [apply reachable_good|]. Qed.

(** ** A device *)

Definition ex_tree (typ : Type_) (raw : string) : Tree :=
  let t := (Mount New_ "D.State" (NewLeaf (MkValue typ raw true))).1.1 in
  (Mount t "D.Count" (NewLeaf (MkValue TypeUnsignedInt "0" false))).1.1.
Definition ex_diag : DiagnosticConfig := MkDiagnostic "D.State" "Requested" "Complete" 5 "D.Count" 40.
Definition ex_diags : list DiagnosticConfig := [ex_diag].
Definition ex_start : world := New (ex_tree TypeString "None") 0.
Definition perform_all (diags : list DiagnosticConfig) (l : list move) (w : world) : option world := foldl (λ o m, o ≫= perform diags m) (Some w) l.
Lemma ex_apart : apart ex_diags.
Proof.
  assert (∀ p, watched ex_diags p → p = "D.State" ∨ p = "D.Count") as Hw.
  { intros p (d&->%list_elem_of_singleton&[->|[-> _]]); auto. }
  split.
  - apply NoDup_singleton.
  - by intros d ->%list_elem_of_singleton.
  - intros p q [-> | ->]%Hw [-> | ->]%Hw; vm_compute; intros E; first [reflexivity|discriminate E].
  - by intros d d' ->%list_elem_of_singleton ->%list_elem_of_singleton.
  - by intros d d' ->%list_elem_of_singleton ->%list_elem_of_singleton.
Qed.
Definition ex_move (m : move) : Prop := match m with Write path _ => path = "D.State" | Other _ => False | _ => True end.
Lemma diag_reachable l w : Forall ex_move l → perform_all ex_diags l ex_start = Some w → reachable ex_diags w.
Proof.
  intros Hl Hw. exists (ex_tree TypeString "None"), 0%Z. split; [|split].
  - split; intros d ->%list_elem_of_singleton.
    + exists (MkValue TypeString "None" true). split; vm_compute; reflexivity.
    + intros _. exists (MkValue TypeUnsignedInt "0" false). split_and!; vm_compute; reflexivity.
  - intros d v ->%list_elem_of_singleton Hv. vm_compute in Hv. injection Hv as <-. done.
  - revert w Hw. unfold perform_all. induction l as [|m l IH] using rev_ind; intros w Hw; [injection Hw as <-; done|].
    apply Forall_app in Hl as [Hl Hm]. apply (Forall_singleton ex_move) in Hm. rewrite foldl_app in Hw. apply bind_Some in Hw as (w1&H1&H2).
    eapply rtc_r; [by apply IH|]. exists m. split; [|done]. destruct m; cbn in Hm; try done. subst path.
    intros p (d&->%list_elem_of_singleton&[->|[-> _]]); [done|]. intros E. vm_compute in E. discriminate E.
Qed.
Definition default_world (o : option world) : world := default ex_start o.
Definition triggered : list move := [Write "D.State" "Requested"].
Definition running_now : list move := triggered ++ [Call 0; Call 0; Go 0].
Lemma one_run_witness :
  let w := default_world (perform_all ex_diags running_now ex_start) in inFlight w !! "D.State" = Some 0.
Proof.
  set (w := default_world _). assert (perform_all ex_diags running_now ex_start = Some w) as E by (vm_compute; reflexivity).
  refine (proj2 (one_run ex_diags w ex_apart (diag_reachable _ _ _ E) 0 0 (MkRun ex_diag false (Waiting 5)) (MkRun ex_diag false (Waiting 5)) _ _ _ _ _)); by repeat constructor.
Defined.
Lemma complete_after_count_witness :
  let w := default_world (perform_all ex_diags (running_now ++ [Tick 5; Timer 0; Go 0]) ex_start) in
  ∃ w', perform ex_diags (Go 0) w = Some w' ∧ completed (tree w') ex_diag.
Proof.
  set (w := default_world _). assert (perform_all ex_diags (running_now ++ [Tick 5; Timer 0; Go 0]) ex_start = Some w) as E by (vm_compute; reflexivity).
  refine (complete_after_count ex_diags w ex_apart (diag_reachable _ _ _ E) 0 (MkRun ex_diag false Finishing) _ _); [by repeat constructor|vm_compute; reflexivity|reflexivity].
Defined.

(** ** Against the intent *)

(** A run past its timer is not stopped by the run that supersedes it: it
    completes the new request as soon as it was made, and the new run completes
    it again. *)
Definition superseding : list move :=
  running_now ++ [Tick 5; Timer 0; Write "D.State" "None"; Write "D.State" "Requested"; Call 0; Call 0; Call 0; Go 1; Go 0; Go 0].
Lemma superseded_run_completes :
  ∃ w, reachable ex_diags w ∧ clock w = 5%Z ∧ Get (tree w) "D.State" = Ok (MkValue TypeString "Complete" true) ∧
    runs w !! 1 = Some (MkRun ex_diag false (Waiting 10)).
Proof.
  set (w := default_world (perform_all ex_diags superseding ex_start)). assert (perform_all ex_diags superseding ex_start = Some w) as E by (vm_compute; reflexivity).
  exists w. split; [|split_and!; vm_compute; reflexivity]. apply (diag_reachable superseding); [by repeat constructor|exact E].
Qed.
(** The handler calls [OnWrite] for a value that changed only, so asking again
    during a run is not seen. *)
Lemma rescan_ignored :
  let w := default_world (perform_all ex_diags running_now ex_start) in
  (λ w', (calls w', runs w')) <$> perform ex_diags (Write "D.State" "Requested") w = Some ([], runs w).
Proof. vm_compute. reflexivity. Qed.
(** Nor is a name with a trailing dot, which the tree accepts for the leaf. *)
Lemma other_spelling_ignored :
  let w := default_world (perform_all ex_diags [Write "D.State." "Requested"; Call 0] ex_start) in
  (Get (tree w) "D.State", calls w, runs w) = (Ok (MkValue TypeString "Requested" true), [], []).
Proof. vm_compute. reflexivity. Qed.
(** A terminal value its leaf does not take is accepted by the loader; the
    state then stays at its trigger. *)
Lemma ill_typed_never_completes :
  let d := MkDiagnostic "D.State" "true" "Complete" 5 "" 0 in
  let t := ex_tree TypeBoolean "false" in
  parseDiagnostic (λ _, Ok 5%Z) (λ _, "") t (MkRawDiagnostic "D.State" "true" "Complete" "5s" "" 0) "p.yaml" = Ok d ∧
  (λ w, (Get (tree w) "D.State", rStage <$> runs w)) <$>
    perform_all [d] [Write "D.State" "true"; Call 0; Call 0; Go 0; Tick 5; Timer 0; Go 0; Go 0; Go 0] (New t 0) = Some (Ok (MkValue TypeBoolean "true" true), [Ended]).
Proof. split; vm_compute; reflexivity. Qed.
