(* ===== verification/UspBulk.v ===== *)
(** * Bulk data over USP ([internal/usp/agent/bulkdata.go])

    A report is the JSON object [encoding/json] makes of a map; a value of a map
    is a number, a string or another map. Instants and durations are
    nanoseconds, and a duration is a 64-bit [int]. Log lines are left out. *)
From Stdlib Require Import ZArith Lia Ascii String.
From S2P Require Import Prelude GoLib GoText GoAuth CpeErr Types Node Tree Objects Listing Scheduler.
From S2P Require Import UspPaths UspQueries UspDiscovery UspMessages UspSubscriptions UspAsync.

Definition BulkDataPath : string := "Device.BulkData.".
Definition BulkDataProfilePath : string := "Device.BulkData.Profile.".
Definition BulkDataPushEvent : string := "Push!".
Definition BulkDataProtocolUSP : string := "USPEventNotif".
Definition BulkDataEncodingJSON : string := "JSON".
Definition maxRetainedReports : nat := 100.

(** ** The table *)

Definition capability_leaves : list (string * Value) :=
  [("Enable", MkValue TypeBoolean "true" true); ("Status", MkValue TypeString "Enabled" false);
   ("MinReportingInterval", MkValue TypeUnsignedInt "1" false); ("Protocols", MkValue TypeString BulkDataProtocolUSP false);
   ("EncodingTypes", MkValue TypeString BulkDataEncodingJSON false); ("ParameterWildCardSupported", MkValue TypeBoolean "true" false);
   ("MaxNumberOfProfiles", MkValue TypeInt "-1" false); ("MaxNumberOfParameterReferences", MkValue TypeInt "-1" false);
   ("ProfileNumberOfEntries", MkValue TypeUnsignedInt "0" false)].
Fixpoint mount_missing (leaves : list (string * Value)) (t : Tree) : outcome unit :=
  match leaves with
  | [] => done_ tt t
  | (name, v) :: rest =>
      if is_ok (Get t (BulkDataPath +:+ name)) then mount_missing rest t
      else then_ (Mount t (BulkDataPath +:+ name) (NewLeaf v)) (λ _ t, mount_missing rest t)
  end.
Definition profile_leaves : list (string * Value) :=
  [bool_leaf "Enable" "false"; str_leaf true "Alias" ""; str_leaf true "Name" ""; str_leaf false "Controller" "";
   ("NumberOfRetainedFailedReports", MkValue TypeInt "0" true); str_leaf true "Protocol" ""; str_leaf true "EncodingType" "";
   ("ReportingInterval", MkValue TypeUnsignedInt "86400" true); ("TimeReference", MkValue TypeDateTime "0001-01-01T00:00:00Z" true);
   ("ParameterNumberOfEntries", MkValue TypeUnsignedInt "0" false)].
Definition profile_template : result error Node :=
  parameter ← attach_all [str_leaf true "Name" ""; str_leaf true "Reference" ""] NewBranch;
  jsonEncoding ← attach_all [str_leaf true "ReportFormat" "ObjectHierarchy"; str_leaf true "ReportTimestamp" "Unix-Epoch"] NewBranch;
  profile ← attach_all profile_leaves NewBranch;
  profile ← Attach profile "JSONEncoding" jsonEncoding;
  Attach profile "Parameter" (NewTable parameter).
Definition EnsureBulkData (t : Tree) : outcome unit :=
  if is_ok (Children t BulkDataProfilePath) then done_ tt t
  else
    then_ (if is_ok (Children t BulkDataPath) then done_ tt t else Mount t "Device.BulkData" NewBranch) (λ _ t,
    then_ (mount_missing capability_leaves t) (λ _ t,
      match profile_template with
      | Err e => (t, [], Err e)
      | Ok profile =>
          let parent := Strings.TrimSuffix BulkDataProfilePath "." in
          then_ (Mount t parent NewBranch) (λ _ t, AddTable t parent (Some profile))
      end)).

(** ** A profile *)

Record bulkDataReference := MkReference { bdName : string; bdReference : string }.
Record bulkDataSpec := MkSpec {
  bsInterval : Z; bsRetain : Z; bsTimeRef : Z; bsFormat : string; bsTimestamp : string; bsParameters : list bulkDataReference
}.
(** [time.Time{}], the first instant of year 1. *)
Definition zero_time : Z := Time.days_from_civil 1 1 1 * 86400 * Second.
(** Off, not deliverable for a reason, or a profile to report. *)
Inductive reading := Off | Undeliverable (reason : error) | Deliver (spec : bulkDataSpec).

Definition time_reference (ref : string) : Z :=
  if String.eqb ref "" || Strings.HasPrefix ref "0001-01-01" then zero_time
  else match Time.Parse_RFC3339Nano ref with
       | Some f => Time.unix f * Second + Time.nsec f
       | None => zero_time
       end.
Definition read_reference (t : Tree) (row : string) : option bulkDataReference :=
  let reference := raw_or t (row +:+ "Reference") "" in
  if String.eqb reference "" then None else Some (MkReference (raw_or t (row +:+ "Name") "") reference).
Definition readBulkDataProfile (t : Tree) (inst : string) : reading :=
  let get leaf := raw_or t (inst +:+ leaf) "" in
  let enabled := get "Enable" in
  if negb (String.eqb enabled "true") && negb (String.eqb enabled "1") then Off
  else if negb (String.eqb (get "Protocol") BulkDataProtocolUSP) then
    Undeliverable (errorf "Protocol %q is not %s" [get "Protocol"; BulkDataProtocolUSP])
  else if negb (String.eqb (get "EncodingType") BulkDataEncodingJSON) then
    Undeliverable (errorf "EncodingType %q is not %s" [get "EncodingType"; BulkDataEncodingJSON])
  else
    let bad := Undeliverable (errorf "ReportingInterval %q is not a positive number of seconds" [get "ReportingInterval"]) in
    match Strconv.Atoi (get "ReportingInterval") with
    | Err _ => bad
    | Ok secs =>
        if (secs <? 1)%Z then bad
        else
          Deliver (MkSpec (i64 (secs * Second))
            (match Strconv.Atoi (get "NumberOfRetainedFailedReports") with Ok n => n | Err _ => 0%Z end)
            (time_reference (get "TimeReference")) (get "JSONEncoding.ReportFormat") (get "JSONEncoding.ReportTimestamp")
            (omap (read_reference t) (childInstances t (inst +:+ "Parameter."))))
    end.

(** [time.Time.Add] does not wrap in any year the leaves can name. *)
Definition firstDue (now : Z) (spec : bulkDataSpec) : Z :=
  let ref := bsTimeRef spec in
  if (ref =? zero_time)%Z then (now + bsInterval spec)%Z
  else if (now <? ref)%Z then ref
  else
    let elapsed := Sub now ref in
    let periods := i64 (Z.quot elapsed (bsInterval spec) + 1) in
    (ref + i64 (periods * bsInterval spec))%Z.

(** ** A report *)

Inductive json := JNumber (n : Z) | JString (s : string) | JObject (m : gmap string json).
Abbreviation report := (gmap string json).

Fixpoint insert_path (segs : list string) (value : string) (node : report) : report :=
  match segs with
  | [] => node
  | [seg] => <[seg := JString value]> node
  | seg :: rest =>
      let child := match node !! seg with Some (JObject m) => m | _ => ∅ end in
      <[seg := JObject (insert_path rest value child)]> node
  end.
Definition insertHierarchy (entry : report) (path value : string) : report := insert_path (Strings.Split path ".") value entry.

(** The values of one concrete path, then of a reference, sorted by path. *)
Definition values_at (t : Tree) (concrete : string) : list (string * string) :=
  if Strings.HasSuffix concrete "." then (Walk t concrete (-1) (λ path v out, (out ++ [(path, Raw v)], None)) []).1
  else match Get t concrete with Ok v => [(concrete, Raw v)] | Err _ => [] end.
Definition path_le (x y : string * string) : Prop := stdpp.strings.String.le x.1 y.1.
#[export] Instance path_le_dec x y : Decision (path_le x y).
Proof. unfold path_le. apply _. Defined.
Definition resolveBulkDataReference (t : Tree) (reference : string) : list (string * string) :=
  merge_sort path_le (flat_map (values_at t) (ExpandSearchPath t reference)).

Definition renames (p : bulkDataReference) (values : list (string * string)) : bool :=
  negb (String.eqb (bdName p) "") && (length values =? 1)%nat && negb (Strings.ContainsAny (bdReference p) "*[") &&
  negb (Strings.HasSuffix (bdReference p) ".").
Definition collect_value (spec : bulkDataSpec) (p : bulkDataReference) (values : list (string * string)) (entry : report)
  (kv : string * string) : report :=
  if String.eqb (bsFormat spec) "NameValuePair"
  then <[(if renames p values then bdName p else kv.1) := JString kv.2]> entry
  else insertHierarchy entry kv.1 kv.2.
Definition collect_reference (t : Tree) (spec : bulkDataSpec) (entry : report) (p : bulkDataReference) : report :=
  let values := resolveBulkDataReference t (bdReference p) in
  foldl (collect_value spec p values) entry values.
Definition collection_time (spec : bulkDataSpec) (now : Z) : report :=
  if String.eqb (bsTimestamp spec) "None" then ∅
  else if String.eqb (bsTimestamp spec) "ISO-8601" then {["CollectionTime" := JString (Time.Format_RFC3339 (now / Second))]}
  else {["CollectionTime" := JNumber (now / Second)]}.
Definition collect (t : Tree) (spec : bulkDataSpec) (now : Z) : report :=
  foldl (collect_reference t spec) (collection_time spec now) (bsParameters spec).

(** *** [json.Marshal], with its escaping for HTML *)

Definition backslash : ascii := ascii_of_nat 92.
Definition quote_char : ascii := ascii_of_nat 34.
Definition hex_digit (n : N) : ascii := if (n <? 10)%N then ascii_of_N (48 + n) else ascii_of_N (87 + n).
Definition escaped (c : ascii) : string := String backslash (String c "").
Definition unicode_escape (hi : string) (c : ascii) : string :=
  String backslash ("u" +:+ hi +:+ String (hex_digit (byte_of c / 16)) (String (hex_digit (byte_of c mod 16)) "")).
Definition json_byte (c : ascii) : string :=
  let b := byte_of c in
  if Ascii.eqb c backslash || Ascii.eqb c quote_char then escaped c
  else if (b =? 8)%N then escaped "b" else if (b =? 12)%N then escaped "f" else if (b =? 10)%N then escaped "n"
  else if (b =? 13)%N then escaped "r" else if (b =? 9)%N then escaped "t"
  else if (b <? 32)%N || Ascii.eqb c "<" || Ascii.eqb c ">" || Ascii.eqb c "&" then unicode_escape "00" c
  else String c "".
Definition bad_rune : string := escaped "u" +:+ "fffd".
(** A byte that starts no character gives [bad_rune] and is skipped alone. *)
Fixpoint json_text (s : string) : string :=
  match s with
  | "" => ""
  | String c s1 =>
      if between 0 127 c then json_byte c +:+ json_text s1
      else if between 194 223 c then
        match s1 with
        | String d s2 => if Utf8.cont d then String c (String d (json_text s2)) else bad_rune +:+ json_text s1
        | "" => bad_rune
        end
      else if between 224 239 c then
        match s1 with
        | String d (String e s3) =>
            if Utf8.second_of_3 c d && Utf8.cont e then
              if (byte_of c =? 226)%N && (byte_of d =? 128)%N && between 168 169 e
              then escaped "u" +:+ "202" +:+ String (hex_digit (byte_of e mod 16)) (json_text s3)
              else String c (String d (String e (json_text s3)))
            else bad_rune +:+ json_text s1
        | _ => bad_rune +:+ json_text s1
        end
      else if between 240 244 c then
        match s1 with
        | String d (String e (String f s4)) =>
            if Utf8.second_of_4 c d && Utf8.cont e && Utf8.cont f
            then String c (String d (String e (String f (json_text s4)))) else bad_rune +:+ json_text s1
        | _ => bad_rune +:+ json_text s1
        end
      else bad_rune +:+ json_text s1
  end.
Definition json_string (s : string) : string := String quote_char (json_text s +:+ String quote_char "").
Fixpoint marshal (j : json) : string :=
  match j with
  | JNumber n => Strconv.Itoa n
  | JString s => json_string s
  | JObject m =>
      let members := marshal <$> m in
      "{" +:+ Strings.Join ((λ k, json_string k +:+ ":" +:+ default "" (members !! k)) <$> Sort.Strings (map_to_list m).*1) "," +:+ "}"
  end.
Definition encodeBulkDataReport (reports : list report) : string :=
  "{" +:+ json_string "Report" +:+ ":[" +:+ Strings.Join (marshal ∘ JObject <$> reports) "," +:+ "]}".

(** ** The collector *)

Record bulkDataState := MkState { stInterval : Z; nextDue : Z; retained : list report; skipped : bool }.
(** What it remembers, the message counter of the runner, and the messages
    handed to the transport. *)
Record collector := MkCollector { profiles : gmap string bulkDataState; seq : Z; sent : list (Msg Notify) }.
Definition set_profiles x (c : collector) : collector := MkCollector x (seq c) (sent c).
Definition set_retained x (st : bulkDataState) : bulkDataState := MkState (stInterval st) (nextDue st) x (skipped st).
Definition set_due x (st : bulkDataState) : bulkDataState := MkState (stInterval st) x (retained st) (skipped st).

(** [for !st.nextDue.After(now)]: as many turns as there are intervals to go. *)
Fixpoint catch_up (turns : nat) (now interval due : Z) : Z :=
  match turns with
  | O => due
  | S turns => if (now <? due)%Z then due else catch_up turns now interval (due + interval)
  end.
Definition turns_to (now interval due : Z) : nat := Z.to_nat ((now - due) / interval + 1).

(** What a report that reached nobody leaves behind. *)
Definition retain (limit : Z) (kept : list report) (entry : report) : list report :=
  if (limit =? 0)%Z then kept
  else
    let kept := kept ++ [entry] in
    let limit := if (limit <? 0)%Z || (Z.of_nat maxRetainedReports <? limit)%Z then maxRetainedReports else Z.to_nat limit in
    drop (length kept - limit) kept.

Section collector.
Context (serial : string) (publish : Msg Notify → option error).

Definition push (t : Tree) (now : Z) (inst : string) (spec : bulkDataSpec) (st : bulkDataState) (c : collector)
  : bulkDataState * collector :=
  let entry := collect t spec now in
  let data := encodeBulkDataReport (retained st ++ [entry]) in
  let '(seq', ms, (delivered, failure)) := deliverEvent serial publish t (seq c) inst BulkDataPushEvent {["Data" := data]} in
  let kept := match failure with
              | None => if (0 <? delivered)%nat then [] else retain (bsRetain spec) (retained st) entry
              | Some _ => retain (bsRetain spec) (retained st) entry
              end in
  (set_retained kept st, MkCollector (profiles c) seq' (sent c ++ ms)).

(** The state a profile goes on with. *)
Definition current (now : Z) (spec : bulkDataSpec) (prev : option bulkDataState) : bulkDataState :=
  let fresh kept := MkState (bsInterval spec) (firstDue now spec) kept false in
  match prev with
  | None => fresh []
  | Some st => if skipped st || negb (stInterval st =? bsInterval spec)%Z then fresh (retained st) else st
  end.
Definition visit (t : Tree) (now : Z) (c : collector) (inst : string) : collector :=
  let known := profiles c !! inst in
  match readBulkDataProfile t inst with
  | Off => set_profiles (delete inst (profiles c)) c
  | Undeliverable _ =>
      match known with
      | Some st => if skipped st then c else set_profiles (<[inst := MkState 0 zero_time [] true]> (profiles c)) c
      | None => set_profiles (<[inst := MkState 0 zero_time [] true]> (profiles c)) c
      end
  | Deliver spec =>
      let st := current now spec known in
      if (now <? nextDue st)%Z then set_profiles (<[inst := st]> (profiles c)) c
      else
        let '(st, c) := push t now inst spec st c in
        let due := catch_up (turns_to now (bsInterval spec) (nextDue st)) now (bsInterval spec) (nextDue st) in
        set_profiles (<[inst := set_due due st]> (profiles c)) c
  end.
Definition is_live (t : Tree) (inst : string) : bool := match readBulkDataProfile t inst with Deliver _ => true | _ => false end.
Definition forget (live : list string) (m : gmap string bulkDataState) : gmap string bulkDataState :=
  filter (λ kv, kv.1 ∈ live ∨ skipped kv.2 = true) m.
(** The tree is read instance by instance; [t] is what a tick finds. *)
Definition tick (t : Tree) (now : Z) (c : collector) : collector :=
  let insts := childInstances t BulkDataProfilePath in
  let c := foldl (visit t now) c insts in
  set_profiles (forget (filter (λ inst, is_live t inst = true) insts) (profiles c)) c.
End collector.

(** [runBulkData]: a tick for each tree and instant the ticker finds. *)
Fixpoint ticks (serial : string) (publish : Msg Notify → option error) (l : list (Tree * Z)) (c : collector) : collector :=
  match l with
  | [] => c
  | (t, now) :: rest => ticks serial publish rest (tick serial publish t now c)
  end.
Definition newBulkDataCollector (seq : Z) : collector := MkCollector ∅ seq [].
