(* ===== verification/UspBulkProps.v ===== *)
(** * What USP bulk data promises

    A report holds exactly the leaves its references cover; a profile reports on
    the boundaries of its interval and never falls silent; reports that reached
    nobody are kept, newest last. *)
From Stdlib Require Import ZArith Lia Ascii String.
From S2P Require Import Prelude GoLib GoText GoAuth CpeErr Types Node Tree TreeProps Objects ObjectsProps Listing Scheduler.
From S2P Require Import UspPaths UspQueries UspDiscovery UspMessages UspSubscriptions UspAsync UspBulk.

(** ** What a reference covers *)

(** A path the search path stands for, or, below a path that ends in a dot, any
    leaf. *)
Definition covers (t : Tree) (reference : string) (segs : list string) : Prop :=
  ∃ concrete p q, concrete ∈ ExpandSearchPath t reference ∧ parsePath concrete = Ok p ∧ segs = p ++ q ∧
    (q = [] ∨ Strings.HasSuffix concrete "." = true).

Lemma parsePath_canonical path p : parsePath path = Ok p → Strings.HasSuffix path "." = false → joinPath p = path.
Proof.
  unfold parsePath. intros H Hs. rewrite (Strings.TrimSuffix_no_suffix _ _ Hs) in H.
  destruct (String.eqb_spec path "") as [->|_]; [by injection H as <-|]. apply result_bind_ok in H as (u&_&[= <-]). apply Strings.Join_Split.
Qed.
Lemma values_at_spec t concrete path raw : (path, raw) ∈ values_at t concrete ↔
  ∃ p q v, parsePath concrete = Ok p ∧ (q = [] ∨ Strings.HasSuffix concrete "." = true) ∧ path = joinPath (p ++ q) ∧ view t (p ++ q) = Some v ∧ Raw v = raw.
Proof.
  unfold values_at. destruct (Strings.HasSuffix concrete ".") eqn:Es.
  - unfold Walk. destruct (parsePath concrete) as [p|e] eqn:Hp; cbn [fst].
    2:{ split; [by intros ?%elem_of_nil|by intros (?&?&?&[=]&_)]. }
    destruct (lookup (root t) p) as [n|e] eqn:El; cbn [fst].
    + rewrite walk_leaves, within_all by lia. unfold visit.
      change (for_each _ _ _) with (for_each (λ (x : list string * Value) s, (s ++ [(joinPath (p ++ x.1), Raw x.2)], None : option error)) (leaves n) []).
      rewrite for_each_append. cbn [fst app].
      rewrite list_elem_of_fmap. apply lookup_ok in El. split.
      * intros ([q v]&[= -> ->]&Hq%elem_of_leaves). exists p, q, v. split_and!; [done|by right|done| |done]. unfold view, leaf_at. by rewrite node_at_app, El.
      * intros (p'&q&v&[= <-]&_&->&Hv&<-). exists (q, v). split; [done|]. apply elem_of_leaves. unfold view, leaf_at in Hv. by rewrite node_at_app, El in Hv.
    + split; [by intros ?%elem_of_nil|]. intros (p'&q&v&[= <-]&_&_&Hv&_). unfold view, leaf_at in Hv. rewrite node_at_app in Hv.
      by rewrite (proj1 (lookup_err _ _)) in Hv by eauto.
  - destruct (Get t concrete) as [v|e] eqn:Eg.
    + rewrite list_elem_of_singleton. apply Get_view in Eg as (p&Hp&Hv). split.
      * intros [= -> ->]. exists p, [], v. rewrite app_nil_r. split_and!; [done|by left| |done|done]. symmetry. by apply parsePath_canonical.
      * intros (p'&q&u&Hp'&[->|[=]]&->&Hu&<-). rewrite Hp in Hp'. injection Hp' as <-. rewrite app_nil_r in *. rewrite Hv in Hu. injection Hu as <-.
        f_equal. by apply parsePath_canonical.
    + split; [by intros ?%elem_of_nil|]. intros (p&q&v&Hp&[->|[=]]&->&Hv&<-). rewrite app_nil_r in Hv.
      assert (Get t concrete = Ok v) as E by (apply Get_view; by exists p). congruence.
Qed.
Lemma resolve_spec t reference path raw : (path, raw) ∈ resolveBulkDataReference t reference ↔
  ∃ segs v, path = joinPath segs ∧ view t segs = Some v ∧ Raw v = raw ∧ covers t reference segs.
Proof.
  unfold resolveBulkDataReference. rewrite merge_sort_Permutation, elem_of_flat_map. setoid_rewrite values_at_spec. unfold covers. split.
  - intros (c&Hc&p&q&v&Hp&Hq&->&Hv&<-). exists (p ++ q), v. split_and!; [done..|]. by exists c, p, q.
  - intros (segs&v&->&Hv&<-&c&p&q&Hc&Hp&->&Hq). exists c. split; [done|]. by exists p, q, v.
Qed.

(** ** The hierarchy *)

Fixpoint json_at (segs : list string) (j : json) : option json :=
  match segs with
  | [] => Some j
  | s :: rest => match j with JObject m => m !! s ≫= json_at rest | _ => None end
  end.
(** The text a report has under a path. *)
Definition text_of (o : option json) : option string := match o with Some (JString s) => Some s | _ => None end.
Definition text_at (segs : list string) (r : report) : option string := text_of (json_at segs (JObject r)).

Lemma text_at_cons s q (r : report) : text_at (s :: q) r = match q with [] => text_of (r !! s) | _ => match r !! s with Some (JObject m) => text_at q m | _ => None end end.
Proof. unfold text_at. cbn [json_at]. destruct (r !! s) as [j|]; [|by destruct q]. destruct q; [done|]. by destruct j. Qed.
Lemma text_at_empty q : text_at q ∅ = None.
Proof. destruct q as [|s q]; [done|]. rewrite text_at_cons, lookup_empty. by destruct q. Qed.
(** A value goes to its place, over what was below it, and moves nothing else as
    long as no text stands in the way. *)
Lemma insert_path_text segs v (r : report) q : segs ≠ [] → (∀ a b, segs = a ++ b → b ≠ [] → text_at a r = None) →
  text_at q (insert_path segs v r) = if decide (q = segs) then Some v else if decide (segs `prefix_of` q) then None else text_at q r.
Proof.
  revert r q; induction segs as [|s segs IH]; intros r q Hne Hfree; [done|]. destruct q as [|k q].
  { rewrite decide_False by done. rewrite decide_False; [done|]. by intros [? ?]. }
  destruct segs as [|s' segs].
  - cbn [insert_path]. rewrite !text_at_cons. destruct (decide (s = k)) as [<-|Hk].
    + rewrite lookup_insert_eq. destruct q as [|x q]; [by rewrite decide_True|].
      rewrite decide_False by done. rewrite decide_True; [done|]. by exists (x :: q).
    + rewrite lookup_insert_ne by done. rewrite decide_False by congruence. rewrite decide_False; [done|]. intros [? [= ? ?]]. congruence.
  - change (insert_path (s :: s' :: segs) v r) with (<[s := JObject (insert_path (s' :: segs) v (match r !! s with Some (JObject m) => m | _ => ∅ end))]> r).
    rewrite !text_at_cons. destruct (decide (s = k)) as [<-|Hk].
    + rewrite lookup_insert_eq. set (child := match r !! s with Some (JObject m) => m | _ => ∅ end).
      assert (text_of (r !! s) = None) as Hs. { pose proof (Hfree [s] (s' :: segs) eq_refl ltac:(done)) as H. by rewrite text_at_cons in H. }
      assert (∀ a b, s' :: segs = a ++ b → b ≠ [] → text_at a child = None) as Hchild.
      { intros a b E Hb. subst child. destruct a as [|x a]; [done|]. pose proof (Hfree (s :: x :: a) b ltac:(by rewrite E) Hb) as H.
        rewrite text_at_cons in H. destruct (r !! s) as [[]|]; [by apply text_at_empty..|done|by apply text_at_empty]. }
      destruct q as [|x q].
      * rewrite decide_False by done. rewrite decide_False by (intros [? [=]]). by rewrite Hs.
      * rewrite (IH child (x :: q)) by done. destruct (decide (x :: q = s' :: segs)) as [E|E].
        -- by rewrite decide_True by (by rewrite E).
        -- rewrite (decide_False (P := s :: x :: q = _)) by congruence. destruct (decide (s' :: segs `prefix_of` x :: q)) as [[z E']|Hp].
           ++ rewrite decide_True; [done|]. exists z. by rewrite E'.
           ++ rewrite decide_False; [|intros [z [= -> ->]]; apply Hp; by exists z]. subst child. destruct (r !! s) as [[]|]; [by apply text_at_empty..|done|by apply text_at_empty].
    + rewrite lookup_insert_ne by done. rewrite decide_False by congruence. rewrite decide_False; [done|]. intros [? [= ? ?]]. congruence.
Qed.

(** A leaf has nothing above or below it. *)
Lemma leaf_alone t p q v w : view t p = Some v → view t (p ++ q) = Some w → q = [].
Proof.
  unfold view, leaf_at. rewrite node_at_app. destruct (node_at p (root t)) as [n|]; [|done]. cbn. intros Hv. destruct q as [|s q]; [done|].
  cbn. unfold isLeaf. by rewrite Hv.
Qed.

(** ** What a report holds *)

Section report.
Context (t : Tree) (Hw : wf_tree t).
(** A leaf that does not go by the name of the time stamp. *)
Definition reported (segs : list string) (raw : string) : Prop :=
  segs ≠ [] ∧ Forall (λ s, valid_segment s = true) segs ∧ head segs ≠ Some "CollectionTime" ∧ ∃ v, view t segs = Some v ∧ Raw v = raw.
Lemma reported_fun segs raw raw' : reported segs raw → reported segs raw' → raw = raw'.
Proof. intros (_&_&_&v&Hv&<-) (_&_&_&u&Hu&<-). congruence. Qed.
Lemma reported_plain segs raw : reported segs raw → Strings.Split (joinPath segs) "." = segs.
Proof. intros (Hne&Hv&_). apply Split_joinPath; [done|]. eapply Forall_impl; [exact Hv|]. intros s. apply valid_plain. Qed.
Lemma reported_inj segs raw segs' raw' : reported segs raw → reported segs' raw' → joinPath segs = joinPath segs' → segs = segs'.
Proof. intros (_&H1&_) (_&H2&_) E. by eapply joinPath_inj. Qed.

Definition listed (l : list (string * string)) : Prop := ∀ path raw, (path, raw) ∈ l → ∃ segs, path = joinPath segs ∧ reported segs raw.
Lemma listed_snoc l x : listed (l ++ [x]) → listed l ∧ ∃ segs, x.1 = joinPath segs ∧ reported segs x.2.
Proof.
  intros H. split; [intros path raw Hin; apply H, elem_of_app; by left|]. apply (H x.1 x.2). rewrite <- surjective_pairing. apply elem_of_app. right. left.
Qed.
Definition at_most_time (e0 : report) : Prop :=
  (∀ s, s ≠ "CollectionTime" → e0 !! s = None) ∧ ∀ rest, rest ≠ [] → text_at ("CollectionTime" :: rest) e0 = None.

Lemma hierarchy_holds l (e0 : report) : listed l → at_most_time e0 → ∀ q raw,
  text_at q (foldl (λ e (kv : string * string), insertHierarchy e kv.1 kv.2) e0 l) = Some raw ↔
  text_at q e0 = Some raw ∨ reported q raw ∧ (joinPath q, raw) ∈ l.
Proof.
  intros Hl He0. assert (∀ q raw, text_at q e0 = Some raw → q = ["CollectionTime"]) as H0.
  { intros [|s q] raw Hq; [done|]. destruct (decide (s = "CollectionTime")) as [->|Hs].
    - destruct q as [|x q]; [done|]. by rewrite (proj2 He0) in Hq.
    - rewrite text_at_cons, (proj1 He0 s Hs) in Hq. by destruct q. }
  induction l as [|[path r] l IH] using rev_ind; intros q raw.
  { cbn. split; [by left|]. by intros [?|[_ ?%elem_of_nil]]. }
  apply listed_snoc in Hl as [Hl (segs&Hp&Hr)]. cbn [fst snd] in *. subst path. specialize (IH Hl).
  rewrite foldl_app. cbn [foldl fst snd]. set (e := foldl _ e0 l) in *. unfold insertHierarchy. rewrite (reported_plain _ _ Hr).
  rewrite insert_path_text.
  - rewrite elem_of_app, list_elem_of_singleton. destruct (decide (q = segs)) as [->|Hq].
    + split; [intros [= <-]; right; split; [done|by right]|]. intros [H|[H _]]; [|f_equal; by eapply reported_fun].
      apply H0 in H as ->. by destruct Hr as (_&_&Hh&_).
    + assert ((joinPath q, raw) = (joinPath segs, r) → ¬ reported q raw) as Hno by (intros [= E ->] H; by apply Hq; eapply reported_inj).
      destruct (decide (segs `prefix_of` q)) as [[z ->]|Hpre].
      * split; [done|]. destruct Hr as (Hne&_&Hh&v&Hv&_). intros [H|[(_&_&_&u&Hu&_) _]].
        -- apply H0 in H. by destruct segs as [|s [|? ?]]; simplify_eq/=.
        -- destruct Hq. rewrite (leaf_alone _ _ _ _ _ Hv Hu). by rewrite app_nil_r.
      * rewrite IH. split; [intros [?|[? ?]]; [by left|right; split; [done|by left]]|]. intros [?|[? [?|?]]]; [by left|by right|naive_solver].
  - by destruct Hr.
  - intros a b -> Hb. destruct (text_at a e) as [x|] eqn:E; [|done]. exfalso. apply IH in E as [H|[(_&_&_&u&Hu&_) _]].
    + apply H0 in H as ->. by destruct Hr as (_&_&Hh&_).
    + destruct Hr as (_&_&_&v&Hv&_). by apply Hb, (leaf_alone t a b u v).
Qed.
Lemma pairs_hold l (e0 : report) : listed l → at_most_time e0 → ∀ q raw, Forall (λ s, valid_segment s = true) q → q ≠ [] → head q ≠ Some "CollectionTime" →
  text_of (foldl (λ e (kv : string * string), <[kv.1 := JString kv.2]> e) e0 l !! joinPath q) = Some raw ↔ reported q raw ∧ (joinPath q, raw) ∈ l.
Proof.
  intros Hl He0 q raw Hv Hne Hh. induction l as [|[path r] l IH] using rev_ind.
  { cbn. rewrite (proj1 He0 (joinPath q)); [split; [done|by intros [_ ?%elem_of_nil]]|]. intros E.
    apply (joinPath_inj q ["CollectionTime"]) in E as ->; [done|done|by repeat constructor]. }
  apply listed_snoc in Hl as [Hl (segs&Hp&Hr)]. cbn [fst snd] in *. subst path. specialize (IH Hl).
  rewrite foldl_app, elem_of_app, list_elem_of_singleton. cbn [foldl fst snd]. destruct (decide (joinPath segs = joinPath q)) as [E|E].
  - rewrite E, lookup_insert_eq. cbn. assert (segs = q) as -> by (eapply joinPath_inj; [by destruct Hr as (_&?&_)|done|done]).
    split; [intros [= <-]; split; [done|by right]|]. intros [H _]. f_equal. by eapply reported_fun.
  - rewrite lookup_insert_ne by done. rewrite IH. split; [intros [? ?]; auto|]. intros [? [?|[= E' _]]]; [done|]. by destruct E.
Qed.
End report.

Lemma time_only spec now : at_most_time (collection_time spec now).
Proof.
  unfold collection_time. destruct (String.eqb _ _); [|destruct (String.eqb _ _)]; (split; [intros s Hs; by rewrite ?lookup_singleton_ne|]);
    intros rest Hr; rewrite text_at_cons; destruct rest; try done; by rewrite ?lookup_singleton_eq, ?lookup_empty.
Qed.
Lemma collect_flat t spec now (f : report → string * string → report) :
  (∀ p values e kv, p ∈ bsParameters spec → collect_value spec p values e kv = f e kv) →
  collect t spec now = foldl f (collection_time spec now) (flat_map (λ p, resolveBulkDataReference t (bdReference p)) (bsParameters spec)).
Proof.
  unfold collect. generalize (collection_time spec now). induction (bsParameters spec) as [|p l IH]; intros e Hf; [done|]. cbn [foldl flat_map]. rewrite foldl_app.
  rewrite <- IH by (intros; apply Hf; by right). f_equal. unfold collect_reference. generalize (resolveBulkDataReference t (bdReference p)) at 1 as vs.
  intros vs. revert e. induction (resolveBulkDataReference t (bdReference p)) as [|kv l' IH']; intros e; [done|]. cbn [foldl]. rewrite <- IH'. f_equal. apply Hf. left.
Qed.
(** The key a value goes by in a report of names and values: the name its
    parameter was given, where its reference names one leaf, else its path. *)
Definition named (p : bulkDataReference) : Prop :=
  bdName p ≠ "" ∧ Strings.ContainsAny (bdReference p) "*[" = false ∧ Strings.HasSuffix (bdReference p) "." = false.
#[export] Instance named_dec p : Decision (named p).
Proof. unfold named. apply _. Defined.
Definition owed (t : Tree) (p : bulkDataReference) (key raw : string) : Prop :=
  ∃ segs v, covers t (bdReference p) segs ∧ view t segs = Some v ∧ Raw v = raw ∧
    key = if decide (named p) then bdName p else joinPath segs.

Lemma resolve_plain t reference : Strings.ContainsAny reference "*[" = false → Strings.HasSuffix reference "." = false →
  (length (resolveBulkDataReference t reference) ≤ 1)%nat.
Proof.
  intros Hs Hd. unfold resolveBulkDataReference. rewrite merge_sort_Permutation. unfold ExpandSearchPath. rewrite Hs. cbn.
  rewrite app_nil_r. unfold values_at. rewrite Hd. destruct (Get t reference); simpl; lia.
Qed.
Definition entries (t : Tree) (p : bulkDataReference) : list (string * string) :=
  let values := resolveBulkDataReference t (bdReference p) in
  (λ kv, (if renames p values then bdName p else kv.1, kv.2)) <$> values.
Lemma elem_of_entries t p key raw : (key, raw) ∈ entries t p ↔ owed t p key raw.
Proof.
  unfold entries, owed. set (vs := resolveBulkDataReference t (bdReference p)).
  assert (∀ x, x ∈ vs → renames p vs = bool_decide (named p)) as Hren.
  { intros x Hx. assert (Strings.ContainsAny (bdReference p) "*[" = false → Strings.HasSuffix (bdReference p) "." = false → length vs = 1%nat) as Hone.
    { intros E1 E2. pose proof (resolve_plain t _ E1 E2) as Hl. fold vs in Hl. destruct vs as [|y [|z l]]; [by apply elem_of_nil in Hx|done|simpl in Hl; lia]. }
    apply Bool.eq_true_iff_eq. rewrite bool_decide_eq_true. unfold renames, named. rewrite !andb_true_iff, !negb_true_iff, String.eqb_neq, Nat.eqb_eq.
    naive_solver. }
  rewrite list_elem_of_fmap. split.
  - intros ([path r]&[= -> ->]&Hin). rewrite (Hren _ Hin). apply resolve_spec in Hin as (segs&v&->&Hv&<-&Hc).
    exists segs, v. split_and!; try done. by destruct (decide (named p)); [rewrite bool_decide_true|rewrite bool_decide_false].
  - intros (segs&v&Hc&Hv&<-&->). assert ((joinPath segs, Raw v) ∈ vs) as Hin by (apply resolve_spec; by exists segs, v).
    exists (joinPath segs, Raw v). split; [|done]. rewrite (Hren _ Hin). cbn. f_equal.
    by destruct (decide (named p)); [rewrite bool_decide_true|rewrite bool_decide_false].
Qed.
Lemma collect_named spec p vs l e : bsFormat spec = "NameValuePair" →
  foldl (collect_value spec p vs) e l =
  foldl (λ e (kv : string * string), <[kv.1 := JString kv.2]> e) e ((λ kv, (if renames p vs then bdName p else kv.1, kv.2)) <$> l).
Proof.
  intros E. revert e; induction l as [|kv l IH]; intros e; [done|]. cbn [foldl fmap list_fmap]. rewrite <- IH.
  f_equal. unfold collect_value. by rewrite (proj2 (String.eqb_eq _ _) E).
Qed.
Lemma collect_pairs t spec now : bsFormat spec = "NameValuePair" →
  collect t spec now = foldl (λ e (kv : string * string), <[kv.1 := JString kv.2]> e) (collection_time spec now) (flat_map (entries t) (bsParameters spec)).
Proof.
  intros E. unfold collect. generalize (collection_time spec now). induction (bsParameters spec) as [|p l IH]; intros e; [done|].
  cbn [foldl flat_map]. rewrite foldl_app, <- IH. f_equal. by apply collect_named.
Qed.
Lemma pairs_lookup (l : list (string * string)) (e : report) k :
  (∀ raw, foldl (λ e (kv : string * string), <[kv.1 := JString kv.2]> e) e l !! k = Some (JString raw) → e !! k = None → (k, raw) ∈ l) ∧
  (∀ raw, (k, raw) ∈ l → (∀ raw', (k, raw') ∈ l → raw' = raw) →
     foldl (λ e (kv : string * string), <[kv.1 := JString kv.2]> e) e l !! k = Some (JString raw)).
Proof.
  induction l as [|[k' r] l [IH1 IH2]] using rev_ind; [split; [intros raw H1 H2; cbn in H1; congruence|by intros ? ?%elem_of_nil]|].
  rewrite foldl_app. cbn [foldl fst snd]. setoid_rewrite elem_of_app. setoid_rewrite list_elem_of_singleton. destruct (decide (k' = k)) as [->|Hk].
  - rewrite lookup_insert_eq. split; [intros raw [= <-] _; by right|]. intros raw _ Hu. do 2 f_equal. apply Hu. by right.
  - rewrite lookup_insert_ne by done. split; [intros raw H He; left; by apply IH1|]. intros raw [Hin|[= ? ?]] Hu; [|congruence].
    apply IH2; [done|]. intros raw' Hr. apply Hu. by left.
Qed.

(** C26. A report holds what it was asked for, in a tree none of whose leaves
    is at or under "CollectionTime". In a hierarchy, the place of a path has a
    value exactly when the path is a leaf that a reference of the profile
    covers, and it is the leaf's. Among names and values, every key but
    "CollectionTime" has a value some parameter owes it, and every value a
    parameter owes is under its key, unless another is owed under the same key
    (see [duplicate_name_loses]); the key is the parameter's name when it has
    one and its reference names a leaf outright, and the leaf's path otherwise. *)
Theorem report_exact (t : Tree) (spec : bulkDataSpec) (now : Z) (Hw : wf_tree t) (Hr : leaf (root t) = None)
  (Hc : children (root t) !! "CollectionTime" = None) :
  (bsFormat spec ≠ "NameValuePair" → ∀ segs raw,
     Forall (λ s, valid_segment s = true) segs → segs ≠ [] → head segs ≠ Some "CollectionTime" →
     text_at segs (collect t spec now) = Some raw ↔
     ∃ v p, view t segs = Some v ∧ Raw v = raw ∧ p ∈ bsParameters spec ∧ covers t (bdReference p) segs) ∧
  (bsFormat spec = "NameValuePair" → ∀ key raw, key ≠ "CollectionTime" →
     (text_of (collect t spec now !! key) = Some raw → ∃ p, p ∈ bsParameters spec ∧ owed t p key raw) ∧
     (∀ p, p ∈ bsParameters spec → owed t p key raw →
        (∀ p' raw', p' ∈ bsParameters spec → owed t p' key raw' → raw' = raw) →
        text_of (collect t spec now !! key) = Some raw)).
Proof.
  split.
  - intros E segs raw Hs Hne Ht. set (l := flat_map (λ p, resolveBulkDataReference t (bdReference p)) (bsParameters spec)).
    assert (∀ path raw, (path, raw) ∈ l ↔ ∃ p segs v, p ∈ bsParameters spec ∧ path = joinPath segs ∧ view t segs = Some v ∧ Raw v = raw ∧ covers t (bdReference p) segs) as Hl.
    { intros path r. unfold l. rewrite elem_of_flat_map. setoid_rewrite resolve_spec. naive_solver. }
    assert (listed t l) as Hlist.
    { intros path r (p&q&v&_&->&Hv&<-&_)%Hl. exists q. split; [done|]. unfold view, leaf_at in Hv. apply bind_Some in Hv as (m&Hm&Hlf).
      split_and!; [intros ->; cbn in Hm; congruence|by eapply wf_node_at_segments| |exists v; split; [unfold view, leaf_at; by rewrite Hm|done]].
      destruct q as [|s q]; [done|]. cbn. intros [= ->]. rewrite node_at_cons in Hm. destruct (isLeaf _); [done|]. by rewrite Hc in Hm. }
    assert (collect t spec now = foldl (λ e (kv : string * string), insertHierarchy e kv.1 kv.2) (collection_time spec now) l) as ->.
    { apply (collect_flat t spec now (λ e kv, insertHierarchy e kv.1 kv.2)). intros p values e kv Hp. unfold collect_value. by destruct (String.eqb_spec (bsFormat spec) "NameValuePair"). }
    rewrite (hierarchy_holds t l) by (done || apply time_only). split.
    + intros [H|[_ (p&q&v&Hp&Eq&Hv&Hvr&Hcov)%Hl]].
      { exfalso. destruct segs as [|s q]; [done|]. rewrite text_at_cons, (proj1 (time_only spec now) s) in H by (by intros ->). by destruct q. }
      assert (q = segs) as ->; [|by exists v, p]. symmetry. apply joinPath_inj; [done| |done].
      unfold view, leaf_at in Hv. apply bind_Some in Hv as (m&Hm&_). by eapply wf_node_at_segments.
    + intros (v&p&Hv&Hvr&Hp&Hcov). right. split; [split_and!; [done..|by exists v]|]. apply Hl. by exists p, segs, v.
  - intros E key raw Hk. rewrite (collect_pairs t spec now E). set (l := flat_map (entries t) (bsParameters spec)).
    assert (∀ r, (key, r) ∈ l ↔ ∃ p, p ∈ bsParameters spec ∧ owed t p key r) as Hl.
    { intros r. unfold l. rewrite elem_of_flat_map. setoid_rewrite elem_of_entries. naive_solver. }
    destruct (pairs_lookup l (collection_time spec now) key) as [H1 H2]. split.
    + intros H. apply Hl, H1; [|by apply time_only]. by destruct (foldl _ _ l !! key) as [[]|]; simplify_eq/=.
    + intros p Hp Ho Hu. rewrite (H2 raw); [done|apply Hl; by exists p|]. intros r (p'&Hp'&Ho')%Hl. by eapply Hu.
Qed.

(** ** The cadence *)

Lemma catch_up_spec turns now i due : (0 < i)%Z → ((now - due) / i + 1 ≤ Z.of_nat turns)%Z →
  let r := catch_up turns now i due in (now < r)%Z ∧ (r ≤ Z.max due (now + i))%Z ∧ ∃ k, r = (due + k * i)%Z.
Proof.
  intros Hi. revert due; induction turns as [|turns IH]; intros due Hn; cbn [catch_up].
  - assert (now < due)%Z. { destruct (Z.lt_ge_cases now due) as [?|?]; [done|]. pose proof (Z.div_pos (now - due) i). lia. }
    split_and!; [done|lia|]. exists 0%Z. lia.
  - destruct (Z.ltb_spec now due) as [Hl|Hl]; [split_and!; [done|lia|exists 0%Z; lia]|].
    destruct (IH (due + i)%Z) as (H1&H2&k&Hk).
    { replace (now - (due + i))%Z with (now - due + (-1) * i)%Z by lia. rewrite Z.div_add by lia. lia. }
    split_and!; [done|lia|]. exists (k + 1)%Z. lia.
Qed.
Lemma turns_enough now i due : ((now - due) / i + 1 ≤ Z.of_nat (turns_to now i due))%Z.
Proof. unfold turns_to. lia. Qed.

Lemma firstDue_spec now spec : let i := bsInterval spec in let ref := bsTimeRef spec in
  (0 < i)%Z → (ref ≠ zero_time → now - ref + i ≤ maxDuration)%Z →
  (now < firstDue now spec ≤ Z.max (now + i) ref)%Z ∧ (ref ≠ zero_time → (firstDue now spec - ref) mod i = 0)%Z.
Proof.
  intros i ref Hi Hnear. unfold firstDue. fold i ref. destruct (Z.eqb_spec ref zero_time) as [E|E]; [split; [lia|done]|]. specialize (Hnear E).
  destruct (Z.ltb_spec now ref) as [Hl|Hl]; [split; [lia|intros _; rewrite Z.sub_diag; by apply Z.mod_0_l; lia]|].
  unfold Sub, maxDuration, minDuration in *. rewrite Z.min_r, Z.max_r by lia. rewrite Z.quot_div_nonneg by lia.
  pose proof (Z.div_mod (now - ref) i ltac:(lia)) as Hd. pose proof (Z.mod_pos_bound (now - ref) i Hi) as Hm. set (k := ((now - ref) / i)%Z) in *.
  assert (0 ≤ k)%Z as Hk by (apply Z.div_pos; lia). assert (k ≤ now - ref)%Z as Hk' by nia.
  rewrite (i64_small (k + 1)) by lia. rewrite i64_small by nia. split; [nia|]. intros _.
  replace (ref + (k + 1) * i - ref)%Z with ((k + 1) * i)%Z by lia. apply Z.mod_mul. lia.
Qed.

Section collector.
Context (serial : string) (publish : Msg Notify → option error) (t : Tree) (now : Z).

Lemma push_state inst spec st c st' c' : push serial publish t now inst spec st c = (st', c') →
  stInterval st' = stInterval st ∧ nextDue st' = nextDue st ∧ skipped st' = skipped st ∧ profiles c' = profiles c ∧
  (seq c', sent c') = (let '(s, ms, _) := deliverEvent serial publish t (seq c) inst BulkDataPushEvent
                         {["Data" := encodeBulkDataReport (retained st ++ [collect t spec now])]} in (s, sent c ++ ms)).
Proof.
  unfold push. destruct (deliverEvent _ _ _ _ _ _ _) as [[s ms] [d e]]. intros [= <- <-]. done.
Qed.
Lemma visit_other inst inst' c : inst ≠ inst' → profiles (visit serial publish t now c inst') !! inst = profiles c !! inst.
Proof.
  intros Hne. unfold visit. destruct (readBulkDataProfile t inst') as [| |spec].
  - by apply lookup_delete_ne.
  - destruct (profiles c !! inst') as [st|]; [destruct (skipped st); [done|]|]; by apply lookup_insert_ne.
  - destruct (_ <? _)%Z; [by apply lookup_insert_ne|]. destruct (push _ _ _ _ _ _ _ _) as [st' c'] eqn:E. apply push_state in E as (_&_&_&Hp&_). cbn.
    rewrite lookup_insert_ne by done. by rewrite Hp.
Qed.
Lemma visits_other inst l c : inst ∉ l → profiles (foldl (visit serial publish t now) c l) !! inst = profiles c !! inst.
Proof.
  revert c; induction l as [|x l IH]; intros c Hn; [done|]. apply not_elem_of_cons in Hn as [Hx Hl]. cbn [foldl]. rewrite IH by done. by apply visit_other.
Qed.
(** What a visit to a deliverable profile leaves. *)
Lemma visit_deliver inst spec c : readBulkDataProfile t inst = Deliver spec → ∃ st', profiles (visit serial publish t now c inst) !! inst = Some st' ∧
  let st := current now spec (profiles c !! inst) in
  stInterval st' = bsInterval spec ∧ skipped st' = false ∧
  nextDue st' = (if now <? nextDue st then nextDue st else catch_up (turns_to now (bsInterval spec) (nextDue st)) now (bsInterval spec) (nextDue st))%Z.
Proof.
  intros Hr. unfold visit. rewrite Hr. set (st := current now spec (profiles c !! inst)).
  assert (stInterval st = bsInterval spec ∧ skipped st = false) as [Hi Hs].
  { unfold st, current. destruct (profiles c !! inst) as [s|]; [|done]. destruct (skipped s) eqn:Es; [done|]. cbn [orb]. destruct (Z.eqb_spec (stInterval s) (bsInterval spec)); [|done]. done. }
  destruct (_ <? _)%Z; [exists st; split; [apply lookup_insert_eq|done]|].
  destruct (push _ _ _ _ _ _ _ _) as [st' c'] eqn:E. apply push_state in E as (Hi'&Hd'&Hs'&_). eexists. split; [apply lookup_insert_eq|]. cbn. rewrite Hi', Hs', Hd'. done.
Qed.

(** The report that is due, and the messages of the due profiles in their order. *)
Definition due_report (c : collector) (inst : string) : option string :=
  match readBulkDataProfile t inst with
  | Deliver spec =>
      let st := current now spec (profiles c !! inst) in
      if (now <? nextDue st)%Z then None else Some (encodeBulkDataReport (retained st ++ [collect t spec now]))
  | _ => None
  end.
Definition deliver_due (c : collector) (acc : Z * list (Msg Notify)) (inst : string) : Z * list (Msg Notify) :=
  match due_report c inst with
  | None => acc
  | Some data => let '(s, ms, _) := deliverEvent serial publish t acc.1 inst BulkDataPushEvent {["Data" := data]} in (s, acc.2 ++ ms)
  end.
Lemma visit_sends c0 c inst : profiles c !! inst = profiles c0 !! inst →
  (seq (visit serial publish t now c inst), sent (visit serial publish t now c inst)) = deliver_due c0 (seq c, sent c) inst.
Proof.
  intros Hp. unfold visit, deliver_due, due_report. rewrite <- Hp. destruct (readBulkDataProfile t inst) as [| |spec]; [done| |].
  - destruct (profiles c !! inst) as [st|]; [by destruct (skipped st)|done].
  - destruct (_ <? _)%Z; [done|]. destruct (push _ _ _ _ _ _ _ _) as [st' c'] eqn:E. by apply push_state in E as (_&_&_&_&Hs).
Qed.
Lemma visits_send c0 l c : NoDup l → (∀ inst, inst ∈ l → profiles c !! inst = profiles c0 !! inst) →
  (seq (foldl (visit serial publish t now) c l), sent (foldl (visit serial publish t now) c l)) = foldl (deliver_due c0) (seq c, sent c) l.
Proof.
  revert c; induction l as [|x l IH]; intros c HN Hp; [done|]. apply NoDup_cons in HN as [Hx HN]. cbn [foldl].
  rewrite IH; [|done|]; [f_equal; apply visit_sends, Hp; left|]. intros inst Hin. rewrite visit_other; [apply Hp; by right|]. by intros ->.
Qed.
Lemma profiles_under : wf_tree t → NoDup (childInstances t BulkDataProfilePath).
Proof. intros Hw. apply (childInstances_spec t BulkDataProfilePath ["Device"; "BulkData"; "Profile"] Hw). by vm_compute. Qed.
Lemma tick_deliver inst spec c : wf_tree t → inst ∈ childInstances t BulkDataProfilePath → readBulkDataProfile t inst = Deliver spec →
  ∃ st', profiles (tick serial publish t now c) !! inst = Some st' ∧
  let st := current now spec (profiles c !! inst) in
  stInterval st' = bsInterval spec ∧ skipped st' = false ∧
  nextDue st' = (if now <? nextDue st then nextDue st else catch_up (turns_to now (bsInterval spec) (nextDue st)) now (bsInterval spec) (nextDue st))%Z.
Proof.
  intros Hw Hin Hr. pose proof (profiles_under Hw) as HN. apply list_elem_of_split in Hin as (l1&l2&E).
  assert (∃ st', profiles (foldl (visit serial publish t now) c (childInstances t BulkDataProfilePath)) !! inst = Some st' ∧
    let st := current now spec (profiles c !! inst) in stInterval st' = bsInterval spec ∧ skipped st' = false ∧
    nextDue st' = (if now <? nextDue st then nextDue st else catch_up (turns_to now (bsInterval spec) (nextDue st)) now (bsInterval spec) (nextDue st))%Z) as (st'&Hst&Hrest).
  { rewrite E in HN |- *. apply NoDup_app in HN as (_&H1&[H2 _]%NoDup_cons). rewrite foldl_app. cbn [foldl]. rewrite visits_other by done.
    rewrite <- (visits_other inst l1 c); [by apply visit_deliver|]. intros Hl1. apply (H1 inst Hl1). left. }
  exists st'. split; [|done]. unfold tick. cbn. unfold forget. apply map_lookup_filter_Some. split; [done|]. left. apply list_elem_of_filter.
  split; [unfold is_live; cbn; by rewrite Hr|]. cbn [fst]. rewrite E. apply elem_of_app. right. left.
Qed.
End collector.

(** A tick reports exactly the profiles that are due, each once, in the order of
    the table: what it hands to the transport are the Push! events of those, each
    with the reports its profile still held followed by the new one. *)
Theorem tick_reports (serial : string) (publish : Msg Notify → option error) (t : Tree) (now : Z) (c : collector) (Hw : wf_tree t) :
  (seq (tick serial publish t now c), sent (tick serial publish t now c)) =
  foldl (deliver_due serial publish t now c) (seq c, sent c) (childInstances t BulkDataProfilePath).
Proof. unfold tick. cbn [seq sent set_profiles]. apply visits_send; [by apply profiles_under|done]. Qed.

(** The ticks of one agent find a profile on, with one interval and reference. *)
Definition steady (inst : string) (i ref : Z) (tn : Tree * Z) : Prop :=
  wf_tree tn.1 ∧ inst ∈ childInstances tn.1 BulkDataProfilePath ∧
  ∃ spec, readBulkDataProfile tn.1 inst = Deliver spec ∧ bsInterval spec = i ∧ bsTimeRef spec = ref.
Lemma ticks_snoc serial publish l x c : ticks serial publish (l ++ [x]) c = tick serial publish x.1 x.2 (ticks serial publish l c).
Proof. revert c; induction l as [|[t now] l IH]; intros c; [by destruct x|apply IH]. Qed.

Definition on_time (i ref now : Z) (st : bulkDataState) : Prop :=
  stInterval st = i ∧ skipped st = false ∧ (now < nextDue st ≤ Z.max (now + i) ref)%Z ∧ (ref ≠ zero_time → (nextDue st - ref) mod i = 0)%Z.
Lemma steady_tick serial publish t now c inst i ref : (0 < i)%Z → steady inst i ref (t, now) → (ref ≠ zero_time → now - ref + i ≤ maxDuration)%Z →
  (profiles c !! inst = None ∨ ∃ st n0, profiles c !! inst = Some st ∧ (n0 ≤ now)%Z ∧ on_time i ref n0 st) →
  ∃ st, profiles (tick serial publish t now c) !! inst = Some st ∧ on_time i ref now st.
Proof.
  intros Hi (Hw&Hin&spec&Hr&Hsi&Hsr) Hnear Hc. cbn [fst snd] in *.
  destruct (tick_deliver serial publish t now inst spec c Hw Hin Hr) as (st&Hst&Hsti&Hsk&Hdue). exists st. split; [done|].
  assert ((nextDue (current now spec (profiles c !! inst)) ≤ Z.max (now + i) ref)%Z ∧
    (ref ≠ zero_time → (nextDue (current now spec (profiles c !! inst)) - ref) mod i = 0)%Z) as [Hle Hb].
  { destruct Hc as [->|(st0&n0&->&Hn&Hi0&Hs0&Hd0&Hb0)]; cbn.
    - destruct (firstDue_spec now spec) as [H1 H2]; rewrite ?Hsi, ?Hsr in *; [done..|]. split; [lia|done].
    - rewrite Hs0, Hi0, Hsi, Z.eqb_refl. cbn. split; [lia|done]. }
  rewrite Hsi in Hdue, Hsti. set (due := nextDue (current now spec (profiles c !! inst))) in *.
  destruct (catch_up_spec (turns_to now i due) now i due Hi (turns_enough _ _ _)) as (H1&H2&k&Hk).
  split_and!; [done|done|..]; rewrite Hdue; destruct (Z.ltb_spec now due); [lia|lia|lia|lia|done|]. intros Hne. rewrite Hk.
  replace (due + k * i - ref)%Z with (due - ref + k * i)%Z by lia. rewrite Z.mod_add by lia. by apply Hb.
Qed.

(** C27. A profile keeps its cadence. Take the ticks of an agent in the order of
    their times, throughout which a profile that has no state yet is on, with
    one interval and one time reference, the reference, where it has one, less
    than the longest duration (292 years) minus an interval before every tick.
    Then, whatever else happens to the tree and however late the ticks come,
    after each tick the next report is ahead, at most one interval away or, when
    its time reference is further off, at the reference, and, with a reference,
    a whole number of intervals from it. *)
Theorem bulk_cadence (serial : string) (publish : Msg Notify → option error) (l : list (Tree * Z)) (t : Tree) (now : Z) (c : collector)
  (inst : string) (i ref : Z) (Hi : (0 < i)%Z) (Hl : Forall (steady inst i ref) (l ++ [(t, now)]))
  (Hnear : ref ≠ zero_time → Forall (λ tn : Tree * Z, (tn.2 - ref + i ≤ maxDuration)%Z) (l ++ [(t, now)]))
  (Hmono : StronglySorted Z.le (l ++ [(t, now)]).*2) (Hnew : profiles c !! inst = None) :
  ∃ st, profiles (ticks serial publish (l ++ [(t, now)]) c) !! inst = Some st ∧
    (now < nextDue st ≤ Z.max (now + i) ref)%Z ∧ (ref ≠ zero_time → (nextDue st - ref) mod i = 0)%Z.
Proof.
  assert (∀ l n0, Forall (steady inst i ref) l → (ref ≠ zero_time → Forall (λ tn : Tree * Z, (tn.2 - ref + i ≤ maxDuration)%Z) l) →
    StronglySorted Z.le l.*2 → last l.*2 = Some n0 → ∃ st, profiles (ticks serial publish l c) !! inst = Some st ∧ on_time i ref n0 st) as H.
  { clear -Hi Hnew. intros l. induction l as [|[t n] l IH] using rev_ind; intros n0 Hl Hnear Hmono Hlast; [done|].
    rewrite fmap_app in Hmono, Hlast. cbn in Hmono, Hlast. rewrite last_snoc in Hlast. injection Hlast as ->.
    apply Forall_app in Hl as [Hl Hx]. apply (Forall_singleton (steady inst i ref)) in Hx. rewrite ticks_snoc. apply steady_tick; [done|done| |].
    - intros Hne. specialize (Hnear Hne). apply Forall_app in Hnear as [_ Hn]. by apply (Forall_singleton (λ tn : Tree * Z, (tn.2 - ref + i ≤ maxDuration)%Z)) in Hn.
    - destruct (last l.*2) as [n1|] eqn:E.
      + destruct (IH n1) as (st&Hst&Hon); [done|intros Hne; by apply Forall_app in Hnear as [? _]|by apply StronglySorted_app_1_l in Hmono|done|].
        right. exists st, n1. split_and!; [done| |done]. apply last_Some in E as [l0 E]. rewrite E, <- (assoc_L (++)) in Hmono.
        apply StronglySorted_app_1_r in Hmono. cbn in Hmono. apply StronglySorted_inv in Hmono as [_ Hm]. by apply (Forall_singleton (Z.le n1)) in Hm.
      + left. apply last_None in E. by destruct l. }
  destruct (H (l ++ [(t, now)]) now) as (st&Hst&_&_&Hd); [done..|rewrite fmap_app; apply last_snoc|]. by exists st.
Qed.

(** ** Failed reports *)

Definition cap (limit : Z) : nat :=
  if ((limit <? 0) || (Z.of_nat maxRetainedReports <? limit))%Z then maxRetainedReports else Z.to_nat limit.
(** Of the reports that reached nobody a profile holds the newest, oldest first. *)
Lemma failed_pushes_keep_newest limit l : (limit ≠ 0)%Z → foldl (retain limit) [] l = drop (length l - cap limit) l.
Proof.
  intros Hl. induction l as [|x l IH] using rev_ind; [done|]. rewrite foldl_app. cbn [foldl]. rewrite IH. unfold retain.
  rewrite (proj2 (Z.eqb_neq _ _) Hl). fold (cap limit). rewrite !length_app, length_drop. cbn [length].
  assert (1 <= cap limit)%nat.
  { unfold cap, maxRetainedReports. destruct (Z.ltb_spec limit 0); [cbn; lia|]. destruct (Z.ltb_spec (Z.of_nat 100) limit); cbn; lia. }
  rewrite <- drop_app_le by lia. rewrite drop_drop. f_equal. lia.
Qed.

(** ** A device *)

Definition ex_set (path raw : string) (t : Tree) : Tree := (SetSystem t path raw).1.1.
Definition ex_row : string := "Device.BulkData.Profile.1.".
Definition ex_bare : Tree := (EnsureBulkData New_).1.1.
Definition ex_profile (t : Tree) : Tree :=
  ex_set (ex_row +:+ "Enable") "true" (ex_set (ex_row +:+ "Protocol") "USPEventNotif" (ex_set (ex_row +:+ "EncodingType") "JSON"
    (ex_set (ex_row +:+ "ReportingInterval") "60" (AddObject t BulkDataProfilePath).1.1))).
(** One profile, every minute, on the capabilities of the agent. *)
Definition ex_device : Tree :=
  ex_set (ex_row +:+ "Parameter.1.Reference") "Device.BulkData.Profile.*.JSONEncoding." (ex_set (ex_row +:+ "Parameter.2.Reference") "Device.BulkData.Status"
    (AddObject (AddObject (ex_profile ex_bare) (ex_row +:+ "Parameter.")).1.1 (ex_row +:+ "Parameter.")).1.1).
Definition ex_read (t : Tree) : bulkDataSpec := match readBulkDataProfile t ex_row with Deliver spec => spec | _ => MkSpec 0 0 0 "" "" [] end.
Definition minute : Z := 60 * Second.
Definition ex_silent (m : Msg Notify) : option error := None.

Lemma device_wf : wf_tree ex_device.
Proof. apply wf_nodeb_sound. vm_compute. reflexivity. Qed.
Lemma report_exact_witness :
  text_at ["Device"; "BulkData"; "Status"] (collect ex_device (ex_read ex_device) 0) = Some "Enabled" ↔
  ∃ v p, view ex_device ["Device"; "BulkData"; "Status"] = Some v ∧ Raw v = "Enabled" ∧ p ∈ bsParameters (ex_read ex_device) ∧
    covers ex_device (bdReference p) ["Device"; "BulkData"; "Status"].
Proof.
  apply (proj1 (report_exact ex_device (ex_read ex_device) 0 device_wf ltac:(vm_compute; reflexivity) ltac:(vm_compute; reflexivity)));
    [|by repeat constructor|done|done].
  vm_compute. discriminate.
Defined.
(** Two parameters given one name: the value of the first is not reported. *)
Example duplicate_name_loses :
  let spec := MkSpec minute 0 zero_time "NameValuePair" "None"
    [MkReference "A" "Device.BulkData.Status"; MkReference "A" "Device.BulkData.Enable"] in
  text_of (collect ex_device spec 0 !! "A") = Raw <$> view ex_device ["Device"; "BulkData"; "Enable"] ∧ size (collect ex_device spec 0) = 1%nat.
Proof. split; vm_compute; reflexivity. Qed.
Lemma tick_reports_witness :
  let c := newBulkDataCollector 0 in
  (seq (tick "S" ex_silent ex_device 0 c), sent (tick "S" ex_silent ex_device 0 c)) =
  foldl (deliver_due "S" ex_silent ex_device 0 c) (seq c, sent c) (childInstances ex_device BulkDataProfilePath).
Proof. exact (tick_reports "S" ex_silent ex_device 0 (newBulkDataCollector 0) device_wf). Defined.

(** A profile with a reference, and the ticks of an agent that stalled. *)
Definition ex_timed : Tree := ex_set (ex_row +:+ "TimeReference") "2023-11-14T22:13:00Z" ex_device.
Definition ex_ref : Z := 1699999980 * Second.
Definition at_second (n : Z) : Tree * Z := (ex_timed, (n * Second)%Z).
Definition ex_ticks : list (Tree * Z) := [at_second 1700000010; at_second 1700000070].
Lemma ex_steady n : steady ex_row minute ex_ref (at_second n).
Proof.
  split; [apply wf_nodeb_sound; vm_compute; reflexivity|]. split; [by apply (bool_decide_unpack _); vm_compute|].
  exists (ex_read ex_timed). split_and!; vm_compute; reflexivity.
Qed.
Lemma bulk_cadence_witness :
  ∃ st, profiles (ticks "S" ex_silent (ex_ticks ++ [at_second 1700000630]) (newBulkDataCollector 0)) !! ex_row = Some st ∧
    (1700000630 * Second < nextDue st ≤ Z.max (1700000630 * Second + minute) ex_ref)%Z ∧ (ex_ref ≠ zero_time → (nextDue st - ex_ref) mod minute = 0)%Z.
Proof.
  apply (bulk_cadence "S" ex_silent ex_ticks ex_timed (1700000630 * Second) (newBulkDataCollector 0) ex_row minute ex_ref).
  - done.
  - change (Forall (steady ex_row minute ex_ref) (at_second <$> [1700000010; 1700000070; 1700000630]%Z)).
    apply Forall_fmap, Forall_forall. intros n _. apply ex_steady.
  - intros _. change (Forall (λ tn : Tree * Z, (tn.2 - ex_ref + minute ≤ maxDuration)%Z) (at_second <$> [1700000010; 1700000070; 1700000630]%Z)).
    apply Forall_fmap. repeat (apply Forall_cons; split; [by vm_compute|]). by apply Forall_nil.
  - change (StronglySorted Z.le ((λ n, n * Second)%Z <$> [1700000010; 1700000070; 1700000630]%Z)). apply Sorted_StronglySorted; [apply _|].
    repeat constructor; by vm_compute.
  - done.
Defined.

(** ** Against the intent *)

(** A time reference that changes while the interval stays is not looked at:
    the profile goes on along the old boundaries. *)
Lemma changed_reference_ignored now spec st ref : skipped st = false → stInterval st = bsInterval spec →
  current now (MkSpec (bsInterval spec) (bsRetain spec) ref (bsFormat spec) (bsTimestamp spec) (bsParameters spec)) (Some st) = st.
Proof. intros Hs Hi. unfold current. cbn. by rewrite Hs, Hi, Z.eqb_refl. Qed.
(** From a reference centuries back the distance is cut to what a duration can
    hold and then wraps: the first report is due six centuries ago, at once, and
    ten thousand million turns bring the profile to the present. *)
Lemma far_reference_is_due :
  let spec := MkSpec Second 0 (time_reference "1700-01-01T00:00:00Z") "" "" [] in
  let now := (1700000000 * Second)%Z in
  (firstDue now spec < bsTimeRef spec)%Z ∧ (10 ^ 10 < (now - firstDue now spec) / Second)%Z.
Proof. split; vm_compute; reflexivity. Qed.
(** Turning bulk data off as a whole turns off no profile. *)
Lemma master_switch_unread : readBulkDataProfile (ex_set "Device.BulkData.Enable" "false" ex_device) ex_row = readBulkDataProfile ex_device ex_row.
Proof. vm_compute. reflexivity. Qed.
(** A profile that keeps no failed report keeps those it has. *)
Lemma no_retention_keeps entry kept : retain 0 kept entry = kept.
Proof. reflexivity. Qed.
(** A profile that could not be delivered is remembered after its row is gone. *)
Lemma skipped_row_stays serial publish t now c inst st : inst ∉ childInstances t BulkDataProfilePath →
  profiles c !! inst = Some st → skipped st = true → profiles (tick serial publish t now c) !! inst = Some st.
Proof.
  intros Hin Hst Hs. unfold tick. cbn. unfold forget. apply map_lookup_filter_Some. split; [by rewrite visits_other|by right].
Qed.
