(* ===== verification/GoFlag.v ===== *)
(** * What start-up uses of Go's [strconv] and [flag]

    Numbers in base 0, booleans, and a [flag.FlagSet] that continues on error.
    [time.ParseDuration] is a parameter. *)
From Stdlib Require Import ZArith Lia Ascii String.
From S2P Require Import Prelude GoLib GoText CpeErr.

(** ** [strconv] *)

(** [lower]: a letter in lower case; no other byte becomes one. *)
Definition lower (c : ascii) : ascii := ascii_of_N (N.lor (byte_of c) 32).
Definition underscore : ascii := ascii_of_nat 95.

(** The digit a byte stands for in the bases up to 36. *)
Definition digit_of (c : ascii) : option Z :=
  if between 48 57 c then Some (Z.of_N (byte_of c) - 48)%Z
  else if between 97 122 (lower c) then Some (Z.of_N (byte_of (lower c)) - 87)%Z
  else None.
(** The prefix that sets the base, and what it leaves. *)
Definition base_prefix (s : string) : Z * string :=
  match s with
  | String z (String x ((String _ _) as rest)) =>
      if Ascii.eqb z "0" then
        if Ascii.eqb (lower x) "b" then (2%Z, rest)
        else if Ascii.eqb (lower x) "o" then (8%Z, rest)
        else if Ascii.eqb (lower x) "x" then (16%Z, rest)
        else (8%Z, String x rest)
      else (10%Z, s)
  | String z rest => if Ascii.eqb z "0" then (8%Z, rest) else (10%Z, s)
  | "" => (10%Z, "")
  end.
(** The digits, and whether there was an underscore among them. *)
Fixpoint digits_loop (base maxVal n : Z) (underscores : bool) (s : string) : result Strconv.NumError (Z * bool) :=
  match s with
  | "" => Ok (n, underscores)
  | String c s' =>
      if Ascii.eqb c underscore then digits_loop base maxVal n true s'
      else
        match digit_of c with
        | Some d =>
            if (base <=? d)%Z then Err Strconv.ErrSyntax
            else let n1 := (n * base + d)%Z in
                 if (maxVal <? n1)%Z then Err Strconv.ErrRange else digits_loop base maxVal n1 underscores s'
        | None => Err Strconv.ErrSyntax
        end
  end.
(** [underscoreOK]: what was seen last is a digit or a prefix, an underscore,
    or something else. *)
Inductive saw := SawStart | SawDigit | SawUnderscore | SawOther.
Fixpoint underscore_loop (hex : bool) (last : saw) (s : string) : bool :=
  match s with
  | "" => match last with SawUnderscore => false | _ => true end
  | String c s' =>
      if between 48 57 c || hex && between 97 102 (lower c) then underscore_loop hex SawDigit s'
      else if Ascii.eqb c underscore then match last with SawDigit => underscore_loop hex SawUnderscore s' | _ => false end
      else match last with SawUnderscore => false | _ => underscore_loop hex SawOther s' end
  end.
Definition underscoreOK (s : string) : bool :=
  let s := match s with String c s' => if Ascii.eqb c "-" || Ascii.eqb c "+" then s' else s | "" => s end in
  match s with
  | String z (String x rest) =>
      if Ascii.eqb z "0" && (Ascii.eqb (lower x) "b" || Ascii.eqb (lower x) "o" || Ascii.eqb (lower x) "x")
      then underscore_loop (Ascii.eqb (lower x) "x") SawDigit rest
      else underscore_loop false SawStart s
  | _ => underscore_loop false SawStart s
  end.
(** [strconv.ParseUint(s, 0, 64)]. The check against [cutoff] before the
    product is implied by the one after it when the product is exact. *)
Definition ParseUint0 (s : string) : result Strconv.NumError Z :=
  match s with
  | "" => Err Strconv.ErrSyntax
  | _ =>
      let '(base, rest) := base_prefix s in
      match digits_loop base (2 ^ 64 - 1) 0 false rest with
      | Ok (n, underscores) => if underscores && negb (underscoreOK s) then Err Strconv.ErrSyntax else Ok n
      | Err e => Err e
      end
  end.
(** [strconv.ParseInt(s, 0, 64)] *)
Definition ParseInt0 (s : string) : result Strconv.NumError Z :=
  let '(neg, mag) := match s with
                     | String c s' => if Ascii.eqb c "+" then (false, s') else if Ascii.eqb c "-" then (true, s') else (false, s)
                     | "" => (false, s)
                     end in
  match ParseUint0 mag with
  | Err e => Err e
  | Ok un =>
      let cutoff := (2 ^ 63)%Z in
      if negb neg && (cutoff <=? un)%Z then Err Strconv.ErrRange
      else if neg && (cutoff <? un)%Z then Err Strconv.ErrRange
      else Ok (if neg then (- un)%Z else un)
  end.
Definition ParseBool (s : string) : result Strconv.NumError bool :=
  if bool_decide (s ∈ ["1"; "t"; "T"; "TRUE"; "true"; "True"]) then Ok true
  else if bool_decide (s ∈ ["0"; "f"; "F"; "FALSE"; "false"; "False"]) then Ok false
  else Err Strconv.ErrSyntax.

(** ** A flag set *)

Inductive flag_value := VString (s : string) | VInt (n : Z) | VBool (b : bool) | VDuration (d : Z).
#[export] Instance flag_value_eq_dec : EqDecision flag_value.
Proof. solve_decision. Defined.
Definition is_bool (v : flag_value) : bool := match v with VBool _ => true | _ => false end.

(** [formal] with the values of the flags, and the names of [actual]. *)
Record FlagSet := MkFlagSet { formal : gmap string flag_value; actual : gset string }.
Inductive parse_error := ErrHelp | Failed (e : error).

(** An argument: none of the flags, the end of them, a mistake, or a flag with
    the value after its equals sign. *)
Inductive argument := Positional | Terminator | BadSyntax | Flag (name : string) (value : option string).
Definition read_argument (s : string) : argument :=
  match s with
  | String c1 ((String c2 rest2) as rest1) =>
      if negb (Ascii.eqb c1 "-") then Positional
      else if Ascii.eqb c2 "-" && String.eqb rest2 "" then Terminator
      else
        let name := if Ascii.eqb c2 "-" then rest2 else rest1 in
        if Strings.HasPrefix name "-" || Strings.HasPrefix name "=" then BadSyntax
        else match Strings.Cut name "=" with
             | Some (name, value) => Flag name (Some value)
             | None => Flag name None
             end
  | _ => Positional
  end.

Section flags.
Context (ParseDuration : string → result error Z).

(** [Value.Set]: [errParse] or [errRange]. *)
Definition num_error (e : Strconv.NumError) : error :=
  match e with Strconv.ErrSyntax => errorf "parse error" [] | Strconv.ErrRange => errorf "value out of range" [] end.
Definition Value_Set (old : flag_value) (raw : string) : result error flag_value :=
  match old with
  | VString _ => Ok (VString raw)
  | VInt _ => match ParseInt0 raw with Ok n => Ok (VInt n) | Err e => Err (num_error e) end
  | VBool _ => match ParseBool raw with Ok b => Ok (VBool b) | Err _ => Err (errorf "parse error" []) end
  | VDuration _ => match ParseDuration raw with Ok d => Ok (VDuration d) | Err _ => Err (errorf "parse error" []) end
  end.
Definition record (name : string) (v : flag_value) (fs : FlagSet) : FlagSet := MkFlagSet (<[name := v]> (formal fs)) ({[name]} ∪ actual fs).
Definition set_flag (fs : FlagSet) (old : flag_value) (name raw format : string) : result parse_error FlagSet :=
  match Value_Set old raw with
  | Ok v => Ok (record name v fs)
  | Err e => Err (Failed (Errorf format [raw; name] (Some e)))
  end.

(** [FlagSet.Parse]: the flags, and the arguments that are left. *)
Fixpoint Parse (args : list string) (fs : FlagSet) : result parse_error (FlagSet * list string) :=
  match args with
  | [] => Ok (fs, [])
  | s :: rest =>
      match read_argument s with
      | Positional => Ok (fs, args)
      | Terminator => Ok (fs, rest)
      | BadSyntax => Err (Failed (errorf "bad flag syntax: %s" [s]))
      | Flag name value =>
          match formal fs !! name with
          | None =>
              if String.eqb name "help" || String.eqb name "h" then Err ErrHelp
              else Err (Failed (errorf "flag provided but not defined: -%s" [name]))
          | Some old =>
              if is_bool old then
                fs ← set_flag fs old name (default "true" value) "invalid boolean value %q for -%s: %v";
                Parse rest fs
              else
                match value with
                | Some raw => fs ← set_flag fs old name raw "invalid value %q for flag -%s: %v"; Parse rest fs
                | None =>
                    match rest with
                    | raw :: rest => fs ← set_flag fs old name raw "invalid value %q for flag -%s: %v"; Parse rest fs
                    | [] => Err (Failed (errorf "flag needs an argument: -%s" [name]))
                    end
                end
          end
      end
  end.

(** ** What parsing gives *)

(** The flags of a command line, given which of them are boolean. *)
Fixpoint tokens (bools : gset string) (args : list string) : list (string * string) :=
  match args with
  | [] => []
  | s :: rest =>
      match read_argument s with
      | Flag name value =>
          if bool_decide (name ∈ bools) then (name, default "true" value) :: tokens bools rest
          else match value, rest with
               | Some raw, _ => (name, raw) :: tokens bools rest
               | None, raw :: rest => (name, raw) :: tokens bools rest
               | None, [] => []
               end
      | _ => []
      end
  end.
(** The value given last for a flag. *)
Definition given (name : string) (l : list (string * string)) : option string := snd <$> last (filter (λ nv, nv.1 = name) l).

Lemma given_cons name n v l : given name ((n, v) :: l) = match given name l with Some w => Some w | None => if decide (n = name) then Some v else None end.
Proof.
  unfold given. destruct (decide (n = name)) as [E|E].
  - rewrite filter_cons_True by done. rewrite last_cons. by destruct (last _).
  - rewrite filter_cons_False by done. by destruct (last _).
Qed.
Lemma Value_Set_kind old raw v : Value_Set old raw = Ok v → ∀ raw', Value_Set v raw' = Value_Set old raw'.
Proof.
  destruct old; cbn; intros H raw'; [by injection H as <-|destruct (ParseInt0 raw)|destruct (ParseBool raw)|destruct (ParseDuration raw)];
    by try (injection H as <-).
Qed.
Lemma Value_Set_bool old raw v : Value_Set old raw = Ok v → is_bool v = is_bool old.
Proof.
  destruct old; cbn; intros H; [by injection H as <-|destruct (ParseInt0 raw)|destruct (ParseBool raw)|destruct (ParseDuration raw)];
    by try (injection H as <-).
Qed.

Definition bools_of (m : gmap string flag_value) (bools : gset string) : Prop := ∀ name v, m !! name = Some v → is_bool v = bool_decide (name ∈ bools).
Lemma bools_record bools fs old name raw v : bools_of (formal fs) bools → formal fs !! name = Some old → Value_Set old raw = Ok v →
  bools_of (formal (record name v fs)) bools.
Proof.
  intros Hb Ho Hv n w. cbn. destruct (decide (name = n)) as [<-|E].
  - rewrite lookup_insert_eq. intros [= <-]. rewrite (Value_Set_bool _ _ _ Hv). by apply Hb.
  - rewrite lookup_insert_ne by done. apply Hb.
Qed.
(** Setting the flags one after another. *)
Fixpoint set_all (l : list (string * string)) (fs : FlagSet) : option FlagSet :=
  match l with
  | [] => Some fs
  | (name, raw) :: l =>
      match formal fs !! name with
      | Some old => match Value_Set old raw with Ok v => set_all l (record name v fs) | Err _ => None end
      | None => None
      end
  end.
Lemma set_flag_ok fs old name raw format fs' : set_flag fs old name raw format = Ok fs' ↔ ∃ v, Value_Set old raw = Ok v ∧ fs' = record name v fs.
Proof. unfold set_flag. destruct (Value_Set old raw) as [v|e]; [|by split; [|intros (?&?&_)]]. split; [intros [= <-]; by exists v|by intros (?&[= <-]&->)]. Qed.
Lemma Parse_sets bools args fs fs' pos : bools_of (formal fs) bools → Parse args fs = Ok (fs', pos) → set_all (tokens bools args) fs = Some fs'.
Proof.
  assert (∀ n args fs, length args <= n → bools_of (formal fs) bools → Parse args fs = Ok (fs', pos) → set_all (tokens bools args) fs = Some fs') as H; [|by eapply H].
  clear args fs. intros n. induction n as [|n IH]; intros [|s rest] fs Hn Hb; cbn [Parse tokens length] in *; [by intros [= -> _]|lia|by intros [= -> _]|].
  destruct (read_argument s) as [| | |name value]; [by intros [= -> _]|by intros [= -> _]|done|].
  destruct (formal fs !! name) as [old|] eqn:Eo; [|by destruct (_ || _)].
  rewrite <- (Hb _ _ Eo). destruct (is_bool old).
  - intros (fs1&(v&Hv&->)%set_flag_ok&H)%result_bind_ok. cbn [set_all]. rewrite Eo, Hv. apply IH; [lia|by eapply bools_record|done].
  - destruct value as [raw|]; [|destruct rest as [|raw rest]; [done|]]; intros (fs1&(v&Hv&->)%set_flag_ok&H)%result_bind_ok; cbn [set_all]; rewrite Eo, Hv;
      (apply IH; [cbn in *; lia|by eapply bools_record|done]).
Qed.
Lemma set_all_spec l fs fs' : set_all l fs = Some fs' → ∀ name,
  (name ∈ actual fs' ↔ name ∈ actual fs ∨ is_Some (given name l)) ∧
  match given name l with
  | Some raw => ∃ old v, formal fs !! name = Some old ∧ Value_Set old raw = Ok v ∧ formal fs' !! name = Some v
  | None => formal fs' !! name = formal fs !! name
  end.
Proof.
  revert fs; induction l as [|[n raw] l IH]; intros fs H name; cbn [set_all] in H.
  { injection H as ->. cbn. split; [|done]. split; [by left|]. by intros [?|[? [=]]]. }
  destruct (formal fs !! n) as [old|] eqn:Eo; [|done]. destruct (Value_Set old raw) as [v|] eqn:Ev; [|done].
  specialize (IH _ H name) as [IHa IHv]. rewrite given_cons. cbn in IHa, IHv. split.
  - rewrite IHa, elem_of_union, elem_of_singleton. destruct (given name l) as [w|]; [split; [by right; eexists|by right; eexists]|].
    destruct (decide (n = name)) as [->|E]; [split; [by right; eexists|intros _; left; by left]|]. rewrite <- !not_eq_None_Some. naive_solver.
  - destruct (given name l) as [w|] eqn:Eg.
    + destruct (decide (n = name)) as [<-|E].
      * rewrite lookup_insert_eq in IHv. destruct IHv as (o&u&[= <-]&Hu&Hf). exists old, u. by rewrite <- (Value_Set_kind _ _ _ Ev w).
      * by rewrite lookup_insert_ne in IHv.
    + destruct (decide (n = name)) as [<-|E].
      * rewrite lookup_insert_eq in IHv. by exists old, v.
      * by rewrite lookup_insert_ne in IHv.
Qed.
End flags.
