(* ===== verification/CpeConfig.v ===== *)
(** * Start-up configuration ([internal/cpeconfig/cpeconfig.go])

    Also the log options ([internal/cpelog/cpelog.go]) and the seeds of the
    random streams ([internal/cperng/cperng.go]). Opening a file, decoding YAML
    over a [Config] and [time.ParseDuration] are parameters, and so is the order
    in which a range visits the environment. *)
From Stdlib Require Import ZArith Lia Ascii String.
From S2P Require Import Prelude GoLib GoText GoAuth CpeErr GoFlag.

(** ** The configuration *)

Record Config := MkConfig {
  ConfigPath : string; ACSURL : string; ACSUsername : string; ACSPassword : string; ACSTimeout : Z; TLSSkipVerify : bool; CACertFile : string;
  LogLevel : string; LogFormat : string; Concurrency : Z; Seed : Z; ProfilePath : string; CRBindAddr : string; CRPath : string;
  CRPublishPath : string; CRAdvertiseHost : string; FleetOffset : option Z; BootRamp : option Z;
  USPBroker : string; USPControllerID : string; USPMQTTSecret : string; USPMQTTUsername : string; USPMQTTPassword : string
}.
Definition defaults : Config :=
  MkConfig "" "" "" "" (30 * 10 ^ 9) false "" "info" "text" 1 0 "" "" "/cr" "" "" None None "" "" "" "" "".

(** The settings a source can name, in the order of the struct. *)
Inductive setting :=
| SConfig | SAcsURL | SAcsUsername | SAcsPassword | SAcsTimeout | STlsSkipVerify | SCaCertFile | SLogLevel | SLogFormat | SConcurrency | SSeed
| SProfile | SCrBindAddr | SCrPath | SCrPublishPath | SCrAdvertiseHost | SFleetOffset | SBootRamp
| SUspBroker | SUspControllerID | SUspMqttSecret | SUspMqttUsername | SUspMqttPassword.
#[export] Instance setting_eq_dec : EqDecision setting.
Proof. solve_decision. Defined.

(** The field of a setting; a nil pointer is [None]. *)
Definition get (s : setting) (c : Config) : option flag_value :=
  match s with
  | SConfig => Some (VString (ConfigPath c)) | SAcsURL => Some (VString (ACSURL c)) | SAcsUsername => Some (VString (ACSUsername c))
  | SAcsPassword => Some (VString (ACSPassword c)) | SAcsTimeout => Some (VDuration (ACSTimeout c)) | STlsSkipVerify => Some (VBool (TLSSkipVerify c))
  | SCaCertFile => Some (VString (CACertFile c)) | SLogLevel => Some (VString (LogLevel c)) | SLogFormat => Some (VString (LogFormat c))
  | SConcurrency => Some (VInt (Concurrency c)) | SSeed => Some (VInt (Seed c)) | SProfile => Some (VString (ProfilePath c))
  | SCrBindAddr => Some (VString (CRBindAddr c)) | SCrPath => Some (VString (CRPath c)) | SCrPublishPath => Some (VString (CRPublishPath c))
  | SCrAdvertiseHost => Some (VString (CRAdvertiseHost c)) | SFleetOffset => VInt <$> FleetOffset c | SBootRamp => VDuration <$> BootRamp c
  | SUspBroker => Some (VString (USPBroker c)) | SUspControllerID => Some (VString (USPControllerID c)) | SUspMqttSecret => Some (VString (USPMQTTSecret c))
  | SUspMqttUsername => Some (VString (USPMQTTUsername c)) | SUspMqttPassword => Some (VString (USPMQTTPassword c))
  end.
Definition text (v : flag_value) : string := match v with VString s => s | _ => "" end.
Definition number (v : flag_value) : Z := match v with VInt n => n | _ => 0 end.
Definition duration (v : flag_value) : Z := match v with VDuration d => d | _ => 0 end.
Definition truth (v : flag_value) : bool := match v with VBool b => b | _ => false end.
Definition put (s : setting) (v : flag_value) (c : Config) : Config :=
  let pick {A} (x : setting) (new old : A) := if decide (s = x) then new else old in
  MkConfig (pick SConfig (text v) (ConfigPath c)) (pick SAcsURL (text v) (ACSURL c)) (pick SAcsUsername (text v) (ACSUsername c))
    (pick SAcsPassword (text v) (ACSPassword c)) (pick SAcsTimeout (duration v) (ACSTimeout c)) (pick STlsSkipVerify (truth v) (TLSSkipVerify c))
    (pick SCaCertFile (text v) (CACertFile c)) (pick SLogLevel (text v) (LogLevel c)) (pick SLogFormat (text v) (LogFormat c))
    (pick SConcurrency (number v) (Concurrency c)) (pick SSeed (number v) (Seed c)) (pick SProfile (text v) (ProfilePath c))
    (pick SCrBindAddr (text v) (CRBindAddr c)) (pick SCrPath (text v) (CRPath c)) (pick SCrPublishPath (text v) (CRPublishPath c))
    (pick SCrAdvertiseHost (text v) (CRAdvertiseHost c)) (pick SFleetOffset (Some (number v)) (FleetOffset c))
    (pick SBootRamp (Some (duration v)) (BootRamp c)) (pick SUspBroker (text v) (USPBroker c)) (pick SUspControllerID (text v) (USPControllerID c))
    (pick SUspMqttSecret (text v) (USPMQTTSecret c)) (pick SUspMqttUsername (text v) (USPMQTTUsername c)) (pick SUspMqttPassword (text v) (USPMQTTPassword c)).

(** ** The environment *)

Definition envPrefix : string := "CPE_SIM_".
(** The settings [applyEnv] reads, in its order, and whether an empty value counts. *)
Definition env_settings : list (string * setting * bool) :=
  [("ACS_URL", SAcsURL, false); ("ACS_USERNAME", SAcsUsername, false); ("ACS_PASSWORD", SAcsPassword, false); ("ACS_TIMEOUT", SAcsTimeout, false);
   ("TLS_SKIP_VERIFY", STlsSkipVerify, false); ("CA_CERT_FILE", SCaCertFile, false); ("LOG_LEVEL", SLogLevel, false); ("LOG_FORMAT", SLogFormat, false);
   ("PROFILE", SProfile, false); ("CONCURRENCY", SConcurrency, false); ("SEED", SSeed, false); ("CR_BIND_ADDR", SCrBindAddr, false);
   ("CR_PATH", SCrPath, false); ("CR_PUBLISH_PATH", SCrPublishPath, false); ("CR_ADVERTISE_HOST", SCrAdvertiseHost, false);
   ("FLEET_OFFSET", SFleetOffset, false); ("BOOT_RAMP", SBootRamp, false); ("USP_BROKER", SUspBroker, true); ("USP_CONTROLLER_ID", SUspControllerID, true);
   ("USP_MQTT_SECRET", SUspMqttSecret, true); ("USP_MQTT_USERNAME", SUspMqttUsername, true); ("USP_MQTT_PASSWORD", SUspMqttPassword, true)].
Definition knownEnvKeys : list string :=
  (λ k, envPrefix +:+ k) <$>
  ["CONFIG"; "ACS_URL"; "ACS_USERNAME"; "ACS_PASSWORD"; "ACS_TIMEOUT"; "USP_BROKER"; "USP_CONTROLLER_ID"; "USP_MQTT_SECRET"; "USP_MQTT_USERNAME";
   "USP_MQTT_PASSWORD"; "TLS_SKIP_VERIFY"; "CA_CERT_FILE"; "LOG_LEVEL"; "LOG_FORMAT"; "CONCURRENCY"; "SEED"; "PROFILE"; "CR_BIND_ADDR"; "CR_PATH";
   "CR_PUBLISH_PATH"; "CR_ADVERTISE_HOST"; "FLEET_OFFSET"; "BOOT_RAMP"].

(** [EnvMap]: an entry needs a name before its first equals sign. *)
Definition EnvMap (env : list string) : gmap string string :=
  foldl (λ m kv, match Strings.Cut kv "=" with Some (String c k, v) => <[String c k := v]> m | _ => m end) ∅ env.

(** What the text of a setting of the environment means. *)
Inductive reader := ReadString | ReadAtoi | ReadInt64 | ReadBool | ReadDuration.
Definition env_reader (s : setting) : reader :=
  match s with
  | SAcsTimeout | SBootRamp => ReadDuration
  | STlsSkipVerify => ReadBool
  | SConcurrency | SFleetOffset => ReadAtoi
  | SSeed => ReadInt64
  | _ => ReadString
  end.
Definition num_text (e : Strconv.NumError) : string := match e with Strconv.ErrSyntax => "invalid syntax" | Strconv.ErrRange => "value out of range" end.
Definition strconv_error {A} (fn raw : string) (r : result Strconv.NumError A) : result error A :=
  match r with Ok a => Ok a | Err e => Err (errorf "strconv.%s: parsing %q: %s" [fn; raw; num_text e]) end.

Section load.
Context (ParseDuration : string → result error Z) (Duration_String : Z → string).
(** [os.Open] with the read, and [Decode] with [KnownFields]: the configuration
    as the document leaves it, [io.EOF] leaving it alone. *)
Context (Open : string → result error string) (Decode : string → Config → result error Config).

Definition read_env (r : reader) (raw : string) : result error flag_value :=
  match r with
  | ReadString => Ok (VString raw)
  | ReadAtoi => n ← strconv_error "Atoi" raw (Strconv.Atoi raw); Ok (VInt n)
  | ReadInt64 => n ← strconv_error "ParseInt" raw (Strconv.ParseInt raw 64); Ok (VInt n)
  | ReadBool => b ← strconv_error "ParseBool" raw (ParseBool raw); Ok (VBool b)
  | ReadDuration => d ← ParseDuration raw; Ok (VDuration d)
  end.
(** The text a source gives a setting, if it gives one. *)
Definition env_value (env : gmap string string) (key : string) (empty_counts : bool) : option string :=
  match env !! (envPrefix +:+ key) with
  | Some v => if empty_counts || negb (String.eqb v "") then Some v else None
  | None => None
  end.
Fixpoint apply_settings (env : gmap string string) (l : list (string * setting * bool)) (cfg : Config) : result error Config :=
  match l with
  | [] => Ok cfg
  | (key, s, empty_counts) :: l =>
      match env_value env key empty_counts with
      | None => apply_settings env l cfg
      | Some raw =>
          match read_env (env_reader s) raw with
          | Err e => Err (Errorf ("env %s" +:+ key +:+ ": %w") [envPrefix] (Some e))
          | Ok v => apply_settings env l (put s v cfg)
          end
      end
  end.
Definition unknown_key (order : list string) : option string :=
  head (filter (λ k, Strings.HasPrefix k envPrefix = true ∧ k ∉ knownEnvKeys) order).
Definition applyEnv (order : list string) (env : gmap string string) (cfg : Config) : result error Config :=
  match unknown_key order with
  | Some k => Err (errorf "unknown env key %q (typo? prefix CPE_SIM_ is reserved for cpe-sim)" [k])
  | None => apply_settings env env_settings cfg
  end.

(** ** The command line *)

Definition flag_name (s : setting) : string :=
  match s with
  | SConfig => "config" | SAcsURL => "acs-url" | SAcsUsername => "acs-username" | SAcsPassword => "acs-password" | SAcsTimeout => "acs-timeout"
  | STlsSkipVerify => "tls-skip-verify" | SCaCertFile => "ca-cert-file" | SLogLevel => "log-level" | SLogFormat => "log-format"
  | SConcurrency => "concurrency" | SSeed => "seed" | SProfile => "profile" | SCrBindAddr => "cr-bind-addr" | SCrPath => "cr-path"
  | SCrPublishPath => "cr-publish-path" | SCrAdvertiseHost => "cr-advertise-host" | SFleetOffset => "fleet-offset" | SBootRamp => "boot-ramp"
  | SUspBroker => "usp-broker" | SUspControllerID => "usp-controller-id" | SUspMqttSecret => "usp-mqtt-secret"
  | SUspMqttUsername => "usp-mqtt-username" | SUspMqttPassword => "usp-mqtt-password"
  end.
Definition settings : list setting :=
  [SConfig; SAcsURL; SAcsUsername; SAcsPassword; SAcsTimeout; STlsSkipVerify; SCaCertFile; SLogLevel; SLogFormat; SConcurrency; SSeed; SProfile;
   SCrBindAddr; SCrPath; SCrPublishPath; SCrAdvertiseHost; SFleetOffset; SBootRamp; SUspBroker; SUspControllerID; SUspMqttSecret; SUspMqttUsername;
   SUspMqttPassword].
(** [derefInt], [derefDuration]: a flag whose field is a nil pointer starts at 0. *)
Definition deref (s : setting) (v : option flag_value) : flag_value :=
  default (match s with SBootRamp => VDuration 0 | _ => VInt 0 end) v.
Definition is_pointer (s : setting) : bool := match s with SFleetOffset | SBootRamp => true | _ => false end.
Definition flag_set (cfg : Config) : FlagSet :=
  MkFlagSet (<["version" := VBool false]> (list_to_map ((λ s, (flag_name s, deref s (get s cfg))) <$> settings))) ∅.
Definition copy_flag (fs : FlagSet) (cfg : Config) (s : setting) : Config :=
  match formal fs !! flag_name s with
  | Some v => if is_pointer s && negb (bool_decide (flag_name s ∈ actual fs)) then cfg else put s v cfg
  | None => cfg
  end.
Definition applyFlags (args : list string) (cfg : Config) : result parse_error Config :=
  '(fs, rest) ← Parse ParseDuration args (flag_set cfg);
  match rest with
  | arg :: _ => Err (Failed (errorf "unexpected positional argument: %q" [arg]))
  | [] => Ok (foldl (copy_flag fs) cfg settings)
  end.

(** [scanFlag]: the first argument that names the flag. *)
Fixpoint scanFlag (args : list string) (name : string) : option string :=
  let long := "--" +:+ name in
  let short := "-" +:+ name in
  match args with
  | [] => None
  | a :: rest =>
      if String.eqb a long || String.eqb a short then
        match rest with v :: _ => Some v | [] => scanFlag rest name end
      else if Strings.HasPrefix a (long +:+ "=") then Some (Strings.TrimPrefix a (long +:+ "="))
      else if Strings.HasPrefix a (short +:+ "=") then Some (Strings.TrimPrefix a (short +:+ "="))
      else scanFlag rest name
  end.

(** ** Validation *)

(** [strings.ToLower] as far as it matters to a comparison with an ASCII text:
    outside ASCII only U+0130 and U+212A have a lower case inside it. *)
Fixpoint lower_text (s : string) : string :=
  match s with
  | "" => ""
  | String c s1 =>
      match s1 with
      | String d s2 =>
          if (byte_of c =? 196)%N && (byte_of d =? 176)%N then String "i" (lower_text s2)
          else
            match s2 with
            | String e s3 =>
                if (byte_of c =? 226)%N && (byte_of d =? 132)%N && (byte_of e =? 170)%N then String "k" (lower_text s3)
                else String (if between 65 90 c then lower c else c) (lower_text s1)
            | "" => String (if between 65 90 c then lower c else c) (lower_text s1)
            end
      | "" => String (if between 65 90 c then lower c else c) (lower_text s1)
      end
  end.
Definition text_or_json : string := quoted "text" +:+ " or " +:+ quoted "json" +:+ ")".
Definition validate (cfg : Config) : result error unit :=
  if negb (bool_decide (lower_text (LogLevel cfg) ∈ ["debug"; "info"; "warn"; "warning"; "error"])) then
    Err (errorf "invalid log-level %q (want one of debug|info|warn|error)" [LogLevel cfg])
  else if negb (bool_decide (lower_text (LogFormat cfg) ∈ ["text"; "json"])) then Err (errorf ("invalid log-format %q (want " +:+ text_or_json) [LogFormat cfg])
  else if (Concurrency cfg <? 1)%Z then Err (errorf "concurrency must be >= 1, got %d" [Strconv.Itoa (Concurrency cfg)])
  else if (ACSTimeout cfg <=? 0)%Z then Err (errorf "acs-timeout must be > 0, got %s" [Duration_String (ACSTimeout cfg)])
  else if match FleetOffset cfg with Some n => (n <? 0)%Z | None => false end then
    Err (errorf "fleet-offset must be >= 0, got %d" [Strconv.Itoa (default 0%Z (FleetOffset cfg))])
  else if match BootRamp cfg with Some d => (d <? 0)%Z | None => false end then
    Err (errorf "boot-ramp must be >= 0, got %s" [Duration_String (default 0%Z (BootRamp cfg))])
  else if negb (String.eqb (CRAdvertiseHost cfg) "") && Strings.ContainsAny (CRAdvertiseHost cfg) "/ " then
    Err (errorf "cr-advertise-host must be a host or host:port, got %q" [CRAdvertiseHost cfg])
  else if String.eqb (CRBindAddr cfg) "" then Ok tt
  else if negb (Strings.HasPrefix (CRPath cfg) "/") then Err (errorf "cr-path must start with %q, got %q" ["/"; CRPath cfg])
  else if String.eqb (CRPublishPath cfg) "" then
    Err (errorf "cr-publish-path is required when cr-bind-addr is set (no default; supply the parameter-tree path the listener URL should be written to, e.g. Device.ManagementServer.ConnectionRequestURL for TR-181 or InternetGatewayDevice.ManagementServer.ConnectionRequestURL for TR-098)" [])
  else Ok tt.

(** ** Load *)

Definition loadFile (path : string) (cfg : Config) : result error Config :=
  match Open path with
  | Err e => Err (Errorf "open config: %w" [] (Some e))
  | Ok content =>
      match Decode content cfg with
      | Err e => Err (Errorf "decode config %s: %w" [path] (Some e))
      | Ok cfg => Ok cfg
      end
  end.
Definition config_path (args : list string) (env : gmap string string) : string :=
  match scanFlag args "config" with
  | Some p => p
  | None => default "" (env_value env "CONFIG" false)
  end.
(** The configuration after the file. *)
Definition from_file (args : list string) (env : gmap string string) : result error Config :=
  let cfg := put SConfig (VString (config_path args env)) defaults in
  if String.eqb (ConfigPath cfg) "" then Ok cfg else loadFile (ConfigPath cfg) cfg.
Definition wrapped {A} (r : result error A) : result parse_error A :=
  match r with Ok a => Ok a | Err e => Err (Failed (Wrap "cpeconfig.Load" KindInvalidArgument (Some e))) end.
Definition Load (args : list string) (env : gmap string string) (order : list string) : result parse_error Config :=
  cfg ← wrapped (from_file args env);
  cfg ← wrapped (applyEnv order env cfg);
  match applyFlags args cfg with
  | Err ErrHelp => Err ErrHelp
  | Err (Failed e) => wrapped (Err e)
  | Ok cfg => _ ← wrapped (validate cfg); Ok cfg
  end.
End load.

(** ** Log options *)

Inductive Level := LevelDebug | LevelInfo | LevelWarn | LevelError.
Inductive handler := TextHandler (level : Level) | JSONHandler (level : Level).
Definition parseLevel (s : string) : result error Level :=
  let s' := lower_text s in
  if bool_decide (s' ∈ [""; "info"]) then Ok LevelInfo
  else if String.eqb s' "debug" then Ok LevelDebug
  else if bool_decide (s' ∈ ["warn"; "warning"]) then Ok LevelWarn
  else if String.eqb s' "error" then Ok LevelError
  else Err (errorf "cpelog: invalid level %q (want one of debug|info|warn|error)" [s]).
Definition New (level format : string) : result error handler :=
  level ← parseLevel level;
  let format' := lower_text format in
  if bool_decide (format' ∈ [""; "text"]) then Ok (TextHandler level)
  else if String.eqb format' "json" then Ok (JSONHandler level)
  else Err (errorf ("cpelog: invalid format %q (want " +:+ text_or_json) [format]).

(** ** Seeds *)

(** [hash/fnv]'s 64-bit FNV-1a. *)
Definition fnv_offset : Z := 14695981039346656037.
Definition fnv_prime : Z := 1099511628211.
Definition fnv_byte (h : Z) (c : ascii) : Z := u64 (Z.lxor h (Z.of_N (byte_of c)) * fnv_prime).
Fixpoint fnv_write (h : Z) (s : string) : Z := match s with "" => h | String c s => fnv_write (fnv_byte h c) s end.
(** [binary.BigEndian.PutUint64] *)
Fixpoint big_endian (n : nat) (x : Z) : string :=
  match n with O => "" | S n => String (ascii_of_N (Z.to_N (Z.shiftr x (8 * Z.of_nat n) mod 256))) (big_endian n x) end.
Record Source := MkSource { rootSeed : Z }.
Definition New_source (root_seed now : Z) : Source := MkSource (if (root_seed =? 0)%Z then now else root_seed).
(** The seed of [rand.NewSource]. *)
Definition ForCPE (s : Source) (cpeID : string) : Z := i64 (fnv_write (fnv_write fnv_offset (big_endian 8 (u64 (rootSeed s)))) cpeID).
