(* ===== verification/CpeConfigProps.v ===== *)
(** * What a configuration promises

    Each setting comes from the strongest source that gives it; a configuration
    that loads is valid, and nothing in the sources is overlooked; devices whose
    names differ in one place have random streams of their own. *)
From Stdlib Require Import ZArith Lia Ascii String.
From S2P Require Import Prelude GoLib GoText GoAuth CpeErr GoFlag CpeConfig.

(** ** Fields *)

(** A value of the kind a setting has. *)
Definition suits (s : setting) (v : flag_value) : Prop :=
  match deref s (get s defaults), v with
  | VString _, VString _ | VInt _, VInt _ | VBool _, VBool _ | VDuration _, VDuration _ => True
  | _, _ => False
  end.
Lemma get_put s v c : suits s v → get s (put s v c) = Some v.
Proof. destruct s, v; cbn; done. Qed.
Lemma get_put_ne s s' v c : s ≠ s' → get s (put s' v c) = get s c.
Proof. destruct s; intros Hne; cbn; by (rewrite decide_False by congruence). Qed.
Lemma get_suits s c v : get s c = Some v → suits s v.
Proof. destruct s; cbn; try (by intros [= <-]); [destruct (FleetOffset c)|destruct (BootRamp c)]; by intros [= <-]. Qed.
Lemma suits_kind PD s v w raw : suits s v → suits s w → Value_Set PD v raw = Value_Set PD w raw.
Proof. unfold suits. destruct (deref s (get s defaults)), v, w; done. Qed.
Lemma suits_deref s c : suits s (deref s (get s c)).
Proof. destruct s; cbn; try done; [by destruct (FleetOffset c)|by destruct (BootRamp c)]. Qed.
Lemma Value_Set_suits PD s v w raw : suits s v → Value_Set PD v raw = Ok w → suits s w.
Proof.
  unfold suits. destruct (deref s (get s defaults)), v; cbn; try done; intros _;
    [by intros [= <-]|destruct (ParseInt0 raw)|destruct (ParseBool raw)|destruct (PD raw)]; try done; by intros [= <-].
Qed.
Lemma settings_all s : s ∈ settings.
Proof. by destruct s; apply (bool_decide_unpack _). Qed.
Lemma settings_NoDup : NoDup settings.
Proof. by apply (bool_decide_unpack _). Qed.
#[export] Instance flag_name_inj : Inj (=) (=) flag_name.
Proof. intros s s'. destruct s; destruct s'; cbn; intros E; first [reflexivity|discriminate E]. Qed.

(** ** The environment *)

Definition env_entry (s : setting) : option (string * setting * bool) := head (filter (λ x : string * setting * bool, x.1.2 = s) env_settings).
(** The text the environment gives a setting. *)
Definition env_text (env : gmap string string) (s : setting) : option string := '(key, _, empty_counts) ← env_entry s; env_value env key empty_counts.

(** The table of the reference manual (docs/reference/cli.md): the flag and the
    variable of each setting, the kind of its text, and whether an empty
    variable counts. *)
Inductive kind := KText | KNumber | KSwitch | KTime.
Record documented := MkDocumented { dFlag : string; dVariable : string; dKind : kind; dEmpty : bool }.
Definition cli (s : setting) : documented :=
  match s with
  | SConfig => MkDocumented "config" "CPE_SIM_CONFIG" KText false
  | SAcsURL => MkDocumented "acs-url" "CPE_SIM_ACS_URL" KText false
  | SAcsUsername => MkDocumented "acs-username" "CPE_SIM_ACS_USERNAME" KText false
  | SAcsPassword => MkDocumented "acs-password" "CPE_SIM_ACS_PASSWORD" KText false
  | SAcsTimeout => MkDocumented "acs-timeout" "CPE_SIM_ACS_TIMEOUT" KTime false
  | STlsSkipVerify => MkDocumented "tls-skip-verify" "CPE_SIM_TLS_SKIP_VERIFY" KSwitch false
  | SCaCertFile => MkDocumented "ca-cert-file" "CPE_SIM_CA_CERT_FILE" KText false
  | SLogLevel => MkDocumented "log-level" "CPE_SIM_LOG_LEVEL" KText false
  | SLogFormat => MkDocumented "log-format" "CPE_SIM_LOG_FORMAT" KText false
  | SConcurrency => MkDocumented "concurrency" "CPE_SIM_CONCURRENCY" KNumber false
  | SSeed => MkDocumented "seed" "CPE_SIM_SEED" KNumber false
  | SProfile => MkDocumented "profile" "CPE_SIM_PROFILE" KText false
  | SCrBindAddr => MkDocumented "cr-bind-addr" "CPE_SIM_CR_BIND_ADDR" KText false
  | SCrPath => MkDocumented "cr-path" "CPE_SIM_CR_PATH" KText false
  | SCrPublishPath => MkDocumented "cr-publish-path" "CPE_SIM_CR_PUBLISH_PATH" KText false
  | SCrAdvertiseHost => MkDocumented "cr-advertise-host" "CPE_SIM_CR_ADVERTISE_HOST" KText false
  | SFleetOffset => MkDocumented "fleet-offset" "CPE_SIM_FLEET_OFFSET" KNumber false
  | SBootRamp => MkDocumented "boot-ramp" "CPE_SIM_BOOT_RAMP" KTime false
  | SUspBroker => MkDocumented "usp-broker" "CPE_SIM_USP_BROKER" KText true
  | SUspControllerID => MkDocumented "usp-controller-id" "CPE_SIM_USP_CONTROLLER_ID" KText true
  | SUspMqttSecret => MkDocumented "usp-mqtt-secret" "CPE_SIM_USP_MQTT_SECRET" KText true
  | SUspMqttUsername => MkDocumented "usp-mqtt-username" "CPE_SIM_USP_MQTT_USERNAME" KText true
  | SUspMqttPassword => MkDocumented "usp-mqtt-password" "CPE_SIM_USP_MQTT_PASSWORD" KText true
  end.
(** The text a setting's variable has for it; the path of the file is no such
    setting. *)
Definition variable (env : gmap string string) (s : setting) : option string :=
  if decide (s = SConfig) then None
  else v ← env !! dVariable (cli s); if decide (v = "" ∧ dEmpty (cli s) = false) then None else Some v.

Lemma cli_flag s : dFlag (cli s) = flag_name s.
Proof. by destruct s. Qed.
Lemma cli_variable env s : env_text env s = variable env s.
Proof.
  unfold env_text, variable. destruct (decide (s = SConfig)) as [->|Hs]; [done|].
  assert (∀ key e, env_entry s = Some (key, s, e) → dVariable (cli s) = envPrefix +:+ key → dEmpty (cli s) = e →
    ('(key, _, e) ← env_entry s; env_value env key e) =
    (v ← env !! dVariable (cli s); if decide (v = "" ∧ dEmpty (cli s) = false) then None else Some v)) as H.
  { intros key e -> -> ->. cbn [mbind option_bind]. unfold env_value. destruct (env !! (envPrefix +:+ key)) as [v|]; [|done].
    destruct (String.eqb_spec v "") as [->|Hv], e; cbn [mbind option_bind orb negb];
      case_decide; naive_solver. }
  destruct s; try done; eapply H; reflexivity.
Qed.

Section config.
Context (ParseDuration : string → result error Z) (Duration_String : Z → string).
Context (Open : string → result error string) (Decode : string → Config → result error Config).

Definition as_option {E A} (r : result E A) : option A := match r with Ok a => Some a | Err _ => None end.
Lemma read_env_suits s raw v : s ≠ SConfig → read_env ParseDuration (env_reader s) raw = Ok v → suits s v.
Proof.
  intros _. destruct s; cbn; intros H; try (by injection H as <-);
    first [apply result_bind_ok in H as (x&_&[= <-]); done].
Qed.
Lemma apply_settings_get env l cfg cfg' : NoDup l.*1.*2 → SConfig ∉ l.*1.*2 → apply_settings ParseDuration env l cfg = Ok cfg' → ∀ s,
  get s cfg' = match head (filter (λ x : string * setting * bool, x.1.2 = s) l) ≫= (λ x, env_value env x.1.1 x.2) with
               | Some raw => as_option (read_env ParseDuration (env_reader s) raw)
               | None => get s cfg
               end.
Proof.
  revert cfg; induction l as [|[[key s0] e] l IH]; intros cfg HN HC H s; [by injection H as ->|].
  cbn in HN, HC. apply NoDup_cons in HN as [Hs0 HN]. apply not_elem_of_cons in HC as [HC0 HC]. cbn [apply_settings] in H.
  assert (∀ cfg1, apply_settings ParseDuration env l cfg1 = Ok cfg' → s0 = s → get s cfg' = get s cfg1) as Hskip.
  { intros cfg1 H1 <-. rewrite (IH cfg1 HN HC H1 s0). rewrite (filter_none (λ x : string * setting * bool, x.1.2 = s0)); [done|].
    apply Forall_forall. intros x Hx <-. by apply Hs0, list_elem_of_fmap_2, list_elem_of_fmap_2. }
  destruct (decide (s0 = s)) as [E|E].
  - rewrite filter_cons_True by done. cbn. destruct (env_value env key e) as [raw|]; [|by apply Hskip].
    destruct (read_env _ _ raw) as [v|] eqn:Er; [|done]. rewrite (Hskip _ H E), E in *. rewrite Er. cbn. apply get_put. by eapply read_env_suits.
  - rewrite filter_cons_False by done. destruct (env_value env key e) as [raw|]; [|by apply IH].
    destruct (read_env _ _ raw) as [v|]; [|done]. rewrite (IH _ HN HC H s). by rewrite get_put_ne by congruence.
Qed.
Lemma applyEnv_get order env cfg cfg' : applyEnv ParseDuration order env cfg = Ok cfg' → ∀ s,
  get s cfg' = match env_text env s with Some raw => as_option (read_env ParseDuration (env_reader s) raw) | None => get s cfg end.
Proof.
  unfold applyEnv. destruct (unknown_key order); [done|]. intros H s.
  rewrite (apply_settings_get env env_settings cfg cfg'); [|by apply (bool_decide_unpack _)..|done].
  unfold env_text, env_entry. by destruct (head _) as [[[k s'] e]|].
Qed.
Lemma applyEnv_known order env cfg cfg' : applyEnv ParseDuration order env cfg = Ok cfg' → ∀ k, k ∈ order → Strings.HasPrefix k envPrefix = true → k ∈ knownEnvKeys.
Proof.
  unfold applyEnv, unknown_key. intros H k Hk Hp. destruct (filter _ order) as [|k' l] eqn:E; [|done].
  destruct (decide (k ∈ knownEnvKeys)) as [?|Hn]; [done|]. exfalso. by apply (not_elem_of_nil k); rewrite <- E; apply list_elem_of_filter.
Qed.

(** ** The flags *)

Definition bools : gset string := {["tls-skip-verify"; "version"]}.
Lemma flag_set_formal cfg s : formal (flag_set cfg) !! flag_name s = Some (deref s (get s cfg)).
Proof.
  unfold flag_set. cbn [formal]. rewrite lookup_insert_ne by (by destruct s). apply elem_of_list_to_map_1.
  - rewrite <- list_fmap_compose. change (NoDup (flag_name <$> settings)). apply NoDup_fmap_2; [apply _|apply settings_NoDup].
  - apply list_elem_of_fmap. exists s. split; [done|apply settings_all].
Qed.
Lemma flag_set_names cfg name v : formal (flag_set cfg) !! name = Some v → (name = "version" ∧ v = VBool false) ∨ ∃ s, name = flag_name s.
Proof.
  unfold flag_set. cbn [formal]. intros [[<- <-]|[_ H]]%lookup_insert_Some; [by left|].
  apply elem_of_list_to_map_2, list_elem_of_fmap in H as (s&[= -> _]&_). right. by exists s.
Qed.
Lemma flag_set_bools cfg : bools_of (formal (flag_set cfg)) bools.
Proof.
  intros name v H. destruct (flag_set_names _ _ _ H) as [[-> ->]|[s ->]]; [done|]. rewrite flag_set_formal in H. injection H as <-.
  destruct s; cbn; try done; [by destruct (FleetOffset cfg)|by destruct (BootRamp cfg)].
Qed.
Lemma copies_get fs l cfg s : NoDup l → (∀ s v, formal fs !! flag_name s = Some v → suits s v) →
  get s (foldl (copy_flag fs) cfg l) =
  (if decide (s ∈ l) then match formal fs !! flag_name s with
                          | Some v => if is_pointer s && negb (bool_decide (flag_name s ∈ actual fs)) then get s cfg else Some v
                          | None => get s cfg
                          end else get s cfg).
Proof.
  intros HN Hk. revert cfg; induction l as [|x l IH]; intros cfg; [done|]. apply NoDup_cons in HN as [Hx HN]. cbn [foldl]. rewrite IH by done.
  assert (x ≠ s → get s (copy_flag fs cfg x) = get s cfg) as Hne.
  { intros Hxs. unfold copy_flag. destruct (formal fs !! flag_name x); [|done]. destruct (is_pointer x && negb (bool_decide (flag_name x ∈ actual fs))); [reflexivity|]. apply get_put_ne. congruence. }
  destruct (decide (x = s)) as [->|E].
  - rewrite (decide_False (P := s ∈ l)) by done. rewrite (decide_True (P := s ∈ s :: l)) by left. unfold copy_flag.
    destruct (formal fs !! flag_name s) as [v|] eqn:Ev; [|done]. destruct (_ && _); [done|]. by apply get_put, Hk.
  - rewrite Hne by done. destruct (decide (s ∈ l)) as [Hl|Hl].
    + rewrite (decide_True (P := s ∈ x :: l)) by (by right). done.
    + rewrite (decide_False (P := s ∈ x :: l)); [done|]. by intros [?|?]%elem_of_cons.
Qed.
Lemma Ok_injective {E A} (a b : A) : @Ok E A a = Ok b → a = b.
Proof. by intros [= ->]. Qed.
Lemma applyFlags_get args cfg cfg' : applyFlags ParseDuration args cfg = Ok cfg' →
  (∀ s, get s cfg' = match given (flag_name s) (tokens bools args) with
                     | Some raw => as_option (Value_Set ParseDuration (deref s (get s defaults)) raw)
                     | None => get s cfg
                     end) ∧
  ∀ name, is_Some (given name (tokens bools args)) → name = "version" ∨ ∃ s, name = flag_name s.
Proof.
  unfold applyFlags. intros ([fs rest]&HP&H)%result_bind_ok. destruct rest; [|done]. apply Ok_injective in H as <-.
  apply (Parse_sets ParseDuration bools) in HP; [|apply flag_set_bools]. pose proof (set_all_spec ParseDuration _ _ _ HP) as Hs. split.
  - intros s. destruct (Hs (flag_name s)) as [Ha Hv]. rewrite copies_get; [|apply settings_NoDup|].
    2:{ intros s' v Hv'. destruct (Hs (flag_name s')) as [_ Hv2]. destruct (given (flag_name s') _).
        - destruct Hv2 as (old&w&Ho&Hw&Hf). rewrite flag_set_formal in Ho. injection Ho as <-. rewrite Hf in Hv'. injection Hv' as ->.
          eapply Value_Set_suits; [apply suits_deref|done].
        - rewrite Hv2, flag_set_formal in Hv'. injection Hv' as <-. apply suits_deref. }
    rewrite decide_True by apply settings_all. destruct (given (flag_name s) _) as [raw|].
    + destruct Hv as (old&v&Ho&Hv&->). rewrite flag_set_formal in Ho. injection Ho as <-.
      rewrite (suits_kind ParseDuration s (deref s (get s defaults)) (deref s (get s cfg))) by apply suits_deref. rewrite Hv. cbn.
      rewrite (bool_decide_true (flag_name s ∈ actual fs)) by (apply Ha; by right). by rewrite andb_false_r.
    + rewrite Hv, flag_set_formal. rewrite (bool_decide_false (flag_name s ∈ actual fs)).
      2:{ rewrite Ha. cbn. intros [?%elem_of_empty|[? [=]]]; done. }
      destruct s; cbn; try done; by destruct (_ cfg).
  - intros name Hn. destruct (Hs name) as [_ Hv]. destruct (given name _) as [raw|]; [|by destruct Hn].
    destruct Hv as (old&_&Ho&_). apply flag_set_names in Ho as [[-> _]|?]; [by left|by right].
Qed.

(** ** Load *)

Lemma Load_ok args env order cfg : Load ParseDuration Duration_String Open Decode args env order = Ok cfg ↔
  ∃ file cfg1, from_file Open Decode args env = Ok file ∧ applyEnv ParseDuration order env file = Ok cfg1 ∧ applyFlags ParseDuration args cfg1 = Ok cfg ∧
    validate Duration_String cfg = Ok tt.
Proof.
  unfold Load, wrapped. split.
  - destruct (from_file _ _ _ _) as [file|e]; [|done]. cbn. destruct (applyEnv _ _ _ _) as [cfg1|e] eqn:E1; [|done]. cbn.
    destruct (applyFlags _ _ _) as [cfg2|[|e]] eqn:E2; [|done..]. destruct (validate _ cfg2) as [[]|e] eqn:E3; [|done]. intros [= <-]. by exists file, cfg1.
  - intros (file&cfg1&->&H1&H2&H3). cbn. rewrite H1. cbn. rewrite H2, H3. done.
Qed.

(** What a text means as a flag and as a variable, by the kind of its setting. *)
Definition flag_meaning (k : kind) (raw : string) : option flag_value :=
  match k with
  | KText => Some (VString raw)
  | KNumber => VInt <$> as_option (ParseInt0 raw)
  | KSwitch => VBool <$> as_option (ParseBool raw)
  | KTime => VDuration <$> as_option (ParseDuration raw)
  end.
Definition variable_meaning (k : kind) (raw : string) : option flag_value :=
  match k with
  | KText => Some (VString raw)
  | KNumber => VInt <$> as_option (Strconv.ParseInt raw 64)
  | KSwitch => VBool <$> as_option (ParseBool raw)
  | KTime => VDuration <$> as_option (ParseDuration raw)
  end.
Lemma flag_meaning_set s raw : as_option (Value_Set ParseDuration (deref s (get s defaults)) raw) = flag_meaning (dKind (cli s)) raw.
Proof.
  destruct s; try reflexivity; cbn; first [by destruct (ParseInt0 raw)|by destruct (ParseBool raw)|by destruct (ParseDuration raw)].
Qed.
Lemma variable_meaning_read s raw : s ≠ SConfig → as_option (read_env ParseDuration (env_reader s) raw) = variable_meaning (dKind (cli s)) raw.
Proof.
  intros Hs. destruct s; try done; cbn;
    first [by destruct (ParseBool raw)|by destruct (ParseDuration raw)|by unfold Strconv.Atoi; destruct (Strconv.ParseInt raw 64)].
Qed.

(** Nothing is overlooked: when a configuration loads, every variable under the
    prefix and every flag given is one the program knows. *)
Theorem Load_known (args : list string) (env : gmap string string) (order : list string) (cfg : Config) (Ho : order ≡ₚ (map_to_list env).*1)
  (H : Load ParseDuration Duration_String Open Decode args env order = Ok cfg) :
  (∀ k v, env !! k = Some v → Strings.HasPrefix k envPrefix = true → k ∈ knownEnvKeys) ∧
  ∀ name, is_Some (given name (tokens bools args)) → name = "version" ∨ ∃ s, name = flag_name s.
Proof.
  apply Load_ok in H as (file&cfg1&Hf&He&Ha&_). split; [|by apply applyFlags_get in Ha as [_ Ha]].
  intros k v Hk. apply (applyEnv_known _ _ _ _ He). rewrite Ho. apply list_elem_of_fmap. exists (k, v). split; [done|by apply elem_of_map_to_list].
Qed.
(** A configuration that loads is one the program can start with: it has a
    logger, at least one device, times and offsets of the right sign, and a place
    to publish the listener it asks for. *)
Theorem Load_valid (args : list string) (env : gmap string string) (order : list string) (cfg : Config)
  (H : Load ParseDuration Duration_String Open Decode args env order = Ok cfg) :
  is_ok (New (LogLevel cfg) (LogFormat cfg)) = true ∧ (1 ≤ Concurrency cfg ∧ 0 < ACSTimeout cfg)%Z ∧
  (∀ n, FleetOffset cfg = Some n → (0 ≤ n)%Z) ∧ (∀ d, BootRamp cfg = Some d → (0 ≤ d)%Z) ∧
  (CRAdvertiseHost cfg ≠ "" → Strings.ContainsAny (CRAdvertiseHost cfg) "/ " = false) ∧
  (CRBindAddr cfg ≠ "" → Strings.HasPrefix (CRPath cfg) "/" = true ∧ CRPublishPath cfg ≠ "").
Proof.
  apply Load_ok in H as (_&_&_&_&_&H). unfold validate in H.
  destruct (bool_decide_reflect (lower_text (LogLevel cfg) ∈ ["debug"; "info"; "warn"; "warning"; "error"])) as [Hl|]; [|done].
  destruct (bool_decide_reflect (lower_text (LogFormat cfg) ∈ ["text"; "json"])) as [Hf|]; [|done]. cbn [negb] in H.
  destruct (Z.ltb_spec (Concurrency cfg) 1); [done|]. destruct (Z.leb_spec (ACSTimeout cfg) 0); [done|].
  destruct (match FleetOffset cfg with Some n => (n <? 0)%Z | None => false end) eqn:Eo; [done|].
  destruct (match BootRamp cfg with Some n => (n <? 0)%Z | None => false end) eqn:Eb; [done|].
  destruct (_ && _) eqn:Eh; [done|]. split_and!; [|lia|lia|..].
  - unfold New, parseLevel. repeat (apply elem_of_cons in Hl as [->|Hl]); [..|by apply elem_of_nil in Hl];
      repeat (apply elem_of_cons in Hf as [->|Hf]); first [by apply elem_of_nil in Hf|reflexivity].
  - intros n En. rewrite En in Eo. by apply Z.ltb_ge.
  - intros n En. rewrite En in Eb. by apply Z.ltb_ge.
  - intros Hne. by rewrite (proj2 (String.eqb_neq _ _) Hne) in Eh.
  - intros Hne. rewrite (proj2 (String.eqb_neq _ _) Hne) in H. destruct (Strings.HasPrefix (CRPath cfg) "/"); [|done]. split; [done|].
    by destruct (String.eqb_spec (CRPublishPath cfg) "").
Qed.
End config.

(** ** Seeds *)

Lemma fnv_byte_range h c : (0 ≤ fnv_byte h c < 2 ^ 64)%Z.
Proof. apply Z.mod_pos_bound. lia. Qed.
Lemma fnv_write_range h s : (0 ≤ h < 2 ^ 64)%Z → (0 ≤ fnv_write h s < 2 ^ 64)%Z.
Proof. revert h; induction s as [|c s IH]; intros h Hh; [done|]. apply IH, fnv_byte_range. Qed.
(** The prime is odd, so multiplication by it can be undone. *)
Definition fnv_inverse : Z := 14886173955864302971.
Lemma fnv_prime_inj x y : (0 ≤ x < 2 ^ 64)%Z → (0 ≤ y < 2 ^ 64)%Z → u64 (x * fnv_prime) = u64 (y * fnv_prime) → x = y.
Proof.
  unfold u64. intros Hx Hy E.
  assert (∀ z, (0 ≤ z < 2 ^ 64)%Z → ((z * fnv_prime) mod 2 ^ 64 * fnv_inverse) mod 2 ^ 64 = z)%Z as Hinv.
  { intros z Hz. rewrite Z.mul_mod_idemp_l by lia. rewrite <- Z.mul_assoc, Z.mul_mod by lia.
    change ((fnv_prime * fnv_inverse) mod 2 ^ 64)%Z with 1%Z. rewrite Z.mul_1_r, Z.mod_mod by lia. by apply Z.mod_small. }
  rewrite <- (Hinv x), <- (Hinv y) by done. by rewrite E.
Qed.
Lemma lxor_byte_range h c : (0 ≤ h < 2 ^ 64)%Z → (0 ≤ Z.lxor h (Z.of_N (byte_of c)) < 2 ^ 64)%Z.
Proof.
  intros Hh. pose proof (N_ascii_bounded c) as Hc. split; [apply Z.lxor_nonneg; lia|].
  apply Z.log2_lt_cancel. eapply Z.le_lt_trans; [apply Z.log2_lxor; lia|]. rewrite Z.log2_pow2 by lia.
  apply Z.max_lub_lt.
  - destruct (decide (h = 0)%Z) as [->|?]; [done|]. apply Z.log2_lt_pow2; lia.
  - unfold byte_of. destruct (decide (Z.of_N (N_of_ascii c) = 0)%Z) as [->|?]; [done|]. apply Z.log2_lt_pow2; lia.
Qed.
Lemma lxor_cancel_l h a b : Z.lxor h a = Z.lxor h b → a = b.
Proof. intros E. rewrite <- (Z.lxor_0_l a), <- (Z.lxor_0_l b), <- (Z.lxor_nilpotent h), !Z.lxor_assoc. by rewrite E. Qed.
Lemma fnv_byte_inj h h' c : (0 ≤ h < 2 ^ 64)%Z → (0 ≤ h' < 2 ^ 64)%Z → fnv_byte h c = fnv_byte h' c → h = h'.
Proof.
  intros H H' E. apply fnv_prime_inj in E; [|by apply lxor_byte_range..]. rewrite !(Z.lxor_comm _ (Z.of_N _)) in E. by apply lxor_cancel_l in E.
Qed.
Lemma fnv_write_inj h h' s : (0 ≤ h < 2 ^ 64)%Z → (0 ≤ h' < 2 ^ 64)%Z → fnv_write h s = fnv_write h' s → h = h'.
Proof.
  revert h h'; induction s as [|c s IH]; intros h h' H H' E; [done|]. cbn in E. apply IH in E; [|apply fnv_byte_range..]. by eapply fnv_byte_inj.
Qed.
Lemma fnv_write_app h s t : fnv_write h (s +:+ t) = fnv_write (fnv_write h s) t.
Proof. revert h; induction s as [|c s IH]; intros h; [done|]. apply IH. Qed.
(** Devices whose names differ in one place have seeds of their own, whatever
    the root seed. *)
Lemma seeds_differ (src : Source) (a b : string) (c d : ascii) : c ≠ d → ForCPE src (a +:+ String c b) ≠ ForCPE src (a +:+ String d b).
Proof.
  intros Hne E. unfold ForCPE in E. set (h := fnv_write fnv_offset _) in E.
  assert (0 ≤ h < 2 ^ 64)%Z as Hh by (by apply fnv_write_range).
  rewrite !fnv_write_app in E. cbn [fnv_write] in E. set (g := fnv_write h a) in E.
  assert (0 ≤ g < 2 ^ 64)%Z as Hg by (by apply fnv_write_range).
  assert (∀ x y, (0 ≤ x < 2 ^ 64)%Z → (0 ≤ y < 2 ^ 64)%Z → i64 x = i64 y → x = y) as Hi.
  { unfold i64. intros x y Hx Hy Exy. pose proof (Z.div_mod (x + 2 ^ 63) (2 ^ 64) ltac:(lia)). pose proof (Z.div_mod (y + 2 ^ 63) (2 ^ 64) ltac:(lia)).
    pose proof (Z.div_lt_upper_bound (x + 2 ^ 63) (2 ^ 64) 2 ltac:(lia) ltac:(lia)). pose proof (Z.div_lt_upper_bound (y + 2 ^ 63) (2 ^ 64) 2 ltac:(lia) ltac:(lia)).
    pose proof (Z.div_pos (x + 2 ^ 63) (2 ^ 64) ltac:(lia) ltac:(lia)). pose proof (Z.div_pos (y + 2 ^ 63) (2 ^ 64) ltac:(lia) ltac:(lia)). lia. }
  apply Hi in E; [|by apply fnv_write_range, fnv_byte_range..]. apply fnv_write_inj in E; [|apply fnv_byte_range..].
  apply fnv_prime_inj in E; [|by apply lxor_byte_range..]. apply lxor_cancel_l in E. apply Hne. unfold byte_of in E.
  apply N2Z.inj in E. by rewrite <- (ascii_N_embedding c), <- (ascii_N_embedding d), E.
Qed.

(** ** A command line *)

Definition ex_duration (raw : string) : result error Z := if String.eqb raw "10m" then Ok (600 * 10 ^ 9)%Z else Err (errorf "time: invalid duration %q" [raw]).
Definition ex_no_file (path : string) : result error string := Err (errorf "open %s: no such file" [path]).
(** Two files, whose documents are their log level. *)
Definition ex_open (path : string) : result error string := if String.eqb path "a.yaml" then Ok "warn" else Ok "error".
Definition ex_decode (content : string) (cfg : Config) : result error Config := Ok (put SLogLevel (VString content) cfg).
Definition ex_load (open : string → result error string) (args : list string) (env : list string) : result parse_error Config :=
  Load ex_duration Strconv.Itoa open ex_decode args (EnvMap env) (map_to_list (EnvMap env)).*1.
Definition ex_args : list string := ["--log-level"; "debug"; "-boot-ramp=10m"; "--tls-skip-verify"].
Definition ex_env : list string := ["CPE_SIM_LOG_LEVEL=error"; "CPE_SIM_ACS_URL=http://acs/?a=b"; "HOME=/root"].
Definition ex_loaded : Config := match ex_load ex_no_file ex_args ex_env with Ok cfg => cfg | Err _ => defaults end.
Lemma ex_config_loads : ex_load ex_no_file ex_args ex_env = Ok ex_loaded.
Proof. vm_compute. reflexivity. Qed.
Lemma Load_known_witness : "CPE_SIM_LOG_LEVEL" ∈ knownEnvKeys.
Proof.
  apply (proj1 (Load_known ex_duration Strconv.Itoa ex_no_file ex_decode ex_args (EnvMap ex_env) _ ex_loaded (reflexivity _) ex_config_loads)) with "error"; vm_compute; reflexivity.
Defined.
Lemma Load_valid_witness : is_ok (New (LogLevel ex_loaded) (LogFormat ex_loaded)) = true.
Proof. exact (proj1 (Load_valid ex_duration Strconv.Itoa ex_no_file ex_decode ex_args (EnvMap ex_env) _ ex_loaded ex_config_loads)). Defined.

(** ** Against the intent *)

Definition outcome_of (r : result parse_error Config) : option (string * string) := match r with Ok c => Some (ConfigPath c, LogLevel c) | Err _ => None end.
(** The file is found by the first [--config], the path is reported from the
    last. *)
Lemma first_config_read : outcome_of (ex_load ex_open ["--config"; "a.yaml"; "--config"; "b.yaml"] []) = Some ("b.yaml", "warn").
Proof. vm_compute. reflexivity. Qed.
(** The scan does not know which arguments are values: a password is taken for
    the path of a file. *)
Lemma value_scanned : outcome_of (ex_load ex_no_file ["--acs-password"; "-config=x"] []) = None ∧ tokens bools ["--acs-password"; "-config=x"] = [("acs-password", "-config=x")].
Proof. split; vm_compute; reflexivity. Qed.
(** A number of the command line is read in the base its prefix says, a number
    of the environment in base ten. *)
Lemma octal_flag : Value_Set ex_duration (VInt 0) "010" = Ok (VInt 8) ∧ read_env ex_duration (env_reader SFleetOffset) "010" = Ok (VInt 10).
Proof. split; vm_compute; reflexivity. Qed.
(** An empty variable sets the USP settings and no other. *)
Lemma empty_counts_for_usp key s b : (key, s, b) ∈ env_settings → b = true ↔ s ∈ [SUspBroker; SUspControllerID; SUspMqttSecret; SUspMqttUsername; SUspMqttPassword].
Proof.
  assert (Forall (λ x : string * setting * bool, x.2 = true ↔ x.1.2 ∈ [SUspBroker; SUspControllerID; SUspMqttSecret; SUspMqttUsername; SUspMqttPassword]) env_settings) as H.
  { by apply (bool_decide_unpack _). }
  rewrite Forall_forall in H. intros Hin. exact (H _ Hin).
Qed.
