(* ===== verification/Mqtt.v ===== *)
(** * The MQTT transport of USP ([internal/usp/mtp/mqtt])

    Topics, passwords and what a publish comes to ([client.go]); the simulated
    uplink and the sockets it holds ([link.go]), as interleaved calls. The MQTT
    library and the network are not code of the program: what they answer is an
    argument. *)
From Stdlib Require Import ZArith Lia Ascii String.
From S2P Require Import Prelude GoLib GoText GoAuth CpeErr Fleet Sha.

(** ** Topics *)

Definition agentTopicPrefix : string := "usp/v1/agent/".
Definition controllerTopicPrefix : string := "usp/v1/controller/".
Definition AgentTopic (endpointID : string) : string := agentTopicPrefix +:+ endpointID.
Definition ControllerTopic (endpointID : string) : string := controllerTopicPrefix +:+ endpointID.
(** The filter [onConnect] subscribes to. *)
Definition inbox (endpointID : string) : string := AgentTopic endpointID +:+ "/#".

Definition replyToMarker : string := "/reply-to=".
Definition withReplyTo (topic replyTo : string) : string := topic +:+ replyToMarker +:+ ReplaceAll replyTo "/" "%2F".
(** What follows the last occurrence of a word, [strings.LastIndex]. *)
Fixpoint after_last (s word : string) : option string :=
  match s with
  | "" => match word with "" => Some "" | _ => None end
  | String _ s' =>
      match after_last s' word with
      | Some rest => Some rest
      | None => Strings.TrimPrefix_go s word
      end
  end.
Definition parseReplyTo (topic : string) : string :=
  match after_last topic replyToMarker with
  | Some rest => ReplaceAll rest "%2F" "/"
  | None => ""
  end.

(** ** A client *)

Record MqttConfig := MkMqttConfig {
  BrokerAddr : string; EndpointID : string; cfgControllerTopic : string; Username : string; Password : string; HMACSecret : string;
  KeepAlive : Z; ConnectRetry : Z
}.
(** [base64.RawURLEncoding] *)
Fixpoint raw_url (s : string) : string :=
  match s with
  | "" => ""
  | String c s =>
      if Ascii.eqb c "=" then raw_url s
      else String (if Ascii.eqb c "+" then "-"%char else if Ascii.eqb c "/" then ascii_of_nat 95 else c) (raw_url s)
  end.
Definition DerivePassword (secret username : string) : string := raw_url (EncodeToString (of_bytes (hmac_sha256 (bytes secret) (bytes username)))).

Definition fill (value default_ : string) : string := if String.eqb value "" then default_ else value.
Definition New (cfg : MqttConfig) : result error MqttConfig :=
  if String.eqb (BrokerAddr cfg) "" then Err (errorf "usp/mqtt: broker address is required" [])
  else if String.eqb (EndpointID cfg) "" then Err (errorf "usp/mqtt: endpoint id is required" [])
  else
    let username := fill (Username cfg) (EndpointID cfg) in
    Ok (MkMqttConfig (BrokerAddr cfg) (EndpointID cfg) (fill (cfgControllerTopic cfg) (ControllerTopic (EndpointID cfg))) username
      (if String.eqb (Password cfg) "" && negb (String.eqb (HMACSecret cfg) "") then DerivePassword (HMACSecret cfg) username else Password cfg)
      (HMACSecret cfg) (if (KeepAlive cfg <=? 0)%Z then 60 * 10 ^ 9 else KeepAlive cfg)%Z
      (if (ConnectRetry cfg <=? 0)%Z then 5 * 10 ^ 9 else ConnectRetry cfg)%Z).

(** The client: its configuration, whether a handler is registered, and the
    topic its controller asked for. *)
Record Client := MkClient { ccfg : MqttConfig; onRecord : bool; replyTo : string }.
Definition OnRecord (c : Client) : Client := MkClient (ccfg c) true (replyTo c).
(** The payload goes to the handler, if there is one. *)
Definition handleMessage (topic payload : string) (c : Client) : Client * option string :=
  let asked := parseReplyTo topic in
  (MkClient (ccfg c) (onRecord c) (if String.eqb asked "" then replyTo c else asked), if onRecord c then Some payload else None).
Definition publish_topic (c : Client) : string :=
  withReplyTo (fill (replyTo c) (cfgControllerTopic (ccfg c))) (AgentTopic (EndpointID (ccfg c))).

Definition ErrLinkDown : error := errorf "usp/mqtt: simulated uplink is down" [].
(** What the token of a publish comes to within [publishTimeout]. *)
Inductive token := NoAck | Acked | Refused (e : error).
(** What is handed to the library, and the answer of [Publish]. *)
Definition Publish (down connected : bool) (t : token) (payload : string) (c : Client) : option (string * string) * option error :=
  if down then (None, Some ErrLinkDown)
  else if negb connected then (None, Some (errorf "usp/mqtt: not connected" []))
  else
    let topic := publish_topic c in
    (Some (topic, payload),
     match t with
     | NoAck => Some (errorf "usp/mqtt: publish to %s: no acknowledgement within %s" [topic; "10s"])
     | Acked => None
     | Refused e => Some (Errorf "usp/mqtt: publish to %s: %w" [topic] (Some e))
     end).

(** ** The uplink *)

(** A socket is known by its place in [open_]. A goroutine that is between two
    critical sections is a task: about to dial, about to hold the socket it
    dialled, about to close or to write after its check, about to close the
    sockets [restore] took. *)
Inductive task := Dialing | Dialled (s : nat) | Closing (s : nat) | Writing (s : nat) (b : string) | Restoring (l : list nat).
Record world := MkWorld { down : bool; live : list nat; held : list nat; open_ : list bool; wire : list (nat * string); tasks : list task }.
Definition start : world := MkWorld false [] [] [] [] [].
Definition set_tasks x (w : world) : world := MkWorld (down w) (live w) (held w) (open_ w) (wire w) x.
Definition add_task x (w : world) : world := set_tasks (tasks w ++ [x]) w.
Definition shut (s : nat) (w : world) : world := MkWorld (down w) (live w) (held w) (<[s := false]> (open_ w)) (wire w) (tasks w).

Definition cut (w : world) : world := MkWorld true [] (held w ++ live w) (open_ w) (wire w) (tasks w).
(** Under the mutex; the closes come after. *)
Definition restore (w : world) : world := add_task (Restoring (held w)) (MkWorld false (live w) [] (open_ w) (wire w) (tasks w)).
Definition hold (s : nat) (w : world) : world := MkWorld (down w) (live w ++ [s]) (held w) (open_ w) (wire w) (tasks w).
Fixpoint remove_first (s : nat) (l : list nat) : option (list nat) :=
  match l with
  | [] => None
  | x :: l => if (x =? s)%nat then Some l else cons x <$> remove_first s l
  end.
Definition release (s : nat) (w : world) : option world :=
  l ← remove_first s (live w); Some (MkWorld (down w) l (held w) (open_ w) (wire w) (tasks w)).

(** [severableConn.Read]: what the library sees of a read, given whether the
    link was down before and after it. *)
Definition Read (down_before down_after : bool) (inner : result error string) : result error string :=
  if down_before then Err ErrLinkDown
  else match inner with
       | Err e => if down_after then Err ErrLinkDown else Err e
       | Ok b => Ok b
       end.

(** The library opens, writes and closes connections whenever it likes, the
    fault cuts and restores, a task goes on; a dial may fail. *)
Inductive move := Open | Write (s : nat) (b : string) | Close (s : nat) | LinkDown | LinkUp | Go (i : nat) (ok : bool).
Definition goes (x : task) (ok : bool) (w : world) : world :=
  match x with
  | Dialing =>
      if ok then add_task (Dialled (length (open_ w))) (MkWorld (down w) (live w) (held w) (open_ w ++ [true]) (wire w) (tasks w)) else w
  | Dialled s => hold s w
  | Closing s => shut s w
  | Writing s b =>
      match open_ w !! s with
      | Some true => MkWorld (down w) (live w) (held w) (open_ w) (wire w ++ [(s, b)]) (tasks w)
      | _ => w
      end
  | Restoring l =>
      match l with
      | [] => w
      | s :: l => add_task (Restoring l) (shut s w)
      end
  end.
Definition perform (m : move) (w : world) : option world :=
  match m with
  | Open => Some (if down w then w else add_task Dialing w)
  | Write s b => Some (if down w then w else add_task (Writing s b) w)
  | Close s => Some (match release s w with Some w => add_task (Closing s) w | None => w end)
  | LinkDown => Some (cut w)
  | LinkUp => Some (restore w)
  | Go i ok => x ← tasks w !! i; Some (goes x ok (set_tasks (delete i (tasks w)) w))
  end.
