(* ===== verification/MqttProps.v ===== *)
(** * What the MQTT transport promises

    A reply-to topic survives its trip through a topic name, so both sides know
    where to answer; every open socket is accounted for; an outage gives the
    broker no notice of the sessions it cuts. *)
From Stdlib Require Import ZArith Lia Ascii String.
From stdpp Require Import relations.
From S2P Require Import Prelude GoLib GoText GoAuth CpeErr Fleet Sha Mqtt.

(** ** [strings.ReplaceAll], one byte at a time *)

Lemma TrimPrefix_length s old rest : Strings.TrimPrefix_go s old = Some rest → String.length s = (String.length old + String.length rest)%nat.
Proof.
  revert old; induction s as [|c s IH]; intros [|d old]; cbn; [by intros [= <-]|done|by intros [= <-]|].
  destruct (Ascii.eqb d c); [|done]. intros H%IH. lia.
Qed.
Lemma CutStr_length s old a b : Strings.CutStr s old = Some (a, b) → String.length s = (String.length a + String.length old + String.length b)%nat.
Proof.
  revert a b; induction s as [|c s IH]; intros a b.
  - cbn. destruct old; [|done]. by intros [= <- <-].
  - cbn [Strings.CutStr]. destruct (Strings.TrimPrefix_go (String c s) old) as [rest|] eqn:E.
    + intros [= <- <-]. apply TrimPrefix_length in E. cbn in *. lia.
    + destruct (Strings.CutStr s old) as [[a' b']|]; [|done]. intros [= <- <-]. cbn. specialize (IH a' b' eq_refl). lia.
Qed.
Lemma ReplaceAll_enough old new n m s : old ≠ "" → (String.length s < n)%nat → (String.length s < m)%nat → ReplaceAll_go n s old new = ReplaceAll_go m s old new.
Proof.
  intros Ho. revert m s; induction n as [|n IH]; intros [|m] s Hn Hm; [lia..|]. cbn [ReplaceAll_go].
  destruct (Strings.CutStr s old) as [[a b]|] eqn:E; [|done]. apply CutStr_length in E. destruct old as [|o old]; [done|]. cbn in E.
  do 2 f_equal. apply IH; lia.
Qed.
Lemma ReplaceAll_hit s old new rest : old ≠ "" → Strings.TrimPrefix_go s old = Some rest → ReplaceAll s old new = new +:+ ReplaceAll rest old new.
Proof.
  intros Ho E. unfold ReplaceAll at 1. cbn [ReplaceAll_go]. assert (Strings.CutStr s old = Some ("", rest)) as ->.
  { destruct s; cbn [Strings.CutStr]; by rewrite E. }
  change ("" +:+ ?x) with x. f_equal. apply TrimPrefix_length in E. unfold ReplaceAll. destruct old as [|o old]; [done|].
  change (String.length (String o old)) with (S (String.length old)) in E. apply ReplaceAll_enough; [done|lia..].
Qed.
Lemma ReplaceAll_miss c s old new : old ≠ "" → Strings.TrimPrefix_go (String c s) old = None → ReplaceAll (String c s) old new = String c (ReplaceAll s old new).
Proof.
  intros Ho E. unfold ReplaceAll. set (n := String.length (String c s)). set (m := String.length s). assert (n = S m ∧ m = String.length s) as [Hn Hm] by done. clearbody n m.
  cbn [ReplaceAll_go Strings.CutStr]. rewrite E. destruct (Strings.CutStr s old) as [[a b]|] eqn:Ec; [|done].
  change (String c a +:+ ?x) with (String c (a +:+ x)). do 3 f_equal. apply CutStr_length in Ec. destruct old as [|o old]; [done|].
  change (String.length (String o old)) with (S (String.length old)) in Ec. apply ReplaceAll_enough; [done|lia..].
Qed.

Lemma TrimPrefix_app w e : Strings.TrimPrefix_go (w +:+ e) w = Some e.
Proof. induction w as [|c w IH]; [by destruct e|]. cbn. by rewrite Ascii.eqb_refl. Qed.

Definition escape (s : string) : string := ReplaceAll s "/" "%2F".
Lemma escape_cons c s : escape (String c s) = if Ascii.eqb c "/" then "%2F" +:+ escape s else String c (escape s).
Proof.
  unfold escape. destruct (Ascii.eqb_spec c "/") as [->|E]; [apply ReplaceAll_hit; [done|by destruct s]|]. apply ReplaceAll_miss; [done|].
  cbn [Strings.TrimPrefix_go]. destruct (Ascii.eqb_spec "/" c); [by subst|done].
Qed.
Lemma escape_no_slash s : Strings.no_byte "/" (escape s) = true.
Proof.
  induction s as [|c s IH]; [done|]. rewrite escape_cons. destruct (Ascii.eqb_spec c "/") as [->|E]; [exact IH|].
  unfold Strings.no_byte in *. cbn [str_forall]. rewrite IH. by apply Ascii.eqb_neq in E as ->.
Qed.
(** A text without the escape itself comes back. *)
Lemma unescape s : Strings.CutStr s "%2F" = None → ReplaceAll (escape s) "%2F" "/" = s.
Proof.
  induction s as [|c s IH]; intros Hc; [done|]. cbn [Strings.CutStr] in Hc.
  destruct (Strings.TrimPrefix_go (String c s) "%2F") as [rest|] eqn:E; [done|].
  destruct (Strings.CutStr s "%2F") as [[a b]|] eqn:Es; [done|]. rewrite escape_cons. destruct (Ascii.eqb_spec c "/") as [->|Hne].
  - rewrite (ReplaceAll_hit ("%2F" +:+ escape s) "%2F" "/" (escape s)) by first [done|exact (TrimPrefix_app "%2F" _)]. by rewrite IH.
  - rewrite ReplaceAll_miss; [by rewrite IH|done|]. revert E. cbn [Strings.TrimPrefix_go]. destruct (Ascii.eqb "%" c); [|done].
    destruct s as [|d s]; [done|]. rewrite escape_cons. cbn [Strings.TrimPrefix_go]. destruct (Ascii.eqb_spec d "/") as [->|Hd]; [done|].
    cbn [Strings.TrimPrefix_go]. destruct (Ascii.eqb "2" d); [|done]. destruct s as [|e s]; [done|]. rewrite escape_cons.
    destruct (Ascii.eqb_spec e "/") as [->|He]; [done|]. cbn [Strings.TrimPrefix_go]. destruct (Ascii.eqb "F" e); [by destruct s|done].
Qed.

Lemma after_last_none s w : Strings.no_byte "/" s = true → after_last s (String "/" w) = None.
Proof.
  unfold Strings.no_byte. induction s as [|c s IH]; [done|]. cbn [str_forall]. rewrite andb_true_iff. intros [Hc Hs]. cbn [after_last].
  rewrite IH by done. cbn [Strings.TrimPrefix_go]. destruct (Ascii.eqb_spec "/" c) as [<-|]; [discriminate Hc|done].
Qed.
Lemma after_last_app t w e : after_last (w +:+ e) w = Some e → after_last (t +:+ w +:+ e) w = Some e.
Proof. intros H. induction t as [|c t IH]; [done|]. cbn [after_last append]. change (String.append t ?x) with (t +:+ x). by rewrite IH. Qed.
Lemma after_marker t e : Strings.no_byte "/" e = true → after_last (t +:+ replyToMarker +:+ e) replyToMarker = Some e.
Proof.
  intros He. apply after_last_app. unfold replyToMarker.
  change ("/reply-to=" +:+ e) with (String "/" ("reply-to=" +:+ e)). cbn [after_last]. rewrite after_last_none; [exact (TrimPrefix_app "/reply-to=" e)|].
  unfold Strings.no_byte in *. rewrite str_forall_app. by rewrite He.
Qed.

(** A topic written behind the reply-to marker is read back from there, whatever
    it stands behind: the marker of a topic name is its last. *)
Lemma marker_roundtrip (topic replyTo : string) (H : Strings.CutStr replyTo "%2F" = None) : parseReplyTo (withReplyTo topic replyTo) = replyTo.
Proof. unfold parseReplyTo, withReplyTo. fold (escape replyTo). rewrite after_marker by apply escape_no_slash. by apply unescape. Qed.

(** Both halves of the binding. Once a controller has written to the agent's
    inbox with its topic behind the marker, the agent publishes to that topic, and
    the topic it publishes under tells the controller the agent's inbox. *)
Theorem answers_find_their_way (c : Client) (ct payload : string) (Hc : ct ≠ "") (H1 : Strings.CutStr ct "%2F" = None)
  (H2 : Strings.CutStr (AgentTopic (EndpointID (ccfg c))) "%2F" = None) :
  let '(c', delivered) := handleMessage (withReplyTo (AgentTopic (EndpointID (ccfg c))) ct) payload c in
  publish_topic c' = withReplyTo ct (AgentTopic (EndpointID (ccfg c'))) ∧ parseReplyTo (publish_topic c') = AgentTopic (EndpointID (ccfg c)) ∧
  (delivered = if onRecord c then Some payload else None).
Proof.
  unfold handleMessage. rewrite marker_roundtrip by done. unfold publish_topic. cbn. rewrite (proj2 (String.eqb_neq _ _) Hc). unfold fill.
  rewrite (proj2 (String.eqb_neq _ _) Hc). split_and!; [done| |done]. by apply marker_roundtrip.
Qed.

(** ** Sockets *)

Definition step (w w' : world) : Prop := ∃ m, perform m w = Some w'.
Definition reachable (w : world) : Prop := rtc step start w.

(** The sockets a task has in hand. *)
Definition sockets_of (x : task) : list nat :=
  match x with Dialled s | Closing s => [s] | Restoring l => l | Dialing | Writing _ _ => [] end.
Definition places (w : world) : list nat := live w ++ held w ++ flat_map sockets_of (tasks w).
Record accounted (w : world) : Prop := {
  ac_once : NoDup (places w);
  ac_open : ∀ s, open_ w !! s = Some true ↔ s ∈ places w;
  ac_up : down w = false → held w = []
}.

Lemma flat_map_delete (l : list task) i x : l !! i = Some x → flat_map sockets_of l ≡ₚ sockets_of x ++ flat_map sockets_of (delete i l).
Proof. intros H. by rewrite (delete_Permutation l i x H) at 1. Qed.
Lemma remove_first_Permutation s l l' : remove_first s l = Some l' → l ≡ₚ s :: l'.
Proof.
  revert l'; induction l as [|x l IH]; intros l'; [done|]. cbn. destruct (Nat.eqb_spec x s) as [->|]; [by intros [= ->]|].
  intros (l1&Hl%IH&->)%fmap_Some. rewrite Hl. constructor.
Qed.
(** Moving sockets about keeps them accounted for. *)
Lemma accounted_moved w w' : accounted w → open_ w' = open_ w → places w' ≡ₚ places w → (down w' = false → held w' = []) → accounted w'.
Proof.
  intros [H1 H2 H3] Ho Hp Hu. split; [by rewrite Hp| |done]. intros s. by rewrite Ho, H2, Hp.
Qed.
Lemma accounted_shut w s l : accounted w → places w ≡ₚ s :: l → ∀ w', open_ w' = <[s := false]> (open_ w) → places w' ≡ₚ l → (down w' = false → held w' = []) → accounted w'.
Proof.
  intros [H1 H2 H3] Hp w' Ho Hp' Hu. rewrite Hp in H1. apply NoDup_cons in H1 as [Hs H1].
  assert (open_ w !! s = Some true) as Hos by (apply H2; rewrite Hp; left).
  split; [by rewrite Hp'| |done]. intros x. rewrite Ho, Hp'. destruct (decide (x = s)) as [->|Hx].
  - rewrite list_lookup_insert_eq by (by eapply lookup_lt_Some). by split; [intros [=]|].
  - rewrite list_lookup_insert_ne by done. rewrite H2, Hp, elem_of_cons. naive_solver.
Qed.
Lemma accounted_goes w i x ok : accounted w → tasks w !! i = Some x → accounted (goes x ok (set_tasks (delete i (tasks w)) w)).
Proof.
  intros Ha Hi. pose proof (flat_map_delete _ _ _ Hi) as Hp. set (w1 := set_tasks (delete i (tasks w)) w).
  assert (places w ≡ₚ sockets_of x ++ places w1) as Hpl by (unfold places; cbn; rewrite Hp; solve_Permutation).
  destruct x as [|s|s|s b|l]; cbn [goes sockets_of app] in *.
  - destruct ok; [|by apply (accounted_moved w); [done..|symmetry|apply Ha]].
    assert (places (add_task (Dialled (length (open_ w1))) (MkWorld (down w1) (live w1) (held w1) (open_ w1 ++ [true]) (wire w1) (tasks w1))) ≡ₚ length (open_ w) :: places w) as Hq.
    { unfold places at 1. cbn. rewrite flat_map_app. cbn. rewrite Hpl. unfold places. cbn. solve_Permutation. }
    destruct Ha as [H1 H2 H3]. split; [rewrite Hq| |done].
    + apply NoDup_cons. split; [|done]. intros Hn%H2%lookup_lt_Some. lia.
    + intros s. rewrite Hq. cbn. rewrite elem_of_cons, <- H2. destruct (decide (s = length (open_ w))) as [->|Hs].
      * rewrite list_lookup_middle by done. naive_solver.
      * destruct (decide (s < length (open_ w))%nat); [rewrite lookup_app_l by done; naive_solver|].
        rewrite (lookup_ge_None_2 (open_ w)) by lia. rewrite lookup_ge_None_2 by (rewrite length_app; cbn; lia). naive_solver.
  - apply (accounted_moved w); [done..| |apply Ha]. rewrite Hpl. unfold places. cbn. solve_Permutation.
  - apply (accounted_shut w s (places w1)); [done..|apply Ha].
  - apply (accounted_moved w); [done| | |by destruct (open_ w1 !! s) as [[]|]; apply Ha].
    + by destruct (open_ w1 !! s) as [[]|].
    + rewrite Hpl. by destruct (open_ w1 !! s) as [[]|].
  - destruct l as [|s l]; [by apply (accounted_moved w); [done..|rewrite Hpl|apply Ha]|].
    apply (accounted_shut w s (l ++ places w1)); [done|done|done| |apply Ha]. unfold places. cbn. rewrite flat_map_app. cbn. solve_Permutation.
Qed.
Lemma accounted_step w w' : accounted w → step w w' → accounted w'.
Proof.
  intros Ha [m Hm]. destruct m as [|s b|s| | |i ok]; cbn in Hm.
  - injection Hm as <-. destruct (down w) eqn:Ed; [done|]. apply (accounted_moved w); [done..| |apply Ha]. unfold places. cbn. by rewrite flat_map_app, app_nil_r.
  - injection Hm as <-. destruct (down w) eqn:Ed; [done|]. apply (accounted_moved w); [done..| |apply Ha]. unfold places. cbn. by rewrite flat_map_app, app_nil_r.
  - injection Hm as <-. unfold release. destruct (remove_first s (live w)) as [l|] eqn:E; [|done]. apply remove_first_Permutation in E. cbn.
    apply (accounted_moved w); [done..| |apply Ha]. unfold places. cbn. rewrite flat_map_app, E. cbn. solve_Permutation.
  - injection Hm as <-. apply (accounted_moved w); [done..| |done]. unfold places. cbn. solve_Permutation.
  - injection Hm as <-. apply (accounted_moved w); [done..| |done]. unfold places. cbn. rewrite flat_map_app. cbn. solve_Permutation.
  - apply bind_Some in Hm as (x&Hx&[= <-]). by apply accounted_goes.
Qed.
Lemma reachable_accounted w : reachable w → accounted w.
Proof.
  intros H. apply (rtc_ind_r accounted start) in H; [done| |by intros w1 w2 _ Hs Ha; eapply accounted_step].
  split; [apply NoDup_nil_2| |done]. intros s. split; [done|by intros ?%elem_of_nil].
Qed.

(** No socket is lost. In every interleaving, once the link is up and no call is
    under way, the open sockets are exactly those the library holds, each once. *)
Theorem no_socket_lost (w : world) (H : reachable w) (Hup : down w = false) (Hidle : tasks w = []) :
  NoDup (live w) ∧ ∀ s, open_ w !! s = Some true ↔ s ∈ live w.
Proof.
  destruct (reachable_accounted _ H) as [H1 H2 H3]. unfold places in *. rewrite (H3 Hup), Hidle in *. cbn in *. rewrite app_nil_r in *. done.
Qed.

(** *** An outage *)

Definition quiet (w w' : world) : Prop := ∃ m, m ≠ LinkUp ∧ perform m w = Some w'.
Definition writes_of (x : task) : list (nat * string) := match x with Writing s b => [(s, b)] | _ => [] end.
Record silent (l : list nat) (before pending : list (nat * string)) (w : world) : Prop := {
  si_down : down w = true;
  si_held : ∀ s, s ∈ l → s ∈ held w;
  si_wire : ∃ sent, wire w = before ++ sent ∧ sent ++ flat_map writes_of (tasks w) ⊆+ pending
}.
Lemma writes_delete (l : list task) i x : l !! i = Some x → flat_map writes_of l ≡ₚ writes_of x ++ flat_map writes_of (delete i l).
Proof. intros H. by rewrite (delete_Permutation l i x H) at 1. Qed.
Lemma silent_step l before pending w w' : silent l before pending w → quiet w w' → silent l before pending w'.
Proof.
  intros [Hd Hh (sent&Hw&Hs)] (m&Hm&H). destruct m as [|s b|s| | |i ok]; cbn in H; [| | | |done|].
  - rewrite Hd in H. injection H as <-. split; [done..|by exists sent].
  - rewrite Hd in H. injection H as <-. split; [done..|by exists sent].
  - injection H as <-. unfold release. destruct (remove_first s (live w)); cbn; (split; [done..|]); exists sent; split; [done| |done..].
    cbn. by rewrite flat_map_app, app_nil_r.
  - injection H as <-. split; [done| |by exists sent]. intros s Hin. apply elem_of_app. left. by apply Hh.
  - apply bind_Some in H as (x&Hx&[= <-]). rewrite (writes_delete _ _ _ Hx) in Hs. destruct x as [|s|s|s b|k]; cbn in *.
    + destruct ok; (split; [done..|]); exists sent; split; [done| |done..]. cbn. by rewrite flat_map_app, app_nil_r.
    + split; [done..|by exists sent].
    + split; [done..|by exists sent].
    + destruct (open_ w !! s) as [[]|]; (split; [done..|]); cbn.
      * exists (sent ++ [(s, b)]). rewrite Hw, <- !(assoc_L (++)). done.
      * exists sent. split; [done|]. etrans; [|exact Hs]. apply submseteq_skips_l. by apply submseteq_cons.
      * exists sent. split; [done|]. etrans; [|exact Hs]. apply submseteq_skips_l. by apply submseteq_cons.
    + destruct k as [|s k]; (split; [done..|]); exists sent; split; [done..|]. cbn. by rewrite flat_map_app, app_nil_r.
Qed.
Lemma quiet_rtc_step w w' : rtc quiet w w' → rtc step w w'.
Proof. intros H. eapply rtc_subrel; [|exact H]. intros x y (m&_&Hm). by exists m. Qed.

(** C35. A cut is silent. From [LinkDown] until the link returns, whatever the library
    and the other goroutines do, the sockets it held stay open, so the broker gets
    no notice; and nothing reaches the network but what writes already past their
    check had in hand. *)
Theorem cut_is_silent (w w' : world) (H : reachable w) (Hq : rtc quiet (cut w) w') :
  (∀ s, s ∈ live w → open_ w' !! s = Some true) ∧ ∃ sent, wire w' = wire w ++ sent ∧ sent ⊆+ flat_map writes_of (tasks w).
Proof.
  assert (silent (live w) (wire w) (flat_map writes_of (tasks w)) w') as [_ Hh (sent&Hw&Hs)].
  { apply (rtc_ind_r (silent (live w) (wire w) (flat_map writes_of (tasks w))) (cut w)) in Hq; [done| |by intros x y _ Hxy Hx; eapply silent_step].
    split; [done| |exists []; split; [by rewrite app_nil_r|done]]. intros s Hin. apply elem_of_app. by right. }
  assert (reachable w') as H'. { unfold reachable. etrans; [exact H|]. eapply rtc_l; [by exists LinkDown|]. by apply quiet_rtc_step. }
  split.
  - intros s Hin. apply (ac_open _ (reachable_accounted _ H')). unfold places. rewrite !elem_of_app. right. left. by apply Hh.
  - exists sent. split; [done|]. etrans; [|exact Hs]. by apply submseteq_inserts_r.
Qed.

(** ** A session *)

Definition ex_client : Client := MkClient (MkMqttConfig "broker:1883" "os::012345-X1" (ControllerTopic "os::012345-X1") "u" "p" "" 60 5) true "".
Lemma answers_find_their_way_witness :
  parseReplyTo (publish_topic (handleMessage (withReplyTo (AgentTopic "os::012345-X1") "usp/v1/controller/a") "record" ex_client).1) = AgentTopic "os::012345-X1".
Proof.
  exact (proj1 (proj2 (answers_find_their_way ex_client "usp/v1/controller/a" "record" ltac:(discriminate) ltac:(vm_compute; reflexivity) ltac:(vm_compute; reflexivity)))).
Defined.

Fixpoint perform_all (l : list move) (w : world) : option world := match l with [] => Some w | m :: l => perform m w ≫= perform_all l end.
Lemma performed l w w' : perform_all l w = Some w' → rtc step w w'.
Proof.
  revert w; induction l as [|m l IH]; intros w H; [injection H as ->; done|]. cbn in H. apply bind_Some in H as (w1&H1&H2).
  eapply rtc_l; [by exists m|by apply IH].
Qed.
Definition connecting : list move := [Open; Go 0 true; Go 0 true; Write 0 "CONNECT"; Go 0 true].
Definition world_of (l : list move) : world := default start (perform_all l start).
Lemma no_socket_lost_witness :
  let w := world_of (connecting ++ [LinkDown; Close 0; LinkUp; Go 0 true; Go 0 true; Open; Go 0 true; Go 0 true]) in live w = [1] ∧ ∀ s, open_ w !! s = Some true ↔ s ∈ live w.
Proof.
  set (l := connecting ++ [LinkDown; Close 0; LinkUp; Go 0 true; Go 0 true; Open; Go 0 true; Go 0 true]). set (w := world_of l).
  assert (perform_all l start = Some w) as E by (vm_compute; reflexivity). split; [vm_compute; reflexivity|].
  refine (proj2 (no_socket_lost w (performed _ _ _ E) _ _)); vm_compute; reflexivity.
Defined.
Lemma cut_is_silent_witness :
  let w := world_of connecting in let w' := default w (perform_all [Write 0 "PING"; Close 0; Open] (cut w)) in live w = [0] ∧ open_ w' !! 0 = Some true.
Proof.
  set (w := world_of connecting). assert (perform_all connecting start = Some w) as E by (vm_compute; reflexivity). split; [vm_compute; reflexivity|].
  refine (proj1 (cut_is_silent w _ (performed _ _ _ E) _) 0 _); [|left].
  apply (rtc_l _ _ (cut w)); [by exists (Write 0 "PING")|]. apply (rtc_l _ _ (cut w)); [by exists (Close 0)|]. apply rtc_once. by exists Open.
Defined.

(** ** Against the intent *)

(** A dial that was past its check when the link was cut comes to a socket the
    outage does not hold: the library closes it while the link is down, and the
    broker sees that. *)
Lemma dial_survives_cut :
  let w := world_of [Open; Go 0 true; LinkDown; Go 0 true; Close 0; Go 0 true] in (down w, open_ w) = (true, [false]).
Proof. vm_compute. reflexivity. Qed.
