(* ===== verification/Startup.v ===== *)
(** * Start-up ([cmd/cpe-sim/main.go], [usp.go])

    What [run] settles before it builds a fleet, how a pool of goroutines builds
    it, the parts of a device that are not a component of their own, the release
    of the bootstrap sessions, and the USP commands that restart a device.
    [net] and [net/url] are parameters. *)
From Stdlib Require Import ZArith Lia Ascii String.
From S2P Require Import Prelude GoLib CpeErr Types Node Tree EventTracker Retry Soap Inform Xml Handler Cpe SetParameterValues Queries Actions SetParameterAttributes Session.
From S2P Require Import Prelude GoLib GoText GoAuth CpeErr Types Node Tree TreeProps Listing EventTracker Soap Inform Retry Scheduler Stun StunClient.
From S2P Require Import UspPaths UspQueries UspDiscovery UspMessages UspSubscriptions Firmware SoftwareModules ModulesGlue CrAuth Fleet Rows Blocks Loader GoFlag CpeConfig.

(** ** What [run] settles *)

(** The defaults, the overrides and the checks before anything is built. *)
Record plan := MkPlan { count : Z; offset : Z; pattern : string; bootRamp : Z; baseSerial : string; perCPECRPath : bool }.
Definition check_config (cfg : CpeConfig.Config) : result error unit :=
  if String.eqb (ACSURL cfg) "" && String.eqb (USPBroker cfg) "" then
    Err (errorf "--acs-url is required unless --usp-broker is set (TR-369 / USP-only mode)" [])
  else if negb (String.eqb (CRBindAddr cfg) "") && String.eqb (ACSURL cfg) "" then
    Err (errorf "--cr-bind-addr requires --acs-url: connection requests are a CWMP (TR-069) mechanism" [])
  else if String.eqb (ProfilePath cfg) "" then
    Err (errorf "--profile is required (no built-in fallback; the simulator is vendor-neutral and will not assume any data model, supply a YAML profile that declares parameters, deviceIdPaths, and any optional blocks)" [])
  else Ok tt.
(** [LoadProfile] has given [p]. *)
Section settle.
Context (ParsePrefix : string → result error prefix) (Addr_String : bool → Z → string).
Definition ids_IsZero (d : DeviceIDPaths) : bool :=
  String.eqb (Inform.Manufacturer d) "" && String.eqb (Inform.OUI d) "" && String.eqb (Inform.ProductClass d) "" && String.eqb (Inform.SerialNumber d) "".
Definition settle (cfg : CpeConfig.Config) (p : Profile) : result error plan :=
  let fleet := mcFleet (Merged p) in
  if ids_IsZero (mcDeviceIDPaths (Merged p)) then
    Err (errorf "profile %q is missing the required deviceIdPaths block (no TR-181 / TR-098 default in core code; declare which parameter paths the inform builder reads, TR-181 uses Device.DeviceInfo.* and TR-098 uses InternetGatewayDevice.DeviceInfo.*)" [ProfilePath cfg])
  else
    let count := if (fcCount fleet <? 1)%Z then 1%Z else fcCount fleet in
    let pattern := if String.eqb (fcSerialPattern fleet) "" then "{base}-{i}" else fcSerialPattern fleet in
    let offset := default (fcOffset fleet) (FleetOffset cfg) in
    match Pool.ValidatePoolCapacity ParsePrefix Addr_String (fcPools fleet) (i64 (offset + count)) with
    | Err e => Err (Errorf "fleet offset %d + count %d: %w" [Strconv.Itoa offset; Strconv.Itoa count] (Some e))
    | Ok _ =>
        let ramp := default (evBootRamp (mcEventSchedule (Merged p))) (BootRamp cfg) in
        let serialPath := Inform.SerialNumber (mcDeviceIDPaths (Merged p)) in
        match Tree.Get (Tree_ p) serialPath with
        | Err e => Err (Errorf "read base serial at %q: %w" [serialPath] (Some e))
        | Ok v => Ok (MkPlan count offset pattern ramp (Raw v) ((1 <? count)%Z || (0 <? offset)%Z))
        end
    end.
End settle.

(** The condition under which [run] returns after the bootstrap sessions. *)
Definition RequiresDaemon (e : EventScheduleConfig) : bool := (0 <? evRebootDelay e)%Z || (0 <? evFactoryResetDelay e)%Z.
Definition one_shot (listener scheduler generators : bool) (e : EventScheduleConfig) (uspAgents : nat) : bool :=
  negb listener && negb scheduler && negb generators && negb (RequiresDaemon e) && (uspAgents =? 0)%nat.

(** ** A device *)

Definition cpe_id (instance : Z) : string := "cpe-" +:+ Strconv.Itoa instance.

(** *** The Inform's parameters *)

Definition crForcedInformPath (cfg : CpeConfig.Config) (listener : bool) : string := if listener then CRPublishPath cfg else "".
Definition withForcedInformParams (base : gmap string (list string)) (crPublishPath : string) : gmap string (list string) :=
  if String.eqb crPublishPath "" || bool_decide (base = ∅) then base
  else (λ paths, if bool_decide (crPublishPath ∈ paths) then paths else paths ++ [crPublishPath]) <$> base.

(** *** The connection-request endpoint *)

Definition endpoint_path (crPath : string) (perCPEPath : bool) (cpeID : string) : string :=
  if perCPEPath then (if Strings.HasSuffix crPath "/" then crPath else crPath +:+ "/") +:+ cpeID else crPath.
(** An authenticator reads its credentials at each request. *)
Inductive authenticator := Permit | Basic (realm : string) (lookup : Tree → string * string) | Digest (realm : string) (lookup : Tree → string * string).
Definition buildCRAuthenticator (cfg : ConnectionRequestConfig) : result error authenticator :=
  if String.eqb (crScheme cfg) "" then Ok Permit
  else
    let lookup t := (raw_or t (crUsername cfg) "", raw_or t (crPassword cfg) "") in
    if String.eqb (crScheme cfg) "basic" then Ok (Basic (crRealm cfg) lookup)
    else if String.eqb (crScheme cfg) "digest" then Ok (Digest (crRealm cfg) lookup)
    else Err (errorf "connectionRequest.scheme %q unsupported" [crScheme cfg]).
(** What is handed to [Listener.Register]; registering is the listener's. *)
Definition endpoint_of (cfg : CpeConfig.Config) (cr : ConnectionRequestConfig) (t : Tree) (cpeID : string) (perCPEPath : bool)
  : result error (Endpoint * authenticator) :=
  match Tree.Get t (CRPublishPath cfg) with
  | Err e => Err (Errorf "cr-publish-path %q not found in profile: %w" [CRPublishPath cfg] (Some e))
  | Ok _ => authn ← buildCRAuthenticator cr; Ok (MkEndpoint (endpoint_path (CRPath cfg) perCPEPath cpeID) (crThrottleWindow cr), authn)
  end.
Definition registerCREndpoint (cfg : CpeConfig.Config) (cr : ConnectionRequestConfig) (t : Tree) (cpeID : string) (perCPEPath : bool)
  (l : CrAuth.Listener) : result error (CrAuth.Listener * string) :=
  '(ep, _) ← endpoint_of cfg cr t cpeID perCPEPath;
  match Register ep l with
  | Err e => Err (Errorf "register CR endpoint %q: %w" [ePath ep] (Some e))
  | Ok l => Ok (l, ePath ep)
  end.

(** [Listener.URL]. The address of the socket is its [IP] as text, whether it is
    unspecified, and its port; [SplitHostPort] and [JoinHostPort] are [net]'s. *)
Section url.
Context (SplitHostPort_ok : string → bool) (JoinHostPort : string → string → string).
Record address := MkAddress { ip : string; unspecified : bool; port : Z }.
Definition URL (advertise : string) (addr : option address) (path : string) : string :=
  match addr with
  | None => ""
  | Some a =>
      if negb (String.eqb advertise "") then
        "http://" +:+ (if SplitHostPort_ok advertise then advertise else JoinHostPort advertise (Strconv.Itoa (port a))) +:+ path
      else "http://" +:+ (if unspecified a then "127.0.0.1" else ip a) +:+ ":" +:+ Strconv.Itoa (port a) +:+ path
  end.
(** One device of [publishCRURLs]. *)
Definition publishCRURL (advertise : string) (addr : option address) (id endpointPath publishPath : string) (t : Tree) : Tree * result error unit :=
  if String.eqb endpointPath "" || String.eqb publishPath "" then (t, Ok tt)
  else
    let url := URL advertise addr endpointPath in
    if String.eqb url "" then (t, Err (errorf "cpe %s: connection-request URL resolved empty for path %q (listener not bound?)" [id; endpointPath]))
    else match SetSystem t publishPath url with
         | (t, _, Err e) => (t, Err (Errorf "cpe %s: publish CR URL into tree at %q: %w" [id; publishPath] (Some e)))
         | (t, _, Ok _) => (t, Ok tt)
         end.
End url.

(** *** Notification on the periodic leaves *)

Definition periodic_leaves (p : PeriodicInformPaths) : list string := [pInterval p; pEnable p] ++ (if String.eqb (pTime p) "" then [] else [pTime p]).
Fixpoint mark_periodic (leaves : list string) (t : Tree) : Tree * result error unit :=
  match leaves with
  | [] => (t, Ok tt)
  | p :: leaves =>
      match GetAttributes t p with
      | Err e => (t, Err (Errorf "get attributes %q: %w" [p] (Some e)))
      | Ok attrs =>
          match SetAttributes t p (MkAttributes 1 (AccessList attrs)) with
          | (t, _, Err e) => (t, Err (Errorf "set notification on %q: %w" [p] (Some e)))
          | (t, _, Ok _) => mark_periodic leaves t
          end
      end
  end.
Definition paths_IsZero (p : PeriodicInformPaths) : bool := String.eqb (pInterval p) "" && String.eqb (pEnable p) "".

(** *** The USP identity *)

Definition uspIdentity (t : Tree) (paths : DeviceIDPaths) : result error Identity :=
  if String.eqb (Inform.OUI paths) "" || String.eqb (Inform.SerialNumber paths) "" then
    Err (errorf "profile declares no deviceIdPaths for OUI and serial, which USP needs for its endpoint id" [])
  else
    let read path :=
      if String.eqb path "" then Ok ""
      else match Tree.Get t path with Err e => Err (Errorf "read %q: %w" [path] (Some e)) | Ok v => Ok (Raw v) end in
    oui ← read (Inform.OUI paths);
    serial ← read (Inform.SerialNumber paths);
    productClass ← read (Inform.ProductClass paths);
    if String.eqb oui "" || String.eqb serial "" then Err (errorf "OUI or serial is empty in the tree, cannot build an endpoint id" [])
    else
      endpointID ← EndpointIDFor oui serial;
      Ok (MkIdentity endpointID oui productClass serial).
Definition uspBootParameters (lists : gmap string (list string)) : list string :=
  match default [] (lists !! EventBoot) with
  | [] => default [] (lists !! EventBootstrap)
  | paths => paths
  end.

(** *** [buildCPEStack]

    A device as far as its tree, its Inform and its endpoint go. Its generators,
    its software modules, its transport, its session and its handlers are
    components of their own, built from the same profile. *)
Record device := MkDevice {
  dID : string; dSerial : string; dInstance : Z; dTree : Tree; dIdentity : option Identity; dInform : gmap string (list string);
  dScheduled : bool; dStun : option StunClient.Paths; dEndpoint : option (Endpoint * authenticator); dPublishPath : string; dBoot : list string
}.
Section device.
Context (ParsePrefix : string → result error prefix) (Addr_String : bool → Z → string).
Context {R : Type} (ForCPE : string → R) (Intn : Z → R → Z * R).

(** [errors.Is(err, stun.ErrNotModelled)] *)
Definition is_not_modelled (e : error) : bool :=
  match e, ErrNotModelled with Errorf f [] None, Errorf f' _ _ => String.eqb f f' | _, _ => false end.
(** The CWMP half, on a tree that is stamped and filled in. *)
Definition cwmp_half (cfg : CpeConfig.Config) (m : mergedConfig) (id : string) (perCPEPath listener : bool) (t : Tree)
  : result error (Tree * gmap string (list string) * option StunClient.Paths * option (Endpoint * authenticator)) :=
  let lists := withForcedInformParams (mcInformValues m) (crForcedInformPath cfg listener) in
  _ ← map_err (λ e, Errorf "inform builder: %w" [] (Some e)) (NewBuilder t (mcDeviceIDPaths m) ∅ 0);
  let periodic := mcPeriodicInformPaths m in
  let '(t, r) := if paths_IsZero periodic then (t, Ok tt) else mark_periodic (periodic_leaves periodic) t in
  _ ← r;
  stun ← match StunClient.Detect t with
         | Ok p => Ok (Some p)
         | Err e => if is_not_modelled e then Ok None else Err e
         end;
  ep ← (if listener then ep ← map_err (λ e, Errorf "register CR endpoint: %w" [] (Some e)) (endpoint_of cfg (mcConnectionRequest m) t id perCPEPath);
                           Ok (Some ep)
        else Ok None);
  Ok (t, lists, stun, ep).

(** The device of one index, from the stamping of its serial. *)
Definition build_device (cfg : CpeConfig.Config) (p : Profile) (pl : plan) (listener : bool) (i : Z) : result error device :=
  let m := Merged p in
  let instance := i64 (offset pl + i) in
  let id := cpe_id instance in
  match Placeholder.stampSerial ParsePrefix Addr_String ForCPE Intn (pattern pl) (baseSerial pl) instance id (fcPools (mcFleet m)) with
  | Err e => Err (Errorf "serial pattern %q (cpe %s): %w" [pattern pl; id] (Some e))
  | Ok serial =>
      map_err (λ e, Errorf "build CPE %s (serial=%s): %w" [id; serial] (Some e))
        (let '(t, r) := Placeholder.prepare ParsePrefix Addr_String ForCPE Intn (Tree_ p) (Inform.SerialNumber (mcDeviceIDPaths m)) serial instance id
                          (fcPools (mcFleet m)) in
         _ ← r;
         identity ← (if String.eqb (USPBroker cfg) "" then Ok None
                     else idn ← map_err (λ e, Errorf "usp: %w" [] (Some e)) (uspIdentity t (mcDeviceIDPaths m)); Ok (Some idn));
         let boot := uspBootParameters (mcInformValues m) in
         if String.eqb (ACSURL cfg) "" then Ok (MkDevice id serial instance t identity ∅ false None None "" boot)
         else
           '(t, lists, stun, ep) ← cwmp_half cfg m id (perCPECRPath pl) listener t;
           Ok (MkDevice id serial instance t identity lists (negb (paths_IsZero (mcPeriodicInformPaths m))) stun ep
                 (if listener then CRPublishPath cfg else "") boot))
  end.
End device.

(** ** The pool of [buildFleet]

    What a build does to what the devices share is [Register], under a mutex;
    everything else of it depends on the index alone. *)
Section pool.
Context {A : Type} (build : nat → result error A) (size : nat).

(** A worker: about to take an index; holding one, about to look for a failure;
    building; about to report its failure; done. *)
Inductive worker := Taking | Checking (i : nat) | Building (i : nat) | Failing (e : error) | Done.
Record hall := MkHall { next : nat; firstErr : option error; stacks : list (option A); workers : list worker }.
Definition opening (n : nat) : hall := MkHall 0 None (replicate size None) (replicate (min n size) Taking).
Definition put_worker (w : nat) (x : worker) (h : hall) : hall := MkHall (next h) (firstErr h) (stacks h) (<[w := x]> (workers h)).
Definition works (x : worker) (w : nat) (h : hall) : option hall :=
  match x with
  | Taking => Some (put_worker w (Checking (S (next h))) (MkHall (S (next h)) (firstErr h) (stacks h) (workers h)))
  | Checking i =>
      Some (put_worker w (if (size <? i)%nat then Done else match firstErr h with Some _ => Done | None => Building i end) h)
  | Building i =>
      match build i with
      | Err e => Some (put_worker w (Failing e) h)
      | Ok a => Some (put_worker w Taking (MkHall (next h) (firstErr h) (<[pred i := Some a]> (stacks h)) (workers h)))
      end
  | Failing e => Some (put_worker w Done (MkHall (next h) (match firstErr h with None => Some e | Some e' => Some e' end) (stacks h) (workers h)))
  | Done => None
  end.
Definition perform (w : nat) (h : hall) : option hall := x ← workers h !! w; works x w h.
(** What [buildFleet] returns when [wg.Wait] does. *)
Definition built (h : hall) : result error (list (option A)) := match firstErr h with Some e => Err e | None => Ok (stacks h) end.
End pool.
Arguments opening : clear implicits.
Arguments hall : clear implicits.

(** ** The bootstrap sessions *)

(** When device [k] of [n] is due, in nanoseconds after the start. *)
Definition due (bootDelay bootRamp : Z) (n k : nat) : Z :=
  if (0 <? bootRamp)%Z then i64 (bootDelay + Z.quot (i64 (bootRamp * Z.of_nat k)) (Z.of_nat n)) else bootDelay.
(** The releases of the loop, for devices that have a session runner or not. *)
Fixpoint releases (bootDelay bootRamp : Z) (n k : nat) (runners : list bool) : list (nat * Z) :=
  match runners with
  | [] => []
  | has :: rest =>
      let later := releases bootDelay bootRamp n (S k) rest in
      if has then (k, due bootDelay bootRamp n k) :: later else later
  end.
Definition bootstrap_releases (bootDelay bootRamp : Z) (runners : list bool) : list (nat * Z) :=
  releases bootDelay bootRamp (length runners) 0 runners.
(** The results, in the order they arrive. *)
Definition first_failure (results : list (string * option error)) : option error :=
  head (omap (λ r : string * option error, (λ e, Errorf "cpe %s: %w" [r.1] (Some e)) <$> r.2) results).
Definition bootstrap_outcome (results : list (string * option error)) : result error unit :=
  let spawned := length results in
  let failed := length (omap snd results) in
  if (failed =? 0)%nat then Ok tt
  else if (failed =? spawned)%nat then Err (Errorf "all %d bootstrap session(s) failed; first: %w" [Strconv.Itoa (Z.of_nat spawned)] (first_failure results))
  else Ok tt.

(** ** USP commands ([uspOperateFunc]) *)

(** What a command does at once, and what a goroutine does later. *)
Inductive announcement := Boot (cause : string) | Announce (cause : string).
Inductive operate_effect :=
| ScheduleReboot (key : string) | QueueReboot (key : string) | ResetBootstrap_
| Say (a : announcement)
| DarkFor (delay : Z) (a : announcement).
Inductive operate_result := Answered (r : result error unit) | RunFirmware (c : firmwareCommand) | RunModules (c : softwareModulesCommand).
Section operate.
(** What the closures of the wiring see of the device, and what announcing at
    once comes to. *)
Context (tracker scheduleReboot announcer transport : bool) (rebootDelay : Z) (modules_root : option string) (say : announcement → option error).
Definition comeBack (a : announcement) (what : string) : list operate_effect * result error unit :=
  if negb announcer then ([], Err (errorf "no USP announcer wired for this CPE" []))
  else if negb transport || (rebootDelay <=? 0)%Z then
    ([Say a], match say a with Some e => Err (Errorf "re-announce after %s: %w" [what] (Some e)) | None => Ok tt end)
  else ([DarkFor rebootDelay a], Ok tt).
Definition uspOperate (command commandKey : string) : list operate_effect * operate_result :=
  if String.eqb command "Device.Reboot()" then
    let queued := if tracker then [if scheduleReboot then ScheduleReboot commandKey else QueueReboot commandKey] else [] in
    let '(l, r) := comeBack (Boot "RemoteReboot") "reboot" in (queued ++ l, Answered r)
  else if String.eqb command "Device.FactoryReset()" then
    let '(l, r) := comeBack (Announce "RemoteFactoryReset") "factory reset" in ((if tracker then [ResetBootstrap_] else []) ++ l, Answered r)
  else
    match parseFirmwareCommand command with
    | Some cmd => ([], RunFirmware cmd)
    | None =>
        match parseSoftwareModulesCommand modules_root command with
        | Some cmd => ([], RunModules cmd)
        | None => ([], Answered (Err (errorf "command %q is not implemented" [command])))
        end
    end.
End operate.
(** The controller an agent talks to. *)
Definition controller_id (configured : string) : string := if String.eqb configured "" then "self::controller" else configured.

Definition hasVersionFlag (args : list string) : bool := existsb (λ a, String.eqb a "--version" || String.eqb a "-version") args.

(** ** The session of a device

    What the handlers of [buildCPEStack] call back, on the state of [Cpe]. The
    schedulers are [None] when the profile sets no delay, [du_schedule] when it
    has no software modules. [scheduler.Schedule] and the runners are components
    of their own. *)
Record closures := MkClosures {
  scheduleTransfer : Actions.Pending → CPE → CPE;
  factoryReset_ : CPE → CPE * result error unit;
  scheduleReboot_ : option (string → CPE → CPE);
  scheduleFactoryReset_ : option ((CPE → CPE * result error unit) → CPE → CPE);
  diagnostics : string → CPE → CPE;
  du_schedule : option (DUStateRequest → CPE → CPE);
  deferredParameters : gset string
}.
(** The [factoryReset] closure. *)
Definition cpe_factoryReset (template : Tree) (serialPath serial : string) (w : CPE) : CPE * result error unit :=
  match tree_op w (Reset_ (get_tree w) (Some (Clone template))) with
  | (w, Err e) => (w, Err (Errorf "tree reset: %w" [] (Some e)))
  | (w, Ok _) =>
      match tree_op w (SetSystem (get_tree w) serialPath serial) with
      | (w, Err e) => (w, Err (Errorf "re-stamp serial: %w" [] (Some e)))
      | (w, Ok _) => (Handler.on_tracker ResetBootstrap w, Ok tt)
      end
  end.
Definition rpcMethods (modules : bool) : list string :=
  ["GetRPCMethods"; "GetParameterValues"; "GetParameterNames"; "GetParameterAttributes"; "SetParameterValues"; "SetParameterAttributes";
   "AddObject"; "DeleteObject"; "Reboot"; "FactoryReset"; "Download"; "Upload"] ++ (if modules then ["ChangeDUState"] else []).
Definition wired_handlers (quote : string → string) (now : Z) (c : closures) : list (Handler CPE) :=
  let modules := match du_schedule c with Some _ => true | None => false end in
  [NewGetRPCMethods (rpcMethods modules); NewGetParameterValues quote; NewGetParameterNames quote; NewGetParameterAttributes quote;
   NewSetParameterValuesDeferring quote (MkSpvHandler (Some (diagnostics c)) (Some cpe_valueChange) (deferredParameters c) true);
   NewSetParameterAttributes quote; NewAddObject quote; NewDeleteObject quote; NewReboot quote (scheduleReboot_ c);
   NewFactoryReset quote (Some (factoryReset_ c)) (scheduleFactoryReset_ c);
   MkHandler "Download" (dl_Handle quote (Some (scheduleTransfer c)) now); MkHandler "Upload" (up_Handle quote (Some (scheduleTransfer c)) now)] ++
  match du_schedule c with Some f => [NewChangeDUState quote (Some f)] | None => [] end.
(** The session, with the options main leaves at their zero values. *)
Definition wired_session (quote : string → string) (now : Z) (b : Builder) (c : closures) : result error (Session CPE) :=
  map_err (λ e, Errorf "session: %w" [] (Some e)) (NewSession b (wired_handlers quote now c) (MkEncoderOptions "" "" "" "") [] None).
