(* ===== verification/StartupProps.v ===== *)
(** * What start-up promises

    The pool builds a complete fleet, in order, or reports a failure, and ends;
    the bootstrap sessions are spread evenly over the ramp; every device has an
    endpoint of its own and announces its URL; its session accepts the methods it
    advertises, and a factory reset restores it. *)
From Stdlib Require Import ZArith Lia Ascii String.
From stdpp Require Import relations.
From S2P Require Import Prelude GoLib CpeErr Types Node Tree EventTracker Retry Soap Inform Xml Handler Cpe SetParameterValues Queries Actions SetParameterAttributes Session.
From S2P Require Import Prelude GoLib GoText GoAuth CpeErr Types Node Tree TreeProps Listing EventTracker Soap Inform Retry Scheduler Stun StunClient.
From S2P Require Import UspPaths UspQueries UspDiscovery UspMessages UspSubscriptions Firmware SoftwareModules ModulesGlue CrAuth Fleet Rows Blocks Loader LoaderProps GoFlag CpeConfig Startup.

(** ** The pool *)

Section pool.
Context {A : Type} (build : nat → result error A) (size : nat).
Definition pool_step (h h' : hall A) : Prop := ∃ w, perform build size w h = Some h'.
Definition pool_reachable (n : nat) (h : hall A) : Prop := rtc pool_step (opening A size n) h.

(** Where an index that was taken is. *)
Definition held_by (x : worker) (i : nat) : Prop := x = Checking i ∨ x = Building i.
Definition failing (x : worker) : Prop := match x with Failing _ => True | _ => False end.
Definition place_of (h : hall A) (i : nat) : Prop :=
  (∃ a, build i = Ok a ∧ stacks h !! pred i = Some (Some a)) ∨ (∃ x, x ∈ workers h ∧ (held_by x i ∨ failing x)) ∨ is_Some (firstErr h).
Definition sane (h : hall A) (x : worker) : Prop :=
  match x with
  | Taking => True
  | Checking i => 1 <= i <= next h
  | Building i => 1 <= i <= size
  | Failing e => ∃ i, 1 <= i <= size ∧ build i = Err e
  | Done => size < next h ∨ is_Some (firstErr h)
  end.
Record orderly (h : hall A) : Prop := {
  or_length : length (stacks h) = size;
  or_error : ∀ e, firstErr h = Some e → ∃ i, 1 <= i <= size ∧ build i = Err e;
  or_workers : Forall (sane h) (workers h);
  or_placed : ∀ i, 1 <= i <= size → i <= next h → place_of h i
}.

(** A worker that moves on without letting go of an index. *)
Lemma placed_moved h w x y h' : workers h !! w = Some x → workers h' = <[w := y]> (workers h) → (is_Some (firstErr h) → is_Some (firstErr h')) →
  (∀ i a, 1 <= i → build i = Ok a → stacks h !! pred i = Some (Some a) → stacks h' !! pred i = Some (Some a)) → ∀ i, 1 <= i →
  (held_by x i ∨ failing x → place_of h' i) → place_of h i → place_of h' i.
Proof.
  intros Hx Hw Hf Hs i Hi Hmine [(a&Ha&Hst)|[(z&Hz&Hh)|He]]; [left; exists a; split; [done|by apply Hs]| |by right; right; apply Hf].
  apply list_elem_of_lookup in Hz as [j Hj]. destruct (decide (j = w)) as [->|Hne].
  - rewrite Hx in Hj. injection Hj as ->. by apply Hmine.
  - right. left. exists z. split; [|done]. rewrite Hw. apply (list_elem_of_lookup_2 _ j). by rewrite list_lookup_insert_ne.
Qed.
Lemma sane_mono h h' x : next h <= next h' → (is_Some (firstErr h) → is_Some (firstErr h')) → sane h x → sane h' x.
Proof. intros Hn Hf. destruct x; cbn; try done; [lia|]. intros [?|?]; [left; lia|right; by apply Hf]. Qed.
Lemma orderly_moved h w x y h' : orderly h → workers h !! w = Some x → workers h' = <[w := y]> (workers h) → next h <= next h' →
  (is_Some (firstErr h) → is_Some (firstErr h')) → length (stacks h') = size → (∀ e, firstErr h' = Some e → ∃ i, 1 <= i <= size ∧ build i = Err e) →
  sane h' y → (∀ i, 1 <= i <= size → i <= next h' → place_of h' i) → orderly h'.
Proof.
  intros Ho Hx Hw Hn Hf Hl He Hy Hp. split; [done|done| |done]. rewrite Hw. apply Forall_insert; [|done].
  eapply Forall_impl; [apply Ho|]. intros z. by apply sane_mono.
Qed.
Lemma orderly_step h h' : orderly h → pool_step h h' → orderly h'.
Proof.
  intros Ho [w Hw]. apply bind_Some in Hw as (x&Hx&Hw). pose proof (proj1 (Forall_lookup _ _) (or_workers _ Ho) _ _ Hx) as Hsane.
  assert (w < length (workers h)) as Hlt by by eapply lookup_lt_Some.
  assert (∀ y (h1 : hall A), workers h1 = <[w := y]> (workers h) → y ∈ workers h1) as Hself.
  { intros y h1 ->. by apply (list_elem_of_lookup_2 _ w), list_lookup_insert_eq. }
  destruct x as [|i|i|e|]; cbn [works] in Hw; cbn [sane] in Hsane; [| | | |done].
  - injection Hw as <-. eapply orderly_moved; [done|done|done|cbn; lia|done|apply Ho|apply Ho|cbn; lia|]. cbn. intros i Hi Hn.
    destruct (decide (i = S (next h))) as [->|Hne]; [right; left; exists (Checking (S (next h))); split; [by eapply Hself|by left; left]|].
    eapply placed_moved; [done|done|done|done|lia| |apply Ho; lia]. intros [[[=]|[=]]|[]].
  - injection Hw as <-. destruct (Nat.ltb_spec size i) as [Hbig|Hsmall]; [|destruct (firstErr h) as [e|] eqn:Ef].
    + eapply orderly_moved; [done|done|done|cbn; lia|done|apply Ho|apply Ho|cbn; left; lia|]. cbn. intros j Hj Hn.
      eapply placed_moved; [done|done|done|done|lia| |by apply Ho]. intros [[[= ->]|[=]]|[]]. lia.
    + eapply orderly_moved; [done|done|done|cbn; lia|exact (λ H, H)|apply Ho|apply Ho|cbn; right; by rewrite Ef|]. cbn. intros j Hj Hn. right. right. cbn. by rewrite Ef.
    + eapply orderly_moved; [done|done|done|cbn; lia|exact (λ H, H)|apply Ho|apply Ho|cbn; lia|]. cbn. intros j Hj Hn.
      eapply placed_moved; [done|done|exact (λ H, H)|done|lia| |by apply Ho]. intros [[[= ->]|[=]]|[]]. right. left. exists (Building j). split; [by eapply Hself|by left; right].
  - destruct (build i) as [a|e] eqn:Eb; injection Hw as <-.
    + assert (pred i < length (stacks h)) as Hi by (rewrite (or_length _ Ho); lia).
      eapply orderly_moved; [done|done|done|cbn; lia|done|cbn; by rewrite length_insert, (or_length _ Ho)|apply Ho|done|]. cbn. intros j Hj Hn.
      eapply placed_moved; [done|done|done| |lia| |by apply Ho].
      * intros k b Hk Hb Hst. cbn. destruct (decide (k = i)) as [->|E]; [|by rewrite list_lookup_insert_ne by lia].
        rewrite list_lookup_insert_eq by done. congruence.
      * intros [[[=]|[= ->]]|[]]. left. exists a. split; [done|]. cbn. by rewrite list_lookup_insert_eq.
    + eapply orderly_moved; [done|done|done|cbn; lia|done|apply Ho|apply Ho|cbn; by exists i|]. cbn. intros j Hj Hn.
      eapply placed_moved; [done|done|done|done|lia| |by apply Ho]. intros [[[=]|[= ->]]|[]]. right. left. exists (Failing e). split; [by eapply Hself|by right].
  - injection Hw as <-. eapply orderly_moved; [done|done|done|cbn; lia| |apply Ho| |cbn; right; by destruct (firstErr h)|]; cbn.
    + intros [e' ->]. by eexists.
    + intros e' He. destruct (firstErr h) as [e0|] eqn:Ef; [apply Ho; by rewrite Ef|]. injection He as <-. done.
    + intros j Hj Hn. right. right. cbn. by destruct (firstErr h).
Qed.
Lemma orderly_opening n : orderly (opening A size n).
Proof.
  split; cbn; [by rewrite length_replicate|done| |lia]. by apply Forall_replicate.
Qed.

(** When every worker of the pool is done, either every index was built and what
    it gave is in its place, whichever worker built it, or the error returned is
    that of an index that failed. *)
Lemma pool_in_order (n : nat) (h : hall A) (Hn : 0 < n) (H : pool_reachable n h) (Hd : Forall (λ x, x = Done) (workers h)) :
  match built h with
  | Ok l => length l = size ∧ ∀ i, i < size → ∃ a, build (S i) = Ok a ∧ l !! i = Some (Some a)
  | Err e => ∃ i, 1 <= i <= size ∧ build i = Err e
  end.
Proof.
  assert (orderly h ∧ length (workers h) = min n size) as [Ho Hl].
  { apply (rtc_ind_r (λ h, orderly h ∧ length (workers h) = min n size) (opening A size n)) in H; [done|by split; [apply orderly_opening|cbn; rewrite length_replicate]|].
    intros h1 h2 _ Hs [Ho Hl]. split; [by eapply orderly_step|]. destruct Hs as [w Hw]. apply bind_Some in Hw as (x&Hx&Hw).
    rewrite <- Hl. destruct x as [|i|i|e|]; cbn in Hw; [| |destruct (build i)| |done]; injection Hw as <-; cbn; apply length_insert. }
  unfold built. destruct (firstErr h) as [e|] eqn:Ef; [by apply Ho|]. split; [apply Ho|]. intros i Hi.
  assert (size < next h) as Hnext.
  { destruct (workers h) as [|x l] eqn:Ew; [cbn in Hl; lia|]. pose proof (or_workers _ Ho) as Hw. rewrite ?Ew in Hw; rewrite ?Ew in Hd.
    apply Forall_cons in Hd as [-> _]. apply Forall_cons in Hw as [[?|Hf] _]; [done|]. rewrite Ef in Hf. by destruct Hf. }
  destruct (or_placed _ Ho (S i)) as [(a&Ha&Hst)|[(x&Hx&Hh)|Hf]]; [lia|lia|by exists a| |rewrite Ef in Hf; by destruct Hf].
  rewrite Forall_forall in Hd. rewrite (Hd x Hx) in Hh. by destruct Hh as [[[=]|[=]]|[]].
Qed.

(** *** It ends *)

(** What is left to do of a worker, before the last index and after it. *)
Definition rank (x : worker) : nat :=
  match x with
  | Taking => 4
  | Checking i => if (size <? i)%nat then 3 else 6
  | Building _ => 5
  | Failing _ => 1
  | Done => 0
  end.
Definition left_to_do (h : hall A) : nat := 4 * (size - next h) + sum_list (rank <$> workers h).
Lemma rank_insert l w x y : l !! w = Some x → sum_list (rank <$> <[w := y]> l) + rank x = sum_list (rank <$> l) + rank y.
Proof.
  revert w; induction l as [|z l IH]; intros [|w] H; [done..|injection H as ->; cbn; lia|]. specialize (IH w H).
  change (rank z + sum_list (rank <$> <[w:=y]> l) + rank x = rank z + sum_list (rank <$> l) + rank y)%nat. lia.
Qed.
Lemma less_to_do h h' : pool_step h h' → left_to_do h' < left_to_do h.
Proof.
  intros [w Hw]. apply bind_Some in Hw as (x&Hx&Hw). unfold left_to_do.
  destruct x as [|i|i|e|]; cbn [works] in Hw; [| |destruct (build i)| |done]; injection Hw as <-; cbn [next workers put_worker].
  - pose proof (rank_insert (workers h) w Taking (Checking (S (next h))) Hx) as E. cbn [rank] in E. destruct (Nat.ltb_spec size (S (next h))); lia.
  - pose proof (rank_insert _ _ _ (if (size <? i)%nat then Done else match firstErr h with Some _ => Done | None => Building i end) Hx) as E. cbn [rank] in E.
    destruct (Nat.ltb_spec size i); [cbn [rank] in E; lia|]. destruct (firstErr h); cbn [rank] in E; lia.
  - pose proof (rank_insert _ _ _ Taking Hx) as E. cbn [rank] in E. lia.
  - pose proof (rank_insert _ _ _ (Failing e) Hx) as E. cbn [rank] in E. lia.
  - pose proof (rank_insert _ _ _ Done Hx) as E. cbn [rank] in E. lia.
Qed.
(** The pool ends: it takes a bounded number of steps, and as long as a worker
    is not done there is one to take. *)
Theorem pool_ends (n k : nat) (h : hall A) :
  (nsteps pool_step k (opening A size n) h → k <= 4 * size + 4 * min n size) ∧ (nf pool_step h → Forall (λ x, x = Done) (workers h)).
Proof.
  split.
  - intros H. assert (∀ k h h', nsteps pool_step k h h' → k + left_to_do h' <= left_to_do h) as Hk.
    { clear. intros k. induction k as [|k IH]; intros h h' H; inversion H as [|? ? h1 ? Hs Hr]; subst; [lia|]. apply IH in Hr. apply less_to_do in Hs. lia. }
    apply Hk in H. unfold left_to_do at 2 in H. cbn [next workers opening] in H. rewrite Nat.sub_0_r, fmap_replicate, sum_list_replicate in H. cbn [rank] in H. lia.
  - intros Hnf. apply Forall_forall. intros x [w Hw]%list_elem_of_lookup. destruct (works build size x w h) as [h'|] eqn:E.
    + exfalso. apply Hnf. exists h', w. unfold perform. rewrite Hw. exact E.
    + destruct x as [|i|i|e|]; cbn in E; [done|done|by destruct (build i)|done|done].
Qed.
End pool.

(** ** The fleet *)

#[export] Instance cpe_id_inj : Inj (=) (=) cpe_id.
Proof. intros i j E. unfold cpe_id in E. apply str_app_inj_l in E. by apply Strconv.Itoa_inj. Qed.
Lemma endpoint_path_inj crPath id id' : endpoint_path crPath true id = endpoint_path crPath true id' → id = id'.
Proof. unfold endpoint_path. apply str_app_inj_l. Qed.

(** Marking the periodic leaves moves no value. *)
Lemma mark_periodic_view l t t' : mark_periodic l t = (t', Ok tt) → ∀ q, view t' q = view t q.
Proof.
  revert t; induction l as [|x l IH]; intros t H q; [by injection H as ->|]. cbn [mark_periodic] in H.
  destruct (GetAttributes t x) as [a|e]; [|done]. destruct (SetAttributes t x _) as [[t1 cs] [[]|e]] eqn:E; [|done].
  rewrite (IH _ H q). by apply SetAttributes_correct in E as (_&E&_).
Qed.

Section fleet.
Context (ParsePrefix : string → result error prefix) (Addr_String : bool → Z → string).
Context {R : Type} (ForCPE : string → R) (Intn : Z → R → Z * R).
Context (cfg : CpeConfig.Config) (p : Profile) (pl : plan) (listener : bool).
Definition build_index (i : nat) : result error device := build_device ParsePrefix Addr_String ForCPE Intn cfg p pl listener (Z.of_nat i).
(** The device of one instance: named and stamped for it, its tree the template
    with its serial and its placeholders, its USP identity read from that tree,
    its endpoint under its own name. *)
Record device_of (instance : Z) (d : device) : Prop := {
  do_instance : dInstance d = instance;
  do_id : dID d = cpe_id instance;
  do_serial : Placeholder.stampSerial ParsePrefix Addr_String ForCPE Intn (pattern pl) (baseSerial pl) instance (dID d) (fcPools (mcFleet (Merged p))) = Ok (dSerial d);
  do_tree : ∃ t, Placeholder.prepare ParsePrefix Addr_String ForCPE Intn (Tree_ p) (Inform.SerialNumber (mcDeviceIDPaths (Merged p))) (dSerial d) instance (dID d)
                   (fcPools (mcFleet (Merged p))) = (t, Ok tt) ∧ (∀ q, view (dTree d) q = view t q) ∧
                 (USPBroker cfg ≠ "" → ∃ idn, dIdentity d = Some idn ∧ uspIdentity t (mcDeviceIDPaths (Merged p)) = Ok idn);
  do_endpoint : ACSURL cfg ≠ "" → listener = true → ∃ au, buildCRAuthenticator (mcConnectionRequest (Merged p)) = Ok au ∧
    dEndpoint d = Some (MkEndpoint (endpoint_path (CRPath cfg) (perCPECRPath pl) (dID d)) (crThrottleWindow (mcConnectionRequest (Merged p))), au)
}.

Lemma cwmp_half_ok m id per t t' lists stun ep : cwmp_half cfg m id per listener t = Ok (t', lists, stun, ep) →
  (∀ q, view t' q = view t q) ∧
  (listener = true → ∃ au, buildCRAuthenticator (mcConnectionRequest m) = Ok au ∧
     ep = Some (MkEndpoint (endpoint_path (CRPath cfg) per id) (crThrottleWindow (mcConnectionRequest m)), au)).
Proof.
  unfold cwmp_half. intros H. destruct (map_err _ (NewBuilder _ _ _ _)) as [b|e]; [|done]. cbn [mbind result_bind] in H.
  destruct (if paths_IsZero _ then _ else _) as [t1 [[]|e]] eqn:Em; [|done]. cbn [mbind result_bind] in H.
  destruct (match Detect t1 with Ok _ => _ | Err _ => _ end) as [st|e]; [|done]. cbn [mbind result_bind] in H.
  destruct (if listener then _ else _) as [ep'|e] eqn:Ee; [|done]. cbn [mbind result_bind] in H. injection H as <- _ _ <-. split.
  - destruct (paths_IsZero _); [by injection Em as ->|exact (mark_periodic_view _ _ _ Em)].
  - intros ->. unfold endpoint_of in Ee. destruct (Tree.Get t1 _); [|done]. destruct (buildCRAuthenticator _) as [au|]; [|done].
    injection Ee as <-. by exists au.
Qed.
Lemma all_some {A} (l : list (option A)) : Forall is_Some l → ∃ ds, l = Some <$> ds.
Proof. induction 1 as [|? l [a ->] _ [ds ->]]; [by exists []|by exists (a :: ds)]. Qed.
Lemma build_index_ok i d : build_index i = Ok d → device_of (i64 (offset pl + Z.of_nat i)) d.
Proof.
  unfold build_index, build_device. cbv zeta. set (n := i64 _). destruct (Placeholder.stampSerial _ _ _ _ _ _ _ _ _) as [serial|e] eqn:Es; [|done].
  rewrite map_err_ok. destruct (Placeholder.prepare _ _ _ _ _ _ _ _ _ _) as [t [[]|e]] eqn:Ep; [|done]. cbn [mbind result_bind].
  destruct (if String.eqb (USPBroker cfg) "" then _ else _) as [idn|e] eqn:Ei; [|done]. cbn [mbind result_bind].
  assert (USPBroker cfg ≠ "" → ∃ x, idn = Some x ∧ uspIdentity t (mcDeviceIDPaths (Merged p)) = Ok x) as Hi.
  { intros Hb. rewrite (proj2 (String.eqb_neq _ _) Hb) in Ei. destruct (uspIdentity t _) as [x|]; [|done]. injection Ei as <-. by exists x. }
  destruct (String.eqb_spec (ACSURL cfg) "") as [Ea|Ea].
  - intros [= <-]. split; [done..|by exists t|done].
  - destruct (cwmp_half cfg _ _ _ _ _) as [[[[t' lists] st] ep]|e] eqn:Ec; [|done]. apply cwmp_half_ok in Ec as [Hv He].
    intros [= <-]. split; [done..|by exists t|by intros _].
Qed.

(** C33. The fleet of a run is complete, in order and without doubles. However
    the workers interleave, once they are done [buildFleet] returns a device for
    every instance of the run, each in its place, with an id no other has and,
    if the run has a listener, an endpoint no other has; or it returns the error
    of a device that could not be built. *)
Theorem fleet_in_order (n : nat) (h : hall device) (Hn : 0 < n) (Hp : settle ParsePrefix Addr_String cfg p = Ok pl)
  (Ho : (0 ≤ offset pl)%Z) (Hc : (offset pl + count pl < 2 ^ 63)%Z)
  (H : pool_reachable build_index (Z.to_nat (count pl)) n h) (Hd : Forall (λ x, x = Done) (workers h)) :
  match built h with
  | Ok l => ∃ ds : list device, l = Some <$> ds ∧ Z.of_nat (length ds) = count pl ∧
      (∀ i d, ds !! i = Some d → device_of (offset pl + Z.of_nat (S i)) d) ∧
      ∀ i j d1 d2, ds !! i = Some d1 → ds !! j = Some d2 →
        dID d1 = dID d2 ∨ (∃ e1 e2, dEndpoint d1 = Some e1 ∧ dEndpoint d2 = Some e2 ∧ ePath e1.1 = ePath e2.1) ∧ listener = true ∧ ACSURL cfg ≠ "" → i = j
  | Err e => ∃ i, 1 <= i <= Z.to_nat (count pl) ∧ build_index i = Err e
  end.
Proof.
  assert (1 ≤ count pl ∧ ((1 < count pl)%Z → perCPECRPath pl = true))%Z as [H1 Hper].
  { revert Hp. unfold settle. destruct (ids_IsZero _); [done|]. destruct (Pool.ValidatePoolCapacity _ _ _ _); [|done].
    destruct (Tree.Get _ _); [|done]. intros [= <-]. cbn. destruct (Z.ltb_spec (fcCount (mcFleet (Merged p))) 1); split; lia. }
  pose proof (pool_in_order _ _ n h Hn H Hd) as Hall. destruct (built h) as [l|e]; [|done]. destruct Hall as [Hl Hall].
  assert (∃ ds, l = Some <$> ds) as [ds ->].
  { apply all_some, Forall_lookup. intros i o Hi. destruct (Hall i) as (d&_&E); [apply lookup_lt_Some in Hi; lia|].
    rewrite Hi in E. injection E as ->. by exists d. }
  rewrite length_fmap in Hl.
  assert (∀ i d, ds !! i = Some d → device_of (offset pl + Z.of_nat (S i)) d) as Hds.
  { intros i d Hi. pose proof (lookup_lt_Some _ _ _ Hi). destruct (Hall i) as (d'&Hb&E); [lia|]. rewrite list_lookup_fmap, Hi in E. injection E as ->.
    apply build_index_ok in Hb. by rewrite i64_small in Hb by lia. }
  exists ds. split_and!; [done|lia|done|]. intros i j d1 d2 Hi Hj Hsame.
  pose proof (Hds _ _ Hi) as D1. pose proof (Hds _ _ Hj) as D2. assert (dID d1 = dID d2 → i = j) as Hid.
  { rewrite (do_id _ _ D1), (do_id _ _ D2). intros ?%cpe_id_inj. lia. }
  destruct Hsame as [?|((e1&e2&E1&E2&Ee)&Hlis&Ha)]; [by apply Hid|].
  destruct (decide (1 < count pl)%Z) as [Hm|]; [|apply lookup_lt_Some in Hi, Hj; lia].
  destruct (do_endpoint _ _ D1 Ha Hlis) as (a1&_&F1), (do_endpoint _ _ D2 Ha Hlis) as (a2&_&F2). rewrite E1 in F1. rewrite E2 in F2.
  injection F1 as ->. injection F2 as ->. cbn [fst ePath] in Ee. rewrite (Hper Hm) in Ee. by apply Hid, (endpoint_path_inj (CRPath cfg)).
Qed.
End fleet.

(** ** The ramp *)

(** The bootstrap sessions are spread over the ramp: device [k] of [n] is due
    [k] [n]-ths into it, all within it, and two neighbours are a [n]-th of it
    apart, to the nanosecond. *)
Theorem ramp_spreads (bootDelay ramp : Z) (n k : nat) (Hr : (0 < ramp)%Z) (Hn : (ramp * Z.of_nat n < 2 ^ 63)%Z) (Hd : (0 ≤ bootDelay)%Z)
  (Hs : (bootDelay + ramp < 2 ^ 63)%Z) (Hk : S k < n) :
  due bootDelay ramp n k = (bootDelay + ramp * Z.of_nat k / Z.of_nat n)%Z ∧
  (bootDelay ≤ due bootDelay ramp n k)%Z ∧ (due bootDelay ramp n (S k) < bootDelay + ramp)%Z ∧
  (ramp / Z.of_nat n ≤ due bootDelay ramp n (S k) - due bootDelay ramp n k ≤ ramp / Z.of_nat n + 1)%Z.
Proof.
  assert (∀ j, j < n → due bootDelay ramp n j = (bootDelay + ramp * Z.of_nat j / Z.of_nat n)%Z ∧ (0 ≤ ramp * Z.of_nat j / Z.of_nat n < ramp)%Z) as H.
  { intros j Hj. assert (0 ≤ ramp * Z.of_nat j / Z.of_nat n < ramp)%Z as Hb.
    { split; [apply Z.div_pos; nia|]. apply Z.div_lt_upper_bound; nia. }
    split; [|done]. unfold due. destruct (Z.ltb_spec 0 ramp); [|lia]. rewrite (i64_small (ramp * Z.of_nat j)) by nia. rewrite Z.quot_div_nonneg by nia.
    apply i64_small. lia. }
  destruct (H k ltac:(lia)) as [E1 B1], (H (S k) Hk) as [E2 B2]. rewrite E1, E2. split_and!; [done|lia|lia|..].
  all: replace (ramp * Z.of_nat (S k))%Z with (ramp * Z.of_nat k + ramp)%Z by lia; set (a := (ramp * Z.of_nat k)%Z); set (m := Z.of_nat n).
  all: pose proof (Z.div_mod a m ltac:(lia)); pose proof (Z.mod_pos_bound a m ltac:(lia)); pose proof (Z.div_mod ramp m ltac:(lia));
    pose proof (Z.mod_pos_bound ramp m ltac:(lia)); pose proof (Z.div_mod (a + ramp) m ltac:(lia)); pose proof (Z.mod_pos_bound (a + ramp) m ltac:(lia)); nia.
Qed.
(** Only a failure of every session is fatal. *)
Lemma bootstrap_fatal results : is_ok (bootstrap_outcome results) = false ↔ results ≠ [] ∧ Forall (λ r : string * option error, is_Some r.2) results.
Proof.
  assert (length (omap snd results) <= length results ∧ (length (omap snd results) = length results ↔ Forall (λ r : string * option error, is_Some r.2) results)) as [Hle Hall].
  { induction results as [|[x [e|]] l [IH1 IH2]]; cbn in *; [done|..].
    - split; [lia|]. rewrite Forall_cons. cbn. split; [intros [= H]; split; [by eexists|by apply IH2]|intros [_ H]; f_equal; by apply IH2].
    - split; [lia|]. rewrite Forall_cons. cbn. split; [intros H; lia|by intros [[? [=]] _]]. }
  unfold bootstrap_outcome. destruct (Nat.eqb_spec (length (omap snd results)) 0) as [E|E].
  - split; [done|]. intros [Hne Hf]. apply Hall in Hf. destruct results; [done|]. cbn in Hf, E. lia.
  - destruct (Nat.eqb_spec (length (omap snd results)) (length results)) as [E'|E'].
    + split; [intros _; split; [by intros ->|by apply Hall]|done].
    + split; [done|]. intros [_ Hf]. by apply Hall in Hf.
Qed.

(** ** Endpoints *)

Section endpoints.
Context (cfg : CpeConfig.Config) (cr : ConnectionRequestConfig) (tree : Z → Tree).
Definition path_of (i : Z) : string := endpoint_path (CRPath cfg) true (cpe_id i).
Fixpoint register_all (l : list Z) (ln : CrAuth.Listener) : result error CrAuth.Listener :=
  match l with
  | [] => Ok ln
  | i :: l => '(ln, _) ← registerCREndpoint cfg cr (tree i) (cpe_id i) true ln; register_all l ln
  end.
Lemma path_of_inj i j : path_of i = path_of j → i = j.
Proof. unfold path_of. intros H. apply endpoint_path_inj in H. by apply cpe_id_inj. Qed.
Lemma path_of_slash i : Strings.HasPrefix (CRPath cfg) "/" = true → Strings.HasPrefix (path_of i) "/" = true.
Proof.
  unfold path_of, endpoint_path, Strings.HasPrefix. destruct (CRPath cfg) as [|c p]; [done|]. change (String.prefix "/" (String c p)) with (if ascii_dec "/" c then String.prefix "" p else false).
  destruct (ascii_dec "/" c) as [<-|]; [|done]. intros _. set (q := if Strings.HasSuffix _ _ then _ else _).
  assert (∃ r, q = String "/" r) as [r ->] by (unfold q; destruct (Strings.HasSuffix _ _); by eexists).
  change (String "/" r +:+ cpe_id i) with (String "/" (r +:+ cpe_id i)). cbn [String.prefix]. destruct (ascii_dec "/" "/"); [by destruct (r +:+ cpe_id i)|done].
Qed.

(** Every device has an endpoint of its own. However the workers of the pool
    interleave, no registration of a fleet is refused, each device is found under
    its path, and the listener has no other paths. *)
Theorem endpoints_of_their_own (l : list Z) (ln : CrAuth.Listener) (au : authenticator) (Hs : started ln = false) (He : endpoints ln = ∅)
  (Hp : Strings.HasPrefix (CRPath cfg) "/" = true) (Ha : buildCRAuthenticator cr = Ok au)
  (Ht : ∀ i, i ∈ l → is_ok (Tree.Get (tree i) (CRPublishPath cfg)) = true) (Hn : NoDup l) :
  ∃ ln', register_all l ln = Ok ln' ∧ started ln' = false ∧
    ∀ path ep, endpoints ln' !! path = Some ep ↔ ∃ i, i ∈ l ∧ path = path_of i ∧ ep = MkEndpoint path (crThrottleWindow cr).
Proof.
  assert (∀ l ln, started ln = false → (∀ i, i ∈ l → is_ok (Tree.Get (tree i) (CRPublishPath cfg)) = true) → NoDup l → (∀ i, i ∈ l → endpoints ln !! path_of i = None) →
    ∃ ln', register_all l ln = Ok ln' ∧ started ln' = false ∧
      ∀ path ep, endpoints ln' !! path = Some ep ↔ endpoints ln !! path = Some ep ∨ ∃ i, i ∈ l ∧ path = path_of i ∧ ep = MkEndpoint path (crThrottleWindow cr)) as H.
  { clear l ln Hs He Ht Hn. intros l. induction l as [|i l IH]; intros ln Hs Ht Hn Hfree.
    - exists ln. split_and!; [done|done|]. intros path ep. split; [by left|]. by intros [?|(?&?%elem_of_nil&_)].
    - apply NoDup_cons in Hn as [Hi Hn]. set (ln1 := MkListener (<[path_of i := MkEndpoint (path_of i) (crThrottleWindow cr)]> (endpoints ln)) (started ln)).
      assert (registerCREndpoint cfg cr (tree i) (cpe_id i) true ln = Ok (ln1, path_of i)) as E.
      { assert (endpoint_of cfg cr (tree i) (cpe_id i) true = Ok (MkEndpoint (path_of i) (crThrottleWindow cr), au)) as E0.
        { unfold endpoint_of. specialize (Ht i ltac:(left)). destruct (Tree.Get (tree i) _) as [v|]; [|done]. by rewrite Ha. }
        assert (Register (MkEndpoint (path_of i) (crThrottleWindow cr)) ln = Ok ln1) as E1.
        { unfold Register. cbn [ePath]. rewrite Hs, (path_of_slash i Hp). assert (String.eqb (path_of i) "" = false) as ->.
          { pose proof (path_of_slash i Hp) as H. by destruct (path_of i). }
          rewrite bool_decide_false; [unfold ln1; by rewrite Hs|]. rewrite Hfree by left. by intros [? [=]]. }
        unfold registerCREndpoint. rewrite E0. cbn -[Register path_of]. by rewrite E1. }
      destruct (IH ln1) as (ln'&E'&Hs'&Hl); [done|intros j Hj; apply Ht; by right|done| |].
      { intros j Hj. unfold ln1. cbn [endpoints]. rewrite lookup_insert_ne; [apply Hfree; by right|]. intros ?%path_of_inj. by subst. }
      exists ln'. cbn [register_all]. rewrite E. cbn. split_and!; [done|done|]. intros path ep. rewrite Hl. unfold ln1. cbn [endpoints].
      rewrite lookup_insert_Some. setoid_rewrite elem_of_cons. split.
      + intros [[[<- <-]|[_ ?]]|(j&Hj&->&->)]; [right; exists i; auto|by left|right; exists j; auto].
      + intros [H0|(j&[->|Hj]&->&->)]; [|by left; left|right; by exists j]. left. right. split; [|done]. intros Ep.
        pose proof (Hfree i ltac:(left)) as Hf. rewrite Ep in Hf. congruence. }
  destruct (H l ln) as (ln'&E&Hs'&Hl); [done|done|done|intros i _; by rewrite He|]. exists ln'. split_and!; [done|done|]. intros path ep.
  rewrite Hl, He. split; [intros [H0|?]; [by rewrite lookup_empty in H0|done]|by right].
Qed.
End endpoints.

(** ** The connection-request URL *)

Lemma forced_everywhere base path code paths : path ≠ "" → withForcedInformParams base path !! code = Some paths →
  path ∈ paths ∧ ∃ paths0, base !! code = Some paths0 ∧ ∀ x, x ∈ paths ↔ x ∈ paths0 ∨ x = path.
Proof.
  intros Hne. unfold withForcedInformParams. rewrite (proj2 (String.eqb_neq _ _) Hne). cbn. destruct (bool_decide_reflect (base = ∅)) as [->|_]; [by rewrite lookup_empty|].
  rewrite lookup_fmap. intros (p0&Hp0&->)%fmap_Some. destruct (bool_decide_reflect (path ∈ p0)) as [Hin|Hin].
  - split; [done|]. exists p0. split; [done|]. intros x. split; [by left|]. by intros [?| ->].
  - split; [apply elem_of_app; right; by left|]. exists p0. split; [done|]. intros x. by rewrite elem_of_app, list_elem_of_singleton.
Qed.
(** The ACS learns where to call. Once its URL is published, a device reports
    the leaf that holds it in every Inform it has a parameter list for, besides
    what the profile lists. *)
Theorem url_announced (SplitHostPort_ok : string → bool) (JoinHostPort : string → string → string) (cfg : CpeConfig.Config) (advertise : string) (a : address)
  (id ep : string) (base : gmap string (list string)) (t : Tree) (v : Value) (Hep : ep ≠ "") (Hp : CRPublishPath cfg ≠ "")
  (Hv : Tree.Get t (CRPublishPath cfg) = Ok v)
  (Hu : valid_raw (vType v) (URL SplitHostPort_ok JoinHostPort advertise (Some a) ep) = true) :
  ∃ t', publishCRURL SplitHostPort_ok JoinHostPort advertise (Some a) id ep (CRPublishPath cfg) t = (t', Ok tt) ∧
    Raw <$> Tree.Get t' (CRPublishPath cfg) = Ok (URL SplitHostPort_ok JoinHostPort advertise (Some a) ep) ∧
    ∀ code paths, withForcedInformParams base (crForcedInformPath cfg true) !! code = Some paths →
      CRPublishPath cfg ∈ paths ∧ ∃ paths0, base !! code = Some paths0 ∧ ∀ x, x ∈ paths ↔ x ∈ paths0 ∨ x = CRPublishPath cfg.
Proof.
  unfold publishCRURL. rewrite (proj2 (String.eqb_neq _ _) Hep), (proj2 (String.eqb_neq _ _) Hp). cbn [orb].
  set (url := URL _ _ _ _ _). assert (String.eqb url "" = false) as -> by (unfold url, URL; destruct (negb _); reflexivity).
  destruct (SetSystem_writes t (CRPublishPath cfg) url v Hv) as (t'&cs&p&E&Hpp&Hq); [done|]. rewrite E. exists t'. split; [done|]. split.
  - assert (Tree.Get t' (CRPublishPath cfg) = Ok (with_raw url v)) as ->; [|done]. apply Get_view. exists p. split; [done|]. rewrite Hq. unfold spec_update.
    by rewrite decide_True.
  - intros code paths Hc. by apply forced_everywhere in Hc.
Qed.

(** ** A fleet *)

Fixpoint pool_run {A} (build : nat → result error A) (size : nat) (l : list nat) (h : hall A) : option (hall A) :=
  match l with [] => Some h | w :: l => perform build size w h ≫= pool_run build size l end.
Lemma pool_ran {A} (build : nat → result error A) size l h h' : pool_run build size l h = Some h' → rtc (pool_step build size) h h'.
Proof.
  revert h; induction l as [|w l IH]; intros h H; [injection H as ->; done|]. cbn in H. apply bind_Some in H as (h1&H1&H2).
  eapply rtc_l; [by exists w|by apply IH].
Qed.
(** The two devices of a profile, which two workers build; the second is finished
    first. *)
Definition ex_fleet_cfg : CpeConfig.Config :=
  put SAcsURL (VString "http://acs/") (put SProfile (VString "p.yaml") (put SCrPublishPath (VString "D.User") (put SCrBindAddr (VString ":0") defaults))).
Definition ex_plan : plan := match settle ex_prefix ex_addr ex_fleet_cfg ex_loaded with Ok pl => pl | Err _ => MkPlan 0 0 "" 0 "" false end.
Definition ex_device (i : nat) : result error device := build_index ex_prefix ex_addr (λ _, tt) (λ _ r, (0%Z, r)) ex_fleet_cfg ex_loaded ex_plan true i.
Definition ex_turns : list nat := [0; 1; 0; 1; 1; 1; 1; 0; 0; 0].
Definition ex_hall : hall device := default (opening device 2 2) (pool_run ex_device 2 ex_turns (opening device 2 2)).
Lemma ex_hall_ran : pool_run ex_device 2 ex_turns (opening device 2 2) = Some ex_hall.
Proof. unfold ex_hall. assert (is_Some (pool_run ex_device 2 ex_turns (opening device 2 2))) as [h ->] by (apply is_Some_alt; vm_compute; exact I). done. Qed.
Lemma fleet_in_order_witness : ∃ ds, built ex_hall = Ok (Some <$> ds) ∧ length ds = 2 ∧ ∀ i d, ds !! i = Some d → dID d = cpe_id (Z.of_nat (S i)).
Proof.
  assert (is_ok (built ex_hall) = true) as Hok by (vm_compute; reflexivity).
  assert (Forall (λ x, x = Done) (workers ex_hall)) as Hd.
  { assert (workers ex_hall = [Done; Done]) as -> by (vm_compute; reflexivity). repeat constructor. }
  assert (count ex_plan = 2%Z ∧ offset ex_plan = 0%Z) as [Hc Ho] by (split; vm_compute; reflexivity).
  pose proof (fleet_in_order ex_prefix ex_addr (λ _, tt) (λ _ r, (0%Z, r)) ex_fleet_cfg ex_loaded ex_plan true 2 ex_hall ltac:(lia)
    ltac:(vm_compute; reflexivity) ltac:(rewrite Ho; lia) ltac:(rewrite Ho, Hc; lia) ltac:(rewrite Hc; exact (pool_ran _ _ _ _ _ ex_hall_ran)) Hd) as H.
  destruct (built ex_hall) as [l|e]; [|discriminate Hok]. destruct H as (ds&->&Hl&Hds&_). exists ds. split; [reflexivity|]. rewrite Hc in Hl. split; [lia|].
  intros i d Hi. pose proof (do_id _ _ _ _ _ _ _ _ _ _ (Hds i d Hi)) as E. rewrite Ho in E. exact E.
Defined.
Lemma ramp_spreads_witness : due 0 (600 * Second) 100 1 = (6 * Second)%Z ∧ (due 0 (600 * Second) 100 2 < 0 + 600 * Second)%Z.
Proof.
  destruct (ramp_spreads 0 (600 * Second) 100 1) as (E&_&H&_); [vm_compute; done..|lia|]. split; [exact E|exact H].
Defined.

Definition ex_crs : Tree := set_root New_ (set_children (list_to_map [("URL", NewLeaf (MkValue TypeString "" false)); ("Serial", NewLeaf (MkValue TypeString "S" false))]) NewBranch).
Definition ex_cfg : CpeConfig.Config := put SCrPublishPath (VString "URL") (put SCrBindAddr (VString ":0") defaults).
Definition ex_cr : ConnectionRequestConfig := MkCR "" "" 0 "" "".
Lemma endpoints_of_their_own_witness :
  ∃ ln', register_all ex_cfg ex_cr (λ _, ex_crs) [2; 1]%Z (MkListener ∅ false) = Ok ln' ∧ endpoints ln' !! "/cr/cpe-1" = Some (MkEndpoint "/cr/cpe-1" 0).
Proof.
  destruct (endpoints_of_their_own ex_cfg ex_cr (λ _, ex_crs) [2; 1]%Z (MkListener ∅ false) Permit) as (ln'&E&_&H);
    [reflexivity|reflexivity|vm_compute; reflexivity|reflexivity|intros; vm_compute; reflexivity|by apply (bool_decide_unpack _)|].
  exists ln'. split; [exact E|]. apply H. exists 1%Z. split; [right; left|by split; vm_compute].
Defined.
Definition ex_address : address := MkAddress "0.0.0.0" true 7547.
Lemma url_announced_witness :
  ∃ t', publishCRURL (λ _, false) (λ h p, h +:+ ":" +:+ p) "" (Some ex_address) "cpe-1" "/cr" "URL" ex_crs = (t', Ok tt) ∧ Raw <$> Tree.Get t' "URL" = Ok "http://127.0.0.1:7547/cr".
Proof.
  destruct (url_announced (λ _, false) (λ h p, h +:+ ":" +:+ p) ex_cfg "" ex_address "cpe-1" "/cr" ∅ ex_crs (MkValue TypeString "" false)) as (t'&E&H&_);
    [done|done|vm_compute; reflexivity|vm_compute; reflexivity|]. exists t'. split; [exact E|exact H].
Defined.

(** ** The session of a device *)

Lemma register_all_of {W} (hs : list (Handler W)) m : NoDup (Handler.Method <$> hs) →
  (∀ h, h ∈ hs → Handler.Method h ≠ "" ∧ m !! Handler.Method h = None) →
  ∃ m', Session.register hs m = Ok m' ∧ (∀ h, h ∈ hs → m' !! Handler.Method h = Some h) ∧ (∀ k, k ∉ Handler.Method <$> hs → m' !! k = m !! k).
Proof.
  revert m; induction hs as [|h hs IH]; intros m Hn Hm; [exists m; split_and!; [done|by intros ? ?%elem_of_nil|done]|].
  apply NoDup_cons in Hn as [Hh Hn]. destruct (Hm h ltac:(left)) as [Hne Hfree]. cbn [Session.register].
  rewrite (proj2 (String.eqb_neq _ _) Hne), Hfree. destruct (IH (<[Handler.Method h := h]> m)) as (m'&E&Hin&Hout); [done| |].
  - intros x Hx. destruct (Hm x ltac:(by right)). split; [done|]. rewrite lookup_insert_ne; [done|]. intros Ex. apply Hh. rewrite Ex.
    apply list_elem_of_fmap. by exists x.
  - exists m'. split_and!; [done| |].
    + intros x [->|Hx]%elem_of_cons; [rewrite Hout by done; apply lookup_insert_eq|by apply Hin].
    + intros x Hx. cbn in Hx. apply not_elem_of_cons in Hx as [? ?]. rewrite Hout by done. by rewrite lookup_insert_ne.
Qed.
Definition has_modules (c : closures) : bool := match du_schedule c with Some _ => true | None => false end.
Lemma wired_names quote now c : Handler.Method <$> wired_handlers quote now c = rpcMethods (has_modules c).
Proof. unfold wired_handlers, has_modules. by destruct (du_schedule c). Qed.
Lemma rpcMethods_NoDup b : NoDup (rpcMethods b) ∧ "" ∉ rpcMethods b.
Proof. destruct b; split; by apply (bool_decide_unpack _). Qed.
Lemma wired_session_ok quote now b c : ∃ s, wired_session quote now b c = Ok s ∧ Session.inform s = b ∧
  (∀ h, h ∈ wired_handlers quote now c → Session.handlers s !! Handler.Method h = Some h) ∧
  (∀ m, m ∉ rpcMethods (has_modules c) → Session.handlers s !! m = None).
Proof.
  destruct (rpcMethods_NoDup (has_modules c)) as [Hn He]. rewrite <- (wired_names quote now c) in Hn, He.
  destruct (register_all_of (wired_handlers quote now c) ∅ Hn) as (m&E&Hin&Hout).
  { intros h Hh. split; [|done]. intros Eh. apply He. apply list_elem_of_fmap. by exists h. }
  unfold wired_session, NewSession. rewrite E. eexists. split; [reflexivity|]. cbn [Session.inform Session.handlers]. split_and!; [done|done|].
  intros x Hx. rewrite Hout; [done|by rewrite wired_names].
Qed.

(** A device accepts what it advertises. [buildCPEStack] always gets its
    session; the methods GetRPCMethods lists, [ChangeDUState] among them when
    the profile has software modules, are exactly those that reach a handler,
    and any other is refused with fault 9000 and leaves the device alone. *)
Theorem rpc_methods_in_sync (quote : string → string) (now : Z) (b : Builder) (c : closures) :
  ∃ s, wired_session quote now b c = Ok s ∧
    (∀ m, is_Some (Session.handlers s !! m) ↔ m ∈ rpcMethods (has_modules c)) ∧
    ∀ (id : string) (req : Xml.reader) (w : CPE),
      (∃ body env, grm_Handle (rpcMethods (has_modules c)) w req = (w, Ok body) ∧
         dispatch quote s "GetRPCMethods" id req w = (w, Ok env) ∧ encodeRequest (Session.encOpts s) id "GetRPCMethodsResponse" body = Ok env) ∧
      ∀ m, m ∉ rpcMethods (has_modules c) →
        dispatch quote s m id req w = (w, Ok (encodeFault (Session.encOpts s) id (Soap.MkFault 9000 "Method not supported" []))).
Proof.
  destruct (wired_session_ok quote now b c) as (s&E&_&Hin&Hout). exists s. split; [done|]. split.
  - intros m. split.
    + intros [h Hh]. destruct (decide (m ∈ rpcMethods (has_modules c))); [done|]. by rewrite Hout in Hh.
    + rewrite <- (wired_names quote now c). intros (h&->&Hh)%list_elem_of_fmap. exists h. by apply Hin.
  - intros id req w. split.
    + destruct (encodeRequest_ok (Session.encOpts s) id "GetRPCMethodsResponse" (match grm_Handle (rpcMethods (has_modules c)) w req with (_, Ok body) => body | _ => "" end)) as [env He]; [done|].
      eexists _, env. split; [reflexivity|]. split; [|exact He].
      assert (NewGetRPCMethods (rpcMethods (has_modules c)) ∈ wired_handlers quote now c) as Hg by left. apply Hin in Hg.
      unfold dispatch. cbn [Handler.Method NewGetRPCMethods] in Hg. rewrite Hg. cbn [Handler.Handle NewGetRPCMethods]. unfold grm_Handle in *.
      cbn [append] in *. change ("GetRPCMethods" +:+ "Response") with "GetRPCMethodsResponse". by rewrite He.
    + intros m Hm. unfold dispatch. by rewrite Hout.
Qed.

(** The observer of the tree writes nothing in it. *)
Lemma cpe_observed_tree cs (w : CPE) : get_tree (observed cs w) = get_tree w ∧ (bootstrapDone (cTracker (observed cs w)) = bootstrapDone (cTracker w)).
Proof.
  cbn [observed CPE_tree]. revert w; induction cs as [|ch cs IH]; intros w; [done|]. cbn [foldl]. destruct (IH (cpe_observer w ch)) as [-> ->].
  unfold cpe_observer, cpe_valueChange, RecordValueChange. repeat case_match; done.
Qed.
(** The template with the serial number stamped, and a BOOTSTRAP owed. *)
Definition restored (template : Tree) (serialPath serial : string) (v : Value) (w : CPE) : Prop :=
  ∃ p, parsePath serialPath = Ok p ∧ (∀ q, view (cTree w) q = spec_update p (with_raw serial v) (view template) q) ∧
    ∀ trigger, MkEvent EventBootstrap "" ∈ (NextSessionEvents (cTracker w) trigger).1.
Lemma cpe_factoryReset_restores template serialPath serial v (w : CPE) :
  Tree.Get template serialPath = Ok v → valid_raw (vType v) serial = true →
  ∃ w', cpe_factoryReset template serialPath serial w = (w', Ok tt) ∧ restored template serialPath serial v w'.
Proof.
  intros Hv Hr. set (t0 := set_root (get_tree w) (root (Clone template))).
  assert (Tree.Get t0 serialPath = Ok v) as Hv0.
  { apply Get_view. apply Get_view in Hv as (p&Hp&Hv). exists p. split; [done|]. unfold t0, view. cbn. by rewrite clone_id. }
  destruct (SetSystem_writes t0 serialPath serial v Hv0 Hr) as (t1&cs&p&E1&Hp&Hq).
  set (w1 := observed cs (put_tree t1 (put_tree t0 w))). exists (Handler.on_tracker ResetBootstrap w1). split; [|exists p; split_and!; [done|..]].
  - unfold cpe_factoryReset, Reset_, tree_op. rewrite observed_nil, get_put_tree. fold t0. rewrite E1. by fold w1.
  - intros q. change (cTree _) with (get_tree w1). unfold w1. rewrite (proj1 (cpe_observed_tree _ _)), get_put_tree, Hq.
    unfold spec_update, t0, view. cbn. by rewrite clone_id.
  - intros trigger. apply bootstrap_until_acknowledged. exact TriggerStartup.
Qed.

(** C36. FactoryReset, end to end, on a device whose template has a serial leaf
    that takes its number. A session answers it with success. Where the
    profile sets no delay, the template is then back with the serial number
    stamped and a BOOTSTRAP is owed; where it sets one, all the answer leaves
    is what handing the reset to the scheduler does, and the reset handed over
    does the same to the device whenever it is run, whatever the device is by
    then. *)
Theorem factory_reset_restores (quote : string → string) (now : Z) (b : Builder) (c : closures) (template : Tree) (serialPath serial : string)
  (v : Value) (id : string) (req : Xml.reader) (w : CPE)
  (Hc : factoryReset_ c = cpe_factoryReset template serialPath serial)
  (Hv : Tree.Get template serialPath = Ok v) (Hr : valid_raw (vType v) serial = true) :
  ∃ s env, wired_session quote now b c = Ok s ∧ encodeRequest (Session.encOpts s) id "FactoryResetResponse" "" = Ok env ∧
    match scheduleFactoryReset_ c with
    | None => ∃ w', dispatch quote s "FactoryReset" id req w = (w', Ok env) ∧ restored template serialPath serial v w'
    | Some schedule => ∃ reset, dispatch quote s "FactoryReset" id req w = (schedule reset w, Ok env) ∧
        ∀ later, ∃ w', reset later = (w', Ok tt) ∧ restored template serialPath serial v w'
    end.
Proof.
  destruct (wired_session_ok quote now b c) as (s&E&_&Hin&_).
  assert (NewFactoryReset quote (Some (factoryReset_ c)) (scheduleFactoryReset_ c) ∈ wired_handlers quote now c) as Hf.
  { unfold wired_handlers. apply elem_of_app. left. do 9 right. left. }
  apply Hin in Hf. destruct (encodeRequest_ok (Session.encOpts s) id "FactoryResetResponse" "") as [env He]; [done|].
  exists s, env. split; [done|]. split; [done|].
  unfold dispatch. cbn [Handler.Method NewFactoryReset] in Hf. rewrite Hf. cbn [Handler.Handle NewFactoryReset]. unfold fr_Handle.
  change ("FactoryReset" +:+ "Response") with "FactoryResetResponse". destruct (scheduleFactoryReset_ c) as [schedule|].
  - exists (factoryReset_ c). rewrite He, Hc. split; [done|]. intros later. by apply cpe_factoryReset_restores.
  - destruct (cpe_factoryReset_restores template serialPath serial v w Hv Hr) as (w'&E1&Hw'). exists w'. by rewrite Hc, E1, He.
Qed.

Definition ex_closures : closures := MkClosures (λ _ w, w) (cpe_factoryReset ex_crs "Serial" "S9") None None (λ _ w, w) None ∅.
Lemma factory_reset_restores_witness :
  ∃ s w' env, wired_session id 0 (Session.inform ex_session) ex_closures = Ok s ∧ dispatch id s "FactoryReset" "7" (Session.ex_message "FactoryReset") ex_cpe = (w', Ok env) ∧
    view (cTree w') ["Serial"] = Some (MkValue TypeString "S9" false) ∧ view (cTree w') ["URL"] = Some (MkValue TypeString "" false).
Proof.
  destruct (factory_reset_restores id 0 (Session.inform ex_session) ex_closures ex_crs "Serial" "S9" (MkValue TypeString "S" false) "7" (Session.ex_message "FactoryReset") ex_cpe)
    as (s&env&E1&_&w'&E2&p&Hp&Hv&_); [reflexivity|vm_compute; reflexivity|vm_compute; reflexivity|].
  exists s, w', env. split; [exact E1|]. split; [exact E2|]. assert (p = ["Serial"]) as -> by (vm_compute in Hp; congruence). rewrite !Hv. split; reflexivity.
Defined.

(** ** Against the intent *)

(** The product of the ramp and an index wraps: of a hundred and fifty thousand
    devices spread over a day, the last are due before the start, at once. *)
Lemma long_ramp_wraps : (due 0 (86400 * Second) 150000 149999 < 0)%Z ∧ (0 < due 0 (86400 * Second) 150000 106751 < 86400 * Second)%Z.
Proof. split; [|split]; vm_compute; reflexivity. Qed.
(** A sum that wraps is no instance to check: any pool has room for it. *)
Lemma wrapped_offset_unchecked ParsePrefix Addr_String pools :
  Pool.ValidatePoolCapacity ParsePrefix Addr_String pools (i64 (2 ^ 63 - 1 + 1)) = Ok tt.
Proof. reflexivity. Qed.
(** A factory reset puts back the template, whose URL is empty, and nothing
    publishes it again. *)
Lemma factory_reset_unpublishes :
  let published := (publishCRURL (λ _, false) (λ h p, h +:+ ":" +:+ p) "" (Some ex_address) "cpe-1" "/cr" "URL" ex_crs).1 in
  let reset := (SetSystem (Reset_ published (Some (Clone ex_crs))).1.1 "Serial" "S").1.1 in
  (Raw <$> Tree.Get published "URL", Raw <$> Tree.Get reset "URL") = (Ok "http://127.0.0.1:7547/cr", Ok "").
Proof. vm_compute. reflexivity. Qed.
(** Over USP a factory reset re-arms BOOTSTRAP and announces the device: nothing
    puts its parameters back, and of a dual-stack device no session is asked for. *)
Lemma usp_reset_keeps_tree schedule root say key :
  uspOperate true schedule true true 5 root say "Device.FactoryReset()" key = ([ResetBootstrap_; DarkFor 5 (Announce "RemoteFactoryReset")], Answered (Ok tt)).
Proof. reflexivity. Qed.
